(* ===== verification/_CoqProject ===== *)
-Q . S2P
Prelude.v
Libkern.v
Bitmap.v
BpfFilter.v
BpfSafety.v
BpfMbuf.v
Clist.v
ClistBits.v
ClistQueue.v
ClistSpec.v
Extent.v
ExtentRegions.v
ExtentAlloc.v
ExtentFree.v
ExtentSpec.v
ExtentSub.v
ExtentSubSpec.v
Lockf.v
LockfList.v
LockfClear.v
LockfSet.v
LockfSpec.v
Sched.v
SchedQueue.v
SchedInv.v
SchedOps.v
SchedStep.v
SchedSpec.v
Rwlock.v
RwlockInv.v
RwlockSafe.v
RwlockSpec.v
Quad.v
QuadWord.v
QuadDiv.v
QuadShift.v
QuadSpec.v
Timeout.v
TimeoutInv.v
TimeoutOps.v
TimeoutSpec.v
Filedesc.v
FdMap.v
FdTable.v
FdAlloc.v
MapSum.v
Files.v
FdInv.v
FdBooks.v
FdOwn.v
FdOps.v
FdCalls.v
FdDup.v
FdOpen.v
FdFork.v
FdSteps.v
FdEffect.v
FdLive.v
FdSpec.v
Sem.v
SemUndo.v
SemOp.v
SemInv.v
SemSteps.v
SemTry.v
SemSafe.v
SemWake.v
SemLive.v
SemSpec.v
InCksum.v
InCksumSpec.v
CksumSpec.v
Ffs.v
FfsFile.v
FfsMap.v
FfsInv.v
FfsCg.v
FfsCluster.v
FfsGrow.v
FfsSpec.v
