(* ===== verification/Prelude.v ===== *)
(** * Kernel components of AerieBSD

    This development models parts of the kernel under [src/sys] as functions
    and step relations, and proves what makes them correct.  Names are those of
    the sources wherever the language allows it.

    ** The parts

    - The packet filter of [net/bpf_filter.c]: a checker that a program for the
      filter machine must pass, and the interpreter that runs it over a buffer
      or a chain of mbufs.
    - The character queues of [kern/tty_subr.c]: ring buffers with a bitmap that
      quotes characters, between the terminal drivers and the line discipline.
    - The extent manager of [kern/subr_extent.c]: it hands out regions of bus
      and memory address space, and callers may sleep for space or descriptors.
    - The advisory byte-range locks of [kern/vfs_lockf.c]: the lock list of a
      file, with waiting, deadlock detection and the limit per user.
    - The scheduler: run queues of [kern/kern_sched.c], priorities and switching
      of [kern/sched_bsd.c], sleep queues of [kern/kern_synch.c], and the
      delivery of signals of [kern/kern_sig.c].  The other components sleep and
      wake through it.
    - The reader/writer locks of [kern/kern_rwlock.c]: a lock word changed by
      compare-and-swap, and the sleep queue of the lock.
    - The timeouts of [kern/kern_timeout.c]: a timing wheel of four levels that
      the clock turns, and the soft interrupt that calls the handlers.
    - The file descriptors of [kern/kern_descrip.c]: tables with a two-level
      bitmap, files with a count of references and a count of users, and the
      system calls that create, copy, use and close descriptors.
    - The System V semaphores of [kern/sysv_sem.c]: sets of semaphores, vectors
      of requests that are granted as a whole or wait, and the adjustments that
      are made when a process exits.
    - The Internet checksum of [netinet/in_cksum.c] and [netinet/in4_cksum.c],
      over mbuf chains.
    - The allocator of the fast file system, [ufs/ffs/ffs_alloc.c] with
      [ufs/ffs/ffs_subr.c] and [ufs/ffs/ffs_tables.c]: bitmaps of the free
      fragments, clusters and inodes of each cylinder group, counts kept beside
      them on three levels, the search over the groups, and the policies that say
      where a file should grow.
    - The routines of [lib/libkern] that a compiler for a 32-bit machine calls
      for arithmetic on 64-bit integers, and [ffs], by which the run queues and
      the descriptor bitmaps find a set bit.

    ** The files

    - [Prelude]: machine integers ([wrap], [ulong] at the [long] of the data
      model [arch]), the [outcome] of a call (a value, a panic, a fault of the
      language, or no return within the steps given), arrays, tactics.
      [Bitmap]: [setbit], [clrbit] and [isset] of [sys/param.h], which the
      character queues and the file system use.
    - [BpfFilter] has the instruction set, [bpf_validate] and [bpf_filter];
      [BpfSafety] the theorems on checked programs; [BpfMbuf] those on chains.
    - [Clist] has the operations of [struct clist] on a ring and its bitmap;
      [ClistBits] the bitmap; [ClistQueue] the invariant of the ring and the
      effect of each operation on its contents; [ClistSpec] the refinement of a
      queue of quoted characters by whole sequences of operations.
    - [Extent] has [struct extent] and its operations; [ExtentRegions] the
      invariant of the region list; [ExtentAlloc], [ExtentFree] and [ExtentSub]
      the searches; [ExtentSpec] and [ExtentSubSpec] the theorems.
    - [Lockf] has [struct lockf] and its operations; [LockfList] the invariant
      of the list and the overlap cases; [LockfClear] and [LockfSet] the two
      loops that change it; [LockfSpec] the theorems.
    - [Sched] has [struct proc], the CPUs, the queues and the operations;
      [SchedQueue] says what queues that hold what they should are; [SchedInv]
      has the invariant and the steps that keep it; [SchedOps] the switch and
      the wakeups; [SchedStep] all other operations; [SchedSpec] the theorems.
    - [Rwlock] has the lock functions as programs over the atomic accesses, and
      the machine that interleaves them; [RwlockInv] what the lock word encodes
      and how it may move; [RwlockSafe] that the programs make only such moves;
      [RwlockSpec] the theorems.
    - [Libkern] has [ffs] and [min]; [Quad] the 64-bit routines; [QuadWord] the
      ones without loops; [QuadDiv] and [QuadShift] the parts of the long
      division; [QuadSpec] the theorems.
    - [Timeout] has [struct timeout], the wheel and its operations;
      [TimeoutInv] the circular queues as lists, and the invariant; [TimeoutOps]
      that the operations keep it; [TimeoutSpec] the theorems.
    - [Filedesc] has [struct filedesc] and the operations on one table; [FdMap]
      the searches in the bitmaps; [FdTable] the invariant of a table; [FdAlloc]
      the choice of a descriptor.  [Files] has [struct file], the processes and
      the system calls; [FdInv] what the counts stand for, with the sums of
      [MapSum]; [FdBooks], [FdOwn] and [FdOps] how single operations keep that;
      [FdCalls], [FdDup], [FdOpen] and [FdFork] the calls; [FdSteps] and
      [FdEffect] all steps; [FdLive] runs, their safety and progress; [FdSpec] the
      theorems.
    - [Sem] has [struct semid_ds], [struct sem_undo], the processes and the
      calls; [SemUndo] undo structures as finite maps; [SemOp] the loops over a
      vector of requests; [SemInv] the invariant; [SemSteps] and [SemTry] the
      calls; [SemSafe] runs; [SemWake] and [SemLive] the wakeups; [SemSpec] the
      theorems.
    - [InCksum] has the two routines; [InCksumSpec] sums of bytes modulo 65535
      and the loops over words, mbufs and chains; [CksumSpec] the
      checksum of RFC 1071 as a reference, and the theorems.
    - [Ffs] has [struct fs], [struct cg] and the functions on a group, and
      [ffs_hashalloc]; [FfsFile] their callers.  [FfsMap] has the maps as sets, the
      runs of free fragments and the tables, the search and the summary of
      clusters; [FfsInv] the invariant of a group and of the disk; [FfsCg] and
      [FfsCluster] the operations on a group; [FfsGrow] the class [Allocator] of
      what the search over the groups asks of one, its instances, the callers and
      the totals; [FfsSpec] a test of the invariant that computes, the abstract
      calls, and the theorems.

    ** How the code is translated

    Data are records and inductive types with the fields and constructors of the
    sources; pointers into lists are indices or splits of the list; hash chains
    and tail queues are lists.  Integers are [Z] with the wrap-around of their
    width written where the source computes.  An access the language leaves
    undefined is a [Fault], so that a theorem that a call returns also says that
    it stays inside its objects.  Loops that are not structural carry fuel, and
    the theorems show that the fuel given in the definitions is enough: the
    length of the program or of the list, or the counter that decreases.

    A call that may sleep in the extent manager or in the advisory locks takes a
    list of events, one per sleep: the error the sleep ends with and what others
    did meanwhile, which is any change that keeps the invariant.  A call that
    uses up the list is still asleep.  In the scheduler every operation runs
    under the scheduler lock, so a run is a sequence of operations; the current
    process of each CPU is part of the state.  The lock functions are
    interleaved access by access, as processors do.  The functions on timeouts
    run under a mutex, and [softclock] is cut where it releases it.

    The kernel is not preempted, so that a system call on descriptors or on
    semaphores runs until it sleeps.  Such a call is cut there: the process keeps
    what remains of the call, and a run is any sequence of such pieces of any
    processes.  A call on descriptors sleeps for the lock of the table, the
    advisory unlock, the users of a file and its close routine, and in [vn_open];
    the wait for the users is a sleep on the address of [f_usecount] that the
    [wakeup] of [FRELE] ends.  A call on semaphores sleeps for memory in
    [semget], and for the copy of the requests and for a semaphore in [semop].
    Other allocations that may wait are taken as immediate.  What comes from outside (a file that [vn_open] finds, an error of
    a close routine, the bytes a process hands in) is an argument of the step.

    A cylinder group is the contents of its buffer; reading one may fail, and a
    group is written as a whole.  A call of the allocator is one step: that others
    may allocate while [bread] sleeps for a group is not modelled.  The bytes
    around the cluster map that the loops prefetch, and the value of a shift by
    minus one, are arguments that the results do not depend on.  Quotas, random
    numbers and the buffers that [bread] returns are arguments too.

    The bounds that are assumed are those of the configuration: at most 12800
    open files, so that no count reaches the 31 bits of the smallest [long].  The
    search in [falloc_fd] has 32 rounds of fuel, because a table doubles in each
    of them; [add_blocks] of the checksum has as many rounds as bytes; a round of
    [softclock] takes a timeout from the worklist.  A packet has at most 65535
    bytes, as an IP packet has.  A file system has less than 2^31 fragments, and a
    group less than 2^30; the rehash of [ffs_hashalloc] has 31 rounds of fuel,
    because its step doubles below the number of groups.

    ** What the theorems show

    - A filter program that [bpf_validate] accepts runs to its end inside its
      memory on every packet without empty mbufs, if it does not divide by a zero
      constant and, with a 32-bit [size_t], has no indexed load of a word or
      halfword; running it on an mbuf chain whose inner mbufs have three bytes or
      more and on the same bytes in one buffer is the same with a 64-bit
      [size_t].  Three theorems exhibit what the checker lets through.
    - A queue refines a sequence of characters with quotes under any sequence of
      operations (on a queue with quotes, without [q_to_b], and without [b_to_q]
      when the size is a multiple of 8); the bitmap operations are the intended ones; [catq] and [ndqb]
      do what they say.  Two theorems exhibit accesses behind the bitmap.
    - Regions never overlap; an allocation that does not sleep succeeds exactly
      when there is room (for a subregion: as long as the first aligned addresses
      do not overflow), with alignment and skew respected; with a boundary it
      succeeds only with a free range between the boundary lines.  It gives back
      its descriptor when it fails; freeing undoes allocating; what is freed
      without having been allocated panics.  Three theorems exhibit a lost
      descriptor, an overflow and a misalignment.
    - No byte is locked for writing by one holder and locked by another, as long
      as no range ends at the last representable byte; setting and clearing
      change exactly the bytes asked for; waiting, deadlock
      detection and the locks per user are accounted for.  One theorem exhibits
      an overflow at the end of the file range.
    - Every process is on exactly the queue its state calls for in all reachable
      states, and no operation panics or damages a queue; wakeups reach the
      sleepers of their channel in order; the most urgent process runs; a kill
      reaches a stopped process.
    - Writers exclude all others in any interleaving, no wakeup is lost, and the
      uncontended calls compute the words they should.  One theorem exhibits an
      assertion that is never evaluated.
    - The 64-bit routines are the operations on integers wrapped to 64 bits; the
      long division returns for all operands, inside its arrays.
    - Every pending timeout is on exactly one queue; one that nobody changes is
      called exactly once, not before its time and by the end of the first
      [softclock] after it; [softclock] ends.
    - As long as tables are not shared, the counts of a file are the numbers of
      its holders and users, every descriptor holds a live file, and no step
      panics or follows a stale pointer; each step does to the descriptors what
      an abstract table says; [fdalloc] finds the least free descriptor; calls
      end, and none has to wait for another process, not even in [closef].  Two
      theorems exhibit what happens with shared tables, where [dup] and [close]
      can wait for each other, and marks that survive a copy.
    - In calm runs the tables of the semaphores agree, the counts of waiters are
      exact, and nothing freed is used; calm means that no set is removed while
      requests for it are copied in, no index is used again while somebody sleeps
      who waited there, and adjustments are recorded as intended.  A vector is
      granted as a whole or changes nothing; exit restores the values; an
      identifier of the previous set at an index finds nothing.  If vectors
      overflow no value and ask for zero only before they change the value,
      nobody sleeps whose requests could be granted.  One theorem exhibits the
      runs in which the code goes wrong.
    - The checksum routines return the checksum of RFC 1071 for every split into
      mbufs, alignment and byte order, with no read that is misaligned or outside
      an mbuf; a packet that carries the result passes the check.
    - Any sequence of calls on the allocator of the file system that frees only
      what is in use keeps the maps, the counts of groups and superblock and the
      cluster summaries in agreement, and behaves as operations on a set of free
      fragments and a set of used inodes; nothing panics, and no counter wraps.
      [ffs_alloc], [ffs_realloccg] and [ffs_inode_alloc] take free space of the
      kind asked for and nothing else, and fail only when there is none;
      [ffs_clusteralloc] takes the first free blocks behind the preferred place;
      a double free panics; the tables count the runs of free fragments exactly.

    ** What is not modelled

    Device I/O, machine code, the virtual memory system, the buffer cache, soft
    updates and the rest of the file systems, the rest of the network stack and
    the programs of the user land.  Within the
    components: statistics, tracing and debug output; CPU time limits and
    accounting in [mi_switch]; [issignal], whose answer is a parameter of a
    sleep; the timeout of a sleep, which appears as the call [endtsleep]; the
    sleep inside [pool_get] of the advisory locks; a stop signal between
    [sleep_setup] and the compare-and-swap of a reader/writer lock; [flock],
    [F_SETFL], [F_SETOWN] and the calls that create pipes and pairs of sockets;
    the sleeps in the copies of [semctl] and in the allocation of undo
    structures; the message of the checksum routines for a chain that is too
    short; [ffs1_reallocblks] and [ffs2_reallocblks], which work on lists of
    buffers, the hooks of soft updates, the zeroing of a block of new inodes and
    the groups of the oldest layout ([struct ocg]).

    ** What comes next

    The remaining calls on descriptors, the block lists of a file
    ([ufs/ffs/ffs_balloc.c]), which build on the allocator, the decay of
    [p_estcpu], and the radix tree of [net/radix.c]. *)

From Stdlib Require Export ZArith Lia Zbitwise.
From stdpp Require Export base decidable list numbers option strings.

#[global] Open Scope Z_scope.

(** * Machine integers *)

(** The two data models of the ports: [int] has 32 bits on both, [long],
    [size_t] and pointers have 32 or 64. *)
Inductive arch := ILP32 | LP64.
Existing Class arch.

Definition long_bits {a : arch} : Z := match a with ILP32 => 32 | LP64 => 64 end.

(** Reduction modulo [2^w]: the value of an unsigned expression of width [w]. *)
Definition wrap (w z : Z) : Z := z mod 2 ^ w.

Definition u8 (z : Z) : Z := wrap 8 z.
Definition u16 (z : Z) : Z := wrap 16 z.
Definition u32 (z : Z) : Z := wrap 32 z.
Definition u64 (z : Z) : Z := wrap 64 z.
Definition ulong {a : arch} (z : Z) : Z := wrap long_bits z.

(** Conversion to a signed type of width [w] (two's complement). *)
Definition swrap (w z : Z) : Z := wrap w (z + 2 ^ (w - 1)) - 2 ^ (w - 1).

Definition s16 (z : Z) : Z := swrap 16 z.
Definition s32 (z : Z) : Z := swrap 32 z.
Definition s64 (z : Z) : Z := swrap 64 z.

Definition is_u (w z : Z) : Prop := 0 <= z < 2 ^ w.
Definition is_s (w z : Z) : Prop := - 2 ^ (w - 1) <= z < 2 ^ (w - 1).

#[export] Instance is_u_dec w z : Decision (is_u w z).
Proof. unfold is_u. apply _. Defined.

#[export] Instance is_s_dec w z : Decision (is_s w z).
Proof. unfold is_s. apply _. Defined.

Definition bytes_ok (b : list Z) : Prop := Forall (is_u 8) b.

#[export] Instance bytes_ok_dec b : Decision (bytes_ok b).
Proof. unfold bytes_ok. apply _. Defined.

(** [flags & mask] used as a condition. *)
Definition flag (flags mask : Z) : bool := negb (Z.land flags mask =? 0).

(** * Outcomes of kernel code *)

(** What the language leaves undefined and the model makes visible. *)
Inductive fault := OutOfBounds | NullDeref | DivByZero | UseAfterFree | BadCast | BadLink | BadShift.

(** A call returns a value, panics, runs into undefined behaviour, or uses up
    the model's step budget without returning. *)
Inductive outcome (A : Type) : Type :=
| Ret (a : A)
| Panic (msg : string)
| Fault (f : fault)
| Spin.
Arguments Ret {A} a.
Arguments Panic {A} msg.
Arguments Fault {A} f.
Arguments Spin {A}.

Definition bind {A B} (m : outcome A) (k : A -> outcome B) : outcome B :=
  match m with
  | Ret a => k a
  | Panic s => Panic s
  | Fault f => Fault f
  | Spin => Spin
  end.

Declare Scope kernel_scope.
Delimit Scope kernel_scope with kernel.
#[global] Open Scope kernel_scope.

Notation "'let!' x ':=' m 'in' k" := (bind m (fun x => k))
  (at level 10, x pattern, m at level 100, k at level 200) : kernel_scope.

Definition returns {A} (m : outcome A) (P : A -> Prop) : Prop :=
  match m with Ret a => P a | _ => False end.

(** Array access: outside the object is a fault. *)
Definition aget {A} (l : list A) (i : Z) : outcome A :=
  if i <? 0 then Fault OutOfBounds
  else match l !! Z.to_nat i with Some x => Ret x | None => Fault OutOfBounds end.

Definition aset {A} (l : list A) (i : Z) (x : A) : outcome (list A) :=
  if (i <? 0) || (Z.of_nat (length l) <=? i) then Fault OutOfBounds
  else Ret (<[Z.to_nat i := x]> l).

(** [bcopy] from and to an array: [n] elements at offset [off]. *)
Definition aslice {A} (l : list A) (off n : Z) : outcome (list A) :=
  if (off <? 0) || (n <? 0) || (Z.of_nat (length l) <? off + n) then Fault OutOfBounds
  else Ret (take (Z.to_nat n) (drop (Z.to_nat off) l)).

Definition asplice {A} (l : list A) (off : Z) (xs : list A) : outcome (list A) :=
  if (off <? 0) || (Z.of_nat (length l) <? off + Z.of_nat (length xs)) then Fault OutOfBounds
  else Ret (take (Z.to_nat off) l ++ xs ++ drop (Z.to_nat off + length xs) l).

(** A pointer into an array: its offset, [None] is [NULL]. *)
Definition ptr (p : option Z) : outcome Z :=
  match p with Some off => Ret off | None => Fault NullDeref end.

(** * Error numbers of [sys/errno.h] *)

Notation EPERM := 1 (only parsing).
Notation ENOENT := 2 (only parsing).
Notation EINTR := 4 (only parsing).
Notation ENXIO := 6 (only parsing).
Notation E2BIG := 7 (only parsing).
Notation EBADF := 9 (only parsing).
Notation EDEADLK := 11 (only parsing).
Notation ENOMEM := 12 (only parsing).
Notation EACCES := 13 (only parsing).
Notation EBUSY := 16 (only parsing).
Notation EEXIST := 17 (only parsing).
Notation ENODEV := 19 (only parsing).
Notation EINVAL := 22 (only parsing).
Notation ENFILE := 23 (only parsing).
Notation EMFILE := 24 (only parsing).
Notation EFBIG := 27 (only parsing).
Notation ENOSPC := 28 (only parsing).
Notation EAGAIN := 35 (only parsing).
Notation EIDRM := 89 (only parsing).
Notation ERESTART := (-1) (only parsing).

(** * Lemmas on machine integers *)

Create HintDb kernel.
Create HintDb words.

Lemma pow2_pos w : 0 <= w -> 0 < 2 ^ w.
Proof. intros; apply Z.pow_pos_nonneg; lia. Qed.

Lemma long_bits_cases {a : arch} : long_bits = 32 \/ long_bits = 64.
Proof. destruct a; auto. Qed.

Lemma long_bits_pos {a : arch} : 0 < long_bits.
Proof. destruct a; cbn; lia. Qed.

Lemma wrap_range w z : 0 <= w -> is_u w (wrap w z).
Proof. intros; apply Z.mod_pos_bound, pow2_pos; lia. Qed.

Lemma wrap_small w z : is_u w z -> wrap w z = z.
Proof. apply Z.mod_small. Qed.

Lemma wrap_wrap w z : wrap w (wrap w z) = wrap w z.
Proof. apply Zmod_mod. Qed.

Lemma u32_range z : is_u 32 (u32 z).
Proof. apply wrap_range; lia. Qed.

Lemma u32_small z : is_u 32 z -> u32 z = z.
Proof. apply wrap_small. Qed.

Lemma u16_small z : is_u 16 z -> u16 z = z.
Proof. apply wrap_small. Qed.

Lemma ulong_range {a : arch} z : is_u long_bits (ulong z).
Proof. apply wrap_range; pose proof long_bits_pos; lia. Qed.

Lemma ulong_small {a : arch} z : is_u long_bits z -> ulong z = z.
Proof. apply wrap_small. Qed.

(** Bitwise operations keep the width. *)
Lemma is_u_bits w z : 0 <= w -> is_u w z <-> 0 <= z /\ forall l, w <= l -> Z.testbit z l = false.
Proof.
  intros Hw. unfold is_u. split.
  - intros H. split; [lia|]. apply Z.bounded_iff_bits_nonneg'; lia.
  - intros [H0 Hb]. apply Z.bounded_iff_bits_nonneg'; auto.
Qed.

Lemma is_u_land w x y : 0 <= w -> is_u w x -> 0 <= y -> is_u w (Z.land x y).
Proof.
  intros Hw Hx Hy. apply is_u_bits in Hx as [Hx Hb]; [|done]. apply is_u_bits; [done|].
  split; [apply Z.land_nonneg; lia|]. intros l Hl. by rewrite Z.land_spec, Hb.
Qed.

Lemma is_u_lor w x y : 0 <= w -> is_u w x -> is_u w y -> is_u w (Z.lor x y).
Proof.
  intros Hw Hx Hy. apply is_u_bits in Hx as [Hx Hbx]; [|done].
  apply is_u_bits in Hy as [Hy Hby]; [|done]. apply is_u_bits; [done|].
  split; [apply Z.lor_nonneg; lia|]. intros l Hl. by rewrite Z.lor_spec, Hbx, Hby.
Qed.

Lemma is_u_shiftl w v x n : 0 <= n -> 0 <= w -> w + n <= v -> is_u w x -> is_u v (Z.shiftl x n).
Proof.
  unfold is_u. intros Hn Hw Hv Hx. rewrite Z.shiftl_mul_pow2 by lia.
  assert (2 ^ (w + n) <= 2 ^ v) by (apply Z.pow_le_mono_r; lia).
  rewrite Z.pow_add_r in * by lia. pose proof (pow2_pos n Hn). nia.
Qed.

Lemma is_u_shiftr w x n : 0 <= n -> is_u w x -> is_u w (Z.shiftr x n).
Proof.
  unfold is_u. intros Hn Hx. rewrite Z.shiftr_div_pow2 by lia. pose proof (pow2_pos n Hn).
  split; [apply Z.div_pos; lia|]. apply Z.div_lt_upper_bound; nia.
Qed.

Lemma is_u_div w x y : is_u w x -> 0 <= y -> is_u w (x `div` y).
Proof.
  unfold is_u. intros Hx Hy. destruct (decide (y = 0)) as [->|].
  - rewrite Z.div_0_r. lia.
  - split; [apply Z.div_pos; lia|]. apply Z.div_lt_upper_bound; nia.
Qed.

Lemma is_u_mono v w x : 0 <= v <= w -> is_u v x -> is_u w x.
Proof.
  unfold is_u. intros Hv Hx. assert (2 ^ v <= 2 ^ w) by (apply Z.pow_le_mono_r; lia). lia.
Qed.

Lemma swrap_mod w x y : 0 <= w -> x `mod` 2 ^ w = y `mod` 2 ^ w -> swrap w x = swrap w y.
Proof.
  intros Hw H. unfold swrap, wrap. pose proof (pow2_pos w Hw).
  rewrite <- (Zplus_mod_idemp_l x), H, Zplus_mod_idemp_l. done.
Qed.

Lemma swrap_small w x : 0 < w -> is_s w x -> swrap w x = x.
Proof.
  unfold is_s, swrap, wrap. intros Hw Hx. replace (2 ^ w) with (2 * 2 ^ (w - 1)).
  - rewrite Z.mod_small by lia. lia.
  - rewrite <- Z.pow_succ_r by lia. f_equal. lia.
Qed.

Lemma swrap_range w x : 0 < w -> is_s w (swrap w x).
Proof.
  intros Hw. unfold swrap, is_s. pose proof (wrap_range w (x + 2 ^ (w - 1)) ltac:(lia)) as H. unfold is_u in H.
  replace (2 ^ w) with (2 * 2 ^ (w - 1)) in H; [lia|]. rewrite <- (Z.pow_succ_r 2 (w - 1)) by lia. f_equal. lia.
Qed.

Lemma swrap_add w x y : 0 < w -> swrap w (swrap w x + y) = swrap w (x + y).
Proof.
  intros Hw. apply swrap_mod; [lia|]. unfold swrap, wrap. rewrite <- (Zplus_mod_idemp_l (_ - _)), Zminus_mod_idemp_l.
  replace (x + 2 ^ (w - 1) - 2 ^ (w - 1)) with x by lia. by rewrite Zplus_mod_idemp_l.
Qed.

Lemma s32_add x y : s32 (s32 x + y) = s32 (x + y).
Proof. by apply swrap_add. Qed.

Lemma s32_range x : is_s 32 (s32 x).
Proof. by apply swrap_range. Qed.

Lemma u32_testbit x i : 0 <= i < 32 -> Z.testbit (u32 x) i = Z.testbit x i.
Proof. intros Hi. unfold u32, wrap. by rewrite Z.mod_pow2_bits_low by lia. Qed.

Lemma u32_high x i : 32 <= i -> Z.testbit (u32 x) i = false.
Proof. intros Hi. unfold u32, wrap. by rewrite Z.mod_pow2_bits_high by lia. Qed.

Lemma is_u_high w x i : 0 <= w -> is_u w x -> w <= i -> Z.testbit x i = false.
Proof. intros Hw Hx. apply is_u_bits in Hx as [_ Hx]; [apply Hx|done]. Qed.

Lemma flag_clear f m k : Z.land m k = 0 -> flag (Z.land f (Z.lnot m)) k = flag f k.
Proof.
  intros H. unfold flag. rewrite <- Z.land_assoc. replace (Z.land (Z.lnot m) k) with k; [done|].
  apply Z.bits_inj'. intros i Hi. rewrite Z.land_spec, Z.lnot_spec by done.
  apply (f_equal (fun z => Z.testbit z i)) in H. rewrite Z.land_spec, Z.bits_0 in H.
  by destruct (Z.testbit m i), (Z.testbit k i).
Qed.

Lemma flag_cleared f m : flag (Z.land f (Z.lnot m)) m = false.
Proof.
  unfold flag. rewrite <- Z.land_assoc, (Z.land_comm (Z.lnot m)), Z.land_lnot_diag, Z.land_0_r. done.
Qed.

Lemma flag_set_other f m k : Z.land m k = 0 -> flag (Z.lor f m) k = flag f k.
Proof. intros H. unfold flag. by rewrite Z.land_lor_distr_l, H, Z.lor_0_r. Qed.

Lemma flag_set f m : m <> 0 -> flag (Z.lor f m) m = true.
Proof.
  intros H. unfold flag. rewrite Z.land_lor_distr_l, Z.land_diag, negb_true_iff, Z.eqb_neq.
  intros E. apply Z.lor_eq_0_iff in E as [_ E]. done.
Qed.

#[export] Hint Resolve u32_range ulong_range : words.
#[export] Hint Resolve is_u_lor is_u_div : words.

(** * Lemmas on outcomes and arrays *)

Lemma bind_Ret_inv {A B} (m : outcome A) (f : A -> outcome B) b :
  bind m f = Ret b -> exists a, m = Ret a /\ f a = Ret b.
Proof. destruct m; simpl; try discriminate; eauto. Qed.

Lemma bind_assoc {A B C} (m : outcome A) (f : A -> outcome B) (g : B -> outcome C) :
  bind m (fun x => bind (f x) g) = bind (bind m f) g.
Proof. by destruct m. Qed.

Lemma returns_Ret {A} (m : outcome A) P : returns m P <-> exists a, m = Ret a /\ P a.
Proof. destruct m; simpl; split; try naive_solver. Qed.

Lemma returns_bind {A B} (m : outcome A) (f : A -> outcome B) P :
  returns m (fun a => returns (f a) P) -> returns (bind m f) P.
Proof. destruct m; simpl; auto. Qed.

Lemma returns_mono {A} (m : outcome A) (P Q : A -> Prop) :
  (forall a, P a -> Q a) -> returns m P -> returns m Q.
Proof. destruct m; simpl; auto. Qed.

Lemma aget_Some {A} (l : list A) i x : 0 <= i -> l !! Z.to_nat i = Some x -> aget l i = Ret x.
Proof.
  intros Hi Hl. unfold aget. rewrite Hl. destruct (Z.ltb_spec i 0); [lia|done].
Qed.

Lemma aget_Ret_inv {A} (l : list A) i x :
  aget l i = Ret x -> 0 <= i < Z.of_nat (length l) /\ l !! Z.to_nat i = Some x.
Proof.
  unfold aget. destruct (Z.ltb_spec i 0); [done|].
  destruct (l !! Z.to_nat i) eqn:E; [|done]. intros [= ->].
  apply lookup_lt_Some in E as ?. split; [lia|done].
Qed.

Lemma aget_bounds {A} (l : list A) i :
  0 <= i < Z.of_nat (length l) -> exists x, aget l i = Ret x /\ l !! Z.to_nat i = Some x.
Proof.
  intros Hi. destruct (lookup_lt_is_Some_2 l (Z.to_nat i)) as [x Hx]; [lia|].
  exists x; split; [|done]. apply aget_Some; [lia|done].
Qed.

Lemma aset_bounds {A} (l : list A) i x :
  0 <= i < Z.of_nat (length l) -> aset l i x = Ret (<[Z.to_nat i := x]> l).
Proof.
  intros Hi. unfold aset.
  destruct (Z.ltb_spec i 0), (Z.leb_spec (Z.of_nat (length l)) i); simpl; (lia || done).
Qed.

Lemma aget_byte b i :
  bytes_ok b -> 0 <= i < Z.of_nat (length b) -> exists v, aget b i = Ret v /\ is_u 8 v.
Proof.
  intros Hb Hi. destruct (aget_bounds b i Hi) as (v & Hv & Hl). exists v; split; [done|].
  unfold bytes_ok in Hb. rewrite Forall_lookup in Hb. eauto.
Qed.

Lemma bytes_ok_insert b i v : bytes_ok b -> is_u 8 v -> bytes_ok (<[i := v]> b).
Proof. intros Hb Hv. by apply Forall_insert. Qed.

Lemma bytes_ok_app b1 b2 : bytes_ok b1 -> bytes_ok b2 -> bytes_ok (b1 ++ b2).
Proof. intros H1 H2. by apply Forall_app. Qed.

Lemma bytes_ok_take n b : bytes_ok b -> bytes_ok (take n b).
Proof. apply Forall_take. Qed.

Lemma bytes_ok_drop n b : bytes_ok b -> bytes_ok (drop n b).
Proof. apply Forall_drop. Qed.

#[export] Hint Resolve bytes_ok_insert bytes_ok_app bytes_ok_take bytes_ok_drop : kernel.

Lemma aslice_bounds {A} (l : list A) off n :
  0 <= off -> 0 <= n -> off + n <= Z.of_nat (length l) ->
  aslice l off n = Ret (take (Z.to_nat n) (drop (Z.to_nat off) l)).
Proof.
  intros H1 H2 H3. unfold aslice.
  destruct (Z.ltb_spec off 0), (Z.ltb_spec n 0), (Z.ltb_spec (Z.of_nat (length l)) (off + n)); simpl;
    (lia || done).
Qed.

Lemma asplice_bounds {A} (l : list A) off xs :
  0 <= off -> off + Z.of_nat (length xs) <= Z.of_nat (length l) ->
  asplice l off xs = Ret (take (Z.to_nat off) l ++ xs ++ drop (Z.to_nat off + length xs) l).
Proof.
  intros H1 H2. unfold asplice.
  destruct (Z.ltb_spec off 0), (Z.ltb_spec (Z.of_nat (length l)) (off + Z.of_nat (length xs))); simpl;
    (lia || done).
Qed.

Lemma splice_lookup {A} (l xs : list A) (off i : nat) :
  (off + length xs <= length l)%nat ->
  (take off l ++ xs ++ drop (off + length xs) l) !! i =
  if decide (off <= i < off + length xs)%nat then xs !! (i - off)%nat else l !! i.
Proof.
  intros Hl. assert (length (take off l) = off) as Ht by (rewrite length_take; lia).
  destruct (decide (i < off)%nat).
  - rewrite decide_False by lia. rewrite lookup_app_l by lia. by apply lookup_take_lt.
  - rewrite lookup_app_r, Ht by lia. case_decide.
    + by rewrite lookup_app_l by lia.
    + rewrite lookup_app_r, lookup_drop by lia. f_equal. lia.
Qed.

Lemma splice_length {A} (l xs : list A) (off : nat) :
  (off + length xs <= length l)%nat ->
  length (take off l ++ xs ++ drop (off + length xs) l) = length l.
Proof. intros. rewrite !length_app, length_take, length_drop. lia. Qed.

(** Split the first conditional of the goal or of a hypothesis. *)
Ltac case_if :=
  match goal with
  | |- context [if ?b then _ else _] => destruct b eqn:?
  end.
Ltac case_if_in H :=
  match type of H with
  | context [if ?b then _ else _] => destruct b eqn:?
  end.

(** Turn boolean comparisons in the context into propositions. *)
Ltac boolify :=
  repeat match goal with
  | H : negb _ = true |- _ => apply negb_true_iff in H
  | H : negb _ = false |- _ => apply negb_false_iff in H
  | H : _ || _ = false |- _ => apply orb_false_iff in H as [? ?]
  | H : _ && _ = true |- _ => apply andb_true_iff in H as [? ?]
  | H : (_ =? _) = true |- _ => apply Z.eqb_eq in H
  | H : (_ =? _) = false |- _ => apply Z.eqb_neq in H
  | H : (_ <=? _) = true |- _ => apply Z.leb_le in H
  | H : (_ <=? _) = false |- _ => apply Z.leb_gt in H
  | H : (_ <? _) = true |- _ => apply Z.ltb_lt in H
  | H : (_ <? _) = false |- _ => apply Z.ltb_ge in H
  end.

(** Split the visible conjunctions of the goal only. *)
Ltac conj := repeat match goal with |- _ /\ _ => split end.

(** Close a decidable proposition about concrete values by evaluation. *)
Ltac compute_decide := apply (bool_decide_unpack _); vm_compute; exact I.

(** Linear arithmetic with quotients and remainders by constants. *)
Ltac dlia := cbv beta in *; Z.to_euclidean_division_equations; lia.
