(* ===== verification/Libkern.v ===== *)
(** * Small routines of [lib/libkern]

    [ffs], which the run queues of the scheduler and the descriptor bitmaps use
    to find a set bit, and [min]. *)

From S2P Require Import Prelude.

(** [lib/libkern/ffs.c]: the index of the least set bit of a 32-bit word,
    counting from 1, by halving; its table gives the index in the last nibble. *)
Definition ffs_table : list Z := [-28; 1; 2; 1; 3; 1; 2; 1; 4; 1; 2; 1; 3; 1; 2; 1].

Definition ffs (mask : Z) : Z :=
  let r := u32 mask in
  let '(bit, r) := if Z.land r 65535 =? 0 then (16, Z.shiftr r 16) else (0, r) in
  let '(bit, r) := if Z.land r 255 =? 0 then (bit + 8, Z.shiftr r 8) else (bit, r) in
  let '(bit, r) := if Z.land r 15 =? 0 then (bit + 4, Z.shiftr r 4) else (bit, r) in
  bit + nth (Z.to_nat (Z.land r 15)) ffs_table 0.

(** [lib/libkern/min.c]: the arguments are converted to [unsigned int]. *)
Definition min (a b : Z) : Z := if u32 a <? u32 b then u32 a else u32 b.

(** * The least set bit *)

Definition low (r k : Z) : Prop :=
  0 <= k /\ Z.testbit r k = true /\ forall j, 0 <= j < k -> Z.testbit r j = false.

Lemma land_ones_eq r n : 0 <= n -> Z.land r (2 ^ n - 1) = r mod 2 ^ n.
Proof. intros. by rewrite <- Z.land_ones, Z.ones_equiv, Z.sub_1_r by lia. Qed.

Lemma low_shiftr r n k : 0 <= n -> Z.land r (2 ^ n - 1) = 0 -> low (Z.shiftr r n) k -> low r (n + k).
Proof.
  intros Hn H0 (Hk & Hb & Hl). rewrite land_ones_eq in H0 by done.
  rewrite Z.shiftr_spec in Hb by lia.
  split; [lia|]. rewrite Z.add_comm. split; [done|]. intros j Hj.
  destruct (decide (j < n)).
  - rewrite <- (Z.mod_pow2_bits_low r n) by lia. by rewrite H0, Z.bits_0.
  - specialize (Hl (j - n)). rewrite Z.shiftr_spec in Hl by lia.
    replace (j - n + n) with j in Hl by lia. apply Hl. lia.
Qed.

Lemma low_halve r n :
  0 < n -> Z.land r (2 ^ (2 * n) - 1) <> 0 -> Z.land r (2 ^ n - 1) = 0 ->
  Z.land (Z.shiftr r n) (2 ^ n - 1) <> 0.
Proof.
  intros Hn H2 H1. rewrite land_ones_eq in * by lia.
  rewrite Z.shiftr_div_pow2 by lia. intros H3. apply H2.
  replace (2 * n) with (n + n) by lia. rewrite Z.pow_add_r by lia.
  pose proof (pow2_pos n). rewrite Z.rem_mul_r by lia. lia.
Qed.

Lemma low_nibble r :
  Z.land r 15 <> 0 -> low r (nth (Z.to_nat (Z.land r 15)) ffs_table 0 - 1).
Proof.
  change 15 with (2 ^ 4 - 1). rewrite land_ones_eq by lia. change (2 ^ 4) with 16. intros H.
  assert (forall j, 0 <= j < 4 -> Z.testbit r j = Z.testbit (r mod 16) j) as Hbit.
  { intros j Hj. change 16 with (2 ^ 4). by rewrite Z.mod_pow2_bits_low by lia. }
  assert (0 < r mod 16 < 16) as Hr by (pose proof (Z.mod_pos_bound r 16); lia).
  generalize dependent (r mod 16). intros m Hm Hbit Hr. clear Hm.
  assert (low m (nth (Z.to_nat m) ffs_table 0 - 1) /\ nth (Z.to_nat m) ffs_table 0 <= 4) as [Hl H4].
  { assert (m = 1 \/ m = 2 \/ m = 3 \/ m = 4 \/ m = 5 \/ m = 6 \/ m = 7 \/ m = 8 \/ m = 9 \/ m = 10
            \/ m = 11 \/ m = 12 \/ m = 13 \/ m = 14 \/ m = 15) as Hc by lia.
    repeat destruct Hc as [-> | Hc]; [..|subst m];
      (split; [split; [done|split; [done|]]|done]); simpl; intros j Hj;
      (lia || (assert (j = 0 \/ j = 1 \/ j = 2) as [-> |[-> | ->]] by lia; (done || lia))). }
  destruct Hl as (H0 & Hb & Hlt). split; [done|]. split; [by rewrite Hbit by lia|].
  intros j Hj. rewrite Hbit by lia. auto.
Qed.

Lemma ffs_low r : is_u 32 r -> r <> 0 -> low r (ffs r - 1).
Proof.
  intros Hr H0. unfold ffs. rewrite (u32_small r Hr).
  assert (forall r b n, 0 < n ->
    Z.land r (2 ^ (2 * n) - 1) <> 0 ->
    let '(b', r') := if Z.land r (2 ^ n - 1) =? 0 then (b + n, Z.shiftr r n) else (b, r) in
    Z.land r' (2 ^ n - 1) <> 0 /\ forall k, low r' k -> low r (b' - b + k)) as Hstep.
  { intros x b n Hn H2. destruct (Z.eqb_spec (Z.land x (2 ^ n - 1)) 0) as [E|E].
    - split; [by apply low_halve|]. intros k Hk. replace (b + n - b + k) with (n + k) by lia.
      by apply low_shiftr; [lia|..].
    - split; [done|]. intros k Hk. by replace (b - b + k) with k by lia. }
  assert (Z.land r (2 ^ (2 * 16) - 1) <> 0) as H32.
  { rewrite land_ones_eq by lia. by rewrite Z.mod_small by (unfold is_u in Hr; lia). }
  pose proof (Hstep r 0 16 ltac:(lia) H32) as H16.
  change (2 ^ 16 - 1) with 65535 in H16. change (0 + 16) with 16 in H16.
  destruct (if Z.land r 65535 =? 0 then _ else _) as [b1 r1]. destruct H16 as [H16 L1].
  pose proof (Hstep r1 b1 8 ltac:(lia) H16) as H8. change (2 ^ 8 - 1) with 255 in H8.
  destruct (if Z.land r1 255 =? 0 then _ else _) as [b2 r2]. destruct H8 as [H8 L2].
  pose proof (Hstep r2 b2 4 ltac:(lia) H8) as H4. change (2 ^ 4 - 1) with 15 in H4.
  destruct (if Z.land r2 15 =? 0 then _ else _) as [b3 r3]. destruct H4 as [H4 L3].
  pose proof (L1 _ (L2 _ (L3 _ (low_nibble r3 H4)))) as L.
  eapply eq_ind; [exact L|lia].
Qed.
