(* ===== verification/Bitmap.v ===== *)
(** * Arrays of bits

    [isset], [setbit] and [clrbit] of [sys/sys/param.h] on an array of bytes, and
    what they do to its bits.  The quote bits of the tty queues and the maps of
    the file system are such arrays. *)

From S2P Require Import Prelude.

Definition NBBY := 8.

Definition bitmask (i : Z) : Z := Z.shiftl 1 (Z.land i (NBBY - 1)).

Definition isset (a : list Z) (i : Z) : outcome bool :=
  let! b := aget a (Z.shiftr i 3) in Ret (flag b (bitmask i)).
Definition setbit (a : list Z) (i : Z) : outcome (list Z) :=
  let! b := aget a (Z.shiftr i 3) in aset a (Z.shiftr i 3) (u8 (Z.lor b (bitmask i))).
Definition clrbit (a : list Z) (i : Z) : outcome (list Z) :=
  let! b := aget a (Z.shiftr i 3) in aset a (Z.shiftr i 3) (u8 (Z.land b (Z.lnot (bitmask i)))).

(** ** Single bits *)

(** Bit [i] of the bitmap. *)
Definition qbit (q : list Z) (i : Z) : bool :=
  Z.testbit (default 0 (q !! Z.to_nat (i / 8))) (i mod 8).

Lemma shiftr3 i : Z.shiftr i 3 = i / 8.
Proof. by rewrite Z.shiftr_div_pow2. Qed.

Lemma bitmask_pow i : bitmask i = 2 ^ (i mod 8).
Proof.
  unfold bitmask, NBBY. change (8 - 1) with (Z.ones 3). rewrite Z.land_ones by lia.
  rewrite Z.shiftl_mul_pow2 by (apply Z.mod_pos_bound; lia). apply Z.mul_1_l.
Qed.

Lemma flag_bit b j : 0 <= j -> flag b (2 ^ j) = Z.testbit b j.
Proof.
  intros Hj. unfold flag. destruct (Z.testbit b j) eqn:E.
  - apply negb_true_iff, Z.eqb_neq. intros H.
    assert (Z.testbit (Z.land b (2 ^ j)) j = true) as H2.
    { by rewrite Z.land_spec, E, Z.pow2_bits_true by lia. }
    by rewrite H, Z.bits_0 in H2.
  - apply negb_false_iff, Z.eqb_eq, Z.bits_inj'. intros n Hn.
    rewrite Z.land_spec, Z.bits_0, Z.pow2_bits_eqb by lia.
    destruct (Z.eqb_spec j n) as [<-|]; [by rewrite E|by rewrite andb_false_r].
Qed.

Lemma lookup_byte (b : list Z) i :
  0 <= i < Z.of_nat (length b) -> aget b i = Ret (default 0 (b !! Z.to_nat i)).
Proof. intros Hi. destruct (aget_bounds b i Hi) as (v & -> & ->). done. Qed.

Lemma byte_index (q : list Z) i : 0 <= i < 8 * Z.of_nat (length q) -> 0 <= i / 8 < Z.of_nat (length q).
Proof. intros Hi. split; [apply Z.div_pos; lia|apply Z.div_lt_upper_bound; lia]. Qed.

Lemma isset_qbit q i : 0 <= i < 8 * Z.of_nat (length q) -> isset q i = Ret (qbit q i).
Proof.
  intros Hi. unfold isset. rewrite shiftr3, lookup_byte by by apply byte_index. cbn [bind].
  rewrite bitmask_pow, flag_bit by (apply Z.mod_pos_bound; lia). done.
Qed.

(** Replacing one byte replaces its eight bits. *)
Lemma qbit_insert q n v i :
  0 <= n < Z.of_nat (length q) -> 0 <= i ->
  qbit (<[Z.to_nat n := v]> q) i = if i / 8 =? n then Z.testbit v (i mod 8) else qbit q i.
Proof.
  intros Hn Hi. unfold qbit. destruct (Z.eqb_spec (i / 8) n) as [->|Hne].
  - rewrite list_lookup_insert_eq by lia. done.
  - assert (0 <= i / 8) by (apply Z.div_pos; lia). rewrite list_lookup_insert_ne by lia. done.
Qed.

Lemma u8_testbit z j : 0 <= j < 8 -> Z.testbit (u8 z) j = Z.testbit z j.
Proof. intros Hj. unfold u8, wrap. by rewrite Z.mod_pow2_bits_low by lia. Qed.

(** [setbit] and [clrbit] change bit [i] only. *)
Definition bit_update (q q' : list Z) (P : Z -> Prop) (v : bool) : Prop :=
  length q' = length q /\ bytes_ok q' /\
  (forall j, 0 <= j -> P j -> qbit q' j = v) /\ (forall j, 0 <= j -> ~ P j -> qbit q' j = qbit q j).

Lemma same_byte i j : i / 8 = j / 8 -> i mod 8 = j mod 8 -> i = j.
Proof. intros. rewrite (Z.div_mod i 8), (Z.div_mod j 8); lia. Qed.

Lemma setbit_qbit q i :
  bytes_ok q -> 0 <= i < 8 * Z.of_nat (length q) ->
  exists q', setbit q i = Ret q' /\ bit_update q q' (eq i) true.
Proof.
  intros Hq Hi. unfold setbit. rewrite shiftr3, lookup_byte by by apply byte_index. cbn [bind].
  rewrite aset_bounds by by apply byte_index. eexists; split; [done|]. rewrite bitmask_pow.
  pose proof (Z.mod_pos_bound i 8 eq_refl). unfold bit_update.
  rewrite length_insert. conj; [done| | |].
  - apply bytes_ok_insert; [done|]. by apply wrap_range.
  - intros j Hj <-. rewrite qbit_insert, Z.eqb_refl by (done || by apply byte_index).
    rewrite u8_testbit, Z.lor_spec, Z.pow2_bits_true by lia. apply orb_true_r.
  - intros j Hj Hne. rewrite qbit_insert by (done || by apply byte_index).
    destruct (Z.eqb_spec (j / 8) (i / 8)) as [E|]; [|done]. pose proof (Z.mod_pos_bound j 8 eq_refl).
    rewrite u8_testbit, Z.lor_spec, Z.pow2_bits_false by (lia || (intros E2; apply Hne; by apply same_byte)).
    unfold qbit. rewrite E. apply orb_false_r.
Qed.

Lemma clrbit_qbit q i :
  bytes_ok q -> 0 <= i < 8 * Z.of_nat (length q) ->
  exists q', clrbit q i = Ret q' /\ bit_update q q' (eq i) false.
Proof.
  intros Hq Hi. unfold clrbit. rewrite shiftr3, lookup_byte by by apply byte_index. cbn [bind].
  rewrite aset_bounds by by apply byte_index. eexists; split; [done|]. rewrite bitmask_pow.
  pose proof (Z.mod_pos_bound i 8 eq_refl). unfold bit_update.
  rewrite length_insert. conj; [done| | |].
  - apply bytes_ok_insert; [done|]. by apply wrap_range.
  - intros j Hj <-. rewrite qbit_insert, Z.eqb_refl by (done || by apply byte_index).
    rewrite u8_testbit, Z.land_spec, Z.lnot_spec, Z.pow2_bits_true by lia. apply andb_false_r.
  - intros j Hj Hne. rewrite qbit_insert by (done || by apply byte_index).
    destruct (Z.eqb_spec (j / 8) (i / 8)) as [E|]; [|done]. pose proof (Z.mod_pos_bound j 8 eq_refl).
    rewrite u8_testbit, Z.land_spec, Z.lnot_spec, Z.pow2_bits_false
      by (lia || (intros E2; apply Hne; by apply same_byte)).
    unfold qbit. rewrite E. apply andb_true_r.
Qed.

(** ** Masks *)

Lemma ones_shiftl d : 0 <= d -> Z.shiftl 1 d - 1 = Z.ones d.
Proof. intros. unfold Z.ones. lia. Qed.

Lemma testbit_mask d s m :
  0 <= d -> 0 <= s -> Z.testbit (Z.shiftl (Z.shiftl 1 d - 1) s) m = (s <=? m) && (m <? s + d).
Proof.
  intros Hd Hs. rewrite ones_shiftl by done. destruct (Z.leb_spec s m); simpl.
  - rewrite Z.shiftl_spec, Z.testbit_ones_nonneg by lia.
    destruct (Z.ltb_spec (m - s) d), (Z.ltb_spec m (s + d)); (done || lia).
  - destruct (decide (m < 0)); [by rewrite Z.testbit_neg_r|]. by rewrite Z.shiftl_spec_low.
Qed.

Lemma testbit_low_mask d m : 0 <= d -> 0 <= m -> Z.testbit (Z.shiftl 1 d - 1) m = (m <? d).
Proof. intros. rewrite ones_shiftl by done. rewrite Z.testbit_ones_nonneg by lia. done. Qed.
