(* ===== verification/BpfFilter.v ===== *)
(** The BPF packet-filter machine of [sys/net/bpf_filter.c]: the instruction
    encoding of [sys/net/bpf.h], the accessors of mbuf chains, the interpreter
    [bpf_filter] and the admission check [bpf_validate] of the kernel build
    ([_KERNEL] defined).

    The program is a list of instructions and [pc] an index into it, so that
    leaving the array is visible as a fault.  The packet is either a contiguous
    buffer or a chain of mbufs; the source distinguishes the two by
    [buflen != 0] and casts the pointer, and the model faults when the cast is
    wrong. *)

From S2P Require Import Prelude.

(** * Instruction encoding: [sys/net/bpf.h]

    The codes are macros there, and abbreviations here. *)

Notation BPF_LD := 0x00 (only parsing).
Notation BPF_LDX := 0x01 (only parsing).
Notation BPF_ST := 0x02 (only parsing).
Notation BPF_STX := 0x03 (only parsing).
Notation BPF_ALU := 0x04 (only parsing).
Notation BPF_JMP := 0x05 (only parsing).
Notation BPF_RET := 0x06 (only parsing).
Notation BPF_MISC := 0x07 (only parsing).

Notation BPF_W := 0x00 (only parsing).
Notation BPF_H := 0x08 (only parsing).
Notation BPF_B := 0x10 (only parsing).

Notation BPF_IMM := 0x00 (only parsing).
Notation BPF_ABS := 0x20 (only parsing).
Notation BPF_IND := 0x40 (only parsing).
Notation BPF_MEM := 0x60 (only parsing).
Notation BPF_LEN := 0x80 (only parsing).
Notation BPF_MSH := 0xa0 (only parsing).

Notation BPF_ADD := 0x00 (only parsing).
Notation BPF_SUB := 0x10 (only parsing).
Notation BPF_MUL := 0x20 (only parsing).
Notation BPF_DIV := 0x30 (only parsing).
Notation BPF_OR := 0x40 (only parsing).
Notation BPF_AND := 0x50 (only parsing).
Notation BPF_LSH := 0x60 (only parsing).
Notation BPF_RSH := 0x70 (only parsing).
Notation BPF_NEG := 0x80 (only parsing).
Notation BPF_JA := 0x00 (only parsing).
Notation BPF_JEQ := 0x10 (only parsing).
Notation BPF_JGT := 0x20 (only parsing).
Notation BPF_JGE := 0x30 (only parsing).
Notation BPF_JSET := 0x40 (only parsing).
Notation BPF_K := 0x00 (only parsing).
Notation BPF_X := 0x08 (only parsing).
Notation BPF_A := 0x10 (only parsing).
Notation BPF_TAX := 0x00 (only parsing).
Notation BPF_TXA := 0x80 (only parsing).

Definition BPF_CLASS (code : Z) := Z.land code 0x07.
Definition BPF_MODE (code : Z) := Z.land code 0xe0.
Definition BPF_OP (code : Z) := Z.land code 0xf0.
Definition BPF_RVAL (code : Z) := Z.land code 0x18.

Definition BPF_MEMWORDS := 16.
Definition BPF_MAXINSNS := 512.

Declare Scope bpf_scope.
Infix ".|" := Z.lor (at level 50, left associativity) : bpf_scope.
#[local] Open Scope bpf_scope.

(** [struct bpf_insn] *)
Record bpf_insn := Insn { code : Z; jt : Z; jf : Z; k : Z }.

Definition BPF_STMT (c k : Z) := Insn (u16 c) 0 0 k.
Definition BPF_JUMP (c k t f : Z) := Insn (u16 c) t f k.

(** The fields are a [u_int16_t], two [u_char] and a [u_int32_t]. *)
Definition insn_ok (i : bpf_insn) : Prop :=
  is_u 16 (code i) /\ is_u 8 (jt i) /\ is_u 8 (jf i) /\ is_u 32 (k i).

#[export] Instance insn_ok_dec i : Decision (insn_ok i).
Proof. unfold insn_ok. apply _. Defined.

(** * Packets *)

(** An mbuf is its valid data, [m_len] bytes at [mtod]. *)
Definition mbuf := list Z.
Definition m_len (m : mbuf) : Z := Z.of_nat (length m).

Inductive packet :=
| PBuf (bytes : list Z)
| PMbuf (m : list mbuf).

(** [EXTRACT_SHORT] and [EXTRACT_LONG]: big-endian reads at [p + off]. *)
Definition EXTRACT_SHORT (p : list Z) (off : Z) : outcome Z :=
  let! b0 := aget p off in
  let! b1 := aget p (off + 1) in
  Ret (u16 (Z.lor (Z.shiftl b0 8) b1)).

Definition EXTRACT_LONG (p : list Z) (off : Z) : outcome Z :=
  let! b0 := aget p off in
  let! b1 := aget p (off + 1) in
  let! b2 := aget p (off + 2) in
  let! b3 := aget p (off + 3) in
  Ret (u32 (Z.lor (Z.lor (Z.lor (Z.shiftl b0 24) (Z.shiftl b1 16)) (Z.shiftl b2 8)) b3)).

(** The [MINDEX] macro: advance to the mbuf that holds offset [k]; [None] is
    its [return 0]. *)
Fixpoint mindex_loop (m : list mbuf) (k : Z) : option (list mbuf * Z) :=
  match m with
  | [] => None
  | b :: m' => if m_len b <=? k then mindex_loop m' (u32 (k - m_len b)) else Some (m, k)
  end.

Definition MINDEX (m : list mbuf) (k : Z) : outcome (option (list mbuf * Z)) :=
  match m with [] => Fault NullDeref | _ => Ret (mindex_loop m k) end.

(** [bpf_m_xword]: the value and [*err]. *)
Definition bpf_m_xword (m : list mbuf) (k : Z) : outcome (Z * Z) :=
  let! r := MINDEX m k in
  match r with
  | None | Some ([], _) => Ret (0, 1)
  | Some (cp :: rest, k) =>
      let len := m_len cp in
      if u32 (k + 4) <=? len then
        let! v := EXTRACT_LONG cp k in Ret (v, 0)
      else
        match rest with
        | [] => Ret (0, 1)
        | np :: _ =>
            if u32 (m_len np + len - k) <? 4 then Ret (0, 1)
            else
              let d := u32 (len - k) in
              if d =? 1 then
                let! c0 := aget cp k in
                let! n0 := aget np 0 in
                let! n1 := aget np 1 in
                let! n2 := aget np 2 in
                Ret (Z.lor (Z.lor (Z.lor (Z.shiftl c0 24) (Z.shiftl n0 16)) (Z.shiftl n1 8)) n2, 0)
              else if d =? 2 then
                let! c0 := aget cp k in
                let! c1 := aget cp (k + 1) in
                let! n0 := aget np 0 in
                let! n1 := aget np 1 in
                Ret (Z.lor (Z.lor (Z.lor (Z.shiftl c0 24) (Z.shiftl c1 16)) (Z.shiftl n0 8)) n1, 0)
              else
                let! c0 := aget cp k in
                let! c1 := aget cp (k + 1) in
                let! c2 := aget cp (k + 2) in
                let! n0 := aget np 0 in
                Ret (Z.lor (Z.lor (Z.lor (Z.shiftl c0 24) (Z.shiftl c1 16)) (Z.shiftl c2 8)) n0, 0)
        end
  end.

(** [bpf_m_xhalf] *)
Definition bpf_m_xhalf (m : list mbuf) (k : Z) : outcome (Z * Z) :=
  let! r := MINDEX m k in
  match r with
  | None | Some ([], _) => Ret (0, 1)
  | Some (cp :: rest, k) =>
      let len := m_len cp in
      if u32 (k + 2) <=? len then
        let! v := EXTRACT_SHORT cp k in Ret (v, 0)
      else
        match rest with
        | [] => Ret (0, 1)
        | np :: _ =>
            let! c0 := aget cp k in
            let! n0 := aget np 0 in
            Ret (Z.lor (Z.shiftl c0 8) n0, 0)
        end
  end.

(** * The interpreter *)

(** The machine's registers: the program counter, the accumulator, the index
    register and the scratch memory [int32_t mem[BPF_MEMWORDS]]. *)
Record vm := Vm { pc : Z; A : Z; X : Z; mem : list Z }.

Definition set_A (s : vm) (a : Z) : vm := Vm (pc s) a (X s) (mem s).
Definition set_X (s : vm) (x : Z) : vm := Vm (pc s) (A s) x (mem s).
Definition set_mem (s : vm) (m : list Z) : vm := Vm (pc s) (A s) (X s) m.
Definition jump (s : vm) (off : Z) : vm := Vm (pc s + off) (A s) (X s) (mem s).

(** One pass through the [switch]: [return v], or [continue]. *)
Inductive next := Stop (v : Z) | Continue (s : vm).

Section Interpreter.
Context {a : arch}.

(** A shift count of 32 or more is undefined in C: the value is whatever the
    machine's shifter gives. *)
Variable shift_over : Z -> Z -> Z.

(** The packet and the two lengths [bpf_filter] is called with. *)
Variable p : packet.
Variables wirelen buflen : Z.

(** The three packet loads; [None] is [return 0].  [k + sizeof(...)] is a
    [size_t] sum. *)
Definition load_word (k : Z) : outcome (option Z) :=
  if buflen <? ulong (k + 4) then
    if negb (buflen =? 0) then Ret None
    else
      match p with
      | PBuf _ => Fault BadCast
      | PMbuf m =>
          let! r := bpf_m_xword m k in
          let '(v, merr) := r in
          if negb (merr =? 0) then Ret None else Ret (Some (u32 v))
      end
  else
    match p with
    | PMbuf _ => Fault BadCast
    | PBuf b => let! v := EXTRACT_LONG b k in Ret (Some v)
    end.

Definition load_half (k : Z) : outcome (option Z) :=
  if buflen <? ulong (k + 2) then
    if negb (buflen =? 0) then Ret None
    else
      match p with
      | PBuf _ => Fault BadCast
      | PMbuf m =>
          let! r := bpf_m_xhalf m k in
          let '(v, merr) := r in
          if negb (merr =? 0) then Ret None else Ret (Some (u32 v))
      end
  else
    match p with
    | PMbuf _ => Fault BadCast
    | PBuf b => let! v := EXTRACT_SHORT b k in Ret (Some v)
    end.

Definition load_byte (k : Z) : outcome (option Z) :=
  if buflen <=? k then
    if negb (buflen =? 0) then Ret None
    else
      match p with
      | PBuf _ => Fault BadCast
      | PMbuf m =>
          let! r := MINDEX m k in
          match r with
          | None | Some ([], _) => Ret None
          | Some (b :: _, k) => let! v := aget b k in Ret (Some v)
          end
      end
  else
    match p with
    | PMbuf _ => Fault BadCast
    | PBuf b => let! v := aget b k in Ret (Some v)
    end.

(** [if (...) return 0; A = ...; continue;] *)
Definition to_A (s : vm) (r : outcome (option Z)) : outcome next :=
  let! o := r in
  match o with None => Ret (Stop 0) | Some v => Ret (Continue (set_A s v)) end.

(** The cases of the [switch] come in four groups, tried in order; [None]
    means that no label of the group matches. *)
Definition switch_ret_ld (c : bpf_insn) (s : vm) : option (outcome next) :=
  let case l := code c =? l in
  if case (BPF_RET .| BPF_K) then Some (Ret (Stop (k c)))
  else if case (BPF_RET .| BPF_A) then Some (Ret (Stop (A s)))
  else if case (BPF_LD .| BPF_W .| BPF_ABS) then Some (to_A s (load_word (k c)))
  else if case (BPF_LD .| BPF_H .| BPF_ABS) then Some (to_A s (load_half (k c)))
  else if case (BPF_LD .| BPF_B .| BPF_ABS) then Some (to_A s (load_byte (k c)))
  else if case (BPF_LD .| BPF_W .| BPF_LEN) then Some (Ret (Continue (set_A s wirelen)))
  else if case (BPF_LDX .| BPF_W .| BPF_LEN) then Some (Ret (Continue (set_X s wirelen)))
  else if case (BPF_LD .| BPF_W .| BPF_IND) then Some (to_A s (load_word (u32 (X s + k c))))
  else if case (BPF_LD .| BPF_H .| BPF_IND) then Some (to_A s (load_half (u32 (X s + k c))))
  else None.

Definition switch_ld_mem (c : bpf_insn) (s : vm) : option (outcome next) :=
  let case l := code c =? l in
  if case (BPF_LD .| BPF_B .| BPF_IND) then Some (to_A s (load_byte (u32 (X s + k c))))
  else if case (BPF_LDX .| BPF_MSH .| BPF_B) then
    Some (let! o := load_byte (k c) in
          match o with
          | None => Ret (Stop 0)
          | Some v => Ret (Continue (set_X s (Z.shiftl (Z.land v 0xf) 2)))
          end)
  else if case (BPF_LD .| BPF_IMM) then Some (Ret (Continue (set_A s (k c))))
  else if case (BPF_LDX .| BPF_IMM) then Some (Ret (Continue (set_X s (k c))))
  else if case (BPF_LD .| BPF_MEM) then
    Some (let! v := aget (mem s) (k c) in Ret (Continue (set_A s (u32 v))))
  else if case (BPF_LDX .| BPF_MEM) then
    Some (let! v := aget (mem s) (k c) in Ret (Continue (set_X s (u32 v))))
  else if case BPF_ST then
    Some (let! m := aset (mem s) (k c) (s32 (A s)) in Ret (Continue (set_mem s m)))
  else if case BPF_STX then
    Some (let! m := aset (mem s) (k c) (s32 (X s)) in Ret (Continue (set_mem s m)))
  else None.

Definition switch_jmp (c : bpf_insn) (s : vm) : option (outcome next) :=
  let case l := code c =? l in
  let br (b : bool) := Some (Ret (Continue (jump s (if b then jt c else jf c)))) in
  if case (BPF_JMP .| BPF_JA) then Some (Ret (Continue (jump s (k c))))
  else if case (BPF_JMP .| BPF_JGT .| BPF_K) then br (k c <? A s)
  else if case (BPF_JMP .| BPF_JGE .| BPF_K) then br (k c <=? A s)
  else if case (BPF_JMP .| BPF_JEQ .| BPF_K) then br (A s =? k c)
  else if case (BPF_JMP .| BPF_JSET .| BPF_K) then br (flag (A s) (k c))
  else if case (BPF_JMP .| BPF_JGT .| BPF_X) then br (X s <? A s)
  else if case (BPF_JMP .| BPF_JGE .| BPF_X) then br (X s <=? A s)
  else if case (BPF_JMP .| BPF_JEQ .| BPF_X) then br (A s =? X s)
  else if case (BPF_JMP .| BPF_JSET .| BPF_X) then br (flag (A s) (X s))
  else None.

Definition lsh (x n : Z) : Z := if n <? 32 then u32 (Z.shiftl x n) else u32 (shift_over x n).
Definition rsh (x n : Z) : Z := if n <? 32 then Z.shiftr x n else u32 (shift_over x n).

Definition switch_alu (c : bpf_insn) (s : vm) : option (outcome next) :=
  let case l := code c =? l in
  let alu v := Some (Ret (Continue (set_A s v))) in
  if case (BPF_ALU .| BPF_ADD .| BPF_X) then alu (u32 (A s + X s))
  else if case (BPF_ALU .| BPF_SUB .| BPF_X) then alu (u32 (A s - X s))
  else if case (BPF_ALU .| BPF_MUL .| BPF_X) then alu (u32 (A s * X s))
  else if case (BPF_ALU .| BPF_DIV .| BPF_X) then
    if X s =? 0 then Some (Ret (Stop 0)) else alu (A s `div` X s)
  else if case (BPF_ALU .| BPF_AND .| BPF_X) then alu (Z.land (A s) (X s))
  else if case (BPF_ALU .| BPF_OR .| BPF_X) then alu (Z.lor (A s) (X s))
  else if case (BPF_ALU .| BPF_LSH .| BPF_X) then alu (lsh (A s) (X s))
  else if case (BPF_ALU .| BPF_RSH .| BPF_X) then alu (rsh (A s) (X s))
  else if case (BPF_ALU .| BPF_ADD .| BPF_K) then alu (u32 (A s + k c))
  else if case (BPF_ALU .| BPF_SUB .| BPF_K) then alu (u32 (A s - k c))
  else if case (BPF_ALU .| BPF_MUL .| BPF_K) then alu (u32 (A s * k c))
  else if case (BPF_ALU .| BPF_DIV .| BPF_K) then
    if k c =? 0 then Some (Fault DivByZero) else alu (A s `div` k c)
  else if case (BPF_ALU .| BPF_AND .| BPF_K) then alu (Z.land (A s) (k c))
  else if case (BPF_ALU .| BPF_OR .| BPF_K) then alu (Z.lor (A s) (k c))
  else if case (BPF_ALU .| BPF_LSH .| BPF_K) then alu (lsh (A s) (k c))
  else if case (BPF_ALU .| BPF_RSH .| BPF_K) then alu (rsh (A s) (k c))
  else if case (BPF_ALU .| BPF_NEG) then alu (u32 (- A s))
  else if case (BPF_MISC .| BPF_TAX) then Some (Ret (Continue (set_X s (A s))))
  else if case (BPF_MISC .| BPF_TXA) then alu (X s)
  else None.

Definition bpf_switch (c : bpf_insn) (s : vm) : outcome next :=
  match switch_ret_ld c s with
  | Some r => r
  | None =>
      match switch_ld_mem c s with
      | Some r => r
      | None =>
          match switch_jmp c s with
          | Some r => r
          | None => match switch_alu c s with Some r => r | None => Ret (Stop 0) end
          end
      end
  end.

(** The [while (1)] loop: [++pc], fetch, [switch]. *)
Fixpoint bpf_loop (fuel : nat) (prog : list bpf_insn) (s : vm) : outcome Z :=
  match fuel with
  | O => Spin
  | S fuel =>
      let s := jump s 1 in
      let! c := aget prog (pc s) in
      let! n := bpf_switch c s in
      match n with
      | Stop v => Ret v
      | Continue s => bpf_loop fuel prog s
      end
  end.

(** [bpf_filter]; [mem0] is what the uninitialised [mem] array holds. *)
Definition bpf_filter (fuel : nat) (mem0 : list Z) (prog : option (list bpf_insn)) : outcome Z :=
  match prog with
  | None => Ret (u32 (-1))
  | Some prog => bpf_loop fuel prog (Vm (-1) 0 0 mem0)
  end.
End Interpreter.

(** * The validator *)

(** One iteration of the loop of [bpf_validate]: [false] is [return 0]. *)
Definition validate_insn (bpf_maxbufsize len i : Z) (p : bpf_insn) : bool :=
  let class := BPF_CLASS (code p) in
  if (class =? BPF_LD) || (class =? BPF_LDX) then
    let mode := BPF_MODE (code p) in
    if mode =? BPF_IMM then true
    else if (mode =? BPF_ABS) || (mode =? BPF_IND) || (mode =? BPF_MSH) then
      negb (u32 bpf_maxbufsize <=? k p)
    else if mode =? BPF_MEM then negb (BPF_MEMWORDS <=? k p)
    else mode =? BPF_LEN
  else if (class =? BPF_ST) || (class =? BPF_STX) then negb (BPF_MEMWORDS <=? k p)
  else if class =? BPF_ALU then
    let op := BPF_OP (code p) in
    if (op =? BPF_ADD) || (op =? BPF_SUB) || (op =? BPF_MUL) || (op =? BPF_OR) ||
       (op =? BPF_AND) || (op =? BPF_LSH) || (op =? BPF_RSH) || (op =? BPF_NEG) then true
    else if op =? BPF_DIV then negb ((BPF_RVAL (code p) =? BPF_K) && (k p =? 0))
    else false
  else if class =? BPF_JMP then
    let op := BPF_OP (code p) in
    let from := u32 (i + 1) in
    if op =? BPF_JA then
      negb ((u32 (from + k p) <? from) || (len <=? u32 (from + k p)))
    else if (op =? BPF_JEQ) || (op =? BPF_JGT) || (op =? BPF_JGE) || (op =? BPF_JSET) then
      negb ((len <=? u32 (from + jt p)) || (len <=? u32 (from + jf p)))
    else false
  else if class =? BPF_RET then true
  else class =? BPF_MISC.

(** The [for] loop over [f[i]], [i < len]. *)
Fixpoint validate_loop (bpf_maxbufsize len : Z) (f : list bpf_insn) (n : nat) (i : Z) : outcome bool :=
  match n with
  | O => Ret true
  | S n =>
      let! p := aget f i in
      if validate_insn bpf_maxbufsize len i p
      then validate_loop bpf_maxbufsize len f n (u32 (i + 1))
      else Ret false
  end.

Definition bpf_validate (bpf_maxbufsize : Z) (f : list bpf_insn) (len : Z) : outcome bool :=
  if (len <? 1) || (BPF_MAXINSNS <? len) then Ret false
  else
    let! ok := validate_loop bpf_maxbufsize len f (Z.to_nat len) 0 in
    if ok then
      let! last := aget f (len - 1) in
      Ret (BPF_CLASS (code last) =? BPF_RET)
    else Ret false.
