(* ===== verification/BpfSafety.v ===== *)
(** What [bpf_validate] guarantees of [bpf_filter] ([sys/net/bpf_filter.c]): a
    program the validator admits reads only inside the program, the packet and
    the scratch memory, never divides by zero and returns within as many steps
    as it has instructions. *)

From S2P Require Import Prelude BpfFilter.
#[local] Open Scope bpf_scope.

(** * Well-formed packets and machines *)

(** How the kernel calls [bpf_filter]: on a contiguous buffer of [buflen] bytes
    or, with [buflen == 0], on a chain of mbufs that hold data. *)
Definition packet_ok (p : packet) (buflen : Z) : Prop :=
  match p with
  | PBuf b => buflen = Z.of_nat (length b) /\ 0 < buflen < 2 ^ 32 /\ bytes_ok b
  | PMbuf m => buflen = 0 /\ m <> [] /\ Forall (fun b => 0 < m_len b < 2 ^ 31 /\ bytes_ok b) m
  end.

Definition vm_ok (s : vm) : Prop :=
  is_u 32 (A s) /\ is_u 32 (X s) /\ length (mem s) = 16%nat.

(** An indexed load of a word or halfword computes [k + sizeof] from an
    arbitrary [k]; a 32-bit [size_t] can wrap there. *)
Definition wide_ind (c : bpf_insn) : bool :=
  (code c =? (BPF_LD .| BPF_W .| BPF_IND)) || (code c =? (BPF_LD .| BPF_H .| BPF_IND)).

Definition ind_safe (a : arch) (prog : list bpf_insn) : Prop :=
  a = LP64 \/ Forall (fun c => wide_ind c = false) prog.

(** A constant division by zero.  [bpf_validate] means to refuse it, but tests
    [BPF_RVAL(code) == BPF_K], and [BPF_RVAL] of a [BPF_DIV] is never
    [BPF_K]. *)
Definition zero_div (c : bpf_insn) : bool :=
  (code c =? (BPF_ALU .| BPF_DIV .| BPF_K)) && (k c =? 0).

Definition div_safe (prog : list bpf_insn) : Prop := Forall (fun c => zero_div c = false) prog.

(** A loaded value or [return 0]. *)
Definition load_good (r : outcome (option Z)) : Prop :=
  returns r (fun o => match o with Some v => is_u 32 v | None => True end).

(** * Packet accesses stay inside the packet *)

Lemma word4_ok b0 b1 b2 b3 :
  is_u 8 b0 -> is_u 8 b1 -> is_u 8 b2 -> is_u 8 b3 ->
  is_u 32 (Z.lor (Z.lor (Z.lor (Z.shiftl b0 24) (Z.shiftl b1 16)) (Z.shiftl b2 8)) b3).
Proof.
  intros. repeat apply is_u_lor; try lia;
    first [ eapply is_u_shiftl; [..|eassumption]; lia | eapply is_u_mono; [|eassumption]; lia ].
Qed.

Lemma word2_ok b0 b1 : is_u 8 b0 -> is_u 8 b1 -> is_u 16 (Z.lor (Z.shiftl b0 8) b1).
Proof.
  intros. apply is_u_lor; try lia;
    first [ eapply is_u_shiftl; [..|eassumption]; lia | eapply is_u_mono; [|eassumption]; lia ].
Qed.

(** Read the bytes an access names one after the other. *)
Ltac read_bytes :=
  repeat match goal with
  | Hb : bytes_ok ?b |- context [aget ?b ?i] =>
      let v := fresh "v" in let Hv := fresh "Hv" in
      destruct (aget_byte b i Hb) as (v & -> & Hv); [unfold m_len in *; lia|]; cbn [bind]
  end.

Lemma EXTRACT_LONG_ok b off :
  bytes_ok b -> 0 <= off -> off + 4 <= Z.of_nat (length b) ->
  returns (EXTRACT_LONG b off) (is_u 32).
Proof. intros Hb ? ?. unfold EXTRACT_LONG. read_bytes. apply u32_range. Qed.

Lemma EXTRACT_SHORT_ok b off :
  bytes_ok b -> 0 <= off -> off + 2 <= Z.of_nat (length b) ->
  returns (EXTRACT_SHORT b off) (is_u 32).
Proof.
  intros Hb ? ?. unfold EXTRACT_SHORT. read_bytes.
  apply (is_u_mono 16); [lia|]. apply wrap_range; lia.
Qed.

Definition chain_ok (m : list mbuf) : Prop := Forall (fun b => 0 < m_len b < 2 ^ 31 /\ bytes_ok b) m.

(** [MINDEX] stops inside an mbuf of the chain. *)
Lemma mindex_loop_ok m k m' k' :
  chain_ok m -> is_u 32 k -> mindex_loop m k = Some (m', k') ->
  exists b rest, m' = b :: rest /\ chain_ok m' /\ 0 <= k' < m_len b.
Proof.
  revert k. induction m as [|b m IH]; intros k Hm Hk; simpl; [done|].
  apply Forall_cons in Hm as Hm'. destruct Hm' as [Hb Hm'].
  destruct (Z.leb_spec (m_len b) k) as [Hle|Hlt].
  - intros E. eapply IH; [done| |done]. apply u32_range.
  - intros [= <- <-]. exists b, m. unfold is_u in Hk. auto with lia.
Qed.

Ltac use_mindex :=
  match goal with
  | |- context [mindex_loop ?m ?k] =>
      destruct (mindex_loop m k) as [[m' k']|] eqn:Emi; cbn [bind returns]; [|done];
      let H := fresh in
      destruct (mindex_loop_ok m k m' k') as (b & rest & -> & H & Hk'); [done..|];
      apply Forall_cons in H as [[? ?] ?]
  end.

Lemma bpf_m_xword_ok m k :
  m <> [] -> chain_ok m -> is_u 32 k -> returns (bpf_m_xword m k) (fun r => is_u 32 (u32 r.1)).
Proof.
  intros Hne Hm Hk. unfold bpf_m_xword, MINDEX. destruct m as [|b0 m0] eqn:Em; [done|].
  rewrite <- Em in *. cbn [bind]. use_mindex.
  rewrite (u32_small (k' + 4)) by (unfold is_u; lia).
  destruct (Z.leb_spec (k' + 4) (m_len b)).
  - apply returns_bind. eapply returns_mono; [|apply EXTRACT_LONG_ok; unfold m_len in *; auto; lia].
    intros v Hv. simpl. apply u32_range.
  - destruct rest as [|np rest]; [cbn; apply u32_range|]. apply Forall_cons in H1 as [[? ?] ?].
    rewrite u32_small by (unfold is_u; lia). rewrite u32_small by (unfold is_u; lia).
    destruct (Z.ltb_spec (m_len np + m_len b - k') 4); [cbn; apply u32_range|].
    destruct (Z.eqb_spec (m_len b - k') 1); [|destruct (Z.eqb_spec (m_len b - k') 2)];
      read_bytes; apply u32_range.
Qed.

Lemma bpf_m_xhalf_ok m k :
  m <> [] -> chain_ok m -> is_u 32 k -> returns (bpf_m_xhalf m k) (fun r => is_u 32 (u32 r.1)).
Proof.
  intros Hne Hm Hk. unfold bpf_m_xhalf, MINDEX. destruct m as [|b0 m0] eqn:Em; [done|].
  rewrite <- Em in *. cbn [bind]. use_mindex.
  rewrite (u32_small (k' + 2)) by (unfold is_u; lia).
  destruct (Z.leb_spec (k' + 2) (m_len b)).
  - apply returns_bind. eapply returns_mono; [|apply EXTRACT_SHORT_ok; unfold m_len in *; auto; lia].
    intros v Hv. simpl. apply u32_range.
  - destruct rest as [|np rest]; [cbn; apply u32_range|]. apply Forall_cons in H1 as [[? ?] ?].
    read_bytes. apply u32_range.
Qed.

Section Loads.
Context {a : arch}.
Variable p : packet.
Variables wirelen buflen : Z.
Hypothesis Hp : packet_ok p buflen.

(** [k + n] does not wrap as a [size_t]. *)
Definition no_wrap (k n : Z) : Prop := is_u 32 k /\ is_u (@long_bits a) (k + n).

Lemma load_word_ok k : no_wrap k 4 -> load_good (load_word p buflen k).
Proof.
  intros [Hk Hw]. unfold load_good, load_word. rewrite ulong_small by done.
  destruct (Z.ltb_spec buflen (k + 4)).
  - destruct (Z.eqb_spec buflen 0); [|done]. destruct p as [b|m]; cbn in Hp; [lia|].
    destruct Hp as (_ & Hne & Hm). apply returns_bind.
    eapply returns_mono; [|apply bpf_m_xword_ok; auto].
    intros [v er]; simpl. destruct (negb _); simpl; auto.
  - destruct p as [b|m]; cbn in Hp; unfold is_u in Hk; [|lia]. destruct Hp as (-> & ? & ?).
    apply returns_bind. eapply returns_mono; [|apply EXTRACT_LONG_ok; auto; lia]. auto.
Qed.

Lemma load_half_ok k : no_wrap k 2 -> load_good (load_half p buflen k).
Proof.
  intros [Hk Hw]. unfold load_good, load_half. rewrite ulong_small by done.
  destruct (Z.ltb_spec buflen (k + 2)).
  - destruct (Z.eqb_spec buflen 0); [|done]. destruct p as [b|m]; cbn in Hp; [lia|].
    destruct Hp as (_ & Hne & Hm). apply returns_bind.
    eapply returns_mono; [|apply bpf_m_xhalf_ok; auto].
    intros [v er]; simpl. destruct (negb _); simpl; auto.
  - destruct p as [b|m]; cbn in Hp; unfold is_u in Hk; [|lia]. destruct Hp as (-> & ? & ?).
    apply returns_bind. eapply returns_mono; [|apply EXTRACT_SHORT_ok; auto; lia]. auto.
Qed.

(** The value is a byte, whatever the width of [size_t]. *)
Lemma load_byte_ok k : is_u 32 k -> load_good (load_byte p buflen k).
Proof.
  intros Hk. unfold load_good, load_byte. assert (H8 : forall v, is_u 8 v -> is_u 32 v).
  { intros v. apply is_u_mono. lia. }
  destruct (Z.leb_spec buflen k).
  - destruct (Z.eqb_spec buflen 0); [|done]. destruct p as [b|m]; cbn in Hp; [lia|].
    destruct Hp as (_ & Hne & Hm). unfold MINDEX. cbn [negb].
    destruct m as [|b0 m0] eqn:Em; [done|]. rewrite <- Em in *. cbn [bind]. use_mindex.
    read_bytes. cbn. auto.
  - destruct p as [b|m]; cbn in Hp; unfold is_u in Hk; [|lia]. destruct Hp as (-> & ? & ?).
    read_bytes. cbn. auto.
Qed.
End Loads.

(** * One step of a validated instruction *)

(** The step stops with a 32-bit value or moves forward inside the program. *)
Definition step_good (len : Z) (s : vm) (r : outcome next) : Prop :=
  returns r (fun n =>
    match n with
    | Stop v => is_u 32 v
    | Continue s' => vm_ok s' /\ pc s <= pc s' < len - 1
    end).

Section Steps.
Context {a : arch}.
Variable shift_over : Z -> Z -> Z.
Variable p : packet.
Variables wirelen buflen bpf_maxbufsize len : Z.
Hypothesis Hp : packet_ok p buflen.
Hypothesis Hwire : is_u 32 wirelen.
Hypothesis Hmax : is_u 31 bpf_maxbufsize.
Hypothesis Hlen : 0 < len <= BPF_MAXINSNS.

(** The instruction at [pc s] passed the validator and is not the last one
    unless it is a [BPF_RET]. *)
Definition admitted_insn (c : bpf_insn) (s : vm) : Prop :=
  insn_ok c /\ 0 <= pc s < len /\
  validate_insn bpf_maxbufsize len (pc s) c = true /\
  (pc s = len - 1 -> BPF_CLASS (code c) = BPF_RET) /\
  (a = LP64 \/ wide_ind c = false) /\
  zero_div c = false.

Lemma no_wrap_abs k n : is_u 32 k -> k < bpf_maxbufsize -> 0 <= n <= 4 -> no_wrap (a := a) k n.
Proof.
  intros Hk Hlt Hn. split; [done|]. unfold is_u in *. destruct (@long_bits_cases a) as [->| ->]; lia.
Qed.

Lemma no_wrap_64 k n : is_u 32 k -> a = LP64 -> 0 <= n <= 4 -> no_wrap (a := a) k n.
Proof. intros Hk -> Hn. split; [done|]. unfold is_u in *. cbn. lia. Qed.

Lemma to_A_good s r : vm_ok s -> 0 <= pc s < len - 1 -> load_good r -> step_good len s (to_A s r).
Proof.
  intros (HA & HX & Hm) Hpc Hr. unfold step_good, to_A. apply returns_bind.
  eapply returns_mono; [|exact Hr]. intros [v|] Hv; simpl; [|by unfold is_u].
  unfold vm_ok; simpl; conj; auto; lia.
Qed.

(** Evaluate the fields of a literal instruction code in [H]. *)
Ltac eval_code H :=
  repeat match type of H with
  | context [BPF_CLASS ?x] =>
      let v := eval vm_compute in (BPF_CLASS x) in change (BPF_CLASS x) with v in H
  | context [BPF_MODE ?x] =>
      let v := eval vm_compute in (BPF_MODE x) in change (BPF_MODE x) with v in H
  | context [BPF_OP ?x] =>
      let v := eval vm_compute in (BPF_OP x) in change (BPF_OP x) with v in H
  | context [BPF_RVAL ?x] =>
      let v := eval vm_compute in (BPF_RVAL x) in change (BPF_RVAL x) with v in H
  end; cbn in H.

(** Instantiate the facts of the instruction whose code is known. *)
Ltac label E :=
  match goal with
  | H : validate_insn _ _ _ ?c = true |- _ => unfold validate_insn in H; rewrite E in H; eval_code H
  end;
  match goal with
  | H : pc ?s = len - 1 -> BPF_CLASS (code ?c) = BPF_RET |- _ =>
      rewrite E in H; eval_code H;
      try (assert (pc s < len - 1) by
        (destruct (decide (pc s = len - 1)) as [e|]; [discriminate (H e)|lia]));
      clear H
  end; boolify.

(** One goal per [case] label. *)
Ltac split_cases H :=
  lazymatch type of H with
  | (if code ?c =? ?l then _ else _) = _ =>
      let E := fresh "Ecode" in
      destruct (code c =? l) eqn:E;
      [ apply Z.eqb_eq in E; label E; try injection H as <- | clear E; split_cases H ]
  | None = Some _ => discriminate H
  end.

(** Goals about the registers after a step. *)
Ltac continue :=
  unfold step_good, vm_ok; simpl; rewrite ?length_insert; conj; auto with words; try lia.

Ltac start :=
  intros (Hi & Hpc & Hv & Hlast & Hind & Hdiv) Hs H; assert (Hs' := Hs); destruct Hs' as (HA & HX & Hm);
  destruct Hi as (_ & Hjt & Hjf & Hk).

Lemma maxbufsize_u32 : u32 bpf_maxbufsize = bpf_maxbufsize.
Proof using Hmax. apply u32_small. eapply is_u_mono; [|exact Hmax]. lia. Qed.

Lemma switch_ret_ld_good c s r :
  admitted_insn c s -> vm_ok s -> switch_ret_ld p wirelen buflen c s = Some r -> step_good len s r.
Proof using Hp Hwire Hmax Hlen.
  start. pose proof maxbufsize_u32 as Hmb. unfold switch_ret_ld in H. split_cases H.
  all: try rewrite Hmb in *.
  1-2, 6-7: continue.
  1-3: apply to_A_good; [done|lia|];
    first [apply load_word_ok | apply load_half_ok | apply load_byte_ok]; auto;
    apply no_wrap_abs; auto; lia.
  all: destruct Hind as [Hind|Hind]; [|unfold wide_ind in Hind; by rewrite Ecode in Hind].
  all: apply to_A_good; [done|lia|];
    first [apply load_word_ok | apply load_half_ok]; auto;
    apply no_wrap_64; auto with words; lia.
Qed.

Lemma nibble_ok v : is_u 32 v -> is_u 32 (Z.shiftl (Z.land v 0xf) 2).
Proof.
  intros Hv. apply (is_u_shiftl 4); try lia. rewrite Z.land_comm.
  apply is_u_land; unfold is_u in *; lia.
Qed.

Lemma switch_ld_mem_good c s r :
  admitted_insn c s -> vm_ok s -> switch_ld_mem p buflen c s = Some r -> step_good len s r.
Proof using Hp Hmax Hlen.
  start. assert (Hmem : forall i, is_u 32 i -> i < BPF_MEMWORDS -> 0 <= i < Z.of_nat (length (mem s))).
  { unfold is_u, BPF_MEMWORDS. rewrite Hm. lia. }
  unfold switch_ld_mem in H. split_cases H.
  - apply to_A_good; [done|lia|]. apply load_byte_ok; auto with words.
  - unfold step_good. apply returns_bind.
    eapply returns_mono; [|apply load_byte_ok; [exact Hp|exact Hk]].
    intros [v|] Hv'; simpl; [|by unfold is_u]. unfold vm_ok; simpl. conj; auto; try lia.
    by apply nibble_ok.
  - continue.
  - continue.
  - destruct (aget_bounds (mem s) (k c)) as (v & -> & _); [auto|]. continue.
  - destruct (aget_bounds (mem s) (k c)) as (v & -> & _); [auto|]. continue.
  - rewrite aset_bounds by auto. continue.
  - rewrite aset_bounds by auto. continue.
Qed.

Lemma switch_jmp_good c s r :
  admitted_insn c s -> vm_ok s -> switch_jmp c s = Some r -> step_good len s r.
Proof using Hlen.
  start. unfold is_u, BPF_MAXINSNS in *. unfold switch_jmp in H. split_cases H.
  all: rewrite (u32_small (pc s + 1)) in * by (unfold is_u; lia).
  1: { destruct (decide (pc s + 1 + k c < 2 ^ 32)).
       - rewrite u32_small in * by (unfold is_u; lia). continue.
       - exfalso. unfold u32, wrap in *.
         assert ((pc s + 1 + k c) mod 2 ^ 32 = pc s + 1 + k c - 2 ^ 32); [|lia].
         symmetry. apply Z.mod_unique with 1; lia. }
  all: rewrite !u32_small in * by (unfold is_u; lia); continue; case_if; lia.
Qed.

Lemma lsh_ok x n : is_u 32 (lsh shift_over x n).
Proof. unfold lsh. case_if; auto with words. Qed.

Lemma rsh_ok x n : is_u 32 x -> is_u 32 n -> is_u 32 (rsh shift_over x n).
Proof. intros Hx Hn. unfold rsh. case_if; auto with words. apply is_u_shiftr; unfold is_u in *; lia. Qed.

Lemma switch_alu_good c s r :
  admitted_insn c s -> vm_ok s -> switch_alu shift_over c s = Some r -> step_good len s r.
Proof using Hlen.
  start. assert (H0 : is_u 32 0) by (unfold is_u; lia).
  assert (HX' : 0 <= X s) by (unfold is_u in HX; lia).
  assert (Hk' : 0 <= k c) by (unfold is_u in Hk; lia).
  unfold switch_alu in H. split_cases H.
  4: destruct (X s =? 0); injection H as <-.
  13: unfold zero_div in Hdiv; rewrite Ecode, Z.eqb_refl in Hdiv; simpl in Hdiv;
    rewrite Hdiv in H; injection H as <-.
  all: continue; auto using lsh_ok, rsh_ok.
  all: try (apply is_u_land; auto; lia).
  all: try (apply is_u_lor; auto; lia).
Qed.

Lemma bpf_switch_good c s :
  admitted_insn c s -> vm_ok s -> step_good len s (bpf_switch shift_over p wirelen buflen c s).
Proof using Hp Hwire Hmax Hlen.
  intros Hc Hs. unfold bpf_switch.
  destruct (switch_ret_ld _ _ _ _ _) eqn:E1; [by eapply switch_ret_ld_good|].
  destruct (switch_ld_mem _ _ _ _) eqn:E2; [by eapply switch_ld_mem_good|].
  destruct (switch_jmp _ _) eqn:E3; [by eapply switch_jmp_good|].
  destruct (switch_alu _ _ _) eqn:E4; [by eapply switch_alu_good|].
  simpl. by unfold is_u.
Qed.
End Steps.

(** * Validated programs run safely *)

Lemma aget_lookup_Z {A} (l : list A) i x :
  0 <= i -> l !! Z.to_nat i = Some x <-> aget l i = Ret x.
Proof.
  intros Hi. split; [by apply aget_Some|]. intros H. by apply aget_Ret_inv in H as [_ ?].
Qed.

(** The loop of [bpf_validate] checks every instruction from [i] on. *)
Lemma validate_loop_true mb len f n i :
  0 <= i -> i + Z.of_nat n < 2 ^ 32 ->
  validate_loop mb len f n i = Ret true ->
  forall j c, i <= j < i + Z.of_nat n -> aget f j = Ret c -> validate_insn mb len j c = true.
Proof.
  revert i. induction n as [|n IH]; intros i Hi Hn; simpl; [lia|]. intros H j c Hj Hc.
  apply bind_Ret_inv in H as (p & Hp & H). destruct (validate_insn mb len i p) eqn:Ev; [|done].
  rewrite u32_small in H by (unfold is_u; lia).
  destruct (decide (j = i)) as [->|]; [congruence|]. apply (IH (i + 1)) with (j := j); auto; lia.
Qed.

Lemma bpf_validate_true mb f len :
  bpf_validate mb f len = Ret true ->
  0 < len <= BPF_MAXINSNS /\
  (forall j c, 0 <= j < len -> aget f j = Ret c -> validate_insn mb len j c = true) /\
  exists last, aget f (len - 1) = Ret last /\ BPF_CLASS (code last) = BPF_RET.
Proof.
  unfold bpf_validate. intros H. case_if_in H; [done|]. boolify.
  apply bind_Ret_inv in H as ([|] & Hl & H); [|done]. apply bind_Ret_inv in H as (last & Hlast & H).
  unfold BPF_MAXINSNS in *. split; [lia|]. split.
  - intros j c Hj Hc. eapply validate_loop_true; [..|exact Hl| |exact Hc]; lia.
  - exists last. split; [done|]. injection H as H. by apply Z.eqb_eq in H.
Qed.

Section Safety.
Context {a : arch}.
Variable shift_over : Z -> Z -> Z.
Variable p : packet.
Variables wirelen buflen bpf_maxbufsize : Z.
Hypothesis Hp : packet_ok p buflen.
Hypothesis Hwire : is_u 32 wirelen.
Hypothesis Hmax : is_u 31 bpf_maxbufsize.

Variable prog : list bpf_insn.
Hypothesis Hprog : Forall insn_ok prog.
Hypothesis Hind : ind_safe a prog.
Hypothesis Hdiv : div_safe prog.
Hypothesis Hval : bpf_validate bpf_maxbufsize prog (Z.of_nat (length prog)) = Ret true.

Lemma admitted_at s c :
  0 <= pc s -> aget prog (pc s) = Ret c ->
  admitted_insn bpf_maxbufsize (Z.of_nat (length prog)) c s.
Proof using Hprog Hind Hdiv Hval.
  intros Hpc Hc. apply bpf_validate_true in Hval as (Hlen & Hall & last & Hlast & Hret).
  destruct (aget_Ret_inv _ _ _ Hc) as [Hb Hl].
  unfold div_safe, ind_safe in *. rewrite Forall_lookup in *.
  unfold admitted_insn. conj; eauto; try lia.
  - intros E. rewrite E in Hc. congruence.
  - destruct Hind as [|H]; eauto.
Qed.

(** The loop returns: [pc] grows at every iteration and stays in the program. *)
Lemma bpf_loop_good fuel s :
  vm_ok s -> -1 <= pc s < Z.of_nat (length prog) - 1 ->
  Z.of_nat (length prog) - 1 - pc s <= Z.of_nat fuel ->
  returns (bpf_loop shift_over p wirelen buflen fuel prog s) (is_u 32).
Proof using Hp Hwire Hmax Hprog Hind Hdiv Hval.
  revert s. induction fuel as [|fuel IH]; intros s Hs Hpc Hf; [lia|].
  cbn [bpf_loop]. destruct (aget_bounds prog (pc (jump s 1))) as (c & Hc & _); [simpl; lia|].
  rewrite Hc. cbn [bind]. apply returns_bind. apply bpf_validate_true in Hval as Hlen.
  eapply returns_mono; [|eapply bpf_switch_good; [exact Hp|exact Hwire|exact Hmax|apply Hlen| |]].
  - intros [v|s']; simpl; [done|]. intros [Hs' Hpc']. apply IH; [done|lia|lia].
  - apply admitted_at; [simpl; lia|done].
  - exact Hs.
Qed.
End Safety.

(** C8.  A filter that [bpf_validate] admits runs safely on a packet in a buffer
    that is not empty or in a chain of mbufs none of which is empty: whatever
    the uninitialised scratch memory holds and whatever an over-wide shift
    gives, [bpf_filter] returns a 32-bit value after at most [length prog]
    iterations, without leaving the program, the packet or the scratch memory.
    Two conditions the validator does not establish are stated: no constant
    division by zero, and on a 32-bit [size_t] no indexed word or halfword load
    at all. *)
Theorem bpf_validated_safe {a : arch} (shift_over : Z -> Z -> Z) (p : packet)
    (wirelen buflen bpf_maxbufsize : Z) (prog : list bpf_insn) (mem0 : list Z) :
  packet_ok p buflen -> is_u 32 wirelen -> is_u 31 bpf_maxbufsize ->
  length mem0 = 16%nat -> Forall insn_ok prog ->
  bpf_validate bpf_maxbufsize prog (Z.of_nat (length prog)) = Ret true ->
  div_safe prog -> ind_safe a prog ->
  returns (bpf_filter shift_over p wirelen buflen (length prog) mem0 (Some prog)) (is_u 32).
Proof.
  intros Hp Hw Hm Hmem Hprog Hval Hdiv Hind. simpl.
  apply bpf_validate_true in Hval as Hl. eapply bpf_loop_good; eauto; simpl; try lia.
  unfold vm_ok, is_u; simpl. auto with lia.
Qed.

(** The filter [ip] on an Ethernet frame: load the type, compare, return the
    snap length or 0. *)
Definition ip_filter : list bpf_insn :=
  [ BPF_STMT (BPF_LD .| BPF_H .| BPF_ABS) 12;
    BPF_JUMP (BPF_JMP .| BPF_JEQ .| BPF_K) 0x800 0 1;
    BPF_STMT (BPF_RET .| BPF_K) 96;
    BPF_STMT (BPF_RET .| BPF_K) 0 ].

Definition ip_frame : list Z := replicate 12 0 ++ [0x08; 0x00; 0x45; 0x00].

Lemma bpf_validated_safe_witness :
  returns (bpf_filter (a := ILP32) (fun _ _ => 0) (PBuf ip_frame) 60 16 4 (replicate 16 0)
             (Some ip_filter)) (is_u 32).
Proof.
  apply (bpf_validated_safe (a := ILP32) (fun _ _ => 0) (PBuf ip_frame) 60 16 (2 * 1024 * 1024)
           ip_filter (replicate 16 0)).
  - unfold packet_ok. compute_decide.
  - compute_decide.
  - compute_decide.
  - reflexivity.
  - compute_decide.
  - reflexivity.
  - unfold div_safe. compute_decide.
  - right. compute_decide.
Defined.

(** The filter accepts the frame, and rejects one with another type. *)
Example ip_filter_accepts :
  bpf_filter (a := LP64) (fun _ _ => 0) (PBuf ip_frame) 60 16 4 (replicate 16 0) (Some ip_filter) = Ret 96.
Proof. reflexivity. Qed.

Example ip_filter_rejects :
  bpf_filter (a := LP64) (fun _ _ => 0) (PBuf (replicate 16 0)) 60 16 4 (replicate 16 0)
    (Some ip_filter) = Ret 0.
Proof. reflexivity. Qed.

(** * What the validator lets through *)

Lemma bpf_loop_fetch {a : arch} shift_over p wirelen buflen fuel prog s c :
  aget prog (pc s + 1) = Ret c ->
  bpf_loop shift_over p wirelen buflen (S fuel) prog s =
  let! n := bpf_switch shift_over p wirelen buflen c (jump s 1) in
  match n with Stop v => Ret v | Continue s => bpf_loop shift_over p wirelen buflen fuel prog s end.
Proof. intros H. cbn [bpf_loop]. unfold jump. cbn [pc]. by rewrite H. Qed.

(**  [bpf_validate] admits a constant division by zero, which faults: its
    test [BPF_RVAL(p->code) == BPF_K] masks a bit of the operation and is false
    of every [BPF_ALU|BPF_DIV] instruction.  Both the acceptance and the fault
    hold for every packet and every configured buffer limit. *)
Theorem bpf_validate_admits_zero_division {a : arch} (shift_over : Z -> Z -> Z) (p : packet)
    (wirelen buflen bpf_maxbufsize : Z) (mem0 : list Z) :
  let prog := [ BPF_STMT (BPF_ALU .| BPF_DIV .| BPF_K) 0; BPF_STMT (BPF_RET .| BPF_A) 0 ] in
  bpf_validate bpf_maxbufsize prog 2 = Ret true /\
  bpf_filter shift_over p wirelen buflen 2 mem0 (Some prog) = Fault DivByZero.
Proof. split; reflexivity. Qed.

(**  With a 32-bit [size_t], [k + sizeof(int32_t) > buflen] wraps: a
    validated indexed load reads outside every contiguous packet of two bytes
    or more. *)
Theorem bpf_indexed_load_escapes_ilp32 (shift_over : Z -> Z -> Z) (b : list Z)
    (wirelen bpf_maxbufsize : Z) (mem0 : list Z) :
  2 <= Z.of_nat (length b) < 2 ^ 31 -> 0 < bpf_maxbufsize < 2 ^ 31 ->
  let prog := [ BPF_STMT (BPF_LDX .| BPF_IMM) 0xfffffffe;
                BPF_STMT (BPF_LD .| BPF_W .| BPF_IND) 0; BPF_STMT (BPF_RET .| BPF_A) 0 ] in
  bpf_validate bpf_maxbufsize prog 3 = Ret true /\
  bpf_filter (a := ILP32) shift_over (PBuf b) wirelen (Z.of_nat (length b)) 3 mem0 (Some prog)
    = Fault OutOfBounds.
Proof.
  intros Hb Hmb prog. split.
  - subst prog. unfold bpf_validate. change (Z.to_nat 3) with 3%nat. cbn [validate_loop].
    unfold validate_insn. rewrite u32_small by (unfold is_u; lia).
    destruct bpf_maxbufsize; [lia|reflexivity|lia].
  - assert (Hload : load_word (a := ILP32) (PBuf b) (Z.of_nat (length b)) 0xfffffffe = Fault OutOfBounds).
    { unfold load_word. change (ulong (0xfffffffe + 4)) with 2.
      destruct (Z.ltb_spec (Z.of_nat (length b)) 2); [lia|]. unfold EXTRACT_LONG, aget.
      change (0xfffffffe <? 0) with false. cbn iota. by rewrite lookup_ge_None_2 by lia. }
    unfold bpf_filter. subst prog. erewrite bpf_loop_fetch by reflexivity.
    change (bpf_switch _ _ _ _ _ _) with (Ret (Continue (Vm 0 0 0xfffffffe mem0))). cbn [bind].
    erewrite bpf_loop_fetch by reflexivity.
    change (bpf_switch _ _ _ _ _ _) with
      (to_A (Vm 1 0 0xfffffffe mem0) (load_word (a := ILP32) (PBuf b) (Z.of_nat (length b)) 0xfffffffe)).
    by rewrite Hload.
Qed.

Lemma bpf_indexed_load_escapes_ilp32_witness :
  bpf_validate 32768 [ BPF_STMT (BPF_LDX .| BPF_IMM) 0xfffffffe;
    BPF_STMT (BPF_LD .| BPF_W .| BPF_IND) 0; BPF_STMT (BPF_RET .| BPF_A) 0 ] 3 = Ret true.
Proof.
  apply (bpf_indexed_load_escapes_ilp32 (fun _ _ => 0) [1; 2; 3; 4] 4 32768 (replicate 16 0)).
  - cbn; lia.
  - lia.
Defined.

(**  The scratch memory is not initialised and a load before any store is
    admitted: the verdict of a validated program can be any word of what the
    kernel stack held. *)
Theorem bpf_returns_uninitialised_memory {a : arch} (shift_over : Z -> Z -> Z) (p : packet)
    (wirelen buflen bpf_maxbufsize : Z) (mem0 : list Z) (i v : Z) :
  0 <= i < BPF_MEMWORDS -> aget mem0 i = Ret v ->
  let prog := [ BPF_STMT (BPF_LD .| BPF_MEM) i; BPF_STMT (BPF_RET .| BPF_A) 0 ] in
  bpf_validate bpf_maxbufsize prog 2 = Ret true /\
  bpf_filter shift_over p wirelen buflen 2 mem0 (Some prog) = Ret (u32 v).
Proof.
  intros Hi Hv prog. subst prog. split.
  - assert (Hmem : validate_insn bpf_maxbufsize 2 0 (BPF_STMT (BPF_LD .| BPF_MEM) i) = true).
    { unfold validate_insn. change (k (BPF_STMT _ i)) with i.
      by rewrite (proj2 (Z.leb_gt BPF_MEMWORDS i)) by lia. }
    unfold bpf_validate. change (Z.to_nat 2) with 2%nat. cbn [validate_loop].
    change (aget _ 0) with (Ret (BPF_STMT (BPF_LD .| BPF_MEM) i)). cbn [bind]. by rewrite Hmem.
  - unfold bpf_filter. erewrite bpf_loop_fetch by reflexivity.
    change (bpf_switch _ _ _ _ _ _) with (let! v := aget mem0 i in Ret (Continue (Vm 0 (u32 v) 0 mem0))).
    rewrite Hv. cbn [bind]. by erewrite bpf_loop_fetch by reflexivity.
Qed.

Lemma bpf_returns_uninitialised_memory_witness :
  bpf_filter (a := LP64) (fun _ _ => 0) (PBuf [0]) 1 1 2 (replicate 16 0xbad)
    (Some [ BPF_STMT (BPF_LD .| BPF_MEM) 7; BPF_STMT (BPF_RET .| BPF_A) 0 ]) = Ret (u32 0xbad).
Proof.
  apply (bpf_returns_uninitialised_memory (a := LP64) (fun _ _ => 0) (PBuf [0]) 1 1 32768
           (replicate 16 0xbad) 7 0xbad).
  - unfold BPF_MEMWORDS; lia.
  - reflexivity.
Defined.
