(* ===== verification/BpfMbuf.v ===== *)
(** The two ways [bpf_filter] reads a packet agree: on a chain of mbufs
    ([buflen == 0], [bpf_m_xword], [bpf_m_xhalf], [MINDEX]) the machine computes
    what it computes on the same bytes laid out contiguously.  [bpf_m_xword]
    looks at two mbufs only, so the inner mbufs of the chain must be at least
    three bytes long. *)

From S2P Require Import Prelude BpfFilter BpfSafety.

Definition total (m : list mbuf) : Z := Z.of_nat (length (concat m)).

(** Every mbuf but the last has at least three bytes. *)
Fixpoint mids_wide (m : list mbuf) : Prop :=
  match m with
  | [] => True
  | b :: m' => match m' with [] => True | _ => 3 <= m_len b end /\ mids_wide m'
  end.

(** A chain of non-empty mbufs whose inner members are wide. *)
Definition chain_wide (m : list mbuf) : Prop :=
  m <> [] /\ Forall (fun b => 0 < m_len b /\ bytes_ok b) m /\ mids_wide (tail m) /\ total m < 2 ^ 32 - 4.

Lemma mids_wide_app m1 m2 : mids_wide (m1 ++ m2) -> mids_wide m2.
Proof. induction m1 as [|b m1 IH]; simpl; [done|]. intros [_ ?]. auto. Qed.

Lemma total_cons b m : total (b :: m) = m_len b + total m.
Proof. unfold total, m_len. simpl. rewrite length_app. lia. Qed.

Lemma total_app m1 m2 : total (m1 ++ m2) = total m1 + total m2.
Proof. unfold total. rewrite concat_app, length_app. lia. Qed.

Lemma total_nonneg m : 0 <= total m.
Proof. unfold total. lia. Qed.

Lemma aget_app_r {A} (l1 l2 : list A) i :
  Z.of_nat (length l1) <= i -> aget (l1 ++ l2) i = aget l2 (i - Z.of_nat (length l1)).
Proof.
  intros H. unfold aget.
  destruct (Z.ltb_spec i 0), (Z.ltb_spec (i - Z.of_nat (length l1)) 0); try lia.
  rewrite lookup_app_r by lia.
  by replace (Z.to_nat (i - Z.of_nat (length l1))) with (Z.to_nat i - length l1)%nat by lia.
Qed.

Lemma aget_app_l {A} (l1 l2 : list A) i :
  i < Z.of_nat (length l1) -> aget (l1 ++ l2) i = aget l1 i.
Proof.
  intros H. unfold aget. destruct (Z.ltb_spec i 0); [done|]. by rewrite lookup_app_l by lia.
Qed.

Lemma aget_ge {A} (l : list A) i : Z.of_nat (length l) <= i -> aget l i = Fault OutOfBounds.
Proof.
  intros H. unfold aget. destruct (Z.ltb_spec i 0); [done|]. by rewrite lookup_ge_None_2 by lia.
Qed.

(** [MINDEX] finds the mbuf of a byte inside the packet and gives up outside. *)
Lemma mindex_loop_Some m k :
  0 <= k < total m -> total m < 2 ^ 32 ->
  exists pre b rest, m = pre ++ b :: rest /\ mindex_loop m k = Some (b :: rest, k - total pre) /\
    0 <= k - total pre < m_len b.
Proof.
  revert k. induction m as [|b m IH]; intros k Hk Ht.
  { unfold total in Hk. simpl in Hk. lia. }
  rewrite total_cons in *. pose proof (total_nonneg m). simpl. destruct (Z.leb_spec (m_len b) k).
  - rewrite u32_small by (unfold is_u, m_len in *; lia).
    destruct (IH (k - m_len b)) as (pre & b' & rest & -> & -> & Hin); [lia|unfold m_len in *; lia|].
    exists (b :: pre), b', rest. rewrite total_cons. split; [done|]. split; [|lia]. do 2 f_equal; lia.
  - exists [], b, m. unfold total; simpl. split; [done|]. split; [|lia]. do 2 f_equal; lia.
Qed.

Lemma mindex_loop_None m k : total m <= k < 2 ^ 32 -> mindex_loop m k = None.
Proof.
  revert k. induction m as [|b m IH]; intros k Hk; [done|]. rewrite total_cons in Hk.
  pose proof (total_nonneg m). simpl. unfold m_len in *. destruct (Z.leb_spec (Z.of_nat (length b)) k); [|lia].
  rewrite u32_small by (unfold is_u; lia). apply IH. lia.
Qed.

(** A byte of the mbuf [MINDEX] stopped at, and of the one after it, in the
    flat packet. *)
Lemma aget_flat pre b rest i j :
  i = total pre + j -> 0 <= j < m_len b -> aget (concat (pre ++ b :: rest)) i = aget b j.
Proof.
  intros -> Hj. rewrite concat_app. simpl. unfold total, m_len in *.
  rewrite aget_app_r, aget_app_l by lia. f_equal. lia.
Qed.

Lemma aget_flat_next pre b np rest i j :
  i = total pre + m_len b + j -> 0 <= j < m_len np ->
  aget (concat (pre ++ b :: np :: rest)) i = aget np j.
Proof.
  intros -> Hj. replace (pre ++ b :: np :: rest) with ((pre ++ [b]) ++ np :: rest).
  - apply aget_flat; [|done]. rewrite total_app, total_cons. unfold total at 3. simpl. lia.
  - by rewrite <- app_assoc.
Qed.

Section Equivalence.
Variable m : list mbuf.
Hypothesis Hm : chain_wide m.
#[local] Existing Instance LP64.

Notation flat := (PBuf (concat m)).

Lemma MINDEX_chain k : MINDEX m k = Ret (mindex_loop m k).
Proof using Hm. destruct Hm as [H _]. by destruct m. Qed.

Lemma ulong64 z : 0 <= z < 2 ^ 64 -> ulong z = z.
Proof. intros. apply ulong_small. unfold is_u; simpl; lia. Qed.

Lemma total_pos : 0 < total m.
Proof using Hm.
  destruct Hm as (Hne & Hpos & _). destruct m as [|b m']; [done|].
  apply Forall_cons in Hpos as [[? _] _]. rewrite total_cons. pose proof (total_nonneg m'). lia.
Qed.

(** Where a byte of the packet is. *)
Lemma locate k :
  is_u 32 k -> k < total m ->
  exists pre b rest j, m = pre ++ b :: rest /\ k = total pre + j /\ 0 <= j < m_len b /\
    mindex_loop m k = Some (b :: rest, j) /\ total m = total pre + m_len b + total rest /\
    bytes_ok b /\ Forall (fun b => 0 < m_len b /\ bytes_ok b) rest.
Proof using Hm.
  intros Hk Hlt. destruct Hm as (_ & Hf & _ & Ht). unfold is_u in Hk.
  destruct (mindex_loop_Some m k) as (pre & b & rest & E & Hmi & Hin); [lia..|].
  exists pre, b, rest, (k - total pre). rewrite E in Hf.
  apply Forall_app in Hf as [_ Hf]. apply Forall_cons in Hf as [[_ Hb] Hf].
  assert (total m = total pre + m_len b + total rest) by (rewrite E, total_app, total_cons; lia).
  conj; auto; lia.
Qed.

(** The mbuf after the one that holds a byte is wide unless it is the last. *)
Lemma next_wide pre b np rest :
  m = pre ++ b :: np :: rest -> rest = [] \/ 3 <= m_len np.
Proof using Hm.
  intros E. destruct Hm as (_ & _ & Hw & _). rewrite E in Hw.
  assert (mids_wide (np :: rest)) as [H _].
  { destruct pre; simpl in Hw; [done|]. apply mids_wide_app in Hw. simpl in Hw. apply Hw. }
  destruct rest; auto.
Qed.

(** Both sides give up when the access runs past the packet. *)
Ltac setup k n :=
  intros Hk; pose proof total_pos as Htm; destruct Hm as (_ & _ & _ & Ht);
  rewrite ?MINDEX_chain, ?(ulong64 (k + n)) by (unfold is_u in Hk; lia);
  cbn [bind negb Z.eqb]; destruct (Z.eqb_spec (total m) 0); [lia|];
  assert (Hk' := Hk); unfold is_u in Hk';
  destruct (decide (total m <= k)) as [Hge|Hlt];
  [ rewrite (mindex_loop_None m k) by lia; cbn [negb Z.eqb]
  | destruct (locate k Hk) as (pre & b & rest & j & E & Ek & Hj & -> & Etot & Hb & Hrest); [lia|]].

Lemma load_byte_chain k :
  is_u 32 k -> load_byte (PMbuf m) 0 k = load_byte flat (total m) k.
Proof using Hm.
  unfold load_byte. setup k 0.
  - destruct (Z.leb_spec 0 k), (Z.leb_spec (total m) k); (done || lia).
  - destruct (Z.leb_spec 0 k), (Z.leb_spec (total m) k); try lia.
    rewrite E, (aget_flat pre b rest k j) by lia. done.
Qed.

Lemma load_half_chain k :
  is_u 32 k -> load_half (PMbuf m) 0 k = load_half flat (total m) k.
Proof using Hm.
  unfold load_half, bpf_m_xhalf. setup k 2.
  - destruct (Z.ltb_spec 0 (k + 2)), (Z.ltb_spec (total m) (k + 2)); (done || lia).
  - destruct (Z.ltb_spec 0 (k + 2)); [|lia]. pose proof (total_nonneg rest).
    pose proof (total_nonneg pre). rewrite (u32_small (j + 2)) by (unfold is_u; lia).
    destruct (Z.leb_spec (j + 2) (m_len b)).
    + destruct (Z.ltb_spec (total m) (k + 2)); [lia|]. unfold EXTRACT_SHORT.
      rewrite E, (aget_flat pre b rest k j), (aget_flat pre b rest (k + 1) (j + 1)) by lia.
      read_bytes. simpl. do 2 f_equal. apply u32_small, (is_u_mono 16); [lia|]. by apply wrap_range.
    + destruct rest as [|np rest].
      * unfold total in Etot at 3. simpl in Etot.
        destruct (Z.ltb_spec (total m) (k + 2)); [done|lia].
      * apply Forall_cons in Hrest as [[Hn Hnb] Hrest]. rewrite total_cons in *.
        pose proof (total_nonneg rest). destruct (Z.ltb_spec (total m) (k + 2)); [lia|].
        unfold EXTRACT_SHORT. rewrite E, (aget_flat pre b (np :: rest) k j) by lia.
        rewrite (aget_flat_next pre b np rest (k + 1) 0) by lia. read_bytes. simpl. do 2 f_equal.
        rewrite u32_small, u16_small; auto using word2_ok.
        apply (is_u_mono 16); [lia|]. by apply word2_ok.
Qed.

Lemma load_word_chain k :
  is_u 32 k -> load_word (PMbuf m) 0 k = load_word flat (total m) k.
Proof using Hm.
  unfold load_word, bpf_m_xword. setup k 4.
  - destruct (Z.ltb_spec 0 (k + 4)), (Z.ltb_spec (total m) (k + 4)); (done || lia).
  - destruct (Z.ltb_spec 0 (k + 4)); [|lia]. pose proof (total_nonneg rest).
    pose proof (total_nonneg pre). rewrite (u32_small (j + 4)) by (unfold is_u; lia).
    destruct (Z.leb_spec (j + 4) (m_len b)).
    + destruct (Z.ltb_spec (total m) (k + 4)); [lia|]. unfold EXTRACT_LONG.
      rewrite E, (aget_flat pre b rest k j), (aget_flat pre b rest (k + 1) (j + 1)),
        (aget_flat pre b rest (k + 2) (j + 2)), (aget_flat pre b rest (k + 3) (j + 3)) by lia.
      read_bytes. simpl. do 2 f_equal. apply u32_small, u32_range.
    + destruct rest as [|np rest].
      * unfold total in Etot at 3. simpl in Etot.
        destruct (Z.ltb_spec (total m) (k + 4)); [done|lia].
      * apply Forall_cons in Hrest as [[Hn Hnb] Hrest]. rewrite total_cons in *.
        pose proof (total_nonneg rest). rewrite !u32_small by (unfold is_u; lia).
        destruct (Z.ltb_spec (m_len np + m_len b - j) 4).
        -- assert (total rest = 0).
           { destruct (next_wide pre b np rest E) as [->|]; [done|lia]. }
           destruct (Z.ltb_spec (total m) (k + 4)); [done|lia].
        -- destruct (Z.ltb_spec (total m) (k + 4)); [lia|]. unfold EXTRACT_LONG.
           rewrite E, (aget_flat pre b (np :: rest) k j) by lia.
           destruct (Z.eqb_spec (m_len b - j) 1); [|destruct (Z.eqb_spec (m_len b - j) 2)].
           ++ rewrite (aget_flat_next pre b np rest (k + 1) 0), (aget_flat_next pre b np rest (k + 2) 1),
                (aget_flat_next pre b np rest (k + 3) 2) by lia. by read_bytes.
           ++ rewrite (aget_flat pre b (np :: rest) (k + 1) (j + 1)),
                (aget_flat_next pre b np rest (k + 2) 0), (aget_flat_next pre b np rest (k + 3) 1) by lia.
              by read_bytes.
           ++ rewrite (aget_flat pre b (np :: rest) (k + 1) (j + 1)),
                (aget_flat pre b (np :: rest) (k + 2) (j + 2)), (aget_flat_next pre b np rest (k + 3) 0) by lia.
              by read_bytes.
Qed.

(** Every step, and so every run, is the same. *)
Lemma bpf_switch_chain shift_over wirelen c s :
  insn_ok c ->
  bpf_switch shift_over (PMbuf m) wirelen 0 c s = bpf_switch shift_over flat wirelen (total m) c s.
Proof using Hm.
  intros (_ & _ & _ & Hk). unfold bpf_switch, switch_ret_ld, switch_ld_mem.
  rewrite !load_word_chain, !load_half_chain, !load_byte_chain by auto with words. done.
Qed.

Lemma bpf_loop_chain shift_over wirelen fuel prog s :
  Forall insn_ok prog ->
  bpf_loop shift_over (PMbuf m) wirelen 0 fuel prog s =
  bpf_loop shift_over flat wirelen (total m) fuel prog s.
Proof using Hm.
  intros Hprog. revert s. induction fuel as [|fuel IH]; intros s; [done|]. cbn [bpf_loop].
  destruct (aget prog (pc (jump s 1))) as [c| | |] eqn:Ec; [|done..]. cbn [bind].
  apply aget_Ret_inv in Ec as [_ Ec]. rewrite Forall_lookup in Hprog.
  rewrite bpf_switch_chain by eauto.
  destruct (bpf_switch _ _ _ _ _ _) as [[v|s']| | |]; simpl; auto.
Qed.
End Equivalence.

(** C26.  With a 64-bit [size_t], on an mbuf chain of non-empty mbufs whose inner
    members, all but the first and the last, have at least three bytes, and of
    less than 2^32 - 4 bytes in all, [bpf_filter] behaves exactly as on the same bytes in one
    buffer: same verdict, same faults, for every program (validated or not),
    every number of iterations and every content of the scratch memory. *)
Theorem bpf_filter_chain_flat (shift_over : Z -> Z -> Z) (m : list mbuf) (wirelen : Z)
    (fuel : nat) (mem0 : list Z) (prog : option (list bpf_insn)) :
  chain_wide m -> Forall insn_ok (default [] prog) ->
  bpf_filter (a := LP64) shift_over (PMbuf m) wirelen 0 fuel mem0 prog =
  bpf_filter (a := LP64) shift_over (PBuf (concat m)) wirelen (Z.of_nat (length (concat m))) fuel mem0 prog.
Proof. intros Hm Hprog. destruct prog as [prog|]; [|done]. by apply bpf_loop_chain. Qed.

(** The same bytes in three mbufs, the type cut in two. *)
Lemma bpf_filter_chain_flat_witness :
  bpf_filter (a := LP64) (fun _ _ => 0) (PMbuf [take 10 ip_frame; [0; 0; 0x08]; [0; 0x45; 0]]) 60 0 4
    (replicate 16 0) (Some ip_filter) = Ret 96.
Proof.
  rewrite (bpf_filter_chain_flat (fun _ _ => 0) [take 10 ip_frame; [0; 0; 0x08]; [0; 0x45; 0]] 60 4
             (replicate 16 0) (Some ip_filter)).
  - reflexivity.
  - unfold chain_wide. conj; [discriminate|compute_decide|by simpl|by vm_compute].
  - compute_decide.
Defined.
