(* ===== verification/Clist.v ===== *)
(** The tty character queues of [sys/kern/tty_subr.c]: ring buffers with an
    optional bitmap of quote bits ([struct clist] of [sys/sys/tty.h]).

    The pointers [c_cf], [c_cl] and [c_ce] are offsets from [c_cs]; [None] is
    [NULL].  The storage behind [c_cs] and [c_cq] is a list of bytes, and an
    access outside it is a fault.  [spltty] has no counterpart: every operation
    runs to its end. *)

From S2P Require Import Prelude Bitmap.

Definition TTY_QUOTE := 0x100.
Definition QMEM (n : Z) : Z := (n - 1) `quot` NBBY + 1.

(** [struct clist] *)
Record clist := Clist {
  c_cc : Z;                   (* count of characters in queue *)
  c_cn : Z;                   (* total ring buffer length *)
  c_cf : option Z;            (* points to first character *)
  c_cl : option Z;            (* points to next open character *)
  c_cs : option (list Z);     (* ring buffer *)
  c_ce : Z;                   (* end of ring buffer *)
  c_cq : option (list Z)      (* quote bits *)
}.

(** The storage of the queue; a pointer into freed storage is stale. *)
Definition storage (clp : clist) : outcome (list Z) :=
  match c_cs clp with Some buf => Ret buf | None => Fault UseAfterFree end.

Definition bzeros (n : Z) : list Z := replicate (Z.to_nat n) 0.

(** [clalloc]; [malloc(..., M_WAITOK)] does not fail. *)
Definition clalloc (clp : clist) (size quot : Z) : Z * clist :=
  (0, Clist 0 size None None (Some (bzeros size)) size
        (if quot =? 0 then None else Some (bzeros (QMEM size)))).

(** [clfree]: the counters and the pointers stay. *)
Definition clfree (clp : clist) : clist :=
  Clist (c_cc clp) (c_cn clp) (c_cf clp) (c_cl clp) None (c_ce clp) None.

(** [getc] *)
Definition getc (clp : clist) : outcome (Z * clist) :=
  if c_cc clp =? 0 then Ret (-1, clp)
  else
    let! buf := storage clp in
    let! cf := ptr (c_cf clp) in
    let! b := aget buf cf in
    let c := Z.land b 0xff in
    let! buf := aset buf cf 0 in
    let! (c, cq) :=
      match c_cq clp with
      | None => Ret (c, None)
      | Some q =>
          let! quoted := isset q cf in
          let! cl := ptr (c_cl clp) in
          let! q := clrbit q cl in
          Ret (if quoted then Z.lor c TTY_QUOTE else c, Some q)
      end in
    let cf := if cf + 1 =? c_ce clp then 0 else cf + 1 in
    let cc := c_cc clp - 1 in
    if cc =? 0 then Ret (c, Clist cc (c_cn clp) None None (Some buf) (c_ce clp) cq)
    else Ret (c, Clist cc (c_cn clp) (Some cf) (c_cl clp) (Some buf) (c_ce clp) cq).

(** [clrbits]: clear [len] bits from [off] on. *)
Fixpoint clr_bytes (cp : list Z) (i : Z) (n : nat) : outcome (list Z) :=
  match n with
  | O => Ret cp
  | S n => let! cp := aset cp i 0 in clr_bytes cp (i + 1) n
  end.

Definition clrbits (cp : list Z) (off len : Z) : outcome (list Z) :=
  if len =? 1 then clrbit cp off
  else
    let sby := off `quot` NBBY in
    let sbi := off `rem` NBBY in
    let eby := (off + len) `quot` NBBY in
    let ebi := (off + len) `rem` NBBY in
    if sby =? eby then
      let mask := u8 (Z.shiftl (Z.shiftl 1 (ebi - sbi) - 1) sbi) in
      let! b := aget cp sby in
      aset cp sby (u8 (Z.land b (Z.lnot mask)))
    else
      let mask := u8 (Z.shiftl 1 sbi - 1) in
      let! b := aget cp sby in
      let! cp := aset cp sby (u8 (Z.land b mask)) in
      let sby := sby + 1 in
      let mask := u8 (Z.shiftl 1 ebi - 1) in
      let! b := aget cp eby in
      let! cp := aset cp eby (u8 (Z.land b (Z.lnot mask))) in
      clr_bytes cp sby (Z.to_nat (eby - sby)).

(** The [while] loop of [q_to_b]; the bytes moved so far are [acc].  Each
    iteration moves at least one byte, so [count] bounds the iterations. *)
Fixpoint q_to_b_loop (fuel : nat) (clp : clist) (acc : list Z) (count : Z) : outcome (list Z * clist) :=
  if (0 <? count) && (0 <? c_cc clp) then
    match fuel with
    | O => Spin
    | S fuel =>
        let! buf := storage clp in
        let! cf := ptr (c_cf clp) in
        let! cl := ptr (c_cl clp) in
        let cc := if cl <=? cf then c_ce clp - cf else cl - cf in
        let cc := if count <? cc then count else cc in
        let! bytes := aslice buf cf cc in
        let! buf := asplice buf cf (bzeros cc) in
        let! cq :=
          match c_cq clp with
          | None => Ret None
          | Some q => let! q := clrbits q cl cc in Ret (Some q)
          end in
        let cf := if cf + cc =? c_ce clp then 0 else cf + cc in
        q_to_b_loop fuel
          (Clist (c_cc clp - cc) (c_cn clp) (Some cf) (c_cl clp) (Some buf) (c_ce clp) cq)
          (acc ++ bytes) (count - cc)
    end
  else Ret (acc, clp).

(** [if (clp->c_cc == 0) clp->c_cf = clp->c_cl = 0;] *)
Definition reset_if_empty (clp : clist) : clist :=
  if c_cc clp =? 0
  then Clist (c_cc clp) (c_cn clp) None None (c_cs clp) (c_ce clp) (c_cq clp)
  else clp.

(** [q_to_b]: the bytes moved (their number is the return value). *)
Definition q_to_b (clp : clist) (count : Z) : outcome (list Z * clist) :=
  let! (bytes, clp) := q_to_b_loop (Z.to_nat count) clp [] count in
  Ret (bytes, reset_if_empty clp).

(** The two [while] loops of [ndqb]; the quoting one tests the bit {i after}
    the character, since [i++] has happened. *)
Fixpoint ndqb_quote_loop (buf q : list Z) (cn flags : Z) (cc : nat) (i count : Z) : outcome Z :=
  match cc with
  | O => Ret count
  | S cc =>
      let! b := aget buf i in
      let i := i + 1 in
      if flag b (Z.land flags (Z.lnot TTY_QUOTE)) then Ret count
      else
        let! quoted := isset q i in
        if quoted then Ret count
        else if i =? cn then Ret (count + 1)
        else ndqb_quote_loop buf q cn flags cc i (count + 1)
  end.

Fixpoint ndqb_loop (buf : list Z) (cn flags : Z) (cc : nat) (i count : Z) : outcome Z :=
  match cc with
  | O => Ret count
  | S cc =>
      let! b := aget buf i in
      let i := i + 1 in
      if flag b flags then Ret count
      else if i =? cn then Ret (count + 1)
      else ndqb_loop buf cn flags cc i (count + 1)
  end.

(** [ndqb] *)
Definition ndqb (clp : clist) (flags : Z) : outcome Z :=
  if c_cc clp =? 0 then Ret 0
  else
    let! cf := ptr (c_cf clp) in
    let! cl := ptr (c_cl clp) in
    if flags =? 0 then
      let count := cl - cf in
      Ret (if count <=? 0 then c_ce clp - cf else count)
    else
      let! buf := storage clp in
      if flag flags TTY_QUOTE then
        match c_cq clp with
        | None => Fault NullDeref
        | Some q => ndqb_quote_loop buf q (c_cn clp) flags (Z.to_nat (c_cc clp)) cf 0
        end
      else ndqb_loop buf (c_cn clp) flags (Z.to_nat (c_cc clp)) cf 0.

(** [ndflush] *)
Fixpoint ndflush_loop (fuel : nat) (clp : clist) (count : Z) : outcome clist :=
  if (0 <? count) && (0 <? c_cc clp) then
    match fuel with
    | O => Spin
    | S fuel =>
        let! cf := ptr (c_cf clp) in
        let! cl := ptr (c_cl clp) in
        let cc := if cl <=? cf then c_ce clp - cf else cl - cf in
        let cc := if count <? cc then count else cc in
        let cf := if cf + cc =? c_ce clp then 0 else cf + cc in
        ndflush_loop fuel
          (Clist (c_cc clp - cc) (c_cn clp) (Some cf) (c_cl clp) (c_cs clp) (c_ce clp) (c_cq clp))
          (count - cc)
    end
  else Ret clp.

Definition ndflush (clp : clist) (count : Z) : outcome clist :=
  if count =? c_cc clp then
    Ret (Clist 0 (c_cn clp) None None (c_cs clp) (c_ce clp) (c_cq clp))
  else
    let! clp := ndflush_loop (Z.to_nat count) clp count in
    Ret (reset_if_empty clp).

(** The start of [putc] and [b_to_q] on an empty queue: allocate the ring when
    there is none, and start at its beginning. *)
Definition open_ring (clp : clist) : clist :=
  if c_cc clp =? 0 then
    let clp := match c_cs clp with None => (clalloc clp 1024 1).2 | Some _ => clp end in
    Clist (c_cc clp) (c_cn clp) (Some 0) (Some 0) (c_cs clp) (c_ce clp) (c_cq clp)
  else clp.

(** [putc] *)
Definition putc (c : Z) (clp : clist) : outcome (Z * clist) :=
  if c_cc clp =? c_cn clp then Ret (-1, clp)
  else
    let clp := open_ring clp in
    let! buf := storage clp in
    let! cl := ptr (c_cl clp) in
    let! buf := aset buf cl (Z.land c 0xff) in
    let! cq :=
      match c_cq clp with
      | None => Ret None
      | Some q =>
          let! q := if flag c TTY_QUOTE then setbit q cl else clrbit q cl in
          Ret (Some q)
      end in
    let cl := if cl + 1 =? c_ce clp then 0 else cl + 1 in
    Ret (0, Clist (c_cc clp + 1) (c_cn clp) (c_cf clp) (Some cl) (Some buf) (c_ce clp) cq).

(** [b_to_q]: [p] is the offset reached in the buffer [cp]. *)
Fixpoint b_to_q_loop (fuel : nat) (cp : list Z) (p count : Z) (clp : clist) : outcome (Z * clist) :=
  if (0 <? count) && (c_cc clp <? c_cn clp) then
    match fuel with
    | O => Spin
    | S fuel =>
        let! buf := storage clp in
        let! cf := ptr (c_cf clp) in
        let! cl := ptr (c_cl clp) in
        let cc := if cl <? cf then cf - cl else c_ce clp - cl in
        let cc := if count <? cc then count else cc in
        let! bytes := aslice cp p cc in
        let! buf := asplice buf cl bytes in
        let! cq :=
          match c_cq clp with
          | None => Ret None
          | Some q => let! q := clrbits q cl cc in Ret (Some q)
          end in
        let cl := if cl + cc =? c_ce clp then 0 else cl + cc in
        b_to_q_loop fuel cp (p + cc) (count - cc)
          (Clist (c_cc clp + cc) (c_cn clp) (c_cf clp) (Some cl) (Some buf) (c_ce clp) cq)
    end
  else Ret (count, clp).

Definition b_to_q (cp : list Z) (count : Z) (clp : clist) : outcome (Z * clist) :=
  if count <=? 0 then Ret (0, clp)
  else if c_cc clp =? c_cn clp then Ret (count, clp)
  else b_to_q_loop (Z.to_nat count) cp 0 count (open_ring clp).

(** The character at offset [cp], with its quote. *)
Definition char_at (clp : clist) (cp : Z) : outcome Z :=
  let! buf := storage clp in
  let! b := aget buf cp in
  let c := Z.land b 0xff in
  match c_cq clp with
  | None => Ret c
  | Some q => let! quoted := isset q cp in Ret (if quoted then Z.lor c TTY_QUOTE else c)
  end.

(** [nextc]: the static counter [cc] is an argument and a result; the result
    pointer comes with [*c]. *)
Definition nextc (cc : Z) (clp : clist) (cp : option Z) : outcome (Z * option (Z * Z)) :=
  let cc := if bool_decide (c_cf clp = cp) then c_cc clp else cc in
  match cp with
  | None => Ret (cc, None)
  | Some off =>
      if cc =? 0 then Ret (cc, None)
      else
        let cc := cc - 1 in
        if cc =? 0 then Ret (cc, None)
        else
          let off := if off + 1 =? c_ce clp then 0 else off + 1 in
          let! c := char_at clp off in
          Ret (cc, Some (off, c))
  end.

(** [firstc] *)
Definition firstc (clp : clist) : outcome (Z * option (Z * Z)) :=
  let cc := c_cc clp in
  if cc =? 0 then Ret (cc, None)
  else
    let! cf := ptr (c_cf clp) in
    let! c := char_at clp cf in
    Ret (cc, Some (cf, c)).

(** [unputc] *)
Definition unputc (clp : clist) : outcome (Z * clist) :=
  if c_cc clp =? 0 then Ret (-1, clp)
  else
    let! cl := ptr (c_cl clp) in
    let cl := if cl =? 0 then c_ce clp - 1 else cl - 1 in
    let clp := Clist (c_cc clp - 1) (c_cn clp) (c_cf clp) (Some cl) (c_cs clp) (c_ce clp) (c_cq clp) in
    let! c := char_at clp cl in
    Ret (c, reset_if_empty clp).

(** [catq]: the loop moves one character per iteration and ignores what [putc]
    answers. *)
Fixpoint catq_loop (fuel : nat) (from to : clist) : outcome (clist * clist) :=
  match fuel with
  | O => Spin
  | S fuel =>
      let! (c, from) := getc from in
      if c =? -1 then Ret (from, to)
      else
        let! (_, to) := putc c to in
        catq_loop fuel from to
  end.

Definition catq (from to : clist) : outcome (clist * clist) :=
  if c_cc from =? 0 then Ret (from, to)
  else if (c_cc to =? 0) && (c_cn from =? c_cn to) then Ret (to, from)
  else catq_loop (S (Z.to_nat (c_cc from))) from to.
