(* ===== verification/ClistBits.v ===== *)
(** The quote bitmap of the tty queues ([sys/kern/tty_subr.c]): [isset], [setbit],
    [clrbit] and the byte-wise [clrbits] as operations on single bits. *)

From S2P Require Import Prelude Bitmap Clist.

Lemma clr_bytes_qbit cp i n :
  bytes_ok cp -> 0 <= i -> i + Z.of_nat n <= Z.of_nat (length cp) ->
  exists cp', clr_bytes cp i n = Ret cp' /\
    bit_update cp cp' (fun j => i <= j / 8 < i + Z.of_nat n) false.
Proof.
  revert cp i. induction n as [|n IH]; intros cp i Hcp Hi Hn; cbn [clr_bytes].
  { exists cp. split; [done|]. unfold bit_update. conj; auto. intros; lia. }
  rewrite aset_bounds by lia. cbn [bind].
  destruct (IH (<[Z.to_nat i := 0]> cp) (i + 1)) as (cp' & E & Hl & Hok & Hin & Hout).
  { apply bytes_ok_insert; [done|]. by compute_decide. }
  { lia. }
  { rewrite length_insert. lia. }
  exists cp'. rewrite length_insert in Hl. split; [done|]. unfold bit_update. cbv beta in *. conj; auto.
  - intros j Hj HP. destruct (decide (j / 8 = i)) as [<-|]; [|apply Hin; lia].
    rewrite Hout, qbit_insert, Z.eqb_refl by lia. apply Z.bits_0.
  - intros j Hj HP. rewrite Hout, qbit_insert by lia.
    destruct (Z.eqb_spec (j / 8) i); [lia|done].
Qed.

(** Replacing byte [n] by a masked value. *)
Lemma byte_mask_qbit q n v :
  bytes_ok q -> 0 <= n < Z.of_nat (length q) ->
  exists q', (let! b := aget q n in aset q n (u8 (Z.land b v))) = Ret q' /\
    length q' = length q /\ bytes_ok q' /\
    (forall j, 0 <= j -> qbit q' j =
       if j / 8 =? n then qbit q j && Z.testbit v (j mod 8) else qbit q j).
Proof.
  intros Hq Hn. rewrite lookup_byte by done. cbn [bind]. rewrite aset_bounds by done.
  eexists; split; [done|]. rewrite length_insert. conj; [done| |].
  - apply bytes_ok_insert; [done|]. by apply wrap_range.
  - intros j Hj. rewrite qbit_insert by done. destruct (Z.eqb_spec (j / 8) n) as [E|]; [|done].
    pose proof (Z.mod_pos_bound j 8 eq_refl). rewrite u8_testbit, Z.land_spec by lia.
    unfold qbit. by rewrite E.
Qed.

Lemma u8_lnot_testbit m j : 0 <= j < 8 -> Z.testbit (Z.lnot (u8 m)) j = negb (Z.testbit m j).
Proof. intros. by rewrite Z.lnot_spec, u8_testbit by lia. Qed.

(** Where [clrbits] stays inside the bitmap. *)
Definition clrbits_room (q : list Z) (off len : Z) : Prop :=
  if len =? 1 then off < 8 * Z.of_nat (length q) else off + len < 8 * Z.of_nat (length q).

Lemma clrbits_one_byte q off len :
  bytes_ok q -> 0 <= off -> 1 <= len -> off + len < 8 * Z.of_nat (length q) ->
  off / 8 = (off + len) / 8 ->
  exists q', (let! b := aget q (off / 8) in
    aset q (off / 8) (u8 (Z.land b (Z.lnot (u8
      (Z.shiftl (Z.shiftl 1 ((off + len) mod 8 - off mod 8) - 1) (off mod 8))))))) = Ret q' /\
    bit_update q q' (fun j => off <= j < off + len) false.
Proof.
  intros Hq Hoff Hlen Hroom E.
  destruct (byte_mask_qbit q (off / 8) (Z.lnot (u8
      (Z.shiftl (Z.shiftl 1 ((off + len) mod 8 - off mod 8) - 1) (off mod 8)))) Hq)
    as (q' & -> & Hl & Hok & Hb); [dlia|].
  exists q'. split; [done|]. unfold bit_update. conj; auto; intros j Hj HP; rewrite Hb by done.
  - destruct (Z.eqb_spec (j / 8) (off / 8)); [|dlia].
    rewrite u8_lnot_testbit, testbit_mask by dlia.
    destruct (Z.leb_spec (off mod 8) (j mod 8)), (Z.ltb_spec (j mod 8)
      (off mod 8 + ((off + len) mod 8 - off mod 8))); dlia.
  - destruct (Z.eqb_spec (j / 8) (off / 8)); [|done].
    rewrite u8_lnot_testbit, testbit_mask by dlia.
    destruct (Z.leb_spec (off mod 8) (j mod 8)), (Z.ltb_spec (j mod 8)
      (off mod 8 + ((off + len) mod 8 - off mod 8))); [exfalso; dlia|apply andb_true_r..].
Qed.

Lemma clrbits_update q off len :
  bytes_ok q -> 0 <= off -> 1 <= len -> clrbits_room q off len ->
  exists q', clrbits q off len = Ret q' /\ bit_update q q' (fun j => off <= j < off + len) false.
Proof.
  intros Hq Hoff Hlen Hroom. unfold clrbits, clrbits_room in *. destruct (Z.eqb_spec len 1) as [->|Hne].
  { destruct (clrbit_qbit q off Hq) as (q' & -> & Hl & Hok & Hin & Hout); [lia|].
    exists q'. split; [done|]. unfold bit_update. cbv beta in *. conj; auto; intros j Hj HP.
    - apply Hin; lia.
    - apply Hout; lia. }
  unfold NBBY. rewrite !Z.quot_div_nonneg, !Z.rem_mod_nonneg by lia.
  destruct (Z.eqb_spec (off / 8) ((off + len) / 8)) as [E|Hby]; [by apply clrbits_one_byte|].
  destruct (byte_mask_qbit q (off / 8) (u8 (Z.shiftl 1 (off mod 8) - 1)) Hq)
    as (q1 & E1 & Hl1 & Hok1 & Hb1); [dlia|].
  destruct (byte_mask_qbit q1 ((off + len) / 8) (Z.lnot (u8 (Z.shiftl 1 ((off + len) mod 8) - 1))) Hok1)
    as (q2 & E2 & Hl2 & Hok2 & Hb2); [dlia|].
  destruct (clr_bytes_qbit q2 (off / 8 + 1) (Z.to_nat ((off + len) / 8 - (off / 8 + 1))) Hok2)
    as (q3 & E3 & Hl3 & Hok3 & Hin & Hout); [dlia..|].
  exists q3. split.
  { destruct (aget q (off / 8)); try discriminate E1. cbn [bind] in *. rewrite E1. cbn [bind].
    destruct (aget q1 ((off + len) / 8)); try discriminate E2. cbn [bind] in *. rewrite E2. done. }
  unfold bit_update. cbv beta in *. conj; [congruence|done| |]; intros j Hj HP.
  - destruct (decide (off / 8 + 1 <= j / 8 < (off + len) / 8)); [apply Hin; dlia|].
    rewrite Hout, Hb2 by dlia. pose proof (Z.mod_pos_bound j 8 eq_refl).
    destruct (Z.eqb_spec (j / 8) ((off + len) / 8)).
    + rewrite u8_lnot_testbit, testbit_low_mask by dlia.
      destruct (Z.ltb_spec (j mod 8) ((off + len) mod 8)); [apply andb_false_r|dlia].
    + rewrite Hb1 by dlia. destruct (Z.eqb_spec (j / 8) (off / 8)); [|dlia].
      rewrite u8_testbit, testbit_low_mask by dlia.
      destruct (Z.ltb_spec (j mod 8) (off mod 8)); [dlia|apply andb_false_r].
  - rewrite Hout, Hb2, Hb1 by dlia. pose proof (Z.mod_pos_bound j 8 eq_refl).
    destruct (Z.eqb_spec (j / 8) ((off + len) / 8)), (Z.eqb_spec (j / 8) (off / 8)); try dlia; [| |done].
    + rewrite u8_lnot_testbit, testbit_low_mask by dlia.
      destruct (Z.ltb_spec (j mod 8) ((off + len) mod 8)); [dlia|apply andb_true_r].
    + rewrite u8_testbit, testbit_low_mask by dlia.
      destruct (Z.ltb_spec (j mod 8) (off mod 8)); [apply andb_true_r|dlia].
Qed.

(**  [clrbits], the byte-wise version, clears exactly the bits
    [off .. off+len-1] of the bitmap and leaves every other bit alone, that is,
    it computes what a loop of [clrbit(cp, off + i)] over [i < len] computes,
    whenever the byte that holds bit [off + len] is inside the bitmap. *)
Theorem clrbits_correct (q : list Z) (off len : Z) :
  bytes_ok q -> 0 <= off -> 1 <= len -> clrbits_room q off len ->
  exists q', clrbits q off len = Ret q' /\ length q' = length q /\
    forall j, 0 <= j ->
      qbit q' j = if (off <=? j) && (j <? off + len) then false else qbit q j.
Proof.
  intros Hq Hoff Hlen Hroom.
  enough (exists q', clrbits q off len = Ret q' /\ bit_update q q' (fun j => off <= j < off + len) false)
    as (q' & Hr & Hl & _ & Hin & Hout).
  { exists q'. conj; auto. intros j Hj.
    destruct (Z.leb_spec off j), (Z.ltb_spec j (off + len)); simpl; auto; apply Hout; lia. }
  apply clrbits_update; auto.
Qed.

Lemma clrbits_correct_witness :
  exists q', clrbits [255; 255; 255] 3 10 = Ret q' /\ length q' = 3%nat /\
    forall j, 0 <= j -> qbit q' j = if (3 <=? j) && (j <? 13) then false else qbit [255; 255; 255] j.
Proof. apply (clrbits_correct [255; 255; 255] 3 10); [compute_decide..|reflexivity]. Defined.
