(* ===== verification/ClistQueue.v ===== *)
(** Correctness of the tty queues ([sys/kern/tty_subr.c]): the ring with its
    quote bitmap implements a bounded FIFO of characters. *)

From S2P Require Import Prelude Bitmap Clist ClistBits.

(** * The queue a ring holds *)

(** Position of the [i]-th character after offset [f]. *)
Definition slot (cn f i : Z) : Z := (f + i) mod cn.

Lemma slot_cases cn f i :
  0 <= f < cn -> 0 <= i <= cn ->
  (slot cn f i = f + i /\ f + i < cn) \/ (slot cn f i = f + i - cn /\ cn <= f + i).
Proof.
  intros Hf Hi. unfold slot. destruct (decide (f + i < cn)).
  - left. rewrite Z.mod_small; lia.
  - right. split; [|lia]. symmetry. apply Z.mod_unique with 1; lia.
Qed.

Lemma slot_0 cn f : 0 <= f < cn -> slot cn f 0 = f.
Proof. intros. unfold slot. rewrite Z.mod_small; lia. Qed.

Lemma slot_range cn f i : 0 < cn -> 0 <= slot cn f i < cn.
Proof. intros. apply Z.mod_pos_bound. lia. Qed.

Lemma slot_slot cn f i j : slot cn (slot cn f i) j = slot cn f (i + j).
Proof. unfold slot. rewrite Zplus_mod_idemp_l. f_equal. lia. Qed.

(** Different distances below [cn] are different slots. *)
Lemma slot_inj cn f i j :
  0 <= f < cn -> 0 <= i < cn -> 0 <= j < cn -> slot cn f i = slot cn f j -> i = j.
Proof.
  intros Hf Hi Hj E. destruct (slot_cases cn f i), (slot_cases cn f j); lia.
Qed.

(** The character in slot [i]: its byte and, with a bitmap, its quote. *)
Definition ring_char (buf : list Z) (cq : option (list Z)) (i : Z) : Z :=
  let b := default 0 (buf !! Z.to_nat i) in
  match cq with
  | None => b
  | Some q => if qbit q i then Z.lor b TTY_QUOTE else b
  end.

(** The [n] characters from offset [f] on. *)
Definition content (cn f : Z) (n : nat) (buf : list Z) (cq : option (list Z)) : list Z :=
  (fun i : nat => ring_char buf cq (slot cn f (Z.of_nat i))) <$> seq 0 n.

Lemma length_content cn f n buf cq : length (content cn f n buf cq) = n.
Proof. unfold content. by rewrite length_fmap, length_seq. Qed.

Lemma content_ext cn f n buf cq buf' cq' :
  (forall i, 0 <= i < Z.of_nat n ->
    ring_char buf' cq' (slot cn f i) = ring_char buf cq (slot cn f i)) ->
  content cn f n buf' cq' = content cn f n buf cq.
Proof.
  intros H. unfold content. apply list_fmap_ext. intros i x Hx. apply lookup_seq in Hx as [-> Hi].
  apply H. lia.
Qed.

Lemma content_app cn f n m buf cq :
  content cn f (n + m) buf cq =
  content cn f n buf cq ++ content cn (slot cn f (Z.of_nat n)) m buf cq.
Proof.
  unfold content. rewrite seq_app, fmap_app. f_equal. rewrite <- (Nat.add_0_r (0 + n)).
  rewrite <- fmap_add_seq, <- list_fmap_compose. apply list_fmap_ext. intros i x Hx. simpl.
  rewrite slot_slot. do 2 f_equal. lia.
Qed.

Lemma content_cons cn f n buf cq :
  0 <= f < cn ->
  content cn f (S n) buf cq = ring_char buf cq f :: content cn (slot cn f 1) n buf cq.
Proof.
  intros Hf. change (S n) with (1 + n)%nat. rewrite content_app. unfold content at 1. simpl.
  by rewrite slot_0.
Qed.

Lemma content_snoc cn f n buf cq :
  content cn f (S n) buf cq = content cn f n buf cq ++ [ring_char buf cq (slot cn f (Z.of_nat n))].
Proof.
  rewrite <- Nat.add_1_r, content_app. unfold content at 2. simpl. rewrite slot_slot.
  do 4 f_equal. lia.
Qed.

(** Storage and bitmap of the right sizes. *)
Definition ring_ok (cn : Z) (buf : list Z) (cq : option (list Z)) : Prop :=
  0 < cn /\ Z.of_nat (length buf) = cn /\ bytes_ok buf /\
  match cq with None => True | Some q => Z.of_nat (length q) = QMEM cn /\ bytes_ok q end.

(** A queue of [n] characters from offset [f] on, its pointers set. *)
Definition ring (cn f : Z) (n : nat) (buf : list Z) (cq : option (list Z)) : clist :=
  Clist (Z.of_nat n) cn (Some f) (Some (slot cn f (Z.of_nat n))) (Some buf) cn cq.

Definition empty_ring (cn : Z) (buf : list Z) (cq : option (list Z)) : clist :=
  Clist 0 cn None None (Some buf) cn cq.

Definition is_some {A} (o : option A) : bool := match o with Some _ => true | None => false end.

(** [clp] is a ring of capacity [cn], with or without quoting, that holds the
    characters [xs]. *)
Inductive queue (cn : Z) (quot : bool) : clist -> list Z -> Prop :=
| queue_empty buf cq :
    ring_ok cn buf cq -> is_some cq = quot -> queue cn quot (empty_ring cn buf cq) []
| queue_chars f n buf cq :
    ring_ok cn buf cq -> is_some cq = quot -> 0 <= f < cn -> 0 < Z.of_nat n <= cn ->
    queue cn quot (ring cn f n buf cq) (content cn f n buf cq).

Lemma QMEM_div cn : 0 < cn -> QMEM cn = (cn - 1) / 8 + 1.
Proof. intros. unfold QMEM, NBBY. by rewrite Z.quot_div_nonneg by lia. Qed.

Lemma QMEM_bits cn i : 0 <= i < cn -> i < 8 * QMEM cn.
Proof. intros. rewrite QMEM_div by lia. dlia. Qed.

Lemma ring_ok_bit cn buf q i :
  ring_ok cn buf (Some q) -> 0 <= i < cn -> 0 <= i < 8 * Z.of_nat (length q).
Proof. intros (Hcn & _ & _ & -> & _) Hi. pose proof (QMEM_bits cn i Hi). lia. Qed.

(** The characters are what [getc] and its kin return: a byte, with the quote
    in bit 8. *)
Lemma ring_char_range buf cq i : bytes_ok buf -> is_u 9 (ring_char buf cq i).
Proof.
  intros Hb. unfold ring_char. set (b := default 0 (buf !! Z.to_nat i)).
  assert (is_u 8 b) as H8.
  { subst b. unfold bytes_ok in Hb. rewrite Forall_lookup in Hb.
    destruct (buf !! Z.to_nat i) eqn:E; simpl; [eauto|compute_decide]. }
  assert (is_u 9 b) by (eapply is_u_mono; [|exact H8]; lia).
  destruct cq as [q|]; [|done]. destruct (qbit q i); [|done]. apply is_u_lor; [lia|done|compute_decide].
Qed.

(** * Reading a slot *)

Lemma byte_land b i v : bytes_ok b -> b !! i = Some v -> Z.land v 0xff = v.
Proof.
  intros Hb Hv. unfold bytes_ok in Hb. rewrite Forall_lookup in Hb. specialize (Hb _ _ Hv).
  change 0xff with (Z.ones 8). rewrite Z.land_ones by lia. by apply Z.mod_small.
Qed.

Lemma char_at_ring clp cn buf i :
  c_cs clp = Some buf -> ring_ok cn buf (c_cq clp) -> 0 <= i < cn ->
  char_at clp i = Ret (ring_char buf (c_cq clp) i).
Proof.
  intros Hs Hok Hi. unfold char_at, storage, ring_char. rewrite Hs. cbn [bind].
  destruct Hok as (Hcn & Hlen & Hb & Hq) eqn:E. destruct (aget_bounds buf i) as (v & -> & Hv); [lia|].
  cbn [bind]. rewrite Hv. simpl. rewrite (byte_land buf (Z.to_nat i)) by done.
  destruct (c_cq clp) as [q|]; [|done]. rewrite isset_qbit by by eapply ring_ok_bit. done.
Qed.

Lemma ring_char_insert buf cq a v i :
  0 <= a -> 0 <= i -> i <> a -> ring_char (<[Z.to_nat a := v]> buf) cq i = ring_char buf cq i.
Proof. intros. unfold ring_char. by rewrite list_lookup_insert_ne by lia. Qed.

(** What an operation may do to the bitmap. *)
Definition cq_update (cq cq' : option (list Z)) (P : Z -> Prop) (v : bool) : Prop :=
  match cq, cq' with
  | None, None => True
  | Some q, Some q' => bit_update q q' P v
  | _, _ => False
  end.

Lemma ring_char_cq buf cq cq' P v i :
  cq_update cq cq' P v -> 0 <= i -> ~ P i -> ring_char buf cq' i = ring_char buf cq i.
Proof.
  intros H Hi HP. unfold ring_char. destruct cq, cq'; simpl in H; try done.
  destruct H as (_ & _ & _ & H). by rewrite H.
Qed.

Lemma ring_ok_update cn buf buf' cq cq' P v :
  ring_ok cn buf cq -> cq_update cq cq' P v -> length buf' = length buf -> bytes_ok buf' ->
  ring_ok cn buf' cq'.
Proof.
  intros (Hcn & Hlen & Hb & Hq) Hu Hl Hb'. unfold ring_ok. conj; auto; [congruence|].
  destruct cq as [q|], cq' as [q'|]; simpl in Hu; try done. destruct Hu as (Hlq & Hq' & _). split; [|done].
  rewrite Hlq. apply Hq.
Qed.

Lemma cq_update_some cq cq' P v : cq_update cq cq' P v -> is_some cq' = is_some cq.
Proof. by destruct cq, cq'. Qed.

(** * [getc] *)

Lemma next_offset cn f : 0 <= f < cn -> (if f + 1 =? cn then 0 else f + 1) = slot cn f 1.
Proof. intros. destruct (slot_cases cn f 1), (Z.eqb_spec (f + 1) cn); lia. Qed.

Lemma getc_ring cn f n buf cq :
  ring_ok cn buf cq -> 0 <= f < cn -> Z.of_nat (S n) <= cn ->
  exists buf' cq', getc (ring cn f (S n) buf cq) =
    Ret (ring_char buf cq f,
         if decide (n = 0%nat) then empty_ring cn buf' cq' else ring cn (slot cn f 1) n buf' cq') /\
    ring_ok cn buf' cq' /\ is_some cq' = is_some cq /\
    content cn (slot cn f 1) n buf' cq' = content cn (slot cn f 1) n buf cq.
Proof.
  intros Hok Hf Hn. destruct (Hok) as (Hcn & Hlen & Hb & Hq).
  destruct (aget_bounds buf f) as (v & Hv & Hl); [lia|].
  assert (exists cq', (match cq with
      | None => Ret (v, None)
      | Some q => let! quoted := isset q f in
          let! cl := ptr (Some (slot cn f (Z.of_nat (S n)))) in
          let! q' := clrbit q cl in
          Ret (if quoted then Z.lor v TTY_QUOTE else v, Some q')
      end = Ret (ring_char buf cq f, cq')) /\
      cq_update cq cq' (eq (slot cn f (Z.of_nat (S n)))) false) as (cq' & Ecq & Hu).
  { unfold ring_char. rewrite Hl. simpl default. destruct cq as [q|]; [|by exists None].
    pose proof (slot_range cn f (Z.of_nat (S n)) Hcn).
    rewrite isset_qbit by by eapply ring_ok_bit. cbn [bind ptr].
    destruct (clrbit_qbit q (slot cn f (Z.of_nat (S n)))) as (q' & -> & Hu);
      [apply Hq|by eapply ring_ok_bit|]. by exists (Some q'). }
  exists (<[Z.to_nat f := 0]> buf), cq'. split; [|split; [|split]].
  - unfold getc, ring. cbn [c_cc c_cn c_cf c_cl c_cs c_ce c_cq storage ptr bind].
    destruct (Z.eqb_spec (Z.of_nat (S n)) 0); [lia|]. rewrite Hv. cbn [bind]. rewrite aset_bounds by lia.
    cbn [bind]. rewrite (byte_land buf (Z.to_nat f)) by done.
    cbn [ptr bind] in Ecq. rewrite Ecq. cbn [bind]. rewrite next_offset by done.
    replace (Z.of_nat (S n) - 1) with (Z.of_nat n) by lia.
    destruct (Z.eqb_spec (Z.of_nat n) 0), (decide (n = 0%nat)); try lia.
    + by subst.
    + do 4 f_equal. rewrite slot_slot. do 2 f_equal. lia.
  - eapply ring_ok_update; eauto; [by rewrite length_insert|]. apply bytes_ok_insert; [done|compute_decide].
  - by eapply cq_update_some.
  - apply content_ext. intros i Hi. rewrite slot_slot. pose proof (slot_range cn f (1 + i) Hcn).
    rewrite ring_char_insert; try lia.
    + eapply ring_char_cq; [done|lia|]. intros E.
      destruct (slot_cases cn f (1 + i)), (slot_cases cn f (Z.of_nat (S n))); lia.
    + destruct (slot_cases cn f (1 + i)); lia.
Qed.

Lemma getc_queue cn quot clp xs :
  queue cn quot clp xs ->
  match xs with
  | [] => getc clp = Ret (-1, clp)
  | x :: xs' => exists clp', getc clp = Ret (x, clp') /\ queue cn quot clp' xs'
  end.
Proof.
  intros [buf cq Hok Hq|f n buf cq Hok Hq Hf Hn]; [done|]. destruct n as [|n]; [simpl in Hn; lia|].
  rewrite content_cons by done. destruct (getc_ring cn f n buf cq) as (buf' & cq' & -> & Hok' & Hq' & Hc); [done|done|lia|].
  eexists; split; [done|]. rewrite <- Hc. destruct (decide (n = 0%nat)) as [->|].
  - apply queue_empty; congruence.
  - apply queue_chars; [done|congruence|apply slot_range; lia|lia].
Qed.

(** * [putc] *)

(** The character [putc] stores. *)
Definition stored (quot : bool) (c : Z) : Z :=
  if quot && flag c TTY_QUOTE then Z.lor (Z.land c 0xff) TTY_QUOTE else Z.land c 0xff.

Lemma open_ring_empty cn buf cq : open_ring (empty_ring cn buf cq) = ring cn 0 0 buf cq.
Proof. unfold open_ring, empty_ring, ring, slot. simpl. by rewrite Zmod_0_l. Qed.

Lemma open_ring_chars cn f n buf cq : (0 < n)%nat -> open_ring (ring cn f n buf cq) = ring cn f n buf cq.
Proof. intros. unfold open_ring, ring. simpl. destruct (Z.eqb_spec (Z.of_nat n) 0); [lia|done]. Qed.

(** [putc] on a ring that is not full, its pointers set. *)
Lemma putc_open_ring c clp cn f n buf cq :
  open_ring clp = ring cn f n buf cq -> c_cc clp <> c_cn clp ->
  ring_ok cn buf cq -> 0 <= f < cn -> Z.of_nat n < cn ->
  exists buf' cq', putc c clp = Ret (0, ring cn f (S n) buf' cq') /\
    ring_ok cn buf' cq' /\ is_some cq' = is_some cq /\
    content cn f (S n) buf' cq' = content cn f n buf cq ++ [stored (is_some cq) c].
Proof.
  intros Ho Hfull Hok Hf Hn. destruct (Hok) as (Hcn & Hlen & Hb & Hq).
  set (l := slot cn f (Z.of_nat n)). assert (Hl : 0 <= l < cn) by by apply slot_range.
  assert (exists cq', (match cq with
      | None => Ret None
      | Some q => let! q := if flag c TTY_QUOTE then setbit q l else clrbit q l in Ret (Some q)
      end = Ret cq') /\ cq_update cq cq' (eq l) (flag c TTY_QUOTE)) as (cq' & Ecq & Hu).
  { destruct cq as [q|]; [|by exists None].
    destruct (flag c TTY_QUOTE);
      [destruct (setbit_qbit q l) as (q' & -> & Hu)|destruct (clrbit_qbit q l) as (q' & -> & Hu)];
      try apply Hq; try (by eapply ring_ok_bit); by exists (Some q'). }
  assert (H8 : is_u 8 (Z.land c 0xff)).
  { change 0xff with (Z.ones 8). rewrite Z.land_ones by lia. by apply wrap_range. }
  exists (<[Z.to_nat l := Z.land c 0xff]> buf), cq'. split; [|split; [|split]].
  - unfold putc. destruct (Z.eqb_spec (c_cc clp) (c_cn clp)); [done|]. rewrite Ho. unfold ring.
    cbn [c_cc c_cn c_cf c_cl c_cs c_ce c_cq storage ptr bind]. fold l. rewrite aset_bounds by lia.
    cbn [bind]. rewrite Ecq. cbn [bind]. rewrite next_offset by done. unfold l. rewrite slot_slot.
    do 3 f_equal; [lia|]. do 2 f_equal. lia.
  - eapply ring_ok_update; eauto; [by rewrite length_insert|]. by apply bytes_ok_insert.
  - by eapply cq_update_some.
  - rewrite content_snoc. fold l. f_equal.
    + apply content_ext. intros i Hi. pose proof (slot_range cn f i Hcn).
      assert (slot cn f i <> l) by (unfold l; intros E; apply slot_inj in E; lia).
      rewrite ring_char_insert by lia. eapply ring_char_cq; [done|lia|congruence].
    + unfold ring_char, stored. rewrite list_lookup_insert_eq by lia. simpl.
      destruct cq as [q|], cq' as [q'|]; simpl in Hu; try done. destruct Hu as (_ & _ & Hin & _).
      rewrite Hin by (done || lia). done.
Qed.

(** A queue that is not full, its ring opened. *)
Lemma open_queue cn quot clp xs :
  queue cn quot clp xs -> Z.of_nat (length xs) < cn ->
  exists f n buf cq, open_ring clp = ring cn f n buf cq /\ c_cc clp <> c_cn clp /\
    ring_ok cn buf cq /\ is_some cq = quot /\ 0 <= f < cn /\ Z.of_nat n < cn /\
    xs = content cn f n buf cq /\ n = length xs.
Proof.
  intros [buf cq Hok Hq|f n buf cq Hok Hq Hf Hn] Hlt.
  - exists 0, 0%nat, buf, cq. rewrite open_ring_empty. destruct (Hok) as (Hcn & _). simpl. conj; auto; lia.
  - rewrite length_content in *. exists f, n, buf, cq. rewrite open_ring_chars by lia. simpl.
    conj; auto; lia.
Qed.

Lemma putc_queue c cn quot clp xs :
  queue cn quot clp xs -> Z.of_nat (length xs) < cn ->
  exists clp', putc c clp = Ret (0, clp') /\ queue cn quot clp' (xs ++ [stored quot c]).
Proof.
  intros Hq Hlt.
  destruct (open_queue cn quot clp xs) as (f & n & buf & cq & Ho & Hne & Hok & Hqt & Hf & Hn & -> & _); auto.
  destruct (putc_open_ring c clp cn f n buf cq) as (buf' & cq' & -> & Hok' & Hq' & Hc); auto.
  eexists; split; [done|]. rewrite <- Hqt, <- Hc. apply queue_chars; [done|congruence|done|lia].
Qed.

Lemma queue_length cn quot clp xs : 
  queue cn quot clp xs ->
  c_cc clp = Z.of_nat (length xs) /\ Z.of_nat (length xs) <= cn /\ c_cn clp = cn.
Proof.
  intros [buf cq (Hcn & _) _|f n buf cq (Hcn & _) _ Hf Hn]; simpl; [lia|]. rewrite length_content. lia.
Qed.

Lemma putc_full c cn quot clp xs :
  queue cn quot clp xs -> Z.of_nat (length xs) = cn -> putc c clp = Ret (-1, clp).
Proof.
  intros Hq Hl. apply queue_length in Hq as (Hc & _ & Hn). unfold putc.
  destruct (Z.eqb_spec (c_cc clp) (c_cn clp)); [done|lia].
Qed.

(** * [unputc] *)

Lemma unputc_queue cn quot clp xs x :
  queue cn quot clp (xs ++ [x]) -> exists clp', unputc clp = Ret (x, clp') /\ queue cn quot clp' xs.
Proof.
  intros H. inversion H as [buf cq Hok Hq E1 E2|f n buf cq Hok Hq Hf Hn E1 E2].
  { by destruct xs. }
  destruct n as [|n]; [simpl in Hn; lia|]. rewrite content_snoc in E2. apply app_inj_tail in E2 as [<- <-].
  destruct (Hok) as (Hcn & _). pose proof (slot_range cn f (Z.of_nat n) Hcn).
  assert ((if slot cn f (Z.of_nat (S n)) =? 0 then cn - 1 else slot cn f (Z.of_nat (S n)) - 1)
    = slot cn f (Z.of_nat n)) as El.
  { destruct (slot_cases cn f (Z.of_nat (S n))), (slot_cases cn f (Z.of_nat n)),
      (Z.eqb_spec (slot cn f (Z.of_nat (S n))) 0); lia. }
  eexists. split.
  - unfold unputc, ring. cbn [c_cc c_cn c_cf c_cl c_cs c_ce c_cq ptr bind].
    destruct (Z.eqb_spec (Z.of_nat (S n)) 0); [lia|]. rewrite El.
    rewrite (char_at_ring _ cn buf) by done. done.
  - simpl c_cq. unfold reset_if_empty. simpl c_cc. replace (Z.of_nat (S n) - 1) with (Z.of_nat n) by lia.
    destruct (Z.eqb_spec (Z.of_nat n) 0); cbn [c_cc c_cn c_cf c_cl c_cs c_ce c_cq].
    + replace n with 0%nat by lia. by apply queue_empty.
    + apply queue_chars; [done|done|done|lia].
Qed.

(** * [ndflush], [q_to_b] and [b_to_q]: moving chunks *)

(** The contiguous characters at the front, as the loops compute them. *)
Definition front (cn f : Z) (n : nat) : Z :=
  if slot cn f (Z.of_nat n) <=? f then cn - f else slot cn f (Z.of_nat n) - f.

Lemma front_spec cn f n :
  0 <= f < cn -> 0 < Z.of_nat n <= cn -> 0 < front cn f n <= Z.of_nat n /\ f + front cn f n <= cn.
Proof.
  intros Hf Hn. unfold front. destruct (slot_cases cn f (Z.of_nat n)), (Z.leb_spec (slot cn f (Z.of_nat n)) f); lia.
Qed.

Lemma advance_offset cn f c : 0 <= f < cn -> 0 <= c -> f + c <= cn -> (if f + c =? cn then 0 else f + c) = slot cn f c.
Proof. intros. destruct (slot_cases cn f c), (Z.eqb_spec (f + c) cn); lia. Qed.

(** Taking [c] characters from the front moves [c_cf] and leaves [c_cl]. *)
Lemma slot_advance cn f n c :
  (c <= n)%nat -> slot cn (slot cn f (Z.of_nat c)) (Z.of_nat (n - c)) = slot cn f (Z.of_nat n).
Proof. intros. rewrite slot_slot. f_equal. lia. Qed.

Lemma ndflush_loop_ring fuel cn f n buf cq count :
  0 <= f < cn -> Z.of_nat n <= cn -> 0 <= count <= Z.of_nat fuel ->
  ndflush_loop fuel (ring cn f n buf cq) count =
  Ret (ring cn (slot cn f (Z.min count (Z.of_nat n))) (n - Z.to_nat (Z.min count (Z.of_nat n))) buf cq).
Proof.
  revert f n count. induction fuel as [|fuel IH]; intros f n count Hf Hn Hc.
  - replace count with 0 by lia. rewrite Z.min_l by lia. simpl. rewrite slot_0 by done.
    by rewrite Nat.sub_0_r.
  - cbn [ndflush_loop]. cbn [c_cc c_cn c_cf c_cl c_cs c_ce c_cq ring ptr bind].
    destruct (Z.ltb_spec 0 count), (Z.ltb_spec 0 (Z.of_nat n)); cbn [andb].
    1: { fold (front cn f n). pose proof (front_spec cn f n Hf). set (c := front cn f n) in *.
         set (d := if count <? c then count else c). assert (Hd : 0 < d <= c /\ d <= count).
         { unfold d. destruct (Z.ltb_spec count c); lia. }
         rewrite advance_offset by lia.
         replace (Clist _ _ _ _ _ _ _) with (ring cn (slot cn f d) (n - Z.to_nat d) buf cq).
         2: { unfold ring. rewrite <- (slot_advance cn f n (Z.to_nat d)) by lia.
              rewrite Z2Nat.id by lia. f_equal. lia. }
         rewrite IH; [|apply slot_range; lia|lia|lia]. rewrite slot_slot. do 2 f_equal; [f_equal|]; lia. }
    all: replace (Z.min count (Z.of_nat n)) with 0 by lia; rewrite slot_0 by done;
      by rewrite Nat.sub_0_r.
Qed.

Lemma content_drop cn f n m buf cq :
  (m <= n)%nat -> content cn (slot cn f (Z.of_nat m)) (n - m) buf cq = drop m (content cn f n buf cq).
Proof.
  intros Hm. replace n with (m + (n - m))%nat at 2 by lia. rewrite content_app, drop_app_length'; [done|].
  by rewrite length_content.
Qed.

(** A ring whose pointers are reset when it is empty is a queue. *)
Lemma reset_queue cn f n buf cq :
  ring_ok cn buf cq -> 0 <= f < cn -> Z.of_nat n <= cn ->
  queue cn (is_some cq) (reset_if_empty (ring cn f n buf cq)) (content cn f n buf cq).
Proof.
  intros Hok Hf Hn. unfold reset_if_empty. simpl c_cc. destruct (Z.eqb_spec (Z.of_nat n) 0).
  - replace n with 0%nat by lia. by apply queue_empty.
  - apply queue_chars; (done || lia).
Qed.

Lemma ndflush_queue cn quot clp xs count :
  queue cn quot clp xs -> 0 <= count ->
  exists clp', ndflush clp count = Ret clp' /\ queue cn quot clp' (drop (Z.to_nat count) xs).
Proof.
  intros Hq Hc. unfold ndflush. destruct (queue_length _ _ _ _ Hq) as (-> & _).
  destruct (Z.eqb_spec count (Z.of_nat (length xs))) as [->|Hne].
  - rewrite Nat2Z.id, drop_all. eexists; split; [done|].
    destruct Hq as [buf cq Hok Hq|f n buf cq Hok Hq Hf Hn]; by apply queue_empty.
  - destruct Hq as [buf cq Hok Hq|f n buf cq Hok Hq Hf Hn].
    + exists (empty_ring cn buf cq). rewrite drop_nil. split; [|by apply queue_empty].
      simpl length in Hne. destruct (Z.to_nat count) eqn:E; simpl; by rewrite andb_false_r.
    + rewrite ndflush_loop_ring by lia. cbn [bind]. eexists; split; [done|]. rewrite <- Hq.
      set (m := Z.min count (Z.of_nat n)). replace (drop (Z.to_nat count) (content cn f n buf cq)) with
        (content cn (slot cn f m) (n - Z.to_nat m) buf cq).
      * apply reset_queue; [done| |lia]. apply slot_range; lia.
      * rewrite <- (Z2Nat.id m) at 1 by lia. rewrite content_drop by lia.
        destruct (decide (count <= Z.of_nat n)); [unfold m; by rewrite (Z.min_l count) by lia|].
        rewrite !drop_ge; [done|rewrite length_content; lia..].
Qed.

(** ** Copying bytes in and out of the ring *)

(** Replacing the bytes [off .. off+len-1] of the storage. *)
Definition spliced (buf : list Z) (off : Z) (xs : list Z) : list Z :=
  take (Z.to_nat off) buf ++ xs ++ drop (Z.to_nat off + length xs) buf.

Lemma ring_char_spliced buf off xs cq i :
  0 <= off -> off + Z.of_nat (length xs) <= Z.of_nat (length buf) -> 0 <= i ->
  ~ (off <= i < off + Z.of_nat (length xs)) ->
  ring_char (spliced buf off xs) cq i = ring_char buf cq i.
Proof.
  intros H1 H2 H3 H4. unfold ring_char, spliced. rewrite splice_lookup by lia.
  by rewrite decide_False by lia.
Qed.

Lemma spliced_ok buf off xs :
  bytes_ok buf -> bytes_ok xs -> 0 <= off -> off + Z.of_nat (length xs) <= Z.of_nat (length buf) ->
  bytes_ok (spliced buf off xs) /\ length (spliced buf off xs) = length buf.
Proof.
  intros Hb Hx H1 H2. unfold spliced. split; [|apply splice_length; lia]. auto 10 with kernel.
Qed.

Lemma ring_char_byte buf cq i v :
  bytes_ok buf -> buf !! Z.to_nat i = Some v -> Z.land (ring_char buf cq i) 0xff = v.
Proof.
  intros Hb Hv. unfold ring_char. rewrite Hv. simpl. destruct cq as [q|]; [|by eapply byte_land].
  destruct (qbit q i); [|by eapply byte_land].
  rewrite Z.land_lor_distr_l, (byte_land buf (Z.to_nat i)) by done. apply Z.lor_0_r.
Qed.

(** [bcopy] out of the ring: the low bytes of the characters. *)
Lemma content_bytes cn f c buf cq :
  bytes_ok buf -> Z.of_nat (length buf) = cn -> 0 <= f -> f + Z.of_nat c <= cn ->
  take c (drop (Z.to_nat f) buf) = (fun x => Z.land x 0xff) <$> content cn f c buf cq.
Proof.
  intros Hb Hlen Hf Hc. apply list_eq. intros i. unfold content.
  rewrite <- list_fmap_compose, list_lookup_fmap. destruct (decide (i < c)%nat) as [Hi|Hi].
  - rewrite lookup_take_lt, lookup_drop, lookup_seq_lt by done. simpl.
    unfold slot. rewrite Z.mod_small by lia.
    destruct (lookup_lt_is_Some_2 buf (Z.to_nat f + i)) as [v Hv]; [lia|]. rewrite Hv. f_equal. symmetry.
    apply ring_char_byte; [done|]. rewrite <- Hv. f_equal. lia.
  - rewrite lookup_take_ge by lia. by rewrite lookup_seq_ge by lia.
Qed.

Lemma bzeros_ok n : bytes_ok (bzeros n).
Proof. apply Forall_replicate. compute_decide. Qed.

Lemma length_bzeros n : 0 <= n -> Z.of_nat (length (bzeros n)) = n.
Proof. intros. unfold bzeros. rewrite length_replicate. lia. Qed.

(** Where the [clrbits] of [q_to_b] stays inside the bitmap: it starts at
    [c_cl], not at [c_cf]. *)
Definition take_room (cn f : Z) (n : nat) (count : Z) (cq : option (list Z)) : Prop :=
  cq = None \/ f + Z.of_nat n + Z.min count (Z.of_nat n) < cn.

Lemma take_room_clrbits cn f n d count buf cq :
  ring_ok cn buf cq -> 0 <= f < cn -> 0 < Z.of_nat n <= cn ->
  0 < d <= front cn f n -> d <= count -> take_room cn f n count cq ->
  exists cq', match cq with
      | None => Ret None
      | Some q => let! q := clrbits q (slot cn f (Z.of_nat n)) d in Ret (Some q)
      end = Ret cq' /\
    cq_update cq cq' (fun j => slot cn f (Z.of_nat n) <= j < slot cn f (Z.of_nat n) + d) false.
Proof.
  intros Hok Hf Hn Hd Hdc Hroom. destruct cq as [q|]; [|by exists None].
  destruct Hroom as [|Hroom]; [done|]. destruct Hok as (Hcn & Hlen & Hb & Hlq & Hq).
  pose proof (front_spec cn f n Hf Hn).
  assert (slot cn f (Z.of_nat n) = f + Z.of_nat n) as El by (destruct (slot_cases cn f (Z.of_nat n)); lia).
  destruct (clrbits_update q (slot cn f (Z.of_nat n)) d) as (q' & -> & Hu); [done|lia|lia| |by exists (Some q')].
  unfold clrbits_room. rewrite Hlq. pose proof (QMEM_bits cn (f + Z.of_nat n + d)).
  destruct (Z.eqb_spec d 1); lia.
Qed.

(** One iteration of the loop of [q_to_b] takes the [d] characters at the front. *)
Lemma q_to_b_chunk cn f n d buf cq cq' :
  ring_ok cn buf cq -> 0 <= f < cn -> 0 < Z.of_nat n <= cn -> 0 < d <= front cn f n ->
  cq_update cq cq' (fun j => slot cn f (Z.of_nat n) <= j < slot cn f (Z.of_nat n) + d) false ->
  ring_ok cn (spliced buf f (bzeros d)) cq' /\
  content cn (slot cn f d) (n - Z.to_nat d) (spliced buf f (bzeros d)) cq' =
  drop (Z.to_nat d) (content cn f n buf cq).
Proof.
  intros Hok Hf Hn Hd Hu. pose proof (front_spec cn f n Hf Hn). destruct (Hok) as (Hcn & Hlen & Hb & _).
  pose proof (length_bzeros d). destruct (spliced_ok buf f (bzeros d)) as [Hsb Hsl]; [done|apply bzeros_ok|lia..|].
  split; [by eapply ring_ok_update|].
  rewrite <- content_drop by lia. rewrite Z2Nat.id by lia. apply content_ext. intros i Hi.
  rewrite slot_slot. pose proof (slot_range cn f (d + i) Hcn).
  rewrite ring_char_spliced by (try lia; destruct (slot_cases cn f (d + i)); lia).
  eapply ring_char_cq; [done|lia|].
  destruct (slot_cases cn f (d + i)), (slot_cases cn f (Z.of_nat n)); lia.
Qed.

(** The loop stops when nothing is asked for or nothing is left. *)
Lemma q_to_b_loop_stop fuel cn f n buf cq acc count :
  0 <= f < cn -> Z.min count (Z.of_nat n) = 0 -> 0 <= count ->
  q_to_b_loop fuel (ring cn f n buf cq) acc count = Ret (acc, ring cn f n buf cq).
Proof.
  intros Hf Hz Hc. destruct fuel; cbn [q_to_b_loop]; simpl c_cc;
    destruct (Z.ltb_spec 0 count), (Z.ltb_spec 0 (Z.of_nat n)); (done || lia).
Qed.

(** One iteration of the loop, when something is moved. *)
Lemma q_to_b_loop_step fuel cn f n buf cq acc count :
  ring_ok cn buf cq -> 0 <= f < cn -> 0 < Z.of_nat n <= cn -> 0 < count -> take_room cn f n count cq ->
  let d := if count <? front cn f n then count else front cn f n in
  exists cq', q_to_b_loop (S fuel) (ring cn f n buf cq) acc count =
    q_to_b_loop fuel (ring cn (slot cn f d) (n - Z.to_nat d) (spliced buf f (bzeros d)) cq')
      (acc ++ ((fun x => Z.land x 0xff) <$> content cn f (Z.to_nat d) buf cq)) (count - d) /\
    cq_update cq cq' (fun j => slot cn f (Z.of_nat n) <= j < slot cn f (Z.of_nat n) + d) false.
Proof.
  intros Hok Hf Hn Hc Hroom d. cbn [q_to_b_loop].
  cbn [c_cc c_cn c_cf c_cl c_cs c_ce c_cq ring ptr bind storage].
  destruct (Z.ltb_spec 0 count), (Z.ltb_spec 0 (Z.of_nat n)); try lia. cbn [andb].
  fold (front cn f n). destruct (front_spec cn f n Hf) as [Hfr1 Hfr2]; [lia|]. fold d.
  assert (Hd : 0 < d <= front cn f n /\ d <= count).
  { unfold d. destruct (Z.ltb_spec count (front cn f n)); lia. }
  destruct (Hok) as (Hcn & Hlen & Hb & _). rewrite aslice_bounds by lia. cbn [bind].
  rewrite asplice_bounds; [|lia|rewrite length_bzeros; lia]. cbn [bind]. fold (spliced buf f (bzeros d)).
  destruct (take_room_clrbits cn f n d count buf cq) as (cq' & -> & Hu); [done|done|lia|lia|lia|done|].
  exists cq'. split; [|done]. cbn [bind]. rewrite advance_offset by lia.
  rewrite (content_bytes cn f (Z.to_nat d) buf cq) by (done || lia). f_equal.
  unfold ring. rewrite <- (slot_advance cn f n (Z.to_nat d)) by lia. rewrite Z2Nat.id by lia. f_equal. lia.
Qed.

Lemma content_take cn f n m buf cq :
  (m <= n)%nat -> content cn f m buf cq = take m (content cn f n buf cq).
Proof.
  intros Hm. replace n with (m + (n - m))%nat by lia. rewrite content_app.
  rewrite take_app_length'; [done|]. by rewrite length_content.
Qed.

Lemma q_to_b_loop_ring fuel cn f n buf cq acc count :
  ring_ok cn buf cq -> 0 <= f < cn -> Z.of_nat n <= cn -> 0 <= count <= Z.of_nat fuel ->
  take_room cn f n count cq ->
  let m := Z.min count (Z.of_nat n) in
  exists buf' cq', q_to_b_loop fuel (ring cn f n buf cq) acc count =
    Ret (acc ++ ((fun x => Z.land x 0xff) <$> take (Z.to_nat m) (content cn f n buf cq)),
         ring cn (slot cn f m) (n - Z.to_nat m) buf' cq') /\
    ring_ok cn buf' cq' /\ is_some cq' = is_some cq /\
    content cn (slot cn f m) (n - Z.to_nat m) buf' cq' = drop (Z.to_nat m) (content cn f n buf cq).
Proof.
  revert f n buf cq acc count. induction fuel as [|fuel IH];
    intros f n buf cq acc count Hok Hf Hn Hc Hroom m;
    (destruct (decide (m = 0)) as [Em|Hm];
     [exists buf, cq; rewrite q_to_b_loop_stop by lia; rewrite Em, slot_0, Nat.sub_0_r by done;
      rewrite take_0, drop_0, app_nil_r; done|]); [lia|].
  destruct (q_to_b_loop_step fuel cn f n buf cq acc count) as (cq1 & -> & Hu); [done|done|lia|lia|done|].
  set (d := if count <? front cn f n then count else front cn f n) in *.
  pose proof (front_spec cn f n Hf) as Hfr. assert (Hd : 0 < d <= front cn f n /\ d <= count).
  { unfold d. destruct (Z.ltb_spec count (front cn f n)); lia. }
  destruct (q_to_b_chunk cn f n d buf cq cq1) as [Hok1 Hc1]; [done|done|lia|lia|done|].
  edestruct (IH (slot cn f d) (n - Z.to_nat d)%nat (spliced buf f (bzeros d)) cq1)
    as (buf' & cq' & E & Hok' & Hq' & Hc').
  { done. } { apply slot_range; lia. } { lia. } { instantiate (1 := count - d). lia. }
  { destruct Hroom as [->|Hroom]; [left; by destruct cq1|right]. destruct (slot_cases cn f d); lia. }
  exists buf', cq'. rewrite E. clear E. rewrite slot_slot in *. rewrite Hc1 in *.
  assert (Em : d + Z.min (count - d) (Z.of_nat (n - Z.to_nat d)) = m) by lia.
  assert (En : (n - Z.to_nat d - Z.to_nat (Z.min (count - d) (Z.of_nat (n - Z.to_nat d))))%nat
    = (n - Z.to_nat m)%nat) by lia.
  rewrite Em, En in *. rewrite drop_drop in Hc'.
  conj; [|done|by rewrite Hq', (cq_update_some _ _ _ _ Hu)|rewrite Hc'; f_equal; lia].
  rewrite (content_take cn f n) by lia. rewrite <- app_assoc, <- fmap_app, take_take_drop.
  by replace (Z.to_nat d + Z.to_nat (Z.min (count - d) (Z.of_nat (n - Z.to_nat d))))%nat
    with (Z.to_nat m) by lia.
Qed.

Lemma q_to_b_queue cn clp xs count :
  queue cn false clp xs -> 0 <= count ->
  exists clp', q_to_b clp count =
    Ret ((fun x => Z.land x 0xff) <$> take (Z.to_nat count) xs, clp') /\
    queue cn false clp' (drop (Z.to_nat count) xs).
Proof.
  intros Hq Hc. unfold q_to_b. destruct Hq as [buf cq Hok Hq|f n buf cq Hok Hq Hf Hn].
  - exists (empty_ring cn buf cq). rewrite take_nil, drop_nil. split; [|by apply queue_empty].
    destruct (Z.to_nat count); simpl; by rewrite andb_false_r.
  - destruct (q_to_b_loop_ring (Z.to_nat count) cn f n buf cq [] count)
      as (buf' & cq' & -> & Hok' & Hq' & Hc'); [done|done|lia|lia|left; by destruct cq|].
    set (m := Z.min count (Z.of_nat n)) in *. cbn [bind app].
    assert (take (Z.to_nat m) (content cn f n buf cq) = take (Z.to_nat count) (content cn f n buf cq) /\
      drop (Z.to_nat m) (content cn f n buf cq) = drop (Z.to_nat count) (content cn f n buf cq)) as [-> Hd].
    { destruct (decide (count <= Z.of_nat n)); [unfold m; by rewrite (Z.min_l count) by lia|].
      rewrite !take_ge, !drop_ge by (rewrite length_content; lia). done. }
    eexists; split; [done|]. rewrite <- Hd, <- Hc', <- Hq, <- Hq'. apply reset_queue; [done| |lia].
    apply slot_range; lia.
Qed.

(** The free slots that follow [c_cl], as [b_to_q] computes them. *)
Definition back (cn f : Z) (n : nat) : Z :=
  if slot cn f (Z.of_nat n) <? f then f - slot cn f (Z.of_nat n) else cn - slot cn f (Z.of_nat n).

Lemma back_spec cn f n :
  0 <= f < cn -> Z.of_nat n < cn ->
  0 < back cn f n <= cn - Z.of_nat n /\ slot cn f (Z.of_nat n) + back cn f n <= cn.
Proof.
  intros Hf Hn. unfold back.
  destruct (slot_cases cn f (Z.of_nat n)), (Z.ltb_spec (slot cn f (Z.of_nat n)) f); lia.
Qed.

(** [clrbits] of [b_to_q] needs the byte after the last bit when a write of
    several bytes ends with the bitmap. *)
Definition put_room (cn : Z) (quot : bool) : Prop := quot = false \/ cn mod 8 <> 0.

Lemma put_room_clrbits cn f n d buf cq :
  ring_ok cn buf cq -> 0 <= f < cn -> Z.of_nat n < cn -> 0 < d <= back cn f n ->
  put_room cn (is_some cq) ->
  exists cq', match cq with
      | None => Ret None
      | Some q => let! q := clrbits q (slot cn f (Z.of_nat n)) d in Ret (Some q)
      end = Ret cq' /\
    cq_update cq cq' (fun j => slot cn f (Z.of_nat n) <= j < slot cn f (Z.of_nat n) + d) false.
Proof.
  intros Hok Hf Hn Hd Hroom. destruct cq as [q|]; [|by exists None].
  destruct Hroom as [|Hroom]; [done|]. destruct Hok as (Hcn & Hlen & Hb & Hlq & Hq).
  pose proof (back_spec cn f n Hf Hn). pose proof (slot_range cn f (Z.of_nat n) Hcn).
  destruct (clrbits_update q (slot cn f (Z.of_nat n)) d) as (q' & -> & Hu); [done|lia|lia| |by exists (Some q')].
  unfold clrbits_room. rewrite Hlq, QMEM_div by lia. destruct (Z.eqb_spec d 1); dlia.
Qed.

(** Writing [bytes] after the last character appends them, unquoted. *)
Lemma b_to_q_chunk cn f n bytes buf cq cq' :
  ring_ok cn buf cq -> 0 <= f < cn -> Z.of_nat n < cn -> bytes_ok bytes ->
  0 < Z.of_nat (length bytes) <= back cn f n ->
  cq_update cq cq' (fun j => slot cn f (Z.of_nat n) <= j <
    slot cn f (Z.of_nat n) + Z.of_nat (length bytes)) false ->
  let buf' := spliced buf (slot cn f (Z.of_nat n)) bytes in
  ring_ok cn buf' cq' /\
  content cn f (n + length bytes) buf' cq' = content cn f n buf cq ++ bytes.
Proof.
  intros Hok Hf Hn Hby Hd Hu buf'. set (l := slot cn f (Z.of_nat n)) in *.
  pose proof (back_spec cn f n Hf Hn) as [Hb1 Hb2]. destruct (Hok) as (Hcn & Hlen & Hb & _).
  pose proof (slot_range cn f (Z.of_nat n) Hcn) as Hl. fold l in Hb2, Hl.
  destruct (spliced_ok buf l bytes) as [Hsb Hsl]; [done|done|lia..|]. fold buf' in Hsb, Hsl.
  split; [by eapply ring_ok_update|]. rewrite content_app. fold l. f_equal.
  - apply content_ext. intros i Hi. pose proof (slot_range cn f i Hcn).
    assert (~ (l <= slot cn f i < l + Z.of_nat (length bytes))) as Hout.
    { unfold l, back in *. destruct (slot_cases cn f i), (slot_cases cn f (Z.of_nat n)),
        (Z.ltb_spec (slot cn f (Z.of_nat n)) f); lia. }
    unfold buf'. rewrite ring_char_spliced by lia. eapply ring_char_cq; [done|lia|done].
  - apply list_eq. intros i. unfold content. rewrite list_lookup_fmap.
    destruct (decide (i < length bytes)%nat).
    + rewrite lookup_seq_lt by done. simpl. unfold slot at 1. rewrite Z.mod_small by lia.
      destruct (lookup_lt_is_Some_2 bytes i) as [v Hv]; [done|]. rewrite Hv. f_equal.
      assert (buf' !! Z.to_nat (l + Z.of_nat i) = Some v) as Hbv.
      { unfold buf', spliced. rewrite splice_lookup by lia. rewrite decide_True by lia. rewrite <- Hv. f_equal. lia. }
      unfold ring_char. rewrite Hbv. simpl. destruct cq as [q|], cq' as [q'|]; simpl in Hu; try done.
      destruct Hu as (_ & _ & Hin & _). rewrite Hin by lia. done.
    + rewrite lookup_seq_ge by lia. by rewrite lookup_ge_None_2 by lia.
Qed.

(** One iteration of the loop of [b_to_q]. *)
Lemma b_to_q_loop_step fuel cn f n buf cq cp p count :
  ring_ok cn buf cq -> 0 <= f < cn -> Z.of_nat n < cn -> put_room cn (is_some cq) ->
  bytes_ok cp -> 0 <= p -> 0 < count -> p + count <= Z.of_nat (length cp) ->
  let d := if count <? back cn f n then count else back cn f n in
  let bytes := take (Z.to_nat d) (drop (Z.to_nat p) cp) in
  exists buf' cq', b_to_q_loop (S fuel) cp p count (ring cn f n buf cq) =
    b_to_q_loop fuel cp (p + d) (count - d) (ring cn f (n + Z.to_nat d) buf' cq') /\
    ring_ok cn buf' cq' /\ is_some cq' = is_some cq /\
    content cn f (n + Z.to_nat d) buf' cq' = content cn f n buf cq ++ bytes.
Proof.
  intros Hok Hf Hn Hroom Hcp Hp Hc Hlen d bytes. cbn [b_to_q_loop].
  cbn [c_cc c_cn c_cf c_cl c_cs c_ce c_cq ring ptr bind storage].
  destruct (Z.ltb_spec 0 count), (Z.ltb_spec (Z.of_nat n) cn); try lia. cbn [andb].
  fold (back cn f n). destruct (back_spec cn f n Hf Hn) as [Hb1 Hb2]. fold d.
  assert (Hd : 0 < d <= back cn f n /\ d <= count).
  { unfold d. destruct (Z.ltb_spec count (back cn f n)); lia. }
  destruct (Hok) as (Hcn & Hl & Hb & _). rewrite aslice_bounds by lia. cbn [bind]. fold bytes.
  assert (Hbl : length bytes = Z.to_nat d) by (unfold bytes; rewrite length_take, length_drop; lia).
  pose proof (slot_range cn f (Z.of_nat n) Hcn). rewrite asplice_bounds by lia. cbn [bind].
  destruct (put_room_clrbits cn f n d buf cq) as (cq' & -> & Hu); [done|done|lia|lia|done|].
  cbn [bind]. fold (spliced buf (slot cn f (Z.of_nat n)) bytes). rewrite advance_offset by lia.
  destruct (b_to_q_chunk cn f n bytes buf cq cq') as [Hok' Hc'];
    [done|done|lia|unfold bytes; auto with kernel|lia|by rewrite Hbl, Z2Nat.id by lia|].
  eexists _, cq'. rewrite Hbl in Hc'. conj; [|exact Hok'|by eapply cq_update_some|exact Hc'].
  f_equal. unfold ring. f_equal; [lia|]. rewrite slot_slot. do 2 f_equal. lia.
Qed.

Lemma b_to_q_loop_ring fuel cn f n buf cq cp p count :
  ring_ok cn buf cq -> 0 <= f < cn -> Z.of_nat n <= cn -> put_room cn (is_some cq) ->
  bytes_ok cp -> 0 <= p -> 0 <= count <= Z.of_nat fuel -> p + count <= Z.of_nat (length cp) ->
  let m := Z.min count (cn - Z.of_nat n) in
  exists buf' cq', b_to_q_loop fuel cp p count (ring cn f n buf cq) =
    Ret (count - m, ring cn f (n + Z.to_nat m) buf' cq') /\
    ring_ok cn buf' cq' /\ is_some cq' = is_some cq /\
    content cn f (n + Z.to_nat m) buf' cq' =
      content cn f n buf cq ++ take (Z.to_nat m) (drop (Z.to_nat p) cp).
Proof.
  revert n buf cq p count. induction fuel as [|fuel IH];
    intros n buf cq p count Hok Hf Hn Hroom Hcp Hp Hc Hlen m;
    (destruct (decide (m = 0)) as [Em|Hm];
     [exists buf, cq; rewrite Em, Nat.add_0_r, Z.sub_0_r, take_0, app_nil_r; conj; auto;
      cbn [b_to_q_loop]; simpl c_cc; simpl c_cn;
      destruct (Z.ltb_spec 0 count), (Z.ltb_spec (Z.of_nat n) cn); (done || lia)|]); [lia|].
  destruct (b_to_q_loop_step fuel cn f n buf cq cp p count)
    as (buf1 & cq1 & -> & Hok1 & Hq1 & Hc1); [done|done|lia|done|done|lia..|].
  set (d := if count <? back cn f n then count else back cn f n) in *.
  pose proof (back_spec cn f n Hf) as Hfr. assert (Hd : 0 < d <= back cn f n /\ d <= count).
  { unfold d. destruct (Z.ltb_spec count (back cn f n)); lia. }
  edestruct (IH (n + Z.to_nat d)%nat buf1 cq1 (p + d) (count - d))
    as (buf' & cq' & E & Hok' & Hq' & Hc'); [done|done|lia|by rewrite Hq1|done|lia..|].
  exists buf', cq'. rewrite E. clear E. rewrite Hc1 in Hc'.
  assert (Em : d + Z.min (count - d) (cn - Z.of_nat (n + Z.to_nat d)) = m) by lia.
  set (m' := Z.min (count - d) (cn - Z.of_nat (n + Z.to_nat d))) in *.
  replace (n + Z.to_nat d + Z.to_nat m')%nat with (n + Z.to_nat m)%nat in * by lia.
  conj; [do 2 f_equal; lia|done|congruence|]. rewrite Hc', <- app_assoc. f_equal.
  replace (Z.to_nat (p + d)) with (Z.to_nat p + Z.to_nat d)%nat by lia.
  rewrite <- drop_drop, take_take_drop. f_equal. lia.
Qed.

Lemma b_to_q_queue cn quot clp xs cp count :
  queue cn quot clp xs -> put_room cn quot -> bytes_ok cp -> 0 <= count <= Z.of_nat (length cp) ->
  let m := Z.min count (cn - Z.of_nat (length xs)) in
  exists clp', b_to_q cp count clp = Ret (count - m, clp') /\
    queue cn quot clp' (xs ++ take (Z.to_nat m) cp).
Proof.
  intros Hq Hroom Hcp Hc m. destruct (queue_length _ _ _ _ Hq) as (Hcc & Hle & Hcn). unfold b_to_q.
  destruct (Z.leb_spec count 0).
  { exists clp. assert (m = 0) as -> by lia. rewrite take_0, app_nil_r. split; [do 2 f_equal; lia|done]. }
  destruct (decide (Z.of_nat (length xs) = cn)) as [Efull|Hfull].
  { exists clp. assert (m = 0) as -> by lia. rewrite take_0, app_nil_r.
    destruct (Z.eqb_spec (c_cc clp) (c_cn clp)); [|lia]. split; [do 2 f_equal; lia|done]. }
  destruct (open_queue cn quot clp xs Hq) as (f & n & buf & cq & Ho & Hne & Hok & Hqt & Hf & Hn & Hxs & Hnl); [lia|].
  destruct (Z.eqb_spec (c_cc clp) (c_cn clp)); [lia|]. rewrite Ho.
  destruct (b_to_q_loop_ring (Z.to_nat count) cn f n buf cq cp 0 count)
    as (buf' & cq' & -> & Hok' & Hq' & Hc'); [done|done|lia|by rewrite Hqt|done|lia..|].
  rewrite Hnl in Hc' |- *. fold m in Hc' |- *. eexists; split; [done|].
  rewrite drop_0, <- Hnl, <- Hxs in Hc'. rewrite <- Hc', <- Hqt, <- Hq'.
  replace (length xs) with n. apply queue_chars; [done|done|done|lia].
Qed.

(** * [catq] *)

(** What is in a queue is what [putc] would store there. *)
Lemma stored_ring_char buf cq i : bytes_ok buf -> stored (is_some cq) (ring_char buf cq i) = ring_char buf cq i.
Proof.
  intros Hb. unfold stored, ring_char. set (b := default 0 (buf !! Z.to_nat i)).
  assert (Z.land b 0xff = b) as Hl.
  { subst b. destruct (buf !! Z.to_nat i) eqn:E; [by eapply byte_land|done]. }
  assert (Z.land b TTY_QUOTE = 0) as Hf.
  { rewrite <- Hl, <- Z.land_assoc. apply Z.land_0_r. }
  destruct cq as [q|]; simpl; [|done]. unfold flag. destruct (qbit q i).
  - rewrite !Z.land_lor_distr_l, Hl, Hf. simpl. by rewrite Z.lor_0_r.
  - by rewrite Hf, Hl.
Qed.

Lemma queue_char cn quot clp xs :
  queue cn quot clp xs -> Forall (fun x => stored quot x = x /\ x <> -1) xs.
Proof.
  intros [buf cq Hok Hq|f n buf cq (_ & _ & Hb & _) Hq Hf Hn]; [done|].
  unfold content. apply Forall_fmap, Forall_true. intros i. simpl. subst quot. split; [by apply stored_ring_char|].
  pose proof (ring_char_range buf cq (slot cn f (Z.of_nat i)) Hb) as []. lia.
Qed.

Lemma catq_loop_queue fuel cnf cnt quot from to xs ys :
  queue cnf quot from xs -> queue cnt quot to ys -> (length xs < fuel)%nat ->
  exists from' to', catq_loop fuel from to = Ret (from', to') /\ queue cnf quot from' [] /\
    queue cnt quot to' (ys ++ take (Z.to_nat cnt - length ys) xs).
Proof.
  revert from to xs ys. induction fuel as [|fuel IH]; intros from to xs ys Hf Ht Hl; [lia|].
  cbn [catq_loop]. pose proof (getc_queue _ _ _ _ Hf) as Hg. pose proof (queue_char _ _ _ _ Hf) as Hx.
  destruct xs as [|x xs].
  { rewrite Hg. cbn. exists from, to. rewrite take_nil, app_nil_r. done. }
  destruct Hg as (from' & -> & Hf'). apply Forall_cons in Hx as [[Hs Hx] _]. cbn [bind].
  destruct (Z.eqb_spec x (-1)); [done|]. destruct (queue_length _ _ _ _ Ht) as (_ & Hle & _). simpl in Hl.
  destruct (decide (Z.of_nat (length ys) = cnt)) as [E|Hne].
  - rewrite (putc_full x cnt quot to ys) by done. cbn [bind].
    destruct (IH from' to xs ys) as (f2 & t2 & -> & H1 & H2); [done|done|lia|]. exists f2, t2.
    replace (Z.to_nat cnt - length ys)%nat with 0%nat in * by lia. done.
  - destruct (putc_queue x cnt quot to ys) as (to' & -> & Ht'); [done|lia|]. rewrite Hs in Ht'. cbn [bind].
    destruct (IH from' to' xs (ys ++ [x])) as (f2 & t2 & -> & H1 & H2); [done|done|lia|]. exists f2, t2.
    rewrite length_app in H2. simpl in H2. rewrite <- app_assoc in H2. simpl in H2.
    replace (Z.to_nat cnt - length ys)%nat with (S (Z.to_nat cnt - (length ys + 1))) by lia. done.
Qed.

Lemma catq_queue cnf cnt quot from to xs ys :
  queue cnf quot from xs -> queue cnt quot to ys ->
  exists from' to', catq from to = Ret (from', to') /\ queue cnf quot from' [] /\
    queue cnt quot to' (ys ++ take (Z.to_nat cnt - length ys) xs).
Proof.
  intros Hf Ht. destruct (queue_length _ _ _ _ Hf) as (Hcf & Hlf & Hnf).
  destruct (queue_length _ _ _ _ Ht) as (Hct & Hlt & Hnt). unfold catq. rewrite Hcf, Hct, Hnf, Hnt.
  destruct (Z.eqb_spec (Z.of_nat (length xs)) 0).
  { destruct xs; [|done]. exists from, to. rewrite take_nil, app_nil_r. done. }
  destruct (Z.eqb_spec (Z.of_nat (length ys)) 0), (Z.eqb_spec cnf cnt) as [<-|]; cbn [andb].
  1: { destruct ys; [|done]. exists to, from. rewrite take_ge by (simpl; lia). done. }
  all: apply catq_loop_queue; auto; lia.
Qed.

(** * [firstc] and [nextc] *)

(** The loop the callers write (for instance [ttyretype] of
    [sys/kern/tty.c]):
    [for (cp = firstc(q, &c); cp; cp = nextc(q, cp, &c)) ...c...]. *)
Fixpoint nextc_loop (fuel : nat) (clp : clist) (st : Z * option (Z * Z)) : outcome (list Z) :=
  match st with
  | (_, None) => Ret []
  | (cc, Some (cp, c)) =>
      match fuel with
      | O => Spin
      | S fuel =>
          let! st := nextc cc clp (Some cp) in
          let! cs := nextc_loop fuel clp st in
          Ret (c :: cs)
      end
  end.

Definition scanq (clp : clist) : outcome (list Z) :=
  let! st := firstc clp in nextc_loop (Z.to_nat (c_cc clp)) clp st.

Lemma nextc_ring cn f n i buf cq :
  ring_ok cn buf cq -> 0 <= f < cn -> Z.of_nat n <= cn -> (i < n)%nat ->
  nextc (Z.of_nat (n - i)) (ring cn f n buf cq) (Some (slot cn f (Z.of_nat i))) =
  Ret (Z.of_nat (n - S i),
       if decide (S i < n)%nat
       then Some (slot cn f (Z.of_nat (S i)), ring_char buf cq (slot cn f (Z.of_nat (S i)))) else None).
Proof.
  intros Hok Hf Hn Hi. unfold nextc. destruct (Hok) as (Hcn & _).
  assert ((if bool_decide (c_cf (ring cn f n buf cq) = Some (slot cn f (Z.of_nat i)))
    then c_cc (ring cn f n buf cq) else Z.of_nat (n - i)) = Z.of_nat (n - i)) as ->.
  { simpl. case_bool_decide as E; [|done]. injection E as E.
    destruct (slot_cases cn f (Z.of_nat i)); lia. }
  destruct (Z.eqb_spec (Z.of_nat (n - i)) 0); [lia|].
  replace (Z.of_nat (n - i) - 1) with (Z.of_nat (n - S i)) by lia.
  destruct (Z.eqb_spec (Z.of_nat (n - S i)) 0), (decide (S i < n)%nat); try lia; [done|].
  simpl c_ce. rewrite next_offset by by apply slot_range. rewrite slot_slot.
  replace (Z.of_nat i + 1) with (Z.of_nat (S i)) by lia.
  rewrite (char_at_ring _ cn buf) by (done || by apply slot_range). done.
Qed.

Lemma nextc_loop_ring fuel cn f n i buf cq :
  ring_ok cn buf cq -> 0 <= f < cn -> Z.of_nat n <= cn -> (i < n)%nat -> (n - i <= fuel)%nat ->
  nextc_loop fuel (ring cn f n buf cq)
    (Z.of_nat (n - i), Some (slot cn f (Z.of_nat i), ring_char buf cq (slot cn f (Z.of_nat i)))) =
  Ret (drop i (content cn f n buf cq)).
Proof.
  intros Hok Hf Hn. revert i. induction fuel as [|fuel IH]; intros i Hi Hfu; [lia|].
  cbn [nextc_loop]. rewrite nextc_ring by done. cbn [bind].
  assert (content cn f n buf cq !! i = Some (ring_char buf cq (slot cn f (Z.of_nat i)))) as Hl.
  { unfold content. rewrite list_lookup_fmap, lookup_seq_lt by done. done. }
  rewrite (drop_S _ _ _ Hl). destruct (decide (S i < n)%nat).
  - rewrite IH by lia. done.
  - rewrite (drop_ge _ (S i)) by (rewrite length_content; lia). destruct fuel; done.
Qed.

Lemma scanq_queue cn quot clp xs : queue cn quot clp xs -> scanq clp = Ret xs.
Proof.
  intros [buf cq Hok Hq|f n buf cq Hok Hq Hf Hn]; [done|]. unfold scanq, firstc. simpl c_cc.
  destruct (Z.eqb_spec (Z.of_nat n) 0); [lia|]. cbn [c_cf ring ptr bind].
  rewrite (char_at_ring _ cn buf) by done. cbn [bind c_cq].
  pose proof (nextc_loop_ring (Z.to_nat (Z.of_nat n)) cn f n 0 buf cq) as H.
  rewrite slot_0, Nat.sub_0_r, drop_0 in H by done. apply H; (done || lia).
Qed.
