(* ===== verification/ClistSpec.v ===== *)
(** The contract of the tty queues: an abstract bounded FIFO and the theorem
    that [sys/kern/tty_subr.c] implements it, operation by operation and over
    any sequence of operations; and the inputs on which the source leaves its
    bitmap. *)

From S2P Require Import Prelude Bitmap Clist ClistBits ClistQueue.

(** * The abstract queue *)

Inductive op :=
| OpPutc (c : Z)
| OpGetc
| OpUnputc
| OpWrite (bytes : list Z)      (* b_to_q *)
| OpRead (count : Z)            (* q_to_b *)
| OpFlush (count : Z)           (* ndflush *)
| OpScan.                       (* firstc, nextc *)

(** What an operation answers: a number, or characters. *)
Inductive answer := ANum (z : Z) | AChars (xs : list Z).

(** The operations of [tty_subr.c]. *)
Definition run (o : op) (clp : clist) : outcome (answer * clist) :=
  match o with
  | OpPutc c => let! (r, clp) := putc c clp in Ret (ANum r, clp)
  | OpGetc => let! (r, clp) := getc clp in Ret (ANum r, clp)
  | OpUnputc => let! (r, clp) := unputc clp in Ret (ANum r, clp)
  | OpWrite bytes => let! (r, clp) := b_to_q bytes (Z.of_nat (length bytes)) clp in Ret (ANum r, clp)
  | OpRead count => let! (bs, clp) := q_to_b clp count in Ret (AChars bs, clp)
  | OpFlush count => let! clp := ndflush clp count in Ret (ANum 0, clp)
  | OpScan => let! cs := scanq clp in Ret (AChars cs, clp)
  end.

(** The FIFO of capacity [cn]. *)
Definition fifo (cn : Z) (quot : bool) (o : op) (xs : list Z) : answer * list Z :=
  match o with
  | OpPutc c =>
      if Z.of_nat (length xs) =? cn then (ANum (-1), xs) else (ANum 0, xs ++ [stored quot c])
  | OpGetc => match xs with [] => (ANum (-1), []) | x :: xs => (ANum x, xs) end
  | OpUnputc =>
      match last xs with None => (ANum (-1), []) | Some x => (ANum x, take (length xs - 1) xs) end
  | OpWrite bytes =>
      let m := Z.min (Z.of_nat (length bytes)) (cn - Z.of_nat (length xs)) in
      (ANum (Z.of_nat (length bytes) - m), xs ++ take (Z.to_nat m) bytes)
  | OpRead count =>
      (AChars ((fun x => Z.land x 0xff) <$> take (Z.to_nat count) xs), drop (Z.to_nat count) xs)
  | OpFlush count => (ANum 0, drop (Z.to_nat count) xs)
  | OpScan => (AChars xs, xs)
  end.

(** Arguments the callers give, and the two places where quoting must be off
    or the ring length odd enough for [clrbits]. *)
Definition op_ok (cn : Z) (quot : bool) (o : op) : Prop :=
  match o with
  | OpWrite bytes => bytes_ok bytes /\ put_room cn quot
  | OpRead count => 0 <= count /\ quot = false
  | OpFlush count => 0 <= count
  | _ => True
  end.

Fixpoint run_all (os : list op) (clp : clist) : outcome (list answer * clist) :=
  match os with
  | [] => Ret ([], clp)
  | o :: os =>
      let! (a, clp) := run o clp in
      let! (l, clp) := run_all os clp in
      Ret (a :: l, clp)
  end.

Fixpoint fifo_all (cn : Z) (quot : bool) (os : list op) (xs : list Z) : list answer * list Z :=
  match os with
  | [] => ([], xs)
  | o :: os =>
      let '(a, xs) := fifo cn quot o xs in
      let '(l, xs) := fifo_all cn quot os xs in
      (a :: l, xs)
  end.

(** * Refinement *)

Lemma run_fifo cn quot o clp xs :
  queue cn quot clp xs -> op_ok cn quot o ->
  exists clp', run o clp = Ret ((fifo cn quot o xs).1, clp') /\ queue cn quot clp' (fifo cn quot o xs).2.
Proof.
  intros Hq Ho. destruct o as [c| | |bytes|count|count|]; simpl in Ho |- *.
  - destruct (queue_length _ _ _ _ Hq) as (_ & Hle & _).
    destruct (Z.eqb_spec (Z.of_nat (length xs)) cn) as [E|].
    + rewrite (putc_full c cn quot clp xs) by done. simpl. eauto.
    + destruct (putc_queue c cn quot clp xs) as (clp' & -> & ?); [done|lia|]. simpl. eauto.
  - pose proof (getc_queue _ _ _ _ Hq) as Hg. destruct xs as [|x xs].
    + rewrite Hg. simpl. eauto.
    + destruct Hg as (clp' & -> & ?). simpl. eauto.
  - destruct xs as [|x xs _] using rev_ind.
    + destruct (queue_length _ _ _ _ Hq) as (Hc & _). unfold unputc. rewrite Hc. simpl. eauto.
    + rewrite last_snoc. destruct (unputc_queue cn quot clp xs x Hq) as (clp' & -> & ?). simpl.
      exists clp'. split; [done|]. rewrite length_app. simpl.
      replace (length xs + 1 - 1)%nat with (length xs) by lia. by rewrite take_app_length.
  - destruct Ho as [Hb Hr].
    destruct (b_to_q_queue cn quot clp xs bytes (Z.of_nat (length bytes)) Hq) as (clp' & -> & ?);
      [done|done|lia|]. simpl. eauto.
  - destruct Ho as [Hc ->]. destruct (q_to_b_queue cn clp xs count Hq) as (clp' & -> & ?); [done|].
    simpl. eauto.
  - destruct (ndflush_queue cn quot clp xs count Hq) as (clp' & -> & ?); [done|]. simpl. eauto.
  - rewrite (scanq_queue _ _ _ _ Hq). simpl. eauto.
Qed.

Lemma clalloc_queue clp size quot :
  0 < size -> queue size (negb (quot =? 0)) (clalloc clp size quot).2 [].
Proof.
  intros Hs. unfold clalloc. simpl. apply queue_empty.
  - unfold ring_ok. rewrite length_bzeros by lia. conj; [done|done|apply bzeros_ok|].
    destruct (quot =? 0); [done|]. split; [|apply bzeros_ok]. apply length_bzeros.
    rewrite QMEM_div by done. dlia.
  - by destruct (quot =? 0).
Qed.

(** C22.  The queues of [tty_subr.c] refine a bounded FIFO: after [clalloc], any
    sequence of [putc], [getc], [unputc], [b_to_q], [q_to_b], [ndflush] and
    [firstc]/[nextc] scans runs without a fault, gives the answers of the
    abstract FIFO of [size] characters (with their quote bit when the queue
    quotes), and leaves a ring that holds the FIFO's characters.  On a queue
    that quotes the sequence has no [q_to_b], and no [b_to_q] either when [size]
    is a multiple of 8. *)
Theorem clist_refines_fifo (clp0 : clist) (size quot : Z) (os : list op) :
  0 < size -> Forall (op_ok size (negb (quot =? 0))) os ->
  exists clp', run_all os (clalloc clp0 size quot).2 =
      Ret ((fifo_all size (negb (quot =? 0)) os []).1, clp') /\
    queue size (negb (quot =? 0)) clp' (fifo_all size (negb (quot =? 0)) os []).2.
Proof.
  intros Hs. pose proof (clalloc_queue clp0 size quot Hs) as Hq. revert Hq.
  generalize (clalloc clp0 size quot).2 as clp, (@nil Z) as xs.
  induction os as [|o os IH]; intros clp xs Hq Hos; simpl; [eauto|].
  apply Forall_cons in Hos as [Ho Hos]. destruct (run_fifo _ _ _ _ _ Hq Ho) as (clp1 & -> & Hq1). cbn [bind].
  destruct (fifo _ _ o xs) as [a xs1]. destruct (IH clp1 xs1 Hq1 Hos) as (clp2 & -> & Hq2).
  simpl in *. destruct (fifo_all _ _ os xs1) as [l xs2]. simpl. eauto.
Qed.

Lemma clist_refines_fifo_witness :
  exists clp', run_all [OpPutc 0x141; OpWrite [0x42; 0x43]; OpScan; OpUnputc; OpGetc]
      (clalloc (Clist 0 0 None None None 0 None) 10 1).2 =
    Ret ([ANum 0; ANum 0; AChars [0x141; 0x42; 0x43]; ANum 0x43; ANum 0x141], clp') /\
    queue 10 true clp' [0x42].
Proof.
  apply (clist_refines_fifo (Clist 0 0 None None None 0 None) 10 1
    [OpPutc 0x141; OpWrite [0x42; 0x43]; OpScan; OpUnputc; OpGetc]).
  - lia.
  - repeat (apply Forall_cons; split); try done. simpl. split; [compute_decide|]. by right.
Defined.

(**  [catq] empties the first queue and appends its characters, in order,
    to the second; what does not fit is dropped (the swap of the two rings,
    taken when the target is empty and the rings have one size, drops nothing). *)
Theorem catq_appends (cnf cnt : Z) (quot : bool) (from to : clist) (xs ys : list Z) :
  queue cnf quot from xs -> queue cnt quot to ys ->
  exists from' to', catq from to = Ret (from', to') /\ queue cnf quot from' [] /\
    queue cnt quot to' (ys ++ take (Z.to_nat cnt - length ys) xs).
Proof. apply catq_queue. Qed.

(** A ring of eight with ["AB"] in it, and an empty one of four. *)
Definition ring_AB : clist := ring 8 0 2 [0x41; 0x42; 0; 0; 0; 0; 0; 0] None.
Definition ring_4 : clist := empty_ring 4 [0; 0; 0; 0] None.

Lemma ring_AB_queue : queue 8 false ring_AB [0x41; 0x42].
Proof. apply (queue_chars 8 false 0 2 [0x41; 0x42; 0; 0; 0; 0; 0; 0] None); (done || compute_decide). Qed.

Lemma ring_4_queue : queue 4 false ring_4 [].
Proof. apply queue_empty; (done || compute_decide). Qed.

Lemma catq_appends_witness :
  exists from' to', catq ring_AB ring_4 = Ret (from', to') /\ queue 8 false from' [] /\
    queue 4 false to' [0x41; 0x42].
Proof. apply (catq_appends 8 4 false ring_AB ring_4 [0x41; 0x42] [] ring_AB_queue ring_4_queue). Defined.

(** * [ndqb] *)

(**  [ndqb(clp, 0)] is what the drivers take it for: the number of
    characters that lie contiguously at [c_cf].  It is positive for a non-empty
    queue, at most the number of characters queued, and copying that many bytes
    from [c_cf] stays inside the ring and gives the front of the queue. *)
Theorem ndqb_contiguous (cn f : Z) (n : nat) (buf : list Z) (cq : option (list Z)) :
  ring_ok cn buf cq -> 0 <= f < cn -> 0 < Z.of_nat n <= cn ->
  exists count bytes, ndqb (ring cn f n buf cq) 0 = Ret count /\
    0 < count <= Z.of_nat n /\ aslice buf f count = Ret bytes /\
    bytes = (fun x => Z.land x 0xff) <$> take (Z.to_nat count) (content cn f n buf cq).
Proof.
  intros Hok Hf Hn. destruct (front_spec cn f n Hf Hn) as [Hfr1 Hfr2].
  destruct (Hok) as (Hcn & Hlen & Hb & _).
  exists (front cn f n), (take (Z.to_nat (front cn f n)) (drop (Z.to_nat f) buf)). conj.
  - unfold ndqb, ring. simpl. destruct (Z.eqb_spec (Z.of_nat n) 0); [lia|]. f_equal. unfold front.
    destruct (Z.leb_spec (slot cn f (Z.of_nat n)) f), (Z.leb_spec (slot cn f (Z.of_nat n) - f) 0); lia.
  - lia.
  - lia.
  - by rewrite aslice_bounds by lia.
  - rewrite <- content_take by lia. rewrite (content_bytes cn f _ buf cq) by (done || lia). done.
Qed.

Lemma ndqb_contiguous_witness :
  exists count bytes, ndqb ring_AB 0 = Ret count /\ 0 < count <= 2 /\
    aslice [0x41; 0x42; 0; 0; 0; 0; 0; 0] 0 count = Ret bytes /\
    bytes = (fun x => Z.land x 0xff) <$> take (Z.to_nat count) (content 8 0 2 [0x41; 0x42; 0; 0; 0; 0; 0; 0] None).
Proof. apply (ndqb_contiguous 8 0 2 [0x41; 0x42; 0; 0; 0; 0; 0; 0] None); compute_decide. Defined.

(** * Where the source leaves the bitmap *)

Lemma clrbits_escapes q off len :
  0 <= off -> 8 <= len -> 8 * Z.of_nat (length q) <= off + len -> clrbits q off len = Fault OutOfBounds.
Proof.
  intros Ho Hl Hq. unfold clrbits, NBBY. rewrite !Z.quot_div_nonneg, !Z.rem_mod_nonneg by lia.
  destruct (Z.eqb_spec len 1); [lia|]. destruct (Z.eqb_spec (off / 8) ((off + len) / 8)); [dlia|].
  assert (Hout : forall l : list Z, length l = length q -> aget l ((off + len) / 8) = Fault OutOfBounds).
  { intros l E. unfold aget. destruct (Z.ltb_spec ((off + len) / 8) 0); [done|].
    destruct (l !! Z.to_nat ((off + len) / 8)) eqn:Hx; [|done]. apply lookup_lt_Some in Hx. dlia. }
  unfold aget at 1. destruct (off / 8 <? 0); [done|]. destruct (q !! Z.to_nat (off / 8)) eqn:Hx; [|done].
  cbn [bind]. unfold aset at 1. destruct (_ || _); [done|]. cbn [bind]. rewrite Hout; [done|].
  by rewrite length_insert.
Qed.

(**  [b_to_q] writes behind the quote bitmap: filling an empty quoting
    queue whose ring length is a multiple of eight (the 1024 of every tty's
    [t_canq], written by [ptcwrite]) asks [clrbits] for the byte after the
    bitmap's last. *)
Theorem b_to_q_escapes_bitmap (cn : Z) (buf q cp : list Z) :
  ring_ok cn buf (Some q) -> cn mod 8 = 0 -> Z.of_nat (length cp) = cn ->
  b_to_q cp cn (empty_ring cn buf (Some q)) = Fault OutOfBounds.
Proof.
  intros (Hcn & Hlen & Hb & Hlq & Hq) Hm Hcp. unfold b_to_q. rewrite open_ring_empty.
  destruct (Z.leb_spec cn 0); [lia|]. simpl c_cc. simpl c_cn. destruct (Z.eqb_spec 0 cn); [lia|].
  destruct (Z.to_nat cn) as [|fuel] eqn:E; [lia|]. cbn [b_to_q_loop].
  cbn [c_cc c_cn c_cf c_cl c_cs c_ce c_cq ring ptr bind storage].
  change (Z.of_nat 0) with 0. rewrite slot_0 by lia. rewrite !Z.sub_0_r.
  destruct (Z.ltb_spec 0 cn); [|lia]. simpl. rewrite Z.ltb_irrefl.
  rewrite aslice_bounds by lia. cbn [bind]. rewrite asplice_bounds by (rewrite ?length_take, ?length_drop; lia).
  cbn [bind]. rewrite clrbits_escapes; [done|lia|dlia|]. rewrite Hlq, QMEM_div by lia. dlia.
Qed.

Lemma b_to_q_escapes_bitmap_witness :
  b_to_q (replicate 1024 0x61) 1024 (clalloc (Clist 0 0 None None None 0 None) 1024 1).2 = Fault OutOfBounds.
Proof. apply (b_to_q_escapes_bitmap 1024 (bzeros 1024) (bzeros 128) (replicate 1024 0x61)); compute_decide. Defined.

(**  [q_to_b] clears quote bits from [c_cl] on instead of [c_cf]: taking
    [n] characters out of a quoting queue that holds them at the start of its
    ring reaches behind the bitmap as soon as [2n] bits do not fit. *)
Theorem q_to_b_escapes_bitmap (cn : Z) (n : nat) (buf q : list Z) :
  ring_ok cn buf (Some q) -> 8 <= Z.of_nat n < cn -> 8 * QMEM cn <= 2 * Z.of_nat n ->
  q_to_b (ring cn 0 n buf (Some q)) (Z.of_nat n) = Fault OutOfBounds.
Proof.
  intros (Hcn & Hlen & Hb & Hlq & Hq) Hn Hm. unfold q_to_b. rewrite Nat2Z.id.
  replace n with (S (pred n)) at 1 by lia. cbn [q_to_b_loop].
  cbn [c_cc c_cn c_cf c_cl c_cs c_ce c_cq ring ptr bind storage].
  assert (slot cn 0 (Z.of_nat n) = Z.of_nat n) as -> by (destruct (slot_cases cn 0 (Z.of_nat n)); lia).
  destruct (Z.ltb_spec 0 (Z.of_nat n)); [|lia]. cbn [andb].
  destruct (Z.leb_spec (Z.of_nat n) 0); [lia|]. rewrite Z.sub_0_r, Z.ltb_irrefl.
  rewrite aslice_bounds by lia. cbn [bind]. rewrite asplice_bounds by (rewrite ?length_bzeros; lia).
  cbn [bind]. rewrite clrbits_escapes by lia. done.
Qed.

Lemma q_to_b_escapes_bitmap_witness :
  q_to_b (ring 1024 0 600 (bzeros 1024) (Some (bzeros 128))) 600 = Fault OutOfBounds.
Proof. apply (q_to_b_escapes_bitmap 1024 600 (bzeros 1024) (bzeros 128)); compute_decide. Defined.

(** [ndqb(clp, TTY_QUOTE)] looks at the quote bit of the slot after each
    character: a queue whose first character is quoted counts two characters
    up to the first quoted one, not none. *)
Example ndqb_counts_quoted :
  ndqb (ring 8 0 2 [0x41; 0x42; 0; 0; 0; 0; 0; 0] (Some [1])) TTY_QUOTE = Ret 2 /\
  content 8 0 2 [0x41; 0x42; 0; 0; 0; 0; 0; 0] (Some [1]) = [Z.lor 0x41 TTY_QUOTE; 0x42].
Proof. split; reflexivity. Qed.
