(* ===== verification/Extent.v ===== *)
(** The general purpose extent manager ([sys/kern/subr_extent.c],
    [sys/sys/extent.h]): a map of allocated regions of an address range, kept as
    a sorted list of region descriptors.

    A descriptor that a C pointer names is an index into [ex_regions].  Calls
    that can block or fail ([tsleep], [pool_get], [malloc]) take the next event
    of a given list: its error, and what other threads have made of the extent
    meanwhile; a call that finds no event left is still asleep ([Spin]).
    [wakeup]s and the number of descriptors drawn from [ex_region_pl] are
    recorded.  [diag] says whether the kernel has option DIAGNOSTIC. *)

From S2P Require Import Prelude.

(** * Data *)

Notation ER_ALLOC := 0x01 (only parsing).

Notation EXF_FIXED := 0x01 (only parsing).
Notation EXF_NOCOALESCE := 0x02 (only parsing).
Notation EXF_WANTED := 0x04 (only parsing).
Notation EXF_FLWANTED := 0x08 (only parsing).

Notation EX_WAITOK := 0x01 (only parsing).
Notation EX_FAST := 0x02 (only parsing).
Notation EX_NOCOALESCE := 0x08 (only parsing).
Notation EX_MALLOCOK := 0x10 (only parsing).
Notation EX_WAITSPACE := 0x20 (only parsing).
Notation EX_BOUNDZERO := 0x40 (only parsing).

Record extent_region := Region { er_start : Z; er_end : Z; er_flags : Z }.

#[export] Instance extent_region_eq_dec : EqDecision extent_region.
Proof. solve_decision. Defined.

(** [struct extent] with the freelist of [struct extent_fixed]. *)
Record extent := Extent {
  ex_name : string;
  ex_regions : list extent_region;
  ex_start : Z;
  ex_end : Z;
  ex_mtype : Z;
  ex_flags : Z;
  fex_freelist : list extent_region
}.

Definition set_regions (ex : extent) (l : list extent_region) : extent :=
  Extent (ex_name ex) l (ex_start ex) (ex_end ex) (ex_mtype ex) (ex_flags ex) (fex_freelist ex).
Definition set_flags (ex : extent) (f : Z) : extent :=
  Extent (ex_name ex) (ex_regions ex) (ex_start ex) (ex_end ex) (ex_mtype ex) f (fex_freelist ex).
Definition set_freelist (ex : extent) (l : list extent_region) : extent :=
  Extent (ex_name ex) (ex_regions ex) (ex_start ex) (ex_end ex) (ex_mtype ex) (ex_flags ex) l.

(** What a sleep or an allocation brings. *)
Record event := Event { ev_error : Z; ev_others : extent -> extent }.

Inductive channel := ChanExtent | ChanFreelist.

Record world := World {
  w_ex : extent;
  w_pool : Z;                   (* descriptors drawn from [ex_region_pl] *)
  w_wakeups : list channel
}.

Definition with_ex (w : world) (ex : extent) : world := World ex (w_pool w) (w_wakeups w).

(** * Region descriptors *)

(** [pool_get]: without [PR_WAITOK] it answers [NULL] on a shortage, with it it
    may sleep.  The fields of the item are assigned before they are read. *)
Definition pool_get (flags : Z) (w : world) (evs : list event) :
    outcome (option extent_region * world * list event) :=
  match evs with
  | [] => Spin
  | e :: evs =>
      if flag flags EX_WAITOK then
        Ret (Some (Region 0 0 0), World (ev_others e (w_ex w)) (w_pool w + 1) (w_wakeups w), evs)
      else if ev_error e =? 0 then
        Ret (Some (Region 0 0 0), World (w_ex w) (w_pool w + 1) (w_wakeups w), evs)
      else Ret (None, w, evs)
  end.

(** The [while (LIST_EMPTY(&fex->fex_freelist))] loop: go on to [alloc], give
    up, or take a descriptor off the freelist. *)
Inductive freelist_wait := GoAlloc | GiveUp | Ready.

Fixpoint wait_freelist (flags : Z) (ex : extent) (evs : list event) :
    outcome (freelist_wait * extent * list event) :=
  match fex_freelist ex with
  | _ :: _ => Ret (Ready, ex, evs)
  | [] =>
      if flag flags EX_MALLOCOK then Ret (GoAlloc, ex, evs)
      else if negb (flag flags EX_WAITOK) then Ret (GiveUp, ex, evs)
      else
        let ex := set_flags ex (Z.lor (ex_flags ex) EXF_FLWANTED) in
        match evs with
        | [] => Spin
        | e :: evs =>
            let ex := ev_others e ex in
            if negb (ev_error e =? 0) then Ret (GiveUp, ex, evs)
            else wait_freelist flags ex evs
        end
  end.

Definition extent_alloc_region_descriptor (flags : Z) (w : world) (evs : list event) :
    outcome (option extent_region * world * list event) :=
  let! (r, ex, evs) :=
    if flag (ex_flags (w_ex w)) EXF_FIXED then wait_freelist flags (w_ex w) evs
    else Ret (GoAlloc, w_ex w, evs) in
  let w := with_ex w ex in
  match r with
  | GiveUp => Ret (None, w, evs)
  | Ready =>
      match fex_freelist ex with
      | [] => Fault NullDeref
      | rp :: rest => Ret (Some rp, with_ex w (set_freelist ex rest), evs)
      end
  | GoAlloc =>
      let! (rp, w, evs) := pool_get flags w evs in
      Ret ((fun rp => Region (er_start rp) (er_end rp) ER_ALLOC) <$> rp, w, evs)
  end.

(** [wake_em_up] *)
Definition wake_em_up (w : world) : world :=
  let ex := w_ex w in
  World (set_flags ex (Z.land (ex_flags ex) (Z.lnot EXF_FLWANTED))) (w_pool w)
    (w_wakeups w ++ [ChanFreelist]).

Definition extent_free_region_descriptor (rp : extent_region) (w : world) : world :=
  let ex := w_ex w in
  if flag (ex_flags ex) EXF_FIXED then
    if flag (er_flags rp) ER_ALLOC then
      if flag (ex_flags ex) EXF_FLWANTED then
        let rp := Region (er_start rp) (er_end rp) ER_ALLOC in
        wake_em_up (with_ex w (set_freelist ex (rp :: fex_freelist ex)))
      else World ex (w_pool w - 1) (w_wakeups w)
    else
      let rp := Region (er_start rp) (er_end rp) 0 in
      let w := with_ex w (set_freelist ex (rp :: fex_freelist ex)) in
      if flag (ex_flags ex) EXF_FLWANTED then wake_em_up w else w
  else World ex (w_pool w - 1) (w_wakeups w).

(** * Creation and destruction *)

(** [LIST_FOREACH] over [ext_list]; an extent is known by its address. *)
Definition extent_register (diag : bool) (ex : Z) (ext_list : list Z) : outcome (list Z) :=
  if diag && bool_decide (ex ∈ ext_list) then Panic "extent_register: already registered"
  else Ret (ex :: ext_list).

Section Arch.
Context {a : arch}.

Definition sizeof_extent_fixed : Z := match a with ILP32 => 44 | LP64 => 80 end.
Definition sizeof_extent_region : Z := match a with ILP32 => 20 | LP64 => 40 end.

(** [ALIGN] of [machine/param.h]; its [ALIGNBYTES] depends on the port. *)
Definition ALIGN (alignbytes p : Z) : Z := Z.land (ulong (p + alignbytes)) (Z.lnot alignbytes).

(** The loop that carves descriptors out of the storage; each takes at least a
    byte, so the storage bounds their number. *)
Fixpoint carve (fuel : nat) (alignbytes sz : Z) (freelist : list extent_region) : outcome (list extent_region) :=
  if ALIGN alignbytes sizeof_extent_region <=? sz then
    match fuel with
    | O => Spin
    | S fuel =>
        carve fuel alignbytes (ulong (sz - ALIGN alignbytes sizeof_extent_region))
          (Region 0 0 0 :: freelist)
    end
  else Ret freelist.

(** [storage] says whether the caller provides storage, [ex] is the address the
    extent gets; the [malloc] of a dynamic extent takes an event; [NULL] is
    [None].  The kernel has DDB, so extents are registered. *)
Definition extent_create (diag : bool) (alignbytes : Z) (name : string) (start endd mtype : Z)
    (storage : bool) (storagesize flags : Z) (ex : Z) (ext_list : list Z) (evs : list event) :
    outcome (option extent * list Z * list event) :=
  let fixed_extent := storage in
  if diag && (endd <? start) then Panic "extent_create: end < start"
  else if diag && fixed_extent && (storagesize <? sizeof_extent_fixed) then
    Panic "extent_create: fixed extent, bad storagesize"
  else if diag && negb fixed_extent && (negb (storagesize =? 0) || storage) then
    Panic "extent_create: storage provided for non-fixed"
  else
    let! (got, freelist, evs) :=
      if fixed_extent then
        let! fl := carve (Z.to_nat storagesize) alignbytes
          (ulong (storagesize - ALIGN alignbytes sizeof_extent_fixed)) [] in
        Ret (true, fl, evs)
      else
        match evs with
        | [] => Spin
        | e :: evs => Ret (flag flags EX_WAITOK || (ev_error e =? 0), [], evs)
        end in
    if got then
      let exf := if fixed_extent then EXF_FIXED else 0 in
      let exf := if flag flags EX_NOCOALESCE then Z.lor exf EXF_NOCOALESCE else exf in
      let! ext_list := extent_register diag ex ext_list in
      Ret (Some (Extent name [] start endd mtype exf freelist), ext_list, evs)
    else Ret (None, ext_list, evs).

(** [extent_destroy]: every descriptor is unlinked and freed, the extent leaves
    the list; the last component says whether its memory is freed. *)
Fixpoint destroy_regions (l : list extent_region) (w : world) : world :=
  match l with
  | [] => w
  | orp :: l =>
      destroy_regions l (extent_free_region_descriptor orp (with_ex w (set_regions (w_ex w) l)))
  end.

Definition extent_destroy (ex : Z) (ext_list : list Z) (w : world) : world * list Z * bool :=
  let w := destroy_regions (ex_regions (w_ex w)) w in
  (w, filter (fun e => e <> ex) ext_list, negb (flag (ex_flags (w_ex w)) EXF_FIXED)).

(** * Inserting a region *)

Definition extent_align (start align skew : Z) : Z :=
  ulong (Z.land (ulong (ulong (start - skew) + ulong (align - 1))) (ulong (- align)) + skew).

(** [after] is the position of the region before, [None] for the list head. *)
Definition extent_insert_and_optimize (start size : Z) (after : option nat) (rp : extent_region)
    (w : world) : outcome world :=
  let ex := w_ex w in
  let l := ex_regions ex in
  let coalesce := negb (flag (ex_flags ex) EXF_NOCOALESCE) in
  let new := Region start (ulong (start + ulong (size - 1))) (er_flags rp) in
  match after with
  | None =>
      match l with
      | first :: rest =>
          if coalesce && (ulong (start + size) =? er_start first) then
            Ret (extent_free_region_descriptor rp
              (with_ex w (set_regions ex (Region start (er_end first) (er_flags first) :: rest))))
          else Ret (with_ex w (set_regions ex (new :: l)))
      | [] => Ret (with_ex w (set_regions ex [new]))
      end
  | Some i =>
      match l !! i with
      | None => Fault NullDeref
      | Some aft =>
          let cant_coalesce := Ret (with_ex w (set_regions ex (take (S i) l ++ new :: drop (S i) l))) in
          if negb coalesce then cant_coalesce
          else
            let appended := ulong (er_end aft + 1) =? start in
            let aft := if appended
              then Region (er_start aft) (ulong (start + ulong (size - 1))) (er_flags aft) else aft in
            let l' := <[i := aft]> l in
            let append_only :=
              if appended then Ret (extent_free_region_descriptor rp (with_ex w (set_regions ex l')))
              else cant_coalesce in
            match l !! S i with
            | Some nextr =>
                if ulong (start + size) =? er_start nextr then
                  if appended then
                    let l' := delete (S i) (<[i := Region (er_start aft) (er_end nextr) (er_flags aft)]> l') in
                    let w := extent_free_region_descriptor nextr (with_ex w (set_regions ex l')) in
                    Ret (extent_free_region_descriptor rp w)
                  else
                    let l' := <[S i := Region start (er_end nextr) (er_flags nextr)]> l' in
                    Ret (extent_free_region_descriptor rp (with_ex w (set_regions ex l')))
                else append_only
            | None => append_only
            end
      end
  end.

(** * [extent_alloc_region] *)


(** The [LIST_FOREACH]: a conflict, or the region to insert after. *)
Inductive placement := Conflict | PlaceAfter (last : option nat).

Fixpoint region_search (l : list extent_region) (i : nat) (last : option nat) (start endd : Z) : placement :=
  match l with
  | [] => PlaceAfter last
  | rp :: l =>
      if endd <? er_start rp then PlaceAfter last
      else if start <=? er_end rp then Conflict
      else region_search l (S i) (Some i) start endd
  end.

(** From [alloc_start] on; each [goto alloc_start] follows a sleep. *)
Fixpoint alloc_region_start (start size endd flags : Z) (myrp : extent_region) (w : world)
    (evs : list event) : outcome (Z * world * list event) :=
  match region_search (ex_regions (w_ex w)) 0 None start endd with
  | PlaceAfter last =>
      let! w := extent_insert_and_optimize start size last myrp w in Ret (0, w, evs)
  | Conflict =>
      if flag flags EX_WAITSPACE then
        let ex := set_flags (w_ex w) (Z.lor (ex_flags (w_ex w)) EXF_WANTED) in
        match evs with
        | [] => Spin
        | e :: evs =>
            let w := with_ex w (ev_others e ex) in
            if negb (ev_error e =? 0) then Ret (ev_error e, w, evs)
            else alloc_region_start start size endd flags myrp w evs
        end
      else Ret (EAGAIN, extent_free_region_descriptor myrp w, evs)
  end.

Definition extent_alloc_region (diag : bool) (start size flags : Z) (w : world) (evs : list event) :
    outcome (Z * world * list event) :=
  let endd := ulong (start + ulong (size - 1)) in
  if diag && (size <? 1) then Panic "extent_alloc_region: bad size"
  else if diag && (endd <? start) then Panic "extent_alloc_region: overflow"
  else if (start <? ex_start (w_ex w)) || (ex_end (w_ex w) <? endd) then
    if diag then Panic "extent_alloc_region: region lies outside extent" else Ret (EINVAL, w, evs)
  else
    let! (myrp, w, evs) := extent_alloc_region_descriptor flags w evs in
    match myrp with
    | None => Ret (ENOMEM, w, evs)
    | Some myrp => alloc_region_start start size endd flags myrp w evs
    end.

(** * [extent_alloc_subregion] *)

Definition LE_OV (x y z : Z) : bool := (x <=? ulong (x + y)) && (ulong (x + y) <=? z).

(** The arguments of a request. *)
Record request := Request {
  substart : Z; subend : Z; rq_size : Z; alignment : Z; skew : Z; boundary : Z; rq_flags : Z
}.

(** [bestovh], [beststart], [bestlast] *)
Record best := Best { bestovh : Z; beststart : Z; bestlast : option nat }.

(** The boundary check of the two places that have one; [le_ov ns] is the test
    that the moved candidate still fits. *)
Inductive bounded := BFits (newstart : Z) | BTooLong | BFail.

Definition boundary_check (ex : extent) (rq : request) (newstart : Z) (le_ov : Z -> bool) : bounded :=
  if boundary rq =? 0 then BFits newstart
  else
    let newend := ulong (newstart + ulong (rq_size rq - 1)) in
    let dontcross := ulong (extent_align (ulong (newstart + 1)) (boundary rq)
      (if flag (rq_flags rq) EX_BOUNDZERO then 0 else ex_start ex) - 1) in
    let past (newstart dontcross : Z) :=
      if (ex_end ex <? ulong (ulong (newstart + rq_size rq) - 1)) || (dontcross <? newstart)
      then BFail else BFits newstart in
    if dontcross <? ex_start ex then past newstart (ex_end ex)
    else if dontcross <? newend then
      let newstart := ulong (dontcross + 1) in
      let dontcross := ulong (dontcross + boundary rq) in
      if negb (le_ov newstart) then BTooLong else past newstart dontcross
    else past newstart dontcross.

(** The first [LIST_FOREACH]: the regions from the first one at or after
    [newstart] on, and the position before it. *)
Fixpoint first_after (l : list extent_region) (i : nat) (last : option nat) (newstart : Z) :
    list extent_region * nat * option nat :=
  match l with
  | [] => ([], i, last)
  | rp :: l' =>
      if newstart <=? er_start rp then (l, i, last) else first_after l' (S i) (Some i) newstart
  end.

(** How the search ends: [goto found], [goto fail], or the end of the loop. *)
Inductive search :=
| Found (newstart : Z) (last : option nat)
| SFail (b : best)
| LoopEnd (newstart exend : Z) (last : option nat) (b : best).

Definition take_best (b : best) (ovh newstart : Z) (last : option nat) : best :=
  if (bestovh b =? 0) || (ovh <? bestovh b) then Best ovh newstart last else b.

(** The [for] loop over the rest [l] of the list, which starts at position [i]. *)
Fixpoint gap_loop (ex : extent) (rq : request) (l : list extent_region) (i : nat) (newstart : Z)
    (last : option nat) (b : best) : search :=
  match l with
  | [] => LoopEnd newstart (ex_end ex) last b
  | rp :: l =>
      if subend rq <? er_start rp then LoopEnd newstart (er_start rp) last b
      else
        let skip (b : best) :=
          let newstart := extent_align (ulong (er_end rp + 1)) (alignment rq) (skew rq) in
          if newstart <? er_end rp then SFail b
          else gap_loop ex rq l (S i) newstart (Some i) b in
        if LE_OV newstart (rq_size rq) (er_start rp) then
          match boundary_check ex rq newstart (fun ns => LE_OV ns (rq_size rq) (er_start rp)) with
          | BFail => SFail b
          | BTooLong => skip b
          | BFits newstart =>
              let ovh := ulong (ulong (er_start rp - newstart) - rq_size rq) in
              if flag (rq_flags rq) EX_FAST || (ovh =? 0) then Found newstart last
              else skip (take_best b ovh newstart last)
          end
        else skip b
  end.

(** The final check against the end of the subregion. *)
Definition final_check (ex : extent) (rq : request) (newstart exend : Z) (last : option nat) (b : best) : search :=
  if LE_OV newstart (ulong (rq_size rq - 1)) (subend rq) then
    match boundary_check ex rq newstart (fun ns => LE_OV ns (ulong (rq_size rq - 1)) (subend rq)) with
    | BFail | BTooLong => SFail b
    | BFits newstart =>
        let ovh := ulong (ulong (exend - newstart) - ulong (rq_size rq - 1)) in
        if flag (rq_flags rq) EX_FAST || (ovh =? 0) then Found newstart last
        else SFail (take_best b ovh newstart last)
    end
  else SFail b.

(** One pass from [alloc_start] to [found] or past [fail]: [None] is no space.
    [newstart] is the aligned start of the subregion. *)
Definition subregion_search (ex : extent) (rq : request) (newstart : Z) : outcome (option (Z * option nat)) :=
  let '(l, i, last) := first_after (ex_regions ex) 0 None newstart in
  let! newstart :=
    match last with
    | None => Ret newstart
    | Some j =>
        match ex_regions ex !! j with
        | None => Fault NullDeref
        | Some rp =>
            Ret (if newstart <=? er_end rp
                 then extent_align (ulong (er_end rp + 1)) (alignment rq) (skew rq) else newstart)
        end
    end in
  let r :=
    match gap_loop ex rq l i newstart last (Best 0 0 None) with
    | LoopEnd newstart exend last b => final_check ex rq newstart exend last b
    | r => r
    end in
  match r with
  | Found newstart last => Ret (Some (newstart, last))
  | SFail b | LoopEnd _ _ _ b =>
      if negb (flag (rq_flags rq) EX_FAST) && negb (bestovh b =? 0)
      then Ret (Some (beststart b, bestlast b)) else Ret None
  end.

(** From [alloc_start] on; the answer carries [*result] when it is set. *)
Fixpoint alloc_subregion_start (diag : bool) (rq : request) (myrp : extent_region) (w : world)
    (evs : list event) : outcome (Z * option Z * world * list event) :=
  let ex := w_ex w in
  let newstart := extent_align (substart rq) (alignment rq) (skew rq) in
  if newstart <? ex_start ex then
    if diag then Panic "extent_alloc_subregion: overflow after alignment"
    else Ret (EINVAL, None, extent_free_region_descriptor myrp w, evs)
  else
    let! r := subregion_search ex rq newstart in
    match r with
    | Some (newstart, last) =>
        let! w := extent_insert_and_optimize newstart (rq_size rq) last myrp w in
        Ret (0, Some newstart, w, evs)
    | None =>
        if flag (rq_flags rq) EX_WAITSPACE then
          let ex := set_flags ex (Z.lor (ex_flags ex) EXF_WANTED) in
          match evs with
          | [] => Spin
          | e :: evs =>
              let w := with_ex w (ev_others e ex) in
              if negb (ev_error e =? 0) then Ret (ev_error e, None, w, evs)
              else alloc_subregion_start diag rq myrp w evs
          end
        else Ret (EAGAIN, None, extent_free_region_descriptor myrp w, evs)
    end.

Definition extent_alloc_subregion (diag : bool) (rq : request) (w : world) (evs : list event) :
    outcome (Z * option Z * world * list event) :=
  let ex := w_ex w in
  if diag && ((substart rq <? ex_start ex) || (ex_end ex <? substart rq) ||
              (ex_end ex <? subend rq) || (subend rq <? ex_start ex)) then
    Panic "extent_alloc_subregion: bad subregion"
  else if diag && ((rq_size rq <? 1) || (ulong (subend rq - substart rq) <? ulong (rq_size rq - 1))) then
    Panic "extent_alloc_subregion: bad size"
  else if diag && (alignment rq =? 0) then Panic "extent_alloc_subregion: bad alignment"
  else if diag && negb (boundary rq =? 0) && (boundary rq <? rq_size rq) then
    Panic "extent_alloc_subregion: bad boundary"
  else
    let! (myrp, w, evs) := extent_alloc_region_descriptor (rq_flags rq) w evs in
    match myrp with
    | None => Ret (ENOMEM, None, w, evs)
    | Some myrp => alloc_subregion_start diag rq myrp w evs
    end.

(** [extent_alloc], the macro of [sys/extent.h]. *)
Definition extent_alloc (diag : bool) (size alignment skew boundary flags : Z) (w : world)
    (evs : list event) : outcome (Z * option Z * world * list event) :=
  extent_alloc_subregion diag
    (Request (ex_start (w_ex w)) (ex_end (w_ex w)) size alignment skew boundary flags) w evs.

(** * [extent_free] *)

(** The [LIST_FOREACH]: the new list, the descriptor unlinked (case 1), and
    whether the spare one has been used (case 4, which dereferences it). *)
Inductive freed :=
| NotFound
| NoSpare
| Freed (l : list extent_region) (unlinked : option extent_region) (used : bool).

Fixpoint free_search (nocoalesce : bool) (nrp : option extent_region) (start endd : Z)
    (before l : list extent_region) : freed :=
  match l with
  | [] => NotFound
  | rp :: l =>
      if er_end rp <? start then free_search nocoalesce nrp start endd (before ++ [rp]) l
      else if endd <? er_start rp then NotFound
      else if (start =? er_start rp) && (endd =? er_end rp) then Freed (before ++ l) (Some rp) false
      else if nocoalesce then free_search nocoalesce nrp start endd (before ++ [rp]) l
      else if (start =? er_start rp) && (endd <? er_end rp) then
        Freed (before ++ Region (ulong (endd + 1)) (er_end rp) (er_flags rp) :: l) None false
      else if (er_start rp <? start) && (endd =? er_end rp) then
        Freed (before ++ Region (er_start rp) (ulong (start - 1)) (er_flags rp) :: l) None false
      else if (er_start rp <? start) && (endd <? er_end rp) then
        match nrp with
        | None => NoSpare
        | Some nrp =>
            Freed (before ++ Region (er_start rp) (ulong (start - 1)) (er_flags rp) ::
                   Region (ulong (endd + 1)) (er_end rp) (er_flags nrp) :: l) None true
        end
      else free_search nocoalesce nrp start endd (before ++ [rp]) l
  end.

(** [done] *)
Definition free_done (nrp : option extent_region) (w : world) : world :=
  let w := match nrp with None => w | Some nrp => extent_free_region_descriptor nrp w end in
  let ex := w_ex w in
  if flag (ex_flags ex) EXF_WANTED then
    World (set_flags ex (Z.land (ex_flags ex) (Z.lnot EXF_WANTED))) (w_pool w) (w_wakeups w ++ [ChanExtent])
  else w.

Definition extent_free (diag : bool) (start size flags : Z) (w : world) (evs : list event) :
    outcome (Z * world * list event) :=
  let endd := ulong (start + ulong (size - 1)) in
  if diag && ((start <? ex_start (w_ex w)) || (ex_end (w_ex w) <? endd)) then
    Panic "extent_free: region not within extent"
  else if diag && (endd <? start) then Panic "extent_free: overflow"
  else
    let exflags := ex_flags (w_ex w) in
    let! (nrp, w, evs) :=
      if flag exflags EXF_NOCOALESCE then Ret (None, w, evs)
      else extent_alloc_region_descriptor flags w evs in
    if negb (flag exflags EXF_NOCOALESCE) && match nrp with None => true | _ => false end
    then Ret (ENOMEM, w, evs)
    else
      let ex := w_ex w in
      match free_search (flag (ex_flags ex) EXF_NOCOALESCE) nrp start endd [] (ex_regions ex) with
      | NotFound => Panic "extent_free: region not found"
      | NoSpare => Fault NullDeref
      | Freed l unlinked used =>
          let w := with_ex w (set_regions ex l) in
          let w := match unlinked with None => w | Some rp => extent_free_region_descriptor rp w end in
          Ret (0, free_done (if used then None else nrp) w, evs)
      end.

End Arch.
