(* ===== verification/ExtentRegions.v ===== *)
(** Sorted region lists: the invariant of [ex_regions], the set of addresses a
    list covers, and what inserting and removing a range does to both. *)

From S2P Require Import Prelude Extent.

(** * Lists of regions *)

Definition covers (r : extent_region) (x : Z) : Prop := er_start r <= x <= er_end r.

(** The addresses a list of regions covers. *)
Definition allocated (l : list extent_region) (x : Z) : Prop := Exists (fun r => covers r x) l.

#[export] Instance covers_dec r x : Decision (covers r x).
Proof. unfold covers. apply _. Defined.

#[export] Instance allocated_dec l x : Decision (allocated l x).
Proof. unfold allocated. apply _. Defined.

(** Regions inside [lo .. hi], each starting at least [g] after the end of the
    one before: 1 keeps them disjoint, 2 leaves a gap between them. *)
Fixpoint spaced (g lo hi : Z) (l : list extent_region) : Prop :=
  match l with
  | [] => True
  | r :: l => lo <= er_start r /\ er_start r <= er_end r /\ er_end r <= hi /\ spaced g (er_end r + g) hi l
  end.

#[export] Instance spaced_dec g lo hi l : Decision (spaced g lo hi l).
Proof. revert lo. induction l; simpl; intros; apply _. Defined.

(** The least start of a region after [l]. *)
Fixpoint next_lo (g lo : Z) (l : list extent_region) : Z :=
  match l with [] => lo | r :: l => next_lo g (er_end r + g) l end.

Lemma next_lo_snoc g lo l r : next_lo g lo (l ++ [r]) = er_end r + g.
Proof. revert lo. induction l as [|x l IH]; intros lo; simpl; auto. Qed.

Lemma spaced_app g lo hi l1 l2 :
  spaced g lo hi (l1 ++ l2) <-> spaced g lo hi l1 /\ spaced g (next_lo g lo l1) hi l2.
Proof. revert lo. induction l1 as [|x l1 IH]; intros lo; simpl; [tauto|]. rewrite IH. tauto. Qed.

Lemma spaced_mono g lo lo' hi l : lo' <= lo -> spaced g lo hi l -> spaced g lo' hi l.
Proof. destruct l; simpl; [done|]. intros. intuition lia. Qed.

Lemma next_lo_ge g lo hi l : 0 <= g -> spaced g lo hi l -> lo <= next_lo g lo l.
Proof.
  intros Hg. revert lo. induction l as [|r l IH]; intros lo; simpl; [lia|].
  intros (? & ? & ? & Hs). apply IH in Hs. lia.
Qed.

Lemma allocated_nil x : ~ allocated [] x.
Proof. unfold allocated. rewrite Exists_nil. tauto. Qed.

Lemma allocated_cons r l x : allocated (r :: l) x <-> covers r x \/ allocated l x.
Proof. apply Exists_cons. Qed.

Lemma allocated_app l1 l2 x : allocated (l1 ++ l2) x <-> allocated l1 x \/ allocated l2 x.
Proof. apply Exists_app. Qed.

(** Nothing below [lo] is covered, and nothing behind [hi]. *)
Lemma spaced_bounds g lo hi l x : 0 <= g -> spaced g lo hi l -> allocated l x -> lo <= x <= hi.
Proof.
  intros Hg. revert lo. induction l as [|r l IH]; intros lo; simpl.
  - intros _ H. by apply allocated_nil in H.
  - intros (? & ? & ? & Hs). rewrite allocated_cons. unfold covers. intros [?|Ha]; [lia|].
    specialize (IH _ Hs Ha). lia.
Qed.

(** Everything in [l] lies below what may follow it. *)
Lemma allocated_below g lo hi l x : 0 <= g -> spaced g lo hi l -> allocated l x -> x + g <= next_lo g lo l.
Proof.
  intros Hg. revert lo. induction l as [|r l IH]; intros lo; simpl.
  - intros _ H. by apply allocated_nil in H.
  - intros (? & ? & ? & Hs). rewrite allocated_cons. unfold covers. pose proof (next_lo_ge _ _ _ _ Hg Hs).
    intros [?|Ha]; [lia|eauto].
Qed.

Lemma spaced_1 g lo hi l : 1 <= g -> spaced g lo hi l -> spaced 1 lo hi l.
Proof.
  intros Hg. revert lo. induction l as [|r l IH]; intros lo; simpl; [done|].
  intros (? & ? & ? & Hs). conj; auto. apply spaced_mono with (er_end r + g); [lia|auto].
Qed.

(** A start or an end is covered. *)
Lemma covers_start r : er_start r <= er_end r -> covers r (er_start r).
Proof. unfold covers. lia. Qed.

(** * Canonical lists *)

Definition bounds (r : extent_region) : Z * Z := (er_start r, er_end r).

Lemma spaced_head g lo hi r l : 1 <= g -> spaced g lo hi (r :: l) ->
  (forall x, allocated (r :: l) x -> er_start r <= x) /\ ~ (g = 2 /\ allocated (r :: l) (er_end r + 1)).
Proof.
  intros Hg (? & ? & ? & Hs). split.
  - intros x. rewrite allocated_cons. unfold covers. intros [?|Ha]; [lia|].
    apply (spaced_bounds g (er_end r + g) hi l) in Ha; [lia|lia|done].
  - intros [-> Ha]. apply allocated_cons in Ha as [Ha|Ha]; [unfold covers in Ha; lia|].
    apply (spaced_bounds 2 (er_end r + 2) hi l) in Ha; [lia|lia|done].
Qed.

(** With gaps between the regions the list is determined by the addresses it
    covers. *)
Lemma spaced_canonical lo hi l l' :
  spaced 2 lo hi l -> spaced 2 lo hi l' -> (forall x, allocated l x <-> allocated l' x) ->
  bounds <$> l = bounds <$> l'.
Proof.
  revert lo l'. induction l as [|r l IH]; intros lo [|r' l'] Hl Hl' E.
  - done.
  - destruct Hl' as (? & ? & _). exfalso. apply (allocated_nil (er_start r')), E, allocated_cons.
    left. by apply covers_start.
  - destruct Hl as (? & ? & _). exfalso. apply (allocated_nil (er_start r)), E, allocated_cons.
    left. by apply covers_start.
  - destruct (spaced_head 2 lo hi r l) as [H1 H2]; [lia|done|].
    destruct (spaced_head 2 lo hi r' l') as [H1' H2']; [lia|done|].
    destruct Hl as (Hr1 & Hr2 & Hr3 & Hl), Hl' as (Hr1' & Hr2' & Hr3' & Hl').
    assert (Es : er_start r = er_start r').
    { apply Z.le_antisymm.
      - apply H1, E, allocated_cons. left. by apply covers_start.
      - apply H1', E, allocated_cons. left. by apply covers_start. }
    assert (Ee : er_end r = er_end r').
    { destruct (Z.lt_trichotomy (er_end r) (er_end r')) as [Hlt|[?|Hlt]]; [|done|]; exfalso.
      - apply H2. split; [done|]. apply E, allocated_cons. left. unfold covers. lia.
      - apply H2'. split; [done|]. apply E, allocated_cons. left. unfold covers. lia. }
    simpl. f_equal; [unfold bounds; congruence|]. apply (IH (er_end r + 2)); [done|by rewrite Ee|].
    intros x. specialize (E x). rewrite !allocated_cons in E. unfold covers in E. rewrite Es, Ee in E.
    pose proof (spaced_bounds 2 _ hi l x ltac:(lia) Hl) as Hb.
    pose proof (spaced_bounds 2 _ hi l' x ltac:(lia) Hl') as Hb'.
    split; intros Ha; [assert (~ er_start r' <= x <= er_end r') by (specialize (Hb Ha); lia)
      |assert (~ er_start r' <= x <= er_end r') by (specialize (Hb' Ha); lia)]; tauto.
Qed.

(** * Adding a range *)

Definition adds (l l' : list extent_region) (s e : Z) : Prop :=
  forall x, allocated l' x <-> allocated l x \/ s <= x <= e.

(** The range can go between [pre] and [post] as a region of its own ... *)
Lemma add_region g lo hi pre post s e f :
  spaced g lo hi (pre ++ post) -> next_lo g lo pre <= s -> s <= e -> e <= hi ->
  match post with [] => True | r :: _ => e + g <= er_start r end ->
  spaced g lo hi (pre ++ Region s e f :: post) /\ adds (pre ++ post) (pre ++ Region s e f :: post) s e.
Proof.
  rewrite !spaced_app. intros [Hpre Hpost] Hs He Hh Hn. split.
  - split; [done|]. simpl. conj; auto. destruct post; simpl in *; [done|]. intuition lia.
  - intros x. rewrite !allocated_app, allocated_cons. unfold covers. simpl. tauto.
Qed.

(** ... extend the last region of [pre], the first of [post], or join the two. *)
Lemma add_append g lo hi pre aft post s e f :
  spaced g lo hi (pre ++ aft :: post) -> er_end aft + 1 = s -> s <= e -> e <= hi ->
  match post with [] => True | r :: _ => e + g <= er_start r end ->
  spaced g lo hi (pre ++ Region (er_start aft) e f :: post) /\
  adds (pre ++ aft :: post) (pre ++ Region (er_start aft) e f :: post) s e.
Proof.
  rewrite !spaced_app. simpl. intros (Hpre & Ha & Hb & Hc & Hpost) Hs He Hh Hn. split.
  - conj; auto; [lia|]. destruct post; simpl in *; [done|]. intuition lia.
  - intros x. rewrite !allocated_app, !allocated_cons. unfold covers. simpl. intuition lia.
Qed.

Lemma add_prepend g lo hi pre nextr post s e f :
  spaced g lo hi (pre ++ nextr :: post) -> e + 1 = er_start nextr -> s <= e -> next_lo g lo pre <= s ->
  spaced g lo hi (pre ++ Region s (er_end nextr) f :: post) /\
  adds (pre ++ nextr :: post) (pre ++ Region s (er_end nextr) f :: post) s e.
Proof.
  rewrite !spaced_app. simpl. intros (Hpre & Ha & Hb & Hc & Hpost) Hs He Hn. split.
  - conj; auto; lia.
  - intros x. rewrite !allocated_app, !allocated_cons. unfold covers. simpl. intuition lia.
Qed.

Lemma add_join g lo hi pre aft nextr post s e f :
  spaced g lo hi (pre ++ aft :: nextr :: post) -> er_end aft + 1 = s -> e + 1 = er_start nextr -> s <= e ->
  spaced g lo hi (pre ++ Region (er_start aft) (er_end nextr) f :: post) /\
  adds (pre ++ aft :: nextr :: post) (pre ++ Region (er_start aft) (er_end nextr) f :: post) s e.
Proof.
  rewrite !spaced_app. simpl. intros (Hpre & Ha & Hb & Hc & Hd & He & Hf & Hpost) Hs Hn Hse. split.
  - conj; auto; lia.
  - intros x. rewrite !allocated_app, !allocated_cons. unfold covers. simpl. intuition lia.
Qed.

(** * Positions *)

(** The position of the last region of [pre]. *)
Definition pos_after (pre : list extent_region) : option nat :=
  match length pre with O => None | S n => Some n end.

Lemma pos_after_snoc pre r : pos_after (pre ++ [r]) = Some (length pre).
Proof. unfold pos_after. rewrite length_app. simpl. by rewrite Nat.add_1_r. Qed.

Section Middle.
Context {A : Type}.
Implicit Types (p q : list A).

Lemma lookup_mid p x q : (p ++ x :: q) !! length p = Some x.
Proof. by apply list_lookup_middle. Qed.

Lemma lookup_mid_S p x q : (p ++ x :: q) !! S (length p) = q !! 0%nat.
Proof. rewrite lookup_app_r by lia. by replace (S (length p) - length p)%nat with 1%nat by lia. Qed.

Lemma insert_mid p x y q : <[length p := y]> (p ++ x :: q) = p ++ y :: q.
Proof. rewrite insert_app_r_alt by lia. by rewrite Nat.sub_diag. Qed.

Lemma insert_mid_S p x y z q : <[S (length p) := z]> (p ++ x :: y :: q) = p ++ x :: z :: q.
Proof. rewrite insert_app_r_alt by lia. by replace (S (length p) - length p)%nat with 1%nat by lia. Qed.

Lemma delete_mid_S p x y q : delete (S (length p)) (p ++ x :: y :: q) = p ++ x :: q.
Proof. induction p as [|z p IH]; simpl; [done|]. by rewrite IH. Qed.

Lemma take_mid_S p x q : take (S (length p)) (p ++ x :: q) = p ++ [x].
Proof. rewrite take_app_ge by lia. by replace (S (length p) - length p)%nat with 1%nat by lia. Qed.

Lemma drop_mid_S p x q : drop (S (length p)) (p ++ x :: q) = q.
Proof. rewrite drop_app_ge by lia. by replace (S (length p) - length p)%nat with 1%nat by lia. Qed.
End Middle.

(** With gaps, the address behind a region is free, ... *)
Lemma spaced_behind lo hi l r : spaced 2 lo hi l -> r ∈ l -> ~ allocated l (er_end r + 1).
Proof.
  intros Hsp Hr. apply list_elem_of_split in Hr as (p & q & ->).
  apply spaced_app in Hsp as [Hp (H1 & H2 & H3 & Hq)].
  rewrite allocated_app, allocated_cons. unfold covers. intros [Ha|[Ha|Ha]]; [|lia|].
  - apply (allocated_below 2 _ _ _ _ ltac:(lia) Hp) in Ha. lia.
  - apply (spaced_bounds 2 _ _ _ _ ltac:(lia) Hq) in Ha. lia.
Qed.

(** ... so a range that is allocated throughout lies in one region. *)
Lemma spaced_one_region lo hi l s e :
  spaced 2 lo hi l -> s <= e -> (forall x, s <= x <= e -> allocated l x) ->
  Exists (fun r => er_start r <= s /\ e <= er_end r) l.
Proof.
  intros Hsp Hse Ha. pose proof (Ha s ltac:(lia)) as Hs. apply Exists_exists in Hs as (r & Hr & Hc).
  apply Exists_exists. exists r. split; [done|]. unfold covers in Hc. split; [lia|].
  destruct (Z.le_gt_cases e (er_end r)); [done|]. exfalso.
  apply (spaced_behind _ _ _ _ Hsp Hr), Ha. lia.
Qed.
