(* ===== verification/ExtentAlloc.v ===== *)
(** Region descriptors, the insertion of a region and [extent_alloc_region]. *)

From S2P Require Import Prelude Extent ExtentRegions.

(** * Flags *)

Lemma flag_lor f m n : flag (Z.lor f m) n = flag f n || flag m n.
Proof.
  unfold flag. rewrite Z.land_lor_distr_l. destruct (Z.eqb_spec (Z.land f n) 0) as [->|H].
  - by rewrite Z.lor_0_l.
  - simpl. destruct (Z.eqb_spec (Z.lor (Z.land f n) (Z.land m n)) 0) as [E|]; [|done].
    apply Z.lor_eq_0_iff in E. tauto.
Qed.

(** * The extent's constant part, and its descriptors *)

(** What no operation changes. *)
Definition same_map (ex ex' : extent) : Prop :=
  ex_name ex' = ex_name ex /\ ex_start ex' = ex_start ex /\ ex_end ex' = ex_end ex /\
  ex_mtype ex' = ex_mtype ex /\
  flag (ex_flags ex') EXF_FIXED = flag (ex_flags ex) EXF_FIXED /\
  flag (ex_flags ex') EXF_NOCOALESCE = flag (ex_flags ex) EXF_NOCOALESCE.

#[export] Instance same_map_preorder : PreOrder same_map.
Proof. split; unfold same_map; [done|]. intros x y z. intuition congruence. Qed.

(** Descriptors in the extent, less those drawn from the pool. *)
Definition descs (w : world) : Z :=
  Z.of_nat (length (ex_regions (w_ex w))) + Z.of_nat (length (fex_freelist (w_ex w))) - w_pool w.

(** [extent_free_region_descriptor] gives the descriptor back and touches
    neither the regions nor the constant part. *)
Lemma free_desc rp w :
  let w' := extent_free_region_descriptor rp w in
  ex_regions (w_ex w') = ex_regions (w_ex w) /\ same_map (w_ex w) (w_ex w') /\ descs w' = descs w + 1 /\
  flag (ex_flags (w_ex w')) EXF_WANTED = flag (ex_flags (w_ex w)) EXF_WANTED.
Proof.
  unfold extent_free_region_descriptor, descs, same_map, wake_em_up, with_ex, set_flags, set_freelist.
  destruct (flag (ex_flags (w_ex w)) EXF_FIXED) eqn:Hf; [destruct (flag (er_flags rp) ER_ALLOC)|];
    try destruct (flag (ex_flags (w_ex w)) EXF_FLWANTED); cbn -[flag Z.of_nat];
    rewrite ?flag_clear by done; conj; (done || lia).
Qed.

Lemma set_regions_same ex l : same_map ex (set_regions ex l).
Proof. by unfold same_map. Qed.

Lemma set_wanted_same ex : same_map ex (set_flags ex (Z.lor (ex_flags ex) EXF_WANTED)).
Proof. unfold same_map. simpl. rewrite !flag_lor. rewrite !orb_false_r. done. Qed.

Lemma set_flwanted_same ex : same_map ex (set_flags ex (Z.lor (ex_flags ex) EXF_FLWANTED)).
Proof. unfold same_map. simpl. rewrite !flag_lor. rewrite !orb_false_r. done. Qed.
#[export] Hint Resolve set_regions_same set_wanted_same set_flwanted_same : kernel.

(** * The invariant *)

Definition gap (ex : extent) : Z := if flag (ex_flags ex) EXF_NOCOALESCE then 1 else 2.

(** The regions are inside the extent, sorted and disjoint; and with
    coalescing no two of them touch. *)
Definition extent_ok {a : arch} (ex : extent) : Prop :=
  0 <= ex_start ex /\ ex_start ex <= ex_end ex /\ ex_end ex < 2 ^ long_bits /\
  spaced (gap ex) (ex_start ex) (ex_end ex) (ex_regions ex).

#[export] Instance extent_ok_dec {a : arch} ex : Decision (extent_ok ex).
Proof. unfold extent_ok. apply _. Defined.

Lemma same_map_gap ex ex' : same_map ex ex' -> gap ex' = gap ex.
Proof. unfold same_map, gap. by intros (_ & _ & _ & _ & _ & ->). Qed.

Lemma gap_range ex : 1 <= gap ex <= 2.
Proof. unfold gap. destruct (flag _ _); lia. Qed.

(** Goals on the size of the gap. *)
Ltac gaps := match goal with |- context [gap ?ex] => pose proof (gap_range ex); lia end.

Lemma extent_ok_same {a : arch} ex ex' :
  extent_ok ex -> same_map ex ex' -> ex_regions ex' = ex_regions ex -> extent_ok ex'.
Proof.
  intros (H1 & H2 & H3 & H4) Hs E. pose proof (same_map_gap _ _ Hs) as Eg.
  destruct Hs as (_ & Es & Ee & _). unfold extent_ok. rewrite Eg, Es, Ee, E. done.
Qed.

(** [ex'] is [ex] with [start .. endd] added, which was free. *)
Definition grants {a : arch} (start endd : Z) (ex ex' : extent) : Prop :=
  extent_ok ex' /\ same_map ex ex' /\
  (forall x, start <= x <= endd -> ~ allocated (ex_regions ex) x) /\
  (forall x, allocated (ex_regions ex') x <-> allocated (ex_regions ex) x \/ start <= x <= endd).

(** * Inserting *)

Section Arch.
Context {a : arch}.

(** What an insertion leaves: the range added, one descriptor consumed. *)
Definition inserted (start endd : Z) (w w' : world) : Prop :=
  spaced (gap (w_ex w)) (ex_start (w_ex w)) (ex_end (w_ex w)) (ex_regions (w_ex w')) /\
  adds (ex_regions (w_ex w)) (ex_regions (w_ex w')) start endd /\
  same_map (w_ex w) (w_ex w') /\ descs w' = descs w + 1.

Lemma inserted_freed start endd w l rp n :
  spaced (gap (w_ex w)) (ex_start (w_ex w)) (ex_end (w_ex w)) l /\ adds (ex_regions (w_ex w)) l start endd ->
  Z.of_nat (length l) = Z.of_nat (length (ex_regions (w_ex w))) - n ->
  let w1 := with_ex w (set_regions (w_ex w) l) in
  (n = 0 -> inserted start endd w (extent_free_region_descriptor rp w1)) /\
  (n = 1 -> forall r2, inserted start endd w (extent_free_region_descriptor rp (extent_free_region_descriptor r2 w1))).
Proof.
  intros [Hs Ha] Hl w1. split; [intros ->|intros -> r2].
  - destruct (free_desc rp w1) as (E1 & E2 & E3 & _). unfold inserted. rewrite E1, E3.
    conj; [done|done|by rewrite <- E2|]. unfold descs. simpl. lia.
  - destruct (free_desc r2 w1) as (E1 & E2 & E3 & _).
    destruct (free_desc rp (extent_free_region_descriptor r2 w1)) as (F1 & F2 & F3 & _).
    unfold inserted. rewrite F1, E1, F3, E3. conj; [done|done|by rewrite <- F2, <- E2|].
    unfold descs. simpl. lia.
Qed.

Lemma inserted_new start endd w l :
  spaced (gap (w_ex w)) (ex_start (w_ex w)) (ex_end (w_ex w)) l /\ adds (ex_regions (w_ex w)) l start endd ->
  Z.of_nat (length l) = Z.of_nat (length (ex_regions (w_ex w))) + 1 ->
  inserted start endd w (with_ex w (set_regions (w_ex w) l)).
Proof.
  intros [Hs Ha] Hl. unfold inserted. conj; [done|done|apply set_regions_same|]. unfold descs. simpl. lia.
Qed.

Lemma insert_first start size rp w :
  extent_ok (w_ex w) -> ex_start (w_ex w) <= start -> 1 <= size -> start + size - 1 <= ex_end (w_ex w) ->
  match ex_regions (w_ex w) with [] => True | r :: _ => start + size <= er_start r end ->
  exists w', extent_insert_and_optimize start size None rp w = Ret w' /\ inserted start (start + size - 1) w w'.
Proof.
  intros (H0 & H1 & H2 & Hsp) Hs Hz He Hpost. unfold extent_insert_and_optimize.
  rewrite (ulong_small (size - 1)), ulong_small by (split; lia).
  replace (start + (size - 1)) with (start + size - 1) by lia.
  pose proof (add_region (gap (w_ex w)) (ex_start (w_ex w)) (ex_end (w_ex w)) [] (ex_regions (w_ex w))
    start (start + size - 1) (er_flags rp)) as Hnew. simpl app in Hnew.
  destruct (ex_regions (w_ex w)) as [|first rest] eqn:El.
  { eexists; split; [done|]. apply inserted_new; rewrite El; [|done]. apply Hnew; simpl; auto; lia. }
  pose proof Hsp as (Hp1 & Hp2 & Hp3 & _). rewrite ulong_small by (split; lia).
  destruct (negb (flag _ _) && (start + size =? er_start first)) eqn:Eb.
  - boolify. eexists; split; [done|]. eapply inserted_freed with (n := 0); [rewrite El|rewrite El; simpl; lia|done].
    apply (add_prepend _ _ _ []); simpl; auto; lia.
  - eexists; split; [done|]. apply inserted_new; rewrite El; [|simpl; lia].
    apply Hnew; simpl; auto; try lia. unfold gap. destruct (flag _ _); [lia|]. simpl in Eb. boolify. lia.
Qed.

Lemma insert_after start size pre aft post rp w :
  extent_ok (w_ex w) -> ex_regions (w_ex w) = pre ++ aft :: post ->
  er_end aft < start -> 1 <= size -> start + size - 1 <= ex_end (w_ex w) ->
  match post with [] => True | r :: _ => start + size <= er_start r end ->
  exists w', extent_insert_and_optimize start size (Some (length pre)) rp w = Ret w' /\
    inserted start (start + size - 1) w w'.
Proof.
  intros (H0 & H1 & H2 & Hsp) El Hs Hz He Hpost. unfold extent_insert_and_optimize. rewrite El in *.
  assert (Haft : ex_start (w_ex w) <= er_start aft <= er_end aft).
  { apply spaced_app in Hsp as [Hp (? & ? & _)]. apply next_lo_ge in Hp; [lia|gaps]. }
  rewrite lookup_mid, lookup_mid_S, take_mid_S, drop_mid_S, insert_mid.
  rewrite (ulong_small (size - 1)), (ulong_small (start + (size - 1))), (ulong_small (er_end aft + 1))
    by (split; lia). replace (start + (size - 1)) with (start + size - 1) by lia.
  pose proof (gap_range (w_ex w)) as Hg. rewrite <- app_assoc. simpl app.
  assert (Hcant : (gap (w_ex w) = 2 -> er_end aft + 1 <> start) ->
    match post with [] => True | r :: _ => start + size - 1 + gap (w_ex w) <= er_start r end ->
    inserted start (start + size - 1) w (with_ex w (set_regions (w_ex w)
      (pre ++ aft :: Region start (start + size - 1) (er_flags rp) :: post)))).
  { intros Hne Hnx. apply inserted_new; rewrite El.
    - pose proof (add_region (gap (w_ex w)) (ex_start (w_ex w)) (ex_end (w_ex w)) (pre ++ [aft]) post
        start (start + size - 1) (er_flags rp)) as Hnew. rewrite <- !app_assoc in Hnew. simpl app in Hnew.
      apply Hnew; [done| |lia|lia|done]. rewrite next_lo_snoc. lia.
    - rewrite !length_app. simpl. lia. }
  destruct (flag (ex_flags (w_ex w)) EXF_NOCOALESCE) eqn:Hnc; cbn [negb];
    [assert (Eg : gap (w_ex w) = 1) by (unfold gap; by rewrite Hnc)
    |assert (Eg : gap (w_ex w) = 2) by (unfold gap; by rewrite Hnc)].
  { eexists; split; [done|]. apply Hcant; [lia|]. destruct post; [done|lia]. }
  assert (Hlone : match post with [] => True | r :: _ => start + size <> er_start r end ->
    exists w', (if er_end aft + 1 =? start
      then Ret (extent_free_region_descriptor rp (with_ex w (set_regions (w_ex w)
        (pre ++ (if er_end aft + 1 =? start then Region (er_start aft) (start + size - 1) (er_flags aft) else aft) :: post))))
      else Ret (with_ex w (set_regions (w_ex w) (pre ++ aft :: Region start (start + size - 1) (er_flags rp) :: post)))) = Ret w' /\
      inserted start (start + size - 1) w w').
  { intros Hne. destruct (Z.eqb_spec (er_end aft + 1) start) as [Ea|Ea]; (eexists; split; [done|]).
    - eapply inserted_freed with (n := 0); [rewrite El|rewrite El, !length_app; simpl; lia|done].
      apply add_append; [done|done|lia|lia|]. destruct post; [done|lia].
    - apply Hcant; [done|]. destruct post; [done|lia]. }
  destruct post as [|nextr post]; [by apply Hlone|]. simpl lookup.
  rewrite (ulong_small (start + size)) by
    (apply spaced_app in Hsp as [_ (_ & _ & _ & ? & ? & ? & _)]; split; lia).
  destruct (Z.eqb_spec (start + size) (er_start nextr)) as [En|En]; [|by apply Hlone].
  destruct (Z.eqb_spec (er_end aft + 1) start) as [Ea|Ea].
  - rewrite insert_mid, delete_mid_S. cbn [er_start er_flags]. eexists; split; [done|].
    eapply inserted_freed with (n := 1); [rewrite El|rewrite El, !length_app; simpl; lia|done].
    apply add_join; [done|done|lia|lia].
  - rewrite insert_mid_S. eexists; split; [done|].
    eapply inserted_freed with (n := 0); [rewrite El|rewrite El, !length_app; simpl; lia|done].
    pose proof (add_prepend 2 (ex_start (w_ex w)) (ex_end (w_ex w)) (pre ++ [aft]) nextr post
      start (start + size - 1) (er_flags nextr)) as Hp. rewrite <- !app_assoc in Hp. simpl app in Hp.
    rewrite Eg in *. apply Hp; [done|lia|lia|]. rewrite next_lo_snoc. lia.
Qed.

(** Inserting between [pre], which ends before the range, and [post], which
    starts behind it. *)
Lemma insert_between start size pre post rp w :
  extent_ok (w_ex w) -> ex_regions (w_ex w) = pre ++ post ->
  ex_start (w_ex w) <= start -> 1 <= size -> start + size - 1 <= ex_end (w_ex w) ->
  next_lo 1 (ex_start (w_ex w)) pre <= start ->
  match post with [] => True | r :: _ => start + size <= er_start r end ->
  exists w', extent_insert_and_optimize start size (pos_after pre) rp w = Ret w' /\
    inserted start (start + size - 1) w w' /\ grants start (start + size - 1) (w_ex w) (w_ex w').
Proof.
  intros Hok El Hs Hz He Hpre Hpost.
  enough (exists w', extent_insert_and_optimize start size (pos_after pre) rp w = Ret w' /\
    inserted start (start + size - 1) w w') as (w' & Hw & Hi).
  { exists w'. conj; auto. destruct Hi as (Hsp & Ha & Hm & _). pose proof (same_map_gap _ _ Hm) as Hg.
    unfold grants. destruct (Hok) as (? & ? & ? & Hsp0). conj; auto.
    - unfold extent_ok. rewrite Hg. destruct Hm as (_ & -> & -> & _). done.
    - intros x Hx. rewrite El. rewrite El in Hsp0. apply (spaced_1 (gap (w_ex w))) in Hsp0; [|gaps].
      apply spaced_app in Hsp0 as [Hsp1 Hsp2]. rewrite allocated_app. intros [Hx'|Hx'].
      + apply (allocated_below 1 _ _ _ _ ltac:(lia) Hsp1) in Hx'. lia.
      + destruct post as [|r post]; [by apply allocated_nil in Hx'|].
        apply (proj1 (spaced_head _ _ _ _ _ (Z.le_refl 1) Hsp2)) in Hx'. lia. }
  destruct pre as [|aft pre _] using rev_ind.
  - apply insert_first; auto. by rewrite El.
  - rewrite pos_after_snoc, next_lo_snoc in *. rewrite <- app_assoc in El.
    apply insert_after with aft post; auto; lia.
Qed.

(** * Descriptors, with and without sleeping *)

(** Other threads keep the invariant and the constant part. *)
Definition friendly (e : event) : Prop :=
  forall ex, extent_ok ex -> extent_ok (ev_others e ex) /\ same_map ex (ev_others e ex).

(** A call returns with [P], or is still asleep. *)
Definition awaits {A} (m : outcome A) (P : A -> Prop) : Prop :=
  match m with Ret r => P r | Spin => True | _ => False end.

Lemma awaits_bind {A B} (m : outcome A) (k : A -> outcome B) P Q :
  awaits m P -> (forall r, P r -> awaits (k r) Q) -> awaits (bind m k) Q.
Proof. destruct m; simpl; auto. Qed.

(** The extent after a call in which other threads may have run. *)
Definition kept (ex ex' : extent) : Prop := extent_ok ex' /\ same_map ex ex'.

Lemma kept_friendly e ex : friendly e -> extent_ok ex -> kept ex (ev_others e ex).
Proof. intros He Hok. by apply He. Qed.

Lemma kept_refl ex : extent_ok ex -> kept ex ex.
Proof. by split. Qed.

Lemma kept_trans ex1 ex2 ex3 : same_map ex1 ex2 -> kept ex2 ex3 -> kept ex1 ex3.
Proof. intros H [H1 H2]. split; [done|]. by rewrite H. Qed.

Lemma wait_freelist_awaits flags ex evs :
  extent_ok ex -> Forall friendly evs ->
  awaits (wait_freelist flags ex evs) (fun '(r, ex', evs') =>
    kept ex ex' /\ Forall friendly evs' /\ (r = Ready -> fex_freelist ex' <> [])).
Proof.
  revert ex. induction evs as [|e evs IH]; intros ex Hok Hevs; simpl.
  all: destruct (fex_freelist ex) eqn:Hf; [|simpl; rewrite Hf; auto using kept_refl].
  all: destruct (flag flags EX_MALLOCOK); [by simpl; auto using kept_refl|].
  all: destruct (negb (flag flags EX_WAITOK)); [by simpl; auto using kept_refl|].
  { done. }
  apply Forall_cons in Hevs as [He Hevs].
  assert (Hok' : extent_ok (set_flags ex (Z.lor (ex_flags ex) EXF_FLWANTED)))
    by (eapply extent_ok_same; [done|apply set_flwanted_same|done]).
  pose proof (kept_trans _ _ _ (set_flwanted_same ex) (kept_friendly e _ He Hok')) as Hk.
  destruct (negb (ev_error e =? 0)); [done|]. specialize (IH _ (proj1 Hk) Hevs).
  destruct (wait_freelist _ _ _) as [[[r ex'] evs']| | |]; try done. destruct IH as (Hk' & Hevs' & Hr).
  simpl. conj; auto. eapply kept_trans; [apply Hk|done].
Qed.

Lemma alloc_desc_awaits flags w evs :
  extent_ok (w_ex w) -> Forall friendly evs ->
  awaits (extent_alloc_region_descriptor flags w evs) (fun '(_, w', evs') =>
    kept (w_ex w) (w_ex w') /\ Forall friendly evs').
Proof.
  intros Hok Hevs. unfold extent_alloc_region_descriptor.
  apply awaits_bind with (fun '(r, ex', evs') =>
    kept (w_ex w) ex' /\ Forall friendly evs' /\ (r = Ready -> fex_freelist ex' <> [])).
  { destruct (flag _ EXF_FIXED); [by apply wait_freelist_awaits|by simpl; auto using kept_refl]. }
  intros [[[| |] ex'] evs'] (Hk & Hevs' & Hr).
  - unfold pool_get. destruct evs' as [|e evs']; [done|]. apply Forall_cons in Hevs' as [He Hevs'].
    destruct (flag flags EX_WAITOK); simpl.
    + split; [|done]. destruct Hk as [Hk1 Hk2]. eapply kept_trans; [done|]. by apply kept_friendly.
    + destruct (ev_error e =? 0); simpl; auto.
  - simpl. auto.
  - simpl. destruct (fex_freelist ex') eqn:Hf; [by destruct Hr|]. split; [|done].
    destruct Hk as [Hk1 Hk2]. split; [by apply (extent_ok_same ex')|done].
Qed.

(** A call that may not sleep gets a descriptor or finds none, and changes
    nothing else. *)
Lemma alloc_desc_nowait flags w evs :
  flag flags EX_WAITOK = false -> evs <> [] ->
  exists r w' evs', extent_alloc_region_descriptor flags w evs = Ret (r, w', evs') /\
    ex_regions (w_ex w') = ex_regions (w_ex w) /\ same_map (w_ex w) (w_ex w') /\
    (ex_flags (w_ex w') = ex_flags (w_ex w)) /\
    match r with None => w' = w | Some _ => descs w' = descs w - 1 end.
Proof.
  intros Hw Hevs. destruct evs as [|e evs]; [done|].
  unfold extent_alloc_region_descriptor, pool_get. destruct w as [ex pool wk]. simpl w_ex.
  assert (Hpool : exists r w' evs', (let! (rp, w, evs) := pool_get flags (World ex pool wk) (e :: evs) in
      Ret ((fun rp => Region (er_start rp) (er_end rp) ER_ALLOC) <$> rp, w, evs)) = Ret (r, w', evs') /\
    ex_regions (w_ex w') = ex_regions ex /\ same_map ex (w_ex w') /\ ex_flags (w_ex w') = ex_flags ex /\
    match r with None => w' = World ex pool wk | Some _ => descs w' = descs (World ex pool wk) - 1 end).
  { unfold pool_get. rewrite Hw. destruct (ev_error e =? 0); simpl; eexists _, _, _; (split; [done|]);
      conj; try done. unfold descs. simpl. lia. }
  destruct (flag (ex_flags ex) EXF_FIXED); cbn [wait_freelist bind]; [|apply Hpool].
  destruct (fex_freelist ex) as [|rp fl] eqn:Hf; simpl; rewrite ?Hf.
  - destruct (flag flags EX_MALLOCOK); [apply Hpool|]. rewrite Hw. simpl. eexists _, _, _; split; [done|]. done.
  - eexists _, _, _; split; [done|]. conj; try done. unfold descs. simpl. rewrite Hf. simpl. lia.
Qed.

(** * [extent_alloc_region] *)

Lemma region_search_spec l start endd pre lo hi :
  start <= endd -> spaced 1 (next_lo 1 lo pre) hi l -> next_lo 1 lo pre <= start \/ pre = [] ->
  match region_search l (length pre) (pos_after pre) start endd with
  | Conflict => exists x, start <= x <= endd /\ allocated l x
  | PlaceAfter last => exists p q, pre ++ l = p ++ q /\ last = pos_after p /\
      (next_lo 1 lo p <= start \/ p = []) /\ match q with [] => True | r :: _ => endd < er_start r end
  end.
Proof.
  revert pre. induction l as [|rp l IH]; intros pre Hse Hsp Hpre; simpl.
  - exists pre, []. done.
  - destruct Hsp as (H1 & H2 & H3 & Hsp). destruct (Z.ltb_spec endd (er_start rp)).
    { exists pre, (rp :: l). done. }
    destruct (Z.leb_spec start (er_end rp)).
    { exists (Z.max start (er_start rp)). split; [lia|]. apply allocated_cons. left. unfold covers. lia. }
    specialize (IH (pre ++ [rp])). rewrite length_app, pos_after_snoc, next_lo_snoc in IH.
    simpl length in IH. rewrite Nat.add_1_r in IH. specialize (IH Hse Hsp ltac:(lia)).
    destruct (region_search _ _ _ _ _).
    + destruct IH as (x & Hx & Ha). exists x. split; [done|]. apply allocated_cons. by right.
    + destruct IH as (p & q & E & IH). exists p, q. by rewrite <- app_assoc in E.
Qed.

(** Where the search finds room the insertion takes it, otherwise an address of
    the range is taken. *)
Lemma region_place start size myrp w :
  extent_ok (w_ex w) -> ex_start (w_ex w) <= start -> 1 <= size -> start + size - 1 <= ex_end (w_ex w) ->
  match region_search (ex_regions (w_ex w)) 0 None start (start + size - 1) with
  | Conflict => exists x, start <= x <= start + size - 1 /\ allocated (ex_regions (w_ex w)) x
  | PlaceAfter last => exists w', extent_insert_and_optimize start size last myrp w = Ret w' /\
      inserted start (start + size - 1) w w' /\ grants start (start + size - 1) (w_ex w) (w_ex w')
  end.
Proof.
  intros Hok Hs Hz He. destruct (Hok) as (H0 & H1 & H2 & Hsp).
  pose proof (region_search_spec (ex_regions (w_ex w)) start (start + size - 1) [] (ex_start (w_ex w))
    (ex_end (w_ex w))) as Hr. simpl in Hr.
  destruct (region_search _ _ _ _ _); (destruct Hr as (x & Hr); [lia|eapply spaced_1; [|done]; gaps|lia|]);
    [by exists x|]. destruct Hr as (post & E & -> & Hpre & Hpost).
  apply insert_between with post; auto; [|destruct post; [done|lia]].
  destruct Hpre as [Hp| ->]; [done|simpl; lia].
Qed.
End Arch.
