(* ===== verification/ExtentFree.v ===== *)
(** [extent_free]: which request it accepts and what it leaves. *)

From S2P Require Import Prelude Extent ExtentRegions ExtentAlloc.

(** The region a request can be freed from: without coalescing only its own. *)
Definition fits_in (nocoalesce : bool) (start endd : Z) (r : extent_region) : Prop :=
  if nocoalesce then er_start r = start /\ er_end r = endd
  else er_start r <= start /\ endd <= er_end r.

#[export] Instance fits_in_dec nc s e r : Decision (fits_in nc s e r).
Proof. destruct nc; simpl; apply _. Defined.

Definition removes (l l' : list extent_region) (s e : Z) : Prop :=
  forall x, allocated l' x <-> allocated l x /\ ~ s <= x <= e.

Section Arch.
Context {a : arch}.

(** * The search *)

Lemma free_search_skip nc nrp start endd before p l :
  Forall (fun r => er_end r < start) p ->
  free_search nc nrp start endd before (p ++ l) = free_search nc nrp start endd (before ++ p) l.
Proof.
  revert before. induction p as [|r p IH]; intros before Hp; simpl; [by rewrite app_nil_r|].
  apply Forall_cons in Hp as [Hr Hp]. destruct (Z.ltb_spec (er_end r) start); [|lia].
  rewrite IH by done. by rewrite <- app_assoc.
Qed.

Lemma free_search_miss nc nrp start endd before l :
  Forall (fun r => ~ fits_in nc start endd r) l -> start <= endd ->
  free_search nc nrp start endd before l = NotFound.
Proof.
  intros Hl Hse. revert before. induction Hl as [|r l Hr Hl IH]; intros before; simpl; [done|].
  rewrite !IH. destruct (Z.ltb_spec (er_end r) start); [done|].
  destruct (Z.ltb_spec endd (er_start r)); [done|]. unfold fits_in in Hr.
  destruct (Z.eqb_spec start (er_start r)), (Z.eqb_spec endd (er_end r)), nc; cbn [andb]; try lia; try done.
  all: destruct (Z.ltb_spec endd (er_end r)), (Z.ltb_spec (er_start r) start); cbn [andb]; try lia; done.
Qed.

(** What is left of the region [r]; the right part has the flags [f]. *)
Definition cut (start endd : Z) (r : extent_region) (f : Z) : list extent_region :=
  (if er_start r =? start then [] else [Region (er_start r) (start - 1) (er_flags r)]) ++
  (if er_end r =? endd then [] else [Region (endd + 1) (er_end r) f]).

Lemma cut_ok g lo hi pre r post start endd f :
  1 <= g <= 2 -> spaced g lo hi (pre ++ r :: post) -> er_start r <= start -> start <= endd -> endd <= er_end r ->
  spaced g lo hi (pre ++ cut start endd r f ++ post) /\
  removes (pre ++ r :: post) (pre ++ cut start endd r f ++ post) start endd.
Proof.
  intros Hg Hsp H1 H2 H3. apply spaced_app in Hsp as [Hpre Hr]. pose proof Hr as (R1 & R2 & R3 & Hpost). split.
  - apply spaced_app. split; [done|]. unfold cut.
    destruct (Z.eqb_spec (er_start r) start), (Z.eqb_spec (er_end r) endd); simpl; conj; auto; try lia.
    apply spaced_mono with (er_end r + g); [lia|done]. apply spaced_mono with (er_end r + g); [lia|done].
  - intros x. rewrite !allocated_app, !allocated_cons.
    pose proof (allocated_below g lo hi pre x ltac:(lia) Hpre) as Hb.
    pose proof (spaced_bounds g _ hi post x ltac:(lia) Hpost) as Ha. unfold covers, cut.
    destruct (Z.eqb_spec (er_start r) start), (Z.eqb_spec (er_end r) endd); simpl;
      rewrite ?allocated_cons; unfold covers; simpl; pose proof (allocated_nil x);
      destruct (decide (allocated pre x)), (decide (allocated post x)); intuition lia.
Qed.

(** The region that fits is found, and cut. *)
Lemma free_search_hit (nc : bool) nrp start endd before r l :
  fits_in nc start endd r -> 0 <= er_start r -> er_end r < 2 ^ long_bits -> start <= endd ->
  (nc = false -> is_Some nrp) ->
  exists unlinked used f, free_search nc nrp start endd before (r :: l) =
    Freed (before ++ cut start endd r f ++ l) unlinked used /\
    length (cut start endd r f) =
      match unlinked, used with Some _, _ => 0%nat | None, true => 2%nat | None, false => 1%nat end /\
    (used = true -> unlinked = None /\ is_Some nrp).
Proof.
  intros Hf H0 Hmax Hse Hnrp. simpl. unfold cut.
  destruct (Z.ltb_spec (er_end r) start); [destruct nc; unfold fits_in in Hf; lia|].
  destruct (Z.ltb_spec endd (er_start r)); [destruct nc; unfold fits_in in Hf; lia|].
  rewrite (Z.eqb_sym start), (Z.eqb_sym endd).
  destruct (Z.eqb_spec (er_start r) start) as [Es|Es], (Z.eqb_spec (er_end r) endd) as [Ee|Ee]; cbn [andb].
  { by exists (Some r), false, 0. }
  all: destruct nc; unfold fits_in in Hf; [lia|]; destruct (Hnrp eq_refl) as [n ->].
  all: rewrite ?(ulong_small (endd + 1)), ?(ulong_small (start - 1)) by (split; lia).
  all: destruct (Z.ltb_spec endd (er_end r)), (Z.ltb_spec (er_start r) start); try lia; cbn [andb].
  - by exists None, false, (er_flags r).
  - by exists None, false, 0.
  - exists None, true, (er_flags n). done.
Qed.

(** * What is left *)

(** [ex'] is [ex] with [start .. endd], which was allocated, given back. *)
Definition releases (start endd : Z) (ex ex' : extent) : Prop :=
  extent_ok ex' /\ same_map ex ex' /\
  (forall x, start <= x <= endd -> allocated (ex_regions ex) x) /\
  removes (ex_regions ex) (ex_regions ex') start endd.

(** Enough to accept a request: a region it fits in. *)
Lemma free_found nc nrp start endd ex :
  extent_ok ex -> start <= endd -> (nc = false -> is_Some nrp) ->
  Exists (fits_in nc start endd) (ex_regions ex) ->
  exists l unlinked used, free_search nc nrp start endd [] (ex_regions ex) = Freed l unlinked used /\
    spaced (gap ex) (ex_start ex) (ex_end ex) l /\ removes (ex_regions ex) l start endd /\
    (forall x, start <= x <= endd -> allocated (ex_regions ex) x) /\
    Z.of_nat (length l) = Z.of_nat (length (ex_regions ex)) +
      match unlinked, used with Some _, _ => -1 | None, true => 1 | None, false => 0 end /\
    (used = true -> unlinked = None /\ is_Some nrp).
Proof.
  intros (H0 & H1 & H2 & Hsp) Hse Hnrp He. apply Exists_exists in He as (r & Hr & Hf).
  apply list_elem_of_split in Hr as (p & q & El). rewrite El in *.
  assert (Hfr : er_start r <= start /\ endd <= er_end r) by (destruct nc; unfold fits_in in Hf; lia).
  pose proof Hsp as Hsp'. apply spaced_app in Hsp' as [Hp Hq]. pose proof Hq as (Q1 & Q2 & Q3 & _).
  pose proof (next_lo_ge (gap ex) _ _ _ ltac:(gaps) Hp).
  rewrite free_search_skip by (apply Forall_forall; intros x Hx;
    assert (er_start x <= er_end x) by (apply list_elem_of_split in Hx as (p1 & p2 & ->);
      apply spaced_app in Hp as [_ (_ & ? & _)]; lia);
    assert (Ha : allocated p (er_end x)) by (apply Exists_exists; exists x; split; [done|unfold covers; lia]);
    apply (allocated_below (gap ex) _ _ _ _ ltac:(gaps) Hp) in Ha; pose proof (gap_range ex); lia).
  destruct (free_search_hit nc nrp start endd ([] ++ p) r q) as (unl & used & f & -> & Hlen & Hu);
    [done|lia|lia|done|done|]. exists (p ++ cut start endd r f ++ q), unl, used.
  destruct (cut_ok (gap ex) (ex_start ex) (ex_end ex) p r q start endd f) as [Hs Hm];
    [apply gap_range|done|lia|lia|lia|]. conj; auto.
  - intros x Hx. apply allocated_app. right. apply allocated_cons. left. unfold covers. lia.
  - rewrite !length_app, Hlen. simpl. destruct unl, used; lia.
Qed.

(** [done] gives a spare descriptor back and wakes whoever waits for space. *)
Lemma free_done_spec nrp w :
  let w' := free_done nrp w in
  ex_regions (w_ex w') = ex_regions (w_ex w) /\ same_map (w_ex w) (w_ex w') /\
  descs w' = descs w + (match nrp with Some _ => 1 | None => 0 end) /\
  flag (ex_flags (w_ex w')) EXF_WANTED = false /\
  (flag (ex_flags (w_ex w)) EXF_WANTED = true -> last (w_wakeups w') = Some ChanExtent).
Proof.
  unfold free_done.
  set (w1 := match nrp with Some _ => _ | None => w end).
  assert (ex_regions (w_ex w1) = ex_regions (w_ex w) /\ same_map (w_ex w) (w_ex w1) /\
    descs w1 = descs w + (match nrp with Some _ => 1 | None => 0 end) /\
    flag (ex_flags (w_ex w1)) EXF_WANTED = flag (ex_flags (w_ex w)) EXF_WANTED) as (E1 & E2 & E3 & E4).
  { unfold w1. destruct nrp; [apply free_desc|]. conj; try done. lia. }
  clearbody w1. destruct (flag (ex_flags (w_ex w1)) EXF_WANTED) eqn:Hw.
  - simpl. conj; [done| |done|apply flag_cleared|by rewrite last_snoc].
    rewrite E2. unfold same_map. simpl. rewrite !flag_clear by done. done.
  - conj; [done..|]. congruence.
Qed.
End Arch.
