(* ===== verification/ExtentSpec.v ===== *)
(** The contract of the extent manager: an extent is a set of allocated
    addresses; [extent_alloc_region] adds a free range, [extent_free] takes an
    allocated one away, and no region descriptor is lost. *)

From S2P Require Import Prelude Extent ExtentRegions ExtentAlloc ExtentFree.

(** The requests [extent_free] accepts: allocated throughout, or, without
    coalescing, one of the regions. *)
Definition freeable (ex : extent) (start endd : Z) : Prop :=
  if flag (ex_flags ex) EXF_NOCOALESCE then (start, endd) ∈ (bounds <$> ex_regions ex)
  else forall x, start <= x <= endd -> allocated (ex_regions ex) x.

Section Arch.
Context {a : arch}.

Lemma freeable_fits ex start endd :
  extent_ok ex -> start <= endd ->
  freeable ex start endd <-> Exists (fits_in (flag (ex_flags ex) EXF_NOCOALESCE) start endd) (ex_regions ex).
Proof.
  intros (_ & _ & _ & Hsp) Hse. unfold freeable, fits_in, gap in *. destruct (flag _ _).
  - rewrite list_elem_of_fmap, Exists_exists. unfold bounds. split.
    + intros (r & E & Hr). exists r. simplify_eq. done.
    + intros (r & Hr & <- & <-). by exists r.
  - split; [by apply (spaced_one_region (ex_start ex) (ex_end ex))|]. rewrite Exists_exists.
    intros (r & Hr & H1 & H2) x Hx. apply Exists_exists. exists r. split; [done|]. unfold covers. lia.
Qed.

(** A valid range of the extent. *)
Definition range_ok (ex : extent) (start size : Z) : Prop :=
  ex_start ex <= start /\ 1 <= size /\ start + size - 1 <= ex_end ex.

Lemma range_end ex start size :
  extent_ok ex -> range_ok ex start size -> ulong (start + ulong (size - 1)) = start + size - 1.
Proof.
  intros (H0 & H1 & H2 & _) (? & ? & ?). rewrite (ulong_small (size - 1)) by (split; lia).
  rewrite ulong_small by (split; lia). lia.
Qed.

(** The argument checks pass. *)
Lemma alloc_region_checked diag start size flags w evs :
  extent_ok (w_ex w) -> range_ok (w_ex w) start size ->
  extent_alloc_region diag start size flags w evs =
    (let! (myrp, w, evs) := extent_alloc_region_descriptor flags w evs in
     match myrp with
     | None => Ret (ENOMEM, w, evs)
     | Some myrp => alloc_region_start start size (start + size - 1) flags myrp w evs
     end).
Proof.
  intros Hok Hr. unfold extent_alloc_region. rewrite (range_end (w_ex w)) by done.
  destruct Hr as (? & ? & ?). destruct (Z.ltb_spec size 1); [lia|].
  destruct (Z.ltb_spec (start + size - 1) start); [lia|]. rewrite !andb_false_r.
  destruct (Z.ltb_spec start (ex_start (w_ex w))); [lia|].
  by destruct (Z.ltb_spec (ex_end (w_ex w)) (start + size - 1)); [lia|].
Qed.

Lemma alloc_region_start_eq start size endd flags myrp w evs :
  alloc_region_start start size endd flags myrp w evs =
  match region_search (ex_regions (w_ex w)) 0 None start endd with
  | PlaceAfter last =>
      let! w := extent_insert_and_optimize start size last myrp w in Ret (0, w, evs)
  | Conflict =>
      if flag flags EX_WAITSPACE then
        let ex := set_flags (w_ex w) (Z.lor (ex_flags (w_ex w)) EXF_WANTED) in
        match evs with
        | [] => Spin
        | e :: evs =>
            let w := with_ex w (ev_others e ex) in
            if negb (ev_error e =? 0) then Ret (ev_error e, w, evs)
            else alloc_region_start start size endd flags myrp w evs
        end
      else Ret (EAGAIN, extent_free_region_descriptor myrp w, evs)
  end.
Proof. by destruct evs. Qed.

Lemma alloc_region_nowait (diag : bool) (start size flags : Z) (w : world) (evs : list event) :
  extent_ok (w_ex w) -> range_ok (w_ex w) start size ->
  flag flags EX_WAITOK = false -> flag flags EX_WAITSPACE = false -> evs <> [] ->
  exists r w' evs', extent_alloc_region diag start size flags w evs = Ret (r, w', evs') /\
    descs w' = descs w /\
    (r = 0 /\ grants start (start + size - 1) (w_ex w) (w_ex w') \/
     ex_regions (w_ex w') = ex_regions (w_ex w) /\ extent_ok (w_ex w') /\
     (r = EAGAIN /\ (exists x, start <= x <= start + size - 1 /\ allocated (ex_regions (w_ex w)) x) \/
      r = ENOMEM /\ exists w1 evs1, extent_alloc_region_descriptor flags w evs = Ret (None, w1, evs1))).
Proof.
  intros Hok Hr Hw Hs Hevs. rewrite alloc_region_checked by done.
  destruct (alloc_desc_nowait flags w evs Hw Hevs) as (rp & w1 & evs1 & -> & El & Hm & _ & Hd). cbn [bind].
  assert (Hok1 : extent_ok (w_ex w1)) by (by eapply extent_ok_same).
  destruct rp as [rp|]; [|subst w1; exists ENOMEM, w, evs1; conj; [done..|]; right; conj; eauto].
  destruct (Hm) as (_ & Es & Ee & _). destruct Hr as (R1 & R2 & R3).
  pose proof (region_place start size rp w1 Hok1) as Hp. rewrite Es, Ee in Hp. specialize (Hp R1 R2 R3).
  rewrite alloc_region_start_eq. destruct (region_search _ _ _ _ _) as [|last].
  - rewrite Hs. destruct (free_desc rp w1) as (F1 & F2 & F3 & _). eexists _, _, _; split; [done|].
    split; [lia|]. right. rewrite F1, El. conj; [done|by eapply extent_ok_same|].
    left. split; [done|by rewrite <- El].
  - destruct Hp as (w2 & -> & (_ & _ & _ & Hi) & (G1 & G2 & G3 & G4)). eexists _, _, _; split; [done|].
    split; [lia|]. left. split; [done|]. unfold grants. rewrite <- El. conj; auto. by rewrite Hm.
Qed.

(** C14.  [extent_alloc_region] without sleeping: a range of the extent is
    allocated exactly when all of it is free.  It then answers 0 and the extent
    covers the old addresses and the range; it answers [EAGAIN] when an address
    of the range is taken and [ENOMEM] when no descriptor is to be had, and then
    leaves the regions as they are.  The invariant is kept and no descriptor is
    lost in any case. *)
Theorem extent_alloc_region_spec (diag : bool) (start size flags : Z) (w : world) (evs : list event) :
  extent_ok (w_ex w) -> range_ok (w_ex w) start size ->
  flag flags EX_WAITOK = false -> flag flags EX_WAITSPACE = false -> evs <> [] ->
  exists r w' evs', extent_alloc_region diag start size flags w evs = Ret (r, w', evs') /\
    descs w' = descs w /\
    (r = 0 /\ grants start (start + size - 1) (w_ex w) (w_ex w') \/
     ex_regions (w_ex w') = ex_regions (w_ex w) /\ extent_ok (w_ex w') /\
     (r = EAGAIN /\ (exists x, start <= x <= start + size - 1 /\ allocated (ex_regions (w_ex w)) x) \/
      r = ENOMEM /\ exists w1 evs1, extent_alloc_region_descriptor flags w evs = Ret (None, w1, evs1))).
Proof. apply alloc_region_nowait. Qed.

(** What both ways out of the search leave, for an extent [ex] that the call
    has started on. *)
Definition region_answer (ex : extent) (start size : Z) : Z * world * list event -> Prop :=
  fun '(r, w', _) => extent_ok (w_ex w') /\ same_map ex (w_ex w') /\
    (r = 0 -> exists ex1, extent_ok ex1 /\ same_map ex ex1 /\ grants start (start + size - 1) ex1 (w_ex w')).

Lemma conflict_kept rp ex start size w evs :
  extent_ok (w_ex w) -> same_map ex (w_ex w) ->
  awaits (Ret (EAGAIN, extent_free_region_descriptor rp w, evs)) (region_answer ex start size).
Proof.
  intros Hok Hm. destruct (free_desc rp w) as (F1 & F2 & _). simpl.
  conj; [by eapply extent_ok_same|by rewrite Hm|done].
Qed.

Lemma place_grants rp ex w start size evs last :
  extent_ok (w_ex w) -> same_map ex (w_ex w) -> range_ok ex start size ->
  region_search (ex_regions (w_ex w)) 0 None start (start + size - 1) = PlaceAfter last ->
  awaits (let! w := extent_insert_and_optimize start size last rp w in Ret (0, w, evs))
    (region_answer ex start size).
Proof.
  intros Hok Hm (R1 & R2 & R3) E. pose proof (region_place start size rp w Hok) as Hp. rewrite E in Hp.
  destruct (Hm) as (_ & Es & Ee & _). rewrite Es, Ee in Hp.
  destruct (Hp R1 R2 R3) as (w2 & -> & _ & Hg). destruct (Hg) as (G1 & G2 & _).
  simpl. conj; [done|by rewrite Hm|]. intros _. exists (w_ex w). conj; auto.
Qed.

(**  [extent_alloc_region] with any flags, while other threads use the
    extent between its sleeps: as long as they keep the invariant, the call is
    still asleep or returns with the invariant kept, and when it answers 0 the
    range it has added was free in the extent it added it to. *)
Theorem extent_alloc_region_interference (diag : bool) (start size flags : Z) (w : world) (evs : list event) :
  extent_ok (w_ex w) -> range_ok (w_ex w) start size -> Forall friendly evs ->
  awaits (extent_alloc_region diag start size flags w evs) (fun '(r, w', _) =>
    extent_ok (w_ex w') /\ same_map (w_ex w) (w_ex w') /\
    (r = 0 -> exists ex1, extent_ok ex1 /\ same_map (w_ex w) ex1 /\
      grants start (start + size - 1) ex1 (w_ex w'))).
Proof.
  intros Hok Hr Hevs. rewrite alloc_region_checked by done.
  eapply awaits_bind; [by apply alloc_desc_awaits|].
  intros [[[rp|] w1] evs1] [[Hok1 Hm1] Hevs1]; [|by simpl]. clear Hok Hevs evs.
  revert w1 Hok1 Hm1. induction evs1 as [|e evs IH]; intros w1 Hok1 Hm1; rewrite alloc_region_start_eq;
    (destruct (region_search _ _ _ _ _) eqn:Hsearch;
     [destruct (flag flags EX_WAITSPACE); [|by apply conflict_kept]
     |by apply (place_grants rp (w_ex w) w1)]).
  - done.
  - apply Forall_cons in Hevs1 as [He Hevs].
    pose proof (set_wanted_same (w_ex w1)) as Hw.
    assert (Hok2 : extent_ok (set_flags (w_ex w1) (Z.lor (ex_flags (w_ex w1)) EXF_WANTED)))
      by (by eapply extent_ok_same).
    destruct (kept_friendly e _ He Hok2) as [Hok3 Hm3].
    assert (Hm4 : same_map (w_ex w) (ev_others e (set_flags (w_ex w1) (Z.lor (ex_flags (w_ex w1)) EXF_WANTED))))
      by (etrans; [exact Hm1|by etrans; [exact Hw|]]).
    destruct (Z.eqb_spec (ev_error e) 0) as [Ez|Ez]; cbn [negb]; [by apply IH|by simpl].
Qed.
(** * [extent_free] *)

(** After the argument checks. *)
Lemma extent_free_checked diag start size flags w evs :
  extent_ok (w_ex w) -> range_ok (w_ex w) start size ->
  extent_free diag start size flags w evs =
    (let nc := flag (ex_flags (w_ex w)) EXF_NOCOALESCE in
     let! (nrp, w, evs) :=
       if nc then Ret (None, w, evs) else extent_alloc_region_descriptor flags w evs in
     if negb nc && match nrp with None => true | _ => false end then Ret (ENOMEM, w, evs)
     else
       let ex := w_ex w in
       match free_search (flag (ex_flags ex) EXF_NOCOALESCE) nrp start (start + size - 1) [] (ex_regions ex) with
       | NotFound => Panic "extent_free: region not found"
       | NoSpare => Fault NullDeref
       | Freed l unlinked used =>
           let w := with_ex w (set_regions ex l) in
           let w := match unlinked with None => w | Some rp => extent_free_region_descriptor rp w end in
           Ret (0, free_done (if used then None else nrp) w, evs)
       end).
Proof.
  intros Hok Hr. unfold extent_free. rewrite (range_end (w_ex w)) by done.
  destruct Hr as (? & ? & ?). destruct (Z.ltb_spec start (ex_start (w_ex w))); [lia|].
  destruct (Z.ltb_spec (ex_end (w_ex w)) (start + size - 1)); [lia|].
  destruct (Z.ltb_spec (start + size - 1) start); [lia|]. by rewrite !andb_false_r.
Qed.

(** A spare descriptor is there when it can be needed: a result of the first
    part of [extent_free]. *)
Definition spare_ok (nc : bool) (nrp : option extent_region) (w w1 : world) : Prop :=
  ex_regions (w_ex w1) = ex_regions (w_ex w) /\ same_map (w_ex w) (w_ex w1) /\
  ex_flags (w_ex w1) = ex_flags (w_ex w) /\ (nc = false -> is_Some nrp) /\
  descs w1 = descs w - match nrp with Some _ => 1 | None => 0 end.

Lemma free_rest start size w w1 nrp :
  let nc := flag (ex_flags (w_ex w)) EXF_NOCOALESCE in
  extent_ok (w_ex w) -> range_ok (w_ex w) start size -> spare_ok nc nrp w w1 ->
  freeable (w_ex w) start (start + size - 1) ->
  exists l unlinked used w', free_search nc nrp start (start + size - 1) [] (ex_regions (w_ex w1)) = Freed l unlinked used /\
    free_done (if used then None else nrp)
      (match unlinked with
       | None => with_ex w1 (set_regions (w_ex w1) l)
       | Some rp => extent_free_region_descriptor rp (with_ex w1 (set_regions (w_ex w1) l))
       end) = w' /\
    releases start (start + size - 1) (w_ex w) (w_ex w') /\ descs w' = descs w /\
    flag (ex_flags (w_ex w')) EXF_WANTED = false /\
    (flag (ex_flags (w_ex w)) EXF_WANTED = true -> last (w_wakeups w') = Some ChanExtent).
Proof.
  intros nc Hok Hr (El & Hm & Ef & Hn & Hd) Hf. assert (Hse : start <= start + size - 1) by (unfold range_ok in Hr; lia).
  apply freeable_fits in Hf; [|done..]. fold nc in Hf.
  destruct (free_found nc nrp start (start + size - 1) (w_ex w)) as (l & unl & used & Hs & Hsp & Hrm & Hall & Hlen & Hu);
    [done|done|done|done|].
  exists l, unl, used. eexists. rewrite El. split; [done|]. split; [done|].
  set (w2 := match unl with None => _ | Some _ => _ end).
  assert (ex_regions (w_ex w2) = l /\ same_map (w_ex w) (w_ex w2) /\
    descs w2 = descs w1 + (match used with true => 1 | false => 0 end) /\
    flag (ex_flags (w_ex w2)) EXF_WANTED = flag (ex_flags (w_ex w)) EXF_WANTED) as (W1 & W2 & W3 & W4).
  { unfold w2. destruct unl as [rp|].
    - destruct used; [by destruct Hu|]. destruct (free_desc rp (with_ex w1 (set_regions (w_ex w1) l))) as (F1 & F2 & F3 & F4).
      conj; [done|by rewrite <- F2|unfold descs in *; rewrite F3; simpl; rewrite El; lia|rewrite F4; simpl; by rewrite Ef].
    - conj; [done|done|unfold descs; simpl; rewrite El; destruct used; lia|simpl; by rewrite Ef]. }
  clearbody w2. destruct (free_done_spec (if used then None else nrp) w2) as (D1 & D2 & D3 & D4 & D5).
  rewrite D3, D4, W3, Hd. conj; [| |done|].
  - unfold releases. rewrite D1, W1. assert (Hm2 : same_map (w_ex w) (w_ex (free_done (if used then None else nrp) w2)))
      by (by rewrite W2). conj; auto. pose proof (same_map_gap _ _ Hm2) as Hg.
    unfold extent_ok. destruct Hok as (? & ? & ? & _). destruct Hm2 as (_ & -> & -> & _). rewrite Hg, D1, W1. done.
  - destruct used; [destruct Hu as [_ [? ->]]; [done|lia]|lia].
  - intros Hw. apply D5. by rewrite W4.
Qed.

Lemma free_spare flags w evs :
  let nc := flag (ex_flags (w_ex w)) EXF_NOCOALESCE in
  flag flags EX_WAITOK = false -> evs <> [] ->
  exists nrp w1 evs1, (if nc then Ret (None, w, evs) else extent_alloc_region_descriptor flags w evs) = Ret (nrp, w1, evs1) /\
    if negb nc && match nrp with None => true | _ => false end then w1 = w else spare_ok nc nrp w w1.
Proof.
  intros nc Hw Hevs. destruct nc eqn:Hnc; cbn [negb andb].
  - eexists _, _, _; split; [done|]. unfold spare_ok. conj; try done. lia.
  - destruct (alloc_desc_nowait flags w evs Hw Hevs) as (rp & w1 & evs1 & -> & El & Hm & Ef & Hd).
    exists rp, w1, evs1. split; [done|]. destruct rp; [|done]. unfold spare_ok. conj; eauto.
Qed.

Lemma free_nowait (diag : bool) (start size flags : Z) (w : world) (evs : list event) :
  extent_ok (w_ex w) -> range_ok (w_ex w) start size -> freeable (w_ex w) start (start + size - 1) ->
  flag flags EX_WAITOK = false -> evs <> [] ->
  exists r w' evs', extent_free diag start size flags w evs = Ret (r, w', evs') /\
    (r = 0 /\ releases start (start + size - 1) (w_ex w) (w_ex w') /\ descs w' = descs w /\
     flag (ex_flags (w_ex w')) EXF_WANTED = false /\
     (flag (ex_flags (w_ex w)) EXF_WANTED = true -> last (w_wakeups w') = Some ChanExtent) \/
     r = ENOMEM /\ w' = w /\ flag (ex_flags (w_ex w)) EXF_NOCOALESCE = false /\
     extent_alloc_region_descriptor flags w evs = Ret (None, w, evs')).
Proof.
  intros Hok Hr Hf Hw Hevs. rewrite extent_free_checked by done. cbv zeta.
  destruct (free_spare flags w evs Hw Hevs) as (nrp & w1 & evs1 & Hd & Hsp). rewrite Hd. cbn [bind].
  destruct (negb _ && _) eqn:Hb.
  - subst w1. exists ENOMEM, w, evs1. split; [done|]. right. boolify. rewrite H in Hd. destruct nrp; done.
  - pose proof Hsp as (_ & _ & Ef & _). rewrite Ef.
    destruct (free_rest start size w w1 nrp Hok Hr Hsp Hf) as (l & unl & used & w' & -> & E & Hrest).
    rewrite E. exists 0, w', evs1. auto.
Qed.

(** C36.  [extent_free] without sleeping: a request that is allocated throughout
    (without coalescing: that is one of the regions) is given back, the rest of
    the extent stays as it was, no descriptor is lost, and whoever waits for
    space is woken; only a want of the spare descriptor makes the call answer
    [ENOMEM], with nothing changed. *)
Theorem extent_free_spec (diag : bool) (start size flags : Z) (w : world) (evs : list event) :
  extent_ok (w_ex w) -> range_ok (w_ex w) start size -> freeable (w_ex w) start (start + size - 1) ->
  flag flags EX_WAITOK = false -> evs <> [] ->
  exists r w' evs', extent_free diag start size flags w evs = Ret (r, w', evs') /\
    (r = 0 /\ releases start (start + size - 1) (w_ex w) (w_ex w') /\ descs w' = descs w /\
     flag (ex_flags (w_ex w')) EXF_WANTED = false /\
     (flag (ex_flags (w_ex w)) EXF_WANTED = true -> last (w_wakeups w') = Some ChanExtent) \/
     r = ENOMEM /\ w' = w /\ flag (ex_flags (w_ex w)) EXF_NOCOALESCE = false /\
     extent_alloc_region_descriptor flags w evs = Ret (None, w, evs')).
Proof. apply free_nowait. Qed.

(**  [extent_free] of anything else panics (or finds no descriptor): it
    never frees an address that is not allocated. *)
Theorem extent_free_panics (diag : bool) (start size flags : Z) (w : world) (evs : list event) :
  extent_ok (w_ex w) -> range_ok (w_ex w) start size -> ~ freeable (w_ex w) start (start + size - 1) ->
  flag flags EX_WAITOK = false -> evs <> [] ->
  extent_free diag start size flags w evs = Panic "extent_free: region not found" \/
  exists evs', extent_free diag start size flags w evs = Ret (ENOMEM, w, evs').
Proof.
  intros Hok Hr Hf Hw Hevs. rewrite extent_free_checked by done. cbv zeta.
  assert (Hse : start <= start + size - 1) by (unfold range_ok in Hr; lia).
  destruct (free_spare flags w evs Hw Hevs) as (nrp & w1 & evs1 & Hd & Hsp). rewrite Hd. cbn [bind].
  destruct (negb _ && _); [subst w1; right; by exists evs1|]. left. destruct Hsp as (-> & _ & -> & _).
  rewrite freeable_fits in Hf by done. rewrite free_search_miss; [done| |done].
  by apply not_Exists_Forall in Hf; [|apply _].
Qed.

(**  Freeing what has just been allocated restores the extent: with
    coalescing, an allocation that answers 0 can be freed (unless there is no
    spare descriptor), and the list of regions is then what it was before. *)
Theorem extent_alloc_free_roundtrip (diag : bool) (start size flags : Z) (w w1 : world)
    (evs evs1 : list event) :
  extent_ok (w_ex w) -> range_ok (w_ex w) start size -> flag (ex_flags (w_ex w)) EXF_NOCOALESCE = false ->
  flag flags EX_WAITOK = false -> flag flags EX_WAITSPACE = false -> evs <> [] -> evs1 <> [] ->
  extent_alloc_region diag start size flags w evs = Ret (0, w1, evs1) ->
  exists r w2 evs2, extent_free diag start size flags w1 evs1 = Ret (r, w2, evs2) /\
    (r = ENOMEM \/ r = 0 /\ bounds <$> ex_regions (w_ex w2) = bounds <$> ex_regions (w_ex w) /\ descs w2 = descs w).
Proof.
  intros Hok Hr Hnc Hw Hs Hevs Hevs1 Ha.
  destruct (alloc_region_nowait diag start size flags w evs Hok Hr Hw Hs Hevs) as (r & w1' & evs1' & Ha' & Hd & Hres).
  rewrite Ha in Ha'. simplify_eq. destruct Hres as [[_ (G1 & G2 & G3 & G4)]|[_ [_ [[? _]|[? _]]]]]; [|done..].
  pose proof G2 as (_ & Es & Ee & _ & _ & Enc).
  destruct (free_nowait diag start size flags w1' evs1') as (r & w2 & evs2 & Hf & Hres); [done| | |done|done|].
  { unfold range_ok in *. by rewrite Es, Ee. }
  { unfold freeable. rewrite Enc, Hnc. intros x Hx. apply G4. by right. }
  exists r, w2, evs2. split; [done|]. destruct Hres as [(-> & (R1 & R2 & R3 & R4) & Hd2 & _)|(-> & _)]; [right|by left].
  assert (Hm : same_map (w_ex w) (w_ex w2)) by (by rewrite G2). pose proof (same_map_gap _ _ Hm) as Hg.
  destruct (Hm) as (_ & Es2 & Ee2 & _). split; [done|]. split; [|congruence].
  assert (Hgap : gap (w_ex w) = 2) by (unfold gap; by rewrite Hnc).
  apply (spaced_canonical (ex_start (w_ex w)) (ex_end (w_ex w))).
  - destruct R1 as (_ & _ & _ & R1). by rewrite Hg, Hgap, Es2, Ee2 in R1.
  - destruct Hok as (_ & _ & _ & Hsp). by rewrite Hgap in Hsp.
  - intros x. rewrite (R4 x), (G4 x). pose proof (G3 x). tauto.
Qed.
End Arch.

(** * Witnesses *)

#[export] Instance range_ok_dec ex start size : Decision (range_ok ex start size).
Proof. unfold range_ok. apply _. Defined.

(** Two ranges of I/O ports in use, two spare descriptors, and a sleep in which
    nothing happens. *)
Definition io : extent :=
  Extent "io" [Region 0x100 0x1ff 0; Region 0x300 0x3ff 0] 0 0xffff 0 EXF_FIXED [Region 0 0 0; Region 0 0 0].
Definition quiet : event := Event 0 (fun ex => ex).

Lemma io_freeable : freeable io 0x120 (0x120 + 0x10 - 1).
Proof.
  intros x Hx. apply Exists_exists. exists (Region 0x100 0x1ff 0). split; [by left|]. unfold covers. simpl. lia.
Qed.

Lemma io_not_freeable : ~ freeable io 0x1f0 (0x1f0 + 0x20 - 1).
Proof.
  intros H. assert (Ha : allocated (ex_regions io) 0x200) by (apply H; lia). revert Ha. compute_decide.
Qed.

Lemma extent_alloc_region_spec_witness :
  exists r w' evs', extent_alloc_region (a := LP64) true 0x200 0x100 0 (World io 0 []) [quiet] = Ret (r, w', evs') /\
    descs w' = 4 /\
    (r = 0 /\ grants (a := LP64) 0x200 (0x200 + 0x100 - 1) io (w_ex w') \/
     ex_regions (w_ex w') = ex_regions io /\ extent_ok (a := LP64) (w_ex w') /\
     (r = EAGAIN /\ (exists x, 0x200 <= x <= 0x200 + 0x100 - 1 /\ allocated (ex_regions io) x) \/
      r = ENOMEM /\ exists w1 evs1, extent_alloc_region_descriptor 0 (World io 0 []) [quiet] = Ret (None, w1, evs1))).
Proof.
  apply (extent_alloc_region_spec (a := LP64) true 0x200 0x100 0 (World io 0 []) [quiet]);
    [compute_decide|compute_decide|reflexivity|reflexivity|discriminate].
Defined.

(** Another thread gives the range back during the sleep. *)
Definition given_back : event :=
  Event 0 (fun ex => if decide (ex_regions ex = ex_regions io) then set_regions ex [Region 0x300 0x3ff 0] else ex).

Lemma given_back_friendly : friendly (a := LP64) given_back.
Proof.
  intros ex (H0 & H1 & H2 & Hsp). unfold given_back. simpl. destruct (decide _) as [E|]; [|done].
  split; [|done]. unfold extent_ok. simpl. rewrite E in Hsp. simpl in Hsp. conj; auto; lia.
Qed.

Lemma extent_alloc_region_interference_witness :
  awaits (extent_alloc_region (a := LP64) true 0x100 0x100 EX_WAITSPACE (World io 0 []) [given_back])
    (fun '(r, w', _) => extent_ok (a := LP64) (w_ex w') /\ same_map io (w_ex w') /\
      (r = 0 -> exists ex1, extent_ok (a := LP64) ex1 /\ same_map io ex1 /\
        grants (a := LP64) 0x100 (0x100 + 0x100 - 1) ex1 (w_ex w'))).
Proof.
  apply (extent_alloc_region_interference (a := LP64) true 0x100 0x100 EX_WAITSPACE (World io 0 []) [given_back]);
    [compute_decide|compute_decide|].
  apply Forall_cons. split; [apply given_back_friendly|apply Forall_nil]. exact I.
Defined.

Lemma extent_free_spec_witness :
  exists r w' evs', extent_free (a := LP64) true 0x120 0x10 0 (World io 0 []) [quiet] = Ret (r, w', evs') /\
    (r = 0 /\ releases (a := LP64) 0x120 (0x120 + 0x10 - 1) io (w_ex w') /\ descs w' = 4 /\
     flag (ex_flags (w_ex w')) EXF_WANTED = false /\
     (flag (ex_flags io) EXF_WANTED = true -> last (w_wakeups w') = Some ChanExtent) \/
     r = ENOMEM /\ w' = World io 0 [] /\ flag (ex_flags io) EXF_NOCOALESCE = false /\
     extent_alloc_region_descriptor 0 (World io 0 []) [quiet] = Ret (None, World io 0 [], evs')).
Proof.
  apply (extent_free_spec (a := LP64) true 0x120 0x10 0 (World io 0 []) [quiet]);
    [compute_decide|compute_decide|apply io_freeable|reflexivity|discriminate].
Defined.

Lemma extent_free_panics_witness :
  extent_free (a := LP64) true 0x1f0 0x20 0 (World io 0 []) [quiet] = Panic "extent_free: region not found" \/
  exists evs', extent_free (a := LP64) true 0x1f0 0x20 0 (World io 0 []) [quiet] = Ret (ENOMEM, World io 0 [], evs').
Proof.
  apply (extent_free_panics (a := LP64) true 0x1f0 0x20 0 (World io 0 []) [quiet]);
    [compute_decide|compute_decide|apply io_not_freeable|reflexivity|discriminate].
Defined.

Lemma extent_alloc_free_roundtrip_witness :
  exists w1, extent_alloc_region (a := LP64) true 0x200 0x100 0 (World io 0 []) [quiet] = Ret (0, w1, [quiet]) /\
    exists r w2 evs2, extent_free (a := LP64) true 0x200 0x100 0 w1 [quiet] = Ret (r, w2, evs2) /\
      (r = ENOMEM \/ r = 0 /\ bounds <$> ex_regions (w_ex w2) = bounds <$> ex_regions io /\ descs w2 = 4).
Proof.
  eexists. split; [reflexivity|].
  apply (extent_alloc_free_roundtrip (a := LP64) true 0x200 0x100 0 (World io 0 []) _ [quiet]);
    [compute_decide|compute_decide|reflexivity|reflexivity|reflexivity|discriminate|discriminate|reflexivity].
Defined.
