(* ===== verification/ExtentSub.v ===== *)
(** The search of [extent_alloc_subregion]: alignment, boundaries, first fit and
    best fit. *)

From S2P Require Import Prelude Extent ExtentRegions ExtentAlloc.

(** * Alignment *)

(** The distance from [s] up to the next address that is [k] modulo [al]. *)
Definition lift (al k s : Z) : Z := s + (k - s) mod al.

Lemma lift_spec al k s : 0 < al ->
  s <= lift al k s < s + al /\ (lift al k s - k) mod al = 0 /\
  forall y, s <= y -> (y - k) mod al = 0 -> lift al k s <= y.
Proof.
  intros Ha. unfold lift. pose proof (Z.mod_pos_bound (k - s) al Ha). conj; try lia.
  - rewrite Zminus_mod, Zplus_mod_idemp_r. replace (s + (k - s)) with k by lia.
    rewrite Z.sub_diag. by rewrite Zmod_0_l.
  - intros y Hy Hm. destruct (Z.le_gt_cases (s + (k - s) mod al) y) as [|Hlt]; [done|exfalso].
    assert (E : (k - s) mod al = (y - s) mod al).
    { replace (k - s) with ((y - s) - (y - k)) by lia. rewrite Zminus_mod, Hm, Z.sub_0_r. by rewrite Zmod_mod. }
    rewrite E in *. rewrite Z.mod_small in Hlt by lia. lia.
Qed.

Section Arch.
Context {a : arch}.

Lemma land_high_mask t p : is_u long_bits t -> 0 <= p ->
  Z.land t (ulong (- 2 ^ p)) = t - t mod 2 ^ p.
Proof.
  intros Ht Hp. pose proof long_bits_pos. unfold ulong, wrap. rewrite <- Z.land_ones by lia.
  rewrite (Z.land_comm (- 2 ^ p)), Z.land_assoc, (Z.land_ones t) by lia.
  rewrite (Z.mod_small t) by (unfold is_u in Ht; lia).
  replace (- 2 ^ p) with (Z.lnot (Z.ones p)) by (unfold Z.lnot; rewrite Z.ones_equiv; lia).
  rewrite <- Z.ldiff_land, Z.ldiff_ones_r, Z.shiftl_mul_pow2, Z.shiftr_div_pow2 by lia.
  pose proof (Z.div_mod t (2 ^ p)). lia.
Qed.

(** [extent_align] is [lift], modulo the width of a [u_long]. *)
Lemma extent_align_lift s k p : 0 <= p < long_bits ->
  extent_align (ulong s) (2 ^ p) k = ulong (lift (2 ^ p) k s).
Proof.
  intros Hp. unfold extent_align, lift. pose proof (pow2_pos p). pose proof (pow2_pos long_bits).
  rewrite land_high_mask by (try lia; apply ulong_range).
  assert (Hdiv : (2 ^ p | 2 ^ long_bits)).
  { exists (2 ^ (long_bits - p)). rewrite <- Z.pow_add_r by lia. f_equal. lia. }
  set (t := ulong (ulong (ulong s - k) + ulong (2 ^ p - 1))).
  assert (Et : t = ulong (s - k + (2 ^ p - 1))).
  { unfold t, ulong, wrap. rewrite <- Zplus_mod. rewrite (Zplus_mod (s mod _ - k)), Zminus_mod_idemp_l.
    by rewrite <- Zplus_mod. }
  assert (Em : t mod 2 ^ p = (s - k + (2 ^ p - 1)) mod 2 ^ p).
  { rewrite Et. unfold ulong, wrap. by rewrite Z.mod_mod_divide by done. }
  assert (Ed : (k - s) mod 2 ^ p = 2 ^ p - 1 - (s - k + (2 ^ p - 1)) mod 2 ^ p).
  { pose proof (Z.mod_pos_bound (k - s) (2 ^ p)) as Hb. symmetry.
    enough ((s - k + (2 ^ p - 1)) mod 2 ^ p = 2 ^ p - 1 - (k - s) mod 2 ^ p) by lia.
    symmetry. apply Z.mod_unique with (- ((k - s) / 2 ^ p)); [lia|].
    pose proof (Z.div_mod (k - s) (2 ^ p)). lia. }
  rewrite Em, Ed, Et. unfold ulong, wrap.
  replace ((s - k + (2 ^ p - 1)) mod 2 ^ long_bits - (s - k + (2 ^ p - 1)) mod 2 ^ p + k)
    with ((s - k + (2 ^ p - 1)) mod 2 ^ long_bits + (k - (s - k + (2 ^ p - 1)) mod 2 ^ p)) by lia.
  rewrite Zplus_mod_idemp_l. f_equal. lia.
Qed.
(** [LE_OV] compares the true sum. *)
Lemma LE_OV_spec x y z : is_u long_bits x -> is_u long_bits y -> z < 2 ^ long_bits ->
  LE_OV x y z = (x + y <=? z).
Proof.
  intros Hx Hy Hz. unfold LE_OV, is_u in *. destruct (Z.lt_ge_cases (x + y) (2 ^ long_bits)).
  - rewrite ulong_small by (split; lia). destruct (Z.leb_spec x (x + y)); [done|lia].
  - replace (ulong (x + y)) with (x + y - 2 ^ long_bits).
    + destruct (Z.leb_spec x (x + y - 2 ^ long_bits)), (Z.leb_spec (x + y) z); (done || lia).
    + unfold ulong, wrap. apply Z.mod_unique with 1; lia.
Qed.

(** * Requests *)

(** What a caller may ask for (the argument checks of DIAGNOSTIC, and that
    alignment and boundary are powers of two). *)
Definition request_ok (ex : extent) (rq : request) : Prop :=
  ex_start ex <= substart rq /\ substart rq <= ex_end ex /\ subend rq <= ex_end ex /\
  1 <= rq_size rq /\ rq_size rq < 2 ^ long_bits /\
  (exists p, 0 <= p < long_bits /\ alignment rq = 2 ^ p) /\
  (boundary rq = 0 \/ (exists q, 0 <= q < long_bits /\ boundary rq = 2 ^ q) /\ rq_size rq <= boundary rq).

Definition aligned (rq : request) (x : Z) : Prop := (x - skew rq) mod alignment rq = 0.

(** Where boundary lines are counted from. *)
Definition line0 (ex : extent) (rq : request) : Z :=
  if flag (rq_flags rq) EX_BOUNDZERO then 0 else ex_start ex.

(** The request at [x] crosses no boundary line. *)
Definition within (ex : extent) (rq : request) (x : Z) : Prop :=
  (x - line0 ex rq) / boundary rq = (x + rq_size rq - 1 - line0 ex rq) / boundary rq.

(** Between two lines nothing crosses. *)
Lemma same_block v x y b k : 0 < b -> (v - k) mod b = 0 -> v - b <= x -> x <= y -> y < v ->
  (x - k) / b = (y - k) / b.
Proof.
  intros Hb Hv Hx Hxy Hy. apply Z.mod_divide in Hv as [n Hn]; [|lia].
  assert (forall z, v - b <= z < v -> (z - k) / b = n - 1) as H.
  { intros z Hz. symmetry. apply Z.div_unique with (z - (v - b)); [lia|]. lia. }
  rewrite !H; lia.
Qed.

Section Search.
Context (ex : extent) (rq : request).
Hypothesis Hok : extent_ok ex.
Hypothesis Hrq : request_ok ex rq.

(** [dontcross] without overflow is the address before the next line; with it,
    the rest of the extent lies before the next line. *)
Lemma dontcross_spec newstart :
  boundary rq <> 0 -> ex_start ex <= newstart -> newstart <= ex_end ex ->
  exists v, v = lift (boundary rq) (line0 ex rq) (newstart + 1) /\
    let d := ulong (extent_align (ulong (newstart + 1)) (boundary rq) (line0 ex rq) - 1) in
    (v <= 2 ^ long_bits /\ d = v - 1 \/ 2 ^ long_bits < v /\ d < ex_start ex).
Proof.
  destruct Hok as (H0 & H1 & H2 & _). destruct Hrq as (_ & _ & _ & _ & _ & _ & Hb).
  intros Hb0 Hn1 Hn2. destruct Hb as [|[(q & Hq & Eb) _]]; [lia|]. eexists; split; [done|].
  rewrite Eb. rewrite extent_align_lift by done.
  pose proof (pow2_pos q). destruct (lift_spec (2 ^ q) (line0 ex rq) (newstart + 1)) as (L1 & L2 & _); [lia|].
  set (v := lift (2 ^ q) (line0 ex rq) (newstart + 1)) in *.
  assert (Hpow : exists c, 2 ^ long_bits = 2 ^ q * c /\ 1 < c).
  { exists (2 ^ (long_bits - q)). split; [rewrite <- Z.pow_add_r by lia; f_equal; lia|]. apply Z.pow_gt_1; lia. }
  destruct Hpow as (c & Hc & Hc1).
  destruct (Z.lt_trichotomy v (2 ^ long_bits)) as [Hv|[Hv|Hv]].
  - left. split; [lia|]. rewrite (ulong_small v) by (split; lia). rewrite ulong_small by (split; lia). done.
  - left. split; [lia|]. rewrite Hv. unfold ulong, wrap. rewrite Z_mod_same_full. simpl.
    symmetry. apply Z.mod_unique with (-1); lia.
  - right. split; [done|]. assert (Ev : ulong v = v - 2 ^ long_bits).
    { unfold ulong, wrap. symmetry. apply Z.mod_unique with 1; nia. }
    rewrite Ev, ulong_small by (split; nia).
    assert (Hl0 : 0 <= line0 ex rq <= ex_start ex) by (unfold line0; destruct (flag _ _); lia).
    apply Z.mod_divide in L2 as [n Hn]; [|lia].
    assert (E : v - 2 ^ long_bits - line0 ex rq = (n - c) * 2 ^ q) by lia.
    destruct (Z.le_gt_cases (n - c) 0); [nia|]. assert (2 ^ q <= (n - c) * 2 ^ q) by nia. lia.
Qed.

Lemma boundary_check_spec newstart le_ov :
  ex_start ex <= newstart -> newstart + rq_size rq - 1 <= ex_end ex ->
  match boundary_check ex rq newstart le_ov with
  | BFits ns => newstart <= ns /\ (ns = newstart \/ ns < 2 ^ long_bits /\ le_ov ns = true) /\
      (boundary rq = 0 -> ns = newstart) /\ (boundary rq <> 0 -> within ex rq ns)
  | BTooLong | BFail => boundary rq <> 0
  end.
Proof.
  intros Hn1 Hn2. destruct Hok as (H0 & H1 & H2 & _). destruct (Hrq) as (_ & _ & _ & Hs1 & Hs2 & _ & Hb).
  unfold boundary_check. destruct (Z.eqb_spec (boundary rq) 0) as [|Hb0]; [conj; auto; lia|].
  destruct Hb as [|[(q & Hq & Eb) Hsb]]; [lia|].
  rewrite (ulong_small (rq_size rq - 1)), (ulong_small (newstart + (rq_size rq - 1))) by (split; lia).
  fold (line0 ex rq). destruct (dontcross_spec newstart) as (v & Ev & Hd); [done|lia|lia|].
  set (d := ulong (extent_align (ulong (newstart + 1)) (boundary rq) (line0 ex rq) - 1)) in *. simpl in Hd.
  destruct (lift_spec (boundary rq) (line0 ex rq) (newstart + 1)) as (L1 & L2 & _); [lia|]. rewrite <- Ev in *.
  assert (Hw : newstart + rq_size rq - 1 < v -> within ex rq newstart).
  { intros Hlt. apply same_block with v; auto; lia. }
  destruct (Z.ltb_spec d (ex_start ex)).
  - destruct (_ || _); [done|]. conj; auto; [lia..|]. intros _. apply Hw. lia.
  - destruct Hd as [[Hv ->]|]; [|lia]. destruct (Z.ltb_spec (v - 1) (newstart + (rq_size rq - 1))).
    + rewrite (ulong_small (v - 1 + 1)) by (split; lia). replace (v - 1 + 1) with v by lia.
      destruct (le_ov v) eqn:Hle; cbn [negb]; [|done]. destruct (_ || _); [done|].
      conj; [lia|right; split; [lia|done]|lia|]. intros _. apply same_block with (v + boundary rq); try lia.
      replace (v + boundary rq - line0 ex rq) with (v - line0 ex rq + 1 * boundary rq) by lia.
      by rewrite Z_mod_plus_full.
    + destruct (_ || _); [done|]. conj; auto; [lia..|]. intros _. apply Hw. lia.
Qed.
(** * Places *)

(** An address at which the request can be satisfied, boundaries apart. *)
Definition room (x : Z) : Prop :=
  substart rq <= x /\ aligned rq x /\ x + rq_size rq - 1 <= subend rq /\
  forall y, x <= y <= x + rq_size rq - 1 -> ~ allocated (ex_regions ex) y.

(** [x] is a place for the request, and [last] the region before it. *)
Definition placed (x : Z) (last : option nat) : Prop :=
  (exists pre post, ex_regions ex = pre ++ post /\ last = pos_after pre /\
     next_lo 1 (ex_start ex) pre <= x /\ match post with [] => True | r :: _ => x + rq_size rq <= er_start r end) /\
  substart rq <= x /\ x + rq_size rq - 1 <= subend rq /\
  (boundary rq = 0 -> aligned rq x) /\ (boundary rq <> 0 -> within ex rq x).

(** All room below [n] is reflected in the best place so far. *)
Definition reflected (n : Z) (b : best) : Prop :=
  boundary rq = 0 -> forall y, room y -> y < n -> flag (rq_flags rq) EX_FAST = false /\ bestovh b <> 0.

Definition best_ok (b : best) : Prop := bestovh b <> 0 -> placed (beststart b) (bestlast b).

(** The state at the head of the loop: [pre] has been passed. *)
Definition at_gap (pre : list extent_region) (newstart : Z) (b : best) : Prop :=
  next_lo 1 (ex_start ex) pre <= newstart /\ substart rq <= newstart /\ newstart < 2 ^ long_bits /\
  aligned rq newstart /\ reflected newstart b /\ best_ok b.

(** What the end of the search promises. *)
Definition search_ok (r : search) : Prop :=
  match r with
  | Found x last => placed x last /\
      (boundary rq = 0 -> flag (rq_flags rq) EX_FAST = true -> forall y, room y -> x <= y)
  | SFail b => best_ok b /\ reflected (2 ^ long_bits) b
  | LoopEnd newstart exend last b => exists pre post, ex_regions ex = pre ++ post /\ last = pos_after pre /\
      at_gap pre newstart b /\ subend rq <= exend /\ exend <= ex_end ex /\
      match post with [] => True | r :: _ => subend rq < er_start r end
  end.

Lemma take_best_ok b ovh x last : best_ok b -> ovh <> 0 -> placed x last ->
  best_ok (take_best b ovh x last) /\ bestovh (take_best b ovh x last) <> 0.
Proof.
  intros Hb Ho Hp. unfold take_best. destruct (Z.eqb_spec (bestovh b) 0); cbn [orb];
    [split; [intros _; exact Hp|exact Ho]|].
  destruct (_ <? _); [split; [intros _; exact Hp|exact Ho]|by split].
Qed.

Lemma room_max y : room y -> y < 2 ^ long_bits.
Proof. destruct Hok as (_ & _ & ? & _), Hrq as (_ & _ & ? & ? & _). intros (_ & _ & ? & _). lia. Qed.

(** [rp] is in the way of everything between [n] and its end. *)
Lemma room_past rp y n :
  rp ∈ ex_regions ex -> er_start rp <= er_end rp -> room y -> n <= y -> er_start rp < n + rq_size rq -> er_end rp < y.
Proof.
  intros Hin Hr (_ & _ & _ & Hf) Hn Hlt. destruct Hrq as (_ & _ & _ & Hs & _). destruct (Z.lt_ge_cases (er_end rp) y); [done|exfalso].
  apply (Hf (Z.max y (er_start rp))); [lia|]. apply Exists_exists. exists rp. split; [done|]. unfold covers. lia.
Qed.

(** [skip]: the next aligned address behind the region, or no more room. *)
Lemma skip_spec rp pre post newstart b b' :
  ex_regions ex = pre ++ rp :: post -> substart rq <= er_start rp -> at_gap pre newstart b ->
  (bestovh b <> 0 -> bestovh b' <> 0) -> best_ok b' ->
  (er_start rp < newstart + rq_size rq \/ boundary rq <> 0 \/
   flag (rq_flags rq) EX_FAST = false /\ bestovh b' <> 0) ->
  let n := extent_align (ulong (er_end rp + 1)) (alignment rq) (skew rq) in
  if n <? er_end rp then search_ok (SFail b') else at_gap (pre ++ [rp]) n b'.
Proof.
  intros El Hsub (G1 & G2 & G3 & G4 & G5 & G6) Hbb Hb' Hwhy n.
  destruct Hok as (H0 & H1 & H2 & Hsp). destruct (Hrq) as (R1 & R2 & R3 & R4 & R5 & (p & Hp & Ea) & _).
  rewrite El in Hsp. apply (spaced_1 (gap ex)) in Hsp; [|gaps]. apply spaced_app in Hsp as [Hpre (S1 & S2 & S3 & _)].
  apply next_lo_ge in Hpre; [|lia]. pose proof (pow2_pos p).
  assert (Hall : boundary rq = 0 -> forall y, room y -> y <= er_end rp -> flag (rq_flags rq) EX_FAST = false /\ bestovh b' <> 0).
  { intros Hbd y Hy Hle. destruct (Z.lt_ge_cases y newstart) as [Hlt|Hge].
    - destruct (G5 Hbd y Hy Hlt). auto.
    - destruct Hwhy as [Hin|[?|?]]; [|lia|done]. exfalso.
      apply (room_past rp y newstart) in Hin; [lia| |lia|done|lia].
      rewrite El. apply elem_of_app. right. by left. }
  destruct (lift_spec (2 ^ p) (skew rq) (er_end rp + 1)) as (L1 & L2 & L3); [lia|].
  assert (En : n = ulong (lift (2 ^ p) (skew rq) (er_end rp + 1))) by (unfold n; rewrite Ea; by apply extent_align_lift).
  set (v := lift _ _ _) in *.
  assert (Hvis : boundary rq = 0 -> forall y, room y -> y < v -> flag (rq_flags rq) EX_FAST = false /\ bestovh b' <> 0).
  { intros Hbd y Hy Hlt. apply Hall with y; auto. destruct (Z.le_gt_cases y (er_end rp)); [done|].
    destruct Hy as (_ & Hal & _). unfold aligned in Hal. rewrite Ea in Hal. apply L3 in Hal; lia. }
  assert (Hpp : 2 ^ p <= 2 ^ (long_bits - 1)) by (apply Z.pow_le_mono_r; lia).
  assert (Hdbl : 2 ^ long_bits = 2 * 2 ^ (long_bits - 1)).
  { rewrite <- Z.pow_succ_r by lia. f_equal. lia. }
  destruct (Z.lt_ge_cases v (2 ^ long_bits)).
  - rewrite ulong_small in En by (split; lia). destruct (Z.ltb_spec n (er_end rp)); [lia|].
    unfold at_gap. rewrite next_lo_snoc, En. conj; auto; [lia..|]. unfold aligned. by rewrite Ea.
  - assert (ulong v = v - 2 ^ long_bits) as Ev by (unfold ulong, wrap; symmetry; apply Z.mod_unique with 1; lia).
    destruct (Z.ltb_spec n (er_end rp)); [|lia]. split; [done|]. intros Hbd y Hy Hlt. apply Hvis with y; auto. lia.
Qed.
(** * The loop and the final check *)

Lemma placed_between pre post x :
  ex_regions ex = pre ++ post -> next_lo 1 (ex_start ex) pre <= x ->
  match post with [] => True | r :: _ => x + rq_size rq <= er_start r end ->
  substart rq <= x -> x + rq_size rq - 1 <= subend rq ->
  (boundary rq = 0 -> aligned rq x) -> (boundary rq <> 0 -> within ex rq x) -> placed x (pos_after pre).
Proof. intros. unfold placed. conj; auto. exists pre, post. auto. Qed.

Lemma gap_loop_spec l pre newstart b :
  ex_regions ex = pre ++ l -> Forall (fun r => substart rq <= er_start r) l -> at_gap pre newstart b ->
  search_ok (gap_loop ex rq l (length pre) newstart (pos_after pre) b).
Proof.
  revert pre newstart b. induction l as [|rp l IH]; intros pre newstart b El Hsub Hgap; simpl.
  { exists pre, []. destruct Hrq as (_ & _ & ? & _). conj; auto. lia. }
  apply Forall_cons in Hsub as [Hrp Hsub].
  destruct (Hok) as (H0 & H1 & H2 & Hsp). destruct (Hrq) as (R1 & R2 & R3 & R4 & R5 & _).
  assert (Hrs : er_start rp <= er_end rp <= ex_end ex).
  { rewrite El in Hsp. apply spaced_app in Hsp as [_ (_ & ? & ? & _)]. lia. }
  destruct (Z.ltb_spec (subend rq) (er_start rp)) as [Hpast|Hin].
  { exists pre, (rp :: l). conj; auto; lia. }
  assert (Hnext : forall b', (bestovh b <> 0 -> bestovh b' <> 0) -> best_ok b' ->
    (er_start rp < newstart + rq_size rq \/ boundary rq <> 0 \/ flag (rq_flags rq) EX_FAST = false /\ bestovh b' <> 0) ->
    search_ok (if extent_align (ulong (er_end rp + 1)) (alignment rq) (skew rq) <? er_end rp then SFail b'
      else gap_loop ex rq l (S (length pre)) (extent_align (ulong (er_end rp + 1)) (alignment rq) (skew rq))
        (Some (length pre)) b')).
  { intros b' H3 H4 H5. pose proof (skip_spec rp pre l newstart b b' El Hrp Hgap H3 H4 H5) as Hskip. simpl in Hskip.
    destruct (_ <? er_end rp); [done|]. specialize (IH (pre ++ [rp])).
    rewrite pos_after_snoc, length_app, Nat.add_1_r in IH. apply IH; auto. by rewrite <- app_assoc. }
  destruct (Hgap) as (G1 & G2 & G3 & G4 & G5 & G6).
  rewrite LE_OV_spec by (try split; lia). destruct (Z.leb_spec (newstart + rq_size rq) (er_start rp)) as [Hfit|Hno];
    [|apply Hnext; auto].
  pose proof (boundary_check_spec newstart (fun ns => LE_OV ns (rq_size rq) (er_start rp))) as Hbc.
  destruct (boundary_check _ _ _ _) as [ns| |]; [destruct Hbc as (B1 & B2 & B3 & B4); [lia..|]|apply Hnext; auto; right; left; apply Hbc; lia|].
  2: { split; [done|]. intros Hbd. destruct Hbc; (lia || done). }
  assert (Hns : ns + rq_size rq <= er_start rp).
  { destruct B2 as [->|[? Hle]]; [done|]. rewrite LE_OV_spec in Hle by (try split; lia). boolify. done. }
  assert (Hpl : placed ns (pos_after pre)).
  { apply placed_between with (rp :: l); auto; try lia. intros Hbd. by rewrite (B3 Hbd). }
  rewrite (ulong_small (er_start rp - ns)), ulong_small by (split; lia).
  destruct (flag (rq_flags rq) EX_FAST) eqn:Hfast; cbn [orb].
  { split; [done|]. intros Hbd _ y Hy. rewrite (B3 Hbd). destruct (Z.le_gt_cases newstart y); [done|].
    destruct (G5 Hbd y Hy); [lia|congruence]. }
  destruct (Z.eqb_spec (er_start rp - ns - rq_size rq) 0) as [Ez|Ez]; [split; [done|congruence]|].
  destruct (take_best_ok b _ ns (pos_after pre) G6 Ez Hpl) as [T1 T2]. apply Hnext; auto.
Qed.
Lemma final_check_spec newstart exend last b :
  search_ok (LoopEnd newstart exend last b) ->
  match final_check ex rq newstart exend last b with
  | LoopEnd _ _ _ _ => False
  | r => search_ok r
  end.
Proof.
  intros (pre & post & El & -> & (G1 & G2 & G3 & G4 & G5 & G6) & E1 & E2 & Hpost).
  destruct (Hok) as (H0 & H1 & H2 & _). destruct (Hrq) as (R1 & R2 & R3 & R4 & R5 & _). unfold final_check.
  rewrite (ulong_small (rq_size rq - 1)) by (split; lia). rewrite LE_OV_spec by (try split; lia).
  destruct (Z.leb_spec (newstart + (rq_size rq - 1)) (subend rq)) as [Hfit|Hno].
  2: { split; [done|]. intros Hbd y Hy _. apply (G5 Hbd y Hy). destruct Hy as (_ & _ & ? & _). lia. }
  pose proof (boundary_check_spec newstart (fun ns => LE_OV ns (rq_size rq - 1) (subend rq))) as Hbc.
  destruct (boundary_check _ _ _ _) as [ns| |]; [destruct Hbc as (B1 & B2 & B3 & B4); [lia..|]| |].
  2,3: split; [done|]; intros Hbd; destruct Hbc; (lia || done).
  assert (Hns : ns + rq_size rq - 1 <= subend rq).
  { destruct B2 as [->|[? Hle]]; [lia|]. rewrite LE_OV_spec in Hle by (try split; lia). boolify. lia. }
  assert (Hpl : placed ns (pos_after pre)).
  { apply placed_between with post; auto; try lia; [destruct post; [done|lia]|]. intros Hbd. by rewrite (B3 Hbd). }
  rewrite (ulong_small (exend - ns)), ulong_small by (split; lia).
  destruct (flag (rq_flags rq) EX_FAST) eqn:Hfast; cbn [orb].
  { split; [done|]. intros Hbd _ y Hy. rewrite (B3 Hbd). destruct (Z.le_gt_cases newstart y); [done|].
    destruct (G5 Hbd y Hy); [lia|congruence]. }
  destruct (Z.eqb_spec (exend - ns - (rq_size rq - 1)) 0) as [Ez|Ez]; [split; [done|congruence]|].
  destruct (take_best_ok b _ ns (pos_after pre) G6 Ez Hpl) as [T1 T2]. split; [done|]. intros Hbd y Hy Hlt. done.
Qed.

(** * The start of the search *)

Lemma first_after_spec l pre n :
  Forall (fun r => er_start r < n) pre ->
  exists p q, first_after l (length pre) (pos_after pre) n = (q, length p, pos_after p) /\ pre ++ l = p ++ q /\
    Forall (fun r => er_start r < n) p /\ match q with [] => True | r :: _ => n <= er_start r end.
Proof.
  revert pre. induction l as [|rp l IH]; intros pre Hpre; simpl; [by exists pre, []|].
  destruct (Z.leb_spec n (er_start rp)); [by exists pre, (rp :: l)|].
  destruct (IH (pre ++ [rp])) as (p & q & E & El & H1).
  { apply Forall_app. by split; [|apply Forall_singleton]. }
  rewrite length_app, pos_after_snoc, Nat.add_1_r in E. exists p, q. rewrite <- app_assoc in El. by split.
Qed.

Lemma sorted_starts g lo hi n l : 0 <= g -> spaced g lo hi l ->
  match l with [] => True | r :: _ => n <= er_start r end -> Forall (fun r => n <= er_start r) l.
Proof.
  intros Hg. revert lo. induction l as [|r l IH]; intros lo; [done|]. intros (? & ? & ? & Hs) Hn.
  apply Forall_cons. split; [done|]. apply (IH _ Hs). destruct l; [done|]. destruct Hs as (? & _). lia.
Qed.

(** The first aligned address of the subregion, and the one behind a region
    that covers it, can be represented. *)
Definition no_overflow : Prop :=
  let n := lift (alignment rq) (skew rq) (substart rq) in
  n < 2 ^ long_bits /\
  forall r, r ∈ ex_regions ex -> er_start r < n -> n <= er_end r ->
    lift (alignment rq) (skew rq) (er_end r + 1) < 2 ^ long_bits.

Hypothesis Hno : no_overflow.

(** Alignment that does not overflow. *)
Lemma align_small s0 : 0 <= s0 -> lift (alignment rq) (skew rq) s0 < 2 ^ long_bits ->
  extent_align (ulong s0) (alignment rq) (skew rq) = lift (alignment rq) (skew rq) s0 /\
  s0 <= lift (alignment rq) (skew rq) s0 /\ aligned rq (lift (alignment rq) (skew rq) s0) /\
  forall y, s0 <= y -> aligned rq y -> lift (alignment rq) (skew rq) s0 <= y.
Proof.
  destruct Hrq as (_ & _ & _ & _ & _ & (p & Hp & Ea) & _). unfold aligned. rewrite Ea. intros Hs Hl.
  pose proof (pow2_pos p). destruct (lift_spec (2 ^ p) (skew rq) s0) as (L1 & L2 & L3); [lia|].
  conj; auto; [|lia]. rewrite extent_align_lift by done. apply ulong_small. split; lia.
Qed.

(** The loop starts behind the region that covers the aligned start, if any. *)
Lemma search_start :
  let n := lift (alignment rq) (skew rq) (substart rq) in
  exists pre l n', first_after (ex_regions ex) 0 None n = (l, length pre, pos_after pre) /\
    ex_regions ex = pre ++ l /\ Forall (fun r => substart rq <= er_start r) l /\
    match pos_after pre with
    | None => Ret n
    | Some j =>
        match ex_regions ex !! j with
        | None => Fault NullDeref
        | Some rp => Ret (if n <=? er_end rp then extent_align (ulong (er_end rp + 1)) (alignment rq) (skew rq) else n)
        end
    end = Ret n' /\ at_gap pre n' (Best 0 0 None).
Proof.
  intros n. destruct (Hok) as (H0 & H1 & H2 & Hsp). destruct (Hrq) as (R1 & R2 & R3 & R4 & R5 & _).
  destruct Hno as [Hn Hcov]. fold n in Hn, Hcov.
  destruct (align_small (substart rq)) as (_ & A2 & A3 & A4); [lia|done|]. fold n in A2, A3, A4.
  destruct (first_after_spec (ex_regions ex) [] n) as (pre & l & E & El & Hpre & Hl); [done|].
  change (pos_after []) with (@None nat) in E. simpl in E, El. rewrite El in Hsp. apply (spaced_1 (gap ex)) in Hsp; [|gaps]. apply spaced_app in Hsp as [Hsp1 Hsp2].
  assert (Hls : Forall (fun r => substart rq <= er_start r) l).
  { apply (sorted_starts 1 _ _ _ _ ltac:(lia) Hsp2). destruct l; [done|lia]. }
  assert (Hb : best_ok (Best 0 0 None)) by (unfold best_ok; simpl; lia).
  destruct pre as [|rp pre _] using rev_ind.
  { exists [], l, n. conj; auto. unfold at_gap. simpl next_lo. conj; auto; [lia|]. intros _ y (Hy1 & Hy2 & _) Hlt.
    apply A4 in Hy2; lia. }
  assert (Hrp : er_start rp <= er_end rp <= ex_end ex).
  { apply spaced_app in Hsp1 as [_ (_ & ? & ? & _)]. lia. }
  assert (Hin : rp ∈ ex_regions ex) by (rewrite El; apply elem_of_app; left; apply elem_of_app; right; by left).
  apply Forall_app in Hpre as [_ Hpre]. apply Forall_cons in Hpre as [Hpre _].
  eexists (pre ++ [rp]), l, _. rewrite pos_after_snoc in *. rewrite E. conj; auto.
  { rewrite El, <- app_assoc. cbn [app]. by rewrite lookup_mid. }
  assert (Hseen : forall y, room y -> n <= y -> n <= er_end rp -> er_end rp < y).
  { intros y (_ & _ & _ & Hy) Hny Hne. destruct (Z.lt_ge_cases (er_end rp) y); [done|]. exfalso.
    apply (Hy y); [lia|]. apply Exists_exists. exists rp. split; [done|]. unfold covers. lia. }
  assert (Hroom : forall y, room y -> n <= y) by (intros y (? & ? & _); auto).
  unfold at_gap. rewrite next_lo_snoc. destruct (Z.leb_spec n (er_end rp)) as [Hle|Hgt].
  - destruct (align_small (er_end rp + 1)) as (B1 & B2 & B3 & B4).
    { lia. } { by apply Hcov. }
    rewrite B1. conj; auto; [lia..|]. intros _ y Hy Hlt. pose proof (Hseen y Hy (Hroom y Hy) Hle).
    destruct Hy as (_ & Hal & _). apply B4 in Hal; lia.
  - conj; auto; [lia|]. intros _ y Hy Hlt. pose proof (Hroom y Hy). lia.
Qed.

(** One pass finds a place, in fast mode the first one, or there is no room. *)
Lemma subregion_search_spec :
  exists r, subregion_search ex rq (lift (alignment rq) (skew rq) (substart rq)) = Ret r /\
    match r with
    | Some (x, last) => placed x last /\
        (boundary rq = 0 -> flag (rq_flags rq) EX_FAST = true -> forall y, room y -> x <= y)
    | None => boundary rq = 0 -> forall y, ~ room y
    end.
Proof.
  unfold subregion_search. destruct search_start as (pre & l & n & -> & El & Hl & -> & Hgap). cbn [bind].
  pose proof (gap_loop_spec l pre n (Best 0 0 None) El Hl Hgap) as Hs.
  set (r := match gap_loop _ _ _ _ _ _ _ with LoopEnd _ _ _ _ => _ | _ => _ end).
  assert (Hr : match r with LoopEnd _ _ _ _ => False | _ => search_ok r end).
  { unfold r. destruct (gap_loop _ _ _ _ _ _ _); [done|done|].
    apply final_check_spec in Hs. by destruct (final_check _ _ _ _ _ _). }
  destruct r as [x last|b|]; [|destruct Hr as [Hb Href]|done].
  - by exists (Some (x, last)).
  - destruct (flag (rq_flags rq) EX_FAST) eqn:Hfast; cbn [negb andb];
      [|destruct (Z.eqb_spec (bestovh b) 0) as [Eb|Eb]; cbn [negb]].
    3: { exists (Some (beststart b, bestlast b)). split; [done|]. split; [by apply Hb|congruence]. }
    all: exists None; split; [done|]; intros Hbd y Hy; destruct (Href Hbd y Hy); [by apply room_max|congruence].
Qed.
End Search.
End Arch.
