(* ===== verification/ExtentSubSpec.v ===== *)
(** The contract of [extent_alloc_subregion], [extent_create] and
    [extent_destroy], and the requests on which the source breaks it. *)

From S2P Require Import Prelude Extent ExtentRegions ExtentAlloc ExtentFree ExtentSpec ExtentSub.

Section Arch.
Context {a : arch}.

(** The argument checks pass. *)
Lemma alloc_subregion_checked diag rq w evs :
  extent_ok (w_ex w) -> request_ok (w_ex w) rq -> rq_size rq - 1 <= subend rq - substart rq ->
  extent_alloc_subregion diag rq w evs =
    (let! (myrp, w, evs) := extent_alloc_region_descriptor (rq_flags rq) w evs in
     match myrp with
     | None => Ret (ENOMEM, None, w, evs)
     | Some myrp => alloc_subregion_start diag rq myrp w evs
     end).
Proof.
  intros (H0 & H1 & H2 & _) (R1 & R2 & R3 & R4 & R5 & (p & Hp & Ea) & Hb) Hsz. unfold extent_alloc_subregion.
  rewrite (ulong_small (subend rq - substart rq)), (ulong_small (rq_size rq - 1)) by (split; lia).
  pose proof (pow2_pos p).
  destruct (Z.ltb_spec (substart rq) (ex_start (w_ex w))), (Z.ltb_spec (ex_end (w_ex w)) (substart rq)),
    (Z.ltb_spec (ex_end (w_ex w)) (subend rq)), (Z.ltb_spec (subend rq) (ex_start (w_ex w))),
    (Z.ltb_spec (rq_size rq) 1), (Z.ltb_spec (subend rq - substart rq) (rq_size rq - 1)),
    (Z.eqb_spec (alignment rq) 0); try lia.
  cbn [orb]. rewrite !andb_false_r.
  destruct (Z.eqb_spec (boundary rq) 0), (Z.ltb_spec (boundary rq) (rq_size rq)); try lia;
    by rewrite ?andb_false_r.
Qed.

Lemma alloc_subregion_start_eq diag rq myrp w evs :
  flag (rq_flags rq) EX_WAITSPACE = false -> extent_ok (w_ex w) -> request_ok (w_ex w) rq -> no_overflow (w_ex w) rq ->
  alloc_subregion_start diag rq myrp w evs =
    (let! r := subregion_search (w_ex w) rq (lift (alignment rq) (skew rq) (substart rq)) in
     match r with
     | Some (x, last) =>
         let! w := extent_insert_and_optimize x (rq_size rq) last myrp w in Ret (0, Some x, w, evs)
     | None => Ret (EAGAIN, None, extent_free_region_descriptor myrp w, evs)
     end).
Proof.
  intros Hs Hok Hrq Hno. destruct (Hok) as (H0 & _). destruct (Hrq) as (R1 & _).
  destruct (align_small (w_ex w) rq Hrq (substart rq)) as (E & E1 & _); [lia|apply Hno|].
  rewrite ulong_small in E by (destruct Hok as (_ & _ & ? & _), Hrq as (_ & ? & _); split; lia).
  destruct evs; simpl; rewrite Hs, E; (destruct (Z.ltb_spec (lift (alignment rq) (skew rq) (substart rq)) (ex_start (w_ex w)));
    [lia|done]).
Qed.

(** Everything a pass without sleeping promises. *)
Definition sub_answer (rq : request) (w : world) (evs : list event) (r : Z) (res : option Z) (w' : world) : Prop :=
  descs w' = descs w /\
  ((exists x, r = 0 /\ res = Some x /\ grants x (x + rq_size rq - 1) (w_ex w) (w_ex w') /\
     substart rq <= x /\ x + rq_size rq - 1 <= subend rq /\
     (boundary rq = 0 -> aligned rq x) /\ (boundary rq <> 0 -> within (w_ex w) rq x) /\
     (boundary rq = 0 -> flag (rq_flags rq) EX_FAST = true -> forall y, room (w_ex w) rq y -> x <= y)) \/
   res = None /\ ex_regions (w_ex w') = ex_regions (w_ex w) /\ extent_ok (w_ex w') /\
   (r = EAGAIN /\ (boundary rq = 0 -> forall y, ~ room (w_ex w) rq y) \/
    r = ENOMEM /\ exists w1 evs1, extent_alloc_region_descriptor (rq_flags rq) w evs = Ret (None, w1, evs1))).

Lemma alloc_subregion_nowait diag rq w evs :
  extent_ok (w_ex w) -> request_ok (w_ex w) rq -> rq_size rq - 1 <= subend rq - substart rq ->
  no_overflow (w_ex w) rq ->
  flag (rq_flags rq) EX_WAITOK = false -> flag (rq_flags rq) EX_WAITSPACE = false -> evs <> [] ->
  exists r res w' evs', extent_alloc_subregion diag rq w evs = Ret (r, res, w', evs') /\
    sub_answer rq w evs r res w'.
Proof.
  intros Hok Hrq Hsz Hno Hw Hs Hevs. rewrite alloc_subregion_checked by done. unfold sub_answer.
  destruct (alloc_desc_nowait (rq_flags rq) w evs Hw Hevs) as (rp & w1 & evs1 & -> & El & Hm & Ef & Hd). cbn [bind].
  assert (Hok1 : extent_ok (w_ex w1)) by (by eapply extent_ok_same).
  destruct rp as [rp|]; [|subst w1; exists ENOMEM, None, w, evs1; split; [done|]; split; [done|]; right; conj; eauto].
  destruct (Hm) as (_ & Es & Ee & _).
  assert (Hrq1 : request_ok (w_ex w1) rq) by (unfold request_ok; by rewrite Es, Ee).
  assert (Hno1 : no_overflow (w_ex w1) rq) by (unfold no_overflow; by rewrite El).
  assert (Hroom : forall y, room (w_ex w1) rq y <-> room (w_ex w) rq y) by (intros y; unfold room; by rewrite El).
  rewrite alloc_subregion_start_eq by done.
  destruct (subregion_search_spec (w_ex w1) rq Hok1 Hrq1 Hno1) as (r & -> & Hr). cbn [bind].
  destruct r as [[x last]|].
  - destruct Hr as [((pre & post & E1 & -> & E3 & E4) & P2 & P3 & P4 & P5) Hfast].
    destruct (Hrq) as (R1 & R2 & R3 & R4 & _).
    destruct (insert_between x (rq_size rq) pre post rp w1) as (w2 & -> & (_ & _ & _ & Hi) & (G1 & G2 & G3 & G4));
      [done|done|lia|lia|lia|done|done|].
    exists 0, (Some x), w2, evs1. split; [done|]. split; [lia|]. left. exists x.
    unfold grants. rewrite <- El. conj; auto; [by rewrite Hm| |].
    + intros Hb. unfold within, line0. rewrite <- Es. by apply P5.
    + intros Hb Hf y Hy. apply Hfast; auto. by apply Hroom.
  - destruct (free_desc rp w1) as (F1 & F2 & F3 & _). exists EAGAIN, None, (extent_free_region_descriptor rp w1), evs1.
    split; [done|]. split; [lia|]. right. rewrite F1, El. conj; auto; [by eapply extent_ok_same|].
    left. split; [done|]. intros Hb y. rewrite <- Hroom. by apply Hr.
Qed.

(** C34.  [extent_alloc_subregion] without [EX_WAITOK] and [EX_WAITSPACE] is sound
    for a size that fits in the subregion, when the first aligned address of
    the subregion, and the one behind a region that covers it, do not overflow:
    when it answers 0,
    the range at [*result] lies in the subregion, was free, is now allocated,
    is aligned (if no boundary is asked for) or crosses no boundary line (if one
    is); otherwise the regions are as before.  The invariant is kept and no
    descriptor lost. *)
Theorem extent_alloc_subregion_sound (diag : bool) (rq : request) (w : world) (evs : list event) :
  extent_ok (w_ex w) -> request_ok (w_ex w) rq -> rq_size rq - 1 <= subend rq - substart rq ->
  no_overflow (w_ex w) rq ->
  flag (rq_flags rq) EX_WAITOK = false -> flag (rq_flags rq) EX_WAITSPACE = false -> evs <> [] ->
  exists r res w' evs', extent_alloc_subregion diag rq w evs = Ret (r, res, w', evs') /\
    extent_ok (w_ex w') /\ descs w' = descs w /\
    match res with
    | Some x => r = 0 /\ grants x (x + rq_size rq - 1) (w_ex w) (w_ex w') /\
        substart rq <= x /\ x + rq_size rq - 1 <= subend rq /\
        (boundary rq = 0 -> aligned rq x) /\ (boundary rq <> 0 -> within (w_ex w) rq x)
    | None => (r = EAGAIN \/ r = ENOMEM) /\ ex_regions (w_ex w') = ex_regions (w_ex w)
    end.
Proof.
  intros H1 H2 H3 H4 H5 H6 H7. destruct (alloc_subregion_nowait diag rq w evs H1 H2 H3 H4 H5 H6 H7)
    as (r & res & w' & evs' & E & Hd & Hres). exists r, res, w', evs'.
  destruct Hres as [(x & -> & -> & Hg & Hrest)|(-> & Hl & Hok & Hr)].
  - pose proof Hg as [Hok _]. intuition.
  - intuition.
Qed.

(** C35.  [extent_alloc_subregion] without a boundary is complete, for requests
    that do not sleep (no [EX_WAITOK], no [EX_WAITSPACE]), with a size that
    fits and first aligned addresses that do not overflow, for which there is a
    region descriptor: it answers [EAGAIN] only when no aligned address of the
    subregion has room for the request, and with [EX_FAST] it takes the first
    address that has. *)
Theorem extent_alloc_subregion_complete (diag : bool) (rq : request) (w : world) (evs : list event) :
  extent_ok (w_ex w) -> request_ok (w_ex w) rq -> rq_size rq - 1 <= subend rq - substart rq ->
  no_overflow (w_ex w) rq -> boundary rq = 0 ->
  flag (rq_flags rq) EX_WAITOK = false -> flag (rq_flags rq) EX_WAITSPACE = false -> evs <> [] ->
  (exists w1 evs1 rp, extent_alloc_region_descriptor (rq_flags rq) w evs = Ret (Some rp, w1, evs1)) ->
  exists r res w' evs', extent_alloc_subregion diag rq w evs = Ret (r, res, w', evs') /\
    match res with
    | Some x => room (w_ex w) rq x /\
        (flag (rq_flags rq) EX_FAST = true -> forall y, room (w_ex w) rq y -> x <= y)
    | None => r = EAGAIN /\ forall y, ~ room (w_ex w) rq y
    end.
Proof.
  intros H1 H2 H3 H4 Hb H5 H6 H7 (w1 & evs1 & rp & Hrp).
  destruct (alloc_subregion_nowait diag rq w evs H1 H2 H3 H4 H5 H6 H7) as (r & res & w' & evs' & E & Hd & Hres).
  exists r, res, w', evs'. split; [done|].
  destruct Hres as [(x & -> & -> & (_ & _ & Hg & _) & A1 & A2 & A3 & _ & A4)|(-> & _ & _ & [[-> Hr]|[_ (w2 & evs2 & Hr)]])].
  - unfold room. conj; auto.
  - auto.
  - congruence.
Qed.
(** * Creation and destruction *)

Lemma ALIGN_lift k z : 0 <= k -> 0 <= z -> z + 2 ^ k <= 2 ^ long_bits ->
  ALIGN (2 ^ k - 1) z = lift (2 ^ k) 0 z.
Proof.
  intros Hk Hz Hmax. unfold ALIGN, lift. pose proof (pow2_pos k Hk).
  rewrite ulong_small by (split; lia).
  replace (2 ^ k - 1) with (Z.ones k) at 2 by (rewrite Z.ones_equiv; lia).
  rewrite <- Z.ldiff_land, Z.ldiff_ones_r, Z.shiftl_mul_pow2, Z.shiftr_div_pow2 by lia.
  assert (E : (0 - z) mod 2 ^ k = (z + (2 ^ k - 1)) / 2 ^ k * 2 ^ k - z); [|lia].
  symmetry. apply Z.mod_unique with (- ((z + (2 ^ k - 1)) / 2 ^ k)); [|lia].
  pose proof (Z.div_mod (z + (2 ^ k - 1)) (2 ^ k)). pose proof (Z.mod_pos_bound (z + (2 ^ k - 1)) (2 ^ k)). lia.
Qed.

(** A descriptor takes at least its size. *)
Lemma ALIGN_ge k z : 0 <= k -> 0 <= z -> z + 2 ^ k <= 2 ^ long_bits -> z <= ALIGN (2 ^ k - 1) z < z + 2 ^ k.
Proof. intros. rewrite ALIGN_lift by done. apply lift_spec. by apply pow2_pos. Qed.

Lemma carve_spec fuel k n fl :
  0 <= k <= 4 -> (n <= fuel)%nat ->
  Z.of_nat n * ALIGN (2 ^ k - 1) sizeof_extent_region < 2 ^ long_bits ->
  carve fuel (2 ^ k - 1) (Z.of_nat n * ALIGN (2 ^ k - 1) sizeof_extent_region) fl =
    Ret (replicate n (Region 0 0 0) ++ fl).
Proof.
  intros Hk Hn Hmax. assert (Hsz : 0 < ALIGN (2 ^ k - 1) sizeof_extent_region).
  { assert (2 ^ k <= 2 ^ 4) by (apply Z.pow_le_mono_r; lia).
    pose proof (ALIGN_ge k sizeof_extent_region ltac:(lia)) as HA.
    assert (2 ^ 32 <= 2 ^ long_bits) by (apply Z.pow_le_mono_r; [lia|]; destruct (long_bits_cases); lia).
    unfold sizeof_extent_region in *. destruct a; lia. }
  set (R := ALIGN (2 ^ k - 1) sizeof_extent_region) in *. revert fuel fl Hn Hmax.
  induction n as [|n IH]; intros fuel fl Hn Hmax.
  - destruct fuel; cbn [carve]; fold R; destruct (Z.leb_spec R (Z.of_nat 0 * R)); (lia || done).
  - destruct fuel as [|fuel]; [lia|]. cbn [carve]. fold R.
    destruct (Z.leb_spec R (Z.of_nat (S n) * R)); [|nia]. rewrite ulong_small by (split; nia).
    replace (Z.of_nat (S n) * R - R) with (Z.of_nat n * R) by lia. rewrite IH by (lia || nia).
    rewrite (replicate_S_end n), <- app_assoc. done.
Qed.

(**  [extent_create] with the storage [EXTENT_FIXED_STORAGE_SIZE(n)]
    computes makes an empty fixed extent with exactly [n] region descriptors,
    on every port's [ALIGN]; the invariant holds. *)
Theorem extent_create_fixed (diag : bool) (k n : nat) (name : string) (start endd mtype flags self : Z)
    (ext_list : list Z) (evs : list event) :
  let alignbytes := 2 ^ Z.of_nat k - 1 in
  let size := ALIGN alignbytes sizeof_extent_fixed + ALIGN alignbytes sizeof_extent_region * Z.of_nat n in
  (k <= 4)%nat -> size < 2 ^ long_bits -> 0 <= start -> start <= endd -> endd < 2 ^ long_bits -> ~ self ∈ ext_list ->
  exists ex, extent_create diag alignbytes name start endd mtype true size flags self ext_list evs =
      Ret (Some ex, self :: ext_list, evs) /\
    extent_ok ex /\ ex_regions ex = [] /\ length (fex_freelist ex) = n /\
    flag (ex_flags ex) EXF_FIXED = true /\ flag (ex_flags ex) EXF_NOCOALESCE = flag flags EX_NOCOALESCE.
Proof.
  intros al size Hk Hsz H0 H1 H2 Hin. assert (2 ^ Z.of_nat k <= 2 ^ 4) by (apply Z.pow_le_mono_r; lia).
  assert (2 ^ 32 <= 2 ^ long_bits) by (apply Z.pow_le_mono_r; [lia|]; destruct (long_bits_cases); lia).
  pose proof (ALIGN_ge (Z.of_nat k) sizeof_extent_fixed ltac:(lia)) as HF.
  pose proof (ALIGN_ge (Z.of_nat k) sizeof_extent_region ltac:(lia)) as HR. fold al in HF, HR.
  assert (HF' : sizeof_extent_fixed <= ALIGN al sizeof_extent_fixed) by (unfold sizeof_extent_fixed in *; destruct a; lia).
  assert (HR' : 20 <= ALIGN al sizeof_extent_region) by (unfold sizeof_extent_region in *; destruct a; lia).
  assert (0 <= sizeof_extent_fixed) by (unfold sizeof_extent_fixed; destruct a; lia).
  unfold extent_create. destruct (Z.ltb_spec endd start); [lia|]. rewrite andb_false_r.
  destruct (Z.ltb_spec size sizeof_extent_fixed); [nia|]. rewrite !andb_false_r. cbn [negb andb].
  replace (size - ALIGN al sizeof_extent_fixed) with (Z.of_nat n * ALIGN al sizeof_extent_region) by (unfold size; lia).
  rewrite ulong_small by (split; nia). unfold al. rewrite carve_spec by (fold al; try lia; nia). cbn [bind].
  unfold extent_register. rewrite bool_decide_false by done. rewrite andb_false_r. cbn [bind].
  eexists; split; [done|]. rewrite app_nil_r. simpl. rewrite length_replicate. conj; auto.
  - unfold extent_ok. simpl. conj; auto.
  - by destruct (flag flags EX_NOCOALESCE).
  - by destruct (flag flags EX_NOCOALESCE).
Qed.

Lemma destroy_regions_spec l w :
  ex_regions (w_ex w) = l ->
  let w' := destroy_regions l w in
  ex_regions (w_ex w') = [] /\ same_map (w_ex w) (w_ex w') /\ descs w' = descs w.
Proof.
  revert w. induction l as [|r l IH]; intros w El; [done|]. cbn [destroy_regions]. cbv zeta.
  set (w1 := with_ex w (set_regions (w_ex w) l)). destruct (free_desc r w1) as (F1 & F2 & F3 & _).
  destruct (IH (extent_free_region_descriptor r w1) F1) as (I1 & I2 & I3). conj; [done| |].
  - etrans; [|exact I2]. by etrans; [apply set_regions_same|exact F2].
  - rewrite I3, F3. unfold descs, w1. simpl. rewrite El. simpl. lia.
Qed.

(**  [extent_destroy] gives every descriptor back: no region is left, the
    descriptors that were in use or on the freelist are on the freelist or back
    in the pool, and the extent is off the list of extents. *)
Theorem extent_destroy_conserves (self : Z) (ext_list : list Z) (w : world) :
  exists w', extent_destroy self ext_list w =
      (w', filter (fun e => e <> self) ext_list, negb (flag (ex_flags (w_ex w)) EXF_FIXED)) /\
    ex_regions (w_ex w') = [] /\ Z.of_nat (length (fex_freelist (w_ex w'))) - w_pool w' = descs w.
Proof.
  unfold extent_destroy. destruct (destroy_regions_spec (ex_regions (w_ex w)) w eq_refl) as (D1 & D2 & D3).
  eexists. split; [destruct D2 as (_ & _ & _ & _ & -> & _); done|]. split; [done|].
  rewrite <- D3. unfold descs. rewrite D1. simpl. lia.
Qed.

(** * Where the source breaks the contract *)

(**  A sleep for space that is interrupted loses the region descriptor
    the call has taken from a fixed extent: nothing else has changed, and one
    descriptor less is left. *)
Theorem extent_alloc_region_leaks (diag : bool) (start size flags : Z) (w : world) (e : event) (x : Z) :
  extent_ok (w_ex w) -> range_ok (w_ex w) start size ->
  flag (ex_flags (w_ex w)) EXF_FIXED = true -> fex_freelist (w_ex w) <> [] ->
  flag flags EX_WAITSPACE = true -> ev_error e <> 0 -> (forall ex, ev_others e ex = ex) ->
  start <= x <= start + size - 1 -> allocated (ex_regions (w_ex w)) x ->
  exists w', extent_alloc_region diag start size flags w [e] = Ret (ev_error e, w', []) /\
    ex_regions (w_ex w') = ex_regions (w_ex w) /\ w_pool w' = w_pool w /\ descs w' = descs w - 1.
Proof.
  intros Hok Hr Hfix Hfl Hws He Hid Hx Ha. rewrite alloc_region_checked by done.
  unfold extent_alloc_region_descriptor. rewrite Hfix. destruct (fex_freelist (w_ex w)) as [|rp fl] eqn:Ef; [done|].
  cbn [wait_freelist]. rewrite Ef. cbn [bind]. simpl fex_freelist. rewrite Ef. cbn [bind].
  set (w1 := with_ex _ _). rewrite alloc_region_start_eq.
  assert (Hok1 : extent_ok (w_ex w1)) by (by apply (extent_ok_same (w_ex w))).
  pose proof (region_place start size rp w1 Hok1) as Hp. destruct Hr as (R1 & R2 & R3).
  destruct (region_search _ _ _ _ _) as [|last].
  - rewrite Hws. cbv zeta. rewrite Hid. destruct (Z.eqb_spec (ev_error e) 0); [done|]. cbn [negb].
    eexists; split; [done|]. conj; try done. unfold descs. simpl. rewrite Ef. simpl. lia.
  - destruct Hp as (w2 & _ & _ & (_ & _ & Hfree & _)); [done..|]. exfalso. by apply (Hfree x).
Qed.
End Arch.

(** A device with registers at the top of a 32-bit bus. *)
Definition bus : extent :=
  Extent "mem" [Region 0xfffff000 0xffffffff 0] 0x1000 0xffffffff 0 EXF_FIXED [Region 0 0 0].

(**  [extent_alloc_subregion] overflows: where the subregion starts in a
    region that ends at the top of the address space, the search goes on at
    address 0.  The call answers 0 with [*result] outside the extent and leaves
    a region that ends before it starts. *)
Theorem extent_alloc_subregion_overflows :
  extent_ok (a := ILP32) bus /\
  exists w', extent_alloc_subregion (a := ILP32) true (Request 0xfffff800 0xffffffff 0x100 1 0 0 0)
      (World bus 0 []) [] = Ret (0, Some 0, w', []) /\
    ex_regions (w_ex w') = [Region 0xfffff000 0xff 0] /\ ~ extent_ok (a := ILP32) (w_ex w').
Proof.
  split; [compute_decide|]. eexists; split; [vm_compute; reflexivity|]. split; [done|]. compute_decide.
Qed.

(**  A boundary makes [extent_alloc_subregion] forget the skew: moving the
    candidate to the boundary line leaves it unaligned. *)
Theorem extent_alloc_subregion_misaligned :
  let rq := Request 0 0xffff 0x80 8 4 0x100 EX_FAST in
  exists w', extent_alloc_subregion (a := LP64) true rq
      (World (Extent "dma" [Region 0 0xbf 0] 0 0xffff 0 EXF_FIXED [Region 0 0 0]) 0 []) [] =
      Ret (0, Some 0x100, w', []) /\ ~ aligned rq 0x100.
Proof. eexists; split; [vm_compute; reflexivity|]. intros H. vm_compute in H. discriminate. Qed.

(** * Witnesses *)

#[export] Instance no_overflow_dec {a : arch} ex rq : Decision (no_overflow ex rq).
Proof.
  unfold no_overflow. destruct (decide (lift (alignment rq) (skew rq) (substart rq) < 2 ^ long_bits)) as [H|H];
    [|right; tauto].
  destruct (decide (Forall (fun r => er_start r < lift (alignment rq) (skew rq) (substart rq) ->
    lift (alignment rq) (skew rq) (substart rq) <= er_end r ->
    lift (alignment rq) (skew rq) (er_end r + 1) < 2 ^ long_bits) (ex_regions ex))) as [H1|H1].
  - left. split; [done|]. intros r Hr. rewrite Forall_forall in H1. by apply H1.
  - right. intros [_ H2]. apply H1, Forall_forall. intros r Hr. by apply H2.
Defined.

(** First fit of 16 ports behind the first region of [io]. *)
Definition io_request : request := Request 0x180 0xfff 0x10 0x10 0 0 EX_FAST.

Lemma io_request_ok {a : arch} : request_ok io io_request.
Proof.
  unfold request_ok. simpl. pose proof long_bits_pos.
  assert (2 ^ 32 <= 2 ^ long_bits) by (apply Z.pow_le_mono_r; [lia|]; destruct (long_bits_cases); lia).
  conj; auto; try lia. exists 4. split; [|done]. destruct (long_bits_cases); lia.
Qed.

Lemma extent_alloc_subregion_sound_witness :
  exists r res w' evs', extent_alloc_subregion (a := LP64) true io_request (World io 0 []) [quiet] = Ret (r, res, w', evs') /\
    extent_ok (a := LP64) (w_ex w') /\ descs w' = 4 /\
    match res with
    | Some x => r = 0 /\ grants (a := LP64) x (x + 0x10 - 1) io (w_ex w') /\
        0x180 <= x /\ x + 0x10 - 1 <= 0xfff /\
        (0 = 0 -> aligned io_request x) /\ (0 <> 0 -> within io io_request x)
    | None => (r = EAGAIN \/ r = ENOMEM) /\ ex_regions (w_ex w') = ex_regions io
    end.
Proof.
  apply (extent_alloc_subregion_sound (a := LP64) true io_request (World io 0 []) [quiet]);
    [compute_decide|apply io_request_ok|compute_decide|compute_decide|reflexivity|reflexivity|discriminate].
Defined.

Lemma extent_alloc_subregion_complete_witness :
  exists r res w' evs', extent_alloc_subregion (a := LP64) true io_request (World io 0 []) [quiet] = Ret (r, res, w', evs') /\
    match res with
    | Some x => room io io_request x /\ (true = true -> forall y, room io io_request y -> x <= y)
    | None => r = EAGAIN /\ forall y, ~ room io io_request y
    end.
Proof.
  apply (extent_alloc_subregion_complete (a := LP64) true io_request (World io 0 []) [quiet]);
    [compute_decide|apply io_request_ok|compute_decide|compute_decide|reflexivity|reflexivity|reflexivity|discriminate|].
  eexists _, _, _. reflexivity.
Defined.

Lemma extent_create_fixed_witness :
  exists ex, extent_create (a := LP64) true (2 ^ 3 - 1) "io" 0 0xffff 0 true (80 + 40 * 8) 0 7 [] [] = Ret (Some ex, [7], []) /\
    extent_ok (a := LP64) ex /\ ex_regions ex = [] /\ length (fex_freelist ex) = 8%nat /\
    flag (ex_flags ex) EXF_FIXED = true /\ flag (ex_flags ex) EXF_NOCOALESCE = false.
Proof.
  apply (extent_create_fixed (a := LP64) true 3 8 "io" 0 0xffff 0 0 7 [] []);
    [lia|compute_decide|lia|lia|compute_decide|by apply not_elem_of_nil].
Defined.

Lemma extent_alloc_region_leaks_witness :
  exists w', extent_alloc_region (a := LP64) true 0x180 0x10 EX_WAITSPACE (World io 0 []) [Event 4 (fun ex => ex)] =
      Ret (4, w', []) /\
    ex_regions (w_ex w') = ex_regions io /\ w_pool w' = 0 /\ descs w' = 4 - 1.
Proof.
  apply (extent_alloc_region_leaks (a := LP64) true 0x180 0x10 EX_WAITSPACE (World io 0 []) (Event 4 (fun ex => ex)) 0x180);
    [compute_decide|compute_decide|reflexivity|discriminate|reflexivity|discriminate|done|lia|compute_decide].
Defined.
