(* ===== verification/Lockf.v ===== *)
(** Advisory byte-range locks ([sys/kern/vfs_lockf.c], [sys/sys/lockf.h]): the
    lock list of an inode, blocking, deadlock detection, and the limit on locks
    per user.

    A [struct lockf] is a record that carries its address.  The list of an
    inode is a Rocq list; a pair [prev], [overlap] of the C code, a link and
    what it points to, is a split of that list in two.  Waiters are addresses
    of their (unlinked) locks.  [tsleep] takes the next event of a given list:
    its error, and what other processes have made of the state meanwhile. *)

From S2P Require Import Prelude.

(** * Data *)

Definition F_GETLK := 7.
Definition F_SETLK := 8.
Definition F_RDLCK := 1.
Definition F_UNLCK := 2.
Definition F_WRLCK := 3.
Definition F_WAIT := 0x010.
Definition F_FLOCK := 0x020.
Definition F_POSIX := 0x040.

Definition SEEK_SET := 0.
Definition SEEK_CUR := 1.
Definition SEEK_END := 2.

Definition SELF := 0x1.
Definition OTHERS := 0x2.
Definition MAXDEPTH := 50.
Definition maxlocksperuid := 1024.

Definition LF_EINVAL := 22.
Definition LF_EAGAIN := 35.

Record lockf := Lock {
  lf_self : Z;                  (* its address *)
  lf_blkhd : list Z;            (* the list of blocked locks *)
  lf_start : Z;                 (* first byte *)
  lf_end : Z;                   (* last byte, -1 is the end of file *)
  lf_id : Z;                    (* the holder *)
  lf_flags : Z;
  lf_type : Z;
  lf_uid : Z
}.

Definition set_blkhd (l : lockf) (b : list Z) : lockf :=
  Lock (lf_self l) b (lf_start l) (lf_end l) (lf_id l) (lf_flags l) (lf_type l) (lf_uid l).
Definition set_start (l : lockf) (s : Z) : lockf :=
  Lock (lf_self l) (lf_blkhd l) s (lf_end l) (lf_id l) (lf_flags l) (lf_type l) (lf_uid l).
Definition set_end (l : lockf) (e : Z) : lockf :=
  Lock (lf_self l) (lf_blkhd l) (lf_start l) e (lf_id l) (lf_flags l) (lf_type l) (lf_uid l).
Definition set_type (l : lockf) (t : Z) : lockf :=
  Lock (lf_self l) (lf_blkhd l) (lf_start l) (lf_end l) (lf_id l) (lf_flags l) t (lf_uid l).

Record flock := Flock { l_start : Z; l_len : Z; l_pid : Z; l_type : Z; l_whence : Z }.

(** The state the functions work on: the list of one inode; [ui_lockcnt] of
    every user; the locks woken so far; the address the pool hands out next;
    and for a process asleep in [lf_setlock] the flags and the holder of the
    lock it waits for. *)
Record state := State {
  lf_list : list lockf;
  ui_lockcnt : Z -> Z;
  woken : list Z;
  next_addr : Z;
  waits_for : Z -> option (Z * Z)
}.

Definition with_list (st : state) (l : list lockf) : state :=
  State l (ui_lockcnt st) (woken st) (next_addr st) (waits_for st).

(** [off_t] has 64 bits. *)
Definition off (z : Z) : Z := swrap 64 z.

(** * Allocation *)

Definition count_lock (st : state) (uid d : Z) : state :=
  State (lf_list st) (fun u => if u =? uid then ui_lockcnt st u + d else ui_lockcnt st u)
    (woken st) (next_addr st) (waits_for st).

(** [lf_alloc]: the address of the new lock, whose other fields the callers
    assign. *)
Definition lf_alloc (uid allowfail : Z) (st : state) : option Z * state :=
  if negb (uid =? 0) && negb (allowfail =? 0) &&
     ((if allowfail =? 1 then maxlocksperuid else maxlocksperuid * 2) <? ui_lockcnt st uid)
  then (None, st)
  else
    let st := count_lock st uid 1 in
    (Some (next_addr st), State (lf_list st) (ui_lockcnt st) (woken st) (next_addr st + 1) (waits_for st)).

Definition lf_free (lock : lockf) (st : state) : state := count_lock st (lf_uid lock) (-1).

(** [lf_wakelock]: the lock with its list emptied, and everybody on it woken. *)
Definition lf_wakelock (lock : lockf) (st : state) : lockf * state :=
  (set_blkhd lock [], State (lf_list st) (ui_lockcnt st) (woken st ++ lf_blkhd lock) (next_addr st) (waits_for st)).

(** * Overlaps *)

(** [lf_findoverlap]: the case, and the list split at [overlap]; [aft] starts
    at the [lf] it is called with. *)
Fixpoint lf_findoverlap (bef aft : list lockf) (lock : lockf) (type : Z) :
    outcome (Z * list lockf * list lockf) :=
  let start := lf_start lock in
  let endd := lf_end lock in
  match aft with
  | [] => Ret (0, bef, [])
  | lf :: rest =>
      if flag type SELF && negb (lf_id lf =? lf_id lock) || flag type OTHERS && (lf_id lf =? lf_id lock) then
        lf_findoverlap (bef ++ [lf]) rest lock type
      else if negb (lf_end lf =? -1) && (lf_end lf <? start) || negb (endd =? -1) && (endd <? lf_start lf) then
        if flag type SELF && negb (endd =? -1) && (endd <? lf_start lf) then Ret (0, bef, aft)
        else lf_findoverlap (bef ++ [lf]) rest lock type
      else if (lf_start lf =? start) && (lf_end lf =? endd) then Ret (1, bef, aft)
      else if (lf_start lf <=? start) && ((lf_end lf =? -1) || negb (endd =? -1) && (endd <=? lf_end lf)) then
        Ret (2, bef, aft)
      else if (start <=? lf_start lf) && ((endd =? -1) || negb (lf_end lf =? -1) && (lf_end lf <=? endd)) then
        Ret (3, bef, aft)
      else if (lf_start lf <? start) && ((start <=? lf_end lf) || (lf_end lf =? -1)) then Ret (4, bef, aft)
      else if (start <? lf_start lf) && negb (endd =? -1) && ((endd <? lf_end lf) || (lf_end lf =? -1)) then
        Ret (5, bef, aft)
      else Panic "lf_findoverlap: default"
  end.

(** The [while] loop of [lf_getblock]; each iteration starts further down the
    list. *)
Fixpoint getblock_loop (fuel : nat) (lock : lockf) (bef aft : list lockf) : outcome (option lockf) :=
  match fuel with
  | O => Spin
  | S fuel =>
      let! (ovcase, bef, aft) := lf_findoverlap bef aft lock OTHERS in
      if ovcase =? 0 then Ret None
      else
        match aft with
        | [] => Fault NullDeref
        | overlap :: rest =>
            if (lf_type lock =? F_WRLCK) || (lf_type overlap =? F_WRLCK) then Ret (Some overlap)
            else getblock_loop fuel lock (bef ++ [overlap]) rest
        end
  end.

Definition lf_getblock (lock : lockf) (st : state) : outcome (option lockf) :=
  getblock_loop (S (length (lf_list st))) lock [] (lf_list st).

(** [lf_getlock]; [pid_of] is [p_pid] of the process a holder is. *)
Definition lf_getlock (pid_of : Z -> Z) (lock : lockf) (fl : flock) (st : state) : outcome flock :=
  let! block := lf_getblock lock st in
  match block with
  | Some block =>
      Ret (Flock (lf_start block)
        (if lf_end block =? -1 then 0 else off (lf_end block - lf_start block + 1))
        (if flag (lf_flags block) F_POSIX then pid_of (lf_id block) else -1)
        (lf_type block) SEEK_SET)
  | None => Ret (Flock (l_start fl) (l_len fl) (l_pid fl) F_UNLCK (l_whence fl))
  end.

(** * Splitting and clearing *)

(** [lf_split]: what the list has in place of [lock1].  When both start at the
    same byte [lock2] is not linked in (the callers see to that case). *)
Definition lf_split (lock1 lock2 : lockf) (st : state) : list lockf * state :=
  if lf_start lock1 =? lf_start lock2 then
    ([set_start lock1 (off (lf_end lock2 + 1))], st)
  else if lf_end lock1 =? lf_end lock2 then
    ([set_end lock1 (off (lf_start lock2 - 1)); lock2], st)
  else
    let '(addr, st) := lf_alloc (lf_uid lock1) 0 st in
    let splitlock := Lock (default 0 addr) [] (off (lf_end lock2 + 1)) (lf_end lock1) (lf_id lock1)
      (lf_flags lock1) (lf_type lock1) (lf_uid lock1) in
    ([set_end lock1 (off (lf_start lock2 - 1)); lock2; splitlock], st).

(** The loop of [lf_clearlock]. *)
Fixpoint clearlock_loop (fuel : nat) (lock : lockf) (bef aft : list lockf) (st : state) : outcome state :=
  match fuel with
  | O => Spin
  | S fuel =>
      let! (ovcase, bef, aft) := lf_findoverlap bef aft lock SELF in
      if ovcase =? 0 then Ret (with_list st (bef ++ aft))
      else
        match aft with
        | [] => Fault NullDeref
        | overlap :: rest =>
            let '(overlap, st) := lf_wakelock overlap st in
            if ovcase =? 1 then Ret (lf_free overlap (with_list st (bef ++ rest)))
            else if ovcase =? 2 then
              if lf_start overlap =? lf_start lock then
                Ret (with_list st (bef ++ set_start overlap (off (lf_end lock + 1)) :: rest))
              else
                let '(seg, st) := lf_split overlap lock st in
                Ret (with_list st (bef ++ filter (fun l => lf_self l <> lf_self lock) seg ++ rest))
            else if ovcase =? 3 then clearlock_loop fuel lock bef rest (lf_free overlap st)
            else if ovcase =? 4 then
              clearlock_loop fuel lock (bef ++ [set_end overlap (off (lf_start lock - 1))]) rest st
            else Ret (with_list st (bef ++ set_start overlap (off (lf_end lock + 1)) :: rest))
        end
  end.

Definition lf_clearlock (lock : lockf) (st : state) : outcome state :=
  match lf_list st with
  | [] => Ret st
  | _ => clearlock_loop (S (length (lf_list st))) lock [] (lf_list st) st
  end.

(** * Setting a lock *)

(** The loop that adds the lock.  [linked] is [None] while the lock is to be
    linked after [bef]; once it is, the list is [bef ++ lock :: mid ++ aft].
    Freeing or linking it a second time would leave a dangling pointer. *)
Fixpoint link_loop (fuel : nat) (lock : lockf) (bef : list lockf) (linked : option (list lockf))
    (aft : list lockf) (st : state) : outcome state :=
  match fuel with
  | O => Spin
  | S fuel =>
      let! (ovcase, before, aft) := lf_findoverlap (default bef linked) aft lock SELF in
      match aft with
      | [] =>
          match linked with
          | None => Ret (with_list st (before ++ [lock]))
          | Some _ => Ret (with_list st (bef ++ lock :: before))
          end
      | overlap :: rest =>
          let done (l : list lockf) (st : state) :=
            match linked with
            | None => Ret (with_list st (before ++ l))
            | Some _ => Ret (with_list st (bef ++ lock :: before ++ l))
            end in
          let downgrade := (lf_type lock =? F_RDLCK) && (lf_type overlap =? F_WRLCK) in
          if ovcase =? 0 then
            match linked with None => done (lock :: aft) st | Some _ => done aft st end
          else if ovcase =? 1 then
            match linked with
            | Some _ => Fault UseAfterFree
            | None =>
                let '(overlap, st) := if downgrade then lf_wakelock overlap st else (overlap, st) in
                done (set_type overlap (lf_type lock) :: rest) (lf_free lock st)
            end
          else if ovcase =? 2 then
            match linked with
            | Some _ => Fault UseAfterFree
            | None =>
                if lf_type overlap =? lf_type lock then done aft (lf_free lock st)
                else if lf_start overlap =? lf_start lock then
                  let '(overlap, st) := lf_wakelock (set_start overlap (off (lf_end lock + 1))) st in
                  done (lock :: overlap :: rest) st
                else
                  let '(seg, st) := lf_split overlap lock st in
                  match seg with
                  | [] => Fault NullDeref
                  | overlap :: seg =>
                      let '(overlap, st) := lf_wakelock overlap st in
                      done (overlap :: seg ++ rest) st
                  end
            end
          else if ovcase =? 3 then
            let '(lock, st) :=
              if downgrade then (lock, (lf_wakelock overlap st).2)
              else (set_blkhd lock (lf_blkhd lock ++ lf_blkhd overlap), st) in
            let st := lf_free overlap st in
            match linked with
            | None => link_loop fuel lock before (Some []) rest st
            | Some _ => link_loop fuel lock bef (Some before) rest st
            end
          else if ovcase =? 4 then
            match linked with
            | Some _ => Fault UseAfterFree
            | None =>
                let '(overlap, st) := lf_wakelock (set_end overlap (off (lf_start lock - 1))) st in
                link_loop fuel lock (before ++ [overlap]) (Some []) rest st
            end
          else
            let '(overlap, st) := lf_wakelock (set_start overlap (off (lf_end lock + 1))) st in
            match linked with
            | None => done (lock :: overlap :: rest) st
            | Some _ => done (overlap :: rest) st
            end
      end
  end.

(** The deadlock check: is [id] met on the chain of who waits for whom? *)
Fixpoint deadlock_loop (depth : nat) (waits : Z -> option (Z * Z)) (id wproc : Z) : bool :=
  match depth with
  | O => false
  | S depth =>
      match waits wproc with
      | None => false
      | Some (flags, wproc) =>
          if negb (flag flags F_POSIX) then false
          else if wproc =? id then true
          else deadlock_loop depth waits id wproc
      end
  end.

Record event := Event { ev_error : Z; ev_others : state -> state }.

(** Taking a request off, or putting it on, the blocked list of a lock. *)
Definition unblock (self : Z) (st : state) : state :=
  with_list st ((fun l => set_blkhd l (filter (fun b => b <> self) (lf_blkhd l))) <$> lf_list st).
Definition block_on (block : lockf) (self : Z) (st : state) : state :=
  with_list st ((fun l => if lf_self l =? lf_self block then set_blkhd l (lf_blkhd l ++ [self]) else l) <$> lf_list st).

(** [lf_setlock]; the [while] loop goes round once per sleep. *)
Fixpoint lf_setlock (lock : lockf) (st : state) (evs : list event) : outcome (Z * state * list event) :=
  let! block := lf_getblock lock st in
  match block with
  | None =>
      let! st := link_loop (S (length (lf_list st))) lock [] None (lf_list st) st in Ret (0, st, evs)
  | Some block =>
      if negb (flag (lf_flags lock) F_WAIT) then Ret (LF_EAGAIN, lf_free lock st, evs)
      else if flag (lf_flags lock) F_POSIX && flag (lf_flags block) F_POSIX &&
              deadlock_loop (Z.to_nat MAXDEPTH) (waits_for st) (lf_id lock) (lf_id block) then
        Ret (EDEADLK, lf_free lock st, evs)
      else
        let! st :=
          if flag (lf_flags lock) F_FLOCK && (lf_type lock =? F_WRLCK) then
            lf_clearlock (set_type lock F_UNLCK) st
          else Ret st in
        let st := block_on block (lf_self lock) st in
        match evs with
        | [] => Spin
        | e :: evs =>
            let st := unblock (lf_self lock) (ev_others e st) in
            if negb (ev_error e =? 0) then Ret (ev_error e, lf_free lock st, evs)
            else lf_setlock lock st evs
        end
  end.

(** * [lf_advlock] *)

(** The conversion of a [struct flock] into a first and a last byte. *)
Definition flock_range (size : Z) (fl : flock) : option (Z * Z) :=
  let whence := l_whence fl in
  match
    (if (whence =? SEEK_SET) || (whence =? SEEK_CUR) then Some (l_start fl)
     else if whence =? SEEK_END then Some (off (size + l_start fl))
     else None)
  with
  | None => None
  | Some start =>
      if start <? 0 then None
      else if l_len fl =? 0 then Some (start, -1)
      else
        let endd := off (off (start + l_len fl) - 1) in
        if endd <? start then None else Some (start, endd)
  end.

(** The error, [*fl] and the state; [uid] is the user of the calling process. *)
Definition lf_advlock (pid_of : Z -> Z) (uid size id op : Z) (fl : flock) (flags : Z) (st : state)
    (evs : list event) : outcome (Z * flock * state * list event) :=
  match flock_range size fl with
  | None => Ret (LF_EINVAL, fl, st, evs)
  | Some (start, endd) =>
      if match lf_list st with [] => negb (op =? F_SETLK) | _ => false end then
        Ret (0, Flock (l_start fl) (l_len fl) (l_pid fl) F_UNLCK (l_whence fl), st, evs)
      else
        let '(addr, st) := lf_alloc uid (if negb (op =? F_UNLCK) then 1 else 2) st in
        match addr with
        | None => Ret (ENOMEM, fl, st, evs)
        | Some addr =>
            let lock := Lock addr [] start endd id flags (l_type fl) uid in
            if op =? F_SETLK then
              let! (error, st, evs) := lf_setlock lock st evs in Ret (error, fl, st, evs)
            else if op =? F_UNLCK then
              let! st := lf_clearlock lock st in Ret (0, fl, lf_free lock st, evs)
            else if op =? F_GETLK then
              let! fl := lf_getlock pid_of lock fl st in Ret (0, fl, lf_free lock st, evs)
            else Ret (LF_EINVAL, fl, lf_free lock st, evs)
        end
  end.
