(* ===== verification/LockfList.v ===== *)
(** Lock lists: which bytes a holder has locked and how, the order of a
    holder's locks, and what [lf_findoverlap] finds. *)

From S2P Require Import Prelude Lockf.

(** * Ranges *)

(** Offsets end here; a lock to the end of file has this last byte. *)
Definition OFF_MAX : Z := 2 ^ 63 - 1.

Definition lf_hi (l : lockf) : Z := if lf_end l =? -1 then OFF_MAX else lf_end l.

Definition on (l : lockf) (x : Z) : Prop := lf_start l <= x <= lf_hi l.

(** A lock of representable bytes; the last representable byte can only be
    locked to the end of file. *)
Definition lock_ok (l : lockf) : Prop := 0 <= lf_start l /\ lf_start l <= lf_hi l /\ lf_end l < OFF_MAX.

#[export] Instance on_dec l x : Decision (on l x).
Proof. unfold on. apply _. Defined.
#[export] Instance lock_ok_dec l : Decision (lock_ok l).
Proof. unfold lock_ok. apply _. Defined.

Lemma lf_hi_max l : lock_ok l -> lf_hi l <= OFF_MAX.
Proof. unfold lock_ok, lf_hi. destruct (lf_end l =? -1); lia. Qed.

(** The end is [-1] exactly for the last byte. *)
Lemma lf_end_cases l : lock_ok l ->
  (lf_end l = -1 /\ lf_hi l = OFF_MAX) \/ (lf_end l <> -1 /\ lf_hi l = lf_end l /\ lf_hi l < OFF_MAX).
Proof. unfold lock_ok, lf_hi. destruct (Z.eqb_spec (lf_end l) (-1)); [by left|]. right. lia. Qed.

Lemma off_small z : - 2 ^ 63 <= z < 2 ^ 63 -> off z = z.
Proof. intros. unfold off, swrap, wrap. rewrite Z.mod_small; lia. Qed.

(** * The locks of a holder *)

Definition own (id : Z) (l : list lockf) : list lockf := filter (fun f => lf_id f = id) l.

(** Sorted and disjoint, from byte [lo] on. *)
Fixpoint ordered (lo : Z) (l : list lockf) : Prop :=
  match l with
  | [] => True
  | f :: l => lo <= lf_start f /\ lock_ok f /\ ordered (lf_hi f + 1) l
  end.

#[export] Instance ordered_dec lo l : Decision (ordered lo l).
Proof. revert lo. induction l; simpl; intros; apply _. Defined.

(** Byte [x] is locked with type [ty] by a lock of [l]. *)
Definition cov (l : list lockf) (ty x : Z) : Prop := Exists (fun f => lf_type f = ty /\ on f x) l.

Lemma own_app id l1 l2 : own id (l1 ++ l2) = own id l1 ++ own id l2.
Proof. apply filter_app. Qed.

Lemma own_cons_eq id f l : lf_id f = id -> own id (f :: l) = f :: own id l.
Proof. intros. unfold own. by rewrite filter_cons_True. Qed.

Lemma own_cons_ne id f l : lf_id f <> id -> own id (f :: l) = own id l.
Proof. intros. unfold own. by rewrite filter_cons_False. Qed.

Lemma cov_nil ty x : ~ cov [] ty x.
Proof. unfold cov. rewrite Exists_nil. tauto. Qed.

Lemma cov_cons f l ty x : cov (f :: l) ty x <-> lf_type f = ty /\ on f x \/ cov l ty x.
Proof. apply Exists_cons. Qed.

Lemma cov_app l1 l2 ty x : cov (l1 ++ l2) ty x <-> cov l1 ty x \/ cov l2 ty x.
Proof. apply Exists_app. Qed.

Lemma ordered_mono lo lo' l : lo' <= lo -> ordered lo l -> ordered lo' l.
Proof. destruct l; simpl; [done|]. intros ? (? & ? & ?). conj; auto. lia. Qed.

(** The least start after [l]. *)
Fixpoint after (lo : Z) (l : list lockf) : Z :=
  match l with [] => lo | f :: l => after (lf_hi f + 1) l end.

Lemma after_snoc lo l f : after lo (l ++ [f]) = lf_hi f + 1.
Proof. revert lo. induction l as [|g l IH]; intros lo; simpl; auto. Qed.

Lemma ordered_app lo l1 l2 : ordered lo (l1 ++ l2) <-> ordered lo l1 /\ ordered (after lo l1) l2.
Proof. revert lo. induction l1 as [|f l1 IH]; intros lo; simpl; [tauto|]. rewrite IH. tauto. Qed.

Lemma after_ge lo l : ordered lo l -> lo <= after lo l.
Proof.
  revert lo. induction l as [|f l IH]; intros lo; simpl; [lia|]. intros (? & (? & ? & ?) & Hs).
  apply IH in Hs. lia.
Qed.

(** All of [l] ends before byte [n]. *)
Lemma after_below lo l n : ordered lo l -> Forall (fun f => lf_hi f < n) l -> after lo l <= n \/ l = [].
Proof.
  intros Hs Hf. destruct l as [|f l _] using rev_ind; [by right|left]. rewrite after_snoc.
  apply Forall_app in Hf as [_ Hf]. apply Forall_cons in Hf as [Hf _]. lia.
Qed.

Lemma cov_bounds lo l ty x : ordered lo l -> cov l ty x -> lo <= x.
Proof.
  revert lo. induction l as [|f l IH]; intros lo; simpl; [intros _ H; by apply cov_nil in H|].
  intros (? & (? & ? & ?) & Hs). rewrite cov_cons. unfold on. intros [?|Hc]; [lia|]. apply (IH _ Hs) in Hc. lia.
Qed.

Lemma cov_below l n ty x : Forall (fun f => lf_hi f < n) l -> cov l ty x -> x < n.
Proof.
  intros Hf Hc. apply Exists_exists in Hc as (f & Hin & _ & Hon). rewrite Forall_forall in Hf.
  apply Hf in Hin. unfold on in Hon. lia.
Qed.

Lemma ordered_drop lo l1 f l2 : ordered lo (l1 ++ f :: l2) -> ordered lo (l1 ++ l2).
Proof.
  rewrite !ordered_app. simpl. intros (H1 & H2 & (? & ? & ?) & H4). split; [done|].
  by apply ordered_mono with (lf_hi f + 1); [lia|].
Qed.

(** * [lf_findoverlap] *)

(** What the cases 1 to 5 mean for the overlapping lock [f]. *)
Definition ovcase_ok (c : Z) (lock f : lockf) : Prop :=
  match c with
  | 1 => lf_start f = lf_start lock /\ lf_hi f = lf_hi lock
  | 2 => lf_start f <= lf_start lock /\ lf_hi lock <= lf_hi f /\
         (lf_start f <> lf_start lock \/ lf_hi f <> lf_hi lock)
  | 3 => lf_start lock <= lf_start f /\ lf_hi f <= lf_hi lock
  | 4 => lf_start f < lf_start lock /\ lf_start lock <= lf_hi f /\ lf_hi f < lf_hi lock
  | 5 => lf_start lock < lf_start f /\ lf_start f <= lf_hi lock /\ lf_hi lock < lf_hi f
  | _ => False
  end.

(** The comparison of two overlapping locks. *)
Lemma overlap_cases lock f bef rest (type : Z) :
  lock_ok lock -> lock_ok f ->
  flag type SELF && negb (lf_id f =? lf_id lock) || flag type OTHERS && (lf_id f =? lf_id lock) = false ->
  lf_start f <= lf_hi lock -> lf_start lock <= lf_hi f ->
  exists c, lf_findoverlap bef (f :: rest) lock type = Ret (c, bef, f :: rest) /\ ovcase_ok c lock f /\ c <> 0.
Proof.
  intros Hl Hf Hid H1 H2. cbn [lf_findoverlap]. rewrite Hid.
  destruct (lf_end_cases lock Hl) as [[E1 E2]|(E1 & E2 & E3)], (lf_end_cases f Hf) as [[F1 F2]|(F1 & F2 & F3)];
    destruct Hl as (L1 & L2 & L3), Hf as (G1 & G2 & G3).
  all: destruct (Z.eqb_spec (lf_end f) (-1)), (Z.eqb_spec (lf_end lock) (-1)); try lia; cbn [negb andb orb].
  all: repeat (match goal with |- context [Z.ltb ?x ?y] => destruct (Z.ltb_spec x y)
    | |- context [Z.leb ?x ?y] => destruct (Z.leb_spec x y)
    | |- context [Z.eqb ?x ?y] => destruct (Z.eqb_spec x y) end; cbn [negb andb orb]; try lia).
  all: eexists; split; [reflexivity|]; split; [simpl; lia|done].
Qed.

(** Looking for a holder's own locks: what is skipped ends before the lock; the
    search stops at an overlap, or in front of a lock behind the request, or at
    the end of the list. *)
Lemma findoverlap_self lock bef aft lo :
  lock_ok lock -> ordered lo (own (lf_id lock) aft) ->
  exists c p q, lf_findoverlap bef aft lock SELF = Ret (c, bef ++ p, q) /\ aft = p ++ q /\
    Forall (fun f => lf_hi f < lf_start lock) (own (lf_id lock) p) /\
    ((c = 0 /\ match q with [] => True | f :: _ => lf_id f = lf_id lock /\ lf_hi lock < lf_start f end) \/
     (c <> 0 /\ exists f r, q = f :: r /\ lf_id f = lf_id lock /\ lock_ok f /\ ovcase_ok c lock f)).
Proof.
  intros Hl. revert bef lo. induction aft as [|f aft IH]; intros bef lo Ho.
  { exists 0, [], []. rewrite app_nil_r. simpl. conj; auto. }
  destruct (decide (lf_id f = lf_id lock)) as [Eid|Eid].
  - rewrite own_cons_eq in Ho by done. destruct Ho as (Hlo & Hf & Ho).
    destruct (Z.lt_ge_cases (lf_hi f) (lf_start lock)) as [Hbef|H1].
    + destruct (IH (bef ++ [f]) _ Ho) as (c & p & q & E & -> & Hp & Hc). exists c, (f :: p), q.
      rewrite own_cons_eq by done. rewrite <- app_assoc in E. cbn [app] in E. conj; auto. rewrite <- E. cbn [lf_findoverlap].
      rewrite Eid, Z.eqb_refl. change (flag SELF SELF) with true. change (flag SELF OTHERS) with false. cbn [negb andb orb].
      destruct (lf_end_cases lock Hl) as [[E1 E2]|(E1 & E2 & E3)], (lf_end_cases f Hf) as [[F1 F2]|(F1 & F2 & F3)];
        destruct Hl as (L1 & L2 & L3), Hf as (G1 & G2 & G3); try lia.
      all: destruct (Z.eqb_spec (lf_end f) (-1)), (Z.eqb_spec (lf_end lock) (-1)); try lia; cbn [negb andb orb].
      all: destruct (Z.ltb_spec (lf_end f) (lf_start lock)); [|lia]; cbn [orb]; try done.
      destruct (Z.ltb_spec (lf_end lock) (lf_start f)); [lia|done].
    + destruct (Z.lt_ge_cases (lf_hi lock) (lf_start f)) as [Haft|H2].
      * exists 0, [], (f :: aft). rewrite app_nil_r. conj; auto. cbn [lf_findoverlap].
        rewrite Eid, Z.eqb_refl. change (flag SELF SELF) with true. change (flag SELF OTHERS) with false. cbn [negb andb orb].
        pose proof (lf_hi_max f Hf). destruct Hf as (G1 & G2 & G3).
        destruct (lf_end_cases lock Hl) as [[E1 E2]|(E1 & E2 & E3)]; [lia|].
        destruct (Z.eqb_spec (lf_end lock) (-1)), (Z.ltb_spec (lf_end lock) (lf_start f)); try lia. cbn [negb andb].
        by rewrite orb_true_r.
      * destruct (overlap_cases lock f bef aft SELF Hl Hf) as (c & E & Hc & Hne); [by rewrite Eid, Z.eqb_refl|done|done|].
        exists c, [], (f :: aft). rewrite app_nil_r. conj; auto. right. split; [done|]. by exists f, aft.
  - rewrite own_cons_ne in Ho by done. destruct (IH (bef ++ [f]) _ Ho) as (c & p & q & E & -> & Hp & Hc).
    exists c, (f :: p), q. rewrite own_cons_ne by done. rewrite <- app_assoc in E. cbn [app] in E. conj; auto. rewrite <- E.
    cbn [lf_findoverlap]. by destruct (Z.eqb_spec (lf_id f) (lf_id lock)).
Qed.

Definition overlaps (f g : lockf) : Prop := lf_start f <= lf_hi g /\ lf_start g <= lf_hi f.

#[export] Instance overlaps_dec f g : Decision (overlaps f g).
Proof. unfold overlaps. apply _. Defined.

Lemma findoverlap_others lock bef aft :
  lock_ok lock -> Forall lock_ok aft ->
  exists c p q, lf_findoverlap bef aft lock OTHERS = Ret (c, bef ++ p, q) /\ aft = p ++ q /\
    Forall (fun f => lf_id f <> lf_id lock -> ~ overlaps f lock) p /\
    ((c = 0 /\ q = []) \/ (c <> 0 /\ exists f r, q = f :: r /\ lf_id f <> lf_id lock /\ overlaps f lock)).
Proof.
  intros Hl. revert bef. induction aft as [|f aft IH]; intros bef Ho.
  { exists 0, [], []. rewrite app_nil_r. simpl. conj; auto. }
  apply Forall_cons in Ho as [Hf Ho].
  assert (Hskip : (lf_id f <> lf_id lock -> ~ overlaps f lock) ->
    lf_findoverlap bef (f :: aft) lock OTHERS = lf_findoverlap (bef ++ [f]) aft lock OTHERS ->
    exists c p q, lf_findoverlap bef (f :: aft) lock OTHERS = Ret (c, bef ++ p, q) /\ f :: aft = p ++ q /\
      Forall (fun f => lf_id f <> lf_id lock -> ~ overlaps f lock) p /\
      ((c = 0 /\ q = []) \/ (c <> 0 /\ exists f r, q = f :: r /\ lf_id f <> lf_id lock /\ overlaps f lock))).
  { intros Hno E. destruct (IH (bef ++ [f]) Ho) as (c & p & q & E' & -> & Hp & Hc). exists c, (f :: p), q.
    rewrite E, E', <- app_assoc. conj; auto. }
  destruct (decide (lf_id f = lf_id lock)) as [Eid|Eid].
  { apply Hskip; [done|]. cbn [lf_findoverlap]. by rewrite Eid, Z.eqb_refl. }
  destruct (decide (overlaps f lock)) as [Hov|Hov].
  - destruct (overlap_cases lock f bef aft OTHERS Hl Hf) as (c & E & Hc & Hne);
      [by destruct (Z.eqb_spec (lf_id f) (lf_id lock))|apply Hov|apply Hov|].
    exists c, [], (f :: aft). rewrite app_nil_r. conj; auto. right. split; [done|]. by exists f, aft.
  - apply Hskip; [done|]. cbn [lf_findoverlap]. destruct (Z.eqb_spec (lf_id f) (lf_id lock)); [done|].
    change (flag OTHERS SELF) with false. change (flag OTHERS OTHERS) with true. cbn [negb andb orb].
    unfold overlaps in Hov.
    destruct (lf_end_cases lock Hl) as [[E1 E2]|(E1 & E2 & E3)], (lf_end_cases f Hf) as [[F1 F2]|(F1 & F2 & F3)];
      destruct Hl as (L1 & L2 & L3), Hf as (G1 & G2 & G3); try lia.
    all: destruct (Z.eqb_spec (lf_end f) (-1)), (Z.eqb_spec (lf_end lock) (-1)); try lia; cbn [negb andb orb].
    all: destruct (Z.ltb_spec (lf_end f) (lf_start lock)), (Z.ltb_spec (lf_end lock) (lf_start f)); try lia; done.
Qed.

(** * [lf_getblock] *)

(** [f] keeps [lock] from being set. *)
Definition conflicts (lock f : lockf) : Prop :=
  lf_id f <> lf_id lock /\ overlaps f lock /\ (lf_type lock = F_WRLCK \/ lf_type f = F_WRLCK).

#[export] Instance conflicts_dec lock f : Decision (conflicts lock f).
Proof. unfold conflicts. apply _. Defined.

Lemma getblock_loop_spec fuel lock bef aft :
  lock_ok lock -> Forall lock_ok aft -> (length aft < fuel)%nat ->
  exists r, getblock_loop fuel lock bef aft = Ret r /\
    match r with
    | None => Forall (fun f => ~ conflicts lock f) aft
    | Some b => b ∈ aft /\ conflicts lock b
    end.
Proof.
  intros Hl. revert bef aft. induction fuel as [|fuel IH]; intros bef aft Ha Hlen; [lia|].
  cbn [getblock_loop]. destruct (findoverlap_others lock bef aft Hl Ha) as (c & p & q & -> & -> & Hp & Hc).
  cbn [bind]. assert (Hp' : Forall (fun f => ~ conflicts lock f) p).
  { eapply Forall_impl; [exact Hp|]. intros f Hf (H1 & H2 & _). by apply Hf. }
  destruct Hc as [[-> ->]|(Hc & f & r & -> & Hid & Hov)].
  { exists None. by rewrite app_nil_r. }
  destruct (Z.eqb_spec c 0); [done|].
  destruct (Z.eqb_spec (lf_type lock) F_WRLCK), (Z.eqb_spec (lf_type f) F_WRLCK); cbn [orb];
    try (exists (Some f); split; [done|]; split; [apply elem_of_app; right; by left|unfold conflicts; auto]).
  apply Forall_app in Ha as [_ Ha]. apply Forall_cons in Ha as [_ Ha]. rewrite length_app in Hlen. simpl in Hlen.
  destruct (IH ((bef ++ p) ++ [f]) r Ha) as (res & -> & Hres); [lia|]. exists res. split; [done|].
  destruct res as [b|].
  - destruct Hres. split; [|done]. apply elem_of_app. right. by right.
  - apply Forall_app. split; [done|]. apply Forall_cons. split; [|done]. intros (_ & _ & [?|?]); done.
Qed.

Lemma getblock_spec lock st :
  lock_ok lock -> Forall lock_ok (lf_list st) ->
  exists r, lf_getblock lock st = Ret r /\
    match r with
    | None => Forall (fun f => ~ conflicts lock f) (lf_list st)
    | Some b => b ∈ lf_list st /\ conflicts lock b
    end.
Proof. intros Hl Ha. apply getblock_loop_spec; auto. Qed.
