(* ===== verification/LockfClear.v ===== *)
(** [lf_clearlock]: a holder's bytes are unlocked, other holders are not
    touched, and neither a lock of the pool nor a waiter is lost. *)

From S2P Require Import Prelude Lockf LockfList.

(** * Accounts *)

(** Locks of a user, and requests that wait, among the locks [l]. *)
Definition uids (u : Z) (l : list lockf) : Z := Z.of_nat (length (filter (fun f => lf_uid f = u) l)).
Definition waiters (l : list lockf) : list Z := concat (lf_blkhd <$> l).

#[export] Instance uids_perm u : Proper ((≡ₚ) ==> eq) (uids u).
Proof. intros l l' H. unfold uids. by rewrite H. Qed.

#[export] Instance waiters_perm : Proper ((≡ₚ) ==> (≡ₚ)) waiters.
Proof.
  intros l l' H. unfold waiters. induction H as [|x l l' H IH|x y l|l1 l2 l3 H1 IH1 H2 IH2]; simpl.
  - done.
  - by rewrite IH.
  - by rewrite !app_assoc, (Permutation_app_comm (lf_blkhd y)).
  - by rewrite IH1.
Qed.

Lemma uids_cons u f l : uids u (f :: l) = (if decide (lf_uid f = u) then 1 else 0) + uids u l.
Proof. unfold uids. rewrite filter_cons. destruct (decide _); simpl; lia. Qed.

(** From the locks [l] to the locks [l']: every user's count follows, every
    waiter still waits or has been woken, and addresses are old ones or fresh. *)
Record acct (st : state) (l : list lockf) (st' : state) (l' : list lockf) : Prop := {
  acct_count : forall u, ui_lockcnt st' u - uids u l' = ui_lockcnt st u - uids u l;
  acct_wait : waiters l' ++ woken st' ≡ₚ waiters l ++ woken st;
  acct_procs : waits_for st' = waits_for st;
  acct_addr : next_addr st <= next_addr st';
  acct_self : forall P : Z -> Prop, (forall z, next_addr st <= z < next_addr st' -> P z) ->
    Forall (fun f => P (lf_self f)) l -> Forall (fun f => P (lf_self f)) l'
}.

Lemma acct_perm st l l' : l ≡ₚ l' -> acct st l st l'.
Proof. intros H. split; intros; rewrite <- ?H; done. Qed.

Lemma acct_refl st l : acct st l st l.
Proof. by apply acct_perm. Qed.

Lemma acct_trans st1 l1 st2 l2 st3 l3 : acct st1 l1 st2 l2 -> acct st2 l2 st3 l3 -> acct st1 l1 st3 l3.
Proof.
  intros [A1 A2 A3 A4 A5] [B1 B2 B3 B4 B5]. split.
  - intros u. by rewrite B1.
  - by rewrite B2.
  - congruence.
  - lia.
  - intros P HP Hl. apply B5; [intros z Hz; apply HP; lia|]. apply A5; [intros z Hz; apply HP; lia|done].
Qed.

(** Addresses in use stay below the next one. *)
Lemma acct_fresh st l st' l' : acct st l st' l' ->
  Forall (fun f => lf_self f < next_addr st) l -> Forall (fun f => lf_self f < next_addr st') l'.
Proof.
  intros [_ _ _ A4 A5] Hl. apply (A5 (fun z => z < next_addr st')); [lia|].
  eapply Forall_impl; [exact Hl|]. simpl. lia.
Qed.

(** The list a state carries does not count. *)
Lemma acct_list st l st' l' x : acct st l st' l' -> acct st l (with_list st' x) l'.
Proof. intros [A1 A2 A3 A4 A5]. by split. Qed.

Lemma acct_wake f st l : acct st (f :: l) (lf_wakelock f st).2 ((lf_wakelock f st).1 :: l).
Proof.
  split; simpl.
  - intros u. by rewrite !uids_cons.
  - unfold waiters. simpl. rewrite app_assoc. rewrite (Permutation_app_comm _ (lf_blkhd f)). by rewrite !app_assoc.
  - done.
  - lia.
  - intros P _. rewrite !Forall_cons. tauto.
Qed.

Lemma acct_free f st l : lf_blkhd f = [] -> acct st (f :: l) (lf_free f st) l.
Proof.
  intros Hb. split; simpl.
  - intros u. rewrite uids_cons. destruct (decide (lf_uid f = u)), (Z.eqb_spec u (lf_uid f)); (lia || congruence).
  - unfold waiters. simpl. by rewrite Hb.
  - done.
  - lia.
  - intros P _. rewrite Forall_cons. tauto.
Qed.

(** A change of the range or of the type. *)
Lemma acct_update f g st l :
  lf_uid g = lf_uid f -> lf_blkhd g = lf_blkhd f -> lf_self g = lf_self f -> acct st (f :: l) st (g :: l).
Proof.
  intros Hu Hb Hs. split; try done.
  - intros u. by rewrite !uids_cons, Hu.
  - unfold waiters. simpl. by rewrite Hb.
  - intros P _. by rewrite !Forall_cons, Hs.
Qed.

(** The waiters of a lock that goes away are taken over. *)
Lemma acct_move lock f st l :
  acct st (lock :: f :: l) (lf_free f st) (set_blkhd lock (lf_blkhd lock ++ lf_blkhd f) :: l).
Proof.
  split; simpl.
  - intros u. rewrite !uids_cons. simpl. destruct (decide (lf_uid f = u)), (Z.eqb_spec u (lf_uid f)); (lia || congruence).
  - unfold waiters. simpl. by rewrite <- !app_assoc.
  - done.
  - lia.
  - intros P _. rewrite !Forall_cons. tauto.
Qed.

(** A split takes a lock from the pool. *)
Lemma acct_alloc st l s e f :
  acct st l (lf_alloc (lf_uid f) 0 st).2
    (Lock (next_addr st) [] s e (lf_id f) (lf_flags f) (lf_type f) (lf_uid f) :: l).
Proof.
  unfold lf_alloc. simpl. rewrite andb_false_r. split; simpl.
  - intros u. rewrite uids_cons. simpl. destruct (decide (lf_uid f = u)), (Z.eqb_spec u (lf_uid f)); (lia || congruence).
  - by unfold waiters.
  - done.
  - lia.
  - intros P HP Hl. apply Forall_cons. simpl. split; [apply HP; simpl; lia|done].
Qed.

(** Bring the lock at a place of the list to the front. *)
Lemma acct_at pre f post st st' pre' g post' :
  acct st (f :: pre ++ post) st' (g :: pre' ++ post') -> acct st (pre ++ f :: post) st' (pre' ++ g :: post').
Proof.
  intros H. eapply acct_trans; [apply acct_perm; symmetry; apply Permutation_middle|].
  eapply acct_trans; [exact H|]. apply acct_perm, Permutation_middle.
Qed.

Lemma acct_at_drop pre f post st st' l :
  acct st (f :: pre ++ post) st' l -> acct st (pre ++ f :: post) st' l.
Proof. intros H. eapply acct_trans; [apply acct_perm; symmetry; apply Permutation_middle|exact H]. Qed.

(** * Clearing *)

(** From the locks [l] of [st] to [st']: the bytes of [lock] are unlocked. *)
Record cleared (lock : lockf) (l : list lockf) (st st' : state) : Prop := {
  cl_others : forall id, id <> lf_id lock -> own id (lf_list st') = own id l;
  cl_own : ordered 0 (own (lf_id lock) (lf_list st'));
  cl_cov : forall ty x, cov (own (lf_id lock) (lf_list st')) ty x <->
    cov (own (lf_id lock) l) ty x /\ ~ on lock x;
  cl_acct : acct st l st' (lf_list st')
}.

(** What is left of the lock [f]: pieces of [f] with the bytes of [lock] cut out. *)
Definition pieces (lock f : lockf) (seg : list lockf) : Prop :=
  Forall (fun g => lf_id g = lf_id lock) seg /\ ordered (lf_start f) seg /\ after (lf_start f) seg <= lf_hi f + 1 /\
  forall ty x, cov seg ty x <-> lf_type f = ty /\ on f x /\ ~ on lock x.

Lemma own_all id l : Forall (fun g => lf_id g = id) l -> own id l = l.
Proof.
  induction 1 as [|g l Hg Hl IH]; [done|]. rewrite own_cons_eq by done. by rewrite IH.
Qed.

Lemma own_none id id' l : Forall (fun g => lf_id g = id') l -> id <> id' -> own id l = [].
Proof.
  intros Hl Hne. induction Hl as [|g l Hg Hl IH]; [done|]. rewrite own_cons_ne by congruence. done.
Qed.

(** Putting the pieces in the place of [f], when the rest of the list does not
    meet [lock]. *)
Lemma cleared_pieces lock bef f rest seg st st' :
  ordered 0 (own (lf_id lock) (bef ++ f :: rest)) -> lf_id f = lf_id lock -> lf_start f <= lf_hi f ->
  Forall (fun g => lf_hi g < lf_start lock) (own (lf_id lock) bef) -> lf_hi lock <= lf_hi f ->
  pieces lock f seg -> lf_list st' = bef ++ seg ++ rest ->
  acct st (bef ++ f :: rest) st' (bef ++ seg ++ rest) -> cleared lock (bef ++ f :: rest) st st'.
Proof.
  intros Ho Hid Hff Hbef Hhi (Hs1 & Hs2 & Hs3 & Hs4) El Hacct.
  rewrite own_app, own_cons_eq in Ho by done. apply ordered_app in Ho as [Ho1 (Ho2 & Ho3 & Ho4)].
  split; rewrite ?El.
  - intros id Hne. rewrite !own_app, own_cons_ne by congruence. by rewrite (own_none id (lf_id lock) seg).
  - rewrite !own_app, (own_all _ seg) by done. apply ordered_app. split; [done|]. apply ordered_app. split.
    + by apply ordered_mono with (lf_start f).
    + apply ordered_mono with (lf_hi f + 1); [|done]. destruct seg as [|g seg]; simpl in *; lia.
  - intros ty x. rewrite !own_app, own_cons_eq, (own_all _ seg) by done. rewrite !cov_app, cov_cons, Hs4.
    pose proof (cov_below _ (lf_start lock) ty x Hbef) as H1. pose proof (cov_bounds _ _ ty x Ho4) as H2.
    unfold on in *. destruct (decide (cov (own (lf_id lock) bef) ty x)), (decide (cov (own (lf_id lock) rest) ty x));
      intuition lia.
  - done.
Qed.

(** Nothing to clear: the next lock of the holder is behind [lock]. *)
Lemma cleared_none lock bef aft st :
  ordered 0 (own (lf_id lock) (bef ++ aft)) ->
  Forall (fun g => lf_hi g < lf_start lock) (own (lf_id lock) bef) ->
  match aft with [] => True | f :: _ => lf_id f = lf_id lock /\ lf_hi lock < lf_start f end ->
  cleared lock (bef ++ aft) st (with_list st (bef ++ aft)).
Proof.
  intros Ho Hbef Haft. split; simpl; auto; [|apply acct_list, acct_refl].
  intros ty x. rewrite own_app, cov_app. rewrite own_app in Ho. apply ordered_app in Ho as [_ Ho].
  pose proof (cov_below _ (lf_start lock) ty x Hbef) as H1.
  assert (H2 : cov (own (lf_id lock) aft) ty x -> lf_hi lock < x).
  { destruct aft as [|f aft]; [intros H; by apply cov_nil in H|]. destruct Haft as [Hid Hlt].
    rewrite own_cons_eq in * by done. intros Hc. apply (cov_bounds (lf_start f)) in Hc; [lia|].
    destruct Ho as (? & ? & ?). simpl. conj; auto; lia. }
  unfold on. destruct (decide (cov (own (lf_id lock) bef) ty x)), (decide (cov (own (lf_id lock) aft) ty x));
    intuition lia.
Qed.

(** The pieces of each case. *)
Lemma pieces_none lock f : lf_start lock <= lf_start f -> lf_hi f <= lf_hi lock -> lf_start f <= lf_hi f ->
  pieces lock f [].
Proof.
  intros H1 H2 H3. unfold pieces. simpl. conj; auto; [lia|]. intros ty x. pose proof (cov_nil ty x). unfold on. intuition lia.
Qed.

(** [g] is [f] from byte [s] on, or up to byte [e]. *)
Definition right_of (f : lockf) (s : Z) (g : lockf) : Prop :=
  lf_id g = lf_id f /\ lf_type g = lf_type f /\ lf_start g = s /\ lf_end g = lf_end f.
Definition left_of (f : lockf) (e : Z) (g : lockf) : Prop :=
  lf_id g = lf_id f /\ lf_type g = lf_type f /\ lf_start g = lf_start f /\ lf_end g = e.

Lemma right_of_ok f s g : lock_ok f -> right_of f s g -> 0 <= s <= lf_hi f -> lock_ok g /\ lf_hi g = lf_hi f.
Proof. unfold lock_ok, lf_hi. intros (? & ? & ?) (_ & _ & -> & ->) ?. lia. Qed.

Lemma left_of_ok f e g : lock_ok f -> left_of f e g -> lf_start f <= e < OFF_MAX -> lock_ok g /\ lf_hi g = e.
Proof.
  unfold lock_ok, lf_hi. intros (? & ? & ?) (_ & _ & -> & ->) ?. destruct (Z.eqb_spec e (-1)); lia.
Qed.

Lemma pieces_right lock f g : lock_ok lock -> lock_ok f -> lf_id f = lf_id lock ->
  lf_start lock <= lf_start f -> lf_start f <= lf_hi lock -> lf_hi lock < lf_hi f ->
  right_of f (lf_hi lock + 1) g -> pieces lock f [g].
Proof.
  intros (L1 & L2 & L3) Hf Hid H1 H2 H3 Hg. destruct (right_of_ok _ _ _ Hf Hg) as [Gok Ghi]; [lia|].
  destruct Hg as (G1 & G2 & G3 & G4). unfold pieces. simpl. rewrite Ghi. conj.
  - apply Forall_cons. split; [congruence|done].
  - lia.
  - done.
  - done.
  - lia.
  - intros ty x. rewrite cov_cons. pose proof (cov_nil ty x). unfold on. rewrite G2, G3, Ghi. intuition lia.
Qed.

Lemma pieces_left lock f g : lock_ok lock -> lock_ok f -> lf_id f = lf_id lock ->
  lf_start f < lf_start lock -> lf_start lock <= lf_hi f -> lf_hi f <= lf_hi lock ->
  left_of f (lf_start lock - 1) g -> pieces lock f [g].
Proof.
  intros (L1 & L2 & L3) Hf Hid H1 H2 H3 Hg. pose proof (lf_hi_max f Hf).
  destruct (left_of_ok _ _ _ Hf Hg) as [Gok Ghi]; [lia|].
  destruct Hg as (G1 & G2 & G3 & G4). unfold pieces. simpl. rewrite Ghi. conj.
  - apply Forall_cons. split; [congruence|done].
  - lia.
  - done.
  - done.
  - lia.
  - intros ty x. rewrite cov_cons. pose proof (cov_nil ty x). unfold on. rewrite G2, G3, Ghi. intuition lia.
Qed.

Lemma pieces_both lock f g h : lock_ok lock -> lock_ok f -> lf_id f = lf_id lock ->
  lf_start f < lf_start lock -> lf_hi lock < lf_hi f ->
  left_of f (lf_start lock - 1) g -> right_of f (lf_hi lock + 1) h -> pieces lock f [g; h].
Proof.
  intros (L1 & L2 & L3) Hf Hid H1 H2 Hg Hh. pose proof (lf_hi_max f Hf).
  destruct (left_of_ok _ _ _ Hf Hg) as [Gok Ghi]; [lia|]. destruct (right_of_ok _ _ _ Hf Hh) as [Hok Hhi]; [lia|].
  destruct Hg as (G1 & G2 & G3 & G4), Hh as (I1 & I2 & I3 & I4). unfold pieces. simpl. rewrite Ghi, Hhi. conj.
  - apply Forall_cons. split; [congruence|]. apply Forall_cons. split; [congruence|done].
  - lia.
  - done.
  - lia.
  - done.
  - done.
  - lia.
  - intros ty x. rewrite !cov_cons. pose proof (cov_nil ty x). unfold on. rewrite G2, G3, Ghi, I2, I3, Hhi. intuition lia.
Qed.

(** The ends the source computes. *)
Lemma end_plus_1 lock f : lock_ok lock -> lock_ok f -> lf_hi lock < lf_hi f -> off (lf_end lock + 1) = lf_hi lock + 1.
Proof.
  intros Hl Hf Hlt. pose proof (lf_hi_max f Hf). destruct (lf_end_cases lock Hl) as [[? ?]|(? & E & ?)]; [lia|].
  destruct Hl as (? & ? & ?). unfold OFF_MAX in *. rewrite off_small by lia. lia.
Qed.

Lemma start_minus_1 lock : lock_ok lock -> off (lf_start lock - 1) = lf_start lock - 1.
Proof.
  intros Hl. pose proof (lf_hi_max lock Hl). destruct Hl as (? & ? & ?). unfold OFF_MAX in *. apply off_small. lia.
Qed.

Lemma same_end lock f : lock_ok lock -> lock_ok f -> lf_end f = lf_end lock <-> lf_hi f = lf_hi lock.
Proof.
  intros Hl Hf. destruct (lf_end_cases lock Hl) as [[? ?]|(? & ? & ?)], (lf_end_cases f Hf) as [[? ?]|(? & ? & ?)]; lia.
Qed.

(** [lf_split] of a lock [f] that starts before [lock], as [lf_clearlock] uses
    it: [lock] itself is taken out again. *)
Lemma split_cleared lock f st :
  lock_ok lock -> lock_ok f -> lf_id f = lf_id lock -> lf_start f < lf_start lock -> lf_hi lock <= lf_hi f ->
  lf_self f <> lf_self lock -> lf_self lock < next_addr st ->
  exists seg st', lf_split f lock st = (seg, st') /\
    pieces lock f (filter (fun g => lf_self g <> lf_self lock) seg) /\
    (forall l, acct st (f :: l) st' (filter (fun g => lf_self g <> lf_self lock) seg ++ l)).
Proof.
  intros Hl Hf Hid H1 H2 Hself Hnext. unfold lf_split. destruct (Z.eqb_spec (lf_start f) (lf_start lock)); [lia|].
  rewrite start_minus_1 by done. set (g := set_end f (lf_start lock - 1)).
  assert (Hg : left_of f (lf_start lock - 1) g) by done.
  destruct (Z.eqb_spec (lf_end f) (lf_end lock)) as [E|E].
  - apply (same_end lock f Hl Hf) in E. eexists _, _; split; [done|].
    rewrite filter_cons_True, filter_cons_False by (simpl; auto). rewrite filter_nil. split.
    + apply pieces_left; auto; destruct Hf as (? & ? & ?), Hl as (? & ? & ?); lia.
    + intros l. by apply acct_update.
  - assert (Hlt : lf_hi lock < lf_hi f) by (rewrite (same_end lock f Hl Hf) in E; lia).
    rewrite (end_plus_1 lock f) by done.
    set (h := Lock (next_addr st) [] (lf_hi lock + 1) (lf_end f) (lf_id f) (lf_flags f) (lf_type f) (lf_uid f)).
    assert (Eal : lf_alloc (lf_uid f) 0 st = (Some (next_addr st), (lf_alloc (lf_uid f) 0 st).2)).
    { unfold lf_alloc. simpl. by rewrite andb_false_r. }
    rewrite Eal. cbn [default]. fold h. eexists _, _; split; [done|].
    rewrite filter_cons_True, filter_cons_False, filter_cons_True by (simpl; auto; lia). rewrite filter_nil. split.
    + by apply pieces_both.
    + intros l. eapply acct_trans; [|apply (acct_perm _ (h :: g :: l)), perm_swap].
      eapply acct_trans; [by apply (acct_update f g)|]. apply acct_alloc.
Qed.

(** A lock inside [lock] goes away: outside [lock] nothing changes. *)
Lemma drop_step lock b f r :
  ordered 0 (own (lf_id lock) (b ++ f :: r)) -> lf_id f = lf_id lock ->
  lf_start lock <= lf_start f -> lf_hi f <= lf_hi lock ->
  ordered 0 (own (lf_id lock) (b ++ r)) /\
  (forall id, id <> lf_id lock -> own id (b ++ r) = own id (b ++ f :: r)) /\
  (forall ty x, ~ on lock x ->
    cov (own (lf_id lock) (b ++ r)) ty x <-> cov (own (lf_id lock) (b ++ f :: r)) ty x).
Proof.
  intros Ho Hid H1 H2. rewrite !own_app, own_cons_eq in * by done. conj.
  - by apply ordered_drop in Ho.
  - intros id Hne. rewrite !own_app, own_cons_ne by congruence. done.
  - intros ty x Hx. rewrite !cov_app, cov_cons. unfold on in *. intuition lia.
Qed.

(** A lock that reaches into [lock] from the left is shortened. *)
Lemma shrink_step lock b f g r :
  lock_ok lock -> lock_ok f -> ordered 0 (own (lf_id lock) (b ++ f :: r)) -> lf_id f = lf_id lock ->
  lf_start f < lf_start lock -> lf_start lock <= lf_hi f -> lf_hi f < lf_hi lock -> left_of f (lf_start lock - 1) g ->
  ordered 0 (own (lf_id lock) ((b ++ [g]) ++ r)) /\ lf_hi g < lf_start lock /\
  (forall id, id <> lf_id lock -> own id ((b ++ [g]) ++ r) = own id (b ++ f :: r)) /\
  (forall ty x, ~ on lock x ->
    cov (own (lf_id lock) ((b ++ [g]) ++ r)) ty x <-> cov (own (lf_id lock) (b ++ f :: r)) ty x).
Proof.
  intros Hl Hf Ho Hid H1 H2 H3 Hg. pose proof (lf_hi_max lock Hl).
  destruct (left_of_ok _ _ _ Hf Hg) as [Gok Ghi]; [lia|]. destruct Hg as (G1 & G2 & G3 & G4).
  rewrite <- app_assoc. cbn [app]. rewrite !own_app, !own_cons_eq in * by congruence. conj.
  - apply ordered_app in Ho as [O1 (O2 & O3 & O4)]. apply ordered_app. split; [done|].
    cbn [ordered]. rewrite Ghi, G3. conj; auto. apply ordered_mono with (lf_hi f + 1); [lia|done].
  - lia.
  - intros id Hne. rewrite !own_app, !own_cons_ne by congruence. done.
  - intros ty x Hx. rewrite !cov_app, !cov_cons. unfold on in *. rewrite G2, G3, Ghi.
    assert (Hxx : lf_start f <= x <= lf_start lock - 1 <-> lf_start f <= x <= lf_hi f) by lia. by rewrite Hxx.
Qed.

(** One iteration that goes on: [l1] differs from [l] in what [lock] covers. *)
Lemma cleared_step lock l l1 st st1 st' :
  (forall id, id <> lf_id lock -> own id l1 = own id l) ->
  (forall ty x, ~ on lock x -> cov (own (lf_id lock) l1) ty x <-> cov (own (lf_id lock) l) ty x) ->
  acct st l st1 l1 -> cleared lock l1 st1 st' -> cleared lock l st st'.
Proof.
  intros H1 H2 H3 [C1 C2 C3 C4]. split; auto.
  - intros id Hid. by rewrite C1, H1.
  - intros ty x. rewrite C3. pose proof (H2 ty x). tauto.
  - by eapply acct_trans.
Qed.

Lemma clearlock_loop_spec fuel lock bef aft st :
  lock_ok lock -> ordered 0 (own (lf_id lock) (bef ++ aft)) ->
  Forall (fun g => lf_hi g < lf_start lock) (own (lf_id lock) bef) ->
  Forall (fun g => lf_self g <> lf_self lock) aft -> lf_self lock < next_addr st -> (length aft < fuel)%nat ->
  exists st', clearlock_loop fuel lock bef aft st = Ret st' /\ cleared lock (bef ++ aft) st st'.
Proof.
  intros Hl. revert bef aft st. induction fuel as [|fuel IH]; intros bef aft st Ho Hbef Hself Hnext Hfuel; [lia|].
  cbn [clearlock_loop]. rewrite own_app in Ho. apply ordered_app in Ho as [Ho1 Ho2].
  destruct (findoverlap_self lock bef aft _ Hl Ho2) as (c & p & q & -> & -> & Hp & Hc). cbn [bind].
  assert (Hbp : Forall (fun g => lf_hi g < lf_start lock) (own (lf_id lock) (bef ++ p))).
  { rewrite own_app. by apply Forall_app. }
  assert (Ho : ordered 0 (own (lf_id lock) ((bef ++ p) ++ q))).
  { rewrite <- app_assoc, own_app. by apply ordered_app. }
  rewrite app_assoc. destruct Hc as [[-> Hq]|(Hc & f & r & -> & Hid & Hf & Hov)].
  { eexists; split; [done|]. by apply cleared_none. }
  destruct (Z.eqb_spec c 0); [done|]. set (b := bef ++ p) in *.
  apply Forall_app in Hself as [_ Hself]. apply Forall_cons in Hself as [Hfs Hself].
  rewrite length_app in Hfuel. simpl in Hfuel.
  set (f' := (lf_wakelock f st).1). set (st1 := (lf_wakelock f st).2).
  change (lf_wakelock f st) with (f', st1). cbv beta iota.
  pose proof (acct_at b f r st st1 b f' r (acct_wake f st (b ++ r))) as Hw.
  assert (Hrep : forall seg st', pieces lock f seg -> acct st1 (b ++ f' :: r) st' (b ++ seg ++ r) -> lf_hi lock <= lf_hi f ->
    lf_list st' = b ++ seg ++ r -> cleared lock (b ++ f :: r) st st').
  { intros seg st' Hseg Ha Hhi El. apply cleared_pieces with seg; auto; [apply Hf|by eapply acct_trans]. }
  assert (Hright : lf_start lock <= lf_start f -> lf_start f <= lf_hi lock -> lf_hi lock < lf_hi f ->
    cleared lock (b ++ f :: r) st (with_list st1 (b ++ set_start f' (off (lf_end lock + 1)) :: r))).
  { intros R1 R2 R3. rewrite (end_plus_1 lock f) by done. apply Hrep with [set_start f' (lf_hi lock + 1)]; [| |lia|done].
    - by apply pieces_right.
    - apply acct_list, acct_at, (acct_update f'); done. }
  pose proof Hf as (F1 & F2 & F3). pose proof Hl as (L1 & L2 & L3).
  assert (Hc5 : c = 1 \/ c = 2 \/ c = 3 \/ c = 4 \/ c = 5).
  { unfold ovcase_ok in Hov. destruct c as [|[[[]|[]|]|[[]|[]|]|]|]; try done; lia. }
  destruct Hc5 as [->|[->|[->|[->| ->]]]]; simpl in Hov; cbn [Z.eqb Pos.eqb].
  - eexists; split; [done|]. apply Hrep with []; [apply pieces_none; lia| |lia|done].
    apply acct_at_drop. exact (acct_list _ _ _ _ (b ++ r) (acct_free f' st1 (b ++ r) eq_refl)).
  - change (lf_start f') with (lf_start f). destruct (Z.eqb_spec (lf_start f) (lf_start lock)).
    + eexists; split; [done|]. apply Hright; lia.
    + destruct (split_cleared lock f' st1) as (seg & st2 & -> & Hseg & Ha); [done|done|done|simpl; lia|apply Hov|done|done|].
      eexists; split; [done|]. eapply Hrep; [exact Hseg| |lia|done]. apply acct_list.
      eapply acct_trans; [apply acct_perm; symmetry; apply Permutation_middle|].
      eapply acct_trans; [apply Ha|]. apply acct_perm, Permutation_app_swap_app.
  - destruct (drop_step lock b f r) as (D1 & D2 & D3); [done|done|lia|lia|].
    destruct (IH b r (lf_free f' st1)) as (st' & E & Hcl); [done|done|done|done|lia|].
    exists st'. split; [done|]. eapply cleared_step; [exact D2|exact D3| |exact Hcl].
    eapply acct_trans; [exact Hw|]. apply acct_at_drop. by apply acct_free.
  - set (g := set_end f' (off (lf_start lock - 1))).
    assert (Hg : left_of f (lf_start lock - 1) g) by (unfold g; by rewrite start_minus_1).
    destruct (shrink_step lock b f g r) as (D1 & D2 & D3 & D4); [done|done|done|done|lia|lia|lia|done|].
    destruct (IH (b ++ [g]) r st1) as (st' & E & Hcl); [done| |done|done|lia|].
    { rewrite own_app, own_cons_eq by (destruct Hg; congruence). apply Forall_app. split; [done|].
      by apply Forall_cons. }
    exists st'. split; [done|]. eapply cleared_step; [exact D3|exact D4| |exact Hcl].
    rewrite <- app_assoc. eapply acct_trans; [exact Hw|]. by apply acct_at, (acct_update f').
  - eexists; split; [done|]. apply Hright; lia.
Qed.
