(* ===== verification/LockfSet.v ===== *)
(** [lf_setlock] once nothing blocks it: the holder's bytes get the new type,
    whatever locks of its own it meets. *)

From S2P Require Import Prelude Lockf LockfList LockfClear.

(** From the locks [l] of [st] to [st']: the bytes of [lock] have its type.
    [lock] itself is counted before, and linked or freed after. *)
Record granted (lock : lockf) (l : list lockf) (st st' : state) : Prop := {
  gr_others : forall id, id <> lf_id lock -> own id (lf_list st') = own id l;
  gr_own : ordered 0 (own (lf_id lock) (lf_list st'));
  gr_cov : forall ty x, cov (own (lf_id lock) (lf_list st')) ty x <->
    on lock x /\ ty = lf_type lock \/ ~ on lock x /\ cov (own (lf_id lock) l) ty x;
  gr_acct : acct st (lock :: l) st' (lf_list st')
}.

(** The same lock, perhaps with other waiters or under another address. *)
Definition like (lock lock' : lockf) : Prop :=
  lf_id lock' = lf_id lock /\ lf_start lock' = lf_start lock /\ lf_end lock' = lf_end lock /\ lf_type lock' = lf_type lock.

Lemma like_hi lock lock' : like lock lock' -> lf_hi lock' = lf_hi lock.
Proof. intros (_ & _ & E & _). unfold lf_hi. by rewrite E. Qed.

Lemma like_ok lock lock' : like lock lock' -> lock_ok lock -> lock_ok lock'.
Proof. intros K. pose proof (like_hi _ _ K) as E. destruct K as (_ & E1 & E2 & _). unfold lock_ok. by rewrite E, E1, E2. Qed.

Lemma like_on lock lock' x : like lock lock' -> on lock' x <-> on lock x.
Proof. intros K. pose proof (like_hi _ _ K) as E. destruct K as (_ & E1 & _). unfold on. by rewrite E, E1. Qed.

(** The end of the loop: between [B], which ends before the lock, and [R],
    which starts behind it, the lock stands with the pieces of what it met. *)
Lemma granted_own lock lock' l st st' B F R segl segr :
  lock_ok lock -> like lock lock' ->
  own (lf_id lock) l = B ++ F ++ R -> own (lf_id lock) (lf_list st') = B ++ segl ++ lock' :: segr ++ R ->
  ordered 0 B -> Forall (fun g => lf_hi g < lf_start lock) B -> ordered (lf_hi lock + 1) (segr ++ R) ->
  ordered (after 0 B) segl -> Forall (fun g => lf_hi g < lf_start lock) segl ->
  (forall ty x, cov (segl ++ segr) ty x <-> cov F ty x /\ ~ on lock x) ->
  (forall id, id <> lf_id lock -> own id (lf_list st') = own id l) ->
  acct st (lock :: l) st' (lf_list st') -> granted lock l st st'.
Proof.
  intros Hl Hlike El El' HB1 HB2 HR Hs1 Hs2 Hcov Hoth Hacct. pose proof Hlike as (K1 & K2 & _ & K4).
  pose proof (like_hi _ _ Hlike) as K3. pose proof (like_ok _ _ Hlike Hl) as Hl'. split; auto.
  - rewrite El', app_assoc. apply ordered_app. split; [by apply ordered_app|]. cbn [ordered]. rewrite K2, K3.
    conj; auto. destruct Hl as (? & ? & ?).
    destruct (after_below 0 (B ++ segl) (lf_start lock)) as [?|E]; [by apply ordered_app|by apply Forall_app|done|].
    rewrite E. simpl. lia.
  - intros ty x. rewrite El, El', !cov_app, cov_cons, cov_app, (like_on lock lock') by done. rewrite K4.
    specialize (Hcov ty x). rewrite cov_app in Hcov. pose proof (cov_below B (lf_start lock) ty x HB2) as H1.
    pose proof (cov_bounds (lf_hi lock + 1) (segr ++ R) ty x HR) as H2. rewrite cov_app in H2.
    assert (H3 : cov R ty x -> ~ on lock x) by (unfold on; intros HH; specialize (H2 (or_intror HH)); lia).
    assert (H4 : cov B ty x -> ~ on lock x) by (unfold on; intros HH; specialize (H1 HH); lia).
    destruct (decide (on lock x)); split.
    + intros [?|[?|[[<- _]|[?|?]]]]; tauto.
    + intros [[_ ->]|[? _]]; tauto.
    + intros [?|[?|[[_ ?]|[?|?]]]]; tauto.
    + intros [[? _]|[_ [?|[?|?]]]]; tauto.
Qed.

(** One iteration that goes on, as in [cleared_step]. *)
Lemma granted_step lock lock1 l l1 st st1 st' :
  like lock lock1 ->
  (forall id, id <> lf_id lock -> own id l1 = own id l) ->
  (forall ty x, ~ on lock x -> cov (own (lf_id lock) l1) ty x <-> cov (own (lf_id lock) l) ty x) ->
  acct st (lock :: l) st1 (lock1 :: l1) -> granted lock1 l1 st1 st' -> granted lock l st st'.
Proof.
  intros Hlike H1 H2 H3 [G1 G2 G3 G4]. pose proof Hlike as (K1 & K2 & K3 & K4). rewrite K1, K4 in *. split; auto.
  - intros id Hid. by rewrite G1, H1.
  - intros ty x. rewrite G3, (like_on lock lock1) by done. pose proof (H2 ty x). tauto.
  - by eapply acct_trans.
Qed.

(** Case 3: the waiters of the lock that goes away are woken or taken over. *)
Lemma case3_acct (down : bool) lock f b r st :
  let p := if down then (lock, (lf_wakelock f st).2)
           else (set_blkhd lock (lf_blkhd lock ++ lf_blkhd f), st) in
  like lock p.1 /\ lf_self p.1 = lf_self lock /\ acct st (lock :: b ++ f :: r) (lf_free f p.2) (p.1 :: b ++ r).
Proof.
  assert (Hp : lock :: b ++ f :: r ≡ₚ lock :: f :: b ++ r) by (by rewrite <- Permutation_middle).
  destruct down; simpl; (split; [done|]); (split; [done|]).
  - eapply acct_trans; [by apply acct_perm|]. eapply acct_trans; [apply acct_perm, perm_swap|].
    eapply acct_trans; [apply acct_wake|]. by apply (acct_free (set_blkhd f [])).
  - eapply acct_trans; [by apply acct_perm|]. apply acct_move.
Qed.

(** Cutting off the left part of [f], with its waiters woken. *)
Lemma right_part lock f r st :
  lock_ok lock -> lock_ok f -> ordered (lf_hi f + 1) r -> lf_id f = lf_id lock ->
  lf_start lock <= lf_start f -> lf_start f <= lf_hi lock -> lf_hi lock < lf_hi f ->
  exists g st', lf_wakelock (set_start f (off (lf_end lock + 1))) st = (g, st') /\
    lf_id g = lf_id lock /\ ordered (lf_hi lock + 1) (g :: r) /\
    (forall ty x, cov [g] ty x <-> cov [f] ty x /\ ~ on lock x) /\
    (forall l, acct st (f :: l) st' (g :: l)) /\ lf_list st' = lf_list st.
Proof.
  intros Hl Hf Hr Hid H1 H2 H3. rewrite (end_plus_1 lock f) by done. eexists _, _; split; [done|].
  set (f1 := set_start f (lf_hi lock + 1)). assert (Hg : right_of f (lf_hi lock + 1) f1) by done.
  destruct Hl as (? & ? & ?). destruct (right_of_ok _ _ _ Hf Hg) as [Gok Ghi]; [lia|]. conj; auto.
  - cbn [ordered]. change (lf_hi (set_blkhd f1 [])) with (lf_hi f1). rewrite Ghi. conj; [simpl; lia|done|done].
  - intros ty x. rewrite !cov_cons. pose proof (cov_nil ty x).
    assert (Hon : on (set_blkhd f1 []) x <-> on f x /\ ~ on lock x).
    { unfold on. change (lf_hi (set_blkhd f1 [])) with (lf_hi f1). rewrite Ghi. simpl. lia. }
    rewrite Hon. simpl. tauto.
  - intros l. eapply acct_trans; [by apply (acct_update f f1)|]. apply acct_wake.
Qed.

(** * The loop *)

(** Locks of the holder that start behind the first byte of [lock] do not end
    before it. *)
Lemma own_skipped lock p lo :
  lf_start lock < lo -> ordered lo p -> Forall (fun g => lf_hi g < lf_start lock) p -> p = [].
Proof.
  intros Hlo Ho Hp. destruct p as [|g p]; [done|]. destruct Ho as (? & (? & ? & ?) & _).
  apply Forall_cons in Hp as [? _]. lia.
Qed.

(** Once the lock is linked only locks behind its first byte are left. *)
Lemma link_linked fuel lock bef mid aft st :
  lock_ok lock -> ordered 0 (own (lf_id lock) bef) ->
  Forall (fun g => lf_hi g < lf_start lock) (own (lf_id lock) bef) -> own (lf_id lock) mid = [] ->
  ordered (lf_start lock + 1) (own (lf_id lock) aft) -> (length aft < fuel)%nat ->
  exists st', link_loop fuel lock bef (Some mid) aft st = Ret st' /\ granted lock (bef ++ mid ++ aft) st st'.
Proof.
  revert lock mid aft st. induction fuel as [|fuel IH]; intros lock mid aft st Hl Hb1 Hb2 Hmid Ho Hfuel; [lia|].
  cbn [link_loop]. change (default bef (Some mid)) with mid. destruct (findoverlap_self lock mid aft _ Hl Ho) as (c & p & q & -> & -> & Hp & Hc).
  cbn [bind]. rewrite own_app in Ho. apply ordered_app in Ho as [Hop Hoq].
  assert (Ep : own (lf_id lock) p = []) by (apply (own_skipped lock _ (lf_start lock + 1)); [lia|done|done]).
  rewrite Ep in Hoq. simpl in Hoq.
  set (B := own (lf_id lock) bef) in *.
  assert (Hown : forall x, own (lf_id lock) (bef ++ mid ++ p ++ x) = B ++ own (lf_id lock) x).
  { intros x. by rewrite !own_app, Hmid, Ep. }
  assert (Hown' : forall x, own (lf_id lock) (bef ++ lock :: (mid ++ p) ++ x) = B ++ lock :: own (lf_id lock) x).
  { intros x. rewrite own_app, own_cons_eq by done. by rewrite !own_app, Hmid, Ep. }
  assert (Hoth : forall id x, id <> lf_id lock -> own id (bef ++ lock :: (mid ++ p) ++ x) = own id (bef ++ mid ++ p ++ x)).
  { intros id x Hne. rewrite own_app, own_cons_ne by congruence. by rewrite !own_app, <- app_assoc. }
  assert (Hperm : forall x, lock :: bef ++ mid ++ p ++ x ≡ₚ bef ++ lock :: (mid ++ p) ++ x).
  { intros x. by rewrite <- Permutation_middle, <- app_assoc. }
  pose proof Hl as (L1 & L2 & L3). destruct Hc as [[-> Hq]|(Hc & f & r & -> & Hid & Hf & Hov)].
  - assert (Hfin : granted lock (bef ++ mid ++ p ++ q) st (with_list st (bef ++ lock :: (mid ++ p) ++ q))).
    { apply (granted_own lock lock _ st _ B [] (own (lf_id lock) q) [] []); simpl; auto.
      - done.
      - destruct q as [|f q]; [done|]. destruct Hq as [Hid Hlt]. rewrite own_cons_eq in * by done.
        destruct Hoq as (? & ? & ?). simpl. conj; auto. lia.
      - intros ty x. pose proof (cov_nil ty x). tauto.
      - apply acct_list, acct_perm, Hperm. }
    destruct q; (eexists; split; [|exact Hfin]); [by rewrite app_nil_r|done].
  - rewrite own_cons_eq in Hoq by done. destruct Hoq as (Q1 & Q2 & Q3).
    assert (Hall : ordered 0 (own (lf_id lock) ((bef ++ mid ++ p) ++ f :: r))).
    { rewrite <- !app_assoc, Hown, own_cons_eq by done. apply ordered_app. split; [done|]. cbn [ordered]. conj; auto.
      destruct (after_below 0 B (lf_start lock)) as [?|E]; [done|done|lia|rewrite E; simpl; lia]. }
    rewrite length_app in Hfuel. simpl in Hfuel.
    assert (Hc5 : c = 3 \/ c = 5).
    { unfold ovcase_ok in Hov. destruct c as [|[[[]|[]|]|[[]|[]|]|]|]; try done; lia. }
    destruct Hc5 as [->| ->]; simpl in Hov; cbn [Z.eqb Pos.eqb].
    + set (down := (lf_type lock =? F_RDLCK) && (lf_type f =? F_WRLCK)).
      destruct (case3_acct down lock f (bef ++ mid ++ p) r st) as (K1 & K2 & K3).
      destruct (if down then _ else _) as [lock1 st1]. simpl in K1, K2, K3.
      destruct (drop_step lock (bef ++ mid ++ p) f r) as (D1 & D2 & D3); [done|done|lia|lia|].
      pose proof K1 as (I1 & I2 & I3 & I4).
      destruct (IH lock1 (mid ++ p) r (lf_free f st1)) as (st' & E & Hg);
        [by apply (like_ok lock)|by rewrite I1|by rewrite I1, I2|by rewrite I1, own_app, Hmid| |lia|].
      { rewrite I1, I2. apply ordered_mono with (lf_hi f + 1); [|done]. destruct Q2 as (? & ? & ?). lia. }
      exists st'. split; [done|]. rewrite <- app_assoc in Hg. rewrite <- !app_assoc in D2, D3, K3.
      by apply (granted_step lock lock1 _ (bef ++ mid ++ p ++ r) st (lf_free f st1)).
    + destruct (right_part lock f (own (lf_id lock) r) st) as (g & st1 & -> & G1 & G2 & G3 & G4 & G5);
        [done|done|done|done|lia|lia|lia|].
      eexists; split; [done|].
      apply (granted_own lock lock _ st _ B [f] (own (lf_id lock) r) [] [g]); auto; simpl lf_list.
      * done.
      * by rewrite Hown, own_cons_eq by done.
      * by rewrite Hown', own_cons_eq by done.
      * done.
      * intros id Hne. rewrite Hoth by done. rewrite !own_app, !own_cons_ne by congruence. done.
      * apply acct_list. eapply acct_trans; [apply acct_perm, Hperm|].
        change (bef ++ lock :: (mid ++ p) ++ f :: r) with (bef ++ (lock :: mid ++ p) ++ f :: r).
        change (bef ++ lock :: (mid ++ p) ++ g :: r) with (bef ++ (lock :: mid ++ p) ++ g :: r).
        rewrite !(app_assoc bef). by apply acct_at.
Qed.

(** [lf_split] as [lf_setlock] uses it: [lock] stays between the parts of [f],
    whose waiters are woken. *)
Lemma split_granted lock f r st :
  lock_ok lock -> lock_ok f -> ordered (lf_hi f + 1) r -> lf_id f = lf_id lock ->
  lf_start f < lf_start lock -> lf_hi lock <= lf_hi f ->
  exists g segr st1 st2, lf_split f lock st = (g :: lock :: segr, st1) /\ (lf_wakelock g st1).2 = st2 /\
    left_of f (lf_start lock - 1) (lf_wakelock g st1).1 /\ Forall (fun h => lf_id h = lf_id lock) segr /\
    ordered (lf_hi lock + 1) (segr ++ r) /\
    (forall ty x, cov ((lf_wakelock g st1).1 :: segr) ty x <-> cov [f] ty x /\ ~ on lock x) /\
    (forall l, acct st (f :: l) st2 ((lf_wakelock g st1).1 :: segr ++ l)) /\ lf_list st2 = lf_list st.
Proof.
  intros Hl Hf Hr Hid H1 H2. unfold lf_split. destruct (Z.eqb_spec (lf_start f) (lf_start lock)); [lia|].
  rewrite start_minus_1 by done. set (g := set_end f (lf_start lock - 1)). set (g' := set_blkhd g []).
  assert (Hg : left_of f (lf_start lock - 1) g') by done.
  assert (Hcov1 : forall ty x, cov [f] ty x <-> lf_type f = ty /\ on f x).
  { intros ty x. rewrite cov_cons. pose proof (cov_nil ty x). tauto. }
  assert (Hgw : forall l, acct st (f :: l) (lf_wakelock g st).2 (g' :: l)).
  { intros l. eapply acct_trans; [by apply (acct_update f g)|apply acct_wake]. }
  pose proof Hl as (L1 & L2 & L3). pose proof Hf as (F1 & F2 & F3).
  destruct (Z.eqb_spec (lf_end f) (lf_end lock)) as [E|E].
  - apply (same_end lock f Hl Hf) in E. eexists g, [], st, _; split; [done|]. split; [done|]. conj; auto.
    + by rewrite <- E.
    + destruct (pieces_left lock f g') as (_ & _ & _ & Hc); auto; [lia..|].
      intros ty x. change ((lf_wakelock g st).1) with g'. rewrite Hcov1, Hc. tauto.
  - assert (Hlt : lf_hi lock < lf_hi f) by (rewrite (same_end lock f Hl Hf) in E; lia).
    rewrite (end_plus_1 lock f) by done.
    set (h := Lock (next_addr st) [] (lf_hi lock + 1) (lf_end f) (lf_id f) (lf_flags f) (lf_type f) (lf_uid f)).
    assert (Hh : right_of f (lf_hi lock + 1) h) by done.
    set (st1 := (lf_alloc (lf_uid f) 0 st).2).
    assert (Eal : lf_alloc (lf_uid f) 0 st = (Some (next_addr st), st1)).
    { unfold st1, lf_alloc. simpl. by rewrite andb_false_r. }
    rewrite Eal. cbn [default]. fold h. eexists g, [h], st1, _; split; [done|]. split; [done|]. conj; auto.
    + destruct (right_of_ok _ _ _ Hf Hh) as [Hok Hhi]; [lia|]. cbn [app ordered]. rewrite Hhi. conj; auto. simpl. lia.
    + destruct (pieces_both lock f g' h) as (_ & _ & _ & Hc); auto.
      intros ty x. change ((lf_wakelock g st1).1) with g'. rewrite Hcov1, Hc. tauto.
    + intros l. eapply acct_trans; [apply (acct_update f g); done|]. eapply acct_trans; [apply (acct_alloc st _ (lf_hi lock + 1) (lf_end f) f)|].
      fold h st1. eapply acct_trans; [apply acct_perm, perm_swap|]. apply (acct_wake g st1).
    + unfold st1, lf_alloc. simpl. by rewrite andb_false_r.
Qed.

(** * The cases of the first iteration *)

(** The list is [p], all of the holder's before the lock, then the overlap [f],
    then [r]. *)
Definition meets (lock : lockf) (p : list lockf) (f : lockf) (r : list lockf) : Prop :=
  lock_ok lock /\ lock_ok f /\ lf_id f = lf_id lock /\ ordered 0 (own (lf_id lock) (p ++ f :: r)) /\
  Forall (fun g => lf_hi g < lf_start lock) (own (lf_id lock) p).

Lemma meets_own lock p f r : meets lock p f r ->
  own (lf_id lock) (p ++ f :: r) = own (lf_id lock) p ++ [f] ++ own (lf_id lock) r /\
  ordered 0 (own (lf_id lock) p) /\ ordered (lf_hi f + 1) (own (lf_id lock) r) /\
  after 0 (own (lf_id lock) p) <= lf_start f.
Proof.
  intros (Hl & Hf & Hid & Ho & Hp). rewrite own_app, own_cons_eq in * by done.
  apply ordered_app in Ho as [H1 (H2 & H3 & H4)]. done.
Qed.

(** Case 1: the overlap becomes the lock. *)
Lemma link_case1 (down : bool) lock p f r st :
  meets lock p f r -> lf_blkhd lock = [] -> ovcase_ok 1 lock f ->
  let w := if down then lf_wakelock f st else (f, st) in
  granted lock (p ++ f :: r) st (with_list (lf_free lock w.2) (p ++ set_type w.1 (lf_type lock) :: r)).
Proof.
  intros Hm Hblk [H1 H2] w. destruct (meets_own _ _ _ _ Hm) as (E & M1 & M2 & M3).
  destruct Hm as (Hl & Hf & Hid & _ & Hp). apply (same_end lock f Hl Hf) in H2 as H3.
  assert (Hw : like lock (set_type w.1 (lf_type lock)) /\ acct st (f :: lock :: p ++ r) w.2 (w.1 :: lock :: p ++ r)).
  { unfold w. destruct down; (split; [by unfold like|]); [apply acct_wake|apply acct_refl]. }
  destruct Hw as [Hlike Hw]. clearbody w.
  apply (granted_own lock (set_type w.1 (lf_type lock)) _ st _ (own (lf_id lock) p) [f] (own (lf_id lock) r) [] []); simpl lf_list; auto.
  - by rewrite own_app, own_cons_eq by apply Hlike.
  - by rewrite <- H2.
  - done.
  - intros ty x. rewrite cov_cons. pose proof (cov_nil ty x). unfold on. rewrite H1, H2. simpl. tauto.
  - intros id Hne. rewrite !own_app, !own_cons_ne by (destruct Hlike; congruence). done.
  - apply acct_list. eapply acct_trans; [apply (acct_perm _ _ (f :: lock :: p ++ r))|].
    { rewrite <- Permutation_middle. apply perm_swap. }
    eapply acct_trans; [exact Hw|]. eapply acct_trans; [apply (acct_update w.1 (set_type w.1 (lf_type lock))); done|].
    eapply acct_trans; [apply acct_perm, perm_swap|]. eapply acct_trans; [by apply acct_free|].
    apply acct_perm, Permutation_middle.
Qed.

(** Cases 2 and 5: the overlap gives the bytes of the lock up at its start, *)
Lemma link_right lock p f r st :
  meets lock p f r -> lf_start lock <= lf_start f -> lf_start f <= lf_hi lock -> lf_hi lock < lf_hi f ->
  let w := lf_wakelock (set_start f (off (lf_end lock + 1))) st in
  granted lock (p ++ f :: r) st (with_list w.2 (p ++ lock :: w.1 :: r)).
Proof.
  intros Hm H1 H2 H3 w. destruct (meets_own _ _ _ _ Hm) as (E & M1 & M2 & M3). destruct Hm as (Hl & Hf & Hid & _ & Hp).
  destruct (right_part lock f (own (lf_id lock) r) st) as (g & st1 & Ew & G1 & G2 & G3 & G4 & G5); auto.
  unfold w. rewrite Ew. simpl.
  apply (granted_own lock lock _ st _ (own (lf_id lock) p) [f] (own (lf_id lock) r) [] [g]); simpl lf_list; auto.
  - done.
  - by rewrite own_app, !own_cons_eq.
  - done.
  - intros id Hne. rewrite !own_app, !own_cons_ne by congruence. done.
  - apply acct_list. eapply acct_trans; [apply (acct_perm _ _ (f :: lock :: p ++ r))|].
    { rewrite <- Permutation_middle. apply perm_swap. }
    eapply acct_trans; [apply G4|]. apply acct_perm. rewrite perm_swap. rewrite <- Permutation_middle.
    by rewrite <- Permutation_middle.
Qed.

(** or in its middle, *)
Lemma link_split lock p f r st :
  meets lock p f r -> lf_start f < lf_start lock -> lf_hi lock <= lf_hi f ->
  exists g segr st1, lf_split f lock st = (g :: lock :: segr, st1) /\
    granted lock (p ++ f :: r) st
      (with_list (lf_wakelock g st1).2 (p ++ (lf_wakelock g st1).1 :: (lock :: segr) ++ r)).
Proof.
  intros Hm H1 H2. destruct (meets_own _ _ _ _ Hm) as (E & M1 & M2 & M3). destruct Hm as (Hl & Hf & Hid & _ & Hp).
  destruct (split_granted lock f (own (lf_id lock) r) st) as (g & segr & st1 & st2 & Es & Ew & G1 & G2 & G3 & G4 & G5 & G6); auto.
  exists g, segr, st1. split; [done|]. rewrite Ew. set (g' := (lf_wakelock g st1).1) in *.
  pose proof (lf_hi_max f Hf). pose proof Hl as (L1 & L2 & L3). destruct (left_of_ok _ _ _ Hf G1) as [Gok Ghi]; [lia|]. destruct G1 as (I1 & I2 & I3 & I4).
  apply (granted_own lock lock _ st _ (own (lf_id lock) p) [f] (own (lf_id lock) r) [g'] segr); simpl lf_list; auto.
  - done.
  - rewrite own_app, own_cons_eq, own_cons_eq, own_app, (own_all _ segr) by (done || congruence). done.
  - cbn [ordered]. rewrite I3. done.
  - apply Forall_cons. split; [lia|done].
  - intros id Hne. rewrite !own_app, !own_cons_ne, own_app by congruence. by rewrite (own_none id (lf_id lock) segr).
  - apply acct_list. eapply acct_trans; [apply (acct_perm _ _ (f :: lock :: p ++ r))|].
    { rewrite <- Permutation_middle. apply perm_swap. }
    eapply acct_trans; [apply G5|]. apply acct_perm. rewrite <- (Permutation_middle p _ g').
    apply Permutation_skip. change (lock :: segr ++ r) with ((lock :: segr) ++ r).
    rewrite (Permutation_app_swap_app p).
    change ((lock :: segr) ++ p ++ r) with (lock :: segr ++ p ++ r). by rewrite <- (Permutation_middle segr).
Qed.

(** Cases 3 and 4: the lock is linked, and the rest of the list looked at. *)
Lemma link_case3 fuel (down : bool) lock p f r st :
  meets lock p f r -> ovcase_ok 3 lock f -> (length r < fuel)%nat ->
  let w := if down then (lock, (lf_wakelock f st).2)
           else (set_blkhd lock (lf_blkhd lock ++ lf_blkhd f), st) in
  exists st', link_loop fuel w.1 p (Some []) r (lf_free f w.2) = Ret st' /\ granted lock (p ++ f :: r) st st'.
Proof.
  intros Hm [H1 H2] Hfuel w. destruct (meets_own _ _ _ _ Hm) as (E & M1 & M2 & M3).
  destruct Hm as (Hl & Hf & Hid & Ho & Hp).
  destruct (case3_acct down lock f p r st) as (K1 & K2 & K3). fold w in K1, K2, K3. clearbody w.
  destruct (drop_step lock p f r) as (D1 & D2 & D3); auto. pose proof K1 as (I1 & I2 & I3 & I4).
  destruct (link_linked fuel w.1 p [] r (lf_free f w.2)) as (st' & El & Hg);
    [by apply (like_ok lock)|by rewrite I1|by rewrite I1, I2|done| |done|].
  { rewrite I1, I2. apply ordered_mono with (lf_hi f + 1); [|done]. destruct Hf as (? & ? & ?). lia. }
  exists st'. split; [done|]. by apply (granted_step lock w.1 _ (p ++ r) st (lf_free f w.2)).
Qed.

Lemma link_case4 fuel lock p f r st :
  meets lock p f r -> ovcase_ok 4 lock f -> (length r < fuel)%nat ->
  let w := lf_wakelock (set_end f (off (lf_start lock - 1))) st in
  exists st', link_loop fuel lock (p ++ [w.1]) (Some []) r w.2 = Ret st' /\ granted lock (p ++ f :: r) st st'.
Proof.
  intros Hm (H1 & H2 & H3) Hfuel w. destruct (meets_own _ _ _ _ Hm) as (E & M1 & M2 & M3).
  destruct Hm as (Hl & Hf & Hid & Ho & Hp).
  assert (Hg : left_of f (lf_start lock - 1) w.1) by (unfold w; rewrite start_minus_1 by done; done).
  assert (Hw : forall l, acct st (f :: l) w.2 (w.1 :: l)).
  { intros l. eapply acct_trans; [by apply (acct_update f (set_end f (off (lf_start lock - 1))))|apply acct_wake]. }
  clearbody w. destruct (shrink_step lock p f w.1 r) as (D1 & D2 & D3 & D4); auto.
  assert (Eg : own (lf_id lock) (p ++ [w.1]) = own (lf_id lock) p ++ [w.1]).
  { rewrite own_app, own_cons_eq by (destruct Hg; congruence). done. }
  destruct (link_linked fuel lock (p ++ [w.1]) [] r w.2) as (st' & El & Hgr); [done| | |done| |done|].
  - rewrite own_app in D1. by apply ordered_app in D1 as [D1 _].
  - rewrite Eg. apply Forall_app. split; [done|]. by apply Forall_cons.
  - apply ordered_mono with (lf_hi f + 1); [lia|done].
  - exists st'. split; [done|]. apply (granted_step lock lock _ ((p ++ [w.1]) ++ r) st w.2); auto; [done|].
    rewrite <- app_assoc. eapply acct_trans; [apply (acct_perm _ _ (f :: lock :: p ++ r))|].
    { rewrite <- Permutation_middle. apply perm_swap. }
    eapply acct_trans; [apply Hw|]. apply acct_perm. cbn [app]. rewrite perm_swap. by rewrite <- Permutation_middle.
Qed.

(** No overlap: the lock goes between what it is after and what is after it. *)
Lemma link_none lock p q st :
  lock_ok lock -> ordered 0 (own (lf_id lock) (p ++ q)) ->
  Forall (fun g => lf_hi g < lf_start lock) (own (lf_id lock) p) ->
  match q with [] => True | f :: _ => lf_id f = lf_id lock /\ lf_hi lock < lf_start f end ->
  granted lock (p ++ q) st (with_list st (p ++ lock :: q)).
Proof.
  intros Hl Ho Hp Hq. rewrite own_app in Ho. apply ordered_app in Ho as [Hop Hoq].
  apply (granted_own lock lock _ st _ (own (lf_id lock) p) [] (own (lf_id lock) q) [] []); simpl; auto.
  - done.
  - by rewrite own_app.
  - by rewrite own_app, own_cons_eq.
  - destruct q as [|f q]; [done|]. destruct Hq as [Hid Hlt]. rewrite own_cons_eq in * by done.
    destruct Hoq as (? & ? & ?). simpl. conj; auto. lia.
  - intros ty x. pose proof (cov_nil ty x). tauto.
  - intros id Hne. rewrite !own_app, own_cons_ne by congruence. done.
  - apply acct_list, acct_perm, Permutation_middle.
Qed.

(** Case 2 with the same type: there is nothing to do. *)
Lemma link_same lock p f r st :
  meets lock p f r -> lf_blkhd lock = [] -> lf_start f <= lf_start lock -> lf_hi lock <= lf_hi f ->
  lf_type f = lf_type lock -> granted lock (p ++ f :: r) st (with_list (lf_free lock st) (p ++ f :: r)).
Proof.
  intros Hm Hblk H1 H2 Hty. destruct (meets_own _ _ _ _ Hm) as (E & M1 & M2 & M3).
  destruct Hm as (Hl & Hf & Hid & Ho & Hp). split; simpl; auto.
  - intros ty x. rewrite E, !cov_app, cov_cons. pose proof (cov_nil ty x).
    pose proof (cov_below _ (lf_start lock) ty x Hp) as B1. pose proof (cov_bounds _ _ ty x M2) as B2. unfold on in *.
    destruct (decide (lf_start lock <= x <= lf_hi lock)); split; intros HH; intuition (lia || congruence).
  - apply acct_list. by apply acct_free.
Qed.

(** Adding a lock to a list in which the holder's locks are in order. *)
Lemma link_spec lock l st :
  lock_ok lock -> lf_blkhd lock = [] -> ordered 0 (own (lf_id lock) l) ->
  exists st', link_loop (S (length l)) lock [] None l st = Ret st' /\ granted lock l st st'.
Proof.
  intros Hl Hblk Ho. cbn [link_loop]. change (default [] None) with (@nil lockf).
  destruct (findoverlap_self lock [] l _ Hl Ho) as (c & p & q & -> & -> & Hp & Hc). cbn [bind app].
  pose proof Hl as (L1 & L2 & L3). destruct Hc as [[-> Hq]|(Hc & f & r & -> & Hid & Hf & Hov)].
  - assert (Hfin : granted lock (p ++ q) st (with_list st (p ++ lock :: q))) by (by apply link_none).
    destruct q; (eexists; split; [|exact Hfin]); done.
  - assert (Hm : meets lock p f r) by done. destruct (meets_own _ _ _ _ Hm) as (E & M1 & M2 & M3).
    set (down := (lf_type lock =? F_RDLCK) && (lf_type f =? F_WRLCK)).
    assert (Hlen : (length r < length (p ++ f :: r))%nat) by (rewrite length_app; simpl; lia).
    assert (Hc5 : c = 1 \/ c = 2 \/ c = 3 \/ c = 4 \/ c = 5).
    { unfold ovcase_ok in Hov. destruct c as [|[[[]|[]|]|[[]|[]|]|]|]; try done; lia. }
    destruct Hc5 as [->|[->|[->|[->| ->]]]]; cbn [Z.eqb Pos.eqb].
    + pose proof (link_case1 down lock p f r st Hm Hblk Hov) as Hg. simpl in Hg.
      destruct (if down then _ else _) as [f1 st1]. eauto.
    + destruct Hov as (O1 & O2 & O3). destruct (Z.eqb_spec (lf_type f) (lf_type lock)).
      { eexists; split; [done|]. by apply link_same. }
      destruct (Z.eqb_spec (lf_start f) (lf_start lock)) as [Es|Es].
      * eexists; split; [done|]. apply link_right; auto; lia.
      * destruct (link_split lock p f r st) as (g & segr & st1 & -> & Hg); [done|lia|lia|]. eauto.
    + pose proof (link_case3 (length (p ++ f :: r)) down lock p f r st Hm Hov Hlen) as Hg. simpl in Hg.
      destruct (if down then _ else _) as [lock1 st1]. done.
    + by apply link_case4.
    + destruct Hov as (O1 & O2 & O3). eexists; split; [done|]. apply link_right; auto; lia.
Qed.
