(* ===== verification/LockfSpec.v ===== *)
(** The contract of advisory locking: per holder a map from bytes to lock
    types, no byte write-locked by one holder and locked by another, and what
    each request does to that map. *)

From S2P Require Import Prelude Lockf LockfList LockfClear LockfSet.

(** * The invariant *)

(** Holder [id] has byte [x] locked with type [ty]. *)
Definition holds (st : state) (id ty x : Z) : Prop := cov (own id (lf_list st)) ty x.

Definition exclusive (st : state) : Prop :=
  forall id id' ty x, id <> id' -> holds st id F_WRLCK x -> ~ holds st id' ty x.

Record lf_ok (st : state) : Prop := {
  ok_ordered : forall id, ordered 0 (own id (lf_list st));
  ok_types : forall id ty x, holds st id ty x -> ty = F_RDLCK \/ ty = F_WRLCK;
  ok_exclusive : exclusive st;
  ok_fresh : Forall (fun f => lf_self f < next_addr st) (lf_list st)
}.

Lemma ordered_ok lo l : ordered lo l -> Forall lock_ok l.
Proof.
  revert lo. induction l as [|f l IH]; intros lo; [done|]. intros (_ & H1 & H2). apply Forall_cons. eauto.
Qed.

Lemma own_elem f l : f ∈ l -> f ∈ own (lf_id f) l.
Proof. intros. apply list_elem_of_filter. done. Qed.

Lemma ok_locks st : lf_ok st -> Forall lock_ok (lf_list st).
Proof.
  intros [H _ _ _]. apply Forall_forall. intros f Hf. specialize (H (lf_id f)). apply ordered_ok in H.
  rewrite Forall_forall in H. by apply H, own_elem.
Qed.

Lemma holds_elem st id ty x :
  holds st id ty x <-> exists f, f ∈ lf_list st /\ lf_id f = id /\ lf_type f = ty /\ on f x.
Proof.
  unfold holds, cov. rewrite Exists_exists. unfold own. split.
  - intros (f & Hf & Ht & Ho). apply list_elem_of_filter in Hf as [Hid Hf]. by exists f.
  - intros (f & Hf & Hid & Ht & Ho). exists f. rewrite list_elem_of_filter. auto.
Qed.

(** * Requests *)

(** A lock as [lf_advlock] makes it. *)
Definition request_ok (st : state) (lock : lockf) : Prop :=
  lock_ok lock /\ lf_blkhd lock = [] /\ lf_self lock < next_addr st /\
  Forall (fun f => lf_self f <> lf_self lock) (lf_list st).

(** Somebody else has a byte of the lock, and one of the two is for writing. *)
Definition refused (st : state) (lock : lockf) : Prop :=
  exists id ty x, id <> lf_id lock /\ on lock x /\ holds st id ty x /\ (lf_type lock = F_WRLCK \/ ty = F_WRLCK).

Lemma getblock_refused lock st :
  lock_ok lock -> lf_ok st ->
  exists r, lf_getblock lock st = Ret r /\
    match r with None => ~ refused st lock | Some b => refused st lock /\ b ∈ lf_list st /\ conflicts lock b end.
Proof.
  intros Hl Hok. destruct (getblock_spec lock st Hl (ok_locks st Hok)) as (r & E & Hr). exists r. split; [done|].
  destruct r as [b|].
  - destruct Hr as [Hin Hc]. split; [|done]. destruct Hc as (H1 & [H2 H3] & H4).
    assert (Hb : lock_ok b) by (pose proof (ok_locks st Hok) as H; rewrite Forall_forall in H; by apply H).
    destruct Hl as (? & ? & ?), Hb as (? & ? & ?).
    exists (lf_id b), (lf_type b), (Z.max (lf_start b) (lf_start lock)). conj; auto; [unfold on; lia|].
    apply holds_elem. exists b. conj; auto. unfold on. lia.
  - intros (id & ty & x & Hid & Hon & Hh & Hw). apply holds_elem in Hh as (f & Hf & <- & <- & Hfx).
    rewrite Forall_forall in Hr. apply (Hr f Hf). unfold conflicts, overlaps, on in *. conj; auto; lia.
Qed.

(** Granting an unrefused request keeps the invariant. *)
Lemma granted_ok lock st st' :
  lf_ok st -> request_ok st lock -> lf_type lock = F_RDLCK \/ lf_type lock = F_WRLCK -> ~ refused st lock ->
  granted lock (lf_list st) st st' -> lf_ok st'.
Proof.
  intros [O1 O2 O3 O4] (R1 & R2 & R3 & _) Hty Hno [G1 G2 G3 G4].
  assert (Hh : forall id ty x, holds st' id ty x <->
    if decide (id = lf_id lock) then on lock x /\ ty = lf_type lock \/ ~ on lock x /\ holds st id ty x
    else holds st id ty x).
  { intros id ty x. unfold holds. destruct (decide (id = lf_id lock)) as [->|Hne]; [apply G3|by rewrite G1]. }
  split.
  - intros id. destruct (decide (id = lf_id lock)) as [->|Hne]; [done|by rewrite G1].
  - intros id ty x Hx. apply Hh in Hx. destruct (decide _); [|by apply (O2 id ty x)].
    destruct Hx as [[_ ->]|[_ Hx]]; [done|by apply (O2 id ty x)].
  - intros id id' ty x Hne Hw Hx. apply Hh in Hw, Hx.
    destruct (decide (id = lf_id lock)) as [->|H1], (decide (id' = lf_id lock)) as [->|H2]; [done| | |].
    + destruct Hw as [[Hon Hwr]|[_ Hw]]; [|by apply (O3 _ _ ty x Hne Hw)].
      apply Hno. exists id', ty, x. auto.
    + destruct Hx as [[Hon Hwr]|[_ Hx]]; [|by apply (O3 _ _ ty x Hne Hw)].
      apply Hno. exists id, F_WRLCK, x. auto.
    + by apply (O3 _ _ ty x Hne Hw).
  - apply (acct_fresh _ _ _ _ G4). by apply Forall_cons.
Qed.

Lemma cleared_ok lock st st' : lf_ok st -> cleared lock (lf_list st) st st' -> lf_ok st'.
Proof.
  intros [O1 O2 O3 O4] [C1 C2 C3 C4].
  assert (Hh : forall id ty x, holds st' id ty x -> holds st id ty x).
  { intros id ty x. unfold holds. destruct (decide (id = lf_id lock)) as [->|Hne]; [|by rewrite C1].
    intros Hx. by apply C3 in Hx as [Hx _]. }
  split.
  - intros id. destruct (decide (id = lf_id lock)) as [->|Hne]; [done|by rewrite C1].
  - eauto.
  - intros id id' ty x Hne Hw Hx. by apply (O3 id id' ty x Hne); apply Hh.
  - by apply (acct_fresh _ _ _ _ C4).
Qed.

(** * [lf_setlock] *)

Lemma lf_setlock_eq lock st evs :
  lf_setlock lock st evs =
  (let! block := lf_getblock lock st in
   match block with
   | None =>
       let! st := link_loop (S (length (lf_list st))) lock [] None (lf_list st) st in Ret (0, st, evs)
   | Some block =>
       if negb (flag (lf_flags lock) F_WAIT) then Ret (LF_EAGAIN, lf_free lock st, evs)
       else if flag (lf_flags lock) F_POSIX && flag (lf_flags block) F_POSIX &&
               deadlock_loop (Z.to_nat MAXDEPTH) (waits_for st) (lf_id lock) (lf_id block) then
         Ret (EDEADLK, lf_free lock st, evs)
       else
         let! st :=
           if flag (lf_flags lock) F_FLOCK && (lf_type lock =? F_WRLCK) then
             lf_clearlock (set_type lock F_UNLCK) st
           else Ret st in
         let st := block_on block (lf_self lock) st in
         match evs with
         | [] => Spin
         | e :: evs =>
             let st := unblock (lf_self lock) (ev_others e st) in
             if negb (ev_error e =? 0) then Ret (ev_error e, lf_free lock st, evs)
             else lf_setlock lock st evs
         end
   end).
Proof. by destruct evs. Qed.

(** What setting [lock] makes of the map from holders and bytes to types. *)
Definition sets (lock : lockf) (st st' : state) : Prop :=
  forall id ty x, holds st' id ty x <->
    (id = lf_id lock /\ on lock x /\ ty = lf_type lock) \/
    (~ (id = lf_id lock /\ on lock x) /\ holds st id ty x).

Lemma granted_sets lock st st' : granted lock (lf_list st) st st' -> sets lock st st'.
Proof.
  intros [G1 _ G3 _] id ty x. unfold holds. destruct (decide (id = lf_id lock)) as [->|Hne].
  - rewrite G3. tauto.
  - rewrite G1 by done. tauto.
Qed.

(** A request that nobody refuses is granted at once. *)
Lemma setlock_granted lock st evs :
  lf_ok st -> request_ok st lock -> lf_type lock = F_RDLCK \/ lf_type lock = F_WRLCK -> ~ refused st lock ->
  exists st', lf_setlock lock st evs = Ret (0, st', evs) /\ lf_ok st' /\ sets lock st st' /\
    acct st (lock :: lf_list st) st' (lf_list st').
Proof.
  intros Hok Hrq Hty Hno. rewrite lf_setlock_eq. destruct (Hrq) as (R1 & R2 & R3 & R4).
  destruct (getblock_refused lock st R1 Hok) as (r & -> & Hr). cbn [bind]. destruct r as [b|]; [tauto|].
  destruct (link_spec lock (lf_list st) st R1 R2) as (st' & -> & Hg); [apply Hok|]. cbn [bind].
  exists st'. conj; auto; [by apply (granted_ok lock st)|by apply granted_sets|apply Hg].
Qed.

(** C23.  [lf_setlock] grants a request exactly when no other holder has a byte
    of it with one of the two locks for writing; the request is one that does
    not end at the last representable byte.  Then it answers 0 without
    sleeping, the holder has the requested bytes with the requested type and
    every other byte, its own and the others', stays as it was; locks per user
    and waiters are accounted for.  A refused request that may not wait answers
    [EAGAIN] and only gives its structure back. *)
Theorem lf_setlock_spec (lock : lockf) (st : state) (evs : list event) :
  lf_ok st -> request_ok st lock -> lf_type lock = F_RDLCK \/ lf_type lock = F_WRLCK ->
  (~ refused st lock ->
    exists st', lf_setlock lock st evs = Ret (0, st', evs) /\ lf_ok st' /\ sets lock st st' /\
      acct st (lock :: lf_list st) st' (lf_list st')) /\
  (refused st lock -> flag (lf_flags lock) F_WAIT = false ->
    lf_setlock lock st evs = Ret (LF_EAGAIN, lf_free lock st, evs)).
Proof.
  intros Hok Hrq Hty. split; [by apply setlock_granted|]. intros Href Hw. rewrite lf_setlock_eq.
  destruct (getblock_refused lock st (proj1 Hrq) Hok) as (r & -> & Hr). cbn [bind]. destruct r as [b|]; [|done].
  by rewrite Hw.
Qed.

(** * [lf_clearlock] *)

(** What clearing [lock] makes of the map. *)
Definition clears (lock : lockf) (st st' : state) : Prop :=
  forall id ty x, holds st' id ty x <-> ~ (id = lf_id lock /\ on lock x) /\ holds st id ty x.

Lemma clearlock_cleared lock st :
  lf_ok st -> request_ok st lock ->
  exists st', lf_clearlock lock st = Ret st' /\ cleared lock (lf_list st) st st'.
Proof.
  intros Hok (R1 & R2 & R3 & R4). unfold lf_clearlock. destruct (lf_list st) as [|f l] eqn:El.
  - exists st. split; [done|]. split; rewrite ?El.
    + done.
    + done.
    + intros ty x. pose proof (cov_nil ty x). change (own (lf_id lock) []) with (@nil lockf). tauto.
    + apply acct_refl.
  - rewrite <- El in *. apply (clearlock_loop_spec (S (length (lf_list st))) lock [] (lf_list st)); auto. apply Hok.
Qed.

Lemma cleared_clears lock st st' : cleared lock (lf_list st) st st' -> clears lock st st'.
Proof.
  intros [C1 _ C3 _] id ty x. unfold holds. destruct (decide (id = lf_id lock)) as [->|Hne].
  - rewrite C3. tauto.
  - rewrite C1 by done. tauto.
Qed.

(**  [lf_clearlock] unlocks exactly the holder's bytes of the request and
    keeps the invariant; every waiter of a lock it shortens or removes is woken
    or still waits, and locks per user are accounted for. *)
Theorem lf_clearlock_spec (lock : lockf) (st : state) :
  lf_ok st -> request_ok st lock ->
  exists st', lf_clearlock lock st = Ret st' /\ lf_ok st' /\ clears lock st st' /\
    acct st (lf_list st) st' (lf_list st').
Proof.
  intros Hok Hrq. destruct (clearlock_cleared lock st Hok Hrq) as (st' & E & Hc). exists st'.
  conj; [done|by apply (cleared_ok lock st)|by apply cleared_clears|apply Hc].
Qed.

(**  [lf_getlock] describes a lock that refuses the request, in full, or
    answers [F_UNLCK] and leaves the rest of the [struct flock] when no lock
    does. *)
Theorem lf_getlock_spec (pid_of : Z -> Z) (lock : lockf) (fl : flock) (st : state) :
  lf_ok st -> lock_ok lock ->
  exists fl', lf_getlock pid_of lock fl st = Ret fl' /\
    (refused st lock /\ (exists b, b ∈ lf_list st /\ conflicts lock b /\ l_type fl' = lf_type b /\
       l_whence fl' = SEEK_SET /\ l_start fl' = lf_start b /\
       (forall x, on b x <-> l_start fl' <= x <= (if l_len fl' =? 0 then OFF_MAX else l_start fl' + l_len fl' - 1)) /\
       l_pid fl' = (if flag (lf_flags b) F_POSIX then pid_of (lf_id b) else -1)) \/
     ~ refused st lock /\ fl' = Flock (l_start fl) (l_len fl) (l_pid fl) F_UNLCK (l_whence fl)).
Proof.
  intros Hok Hl. unfold lf_getlock. destruct (getblock_refused lock st Hl Hok) as (r & -> & Hr). cbn [bind].
  destruct r as [b|]; eexists; (split; [done|]); [left|by right]. destruct Hr as (H1 & H2 & H3). split; [done|].
  assert (Hb : lock_ok b) by (pose proof (ok_locks st Hok) as H; rewrite Forall_forall in H; by apply H).
  exists b. simpl. conj; auto. intros x. destruct (lf_end_cases b Hb) as [[E1 E2]|(E1 & E2 & E3)]; unfold on; rewrite E2.
  - rewrite E1. simpl. tauto.
  - destruct (Z.eqb_spec (lf_end b) (-1)); [done|]. destruct Hb as (? & ? & ?). unfold OFF_MAX in *.
    rewrite off_small by lia. destruct (Z.eqb_spec (lf_end b - lf_start b + 1) 0); lia.
Qed.

(** * Waiting *)

(** A change of the blocked lists only. *)
Lemma lf_ok_map (f : lockf -> lockf) st :
  (forall l, like l (f l) /\ lf_self (f l) = lf_self l) -> lf_ok st ->
  lf_ok (with_list st (f <$> lf_list st)) /\
  forall id ty x, holds (with_list st (f <$> lf_list st)) id ty x <-> holds st id ty x.
Proof.
  intros Hf [O1 O2 O3 O4].
  assert (Hown : forall id l, own id (f <$> l) = f <$> own id l).
  { intros id l. induction l as [|g l IH]; [done|]. rewrite fmap_cons. destruct (Hf g) as [(E & _) _].
    destruct (decide (lf_id g = id)); [rewrite !own_cons_eq by congruence|rewrite !own_cons_ne by congruence; done].
    by rewrite IH. }
  assert (Hord : forall lo l, ordered lo l -> ordered lo (f <$> l)).
  { intros lo l. revert lo. induction l as [|g l IH]; intros lo; [done|]. intros (H1 & H2 & H3). destruct (Hf g) as [K _].
    pose proof (like_hi _ _ K) as Eh. pose proof (like_ok _ _ K H2). destruct K as (_ & Es & _).
    rewrite fmap_cons. cbn [ordered]. rewrite Es, Eh. auto. }
  assert (Hcov : forall l ty x, cov (f <$> l) ty x <-> cov l ty x).
  { intros l ty x. induction l as [|g l IH]; [done|]. rewrite fmap_cons, !cov_cons, IH. destruct (Hf g) as [K _].
    rewrite (like_on g (f g)) by done. destruct K as (_ & _ & _ & ->). done. }
  assert (Hh : forall id ty x, holds (with_list st (f <$> lf_list st)) id ty x <-> holds st id ty x).
  { intros id ty x. unfold holds. simpl. by rewrite Hown, Hcov. }
  split; [|done]. split.
  - intros id. simpl. rewrite Hown. auto.
  - intros id ty x. rewrite Hh. apply O2.
  - intros id id' ty x Hne Hw. rewrite Hh in *. eauto.
  - simpl. apply Forall_fmap. eapply Forall_impl; [exact O4|]. intros g Hg. simpl. by destruct (Hf g) as [_ ->].
Qed.

(** Other processes keep the invariant, and the address of a sleeping request
    is not reused. *)
Definition friendly (lock : lockf) (e : event) : Prop :=
  forall st, lf_ok st -> request_ok st lock -> lf_ok (ev_others e st) /\ request_ok (ev_others e st) lock.

Lemma request_ok_map lock f st :
  (forall l, lf_self (f l) = lf_self l) -> request_ok st lock -> request_ok (with_list st (f <$> lf_list st)) lock.
Proof.
  intros Hf (R1 & R2 & R3 & R4). unfold request_ok. simpl. conj; auto. apply Forall_fmap.
  eapply Forall_impl; [exact R4|]. intros g Hg. simpl. by rewrite Hf.
Qed.

Lemma block_on_ok lock b st : lf_ok st -> request_ok st lock ->
  lf_ok (block_on b (lf_self lock) st) /\ request_ok (block_on b (lf_self lock) st) lock.
Proof.
  intros Hok Hrq. unfold block_on. split.
  - apply lf_ok_map; [|done]. intros l. by destruct (lf_self l =? lf_self b).
  - apply request_ok_map; [|done]. intros l. by destruct (lf_self l =? lf_self b).
Qed.

Lemma unblock_ok lock st : lf_ok st -> request_ok st lock ->
  lf_ok (unblock (lf_self lock) st) /\ request_ok (unblock (lf_self lock) st) lock.
Proof.
  intros Hok Hrq. unfold unblock. split; [by apply lf_ok_map|by apply request_ok_map].
Qed.

Lemma free_ok lock st : lf_ok st -> lf_ok (lf_free lock st).
Proof. intros [O1 O2 O3 O4]. by split. Qed.

(** The request keeps its address when its holder's locks are cleared. *)
Lemma clear_for_wait lock st :
  lf_ok st -> request_ok st lock ->
  exists st', (if flag (lf_flags lock) F_FLOCK && (lf_type lock =? F_WRLCK)
    then lf_clearlock (set_type lock F_UNLCK) st else Ret st) = Ret st' /\ lf_ok st' /\ request_ok st' lock.
Proof.
  intros Hok Hrq. destruct (_ && _); [|by exists st].
  destruct (clearlock_cleared (set_type lock F_UNLCK) st Hok Hrq) as (st' & E & Hc). exists st'. conj; auto.
  - by apply (cleared_ok (set_type lock F_UNLCK) st).
  - destruct Hrq as (R1 & R2 & R3 & R4). destruct Hc as [_ _ _ [_ _ _ A4 A5]]. unfold request_ok. conj; auto; [lia|].
    apply (A5 (fun z => z <> lf_self lock)); [lia|done].
Qed.

(** The answers of [lf_setlock] when it may have slept; without an answer it is
    still asleep. *)
Definition lock_answer (lock : lockf) (m : outcome (Z * state * list event)) : Prop :=
  match m with
  | Ret (r, st', _) => lf_ok st' /\
      (r = 0 -> exists st1, lf_ok st1 /\ ~ refused st1 lock /\ sets lock st1 st')
  | Spin => True
  | _ => False
  end.

Lemma unrefused_answer lock st evs :
  lf_ok st -> request_ok st lock -> lf_type lock = F_RDLCK \/ lf_type lock = F_WRLCK -> ~ refused st lock ->
  lock_answer lock (lf_setlock lock st evs).
Proof.
  intros Hok Hrq Hty Hr. destruct (setlock_granted lock st evs Hok Hrq Hty Hr) as (st' & -> & H1 & H2 & _).
  split; [done|]. intros _. by exists st.
Qed.

(** C37.  [lf_setlock] with any flags, while other processes use the file
    between its sleeps and keep the invariant: it never faults and keeps the
    invariant itself, so that no byte is write-locked by one holder and locked
    by another; and when it answers 0 the lock has been set on a state in which
    nobody refused it.  The request does not end at the last representable
    byte, and its address is not given to another lock while it sleeps. *)
Theorem lf_setlock_waits (lock : lockf) (st : state) (evs : list event) :
  lf_ok st -> request_ok st lock -> lf_type lock = F_RDLCK \/ lf_type lock = F_WRLCK ->
  Forall (friendly lock) evs -> lock_answer lock (lf_setlock lock st evs).
Proof.
  intros Hok Hrq Hty Hevs. revert st Hok Hrq. induction evs as [|e evs IH]; intros st Hok Hrq;
    (destruct (getblock_refused lock st (proj1 Hrq) Hok) as (r & Eb & Hr); destruct r as [b|];
     [rewrite lf_setlock_eq, Eb; cbn [bind]
     |by apply unrefused_answer]).
  all: destruct (negb _); [split; [by apply free_ok|done]|].
  all: destruct (_ && deadlock_loop _ _ _ _); [split; [by apply free_ok|done]|].
  all: destruct (clear_for_wait lock st Hok Hrq) as (st1 & -> & Hok1 & Hrq1); cbn [bind].
  { done. }
  apply Forall_cons in Hevs as [He Hevs]. destruct (block_on_ok lock b st1 Hok1 Hrq1) as [Hok2 Hrq2].
  destruct (He _ Hok2 Hrq2) as [Hok3 Hrq3]. destruct (unblock_ok lock _ Hok3 Hrq3) as [Hok4 Hrq4].
  destruct (Z.eqb_spec (ev_error e) 0); cbn [negb]; [by apply IH|]. split; [by apply free_ok|done].
Qed.

(** * Deadlocks *)

(** The chain of waiting processes leads from [w] back to [id] in [n] steps,
    over POSIX locks only. *)
Inductive leads (waits : Z -> option (Z * Z)) (id : Z) : nat -> Z -> Prop :=
| leads_here w fl : waits w = Some (fl, id) -> flag fl F_POSIX = true -> leads waits id 1 w
| leads_next n w w' fl : waits w = Some (fl, w') -> flag fl F_POSIX = true ->
    leads waits id n w' -> leads waits id (S n) w.

Lemma deadlock_loop_leads depth waits id w :
  deadlock_loop depth waits id w = true <-> exists n, (n <= depth)%nat /\ leads waits id n w.
Proof.
  revert w. induction depth as [|depth IH]; intros w; simpl.
  - split; [done|]. intros (n & Hn & Hl). destruct Hl; lia.
  - destruct (waits w) as [[fl w']|] eqn:Hw.
    2: { split; [done|]. intros (n & _ & Hl). destruct Hl; congruence. }
    destruct (flag fl F_POSIX) eqn:Hfl; cbn [negb].
    2: { split; [done|]. intros (n & _ & Hl). destruct Hl; congruence. }
    destruct (Z.eqb_spec w' id) as [->|Hne].
    + split; [|done]. intros _. exists 1%nat. split; [lia|]. by eapply leads_here.
    + rewrite IH. split.
      * intros (n & Hn & Hl). exists (S n). split; [lia|]. by eapply leads_next.
      * intros (n & Hn & Hl). destruct Hl as [w fl0 E1 E2|n w w0 fl0 E1 E2 Hl]; [congruence|].
        exists n. split; [lia|congruence].
Qed.

(**  Deadlock detection: a POSIX request that would wait for a POSIX lock
    is refused with [EDEADLK] exactly when the chain of who waits for whom leads
    from the lock's holder back to the requester in at most [MAXDEPTH] steps;
    otherwise it sleeps. *)
Theorem lf_setlock_deadlock (lock b : lockf) (st : state) :
  lf_getblock lock st = Ret (Some b) -> flag (lf_flags lock) F_WAIT = true ->
  flag (lf_flags lock) F_POSIX = true -> flag (lf_flags lock) F_FLOCK = false -> flag (lf_flags b) F_POSIX = true ->
  ((exists n, (n <= Z.to_nat MAXDEPTH)%nat /\ leads (waits_for st) (lf_id lock) n (lf_id b)) ->
    forall evs, lf_setlock lock st evs = Ret (EDEADLK, lf_free lock st, evs)) /\
  (~ (exists n, (n <= Z.to_nat MAXDEPTH)%nat /\ leads (waits_for st) (lf_id lock) n (lf_id b)) ->
    lf_setlock lock st [] = Spin).
Proof.
  intros Hb Hw Hp Hnf Hbp. split.
  - intros Hl%deadlock_loop_leads evs. rewrite lf_setlock_eq, Hb. cbn [bind]. by rewrite Hw, Hp, Hbp, Hl.
  - intros Hl. rewrite <- deadlock_loop_leads in Hl. rewrite lf_setlock_eq, Hb. cbn [bind].
    rewrite Hw, Hp, Hbp, Hnf. by destruct (deadlock_loop _ _ _ _).
Qed.

(** * [lf_advlock] *)

(** The conversion of the [struct flock] gives a range of bytes. *)
Lemma flock_range_ok size fl start endd :
  is_s 64 (l_start fl) -> is_s 64 size -> flock_range size fl = Some (start, endd) ->
  0 <= start /\ start < 2 ^ 63 /\ (endd = -1 \/ start <= endd) /\ endd < 2 ^ 63.
Proof.
  unfold is_s. intros Hs Hz. unfold flock_range.
  assert (Hoff : forall z, - 2 ^ 63 <= off z < 2 ^ 63).
  { intros z. unfold off, swrap. pose proof (wrap_range 64 (z + 2 ^ (64 - 1)) ltac:(lia)) as H. unfold is_u in H. lia. }
  destruct (_ || _); [|destruct (l_whence fl =? SEEK_END); [|done]].
  all: match goal with |- context [?s <? 0] => destruct (Z.ltb_spec s 0); [done|] end.
  all: destruct (l_len fl =? 0); [intros; simplify_eq; pose proof (Hoff (size + l_start fl)); lia|].
  all: match goal with |- context [?e <? ?s] => destruct (Z.ltb_spec e s); [done|] end.
  all: intros; simplify_eq; pose proof (Hoff (size + l_start fl)).
  all: match goal with |- context [off (?x - 1)] => pose proof (Hoff (x - 1)) end; lia.
Qed.

(** Calls that do not wait: any holder, user and operation, with a type for
    locking, on a range whose last byte is not the last representable one. *)
Inductive call (st : state) : state -> Prop :=
| a_call pid_of uid size id op fl flags e fl' st' evs' :
    flag flags F_WAIT = false -> is_s 64 (l_start fl) -> is_s 64 size ->
    (forall start endd, flock_range size fl = Some (start, endd) -> endd < OFF_MAX) ->
    (op = F_SETLK -> l_type fl = F_RDLCK \/ l_type fl = F_WRLCK) ->
    lf_advlock pid_of uid size id op fl flags st [] = Ret (e, fl', st', evs') -> call st st'.

(** The states calls lead to, from a file without locks. *)
Inductive reachable : state -> Prop :=
| r_init cnt wk next waits : reachable (State [] cnt wk next waits)
| r_call st st' : reachable st -> call st st' -> reachable st'.

Lemma advlock_request st addr st1 uid id flags ty start endd :
  lf_ok st -> 0 <= start -> start < 2 ^ 63 -> (endd = -1 \/ start <= endd) -> endd < OFF_MAX ->
  forall allowfail, lf_alloc uid allowfail st = (Some addr, st1) ->
  lf_ok st1 /\ request_ok st1 (Lock addr [] start endd id flags ty uid) /\ lf_list st1 = lf_list st.
Proof.
  intros [O1 O2 O3 O4] H1 H2 H3 H4 allowfail. unfold lf_alloc. destruct (_ && _ && _); [done|].
  intros E. simplify_eq. simpl. conj; [split; simpl; auto| |done].
  - eapply Forall_impl; [exact O4|]. simpl. lia.
  - unfold request_ok. simpl. conj; auto; [|lia|].
    + unfold lock_ok, lf_hi. simpl. unfold OFF_MAX in *. destruct (Z.eqb_spec endd (-1)); lia.
    + eapply Forall_impl; [exact O4|]. simpl. lia.
Qed.

(** One call returns and keeps the invariant. *)
Lemma advlock_ok pid_of uid size id op fl flags st :
  lf_ok st -> flag flags F_WAIT = false -> is_s 64 (l_start fl) -> is_s 64 size ->
  (forall start endd, flock_range size fl = Some (start, endd) -> endd < OFF_MAX) ->
  (op = F_SETLK -> l_type fl = F_RDLCK \/ l_type fl = F_WRLCK) ->
  exists e fl' st', lf_advlock pid_of uid size id op fl flags st [] = Ret (e, fl', st', []) /\ lf_ok st'.
Proof.
  intros Hok Hw Hs Hz Hmax Hty. unfold lf_advlock. destruct (flock_range size fl) as [[start endd]|] eqn:Er; [|by eauto 10].
  destruct (flock_range_ok size fl start endd Hs Hz Er) as (R1 & R2 & R3 & R4). specialize (Hmax _ _ eq_refl).
  destruct (match lf_list st with [] => _ | _ => _ end); [by eauto 10|].
  destruct (lf_alloc uid _ st) as [[addr|] st1] eqn:Ea.
  2: { exists ENOMEM, fl, st1. split; [done|]. unfold lf_alloc in Ea. destruct (_ && _ && _); by simplify_eq. }
  destruct (advlock_request st addr st1 uid id flags (l_type fl) start endd Hok R1 R2 R3 Hmax _ Ea) as (Hok1 & Hrq & El).
  set (lock := Lock addr [] start endd id flags (l_type fl) uid) in *.
  destruct (Z.eqb_spec op F_SETLK) as [Eop|_].
  - specialize (Hty Eop). destruct (getblock_refused lock st1 (proj1 Hrq) Hok1) as (r & Eb & Hr). destruct r as [b|].
    + rewrite lf_setlock_eq, Eb. cbn [bind]. simpl lf_flags. rewrite Hw. cbn [negb bind].
      eexists _, _, _; split; [done|]. by apply free_ok.
    + destruct (setlock_granted lock st1 []) as (st' & -> & H1 & _); [done..|]. cbn [bind]. eauto.
  - destruct (Z.eqb_spec op F_UNLCK) as [_|_].
    { destruct (clearlock_cleared lock st1 Hok1 Hrq) as (st' & -> & Hc). cbn [bind]. eexists _, _, _; split; [done|].
      apply free_ok. by apply (cleared_ok lock st1). }
    destruct (Z.eqb_spec op F_GETLK) as [_|_]; [|eexists _, _, _; split; [done|]; by apply free_ok].
    unfold lf_getlock. destruct (getblock_refused lock st1 (proj1 Hrq) Hok1) as (r & -> & _).
    cbn [bind]. destruct r; cbn [bind]; eexists _, _, _; (split; [done|]); by apply free_ok.
Qed.

Lemma reachable_ok st : reachable st -> lf_ok st.
Proof.
  induction 1 as [cnt wk next waits|st st' Hr IH Hc].
  - split; [done| | |by apply Forall_nil].
    + intros id ty x H. by apply cov_nil in H.
    + intros id id' ty x _ H. by apply cov_nil in H.
  - destruct Hc as [pid_of uid size id op fl flags e fl' st' evs' H1 H2 H3 H4 H5 H6].
    destruct (advlock_ok pid_of uid size id op fl flags st IH H1 H2 H3 H4 H5) as (e0 & fl0 & st0 & E & Hok).
    rewrite E in H6. by simplify_eq.
Qed.

(** C13.  Exclusion: in every state that calls of [lf_advlock] lead to, by any
    number of holders and in any order, each holder's locks are sorted and
    disjoint and no byte is write-locked by one holder and locked by another;
    and every further call returns.  The calls are those without [F_WAIT] whose
    range does not end at the last representable byte, with a type for locking
    when they set a lock. *)
Theorem lf_advlock_exclusive (st : state) : reachable st ->
  exclusive st /\ (forall id, ordered 0 (own id (lf_list st))) /\
  forall pid_of uid size id op fl flags,
    flag flags F_WAIT = false -> is_s 64 (l_start fl) -> is_s 64 size ->
    (forall start endd, flock_range size fl = Some (start, endd) -> endd < OFF_MAX) ->
    (op = F_SETLK -> l_type fl = F_RDLCK \/ l_type fl = F_WRLCK) ->
    exists e fl' st', lf_advlock pid_of uid size id op fl flags st [] = Ret (e, fl', st', []) /\ call st st'.
Proof.
  intros Hok%reachable_ok. split; [apply Hok|]. split; [apply Hok|]. intros pid_of uid size id op fl flags H1 H2 H3 H4 H5.
  destruct (advlock_ok pid_of uid size id op fl flags st Hok H1 H2 H3 H4 H5) as (e & fl' & st' & E & _).
  exists e, fl', st'. split; [done|]. by apply (a_call st pid_of uid size id op fl flags e fl' st' []).
Qed.

(**  A lock that ends at the last representable byte breaks the list: a
    process that has byte 1 to the end of file locked for writing and asks for a
    read lock of [2^63 - 1] bytes from byte 1 on keeps a write lock that starts
    at [-2^63] and covers the whole file. *)
Theorem lf_setlock_overflow :
  let st := State [Lock 1 [] 1 (-1) 7 F_POSIX F_WRLCK 0] (fun _ => 1) [] 2 (fun _ => None) in
  lf_ok st /\
  exists st', lf_advlock (fun id => id) 0 0 7 F_SETLK (Flock 1 (2 ^ 63 - 1) 0 F_RDLCK SEEK_SET) F_POSIX st [] =
      Ret (0, Flock 1 (2 ^ 63 - 1) 0 F_RDLCK SEEK_SET, st', []) /\
    map (fun l => (lf_start l, lf_end l, lf_type l)) (lf_list st') =
      [(1, 2 ^ 63 - 1, F_RDLCK); (- 2 ^ 63, -1, F_WRLCK)] /\
    ~ holds st 7 F_WRLCK 0 /\ holds st' 7 F_WRLCK 0 /\ holds st' 7 F_WRLCK 1.
Proof.
  intros st. split; [split|].
  - intros id. unfold st. simpl lf_list. destruct (decide (id = 7)) as [->|Hne]; [compute_decide|].
    by rewrite own_cons_ne by (simpl; congruence).
  - intros id ty x (f & Hf & _ & <- & _)%holds_elem. simpl in Hf. apply list_elem_of_singleton in Hf as ->. by right.
  - intros id id' ty x Hne (f & Hf & <- & _)%holds_elem (g & Hg & <- & _)%holds_elem. simpl in Hf, Hg.
    apply list_elem_of_singleton in Hf as ->. apply list_elem_of_singleton in Hg as ->. done.
  - compute_decide.
  - eexists. split; [vm_compute; reflexivity|]. split; [reflexivity|]. conj.
    + intros (f & Hf & _ & _ & Ho)%holds_elem. simpl in Hf. apply list_elem_of_singleton in Hf as ->.
      unfold on in Ho. simpl in Ho. lia.
    + apply holds_elem. eexists. split; [by right; left|]. by vm_compute.
    + apply holds_elem. eexists. split; [by right; left|]. by vm_compute.
Qed.

(** * Witnesses *)

(** Process 7 has bytes 0 to 9 locked for reading, process 8 the bytes from 20
    on for writing. *)
Definition two_holders : state :=
  State [Lock 1 [] 0 9 7 F_POSIX F_RDLCK 0; Lock 2 [] 20 (-1) 8 F_POSIX F_WRLCK 0] (fun _ => 2) [] 9 (fun _ => None).

Lemma two_holders_holds id ty x : holds two_holders id ty x ->
  (id = 7 /\ ty = F_RDLCK /\ 0 <= x <= 9) \/ (id = 8 /\ ty = F_WRLCK /\ 20 <= x <= OFF_MAX).
Proof.
  intros (f & Hf & <- & <- & Ho)%holds_elem. simpl in Hf. rewrite !elem_of_cons, elem_of_nil in Hf.
  destruct Hf as [->|[->|[]]]; [left|right]; done.
Qed.

Lemma two_holders_ok : lf_ok two_holders.
Proof.
  split.
  - intros id. simpl lf_list. destruct (decide (id = 7)) as [->|H7]; [compute_decide|].
    destruct (decide (id = 8)) as [->|H8]; [compute_decide|].
    rewrite !own_cons_ne by (simpl; congruence). done.
  - intros id ty x H%two_holders_holds. destruct H as [(_ & -> & _)|(_ & -> & _)]; auto.
  - intros id id' ty x Hne H1%two_holders_holds H2%two_holders_holds. unfold F_WRLCK, F_RDLCK in *. lia.
  - compute_decide.
Qed.

(** Process 8 asks for bytes 5 to 12. *)
Definition ask (ty flags : Z) : lockf := Lock 5 [] 5 12 8 flags ty 0.

Lemma ask_ok ty flags : request_ok two_holders (ask ty flags).
Proof. unfold request_ok. conj; [compute_decide|done|done|]. repeat (apply Forall_cons; split; [done|]). by apply Forall_nil. Qed.

Lemma ask_refused flags : refused two_holders (ask F_WRLCK flags).
Proof.
  exists 7, F_RDLCK, 5. conj; [done|by unfold on| |by left]. apply holds_elem.
  eexists. split; [by left|]. by vm_compute.
Qed.

Lemma ask_not_refused flags : ~ refused two_holders (ask F_RDLCK flags).
Proof.
  intros (id & ty & x & Hne & Ho & Hh%two_holders_holds & Hw). unfold on in Ho.
  unfold F_WRLCK, F_RDLCK in *. simpl in *. change (lf_hi _) with 12 in Ho. lia.
Qed.

Lemma lf_setlock_spec_witness :
  (exists st', lf_setlock (ask F_RDLCK F_POSIX) two_holders [] = Ret (0, st', []) /\ lf_ok st' /\
    sets (ask F_RDLCK F_POSIX) two_holders st' /\
    acct two_holders (ask F_RDLCK F_POSIX :: lf_list two_holders) st' (lf_list st')) /\
  lf_setlock (ask F_WRLCK F_POSIX) two_holders [] = Ret (LF_EAGAIN, lf_free (ask F_WRLCK F_POSIX) two_holders, []).
Proof.
  split.
  - apply (lf_setlock_spec (ask F_RDLCK F_POSIX) two_holders []);
      [apply two_holders_ok|apply ask_ok|by left|apply ask_not_refused].
  - apply (lf_setlock_spec (ask F_WRLCK F_POSIX) two_holders []);
      [apply two_holders_ok|apply ask_ok|by right|apply ask_refused|reflexivity].
Defined.

Lemma lf_clearlock_spec_witness :
  exists st', lf_clearlock (ask F_UNLCK F_POSIX) two_holders = Ret st' /\ lf_ok st' /\
    clears (ask F_UNLCK F_POSIX) two_holders st' /\ acct two_holders (lf_list two_holders) st' (lf_list st').
Proof. apply (lf_clearlock_spec (ask F_UNLCK F_POSIX) two_holders); [apply two_holders_ok|apply ask_ok]. Defined.

Lemma lf_getlock_spec_witness :
  exists fl', lf_getlock (fun id => id) (ask F_WRLCK F_POSIX) (Flock 5 8 0 F_WRLCK SEEK_SET) two_holders = Ret fl' /\
    (refused two_holders (ask F_WRLCK F_POSIX) /\
     (exists b, b ∈ lf_list two_holders /\ conflicts (ask F_WRLCK F_POSIX) b /\ l_type fl' = lf_type b /\
       l_whence fl' = SEEK_SET /\ l_start fl' = lf_start b /\
       (forall x, on b x <-> l_start fl' <= x <= (if l_len fl' =? 0 then OFF_MAX else l_start fl' + l_len fl' - 1)) /\
       l_pid fl' = (if flag (lf_flags b) F_POSIX then lf_id b else -1)) \/
     ~ refused two_holders (ask F_WRLCK F_POSIX) /\ fl' = Flock 5 8 0 F_UNLCK SEEK_SET).
Proof.
  apply (lf_getlock_spec (fun id => id) (ask F_WRLCK F_POSIX) (Flock 5 8 0 F_WRLCK SEEK_SET) two_holders);
    [apply two_holders_ok|apply ask_ok].
Defined.

(** A sleep in which nothing happens, ended by a signal. *)
Definition interrupted : event := Event 4 (fun st => st).

Lemma lf_setlock_waits_witness :
  lock_answer (ask F_WRLCK (Z.lor F_POSIX F_WAIT)) (lf_setlock (ask F_WRLCK (Z.lor F_POSIX F_WAIT)) two_holders [interrupted]).
Proof.
  apply (lf_setlock_waits (ask F_WRLCK (Z.lor F_POSIX F_WAIT)) two_holders [interrupted]);
    [apply two_holders_ok|apply ask_ok|by right|].
  apply Forall_cons. split; [by intros st|by apply Forall_nil].
Defined.

(** Process 7, whose lock is in the way, waits for process 8 itself. *)
Definition crossed : state :=
  State (lf_list two_holders) (fun _ => 3) [] 9 (fun w => if w =? 7 then Some (F_POSIX, 8) else None).

Lemma lf_setlock_deadlock_witness :
  lf_setlock (ask F_WRLCK (Z.lor F_POSIX F_WAIT)) crossed [] =
    Ret (EDEADLK, lf_free (ask F_WRLCK (Z.lor F_POSIX F_WAIT)) crossed, []).
Proof.
  apply (lf_setlock_deadlock (ask F_WRLCK (Z.lor F_POSIX F_WAIT)) (Lock 1 [] 0 9 7 F_POSIX F_RDLCK 0) crossed);
    [reflexivity..|].
  exists 1%nat. split; [apply Nat.leb_le; reflexivity|]. by apply (leads_here _ _ _ F_POSIX).
Defined.

(** A call that sets a lock. *)
Definition locked_by (id start len ty : Z) (st : state) : state :=
  match lf_advlock (fun id => id) 0 0 id F_SETLK (Flock start len 0 ty SEEK_SET) F_POSIX st [] with
  | Ret (_, _, st', _) => st'
  | _ => st
  end.

Lemma locked_by_reachable id start len ty st : reachable st -> is_s 64 start ->
  (forall lo hi, flock_range 0 (Flock start len 0 ty SEEK_SET) = Some (lo, hi) -> hi < OFF_MAX) ->
  ty = F_RDLCK \/ ty = F_WRLCK -> reachable (locked_by id start len ty st).
Proof.
  intros Hr Hs Hmax Hty. assert (flag F_POSIX F_WAIT = false) as Hw by reflexivity. assert (is_s 64 0) as Hz by done.
  destruct (advlock_ok (fun id => id) 0 0 id F_SETLK (Flock start len 0 ty SEEK_SET) F_POSIX st (reachable_ok st Hr) Hw Hs Hz Hmax) as (e & fl' & st' & E & _).
  { by intros _. }
  unfold locked_by. rewrite E. eapply r_call; [exact Hr|]. by apply (a_call st (fun id => id) 0 0 id F_SETLK (Flock start len 0 ty SEEK_SET) F_POSIX e fl' st' []).
Qed.

(** Two readers of bytes 5 to 9, and a writer behind them. *)
Definition three_locks : state :=
  locked_by 8 20 10 F_WRLCK (locked_by 8 5 10 F_RDLCK (locked_by 7 0 10 F_RDLCK (State [] (fun _ => 0) [] 1 (fun _ => None)))).

Lemma three_locks_reachable : reachable three_locks.
Proof.
  unfold three_locks. apply locked_by_reachable; [|done|by intros lo hi [= <- <-]|by right].
  apply locked_by_reachable; [|done|by intros lo hi [= <- <-]|by left].
  apply locked_by_reachable; [apply r_init|done|by intros lo hi [= <- <-]|by left].
Qed.

Lemma lf_advlock_exclusive_witness :
  let st := three_locks in
  map (fun l => (lf_id l, lf_start l, lf_end l, lf_type l)) (lf_list st) = [(7, 0, 9, F_RDLCK); (8, 5, 14, F_RDLCK); (8, 20, 29, F_WRLCK)] /\
  exclusive st /\ (forall id, ordered 0 (own id (lf_list st))) /\
  forall pid_of uid size id op fl flags,
    flag flags F_WAIT = false -> is_s 64 (l_start fl) -> is_s 64 size ->
    (forall start endd, flock_range size fl = Some (start, endd) -> endd < OFF_MAX) ->
    (op = F_SETLK -> l_type fl = F_RDLCK \/ l_type fl = F_WRLCK) ->
    exists e fl' st', lf_advlock pid_of uid size id op fl flags st [] = Ret (e, fl', st', []) /\ call st st'.
Proof. split; [by vm_compute|]. apply (lf_advlock_exclusive three_locks), three_locks_reachable. Defined.
