(* ===== verification/Sched.v ===== *)
(** Processes, run queues, sleep queues and signal delivery:
    [kern/kern_sched.c], [kern/sched_bsd.c], [kern/kern_synch.c] and the
    delivery half of [kern/kern_sig.c].  Every definition here runs with the
    scheduler lock held; what a process does between two of them is not
    restricted. *)

From stdpp Require Import gmap.
From S2P Require Import Prelude Libkern.

(** * Constants *)

Definition TABLESIZE : Z := 128.
Definition NQS : Z := 32.
Definition PPQ : Z := 128 / NQS.
Definition NICE_WEIGHT : Z := 2.
Definition PRIO_MAX : Z := 20.
Definition NZERO : Z := 20.
Definition PUSER : Z := 50.
Definition MAXPRI : Z := 127.
Notation PRIMASK := 255 (only parsing).
Notation PCATCH := 256 (only parsing).
Definition FSHIFT : Z := 11.
Definition FSCALE : Z := 2 ^ FSHIFT.
(** [0.95122942450071400909 * FSCALE], truncated. *)
Definition ccpu : Z := 1948.

Notation P_PPWAIT := 16 (only parsing).
Notation P_SINTR := 128 (only parsing).
Notation P_TIMEOUT := 1024 (only parsing).
Notation P_TRACED := 2048 (only parsing).
Notation P_WAITED := 4096 (only parsing).
Notation P_WEXIT := 8192 (only parsing).
Notation P_CONTINUED := 8388608 (only parsing).
Notation P_STOPPED := 536870912 (only parsing).

Notation SPCF_SEENRR := 1 (only parsing).
Notation SPCF_SHOULDYIELD := 2 (only parsing).
Notation SPCF_SWITCHCLEAR := (Z.lor SPCF_SEENRR SPCF_SHOULDYIELD) (only parsing).

(** * Data *)

Inductive pstat := SIDL | SRUN | SSLEEP | SSTOP | SZOMB | SDEAD | SONPROC.

#[export] Instance pstat_eq_dec : EqDecision pstat.
Proof. solve_decision. Defined.

(** [struct proc], the fields this component reads or writes.  Processes are
    named by their address; the link [p_runq] is where the address occurs in
    the queues below. *)
Record proc := mkproc {
  p_stat : pstat;
  p_wchan : Z;
  p_slptime : Z;
  p_swtime : Z;
  p_priority : Z;
  p_usrpri : Z;
  p_estcpu : Z;
  p_cpticks : Z;
  p_pctcpu : Z;
  p_nice : Z;
  p_flag : Z;
  p_cpu : option nat;
  p_siglist : Z;
  p_sigmask : Z;
  p_sigignore : Z;
  p_sigcatch : Z;
  p_xstat : Z;
  pg_jobc : Z;
  p_pptr : Z;
  md_astpending : bool }.

(** [struct cpu_info] and its [struct schedstate_percpu]. *)
Record cpu := mkcpu {
  ci_curproc : Z;
  ci_want_resched : bool;
  spc_idleproc : option Z;
  spc_curpriority : Z;
  spc_schedflags : Z;
  spc_rrticks : Z;
  spc_deadproc : list Z }.

Record sched := mksched {
  procs : gmap Z proc;
  allproc : list Z;
  slpque : list (list Z);
  sched_qs : list (list Z);
  sched_whichqs : Z;
  cpus : list cpu }.

(** ** Field updates *)

Definition with_stat v p := mkproc v (p_wchan p) (p_slptime p) (p_swtime p) (p_priority p)
  (p_usrpri p) (p_estcpu p) (p_cpticks p) (p_pctcpu p) (p_nice p) (p_flag p) (p_cpu p) (p_siglist p)
  (p_sigmask p) (p_sigignore p) (p_sigcatch p) (p_xstat p) (pg_jobc p) (p_pptr p) (md_astpending p).
Definition with_wchan v p := mkproc (p_stat p) v (p_slptime p) (p_swtime p) (p_priority p)
  (p_usrpri p) (p_estcpu p) (p_cpticks p) (p_pctcpu p) (p_nice p) (p_flag p) (p_cpu p) (p_siglist p)
  (p_sigmask p) (p_sigignore p) (p_sigcatch p) (p_xstat p) (pg_jobc p) (p_pptr p) (md_astpending p).
Definition with_slptime v p := mkproc (p_stat p) (p_wchan p) v (p_swtime p) (p_priority p)
  (p_usrpri p) (p_estcpu p) (p_cpticks p) (p_pctcpu p) (p_nice p) (p_flag p) (p_cpu p) (p_siglist p)
  (p_sigmask p) (p_sigignore p) (p_sigcatch p) (p_xstat p) (pg_jobc p) (p_pptr p) (md_astpending p).
Definition with_priority v p := mkproc (p_stat p) (p_wchan p) (p_slptime p) (p_swtime p) v
  (p_usrpri p) (p_estcpu p) (p_cpticks p) (p_pctcpu p) (p_nice p) (p_flag p) (p_cpu p) (p_siglist p)
  (p_sigmask p) (p_sigignore p) (p_sigcatch p) (p_xstat p) (pg_jobc p) (p_pptr p) (md_astpending p).
Definition with_usrpri v p := mkproc (p_stat p) (p_wchan p) (p_slptime p) (p_swtime p) (p_priority p)
  v (p_estcpu p) (p_cpticks p) (p_pctcpu p) (p_nice p) (p_flag p) (p_cpu p) (p_siglist p)
  (p_sigmask p) (p_sigignore p) (p_sigcatch p) (p_xstat p) (pg_jobc p) (p_pptr p) (md_astpending p).
Definition with_estcpu v p := mkproc (p_stat p) (p_wchan p) (p_slptime p) (p_swtime p) (p_priority p)
  (p_usrpri p) v (p_cpticks p) (p_pctcpu p) (p_nice p) (p_flag p) (p_cpu p) (p_siglist p)
  (p_sigmask p) (p_sigignore p) (p_sigcatch p) (p_xstat p) (pg_jobc p) (p_pptr p) (md_astpending p).
(** The three counters only [schedcpu] writes. *)
Definition with_usage sw cpt pct p := mkproc (p_stat p) (p_wchan p) (p_slptime p) sw (p_priority p)
  (p_usrpri p) (p_estcpu p) cpt pct (p_nice p) (p_flag p) (p_cpu p) (p_siglist p)
  (p_sigmask p) (p_sigignore p) (p_sigcatch p) (p_xstat p) (pg_jobc p) (p_pptr p) (md_astpending p).
Definition with_nice v p := mkproc (p_stat p) (p_wchan p) (p_slptime p) (p_swtime p) (p_priority p)
  (p_usrpri p) (p_estcpu p) (p_cpticks p) (p_pctcpu p) v (p_flag p) (p_cpu p) (p_siglist p)
  (p_sigmask p) (p_sigignore p) (p_sigcatch p) (p_xstat p) (pg_jobc p) (p_pptr p) (md_astpending p).
Definition with_flag v p := mkproc (p_stat p) (p_wchan p) (p_slptime p) (p_swtime p) (p_priority p)
  (p_usrpri p) (p_estcpu p) (p_cpticks p) (p_pctcpu p) (p_nice p) v (p_cpu p) (p_siglist p)
  (p_sigmask p) (p_sigignore p) (p_sigcatch p) (p_xstat p) (pg_jobc p) (p_pptr p) (md_astpending p).
Definition with_cpu v p := mkproc (p_stat p) (p_wchan p) (p_slptime p) (p_swtime p) (p_priority p)
  (p_usrpri p) (p_estcpu p) (p_cpticks p) (p_pctcpu p) (p_nice p) (p_flag p) v (p_siglist p)
  (p_sigmask p) (p_sigignore p) (p_sigcatch p) (p_xstat p) (pg_jobc p) (p_pptr p) (md_astpending p).
Definition with_siglist v p := mkproc (p_stat p) (p_wchan p) (p_slptime p) (p_swtime p) (p_priority p)
  (p_usrpri p) (p_estcpu p) (p_cpticks p) (p_pctcpu p) (p_nice p) (p_flag p) (p_cpu p) v
  (p_sigmask p) (p_sigignore p) (p_sigcatch p) (p_xstat p) (pg_jobc p) (p_pptr p) (md_astpending p).
Definition with_xstat v p := mkproc (p_stat p) (p_wchan p) (p_slptime p) (p_swtime p) (p_priority p)
  (p_usrpri p) (p_estcpu p) (p_cpticks p) (p_pctcpu p) (p_nice p) (p_flag p) (p_cpu p) (p_siglist p)
  (p_sigmask p) (p_sigignore p) (p_sigcatch p) v (pg_jobc p) (p_pptr p) (md_astpending p).
Definition with_ast v p := mkproc (p_stat p) (p_wchan p) (p_slptime p) (p_swtime p) (p_priority p)
  (p_usrpri p) (p_estcpu p) (p_cpticks p) (p_pctcpu p) (p_nice p) (p_flag p) (p_cpu p) (p_siglist p)
  (p_sigmask p) (p_sigignore p) (p_sigcatch p) (p_xstat p) (pg_jobc p) (p_pptr p) v.

Definition with_procs v s := mksched v (allproc s) (slpque s) (sched_qs s) (sched_whichqs s) (cpus s).
Definition with_slpque v s := mksched (procs s) (allproc s) v (sched_qs s) (sched_whichqs s) (cpus s).
Definition with_runqs qs w s := mksched (procs s) (allproc s) (slpque s) qs w (cpus s).
Definition with_cpus v s := mksched (procs s) (allproc s) (slpque s) (sched_qs s) (sched_whichqs s) v.

Definition set_want_resched v ci := mkcpu (ci_curproc ci) v (spc_idleproc ci) (spc_curpriority ci)
  (spc_schedflags ci) (spc_rrticks ci) (spc_deadproc ci).
Definition set_curproc v ci := mkcpu v (ci_want_resched ci) (spc_idleproc ci) (spc_curpriority ci)
  (spc_schedflags ci) (spc_rrticks ci) (spc_deadproc ci).
Definition set_curpriority v ci := mkcpu (ci_curproc ci) (ci_want_resched ci) (spc_idleproc ci) v
  (spc_schedflags ci) (spc_rrticks ci) (spc_deadproc ci).
Definition set_schedflags v ci := mkcpu (ci_curproc ci) (ci_want_resched ci) (spc_idleproc ci)
  (spc_curpriority ci) v (spc_rrticks ci) (spc_deadproc ci).
Definition set_rrticks v ci := mkcpu (ci_curproc ci) (ci_want_resched ci) (spc_idleproc ci)
  (spc_curpriority ci) (spc_schedflags ci) v (spc_deadproc ci).
Definition set_deadproc v ci := mkcpu (ci_curproc ci) (ci_want_resched ci) (spc_idleproc ci)
  (spc_curpriority ci) (spc_schedflags ci) (spc_rrticks ci) v.

(** ** Access *)

Definition proc_at (s : sched) (p : Z) : outcome proc :=
  match procs s !! p with Some pr => Ret pr | None => Fault NullDeref end.

Definition modify (p : Z) (f : proc -> proc) (s : sched) : outcome sched :=
  let! pr := proc_at s p in Ret (with_procs (<[p := f pr]> (procs s)) s).

Definition cpu_at (s : sched) (c : nat) : outcome cpu :=
  match cpus s !! c with Some ci => Ret ci | None => Fault OutOfBounds end.

Definition modify_cpu (c : nat) (f : cpu -> cpu) (s : sched) : outcome sched :=
  let! ci := cpu_at s c in Ret (with_cpus (<[c := f ci]> (cpus s)) s).

Definition setbits (v mask : Z) : Z := Z.lor v mask.
Definition clearbits (v mask : Z) : Z := Z.ldiff v mask.

(** The link of a process is in use while it is on a queue. *)
Definition linked (s : sched) (p : Z) : bool :=
  existsb (fun q => bool_decide (p ∈ q)) (slpque s)
  || existsb (fun q => bool_decide (p ∈ q)) (sched_qs s).

(** [TAILQ_INSERT_TAIL] overwrites the link, [TAILQ_REMOVE] follows it: on an
    element that is linked, respectively not on this queue, they corrupt
    memory.  An element has one link and so occurs once. *)
Definition tailq_insert_tail (s : sched) (q : list Z) (p : Z) : outcome (list Z) :=
  if linked s p then Fault BadLink else Ret (q ++ [p]).

Definition tailq_remove (q : list Z) (p : Z) : outcome (list Z) :=
  if bool_decide (p ∈ q) then Ret (filter (fun x => x <> p) q) else Fault BadLink.

(** * Run queues ([kern/kern_sched.c]) *)

Definition sched_init_runqueues (s : sched) : sched :=
  with_runqs (replicate (Z.to_nat NQS) []) (sched_whichqs s) s.

Definition setrunqueue (p : Z) (s : sched) : outcome sched :=
  let! pr := proc_at s p in
  let queue := Z.shiftr (p_priority pr) 2 in
  let! q := aget (sched_qs s) queue in
  let! q' := tailq_insert_tail s q p in
  let! qs := aset (sched_qs s) queue q' in
  Ret (with_runqs qs (Z.lor (sched_whichqs s) (u32 (Z.shiftl 1 queue))) s).

(** [sched_whichqs &= ~(1 << queue)] when the queue is empty. *)
Definition mark_empty (queue : Z) (q : list Z) (whichqs : Z) : Z :=
  match q with
  | [] => Z.ldiff whichqs (u32 (Z.shiftl 1 queue))
  | _ => whichqs
  end.

Definition remrunqueue (p : Z) (s : sched) : outcome sched :=
  let! pr := proc_at s p in
  let queue := Z.shiftr (p_priority pr) 2 in
  let! q := aget (sched_qs s) queue in
  let! q' := tailq_remove q p in
  let! qs := aset (sched_qs s) queue q' in
  Ret (with_runqs qs (mark_empty queue q' (sched_whichqs s)) s).

(** [p = TAILQ_FIRST(q); TAILQ_REMOVE(q, p)]: on an empty queue [p] is [NULL]. *)
Definition sched_chooseproc (c : nat) (s : sched) : outcome (Z * sched) :=
  if sched_whichqs s =? 0 then
    let! ci := cpu_at s c in
    match spc_idleproc ci with
    | None => Spin
    | Some p => let! s := modify p (with_stat SRUN) s in Ret (p, s)
    end
  else
    let queue := ffs (sched_whichqs s) - 1 in
    let! q := aget (sched_qs s) queue in
    match q with
    | [] => Fault NullDeref
    | p :: _ =>
        let! q' := tailq_remove q p in
        let! qs := aset (sched_qs s) queue q' in
        Ret (p, with_runqs qs (mark_empty queue q' (sched_whichqs s)) s)
    end.

(** * Switching and priorities ([kern/sched_bsd.c]) *)

(** The contract of [cpu_switchto]: the new process is current, knows its CPU
    and is [SONPROC]. *)
Definition cpu_switchto (c : nat) (newp : Z) (s : sched) : outcome sched :=
  let! s := modify_cpu c (set_curproc newp) s in
  modify newp (fun pr => with_cpu (Some c) (with_stat SONPROC pr)) s.

(** [mi_switch] without the CPU time accounting: the flags of the CPU, the
    choice of the next process and the switch. *)
Definition mi_switch (c : nat) (s : sched) : outcome sched :=
  let! ci := cpu_at s c in
  let p := ci_curproc ci in
  let! pr := proc_at s p in
  if bool_decide (p_stat pr = SONPROC) then Panic "mi_switch"
  else
    let! s := modify_cpu c (fun ci => set_schedflags (clearbits (spc_schedflags ci) SPCF_SWITCHCLEAR) ci) s in
    let! (nextproc, s) := sched_chooseproc c s in
    let! s := (if bool_decide (p <> nextproc) then cpu_switchto c nextproc s
               else modify p (with_stat SONPROC) s) in
    modify_cpu c (set_want_resched false) s.

Definition need_resched (c : nat) (s : sched) : outcome sched :=
  let! s := modify_cpu c (set_want_resched true) s in
  let! ci := cpu_at s c in
  modify (ci_curproc ci) (with_ast true) s.

(** [curc] is the CPU the code runs on. *)
Definition resched_proc (curc : nat) (p pri : Z) (s : sched) : outcome sched :=
  let! pr := proc_at s p in
  let c := default curc (p_cpu pr) in
  let! ci := cpu_at s c in
  if pri <? spc_curpriority ci then need_resched c s else Ret s.

Definition resetpriority (curc : nat) (p : Z) (s : sched) : outcome sched :=
  let! pr := proc_at s p in
  let newpriority := u32 (PUSER + p_estcpu pr + NICE_WEIGHT * (p_nice pr - NZERO)) in
  let newpriority := Z.min newpriority MAXPRI in
  let! s := modify p (with_usrpri (u8 newpriority)) s in
  resched_proc curc p (u8 newpriority) s.

Definition loadfactor (loadav : Z) : Z := u32 (2 * loadav).

Definition decay_cpu (loadfac cpu : Z) : outcome Z :=
  if u32 (loadfac + FSCALE) =? 0 then Fault DivByZero
  else Ret (u32 (loadfac * cpu) / u32 (loadfac + FSCALE)).

(** [while (newcpu && --p->p_slptime) newcpu = decay_cpu(loadfac, newcpu)]. *)
Fixpoint decay_loop (fuel : nat) (loadfac newcpu slptime : Z) : outcome (Z * Z) :=
  match fuel with
  | O => Spin
  | S fuel =>
      if newcpu =? 0 then Ret (newcpu, slptime)
      else
        let slptime := u32 (slptime - 1) in
        if slptime =? 0 then Ret (newcpu, slptime)
        else let! newcpu := decay_cpu loadfac newcpu in decay_loop fuel loadfac newcpu slptime
  end.

(** [ldavg] is [averunnable.ldavg[0]]. *)
Definition updatepri (ldavg : Z) (curc : nat) (p : Z) (s : sched) : outcome sched :=
  let! pr := proc_at s p in
  let newcpu := p_estcpu pr in
  let loadfac := loadfactor ldavg in
  let! s :=
    (if u32 (5 * loadfac) <? p_slptime pr then modify p (with_estcpu 0) s
     else
       let slptime := u32 (p_slptime pr - 1) in
       let! (newcpu, slptime) := decay_loop (S (Z.to_nat slptime)) loadfac newcpu slptime in
       modify p (fun pr => with_estcpu newcpu (with_slptime slptime pr)) s) in
  resetpriority curc p s.

Definition ESTCPULIM (e : Z) : Z := Z.min e (NICE_WEIGHT * PRIO_MAX - PPQ).

Definition schedclock (curc : nat) (p : Z) (s : sched) : outcome sched :=
  let! s := modify p (fun pr => with_estcpu (ESTCPULIM (u32 (p_estcpu pr + 1))) pr) s in
  let! s := resetpriority curc p s in
  modify p (fun pr => if PUSER <=? p_priority pr then with_priority (p_usrpri pr) pr else pr) s.

(** [yield] and [preempt(NULL)] differ in a statistics counter only. *)
Definition yield (c : nat) (s : sched) : outcome sched :=
  let! ci := cpu_at s c in
  let p := ci_curproc ci in
  let! s := modify p (fun pr => with_stat SRUN (with_priority (p_usrpri pr) pr)) s in
  let! s := setrunqueue p s in
  mi_switch c s.

Definition roundrobin (rrticks_init : Z) (c : nat) (s : sched) : outcome sched :=
  let! s := modify_cpu c (fun ci =>
    let ci := set_rrticks rrticks_init ci in
    if flag (spc_schedflags ci) SPCF_SEENRR
    then set_schedflags (setbits (spc_schedflags ci) SPCF_SHOULDYIELD) ci
    else set_schedflags (setbits (spc_schedflags ci) SPCF_SEENRR) ci) s in
  need_resched c s.

(** * Sleep queues ([kern/kern_synch.c]) *)

Definition LOOKUP (x : Z) : Z := Z.land (Z.shiftr x 8) (TABLESIZE - 1).

Definition sleep_queue_init (s : sched) : sched :=
  with_slpque (replicate (Z.to_nat TABLESIZE) []) s.

Definition unsleep (p : Z) (s : sched) : outcome sched :=
  let! pr := proc_at s p in
  if p_wchan pr =? 0 then Ret s
  else
    let! q := aget (slpque s) (LOOKUP (p_wchan pr)) in
    let! q' := tailq_remove q p in
    let! qs := aset (slpque s) (LOOKUP (p_wchan pr)) q' in
    modify p (with_wchan 0) (with_slpque qs s).

Definition sigmask (m : Z) : Z := Z.shiftl 1 (m - 1).

Definition setrunnable (ldavg : Z) (curc : nat) (p : Z) (s : sched) : outcome sched :=
  let! pr := proc_at s p in
  let! s :=
    match p_stat pr with
    | SRUN | SONPROC | SZOMB | SDEAD => Panic "setrunnable"
    | SSTOP =>
        let! s := (if flag (p_flag pr) P_TRACED && negb (p_xstat pr =? 0)
                   then modify p (fun pr => with_siglist (setbits (p_siglist pr) (sigmask (p_xstat pr))) pr) s
                   else Ret s) in
        unsleep p s
    | SSLEEP => unsleep p s
    | SIDL => Ret s
    end in
  let! s := modify p (with_stat SRUN) s in
  let! s := setrunqueue p s in
  let! pr := proc_at s p in
  let! s := (if 1 <? p_slptime pr then updatepri ldavg curc p s else Ret s) in
  let! s := modify p (with_slptime 0) s in
  let! pr := proc_at s p in
  resched_proc curc p (p_priority pr) s.

Record sleep_state := mksls { sls_catch : bool; sls_do_sleep : bool; sls_sig : Z }.

(** The process is the current one of CPU [c], here and below. *)
Definition sleep_setup (c : nat) (ident prio : Z) (s : sched) : outcome (sleep_state * sched) :=
  let! ci := cpu_at s c in
  let p := ci_curproc ci in
  let! pr := proc_at s p in
  if ident =? 0 then Panic "tsleep: no ident"
  else if negb (bool_decide (p_stat pr = SONPROC)) then Panic "tsleep: not SONPROC"
  else
    let! s := modify p (fun pr =>
      with_priority (Z.land prio PRIMASK) (with_slptime 0 (with_wchan ident pr))) s in
    let! q := aget (slpque s) (LOOKUP ident) in
    let! q' := tailq_insert_tail s q p in
    let! qs := aset (slpque s) (LOOKUP ident) q' in
    Ret (mksls false true 1, with_slpque qs s).

(** [sig] is the answer of [CURSIG] when it returns without stopping the
    process; [sleep_setup_stop] below is the other case. *)
Definition sleep_setup_signal (c : nat) (sls : sleep_state) (prio sig : Z) (s : sched)
  : outcome (sleep_state * sched) :=
  if negb (flag prio PCATCH) then Ret (mksls false (sls_do_sleep sls) (sls_sig sls), s)
  else
    let! ci := cpu_at s c in
    let p := ci_curproc ci in
    let! s := modify p (fun pr => with_flag (setbits (p_flag pr) P_SINTR) pr) s in
    if negb (sig =? 0) then
      let! pr := proc_at s p in
      let! s := (if negb (p_wchan pr =? 0) then unsleep p s else Ret s) in
      let! s := modify p (with_stat SONPROC) s in
      Ret (mksls true false sig, s)
    else
      let! pr := proc_at s p in
      if p_wchan pr =? 0 then Ret (mksls false false sig, s)
      else Ret (mksls true (sls_do_sleep sls) sig, s).

(** [sleep_finish] up to the point where the process is off the CPU, or, when
    it does not sleep, off the sleep queue. *)
Definition sleep_finish (c : nat) (sls : sleep_state) (do_sleep : bool) (s : sched) : outcome sched :=
  let! ci := cpu_at s c in
  let p := ci_curproc ci in
  if sls_do_sleep sls && do_sleep then
    let! s := modify p (with_stat SSLEEP) s in
    mi_switch c s
  else if negb do_sleep then unsleep p s
  else Ret s.

(** The rest of [sleep_finish], once the process runs again. *)
Definition sleep_resume (c : nat) (s : sched) : outcome sched :=
  let! ci := cpu_at s c in
  let p := ci_curproc ci in
  let! pr := proc_at s p in
  if negb (bool_decide (p_stat pr = SONPROC)) then Panic "sleep_finish !SONPROC"
  else
    let! pr := proc_at s p in
    match p_cpu pr with
    | None => Fault NullDeref
    | Some c' =>
        let! s := modify_cpu c' (set_curpriority (p_usrpri pr)) s in
        modify p (fun pr => with_flag (clearbits (p_flag pr) P_SINTR) pr) s
    end.

(** [tsleep] up to the switch, and the same sequence with [do_sleep = 0], which
    is how [rw_enter] backs out of a sleep. *)
Definition tsleep (c : nat) (ident prio sig : Z) (do_sleep : bool) (s : sched) : outcome sched :=
  let! (sls, s) := sleep_setup c ident prio s in
  let! (sls, s) := sleep_setup_signal c sls prio sig s in
  sleep_finish c sls do_sleep s.

Definition endtsleep (ldavg : Z) (curc : nat) (p : Z) (s : sched) : outcome sched :=
  let! pr := proc_at s p in
  if p_wchan pr =? 0 then Ret s
  else
    let! s := (if bool_decide (p_stat pr = SSLEEP) then setrunnable ldavg curc p s
               else unsleep p s) in
    modify p (fun pr => with_flag (setbits (p_flag pr) P_TIMEOUT) pr) s.

(** One process of the queue [wakeup_n] walks. *)
Definition wakeup_one (ldavg : Z) (curc : nat) (ident p : Z) (s : sched) : outcome sched :=
  let! s := modify p (with_wchan 0) s in
  let! q := aget (slpque s) (LOOKUP ident) in
  let! q' := tailq_remove q p in
  let! qs := aset (slpque s) (LOOKUP ident) q' in
  let s := with_slpque qs s in
  let! pr := proc_at s p in
  if bool_decide (p_stat pr = SSLEEP) then
    let! s := (if 1 <? p_slptime pr then updatepri ldavg curc p s else Ret s) in
    let! s := modify p (fun pr => with_stat SRUN (with_slptime 0 pr)) s in
    let! s := setrunqueue p s in
    let! pr := proc_at s p in
    match p_cpu pr with
    | None => Panic "p->p_cpu != NULL"
    | Some c => need_resched c s
    end
  else Ret s.

(** The walk reads the successor before it unlinks the process, and unlinks
    only that one: the processes still to visit are the rest of the queue. *)
Fixpoint wakeup_loop (ldavg : Z) (curc : nat) (ident : Z) (rest : list Z) (n : Z) (s : sched)
  : outcome sched :=
  match rest with
  | [] => Ret s
  | p :: rest =>
      if n =? 0 then Ret s
      else
        let! pr := proc_at s p in
        if negb (bool_decide (p_stat pr = SSLEEP)) && negb (bool_decide (p_stat pr = SSTOP))
        then Panic "wakeup: p_stat"
        else if p_wchan pr =? ident then
          let! s := wakeup_one ldavg curc ident p s in
          wakeup_loop ldavg curc ident rest (s32 (n - 1)) s
        else wakeup_loop ldavg curc ident rest n s
  end.

Definition wakeup_n (ldavg : Z) (curc : nat) (ident n : Z) (s : sched) : outcome sched :=
  let! q := aget (slpque s) (LOOKUP ident) in
  wakeup_loop ldavg curc ident q n s.

Definition wakeup (ldavg : Z) (curc : nat) (chan : Z) (s : sched) : outcome sched :=
  wakeup_n ldavg curc chan (-1) s.

(** ** The once-a-second scan of [kern/sched_bsd.c] *)

Definition schedcpu_one (ldavg phz : Z) (curc : nat) (p : Z) (s : sched) : outcome sched :=
  let! s := modify p (fun pr =>
    with_usage (u32 (p_swtime pr + 1)) (p_cpticks pr)
      (Z.shiftr (u32 (p_pctcpu pr * ccpu)) FSHIFT)
      (if bool_decide (p_stat pr = SSLEEP) || bool_decide (p_stat pr = SSTOP)
       then with_slptime (u32 (p_slptime pr + 1)) pr else pr)) s in
  let! pr := proc_at s p in
  if 1 <? p_slptime pr then Ret s
  else
    let ticks := u32 (p_cpticks pr) in
    let pct := if phz =? 100 then ticks else u32 (100 * ticks) / phz in
    let! newcpu := decay_cpu (loadfactor ldavg) (p_estcpu pr) in
    let! s := modify p (fun pr =>
      with_estcpu newcpu (with_usage (p_swtime pr) 0 (u32 (p_pctcpu pr + pct)) pr)) s in
    let! s := resetpriority curc p s in
    let! pr := proc_at s p in
    let! ci := cpu_at s curc in
    if PUSER <=? p_priority pr then
      if bool_decide (p <> ci_curproc ci) && bool_decide (p_stat pr = SRUN)
         && negb (p_priority pr / PPQ =? p_usrpri pr / PPQ)
      then
        let! s := remrunqueue p s in
        let! s := modify p (fun pr => with_priority (p_usrpri pr) pr) s in
        setrunqueue p s
      else modify p (fun pr => with_priority (p_usrpri pr) pr) s
    else Ret s.

Fixpoint schedcpu_loop (ldavg phz : Z) (curc : nat) (ps : list Z) (s : sched) : outcome sched :=
  match ps with
  | [] => Ret s
  | p :: ps => let! s := schedcpu_one ldavg phz curc p s in schedcpu_loop ldavg phz curc ps s
  end.

(** [lbolt] is the address the scan wakes.  [uvm_meter] and the rescheduling of
    the timeout belong to other components. *)
Definition schedcpu (ldavg phz lbolt : Z) (curc : nat) (s : sched) : outcome sched :=
  if phz =? 0 then Panic "phz"
  else
    let! s := schedcpu_loop ldavg phz curc (allproc s) s in
    wakeup ldavg curc lbolt s.

(** * Signals ([kern/kern_sig.c]) *)

Definition NSIG : Z := 32.
Definition SIGKILL : Z := 9.
Definition SIGSTOP : Z := 17.
Definition SIGTSTP : Z := 18.
Definition SIGCONT : Z := 19.
Definition SIGTTIN : Z := 21.
Definition SIGTTOU : Z := 22.

Definition SA_KILL : Z := 1.
Definition SA_CORE : Z := 2.
Definition SA_STOP : Z := 4.
Definition SA_TTYSTOP : Z := 8.
Definition SA_IGNORE : Z := 16.
Definition SA_CONT : Z := 32.

Definition sigprop : list Z :=
  let core := Z.lor SA_KILL SA_CORE in
  let ttystop := Z.lor SA_STOP SA_TTYSTOP in
  [0; SA_KILL; SA_KILL; core; core; core; core; core;
   core; SA_KILL; core; core; core; SA_KILL; SA_KILL; SA_KILL;
   SA_IGNORE; SA_STOP; ttystop; Z.lor SA_IGNORE SA_CONT; SA_IGNORE; ttystop; ttystop; SA_IGNORE;
   SA_KILL; SA_KILL; SA_KILL; SA_KILL; SA_IGNORE; SA_IGNORE; SA_KILL; SA_KILL].

Definition contsigmask : Z := sigmask SIGCONT.
Definition stopsigmask : Z :=
  Z.lor (Z.lor (Z.lor (sigmask SIGSTOP) (sigmask SIGTSTP)) (sigmask SIGTTIN)) (sigmask SIGTTOU).

Inductive sigact := SIG_DFL | SIG_CATCH | SIG_HOLD.

#[export] Instance sigact_eq_dec : EqDecision sigact.
Proof. solve_decision. Defined.

(** [proc_stop], without the timeout that tells the parent.  [sw] is the CPU
    to switch, when the process stops itself. *)
Definition proc_stop (sw : option nat) (p : Z) (s : sched) : outcome sched :=
  let! s := modify p (fun pr =>
    with_flag (setbits (clearbits (p_flag pr) P_WAITED) P_STOPPED) (with_stat SSTOP pr)) s in
  match sw with None => Ret s | Some c => mi_switch c s end.

Definition clearsig (mask p : Z) (s : sched) : outcome sched :=
  modify p (fun pr => with_siglist (clearbits (p_siglist pr) mask) pr) s.

(** Where the [switch] on the state of the process leaves [psignal]; [Out]
    carries [wakeparent], as do the others. *)
Inductive exit_path := ToOut (wakeparent : bool) | ToRun (wakeparent : bool) | ToRunfast (wakeparent : bool).

Definition psignal_sleep (p signum prop : Z) (action : sigact) (pr : proc) (s : sched)
  : outcome (exit_path * sched) :=
  let mask := sigmask signum in
  if negb (flag (p_flag pr) P_SINTR) then Ret (ToOut false, s)
  else if flag (p_flag pr) P_TRACED then Ret (ToRun false, s)
  else if flag prop SA_CONT && bool_decide (action = SIG_DFL) then
    let! s := clearsig mask p s in Ret (ToOut false, s)
  else if flag prop SA_STOP && bool_decide (action = SIG_DFL) then
    if flag (p_flag pr) P_PPWAIT then Ret (ToOut false, s)
    else
      let! s := clearsig mask p s in
      let! s := modify p (with_xstat signum) s in
      let! s := proc_stop None p s in
      Ret (ToOut false, s)
  else Ret (ToRunfast false, s).

Definition psignal_stop (p signum prop : Z) (action : sigact) (pr : proc) (s : sched)
  : outcome (exit_path * sched) :=
  let mask := sigmask signum in
  if flag (p_flag pr) P_TRACED then Ret (ToOut false, s)
  else if signum =? SIGKILL then Ret (ToRunfast false, s)
  else if flag prop SA_CONT then
    let! s := modify p (fun pr => with_flag (setbits (p_flag pr) P_CONTINUED) pr) s in
    let! s := (if bool_decide (action = SIG_DFL) then clearsig mask p s else Ret s) in
    if bool_decide (action = SIG_CATCH) then Ret (ToRunfast true, s)
    else if p_wchan pr =? 0 then Ret (ToRun true, s)
    else let! s := modify p (with_stat SSLEEP) s in Ret (ToOut true, s)
  else if flag prop SA_STOP then
    let! s := clearsig mask p s in Ret (ToOut false, s)
  else
    let! s := (if negb (p_wchan pr =? 0) && flag (p_flag pr) P_SINTR then unsleep p s else Ret s) in
    Ret (ToOut false, s).

(** The part of [psignal] under the scheduler lock, and the wakeup of the
    parent after it. *)
Definition psignal_deliver (ldavg : Z) (curc : nat) (p signum prop : Z) (action : sigact) (s : sched)
  : outcome sched :=
  let! pr := proc_at s p in
  let! (path, s) :=
    match p_stat pr with
    | SSLEEP => psignal_sleep p signum prop action pr s
    | SSTOP => psignal_stop p signum prop action pr s
    | SONPROC => let! s := modify p (with_ast true) s in Ret (ToOut false, s)
    | _ => Ret (ToOut false, s)
    end in
  let! (wakeparent, s) :=
    match path with
    | ToOut w => Ret (w, s)
    | ToRun w => let! s := setrunnable ldavg curc p s in Ret (w, s)
    | ToRunfast w =>
        let! s := modify p (fun pr => if PUSER <? p_priority pr then with_priority PUSER pr else pr) s in
        let! s := setrunnable ldavg curc p s in Ret (w, s)
    end in
  if wakeparent : bool then wakeup ldavg curc (p_pptr pr) s else Ret s.

(** [psignal] of a kernel without [RTHREADS]; the notification of event queues
    is left out. *)
Definition psignal (ldavg : Z) (curc : nat) (p signum : Z) (s : sched) : outcome sched :=
  if (NSIG <=? u32 signum) || (signum =? 0) then Panic "psignal signal number"
  else
    let! pr := proc_at s p in
    if flag (p_flag pr) P_WEXIT then Ret s
    else
      let mask := sigmask signum in
      let! prop := aget sigprop signum in
      let action :=
        if flag (p_flag pr) P_TRACED then SIG_DFL
        else if flag (p_sigmask pr) mask then SIG_HOLD
        else if flag (p_sigcatch pr) mask then SIG_CATCH
        else SIG_DFL in
      let untraced_dfl := negb (flag (p_flag pr) P_TRACED) && bool_decide (action = SIG_DFL) in
      if negb (flag (p_flag pr) P_TRACED) && flag (p_sigignore pr) mask then Ret s
      else
        let! s := (if untraced_dfl && flag prop SA_KILL && (NZERO <? p_nice pr)
                   then modify p (with_nice NZERO) s else Ret s) in
        if untraced_dfl && flag prop SA_TTYSTOP && (pg_jobc pr =? 0) then Ret s
        else
          let! s := (if flag prop SA_CONT then clearsig stopsigmask p s else Ret s) in
          let! s := (if flag prop SA_STOP then
                       let! s := clearsig contsigmask p s in
                       modify p (fun pr => with_flag (clearbits (p_flag pr) P_CONTINUED) pr) s
                     else Ret s) in
          let! s := modify p (fun pr => with_siglist (setbits (p_siglist pr) mask) pr) s in
          if bool_decide (action = SIG_HOLD)
             && (negb (flag prop SA_CONT) || negb (bool_decide (p_stat pr = SSTOP))) then Ret s
          else psignal_deliver ldavg curc p signum prop action s.

(** [sleep_setup] followed by [sleep_setup_signal] when [CURSIG] finds a stop
    signal: [issignal] stops the process where it is, on the sleep queue. *)
Definition sleep_setup_stop (c : nat) (ident prio : Z) (s : sched) : outcome sched :=
  let! (sls, s) := sleep_setup c ident prio s in
  let! ci := cpu_at s c in
  let p := ci_curproc ci in
  let! s := modify p (fun pr => with_flag (setbits (p_flag pr) P_SINTR) pr) s in
  proc_stop (Some c) p s.

(** * Creation, exit and idling *)

(** The end of [fork1]: the child is made runnable. *)
Definition fork_start (p2 : Z) (s : sched) : outcome sched :=
  let! s := modify p2 (with_stat SRUN) s in
  setrunqueue p2 s.

(** [sched_exit], without the time accounting. *)
Definition sched_exit (c : nat) (p : Z) (s : sched) : outcome sched :=
  let! s := modify_cpu c (fun ci => set_deadproc (p :: spc_deadproc ci) ci) s in
  let! ci := cpu_at s c in
  match spc_idleproc ci with
  | None => Fault NullDeref
  | Some idle =>
      let! s := modify idle (with_stat SRUN) s in
      cpu_switchto c idle s
  end.

(** How the idle process of CPU [c] gives the CPU up. *)
Definition sched_idle_switch (c : nat) (s : sched) : outcome sched :=
  let! ci := cpu_at s c in
  let! s := modify (ci_curproc ci) (with_stat SSLEEP) s in
  mi_switch c s.
