(* ===== verification/SchedQueue.v ===== *)
(** The queues of the scheduler: what it means that they hold exactly the
    processes they should, and what linking and unlinking do to that. *)

From stdpp Require Import gmap functions.
From S2P Require Import Prelude Libkern Sched.

(** * Queues that hold what they should *)

Lemma filter_keep (l : list Z) p : (forall x, x ∈ l -> x <> p) -> filter (fun x => x <> p) l = l.
Proof.
  induction l as [|y l IH]; intros H; [done|].
  rewrite filter_cons_True by (apply H; left). f_equal. apply IH. intros x Hx. apply H. by right.
Qed.

(** [pos p] is the index of the queue [p] is on. *)
Definition qrep (pos : Z -> option nat) (qs : list (list Z)) : Prop :=
  forall q l, qs !! q = Some l -> NoDup l /\ forall p, p ∈ l <-> pos p = Some q.

Record queues (rp sp : Z -> option nat) (s : sched) : Prop := {
  q_run : qrep rp (sched_qs s);
  q_slp : qrep sp (slpque s);
  q_nrun : length (sched_qs s) = 32%nat;
  q_nslp : length (slpque s) = 128%nat;
  q_word : is_u 32 (sched_whichqs s);
  q_bits : forall q l, sched_qs s !! q = Some l ->
    Z.testbit (sched_whichqs s) (Z.of_nat q) = bool_decide (l <> []) }.

Lemma qrep_ext pos pos' qs : (forall p, pos p = pos' p) -> qrep pos qs -> qrep pos' qs.
Proof.
  intros He H q l Hl. destruct (H q l Hl) as [Hn Hp]. split; [done|]. intros p. by rewrite <- He.
Qed.

Lemma queues_ext rp rp' sp sp' s :
  (forall p, rp p = rp' p) -> (forall p, sp p = sp' p) -> queues rp sp s -> queues rp' sp' s.
Proof. intros Hr Hs []. split; eauto using qrep_ext. Qed.

Lemma qrep_insert pos qs (q : nat) l p :
  qrep pos qs -> qs !! q = Some l -> pos p = None ->
  qrep (<[p := Some q]> pos) (<[q := l ++ [p]]> qs).
Proof.
  intros H Hl Hp q' l' Hl'. destruct (H q l Hl) as [Hn Hm].
  destruct (decide (q = q')) as [<-|Hq].
  - rewrite list_lookup_insert_eq in Hl' by (by eapply lookup_lt_Some). injection Hl' as <-. split.
    + apply NoDup_app. split; [done|]. split; [|apply NoDup_singleton].
      intros x Hx. rewrite list_elem_of_singleton. intros ->. apply Hm in Hx. congruence.
    + intros x. rewrite elem_of_app, list_elem_of_singleton, Hm.
      destruct (decide (x = p)) as [-> |]; [by rewrite fn_lookup_insert; tauto|].
      rewrite fn_lookup_insert_ne by done. naive_solver.
  - rewrite list_lookup_insert_ne in Hl' by done. destruct (H q' l' Hl') as [Hn' Hm']. split; [done|].
    intros x. rewrite Hm'. destruct (decide (x = p)) as [-> |].
    + rewrite fn_lookup_insert. naive_solver.
    + by rewrite fn_lookup_insert_ne.
Qed.

Lemma qrep_remove pos qs (q : nat) l p :
  qrep pos qs -> qs !! q = Some l -> pos p = Some q ->
  qrep (<[p := None]> pos) (<[q := filter (fun x => x <> p) l]> qs).
Proof.
  intros H Hl Hp q' l' Hl'. destruct (H q l Hl) as [Hn Hm].
  destruct (decide (q = q')) as [<-|Hq].
  - rewrite list_lookup_insert_eq in Hl' by (by eapply lookup_lt_Some). injection Hl' as <-. split.
    + by apply NoDup_filter.
    + intros x. rewrite list_elem_of_filter, Hm. destruct (decide (x = p)) as [-> |].
      * rewrite fn_lookup_insert. naive_solver.
      * rewrite fn_lookup_insert_ne by done. naive_solver.
  - rewrite list_lookup_insert_ne in Hl' by done. destruct (H q' l' Hl') as [Hn' Hm']. split; [done|].
    intros x. rewrite Hm'. destruct (decide (x = p)) as [-> |].
    + rewrite fn_lookup_insert. naive_solver.
    + by rewrite fn_lookup_insert_ne.
Qed.

Lemma qrep_free pos qs p : qrep pos qs -> pos p = None -> existsb (fun q => bool_decide (p ∈ q)) qs = false.
Proof.
  intros H Hp. apply not_true_iff_false. intros Hx. apply existsb_exists in Hx as (l & Hl & Hin).
  apply list_elem_of_In, list_elem_of_lookup in Hl as [q Hq]. apply bool_decide_eq_true in Hin.
  apply (H q l Hq) in Hin. congruence.
Qed.

Lemma queues_unlinked rp sp s p : queues rp sp s -> rp p = None -> sp p = None -> linked s p = false.
Proof.
  intros [] Hr Hs. unfold linked. by rewrite (qrep_free sp), (qrep_free rp).
Qed.

(** ** The word that says which run queues are occupied *)

Lemma queue_index prio : 0 <= prio <= MAXPRI -> 0 <= Z.shiftr prio 2 < 32.
Proof. unfold MAXPRI. rewrite Z.shiftr_div_pow2 by lia. change (2 ^ 2) with 4. intros. dlia. Qed.

Lemma queue_bit k : 0 <= k < 32 -> u32 (Z.shiftl 1 k) = 2 ^ k.
Proof.
  intros Hk. rewrite Z.shiftl_1_l. apply u32_small. split; [apply Z.pow_nonneg; lia|].
  apply Z.pow_lt_mono_r; lia.
Qed.

Lemma queue_bit_u k : 0 <= k < 32 -> is_u 32 (2 ^ k).
Proof. intros. rewrite <- queue_bit by done. apply u32_range. Qed.

Lemma queues_link rp sp s k l p :
  queues rp sp s -> 0 <= k < 32 -> sched_qs s !! Z.to_nat k = Some l -> rp p = None ->
  queues (<[p := Some (Z.to_nat k)]> rp) sp
    (with_runqs (<[Z.to_nat k := l ++ [p]]> (sched_qs s))
       (Z.lor (sched_whichqs s) (u32 (Z.shiftl 1 k))) s).
Proof.
  intros [Hr Hs Hn Hm Hw Hb] Hk Hl Hp. rewrite queue_bit by done. split; simpl; try done.
  - by apply qrep_insert.
  - by rewrite length_insert.
  - apply is_u_lor; [lia|done|by apply queue_bit_u].
  - intros q l' Hl'. rewrite Z.lor_spec. destruct (decide (q = Z.to_nat k)) as [-> |Hq].
    + rewrite list_lookup_insert_eq in Hl' by (by eapply lookup_lt_Some). injection Hl' as <-.
      rewrite Z2Nat.id, Z.pow2_bits_true, orb_true_r by lia. symmetry. apply bool_decide_eq_true.
      by destruct l.
    + rewrite list_lookup_insert_ne in Hl' by done. rewrite Z.pow2_bits_false by lia.
      by rewrite orb_false_r, (Hb q l').
Qed.

Lemma queues_unlink rp sp s k l p :
  queues rp sp s -> 0 <= k < 32 -> sched_qs s !! Z.to_nat k = Some l -> rp p = Some (Z.to_nat k) ->
  let l' := filter (fun x => x <> p) l in
  queues (<[p := None]> rp) sp
    (with_runqs (<[Z.to_nat k := l']> (sched_qs s)) (mark_empty k l' (sched_whichqs s)) s).
Proof.
  intros [Hr Hs Hn Hm Hw Hb] Hk Hl Hp l'. unfold mark_empty. rewrite queue_bit by done.
  split; simpl; try done.
  - by apply qrep_remove.
  - by rewrite length_insert.
  - destruct l'; [|done]. apply is_u_bits in Hw as [Hw0 Hw]; [|lia]. apply is_u_bits; [lia|].
    split; [apply Z.ldiff_nonneg; lia|]. intros j Hj. by rewrite Z.ldiff_spec, Hw.
  - intros q l0 Hl0. destruct (decide (q = Z.to_nat k)) as [-> |Hq].
    + rewrite list_lookup_insert_eq in Hl0 by (by eapply lookup_lt_Some). injection Hl0 as <-.
      destruct l' as [|y t] eqn:E; simpl.
      * by rewrite Z.ldiff_spec, Z2Nat.id, Z.pow2_bits_true, andb_false_r by lia.
      * rewrite (Hb _ l) by done. apply bool_decide_eq_true. intros ->. done.
    + rewrite list_lookup_insert_ne in Hl0 by done. rewrite <- (Hb q l0) by done.
      destruct l'; [|done]. by rewrite Z.ldiff_spec, Z.pow2_bits_false, andb_true_r by lia.
Qed.

(** ** Linking and unlinking *)

Section linking.
Context (rp sp : Z -> option nat) (s : sched).
Hypothesis HQ : queues rp sp s.

Lemma queues_lookup k : 0 <= k < 32 -> exists l, sched_qs s !! Z.to_nat k = Some l.
Proof. intros Hk. apply lookup_lt_is_Some. rewrite (q_nrun _ _ _ HQ). lia. Qed.

Lemma queues_slp_lookup x : exists l,
  slpque s !! Z.to_nat (LOOKUP x) = Some l /\ 0 <= LOOKUP x < 128.
Proof.
  assert (0 <= LOOKUP x < 128) as Hx.
  { unfold LOOKUP, TABLESIZE. change (128 - 1) with (2 ^ 7 - 1). rewrite land_ones_eq by lia.
    apply Z.mod_pos_bound. lia. }
  destruct (lookup_lt_is_Some_2 (slpque s) (Z.to_nat (LOOKUP x))) as [l Hl]; [|by eauto].
  rewrite (q_nslp _ _ _ HQ). lia.
Qed.

Lemma setrunqueue_queues p pr :
  procs s !! p = Some pr -> 0 <= p_priority pr <= MAXPRI -> rp p = None -> sp p = None ->
  exists l w, let q := Z.to_nat (Z.shiftr (p_priority pr) 2) in
    sched_qs s !! q = Some l /\
    setrunqueue p s = Ret (with_runqs (<[q := l ++ [p]]> (sched_qs s)) w s) /\
    queues (<[p := Some q]> rp) sp (with_runqs (<[q := l ++ [p]]> (sched_qs s)) w s).
Proof.
  intros Hp Hb Hr Hs. pose proof (queue_index _ Hb) as Hk.
  destruct (queues_lookup _ Hk) as [l Hl]. exists l, (Z.lor (sched_whichqs s) (u32 (Z.shiftl 1 (Z.shiftr (p_priority pr) 2)))).
  split; [done|]. split; [|by apply queues_link].
  unfold setrunqueue, proc_at. rewrite Hp. cbn [bind]. rewrite (aget_Some _ _ l) by (done || lia). cbn [bind].
  unfold tailq_insert_tail. rewrite (queues_unlinked rp sp) by done. cbn [bind].
  rewrite aset_bounds by (rewrite (q_nrun _ _ _ HQ); lia). done.
Qed.

Lemma remrunqueue_queues p pr :
  procs s !! p = Some pr -> 0 <= p_priority pr <= MAXPRI ->
  let q := Z.to_nat (Z.shiftr (p_priority pr) 2) in
  rp p = Some q ->
  exists l w, sched_qs s !! q = Some l /\
    remrunqueue p s = Ret (with_runqs (<[q := filter (fun x => x <> p) l]> (sched_qs s)) w s) /\
    queues (<[p := None]> rp) sp (with_runqs (<[q := filter (fun x => x <> p) l]> (sched_qs s)) w s).
Proof.
  intros Hp Hb q Hr. pose proof (queue_index _ Hb) as Hk.
  destruct (queues_lookup _ Hk) as [l Hl].
  exists l, (mark_empty (Z.shiftr (p_priority pr) 2) (filter (fun x => x <> p) l) (sched_whichqs s)).
  split; [done|]. split; [|by apply queues_unlink].
  unfold remrunqueue, proc_at. rewrite Hp. cbn [bind]. rewrite (aget_Some _ _ l) by (done || lia). cbn [bind].
  unfold tailq_remove. rewrite bool_decide_eq_true_2 by (by apply (q_run _ _ _ HQ q l)). cbn [bind].
  rewrite aset_bounds by (rewrite (q_nrun _ _ _ HQ); lia). done.
Qed.

(** The choice when some queue is occupied: the head of the first one. *)
Lemma chooseproc_queues c :
  sched_whichqs s <> 0 ->
  exists (q : nat) p l w, (forall j lj, (j < q)%nat -> sched_qs s !! j = Some lj -> lj = []) /\
    sched_qs s !! q = Some (p :: l) /\ rp p = Some q /\
    sched_chooseproc c s = Ret (p, with_runqs (<[q := l]> (sched_qs s)) w s) /\
    queues (<[p := None]> rp) sp (with_runqs (<[q := l]> (sched_qs s)) w s).
Proof.
  intros Hw. pose proof (ffs_low _ (q_word _ _ _ HQ) Hw) as (H0 & Hb & Hlow).
  unfold sched_chooseproc. rewrite (proj2 (Z.eqb_neq _ _) Hw).
  set (k := ffs (sched_whichqs s) - 1) in *.
  assert (k < 32) as Hk.
  { destruct (decide (k < 32)); [done|]. exfalso. pose proof (q_word _ _ _ HQ) as Hu.
    apply is_u_bits in Hu as [_ Hu]; [|lia]. rewrite Hu in Hb by lia. done. }
  destruct (queues_lookup k) as [l Hl]; [lia|].
  pose proof (q_bits _ _ _ HQ _ _ Hl) as Hne. rewrite Z2Nat.id, Hb in Hne by lia.
  destruct l as [|p l]; [by case_bool_decide|].
  destruct (q_run _ _ _ HQ _ _ Hl) as [Hnd Hpos].
  assert (rp p = Some (Z.to_nat k)) as Hp by (apply Hpos; left).
  assert (filter (fun x => x <> p) (p :: l) = l) as Hf.
  { rewrite filter_cons_False by tauto. apply filter_keep.
    intros x Hx ->. by apply NoDup_cons in Hnd as [? _]. }
  exists (Z.to_nat k), p, l, (mark_empty k l (sched_whichqs s)). split.
  { intros j lj Hj Hlj. pose proof (q_bits _ _ _ HQ _ _ Hlj) as Hz. rewrite Hlow in Hz by lia.
    destruct lj; [done|]. by case_bool_decide. }
  split; [done|]. split; [done|]. split.
  - rewrite (aget_Some _ _ (p :: l)) by (done || lia). cbn [bind]. unfold tailq_remove.
    rewrite bool_decide_eq_true_2 by (by left). cbn [bind].
    rewrite aset_bounds by (rewrite (q_nrun _ _ _ HQ); lia). cbn [bind]. by rewrite Hf.
  - pose proof (queues_unlink rp sp s k (p :: l) p HQ ltac:(lia) Hl Hp) as HU. cbv zeta in HU.
    by rewrite Hf in HU.
Qed.

Lemma queues_sleep x l p :
  slpque s !! Z.to_nat (LOOKUP x) = Some l -> sp p = None ->
  queues rp (<[p := Some (Z.to_nat (LOOKUP x))]> sp)
    (with_slpque (<[Z.to_nat (LOOKUP x) := l ++ [p]]> (slpque s)) s).
Proof.
  intros Hl Hp. destruct HQ as [Hr Hs Hn Hm Hw Hb]. split; simpl; try done.
  - by apply qrep_insert.
  - by rewrite length_insert.
Qed.

Lemma queues_unsleep x l p :
  slpque s !! Z.to_nat (LOOKUP x) = Some l -> sp p = Some (Z.to_nat (LOOKUP x)) ->
  queues rp (<[p := None]> sp)
    (with_slpque (<[Z.to_nat (LOOKUP x) := filter (fun y => y <> p) l]> (slpque s)) s).
Proof.
  intros Hl Hp. destruct HQ as [Hr Hs Hn Hm Hw Hb]. split; simpl; try done.
  - by apply qrep_remove.
  - by rewrite length_insert.
Qed.
End linking.
