(* ===== verification/SchedInv.v ===== *)
(** The invariant of the scheduler, and the steps that keep it: changes that
    do not matter to it, changes of a process that is off the queues, linking
    it, and switching. *)

From stdpp Require Import gmap functions.
From S2P Require Import Prelude Sched SchedQueue.

(** * The invariant *)

(** Where a process belongs. *)
Definition rqpos (pr : proc) : option nat :=
  if decide (p_stat pr = SRUN) then Some (Z.to_nat (Z.shiftr (p_priority pr) 2)) else None.
Definition sqpos (pr : proc) : option nat :=
  if decide (p_wchan pr = 0) then None else Some (Z.to_nat (LOOKUP (p_wchan pr))).

Definition rpos (s : sched) (p : Z) : option nat := procs s !! p ≫= rqpos.
Definition spos (s : sched) (p : Z) : option nat := procs s !! p ≫= sqpos.

(** Positions with one process taken off the queues. *)
Definition limbo (x : option Z) (pos : Z -> option nat) (p : Z) : option nat :=
  if decide (x = Some p) then None else pos p.

Definition wf_proc (ncpu : nat) (pr : proc) : Prop :=
  0 <= p_priority pr <= MAXPRI /\ 0 <= p_usrpri pr <= MAXPRI /\ 0 <= p_estcpu pr <= 36 /\
  0 <= p_nice pr <= 40 /\ is_u 32 (p_slptime pr) /\ (forall c, p_cpu pr = Some c -> (c < ncpu)%nat).

Definition wfs (s : sched) : Prop :=
  forall p pr, procs s !! p = Some pr -> wf_proc (length (cpus s)) pr.

Definition not_idle (s : sched) (p : Z) : Prop :=
  forall c ci, cpus s !! c = Some ci -> spc_idleproc ci <> Some p.

(** [x] is a process taken off the queues, [m] one that is on a sleep queue
    but still running, [sw] a CPU whose current process has given it up: all
    three are [None] whenever the scheduler lock is free. *)
Record inv (x m : option Z) (sw : option nat) (s : sched) : Prop := {
  i_queues : queues (limbo x (rpos s)) (limbo x (spos s)) s;
  i_wf : wfs s;
  i_slp : forall p pr, procs s !! p = Some pr -> x <> Some p -> p_wchan pr <> 0 ->
    (p_stat pr = SSLEEP \/ p_stat pr = SSTOP \/ (p_stat pr = SONPROC /\ m = Some p)) /\
    is_Some (p_cpu pr);
  i_cur : forall c ci, cpus s !! c = Some ci ->
    exists pr, procs s !! ci_curproc ci = Some pr /\ is_Some (p_cpu pr) /\
      (sw <> Some c -> p_stat pr = SONPROC);
  i_on : forall p pr, procs s !! p = Some pr -> p_stat pr = SONPROC ->
    exists c ci, sw <> Some c /\ cpus s !! c = Some ci /\ ci_curproc ci = p;
  i_inj : forall c1 c2 ci1 ci2, cpus s !! c1 = Some ci1 -> cpus s !! c2 = Some ci2 ->
    ci_curproc ci1 = ci_curproc ci2 -> c1 = c2;
  i_idle : forall c ci, cpus s !! c = Some ci ->
    exists i pr, spc_idleproc ci = Some i /\ procs s !! i = Some pr /\ p_wchan pr = 0 /\
      (x = Some i \/ p_stat pr = SSLEEP \/ (p_stat pr = SONPROC /\ ci_curproc ci = i));
  i_idle_inj : forall c1 c2 ci1 ci2, cpus s !! c1 = Some ci1 -> cpus s !! c2 = Some ci2 ->
    spc_idleproc ci1 = spc_idleproc ci2 -> c1 = c2;
  i_all : forall p, p ∈ allproc s -> is_Some (procs s !! p) }.

(** * Changes that do not matter *)

Definition core (pr : proc) := (p_stat pr, p_wchan pr, p_priority pr, p_cpu pr).
Definition place (ci : cpu) := (ci_curproc ci, spc_idleproc ci).

(** The queues, the cores of the processes and the places of the CPUs are the
    same; the priorities and estimates that may differ stay in range. *)
Record harmless (s s' : sched) : Prop := {
  h_core : forall p, core <$> procs s !! p = core <$> procs s' !! p;
  h_place : forall c, place <$> cpus s !! c = place <$> cpus s' !! c;
  h_ncpu : length (cpus s') = length (cpus s);
  h_runqs : sched_qs s' = sched_qs s;
  h_which : sched_whichqs s' = sched_whichqs s;
  h_slpque : slpque s' = slpque s;
  h_all : allproc s' = allproc s;
  h_wf : wfs s -> wfs s' }.

#[export] Instance harmless_refl : Reflexive harmless.
Proof. intros s. by split. Qed.

#[export] Instance harmless_trans : Transitive harmless.
Proof.
  intros s1 s2 s3 [] []. split; try congruence; [intros ?; congruence..|]. auto.
Qed.

Lemma harmless_proc s s' p pr :
  harmless s s' -> procs s !! p = Some pr -> exists pr', procs s' !! p = Some pr' /\ core pr' = core pr.
Proof.
  intros H Hp. pose proof (h_core _ _ H p) as E. rewrite Hp in E.
  destruct (procs s' !! p) as [pr'|]; [|done]. exists pr'. split; [done|]. simpl in E. congruence.
Qed.

Lemma harmless_proc_inv s s' p pr' :
  harmless s s' -> procs s' !! p = Some pr' -> exists pr, procs s !! p = Some pr /\ core pr' = core pr.
Proof.
  intros H Hp. pose proof (h_core _ _ H p) as E. rewrite Hp in E.
  destruct (procs s !! p) as [pr|]; [|done]. exists pr. split; [done|]. simpl in E. congruence.
Qed.

Lemma harmless_cpu s s' c ci' :
  harmless s s' -> cpus s' !! c = Some ci' ->
  exists ci, cpus s !! c = Some ci /\ ci_curproc ci' = ci_curproc ci /\ spc_idleproc ci' = spc_idleproc ci.
Proof.
  intros H Hp. pose proof (h_place _ _ H c) as E. rewrite Hp in E.
  destruct (cpus s !! c) as [ci|]; [|done]. injection E as E1 E2. eauto.
Qed.

Lemma harmless_pos s s' p : harmless s s' -> rpos s' p = rpos s p /\ spos s' p = spos s p.
Proof.
  intros H. unfold rpos, spos, rqpos, sqpos. pose proof (h_core _ _ H p) as E.
  destruct (procs s !! p) as [pr|], (procs s' !! p) as [pr'|]; try done.
  injection E as E1 E2 E3 E4. simpl. by rewrite E1, E2, E3.
Qed.

Lemma inv_harmless x m sw s s' : harmless s s' -> inv x m sw s -> inv x m sw s'.
Proof.
  intros H [HQ Hwf Hslp Hcur Hon Hinj Hid Hidj Hall]. split.
  - destruct HQ. assert (forall p, limbo x (rpos s) p = limbo x (rpos s') p) as Hr.
    { intros p. unfold limbo. by rewrite (proj1 (harmless_pos s s' p H)). }
    assert (forall p, limbo x (spos s) p = limbo x (spos s') p) as Hs.
    { intros p. unfold limbo. by rewrite (proj2 (harmless_pos s s' p H)). }
    destruct H as [_ _ _ E1 E2 E3 _ _]. split; rewrite ?E1, ?E2, ?E3; eauto using qrep_ext.
  - by apply (h_wf _ _ H).
  - intros p pr' Hp. destruct (harmless_proc_inv _ _ _ _ H Hp) as (pr & Hpr & E).
    injection E as -> -> _ ->. eauto.
  - intros c ci' Hc. destruct (harmless_cpu _ _ _ _ H Hc) as (ci & Hci & -> & _).
    destruct (Hcur c ci Hci) as (pr & Hpr & Hx). destruct (harmless_proc _ _ _ _ H Hpr) as (pr' & Hpr' & E).
    exists pr'. injection E as -> _ _ ->. eauto.
  - intros p pr' Hp Hst. destruct (harmless_proc_inv _ _ _ _ H Hp) as (pr & Hpr & E).
    injection E as E _ _ _. destruct (Hon p pr Hpr) as (c & ci & Hsw & Hc & Hcp); [congruence|].
    pose proof (h_place _ _ H c) as Epl. rewrite Hc in Epl. destruct (cpus s' !! c) as [ci'|] eqn:Hc'; [|done].
    injection Epl as Epl _. exists c, ci'. repeat split; congruence.
  - intros c1 c2 ci1 ci2 H1 H2 E. destruct (harmless_cpu _ _ _ _ H H1) as (? & ? & E1 & _).
    destruct (harmless_cpu _ _ _ _ H H2) as (? & ? & E2 & _). eapply Hinj; eauto; congruence.
  - intros c ci' Hc. destruct (harmless_cpu _ _ _ _ H Hc) as (ci & Hci & -> & ->).
    destruct (Hid c ci Hci) as (i & pr & Hi & Hpr & Hx). destruct (harmless_proc _ _ _ _ H Hpr) as (pr' & Hpr' & E).
    exists i, pr'. injection E as -> -> _ _. eauto.
  - intros c1 c2 ci1 ci2 H1 H2 E. destruct (harmless_cpu _ _ _ _ H H1) as (? & ? & _ & E1).
    destruct (harmless_cpu _ _ _ _ H H2) as (? & ? & _ & E2). eapply Hidj; eauto; congruence.
  - intros p Hp. rewrite (h_all _ _ H) in Hp. destruct (Hall p Hp) as [pr Hpr].
    destruct (harmless_proc _ _ _ _ H Hpr) as (? & -> & _). done.
Qed.

(** ** Operations that do not matter *)

(** Bounds of a process whose other fields changed. *)
Ltac solve_wf :=
  repeat match goal with H : wf_proc _ _ |- _ => destruct H as (? & ? & ? & ? & ? & ?) end;
  unfold wf_proc, is_u in *;
  cbn [p_priority p_usrpri p_estcpu p_nice p_slptime p_cpu with_stat with_wchan with_slptime
       with_priority with_usrpri with_estcpu with_usage with_nice with_flag with_cpu with_siglist
       with_xstat with_ast];
  repeat match goal with |- _ /\ _ => split end; (assumption || lia || eauto).

Definition sane (s : sched) : Prop :=
  wfs s /\ forall c ci, cpus s !! c = Some ci -> is_Some (procs s !! ci_curproc ci).

Lemma inv_sane x m sw s : inv x m sw s -> sane s.
Proof.
  intros H. split; [by apply H|]. intros c ci Hc. destruct (i_cur _ _ _ _ H c ci Hc) as (pr & -> & _). done.
Qed.

Lemma harmless_sane s s' : harmless s s' -> sane s -> sane s'.
Proof.
  intros H [Hwf Hc]. split; [by apply H|]. intros c ci' Hci'.
  destruct (harmless_cpu _ _ _ _ H Hci') as (ci & Hci & -> & _). destruct (Hc c ci Hci) as [pr Hpr].
  destruct (harmless_proc _ _ _ _ H Hpr) as (? & -> & _). done.
Qed.

Lemma returns_then s (m : outcome sched) (k : sched -> outcome sched) :
  returns m (harmless s) -> (forall s1, harmless s s1 -> returns (k s1) (harmless s1)) ->
  returns (bind m k) (harmless s).
Proof.
  intros Hm Hk. apply returns_bind. eapply returns_mono; [|exact Hm]. intros s1 H1.
  eapply returns_mono; [|by apply Hk]. intros s2 H2. by etrans.
Qed.

Lemma modify_eq p f s pr :
  procs s !! p = Some pr -> modify p f s = Ret (with_procs (<[p := f pr]> (procs s)) s).
Proof. intros Hp. unfold modify, proc_at. by rewrite Hp. Qed.

Lemma proc_at_eq p s pr : procs s !! p = Some pr -> proc_at s p = Ret pr.
Proof. intros Hp. unfold proc_at. by rewrite Hp. Qed.

Lemma cpu_at_eq c s ci : cpus s !! c = Some ci -> cpu_at s c = Ret ci.
Proof. intros Hp. unfold cpu_at. by rewrite Hp. Qed.

Lemma modify_cpu_eq c f s ci :
  cpus s !! c = Some ci -> modify_cpu c f s = Ret (with_cpus (<[c := f ci]> (cpus s)) s).
Proof. intros Hp. unfold modify_cpu, cpu_at. by rewrite Hp. Qed.

Lemma modify_harmless p f s pr :
  procs s !! p = Some pr -> core (f pr) = core pr -> (forall n, wf_proc n pr -> wf_proc n (f pr)) ->
  returns (modify p f s) (harmless s).
Proof.
  intros Hp Hc Hwf. rewrite (modify_eq _ _ _ _ Hp). split; simpl; try done.
  - intros q. destruct (decide (q = p)) as [-> |].
    + rewrite lookup_insert_eq, Hp. simpl. by rewrite Hc.
    + by rewrite lookup_insert_ne by done.
  - intros H q pr' Hq. simpl in *. destruct (decide (q = p)) as [-> |].
    + rewrite lookup_insert_eq in Hq. injection Hq as <-. eauto.
    + rewrite lookup_insert_ne in Hq by done. eauto.
Qed.

Lemma modify_cpu_harmless c f s ci :
  cpus s !! c = Some ci -> place (f ci) = place ci -> returns (modify_cpu c f s) (harmless s).
Proof.
  intros Hp Hc. rewrite (modify_cpu_eq _ _ _ _ Hp). split; simpl; try done.
  - intros q. destruct (decide (q = c)) as [-> |].
    + rewrite list_lookup_insert_eq by (by eapply lookup_lt_Some). rewrite Hp. simpl. by rewrite Hc.
    + by rewrite list_lookup_insert_ne by done.
  - by rewrite length_insert.
  - intros H q pr' Hq. simpl in *. rewrite length_insert. eauto.
Qed.

Lemma need_resched_harmless c s :
  sane s -> (c < length (cpus s))%nat -> returns (need_resched c s) (harmless s).
Proof.
  intros HS Hc. destruct (lookup_lt_is_Some_2 _ _ Hc) as [ci Hci]. apply returns_then.
  - by eapply modify_cpu_harmless.
  - intros s1 H1. apply (harmless_sane _ _ H1) in HS as [_ Hb]. rewrite <- (h_ncpu _ _ H1) in Hc.
    destruct (lookup_lt_is_Some_2 _ _ Hc) as [ci1 Hci1]. rewrite (cpu_at_eq _ _ _ Hci1). simpl.
    destruct (Hb c ci1 Hci1) as [pr Hpr]. by eapply modify_harmless.
Qed.

Lemma resched_proc_harmless curc p pri s pr :
  sane s -> procs s !! p = Some pr -> (curc < length (cpus s))%nat ->
  returns (resched_proc curc p pri s) (harmless s).
Proof.
  intros HS Hp Hc. unfold resched_proc. rewrite (proc_at_eq _ _ _ Hp). cbn [bind].
  assert (default curc (p_cpu pr) < length (cpus s))%nat as Hd.
  { destruct (p_cpu pr) eqn:E; [|done]. apply (proj1 HS p pr Hp). done. }
  destruct (lookup_lt_is_Some_2 _ _ Hd) as [ci Hci]. rewrite (cpu_at_eq _ _ _ Hci). cbn [bind].
  case_if; [by apply need_resched_harmless|]. simpl. reflexivity.
Qed.

Lemma usrpri_range pr n : wf_proc n pr ->
  0 <= u8 (Z.min (u32 (PUSER + p_estcpu pr + NICE_WEIGHT * (p_nice pr - NZERO))) MAXPRI) <= MAXPRI.
Proof.
  intros (_ & _ & He & Hn & _). unfold PUSER, NICE_WEIGHT, NZERO, MAXPRI.
  rewrite u32_small by (unfold is_u; lia). unfold u8. rewrite wrap_small by (unfold is_u; lia). lia.
Qed.

Lemma resetpriority_harmless curc p s pr :
  sane s -> procs s !! p = Some pr -> (curc < length (cpus s))%nat ->
  returns (resetpriority curc p s) (harmless s).
Proof.
  intros HS Hp Hc. unfold resetpriority. rewrite (proc_at_eq _ _ _ Hp). cbn [bind]. cbv zeta.
  apply returns_then.
  - eapply modify_harmless; [done..|]. intros n Hwf. pose proof (usrpri_range pr n Hwf).
    solve_wf.
  - intros s1 H1. destruct (harmless_proc _ _ _ _ H1 Hp) as (pr1 & Hp1 & _).
    eapply resched_proc_harmless; [by eapply harmless_sane|done|]. by rewrite (h_ncpu _ _ H1).
Qed.

Section load.
Context (ldavg : Z).
Hypothesis Hld : 0 <= ldavg < 2 ^ 25.

Lemma loadfactor_eq : loadfactor ldavg = 2 * ldavg.
Proof. apply u32_small. unfold is_u. lia. Qed.

Lemma decay_cpu_ok cpu :
  0 <= cpu <= 36 -> exists v, decay_cpu (loadfactor ldavg) cpu = Ret v /\ 0 <= v <= cpu.
Proof.
  intros Hc. unfold decay_cpu. rewrite loadfactor_eq. unfold FSCALE, FSHIFT. change (2 ^ 11) with 2048.
  rewrite (u32_small (2 * ldavg + 2048)) by (unfold is_u; lia).
  rewrite (u32_small (2 * ldavg * cpu)) by (unfold is_u; nia).
  destruct (Z.eqb_spec (2 * ldavg + 2048) 0); [lia|]. eexists. split; [done|].
  split; [apply Z.div_pos; nia|]. apply Z.div_le_upper_bound; nia.
Qed.

Lemma decay_loop_ok fuel newcpu slptime :
  0 <= newcpu <= 36 -> is_u 32 slptime -> 1 <= slptime <= Z.of_nat fuel ->
  exists v t, decay_loop fuel (loadfactor ldavg) newcpu slptime = Ret (v, t) /\
    0 <= v <= newcpu /\ is_u 32 t.
Proof.
  revert newcpu slptime. induction fuel as [|fuel IH]; intros newcpu slptime Hn Hs Hf; [lia|].
  cbn [decay_loop]. destruct (Z.eqb_spec newcpu 0); [exists newcpu, slptime; repeat split; (done || lia || apply Hs)|].
  rewrite u32_small by (unfold is_u in *; lia).
  destruct (Z.eqb_spec (slptime - 1) 0) as [E|E].
  - exists newcpu, (slptime - 1). rewrite E. repeat split; (done || lia).
  - destruct (decay_cpu_ok newcpu Hn) as (v & -> & Hv). cbn [bind].
    destruct (IH v (slptime - 1)) as (v' & t & -> & Hv' & Ht); [lia|unfold is_u in *; lia|lia|].
    exists v', t. repeat split; (done || lia || apply Ht).
Qed.

Lemma updatepri_harmless curc p s pr :
  sane s -> procs s !! p = Some pr -> (curc < length (cpus s))%nat -> 1 < p_slptime pr ->
  returns (updatepri ldavg curc p s) (harmless s).
Proof.
  intros HS Hp Hc Hs. unfold updatepri. rewrite (proc_at_eq _ _ _ Hp). cbn [bind]. cbv zeta.
  pose proof (proj1 HS p pr Hp) as (_ & _ & He & _ & Hsl & _).
  apply returns_then.
  - case_if.
    + eapply modify_harmless; [done..|]. intros n ?. solve_wf.
    + rewrite u32_small by (unfold is_u in *; lia).
      destruct (decay_loop_ok (S (Z.to_nat (p_slptime pr - 1))) (p_estcpu pr) (p_slptime pr - 1))
        as (v & t & -> & Hv & Ht); [lia|unfold is_u in *; lia|lia|]. cbn [bind].
      eapply modify_harmless; [done..|]. intros n ?. solve_wf.
  - intros s1 H1. destruct (harmless_proc _ _ _ _ H1 Hp) as (pr1 & Hp1 & _).
    eapply resetpriority_harmless; [by eapply harmless_sane|done|]. by rewrite (h_ncpu _ _ H1).
Qed.
End load.

(** * Changing one process *)

Definition update (p : Z) (pr : proc) (s : sched) : sched := with_procs (<[p := pr]> (procs s)) s.

Lemma rpos_update p pr s q : rpos (update p pr s) q = (<[p := rqpos pr]> (rpos s)) q.
Proof.
  unfold rpos, update. simpl. destruct (decide (q = p)) as [-> |].
  - by rewrite lookup_insert_eq, fn_lookup_insert.
  - by rewrite lookup_insert_ne, fn_lookup_insert_ne by done.
Qed.

Lemma spos_update p pr s q : spos (update p pr s) q = (<[p := sqpos pr]> (spos s)) q.
Proof.
  unfold spos, update. simpl. destruct (decide (q = p)) as [-> |].
  - by rewrite lookup_insert_eq, fn_lookup_insert.
  - by rewrite lookup_insert_ne, fn_lookup_insert_ne by done.
Qed.

Lemma limbo_same x pos p v q : pos p = v \/ x = Some p -> limbo x (<[p := v]> pos) q = limbo x pos q.
Proof.
  intros H. unfold limbo. case_decide; [done|]. destruct (decide (q = p)) as [-> |].
  - rewrite fn_lookup_insert. naive_solver.
  - by rewrite fn_lookup_insert_ne.
Qed.

(** What a process may be on a sleep queue. *)
Definition slp_ok (m : option Z) (p : Z) (pr : proc) : Prop :=
  p_wchan pr <> 0 ->
  (p_stat pr = SSLEEP \/ p_stat pr = SSTOP \/ (p_stat pr = SONPROC /\ m = Some p)) /\ is_Some (p_cpu pr).

(** A change of the state of [p] in view of the CPUs: it stays on its CPU or
    off, or it gives up the CPU it is current on. *)
Definition stat_change (sw sw' : option nat) (s : sched) (p : Z) (pr pr' : proc) : Prop :=
  (sw' = sw /\ (p_stat pr' = SONPROC <-> p_stat pr = SONPROC)) \/
  (exists c ci, sw = None /\ sw' = Some c /\ cpus s !! c = Some ci /\ ci_curproc ci = p /\
     p_stat pr' <> SONPROC).

Lemma inv_update x m sw sw' s p pr pr' :
  inv x m sw s -> procs s !! p = Some pr -> wf_proc (length (cpus s)) pr' ->
  x = Some p \/ (rqpos pr' = rqpos pr /\ sqpos pr' = sqpos pr /\ slp_ok m p pr') ->
  stat_change sw sw' s p pr pr' -> (is_Some (p_cpu pr) -> is_Some (p_cpu pr')) ->
  not_idle s p \/
    (p_wchan pr' = p_wchan pr /\ (x = Some p \/ p_stat pr' = SSLEEP \/ p_stat pr' = p_stat pr)) ->
  inv x m sw' (update p pr' s).
Proof.
  intros [HQ Hwf Hslp Hcur Hon Hinj Hid Hidj Hall] Hp Hwf' Hpos Hst Hcpu Hni.
  assert (forall q prq, procs (update p pr' s) !! q = Some prq ->
    (q = p /\ prq = pr') \/ (q <> p /\ procs s !! q = Some prq)) as Hq.
  { intros q prq. simpl. destruct (decide (q = p)) as [-> |].
    - rewrite lookup_insert_eq. intros [= <-]. auto.
    - rewrite lookup_insert_ne by done. auto. }
  split; [| | | | |done| |done|].
  - eapply (queues_ext (limbo x (rpos s)) _ (limbo x (spos s))); [| |by destruct HQ].
    + intros q. unfold limbo. case_decide; [done|]. rewrite rpos_update. destruct (decide (q = p)) as [-> |].
      * rewrite fn_lookup_insert. destruct Hpos as [|(-> & _ & _)]; [done|]. unfold rpos. by rewrite Hp.
      * by rewrite fn_lookup_insert_ne.
    + intros q. unfold limbo. case_decide; [done|]. rewrite spos_update. destruct (decide (q = p)) as [-> |].
      * rewrite fn_lookup_insert. destruct Hpos as [|(_ & -> & _)]; [done|]. unfold spos. by rewrite Hp.
      * by rewrite fn_lookup_insert_ne.
  - intros q prq Hl. destruct (Hq q prq Hl) as [[-> ->]|[? ?]]; [done|]. by eapply Hwf.
  - intros q prq Hl Hx. destruct (Hq q prq Hl) as [[-> ->]|[? ?]]; [|by eauto].
    destruct Hpos as [|(_ & _ & Hok)]; [done|]. exact Hok.
  - intros c ci Hc. simpl. destruct (Hcur c ci Hc) as (pq & Hpq & Hq1 & Hq2).
    destruct (decide (ci_curproc ci = p)) as [E|E].
    + exists pr'. rewrite E, lookup_insert_eq. rewrite E, Hp in Hpq. injection Hpq as <-.
      split; [done|]. split; [by auto|]. destruct Hst as [[-> Hi]|(c' & ci' & -> & -> & Hc' & Ec & Hn)].
      * intros ?. apply Hi. auto.
      * intros Hne. exfalso. apply Hne. f_equal. by eapply Hinj; [exact Hc'|exact Hc|congruence].
    + exists pq. rewrite lookup_insert_ne by done. split; [done|]. split; [done|].
      intros ?. apply Hq2. destruct Hst as [[-> _]|(c' & ci' & -> & -> & _)]; done.
  - intros q prq Hl Hs. destruct (Hq q prq Hl) as [[-> ->]|[Hne Hl']].
    + destruct Hst as [[-> Hi]|(c' & ci' & -> & -> & Hc' & Ec & Hn)]; [|done]. eapply Hon; [done|]. by apply Hi.
    + destruct (Hon q prq Hl' Hs) as (c & ci & Hsw & Hc & E). exists c, ci. split; [|done].
      destruct Hst as [[-> _]|(c' & ci' & -> & -> & Hc' & Ec & Hn)]; [done|].
      intros [= ->]. simplify_eq.
  - intros c ci Hc. destruct (Hid c ci Hc) as (i & pi & Hi & Hpi & Hw & Ho). exists i. simpl.
    destruct (decide (i = p)) as [-> |].
    + exists pr'. rewrite lookup_insert_eq. rewrite Hp in Hpi. injection Hpi as <-.
      destruct Hni as [Hni|[Ew Es]]; [by destruct (Hni c ci Hc)|]. rewrite Ew.
      conj; [done..|]. destruct Es as [-> |[-> | ->]]; auto.
    + exists pi. by rewrite lookup_insert_ne by done.
  - intros q Hin. simpl. destruct (decide (q = p)) as [-> |]; [by rewrite lookup_insert_eq|].
    rewrite lookup_insert_ne by done. by apply Hall.
Qed.

(** ** Taking a process off the queues and putting it back *)

Lemma limbo_pos p pos q : pos p = None -> limbo (Some p) pos q = limbo None pos q.
Proof. intros H. unfold limbo. repeat case_decide; try done. by simplify_eq. Qed.

Lemma inv_limbo m sw s p pr :
  inv None m sw s -> procs s !! p = Some pr -> rqpos pr = None -> sqpos pr = None ->
  inv (Some p) m sw s.
Proof.
  intros [HQ Hwf Hslp Hcur Hon Hinj Hid Hidj Hall] Hp Hr Hs. split; try done.
  - eapply queues_ext; [intros q; symmetry; apply limbo_pos..|done]; unfold rpos, spos; by rewrite Hp.
  - intros; eauto.
  - intros c ci Hc. destruct (Hid c ci Hc) as (i & pi & ? & ? & ? & [?|Ho]); [done|]. eauto 10.
Qed.

Lemma inv_unlimbo m sw s p pr :
  inv (Some p) m sw s -> procs s !! p = Some pr -> rqpos pr = None -> sqpos pr = None ->
  not_idle s p -> inv None m sw s.
Proof.
  intros [HQ Hwf Hslp Hcur Hon Hinj Hid Hidj Hall] Hp Hr Hs Hni. split; try done.
  - eapply queues_ext; [intros q; apply limbo_pos..|done]; unfold rpos, spos; by rewrite Hp.
  - intros q prq Hq _ Hw. destruct (decide (q = p)) as [-> |]; [|by apply Hslp; [|congruence|]].
    simplify_eq. unfold sqpos in Hs. by case_decide.
  - intros c ci Hc. destruct (Hid c ci Hc) as (i & pi & ? & ? & ? & [[= ->]|Ho]); [by destruct (Hni c ci Hc)|].
    eauto 10.
Qed.

(** ** Linking and unlinking *)

Lemma inv_requeue_on m sw s s' p pr :
  inv (Some p) m sw s -> procs s' = procs s -> cpus s' = cpus s -> allproc s' = allproc s ->
  queues (rpos s) (spos s) s' -> procs s !! p = Some pr -> slp_ok m p pr -> not_idle s p ->
  inv None m sw s'.
Proof.
  intros [HQ Hwf Hslp Hcur Hon Hinj Hid Hidj Hall] Ep Ec Ea HQ' Hp Hok Hni.
  unfold rpos, spos in HQ'. rewrite <- Ep in HQ'. split; unfold wfs; rewrite ?Ep, ?Ec, ?Ea; try done.
  - intros q prq Hq _ Hw. destruct (decide (q = p)) as [-> |]; [|by apply Hslp; [|congruence|]].
    simplify_eq. by apply Hok.
  - intros c ci Hc. destruct (Hid c ci Hc) as (i & pi & ? & ? & ? & [[= ->]|Ho]); [by destruct (Hni c ci Hc)|].
    eauto 10.
Qed.

Lemma inv_requeue_off m sw s s' p :
  inv None m sw s -> procs s' = procs s -> cpus s' = cpus s -> allproc s' = allproc s ->
  queues (limbo (Some p) (rpos s)) (limbo (Some p) (spos s)) s' -> inv (Some p) m sw s'.
Proof.
  intros [HQ Hwf Hslp Hcur Hon Hinj Hid Hidj Hall] Ep Ec Ea HQ'.
  unfold rpos, spos in HQ'. rewrite <- Ep in HQ'. split; unfold wfs; rewrite ?Ep, ?Ec, ?Ea; try done.
  - eauto.
  - intros c ci Hc. destruct (Hid c ci Hc) as (i & pi & ? & ? & ? & [?|Ho]); [done|]. eauto 10.
Qed.

Lemma pos_put p pos v q : pos p = v -> (<[p := v]> (limbo (Some p) pos)) q = pos q.
Proof.
  intros <-. destruct (decide (q = p)) as [-> |]; [by rewrite fn_lookup_insert|].
  rewrite fn_lookup_insert_ne by done. unfold limbo. case_decide; [by simplify_eq|done].
Qed.

Lemma pos_take p pos q : (<[p := None]> (limbo None pos)) q = limbo (Some p) pos q.
Proof.
  unfold limbo at 2. destruct (decide (q = p)) as [-> |].
  - rewrite fn_lookup_insert. by case_decide.
  - rewrite fn_lookup_insert_ne by done. case_decide; [by simplify_eq|done].
Qed.

Lemma pos_none p pos q : pos p = None -> limbo (Some p) pos q = pos q.
Proof. intros Hp. unfold limbo. case_decide; [|done]. by simplify_eq. Qed.

Lemma rqpos_run pr : p_stat pr = SRUN -> rqpos pr = Some (Z.to_nat (Z.shiftr (p_priority pr) 2)).
Proof. intros H. unfold rqpos. by rewrite decide_True. Qed.

Lemma rqpos_none pr : p_stat pr <> SRUN -> rqpos pr = None.
Proof. intros H. unfold rqpos. by rewrite decide_False. Qed.

Lemma sqpos_none pr : p_wchan pr = 0 -> sqpos pr = None.
Proof. intros H. unfold sqpos. by rewrite decide_True. Qed.

Lemma sqpos_some pr : p_wchan pr <> 0 -> sqpos pr = Some (Z.to_nat (LOOKUP (p_wchan pr))).
Proof. intros H. unfold sqpos. by rewrite decide_False. Qed.

#[export] Hint Rewrite rqpos_run rqpos_none sqpos_none sqpos_some using (congruence || done) : kernel.

Lemma slp_ok_awake m p pr : p_wchan pr = 0 -> slp_ok m p pr.
Proof. intros H Hw. by rewrite H in Hw. Qed.

#[export] Hint Resolve slp_ok_awake : kernel.

Lemma limbo_self p pos : limbo (Some p) pos p = None.
Proof. unfold limbo. by rewrite decide_True. Qed.

Lemma inv_setrunqueue m sw s p pr :
  inv (Some p) m sw s -> procs s !! p = Some pr -> p_stat pr = SRUN -> p_wchan pr = 0 -> not_idle s p ->
  exists l w, let q := Z.to_nat (Z.shiftr (p_priority pr) 2) in
    let s' := with_runqs (<[q := l ++ [p]]> (sched_qs s)) w s in
    sched_qs s !! q = Some l /\ setrunqueue p s = Ret s' /\ inv None m sw s'.
Proof.
  intros HI Hp Hst Hw Hni. destruct (setrunqueue_queues _ _ _ (i_queues _ _ _ _ HI) p pr Hp) as (l & w & Hl & E & HQ).
  { apply (i_wf _ _ _ _ HI p pr Hp). }
  { apply limbo_self. }
  { apply limbo_self. }
  exists l, w. cbv zeta. split; [done|]. split; [done|].
  eapply (inv_requeue_on m sw s _ p pr HI); auto with kernel.
  eapply queues_ext; [..|exact HQ]; intros q.
  - apply pos_put. unfold rpos. rewrite Hp. simpl. by rewrite rqpos_run.
  - apply pos_none. unfold spos. rewrite Hp. simpl. by rewrite sqpos_none.
Qed.

Lemma inv_remrunqueue m sw s p pr :
  inv None m sw s -> procs s !! p = Some pr -> p_stat pr = SRUN ->
  exists s', remrunqueue p s = Ret s' /\ procs s' = procs s /\ cpus s' = cpus s /\
    allproc s' = allproc s /\ p_wchan pr = 0 /\ inv (Some p) m sw s'.
Proof.
  intros HI Hp Hst.
  destruct (remrunqueue_queues _ _ _ (i_queues _ _ _ _ HI) p pr Hp) as (l & w & Hl & E & HQ).
  { apply (i_wf _ _ _ _ HI p pr Hp). }
  { unfold limbo. rewrite decide_False by done. unfold rpos. rewrite Hp. simpl. by rewrite rqpos_run. }
  assert (p_wchan pr = 0) as Hw.
  { destruct (decide (p_wchan pr = 0)) as [|Hw]; [done|].
    destruct (i_slp _ _ _ _ HI p pr Hp ltac:(done) Hw) as [[?|[?|[? _]]] _]; congruence. }
  eexists. split; [exact E|]. conj; [done..|]. eapply (inv_requeue_off m sw s); [done..|].
  eapply queues_ext; [..|exact HQ]; intros q.
  - apply pos_take.
  - symmetry. apply limbo_pos. unfold spos. rewrite Hp. simpl. by rewrite sqpos_none.
Qed.

Lemma inv_sleepq m sw s p pr :
  inv (Some p) m sw s -> procs s !! p = Some pr -> p_wchan pr <> 0 -> p_stat pr <> SRUN ->
  slp_ok m p pr -> not_idle s p ->
  exists l, let q := Z.to_nat (LOOKUP (p_wchan pr)) in
    let s' := with_slpque (<[q := l ++ [p]]> (slpque s)) s in
    slpque s !! q = Some l /\ 0 <= LOOKUP (p_wchan pr) < 128 /\ length (slpque s) = 128%nat /\
    linked s p = false /\ inv None m sw s'.
Proof.
  intros HI Hp Hw Hst Hok Hni. pose proof (i_queues _ _ _ _ HI) as HQ.
  destruct (queues_slp_lookup _ _ _ HQ (p_wchan pr)) as (l & Hl & Hr).
  exists l. cbv zeta. split; [done|]. split; [done|]. split; [apply HQ|].
  split; [by eapply queues_unlinked; [exact HQ|apply limbo_self..]|].
  eapply (inv_requeue_on m sw s _ p pr HI); auto with kernel.
  eapply queues_ext; [..|eapply queues_sleep; [exact HQ|exact Hl|apply limbo_self]]; intros q.
  - apply pos_none. unfold rpos. rewrite Hp. simpl. by rewrite rqpos_none.
  - apply pos_put. unfold spos. rewrite Hp. simpl. by rewrite sqpos_some.
Qed.

Lemma inv_unsleepq m sw s p pr :
  inv None m sw s -> procs s !! p = Some pr -> p_wchan pr <> 0 ->
  exists l, let q := Z.to_nat (LOOKUP (p_wchan pr)) in
    let s' := with_slpque (<[q := filter (fun y => y <> p) l]> (slpque s)) s in
    slpque s !! q = Some l /\ 0 <= LOOKUP (p_wchan pr) < 128 /\ length (slpque s) = 128%nat /\
    p ∈ l /\ p_stat pr <> SRUN /\ inv (Some p) m sw s'.
Proof.
  intros HI Hp Hw. pose proof (i_queues _ _ _ _ HI) as HQ.
  destruct (queues_slp_lookup _ _ _ HQ (p_wchan pr)) as (l & Hl & Hr).
  assert (p_stat pr <> SRUN) as Hst.
  { destruct (i_slp _ _ _ _ HI p pr Hp ltac:(done) Hw) as [[?|[?|[? _]]] _]; congruence. }
  assert (limbo None (spos s) p = Some (Z.to_nat (LOOKUP (p_wchan pr)))) as Hpos.
  { unfold limbo. rewrite decide_False by done. unfold spos. rewrite Hp. simpl. by rewrite sqpos_some. }
  exists l. cbv zeta. split; [done|]. split; [done|]. split; [apply HQ|].
  split; [by apply (q_slp _ _ _ HQ _ l Hl)|]. split; [done|].
  eapply (inv_requeue_off m sw s); [done..|].
  eapply queues_ext; [..|eapply queues_unsleep; [exact HQ|exact Hl|exact Hpos]]; intros q.
  - symmetry. apply limbo_pos. unfold rpos. rewrite Hp. simpl. by rewrite rqpos_none.
  - apply pos_take.
Qed.

(** * Switching *)

Lemma inv_switch m s c ci ci' n pr pr' :
  inv (Some n) m (Some c) s -> cpus s !! c = Some ci -> procs s !! n = Some pr ->
  p_wchan pr = 0 -> p_stat pr <> SONPROC ->
  (forall c' ci', cpus s !! c' = Some ci' -> spc_idleproc ci' = Some n -> c' = c) ->
  ci_curproc ci' = n -> spc_idleproc ci' = spc_idleproc ci ->
  p_stat pr' = SONPROC -> p_wchan pr' = 0 -> is_Some (p_cpu pr') -> wf_proc (length (cpus s)) pr' ->
  inv None m None (update n pr' (with_cpus (<[c := ci']> (cpus s)) s)).
Proof.
  intros [HQ Hwf Hslp Hcur Hon Hinj Hid Hidj Hall] Hc Hp Hw Hst Hni Hcn Hidle Hst' Hw' Hcpu Hwf'.
  assert (c < length (cpus s))%nat as Hlt by (by eapply lookup_lt_Some).
  assert (forall c0 ci0, <[c := ci']> (cpus s) !! c0 = Some ci0 ->
    (c0 = c /\ ci0 = ci') \/ (c0 <> c /\ cpus s !! c0 = Some ci0)) as HC.
  { intros c0 ci0. destruct (decide (c0 = c)) as [-> |].
    - rewrite list_lookup_insert_eq by done. intros [= <-]. auto.
    - rewrite list_lookup_insert_ne by done. auto. }
  assert (forall c0 ci0, c0 <> c -> cpus s !! c0 = Some ci0 -> ci_curproc ci0 <> n) as Hcn0.
  { intros c0 ci0 Hne Hc0 E. destruct (Hcur c0 ci0 Hc0) as (pq & Hpq & _ & Hpq').
    rewrite E, Hp in Hpq. injection Hpq as <-. apply Hst, Hpq'. congruence. }
  assert (forall q, q <> n -> procs (update n pr' (with_cpus (<[c := ci']> (cpus s)) s)) !! q = procs s !! q) as Hpo
    by (intros q Hq; simpl; by rewrite lookup_insert_ne by done).
  assert (procs (update n pr' (with_cpus (<[c := ci']> (cpus s)) s)) !! n = Some pr') as Hpn
    by (simpl; by rewrite lookup_insert_eq).
  split; simpl cpus; simpl allproc.
  - destruct HQ as [Hr Hs ? ? ? ?]. split; simpl; try done; eapply qrep_ext; try eassumption; intros q; symmetry.
    + change (rpos (update n pr' s) q = limbo (Some n) (rpos s) q). rewrite rpos_update.
      rewrite rqpos_none by congruence. rewrite <- pos_take. unfold limbo. by simpl.
    + change (spos (update n pr' s) q = limbo (Some n) (spos s) q). rewrite spos_update.
      rewrite sqpos_none by done. rewrite <- pos_take. unfold limbo. by simpl.
  - intros q prq. simpl. rewrite length_insert. destruct (decide (q = n)) as [-> |].
    + rewrite lookup_insert_eq. by intros [= <-].
    + rewrite lookup_insert_ne by done. apply Hwf.
  - intros q prq Hq _ Hwq. destruct (decide (q = n)) as [-> |]; [by simplify_eq|].
    rewrite Hpo in Hq by done. apply Hslp; [done|congruence|done].
  - intros c0 ci0 Hc0. destruct (HC c0 ci0 Hc0) as [[-> ->]|[Hne Hc0']].
    + rewrite Hcn. eauto.
    + rewrite Hpo by eauto. destruct (Hcur c0 ci0 Hc0') as (pq & ? & ? & Hx). exists pq. split; [done|]. split; [done|].
      intros _. apply Hx. congruence.
  - intros q prq Hq Hs. destruct (decide (q = n)) as [-> |Hqn].
    + exists c, ci'. by rewrite list_lookup_insert_eq.
    + rewrite Hpo in Hq by done. destruct (Hon q prq Hq Hs) as (c0 & ci0 & Hsw & Hc0 & E).
      exists c0, ci0. by rewrite list_lookup_insert_ne by congruence.
  - intros c1 c2 ci1 ci2 H1 H2 E.
    destruct (HC c1 ci1 H1) as [[-> ->]|[Hne1 H1']], (HC c2 ci2 H2) as [[-> ->]|[Hne2 H2']]; [done|..].
    + destruct (Hcn0 c2 ci2 Hne2 H2'). congruence.
    + destruct (Hcn0 c1 ci1 Hne1 H1'). congruence.
    + by eapply Hinj.
  - intros c0 ci0 Hc0. assert (exists ci1, cpus s !! c0 = Some ci1 /\ spc_idleproc ci0 = spc_idleproc ci1 /\
      (c0 <> c -> ci0 = ci1)) as (ci1 & Hc1 & E & Es).
    { destruct (HC c0 ci0 Hc0) as [[-> ->]|[Hne1 H1']]; [exists ci|exists ci0]; done. }
    destruct (Hid c0 ci1 Hc1) as (i & pi & Hi & Hpi & Hwi & Ho). exists i. rewrite E.
    destruct (decide (i = n)) as [-> |Hin].
    + exists pr'. conj; [done..|]. right; right. split; [done|]. pose proof (Hni c0 ci1 Hc1 Hi) as ->.
      destruct (HC c ci0 Hc0) as [[_ ->]|[? _]]; done.
    + exists pi. rewrite Hpo by done. conj; [done..|]. right. destruct Ho as [[= ?]|[?|[Hso Hco]]]; [done|by left|].
      right. split; [done|]. destruct (decide (c0 = c)) as [-> |Hcc]; [|by rewrite Es].
      simplify_eq. destruct (Hon _ _ Hpi Hso) as (c2 & ci2 & Hsw & Hc2 & E2).
      destruct Hsw. f_equal. by eapply Hinj.
  - intros c1 c2 ci1 ci2 H1 H2 E.
    assert (forall c0 ci0, <[c := ci']> (cpus s) !! c0 = Some ci0 ->
      exists ci1, cpus s !! c0 = Some ci1 /\ spc_idleproc ci0 = spc_idleproc ci1) as Hx.
    { intros c0 ci0 H0. destruct (HC c0 ci0 H0) as [[-> ->]|[? ?]]; eauto. }
    destruct (Hx _ _ H1) as (d1 & ? & E1), (Hx _ _ H2) as (d2 & ? & E2). eapply Hidj; eauto; congruence.
  - intros q Hq. simpl. destruct (decide (q = n)) as [-> |]; [by rewrite lookup_insert_eq|].
    rewrite lookup_insert_ne by done. by apply Hall.
Qed.
