(* ===== verification/SchedOps.v ===== *)
(** The operations of the scheduler keep its invariant and do what they are
    for: the switch, the wakeups, the sleeps, the signals and the periodic
    recomputation of priorities. *)

From stdpp Require Import gmap functions.
From S2P Require Import Prelude Sched SchedQueue SchedInv.

(** The runnable processes, most urgent first. *)
Definition ready (s : sched) : list Z := concat (sched_qs s).

Definition cur (s : sched) (c : nat) : option Z := ci_curproc <$> cpus s !! c.

(** * The switch *)

Lemma concat_nil (qs : list (list Z)) : (forall j l, qs !! j = Some l -> l = []) -> concat qs = [].
Proof.
  induction qs as [|l qs IH]; intros H; [done|]. simpl. rewrite (H 0%nat l) by done.
  simpl. apply IH. intros j l' Hj. by apply (H (S j)).
Qed.

Lemma concat_first (qs : list (list Z)) q l l' :
  (forall j lj, (j < q)%nat -> qs !! j = Some lj -> lj = []) -> qs !! q = Some l ->
  exists rest, concat qs = l ++ rest /\ concat (<[q := l']> qs) = l' ++ rest.
Proof.
  intros Hj Hl. exists (concat (drop (S q) qs)).
  assert (concat (take q qs) = []) as Ht.
  { apply concat_nil. intros j lj Hlj. apply lookup_take_Some in Hlj as [? ?]. eauto. }
  rewrite insert_take_drop by (by eapply lookup_lt_Some). rewrite concat_app, Ht. simpl. split; [|done].
  rewrite <- (take_drop_middle qs q l Hl) at 1. by rewrite concat_app, Ht.
Qed.

Lemma ready_nil x m sw s : inv x m sw s -> sched_whichqs s = 0 -> ready s = [].
Proof.
  intros HI H0. apply concat_nil. intros j l Hl. pose proof (q_bits _ _ _ (i_queues _ _ _ _ HI) j l Hl) as Hb.
  rewrite H0, Z.bits_0 in Hb. destruct l; [done|]. by case_bool_decide.
Qed.

(** The first of the ready processes, or the idle process, is current. *)
Definition switched (c : nat) (s s' : sched) : Prop :=
  match ready s with
  | n :: l => cur s' c = Some n /\ ready s' = l
  | [] => (exists ci, cpus s !! c = Some ci /\ cur s' c = spc_idleproc ci) /\ ready s' = []
  end /\
  (forall c', c' <> c -> cur s' c' = cur s c') /\ slpque s' = slpque s /\
  (forall p, cur s' c <> Some p -> core <$> procs s' !! p = core <$> procs s !! p).

Lemma choose_idle m s c ci :
  inv None m (Some c) s -> cpus s !! c = Some ci -> sched_whichqs s = 0 ->
  exists n pr, spc_idleproc ci = Some n /\ procs s !! n = Some pr /\ p_wchan pr = 0 /\
    sched_chooseproc c s = Ret (n, update n (with_stat SRUN pr) s) /\
    inv (Some n) m (Some c) (update n (with_stat SRUN pr) s) /\
    (forall c' ci', cpus s !! c' = Some ci' -> spc_idleproc ci' = Some n -> c' = c).
Proof.
  intros HI Hc H0. destruct (i_idle _ _ _ _ HI c ci Hc) as (n & pr & Hn & Hp & Hw & Ho).
  assert (p_stat pr = SSLEEP) as Hst.
  { destruct Ho as [?|[?|[Hso Hco]]]; [done|done|].
    destruct (i_on _ _ _ _ HI n pr Hp Hso) as (c' & ci' & Hsw & Hc' & E).
    destruct Hsw. f_equal. eapply (i_inj _ _ _ _ HI); eauto. congruence. }
  assert (inv (Some n) m (Some c) s) as HL.
  { eapply inv_limbo; [done|exact Hp|apply rqpos_none; congruence|by apply sqpos_none]. }
  exists n, pr. conj; try done.
  - unfold sched_chooseproc. rewrite H0. simpl. rewrite (cpu_at_eq _ _ _ Hc). simpl. rewrite Hn.
    by rewrite (modify_eq _ _ _ _ Hp).
  - pose proof (i_wf _ _ _ _ HI n pr Hp).
    eapply inv_update; [exact HL|exact Hp|solve_wf|by left| |done|by right; split; [|left]].
    left. split; [done|]. simpl. rewrite Hst. done.
  - intros c' ci' Hc' E. eapply (i_idle_inj _ _ _ _ HI); eauto. congruence.
Qed.

Lemma choose_ready m s c :
  inv None m (Some c) s -> sched_whichqs s <> 0 ->
  exists n pr qs w, let s' := with_runqs qs w s in
    procs s !! n = Some pr /\ p_wchan pr = 0 /\ p_stat pr = SRUN /\ not_idle s n /\
    sched_chooseproc c s = Ret (n, s') /\ inv (Some n) m (Some c) s' /\ ready s = n :: ready s'.
Proof.
  intros HI Hw. destruct (chooseproc_queues _ _ _ (i_queues _ _ _ _ HI) c Hw) as (q & n & l & w & Hj & Hl & Hr & E & HQ).
  unfold limbo in Hr. rewrite decide_False in Hr by done. unfold rpos in Hr.
  destruct (procs s !! n) as [pr|] eqn:Hp; [|done]. simpl in Hr. unfold rqpos in Hr.
  destruct (decide (p_stat pr = SRUN)) as [Hst|]; [|done].
  assert (p_wchan pr = 0) as Hw0.
  { destruct (decide (p_wchan pr = 0)) as [|Hw0]; [done|].
    destruct (i_slp _ _ _ _ HI n pr Hp ltac:(done) Hw0) as [[?|[?|[? _]]] _]; congruence. }
  exists n, pr, (<[q := l]> (sched_qs s)), w. cbv zeta. conj; try done.
  - intros c' ci' Hc' Hi. destruct (i_idle _ _ _ _ HI c' ci' Hc') as (i & pi & Hi' & Hpi & _ & [?|[?|[? _]]]);
      congruence.
  - eapply (inv_requeue_off m (Some c) s); [done..|]. eapply queues_ext; [..|exact HQ]; intros p.
    + apply pos_take.
    + symmetry. apply limbo_pos. unfold spos. rewrite Hp. simpl. by rewrite sqpos_none.
  - destruct (concat_first _ _ _ l Hj Hl) as (rest & E1 & E2). unfold ready. simpl. by rewrite E1, E2.
Qed.

Lemma cur_update c f s ci c' :
  cpus s !! c = Some ci ->
  ci_curproc <$> <[c := f ci]> (cpus s) !! c' = if decide (c' = c) then Some (ci_curproc (f ci)) else cur s c'.
Proof.
  intros Hc. case_decide as E.
  - subst. by rewrite list_lookup_insert_eq by (by eapply lookup_lt_Some).
  - by rewrite list_lookup_insert_ne by done.
Qed.

Lemma harmless_cur s s' c : harmless s s' -> cur s' c = cur s c.
Proof.
  intros H. unfold cur. pose proof (h_place _ _ H c) as E.
  destruct (cpus s !! c), (cpus s' !! c); try done. injection E as E1 E2. simpl. by rewrite E1.
Qed.

Lemma harmless_ready s s' : harmless s s' -> ready s' = ready s.
Proof. intros H. unfold ready. by rewrite (h_runqs _ _ H). Qed.

Lemma switched_harmless c s0 s s1 s' :
  harmless s0 s -> switched c s s1 -> harmless s1 s' -> switched c s0 s'.
Proof.
  intros H0 (Hr & Hc & Hq & Hp) H1. unfold switched.
  rewrite <- (harmless_ready _ _ H0), (harmless_ready _ _ H1), (harmless_cur _ _ c H1). conj.
  - destruct (ready s); [|done]. destruct Hr as [(ci & Hci & E) ?]. split; [|done].
    destruct (harmless_cpu _ _ _ _ H0 Hci) as (ci0 & ? & _ & E'). exists ci0. by rewrite <- E'.
  - intros c' Hne. rewrite (harmless_cur _ _ c' H1), <- (harmless_cur _ _ c' H0). auto.
  - rewrite (h_slpque _ _ H1), Hq. apply H0.
  - intros p Hne. rewrite <- (h_core _ _ H1), Hp by done. symmetry. apply (h_core _ _ H0).
Qed.

(** Making the chosen process current. *)
Lemma switch_to m s c ci n pr :
  inv (Some n) m (Some c) s -> cpus s !! c = Some ci -> procs s !! n = Some pr ->
  p_wchan pr = 0 -> p_stat pr <> SONPROC ->
  (forall c' ci', cpus s !! c' = Some ci' -> spc_idleproc ci' = Some n -> c' = c) ->
  returns (if bool_decide (ci_curproc ci <> n) then cpu_switchto c n s
           else modify (ci_curproc ci) (with_stat SONPROC) s)
    (fun s' => inv None m None s' /\ cur s' c = Some n /\ ready s' = ready s /\ slpque s' = slpque s /\
      (forall c', c' <> c -> cur s' c' = cur s c') /\
      (forall p, p <> n -> procs s' !! p = procs s !! p)).
Proof.
  intros HI Hc Hp Hw Hst Hid. assert (c < length (cpus s))%nat by (by eapply lookup_lt_Some).
  pose proof (i_wf _ _ _ _ HI n pr Hp) as Hwf. case_bool_decide as E.
  - unfold cpu_switchto. rewrite (modify_cpu_eq _ _ _ _ Hc). cbn [bind].
    rewrite (modify_eq n _ _ pr) by done. simpl. conj.
    + eapply (inv_switch m s c ci (set_curproc n ci) n pr); try done. solve_wf. by intros ? [= <-].
    + unfold cur. simpl. by rewrite list_lookup_insert_eq.
    + done.
    + done.
    + intros c' Hne. unfold cur. simpl. by rewrite list_lookup_insert_ne.
    + intros p Hne. by rewrite lookup_insert_ne.
  - rewrite E, (modify_eq n _ _ pr) by done. simpl.
    destruct (i_cur _ _ _ _ HI c ci Hc) as (pr' & Hp' & Hcpu & _). rewrite E, Hp in Hp'. injection Hp' as <-.
    conj; try done.
    + pose proof (inv_switch m s c ci ci n pr (with_stat SONPROC pr) HI Hc Hp Hw Hst Hid E eq_refl eq_refl Hw Hcpu) as HS.
      rewrite list_insert_id in HS by done. unfold update in HS. simpl in HS. apply HS. solve_wf.
    + unfold cur. simpl. rewrite Hc. simpl. by rewrite E.
    + intros p Hne. by rewrite lookup_insert_ne.
Qed.

Lemma mi_switch_ok s c ci :
  inv None None (Some c) s -> cpus s !! c = Some ci ->
  (forall pr, procs s !! ci_curproc ci = Some pr -> p_stat pr <> SONPROC) ->
  returns (mi_switch c s) (fun s' => inv None None None s' /\ switched c s s').
Proof.
  intros HI Hc Hst. unfold mi_switch. rewrite (cpu_at_eq _ _ _ Hc). cbn [bind]. cbv zeta.
  destruct (i_cur _ _ _ _ HI c ci Hc) as (pr & Hp & _). rewrite (proc_at_eq _ _ _ Hp). cbn [bind].
  rewrite bool_decide_eq_false_2 by eauto. apply returns_bind.
  eapply returns_mono; [|by eapply modify_cpu_harmless]. intros s1 H1.
  destruct (lookup_lt_is_Some_2 (cpus s1) c) as [ci1 Hc1].
  { rewrite (h_ncpu _ _ H1). by eapply lookup_lt_Some. }
  destruct (harmless_cpu _ _ _ _ H1 Hc1) as (ci' & Hci' & Ecur & Eid). simplify_eq.
  pose proof (inv_harmless _ _ _ _ _ H1 HI) as HI1. rewrite <- Ecur.
  assert (forall s2 s3, cur s3 c <> None -> harmless s3 s2 -> switched c s1 s3 -> inv None None None s3 ->
    inv None None None s2 /\ switched c s s2) as Hfin.
  { intros s2 s3 _ H3 Hs3 HI3. split; [by eapply inv_harmless|by eapply switched_harmless]. }
  destruct (decide (sched_whichqs s1 = 0)) as [H0|H0].
  - destruct (choose_idle _ _ _ _ HI1 Hc1 H0) as (n & prn & Hn & Hpn & Hwn & -> & HIn & Hin). cbn [bind].
    apply returns_bind. eapply returns_mono; [|eapply (switch_to None _ c ci1 n (with_stat SRUN prn) HIn)]; try done.
    2: { simpl. by rewrite lookup_insert_eq. }
    intros s3 (HI3 & Hcur3 & Hr3 & Hq3 & Hco3 & Hp3). destruct (cpus s3 !! c) as [ci3|] eqn:Hc3;
      [|unfold cur in Hcur3; by rewrite Hc3 in Hcur3].
    eapply returns_mono; [|by eapply modify_cpu_harmless]. intros s4 H4. eapply Hfin; [by rewrite Hcur3|done| |done].
    pose proof (ready_nil _ _ _ _ HI1 H0) as Hr1. unfold switched. rewrite Hr1, Hr3. conj; try done.
    + eexists. split; [exact Hc1|]. congruence.
    + intros p Hne. rewrite Hp3 by congruence. simpl. by rewrite lookup_insert_ne by congruence.
  - destruct (choose_ready _ _ _ HI1 H0) as (n & prn & qs & w & Hpn & Hwn & Hstn & Hnn & -> & HIn & Hrn). cbn [bind].
    apply returns_bind. eapply returns_mono; [|eapply (switch_to None _ c ci1 n prn HIn)]; try done.
    2: { congruence. }
    2: { intros c' ci' Hc' E. by destruct (Hnn c' ci' Hc'). }
    intros s3 (HI3 & Hcur3 & Hr3 & Hq3 & Hco3 & Hp3). destruct (cpus s3 !! c) as [ci3|] eqn:Hc3;
      [|unfold cur in Hcur3; by rewrite Hc3 in Hcur3].
    eapply returns_mono; [|by eapply modify_cpu_harmless]. intros s4 H4. eapply Hfin; [by rewrite Hcur3|done| |done].
    unfold switched. rewrite Hrn, Hr3. conj; try done.
    intros p Hne. by rewrite Hp3 by congruence.
Qed.

(** * Leaving a sleep queue *)

Lemma with_wchan_id pr : p_wchan pr = 0 -> with_wchan 0 pr = pr.
Proof. destruct pr. simpl. by intros ->. Qed.

Lemma inv_unslept x m sw s p pr :
  inv x m sw s -> x = Some p -> procs s !! p = Some pr -> p_stat pr <> SRUN -> not_idle s p ->
  inv None m sw (update p (with_wchan 0 pr) s).
Proof.
  intros HI -> Hp Hst Hni. pose proof (i_wf _ _ _ _ HI p pr Hp).
  assert (inv (Some p) m sw (update p (with_wchan 0 pr) s)) as HI'.
  { eapply inv_update; [exact HI|exact Hp|solve_wf|by left|by left|done|by left]. }
  eapply inv_unlimbo; [exact HI'|simpl; by rewrite lookup_insert_eq|by apply rqpos_none|by apply sqpos_none|exact Hni].
Qed.

(** No queue but its own holds the process. *)
Lemma slpque_filter x m sw s p pr l :
  inv x m sw s -> x = None -> procs s !! p = Some pr -> p_wchan pr <> 0 ->
  slpque s !! Z.to_nat (LOOKUP (p_wchan pr)) = Some l ->
  <[Z.to_nat (LOOKUP (p_wchan pr)) := filter (fun y => y <> p) l]> (slpque s) =
  filter (fun y => y <> p) <$> slpque s.
Proof.
  intros HI -> Hp Hw Hl. apply list_eq. intros q. rewrite list_lookup_fmap.
  destruct (decide (q = Z.to_nat (LOOKUP (p_wchan pr)))) as [-> |Hq].
  - rewrite list_lookup_insert_eq by (by eapply lookup_lt_Some). by rewrite Hl.
  - rewrite list_lookup_insert_ne by done. destruct (slpque s !! q) as [lq|] eqn:Elq; [|done].
    simpl. f_equal. symmetry. apply filter_keep. intros y Hy ->.
    apply (q_slp _ _ _ (i_queues _ _ _ _ HI) q lq Elq) in Hy. unfold limbo, spos in Hy.
    rewrite decide_False, Hp in Hy by done. simpl in Hy. rewrite sqpos_some in Hy by done. congruence.
Qed.

Lemma slpque_filter_out x m sw s p pr :
  inv x m sw s -> procs s !! p = Some pr -> p_wchan pr = 0 ->
  filter (fun y => y <> p) <$> slpque s = slpque s.
Proof.
  intros HI Hp Hw. apply list_eq. intros q. rewrite list_lookup_fmap.
  destruct (slpque s !! q) as [lq|] eqn:Elq; [|done]. simpl. f_equal. apply filter_keep. intros y Hy ->.
  apply (q_slp _ _ _ (i_queues _ _ _ _ HI) q lq Elq) in Hy. unfold limbo, spos in Hy. case_decide; [done|].
  rewrite Hp in Hy. simpl in Hy. by rewrite sqpos_none in Hy.
Qed.

Definition unslept (p : Z) (pr : proc) (s : sched) : sched :=
  update p (with_wchan 0 pr) (with_slpque (filter (fun y => y <> p) <$> slpque s) s).

Lemma unsleep_ok m sw s p pr :
  inv None m sw s -> procs s !! p = Some pr -> not_idle s p ->
  unsleep p s = Ret (unslept p pr s) /\ inv None m sw (unslept p pr s).
Proof.
  intros HI Hp Hni. unfold unsleep, unslept. rewrite (proc_at_eq _ _ _ Hp). cbn [bind].
  destruct (Z.eqb_spec (p_wchan pr) 0) as [E|E].
  - rewrite with_wchan_id, (slpque_filter_out _ _ _ _ _ _ HI Hp E) by done. unfold update. simpl.
    rewrite insert_id by done. by destruct s.
  - destruct (inv_unsleepq _ _ _ _ _ HI Hp E) as (l & Hl & Hr & Hn & Hin & Hst & HI').
    rewrite (aget_Some _ _ l) by (done || lia). cbn [bind]. unfold tailq_remove.
    rewrite bool_decide_eq_true_2 by done. cbn [bind]. rewrite aset_bounds by lia. cbn [bind].
    rewrite (slpque_filter _ _ _ _ _ _ _ HI eq_refl Hp E Hl) in HI' |- *.
    rewrite (modify_eq p _ _ pr) by done. split; [done|]. by eapply inv_unslept.
Qed.

(** * Becoming runnable *)

(** From [s] to [s'], [p] became runnable at the tail of its run queue, and no
    other process or queue changed. *)
Record made_run (p : Z) (s s' : sched) : Prop := {
  mr_self : forall pr, procs s !! p = Some pr -> exists pr', procs s' !! p = Some pr' /\
    core pr' = (SRUN, 0, p_priority pr, p_cpu pr) /\
    forall q l, sched_qs s !! q = Some l -> sched_qs s' !! q =
      Some (if decide (q = Z.to_nat (Z.shiftr (p_priority pr) 2)) then l ++ [p] else l);
  mr_other : forall q, q <> p -> core <$> procs s' !! q = core <$> procs s !! q;
  mr_slp : slpque s' = filter (fun y => y <> p) <$> slpque s;
  mr_place : forall c, place <$> cpus s' !! c = place <$> cpus s !! c;
  mr_ncpu : length (cpus s') = length (cpus s);
  mr_all : allproc s' = allproc s }.

Lemma made_run_harmless p s s1 s2 : made_run p s s1 -> harmless s1 s2 -> made_run p s s2.
Proof.
  intros [Hs Ho Hq Hc Hn Ha] H. split.
  - intros pr Hp. destruct (Hs pr Hp) as (pr1 & Hp1 & E & Hl).
    destruct (harmless_proc _ _ _ _ H Hp1) as (pr2 & Hp2 & E2). exists pr2.
    rewrite (h_runqs _ _ H), E2. auto.
  - intros q Hne. rewrite <- (h_core _ _ H). auto.
  - by rewrite (h_slpque _ _ H).
  - intros c. by rewrite <- (h_place _ _ H).
  - by rewrite (h_ncpu _ _ H).
  - by rewrite (h_all _ _ H).
Qed.

Lemma place_lookup s s' c ci' :
  (forall c, place <$> cpus s' !! c = place <$> cpus s !! c) -> cpus s' !! c = Some ci' ->
  exists ci, cpus s !! c = Some ci /\ ci_curproc ci' = ci_curproc ci /\ spc_idleproc ci' = spc_idleproc ci.
Proof.
  intros H Hc. specialize (H c). rewrite Hc in H. destruct (cpus s !! c) as [ci|]; [|done].
  injection H as E1 E2. eauto.
Qed.

Lemma not_idle_place s s' p :
  (forall c, place <$> cpus s' !! c = place <$> cpus s !! c) -> not_idle s p -> not_idle s' p.
Proof.
  intros H Hni c ci Hc. destruct (place_lookup _ _ _ _ H Hc) as (ci0 & Hc0 & _ & ->). eauto.
Qed.

(** A process that is asleep nowhere and not running is put on its run queue. *)
Lemma make_run m sw s p pr (f : proc -> proc) :
  inv None m sw s -> procs s !! p = Some pr -> p_wchan pr = 0 -> not_idle s p ->
  p_stat pr <> SRUN -> p_stat pr <> SONPROC -> core (f pr) = (SRUN, 0, p_priority pr, p_cpu pr) ->
  (forall n, wf_proc n pr -> wf_proc n (f pr)) ->
  returns (let! s := modify p f s in setrunqueue p s) (fun s' => inv None m sw s' /\ made_run p s s').
Proof.
  intros HI Hp Hw Hni Hr Ho Hcore Hwf. injection Hcore as E1 E2 E3 E4.
  rewrite (modify_eq _ _ _ _ Hp). cbn [bind].
  assert (inv (Some p) m sw (update p (f pr) s)) as HI1.
  { eapply inv_update; [by eapply inv_limbo; eauto using rqpos_none, sqpos_none|done| |by left| | |by left].
    - apply Hwf. by apply (i_wf _ _ _ _ HI p).
    - left. split; [done|]. rewrite E1. split; intros; congruence.
    - by rewrite E4. }
  destruct (inv_setrunqueue _ _ _ p (f pr) HI1) as (l & w & Hl & Hs & HI2); try done.
  { simpl. by rewrite lookup_insert_eq. }
  unfold update in Hs. rewrite Hs. split; [done|]. split; simpl; try done.
  - intros pr0 Hp0. rewrite Hp in Hp0. injection Hp0 as <-. exists (f pr). rewrite lookup_insert_eq. split; [done|].
    split; [unfold core; congruence|]. intros q lq Hq. rewrite E3 in *. simpl in *. case_decide as Eq.
    + subst q. rewrite list_lookup_insert_eq by (by eapply lookup_lt_Some). by simplify_eq.
    + by rewrite list_lookup_insert_ne.
  - intros q Hne. by rewrite lookup_insert_ne.
  - symmetry. by eapply slpque_filter_out.
Qed.

Lemma filter_idem p (qs : list (list Z)) :
  filter (fun y => y <> p) <$> (filter (fun y => y <> p) <$> qs) = filter (fun y => y <> p) <$> qs.
Proof.
  rewrite <- list_fmap_compose. apply list_fmap_ext. intros _ l _. simpl. apply filter_keep.
  intros x Hx. by apply list_elem_of_filter in Hx as [? _].
Qed.

Lemma made_run_unslept p pr s s' :
  procs s !! p = Some pr -> made_run p (unslept p pr s) s' -> made_run p s s'.
Proof.
  intros Hp [Hs Ho Hq Hc Hn Ha]. split; try done.
  - intros pr0 Hp0. rewrite Hp in Hp0. injection Hp0 as <-. destruct (Hs (with_wchan 0 pr)) as (pr' & ? & ? & ?); [|by eauto].
    simpl. by rewrite lookup_insert_eq.
  - intros q Hne. rewrite Ho by done. simpl. by rewrite lookup_insert_ne.
  - rewrite Hq. simpl. apply filter_idem.
Qed.

Lemma harmless_made_run p s s1 s2 : harmless s s1 -> made_run p s1 s2 -> made_run p s s2.
Proof.
  intros H [Hs Ho Hq Hc Hn Ha]. split.
  - intros pr Hp. destruct (harmless_proc _ _ _ _ H Hp) as (pr1 & Hp1 & E).
    injection E as _ _ E3 E4. destruct (Hs pr1 Hp1) as (pr2 & Hp2 & E & Hl). exists pr2.
    rewrite <- E3, <- E4, <- (h_runqs _ _ H). auto.
  - intros q Hne. rewrite Ho by done. symmetry. apply (h_core _ _ H).
  - by rewrite Hq, (h_slpque _ _ H).
  - intros c. rewrite Hc. symmetry. apply (h_place _ _ H).
  - by rewrite Hn, (h_ncpu _ _ H).
  - by rewrite Ha, (h_all _ _ H).
Qed.

(** * Waking sleepers *)

Definition wake_proc (pr : proc) : proc :=
  with_wchan 0 (if bool_decide (p_stat pr = SSLEEP) then with_stat SRUN pr else pr).

(** [p] is asleep and belongs on run queue [q]. *)
Definition wakes (s : sched) (q : nat) (p : Z) : bool :=
  match procs s !! p with
  | Some pr => bool_decide (p_stat pr = SSLEEP) && bool_decide (q = Z.to_nat (Z.shiftr (p_priority pr) 2))
  | None => false
  end.

(** From [s] to [s'] the processes [ts] were taken off the sleep queues; those
    of them that were asleep, not stopped, went to the tails of their run
    queues in this order; nothing else changed. *)
Record woken (ts : list Z) (s s' : sched) : Prop := {
  wk_proc : forall p, core <$> procs s' !! p =
    (fun pr => core (if bool_decide (p ∈ ts) then wake_proc pr else pr)) <$> procs s !! p;
  wk_run : forall q l, sched_qs s !! q = Some l ->
    sched_qs s' !! q = Some (l ++ filter (fun p => wakes s q p = true) ts);
  wk_slp : slpque s' = filter (fun p => p ∉ ts) <$> slpque s;
  wk_place : forall c, place <$> cpus s' !! c = place <$> cpus s !! c;
  wk_ncpu : length (cpus s') = length (cpus s);
  wk_all : allproc s' = allproc s }.

Lemma filter_same (P Q : Z -> Prop) `{!forall x, Decision (P x)} `{!forall x, Decision (Q x)} (l : list Z) :
  (forall x, x ∈ l -> P x <-> Q x) -> filter P l = filter Q l.
Proof.
  induction l as [|x l IH]; intros HPQ; [done|]. rewrite !filter_cons.
  assert (P x <-> Q x) as Hx by (apply HPQ; left). rewrite IH by (intros y Hy; apply HPQ; by right).
  repeat case_decide; tauto.
Qed.

Lemma core_wake pr1 pr2 : core pr1 = core pr2 -> core (wake_proc pr1) = core (wake_proc pr2).
Proof. unfold core, wake_proc. intros [= E0 _ E1 E2]. rewrite E0. case_bool_decide; simpl; congruence. Qed.

Lemma woken_nil s : woken [] s s.
Proof.
  split; try done.
  - intros q l Hl. by rewrite app_nil_r.
  - symmetry. rewrite <- (list_fmap_id (slpque s)) at 2. apply list_fmap_ext. intros _ l _. simpl.
    induction l as [|x l IH]; [done|]. rewrite filter_cons_True by set_solver. by rewrite IH.
Qed.

Lemma made_run_woken p pr s s' :
  procs s !! p = Some pr -> p_stat pr = SSLEEP -> made_run p s s' -> woken [p] s s'.
Proof.
  intros Hp Hst [Hs Ho Hq Hc Hn Ha]. destruct (Hs pr Hp) as (pr' & Hp' & E & Hrun). split; try done.
  - intros q. destruct (decide (q = p)) as [-> |Hne].
    + rewrite Hp, Hp'. simpl. rewrite bool_decide_eq_true_2 by set_solver. unfold wake_proc.
      rewrite bool_decide_eq_true_2 by done. by rewrite E.
    + rewrite Ho by done. rewrite bool_decide_eq_false_2 by set_solver. done.
  - intros q l Hl. rewrite (Hrun q l Hl). unfold filter; simpl. unfold wakes. rewrite Hp.
    rewrite (bool_decide_eq_true_2 (p_stat pr = SSLEEP)) by done. simpl.
    case_decide.
    + by rewrite bool_decide_eq_true_2 by done.
    + rewrite bool_decide_eq_false_2 by done. by rewrite app_nil_r.
  - rewrite Hq. apply list_fmap_ext. intros _ l _. apply list_filter_iff. set_solver.
Qed.

Lemma unslept_woken p pr s :
  procs s !! p = Some pr -> p_stat pr <> SSLEEP -> woken [p] s (unslept p pr s).
Proof.
  intros Hp Hst. split; try done.
  - intros q. simpl. destruct (decide (q = p)) as [-> |Hne].
    + rewrite Hp, lookup_insert_eq. simpl. rewrite bool_decide_eq_true_2 by set_solver. unfold wake_proc.
      by rewrite bool_decide_eq_false_2 by done.
    + rewrite lookup_insert_ne by done. by rewrite bool_decide_eq_false_2 by set_solver.
  - intros q l Hl. simpl. rewrite Hl. unfold filter; simpl. unfold wakes. rewrite Hp.
    rewrite (bool_decide_eq_false_2 (p_stat pr = SSLEEP)) by done. simpl. by rewrite app_nil_r.
  - simpl. apply list_fmap_ext. intros _ l _. apply list_filter_iff. set_solver.
Qed.

Lemma woken_cons p ts s s1 s2 : woken [p] s s1 -> woken ts s1 s2 -> p ∉ ts -> woken (p :: ts) s s2.
Proof.
  intros H1 H2 Hnin. split.
  - intros q. rewrite (wk_proc _ _ _ H2). pose proof (wk_proc _ _ _ H1 q) as E.
    destruct (procs s !! q) as [pr|], (procs s1 !! q) as [pr1|]; try done. simpl in *. f_equal. apply (inj Some) in E.
    destruct (decide (q = p)) as [-> |Hne].
    + rewrite (bool_decide_eq_false_2 (p ∈ ts)), (bool_decide_eq_true_2 (p ∈ p :: ts)) by set_solver.
      by rewrite bool_decide_eq_true_2 in E by set_solver.
    + rewrite bool_decide_eq_false_2 in E by set_solver.
      rewrite (bool_decide_ext (q ∈ p :: ts) (q ∈ ts)) by set_solver.
      case_bool_decide; [by apply core_wake|done].
  - intros q l Hl. pose proof (wk_run _ _ _ H1 q l Hl) as E1. rewrite (wk_run _ _ _ H2 _ _ E1), <- app_assoc.
    f_equal. f_equal. change (p :: ts) with ([p] ++ ts). rewrite filter_app. f_equal.
    apply filter_same. intros x Hx.
    pose proof (wk_proc _ _ _ H1 x) as E. rewrite bool_decide_eq_false_2 in E by set_solver.
    unfold wakes. destruct (procs s !! x), (procs s1 !! x); try done. injection E as -> _ -> _. done.
  - rewrite (wk_slp _ _ _ H2), (wk_slp _ _ _ H1), <- list_fmap_compose. apply list_fmap_ext. intros _ l _. simpl.
    rewrite list_filter_filter. apply list_filter_iff. set_solver.
  - intros c. by rewrite (wk_place _ _ _ H2), (wk_place _ _ _ H1).
  - by rewrite (wk_ncpu _ _ _ H2), (wk_ncpu _ _ _ H1).
  - by rewrite (wk_all _ _ _ H2), (wk_all _ _ _ H1).
Qed.

Section ops.
Context (ldavg : Z) (curc : nat).
Hypothesis Hld : 0 <= ldavg < 2 ^ 25.

(** What follows [setrunqueue] in [setrunnable] does not matter to the queues. *)
Lemma run_tail s p pr :
  sane s -> procs s !! p = Some pr -> (curc < length (cpus s))%nat ->
  returns (let! pr := proc_at s p in
           let! s := (if 1 <? p_slptime pr then updatepri ldavg curc p s else Ret s) in
           let! s := modify p (with_slptime 0) s in
           let! pr := proc_at s p in
           resched_proc curc p (p_priority pr) s) (harmless s).
Proof.
  intros HS Hp Hc. rewrite (proc_at_eq _ _ _ Hp). cbn [bind]. apply returns_then.
  - case_if; boolify; [by eapply updatepri_harmless|]. simpl. reflexivity.
  - intros s1 H1. destruct (harmless_proc _ _ _ _ H1 Hp) as (pr1 & Hp1 & _). apply returns_then.
    + eapply modify_harmless; [done..|]. intros n ?. solve_wf.
    + intros s2 H2. destruct (harmless_proc _ _ _ _ H2 Hp1) as (pr2 & Hp2 & _).
      rewrite (proc_at_eq _ _ _ Hp2). cbn [bind]. eapply resched_proc_harmless; [|done|].
      * eapply harmless_sane, harmless_sane; eauto.
      * by rewrite (h_ncpu _ _ H2), (h_ncpu _ _ H1).
Qed.

Lemma run_asleep m sw s p pr :
  inv None m sw s -> procs s !! p = Some pr -> not_idle s p -> (curc < length (cpus s))%nat ->
  p_stat pr <> SRUN -> p_stat pr <> SONPROC ->
  returns (let! s := unsleep p s in
           let! s := modify p (with_stat SRUN) s in
           let! s := setrunqueue p s in
           let! pr := proc_at s p in
           let! s := (if 1 <? p_slptime pr then updatepri ldavg curc p s else Ret s) in
           let! s := modify p (with_slptime 0) s in
           let! pr := proc_at s p in
           resched_proc curc p (p_priority pr) s) (fun s' => inv None m sw s' /\ made_run p s s').
Proof.
  intros HI Hp Hni Hc Hr Ho. destruct (unsleep_ok _ _ _ _ _ HI Hp Hni) as [-> HI1]. cbn [bind].
  assert (procs (unslept p pr s) !! p = Some (with_wchan 0 pr)) as Hp1
    by (simpl; by rewrite lookup_insert_eq).
  pose proof (make_run m sw _ p _ (with_stat SRUN) HI1 Hp1) as HM.
  rewrite (modify_eq _ _ _ _ Hp1) in HM |- *. cbn [bind] in HM |- *. apply returns_bind.
  eapply returns_mono; [|apply HM; try done].
  - intros s2 [HI2 M2]. destruct (mr_self _ _ _ M2 _ Hp1) as (pr2 & Hp2 & _).
    eapply returns_mono; [|eapply run_tail; [by eapply inv_sane|done|]].
    + intros s3 H3. split; [by eapply inv_harmless|]. eapply made_run_harmless; [|done].
      by eapply made_run_unslept.
    + by rewrite (mr_ncpu _ _ _ M2).
Qed.

Lemma unsleep_none p s pr : procs s !! p = Some pr -> p_wchan pr = 0 -> unsleep p s = Ret s.
Proof. intros Hp Hw. unfold unsleep. rewrite (proc_at_eq _ _ _ Hp). simpl. by rewrite Hw. Qed.

Lemma setrunnable_ok m sw s p pr :
  inv None m sw s -> procs s !! p = Some pr -> not_idle s p -> (curc < length (cpus s))%nat ->
  p_stat pr = SSLEEP \/ p_stat pr = SSTOP \/ p_stat pr = SIDL ->
  returns (setrunnable ldavg curc p s) (fun s' => inv None m sw s' /\ made_run p s s').
Proof.
  intros HI Hp Hni Hc Hst. unfold setrunnable. rewrite (proc_at_eq _ _ _ Hp). cbn [bind].
  destruct Hst as [E|[E|E]]; rewrite E.
  - apply (run_asleep _ _ _ _ _ HI Hp); congruence || done.
  - case_if; [|apply (run_asleep _ _ _ _ _ HI Hp); congruence || done].
    pose proof (modify_harmless p (fun pr => with_siglist (setbits (p_siglist pr) (sigmask (p_xstat pr))) pr) s pr Hp
      eq_refl ltac:(intros; solve_wf)) as H1.
    rewrite (modify_eq _ _ _ _ Hp) in H1 |- *. cbn [bind returns] in H1 |- *.
    eapply returns_mono; [|eapply run_asleep; [by eapply inv_harmless|simpl; by rewrite lookup_insert_eq|..]];
      simpl; try done; try congruence.
    intros s2 [HI2 M2]. split; [done|]. by eapply harmless_made_run.
  - assert (p_wchan pr = 0) as Hw.
    { destruct (decide (p_wchan pr = 0)) as [|Hw]; [done|].
      destruct (i_slp _ _ _ _ HI p pr Hp ltac:(done) Hw) as [[?|[?|[? _]]] _]; congruence. }
    rewrite <- (unsleep_none _ _ _ Hp Hw). apply (run_asleep _ _ _ _ _ HI Hp); congruence || done.
Qed.

Lemma sleeper_not_idle m sw s p pr :
  inv None m sw s -> procs s !! p = Some pr -> p_wchan pr <> 0 -> not_idle s p.
Proof.
  intros HI Hp Hw c ci Hc E. destruct (i_idle _ _ _ _ HI c ci Hc) as (i & pi & Hi & Hpi & Hwi & _). congruence.
Qed.

(** The queue operations at the head of [wakeup_one] are those of [unsleep]. *)
Lemma wakeup_one_unslept m sw s p pr :
  inv None m sw s -> procs s !! p = Some pr -> p_wchan pr <> 0 ->
  wakeup_one ldavg curc (p_wchan pr) p s =
  let s := unslept p pr s in
  if bool_decide (p_stat pr = SSLEEP) then
    let! s := (if 1 <? p_slptime pr then updatepri ldavg curc p s else Ret s) in
    let! s := modify p (fun pr => with_stat SRUN (with_slptime 0 pr)) s in
    let! s := setrunqueue p s in
    let! pr := proc_at s p in
    match p_cpu pr with None => Panic "p->p_cpu != NULL" | Some c => need_resched c s end
  else Ret s.
Proof.
  intros HI Hp Hw. unfold wakeup_one. rewrite (modify_eq _ _ _ _ Hp). cbn [bind].
  destruct (inv_unsleepq _ _ _ _ _ HI Hp Hw) as (l & Hl & Hr & Hn & Hin & _).
  rewrite (aget_Some _ _ l) by (done || lia). cbn [bind]. unfold tailq_remove.
  rewrite bool_decide_eq_true_2 by done. cbn [bind]. rewrite aset_bounds by (simpl; lia). cbn [bind].
  change (slpque (with_procs _ s)) with (slpque s).
  rewrite (slpque_filter _ _ _ _ _ _ _ HI eq_refl Hp Hw Hl).
  change (with_slpque _ (with_procs _ s)) with (unslept p pr s). cbv zeta.
  rewrite (proc_at_eq p (unslept p pr s) (with_wchan 0 pr)) by (simpl; by rewrite lookup_insert_eq). done.
Qed.

Lemma wakeup_one_ok s p pr :
  inv None None None s -> procs s !! p = Some pr -> p_wchan pr <> 0 -> (curc < length (cpus s))%nat ->
  returns (wakeup_one ldavg curc (p_wchan pr) p s) (fun s' => inv None None None s' /\ woken [p] s s').
Proof.
  intros HI Hp Hw Hc. rewrite (wakeup_one_unslept _ _ _ _ _ HI Hp Hw). cbv zeta.
  pose proof (sleeper_not_idle _ _ _ _ _ HI Hp Hw) as Hni.
  destruct (unsleep_ok _ _ _ _ _ HI Hp Hni) as [_ HI1].
  destruct (i_slp _ _ _ _ HI p pr Hp ltac:(done) Hw) as [_ [cp Hcp]].
  case_bool_decide as Hst; [|split; [done|by apply unslept_woken]].
  assert (procs (unslept p pr s) !! p = Some (with_wchan 0 pr)) as Hp1 by (simpl; by rewrite lookup_insert_eq).
  apply returns_bind. eapply (returns_mono _ (harmless (unslept p pr s))).
  2: { case_if; boolify; [eapply (updatepri_harmless ldavg Hld); [by eapply inv_sane|done..]|]. simpl. reflexivity. }
  intros s2 H2. pose proof (inv_harmless _ _ _ _ _ H2 HI1) as HI2.
  destruct (harmless_proc _ _ _ _ H2 Hp1) as (pr2 & Hp2 & E2). injection E2 as Es Ew Ep Ecp.
  pose proof (make_run None None s2 p pr2 (fun pr => with_stat SRUN (with_slptime 0 pr)) HI2 Hp2) as HM.
  rewrite (modify_eq _ _ _ _ Hp2) in HM |- *. cbn [bind] in HM |- *. apply returns_bind.
  eapply returns_mono; [|apply HM; try done; try congruence].
  - intros s3 [HI3 M3]. destruct (mr_self _ _ _ M3 _ Hp2) as (pr3 & Hp3 & E3 & _). injection E3 as _ _ _ E3.
    rewrite (proc_at_eq _ _ _ Hp3). cbn [bind]. rewrite E3, Ecp. simpl. rewrite Hcp.
    eapply returns_mono; [|apply need_resched_harmless; [by eapply inv_sane|]].
    + intros s4 H4. split; [by eapply inv_harmless|]. eapply made_run_woken; [done..|].
      eapply made_run_harmless; [|done]. eapply made_run_unslept; [done|]. by eapply harmless_made_run.
    + rewrite (mr_ncpu _ _ _ M3), (h_ncpu _ _ H2). simpl.
      by apply (i_wf _ _ _ _ HI p pr Hp).
  - eapply not_idle_place; [|exact Hni]. intros c. by rewrite <- (h_place _ _ H2).
  - unfold core. simpl. by rewrite Ew.
  - intros n ?. solve_wf.
Qed.

Definition on_chan (s : sched) (ident p : Z) : bool :=
  match procs s !! p with Some pr => p_wchan pr =? ident | None => false end.

(** [n] processes, or all of them when [n] is negative. *)
Definition first_n (n : Z) (l : list Z) : list Z := if n <? 0 then l else take (Z.to_nat n) l.

Lemma first_n_elem n l x : x ∈ first_n n l -> x ∈ l.
Proof.
  unfold first_n. case_if; [done|]. intros H. rewrite <- (take_drop (Z.to_nat n) l), elem_of_app. by left.
Qed.

Lemma first_n_cons n x l :
  n <> 0 -> - 2 ^ 31 < n -> n < 2 ^ 31 -> first_n n (x :: l) = x :: first_n (s32 (n - 1)) l.
Proof.
  intros H0 H1 H2. assert (s32 (n - 1) = n - 1) as ->.
  { unfold s32, swrap. rewrite wrap_small by (unfold is_u; lia). lia. }
  unfold first_n. destruct (Z.ltb_spec n 0), (Z.ltb_spec (n - 1) 0); try lia; [done|].
  replace (Z.to_nat n) with (S (Z.to_nat (n - 1))) by lia. done.
Qed.

Lemma wakeup_loop_ok ident rest n s :
  inv None None None s -> (curc < length (cpus s))%nat -> NoDup rest ->
  (forall p, p ∈ rest -> exists pr, procs s !! p = Some pr /\ p_wchan pr <> 0) ->
  - 2 ^ 31 + Z.of_nat (length rest) <= n < 2 ^ 31 ->
  returns (wakeup_loop ldavg curc ident rest n s) (fun s' => inv None None None s' /\
    woken (first_n n (filter (fun p => on_chan s ident p = true) rest)) s s').
Proof.
  revert n s. induction rest as [|p rest IH]; intros n s HI Hc Hnd Hin Hn.
  { simpl. split; [done|]. replace (first_n n _) with (@nil Z); [apply woken_nil|].
    unfold first_n. case_if; [done|]. by destruct (Z.to_nat n). }
  cbn [wakeup_loop]. apply NoDup_cons in Hnd as [Hp Hnd]. cbn [length] in Hn.
  destruct (Z.eqb_spec n 0) as [-> |Hn0]; [simpl; split; [done|apply woken_nil]|].
  destruct (Hin p ltac:(left)) as (pr & Hpr & Hw). rewrite (proc_at_eq _ _ _ Hpr). cbn [bind].
  destruct (i_slp _ _ _ _ HI p pr Hpr ltac:(done) Hw) as [Hst _].
  assert (negb (bool_decide (p_stat pr = SSLEEP)) && negb (bool_decide (p_stat pr = SSTOP)) = false) as ->.
  { destruct Hst as [-> |[-> |[_ ?]]]; done. }
  assert (on_chan s ident p = (p_wchan pr =? ident)) as Hch by (unfold on_chan; by rewrite Hpr).
  rewrite filter_cons, Hch. destruct (Z.eqb_spec (p_wchan pr) ident) as [E|E].
  - rewrite decide_True by done. rewrite first_n_cons by lia. subst ident. apply returns_bind.
    eapply returns_mono; [|by eapply wakeup_one_ok]. intros s1 [HI1 W1].
    assert (forall q, q ∈ rest -> core <$> procs s1 !! q = core <$> procs s !! q) as Hsame.
    { intros q Hq. rewrite (wk_proc _ _ _ W1). rewrite bool_decide_eq_false_2 by set_solver. done. }
    eapply returns_mono; [|apply IH; try done].
    + intros s2 [HI2 W2]. split; [done|]. eapply woken_cons; [done| |].
      * erewrite filter_same; [exact W2|]. intros q Hq. cbv beta. specialize (Hsame q Hq). unfold on_chan.
        destruct (procs s !! q), (procs s1 !! q); try done. injection Hsame as _ -> _ _. done.
      * intros Hx. apply first_n_elem, list_elem_of_filter in Hx as [_ ?]. done.
    + by rewrite (wk_ncpu _ _ _ W1).
    + intros q Hq. destruct (Hin q ltac:(by right)) as (prq & Hprq & Hwq). specialize (Hsame q Hq).
      rewrite Hprq in Hsame. destruct (procs s1 !! q) as [pr1|]; [|done]. exists pr1. split; [done|].
      injection Hsame as _ -> _ _. done.
    + unfold s32, swrap. rewrite wrap_small by (unfold is_u; lia). lia.
  - rewrite decide_False by done. apply IH; try done; [|lia]. intros q Hq. apply Hin. by right.
Qed.

(** The counter of [wakeup_n] does not wrap around. *)
Definition short (s : sched) : Prop :=
  forall q, Z.of_nat (length (default [] (slpque s !! q))) < 2 ^ 31.

Lemma wakeup_n_ok ident n s :
  inv None None None s -> (curc < length (cpus s))%nat -> short s -> -1 <= n < 2 ^ 31 ->
  exists l, slpque s !! Z.to_nat (LOOKUP ident) = Some l /\
  returns (wakeup_n ldavg curc ident n s) (fun s' => inv None None None s' /\
    woken (first_n n (filter (fun p => on_chan s ident p = true) l)) s s').
Proof.
  intros HI Hc Hlen Hn. pose proof (i_queues _ _ _ _ HI) as HQ.
  destruct (queues_slp_lookup _ _ _ HQ ident) as (l & Hl & Hr). exists l. split; [done|].
  unfold wakeup_n. rewrite (aget_Some _ _ l) by (done || lia). cbn [bind].
  destruct (q_slp _ _ _ HQ _ _ Hl) as [Hnd Hmem]. specialize (Hlen (Z.to_nat (LOOKUP ident))).
  rewrite Hl in Hlen. simpl in Hlen. apply wakeup_loop_ok; try done.
  - intros p Hp. apply Hmem in Hp. unfold limbo, spos in Hp. rewrite decide_False in Hp by done.
    destruct (procs s !! p) as [pr|]; [|done]. exists pr. split; [done|]. simpl in Hp. intros E.
    by rewrite sqpos_none in Hp.
  - lia.
Qed.
End ops.
