(* ===== verification/SchedStep.v ===== *)
(** Every operation of the scheduler, called as the kernel calls it, returns
    and keeps the invariant. *)

From stdpp Require Import gmap functions.
From S2P Require Import Prelude Sched SchedQueue SchedInv SchedOps.

(** What holds whenever the scheduler lock is free. *)
Definition rest (s : sched) : Prop := inv None None None s.

Lemma inv_set_m x sw s m : inv x None sw s -> inv x m sw s.
Proof.
  intros [? ? Hslp ? ? ? ? ? ?]. split; try done. intros p pr Hp Hx Hw.
  destruct (Hslp p pr Hp Hx Hw) as [[?|[?|[_ ?]]] ?]; [auto..|done].
Qed.

Lemma inv_drop_m x p sw s :
  inv x (Some p) sw s -> (forall pr, procs s !! p = Some pr -> p_wchan pr = 0 \/ p_stat pr <> SONPROC) ->
  inv x None sw s.
Proof.
  intros [? ? Hslp ? ? ? ? ? ?] Hp. split; try done. intros q pr Hq Hx Hw.
  destruct (Hslp q pr Hq Hx Hw) as [[?|[?|[? [= ->]]]] ?]; [auto..|].
  destruct (Hp pr Hq); done.
Qed.

Lemma running s c ci :
  rest s -> cpus s !! c = Some ci ->
  exists pr, procs s !! ci_curproc ci = Some pr /\ p_stat pr = SONPROC /\ p_wchan pr = 0 /\ is_Some (p_cpu pr).
Proof.
  intros HI Hc. destruct (i_cur _ _ _ _ HI c ci Hc) as (pr & Hp & Hcpu & Hst). exists pr.
  specialize (Hst ltac:(done)). conj; try done. destruct (decide (p_wchan pr = 0)) as [|Hw]; [done|].
  destruct (i_slp _ _ _ _ HI _ pr Hp ltac:(done) Hw) as [[?|[?|[_ ?]]] _]; congruence.
Qed.

(** * Going to sleep *)

Definition setup_proc (ident prio : Z) (pr : proc) : proc :=
  with_priority (Z.land prio PRIMASK) (with_slptime 0 (with_wchan ident pr)).

Lemma sleep_setup_ok s c ci ident prio :
  rest s -> cpus s !! c = Some ci -> not_idle s (ci_curproc ci) -> ident <> 0 ->
  0 <= Z.land prio PRIMASK <= MAXPRI ->
  exists pr s', sleep_setup c ident prio s = Ret (mksls false true 1, s') /\
    inv None (Some (ci_curproc ci)) None s' /\ cpus s' = cpus s /\
    procs s !! ci_curproc ci = Some pr /\ procs s' !! ci_curproc ci = Some (setup_proc ident prio pr) /\
    p_stat pr = SONPROC.
Proof.
  intros HI Hc Hni Hid Hprio. destruct (running s c ci HI Hc) as (pr & Hp & Hst & Hw & Hcpu).
  set (p := ci_curproc ci) in *. pose proof (i_wf _ _ _ _ HI p pr Hp) as Hwf.
  assert (inv (Some p) (Some p) None (update p (setup_proc ident prio pr) s)) as HI1.
  { eapply inv_update; [eapply inv_set_m, inv_limbo; [exact HI|exact Hp|..]|exact Hp| |by left|by left|done|by left].
    - apply rqpos_none. congruence.
    - by apply sqpos_none.
    - unfold setup_proc. solve_wf. }
  destruct (inv_sleepq (Some p) None _ p (setup_proc ident prio pr) HI1) as (l & Hl & Hr & Hn & Hln & HI2); try done.
  { simpl. by rewrite lookup_insert_eq. }
  { simpl. congruence. }
  { intros _. simpl. split; [auto|done]. }
  exists pr. eexists. split; [|split; [exact HI2|]].
  - unfold sleep_setup. rewrite (cpu_at_eq _ _ _ Hc). cbn [bind]. fold p. rewrite (proc_at_eq _ _ _ Hp). cbn [bind].
    destruct (Z.eqb_spec ident 0); [done|]. rewrite bool_decide_eq_true_2 by done. cbn [negb].
    rewrite (modify_eq _ _ _ _ Hp). cbn [bind]. change (with_procs _ s) with (update p (setup_proc ident prio pr) s).
    simpl in Hl, Hr, Hn. rewrite (aget_Some _ _ l) by (done || lia). cbn [bind]. unfold tailq_insert_tail.
    rewrite Hln. cbn [bind]. rewrite aset_bounds by (simpl; lia). done.
  - simpl. rewrite lookup_insert_eq. done.
Qed.

Lemma harmless_cur_cpu s s' c ci :
  harmless s s' -> cpus s !! c = Some ci ->
  exists ci', cpus s' !! c = Some ci' /\ ci_curproc ci' = ci_curproc ci /\ spc_idleproc ci' = spc_idleproc ci.
Proof.
  intros H Hc. pose proof (h_place _ _ H c) as E. rewrite Hc in E. destruct (cpus s' !! c) as [ci'|]; [|done].
  injection E as E1 E2. eauto.
Qed.

(** Off the CPU, asleep or stopped, with everything else as it is. *)
Lemma leave_cpu s c ci p pr (f : proc -> proc) :
  inv None (Some p) None s -> cpus s !! c = Some ci -> ci_curproc ci = p -> procs s !! p = Some pr ->
  not_idle s p -> p_stat pr = SONPROC -> is_Some (p_cpu pr) ->
  p_stat (f pr) = SSLEEP \/ p_stat (f pr) = SSTOP -> p_wchan (f pr) = p_wchan pr -> p_cpu (f pr) = p_cpu pr ->
  (forall n, wf_proc n pr -> wf_proc n (f pr)) ->
  returns (let! s := modify p f s in mi_switch c s) rest.
Proof.
  intros HI Hc Hcur Hp Hni Hst Hcpu Hf Hw Hcp Hwf. rewrite (modify_eq _ _ _ _ Hp). cbn [bind].
  assert (p_stat (f pr) <> SONPROC /\ p_stat (f pr) <> SRUN) as [Hf1 Hf2] by (destruct Hf as [-> | ->]; done).
  eapply returns_mono; [|eapply mi_switch_ok; [|exact Hc|]]; [by intros s' [? _]| |].
  - eapply (inv_drop_m None p).
    + eapply inv_update; [exact HI|exact Hp|apply Hwf, (i_wf _ _ _ _ HI p pr Hp)|right| | |by left].
      * split; [rewrite !rqpos_none by congruence; done|]. split; [unfold sqpos; by rewrite Hw|].
        intros _. split; [tauto|]. by rewrite Hcp.
      * right. exists c, ci. done.
      * by rewrite Hcp.
    + intros pr' Hpr'. right. simpl in Hpr'. rewrite lookup_insert_eq in Hpr'. by injection Hpr' as <-.
  - intros pr' Hpr'. simpl in Hpr'. rewrite Hcur, lookup_insert_eq in Hpr'. by injection Hpr' as <-.
Qed.

Lemma setup_harmless s c ci p :
  inv None (Some p) None s -> cpus s !! c = Some ci -> ci_curproc ci = p ->
  exists pr, procs s !! p = Some pr /\ harmless s (update p (with_flag (setbits (p_flag pr) P_SINTR) pr) s) /\
    modify p (fun pr => with_flag (setbits (p_flag pr) P_SINTR) pr) s =
      Ret (update p (with_flag (setbits (p_flag pr) P_SINTR) pr) s).
Proof.
  intros HI Hc E. destruct (i_cur _ _ _ _ HI c ci Hc) as (pr & Hp & _). rewrite E in Hp. exists pr. split; [done|].
  pose proof (modify_harmless p (fun pr => with_flag (setbits (p_flag pr) P_SINTR) pr) s pr Hp eq_refl
    ltac:(intros; solve_wf)) as H. rewrite (modify_eq _ _ _ _ Hp) in H |- *. done.
Qed.

Lemma unsleep_rest p s pr :
  inv None (Some p) None s -> procs s !! p = Some pr -> not_idle s p -> returns (unsleep p s) rest.
Proof.
  intros HI Hp Hni. destruct (unsleep_ok _ _ _ _ _ HI Hp Hni) as [-> HI']. simpl.
  eapply inv_drop_m; [exact HI'|]. intros pr'. simpl. rewrite lookup_insert_eq. intros [= <-]. by left.
Qed.

Lemma sleep_finish_ok s c ci p pr sls do_sleep :
  inv None (Some p) None s -> cpus s !! c = Some ci -> ci_curproc ci = p -> procs s !! p = Some pr ->
  not_idle s p -> p_stat pr = SONPROC -> is_Some (p_cpu pr) ->
  sls_do_sleep sls = negb (p_wchan pr =? 0) -> returns (sleep_finish c sls do_sleep s) rest.
Proof.
  intros HI Hc E Hp Hni Hst Hcpu Hs. unfold sleep_finish. rewrite (cpu_at_eq _ _ _ Hc). cbn [bind]. cbv zeta.
  rewrite E, Hs. destruct do_sleep; rewrite ?andb_true_r, ?andb_false_r; cbn [negb].
  - destruct (Z.eqb_spec (p_wchan pr) 0) as [Hw|Hw]; cbn [negb].
    + simpl. eapply inv_drop_m; [exact HI|]. intros pr' Hp'. left. congruence.
    + eapply leave_cpu; try done. by left.
  - by eapply unsleep_rest.
Qed.

Lemma tsleep_ok s c ci ident prio sig do_sleep :
  rest s -> cpus s !! c = Some ci -> not_idle s (ci_curproc ci) -> ident <> 0 ->
  0 <= Z.land prio PRIMASK <= MAXPRI -> returns (tsleep c ident prio sig do_sleep s) rest.
Proof.
  intros HI Hc Hni Hid Hprio. destruct (sleep_setup_ok s c ci ident prio HI Hc Hni Hid Hprio)
    as (pr & s1 & E & HI1 & Ec & Hp & Hp1 & Hst).
  unfold tsleep. rewrite E. cbn [bind]. clear E. set (p := ci_curproc ci) in *. rewrite <- Ec in Hc.
  assert (not_idle s1 p) as Hni1 by (intros c' ci' H'; rewrite Ec in H'; by eapply Hni).
  assert (is_Some (p_cpu pr)) as Hcpu.
  { destruct (i_cur _ _ _ _ HI1 c ci Hc) as (pr' & Hp' & Hx & _). fold p in Hp'. rewrite Hp1 in Hp'. by injection Hp' as <-. }
  unfold sleep_setup_signal. case_if.
  { cbn [bind]. eapply sleep_finish_ok; try done. simpl. destruct (Z.eqb_spec ident 0); done. }
  rewrite (cpu_at_eq _ _ _ Hc). cbn [bind]. fold p.
  destruct (setup_harmless s1 c ci p HI1 Hc eq_refl) as (pr1 & Hp1' & H2 & ->). simplify_eq. cbn [bind].
  set (pr2 := with_flag _ _) in *. pose proof (inv_harmless _ _ _ _ _ H2 HI1) as HI2.
  assert (procs (update p pr2 s1) !! p = Some pr2) as Hp2 by (simpl; by rewrite lookup_insert_eq).
  assert (p_wchan pr2 = ident) as Hw2 by done.
  rewrite (proc_at_eq _ _ _ Hp2). cbn [bind]. rewrite Hw2. destruct (Z.eqb_spec ident 0) as [|_]; [done|].
  destruct (sig =? 0); cbn [negb bind].
  - eapply sleep_finish_ok; try done. simpl. destruct (Z.eqb_spec ident 0); done.
  - destruct (unsleep_ok _ _ _ _ _ HI2 Hp2 Hni1) as [-> HI3]. cbn [bind].
    set (s3 := unslept p pr2 _) in *. assert (procs s3 !! p = Some (with_wchan 0 pr2)) as Hp3
      by (simpl; by rewrite lookup_insert_eq).
    assert (core (with_stat SONPROC (with_wchan 0 pr2)) = core (with_wchan 0 pr2)) as Hco
      by (unfold core; simpl; by rewrite Hst).
    pose proof (modify_harmless p (with_stat SONPROC) s3 _ Hp3 Hco ltac:(done)) as H4.
    rewrite (modify_eq _ _ _ _ Hp3) in H4 |- *. cbn [bind returns] in H4 |- *.
    eapply (sleep_finish_ok _ c ci p (with_stat SONPROC (with_wchan 0 pr2))); try done.
    + by eapply inv_harmless.
    + simpl. by rewrite lookup_insert_eq.
Qed.

Lemma sleep_setup_stop_ok s c ci ident prio :
  rest s -> cpus s !! c = Some ci -> not_idle s (ci_curproc ci) -> ident <> 0 ->
  0 <= Z.land prio PRIMASK <= MAXPRI -> returns (sleep_setup_stop c ident prio s) rest.
Proof.
  intros HI Hc Hni Hid Hprio. destruct (sleep_setup_ok s c ci ident prio HI Hc Hni Hid Hprio)
    as (pr & s1 & E & HI1 & Ec & Hp & Hp1 & Hst).
  unfold sleep_setup_stop. rewrite E. cbn [bind]. clear E. rewrite <- Ec in Hc.
  rewrite (cpu_at_eq _ _ _ Hc). cbn [bind]. cbv zeta. set (p := ci_curproc ci) in *.
  assert (not_idle s1 p) as Hni1 by (intros c' ci' H'; rewrite Ec in H'; by eapply Hni).
  destruct (i_cur _ _ _ _ HI1 c ci Hc) as (pr' & Hp' & Hcpu & _). fold p in Hp'. rewrite Hp1 in Hp'. injection Hp' as <-.
  destruct (setup_harmless s1 c ci p HI1 Hc eq_refl) as (pr1 & Hp1' & H2 & ->). simplify_eq. cbn [bind].
  unfold proc_stop. set (pr2 := with_flag _ _) in *.
  eapply (leave_cpu _ c ci p pr2); [eapply inv_harmless; [exact H2|done]|try done..].
  - simpl. by rewrite lookup_insert_eq.
  - by right.
Qed.

(** * Giving the CPU up while runnable, idle or dead *)

Lemma yield_queue s c ci pr :
  rest s -> cpus s !! c = Some ci -> not_idle s (ci_curproc ci) -> procs s !! ci_curproc ci = Some pr ->
  exists l w, let p := ci_curproc ci in
    let q := Z.to_nat (p_usrpri pr / PPQ) in
    let s1 := update p (with_stat SRUN (with_priority (p_usrpri pr) pr)) s in
    let s2 := with_runqs (<[q := l ++ [p]]> (sched_qs s)) w s1 in
    sched_qs s !! q = Some l /\ yield c s = mi_switch c s2 /\ inv None None (Some c) s2 /\
    forall pr', procs s2 !! p = Some pr' -> p_stat pr' <> SONPROC.
Proof.
  intros HI Hc Hni Hp. destruct (running s c ci HI Hc) as (pr' & Hp' & Hst & Hw & Hcpu).
  rewrite Hp in Hp'. injection Hp' as <-. pose proof (i_wf _ _ _ _ HI _ pr Hp) as Hwf.
  set (p := ci_curproc ci) in *. set (pr1 := with_stat SRUN (with_priority (p_usrpri pr) pr)).
  assert (inv (Some p) None (Some c) (update p pr1 s)) as HI1.
  { eapply inv_update; [eapply inv_limbo; [exact HI|exact Hp|..]|exact Hp| |by left| |done|by left].
    - apply rqpos_none. congruence.
    - by apply sqpos_none.
    - unfold pr1. solve_wf.
    - right. by exists c, ci. }
  destruct (inv_setrunqueue _ _ _ p pr1 HI1) as (l & w & Hl & E & HI2); try done.
  { simpl. by rewrite lookup_insert_eq. }
  assert (Z.shiftr (p_priority pr1) 2 = p_usrpri pr / PPQ) as Ediv by (by rewrite Z.shiftr_div_pow2 by lia).
  rewrite Ediv in *. exists l, w. cbv zeta. conj; try done.
  - unfold yield. rewrite (cpu_at_eq _ _ _ Hc). cbn [bind]. cbv zeta. fold p. rewrite (modify_eq _ _ _ _ Hp).
    cbn [bind]. fold pr1. unfold update in E. by rewrite E.
  - intros pr'. simpl. rewrite lookup_insert_eq. by intros [= <-].
Qed.

Lemma yield_ok s c ci :
  rest s -> cpus s !! c = Some ci -> not_idle s (ci_curproc ci) -> returns (yield c s) rest.
Proof.
  intros HI Hc Hni. destruct (running s c ci HI Hc) as (pr & Hp & _).
  destruct (yield_queue _ _ _ _ HI Hc Hni Hp) as (l & w & Hl & -> & HI2 & Hst).
  eapply returns_mono; [|by eapply mi_switch_ok]. by intros s' [? _].
Qed.

Lemma sched_idle_switch_ok s c ci :
  rest s -> cpus s !! c = Some ci -> spc_idleproc ci = Some (ci_curproc ci) ->
  returns (sched_idle_switch c s) rest.
Proof.
  intros HI Hc Hid. destruct (running s c ci HI Hc) as (pr & Hp & Hst & Hw & Hcpu).
  pose proof (i_wf _ _ _ _ HI _ pr Hp) as Hwf. unfold sched_idle_switch. rewrite (cpu_at_eq _ _ _ Hc). cbn [bind].
  rewrite (modify_eq _ _ _ _ Hp). cbn [bind].
  eapply returns_mono; [|eapply mi_switch_ok; [|exact Hc|]]; [by intros s' [? _]| |].
  - eapply inv_update; [exact HI|exact Hp|solve_wf|right| |done|right; by split; [|right; left]].
    + split; [by rewrite !rqpos_none by (simpl; congruence)|]. split; [done|]. by apply slp_ok_awake.
    + right. by exists c, ci.
  - intros pr'. simpl. rewrite lookup_insert_eq. by intros [= <-].
Qed.

(** The end of a process: [exit1] marks it, [sched_exit] leaves it. *)
Definition exit_switch (c : nat) (s : sched) : outcome sched :=
  let! ci := cpu_at s c in
  let! s := modify (ci_curproc ci) (with_stat SDEAD) s in
  sched_exit c (ci_curproc ci) s.

Lemma exit_switch_ok s c ci :
  rest s -> cpus s !! c = Some ci -> not_idle s (ci_curproc ci) -> returns (exit_switch c s) rest.
Proof.
  intros HI Hc Hni. destruct (running s c ci HI Hc) as (pr & Hp & Hst & Hw & Hcpu).
  pose proof (i_wf _ _ _ _ HI _ pr Hp) as Hwf. unfold exit_switch. rewrite (cpu_at_eq _ _ _ Hc). cbn [bind].
  set (p := ci_curproc ci) in *. rewrite (modify_eq _ _ _ _ Hp). cbn [bind].
  assert (inv None None (Some c) (update p (with_stat SDEAD pr) s)) as HI1.
  { eapply inv_update; [exact HI|exact Hp|solve_wf|right| |done|by left].
    - split; [by rewrite !rqpos_none by (simpl; congruence)|]. split; [done|]. by apply slp_ok_awake.
    - right. by exists c, ci. }
  unfold sched_exit. fold (update p (with_stat SDEAD pr) s).
  pose proof (modify_cpu_harmless c (fun ci => set_deadproc (p :: spc_deadproc ci) ci)
    (update p (with_stat SDEAD pr) s) ci Hc eq_refl) as H2.
  rewrite (modify_cpu_eq c _ (update p (with_stat SDEAD pr) s) ci Hc) in H2 |- *. cbn [bind returns] in H2 |- *.
  pose proof (inv_harmless _ _ _ _ _ H2 HI1) as HI2. set (s2 := with_cpus _ _) in *.
  destruct (harmless_cur_cpu _ _ _ _ H2 Hc) as (ci2 & Hc2 & Ecur & Eid). rewrite (cpu_at_eq _ _ _ Hc2). cbn [bind].
  destruct (i_idle _ _ _ _ HI2 c ci2 Hc2) as (i & pi & Hi & Hpi & Hwi & Ho). rewrite Hi.
  assert (i <> p) as Hip by (intros ->; apply (Hni c ci Hc); congruence).
  assert (p_stat pi = SSLEEP) as Hsi by (destruct Ho as [?|[?|[_ <-]]]; [done|done|]; by rewrite Ecur in Hip).
  rewrite (modify_eq _ _ _ _ Hpi). cbn [bind].
  assert (inv (Some i) None (Some c) (update i (with_stat SRUN pi) s2)) as HI3.
  { pose proof (i_wf _ _ _ _ HI2 i pi Hpi).
    eapply inv_update; [eapply inv_limbo; [exact HI2|exact Hpi|..]|exact Hpi|solve_wf|by left| |done|].
    - apply rqpos_none. congruence.
    - by apply sqpos_none.
    - left. split; [done|]. simpl. rewrite Hsi. done.
    - right. by split; [|left]. }
  pose proof (switch_to None _ c ci2 i (with_stat SRUN pi) HI3 Hc2) as HS.
  rewrite bool_decide_eq_true_2 in HS by (rewrite Ecur; fold p; congruence). fold (update i (with_stat SRUN pi) s2).
  eapply returns_mono; [|apply HS]; try done; [by intros s' [? _]|simpl; by rewrite lookup_insert_eq|].
  intros c' ci' Hc' Ei. eapply (i_idle_inj _ _ _ _ HI2); [exact Hc'|exact Hc2|congruence].
Qed.

Lemma fork_start_ok s p2 pr :
  rest s -> procs s !! p2 = Some pr -> p_stat pr = SIDL -> not_idle s p2 -> returns (fork_start p2 s) rest.
Proof.
  intros HI Hp Hst Hni. assert (p_wchan pr = 0) as Hw.
  { destruct (decide (p_wchan pr = 0)) as [|Hw]; [done|].
    destruct (i_slp _ _ _ _ HI _ pr Hp ltac:(done) Hw) as [[?|[?|[? _]]] _]; congruence. }
  eapply returns_mono; [|eapply make_run; try done; try congruence]; [by intros s' [? _]|].
  unfold core. simpl. by rewrite Hw.
Qed.

(** * Wakeups, signals and the clocks *)

Lemma rest_harmless m s : rest s -> returns m (harmless s) -> returns m rest.
Proof. intros HI Hm. eapply returns_mono; [|exact Hm]. intros s' H. by eapply inv_harmless. Qed.

Lemma roundrobin_ok rr s c : rest s -> (c < length (cpus s))%nat -> returns (roundrobin rr c s) rest.
Proof.
  intros HI Hc. apply (rest_harmless _ s HI). destruct (lookup_lt_is_Some_2 _ _ Hc) as [ci Hci].
  apply returns_then.
  - eapply modify_cpu_harmless; [done|]. cbv zeta. by case_if.
  - intros s1 H1. apply need_resched_harmless; [by eapply harmless_sane, inv_sane|]. by rewrite (h_ncpu _ _ H1).
Qed.

Lemma sleep_resume_ok s c ci : rest s -> cpus s !! c = Some ci -> returns (sleep_resume c s) rest.
Proof.
  intros HI Hc. apply (rest_harmless _ s HI). destruct (running s c ci HI Hc) as (pr & Hp & Hst & Hw & [c' Hcpu]).
  unfold sleep_resume. rewrite (cpu_at_eq _ _ _ Hc). cbn [bind]. rewrite (proc_at_eq _ _ _ Hp). cbn [bind].
  rewrite bool_decide_eq_true_2 by done. cbn [negb]. rewrite Hcpu.
  destruct (lookup_lt_is_Some_2 (cpus s) c') as [ci' Hci'].
  { by apply (i_wf _ _ _ _ HI _ pr Hp). }
  apply returns_then; [by eapply modify_cpu_harmless|]. intros s1 H1.
  destruct (harmless_proc _ _ _ _ H1 Hp) as (pr1 & Hp1 & _). by eapply modify_harmless.
Qed.

(** The priority of a process that is not on a run queue, or that stays on
    its queue, may change. *)
Lemma reprioritize s p pr (f : proc -> proc) :
  rest s -> procs s !! p = Some pr ->
  p_stat (f pr) = p_stat pr -> p_wchan (f pr) = p_wchan pr -> p_cpu (f pr) = p_cpu pr ->
  (p_stat pr = SRUN -> Z.shiftr (p_priority (f pr)) 2 = Z.shiftr (p_priority pr) 2) ->
  (forall n, wf_proc n pr -> wf_proc n (f pr)) ->
  returns (modify p f s) (fun s' => rest s' /\ cpus s' = cpus s /\ slpque s' = slpque s /\
    procs s' = <[p := f pr]> (procs s) /\ allproc s' = allproc s).
Proof.
  intros HI Hp Hst Hw Hcpu Hrun Hwf. rewrite (modify_eq _ _ _ _ Hp). simpl. conj; try done.
  eapply inv_update; [exact HI|exact Hp|apply Hwf, (i_wf _ _ _ _ HI p pr Hp)|right| | |right].
  - split; [|split].
    + unfold rqpos. rewrite Hst. case_decide as E; [by rewrite Hrun|done].
    + unfold sqpos. by rewrite Hw.
    + intros Hx. rewrite Hst, Hcpu. rewrite Hw in Hx. by eapply i_slp.
  - left. by rewrite Hst.
  - by rewrite Hcpu.
  - auto.
Qed.

Section steps.
Context (ldavg : Z) (curc : nat).
Hypothesis Hld : 0 <= ldavg < 2 ^ 25.

Lemma wakeup_ok s chan :
  rest s -> (curc < length (cpus s))%nat -> short s -> returns (wakeup ldavg curc chan s) rest.
Proof.
  intros HI Hc Hs. destruct (wakeup_n_ok ldavg curc Hld chan (-1) s HI Hc Hs ltac:(lia)) as (l & _ & H).
  eapply returns_mono; [|exact H]. by intros s' [? _].
Qed.

Lemma endtsleep_ok s p pr :
  rest s -> procs s !! p = Some pr -> (curc < length (cpus s))%nat -> returns (endtsleep ldavg curc p s) rest.
Proof.
  intros HI Hp Hc. unfold endtsleep. rewrite (proc_at_eq _ _ _ Hp). cbn [bind].
  destruct (Z.eqb_spec (p_wchan pr) 0) as [|Hw]; [done|]. pose proof (sleeper_not_idle _ _ _ _ _ HI Hp Hw) as Hni.
  apply returns_bind. eapply (returns_mono _ (fun s' => rest s' /\ is_Some (procs s' !! p))).
  - intros s1 [HI1 [pr1 Hp1]]. apply (rest_harmless _ s1 HI1). by eapply modify_harmless.
  - case_bool_decide.
    + eapply returns_mono; [|eapply setrunnable_ok; eauto]. intros s1 [HI1 M1]. split; [done|].
      destruct (mr_self _ _ _ M1 _ Hp) as (pr1 & -> & _). done.
    + destruct (unsleep_ok _ _ _ _ _ HI Hp Hni) as [-> HI1]. split; [done|]. simpl. by rewrite lookup_insert_eq.
Qed.

Lemma schedclock_ok s c ci :
  rest s -> cpus s !! c = Some ci -> (curc < length (cpus s))%nat ->
  returns (schedclock curc (ci_curproc ci) s) rest.
Proof.
  intros HI Hci Hc. destruct (running s c ci HI Hci) as (pr & Hp & Hst & Hw & Hcpu). unfold schedclock.
  set (p := ci_curproc ci) in *. apply returns_bind. eapply (returns_mono _ (harmless s)).
  2: { eapply modify_harmless; [done..|]. intros n Hwf. unfold ESTCPULIM, NICE_WEIGHT, PRIO_MAX, PPQ, NQS.
       rewrite u32_small by (destruct Hwf as (_ & _ & ? & _); unfold is_u; lia). change (128 / 32) with 4. solve_wf. }
  intros s1 H1. destruct (harmless_proc _ _ _ _ H1 Hp) as (pr1 & Hp1 & E1). apply returns_bind.
  eapply (returns_mono _ (harmless s1)).
  2: { eapply resetpriority_harmless; [by eapply harmless_sane, inv_sane|done|]. by rewrite (h_ncpu _ _ H1). }
  intros s2 H2. destruct (harmless_proc _ _ _ _ H2 Hp1) as (pr2 & Hp2 & E2). injection E1 as E1 _. injection E2 as E2 _.
  eapply returns_mono; [|eapply (reprioritize s2 p pr2); try done]; [by intros s' [? _]|..].
  - by eapply inv_harmless, inv_harmless.
  - by case_if.
  - by case_if.
  - by case_if.
  - congruence.
  - intros n ?. case_if; [solve_wf|done].
Qed.

(** The scan of the processes. *)
Definition scan_kept (s s' : sched) : Prop :=
  length (cpus s') = length (cpus s) /\ slpque s' = slpque s /\ allproc s' = allproc s.

Lemma scan_kept_harmless s s' : harmless s s' -> scan_kept s s'.
Proof. intros []. by split. Qed.

Lemma scan_kept_trans s1 s2 s3 : scan_kept s1 s2 -> scan_kept s2 s3 -> scan_kept s1 s3.
Proof. intros (? & ? & ?) (? & ? & ?). unfold scan_kept. conj; congruence. Qed.

Lemma runnable_not_idle s p pr : rest s -> procs s !! p = Some pr -> p_stat pr = SRUN -> not_idle s p.
Proof.
  intros HI Hp Hst c ci Hc Hi. destruct (i_idle _ _ _ _ HI c ci Hc) as (i & pi & Hi' & Hpi & _ & [?|[?|[? _]]]); congruence.
Qed.

(** Moving a runnable process to the queue of its user priority. *)
Lemma requeue_ok s p pr :
  rest s -> procs s !! p = Some pr -> p_stat pr = SRUN ->
  returns (let! s := remrunqueue p s in
           let! s := modify p (fun pr => with_priority (p_usrpri pr) pr) s in
           setrunqueue p s) (fun s' => rest s' /\ scan_kept s s').
Proof.
  intros HI Hp Hst. pose proof (runnable_not_idle _ _ _ HI Hp Hst) as Hni.
  destruct (inv_remrunqueue _ _ _ _ _ HI Hp Hst) as (s1 & E & Ep & Ec & Ea & Hw & HI1).
  assert (slpque s1 = slpque s) as Es.
  { unfold remrunqueue in E. rewrite (proc_at_eq _ _ _ Hp) in E. cbn [bind] in E.
    apply bind_Ret_inv in E as (q & _ & E). apply bind_Ret_inv in E as (q' & _ & E).
    apply bind_Ret_inv in E as (qs & _ & E). by injection E as <-. }
  rewrite E. cbn [bind]. rewrite <- Ep in Hp. rewrite (modify_eq _ _ _ _ Hp). cbn [bind].
  set (pr1 := with_priority _ _). pose proof (i_wf _ _ _ _ HI1 p pr Hp).
  assert (inv (Some p) None None (update p pr1 s1)) as HI2.
  { eapply inv_update; [exact HI1|exact Hp|unfold pr1; solve_wf|by left|by left|done|].
    left. intros c ci Hci. rewrite Ec in Hci. by eapply Hni. }
  destruct (inv_setrunqueue _ _ _ p pr1 HI2) as (l & w & Hl & E2 & HI3); try done.
  { simpl. by rewrite lookup_insert_eq. }
  { intros c ci Hci. simpl in Hci. rewrite Ec in Hci. by eapply Hni. }
  unfold update in E2. rewrite E2. split; [done|]. unfold scan_kept. simpl. by rewrite Ec, Es, Ea.
Qed.

Lemma class_div x y : Z.shiftr x 2 = Z.shiftr y 2 <-> x / PPQ = y / PPQ.
Proof. by rewrite !Z.shiftr_div_pow2 by lia. Qed.

Lemma schedcpu_one_ok s p pr phz :
  rest s -> procs s !! p = Some pr -> (curc < length (cpus s))%nat ->
  returns (schedcpu_one ldavg phz curc p s) (fun s' => rest s' /\ scan_kept s s').
Proof.
  intros HI Hp Hc. unfold schedcpu_one. apply returns_bind. eapply (returns_mono _ (harmless s)).
  2: { eapply modify_harmless; [done| |].
       - unfold core. case_if; done.
       - intros n Hwf. pose proof (u32_range (p_slptime pr + 1)). case_if; solve_wf. }
  intros s1 H1. destruct (harmless_proc _ _ _ _ H1 Hp) as (pr1 & Hp1 & E1).
  pose proof (inv_harmless _ _ _ _ _ H1 HI) as HI1. rewrite (proc_at_eq _ _ _ Hp1). cbn [bind].
  case_if; [split; [done|by apply scan_kept_harmless]|]. cbv zeta.
  pose proof (i_wf _ _ _ _ HI1 p pr1 Hp1) as Hwf1.
  destruct (decay_cpu_ok ldavg Hld (p_estcpu pr1)) as (v & -> & Hv); [apply Hwf1|]. cbn [bind].
  apply returns_bind. eapply (returns_mono _ (harmless s1)).
  2: { eapply modify_harmless; [done..|]. intros n ?. solve_wf. }
  intros s2 H2. destruct (harmless_proc _ _ _ _ H2 Hp1) as (pr2 & Hp2 & E2). apply returns_bind.
  eapply (returns_mono _ (harmless s2)).
  2: { eapply resetpriority_harmless; [by eapply harmless_sane, inv_sane|done|].
       by rewrite (h_ncpu _ _ H2), (h_ncpu _ _ H1). }
  intros s3 H3. assert (harmless s s3) as H03 by (etrans; [exact H1|]; by etrans).
  pose proof (inv_harmless _ _ _ _ _ H03 HI) as HI3.
  destruct (harmless_proc _ _ _ _ H3 Hp2) as (pr3 & Hp3 & E3). rewrite (proc_at_eq _ _ _ Hp3). cbn [bind].
  destruct (lookup_lt_is_Some_2 (cpus s3) curc) as [ci Hci]; [by rewrite (h_ncpu _ _ H03)|].
  rewrite (cpu_at_eq _ _ _ Hci). cbn [bind]. case_if; [|split; [done|by apply scan_kept_harmless]].
  destruct (bool_decide (p <> ci_curproc ci) && bool_decide (p_stat pr3 = SRUN)
         && negb (p_priority pr3 / PPQ =? p_usrpri pr3 / PPQ)) eqn:Eb.
  - boolify. apply bool_decide_eq_true in H4.
    eapply returns_mono; [|by eapply requeue_ok]. intros s4 [? ?]. split; [done|].
    eapply scan_kept_trans; [by apply scan_kept_harmless|done].
  - eapply returns_mono; [|eapply (reprioritize s3 p pr3); try done].
    + intros s4 (HI4 & ? & ? & _ & ?). split; [done|]. eapply scan_kept_trans; [by apply scan_kept_harmless|].
      unfold scan_kept. conj; congruence.
    + intros Hst. apply class_div. destruct (running s3 curc ci HI3 Hci) as (prc & Hpc & Hsc & _).
      assert (p <> ci_curproc ci) by congruence.
      rewrite !bool_decide_eq_true_2 in Eb by done. simpl in Eb. boolify. done.
    + intros n ?. solve_wf.
Qed.

Lemma schedcpu_loop_ok phz ps s :
  rest s -> (curc < length (cpus s))%nat -> (forall p, p ∈ ps -> p ∈ allproc s) ->
  returns (schedcpu_loop ldavg phz curc ps s) (fun s' => rest s' /\ scan_kept s s').
Proof.
  revert s. induction ps as [|p ps IH]; intros s HI Hc Hin; [by split|]. cbn [schedcpu_loop].
  destruct (i_all _ _ _ _ HI p) as [pr Hp]; [apply Hin; left|]. apply returns_bind.
  eapply returns_mono; [|by eapply schedcpu_one_ok]. intros s1 [HI1 K1]. pose proof K1 as (E1 & E2 & E3).
  eapply returns_mono; [|apply IH]; [|done|by rewrite E1|].
  - intros s2 [HI2 K2]. split; [done|]. by eapply scan_kept_trans.
  - intros q Hq. rewrite E3. apply Hin. by right.
Qed.

Lemma schedcpu_ok phz lbolt s :
  rest s -> (curc < length (cpus s))%nat -> short s -> phz <> 0 ->
  returns (schedcpu ldavg phz lbolt curc s) rest.
Proof.
  intros HI Hc Hs Hphz. unfold schedcpu. destruct (Z.eqb_spec phz 0); [done|]. apply returns_bind.
  eapply returns_mono; [|by apply schedcpu_loop_ok]. intros s1 (HI1 & E1 & E2 & _).
  apply wakeup_ok; [done|by rewrite E1|]. intros q. rewrite E2. apply Hs.
Qed.

(** ** Signals *)

(** Where [psignal] is when it leaves its [switch]. *)
Record handled (p : Z) (s : sched) (path : exit_path) (s1 : sched) : Prop := {
  hd_rest : rest s1;
  hd_place : forall c, place <$> cpus s1 !! c = place <$> cpus s !! c;
  hd_ncpu : length (cpus s1) = length (cpus s);
  hd_short : short s -> short s1;
  hd_proc : exists pr, procs s1 !! p = Some pr /\
    match path with ToOut _ => True | _ => p_stat pr = SSLEEP \/ p_stat pr = SSTOP end }.

Lemma handled_harmless p s s1 path pr :
  rest s -> harmless s s1 -> procs s !! p = Some pr ->
  match path with ToOut _ => True | _ => p_stat pr = SSLEEP \/ p_stat pr = SSTOP end ->
  handled p s path s1.
Proof.
  intros HI H Hp Hpath. destruct (harmless_proc _ _ _ _ H Hp) as (pr1 & Hp1 & E). split.
  - by eapply inv_harmless.
  - intros c. symmetry. apply (h_place _ _ H).
  - apply H.
  - intros Hs q. by rewrite (h_slpque _ _ H).
  - exists pr1. split; [done|]. injection E as -> _. done.
Qed.

Lemma clearsig_harmless mask p s pr : procs s !! p = Some pr -> returns (clearsig mask p s) (harmless s).
Proof. intros Hp. by eapply modify_harmless. Qed.

(** A sleeping process stops, or a stopped one sleeps on: its queues stay. *)
Lemma doze s p pr (f : proc -> proc) :
  rest s -> procs s !! p = Some pr -> not_idle s p -> p_stat pr = SSLEEP \/ (p_stat pr = SSTOP /\ p_wchan pr <> 0) ->
  p_stat (f pr) = SSLEEP \/ p_stat (f pr) = SSTOP -> p_wchan (f pr) = p_wchan pr -> p_cpu (f pr) = p_cpu pr ->
  (forall n, wf_proc n pr -> wf_proc n (f pr)) ->
  returns (modify p f s) (handled p s (ToOut false)).
Proof.
  intros HI Hp Hni Hst Hf Hw Hcpu Hwf. rewrite (modify_eq _ _ _ _ Hp). split; try done.
  - assert (p_stat pr <> SRUN /\ p_stat pr <> SONPROC) as [? ?] by (destruct Hst as [-> |[-> _]]; done).
    assert (p_stat (f pr) <> SRUN /\ p_stat (f pr) <> SONPROC) as [? ?] by (destruct Hf as [-> | ->]; done).
    eapply inv_update; [exact HI|exact Hp|apply Hwf, (i_wf _ _ _ _ HI p pr Hp)|right| | |by left].
    + split; [by rewrite !rqpos_none|]. split; [unfold sqpos; by rewrite Hw|].
      intros Hx. rewrite Hcpu. rewrite Hw in Hx. split; [tauto|]. by eapply (i_slp _ _ _ _ HI).
    + left. tauto.
    + by rewrite Hcpu.
  - simpl. rewrite lookup_insert_eq. eauto.
Qed.

Lemma handled_trans p s s1 path1 path s2 :
  handled p s path1 s1 -> handled p s1 path s2 -> handled p s path s2.
Proof.
  intros [H1 H2 H3 H4 _] [K1 K2 K3 K4 K5]. split; auto.
  - intros c. by rewrite K2.
  - congruence.
Qed.

Lemma handled_not_idle p s path s1 q : handled p s path s1 -> not_idle s q -> not_idle s1 q.
Proof. intros H. eapply not_idle_place, H. Qed.

Lemma psignal_sleep_ok s p pr signum prop action :
  rest s -> procs s !! p = Some pr -> not_idle s p -> p_stat pr = SSLEEP ->
  returns (psignal_sleep p signum prop action pr s) (fun '(path, s1) => handled p s path s1).
Proof.
  intros HI Hp Hni Hst. unfold psignal_sleep. cbv zeta.
  assert (forall path, match path with ToOut _ => True | _ => p_stat pr = SSLEEP \/ p_stat pr = SSTOP end) as Hpath
    by (intros []; auto).
  case_if; [by eapply handled_harmless; [..|apply (Hpath (ToOut false))]|].
  case_if; [by eapply handled_harmless; [..|apply (Hpath (ToRun false))]|].
  case_if; [|case_if; [case_if|]].
  - apply returns_bind. eapply returns_mono; [|by eapply clearsig_harmless]. intros s1 H1. by eapply handled_harmless.
  - by eapply handled_harmless.
  - apply returns_bind. eapply returns_mono; [|by eapply clearsig_harmless]. intros s1 H1.
    destruct (harmless_proc _ _ _ _ H1 Hp) as (pr1 & Hp1 & E1). apply returns_bind.
    eapply (returns_mono _ (harmless s1)); [|by eapply modify_harmless]. intros s2 H2.
    assert (harmless s s2) as H02 by (by etrans). destruct (harmless_proc _ _ _ _ H02 Hp) as (pr2 & Hp2 & E2).
    assert (handled p s (ToOut false) s2) as HH by (by eapply handled_harmless).
    injection E2 as E2 _. unfold proc_stop. apply returns_bind. apply returns_bind.
    eapply returns_mono; [|eapply doze; [apply HH|exact Hp2|by eapply handled_not_idle|..]]; try done.
    + intros s3 HH3. simpl. by eapply handled_trans.
    + left. congruence.
    + by right.
  - by eapply handled_harmless; [..|apply (Hpath (ToRunfast false))].
Qed.

Lemma filter_shorter p (s : sched) : short s -> short (with_slpque (filter (fun y => y <> p) <$> slpque s) s).
Proof.
  intros Hs q. specialize (Hs q). simpl. rewrite list_lookup_fmap. destruct (slpque s !! q) as [l|]; [|done].
  simpl in *. pose proof (length_filter (fun y => y <> p) l). lia.
Qed.

Lemma psignal_stop_ok s p pr signum prop action :
  rest s -> procs s !! p = Some pr -> not_idle s p -> p_stat pr = SSTOP ->
  returns (psignal_stop p signum prop action pr s) (fun '(path, s1) => handled p s path s1).
Proof.
  intros HI Hp Hni Hst. unfold psignal_stop. cbv zeta.
  assert (forall path s1, harmless s s1 -> handled p s path s1) as Hpath.
  { intros path s1 H1. eapply handled_harmless; [done..|]. destruct path; auto. }
  case_if; [by apply Hpath|]. case_if; [by apply Hpath|]. case_if; [|case_if].
  - apply returns_bind. eapply (returns_mono _ (harmless s)); [|by eapply modify_harmless]. intros s1 H1.
    destruct (harmless_proc _ _ _ _ H1 Hp) as (pr1 & Hp1 & E1). apply returns_bind.
    eapply (returns_mono _ (harmless s1)).
    2: { case_bool_decide; [by eapply clearsig_harmless|]. simpl. reflexivity. }
    intros s2 H2. assert (harmless s s2) as H02 by (by etrans). destruct (harmless_proc _ _ _ _ H02 Hp) as (pr2 & Hp2 & E2).
    case_if; [by apply Hpath|]. case_if; [by apply Hpath|]. boolify. injection E2 as E2 E2' _ _. apply returns_bind.
    eapply returns_mono; [|eapply (doze s2 p pr2 (with_stat SSLEEP)); try done].
    + intros s3 HH3. eapply handled_trans; [by apply (Hpath (ToOut false))|].
      destruct HH3 as [? ? ? ? (x & ? & _)]. split; eauto.
    + by eapply inv_harmless.
    + eapply handled_not_idle; [by apply (Hpath (ToOut false))|done].
    + right. split; congruence.
    + by left.
  - apply returns_bind. eapply returns_mono; [|by eapply clearsig_harmless]. intros s1 H1. by apply Hpath.
  - apply returns_bind. case_if; [|by apply Hpath].
    destruct (unsleep_ok _ _ _ _ _ HI Hp Hni) as [-> HI1]. split; try done.
    + intros Hs. by apply (filter_shorter p) in Hs.
    + simpl. rewrite lookup_insert_eq. eauto.
Qed.

Lemma made_run_short p s s' : made_run p s s' -> short s -> short s'.
Proof. intros M Hs q. rewrite (mr_slp _ _ _ M). by apply (filter_shorter p) in Hs. Qed.

(** The exit through [run] or [runfast]. *)
Lemma psignal_run_ok s p pr (f : proc -> proc) :
  rest s -> procs s !! p = Some pr -> not_idle s p -> p_stat pr = SSLEEP \/ p_stat pr = SSTOP ->
  (curc < length (cpus s))%nat -> short s ->
  p_stat (f pr) = p_stat pr -> p_wchan (f pr) = p_wchan pr -> p_cpu (f pr) = p_cpu pr ->
  (forall n, wf_proc n pr -> wf_proc n (f pr)) ->
  returns (let! s := modify p f s in setrunnable ldavg curc p s)
    (fun s' => rest s' /\ length (cpus s') = length (cpus s) /\ short s').
Proof.
  intros HI Hp Hni Hst Hc Hs Hf Hw Hcpu Hwf. apply returns_bind.
  eapply returns_mono; [|eapply (reprioritize s p pr f); try done].
  - intros s1 (HI1 & Ec & Eq & Ep & _).
    eapply returns_mono; [|eapply (setrunnable_ok ldavg curc Hld _ _ s1 p (f pr) HI1)].
    + intros s2 [HI2 M2]. split; [done|]. split; [by rewrite (mr_ncpu _ _ _ M2), Ec|].
      eapply made_run_short; [done|]. intros q. by rewrite Eq.
    + rewrite Ep. by rewrite lookup_insert_eq.
    + intros c ci. rewrite Ec. apply Hni.
    + by rewrite Ec.
    + rewrite Hf. tauto.
  - intros E. rewrite E in Hst. naive_solver.
Qed.

Lemma psignal_deliver_ok s p pr signum prop action :
  rest s -> procs s !! p = Some pr -> not_idle s p -> (curc < length (cpus s))%nat -> short s ->
  returns (psignal_deliver ldavg curc p signum prop action s) rest.
Proof.
  intros HI Hp Hni Hc Hs. unfold psignal_deliver. rewrite (proc_at_eq _ _ _ Hp). cbn [bind].
  apply returns_bind. eapply (returns_mono _ (fun '(path, s1) => handled p s path s1)).
  2: { destruct (p_stat pr) eqn:Hst; try (by eapply handled_harmless).
       - by apply psignal_sleep_ok.
       - by apply psignal_stop_ok.
       - apply returns_bind. eapply (returns_mono _ (harmless s)); [|by eapply modify_harmless].
         intros s1 H1. by eapply handled_harmless. }
  intros [path s1] HH. pose proof (handled_not_idle _ _ _ _ p HH Hni) as Hni1.
  destruct HH as [HI1 _ E1 Hs1 (pr1 & Hp1 & Hst1)]. specialize (Hs1 Hs). rewrite <- E1 in Hc.
  apply returns_bind. eapply (returns_mono _ (fun '(_, s2) => rest s2 /\ length (cpus s2) = length (cpus s1) /\ short s2)).
  { intros [w s2] (HI2 & E2 & Hs2). destruct w; [|done]. apply wakeup_ok; [done|by rewrite E2|done]. }
  destruct path as [w|w|w]; [done|..].
  - apply returns_bind. eapply returns_mono; [|eapply (setrunnable_ok ldavg curc Hld _ _ s1 p pr1 HI1); try done; tauto].
    intros s2 [HI2 M2]. split; [done|]. split; [apply M2|]. by eapply made_run_short.
  - pose proof (psignal_run_ok s1 p pr1 (fun pr => if PUSER <? p_priority pr then with_priority PUSER pr else pr)
      HI1 Hp1 Hni1 Hst1 Hc Hs1) as H. rewrite (modify_eq _ _ _ _ Hp1) in H |- *. cbn [bind] in H |- *.
    apply returns_bind. eapply returns_mono; [|apply H].
    + by intros s2 ?.
    + by case_if.
    + by case_if.
    + by case_if.
    + intros n ?. case_if; [|done]. unfold PUSER, MAXPRI in *. solve_wf.
Qed.

Lemma psignal_ok s p pr signum :
  rest s -> procs s !! p = Some pr -> not_idle s p -> (curc < length (cpus s))%nat -> short s ->
  1 <= signum < NSIG -> returns (psignal ldavg curc p signum s) rest.
Proof.
  intros HI Hp Hni Hc Hs Hsig. unfold psignal. unfold NSIG in Hsig.
  rewrite (u32_small signum) by (unfold is_u; lia).
  destruct ((NSIG <=? signum) || (signum =? 0)) eqn:E; [unfold NSIG in E; lia|]. clear E.
  rewrite (proc_at_eq _ _ _ Hp). cbn [bind]. case_if; [done|]. cbv zeta.
  destruct (aget_bounds sigprop signum) as (prop & -> & _); [simpl; lia|]. cbn [bind].
  set (action := if flag (p_flag pr) P_TRACED then _ else _). case_if; [done|].
  assert (forall m k, returns m (harmless s) ->
    (forall s1 pr1, harmless s s1 -> procs s1 !! p = Some pr1 -> returns (k s1) rest) -> returns (bind m k) rest) as Hstep.
  { intros m k Hm Hk. apply returns_bind. eapply returns_mono; [|exact Hm]. intros s1 H1.
    destruct (harmless_proc _ _ _ _ H1 Hp) as (pr1 & Hp1 & _). by eapply Hk. }
  assert (forall s1 m k, harmless s s1 -> returns m (harmless s1) ->
    (forall s2 pr2, harmless s s2 -> procs s2 !! p = Some pr2 -> returns (k s2) rest) -> returns (bind m k) rest) as Hnext.
  { intros s1 m k H1 Hm Hk. apply Hstep; [|done]. eapply returns_mono; [|exact Hm]. intros s2 H2. by etrans. }
  apply Hstep; [case_if; [eapply modify_harmless; [done..|]; intros n ?; unfold NZERO; solve_wf|simpl; reflexivity]|].
  intros s1 pr1 H1 Hp1. case_if; [by eapply inv_harmless|].
  apply (Hnext s1); [done|case_if; [by eapply clearsig_harmless|simpl; reflexivity]|]. intros s2 pr2 H2 Hp2.
  apply (Hnext s2); [done| |].
  { case_if; [|simpl; reflexivity]. apply returns_then; [by eapply clearsig_harmless|]. intros s3 H3.
    destruct (harmless_proc _ _ _ _ H3 Hp2) as (pr3 & Hp3 & _). by eapply modify_harmless. }
  intros s3 pr3 H3 Hp3. apply (Hnext s3); [done|by eapply modify_harmless|]. intros s4 pr4 H4 Hp4.
  case_if; [by eapply inv_harmless|]. eapply psignal_deliver_ok; try done.
  - by eapply inv_harmless.
  - eapply not_idle_place; [|exact Hni]. intros c. symmetry. apply (h_place _ _ H4).
  - by rewrite (h_ncpu _ _ H4).
  - intros q. rewrite (h_slpque _ _ H4). apply Hs.
Qed.
End steps.
