(* ===== verification/SchedSpec.v ===== *)
(** What the scheduler promises: its queues always hold exactly the processes
    they should and none of its operations panics or corrupts a queue, wakeups
    reach the sleepers they should in order, the most urgent process runs next
    and a kill gets through to a stopped process. *)

From stdpp Require Import gmap functions.
From S2P Require Import Prelude Sched SchedQueue SchedInv SchedOps SchedStep.

(** * Sequences of operations *)

(** The calls the kernel makes, each on the CPU [c]. *)
Inductive op :=
| OTsleep (c : nat) (ident prio sig : Z) (do_sleep : bool)
| OStop (c : nat) (ident prio : Z)
| OResume (c : nat)
| OWakeup (c : nat) (ident n : Z)
| OEndtsleep (c : nat) (p : Z)
| OSetrunnable (c : nat) (p : Z)
| OPsignal (c : nat) (p signum : Z)
| OYield (c : nat)
| OIdle (c : nat)
| OExit (c : nat)
| OFork (p2 : Z)
| ORoundrobin (c : nat) (rrticks_init : Z)
| OSchedclock (c : nat)
| OSchedcpu (c : nat) (phz lbolt : Z).

Definition exec (ldavg : Z) (o : op) (s : sched) : outcome sched :=
  match o with
  | OTsleep c ident prio sig do_sleep => tsleep c ident prio sig do_sleep s
  | OStop c ident prio => sleep_setup_stop c ident prio s
  | OResume c => sleep_resume c s
  | OWakeup c ident n => wakeup_n ldavg c ident n s
  | OEndtsleep c p => endtsleep ldavg c p s
  | OSetrunnable c p => setrunnable ldavg c p s
  | OPsignal c p signum => psignal ldavg c p signum s
  | OYield c => yield c s
  | OIdle c => sched_idle_switch c s
  | OExit c => exit_switch c s
  | OFork p2 => fork_start p2 s
  | ORoundrobin c rr => roundrobin rr c s
  | OSchedclock c => let! ci := cpu_at s c in schedclock c (ci_curproc ci) s
  | OSchedcpu c phz lbolt => schedcpu ldavg phz lbolt c s
  end.

(** The current process of CPU [c] is there, and is not the idle process. *)
Definition busy (s : sched) (c : nat) : Prop :=
  exists ci, cpus s !! c = Some ci /\ not_idle s (ci_curproc ci).

Definition online (s : sched) (c : nat) : Prop := (c < length (cpus s))%nat.

(** How the kernel may call them. *)
Definition allowed (s : sched) (o : op) : Prop :=
  match o with
  | OTsleep c ident prio _ _ | OStop c ident prio =>
      busy s c /\ ident <> 0 /\ 0 <= Z.land prio PRIMASK <= MAXPRI
  | OResume c | ORoundrobin c _ | OSchedclock c => online s c
  | OWakeup c _ n => online s c /\ short s /\ -1 <= n < 2 ^ 31
  | OEndtsleep c p => online s c /\ is_Some (procs s !! p)
  | OSetrunnable c p => online s c /\ not_idle s p /\
      exists pr, procs s !! p = Some pr /\ (p_stat pr = SSLEEP \/ p_stat pr = SSTOP \/ p_stat pr = SIDL)
  | OPsignal c p signum =>
      online s c /\ not_idle s p /\ is_Some (procs s !! p) /\ short s /\ 1 <= signum < NSIG
  | OYield c | OExit c => busy s c
  | OIdle c => exists ci, cpus s !! c = Some ci /\ spc_idleproc ci = Some (ci_curproc ci)
  | OFork p2 => not_idle s p2 /\ exists pr, procs s !! p2 = Some pr /\ p_stat pr = SIDL
  | OSchedcpu c phz _ => online s c /\ short s /\ phz <> 0
  end.

Inductive reachable (s0 : sched) : sched -> Prop :=
| reach_start : reachable s0 s0
| reach_step s s' ldavg o :
    reachable s0 s -> 0 <= ldavg < 2 ^ 25 -> allowed s o -> exec ldavg o s = Ret s' -> reachable s0 s'.

Lemma exec_ok ldavg s o : 0 <= ldavg < 2 ^ 25 -> rest s -> allowed s o -> returns (exec ldavg o s) rest.
Proof.
  intros Hld HI Ha.
  assert (forall c, online s c -> exists ci, cpus s !! c = Some ci) as Hon.
  { intros c Hc. by apply lookup_lt_is_Some. }
  destruct o; cbn [exec allowed] in *; unfold busy in *; repeat match goal with
    | H : exists _, _ |- _ => destruct H
    | H : _ /\ _ |- _ => destruct H
    | H : is_Some _ |- _ => destruct H
    end;
    try (eauto using tsleep_ok, sleep_setup_stop_ok, roundrobin_ok, yield_ok, sched_idle_switch_ok,
      exit_switch_ok, fork_start_ok, endtsleep_ok, schedcpu_ok, psignal_ok; fail).
  - destruct (Hon c Ha) as [ci Hci]. by eapply sleep_resume_ok.
  - destruct (wakeup_n_ok ldavg c ltac:(done) ident n s HI) as (l & _ & Hw); try done.
    eapply returns_mono; [|exact Hw]. by intros s' [? _].
  - eapply returns_mono; [|eapply setrunnable_ok; eauto]. by intros s' [? _].
  - destruct (Hon c Ha) as [ci Hci]. rewrite (cpu_at_eq _ _ _ Hci). by eapply schedclock_ok.
Qed.

Lemma reachable_rest s0 s : rest s0 -> reachable s0 s -> rest s.
Proof.
  intros H0 Hr. induction Hr as [|s s' ldavg o Hr IH Hld Ha He]; [done|].
  pose proof (exec_ok ldavg s o Hld IH Ha) as H. by rewrite He in H.
Qed.

(** Each process is on the queues its state calls for, once. *)
Definition queued_right (s : sched) : Prop :=
  (forall q l, sched_qs s !! q = Some l -> NoDup l /\ forall p, p ∈ l <->
     exists pr, procs s !! p = Some pr /\ p_stat pr = SRUN /\ q = Z.to_nat (p_priority pr / PPQ)) /\
  (forall q l, slpque s !! q = Some l -> NoDup l /\ forall p, p ∈ l <->
     exists pr, procs s !! p = Some pr /\ p_wchan pr <> 0 /\ q = Z.to_nat (LOOKUP (p_wchan pr))) /\
  (forall q, 0 <= q < NQS -> Z.testbit (sched_whichqs s) q = true <->
     exists p l, sched_qs s !! Z.to_nat q = Some (p :: l)) /\
  (forall p pr, procs s !! p = Some pr -> p_wchan pr <> 0 -> p_stat pr = SSLEEP \/ p_stat pr = SSTOP) /\
  (forall p pr, procs s !! p = Some pr -> p_stat pr = SONPROC <-> exists c, cur s c = Some p).

Lemma rest_queued_right s : rest s -> queued_right s.
Proof.
  intros HI. destruct (i_queues _ _ _ _ HI) as [Hr Hs Hn _ _ Hb]. unfold queued_right. conj.
  - intros q l Hl. destruct (Hr q l Hl) as [Hnd Hp]. split; [done|]. intros p. rewrite Hp.
    unfold limbo, rpos, rqpos. rewrite decide_False by done. destruct (procs s !! p) as [pr|]; simpl; [|naive_solver].
    rewrite Z.shiftr_div_pow2 by lia. change (2 ^ 2) with PPQ. case_decide; naive_solver.
  - intros q l Hl. destruct (Hs q l Hl) as [Hnd Hp]. split; [done|]. intros p. rewrite Hp.
    unfold limbo, spos, sqpos. rewrite decide_False by done. destruct (procs s !! p) as [pr|]; simpl; [|naive_solver].
    case_decide; naive_solver.
  - intros q Hq. unfold NQS in Hq. destruct (lookup_lt_is_Some_2 (sched_qs s) (Z.to_nat q)) as [l Hl]; [lia|].
    pose proof (Hb _ _ Hl) as Hbit. rewrite Z2Nat.id in Hbit by lia. rewrite Hbit, Hl, bool_decide_eq_true.
    destruct l; naive_solver.
  - intros p pr Hp Hw. destruct (i_slp _ _ _ _ HI p pr Hp ltac:(done) Hw) as [[?|[?|[_ ?]]] _]; [auto..|done].
  - intros p pr Hp. split.
    + intros Hst. destruct (i_on _ _ _ _ HI p pr Hp Hst) as (c & ci & _ & Hc & E). exists c. unfold cur. rewrite Hc.
      simpl. congruence.
    + intros [c Hc]. unfold cur in Hc. destruct (cpus s !! c) as [ci|] eqn:Hci; [|done]. injection Hc as E.
      destruct (i_cur _ _ _ _ HI c ci Hci) as (pr' & Hp' & _ & Hst). rewrite E in Hp'. simplify_eq. by apply Hst.
Qed.

(** * The properties *)

(** C4. Whatever sequence of sleeps, wakeups, timeouts, signals, yields, forks,
    exits and clock scans the CPUs go through from a state at rest, every
    runnable process is on the run queue of its priority and every process with
    a wait channel on the sleep queue of the channel, each once and nowhere
    else, the occupancy word tells the truth, sleepers are never on a CPU and
    exactly the current processes are; and the next call, whichever it is,
    returns: no assertion fails, no link is used twice and no queue is indexed
    out of range. *)
Theorem sched_safe s0 s ldavg o :
  rest s0 -> reachable s0 s -> 0 <= ldavg < 2 ^ 25 -> allowed s o ->
  queued_right s /\ exists s', exec ldavg o s = Ret s'.
Proof.
  intros H0 Hr Hld Ha. pose proof (reachable_rest _ _ H0 Hr) as HI. split; [by apply rest_queued_right|].
  pose proof (exec_ok ldavg s o Hld HI Ha) as H. apply returns_Ret in H as (s' & E & _). eauto.
Qed.

(** C27. [wakeup_n] takes off the sleep queue the first [n] processes that wait
    on the channel, or all of them when [n] is [-1], and no others; those of
    them that were asleep become runnable at the tails of their run queues in
    the order they went to sleep, and the stopped ones stay stopped. *)
Theorem wakeup_n_wakes ldavg c ident n s l :
  rest s -> online s c -> short s -> -1 <= n < 2 ^ 31 -> 0 <= ldavg < 2 ^ 25 ->
  slpque s !! Z.to_nat (LOOKUP ident) = Some l ->
  exists s', wakeup_n ldavg c ident n s = Ret s' /\
    woken (first_n n (filter (fun p => on_chan s ident p = true) l)) s s'.
Proof.
  intros HI Hc Hs Hn Hld Hl. destruct (wakeup_n_ok ldavg c Hld ident n s HI Hc Hs Hn) as (l' & Hl' & H).
  simplify_eq. apply returns_Ret in H as (s' & E & _ & W). eauto.
Qed.

Lemma concat_head (qs : list (list Z)) n r :
  concat qs = n :: r -> exists (k : nat) t, qs !! k = Some (n :: t) /\
    forall j l, (j < k)%nat -> qs !! j = Some l -> l = [].
Proof.
  induction qs as [|l qs IH]; [done|]. simpl. destruct l as [|x l]; simpl.
  - intros H. destruct (IH H) as (k & t & Hk & Hj). exists (S k), t. split; [done|].
    intros [|j] l Hjk Hl; [by injection Hl|]. apply (Hj j); [lia|done].
  - intros [= -> <-]. exists 0%nat, l. split; [done|]. lia.
Qed.

(** A process that yields goes to the tail of the run queue of its user
    priority, and the head of the first queue that is not empty runs next:
    nobody more urgent waits, and its peers come first. *)
Theorem yield_round_robin s c ci pr :
  rest s -> cpus s !! c = Some ci -> not_idle s (ci_curproc ci) -> procs s !! ci_curproc ci = Some pr ->
  exists q l s' n k t,
    q = Z.to_nat (p_usrpri pr / PPQ) /\ sched_qs s !! q = Some l /\
    let qs := <[q := l ++ [ci_curproc ci]]> (sched_qs s) in
    yield c s = Ret s' /\ cur s' c = Some n /\ qs !! k = Some (n :: t) /\
    (forall j lj, (j < k)%nat -> qs !! j = Some lj -> lj = []) /\ concat qs = n :: concat (sched_qs s').
Proof.
  intros HI Hc Hni Hp. destruct (yield_queue _ _ _ _ HI Hc Hni Hp) as (l & w & Hl & E & HI2 & Hst).
  cbv zeta in *. set (p := ci_curproc ci) in *. set (q := Z.to_nat (p_usrpri pr / PPQ)) in *.
  set (s2 := with_runqs _ _ _) in *. pose proof (mi_switch_ok s2 c ci HI2 Hc Hst) as HM.
  apply returns_Ret in HM as (s' & Es & HI' & Hsw & _). destruct (ready s2) as [|n r] eqn:Hr.
  { exfalso. assert (p ∈ ready s2) as Hin; [|rewrite Hr in Hin; by apply elem_of_nil in Hin].
    unfold ready. apply list_elem_of_In, in_concat. exists (l ++ [p]). split; [|apply in_or_app; right; by left].
    apply list_elem_of_In, (list_elem_of_lookup_2 _ q). simpl.
    apply list_lookup_insert_eq. by eapply lookup_lt_Some. }
  destruct Hsw as [Hcur Hrs]. destruct (concat_head _ _ _ Hr) as (k & t & Hk & Hj).
  exists q, l, s', n, k, t. conj; try done; [congruence|]. rewrite <- Hrs in Hr. exact Hr.
Qed.

Lemma kill_deliver ldavg c p pr s action :
  rest s -> online s c -> not_idle s p -> short s -> 0 <= ldavg < 2 ^ 25 ->
  procs s !! p = Some pr -> p_stat pr = SSTOP -> flag (p_flag pr) P_TRACED = false ->
  exists s' pr', psignal_deliver ldavg c p SIGKILL SA_KILL action s = Ret s' /\
    procs s' !! p = Some pr' /\ p_stat pr' = SRUN /\ p_wchan pr' = 0 /\
    p_priority pr' = Z.min (p_priority pr) PUSER /\
    exists l, sched_qs s' !! Z.to_nat (p_priority pr' / PPQ) = Some (l ++ [p]).
Proof.
  intros HI Hc Hni Hs Hld Hp Hst Htr. unfold psignal_deliver. rewrite (proc_at_eq _ _ _ Hp). cbn [bind].
  rewrite Hst. unfold psignal_stop. rewrite Htr. cbn [bind Z.eqb].
  change (SIGKILL =? SIGKILL) with true. cbn [bind].
  set (f := fun pr => if PUSER <? p_priority pr then with_priority PUSER pr else pr).
  pose proof (i_wf _ _ _ _ HI p pr Hp) as Hwf.
  assert (p_stat (f pr) = SSTOP /\ p_wchan (f pr) = p_wchan pr /\ p_cpu (f pr) = p_cpu pr /\
    p_priority (f pr) = Z.min (p_priority pr) PUSER) as (F1 & F2 & F3 & F4).
  { unfold f. case_if; boolify; simpl; conj; try done; lia. }
  pose proof (reprioritize s p pr f HI Hp) as HR. rewrite (modify_eq _ _ _ _ Hp) in HR |- *. cbn [bind returns] in HR |- *.
  destruct HR as (HI1 & _); [congruence|done|done|congruence|unfold f; intros n ?; case_if; [|done]; unfold PUSER, MAXPRI in *; solve_wf|].
  set (s1 := with_procs _ s) in *. assert (procs s1 !! p = Some (f pr)) as Hp1 by (simpl; by rewrite lookup_insert_eq).
  pose proof (setrunnable_ok ldavg c Hld None None s1 p (f pr) HI1 Hp1 Hni Hc ltac:(auto)) as HS.
  apply returns_Ret in HS as (s2 & -> & HI2 & M2). cbn [bind].
  destruct (mr_self _ _ _ M2 _ Hp1) as (pr2 & Hp2 & E2 & Hrun). injection E2 as E21 E22 E23 E24.
  exists s2, pr2. conj; try done; [congruence|]. rewrite E23.
  destruct (queues_lookup _ _ _ (i_queues _ _ _ _ HI1) (Z.shiftr (p_priority (f pr)) 2)) as [l Hl].
  { apply queue_index. by apply (i_wf _ _ _ _ HI1 p). }
  exists l. pose proof (Hrun _ _ Hl) as Hq. rewrite decide_True in Hq by done.
  rewrite Z.shiftr_div_pow2 in Hq by lia. exact Hq.
Qed.

(** A [SIGKILL] makes a stopped process runnable at a priority no worse
    than [PUSER], at the tail of the run queue of that priority and off the
    sleep queue it may have been stopped on, unless the process is traced or
    already exiting or the signal is blocked, which the system calls do not
    let a process do. *)
Theorem psignal_kill_runs ldavg c p pr s :
  rest s -> online s c -> not_idle s p -> short s -> 0 <= ldavg < 2 ^ 25 ->
  procs s !! p = Some pr -> p_stat pr = SSTOP ->
  flag (p_flag pr) P_WEXIT = false -> flag (p_flag pr) P_TRACED = false ->
  flag (p_sigmask pr) (sigmask SIGKILL) = false -> flag (p_sigignore pr) (sigmask SIGKILL) = false ->
  exists s' pr', psignal ldavg c p SIGKILL s = Ret s' /\
    procs s' !! p = Some pr' /\ p_stat pr' = SRUN /\ p_wchan pr' = 0 /\
    p_priority pr' = Z.min (p_priority pr) PUSER /\
    exists l, sched_qs s' !! Z.to_nat (p_priority pr' / PPQ) = Some (l ++ [p]).
Proof.
  intros HI Hc Hni Hs Hld Hp Hst Hwe Htr Hm Hig. unfold psignal.
  change ((NSIG <=? u32 SIGKILL) || (SIGKILL =? 0)) with false. cbv iota.
  rewrite (proc_at_eq _ _ _ Hp). cbn [bind]. rewrite Hwe. change (aget sigprop SIGKILL) with (Ret SA_KILL).
  cbn [bind]. rewrite Htr, Hm, Hig. cbn [negb andb]. cbv zeta.
  set (action := if flag (p_sigcatch pr) _ then SIG_CATCH else SIG_DFL).
  change (flag SA_KILL SA_TTYSTOP) with false. change (flag SA_KILL SA_CONT) with false.
  change (flag SA_KILL SA_STOP) with false. rewrite !andb_false_r. cbv iota.
  assert (bool_decide (action = SIG_HOLD) = false) as ->.
  { apply bool_decide_eq_false_2. unfold action. by destruct (flag (p_sigcatch pr) _). }
  set (nice := bool_decide (action = SIG_DFL) && flag SA_KILL SA_KILL && (NZERO <? p_nice pr)).
  set (pr1 := if nice then with_nice NZERO pr else pr).
  assert ((if nice then modify p (with_nice NZERO) s else Ret s) = Ret (update p pr1 s)) as ->.
  { unfold pr1. destruct nice; [by apply modify_eq|]. unfold update. rewrite insert_id by done. by destruct s. }
  cbn [bind andb]. rewrite (modify_eq p _ _ pr1) by (simpl; by rewrite lookup_insert_eq). cbn [bind].
  set (pr2 := with_siglist _ pr1). set (s2 := with_procs _ (update p pr1 s)).
  assert (procs s2 !! p = Some pr2) as Hp2 by (simpl; by rewrite lookup_insert_eq).
  assert (p_priority pr2 = p_priority pr /\ p_stat pr2 = p_stat pr /\ p_flag pr2 = p_flag pr) as (E1 & E2 & E3).
  { unfold pr2, pr1. by destruct nice. }
  rewrite <- E1. apply kill_deliver; try done; try congruence.
  pose proof (i_wf _ _ _ _ HI p pr Hp) as Hwf.
  assert (s2 = update p pr2 s) as ->.
  { unfold s2, update, with_procs. simpl. by rewrite insert_insert_eq. }
  eapply inv_update; [exact HI|exact Hp| |right|left|unfold pr2, pr1; by destruct nice|by left].
  - unfold pr2, pr1. destruct nice; [unfold NZERO; solve_wf|done].
  - unfold rqpos, sqpos, slp_ok. unfold pr2, pr1. destruct nice; simpl; conj; try done; intros;
      by apply (i_slp _ _ _ _ HI p).
  - split; [done|]. by rewrite E2.
Qed.

(** * Witnesses *)

(** One CPU running process 1, its idle process 2, and a third process. *)
Definition demo_proc (st : pstat) (cpu : option nat) : proc :=
  mkproc st 0 0 0 60 60 10 0 0 20 0 cpu 0 0 0 0 0 1 1 false.

Definition demo (third : pstat) : sched :=
  sleep_queue_init (sched_init_runqueues
    (mksched {[1 := demo_proc SONPROC (Some 0%nat); 2 := demo_proc SSLEEP (Some 0%nat); 3 := demo_proc third None]}
       [1; 2; 3] [] [] 0 [mkcpu 1 false (Some 2) 60 0 0 []])).

Lemma demo_procs third p pr :
  procs (demo third) !! p = Some pr ->
  (p = 1 /\ pr = demo_proc SONPROC (Some 0%nat)) \/ (p = 2 /\ pr = demo_proc SSLEEP (Some 0%nat)) \/
  (p = 3 /\ pr = demo_proc third None).
Proof.
  unfold demo. simpl. intros H. apply lookup_insert_Some in H as [[<- <-]|[_ H]]; [auto|].
  apply lookup_insert_Some in H as [[<- <-]|[_ H]]; [auto|]. apply lookup_singleton_Some in H as [<- <-]. auto.
Qed.

Lemma demo_cpus third c ci : cpus (demo third) !! c = Some ci -> c = 0%nat /\ ci = mkcpu 1 false (Some 2) 60 0 0 [].
Proof. destruct c as [|[|c]]; simpl; [by intros [= <-]|done..]. Qed.

Lemma demo_qrep n pos : (forall p, pos p = None) -> qrep pos (replicate n []).
Proof.
  intros H q l Hl. apply lookup_replicate in Hl as [-> _]. split; [constructor|]. intros p. rewrite H.
  split; [by intros ?%elem_of_nil|done].
Qed.

Lemma demo_rest third : third = SIDL \/ third = SSTOP -> rest (demo third).
Proof.
  intros Ht. assert (third <> SRUN /\ third <> SONPROC) as [Hr Ho] by (destruct Ht as [-> | ->]; done). split.
  - split; [apply demo_qrep|apply demo_qrep|done|done|done|].
    + intros p. unfold limbo, rpos. rewrite decide_False by done. destruct (procs (demo third) !! p) as [pr|] eqn:E; [|done].
      apply demo_procs in E as [[-> ->]|[[-> ->]|[-> ->]]]; simpl; [done..|]. by apply rqpos_none.
    + intros p. unfold limbo, spos. rewrite decide_False by done. destruct (procs (demo third) !! p) as [pr|] eqn:E; [|done].
      by apply demo_procs in E as [[-> ->]|[[-> ->]|[-> ->]]].
    + intros q l Hl. apply lookup_replicate in Hl as [-> _]. by rewrite Z.bits_0.
  - intros p pr Hp. assert (forall c0, Some 0%nat = Some c0 -> (c0 < 1)%nat) by (intros ? [= <-]; lia).
    apply demo_procs in Hp as [[-> ->]|[[-> ->]|[-> ->]]]; unfold wf_proc, is_u, MAXPRI; simpl; conj; (lia || done).
  - intros p pr Hp. by apply demo_procs in Hp as [[-> ->]|[[-> ->]|[-> ->]]].
  - intros c ci Hc. apply demo_cpus in Hc as [-> ->]. simpl. eexists. rewrite lookup_insert_eq. by split; [|split].
  - intros p pr Hp Hst. apply demo_procs in Hp as [[-> ->]|[[-> ->]|[-> ->]]]; [|done|done].
    exists 0%nat. eexists. by split; [|split].
  - intros c1 c2 ci1 ci2 H1 H2 _. apply demo_cpus in H1 as [-> _]. by apply demo_cpus in H2 as [-> _].
  - intros c ci Hc. apply demo_cpus in Hc as [-> ->]. exists 2. eexists. simpl.
    rewrite lookup_insert_ne, lookup_insert_eq by done. by split; [|split; [|split; [|right; left]]].
  - intros c1 c2 ci1 ci2 H1 H2 _. apply demo_cpus in H1 as [-> _]. by apply demo_cpus in H2 as [-> _].
  - intros p Hp. change (p ∈ [1; 2; 3]) in Hp. simpl. rewrite !lookup_insert_is_Some, lookup_singleton_is_Some.
    set_unfold. destruct (decide (1 = p)), (decide (2 = p)); naive_solver.
Qed.

Lemma demo_not_idle third p : p <> 2 -> not_idle (demo third) p.
Proof. intros Hp c ci Hc. apply demo_cpus in Hc as [-> ->]. simpl. congruence. Qed.

Definition short_b (s : sched) : bool := forallb (fun l => Nat.ltb (length l) 100) (slpque s).

Lemma short_check s : short_b s = true -> short s.
Proof.
  intros H q. destruct (slpque s !! q) as [l|] eqn:E; simpl; [|lia].
  unfold short_b in H. rewrite forallb_forall in H. specialize (H l). rewrite <- list_elem_of_In in H.
  specialize (H (list_elem_of_lookup_2 _ _ _ E)). apply Nat.ltb_lt in H. lia.
Qed.

(** Process 1 asleep on the channel 4096, the idle process on the CPU. *)
Definition demo_asleep : sched :=
  match tsleep 0 4096 36 0 true (demo SIDL) with Ret s => s | _ => demo SIDL end.

Lemma demo_asleep_eq : tsleep 0 4096 36 0 true (demo SIDL) = Ret demo_asleep.
Proof. vm_compute. reflexivity. Qed.

Lemma demo_busy : busy (demo SIDL) 0.
Proof. eexists. split; [done|]. by apply demo_not_idle. Qed.

Lemma demo_asleep_rest : rest demo_asleep.
Proof.
  destruct demo_busy as (ci & Hc & Hni).
  pose proof (tsleep_ok (demo SIDL) 0 ci 4096 36 0 true (demo_rest SIDL ltac:(auto)) Hc Hni ltac:(done) ltac:(done)) as H.
  by rewrite demo_asleep_eq in H.
Qed.

Lemma sched_safe_witness :
  allowed demo_asleep (OWakeup 0 4096 (-1)) /\
  (queued_right demo_asleep /\ exists s', exec 2048 (OWakeup 0 4096 (-1)) demo_asleep = Ret s').
Proof.
  assert (allowed demo_asleep (OWakeup 0 4096 (-1))) as Ha.
  { split; [vm_compute; lia|]. split; [apply short_check; vm_compute; reflexivity|lia]. }
  split; [exact Ha|]. apply (sched_safe (demo SIDL)); [apply demo_rest; auto| |lia|exact Ha].
  eapply (reach_step _ (demo SIDL) _ 2048 (OTsleep 0 4096 36 0 true)); [constructor|lia| |exact demo_asleep_eq].
  split; [exact demo_busy|done].
Defined.

Lemma wakeup_n_wakes_witness :
  exists s', wakeup_n 2048 0 4096 (-1) demo_asleep = Ret s' /\ woken [1] demo_asleep s'.
Proof.
  apply (wakeup_n_wakes 2048 0 4096 (-1) demo_asleep [1] demo_asleep_rest); [vm_compute; lia| |lia|lia|].
  - apply short_check. vm_compute. reflexivity.
  - vm_compute. reflexivity.
Defined.

Lemma yield_round_robin_witness :
  exists q l s' n k t,
    q = Z.to_nat (60 / PPQ) /\ sched_qs (demo SIDL) !! q = Some l /\
    let qs := <[q := l ++ [1]]> (sched_qs (demo SIDL)) in
    yield 0 (demo SIDL) = Ret s' /\ cur s' 0 = Some n /\ qs !! k = Some (n :: t) /\
    (forall j lj, (j < k)%nat -> qs !! j = Some lj -> lj = []) /\ concat qs = n :: concat (sched_qs s').
Proof.
  apply (yield_round_robin (demo SIDL) 0 (mkcpu 1 false (Some 2) 60 0 0 []) (demo_proc SONPROC (Some 0%nat))).
  - apply demo_rest. auto.
  - reflexivity.
  - by apply demo_not_idle.
  - reflexivity.
Defined.

Lemma psignal_kill_runs_witness :
  exists s' pr', psignal 2048 0 3 SIGKILL (demo SSTOP) = Ret s' /\
    procs s' !! 3 = Some pr' /\ p_stat pr' = SRUN /\ p_wchan pr' = 0 /\
    p_priority pr' = Z.min 60 PUSER /\
    exists l, sched_qs s' !! Z.to_nat (p_priority pr' / PPQ) = Some (l ++ [3]).
Proof.
  apply (psignal_kill_runs 2048 0 3 (demo_proc SSTOP None) (demo SSTOP)); try reflexivity.
  - apply demo_rest. auto.
  - vm_compute. lia.
  - by apply demo_not_idle.
  - apply short_check. vm_compute. reflexivity.
  - lia.
Defined.
