(* ===== verification/Rwlock.v ===== *)
(** Reader/writer locks: [kern/kern_rwlock.c].  The functions are programs over
    the atomic accesses to the lock word and the calls of the sleep queue; a
    machine interleaves the programs of any number of threads. *)

From S2P Require Import Prelude.

(** * Constants *)

Definition RWLOCK_WAIT : Z := 1.
Definition RWLOCK_WRWANT : Z := 2.
Definition RWLOCK_WRLOCK : Z := 4.
Definition RWLOCK_MASK : Z := 7.
Definition RWLOCK_READER_SHIFT : Z := 3.
Definition RWLOCK_READ_INCR : Z := Z.shiftl 1 RWLOCK_READER_SHIFT.

Definition RW_WRITE : Z := 0.
Definition RW_READ : Z := 1.
Definition RW_DOWNGRADE : Z := 2.
Definition RW_OPMASK : Z := 3.
Definition RW_INTR : Z := 16.
Definition RW_SLEEPFAIL : Z := 32.
Definition RW_NOSLEEP : Z := 64.

Definition PLOCK : Z := 36.

Section rwlock.
Context {a : arch}.
(** The kernel was built with [DIAGNOSTIC]. *)
Context (diagnostic : bool).

Definition ULONG_MAX : Z := 2 ^ long_bits - 1.

(** The address of a process with the flag bits masked off. *)
Definition RW_PROC (p : Z) : Z := Z.ldiff (ulong p) RWLOCK_MASK.

Record rwlock_op := mkop { inc : Z; check : Z; wait_set : Z; proc_mult : Z; wait_prio : Z }.

Definition rw_ops : list rwlock_op :=
  [ mkop RWLOCK_WRLOCK ULONG_MAX (Z.lor RWLOCK_WAIT RWLOCK_WRWANT) 1 (PLOCK - 4);
    mkop RWLOCK_READ_INCR RWLOCK_WRLOCK RWLOCK_WAIT 0 PLOCK;
    mkop (ulong (RWLOCK_READ_INCR - RWLOCK_WRLOCK)) 0 0 (-1) PLOCK ].

(** * Programs *)

(** The places a loop jumps back to: [retry] of [rw_enter] and the head of the
    loop of [rw_exit]. *)
Inductive label := LRetry (flags : Z) (op : rwlock_op) (inc : Z) | LExit (wrlock : Z).

(** [Load] reads the lock word; [Cas] is [rw_cas], whose continuation gets
    [true] when it failed; [SleepSetup] puts the thread on the sleep queue of
    the lock and takes the scheduler lock; [SleepFinish] releases that lock and
    sleeps, or leaves the queue, and its continuation gets the error of
    [sleep_finish_signal] when [intr]; [Wakeup] wakes the queue. *)
Inductive prog :=
| Return (error : Z)
| Goto (l : label)
| Load (k : Z -> prog)
| Cas (o n : Z) (k : bool -> prog)
| SleepSetup (prio : Z) (k : prog)
| SleepFinish (intr do_sleep : bool) (k : Z -> prog)
| Wakeup (k : prog)
| Panicked.

(** [p] is [curproc] in all of these. *)
Definition rw_enter_diag (p flags : Z) (k : prog) : prog :=
  if negb diagnostic then k
  else
    let op := Z.land flags RW_OPMASK in
    if (op =? RW_WRITE) || (op =? RW_READ) then
      Load (fun owner => if RW_PROC p =? RW_PROC owner then Panicked else k)
    else if op =? RW_DOWNGRADE then
      Load (fun owner =>
        if Z.land owner RWLOCK_WRLOCK =? 0 then Panicked
        else Load (fun owner => if negb (RW_PROC p =? RW_PROC owner) then Panicked else k))
    else Panicked.

(** [rw_enter] from [retry] on: one round of the loop, or the acquisition. *)
Definition rw_enter_retry (p flags : Z) (op : rwlock_op) (inc : Z) : prog :=
  Load (fun o =>
    if negb (Z.land o (check op) =? 0) then
      let set := Z.lor o (wait_set op) in
      rw_enter_diag p flags
        (if flag flags RW_NOSLEEP then Return EBUSY
         else
           SleepSetup (wait_prio op)
             (Cas o set (fun failed =>
               let do_sleep := negb failed in
               SleepFinish (flag flags RW_INTR) do_sleep (fun error =>
                 if flag flags RW_INTR && negb (error =? 0) then Return error
                 else if flag flags RW_SLEEPFAIL then Return EAGAIN
                 else Goto (LRetry flags op inc)))))
    else
      Cas o (ulong (o + inc)) (fun failed =>
        if failed then Goto (LRetry flags op inc)
        else
          let mask := Z.lor RWLOCK_WRLOCK RWLOCK_WAIT in
          if Z.land o mask =? mask then Wakeup (Return 0) else Return 0)).

(** An operation number past the table is an access out of bounds; no caller
    passes one. *)
Definition rw_enter (p flags : Z) : prog :=
  match rw_ops !! Z.to_nat (Z.land flags RW_OPMASK) with
  | None => Panicked
  | Some op => rw_enter_retry p flags op (ulong (inc op + RW_PROC p * proc_mult op))
  end.

Definition rw_exit_loop (wrlock : Z) : prog :=
  Load (fun owner =>
    let set := if negb (wrlock =? 0) then 0
               else Z.ldiff (ulong (owner - RWLOCK_READ_INCR)) (Z.lor RWLOCK_WAIT RWLOCK_WRWANT) in
    Cas owner set (fun failed =>
      if failed then Goto (LExit wrlock)
      else if flag owner RWLOCK_WAIT then Wakeup (Return 0) else Return 0)).

Definition rw_exit : prog :=
  Load (fun owner => rw_exit_loop (Z.land owner RWLOCK_WRLOCK)).

Definition rw_enter_read (p : Z) : prog :=
  Load (fun owner =>
    if flag owner RWLOCK_WRLOCK then rw_enter p RW_READ
    else Cas owner (ulong (owner + RWLOCK_READ_INCR)) (fun failed =>
      if failed then rw_enter p RW_READ else Return 0)).

Definition rw_enter_write (p : Z) : prog :=
  Cas 0 (Z.lor (RW_PROC p) RWLOCK_WRLOCK) (fun failed =>
    if failed then rw_enter p RW_WRITE else Return 0).

Definition rw_exit_read : prog :=
  Load (fun owner =>
    if flag owner RWLOCK_WAIT then rw_exit
    else Cas owner (ulong (owner - RWLOCK_READ_INCR)) (fun failed =>
      if failed then rw_exit else Return 0)).

Definition rw_exit_write : prog :=
  Load (fun owner =>
    if flag owner RWLOCK_WAIT then rw_exit
    else Cas owner 0 (fun failed => if failed then rw_exit else Return 0)).

Definition block (p : Z) (l : label) : prog :=
  match l with
  | LRetry flags op inc => rw_enter_retry p flags op inc
  | LExit wrlock => rw_exit_loop wrlock
  end.

(** * The machine *)

Inductive mode := Rd | Wr.

Inductive call := EnterRead | EnterWrite | Enter (flags : Z) | ExitRead | ExitWrite | Exit.

Definition code (p : Z) (c : call) : prog :=
  match c with
  | EnterRead => rw_enter_read p
  | EnterWrite => rw_enter_write p
  | Enter flags => rw_enter p flags
  | ExitRead => rw_exit_read
  | ExitWrite => rw_exit_write
  | Exit => rw_exit
  end.

(** What a thread holds, by what its last call returned: [None], or the lock
    for reading or writing. *)
Definition result (c : call) (held : option mode) (error : Z) : option mode :=
  match c with
  | EnterRead => Some Rd
  | EnterWrite => Some Wr
  | Enter flags =>
      if negb (error =? 0) then held
      else if Z.land flags RW_OPMASK =? RW_WRITE then Some Wr else Some Rd
  | ExitRead | ExitWrite | Exit => None
  end.

(** The discipline of the callers. *)
Definition may_call (held : option mode) (c : call) : bool :=
  match c, held with
  | EnterRead, None | EnterWrite, None => true
  | Enter flags, None => (Z.land flags RW_OPMASK =? RW_WRITE) || (Z.land flags RW_OPMASK =? RW_READ)
  | Enter flags, Some Wr => Z.land flags RW_OPMASK =? RW_DOWNGRADE
  | ExitRead, Some Rd | ExitWrite, Some Wr => true
  | Exit, Some _ => true
  | _, _ => false
  end.

(** A thread is outside the lock code, in it, or blocked in [sleep_finish]. *)
Inductive control :=
| Out (held : option mode)
| In (c : call) (held : option mode) (pc : prog)
| Asleep (c : call) (held : option mode) (intr : bool) (k : Z -> prog).

Record thread := mkthread { t_proc : Z; t_ctl : control }.

(** [rwl_owner], the holder of the scheduler lock, the sleep queue of the lock
    and the threads. *)
Record machine := mkmachine {
  rwl_owner : Z;
  sched_lock : option nat;
  sleepers : list nat;
  threads : list thread }.

(** What happens next to a thread: it calls, it takes a step, or it steps out
    of a sleep with a signal. *)
Inductive choice := Call (c : call) | Go | Signal (error : Z).

Definition goto_ctl (t : nat) (th : thread) (ctl : control) (m : machine) : machine :=
  mkmachine (rwl_owner m) (sched_lock m) (sleepers m) (<[t := mkthread (t_proc th) ctl]> (threads m)).

Definition set_owner (v : Z) (m : machine) : machine :=
  mkmachine v (sched_lock m) (sleepers m) (threads m).

Definition set_sleep (l : option nat) (q : list nat) (m : machine) : machine :=
  mkmachine (rwl_owner m) l q (threads m).

Definition dequeue (t : nat) (q : list nat) : list nat := filter (fun x => x <> t) q.

(** One step of thread [t], [None] when it cannot take it. *)
Definition act (t : nat) (ch : choice) (m : machine) : option machine :=
  match threads m !! t with
  | None => None
  | Some th =>
      let p := t_proc th in
      match t_ctl th, ch with
      | Out h, Call c => if may_call h c then Some (goto_ctl t th (In c h (code p c)) m) else None
      | In c h (Return e), Go => Some (goto_ctl t th (Out (result c h e)) m)
      | In c h (Goto l), Go => Some (goto_ctl t th (In c h (block p l)) m)
      | In c h (Load k), Go => Some (goto_ctl t th (In c h (k (rwl_owner m))) m)
      | In c h (Cas o n k), Go =>
          if rwl_owner m =? o then Some (goto_ctl t th (In c h (k false)) (set_owner n m))
          else Some (goto_ctl t th (In c h (k true)) m)
      | In c h (SleepSetup _ k), Go =>
          match sched_lock m with
          | Some _ => None
          | None => Some (goto_ctl t th (In c h k) (set_sleep (Some t) (sleepers m ++ [t]) m))
          end
      | In c h (SleepFinish intr true k), Go =>
          Some (goto_ctl t th (Asleep c h intr k) (set_sleep None (sleepers m) m))
      | In c h (SleepFinish intr false k), Go =>
          Some (goto_ctl t th (In c h (k 0)) (set_sleep None (dequeue t (sleepers m)) m))
      | In c h (SleepFinish true _ k), Signal e =>
          if e =? 0 then None
          else Some (goto_ctl t th (In c h (k e)) (set_sleep None (dequeue t (sleepers m)) m))
      | In c h (Wakeup k), Go =>
          match sched_lock m with
          | Some _ => None
          | None => Some (goto_ctl t th (In c h k) (set_sleep None [] m))
          end
      | Asleep c h intr k, Go =>
          if bool_decide (t ∈ sleepers m) then None else Some (goto_ctl t th (In c h (k 0)) m)
      | Asleep c h true k, Signal e =>
          if (e =? 0) || bool_decide (is_Some (sched_lock m)) then None
          else Some (goto_ctl t th (In c h (k e)) (set_sleep (sched_lock m) (dequeue t (sleepers m)) m))
      | _, _ => None
      end
  end.

(** [rw_init], with the threads outside. *)
Definition rw_init (procs : list Z) : machine :=
  mkmachine 0 None [] ((fun p => mkthread p (Out None)) <$> procs).

Inductive reachable (procs : list Z) : machine -> Prop :=
| reach_init : reachable procs (rw_init procs)
| reach_act m t ch m' : reachable procs m -> act t ch m = Some m' -> reachable procs m'.

(** A program that runs with nobody else at the lock: the value it returns, the
    lock word it leaves and the wakeups it does; [None] when it sleeps, panics
    or takes more than [fuel] steps. *)
Fixpoint solo (fuel : nat) (p : Z) (pc : prog) (owner : Z) (wakeups : nat) : option (Z * Z * nat) :=
  match fuel with
  | O => None
  | S fuel =>
      match pc with
      | Return e => Some (e, owner, wakeups)
      | Goto l => solo fuel p (block p l) owner wakeups
      | Load k => solo fuel p (k owner) owner wakeups
      | Cas o n k => if owner =? o then solo fuel p (k false) n wakeups else solo fuel p (k true) owner wakeups
      | Wakeup k => solo fuel p k owner (S wakeups)
      | SleepSetup _ _ | SleepFinish _ _ _ | Panicked => None
      end
  end.
End rwlock.
