(* ===== verification/RwlockInv.v ===== *)
(** The lock word and what the threads hold: the encoding, the moves of the
    atomic operations, and the programs that make only such moves. *)

From S2P Require Import Prelude Rwlock.

(** * Bits of the lock word *)

Section bits.
Context (c b : Z).
Hypothesis Hb : 0 <= b < 8.

Lemma tb_low n : 0 <= n < 3 -> Z.testbit (8 * c + b) n = Z.testbit b n.
Proof.
  intros Hn. rewrite <- (Z.mod_pow2_bits_low (8 * c + b) 3) by lia. change (2 ^ 3) with 8.
  replace ((8 * c + b) mod 8) with b; [done|]. rewrite Z.add_comm, Z.mul_comm, Z_mod_plus_full.
  symmetry. apply Z.mod_small. lia.
Qed.

Lemma tb_high n : 3 <= n -> Z.testbit (8 * c + b) n = Z.testbit c (n - 3).
Proof.
  intros Hn. replace n with (n - 3 + 3) at 1 by lia. rewrite <- Z.div_pow2_bits by lia. change (2 ^ 3) with 8.
  f_equal. rewrite Z.add_comm, Z.mul_comm, Z.div_add by lia. rewrite Z.div_small by lia. done.
Qed.
End bits.

Lemma small_high m n : 0 <= m < 8 -> 3 <= n -> Z.testbit m n = false.
Proof. intros Hm Hn. apply (is_u_bits 3 m); [lia|done|done]. Qed.

Lemma small_lor x y : 0 <= x < 8 -> 0 <= y < 8 -> 0 <= Z.lor x y < 8.
Proof. intros. apply (is_u_lor 3); [lia|done|done]. Qed.

Lemma word_land c b m : 0 <= b < 8 -> 0 <= m < 8 -> Z.land (8 * c + b) m = Z.land b m.
Proof.
  intros Hb Hm. apply Z.bits_inj'. intros n Hn. rewrite !Z.land_spec. destruct (decide (n < 3)).
  - by rewrite tb_low by lia.
  - by rewrite (small_high m), !andb_false_r by lia.
Qed.

Lemma word_lor c b m : 0 <= b < 8 -> 0 <= m < 8 -> Z.lor (8 * c + b) m = 8 * c + Z.lor b m.
Proof.
  intros Hb Hm. apply Z.bits_inj'. intros n Hn. rewrite Z.lor_spec.
  pose proof (small_lor b m Hb Hm). destruct (decide (n < 3)).
  - rewrite !tb_low by lia. by rewrite Z.lor_spec.
  - rewrite !tb_high by lia. by rewrite (small_high m), orb_false_r by lia.
Qed.

Lemma word_ldiff c b m :
  0 <= b < 8 -> 0 <= m < 8 -> Z.ldiff (8 * c + b) m = 8 * c + Z.ldiff b m.
Proof.
  intros Hb Hm. apply Z.bits_inj'. intros n Hn. rewrite Z.ldiff_spec.
  assert (0 <= Z.ldiff b m < 8) as Hd.
  { apply is_u_bits with (w := 3); [lia|]. split; [apply Z.ldiff_nonneg; lia|]. intros l Hl.
    by rewrite Z.ldiff_spec, (small_high b) by lia. }
  destruct (decide (n < 3)).
  - rewrite !tb_low by lia. by rewrite Z.ldiff_spec.
  - rewrite !tb_high by lia. by rewrite (small_high m), andb_true_r by lia.
Qed.

(** Evaluate a bit operation on the three flag bits, case by case. *)
Ltac flag_cases b :=
  assert (b = 0 \/ b = 1 \/ b = 2 \/ b = 3 \/ b = 4 \/ b = 5 \/ b = 6 \/ b = 7)
    as [-> |[-> |[-> |[-> |[-> |[-> |[-> | ->]]]]]]] by lia.

(** * What the word says *)

#[export] Instance mode_eq_dec : EqDecision mode.
Proof. solve_decision. Defined.

Definition readers (hs : list (option mode)) : Z :=
  Z.of_nat (length (filter (fun h => h = Some Rd) hs)).

Definition is_rd (h : option mode) : Z := if decide (h = Some Rd) then 1 else 0.

Lemma readers_insert hs t h h' :
  hs !! t = Some h -> readers (<[t := h']> hs) = readers hs - is_rd h + is_rd h'.
Proof.
  unfold readers, is_rd. revert t. induction hs as [|x hs IH]; intros [|t] Ht; try done; simpl in Ht.
  - injection Ht as ->. change (<[0%nat := h']> (h :: hs)) with (h' :: hs). rewrite !filter_cons.
    repeat case_decide; cbn [length]; (lia || congruence).
  - change (<[S t := h']> (x :: hs)) with (x :: <[t := h']> hs). rewrite !filter_cons. specialize (IH t Ht).
    repeat case_decide; cbn [length]; lia.
Qed.

Lemma readers_bound hs t h : hs !! t = Some h -> 0 <= readers hs <= Z.of_nat (length hs) - 1 + is_rd h.
Proof.
  unfold readers, is_rd. revert t. induction hs as [|x hs IH]; intros [|t] Ht; try done; simpl in Ht.
  - injection Ht as ->. rewrite filter_cons. pose proof (length_filter (fun h => h = Some Rd) hs).
    case_decide; cbn [length]; lia.
  - rewrite filter_cons. specialize (IH t Ht). repeat case_decide; cbn [length]; lia.
Qed.

Lemma readers_member hs t : hs !! t = Some (Some Rd) -> 1 <= readers hs.
Proof.
  intros Ht. unfold readers. assert (Some Rd ∈ filter (fun h => h = Some Rd) hs) as Hin.
  { apply list_elem_of_filter. split; [done|]. by eapply list_elem_of_lookup_2. }
  destruct (filter _ hs); [by apply elem_of_nil in Hin|]. cbn [length]. lia.
Qed.

Lemma readers_none hs : (forall t, hs !! t <> Some (Some Rd)) -> readers hs = 0.
Proof.
  intros H. unfold readers. destruct (filter (fun h => h = Some Rd) hs) as [|h l] eqn:E; [done|].
  assert (h ∈ filter (fun h => h = Some Rd) hs) as Hin by (rewrite E; left).
  apply list_elem_of_filter in Hin as [-> Hin]. apply list_elem_of_lookup in Hin as [t Ht]. by destruct (H t).
Qed.

Section inv.
Context {a : arch} (diagnostic : bool) (ps : list Z).

(** The processes have distinct addresses past the values the reader count
    can take, and the count fits. *)
Definition good_procs : Prop :=
  8 * Z.of_nat (length ps) + 8 <= 2 ^ long_bits /\ NoDup (RW_PROC <$> ps) /\
  forall p, p ∈ ps -> 8 * Z.of_nat (length ps) < RW_PROC p.

Lemma rw_proc_mult p : exists c, RW_PROC p = 8 * c /\ 0 <= c /\ 8 * c + 8 <= 2 ^ long_bits.
Proof.
  pose proof (ulong_range p) as [H0 Hlt]. unfold RW_PROC, RWLOCK_MASK.
  exists (ulong p / 8). rewrite (Z_div_mod_eq_full (ulong p) 8) at 1.
  pose proof (Z.mod_pos_bound (ulong p) 8 ltac:(lia)) as Hm.
  rewrite word_ldiff by lia. replace (Z.ldiff (ulong p mod 8) 7) with 0.
  - split; [lia|]. split; [apply Z.div_pos; lia|].
    assert (exists k, 2 ^ long_bits = 8 * k) as [k Hk] by (destruct a; [by exists (2 ^ 29)|by exists (2 ^ 61)]).
    assert (ulong p / 8 < k) by (apply Z.div_lt_upper_bound; lia). lia.
  - symmetry. generalize dependent (ulong p mod 8). intros b Hb. by flag_cases b.
Qed.

(** The lock word [v] is the one of a lock that the threads hold as [hs] says:
    the waiters' bits, and either the writer or the number of readers. *)
Definition word_of (v b : Z) (hs : list (option mode)) : Prop :=
  (exists t p, hs !! t = Some (Some Wr) /\ ps !! t = Some p /\
     (forall t' h, hs !! t' = Some (Some h) -> t' = t) /\ v = RW_PROC p + 4 + b) \/
  ((forall t, hs !! t <> Some (Some Wr)) /\ v = 8 * readers hs + b /\ (readers hs = 0 -> b = 0)).

Definition consistent (v : Z) (hs : list (option mode)) : Prop :=
  length hs = length ps /\ exists b, (b = 0 \/ b = 1 \/ b = 3) /\ word_of v b hs.

(** The values thread [t] can read while it holds [h], and the changes of the
    word that take its holding from [h] to [h']. *)
Definition sees (t : nat) (h : option mode) (v : Z) : Prop :=
  exists hs, consistent v hs /\ hs !! t = Some h.

Definition moves (t : nat) (h h' : option mode) (o n : Z) : Prop :=
  forall hs, consistent o hs -> hs !! t = Some h -> consistent n (<[t := h']> hs).

Hypothesis Hgood : good_procs.

(** The word of a lock that is held for writing, or not. *)
Lemma consistent_bits v hs :
  consistent v hs -> exists c f, v = 8 * c + f /\ 0 <= c /\ 8 * c + 8 <= 2 ^ long_bits /\
    (((exists t, hs !! t = Some (Some Wr)) /\ (f = 4 \/ f = 5 \/ f = 7)) \/
     ((forall t, hs !! t <> Some (Some Wr)) /\ c = readers hs /\ (f = 0 \/ f = 1 \/ f = 3) /\ (c = 0 -> f = 0))).
Proof.
  intros (Hlen & b & Hb & [(t & p & Ht & Hp & _ & ->)|(Hn & -> & H0)]).
  - destruct (rw_proc_mult p) as (c & -> & Hc & Hlt). exists c, (4 + b). split; [lia|]. split; [done|]. split; [done|].
    left. split; [by exists t|lia].
  - exists (readers hs), b. split; [done|]. destruct hs as [|h hs].
    { simpl in *. unfold readers in *. simpl in *. split; [lia|]. split; [destruct Hgood; lia|]. right. auto. }
    pose proof (readers_bound (h :: hs) 0 h eq_refl) as Hr. split; [lia|].
    split; [|by right]. destruct Hgood as (Hg & _). rewrite <- Hlen in Hg. unfold is_rd in Hr. case_decide; lia.
Qed.

Lemma writer_word v hs t p :
  consistent v hs -> hs !! t = Some (Some Wr) -> ps !! t = Some p ->
  exists b, (b = 0 \/ b = 1 \/ b = 3) /\ v = RW_PROC p + 4 + b /\
    forall t' h, hs !! t' = Some (Some h) -> t' = t.
Proof.
  intros (Hlen & b & Hb & [(t1 & p1 & Ht1 & Hp1 & Hu & ->)|(Hn & _)]) Ht Hp; [|by destruct (Hn t)].
  assert (t = t1) as <- by (by eapply Hu). simplify_eq. eauto.
Qed.

Lemma sees_bits t h v : sees t h v -> exists c f, v = 8 * c + f /\ 0 <= c /\ 8 * c + 8 <= 2 ^ long_bits /\ 0 <= f < 8.
Proof.
  intros (hs & Hc & _). destruct (consistent_bits v hs Hc) as (c & f & ? & ? & ? & Hf). exists c, f.
  conj; try done; lia.
Qed.

(** ** The moves *)

Lemma moves_wait t h o w : o <> 0 -> w = 1 \/ w = 3 -> moves t h h o (Z.lor o w).
Proof.
  intros Ho Hw hs (Hlen & b & Hb & Hword) Ht. rewrite list_insert_id by done. split; [done|].
  exists (Z.lor b w). split; [destruct Hb as [-> |[-> | ->]], Hw as [-> | ->]; auto|].
  destruct Hword as [(t1 & p & Ht1 & Hp & Hu & ->)|(Hn & -> & H0)].
  - left. exists t1, p. conj; try done. destruct (rw_proc_mult p) as (c & -> & _).
    replace (8 * c + 4 + b) with (8 * c + (4 + b)) by lia. rewrite word_lor, <- Z.add_assoc by lia.
    f_equal. by destruct Hb as [-> |[-> | ->]], Hw as [-> | ->].
  - right. split; [done|]. rewrite word_lor by lia. split; [done|]. intros E. rewrite E in *. specialize (H0 eq_refl). lia.
Qed.

Lemma moves_read t o :
  Z.land o RWLOCK_WRLOCK = 0 -> moves t None (Some Rd) o (ulong (o + RWLOCK_READ_INCR)).
Proof.
  intros H4 hs Hc Ht. change RWLOCK_READ_INCR with 8. unfold RWLOCK_WRLOCK in H4.
  destruct (consistent_bits o hs Hc) as (c & f & -> & Hc0 & Hlt & Hf).
  rewrite word_land in H4 by lia. destruct Hf as [[_ [-> |[-> | ->]]]|(Hn & Er & Hf & H0)]; try done.
  destruct Hc as [Hlen _]. pose proof (readers_bound hs t None Ht) as Hr. unfold is_rd in Hr. rewrite decide_False in Hr by done.
  pose proof Hgood as (Hg & _).
  rewrite ulong_small by (unfold is_u; lia). split; [by rewrite length_insert|]. exists f. split; [done|]. right. split.
  - intros t' Ht'. apply list_lookup_insert_Some in Ht' as [(_ & ? & _)|[_ ?]]; [done|by destruct (Hn t')].
  - rewrite (readers_insert hs t None) by done. unfold is_rd. rewrite decide_False, decide_True by done. split; lia.
Qed.

Lemma moves_write t p :
  ps !! t = Some p -> moves t None (Some Wr) 0 (RW_PROC p + 4).
Proof.
  intros Hp hs Hc Ht. destruct (consistent_bits 0 hs Hc) as (c & f & E & Hc0 & Hlt & Hf).
  destruct Hf as [[_ Hf]|(Hn & Er & Hf & H0)]; [lia|]. destruct Hc as [Hlen _].
  split; [by rewrite length_insert|]. exists 0. split; [auto|]. left. exists t, p.
  rewrite list_lookup_insert_eq by (by eapply lookup_lt_Some). conj; try done; [|lia].
  intros t' h Ht'. apply list_lookup_insert_Some in Ht' as [(-> & _)|[_ Ht']]; [done|]. exfalso.
  destruct h; [|by destruct (Hn t')]. pose proof (readers_member hs t' Ht'). lia.
Qed.

Lemma moves_downgrade t p o :
  ps !! t = Some p ->
  moves t (Some Wr) (Some Rd) o (ulong (o + ulong (RWLOCK_READ_INCR - RWLOCK_WRLOCK + RW_PROC p * -1))).
Proof.
  intros Hp hs Hc Ht. destruct (writer_word o hs t p Hc Ht Hp) as (b & Hb & -> & Hu). destruct Hc as [Hlen _].
  change (RWLOCK_READ_INCR - RWLOCK_WRLOCK) with 4.
  assert (ulong (RW_PROC p + 4 + b + ulong (4 + RW_PROC p * -1)) = 8 + b) as ->.
  { unfold ulong, wrap. rewrite Zplus_mod_idemp_r. replace (RW_PROC p + 4 + b + (4 + RW_PROC p * -1)) with (8 + b) by lia.
    apply Z.mod_small. pose proof (is_u_mono 5 long_bits (8 + b)). unfold is_u in *. destruct a; cbn [long_bits] in *; lia. }
  split; [by rewrite length_insert|]. exists b. split; [done|]. right. split.
  - intros t' Ht'. apply list_lookup_insert_Some in Ht' as [(_ & ? & _)|[Hne Ht']]; [done|]. apply Hne. symmetry. by eapply Hu.
  - rewrite (readers_insert hs t (Some Wr)) by done. unfold is_rd. rewrite decide_False, decide_True by done.
    rewrite readers_none by (intros t' Ht'; pose proof (Hu _ _ Ht'); congruence). lia.
Qed.

Lemma moves_unwrite t p o : ps !! t = Some p -> moves t (Some Wr) None o 0.
Proof.
  intros Hp hs Hc Ht. destruct (writer_word o hs t p Hc Ht Hp) as (b & Hb & -> & Hu). destruct Hc as [Hlen _].
  assert (forall t' h, <[t := None]> hs !! t' <> Some (Some h)) as Hnone.
  { intros t' h Ht'. apply list_lookup_insert_Some in Ht' as [(_ & ? & _)|[Hne Ht']]; [done|].
    apply Hne. symmetry. by eapply Hu. }
  split; [by rewrite length_insert|]. exists 0. split; [auto|]. right. split; [eauto|].
  rewrite readers_none by eauto. done.
Qed.

(** One reader less; with its last reader the lock loses the waiters' bits,
    and so it does whenever the exit takes the slow path. *)
Lemma moves_unread t o :
  moves t (Some Rd) None o (Z.ldiff (ulong (o - RWLOCK_READ_INCR)) 3).
Proof.
  intros hs Hc Ht. change RWLOCK_READ_INCR with 8.
  destruct (consistent_bits o hs Hc) as (c & f & -> & Hc0 & Hlt & Hf).
  destruct Hf as [[[t1 Ht1] _]|(Hn & Er & Hf & H0)].
  { destruct Hc as (_ & b & _ & [(t2 & p & Ht2 & _ & Hu & _)|(Hn & _)]); [|by destruct (Hn t1)].
    assert (t = t2) by (by eapply Hu). congruence. }
  destruct Hc as [Hlen _]. pose proof (readers_member hs t Ht) as Hr.
  rewrite ulong_small by (unfold is_u; lia). replace (8 * c + f - 8) with (8 * (c - 1) + f) by lia.
  rewrite word_ldiff by lia. assert (Z.ldiff f 3 = 0) as -> by (destruct Hf as [-> |[-> | ->]]; done).
  split; [by rewrite length_insert|]. exists 0. split; [auto|]. right. split.
  - intros t' Ht'. apply list_lookup_insert_Some in Ht' as [(_ & ? & _)|[Hne Ht']]; [done|by destruct (Hn t')].
  - rewrite (readers_insert hs t (Some Rd)) by done. unfold is_rd. rewrite decide_True, decide_False by done. lia.
Qed.

Lemma moves_unread_fast t o :
  Z.land o RWLOCK_WAIT = 0 -> moves t (Some Rd) None o (ulong (o - RWLOCK_READ_INCR)).
Proof.
  intros H1 hs Hc Ht. pose proof (moves_unread t o hs Hc Ht) as HM.
  unfold RWLOCK_WAIT in H1. change RWLOCK_READ_INCR with 8 in *.
  destruct (consistent_bits o hs Hc) as (c & f & -> & Hc0 & Hlt & Hf). rewrite word_land in H1 by lia.
  destruct Hf as [[[t1 Ht1] Hf]|(Hn & Er & Hf & H0)].
  { destruct Hc as (_ & b & _ & [(t2 & p & Ht2 & _ & Hu & _)|(Hn & _)]); [|by destruct (Hn t1)].
    assert (t = t2) by (by eapply Hu). congruence. }
  pose proof (readers_member hs t Ht) as Hr. destruct Hf as [-> |[-> | ->]]; try done.
  rewrite ulong_small in HM |- * by (unfold is_u; lia). replace (8 * c + 0 - 8) with (8 * (c - 1) + 0) in * by lia.
  rewrite word_ldiff in HM by lia. exact HM.
Qed.
End inv.
