(* ===== verification/RwlockSafe.v ===== *)
(** The programs of the lock make only moves of the lock word that their
    holdings allow, and so does any interleaving of them. *)

From S2P Require Import Prelude Rwlock RwlockInv.

Lemma land_max {a : arch} v : is_u long_bits v -> Z.land v ULONG_MAX = v.
Proof.
  intros Hv. unfold ULONG_MAX. replace (2 ^ long_bits - 1) with (Z.ones long_bits) by (rewrite Z.ones_equiv; lia).
  rewrite Z.land_ones by (destruct a; done). by apply Z.mod_small.
Qed.

Lemma rw_proc_add {a : arch} p : RW_PROC p + 4 = Z.lor (RW_PROC p) RWLOCK_WRLOCK.
Proof.
  destruct (rw_proc_mult p) as (x & -> & _). unfold RWLOCK_WRLOCK.
  replace (8 * x) with (8 * x + 0) at 2 by lia. rewrite word_lor by lia. done.
Qed.

Section safe.
Context {a : arch} (diagnostic : bool) (ps : list Z).
Hypothesis Hgood : good_procs ps.

Notation rw_enter_retry := (rw_enter_retry diagnostic).
Notation rw_enter := (rw_enter diagnostic).
Notation block := (block diagnostic).

(** * Programs that respect the lock *)

(** The operations a call of [c] by a thread that held [h0] may be in. *)
Definition entering (c : call) (h0 : option mode) (flags : Z) : Prop :=
  match c with
  | EnterRead => flags = RW_READ
  | EnterWrite => flags = RW_WRITE
  | Enter f => flags = f
  | _ => False
  end /\ may_call h0 (Enter flags) = true.

Definition exiting (c : call) : Prop := c = ExitRead \/ c = ExitWrite \/ c = Exit.

Section thread.
Context (t : nat) (p : Z) (c : call) (h0 : option mode).
Hypothesis Ht : ps !! t = Some p.

(** A jump back is to the loop the call is in. *)
Definition jump (h : option mode) (l : label) : Prop :=
  match l with
  | LRetry flags op i =>
      entering c h0 flags /\ h = h0 /\ rw_ops !! Z.to_nat (Z.land flags RW_OPMASK) = Some op /\
      i = ulong (inc op + RW_PROC p * proc_mult op)
  | LExit w => exiting c /\ ((h = Some Wr /\ w <> 0) \/ (h = Some Rd /\ w = 0))
  end.

(** [safe h pc]: run by a thread that holds [h], [pc] changes the lock word
    only by moves of its holding, does not panic, and returns what it holds. *)
Fixpoint safe (h : option mode) (pc : prog) : Prop :=
  match pc with
  | Return e => result c h0 e = h
  | Goto l => jump h l
  | Load k => forall v, sees ps t h v -> safe h (k v)
  | Cas o n k => (exists h', moves ps t h h' o n /\ safe h' (k false)) /\ safe h (k true)
  | SleepSetup _ k => safe h k
  | SleepFinish intr _ k => h = None /\ forall e, (e <> 0 -> intr = true) -> safe h (k e)
  | Wakeup k => safe h k
  | Panicked => False
  end.

(** A thread that holds nothing does not meet itself in the lock word. *)
Lemma not_self v : sees ps t None v -> RW_PROC p <> RW_PROC v.
Proof.
  intros (hs & Hc & Hh) E. pose proof Hgood as (Hg & Hnd & Hpast).
  assert (Hp : p ∈ ps) by (by eapply list_elem_of_lookup_2). specialize (Hpast p Hp).
  destruct (sees_bits ps Hgood t None v) as (c1 & f & Ev & Hc1 & Hlt & Hf); [by exists hs|].
  assert (RW_PROC v = 8 * c1) as Ev'.
  { unfold RW_PROC. rewrite ulong_small by (unfold is_u; lia). rewrite Ev. unfold RWLOCK_MASK. rewrite word_ldiff by lia.
    replace (Z.ldiff f 7) with 0; [lia|]. by flag_cases f. }
  destruct Hc as (Hlen & b & Hb & [(t1 & p1 & Ht1 & Hp1 & Hu & Ew)|(Hn & Ew & H0)]).
  - destruct (rw_proc_mult p1) as (c2 & Ep1 & _). assert (c1 = c2) as <- by lia.
    assert (t = t1) as <-; [|congruence].
    eapply (NoDup_lookup _ _ _ (RW_PROC p) Hnd); rewrite list_lookup_fmap.
    + by rewrite Ht.
    + rewrite Hp1. simpl. f_equal. lia.
  - pose proof (readers_bound hs t None Hh) as Hr. unfold is_rd in Hr. rewrite decide_False in Hr by done. lia.
Qed.

Lemma diag_safe flags k :
  Z.land flags RW_OPMASK = RW_WRITE \/ Z.land flags RW_OPMASK = RW_READ ->
  safe None k -> safe None (rw_enter_diag diagnostic p flags k).
Proof.
  intros Hop Hk. unfold rw_enter_diag. destruct diagnostic; cbn [negb]; [|done].
  assert ((Z.land flags RW_OPMASK =? RW_WRITE) || (Z.land flags RW_OPMASK =? RW_READ) = true) as ->.
  { destruct Hop as [-> | ->]; done. }
  cbn [safe]. intros v Hv. destruct (Z.eqb_spec (RW_PROC p) (RW_PROC v)) as [E|]; [|done].
  by destruct (not_self v Hv).
Qed.

(** The call returns an error only when it may, and then holds nothing. *)
Lemma error_result flags e :
  entering c None flags -> h0 = None -> e <> 0 ->
  flag flags RW_NOSLEEP = true \/ flag flags RW_INTR = true \/ flag flags RW_SLEEPFAIL = true ->
  result c h0 e = None.
Proof.
  intros [Hc _] -> He Hfl. destruct c; try done; subst flags; [by destruct Hfl as [?|[?|?]]..|].
  simpl. by destruct (Z.eqb_spec e 0).
Qed.

(** The round of the loop that waits for the lock. *)
Lemma wait_safe flags op o :
  entering c None flags -> h0 = None -> rw_ops !! Z.to_nat (Z.land flags RW_OPMASK) = Some op ->
  o <> 0 -> wait_set op = 1 \/ wait_set op = 3 ->
  let i := ulong (inc op + RW_PROC p * proc_mult op) in
  safe None (rw_enter_diag diagnostic p flags
    (if flag flags RW_NOSLEEP then Return EBUSY
     else SleepSetup (wait_prio op) (Cas o (Z.lor o (wait_set op)) (fun failed =>
       SleepFinish (flag flags RW_INTR) (negb failed) (fun error =>
         if flag flags RW_INTR && negb (error =? 0) then Return error
         else if flag flags RW_SLEEPFAIL then Return EAGAIN
         else Goto (LRetry flags op i)))))).
Proof.
  intros He Hh Hop Ho Hw i. apply diag_safe.
  { destruct He as [_ He]. simpl in He. apply orb_true_iff in He as [?%Z.eqb_eq|?%Z.eqb_eq]; auto. }
  destruct (flag flags RW_NOSLEEP) eqn:En; [simpl; by eapply error_result; eauto|]. cbn [safe].
  assert (forall e, safe None (if flag flags RW_INTR && negb (e =? 0) then Return e
    else if flag flags RW_SLEEPFAIL then Return EAGAIN else Goto (LRetry flags op i))) as Hend.
  { intros e. destruct (flag flags RW_INTR && negb (e =? 0)) eqn:E.
    - boolify. simpl. eapply error_result; eauto.
    - destruct (flag flags RW_SLEEPFAIL) eqn:Es; [simpl; by eapply error_result; eauto|].
      simpl. by rewrite Hh. }
  split; [exists None; split; [by apply moves_wait|]|]; (split; [done|]); intros e _; apply Hend.
Qed.

Lemma sees_range v h : sees ps t h v -> is_u long_bits v.
Proof. intros H. destruct (sees_bits ps Hgood t h v H) as (x & f & -> & ? & ? & ?). unfold is_u. lia. Qed.

Lemma write_safe flags op :
  entering c None flags -> h0 = None -> Z.land flags RW_OPMASK = RW_WRITE ->
  rw_ops !! Z.to_nat (Z.land flags RW_OPMASK) = Some op ->
  safe None (rw_enter_retry p flags op (ulong (inc op + RW_PROC p * proc_mult op))).
Proof.
  intros He Hh Ef Hop. assert (op = mkop RWLOCK_WRLOCK ULONG_MAX 3 1 (PLOCK - 4)) as Eop.
  { rewrite Ef in Hop. by injection Hop as <-. }
  unfold Rwlock.rw_enter_retry. cbn [safe]. intros o Ho. pose proof (sees_range o None Ho) as Hu.
  assert (Z.land o (check op) = o) as -> by (rewrite Eop; by apply land_max).
  destruct (Z.eqb_spec o 0) as [-> |Hne]; cbn [negb].
  2: { apply wait_safe; auto. rewrite Eop. auto. }
  cbn [safe]. split; [|simpl; by rewrite Hh]. exists (Some Wr). split.
  - rewrite Eop. cbn [inc proc_mult]. unfold RWLOCK_WRLOCK. destruct (rw_proc_mult p) as (x & Ex & Hx & Hlt).
    rewrite (ulong_small (4 + RW_PROC p * 1)) by (unfold is_u; lia). rewrite ulong_small by (unfold is_u; lia).
    replace (0 + (4 + RW_PROC p * 1)) with (RW_PROC p + 4) by lia. by apply moves_write.
  - simpl. rewrite Hh. destruct He as [Hc _]. destruct c; try done; subst flags; [done|]. simpl. by rewrite Ef.
Qed.

Lemma read_safe flags op :
  entering c None flags -> h0 = None -> Z.land flags RW_OPMASK = RW_READ ->
  rw_ops !! Z.to_nat (Z.land flags RW_OPMASK) = Some op ->
  safe None (rw_enter_retry p flags op (ulong (inc op + RW_PROC p * proc_mult op))).
Proof.
  intros He Hh Ef Hop. assert (op = mkop RWLOCK_READ_INCR RWLOCK_WRLOCK RWLOCK_WAIT 0 PLOCK) as Eop.
  { rewrite Ef in Hop. by injection Hop as <-. }
  unfold Rwlock.rw_enter_retry. cbn [safe]. intros o Ho.
  replace (check op) with RWLOCK_WRLOCK by (by rewrite Eop).
  destruct (Z.eqb_spec (Z.land o RWLOCK_WRLOCK) 0) as [E|E]; cbn [negb].
  2: { apply wait_safe; auto; [by intros -> |]. rewrite Eop. auto. }
  cbn [safe]. split; [|simpl; by rewrite Hh]. exists (Some Rd). split.
  - rewrite Eop. cbn [inc proc_mult]. rewrite Z.mul_0_r, Z.add_0_r.
    assert (ulong RWLOCK_READ_INCR = RWLOCK_READ_INCR) as -> by (by destruct a). by apply moves_read.
  - assert (Z.land o (Z.lor RWLOCK_WRLOCK RWLOCK_WAIT) =? Z.lor RWLOCK_WRLOCK RWLOCK_WAIT = false) as ->.
    { destruct (sees_bits ps Hgood t None o Ho) as (x & f & -> & _ & _ & Hf). unfold RWLOCK_WRLOCK, RWLOCK_WAIT in *.
      change (Z.lor 4 1) with 5. rewrite word_land in E |- * by lia. by flag_cases f. }
    simpl. rewrite Hh. destruct He as [Hc _]. destruct c; try done; subst flags; [done|]. simpl. by rewrite Ef.
Qed.

Lemma downgrade_safe flags op :
  c = Enter flags -> h0 = Some Wr -> Z.land flags RW_OPMASK = RW_DOWNGRADE ->
  rw_ops !! Z.to_nat (Z.land flags RW_OPMASK) = Some op ->
  safe (Some Wr) (rw_enter_retry p flags op (ulong (inc op + RW_PROC p * proc_mult op))).
Proof.
  intros Hc Hh Ef Hop. assert (op = mkop (ulong (RWLOCK_READ_INCR - RWLOCK_WRLOCK)) 0 0 (-1) PLOCK) as Eop.
  { rewrite Ef in Hop. by injection Hop as <-. }
  unfold Rwlock.rw_enter_retry. cbn [safe]. intros o Ho. replace (check op) with 0 by (by rewrite Eop).
  rewrite Z.land_0_r. cbn [negb Z.eqb safe]. split.
  - exists (Some Rd). split.
    + rewrite Eop. cbn [inc proc_mult]. assert (ulong (RWLOCK_READ_INCR - RWLOCK_WRLOCK) = RWLOCK_READ_INCR - RWLOCK_WRLOCK) as ->
        by (by destruct a). by apply moves_downgrade.
    + cbv zeta. case_if; cbn [safe]; rewrite Hc; simpl; by rewrite Ef.
  - cbn [safe]. unfold jump, entering. rewrite Hc, Hh. conj; try done. unfold may_call. by rewrite Ef.
Qed.

Lemma retry_safe flags op i :
  jump h0 (LRetry flags op i) -> safe h0 (rw_enter_retry p flags op i).
Proof.
  intros (He & _ & Hop & ->). pose proof (proj2 He) as Hm. simpl in Hm. destruct h0 as [[]|] eqn:Eh; [done|..].
  - apply Z.eqb_eq in Hm. apply downgrade_safe; auto. destruct He as [Hc _].
    destruct c; try done; subst flags; done.
  - apply orb_true_iff in Hm as [Hm%Z.eqb_eq|Hm%Z.eqb_eq]; [by apply write_safe|by apply read_safe].
Qed.

Lemma enter_safe flags : entering c h0 flags -> safe h0 (rw_enter p flags).
Proof.
  intros He. unfold Rwlock.rw_enter.
  assert (exists op, rw_ops !! Z.to_nat (Z.land flags RW_OPMASK) = Some op) as [op Hop].
  { destruct He as [_ He]. simpl in He. destruct h0 as [[]|]; [done|..].
    - apply Z.eqb_eq in He as ->. by eexists.
    - apply orb_true_iff in He as [->%Z.eqb_eq| ->%Z.eqb_eq]; by eexists. }
  rewrite Hop. by apply retry_safe.
Qed.

Lemma exit_loop_safe h w :
  exiting c -> (h = Some Wr /\ w <> 0) \/ (h = Some Rd /\ w = 0) -> safe h (rw_exit_loop w).
Proof.
  intros Hc Hh. unfold rw_exit_loop. cbn [safe]. intros o Ho. split; [|done]. exists None. split.
  - destruct Hh as [[-> Hw]|[-> ->]].
    + destruct (Z.eqb_spec w 0); [done|]. by eapply moves_unwrite.
    + simpl negb. by apply moves_unread.
  - case_if; simpl; by destruct Hc as [-> |[-> | ->]].
Qed.

(** The flag the exit looks at tells how the thread holds the lock. *)
Lemma exit_safe h : exiting c -> h <> None -> safe h rw_exit.
Proof.
  intros Hc Hh. unfold rw_exit. cbn [safe]. intros o (hs & Hcon & Hhs). apply exit_loop_safe; [done|].
  unfold RWLOCK_WRLOCK. destruct h as [[]|]; [right|left|done]; split; try done.
  - destruct (consistent_bits ps Hgood o hs Hcon) as (x & f & -> & _ & _ & Hf). rewrite word_land by lia.
    destruct Hf as [[[t1 Ht1] _]|(_ & _ & [-> |[-> | ->]] & _)]; [|done..].
    destruct Hcon as (_ & b & _ & [(t2 & q & Ht2 & _ & Hu & _)|(Hn & _)]); [|by destruct (Hn t1)].
    assert (t = t2) by (by eapply Hu). congruence.
  - destruct (writer_word ps o hs t p Hcon Hhs Ht) as (b & Hb & -> & _). destruct (rw_proc_mult p) as (x & -> & _).
    replace (8 * x + 4 + b) with (8 * x + (4 + b)) by lia. rewrite word_land by lia.
    by destruct Hb as [-> |[-> | ->]].
Qed.

Lemma flag_false o m : flag o m = false -> Z.land o m = 0.
Proof. unfold flag. intros H. boolify. done. Qed.

Lemma enter_read_safe : c = EnterRead -> h0 = None -> safe None (rw_enter_read diagnostic p).
Proof.
  intros Hc Hh. assert (entering c h0 RW_READ) as He by (rewrite Hc, Hh; by split).
  apply enter_safe in He. rewrite Hh in He at 1. unfold rw_enter_read. cbn [safe]. intros o Ho.
  destruct (flag o RWLOCK_WRLOCK) eqn:Ef; [done|]. cbn [safe]. split; [|done].
  exists (Some Rd). split; [|by rewrite Hc]. apply moves_read; [done|by apply flag_false].
Qed.

Lemma enter_write_safe : c = EnterWrite -> h0 = None -> safe None (rw_enter_write diagnostic p).
Proof.
  intros Hc Hh. assert (entering c h0 RW_WRITE) as He by (rewrite Hc, Hh; by split).
  apply enter_safe in He. rewrite Hh in He at 1. unfold rw_enter_write. cbn [safe]. split; [|done].
  exists (Some Wr). split; [|by rewrite Hc]. rewrite <- rw_proc_add. by apply moves_write.
Qed.

Lemma exit_read_safe : c = ExitRead -> safe (Some Rd) rw_exit_read.
Proof.
  intros Hc. assert (safe (Some Rd) rw_exit) as He by (apply exit_safe; [rewrite Hc; by left|done]).
  unfold rw_exit_read. cbn [safe]. intros o Ho. destruct (flag o RWLOCK_WAIT) eqn:Ef; [done|]. cbn [safe].
  split; [|done]. exists None. split; [|by rewrite Hc]. apply moves_unread_fast; [done|by apply flag_false].
Qed.

Lemma exit_write_safe : c = ExitWrite -> safe (Some Wr) rw_exit_write.
Proof.
  intros Hc. assert (safe (Some Wr) rw_exit) as He by (apply exit_safe; [rewrite Hc; by right; left|done]).
  unfold rw_exit_write. cbn [safe]. intros o Ho. destruct (flag o RWLOCK_WAIT) eqn:Ef; [done|]. cbn [safe].
  split; [|done]. exists None. split; [|by rewrite Hc]. by eapply moves_unwrite.
Qed.

Lemma code_safe : may_call h0 c = true -> safe h0 (code diagnostic p c).
Proof.
  intros Hm. pose proof enter_read_safe. pose proof enter_write_safe. pose proof exit_read_safe.
  pose proof exit_write_safe. pose proof (exit_safe h0) as Hx. destruct c as [| |flags| | |] eqn:Ec; cbn [code].
  all: try (destruct h0 as [[]|]; by auto).
  - apply enter_safe. rewrite Ec. by split.
  - apply Hx; [unfold exiting; auto|]. by destruct h0.
Qed.

Lemma block_safe h l : jump h l -> safe h (block p l).
Proof.
  destruct l as [flags op i|w]; simpl.
  - intros (He & -> & Hop & Ei). by apply retry_safe.
  - intros [Hc Hh]. by apply exit_loop_safe.
Qed.
End thread.

(** * Any interleaving *)

Definition ctl_ok (t : nat) (p : Z) (h : option mode) (ctl : control) : Prop :=
  match ctl with
  | Out h' => h' = h
  | In c h0 pc => safe t p c h0 h pc
  | Asleep c h0 intr k => h = None /\ forall e, (e <> 0 -> intr = true) -> safe t p c h0 h (k e)
  end.

(** The lock word is that of the holdings [hs], and each thread runs a program
    that is safe with its holding. *)
Definition minv (m : machine) (hs : list (option mode)) : Prop :=
  consistent ps (rwl_owner m) hs /\ t_proc <$> threads m = ps /\
  forall t th h, threads m !! t = Some th -> hs !! t = Some h -> ctl_ok t (t_proc th) h (t_ctl th).

Lemma minv_thread m hs t th :
  minv m hs -> threads m !! t = Some th -> exists h, hs !! t = Some h /\ ps !! t = Some (t_proc th) /\
    ctl_ok t (t_proc th) h (t_ctl th).
Proof.
  intros (Hc & Hps & Hok) Ht. assert (ps !! t = Some (t_proc th)) as Hp.
  { rewrite <- Hps, list_lookup_fmap, Ht. done. }
  destruct (lookup_lt_is_Some_2 hs t) as [h Hh]; [rewrite (proj1 Hc); by eapply lookup_lt_Some|]. eauto.
Qed.

Lemma minv_move m m' hs t th h h' ctl :
  minv m hs -> threads m !! t = Some th -> hs !! t = Some h ->
  threads m' = <[t := mkthread (t_proc th) ctl]> (threads m) ->
  consistent ps (rwl_owner m') (<[t := h']> hs) -> ctl_ok t (t_proc th) h' ctl -> minv m' (<[t := h']> hs).
Proof.
  intros (Hc & Hps & Hok) Ht Hh Hth Hc' Hctl. split; [done|]. rewrite Hth. split.
  - rewrite list_fmap_insert. simpl. rewrite Hps. apply list_insert_id. by rewrite <- Hps, list_lookup_fmap, Ht.
  - intros t1 th1 h1 Ht1 Hh1. destruct (decide (t1 = t)) as [-> |Hne].
    + rewrite list_lookup_insert_eq in Ht1 by (by eapply lookup_lt_Some).
      rewrite list_lookup_insert_eq in Hh1 by (by eapply lookup_lt_Some). by simplify_eq.
    + rewrite list_lookup_insert_ne in Ht1 by done. rewrite list_lookup_insert_ne in Hh1 by done. eauto.
Qed.

Lemma minv_stay m m' hs t th h ctl :
  minv m hs -> threads m !! t = Some th -> hs !! t = Some h ->
  threads m' = <[t := mkthread (t_proc th) ctl]> (threads m) -> rwl_owner m' = rwl_owner m ->
  ctl_ok t (t_proc th) h ctl -> exists hs', minv m' hs'.
Proof.
  intros HM Ht Hh Hth Ho Hctl. exists (<[t := h]> hs). eapply minv_move; try done.
  rewrite Ho, list_insert_id by done. apply HM.
Qed.

Lemma act_minv m hs t ch m' :
  minv m hs -> act diagnostic t ch m = Some m' -> exists hs', minv m' hs'.
Proof.
  intros HM Ha. unfold act in Ha. destruct (threads m !! t) as [th|] eqn:Ht; [|done].
  destruct (minv_thread m hs t th HM Ht) as (h & Hh & Hp & Hok).
  destruct (t_ctl th) as [h1|c h0 pc|c h0 intr k] eqn:Ectl; cbn [ctl_ok] in Hok.
  - destruct ch as [c| |]; try done. destruct (may_call h1 c) eqn:Em; [|done]. simplify_eq.
    eapply minv_stay; try done. simpl. by apply code_safe.
  - destruct pc as [e|l|k|o n k|prio k|intr ds k|k|]; cbn [safe] in Hok; try done.
    + destruct ch; try done. simplify_eq. by eapply minv_stay.
    + destruct ch; try done. simplify_eq. eapply minv_stay; try done. by apply block_safe.
    + destruct ch; try done. simplify_eq. eapply minv_stay; try done. apply Hok. exists hs. split; [apply HM|done].
    + destruct ch; try done. destruct (Z.eqb_spec (rwl_owner m) o) as [Eo|Eo]; simplify_eq.
      * destruct Hok as [(h' & Hmv & Hs) _]. exists (<[t := h']> hs). eapply minv_move; try done.
        simpl. apply Hmv; [apply HM|done].
      * eapply minv_stay; try done. apply Hok.
    + destruct ch; try done. destruct (sched_lock m); simplify_eq. by eapply minv_stay.
    + destruct Hok as [Hn Hk]. destruct ch as [c0| |e], intr, ds; try done.
      all: try (destruct (Z.eqb_spec e 0); [done|]); simplify_eq; eapply minv_stay; try done; by apply Hk.
    + destruct ch; try done. destruct (sched_lock m); simplify_eq. by eapply minv_stay.
  - destruct Hok as [Hn Hk]. destruct ch as [c0| |e], intr; try done.
    + case_bool_decide; simplify_eq. eapply minv_stay; try done. by apply Hk.
    + case_bool_decide; simplify_eq. eapply minv_stay; try done. by apply Hk.
    + destruct (_ || _) eqn:E; [done|]. apply orb_false_iff in E as [E _]. boolify.
      simplify_eq. eapply minv_stay; try done. by apply Hk.
Qed.

Lemma init_minv : minv (rw_init ps) (replicate (length ps) None).
Proof.
  split; [|split].
  - split; [apply length_replicate|]. exists 0. split; [auto|]. right. split.
    + intros t Ht. apply lookup_replicate in Ht as [? _]. done.
    + rewrite readers_none; [done|]. intros t Ht. apply lookup_replicate in Ht as [? _]. done.
  - simpl. rewrite <- list_fmap_compose. apply list_fmap_id.
  - intros t th h Ht Hh. simpl in Ht. rewrite list_lookup_fmap in Ht. apply lookup_replicate in Hh as [-> _].
    destruct (ps !! t); [|done]. by injection Ht as <-.
Qed.

Lemma reachable_minv m : reachable diagnostic ps m -> exists hs, minv m hs.
Proof.
  induction 1 as [|m t ch m' Hr [hs IH] Ha]; [eexists; apply init_minv|]. by eapply act_minv.
Qed.
End safe.
