(* ===== verification/RwlockSpec.v ===== *)
(** What the lock promises: writers exclude everybody, no wakeup is lost, and
    what the calls do to an uncontended lock. *)

From S2P Require Import Prelude Rwlock RwlockInv RwlockSafe.

(** * Wakeups *)

Section wake.
Context {a : arch} (diagnostic : bool).

(** About to sleep, the next step being the sleep; about to wake the queue. *)
Definition dozing (pc : prog) : Prop := match pc with SleepFinish _ true _ => True | _ => False end.
Definition waking (pc : prog) : Prop := match pc with Wakeup _ => True | _ => False end.

Definition waits (v : Z) : Prop := Z.testbit v 0 = true.

Definition good_label (l : label) : Prop :=
  match l with LRetry _ op i => op ∈ rw_ops /\ Z.odd i = false | LExit _ => True end.

(** A program that sleeps only right after it has set the waiters' bit, and
    that wakes the queue right after it has cleared it. *)
Fixpoint polite (pc : prog) : Prop :=
  match pc with
  | Return _ | Panicked => True
  | Goto l => good_label l
  | Load k => forall v, ~ dozing (k v) /\ polite (k v)
  | Cas o n k =>
      (waits o -> ~ waits n -> waking (k false)) /\ (dozing (k false) -> waits n) /\ ~ dozing (k true) /\
      polite (k false) /\ polite (k true)
  | SleepSetup _ k | Wakeup k => ~ dozing k /\ polite k
  | SleepFinish _ _ k => forall e, ~ dozing (k e) /\ polite (k e)
  end.

(** The next step of a program whose head is known is no sleep. *)
Ltac not_dozing := solve [exact (fun H => H) | done | split; [exact (fun H => H)|done] | simpl; tauto].

Lemma waits_flag v : flag v RWLOCK_WAIT = true <-> waits v.
Proof.
  unfold flag, RWLOCK_WAIT, waits. change 1 with (Z.ones 1). rewrite Z.land_ones by lia. change (2 ^ 1) with 2.
  rewrite Zmod_odd, Z.bit0_odd. by destruct (Z.odd v).
Qed.

Lemma odd_ulong z : Z.odd (ulong z) = Z.odd z.
Proof.
  rewrite <- !Z.bit0_odd. unfold ulong, wrap. apply Z.mod_pow2_bits_low. destruct a; cbn [long_bits]; lia.
Qed.

Lemma waits_add o i : Z.odd i = false -> waits o -> waits (ulong (o + i)).
Proof.
  unfold waits. rewrite !Z.bit0_odd, odd_ulong, Z.odd_add. by intros -> ->.
Qed.

Lemma waits_lor o w : w = 1 \/ w = 3 -> waits (Z.lor o w).
Proof. unfold waits. rewrite Z.lor_spec. intros [-> | ->]; by rewrite orb_true_r. Qed.

Lemma rw_ops_cases op : op ∈ rw_ops -> Z.land 0 (check op) = 0 /\
  ((wait_set op = 1 \/ wait_set op = 3) \/ check op = 0) /\ Z.odd (inc op) = false.
Proof.
  intros H. unfold rw_ops in H. rewrite !elem_of_cons, elem_of_nil in H.
  destruct H as [-> |[-> |[-> |[]]]]; simpl; conj; auto. by rewrite odd_ulong.
Qed.

Lemma rw_proc_even p : Z.odd (RW_PROC p) = false.
Proof. destruct (rw_proc_mult p) as (c & -> & _). by rewrite Z.odd_mul. Qed.

Lemma diag_polite p flags k : ~ dozing k -> polite k ->
  ~ dozing (rw_enter_diag diagnostic p flags k) /\ polite (rw_enter_diag diagnostic p flags k).
Proof.
  intros Hd Hk. unfold rw_enter_diag. destruct diagnostic; [|done]. cbn [negb]. cbv zeta.
  case_if; [|case_if; [|not_dozing]]; (split; [not_dozing|]); cbn [polite]; intros v.
  - case_if; [not_dozing|done].
  - case_if; [not_dozing|]. split; [not_dozing|]. cbn [polite]. intros w. case_if; [not_dozing|done].
Qed.

Lemma retry_polite p flags op i :
  op ∈ rw_ops -> Z.odd i = false -> polite (rw_enter_retry diagnostic p flags op i).
Proof.
  intros Hop Hi. destruct (rw_ops_cases op Hop) as (_ & Hws & _). cbn [rw_enter_retry polite]. intros o.
  destruct (Z.eqb_spec (Z.land o (check op)) 0) as [E|E]; cbn [negb].
  - split; [not_dozing|]. cbn [polite]. conj; try not_dozing.
    + intros H1 H2. by destruct (H2 (waits_add o i Hi H1)).
    + cbv zeta. case_if; not_dozing.
    + cbv zeta. case_if; not_dozing.
  - destruct Hws as [Hws|E0]; [|by rewrite E0, Z.land_0_r in E]. apply diag_polite; [case_if; not_dozing|].
    case_if; [not_dozing|]. cbn [polite]. pose proof (waits_lor o _ Hws). conj; try not_dozing; simpl.
    + intros e. case_if; [not_dozing|]. case_if; not_dozing.
    + intros e. case_if; [not_dozing|]. case_if; not_dozing.
Qed.

Lemma enter_polite p flags :
  ~ dozing (rw_enter diagnostic p flags) /\ polite (rw_enter diagnostic p flags).
Proof.
  unfold rw_enter. destruct (rw_ops !! _) as [op|] eqn:E; [|not_dozing]. split; [not_dozing|].
  assert (op ∈ rw_ops) as Hop by (by eapply list_elem_of_lookup_2). apply retry_polite; [done|].
  destruct (rw_ops_cases op Hop) as (_ & _ & Hi). by rewrite odd_ulong, Z.odd_add, Hi, Z.odd_mul, rw_proc_even.
Qed.

Lemma exit_loop_polite w : polite (rw_exit_loop w).
Proof.
  cbn [rw_exit_loop polite]. intros o. split; [not_dozing|]. conj; try not_dozing.
  - intros H1 _. apply waits_flag in H1. by rewrite H1.
  - case_if; not_dozing.
  - case_if; not_dozing.
Qed.

Lemma exit_polite : ~ dozing rw_exit /\ polite rw_exit.
Proof. split; [not_dozing|]. cbn [rw_exit polite]. intros o. split; [not_dozing|]. apply exit_loop_polite. Qed.

Lemma code_polite p c : ~ dozing (code diagnostic p c) /\ polite (code diagnostic p c).
Proof.
  destruct (enter_polite p RW_READ), (enter_polite p RW_WRITE), exit_polite.
  assert (forall o n, Z.land o RWLOCK_WAIT = 0 ->
    polite (Cas o n (fun failed => if failed then rw_exit else Return 0))) as Hx.
  { intros o n Ho. cbn [polite]. conj; try not_dozing. intros Hw. apply waits_flag in Hw. unfold flag in Hw. by rewrite Ho in Hw. }
  destruct c; cbn [code]; [..|apply enter_polite| | |done]; (split; [not_dozing|]).
  - cbn [rw_enter_read polite]. intros o. case_if; [not_dozing|]. split; [not_dozing|]. cbn [polite]. conj; try not_dozing.
    intros Hw Hn. by destruct (Hn (waits_add o 8 eq_refl Hw)).
  - cbn [rw_enter_write polite]. conj; try not_dozing.
  - cbn [rw_exit_read polite]. intros o. case_if; [not_dozing|]. split; [not_dozing|]. apply Hx. by apply flag_false.
  - cbn [rw_exit_write polite]. intros o. case_if; [not_dozing|]. split; [not_dozing|]. apply Hx. by apply flag_false.
Qed.

Lemma block_polite p l : good_label l -> ~ dozing (block diagnostic p l) /\ polite (block diagnostic p l).
Proof.
  destruct l as [flags op i|w]; simpl.
  - intros [Hop Hi]. split; [not_dozing|]. by apply retry_polite.
  - intros _. split; [not_dozing|]. apply exit_loop_polite.
Qed.

(** ** Sleepers are not forgotten *)

Definition polite_ctl (ctl : control) : Prop :=
  match ctl with
  | Out _ => True
  | In _ _ pc => polite pc
  | Asleep _ _ _ k => forall e, ~ dozing (k e) /\ polite (k e)
  end.

Definition asleep (ctl : control) : Prop :=
  match ctl with Asleep _ _ _ _ => True | In _ _ pc => dozing pc | Out _ => False end.

Definition about_to_wake (ctl : control) : Prop :=
  match ctl with In _ _ pc => waking pc | _ => False end.

(** Who is asleep and on the queue has the waiters' bit to rely on, or a thread
    that is about to wake the queue. *)
Definition relied (m : machine) : Prop :=
  waits (rwl_owner m) \/ exists t th, threads m !! t = Some th /\ about_to_wake (t_ctl th).

Record winv (m : machine) : Prop := {
  w_polite : forall t th, threads m !! t = Some th -> polite_ctl (t_ctl th);
  w_asleep : forall t th, threads m !! t = Some th -> asleep (t_ctl th) -> t ∈ sleepers m -> relied m }.

Lemma winv_step m m' t th ctl :
  winv m -> threads m !! t = Some th -> threads m' = <[t := mkthread (t_proc th) ctl]> (threads m) ->
  polite_ctl ctl ->
  (forall t', t' <> t -> t' ∈ sleepers m' -> t' ∈ sleepers m) ->
  (asleep ctl -> t ∈ sleepers m' -> relied m' \/ (asleep (t_ctl th) /\ t ∈ sleepers m)) ->
  (waits (rwl_owner m) -> waits (rwl_owner m') \/ about_to_wake ctl) ->
  (about_to_wake (t_ctl th) -> sleepers m' = []) -> winv m'.
Proof.
  intros [Hp Ha] Ht Hth Hpol Hsl Hself Hbit Hwake. assert (t < length (threads m))%nat as Hlt by (by eapply lookup_lt_Some).
  assert (relied m -> sleepers m' <> [] -> relied m') as Hrel.
  { intros [Hw|(t1 & th1 & Ht1 & Hw1)] Hne.
    - destruct (Hbit Hw) as [?|Hk]; [by left|]. right. exists t. eexists. by rewrite Hth, list_lookup_insert_eq.
    - destruct (decide (t1 = t)) as [-> |Hne1]; [simplify_eq; by destruct (Hne (Hwake Hw1))|].
      right. exists t1, th1. by rewrite Hth, list_lookup_insert_ne. }
  split.
  - intros t1 th1. rewrite Hth. intros H1. apply list_lookup_insert_Some in H1 as [(_ & <- & _)|[_ H1]]; [done|by eapply Hp].
  - intros t1 th1. rewrite Hth. intros H1 Has Hin. assert (sleepers m' <> []) as Hne by (by intros E; rewrite E in Hin; apply elem_of_nil in Hin).
    apply list_lookup_insert_Some in H1 as [(<- & <- & _)|[Hne1 H1]].
    + destruct (Hself Has Hin) as [?|[H2 H3]]; [done|]. apply Hrel; [by eapply Ha|done].
    + apply Hrel; [|done]. eapply Ha; [done..|]. by apply Hsl.
Qed.

Lemma elem_dequeue t t' q : t' ∈ dequeue t q -> t' ∈ q.
Proof. unfold dequeue. intros H. by apply list_elem_of_filter in H as [_ ?]. Qed.

Lemma self_dequeue t q : t ∉ dequeue t q.
Proof. unfold dequeue. intros H. by apply list_elem_of_filter in H as [? _]. Qed.

(** The side conditions of [winv_step] that hold by the shape of the step. *)
Ltac step_conditions :=
  cbn [asleep about_to_wake polite_ctl goto_ctl set_owner set_sleep rwl_owner sleepers threads t_ctl];
  try solve [done | auto | tauto | intros; tauto | intros; by eapply elem_dequeue | intros [] |
    intros _ ?; exfalso; by eapply self_dequeue].

Lemma act_winv m t ch m' : winv m -> act diagnostic t ch m = Some m' -> winv m'.
Proof.
  intros HW Ha. unfold act in Ha. destruct (threads m !! t) as [th|] eqn:Ht; [|done].
  pose proof (w_polite _ HW t th Ht) as Hpol. destruct (t_ctl th) as [h1|c h0 pc|c h0 intr k] eqn:Ectl; cbn [polite_ctl] in Hpol.
  - destruct ch as [c| |]; try done. destruct (may_call h1 c); [|done]. simplify_eq.
    destruct (code_polite (t_proc th) c). eapply winv_step; try done; rewrite ?Ectl; step_conditions.
  - destruct pc as [e|l|k|o n k|prio k|intr ds k|k|]; cbn [polite] in Hpol; try done.
    + destruct ch; try done. simplify_eq. eapply winv_step; try done; rewrite ?Ectl; step_conditions.
    + destruct ch; try done. simplify_eq. destruct (block_polite (t_proc th) l Hpol).
      eapply winv_step; try done; rewrite ?Ectl; step_conditions.
    + destruct ch; try done. simplify_eq. destruct (Hpol (rwl_owner m)).
      eapply winv_step; try done; rewrite ?Ectl; step_conditions.
    + destruct ch; try done. destruct Hpol as (P1 & P2 & P3 & P4 & P5).
      destruct (Z.eqb_spec (rwl_owner m) o) as [Eo|Eo]; simplify_eq; eapply winv_step; try done; rewrite ?Ectl; step_conditions.
      * intros Hd _. left. left. by apply P2.
      * intros Hw. destruct (decide (Z.testbit n 0 = true)); [by left|right]. by apply P1.
    + destruct ch; try done. destruct (sched_lock m); simplify_eq. destruct Hpol.
      eapply winv_step; try done; rewrite ?Ectl; step_conditions.
      intros t' Hne Hin. apply elem_of_app in Hin as [?|Hin]; [done|]. by apply list_elem_of_singleton in Hin.
    + destruct ch as [c0| |e], intr, ds; try done.
      all: try (destruct (Z.eqb_spec e 0); [done|]); simplify_eq; try destruct (Hpol 0); try destruct (Hpol e);
        eapply winv_step; try done; rewrite ?Ectl; step_conditions.
    + destruct ch; try done. destruct (sched_lock m); simplify_eq. destruct Hpol.
      eapply winv_step; try done; rewrite ?Ectl; step_conditions. intros t' _ Hin. by apply elem_of_nil in Hin.
  - destruct ch as [c0| |e], intr; try done.
    1,2: case_bool_decide; simplify_eq; destruct (Hpol 0); eapply winv_step; try done; rewrite ?Ectl; step_conditions.
    destruct (_ || _); [done|]. simplify_eq. destruct (Hpol e). eapply winv_step; try done; rewrite ?Ectl; step_conditions.
Qed.

Lemma reachable_winv ps m : reachable diagnostic ps m -> winv m.
Proof.
  induction 1 as [|m t ch m' Hr IH Ha]; [|by eapply act_winv].
  assert (forall t th, threads (rw_init ps) !! t = Some th -> t_ctl th = Out None) as Hout.
  { intros t th Ht. simpl in Ht. rewrite list_lookup_fmap in Ht. destruct (ps !! t); [|done]. by injection Ht as <-. }
  split; intros t th Ht; rewrite (Hout t th Ht); done.
Qed.
End wake.

(** * The properties *)

Section properties.
Context {a : arch} (diagnostic : bool) (ps : list Z).

Lemma holder m hs t th h :
  minv ps m hs -> threads m !! t = Some th -> t_ctl th = Out h -> hs !! t = Some h.
Proof.
  intros HM Ht Hc. destruct (minv_thread _ _ _ _ _ HM Ht) as (h' & Hh & _ & Hok). rewrite Hc in Hok. by rewrite Hok.
Qed.

(** C1. In every interleaving of the calls of any number of threads, a thread
    that holds the lock for writing is the only one that holds it at all, no
    assertion of the lock code fails, and while no thread is inside the lock
    code the lock word is the address of the writer or the number of readers,
    with the waiters' bits. *)
Theorem rw_mutual_exclusion m :
  good_procs ps -> reachable diagnostic ps m ->
  (forall t1 t2 th1 th2 h, t1 <> t2 -> threads m !! t1 = Some th1 -> threads m !! t2 = Some th2 ->
     t_ctl th1 = Out (Some Wr) -> t_ctl th2 <> Out (Some h)) /\
  (forall t th c h, threads m !! t = Some th -> t_ctl th <> In c h Panicked) /\
  (forall hs, t_ctl <$> threads m = Out <$> hs -> consistent ps (rwl_owner m) hs).
Proof.
  intros Hg Hr. destruct (reachable_minv diagnostic ps Hg m Hr) as [hs HM]. conj.
  - intros t1 t2 th1 th2 h Hne H1 H2 Hw Hh. pose proof (holder _ _ _ _ _ HM H1 Hw) as E1.
    pose proof (holder _ _ _ _ _ HM H2 Hh) as E2. destruct HM as ((_ & b & _ & [(t & p & _ & _ & Hu & _)|(Hn & _)]) & _).
    + apply Hne. by rewrite (Hu t1 _ E1), (Hu t2 _ E2).
    + by destruct (Hn t1).
  - intros t th c h Ht Hc. destruct (minv_thread _ _ _ _ _ HM Ht) as (h' & _ & _ & Hok). by rewrite Hc in Hok.
  - intros hs' E. replace hs' with hs; [apply HM|]. apply list_eq. intros t.
    assert ((t_ctl <$> threads m) !! t = (Out <$> hs') !! t) as Et by (by rewrite E). rewrite !list_lookup_fmap in Et.
    destruct (threads m !! t) as [th|] eqn:Ht.
    + destruct (hs' !! t) as [h|]; [|done]. injection Et as Et. by eapply holder.
    + destruct (hs' !! t); [done|]. apply lookup_ge_None in Ht. apply lookup_ge_None.
      destruct HM as ([Hl _] & Hps & _). rewrite Hl, <- Hps, length_fmap. done.
Qed.

(** C17. No wakeup is lost: as long as a thread is asleep on the queue of the
    lock, the lock word has the waiters' bit, or some thread is about to wake
    the queue; so when everybody is outside the lock code or asleep there, some
    thread holds the lock and its exit will see the bit. *)
Theorem rw_no_lost_wakeup m t th c h intr k :
  good_procs ps -> reachable diagnostic ps m ->
  threads m !! t = Some th -> t_ctl th = Asleep c h intr k -> t ∈ sleepers m ->
  relied m /\
  ((forall t' th', threads m !! t' = Some th' -> (exists h', t_ctl th' = Out h') \/ asleep (t_ctl th')) ->
   flag (rwl_owner m) RWLOCK_WAIT = true /\
   exists t' th' md, threads m !! t' = Some th' /\ t_ctl th' = Out (Some md)).
Proof.
  intros Hg Hr Ht Hc Hin. pose proof (reachable_winv diagnostic ps m Hr) as HW.
  assert (relied m) as Hrel by (eapply (w_asleep _ HW); [done|by rewrite Hc|done]). split; [done|]. intros Hall.
  destruct Hrel as [Hw|(t1 & th1 & Ht1 & Hk)].
  2: { exfalso. destruct (Hall t1 th1 Ht1) as [[h' E]|E]; [by rewrite E in Hk|].
       destruct (t_ctl th1) as [| |]; try done. by destruct pc. }
  split; [by apply waits_flag|]. destruct (reachable_minv diagnostic ps Hg m Hr) as [hs HM].
  assert (exists t' md, hs !! t' = Some (Some md)) as (t' & md & Hmd).
  { destruct (consistent_bits ps Hg _ hs (proj1 HM)) as (x & f & Ev & _ & _ & Hf). rewrite Ev in Hw. unfold waits in Hw.
    rewrite tb_low in Hw by lia. destruct Hf as [[[t1 Ht1] _]|(Hn & Er & Hf & H0)]; [by eexists _, _|].
    destruct (decide (readers hs = 0)) as [E|E]; [rewrite H0 in Hw by lia; done|].
    unfold readers in E. destruct (filter (fun h => h = Some Rd) hs) as [|y l] eqn:Ef; [done|].
    assert (y ∈ filter (fun h => h = Some Rd) hs) as Hy by (rewrite Ef; left).
    apply list_elem_of_filter in Hy as [-> Hy]. apply list_elem_of_lookup in Hy as [t1 Ht1]. eauto. }
  destruct (lookup_lt_is_Some_2 (threads m) t') as [th' Ht'].
  { destruct HM as ([Hl _] & Hps & _). apply lookup_lt_Some in Hmd. rewrite <- (length_fmap t_proc), Hps, <- Hl. done. }
  exists t', th', md. split; [done|]. destruct HM as (_ & _ & Hok). specialize (Hok t' th' _ Ht' Hmd).
  destruct (Hall t' th' Ht') as [[h' E]|E].
  - rewrite E in Hok |- *. simpl in Hok. congruence.
  - destruct (t_ctl th') as [h'|c' h' pc|c' h' i' k']; [done| |by destruct Hok as [? _]].
    destruct pc; try done. cbn in E, Hok. destruct do_sleep; [|done]. by destruct Hok as [? _].
Qed.

Lemma solo_read p flags v :
  is_u long_bits v -> v + 8 < 2 ^ long_bits -> Z.land flags RW_OPMASK = RW_READ -> Z.land v RWLOCK_WRLOCK = 0 ->
  solo diagnostic 5 p (rw_enter diagnostic p flags) v 0 = Some (0, v + RWLOCK_READ_INCR, 0%nat).
Proof.
  intros Hv Hlt E E4. unfold rw_enter. rewrite E.
  change (rw_ops !! Z.to_nat RW_READ) with (Some (mkop RWLOCK_READ_INCR RWLOCK_WRLOCK RWLOCK_WAIT 0 PLOCK)).
  unfold rw_enter_retry. cbn [solo check inc proc_mult]. rewrite E4. cbn [negb Z.eqb solo]. rewrite Z.eqb_refl. cbn [solo].
  assert (Z.land v (Z.lor RWLOCK_WRLOCK RWLOCK_WAIT) =? Z.lor RWLOCK_WRLOCK RWLOCK_WAIT = false) as ->.
  { apply Z.eqb_neq. intros E5. apply (f_equal (fun z => Z.land z RWLOCK_WRLOCK)) in E5.
    rewrite <- Z.land_assoc in E5.
    change (Z.land (Z.lor RWLOCK_WRLOCK RWLOCK_WAIT) RWLOCK_WRLOCK) with RWLOCK_WRLOCK in E5. by rewrite E4 in E5. }
  cbn [solo]. rewrite Z.mul_0_r, Z.add_0_r. change RWLOCK_READ_INCR with 8.
  assert (ulong 8 = 8) as -> by (by destruct a). by rewrite ulong_small by (unfold is_u in *; lia).
Qed.

Lemma solo_write p flags :
  Z.land flags RW_OPMASK = RW_WRITE ->
  solo diagnostic 5 p (rw_enter diagnostic p flags) 0 0 = Some (0, Z.lor (RW_PROC p) RWLOCK_WRLOCK, 0%nat).
Proof.
  intros E. unfold rw_enter. rewrite E.
  change (rw_ops !! Z.to_nat RW_WRITE) with (Some (mkop RWLOCK_WRLOCK ULONG_MAX 3 1 (PLOCK - 4))).
  unfold rw_enter_retry. cbn [solo check inc proc_mult]. rewrite Z.land_0_l. cbn [negb Z.eqb solo].
  change (Z.land 0 (Z.lor RWLOCK_WRLOCK RWLOCK_WAIT) =? Z.lor RWLOCK_WRLOCK RWLOCK_WAIT) with false. cbn [solo].
  rewrite <- rw_proc_add. destruct (rw_proc_mult p) as (c & -> & Hc & Hlt). unfold RWLOCK_WRLOCK.
  rewrite (ulong_small (4 + 8 * c * 1)), ulong_small by (unfold is_u; lia). do 3 f_equal. lia.
Qed.

Lemma solo_busy p flags v :
  is_u long_bits v ->
  (Z.land flags RW_OPMASK = RW_READ /\ Z.land v RWLOCK_WRLOCK <> 0) \/
  (Z.land flags RW_OPMASK = RW_WRITE /\ v <> 0) ->
  flag flags RW_NOSLEEP = true -> RW_PROC p <> RW_PROC v ->
  solo diagnostic 5 p (rw_enter diagnostic p flags) v 0 = Some (EBUSY, v, 0%nat).
Proof.
  intros Hv Hop Hns Hp.
  assert (forall k, k = Return EBUSY -> solo diagnostic 4 p (rw_enter_diag diagnostic p flags k) v 0 = Some (EBUSY, v, 0%nat)) as Hd.
  { intros k ->. unfold rw_enter_diag. destruct diagnostic; [|done]. cbn [negb].
    assert ((Z.land flags RW_OPMASK =? RW_WRITE) || (Z.land flags RW_OPMASK =? RW_READ) = true) as ->
      by (destruct Hop as [[-> _]|[-> _]]; done).
    cbn [solo]. by rewrite (proj2 (Z.eqb_neq _ _) Hp). }
  unfold rw_enter. destruct Hop as [[E Hne]|[E Hne]]; rewrite E.
  - change (rw_ops !! Z.to_nat RW_READ) with (Some (mkop RWLOCK_READ_INCR RWLOCK_WRLOCK RWLOCK_WAIT 0 PLOCK)).
    unfold rw_enter_retry. cbn [solo check]. rewrite (proj2 (Z.eqb_neq _ _) Hne). cbn [negb]. rewrite Hns. by apply Hd.
  - change (rw_ops !! Z.to_nat RW_WRITE) with (Some (mkop RWLOCK_WRLOCK ULONG_MAX 3 1 (PLOCK - 4))).
    unfold rw_enter_retry. cbn [solo check]. rewrite land_max by done. rewrite (proj2 (Z.eqb_neq _ _) Hne). cbn [negb].
    rewrite Hns. by apply Hd.
Qed.

Lemma solo_exit p v :
  is_u long_bits v -> 8 <= v ->
  solo diagnostic 5 p rw_exit v 0 =
  Some (0, if flag v RWLOCK_WRLOCK then 0 else Z.ldiff (v - RWLOCK_READ_INCR) 3,
        if flag v RWLOCK_WAIT then 1%nat else 0%nat).
Proof.
  intros Hv H8. unfold rw_exit, rw_exit_loop. cbn [solo]. rewrite Z.eqb_refl. change RWLOCK_READ_INCR with 8.
  rewrite ulong_small by (unfold is_u in *; lia). change (Z.lor RWLOCK_WAIT RWLOCK_WRWANT) with 3.
  fold (flag v RWLOCK_WRLOCK). by destruct (flag v RWLOCK_WAIT).
Qed.

(** On a lock nobody else is at, an acquisition that finds the lock free
    for its mode returns 0 with the word of one reader more or of the writer;
    one that may not sleep and finds it taken returns [EBUSY] and leaves the
    word alone; an exit takes its holding off the word, and wakes the queue
    exactly when there were waiters. *)
Theorem rw_uncontended p flags v :
  is_u long_bits v -> v + 8 < 2 ^ long_bits ->
  let op := Z.land flags RW_OPMASK in
  (op = RW_READ -> Z.land v RWLOCK_WRLOCK = 0 ->
     solo diagnostic 5 p (rw_enter diagnostic p flags) v 0 = Some (0, v + RWLOCK_READ_INCR, 0%nat)) /\
  (op = RW_WRITE -> v = 0 ->
     solo diagnostic 5 p (rw_enter diagnostic p flags) v 0 = Some (0, Z.lor (RW_PROC p) RWLOCK_WRLOCK, 0%nat)) /\
  ((op = RW_READ /\ Z.land v RWLOCK_WRLOCK <> 0) \/ (op = RW_WRITE /\ v <> 0) ->
     flag flags RW_NOSLEEP = true -> RW_PROC p <> RW_PROC v ->
     solo diagnostic 5 p (rw_enter diagnostic p flags) v 0 = Some (EBUSY, v, 0%nat)) /\
  (8 <= v -> solo diagnostic 5 p rw_exit v 0 =
     Some (0, if flag v RWLOCK_WRLOCK then 0 else Z.ldiff (v - RWLOCK_READ_INCR) 3,
           if flag v RWLOCK_WAIT then 1%nat else 0%nat)).
Proof.
  intros Hv Hlt op. conj.
  - intros. by apply solo_read.
  - intros Hop ->. by apply solo_write.
  - by apply solo_busy.
  - by apply solo_exit.
Qed.

(** The assertions of a downgrade are never evaluated: on a lock nobody
    holds, a downgrade succeeds in a kernel built with [DIAGNOSTIC] too, and
    leaves the word of a lock with readers, or with a writer, that nobody can
    release. *)
Theorem rw_downgrade_unchecked p :
  solo true 5 p (rw_enter true p RW_DOWNGRADE) 0 0 = Some (0, ulong (4 - RW_PROC p), 0%nat) /\
  ulong (4 - RW_PROC p) <> 0.
Proof.
  destruct (rw_proc_mult p) as (c & E & Hc & Hlt).
  assert (ulong (4 - RW_PROC p) <> 0) as Hne.
  { rewrite E. unfold ulong, wrap. intros H0. apply Z.mod_divide in H0; [|destruct a; done].
    destruct H0 as [k Hk]. assert (exists j, 2 ^ long_bits = 8 * j) as [j Hj].
    { destruct a; [by exists (2 ^ 29)|by exists (2 ^ 61)]. }
    rewrite Hj in Hk. lia. }
  split; [|done]. unfold rw_enter. change (Z.land RW_DOWNGRADE RW_OPMASK) with RW_DOWNGRADE.
  change (rw_ops !! Z.to_nat RW_DOWNGRADE) with (Some (mkop (ulong 4) 0 0 (-1) PLOCK)).
  unfold rw_enter_retry. cbn [solo check inc proc_mult]. rewrite Z.land_0_r. cbn [negb Z.eqb solo].
  change (Z.land 0 (Z.lor RWLOCK_WRLOCK RWLOCK_WAIT) =? Z.lor RWLOCK_WRLOCK RWLOCK_WAIT) with false. cbn [solo].
  do 3 f_equal. rewrite Z.add_0_l. unfold ulong, wrap. rewrite Zmod_mod, Zplus_mod_idemp_l. f_equal. lia.
Qed.
End properties.

(** * Witnesses *)

Section run.
Context {a : arch} (diagnostic : bool).

Fixpoint run (acts : list (nat * choice)) (m : machine) : option machine :=
  match acts with
  | [] => Some m
  | (t, ch) :: acts => match act diagnostic t ch m with Some m' => run acts m' | None => None end
  end.

Lemma run_reachable ps acts m m' :
  reachable diagnostic ps m -> run acts m = Some m' -> reachable diagnostic ps m'.
Proof.
  revert m. induction acts as [|[t ch] acts IH]; intros m Hr; simpl; [by intros [= <-]|].
  destruct (act diagnostic t ch m) as [m1|] eqn:E; [|done]. apply IH. by eapply reach_act.
Qed.
End run.

(** Two processes of a 32-bit kernel: the first holds the lock for writing, the
    second went to sleep on it. *)
Definition demo_procs : list Z := [3221225472; 3221226496].

Definition demo_acts : list (nat * choice) :=
  [(0%nat, Call EnterWrite); (0%nat, Go); (0%nat, Go);
   (1%nat, Call EnterWrite); (1%nat, Go); (1%nat, Go); (1%nat, Go); (1%nat, Go); (1%nat, Go); (1%nat, Go)].

Definition demo : machine :=
  match run (a := ILP32) true demo_acts (rw_init demo_procs) with Some m => m | None => rw_init demo_procs end.

Lemma demo_reachable : reachable (a := ILP32) true demo_procs demo.
Proof.
  eapply (run_reachable (a := ILP32) true demo_procs demo_acts); [constructor|]. unfold demo.
  destruct (run (a := ILP32) true demo_acts (rw_init demo_procs)) eqn:E; [done|]. vm_compute in E. discriminate.
Qed.

Lemma demo_good : good_procs (a := ILP32) demo_procs.
Proof.
  split; [vm_compute; done|]. split.
  - apply (bool_decide_unpack _). vm_compute. exact I.
  - intros p Hp. unfold demo_procs in Hp. rewrite !elem_of_cons, elem_of_nil in Hp.
    destruct Hp as [-> |[-> |[]]]; vm_compute; done.
Qed.

Lemma rw_mutual_exclusion_witness :
  (forall t1 t2 th1 th2 h, t1 <> t2 -> threads demo !! t1 = Some th1 -> threads demo !! t2 = Some th2 ->
     t_ctl th1 = Out (Some Wr) -> t_ctl th2 <> Out (Some h)) /\
  (forall t th c h, threads demo !! t = Some th -> t_ctl th <> In c h Panicked) /\
  (forall hs, t_ctl <$> threads demo = Out <$> hs -> consistent (a := ILP32) demo_procs (rwl_owner demo) hs).
Proof. exact (rw_mutual_exclusion (a := ILP32) true demo_procs demo demo_good demo_reachable). Defined.

Lemma rw_no_lost_wakeup_witness :
  relied demo /\
  ((forall t' th', threads demo !! t' = Some th' -> (exists h', t_ctl th' = Out h') \/ asleep (t_ctl th')) ->
   flag (rwl_owner demo) RWLOCK_WAIT = true /\
   exists t' th' md, threads demo !! t' = Some th' /\ t_ctl th' = Out (Some md)).
Proof.
  eapply (rw_no_lost_wakeup (a := ILP32) true demo_procs demo 1); [exact demo_good|exact demo_reachable|..].
  - vm_compute. reflexivity.
  - reflexivity.
  - apply (bool_decide_unpack _). vm_compute. exact I.
Defined.

Lemma rw_uncontended_witness :
  solo (a := ILP32) true 5 3221225472 (rw_enter (a := ILP32) true 3221225472 RW_READ) 16 0 = Some (0, 24, 0%nat).
Proof.
  apply (rw_uncontended (a := ILP32) true 3221225472 RW_READ 16); [unfold is_u; simpl; lia|simpl; lia|done|done].
Defined.
