(* ===== verification/Quad.v ===== *)
(** * Arithmetic on 64-bit integers

    The routines of [lib/libkern] that a compiler for a 32-bit machine calls for
    operations on [quad_t]: [adddi3.c], [subdi3.c], [negdi2.c], the shifts, the
    comparisons, [muldi3.c], and the division of [qdivrem.c] with its callers
    [divdi3.c], [moddi3.c], [udivdi3.c] and [umoddi3.c].  A [quad_t] is a [Z] in
    the signed range of 64 bits, a [u_quad_t] one in the unsigned range. *)

From S2P Require Import Prelude.

Definition INT_BITS : Z := 32.
Definition HALF_BITS : Z := 16.

(** Halves of a word. *)
Definition HHALF (x : Z) : Z := Z.shiftr (u32 x) HALF_BITS.
Definition LHALF (x : Z) : Z := Z.land (u32 x) (Z.shiftl 1 HALF_BITS - 1).
Definition LHUP (x : Z) : Z := u32 (Z.shiftl x HALF_BITS).

(** A quad as two words.  The members [sl] are those of [ul] read as signed. *)
Record uu := Uu { ulH : Z; ulL : Z }.

Definition to_uu (q : Z) : uu := Uu (u32 (Z.shiftr q INT_BITS)) (u32 q).
Definition as_uq (x : uu) : Z := Z.lor (Z.shiftl (ulH x) INT_BITS) (ulL x).
Definition as_q (x : uu) : Z := s64 (as_uq x).
Definition slH (x : uu) : Z := s32 (ulH x).

Definition b2z (b : bool) : Z := if b then 1 else 0.

(** Shifts of a word: a distance of the width or more is undefined. *)
Definition shl32 (x n : Z) : outcome Z :=
  if (0 <=? n) && (n <? INT_BITS) then Ret (u32 (Z.shiftl x n)) else Fault BadShift.
Definition shr32 (x n : Z) : outcome Z :=
  if (0 <=? n) && (n <? INT_BITS) then Ret (Z.shiftr x n) else Fault BadShift.

(** * Addition, negation, shifts and comparisons *)

Definition adddi3 (a b : Z) : Z :=
  let aa := to_uu a in
  let bb := to_uu b in
  let sumL := u32 (ulL aa + ulL bb) in
  let sumH := u32 (ulH aa + ulH bb + b2z (sumL <? ulL bb)) in
  as_q (Uu sumH sumL).

Definition subdi3 (a b : Z) : Z :=
  let aa := to_uu a in
  let bb := to_uu b in
  let diffL := u32 (ulL aa - ulL bb) in
  let diffH := u32 (ulH aa - ulH bb - b2z (ulL aa <? diffL)) in
  as_q (Uu diffH diffL).

Definition negdi2 (a : Z) : Z :=
  let aa := to_uu a in
  let resL := u32 (- ulL aa) in
  let resH := u32 (- ulH aa - b2z (0 <? resL)) in
  as_q (Uu resH resL).

Definition ashldi3 (a shift : Z) : outcome Z :=
  if shift =? 0 then Ret a
  else
    let aa := to_uu a in
    if INT_BITS <=? shift then
      let! h := shl32 (ulL aa) (shift - INT_BITS) in
      Ret (as_q (Uu h 0))
    else
      let! h := shl32 (ulH aa) shift in
      let! c := shr32 (ulL aa) (INT_BITS - shift) in
      let! l := shl32 (ulL aa) shift in
      Ret (as_q (Uu (Z.lor h c) l)).

(** The text of [lshldi3.c] is that of [ashldi3.c]. *)
Definition lshldi3 (a shift : Z) : outcome Z :=
  if shift =? 0 then Ret a
  else
    let aa := to_uu a in
    if INT_BITS <=? shift then
      let! h := shl32 (ulL aa) (shift - INT_BITS) in
      Ret (as_q (Uu h 0))
    else
      let! h := shl32 (ulH aa) shift in
      let! c := shr32 (ulL aa) (INT_BITS - shift) in
      let! l := shl32 (ulL aa) shift in
      Ret (as_q (Uu (Z.lor h c) l)).

(** The right shift of a signed word replicates its sign. *)
Definition ashrdi3 (a shift : Z) : outcome Z :=
  if shift =? 0 then Ret a
  else
    let aa := to_uu a in
    if INT_BITS <=? shift then
      let! s := shr32 (slH aa) (INT_BITS - 1) in
      let! s := shr32 s 1 in
      let! l := shr32 (slH aa) (shift - INT_BITS) in
      Ret (as_q (Uu (u32 s) (u32 l)))
    else
      let! l := shr32 (ulL aa) shift in
      let! c := shl32 (ulH aa) (INT_BITS - shift) in
      let! h := shr32 (slH aa) shift in
      Ret (as_q (Uu (u32 h) (Z.lor l c))).

Definition lshrdi3 (a shift : Z) : outcome Z :=
  if shift =? 0 then Ret a
  else
    let aa := to_uu a in
    if INT_BITS <=? shift then
      let! l := shr32 (ulH aa) (shift - INT_BITS) in
      Ret (as_q (Uu 0 l))
    else
      let! l := shr32 (ulL aa) shift in
      let! c := shl32 (ulH aa) (INT_BITS - shift) in
      let! h := shr32 (ulH aa) shift in
      Ret (as_q (Uu h (Z.lor l c))).

Definition anddi3 (a b : Z) : Z :=
  as_q (Uu (Z.land (ulH (to_uu a)) (ulH (to_uu b))) (Z.land (ulL (to_uu a)) (ulL (to_uu b)))).
Definition iordi3 (a b : Z) : Z :=
  as_q (Uu (Z.lor (ulH (to_uu a)) (ulH (to_uu b))) (Z.lor (ulL (to_uu a)) (ulL (to_uu b)))).
Definition xordi3 (a b : Z) : Z :=
  as_q (Uu (Z.lxor (ulH (to_uu a)) (ulH (to_uu b))) (Z.lxor (ulL (to_uu a)) (ulL (to_uu b)))).
Definition one_cmpldi2 (a : Z) : Z :=
  as_q (Uu (u32 (Z.lnot (ulH (to_uu a)))) (u32 (Z.lnot (ulL (to_uu a))))).

(** 0, 1 or 2 as [a] is below, equal to or above [b]. *)
Definition cmpdi2 (a b : Z) : Z :=
  let aa := to_uu a in
  let bb := to_uu b in
  if slH aa <? slH bb then 0 else if slH bb <? slH aa then 2
  else if ulL aa <? ulL bb then 0 else if ulL bb <? ulL aa then 2 else 1.

Definition ucmpdi2 (a b : Z) : Z :=
  let aa := to_uu a in
  let bb := to_uu b in
  if ulH aa <? ulH bb then 0 else if ulH bb <? ulH aa then 2
  else if ulL aa <? ulL bb then 0 else if ulL bb <? ulL aa then 2 else 1.

(** * Multiplication *)

(** The product of two words, by Karatsuba's three products of half words. *)
Definition lmulq (u v : Z) : Z :=
  let u1 := HHALF u in
  let u0 := LHALF u in
  let v1 := HHALF v in
  let v0 := LHALF v in
  let low := u32 (u0 * v0) in
  if (u1 =? 0) && (v1 =? 0) then low
  else
    let '(udiff, neg) := if u0 <=? u1 then (u32 (u1 - u0), false) else (u32 (u0 - u1), true) in
    let '(vdiff, neg) := if v1 <=? v0 then (u32 (v0 - v1), neg) else (u32 (v1 - v0), negb neg) in
    let mid := u32 (udiff * vdiff) in
    let high := u32 (u1 * v1) in
    let prodh := u32 (high + HHALF high) in
    let prodl := LHUP high in
    let '(prodh, prodl) :=
      if neg then
        let was := prodl in
        let prodl := u32 (prodl - LHUP mid) in
        (u32 (prodh - (HHALF mid + b2z (was <? prodl))), prodl)
      else
        let was := prodl in
        let prodl := u32 (prodl + LHUP mid) in
        (u32 (prodh + (HHALF mid + b2z (prodl <? was))), prodl) in
    let was := prodl in
    let prodl := u32 (prodl + LHUP low) in
    let prodh := u32 (prodh + (HHALF low + b2z (prodl <? was))) in
    let prodl := u32 (prodl + low) in
    let prodh := if prodl <? low then u32 (prodh + 1) else prodh in
    as_q (Uu prodh prodl).

Definition muldi3 (a b : Z) : Z :=
  let '(u, negall) := if 0 <=? a then (to_uu a, false) else (to_uu (s64 (- a)), true) in
  let '(v, negall) := if 0 <=? b then (to_uu b, negall) else (to_uu (s64 (- b)), negb negall) in
  let '(u1, u0, v1, v0) := (ulH u, ulL u, ulH v, ulL v) in
  let prod :=
    if (u1 =? 0) && (v1 =? 0) then to_uu (lmulq u0 v0)
    else
      let low := to_uu (lmulq u0 v0) in
      let '(negmid, udiff) := if u0 <=? u1 then (false, u32 (u1 - u0)) else (true, u32 (u0 - u1)) in
      let '(vdiff, negmid) := if v1 <=? v0 then (u32 (v0 - v1), negmid) else (u32 (v1 - v0), negb negmid) in
      let mid := u32 (udiff * vdiff) in
      let high := u32 (u1 * v1) in
      Uu (u32 (high + (if negmid then u32 (- mid) else mid) + ulL low + ulH low)) (ulL low) in
  if negall then s64 (- as_q prod) else as_q prod.

(** * Division *)

(** The base of the digits, which are [unsigned short]. *)
Definition B : Z := Z.shiftl 1 HALF_BITS.
Definition COMBINE (a b : Z) : Z := Z.lor (u32 (Z.shiftl a HALF_BITS)) b.
Definition digit (x : Z) : Z := u16 x.

(** Shift [p[0] ... p[len]] left by [sh], where [p] points at [a[p]]; [k] digits
    are left to do. *)
Fixpoint shl_loop (a : list Z) (p i sh : Z) (k : nat) : outcome (list Z) :=
  match k with
  | O =>
      let! x := aget a (p + i) in
      aset a (p + i) (digit (LHALF (u32 (Z.shiftl x sh))))
  | S k =>
      let! x := aget a (p + i) in
      let! y := aget a (p + i + 1) in
      let! a := aset a (p + i) (digit (Z.lor (LHALF (u32 (Z.shiftl x sh))) (Z.shiftr y (HALF_BITS - sh)))) in
      shl_loop a p (i + 1) sh k
  end.

Definition shl (a : list Z) (p len sh : Z) : outcome (list Z) := shl_loop a p 0 sh (Z.to_nat len).

(** [for (n = 4; v[1] == 0; v++) if (--n == 1) ...]: where it stops, [n] is 1 if
    and only if the divisor is the one digit [v[2]]. *)
Fixpoint skip_v (vs : list Z) (v n : Z) (fuel : nat) : outcome (Z * Z) :=
  match fuel with
  | O => Spin
  | S fuel =>
      let! x := aget vs (v + 1) in
      if negb (x =? 0) then Ret (v, n)
      else if n - 1 =? 1 then Ret (v, 1)
      else skip_v vs (v + 1) (n - 1) fuel
  end.

(** [for (m = 4 - n; u[1] == 0; u++) m--]. *)
Fixpoint skip_u (us : list Z) (u m : Z) (fuel : nat) : outcome (Z * Z) :=
  match fuel with
  | O => Spin
  | S fuel =>
      let! x := aget us (u + 1) in
      if negb (x =? 0) then Ret (u, m) else skip_u us (u + 1) (m - 1) fuel
  end.

(** [for (i = k; --i >= 0;) q[i] = 0]. *)
Fixpoint zero_q (qs : list Z) (q : Z) (k : nat) : outcome (list Z) :=
  match k with
  | O => Ret qs
  | S k => let! qs := aset qs (q + Z.of_nat k) 0 in zero_q qs q k
  end.

(** [for (t = v[1]; t < B / 2; t <<= 1) d++]. *)
Fixpoint normalize (t d : Z) (fuel : nat) : outcome Z :=
  match fuel with
  | O => Spin
  | S fuel => if t <? B / 2 then normalize (u32 (Z.shiftl t 1)) (d + 1) fuel else Ret d
  end.

(** The [while] loop of D3; [too_big] enters it at the label [qhat_too_big]. *)
Fixpoint d3_loop (v1 v2 uj2 : Z) (too_big : bool) (qhat rhat : Z) (fuel : nat) : outcome Z :=
  match fuel with
  | O => Spin
  | S fuel =>
      if too_big || (COMBINE rhat uj2 <? u32 (v2 * qhat)) then
        let qhat := u32 (qhat - 1) in
        let rhat := u32 (rhat + v1) in
        if B <=? rhat then Ret qhat else d3_loop v1 v2 uj2 false qhat rhat fuel
      else Ret qhat
  end.

Definition d3 (v1 v2 uj0 uj1 uj2 : Z) : outcome Z :=
  if uj0 =? v1 then d3_loop v1 v2 uj2 true B uj1 4
  else
    let nn := COMBINE uj0 uj1 in
    if v1 =? 0 then Fault DivByZero
    else d3_loop v1 v2 uj2 false (nn `div` v1) (nn `mod` v1) 4.

(** D4, from [i] down to 1. *)
Fixpoint mulsub (us vs : list Z) (u v j qhat : Z) (i : nat) (t : Z) : outcome (list Z * Z) :=
  match i with
  | O => Ret (us, t)
  | S i' =>
      let! x := aget us (u + (Z.of_nat i + j)) in
      let! y := aget vs (v + Z.of_nat i) in
      let t := u32 (x - y * qhat - t) in
      let! us := aset us (u + (Z.of_nat i + j)) (digit (LHALF t)) in
      mulsub us vs u v j qhat i' (Z.land (u32 (B - HHALF t)) (B - 1))
  end.

(** D6, from [i] down to 1. *)
Fixpoint addback (us vs : list Z) (u v j : Z) (i : nat) (t : Z) : outcome (list Z * Z) :=
  match i with
  | O => Ret (us, t)
  | S i' =>
      let! x := aget us (u + (Z.of_nat i + j)) in
      let! y := aget vs (v + Z.of_nat i) in
      let t := u32 (t + (x + y)) in
      let! us := aset us (u + (Z.of_nat i + j)) (digit (LHALF t)) in
      addback us vs u v j i' (HHALF t)
  end.

(** One round of the loop on [j]: the dividend and the digit of the quotient. *)
Definition d_step (us vs : list Z) (u v n j : Z) : outcome (list Z * Z) :=
  let! v1 := aget vs (v + 1) in
  let! v2 := aget vs (v + 2) in
  let! uj0 := aget us (u + (j + 0)) in
  let! uj1 := aget us (u + (j + 1)) in
  let! uj2 := aget us (u + (j + 2)) in
  let! qhat := d3 v1 v2 uj0 uj1 uj2 in
  let! (us, t) := mulsub us vs u v j qhat (Z.to_nat n) 0 in
  let! x := aget us (u + j) in
  let t := u32 (x - t) in
  let! us := aset us (u + j) (digit (LHALF t)) in
  if negb (HHALF t =? 0) then
    let! (us, t) := addback us vs u v j (Z.to_nat n) 0 in
    let! x := aget us (u + j) in
    let! us := aset us (u + j) (digit (LHALF (u32 (x + t)))) in
    Ret (us, digit (u32 (qhat - 1)))
  else Ret (us, digit qhat).

(** [do ... while (++j <= m)]. *)
Fixpoint d_loop (us vs qs : list Z) (u v q n m j : Z) (fuel : nat) : outcome (list Z * list Z) :=
  match fuel with
  | O => Spin
  | S fuel =>
      let! (us, qj) := d_step us vs u v n j in
      let! qs := aset qs (q + j) qj in
      if j + 1 <=? m then d_loop us vs qs u v q n m (j + 1) fuel else Ret (us, qs)
  end.

(** [for (i = m + n; i > m; --i) u[i] = ...; u[i] = 0], with [k = i - m]. *)
Fixpoint unshift (us : list Z) (u m d : Z) (k : nat) : outcome (list Z) :=
  match k with
  | O => aset us (u + m) 0
  | S k' =>
      let i := m + Z.of_nat k in
      let! x := aget us (u + i) in
      let! y := aget us (u + (i - 1)) in
      let! us := aset us (u + i)
        (digit (Z.lor (Z.shiftr x d) (LHALF (u32 (Z.shiftl y (HALF_BITS - d)))))) in
      unshift us u m d k'
  end.

(** The four digits at [a[1]] as a quad. *)
Definition quad4 (a : list Z) : outcome Z :=
  let! a1 := aget a 1 in
  let! a2 := aget a 2 in
  let! a3 := aget a 3 in
  let! a4 := aget a 4 in
  Ret (as_uq (Uu (COMBINE a1 a2) (COMBINE a3 a4))).

(** Write the halves of the words of [x] at [a[1] ... a[4]]. *)
Definition digits4 (a : list Z) (x : Z) : outcome (list Z) :=
  let! a := aset a 1 (digit (HHALF (ulH (to_uu x)))) in
  let! a := aset a 2 (digit (LHALF (ulH (to_uu x)))) in
  let! a := aset a 3 (digit (HHALF (ulL (to_uu x)))) in
  aset a 4 (digit (LHALF (ulL (to_uu x)))).

(** The divisor is the single digit [t]. *)
Definition short_div (us : list Z) (u t : Z) (arq : bool) : outcome (Z * option Z) :=
  if t =? 0 then Fault DivByZero
  else
    let! u1 := aget us (u + 1) in
    let! u2 := aget us (u + 2) in
    let! u3 := aget us (u + 3) in
    let! u4 := aget us (u + 4) in
    let q1 := digit (u1 `div` t) in
    let rbj := COMBINE (u1 `mod` t) u2 in
    let q2 := digit (rbj `div` t) in
    let rbj := COMBINE (rbj `mod` t) u3 in
    let q3 := digit (rbj `div` t) in
    let rbj := COMBINE (rbj `mod` t) u4 in
    let q4 := digit (rbj `div` t) in
    Ret (as_uq (Uu (COMBINE q1 q2) (COMBINE q3 q4)), if arq then Some (rbj `mod` t) else None).

(** From step D1 on: the dividend at [u[0]], the divisor at [v[1]] with [n]
    digits, the quotient of [m + 1] digits at [q[0]]. *)
Definition long_div (us vs qs : list Z) (u v q n m : Z) (arq : bool) : outcome (Z * option Z) :=
  let! v1 := aget vs (v + 1) in
  let! d := normalize v1 0 17 in
  let! us := (if 0 <? d then shl us u (m + n) d else Ret us) in
  let! vs := (if 0 <? d then shl vs (v + 1) (n - 1) d else Ret vs) in
  let! (us, qs) := d_loop us vs qs u v q n m 0 5 in
  let! rem := (if arq then
      let! us := (if negb (d =? 0) then unshift us u m d (Z.to_nat n) else Ret us) in
      let! r := quad4 us in
      Ret (Some r)
    else Ret None) in
  let! quo := quad4 qs in
  Ret (quo, rem).

(** [arq] tells whether the caller passes a place for the remainder.  The three
    arrays come with whatever the stack holds. *)
Definition qdivrem (uspace vspace qspace : list Z) (uq vq : Z) (arq : bool) : outcome (Z * option Z) :=
  if vq =? 0 then Fault DivByZero
  else if uq <? vq then Ret (0, if arq then Some uq else None)
  else
    let! us := aset uspace 0 0 in
    let! us := digits4 us uq in
    let! vs := digits4 vspace vq in
    let! (v, n) := skip_v vs 0 4 5 in
    if n =? 1 then
      let! t := aget vs (v + 2) in
      short_div us 0 t arq
    else
      let! (u, m) := skip_u us 0 (4 - n) 5 in
      let! qs := zero_q qspace 0 (Z.to_nat (4 - m)) in
      long_div us vs qs u v (4 - m) n m arq.

Section Callers.
Context (uspace vspace qspace : list Z).

Definition udivdi3 (a b : Z) : outcome Z :=
  let! (uq, _) := qdivrem uspace vspace qspace a b false in
  Ret uq.

Definition umoddi3 (a b : Z) : outcome Z :=
  let! (_, r) := qdivrem uspace vspace qspace a b true in
  match r with Some r => Ret r | None => Fault NullDeref end.

Definition divdi3 (a b : Z) : outcome Z :=
  let ua := u64 a in
  let ub := u64 b in
  let '(ua, neg) := if a <? 0 then (u64 (- ua), true) else (ua, false) in
  let '(ub, neg) := if b <? 0 then (u64 (- ub), negb neg) else (ub, neg) in
  let! (uq, _) := qdivrem uspace vspace qspace ua ub false in
  let uq := if neg then u64 (- uq) else uq in
  Ret (s64 uq).

Definition moddi3 (a b : Z) : outcome Z :=
  let ua := u64 a in
  let ub := u64 b in
  let '(ua, neg) := if a <? 0 then (u64 (- ua), true) else (ua, false) in
  let ub := if b <? 0 then u64 (- ub) else ub in
  let! (_, r) := qdivrem uspace vspace qspace ua ub true in
  match r with
  | Some ur => Ret (s64 (if neg then u64 (- ur) else ur))
  | None => Fault NullDeref
  end.
End Callers.
