(* ===== verification/QuadWord.v ===== *)
(** * 64-bit arithmetic: words, sums and products

    The bit operations of [Quad] as quotients and remainders, and the routines
    without loops: each computes the operation on integers, wrapped to 64 bits. *)

From S2P Require Import Prelude Quad.

Lemma lor_shiftl_add a b n : 0 <= n -> 0 <= b < 2 ^ n -> Z.lor (Z.shiftl a n) b = a * 2 ^ n + b.
Proof.
  intros Hn Hb. rewrite <- Z.shiftl_mul_pow2 by lia. rewrite <- Z.lxor_lor, Z.add_nocarry_lxor; [done|..];
    apply Z.bits_inj'; intros i Hi; rewrite Z.land_spec, Z.bits_0;
    (destruct (Z.ltb_spec i n);
     [by rewrite Z.shiftl_spec_low by lia
     |rewrite (Z.bounded_iff_bits_nonneg' n b) in Hb by lia; rewrite Hb by lia; by rewrite andb_false_r]).
Qed.

Lemma HHALF_div x : HHALF x = u32 x `div` 65536.
Proof. unfold HHALF, HALF_BITS. by rewrite Z.shiftr_div_pow2 by lia. Qed.

Lemma LHALF_mod x : LHALF x = x `mod` 65536.
Proof.
  unfold LHALF, HALF_BITS, u32, wrap. change (Z.shiftl 1 16 - 1) with (Z.ones 16).
  rewrite Z.land_ones by lia. change (2 ^ 16) with 65536. dlia.
Qed.

Lemma LHUP_mul x : LHUP x = u32 (x * 65536).
Proof. unfold LHUP, HALF_BITS. by rewrite Z.shiftl_mul_pow2 by lia. Qed.

Lemma COMBINE_add a b : is_u 16 a -> is_u 16 b -> COMBINE a b = a * 65536 + b.
Proof.
  unfold is_u. intros Ha Hb. unfold COMBINE, HALF_BITS, u32, wrap.
  rewrite Z.mod_small.
  - rewrite lor_shiftl_add by lia. lia.
  - rewrite Z.shiftl_mul_pow2 by lia. lia.
Qed.

Lemma as_uq_add h l : is_u 32 l -> as_uq (Uu h l) = h * 4294967296 + l.
Proof. intros Hl. unfold as_uq, INT_BITS. simpl. by rewrite lor_shiftl_add by (unfold is_u in Hl; lia). Qed.

Lemma to_uu_words x : ulH (to_uu x) = u32 (x `div` 4294967296) /\ ulL (to_uu x) = u32 x.
Proof. unfold to_uu, INT_BITS. simpl. by rewrite Z.shiftr_div_pow2 by lia. Qed.

(** Two words make the 64 low bits of a number. *)
Lemma as_q_mod h l x :
  is_u 32 l -> (h * 4294967296 + l) `mod` 2 ^ 64 = x `mod` 2 ^ 64 -> as_q (Uu h l) = s64 x.
Proof. intros Hl H. unfold as_q. rewrite as_uq_add by done. by apply swrap_mod. Qed.

Lemma as_q_bits h l x :
  is_u 32 l -> (forall i, 0 <= i < 32 -> Z.testbit l i = Z.testbit x i) ->
  (forall i, 0 <= i < 32 -> Z.testbit h i = Z.testbit x (i + 32)) -> as_q (Uu h l) = s64 x.
Proof.
  intros Hu Hl Hh. unfold as_q. apply swrap_mod; [done|]. apply Z.bits_inj'. intros i Hi.
  destruct (Z.ltb_spec i 64); [|by rewrite !Z.mod_pow2_bits_high by lia].
  rewrite !Z.mod_pow2_bits_low by lia. unfold as_uq, INT_BITS. simpl.
  rewrite Z.lor_spec, Z.shiftl_spec by lia. destruct (Z.ltb_spec i 32).
  - rewrite (Z.testbit_neg_r h) by lia. simpl. apply Hl. lia.
  - rewrite (is_u_high 32 l) by (done || lia). rewrite orb_false_r, Hh by lia. f_equal. lia.
Qed.

Lemma adddi3_ok a b : adddi3 a b = s64 (a + b).
Proof.
  unfold adddi3. destruct (to_uu_words a) as [-> ->], (to_uu_words b) as [-> ->].
  apply as_q_mod; [apply u32_range|]. unfold u32, wrap, b2z. case_if; boolify; dlia.
Qed.

Lemma subdi3_ok a b : subdi3 a b = s64 (a - b).
Proof.
  unfold subdi3. destruct (to_uu_words a) as [-> ->], (to_uu_words b) as [-> ->].
  apply as_q_mod; [apply u32_range|]. unfold u32, wrap, b2z. case_if; boolify; dlia.
Qed.

Lemma negdi2_ok a : negdi2 a = s64 (- a).
Proof.
  unfold negdi2. destruct (to_uu_words a) as [-> ->].
  apply as_q_mod; [apply u32_range|]. unfold u32, wrap, b2z. case_if; boolify; dlia.
Qed.

(** Bits of the words of a quad. *)
Lemma ulL_testbit x i : 0 <= i < 32 -> Z.testbit (ulL (to_uu x)) i = Z.testbit x i.
Proof. apply u32_testbit. Qed.

Lemma ulH_testbit x i : 0 <= i < 32 -> Z.testbit (ulH (to_uu x)) i = Z.testbit x (i + 32).
Proof.
  intros Hi. unfold to_uu, INT_BITS. simpl. rewrite u32_testbit by done. by rewrite Z.shiftr_spec by lia.
Qed.

Lemma ul_range x : is_u 32 (ulL (to_uu x)) /\ is_u 32 (ulH (to_uu x)).
Proof. split; apply u32_range. Qed.

Lemma ul_high x i : 32 <= i -> Z.testbit (ulL (to_uu x)) i = false /\ Z.testbit (ulH (to_uu x)) i = false.
Proof. intros. split; by apply u32_high. Qed.

(** The signed high word of a number in range is its quotient. *)
Lemma slH_div x : is_s 64 x -> slH (to_uu x) = x `div` 4294967296.
Proof.
  unfold is_s, slH. destruct (to_uu_words x) as [-> _]. intros Hx. unfold s32, swrap, u32, wrap. dlia.
Qed.

Lemma slH_testbit x i : is_s 64 x -> 0 <= i -> Z.testbit (slH (to_uu x)) i = Z.testbit x (i + 32).
Proof.
  intros Hx Hi. rewrite slH_div by done. change 4294967296 with (2 ^ 32).
  by rewrite Z.div_pow2_bits by lia.
Qed.

Lemma shl32_ok x n : 0 <= n < 32 -> shl32 x n = Ret (u32 (Z.shiftl x n)).
Proof.
  intros Hn. unfold shl32, INT_BITS. destruct (Z.leb_spec 0 n), (Z.ltb_spec n 32); simpl; (lia || done).
Qed.

Lemma shr32_ok x n : 0 <= n < 32 -> shr32 x n = Ret (Z.shiftr x n).
Proof.
  intros Hn. unfold shr32, INT_BITS. destruct (Z.leb_spec 0 n), (Z.ltb_spec n 32); simpl; (lia || done).
Qed.

(** Equal bits of one number. *)
Ltac bits := f_equal; unfold INT_BITS; lia.

(** Word shifts by less than the width. *)
Ltac word_shifts := repeat (rewrite ?shl32_ok, ?shr32_ok by lia; simpl).

(** All bits from the sign on are equal. *)
Lemma sign_bits x j : is_s 64 x -> 63 <= j -> Z.testbit x j = Z.testbit x 63.
Proof.
  intros Hx Hj. assert (forall k, 63 <= k -> Z.testbit x k = Z.testbit (x `div` 2 ^ 63) (k - 63)) as E.
  { intros k Hk. rewrite Z.div_pow2_bits by lia. f_equal. lia. }
  rewrite (E j), (E 63) by lia. unfold is_s in Hx.
  assert (x `div` 2 ^ 63 = 0 \/ x `div` 2 ^ 63 = -1) as [-> | ->] by dlia; [by rewrite !Z.bits_0|].
  by rewrite !Z.bits_m1 by lia.
Qed.

Lemma ashldi3_ok a s : is_s 64 a -> 0 <= s < 64 -> ashldi3 a s = Ret (s64 (Z.shiftl a s)).
Proof.
  intros Ha Hs. unfold ashldi3, INT_BITS. destruct (Z.eqb_spec s 0) as [->|].
  { rewrite Z.shiftl_0_r. unfold s64. by rewrite swrap_small. }
  destruct (Z.leb_spec 32 s).
  - word_shifts. f_equal. apply as_q_bits; [done|..]; intros i Hi.
    + by rewrite Z.bits_0, Z.shiftl_spec_low by lia.
    + rewrite u32_testbit, !Z.shiftl_spec by lia. destruct (Z.ltb_spec (i - (s - 32)) 0).
      * by rewrite !Z.testbit_neg_r by lia.
      * rewrite u32_testbit by lia. bits.
  - word_shifts. f_equal. apply as_q_bits; [apply u32_range|..]; intros i Hi.
    + rewrite u32_testbit, !Z.shiftl_spec by lia. destruct (Z.ltb_spec (i - s) 0).
      * by rewrite !Z.testbit_neg_r by lia.
      * by rewrite u32_testbit by lia.
    + rewrite Z.lor_spec, u32_testbit, !Z.shiftl_spec, Z.shiftr_spec by lia. destruct (Z.ltb_spec i s).
      * rewrite (Z.testbit_neg_r _ (i - s)), u32_testbit by lia. simpl. bits.
      * rewrite u32_testbit, Z.shiftr_spec, u32_high by lia. rewrite orb_false_r. bits.
Qed.

Lemma lshldi3_ok a s : is_s 64 a -> 0 <= s < 64 -> lshldi3 a s = Ret (s64 (Z.shiftl a s)).
Proof. apply ashldi3_ok. Qed.

Lemma ashrdi3_ok a s : is_s 64 a -> 0 <= s < 64 -> ashrdi3 a s = Ret (s64 (Z.shiftr a s)).
Proof.
  intros Ha Hs. unfold ashrdi3, INT_BITS. destruct (Z.eqb_spec s 0) as [->|].
  { rewrite Z.shiftr_0_r. unfold s64. by rewrite swrap_small. }
  destruct (Z.leb_spec 32 s).
  - word_shifts. f_equal.
    apply as_q_bits; [apply u32_range|..]; intros i Hi; rewrite u32_testbit, !Z.shiftr_spec, slH_testbit by (done || lia).
    + bits.
    + rewrite (sign_bits a (i + 32 + s)), (sign_bits a) by (done || lia). done.
  - word_shifts. f_equal.
    apply as_q_bits; [apply is_u_lor; [done|apply is_u_shiftr, u32_range; lia|apply u32_range]|..]; intros i Hi.
    + rewrite Z.lor_spec, !Z.shiftr_spec, (u32_testbit (Z.shiftl _ _)), Z.shiftl_spec by lia. destruct (Z.ltb_spec (i + s) 32).
      * rewrite u32_testbit, (Z.testbit_neg_r _ (i - (32 - s))) by lia. apply orb_false_r.
      * rewrite u32_high, u32_testbit, Z.shiftr_spec by lia. simpl. bits.
    + rewrite u32_testbit, !Z.shiftr_spec, slH_testbit by (done || lia). bits.
Qed.

Lemma lshrdi3_ok a s : is_s 64 a -> 0 <= s < 64 -> lshrdi3 a s = Ret (s64 (Z.shiftr (u64 a) s)).
Proof.
  intros Ha Hs. unfold lshrdi3, INT_BITS. destruct (Z.eqb_spec s 0) as [->|].
  { rewrite Z.shiftr_0_r. f_equal. unfold s64. rewrite <- (swrap_small 64 a) at 1 by done.
    apply swrap_mod; [done|]. unfold u64, wrap. by rewrite Zmod_mod. }
  assert (forall i, 0 <= i < 64 -> Z.testbit (u64 a) i = Z.testbit a i) as Hlow.
  { intros i Hi. unfold u64, wrap. by rewrite Z.mod_pow2_bits_low by lia. }
  assert (forall i, 64 <= i -> Z.testbit (u64 a) i = false) as Hhigh.
  { intros i Hi. unfold u64, wrap. by rewrite Z.mod_pow2_bits_high by lia. }
  destruct (Z.leb_spec 32 s).
  - word_shifts. f_equal. apply as_q_bits; [apply is_u_shiftr, u32_range; lia|..]; intros i Hi.
    + rewrite !Z.shiftr_spec by lia. destruct (Z.ltb_spec (i + s) 64).
      * rewrite u32_testbit, Z.shiftr_spec, Hlow by lia. bits.
      * by rewrite u32_high, Hhigh by lia.
    + by rewrite Z.bits_0, Z.shiftr_spec, Hhigh by lia.
  - word_shifts. f_equal.
    apply as_q_bits; [apply is_u_lor; [done|apply is_u_shiftr, u32_range; lia|apply u32_range]|..]; intros i Hi.
    + rewrite Z.lor_spec, !Z.shiftr_spec, (u32_testbit (Z.shiftl _ _)), Z.shiftl_spec, Hlow by lia.
      destruct (Z.ltb_spec (i + s) 32).
      * rewrite u32_testbit, (Z.testbit_neg_r _ (i - (32 - s))) by lia. apply orb_false_r.
      * rewrite u32_high, u32_testbit, Z.shiftr_spec by lia. simpl. bits.
    + rewrite !Z.shiftr_spec by lia. destruct (Z.ltb_spec (i + s) 32).
      * rewrite u32_testbit, Z.shiftr_spec, Hlow by lia. bits.
      * by rewrite u32_high, Hhigh by lia.
Qed.

(** The bitwise operations work on the two words. *)
Lemma anddi3_ok a b : anddi3 a b = s64 (Z.land a b).
Proof.
  apply as_q_bits.
  - apply is_u_land; [done|apply u32_range|]. pose proof (proj1 (ul_range b)). unfold is_u in *. lia.
  - intros i Hi. by rewrite !Z.land_spec, !ulL_testbit by done.
  - intros i Hi. by rewrite !Z.land_spec, !ulH_testbit by done.
Qed.

Lemma iordi3_ok a b : iordi3 a b = s64 (Z.lor a b).
Proof.
  apply as_q_bits.
  - apply is_u_lor; [done|apply u32_range..].
  - intros i Hi. by rewrite !Z.lor_spec, !ulL_testbit by done.
  - intros i Hi. by rewrite !Z.lor_spec, !ulH_testbit by done.
Qed.

Lemma xordi3_ok a b : xordi3 a b = s64 (Z.lxor a b).
Proof.
  apply as_q_bits.
  - pose proof (ul_range a) as [Ha _]. pose proof (ul_range b) as [Hb _]. apply is_u_bits; [done|]. split.
    + apply Z.lxor_nonneg. unfold is_u in *. lia.
    + intros i Hi. rewrite Z.lxor_spec, !(is_u_high 32) by (done || lia). done.
  - intros i Hi. by rewrite !Z.lxor_spec, !ulL_testbit by done.
  - intros i Hi. by rewrite !Z.lxor_spec, !ulH_testbit by done.
Qed.

Lemma one_cmpldi2_ok a : one_cmpldi2 a = s64 (Z.lnot a).
Proof.
  apply as_q_bits; [apply u32_range|..]; intros i Hi.
  - by rewrite u32_testbit, !Z.lnot_spec, ulL_testbit by lia.
  - by rewrite u32_testbit, !Z.lnot_spec, ulH_testbit by lia.
Qed.

Definition order (a b : Z) : Z := match a ?= b with Lt => 0 | Eq => 1 | Gt => 2 end.

Lemma order_spec a b x : (x = 0 /\ a < b) \/ (x = 1 /\ a = b) \/ (x = 2 /\ b < a) -> x = order a b.
Proof. unfold order. intros H. destruct (Z.compare_spec a b); lia. Qed.

Lemma cmpdi2_ok a b : is_s 64 a -> is_s 64 b -> cmpdi2 a b = order a b.
Proof.
  intros Ha Hb. apply order_spec. unfold cmpdi2. rewrite !slH_div by done.
  destruct (to_uu_words a) as [_ ->], (to_uu_words b) as [_ ->]. unfold u32, wrap.
  repeat case_if; boolify; dlia.
Qed.

Lemma ucmpdi2_ok a b : is_u 64 a -> is_u 64 b -> ucmpdi2 a b = order a b.
Proof.
  intros Ha Hb. apply order_spec. unfold ucmpdi2, is_u in *.
  destruct (to_uu_words a) as [-> ->], (to_uu_words b) as [-> ->]. unfold u32, wrap.
  repeat case_if; boolify; dlia.
Qed.

(** * Multiplication *)

Section Pair.
(** Two words that hold [x] modulo [2^64]. *)
Definition holds (h l x : Z) : Prop := is_u 32 l /\ (h * 4294967296 + l) `mod` 2 ^ 64 = x `mod` 2 ^ 64.

Lemma holds_add h l x y : holds h l x -> is_u 32 y ->
  holds (u32 (h + (HHALF y + b2z (u32 (l + LHUP y) <? l)))) (u32 (l + LHUP y)) (x + y * 65536).
Proof.
  unfold holds, is_u. intros [Hl H] Hy. split; [apply u32_range|].
  rewrite HHALF_div, LHUP_mul. unfold u32, wrap, b2z. case_if; boolify; dlia.
Qed.

Lemma holds_sub h l x y : holds h l x -> is_u 32 y ->
  holds (u32 (h - (HHALF y + b2z (l <? u32 (l - LHUP y))))) (u32 (l - LHUP y)) (x - y * 65536).
Proof.
  unfold holds, is_u. intros [Hl H] Hy. split; [apply u32_range|].
  rewrite HHALF_div, LHUP_mul. unfold u32, wrap, b2z. case_if; boolify; dlia.
Qed.

Lemma holds_low h l x y : holds h l x -> is_u 32 y ->
  holds (if u32 (l + y) <? y then u32 (h + 1) else h) (u32 (l + y)) (x + y).
Proof.
  unfold holds, is_u. intros [Hl H] Hy. split; [apply u32_range|].
  unfold u32, wrap. case_if; boolify; dlia.
Qed.

Lemma holds_high y : is_u 32 y -> holds (u32 (y + HHALF y)) (LHUP y) (y * 4294967296 + y * 65536).
Proof.
  unfold holds, is_u. intros Hy. split; [apply u32_range|].
  rewrite HHALF_div, LHUP_mul. unfold u32, wrap. dlia.
Qed.
End Pair.

Lemma prod_range a b : is_u 16 a -> is_u 16 b -> is_u 32 (a * b).
Proof. unfold is_u. change (2 ^ 32) with (2 ^ 16 * 2 ^ 16). nia. Qed.

Lemma lmulq_ok u v : is_u 32 u -> is_u 32 v -> lmulq u v = s64 (u * v).
Proof.
  intros Hu Hv. unfold lmulq. rewrite (HHALF_div u), (HHALF_div v), !LHALF_mod, (u32_small u), (u32_small v) by done.
  set (u1 := u `div` 65536). set (u0 := u `mod` 65536). set (v1 := v `div` 65536). set (v0 := v `mod` 65536).
  assert (u = u1 * 65536 + u0) as Eu by (unfold u1, u0; dlia).
  assert (v = v1 * 65536 + v0) as Ev by (unfold v1, v0; dlia).
  assert (is_u 16 u1 /\ is_u 16 u0 /\ is_u 16 v1 /\ is_u 16 v0) as (H1 & H2 & H3 & H4).
  { unfold is_u, u1, u0, v1, v0 in *. dlia. }
  clearbody u1 u0 v1 v0. rewrite (u32_small (u0 * v0)), (u32_small (u1 * v1)) by (by apply prod_range).
  destruct ((u1 =? 0) && (v1 =? 0)) eqn:E0.
  { boolify. subst u1 v1. unfold s64. rewrite swrap_small; [lia|done|].
    pose proof (prod_range u0 v0 H2 H4). subst. unfold is_s, is_u in *. lia. }
  clear E0. assert (forall x y, is_u 16 x -> is_u 16 y -> y <= x -> u32 (x - y) = x - y /\ is_u 16 (x - y)) as Hd.
  { intros x y Hx Hy Hle. unfold is_u in *. rewrite u32_small; unfold is_u; lia. }
  replace (u * v) with (u1 * v1 * 4294967296 + u1 * v1 * 65536 + (u1 - u0) * (v0 - v1) * 65536 + u0 * v0 * 65536 + u0 * v0)
    by (subst; lia).
  assert (forall h l x, holds h l x -> as_q (Uu h l) = s64 x) as Hdone.
  { intros h l x [Hl Hx]. by apply as_q_mod. }
  pose proof (holds_high (u1 * v1) ltac:(by apply prod_range)) as Hhigh.
  destruct (Z.leb_spec u0 u1), (Z.leb_spec v1 v0); simpl;
    (apply Hdone, holds_low; [|by apply prod_range]); (apply holds_add; [|by apply prod_range]).
  - destruct (Hd u1 u0 H1 H2 ltac:(lia)) as [-> ?], (Hd v0 v1 H4 H3 ltac:(lia)) as [-> ?].
    rewrite (u32_small (_ * _)) by auto using prod_range. apply holds_add; auto using prod_range.
  - destruct (Hd u1 u0 H1 H2 ltac:(lia)) as [-> ?], (Hd v1 v0 H3 H4 ltac:(lia)) as [-> ?].
    rewrite (u32_small (_ * _)) by auto using prod_range.
    replace ((u1 - u0) * (v0 - v1) * 65536) with (- ((u1 - u0) * (v1 - v0) * 65536)) by lia.
    apply holds_sub; auto using prod_range.
  - destruct (Hd u0 u1 H2 H1 ltac:(lia)) as [-> ?], (Hd v0 v1 H4 H3 ltac:(lia)) as [-> ?].
    rewrite (u32_small (_ * _)) by auto using prod_range.
    replace ((u1 - u0) * (v0 - v1) * 65536) with (- ((u0 - u1) * (v0 - v1) * 65536)) by lia.
    apply holds_sub; auto using prod_range.
  - destruct (Hd u0 u1 H2 H1 ltac:(lia)) as [-> ?], (Hd v1 v0 H3 H4 ltac:(lia)) as [-> ?].
    rewrite (u32_small (_ * _)) by auto using prod_range.
    replace ((u1 - u0) * (v0 - v1)) with ((u0 - u1) * (v1 - v0)) by lia.
    apply holds_add; auto using prod_range.
Qed.

Lemma s64_mod x : s64 x `mod` 2 ^ 64 = x `mod` 2 ^ 64.
Proof. unfold s64, swrap, wrap. dlia. Qed.

Lemma s64_opp x : s64 (- s64 x) = s64 (- x).
Proof. apply swrap_mod; [done|]. pose proof (s64_mod x). dlia. Qed.

Lemma as_q_to_uu x : as_q (to_uu x) = s64 x.
Proof.
  unfold to_uu, INT_BITS. apply as_q_mod; [apply u32_range|]. rewrite Z.shiftr_div_pow2 by lia.
  unfold u32, wrap. dlia.
Qed.

(** The words of the magnitude of a number. *)
Lemma magnitude x : is_s 64 x ->
  exists h l, to_uu (if 0 <=? x then x else s64 (- x)) = Uu h l /\ is_u 32 h /\ is_u 32 l /\ h * 4294967296 + l = Z.abs x.
Proof.
  intros Hx. exists (Z.abs x `div` 4294967296), (Z.abs x `mod` 4294967296). unfold is_u, is_s in *.
  conj; [|dlia..]. unfold to_uu, INT_BITS. rewrite Z.shiftr_div_pow2 by lia.
  unfold u32, s64, swrap, wrap. case_if; boolify; f_equal; dlia.
Qed.

(** The middle product, wrapped, with its sign. *)
Lemma middle a b c d : is_u 32 a -> is_u 32 b -> is_u 32 c -> is_u 32 d ->
  let '(negmid, udiff) := if b <=? a then (false, u32 (a - b)) else (true, u32 (b - a)) in
  let '(vdiff, negmid) := if d <=? c then (u32 (c - d), negmid) else (u32 (d - c), negb negmid) in
  exists k, (if (negmid : bool) then u32 (- u32 (udiff * vdiff)) else u32 (udiff * vdiff)) = (a - b) * (c - d) + k * 2 ^ 32.
Proof.
  intros Ha Hb Hc Hd. unfold is_u in *.
  assert (forall x, exists k, u32 x = x + k * 2 ^ 32) as Hm.
  { intros x. exists (- (x `div` 2 ^ 32)). unfold u32, wrap. dlia. }
  destruct (Z.leb_spec b a), (Z.leb_spec d c); simpl; rewrite !(u32_small (_ - _)) by (unfold is_u; lia);
    match goal with |- context [u32 (?x * ?y)] => destruct (Hm (x * y)) as [k ->] end;
    try match goal with |- context [u32 (- ?x)] => destruct (Hm (- x)) as [k' ->] end;
    first [exists (k' - k) | exists k]; lia.
Qed.

Lemma muldi3_ok a b : is_s 64 a -> is_s 64 b -> muldi3 a b = s64 (a * b).
Proof.
  intros Ha Hb. destruct (magnitude a Ha) as (u1 & u0 & Eu & Hu1 & Hu0 & Au).
  destruct (magnitude b Hb) as (v1 & v0 & Ev & Hv1 & Hv0 & Av).
  set (prod := if (u1 =? 0) && (v1 =? 0) then to_uu (lmulq u0 v0)
    else
      let low := to_uu (lmulq u0 v0) in
      let '(negmid, udiff) := if u0 <=? u1 then (false, u32 (u1 - u0)) else (true, u32 (u0 - u1)) in
      let '(vdiff, negmid) := if v1 <=? v0 then (u32 (v0 - v1), negmid) else (u32 (v1 - v0), negb negmid) in
      let mid := u32 (udiff * vdiff) in
      let high := u32 (u1 * v1) in
      Uu (u32 (high + (if negmid then u32 (- mid) else mid) + ulL low + ulH low)) (ulL low)).
  assert (muldi3 a b = if xorb (a <? 0) (b <? 0) then s64 (- as_q prod) else as_q prod) as ->.
  { unfold muldi3. destruct (Z.leb_spec 0 a), (Z.leb_spec 0 b), (Z.ltb_spec a 0), (Z.ltb_spec b 0);
      try lia; rewrite Eu, Ev; done. }
  assert (as_q prod = s64 (Z.abs a * Z.abs b)) as ->.
  - unfold prod. rewrite <- Au, <- Av, lmulq_ok by done. destruct ((u1 =? 0) && (v1 =? 0)) eqn:E0.
    { boolify. subst u1 v1. rewrite as_q_to_uu. apply swrap_mod; [done|]. by rewrite s64_mod. }
    pose proof (middle u1 u0 v0 v1 Hu1 Hu0 Hv0 Hv1) as Hm. pose proof (s64_mod (u0 * v0)) as Hs.
    destruct (to_uu_words (s64 (u0 * v0))) as [Hh Hl]. cbv zeta. rewrite Hh, Hl. revert Hm.
    destruct (if u0 <=? u1 then _ else _) as [n ud]. destruct (if v1 <=? v0 then _ else _) as [vd nm].
    intros [k ->]. apply as_q_mod; [apply u32_range|].
    replace ((u1 * 4294967296 + u0) * (v1 * 4294967296 + v0)) with
      (u1 * v1 * 18446744073709551616 + ((u1 - u0) * (v0 - v1) + u1 * v1 + u0 * v0) * 4294967296 + u0 * v0) by lia.
    generalize dependent (s64 (u0 * v0)). intros s Hh Hl Hs. unfold u32, wrap. dlia.
  - destruct (Z.ltb_spec a 0), (Z.ltb_spec b 0); simpl; rewrite ?s64_opp; f_equal; lia.
Qed.
