(* ===== verification/QuadDiv.v ===== *)
(** * 64-bit arithmetic: long division

    Arrays of digits as numbers, and the steps of Knuth's algorithm D in
    [qdivrem.c]: normalization, the estimate of a digit of the quotient,
    multiply and subtract, add back, and the loop over the digits. *)

From S2P Require Import Prelude Quad QuadWord.

(** The digit at an index, and the number written by [a[o+1] ... a[o+k]]. *)
Definition D (a : list Z) (i : Z) : Z := a !!! Z.to_nat i.

Fixpoint num (a : list Z) (o : Z) (k : nat) : Z :=
  match k with
  | O => 0
  | S k' => num a o k' * 65536 + D a (o + Z.of_nat k)
  end.

Definition digs (a : list Z) (o : Z) (k : nat) : Prop :=
  forall i, 1 <= i <= Z.of_nat k -> is_u 16 (D a (o + i)).

Definition len (a : list Z) : Z := Z.of_nat (length a).

Notation BB k := (65536 ^ Z.of_nat k).

(** The two arrays differ at most in the cells [lo <= i <= hi]. *)
Definition frame (a b : list Z) (lo hi : Z) : Prop :=
  length b = length a /\ forall i, 0 <= i -> (i < lo \/ hi < i) -> D b i = D a i.

Lemma frame_refl a lo hi : frame a a lo hi.
Proof. done. Qed.

Lemma frame_trans a b c lo hi : frame a b lo hi -> frame b c lo hi -> frame a c lo hi.
Proof. intros [L1 H1] [L2 H2]. split; [congruence|]. intros i Hi Ho. by rewrite H2, H1. Qed.

Lemma frame_mono a b lo hi lo' hi' : lo' <= lo -> hi <= hi' -> frame a b lo hi -> frame a b lo' hi'.
Proof. intros Hl Hh [L H]. split; [done|]. intros i Hi Ho. apply H; lia. Qed.

Lemma BB_pos k : 0 < BB k.
Proof. apply Z.pow_pos_nonneg; lia. Qed.

Lemma BB_S k : BB (S k) = BB k * 65536.
Proof. rewrite Nat2Z.inj_succ, Z.pow_succ_r by lia. lia. Qed.

Lemma aget_D a i : 0 <= i < len a -> aget a i = Ret (D a i).
Proof.
  intros Hi. unfold len in Hi. destruct (aget_bounds a i Hi) as (x & -> & Hx). unfold D.
  by rewrite (list_lookup_total_correct _ _ _ Hx).
Qed.

Lemma D_insert a i j x : 0 <= i < len a -> 0 <= j ->
  D (<[Z.to_nat i := x]> a) j = if i =? j then x else D a j.
Proof.
  intros Hi Hj. unfold D, len in *. destruct (Z.eqb_spec i j) as [->|].
  - by rewrite list_lookup_total_insert_eq by lia.
  - by rewrite list_lookup_total_insert_ne by lia.
Qed.

(** A store: its place, the rest, and the range of the digits. *)
Lemma aset_D a i x : 0 <= i < len a ->
  exists b, aset a i x = Ret b /\ frame a b i i /\ D b i = x.
Proof.
  intros Hi. exists (<[Z.to_nat i := x]> a). rewrite aset_bounds by (unfold len in Hi; lia). conj; [done|..].
  - split; [by rewrite length_insert|]. intros j Hj Ho. rewrite D_insert by done.
    destruct (Z.eqb_spec i j); [lia|done].
  - rewrite D_insert by lia. by rewrite Z.eqb_refl.
Qed.

Lemma num_ext a b o k : (forall i, 1 <= i <= Z.of_nat k -> D a (o + i) = D b (o + i)) -> num a o k = num b o k.
Proof.
  induction k as [|k IH]; simpl; [done|]. intros H. rewrite IH by (intros; apply H; lia). by rewrite H by lia.
Qed.

Lemma num_frame a b o k lo hi : frame a b lo hi -> 0 <= o -> (o + Z.of_nat k < lo \/ hi <= o) -> num b o k = num a o k.
Proof. intros [_ H] Ho Hr. apply num_ext. intros i Hi. apply H; lia. Qed.

Lemma digs_frame a b o k lo hi : frame a b lo hi -> 0 <= o -> (o + Z.of_nat k < lo \/ hi <= o) -> digs a o k -> digs b o k.
Proof. intros [_ H] Ho Hr Hd i Hi. rewrite H by lia. by apply Hd. Qed.

Lemma digs_S a o k : digs a o (S k) <-> digs a o k /\ is_u 16 (D a (o + Z.of_nat (S k))).
Proof.
  split.
  - intros H. split; [intros i Hi|]; apply H; lia.
  - intros [H1 H2] i Hi. destruct (decide (i = Z.of_nat (S k))) as [->|]; [done|]. apply H1. lia.
Qed.

Lemma digs_sub a o k o' k' : o <= o' -> o' + Z.of_nat k' <= o + Z.of_nat k -> digs a o k -> digs a o' k'.
Proof. intros H1 H2 H i Hi. replace (o' + i) with (o + (o' - o + i)) by lia. apply H. lia. Qed.

Lemma num_range a o k : digs a o k -> 0 <= num a o k < BB k.
Proof.
  induction k as [|k IH]; intros H; [done|]. apply digs_S in H as [H Hd]. specialize (IH H).
  cbn [num]. rewrite BB_S. unfold is_u in Hd. lia.
Qed.

Lemma num_split a o k l : num a o (k + l) = num a o k * BB l + num a (o + Z.of_nat k) l.
Proof.
  induction l as [|l IH].
  - rewrite Nat.add_0_r. simpl. lia.
  - rewrite Nat.add_succ_r. cbn [num]. rewrite IH, BB_S. replace (o + Z.of_nat (S (k + l))) with (o + Z.of_nat k + Z.of_nat (S l)) by lia.
    lia.
Qed.

Lemma num_cons a o k : num a o (S k) = D a (o + 1) * BB k + num a (o + 1) k.
Proof. change (S k) with (1 + k)%nat. rewrite num_split. cbn [num]. change (Z.of_nat 1) with 1. lia. Qed.

(** The low half as a digit. *)
Lemma digit_LHALF x : digit (LHALF x) = x `mod` 65536.
Proof. rewrite LHALF_mod. unfold digit, u16, wrap. dlia. Qed.

Lemma digit_small x : is_u 16 x -> digit x = x.
Proof. apply u16_small. Qed.

(** * Multiply and subtract, add back *)

Lemma borrow x : -65536 * 65535 <= x < 65536 ->
  Z.land (u32 (B - HHALF (u32 x))) (B - 1) = - (x `div` 65536) /\ is_u 16 (- (x `div` 65536)).
Proof.
  intros Hx. split; [|unfold is_u; dlia]. change (B - 1) with (Z.ones 16). rewrite Z.land_ones by lia.
  rewrite HHALF_div. change B with 65536. unfold u32, wrap. dlia.
Qed.

Lemma mulsub_ok vs u v j qhat i : forall us t,
  0 <= u + j -> u + j + Z.of_nat i < len us -> 0 <= v -> v + Z.of_nat i < len vs ->
  digs us (u + j) i -> digs vs v i -> is_u 16 qhat -> is_u 16 t ->
  exists us' t', mulsub us vs u v j qhat i t = Ret (us', t') /\ is_u 16 t' /\
    frame us us' (u + j + 1) (u + j + Z.of_nat i) /\ digs us' (u + j) i /\
    num us' (u + j) i = num us (u + j) i - qhat * num vs v i - t + t' * BB i.
Proof.
  induction i as [|i IH]; intros us t Ho Hu Hv Hvl Hdu Hdv Hq Ht.
  { exists us, t. simpl. conj; auto using frame_refl. lia. }
  cbn [mulsub]. replace (u + (Z.of_nat (S i) + j)) with (u + j + Z.of_nat (S i)) by lia.
  rewrite !aget_D by lia. cbn [bind].
  apply digs_S in Hdu as [Hdu Hx], Hdv as [Hdv Hy]. set (x := D us _) in *. set (y := D vs _) in *.
  set (z := x - y * qhat - t). assert (-65536 * 65535 <= z < 65536) as Hz by (unfold is_u, z in *; nia).
  destruct (borrow z Hz) as [-> Ht']. destruct (aset_D us (u + j + Z.of_nat (S i)) (digit (LHALF (u32 z)))) as (us1 & -> & F1 & E1); [lia|].
  cbn [bind]. pose proof (proj1 F1) as L1.
  destruct (IH us1 (- (z `div` 65536))) as (us' & t' & -> & Ht2 & F2 & Hd' & Hn);
    [done|unfold len in *; lia|done|lia|eapply digs_frame; [exact F1|lia..|done]|done..|].
  exists us', t'. conj; [done|done|..].
  - eapply frame_trans; eapply frame_mono; [| |exact F1| | |exact F2]; lia.
  - apply digs_S. split; [done|]. destruct F2 as [_ ->]; [|lia..]. rewrite E1, digit_LHALF. unfold is_u. dlia.
  - cbn [num]. destruct F2 as [_ F2]. rewrite F2 by lia. rewrite E1, digit_LHALF, Hn.
    rewrite (num_frame _ _ _ _ _ _ F1) by lia. fold x y. rewrite BB_S.
    replace (u32 z `mod` 65536) with (z - 65536 * (z `div` 65536)) by (unfold u32, wrap; dlia). unfold z. ring.
Qed.

Lemma carry_bit x : 0 <= x < 2 * 65536 -> HHALF (u32 x) = x `div` 65536 /\ 0 <= x `div` 65536 <= 1.
Proof. intros Hx. rewrite HHALF_div. unfold u32, wrap. dlia. Qed.

Lemma addback_ok vs u v j i : forall us t,
  0 <= u + j -> u + j + Z.of_nat i < len us -> 0 <= v -> v + Z.of_nat i < len vs ->
  digs us (u + j) i -> digs vs v i -> 0 <= t <= 1 ->
  exists us' t', addback us vs u v j i t = Ret (us', t') /\ 0 <= t' <= 1 /\
    frame us us' (u + j + 1) (u + j + Z.of_nat i) /\ digs us' (u + j) i /\
    num us' (u + j) i = num us (u + j) i + num vs v i + t - t' * BB i.
Proof.
  induction i as [|i IH]; intros us t Ho Hu Hv Hvl Hdu Hdv Ht.
  { exists us, t. simpl. conj; auto using frame_refl; lia. }
  cbn [addback]. replace (u + (Z.of_nat (S i) + j)) with (u + j + Z.of_nat (S i)) by lia.
  rewrite !aget_D by lia. cbn [bind].
  apply digs_S in Hdu as [Hdu Hx], Hdv as [Hdv Hy]. set (x := D us _) in *. set (y := D vs _) in *.
  set (z := t + (x + y)). assert (0 <= z < 2 * 65536) as Hz by (unfold is_u, z in *; lia).
  destruct (carry_bit z Hz) as [-> Ht']. destruct (aset_D us (u + j + Z.of_nat (S i)) (digit (LHALF (u32 z)))) as (us1 & -> & F1 & E1); [lia|].
  cbn [bind]. pose proof (proj1 F1) as L1.
  destruct (IH us1 (z `div` 65536)) as (us' & t' & -> & Ht2 & F2 & Hd' & Hn);
    [done|unfold len in *; lia|done|lia|eapply digs_frame; [exact F1|lia..|done]|done..|].
  exists us', t'. conj; [done|lia|lia|..].
  - eapply frame_trans; eapply frame_mono; [| |exact F1| | |exact F2]; lia.
  - apply digs_S. split; [done|]. destruct F2 as [_ ->]; [|lia..]. rewrite E1, digit_LHALF. unfold is_u. dlia.
  - cbn [num]. destruct F2 as [_ F2]. rewrite F2 by lia. rewrite E1, digit_LHALF, Hn.
    rewrite (num_frame _ _ _ _ _ _ F1) by lia. fold x y. rewrite BB_S.
    replace (u32 z `mod` 65536) with (z - 65536 * (z `div` 65536)) by (unfold u32, wrap; dlia). unfold z. ring.
Qed.

(** * The estimate of a digit *)

(** [q] is the quotient of three digits by two, at most [B - 1]. *)
Definition estimate (n d q : Z) : Prop :=
  is_u 16 q /\ q * d <= n /\ (q = 65535 \/ n < (q + 1) * d).

Lemma d3_loop_ok v1 v2 uj0 uj1 uj2 fuel : forall (too_big : bool) qhat rhat,
  32768 <= v1 < 65536 -> is_u 16 v2 -> is_u 16 uj2 -> is_u 16 rhat ->
  65536 - rhat <= 32768 * (Z.of_nat fuel - 1) ->
  qhat * v1 + rhat = uj0 * 65536 + uj1 ->
  (if too_big then qhat = 65536
   else is_u 16 qhat /\
     (qhat = 65535 \/ uj0 * 4294967296 + uj1 * 65536 + uj2 < (qhat + 1) * (v1 * 65536 + v2))) ->
  exists q, d3_loop v1 v2 uj2 too_big qhat rhat fuel = Ret q /\
    estimate (uj0 * 4294967296 + uj1 * 65536 + uj2) (v1 * 65536 + v2) q.
Proof.
  induction fuel as [|fuel IH]; intros big qhat rhat Hv1 Hv2 Hu2 Hr Hf He Hq; [unfold is_u in *; lia|].
  cbn [d3_loop]. change B with 65536. rewrite COMBINE_add by done.
  assert (0 <= qhat <= 65536) as Hq1 by (destruct big; unfold is_u in *; lia).
  rewrite (u32_small (v2 * qhat)) by (unfold is_u in *; nia).
  destruct (big || (rhat * 65536 + uj2 <? v2 * qhat)) eqn:E.
  - assert (is_u 16 (qhat - 1) /\ (qhat - 1 = 65535 \/
      uj0 * 4294967296 + uj1 * 65536 + uj2 < (qhat - 1 + 1) * (v1 * 65536 + v2))) as [H1 H2].
    { destruct big; simpl in E; [subst; unfold is_u; lia|]. boolify. destruct Hq as [Hq _]. unfold is_u in *. nia. }
    rewrite (u32_small (qhat - 1)), (u32_small (rhat + v1)) by (unfold is_u in *; lia).
    destruct (Z.leb_spec 65536 (rhat + v1)).
    + exists (qhat - 1). split; [done|]. split; [done|]. split; [|done]. unfold is_u in *. nia.
    + apply IH; auto; unfold is_u in *; lia.
  - destruct big; [done|]. simpl in E. boolify. exists qhat. split; [done|]. split; [apply Hq|].
    split; [nia|apply Hq].
Qed.

Lemma d3_ok v1 v2 uj0 uj1 uj2 :
  32768 <= v1 < 65536 -> is_u 16 v2 -> is_u 16 uj0 -> is_u 16 uj1 -> is_u 16 uj2 -> uj0 <= v1 ->
  exists q, d3 v1 v2 uj0 uj1 uj2 = Ret q /\
    estimate (uj0 * 4294967296 + uj1 * 65536 + uj2) (v1 * 65536 + v2) q.
Proof.
  intros Hv1 Hv2 Hu0 Hu1 Hu2 Hle. unfold d3. destruct (Z.eqb_spec uj0 v1) as [->|].
  { change B with 65536. apply d3_loop_ok; auto; unfold is_u in *; lia. }
  destruct (Z.eqb_spec v1 0); [lia|]. rewrite COMBINE_add by done. set (nn := uj0 * 65536 + uj1).
  assert (nn = v1 * (nn `div` v1) + nn `mod` v1) as Hd by (apply Z.div_mod; lia).
  pose proof (Z.mod_pos_bound nn v1 ltac:(lia)). unfold is_u in *.
  assert (0 <= nn `div` v1 < 65536) by (unfold nn in *; nia).
  apply d3_loop_ok; unfold is_u; (lia || unfold nn in *; nia).
Qed.

(** * One digit of the quotient *)

(** The number in the [n + 1] digits from [u[j]] on. *)
Definition window (us : list Z) (o : Z) (n : nat) : Z := D us o * BB n + num us o n.

Lemma window_S us o n : window us o (S n) = window us o n * 65536 + D us (o + Z.of_nat (S n)).
Proof. unfold window. cbn [num]. rewrite BB_S. ring. Qed.

Lemma window_shift us o n : window us o (S n) = D us o * BB (S n) + window us (o + 1) n.
Proof. unfold window. rewrite num_cons. ring. Qed.

Lemma window_split us o k l : window us o (k + l) = window us o k * BB l + num us (o + Z.of_nat k) l.
Proof. unfold window. rewrite num_split, Nat2Z.inj_add, Z.pow_add_r by lia. ring. Qed.

(** Dropping a digit that is zero after a step. *)
Lemma window_next us us1 o n k x :
  D us1 o = 0 -> (forall i, Z.of_nat n < i <= Z.of_nat (n + S k) -> D us1 (o + i) = D us (o + i)) ->
  num us1 o n = window us o n - x ->
  window us o (n + S k) = window us1 (o + 1) (n + k) + x * BB (S k).
Proof.
  intros E0 Hsame Hn. pose proof (window_split us1 o n (S k)) as H1. rewrite window_split.
  replace (n + S k)%nat with (S (n + k)) in H1 by lia. rewrite window_shift, E0 in H1.
  replace (window us1 o n) with (num us1 o n) in H1 by (unfold window; rewrite E0; ring). rewrite Hn in H1.
  replace (num us1 (o + Z.of_nat n) (S k)) with (num us (o + Z.of_nat n) (S k)) in H1; [lia|].
  apply num_ext. intros i Hi. rewrite <- !Z.add_assoc. symmetry. apply Hsame. lia.
Qed.

Lemma window_frame a b o k lo hi :
  frame a b lo hi -> 0 <= o -> (o + Z.of_nat k < lo \/ hi < o) -> window b o k = window a o k.
Proof.
  intros F Ho Hr. unfold window. rewrite (num_frame _ _ _ _ _ _ F) by lia. destruct F as [_ F].
  by rewrite F by lia.
Qed.

Section Step.
Context (vs : list Z) (v : Z) (n : nat).
Context (Hn : (2 <= n)%nat) (Hv : 0 <= v) (Hvl : v + Z.of_nat n < len vs) (Hdv : digs vs v n).
Context (Hnorm : 32768 <= D vs (v + 1)).

Notation V := (num vs v n).

Lemma V_bounds : BB n <= 2 * V /\ V < BB n /\ 65536 * BB (n - 2) <= V /\ 0 < V.
Proof.
  assert (0 <= V < BB n) as Hr by (by apply num_range). destruct n as [|[|n']]; [lia..|].
  replace (S (S n') - 2)%nat with n' by lia. rewrite num_cons in *. rewrite BB_S in *.
  assert (digs vs (v + 1) (S n')) as Hd by (eapply digs_sub; [| |exact Hdv]; lia).
  pose proof (num_range _ _ _ Hd). rewrite !BB_S in *. pose proof (BB_pos n') as Hb.
  pose proof (Z.mul_le_mono_nonneg_r _ _ (BB n' * 65536) ltac:(lia) Hnorm). lia.
Qed.

(** The estimate from the leading digits is right or one too large. *)
Lemma estimate_near us o q :
  0 <= o -> digs us (o - 1) (S n) -> window us o n < V * 65536 ->
  estimate (D us o * 4294967296 + D us (o + 1) * 65536 + D us (o + 2)) (D vs (v + 1) * 65536 + D vs (v + 2)) q ->
  - V < window us o n - q * V < V.
Proof.
  intros Ho Hdu HU (Hq & Hle & Hgt). pose proof V_bounds as (HV1 & HV2 & HV3 & HV4).
  assert (exists r s, window us o n = (D us o * 4294967296 + D us (o + 1) * 65536 + D us (o + 2)) * BB (n - 2) + r /\
    V = (D vs (v + 1) * 65536 + D vs (v + 2)) * BB (n - 2) + s /\ 0 <= r < BB (n - 2) /\ 0 <= s < BB (n - 2))
    as (r & s & HW & HV & Hr & Hs).
  { clear HU Hle Hgt HV1 HV2 HV3 HV4. unfold window. destruct n as [|[|n']]; [lia..|].
    replace (S (S n') - 2)%nat with n' by lia.
    exists (num us (o + 1 + 1) n'), (num vs (v + 1 + 1) n'). rewrite !num_cons, !BB_S.
    replace (o + 2) with (o + 1 + 1) by lia. replace (v + 2) with (v + 1 + 1) by lia.
    split; [ring|]. split; [ring|]. split; apply num_range; eapply digs_sub; [| |exact Hdu| | |exact Hdv]; lia. }
  rewrite HW in *. set (N := _ + D us (o + 2)) in *. set (W := _ + D vs (v + 2)) in *. pose proof (BB_pos (n - 2)).
  set (b := BB (n - 2)) in *. clearbody N W b. set (V := num vs v n) in *. clearbody V. unfold is_u in Hq.
  pose proof (Z.mul_le_mono_nonneg_r _ _ b ltac:(lia) Hle).
  assert (0 <= q * s <= 65535 * b) by (split; [apply Z.mul_nonneg_nonneg|apply Z.mul_le_mono_nonneg]; lia).
  assert (q * V = q * W * b + q * s) as HqV by (rewrite HV; ring).
  split; [lia|]. destruct Hgt as [->|Hgt]; [lia|].
  pose proof (Z.mul_le_mono_nonneg_r (N + 1) ((q + 1) * W) b ltac:(lia) ltac:(lia)). lia.
Qed.

(** Subtracting the estimate leaves the remainder, or the remainder less the
    divisor with a borrow out of [u[j]]. *)
Lemma subtract us u j q :
  let o := u + j in
  0 <= o -> o + Z.of_nat n < len us -> digs us (o - 1) (S n) -> is_u 16 q ->
  - V < window us o n - q * V < V ->
  exists us' t, mulsub us vs u v j q n 0 = Ret (us', t) /\ is_u 16 t /\ frame us us' (o + 1) (o + Z.of_nat n) /\
    digs us' o n /\ D us' o = D us o /\
    (D us o - t) * BB n + num us' o n = window us o n - q * V /\
    (0 <= D us o - t /\ 0 <= window us o n - q * V \/ D us o - t = -1 /\ window us o n - q * V < 0).
Proof.
  intros o Ho Hl Hdu Hq Hr. pose proof V_bounds as (HV1 & HV2 & HV3 & HV4).
  assert (digs us o n) as Hdu' by (eapply digs_sub; [| |exact Hdu]; lia).
  destruct (mulsub_ok vs u v j q n us 0) as (us' & t & E & Ht & F & Hd & Hnum); auto; [unfold is_u; lia|].
  fold o in Hnum, Hd, F. exists us', t. pose proof (num_range _ _ _ Hd) as Hn'. set (b := BB n) in *.
  assert (D us' o = D us o) as Ho' by (destruct F as [_ F]; apply F; lia).
  assert ((D us o - t) * b + num us' o n = window us o n - q * V) as Hw by (unfold window; fold b; rewrite Hnum; ring).
  conj; try done. assert (0 < b) by apply BB_pos.
  destruct (Z.leb_spec 0 (D us o - t)) as [Hp|Hp].
  - left. split; [done|]. rewrite <- Hw. apply Z.add_nonneg_nonneg; [apply Z.mul_nonneg_nonneg|]; lia.
  - right. assert (D us o - t = -1) as Hm; [|rewrite Hm in Hw; lia].
    destruct (Z.leb_spec (D us o - t) (-2)) as [H2|]; [exfalso|lia].
    pose proof (Z.mul_le_mono_nonneg_r _ _ b ltac:(lia) H2). lia.
Qed.

Lemma top_le us o : digs us o n -> window us o n < V * 65536 -> D us o <= D vs (v + 1).
Proof.
  intros Hd HU. apply num_range in Hd. unfold window in HU.
  assert (V < (D vs (v + 1) + 1) * BB (n - 1) /\ BB n = BB (n - 1) * 65536) as [HV Hb].
  { destruct n as [|n']; [lia|]. replace (S n' - 1)%nat with n' by lia. rewrite num_cons, BB_S.
    assert (digs vs (v + 1) n') as Hd1 by (eapply digs_sub; [| |exact Hdv]; lia).
    apply num_range in Hd1. split; lia. }
  destruct (Z.leb_spec (D us o) (D vs (v + 1))) as [|Hlt]; [done|exfalso]. pose proof (BB_pos (n - 1)).
  pose proof (Z.mul_le_mono_nonneg_r (D vs (v + 1) + 1) (D us o) (BB n) ltac:(lia) ltac:(lia)).
  rewrite Hb in *. lia.
Qed.

(** With a borrow, adding the divisor back gives the remainder. *)
Lemma restore us u j :
  let o := u + j in
  0 <= o -> o + Z.of_nat n < len us -> digs us o n -> D us o = 65535 ->
  BB n <= num us o n + V < BB n + V ->
  exists us' us'' t, addback us vs u v j n 0 = Ret (us', t) /\ D us' o = 65535 /\ len us' = len us /\
    aset us' o (digit (LHALF (u32 (65535 + t)))) = Ret us'' /\
    frame us us'' o (o + Z.of_nat n) /\ digs us'' o n /\ D us'' o = 0 /\ num us'' o n = num us o n + V - BB n.
Proof.
  intros o Ho Hl Hd E Hr. pose proof V_bounds as (HV1 & HV2 & HV3 & HV4).
  destruct (addback_ok vs u v j n us 0) as (us' & t & -> & Ht & F & Hd' & Hn'); auto; [lia|].
  fold o in F, Hd', Hn'. pose proof (num_range _ _ _ Hd'). assert (t = 1) as ->.
  { destruct (decide (t = 0)) as [->|]; lia. }
  pose proof (proj1 F) as L. destruct (aset_D us' o (digit (LHALF (u32 (65535 + 1))))) as (us'' & Es & F' & E');
    [unfold len in *; lia|]. exists us', us'', 1. conj; try done.
  - destruct F as [_ F]. rewrite F by lia. done.
  - unfold len. lia.
  - eapply frame_trans; eapply frame_mono; [| |exact F| | |exact F']; lia.
  - eapply digs_frame; [exact F'|lia..|done].
  - rewrite (num_frame _ _ _ _ _ _ F') by lia. lia.
Qed.

Lemma d_step_ok us u j :
  let o := u + j in
  0 <= o -> o + Z.of_nat n < len us -> digs us (o - 1) (S n) -> window us o n < V * 65536 ->
  exists us' q, d_step us vs u v (Z.of_nat n) j = Ret (us', q) /\ is_u 16 q /\
    frame us us' o (o + Z.of_nat n) /\ digs us' o n /\ D us' o = 0 /\
    num us' o n = window us o n - q * V /\ 0 <= num us' o n < V.
Proof.
  intros o Ho Hl Hdu HU. unfold d_step. rewrite Nat2Z.id.
  assert (forall i, 0 <= i <= Z.of_nat n -> is_u 16 (D us (o + i))) as Hdig.
  { intros i Hi. replace (o + i) with (o - 1 + (i + 1)) by lia. apply Hdu. lia. }
  rewrite !aget_D by lia. cbn [bind]. replace (u + (j + 0)) with o by lia. replace (u + (j + 1)) with (o + 1) by lia.
  replace (u + (j + 2)) with (o + 2) by lia. pose proof V_bounds as (HV1 & HV2 & HV3 & HV4).
  assert (D us o <= D vs (v + 1)) as Htop by (apply top_le; [eapply digs_sub; [| |exact Hdu]; lia|done]).
  assert (is_u 16 (D us o)) as Hd0 by (replace o with (o + 0) by lia; apply Hdig; lia).
  destruct (d3_ok (D vs (v + 1)) (D vs (v + 2)) (D us o) (D us (o + 1)) (D us (o + 2))) as (q & -> & Hest);
    [pose proof (Hdv 1 ltac:(lia)); unfold is_u in *; lia|apply Hdv; lia|done|apply Hdig; lia..|done|].
  pose proof (estimate_near us o q Ho Hdu HU Hest) as Hnear. destruct Hest as [Hq _]. cbn [bind].
  destruct (subtract us u j q Ho Hl Hdu Hq Hnear) as (us1 & t & -> & Ht & F1 & Hd1 & E0 & Hw & Hcase).
  fold o in F1, Hd1, E0, Hw, Hcase. cbn [bind]. fold o.
  pose proof (proj1 F1) as L1. rewrite aget_D by (unfold len in *; lia). cbn [bind]. rewrite E0.
  destruct (aset_D us1 o (digit (LHALF (u32 (D us o - t))))) as (us2 & -> & F2 & E2); [unfold len in *; lia|].
  cbn [bind]. pose proof (proj1 F2) as L2.
  assert (frame us us2 o (o + Z.of_nat n)) as F
    by (eapply frame_trans; eapply frame_mono; [| |exact F1| | |exact F2]; lia).
  assert (digs us2 o n) as Hd2 by (eapply digs_frame; [exact F2|lia..|done]).
  assert (num us2 o n = num us1 o n) as Hn2 by (apply (num_frame _ _ _ _ _ _ F2); lia).
  rewrite HHALF_div, digit_LHALF in *. pose proof (num_range _ _ _ Hd2). destruct Hcase as [[Hpos HR]|[Hneg HR]].
  - replace (u32 (u32 (D us o - t)) `div` 65536) with 0 by (unfold is_u, u32, wrap in *; dlia). simpl.
    assert (D us o - t = 0) as Hz.
    { destruct (decide (D us o - t = 0)) as [|]; [done|exfalso].
      pose proof (Z.mul_le_mono_nonneg_r 1 (D us o - t) (BB n) ltac:(lia) ltac:(lia)). lia. }
    exists us2, q. rewrite digit_small by done. rewrite Hz in *. conj; try done; lia.
  - rewrite Hneg in *. change (u32 (u32 (-1)) `div` 65536) with 65535. change (u32 (-1) `mod` 65536) with 65535 in *. simpl.
    assert (BB n <= num us2 o n + V < BB n + V) as Hsum by lia.
    destruct (restore us2 u j Ho) as (us3 & us4 & c & -> & E3 & L3 & Es & F4 & Hd4 & E4 & Hn4);
      [unfold len in *; lia|done..|]. fold o in E3, Es, F4, Hd4, E4, Hn4. cbn [bind]. fold o.
    rewrite aget_D by (unfold len in *; lia). cbn [bind]. rewrite E3, Es. cbn [bind].
    assert (0 < q) as Hq0.
    { destruct (decide (q = 0)) as [->|]; [|unfold is_u in *; lia]. exfalso. unfold window in HR.
      assert (0 <= D us o * BB n) by (apply Z.mul_nonneg_nonneg; [unfold is_u in *|]; lia).
      assert (digs us o n) as Hd by (eapply digs_sub; [| |exact Hdu]; lia). apply num_range in Hd. lia. }
    exists us4, (q - 1). rewrite u32_small by (unfold is_u in *; lia). rewrite digit_small by (unfold is_u in *; lia).
    conj; try done; [unfold is_u in *; lia|eapply frame_trans; [exact F|exact F4]|lia..].
Qed.

(** The whole loop: quotient and remainder of the digits from [u[j]] on. *)
Lemma d_loop_ok k : forall us qs u q j fuel,
  0 <= u + j -> u + j + Z.of_nat (n + k) < len us -> 0 <= q + j -> q + j + Z.of_nat k < len qs ->
  digs us (u + j - 1) (S (n + k)) -> window us (u + j) n < V * 65536 -> (k < fuel)%nat ->
  exists us' qs', d_loop us vs qs u v q (Z.of_nat n) (j + Z.of_nat k) j fuel = Ret (us', qs') /\
    frame us us' (u + j) (u + j + Z.of_nat (n + k)) /\ frame qs qs' (q + j) (q + j + Z.of_nat k) /\
    digs qs' (q + j - 1) (S k) /\ digs us' (u + j + Z.of_nat k) n /\
    (forall i, 0 <= i <= Z.of_nat k -> D us' (u + j + i) = 0) /\
    window us (u + j) (n + k) = num qs' (q + j - 1) (S k) * V + num us' (u + j + Z.of_nat k) n /\
    0 <= num us' (u + j + Z.of_nat k) n < V.
Proof.
  induction k as [|k IH]; intros us qs u q j fuel Ho Hl Hq Hql Hd HU Hf; (destruct fuel as [|fuel]; [lia|]);
    cbn [d_loop];
    (destruct (d_step_ok us u j) as (us1 & qj & -> & Hqj & F & Hd1 & E0 & Hn1 & Hr1);
      [done|lia|eapply digs_sub; [| |exact Hd]; lia|done|]); cbn [bind];
    (destruct (aset_D qs (q + j) qj) as (qs1 & -> & Fq & Eq); [lia|]); cbn [bind].
  - destruct (Z.leb_spec (j + 1) (j + Z.of_nat 0)); [lia|]. exists us1, qs1.
    rewrite Nat.add_0_r. change (Z.of_nat 0) with 0. rewrite !Z.add_0_r.
    conj; try done.
    + intros i Hi. replace (q + j - 1 + i) with (q + j) by lia. by rewrite Eq.
    + intros i Hi. by replace (u + j + i) with (u + j) by lia.
    + cbn [num]. replace (q + j - 1 + Z.of_nat 1) with (q + j) by lia. rewrite Eq. lia.
    + lia.
    + lia.
  - destruct (Z.leb_spec (j + 1) (j + Z.of_nat (S k))); [|lia].
    assert (forall i, Z.of_nat n < i <= Z.of_nat (n + S k) -> D us1 (u + j + i) = D us (u + j + i)) as Hsame.
    { intros i Hi. destruct F as [_ F]. apply F; lia. }
    assert (digs us1 (u + j) (n + S k)) as Hd1'.
    { intros i Hi. destruct (Z.leb_spec i (Z.of_nat n)); [apply Hd1; lia|]. rewrite Hsame by lia.
      replace (u + j + i) with (u + j - 1 + (i + 1)) by lia. apply Hd. lia. }
    assert (window us1 (u + (j + 1)) n < V * 65536) as HU1.
    { pose proof (window_shift us1 (u + j) n) as Hs. rewrite window_S, E0 in Hs. unfold window in Hs at 1.
      rewrite E0 in Hs. replace (u + (j + 1)) with (u + j + 1) by lia.
      pose proof (Hd1' (Z.of_nat (S n)) ltac:(lia)). unfold is_u in *. lia. }
    pose proof (proj1 F) as L1. pose proof (proj1 Fq) as Lq.
    destruct (IH us1 qs1 u q (j + 1) fuel) as (us' & qs' & E & F2 & Fq2 & Hdq & Hdu & Hz & Hw & Hr);
      [lia|unfold len in *; lia|lia|unfold len in *; lia|eapply digs_sub; [| |exact Hd1']; lia|done|lia|].
    replace (j + Z.of_nat (S k)) with (j + 1 + Z.of_nat k) by lia. exists us', qs'.
    replace (u + j + Z.of_nat (S k)) with (u + (j + 1) + Z.of_nat k) by lia.
    assert (D qs' (q + j) = qj) as Eq2 by (destruct Fq2 as [_ ->]; [done|lia..]).
    conj; try done.
    + eapply frame_trans; eapply frame_mono; [| |exact F| | |exact F2]; lia.
    + eapply frame_trans; eapply frame_mono; [| |exact Fq| | |exact Fq2]; lia.
    + intros i Hi. destruct (decide (i = 1)) as [->|].
      * replace (q + j - 1 + 1) with (q + j) by lia. by rewrite Eq2.
      * replace (q + j - 1 + i) with (q + (j + 1) - 1 + (i - 1)) by lia. apply Hdq. lia.
    + intros i Hi. destruct (decide (i = 0)) as [->|].
      * replace (u + j + 0) with (u + j) by lia. destruct F2 as [_ ->]; [done|lia..].
      * replace (u + j + i) with (u + (j + 1) + (i - 1)) by lia. apply Hz. lia.
    + rewrite (window_next us us1 (u + j) n k (qj * V)), num_cons by done.
      replace (q + j - 1 + 1) with (q + j) by lia. rewrite Eq2. replace (u + j + 1) with (u + (j + 1)) by lia.
      rewrite Hw. replace (q + (j + 1) - 1) with (q + j) by lia. ring.
    + lia.
    + lia.
Qed.
End Step.
