(* ===== verification/QuadShift.v ===== *)
(** * 64-bit arithmetic: normalization

    The parts of [qdivrem.c] around the division loop: taking a number apart
    into digits, skipping leading zeros, shifting left and back. *)

From S2P Require Import Prelude Quad QuadWord QuadDiv.

Section Shift.
Context (sh : Z) (Hsh : 0 < sh < 16).

Let S := 2 ^ sh.
Let T := 2 ^ (16 - sh).

Lemma S_pos : 0 < S.
Proof. apply pow2_pos. lia. Qed.

Lemma T_pos : 0 < T.
Proof. apply pow2_pos. lia. Qed.

Lemma S_T : S * T = 65536.
Proof. unfold S, T. rewrite <- Z.pow_add_r by lia. replace (sh + (16 - sh)) with 16 by lia. done. Qed.

Lemma S_range : 2 <= S <= 32768 /\ 2 <= T <= 32768.
Proof.
  pose proof S_pos. pose proof T_pos. pose proof S_T.
  assert (2 ^ 1 <= S) by (apply Z.pow_le_mono_r; lia). assert (2 ^ 1 <= T) by (apply Z.pow_le_mono_r; lia).
  change (2 ^ 1) with 2 in *. nia.
Qed.

(** A digit split at the bits that leave it. *)
Lemma split_high x : is_u 16 x -> exists h l, x = h * T + l /\ 0 <= h < S /\ 0 <= l < T.
Proof.
  intros Hx. exists (x `div` T), (x `mod` T). pose proof T_pos as HT. pose proof S_T.
  pose proof (Z.div_mod x T ltac:(lia)). pose proof (Z.mod_pos_bound x T HT).
  unfold is_u in Hx. split; [lia|]. split; [|lia]. split; [apply Z.div_pos; lia|].
  apply Z.div_lt_upper_bound; lia.
Qed.

Lemma split_low x : is_u 16 x -> exists h l, x = h * S + l /\ 0 <= h < T /\ 0 <= l < S.
Proof.
  intros Hx. exists (x `div` S), (x `mod` S). pose proof S_pos as HS. pose proof S_T.
  pose proof (Z.div_mod x S ltac:(lia)). pose proof (Z.mod_pos_bound x S HS).
  unfold is_u in Hx. split; [lia|]. split; [|lia]. split; [apply Z.div_pos; lia|].
  apply Z.div_lt_upper_bound; lia.
Qed.

Lemma LHALF_shl h l : 0 <= h < S -> 0 <= l < T -> LHALF (u32 (Z.shiftl (h * T + l) sh)) = Z.shiftl l sh.
Proof.
  intros Hh Hl. rewrite LHALF_mod, !Z.shiftl_mul_pow2 by lia. fold S. pose proof S_T as E. pose proof S_range.
  replace (u32 ((h * T + l) * S)) with ((h * T + l) * S).
  - replace ((h * T + l) * S) with (l * S + h * 65536) by (rewrite <- E; ring).
    rewrite Z_mod_plus_full, Z.mod_small; [done|]. nia.
  - symmetry. apply u32_small. unfold is_u. nia.
Qed.

(** What [shl] stores: the low bits of [x] and the high bits of [y]. *)
Lemma shl_digit hx lx hy ly : 0 <= hx < S -> 0 <= lx < T -> 0 <= hy < S -> 0 <= ly < T ->
  digit (Z.lor (LHALF (u32 (Z.shiftl (hx * T + lx) sh))) (Z.shiftr (hy * T + ly) (HALF_BITS - sh))) = lx * S + hy /\
  is_u 16 (lx * S + hy).
Proof.
  intros Hhx Hlx Hhy Hly. rewrite LHALF_shl by done. unfold HALF_BITS.
  rewrite Z.shiftr_div_pow2 by lia. fold T.
  replace ((hy * T + ly) `div` T) with hy
    by (apply Z.div_unique_pos with ly; lia).
  rewrite lor_shiftl_add by (fold S; lia). fold S. pose proof S_T. pose proof S_range.
  assert (is_u 16 (lx * S + hy)) by (unfold is_u; nia). split; [by apply digit_small|done].
Qed.

Lemma shl_last hx lx : 0 <= hx < S -> 0 <= lx < T ->
  digit (LHALF (u32 (Z.shiftl (hx * T + lx) sh))) = lx * S /\ is_u 16 (lx * S).
Proof.
  intros Hhx Hlx. rewrite LHALF_shl by done. rewrite Z.shiftl_mul_pow2 by lia. fold S.
  pose proof S_T. pose proof S_range. assert (is_u 16 (lx * S)) by (unfold is_u; nia).
  split; [by apply digit_small|done].
Qed.

(** The digits move left by [sh] bits; [h] is what leaves the first one. *)
Lemma shl_loop_ok k : forall a p i,
  0 <= p + i -> p + i + Z.of_nat k < len a -> digs a (p + i - 1) (Datatypes.S k) ->
  exists a' h, shl_loop a p i sh k = Ret a' /\ frame a a' (p + i) (p + i + Z.of_nat k) /\
    digs a' (p + i - 1) (Datatypes.S k) /\ h = D a (p + i) `div` T /\
    window a' (p + i) k + h * BB (Datatypes.S k) = window a (p + i) k * S.
Proof.
  induction k as [|k IH]; intros a p i Ho Hl Hd; cbn [shl_loop];
    (assert (is_u 16 (D a (p + i))) as Hx by (replace (p + i) with (p + i - 1 + 1) by lia; apply Hd; lia));
    destruct (split_high _ Hx) as (hx & lx & Ex & Hhx & Hlx); rewrite aget_D by lia; cbn [bind]; rewrite Ex;
    (assert (hx = (hx * T + lx) `div` T) as Eh by (apply Z.div_unique_pos with lx; lia)).
  - destruct (shl_last hx lx) as [-> Hr]; [done..|].
    destruct (aset_D a (p + i) (lx * S)) as (a' & -> & F & E); [lia|]. exists a', hx.
    change (Z.of_nat 0) with 0. rewrite Z.add_0_r. conj; try done.
    + intros j Hj. replace (p + i - 1 + j) with (p + i) by lia. by rewrite E.
    + unfold window. cbn [num]. rewrite E, Ex. change (BB 1) with 65536. change (BB 0) with 1. rewrite <- S_T. ring.
  - rewrite aget_D by lia. cbn [bind].
    assert (is_u 16 (D a (p + i + 1))) as Hy by (replace (p + i + 1) with (p + i - 1 + 2) by lia; apply Hd; lia).
    destruct (split_high _ Hy) as (hy & ly & Ey & Hhy & Hly). rewrite Ey.
    destruct (shl_digit hx lx hy ly) as [-> Hr]; [done..|].
    destruct (aset_D a (p + i) (lx * S + hy)) as (a1 & -> & F & E); [lia|]. cbn [bind]. pose proof (proj1 F) as L1.
    destruct (IH a1 p (i + 1)) as (a' & h & -> & F' & Hd' & Eh' & Hw);
      [lia|unfold len in *; lia| |].
    { eapply digs_frame; [exact F|lia..|]. eapply digs_sub; [| |exact Hd]; lia. }
    rewrite Z.add_assoc in *. exists a', hx.
    assert (D a' (p + i) = lx * S + hy) as E' by (destruct F' as [_ ->]; [done|lia..]).
    assert (D a1 (p + i + 1) = D a (p + i + 1)) as Ey1 by (destruct F as [_ ->]; [done|lia..]).
    assert (h = hy) as -> by (rewrite Eh', Ey1, Ey; symmetry; apply Z.div_unique_pos with ly; lia).
    rewrite (window_frame _ _ _ _ _ _ F) in Hw by lia. conj; try done.
    + eapply frame_trans; eapply frame_mono; [| |exact F| | |exact F']; lia.
    + intros j Hj. destruct (decide (j = 1)) as [->|].
      * replace (p + i - 1 + 1) with (p + i) by lia. by rewrite E'.
      * replace (p + i - 1 + j) with (p + i + 1 - 1 + (j - 1)) by lia. apply Hd'. lia.
    + rewrite !window_shift, E', Ex. rewrite (BB_S (Datatypes.S k)). set (b := BB (Datatypes.S k)) in *. clearbody b.
      assert (hx * (b * 65536) = hx * b * (S * T)) by (rewrite S_T; ring). lia.
Qed.
End Shift.

Section Unshift.
Context (sh : Z) (Hsh : 0 < sh < 16).

(** What the shift back stores: the high bits of [x] and the low bits of [y]. *)
Lemma unshift_digit hx lx hy ly :
  0 <= hx < 2 ^ (16 - sh) -> 0 <= lx < 2 ^ sh -> 0 <= hy < 2 ^ (16 - sh) -> 0 <= ly < 2 ^ sh ->
  digit (Z.lor (Z.shiftr (hx * 2 ^ sh + lx) sh) (LHALF (u32 (Z.shiftl (hy * 2 ^ sh + ly) (HALF_BITS - sh))))) =
    ly * 2 ^ (16 - sh) + hx /\
  is_u 16 (ly * 2 ^ (16 - sh) + hx).
Proof.
  intros Hhx Hlx Hhy Hly. assert (16 - (16 - sh) = sh) as E by lia.
  destruct (shl_digit (16 - sh) ltac:(lia) hy ly hx lx) as [H1 H2]; rewrite ?E; try done.
  rewrite E in H1. replace (HALF_BITS - (16 - sh)) with sh in H1 by (unfold HALF_BITS; lia).
  rewrite Z.lor_comm. done.
Qed.

Lemma low_part h l : 0 <= l < 2 ^ sh -> (h * 2 ^ sh + l) `mod` 2 ^ sh = l.
Proof. intros Hl. rewrite Z.add_comm, Z_mod_plus_full, Z.mod_small; lia. Qed.

Lemma unshift_ok k : forall us u m,
  0 <= u + m -> u + m + Z.of_nat k < len us -> digs us (u + m - 1) (S k) ->
  exists us', unshift us u m sh k = Ret us' /\ frame us us' (u + m) (u + m + Z.of_nat k) /\
    digs us' (u + m) k /\ D us' (u + m) = 0 /\
    num us' (u + m) k * 2 ^ sh + D us (u + m + Z.of_nat k) `mod` 2 ^ sh =
      D us (u + m) `mod` 2 ^ sh * BB k + num us (u + m) k.
Proof.
  induction k as [|k IH]; intros us u m Ho Hl Hd; cbn [unshift].
  - destruct (aset_D us (u + m) 0) as (us' & -> & F & E); [lia|]. exists us'.
    change (Z.of_nat 0) with 0. rewrite Z.add_0_r. conj; try done; [intros i Hi; lia|].
    simpl. lia.
  - replace (u + (m + Z.of_nat (S k))) with (u + m + Z.of_nat (S k)) by lia.
    replace (u + (m + Z.of_nat (S k) - 1)) with (u + m + Z.of_nat k) by lia.
    rewrite !aget_D by lia. cbn [bind].
    assert (forall i, 0 <= i <= Z.of_nat (S k) -> is_u 16 (D us (u + m + i))) as Hdig.
    { intros i Hi. replace (u + m + i) with (u + m - 1 + (i + 1)) by lia. apply Hd. lia. }
    destruct (split_low sh Hsh _ (Hdig (Z.of_nat (S k)) ltac:(lia))) as (hx & lx & Ex & Hhx & Hlx).
    destruct (split_low sh Hsh _ (Hdig (Z.of_nat k) ltac:(lia))) as (hy & ly & Ey & Hhy & Hly).
    rewrite Ex, Ey. destruct (unshift_digit hx lx hy ly) as [-> Hr]; [done..|].
    destruct (aset_D us (u + m + Z.of_nat (S k)) (ly * 2 ^ (16 - sh) + hx)) as (us1 & -> & F & E); [lia|].
    cbn [bind]. pose proof (proj1 F) as L1.
    destruct (IH us1 u m) as (us' & -> & F' & Hd' & E0 & Hn); [lia|unfold len in *; lia| |].
    { intros i Hi. destruct F as [_ ->]; [apply Hd; lia|lia..]. }
    assert (D us' (u + m + Z.of_nat (S k)) = ly * 2 ^ (16 - sh) + hx) as E' by (destruct F' as [_ ->]; [done|lia..]).
    exists us'. conj; try done.
    + eapply frame_trans; eapply frame_mono; [| |exact F| | |exact F']; lia.
    + apply digs_S. split; [done|]. by rewrite E'.
    + rewrite (num_frame _ _ _ _ _ _ F) in Hn by lia. destruct F as [_ F]. rewrite !F in Hn by lia.
      cbn [num]. rewrite E', Ex, BB_S. rewrite Ey in Hn.
      pose proof (S_T sh Hsh) as Hst. pose proof (S_pos sh Hsh) as HS.
      rewrite low_part by done. rewrite low_part in Hn by done.
      assert (ly * 2 ^ (16 - sh) * 2 ^ sh = ly * 65536) by (rewrite <- Hst; ring). lia.
Qed.
End Unshift.

(** * Numbers in five cells *)

Lemma num_zero a o k : (forall i, 1 <= i <= Z.of_nat k -> D a (o + i) = 0) -> num a o k = 0.
Proof.
  induction k as [|k IH]; simpl; [done|]. intros H. rewrite IH by (intros; apply H; lia). by rewrite H by lia.
Qed.

(** Leading zeros do not count. *)
Lemma num_skip a k l : (forall i, 1 <= i <= Z.of_nat k -> D a i = 0) -> num a 0 (k + l) = num a (Z.of_nat k) l.
Proof. intros H. rewrite num_split, num_zero by done. by rewrite Z.add_0_l. Qed.

Lemma num4 a : num a 0 4 = ((D a 1 * 65536 + D a 2) * 65536 + D a 3) * 65536 + D a 4.
Proof. done. Qed.

Lemma digits4_ok a x : length a = 5%nat -> is_u 64 x ->
  exists a', digits4 a x = Ret a' /\ frame a a' 1 4 /\ digs a' 0 4 /\ num a' 0 4 = x.
Proof.
  intros Hl Hx. do 5 (destruct a as [|? a]; [done|]). destruct a; [|done]. unfold digits4.
  destruct (to_uu_words x) as [-> ->]. rewrite !HHALF_div, !LHALF_mod. unfold aset. simpl.
  eexists. split; [done|].
  assert (forall z, 0 <= z < 65536 -> digit z = z) as Hdg by (intros; by apply digit_small).
  rewrite !Hdg by (unfold u32, wrap; dlia).
  conj.
  - split; [done|]. intros i Hi Ho. destruct (decide (i = 0)) as [->|]; [done|]. unfold D.
    assert (5 <= Z.to_nat i)%nat as H5 by lia. destruct (Z.to_nat i) as [|[|[|[|[|?] ] ] ] ]; [lia..|done].
  - intros i Hi. assert (i = 1 \/ i = 2 \/ i = 3 \/ i = 4) as [->|[->|[->| ->] ] ] by lia; unfold D, is_u; simpl;
      unfold u32, wrap; dlia.
  - unfold D. simpl. unfold u32, wrap, is_u in *. dlia.
Qed.

Lemma quad4_ok a : len a = 5 -> digs a 0 4 -> quad4 a = Ret (num a 0 4).
Proof.
  intros Hl Hd. unfold quad4. rewrite !aget_D by lia. cbn [bind].
  assert (forall i, 1 <= i <= 4 -> is_u 16 (D a i)) as Hi by (intros i Hi; apply (Hd i); lia).
  rewrite !COMBINE_add by (apply Hi; lia). rewrite as_uq_add, num4.
  - f_equal. lia.
  - pose proof (Hi 3). pose proof (Hi 4). unfold is_u in *. lia.
Qed.

Lemma zero_q_ok k : forall qs, Z.of_nat k <= len qs ->
  exists qs', zero_q qs 0 k = Ret qs' /\ frame qs qs' 0 (Z.of_nat k - 1) /\ forall i, 0 <= i < Z.of_nat k -> D qs' i = 0.
Proof.
  induction k as [|k IH]; intros qs Hl; cbn [zero_q].
  { exists qs. conj; try done. lia. }
  destruct (aset_D qs (0 + Z.of_nat k) 0) as (qs1 & -> & F & E); [lia|]. cbn [bind].
  destruct (IH qs1) as (qs' & -> & F' & Hz); [destruct F; unfold len in *; lia|]. exists qs'. conj; [done|..].
  - eapply frame_trans; eapply frame_mono; [| |exact F| | |exact F']; lia.
  - intros i Hi. destruct (decide (i = Z.of_nat k)) as [->|]; [|apply Hz; lia].
    destruct F' as [_ ->]; [done|lia..].
Qed.

Lemma normalize_ok fuel : forall t d,
  1 <= t < 65536 -> 32768 <= t * 2 ^ (Z.of_nat fuel - 1) -> (0 < fuel)%nat ->
  exists e, normalize t d fuel = Ret (d + e) /\ 0 <= e /\ 32768 <= t * 2 ^ e < 65536.
Proof.
  induction fuel as [|fuel IH]; intros t d Ht Hf Hp; [lia|]. cbn [normalize]. change (B / 2) with 32768.
  destruct (Z.ltb_spec t 32768).
  - rewrite Z.shiftl_mul_pow2, u32_small by (unfold is_u; lia). change (2 ^ 1) with 2.
    destruct fuel as [|fuel]; [simpl in Hf; lia|].
    destruct (IH (t * 2) (d + 1)) as (e & -> & He & Hr); [lia| |lia|].
    + replace (Z.of_nat (S (S fuel)) - 1) with (Z.succ (Z.of_nat (S fuel) - 1)) in Hf by lia.
      rewrite Z.pow_succ_r in Hf by lia. lia.
    + exists (1 + e). rewrite Z.pow_add_r by lia. split; [f_equal; lia|]. lia.
  - exists 0. split; [f_equal; lia|]. lia.
Qed.
