(* ===== verification/QuadSpec.v ===== *)
(** * 64-bit arithmetic: theorems

    [qdivrem] returns quotient and remainder for all operands, whatever the
    stack holds, and with it the four division routines of the compiler; the
    other routines are the operations on integers wrapped to 64 bits. *)

From S2P Require Import Prelude Quad QuadWord QuadDiv QuadShift.

Lemma skip_v_ok vs : len vs = 5 -> digs vs 0 4 -> num vs 0 4 <> 0 ->
  (skip_v vs 0 4 5 = Ret (2, 1) /\ num vs 0 4 = D vs 4) \/
  (exists n : nat, (2 <= n <= 4)%nat /\ skip_v vs 0 4 5 = Ret (4 - Z.of_nat n, Z.of_nat n) /\
    D vs (4 - Z.of_nat n + 1) <> 0 /\ num vs (4 - Z.of_nat n) n = num vs 0 4).
Proof.
  intros Hl Hd Hnz. cbn [skip_v]. rewrite !aget_D by lia. cbn [bind].
  change (0 + 1 + 1 + 1) with 3. change (0 + 1 + 1) with 2. change (0 + 1) with 1.
  rewrite num4 in *. destruct (Z.eqb_spec (D vs 1) 0) as [E1|E1]; cbn [negb].
  - change (4 - 1 =? 1) with false. cbn iota.
    destruct (Z.eqb_spec (D vs 2) 0) as [E2|E2]; cbn [negb].
    + change (4 - 1 - 1 =? 1) with false. cbn iota.
      destruct (Z.eqb_spec (D vs 3) 0) as [E3|E3]; cbn [negb].
      * left. change (4 - 1 - 1 - 1 =? 1) with true. cbn iota. split; [done|]. lia.
      * right. exists 2%nat. conj; [lia..|done|done|]. cbn [num]. change (4 - Z.of_nat 2 + Z.of_nat 1) with 3.
        change (4 - Z.of_nat 2 + Z.of_nat 2) with 4. lia.
    + right. exists 3%nat. conj; [lia..|done|done|]. cbn [num]. change (4 - Z.of_nat 3 + Z.of_nat 1) with 2.
      change (4 - Z.of_nat 3 + Z.of_nat 2) with 3. change (4 - Z.of_nat 3 + Z.of_nat 3) with 4. lia.
  - right. exists 4%nat. conj; [lia..|done|done|]. by rewrite num4.
Qed.

Lemma skip_u_ok us n k : forall fuel u,
  len us = 5 -> digs us 0 4 -> 0 <= u -> u + Z.of_nat k + Z.of_nat n = 4 -> (0 < n)%nat ->
  BB (n - 1) <= num us u (k + n) -> (k < fuel)%nat ->
  exists m : nat, (m <= k)%nat /\ skip_u us u (Z.of_nat k) fuel = Ret (u + Z.of_nat (k - m), Z.of_nat m) /\
    (forall i, u + 1 <= i <= u + Z.of_nat (k - m) -> D us i = 0) /\
    num us (u + Z.of_nat (k - m)) (m + n) = num us u (k + n).
Proof.
  induction k as [|k IH]; intros fuel u Hl Hd Hu Hs Hn Hlow Hf; (destruct fuel as [|fuel]; [lia|]); cbn [skip_u];
    rewrite aget_D by lia; cbn [bind]; (destruct (Z.eqb_spec (D us (u + 1)) 0) as [E|E]; cbn [negb]).
  - exfalso. destruct n as [|n]; [lia|]. replace (S n - 1)%nat with n in Hlow by lia. simpl Nat.add in Hlow.
    rewrite num_cons, E in Hlow.
    assert (digs us (u + 1) n) as Hr by (eapply digs_sub; [| |exact Hd]; lia). apply num_range in Hr. lia.
  - exists O. rewrite Z.add_0_r. conj; try done. intros; lia.
  - replace (Z.of_nat (S k) - 1) with (Z.of_nat k) by lia. simpl Nat.add in *. rewrite num_cons, E in *.
    destruct (IH fuel (u + 1)) as (m & Hm & -> & Hz & Hn'); [done|done|lia|lia|done|lia|lia|].
    exists m. replace (S k - m)%nat with (S (k - m)) by lia.
    replace (u + Z.of_nat (S (k - m))) with (u + 1 + Z.of_nat (k - m)) by lia. conj; [lia|done|..|lia].
    intros i Hi. destruct (decide (i = u + 1)) as [->|]; [done|]. apply Hz. lia.
  - exists (S k). replace (S k - S k)%nat with O by lia. rewrite Z.add_0_r. conj; try done. intros; lia.
Qed.

(** One step of the division by a digit. *)
Lemma short_step t r x : 0 < t < 65536 -> 0 <= r < t -> is_u 16 x ->
  COMBINE r x = r * 65536 + x /\ is_u 16 ((r * 65536 + x) `div` t) /\ 0 <= (r * 65536 + x) `mod` t < t.
Proof.
  unfold is_u. intros Ht Hr Hx. rewrite COMBINE_add by (unfold is_u; lia). conj; [done| | |apply Z.mod_pos_bound; lia..].
  - apply Z.div_pos; lia.
  - apply Z.div_lt_upper_bound; nia.
Qed.

Lemma short_div_ok us t arq : len us = 5 -> digs us 0 4 -> 0 < t < 65536 ->
  short_div us 0 t arq = Ret (num us 0 4 `div` t, if arq then Some (num us 0 4 `mod` t) else None).
Proof.
  intros Hl Hd Ht. unfold short_div. destruct (Z.eqb_spec t 0); [lia|]. rewrite !aget_D by lia. cbn [bind].
  assert (forall i, 1 <= i <= 4 -> is_u 16 (D us i)) as Hi by (intros i Hi; apply (Hd i); lia).
  change (0 + 1) with 1. change (0 + 2) with 2. change (0 + 3) with 3. change (0 + 4) with 4. rewrite num4.
  pose proof (Hi 1 ltac:(lia)) as H1. pose proof (Hi 2 ltac:(lia)) as H2.
  pose proof (Hi 3 ltac:(lia)) as H3. pose proof (Hi 4 ltac:(lia)) as H4.
  set (u1 := D us 1) in *. set (u2 := D us 2) in *. set (u3 := D us 3) in *. set (u4 := D us 4) in *.
  clearbody u1 u2 u3 u4. clear Hi Hd Hl.
  destruct (short_step t 0 u1 Ht ltac:(lia) H1) as (_ & Q1 & R1). rewrite Z.mul_0_l, Z.add_0_l in *.
  pose proof (Z.div_mod u1 t ltac:(lia)) as E1. set (q1 := u1 `div` t) in *. set (r1 := u1 `mod` t) in *.
  destruct (short_step t r1 u2 Ht R1 H2) as (-> & Q2 & R2).
  pose proof (Z.div_mod (r1 * 65536 + u2) t ltac:(lia)) as E2. set (q2 := (r1 * _ + _) `div` t) in *. set (r2 := (r1 * _ + _) `mod` t) in *.
  destruct (short_step t r2 u3 Ht R2 H3) as (-> & Q3 & R3).
  pose proof (Z.div_mod (r2 * 65536 + u3) t ltac:(lia)) as E3. set (q3 := (r2 * _ + _) `div` t) in *. set (r3 := (r2 * _ + _) `mod` t) in *.
  destruct (short_step t r3 u4 Ht R3 H4) as (-> & Q4 & R4).
  pose proof (Z.div_mod (r3 * 65536 + u4) t ltac:(lia)) as E4. set (q4 := (r3 * _ + _) `div` t) in *. set (r4 := (r3 * _ + _) `mod` t) in *.
  clearbody q1 q2 q3 q4 r1 r2 r3 r4. rewrite !digit_small, !COMBINE_add by done. unfold is_u in *. rewrite as_uq_add by (unfold is_u; lia).
  assert (((u1 * 65536 + u2) * 65536 + u3) * 65536 + u4 =
    t * (((q1 * 65536 + q2) * 65536 + q3) * 65536 + q4) + r4) as E by lia.
  rewrite E. f_equal. f_equal.
  - apply Z.div_unique_pos with r4; lia.
  - destruct arq; [|done]. f_equal. eapply Z.mod_unique_pos; [exact R4|done].
Qed.

(** The optional shift of the dividend and of the divisor. *)
Lemma scale_ok a p k d :
  0 <= d < 16 -> 0 <= p -> p + Z.of_nat k < len a -> digs a (p - 1) (S k) -> D a p * 2 ^ d < 65536 ->
  exists a', (if 0 <? d then shl a p (Z.of_nat k) d else Ret a) = Ret a' /\ frame a a' p (p + Z.of_nat k) /\
    digs a' (p - 1) (S k) /\ window a' p k = window a p k * 2 ^ d.
Proof.
  intros Hd Hp Hl Hdg Htop. destruct (Z.ltb_spec 0 d).
  - unfold shl. rewrite Nat2Z.id.
    destruct (shl_loop_ok d ltac:(lia) k a p 0) as (a' & h & E & F & Hd' & Eh & Hw); rewrite ?Z.add_0_r; [done..|].
    rewrite Z.add_0_r in *. exists a'. conj; try done.
    assert (h = 0) as ->; [|lia]. rewrite Eh. pose proof (S_T d ltac:(lia)) as Hst. pose proof (S_pos d ltac:(lia)).
    assert (is_u 16 (D a p)) as Hu by (replace p with (p - 1 + 1) by lia; apply Hdg; lia).
    apply Z.div_small. unfold is_u in Hu. split; [lia|]. nia.
  - assert (d = 0) as -> by lia. exists a. conj; try done. lia.
Qed.

(** The optional shift back of the remainder. *)
Lemma rescale_ok us u m n d r :
  0 <= d < 16 -> 0 <= u + m -> u + m + Z.of_nat n < len us -> digs us (u + m) n -> D us (u + m) = 0 ->
  num us (u + m) n = r * 2 ^ d -> (0 < n)%nat ->
  exists us', (if negb (d =? 0) then unshift us u m d n else Ret us) = Ret us' /\
    frame us us' (u + m) (u + m + Z.of_nat n) /\ digs us' (u + m) n /\ D us' (u + m) = 0 /\ num us' (u + m) n = r.
Proof.
  intros Hd Ho Hl Hdg E Hn Hpos. destruct (Z.eqb_spec d 0) as [->|]; cbn [negb].
  { exists us. conj; try done. lia. }
  destruct (unshift_ok d ltac:(lia) n us u m) as (us' & -> & F & Hd' & E' & Hv); [done..| |].
  { intros i Hi. destruct (decide (i = 1)) as [->|].
    - replace (u + m - 1 + 1) with (u + m) by lia. by rewrite E.
    - replace (u + m - 1 + i) with (u + m + (i - 1)) by lia. apply Hdg. lia. }
  exists us'. conj; try done. rewrite E, Hn in Hv. pose proof (S_pos d ltac:(lia)) as HS.
  pose proof (Z.mod_pos_bound (D us (u + m + Z.of_nat n)) (2 ^ d) HS). rewrite Z.mod_0_l in Hv by lia. nia.
Qed.

(** Quotient and remainder survive scaling. *)
Lemma scaled_quotient x y s q r : 0 < s -> x * s = q * (y * s) + r -> 0 <= r < y * s ->
  q = x `div` y /\ r = x `mod` y * s.
Proof.
  intros Hs E Hr. assert (r = (x - q * y) * s) as Er by lia.
  assert (0 <= x - q * y < y) as Hb by nia.
  assert (q = x `div` y) as -> by (apply Z.div_unique_pos with (x - q * y); lia).
  split; [done|]. rewrite Er. f_equal. rewrite Z.mod_eq by lia. lia.
Qed.

(** The leading digit of a number that is large enough. *)
Lemma leading_digit a o n x : (0 < n)%nat -> digs a o n -> x * BB (n - 1) <= num a o n -> x <= D a (o + 1).
Proof.
  intros Hn Hd Hx. destruct n as [|n]; [lia|]. replace (S n - 1)%nat with n in Hx by lia. rewrite num_cons in Hx.
  assert (digs a (o + 1) n) as Hr by (eapply digs_sub; [| |exact Hd]; lia). apply num_range in Hr.
  pose proof (BB_pos n). nia.
Qed.

(** The leading digits of a number that is small enough. *)
Lemma leading_window a o n m x : 0 <= o -> digs a (o - 1) (S (n + m)) -> window a o (n + m) < x * BB m -> window a o n < x.
Proof.
  intros Ho Hd. rewrite window_split.
  assert (digs a (o + Z.of_nat n) m) as Hr by (eapply digs_sub; [| |exact Hd]; lia). apply num_range in Hr.
  pose proof (BB_pos m). nia.
Qed.

Section Long.
Context (us vs qs : list Z) (n m : nat) (uq vq : Z).
Context (Hn : (2 <= n)%nat) (Hmn : (m + n <= 4)%nat).
Context (Lu : len us = 5) (Lv : len vs = 5) (Lq : len qs = 5).
Context (Du : digs us (-1) 5) (Dv : digs vs 0 4).

Notation u := (4 - Z.of_nat n - Z.of_nat m).
Notation v := (4 - Z.of_nat n).

Context (Zu : forall i, 0 <= i <= u -> D us i = 0).
Context (Eu : num us u (m + n) = uq) (Ev : num vs v n = vq) (Hv1 : D vs (v + 1) <> 0).
Context (Zq : forall i, 0 <= i < 4 - Z.of_nat m -> D qs i = 0).

(** The arrays after normalization, ready for the loop. *)
Lemma normalized :
  exists d us' vs', 0 <= d < 16 /\ normalize (D vs (v + 1)) 0 17 = Ret d /\
    (if 0 <? d then shl us u (Z.of_nat m + Z.of_nat n) d else Ret us) = Ret us' /\
    (if 0 <? d then shl vs (v + 1) (Z.of_nat n - 1) d else Ret vs) = Ret vs' /\
    frame us us' u 4 /\ len vs' = 5 /\ digs us' (u - 1) (S (n + m)) /\ digs vs' v n /\
    window us' u (n + m) = uq * 2 ^ d /\ num vs' v n = vq * 2 ^ d /\ 32768 <= D vs' (v + 1) /\
    window us' u n < num vs' v n * 65536.
Proof.
  assert (is_u 16 (D vs (v + 1))) as Hv1r by (apply (Dv (v + 1)); lia).
  destruct (normalize_ok 17 (D vs (v + 1)) 0) as (d & Ed & Hd & Hr);
    [unfold is_u in *; lia|unfold is_u in *; change (2 ^ (Z.of_nat 17 - 1)) with 65536; lia|lia|].
  rewrite Z.add_0_l in Ed.
  assert (d < 16) as Hd16.
  { destruct (Z.ltb_spec d 16) as [|Hge]; [done|exfalso].
    pose proof (Z.pow_le_mono_r 2 16 d ltac:(lia) Hge). unfold is_u in *. nia. }
  destruct (scale_ok us u (m + n) d) as (us' & Eus & Fu & Du' & Wu); [lia|lia|lia|..].
  { eapply digs_sub; [| |exact Du]; lia. }
  { rewrite Zu by lia. lia. }
  destruct (scale_ok vs (v + 1) (n - 1) d) as (vs' & Evs & Fv & Dv' & Wv); [lia|lia|lia|..|lia|].
  { eapply digs_sub; [| |exact Dv]; lia. }
  rewrite Nat2Z.inj_add in Eus. replace (Z.of_nat (n - 1)) with (Z.of_nat n - 1) in Evs by lia.
  assert (forall a, num a v n = window a (v + 1) (n - 1)) as Hnw.
  { intros a. replace n with (S (n - 1)) at 2 by lia. by rewrite num_cons. }
  rewrite <- !Hnw, Ev in Wv. replace (v + 1 - 1) with v in Dv' by lia. replace (S (n - 1)) with n in Dv' by lia.
  rewrite Nat.add_comm in Wu, Du'. replace (window us u (n + m)) with uq in Wu
    by (unfold window; rewrite Zu, (Nat.add_comm n m), Eu; lia).
  pose proof (pow2_pos d Hd) as HS.
  pose proof (BB_pos (n - 1)) as Hbp. pose proof (BB_pos m) as Hbm.
  assert (D vs (v + 1) * BB (n - 1) <= vq) as Hlow.
  { rewrite <- Ev, Hnw. unfold window. assert (digs vs (v + 1) (n - 1)) as H by (eapply digs_sub; [| |exact Dv]; lia).
    apply num_range in H. lia. }
  exists d, us', vs'. conj; try done.
  - eapply frame_mono; [| |exact Fu]; lia.
  - destruct Fv as [L _]. unfold len in *. lia.
  - apply (leading_digit vs' v n); [lia|done|]. rewrite Wv.
    assert (D vs (v + 1) * BB (n - 1) * 2 ^ d <= vq * 2 ^ d) by (apply Z.mul_le_mono_nonneg_r; lia). nia.
  - apply (leading_window us' u n m); [lia|done|]. rewrite Wu, Wv.
    assert (digs us u (m + n)) as H by (eapply digs_sub; [| |exact Du]; lia). apply num_range in H. rewrite Eu in H.
    assert (BB (m + n) = BB m * BB (n - 1) * 65536) as Eb.
    { rewrite <- Z.mul_assoc, <- BB_S. replace (S (n - 1)) with n by lia. rewrite Nat2Z.inj_add, Z.pow_add_r by lia. done. }
    rewrite Eb in H. assert (BB (n - 1) <= vq) by (unfold is_u in *; nia).
    assert (uq < BB m * vq * 65536) by nia.
    assert (uq * 2 ^ d < BB m * vq * 65536 * 2 ^ d) by (apply Z.mul_lt_mono_pos_r; lia). lia.
Qed.

Lemma long_div_ok arq :
  long_div us vs qs u v (4 - Z.of_nat m) (Z.of_nat n) (Z.of_nat m) arq =
    Ret (uq `div` vq, if arq then Some (uq `mod` vq) else None).
Proof.
  unfold long_div. rewrite aget_D by lia. cbn [bind].
  destruct normalized as (d & us1 & vs1 & Hd & -> & E1 & E2 & Fu & Lv1 & Du1 & Dv1 & Wu & Wv & Hnorm & Hhead).
  cbn [bind]. rewrite E1. cbn [bind]. rewrite E2. cbn [bind]. clear E1 E2.
  assert (len us1 = 5) as Lu1 by (destruct Fu; unfold len in *; lia).
  destruct (d_loop_ok vs1 v n Hn ltac:(lia) ltac:(lia) Dv1 Hnorm m us1 qs u (4 - Z.of_nat m) 0 5)
    as (us2 & qs2 & E & Fu2 & Fq & Dq & Du2 & Zu2 & Hw & Hr); rewrite ?Z.add_0_r; try lia; try done.
  rewrite Z.add_0_l in E. rewrite E. cbn [bind]. rewrite !Z.add_0_r in *. rewrite Wu, Wv in Hw. rewrite Wv in Hr.
  pose proof (pow2_pos d ltac:(lia)) as HS.
  destruct (scaled_quotient uq vq (2 ^ d) _ _ HS Hw Hr) as [Eq Er].
  assert (quad4 qs2 = Ret (uq `div` vq)) as Eqq.
  { assert (forall i, 1 <= i <= 3 - Z.of_nat m -> D qs2 i = 0) as Hz0 by (intros i Hi; destruct Fq as [_ ->]; [apply Zq|..]; lia).
    rewrite quad4_ok; [|destruct Fq; unfold len in *; lia|].
    - f_equal. replace 4%nat with (3 - m + S m)%nat by lia. rewrite num_skip by (intros; apply Hz0; lia).
      rewrite <- Eq. f_equal. lia.
    - intros i Hi. destruct (Z.leb_spec i (3 - Z.of_nat m)); [rewrite Hz0 by lia; done|].
      replace (0 + i) with (4 - Z.of_nat m - 1 + (i - (3 - Z.of_nat m))) by lia. apply Dq. lia. }
  destruct arq; [|cbn [bind]; by rewrite Eqq]. rewrite Nat2Z.id.
  assert (len us2 = 5) as Lu2 by (destruct Fu2; unfold len in *; lia).
  destruct (rescale_ok us2 u (Z.of_nat m) n d (uq `mod` vq)) as (us3 & -> & F3 & D3 & E0 & N3);
    [lia..|done|apply Zu2; lia|done|lia|]. cbn [bind].
  assert (forall i, 0 <= i <= u + Z.of_nat m -> D us3 i = 0) as Z3.
  { intros i Hi. destruct (decide (i = u + Z.of_nat m)) as [->|]; [done|]. destruct F3 as [_ ->]; [|lia..].
    destruct (Z.leb_spec u i).
    - replace i with (u + (i - u)) by lia. apply Zu2. lia.
    - destruct Fu2 as [_ ->]; [|lia..]. destruct Fu as [_ ->]; [|lia..]. apply Zu. lia. }
  rewrite quad4_ok, Eqq; [|destruct F3; unfold len in *; lia|].
  - cbn [bind]. f_equal. f_equal. f_equal. replace 4%nat with (4 - n + n)%nat by lia.
    rewrite num_skip by (intros; apply Z3; lia). rewrite <- N3. f_equal. lia.
  - intros i Hi. destruct (Z.leb_spec i (u + Z.of_nat m)); [rewrite Z3 by lia; done|].
    replace (0 + i) with (u + Z.of_nat m + (i - (u + Z.of_nat m))) by lia. apply D3. lia.
Qed.
End Long.

Lemma qdivrem_ok uspace vspace qspace uq vq arq :
  length uspace = 5%nat -> length vspace = 5%nat -> length qspace = 5%nat ->
  is_u 64 uq -> is_u 64 vq -> vq <> 0 ->
  qdivrem uspace vspace qspace uq vq arq = Ret (uq `div` vq, if arq then Some (uq `mod` vq) else None).
Proof.
  intros Lu Lv Lq Hu Hv Hnz. unfold qdivrem. destruct (Z.eqb_spec vq 0) as [|_]; [done|].
  assert (0 < vq) as Hpos by (unfold is_u in *; lia). destruct (Z.ltb_spec uq vq).
  { unfold is_u in *. by rewrite Z.div_small, Z.mod_small by lia. }
  destruct (aset_D uspace 0 0) as (us0 & -> & F0 & E0); [unfold len; lia|]. cbn [bind]. pose proof (proj1 F0) as L0.
  destruct (digits4_ok us0 uq) as (us & -> & F1 & Du & Nu); [lia|done|]. cbn [bind].
  destruct (digits4_ok vspace vq) as (vs & -> & F2 & Dv & Nv); [done|done|]. cbn [bind].
  assert (len us = 5 /\ len vs = 5) as [Lus Lvs] by (destruct F1, F2; unfold len; lia).
  destruct (skip_v_ok vs Lvs Dv) as [[-> E4]|(n & Hn & -> & Htop & Nv')]; [lia| |]; cbn [bind].
  - rewrite Z.eqb_refl, aget_D by lia. cbn [bind]. change (2 + 2) with 4. rewrite <- E4, Nv.
    rewrite short_div_ok, Nu; [done|done|done|]. rewrite <- Nv, E4. pose proof (Dv 4 ltac:(lia)) as H4.
    change (0 + 4) with 4 in H4. rewrite E4 in *. unfold is_u in *. lia.
  - destruct (Z.eqb_spec (Z.of_nat n) 1); [lia|].
    assert (BB (n - 1) <= num us 0 (4 - n + n)) as Hlow.
    { replace (4 - n + n)%nat with 4%nat by lia. rewrite Nu.
      assert (BB (n - 1) <= num vs (4 - Z.of_nat n) n) as Hb; [|lia].
      clear - Hn Htop Dv. destruct n as [|n]; [lia|]. replace (S n - 1)%nat with n by lia. rewrite num_cons.
      assert (digs vs (4 - Z.of_nat (S n) + 1) n) as Hr by (eapply digs_sub; [| |exact Dv]; lia). apply num_range in Hr.
      pose proof (Dv (4 - Z.of_nat (S n) + 1) ltac:(lia)) as Hd. rewrite Z.add_0_l in Hd. unfold is_u in Hd.
      pose proof (BB_pos n). nia. }
    destruct (skip_u_ok us n (4 - n) 5 0) as (m & Hm & E & Zu & Nu'); [done|done|lia..|done|lia|].
    replace (Z.of_nat (4 - n)) with (4 - Z.of_nat n) in E by lia. rewrite E. cbn [bind].
    destruct (zero_q_ok (Z.to_nat (4 - Z.of_nat m)) qspace) as (qs & -> & Fq & Zq); [unfold len; lia|]. cbn [bind].
    replace (0 + Z.of_nat (4 - n - m)) with (4 - Z.of_nat n - Z.of_nat m) in * by lia.
    replace (4 - n + n)%nat with 4%nat in Nu' by lia.
    assert (D us 0 = 0) as Eu0 by (destruct F1 as [_ ->]; [done|lia..]).
    apply long_div_ok; try done; try lia.
    + destruct Fq. unfold len. lia.
    + intros i Hi. destruct (decide (i = 1)) as [->|]; [change (-1 + 1) with 0; by rewrite Eu0|].
      replace (-1 + i) with (0 + (i - 1)) by lia. apply Du. lia.
    + intros i Hi. destruct (decide (i = 0)) as [->|]; [done|]. apply Zu. lia.
    + intros i Hi. apply Zq. lia.
Qed.

Lemma u64_small x : is_u 64 x -> u64 x = x.
Proof. apply wrap_small. Qed.

(** The unsigned magnitude that [divdi3] and [moddi3] divide. *)
Lemma u64_abs a : is_s 64 a -> (if a <? 0 then u64 (- u64 a) else u64 a) = Z.abs a /\ is_u 64 (Z.abs a).
Proof. unfold is_s, is_u, u64, wrap. intros Ha. case_if; boolify; split; dlia. Qed.

Lemma s64_u64_opp x : s64 (u64 (- x)) = s64 (- x).
Proof. apply swrap_mod; [done|]. unfold u64, wrap. by rewrite Zmod_mod. Qed.

Lemma quot_abs a b : b <> 0 ->
  a `quot` b = (if xorb (a <? 0) (b <? 0) then - (Z.abs a `div` Z.abs b) else Z.abs a `div` Z.abs b).
Proof.
  intros Hb. destruct (Z.ltb_spec a 0), (Z.ltb_spec b 0); simpl;
    rewrite <- Z.quot_div_nonneg by lia; rewrite ?(Z.abs_neq a), ?(Z.abs_neq b), ?(Z.abs_eq a), ?(Z.abs_eq b) by lia;
    rewrite ?Z.quot_opp_l, ?Z.quot_opp_r by lia; lia.
Qed.

Lemma rem_abs a b : b <> 0 -> a `rem` b = (if a <? 0 then - (Z.abs a `mod` Z.abs b) else Z.abs a `mod` Z.abs b).
Proof.
  intros Hb. destruct (Z.ltb_spec a 0), (Z.ltb_spec b 0);
    rewrite <- Z.rem_mod_nonneg by lia; rewrite ?(Z.abs_neq a), ?(Z.abs_neq b), ?(Z.abs_eq a), ?(Z.abs_eq b) by lia;
    rewrite ?Z.rem_opp_l, ?Z.rem_opp_r by lia; lia.
Qed.

Section Division.
Context (us vs qs : list Z).
Context (Lu : length us = 5%nat) (Lv : length vs = 5%nat) (Lq : length qs = 5%nat).

Lemma divdi3_ok a b : is_s 64 a -> is_s 64 b -> b <> 0 -> divdi3 us vs qs a b = Ret (s64 (a `quot` b)).
Proof.
  intros Ha Hb Hnz. destruct (u64_abs a Ha) as [Ea Ra], (u64_abs b Hb) as [Eb Rb].
  assert (divdi3 us vs qs a b =
    let! (uq, _) := qdivrem us vs qs (if a <? 0 then u64 (- u64 a) else u64 a) (if b <? 0 then u64 (- u64 b) else u64 b) false in
    Ret (s64 (if xorb (a <? 0) (b <? 0) then u64 (- uq) else uq))) as ->.
  { unfold divdi3. destruct (a <? 0), (b <? 0); done. }
  rewrite Ea, Eb, qdivrem_ok by (done || lia). cbn [bind]. rewrite quot_abs by done.
  destruct (xorb _ _); [by rewrite s64_u64_opp|done].
Qed.

Lemma moddi3_ok a b : is_s 64 a -> is_s 64 b -> b <> 0 -> moddi3 us vs qs a b = Ret (a `rem` b).
Proof.
  intros Ha Hb Hnz. destruct (u64_abs a Ha) as [Ea Ra], (u64_abs b Hb) as [Eb Rb].
  assert (moddi3 us vs qs a b =
    let! (_, r) := qdivrem us vs qs (if a <? 0 then u64 (- u64 a) else u64 a) (if b <? 0 then u64 (- u64 b) else u64 b) true in
    match r with Some ur => Ret (s64 (if a <? 0 then u64 (- ur) else ur)) | None => Fault NullDeref end) as ->.
  { unfold moddi3. destruct (a <? 0); done. }
  rewrite Ea, Eb, qdivrem_ok by (done || lia). cbn [bind]. rewrite rem_abs by done.
  pose proof (Z.mod_pos_bound (Z.abs a) (Z.abs b) ltac:(lia)). unfold is_s in *.
  f_equal. destruct (Z.ltb_spec a 0); [rewrite s64_u64_opp|]; apply swrap_small; unfold is_s; lia.
Qed.

Lemma udivdi3_ok a b : is_u 64 a -> is_u 64 b -> b <> 0 ->
  udivdi3 us vs qs a b = Ret (a `div` b) /\ umoddi3 us vs qs a b = Ret (a `mod` b).
Proof. intros Ha Hb Hnz. unfold udivdi3, umoddi3. by rewrite !qdivrem_ok. Qed.
End Division.

(** Long division, [__qdivrem]: for all unsigned 64-bit operands, whatever
    the three digit arrays held before, the call returns the quotient, and the
    remainder if the caller asks for it; it stays inside the arrays, its loops
    end, and a zero divisor is a division by zero. *)
Theorem qdivrem_correct uspace vspace qspace uq vq arq :
  length uspace = 5%nat -> length vspace = 5%nat -> length qspace = 5%nat -> is_u 64 uq -> is_u 64 vq ->
  qdivrem uspace vspace qspace uq vq arq =
    if vq =? 0 then Fault DivByZero else Ret (uq `div` vq, if arq then Some (uq `mod` vq) else None).
Proof.
  intros. destruct (Z.eqb_spec vq 0) as [->|]; [done|]. by apply qdivrem_ok.
Qed.

Definition stack : list Z := [1; 22; 333; 4444; 55555].

(** The operands exercise the correction step D6. *)
Lemma qdivrem_correct_witness :
  qdivrem stack stack stack 9223372036854775811 35184372088833 true =
    (if 35184372088833 =? 0 then Fault DivByZero
     else Ret (9223372036854775811 `div` 35184372088833, Some (9223372036854775811 `mod` 35184372088833))).
Proof. apply (qdivrem_correct stack stack stack 9223372036854775811 35184372088833 true); by compute_decide || done. Defined.

(** C12. The compiler's division routines: the signed ones truncate toward zero
    and the remainder has the sign of the dividend (the quotient of the least
    number by -1 wraps), the unsigned ones are quotient and remainder. *)
Theorem quad_division uspace vspace qspace a b :
  length uspace = 5%nat -> length vspace = 5%nat -> length qspace = 5%nat -> b <> 0 ->
  (is_s 64 a -> is_s 64 b ->
     divdi3 uspace vspace qspace a b = Ret (s64 (a `quot` b)) /\ moddi3 uspace vspace qspace a b = Ret (a `rem` b)) /\
  (is_u 64 a -> is_u 64 b ->
     udivdi3 uspace vspace qspace a b = Ret (a `div` b) /\ umoddi3 uspace vspace qspace a b = Ret (a `mod` b)).
Proof.
  intros Lu Lv Lq Hb. split; intros Ha Hb'; [|by apply udivdi3_ok].
  split; [by apply divdi3_ok|by apply moddi3_ok].
Qed.

Lemma quad_division_witness :
  (is_s 64 (-7) -> is_s 64 2 -> divdi3 stack stack stack (-7) 2 = Ret (s64 (-3)) /\ moddi3 stack stack stack (-7) 2 = Ret (-1)) /\
  (is_u 64 (-7) -> is_u 64 2 ->
     udivdi3 stack stack stack (-7) 2 = Ret ((-7) `div` 2) /\ umoddi3 stack stack stack (-7) 2 = Ret ((-7) `mod` 2)).
Proof. apply (quad_division stack stack stack (-7) 2); [done..|lia]. Defined.

(** C32. Multiplication, [__muldi3]: three products of half words in place of
    four, on both levels, give the product modulo [2^64], for all operands
    including the least number. *)
Theorem muldi3_correct a b : is_s 64 a -> is_s 64 b -> muldi3 a b = s64 (a * b).
Proof. apply muldi3_ok. Qed.

Lemma muldi3_correct_witness : muldi3 (- 2 ^ 63) 1000003 = s64 (- 2 ^ 63 * 1000003).
Proof. apply (muldi3_correct (- 2 ^ 63) 1000003); compute_decide. Defined.

(** The other routines on quads: addition, subtraction and negation wrap to
    64 bits, the bitwise operations and the shifts by less than 64 are those on
    integers, the comparisons give the order, and a shift by 64 or more shifts a
    word by its width or more. *)
Theorem quad_operations a b s :
  is_s 64 a -> is_s 64 b ->
  (adddi3 a b = s64 (a + b) /\ subdi3 a b = s64 (a - b) /\ negdi2 a = s64 (- a)) /\
  (anddi3 a b = s64 (Z.land a b) /\ iordi3 a b = s64 (Z.lor a b) /\ xordi3 a b = s64 (Z.lxor a b) /\
   one_cmpldi2 a = s64 (Z.lnot a)) /\
  (cmpdi2 a b = order a b /\ ucmpdi2 (u64 a) (u64 b) = order (u64 a) (u64 b)) /\
  (0 <= s < 64 ->
     ashldi3 a s = Ret (s64 (Z.shiftl a s)) /\ lshldi3 a s = Ret (s64 (Z.shiftl a s)) /\
     ashrdi3 a s = Ret (s64 (Z.shiftr a s)) /\ lshrdi3 a s = Ret (s64 (Z.shiftr (u64 a) s))) /\
  (64 <= s -> ashldi3 a s = Fault BadShift /\ lshrdi3 a s = Fault BadShift).
Proof.
  intros Ha Hb. conj; auto using adddi3_ok, subdi3_ok, negdi2_ok, anddi3_ok, iordi3_ok, xordi3_ok, one_cmpldi2_ok, cmpdi2_ok.
  - apply ucmpdi2_ok; apply wrap_range; done.
  - intros Hs. conj; auto using ashldi3_ok, lshldi3_ok, ashrdi3_ok, lshrdi3_ok.
  - intros Hs. unfold ashldi3, lshrdi3, shl32, shr32, INT_BITS.
    destruct (Z.eqb_spec s 0), (Z.leb_spec 32 s), (Z.leb_spec 0 (s - 32)), (Z.ltb_spec (s - 32) 32); (lia || done).
Qed.

Lemma quad_operations_witness :
  ashrdi3 (-5) 33 = Ret (s64 (Z.shiftr (-5) 33)) /\ cmpdi2 (-5) 7 = order (-5) 7.
Proof.
  destruct (quad_operations (-5) 7 33) as (_ & _ & [H _] & Hs & _); [compute_decide..|].
  split; [apply Hs; lia|exact H].
Defined.
