(* ===== verification/Timeout.v ===== *)
(** * The timeout wheel

    [kern/kern_timeout.c]: timeouts on a hierarchical timing wheel of four
    levels with 256 buckets each, and a worklist.  The queues are circular and
    doubly linked through the timeouts; the wheel, the worklist and [ticks] are
    the state.  All functions run under one mutex, which [softclock] releases
    around a handler. *)

From S2P Require Import Prelude.

Definition BUCKETS : Z := 1024.
Definition WHEELSIZE : Z := 256.
Definition WHEELMASK : Z := 255.
Definition WHEELBITS : Z := 8.

Definition TIMEOUT_ONQUEUE : Z := 2.
Definition TIMEOUT_INITIALIZED : Z := 4.
Definition TIMEOUT_TRIGGERED : Z := 8.

(** What a [struct circq] pointer may point at: the worklist, a bucket, or the
    [to_list] of a timeout. *)
Inductive node := Todo | Bucket (b : Z) | To (t : Z).

#[export] Instance node_eq_dec : EqDecision node.
Proof. solve_decision. Defined.

Record links := Links { next : node -> node; prev : node -> node }.

Definition set_next (a b : node) (l : links) : links :=
  Links (fun x => if decide (x = a) then b else next l x) (prev l).
Definition set_prev (a b : node) (l : links) : links :=
  Links (next l) (fun x => if decide (x = a) then b else prev l x).

Definition CIRCQ_INIT (elem : node) (l : links) : links := set_prev elem elem (set_next elem elem l).

Definition CIRCQ_INSERT (elem lst : node) (l : links) : links :=
  let l := set_prev elem (prev l lst) l in
  let l := set_next elem lst l in
  let l := set_next (prev l lst) elem l in
  set_prev lst elem l.

Definition CIRCQ_FIRST (elem : node) (l : links) : node := next l elem.
Definition CIRCQ_EMPTY (elem : node) (l : links) : bool := bool_decide (CIRCQ_FIRST elem l = elem).

Definition CIRCQ_APPEND (fst snd : node) (l : links) : links :=
  if CIRCQ_EMPTY snd l then l
  else
    let l := set_next (prev l fst) (next l snd) l in
    let l := set_prev (next l snd) (prev l fst) l in
    let l := set_next (prev l snd) fst l in
    let l := set_prev fst (prev l snd) l in
    CIRCQ_INIT snd l.

Definition CIRCQ_REMOVE (elem : node) (l : links) : links :=
  let l := set_prev (next l elem) (prev l elem) l in
  set_next (prev l elem) (next l elem) l.

Record timeout := Timeout { to_func : Z; to_arg : Z; to_time : Z; to_flags : Z }.

Definition with_time (v : Z) (t : timeout) : timeout := Timeout (to_func t) (to_arg t) v (to_flags t).
Definition with_flags (v : Z) (t : timeout) : timeout := Timeout (to_func t) (to_arg t) (to_time t) v.

(** A call of a handler: the timeout, its handler and argument, and the time. *)
Record fired := Fired { f_to : Z; f_func : Z; f_arg : Z; f_ticks : Z }.

(** The timeouts by address, and the handlers called so far, latest first. *)
Record wheel := Wheel { circ : links; tos : Z -> timeout; ticks : Z; calls : list fired }.

Definition with_circ (f : links -> links) (s : wheel) : wheel := Wheel (f (circ s)) (tos s) (ticks s) (calls s).
Definition modify (t : Z) (f : timeout -> timeout) (s : wheel) : wheel :=
  Wheel (circ s) (fun x => if x =? t then f (tos s x) else tos s x) (ticks s) (calls s).

(** [to->to_time - ticks], an [int]. *)
Definition remaining (s : wheel) (t : Z) : Z := s32 (to_time (tos s t) - ticks s).

Definition MASKWHEEL (w time : Z) : Z := Z.land (Z.shiftr time (w * WHEELBITS)) WHEELMASK.

(** [&timeout_wheel[i]]. *)
Definition timeout_wheel (i : Z) : outcome node :=
  if (0 <=? i) && (i <? BUCKETS) then Ret (Bucket i) else Fault OutOfBounds.

Definition BUCKET (rel abs : Z) : outcome node :=
  timeout_wheel
    (if rel <=? Z.shiftl 1 (2 * WHEELBITS)
     then if rel <=? Z.shiftl 1 WHEELBITS
       then MASKWHEEL 0 abs
       else MASKWHEEL 1 abs + WHEELSIZE
     else if rel <=? Z.shiftl 1 (3 * WHEELBITS)
       then MASKWHEEL 2 abs + 2 * WHEELSIZE
       else MASKWHEEL 3 abs + 3 * WHEELSIZE).

Definition MOVEBUCKET (w time : Z) (s : wheel) : outcome wheel :=
  let! b := timeout_wheel (MASKWHEEL w time + w * WHEELSIZE) in
  Ret (with_circ (CIRCQ_APPEND Todo b) s).

Fixpoint init_buckets (b : Z) (k : nat) (l : links) : links :=
  match k with O => l | S k => init_buckets (b + 1) k (CIRCQ_INIT (Bucket b) l) end.

Definition timeout_startup (s : wheel) : wheel :=
  with_circ (fun l => init_buckets 0 (Z.to_nat BUCKETS) (CIRCQ_INIT Todo l)) s.

Definition timeout_set (new fn arg : Z) (s : wheel) : wheel :=
  modify new (fun t => Timeout fn arg (to_time t) TIMEOUT_INITIALIZED) s.

Definition timeout_add (new to_ticks : Z) (s : wheel) : outcome wheel :=
  if negb (flag (to_flags (tos s new)) TIMEOUT_INITIALIZED) then Panic "timeout_add: not initialized"
  else if to_ticks <? 0 then Panic "timeout_add: to_ticks < 0"
  else
    let old_time := to_time (tos s new) in
    let s := modify new (with_time (s32 (to_ticks + ticks s))) s in
    let s := modify new (fun t => with_flags (Z.land (to_flags t) (Z.lnot TIMEOUT_TRIGGERED)) t) s in
    if flag (to_flags (tos s new)) TIMEOUT_ONQUEUE then
      if remaining s new <? s32 (old_time - ticks s) then
        Ret (with_circ (CIRCQ_INSERT (To new) Todo) (with_circ (CIRCQ_REMOVE (To new)) s))
      else Ret s
    else
      let s := modify new (fun t => with_flags (Z.lor (to_flags t) TIMEOUT_ONQUEUE) t) s in
      Ret (with_circ (CIRCQ_INSERT (To new) Todo) s).

Definition INT_MAX : Z := 2147483647.

(** [if (to_ticks > INT_MAX) to_ticks = INT_MAX], and the cast of the call. *)
Definition clamp (to_ticks : Z) : Z := s32 (if INT_MAX <? to_ticks then INT_MAX else to_ticks).

(** [x / y] of C. *)
Definition quot (x y : Z) : outcome Z := if y =? 0 then Fault DivByZero else Ret (x `quot` y).

Section Convert.
(** Ticks per second, and microseconds per tick. *)
Context (hz tick : Z).

Definition timeout_add_tv (to tv_sec tv_usec : Z) (s : wheel) : outcome wheel :=
  let! sub := quot tv_usec tick in
  timeout_add to (clamp (s64 (hz * tv_sec + sub))) s.

Definition timeout_add_ts (to tv_sec tv_nsec : Z) (s : wheel) : outcome wheel :=
  let! sub := quot tv_nsec (s32 (tick * 1000)) in
  timeout_add to (clamp (s64 (hz * tv_sec + sub))) s.

Definition timeout_add_bt (to sec frac : Z) (s : wheel) : outcome wheel :=
  let! sub := quot (Z.shiftr (u64 (1000000 * u32 (Z.shiftr frac 32))) 32) tick in
  timeout_add to (clamp (s64 (hz * sec + sub))) s.

Definition timeout_add_sec (to secs : Z) (s : wheel) : outcome wheel :=
  timeout_add to (clamp (s64 (hz * secs))) s.

Definition timeout_add_usec (to usecs : Z) (s : wheel) : outcome wheel :=
  let! to_ticks := quot usecs tick in
  timeout_add to to_ticks s.

Definition timeout_add_nsec (to nsecs : Z) (s : wheel) : outcome wheel :=
  let! to_ticks := quot nsecs (s32 (tick * 1000)) in
  timeout_add to to_ticks s.
End Convert.

Definition timeout_del (to : Z) (s : wheel) : wheel :=
  let s :=
    if flag (to_flags (tos s to)) TIMEOUT_ONQUEUE then
      let s := with_circ (CIRCQ_REMOVE (To to)) s in
      modify to (fun t => with_flags (Z.land (to_flags t) (Z.lnot TIMEOUT_ONQUEUE)) t) s
    else s in
  modify to (fun t => with_flags (Z.land (to_flags t) (Z.lnot TIMEOUT_TRIGGERED)) t) s.

Definition with_ticks (v : Z) (s : wheel) : wheel := Wheel (circ s) (tos s) v (calls s).

(** The result tells whether a [softclock] is to be scheduled. *)
Definition timeout_hardclock_update (s : wheel) : outcome (bool * wheel) :=
  let s := with_ticks (s32 (ticks s + 1)) s in
  let! s := MOVEBUCKET 0 (ticks s) s in
  let! s := (if MASKWHEEL 0 (ticks s) =? 0 then
      let! s := MOVEBUCKET 1 (ticks s) s in
      if MASKWHEEL 1 (ticks s) =? 0 then
        let! s := MOVEBUCKET 2 (ticks s) s in
        if MASKWHEEL 2 (ticks s) =? 0 then MOVEBUCKET 3 (ticks s) s else Ret s
      else Ret s
    else Ret s) in
  Ret (negb (CIRCQ_EMPTY Todo (circ s)), s).

(** The branch of [softclock] for a timeout that is due, up to the call. *)
Definition fire (t : Z) (s : wheel) : wheel :=
  let s := modify t (fun x => with_flags (Z.land (to_flags x) (Z.lnot TIMEOUT_ONQUEUE)) x) s in
  let s := modify t (fun x => with_flags (Z.lor (to_flags x) TIMEOUT_TRIGGERED) x) s in
  Wheel (circ s) (tos s) (ticks s) (Fired t (to_func (tos s t)) (to_arg (tos s t)) (ticks s) :: calls s).

(** Where [softclock] is: not running, at the head of its loop with the mutex,
    or in a handler without it. *)
Inductive mode := Out | Loop | Handler.

(** One round of the loop. *)
Definition softclock_body (s : wheel) : outcome (mode * wheel) :=
  if CIRCQ_EMPTY Todo (circ s) then Ret (Out, s)
  else
    match CIRCQ_FIRST Todo (circ s) with
    | To t =>
        let s := with_circ (CIRCQ_REMOVE (To t)) s in
        if 0 <? remaining s t then
          let! b := BUCKET (remaining s t) (to_time (tos s t)) in
          Ret (Loop, with_circ (CIRCQ_INSERT (To t) b) s)
        else Ret (Handler, fire t s)
    | _ => Fault BadCast
    end.

(** The loop up to its end or to the call of a handler. *)
Fixpoint softclock (fuel : nat) (s : wheel) : outcome (mode * wheel) :=
  match fuel with
  | O => Spin
  | S fuel =>
      let! (m, s) := softclock_body s in
      match m with Loop => softclock fuel s | _ => Ret (m, s) end
  end.

(** * The kernel around the wheel *)

(** The steps of a running kernel: the functions of the interface called by
    anyone who finds the mutex free, a clock tick, [softclock] starting, one
    round of its loop, and the return of a handler. *)
Inductive label :=
| LSet (t fn arg : Z)
| LAdd (t n : Z)
| LDel (t : Z)
| LTick
| LSoft
| LRound
| LReturn.

Record config := Config { cmode : mode; wh : wheel }.

Definition exec (l : label) (c : config) : outcome config :=
  match l with
  | LSet t fn arg => Ret (Config (cmode c) (timeout_set t fn arg (wh c)))
  | LAdd t n => let! s := timeout_add t n (wh c) in Ret (Config (cmode c) s)
  | LDel t => Ret (Config (cmode c) (timeout_del t (wh c)))
  | LTick => let! (_, s) := timeout_hardclock_update (wh c) in Ret (Config (cmode c) s)
  | LSoft => Ret (Config Loop (wh c))
  | LRound => let! (m, s) := softclock_body (wh c) in Ret (Config m s)
  | LReturn => Ret (Config Loop (wh c))
  end.

Fixpoint run (ls : list label) (c : config) : outcome config :=
  match ls with [] => Ret c | l :: ls => let! c := exec l c in run ls c end.

(** [timeout_pending] and [timeout_initialized]. *)
Definition timeout_pending (s : wheel) (t : Z) : bool := flag (to_flags (tos s t)) TIMEOUT_ONQUEUE.
Definition timeout_initialized (s : wheel) (t : Z) : bool := flag (to_flags (tos s t)) TIMEOUT_INITIALIZED.
Definition timeout_triggered (s : wheel) (t : Z) : bool := flag (to_flags (tos s t)) TIMEOUT_TRIGGERED.

(** What the interface asks of its callers, and when a step can happen: nobody
    else runs while the loop holds the mutex; a timeout is not initialized while
    it is pending; the time is an [int] that is not negative. *)
Definition allowed (l : label) (c : config) : Prop :=
  match l with
  | LSet t _ _ => cmode c <> Loop /\ timeout_pending (wh c) t = false
  | LAdd t n => cmode c <> Loop /\ timeout_initialized (wh c) t = true /\ 0 <= n <= INT_MAX
  | LDel _ | LTick => cmode c <> Loop
  | LSoft => cmode c = Out
  | LRound => cmode c = Loop
  | LReturn => cmode c = Handler
  end.

#[export] Instance mode_eq_dec : EqDecision mode.
Proof. solve_decision. Defined.

#[export] Instance allowed_dec l c : Decision (allowed l c).
Proof. destruct l; simpl; apply _. Defined.

(** After [timeout_startup]: nothing is pending. *)
Inductive reachable : config -> Prop :=
| r_start s : is_s 32 (ticks s) -> (forall t, timeout_pending s t = false) -> reachable (Config Out (timeout_startup s))
| r_step l c c' : reachable c -> allowed l c -> exec l c = Ret c' -> reachable c'.
