(* ===== verification/TimeoutInv.v ===== *)
(** * The timeout wheel: circular queues and the invariant

    A head and the nodes linked behind it form a ring; insertion at the tail,
    removal and the move of a whole queue act on rings as on lists, and leave
    the links of all other nodes alone. *)

From stdpp Require Import sets.
From S2P Require Import Prelude Timeout.

(** From [a] through [xs] to [e]. *)
Fixpoint chain (l : links) (a : node) (xs : list node) (e : node) : Prop :=
  match xs with
  | [] => next l a = e /\ prev l e = a
  | x :: xs => next l a = x /\ prev l x = a /\ chain l x xs e
  end.

Definition ring (l : links) (h : node) (xs : list node) : Prop := chain l h xs h /\ NoDup (h :: xs).

(** The links of the nodes outside [ns] are the same. *)
Definition untouched (l l' : links) (ns : list node) : Prop :=
  forall y, y ∉ ns -> next l' y = next l y /\ prev l' y = prev l y.

Lemma next_set_next a b l x : next (set_next a b l) x = if decide (x = a) then b else next l x.
Proof. done. Qed.
Lemma prev_set_next a b l x : prev (set_next a b l) x = prev l x.
Proof. done. Qed.
Lemma next_set_prev a b l x : next (set_prev a b l) x = next l x.
Proof. done. Qed.
Lemma prev_set_prev a b l x : prev (set_prev a b l) x = if decide (x = a) then b else prev l x.
Proof. done. Qed.

#[export] Hint Rewrite next_set_next prev_set_next next_set_prev prev_set_prev : links.

(** Decide a link after assignments by cases on the nodes. *)
Ltac links := autorewrite with links; repeat case_decide; congruence.

Lemma chain_app l a xs y ys e : chain l a (xs ++ y :: ys) e <-> chain l a xs y /\ chain l y ys e.
Proof. revert a. induction xs as [|x xs IH]; intros a; simpl; [tauto|]. rewrite IH. tauto. Qed.

Lemma chain_frame l l' a xs e :
  (forall x, x ∈ a :: xs -> next l' x = next l x) -> (forall x, x ∈ xs ++ [e] -> prev l' x = prev l x) ->
  chain l a xs e -> chain l' a xs e.
Proof.
  revert a. induction xs as [|x xs IH]; intros a Hn Hp; simpl.
  - rewrite Hn, Hp by set_solver. done.
  - intros (H1 & H2 & H3). rewrite Hn, Hp by set_solver. conj; [done..|]. apply IH; [..|done]; set_solver.
Qed.

Lemma ring_untouched l l' h xs ns : untouched l l' ns -> (forall x, x ∈ h :: xs -> x ∉ ns) -> ring l h xs -> ring l' h xs.
Proof.
  intros U Hd [Hc Hn]. split; [|done]. eapply chain_frame; [..|exact Hc]; intros x Hx; apply U, Hd; set_solver.
Qed.

Lemma untouched_trans l1 l2 l3 ns : untouched l1 l2 ns -> untouched l2 l3 ns -> untouched l1 l3 ns.
Proof. intros H1 H2 y Hy. destruct (H1 y Hy) as [<- <-]. by apply H2. Qed.

Lemma untouched_mono l l' ns ns' : (forall x, x ∈ ns -> x ∈ ns') -> untouched l l' ns -> untouched l l' ns'.
Proof. intros Hs H y Hy. apply H. auto. Qed.

(** The last node of a ring, and the first. *)
Lemma ring_last l h xs : ring l h xs -> prev l h = default h (last xs).
Proof.
  intros [Hc _]. destruct xs as [|y xs _] using rev_ind; simpl in *; [tauto|].
  rewrite last_snoc. simpl. apply chain_app in Hc as [_ Hc]. simpl in Hc. tauto.
Qed.

Lemma ring_first l h xs : ring l h xs -> next l h = default h (head xs).
Proof. intros [Hc _]. destruct xs; simpl in *; tauto. Qed.

Lemma ring_empty l h xs : ring l h xs -> CIRCQ_EMPTY h l = true <-> xs = [].
Proof.
  intros H. unfold CIRCQ_EMPTY, CIRCQ_FIRST. rewrite bool_decide_eq_true, (ring_first _ _ _ H).
  destruct xs as [|x xs]; simpl; [tauto|]. split; [|done]. intros ->. destruct H as [_ Hn].
  apply NoDup_cons in Hn as [Hn _]. set_solver.
Qed.

Lemma init_ring h l : ring (CIRCQ_INIT h l) h [] /\ untouched l (CIRCQ_INIT h l) [h].
Proof.
  unfold CIRCQ_INIT. split.
  - split; [|apply NoDup_singleton]. simpl. split; links.
  - intros y Hy. assert (y <> h) by set_solver. split; links.
Qed.

(** End the chain at another node. *)
Lemma chain_retarget l l' a xs e e' :
  NoDup (a :: xs) -> chain l a xs e ->
  (forall x, x ∈ a :: xs -> x <> prev l e -> next l' x = next l x) -> next l' (prev l e) = e' ->
  (forall x, x ∈ xs -> prev l' x = prev l x) -> prev l' e' = prev l e ->
  chain l' a xs e'.
Proof.
  destruct xs as [|y xs _] using rev_ind.
  - simpl. intros _ [_ <-] _ H1 _ H2. done.
  - intros Hnd Hc Hn Hl Hp He. apply chain_app in Hc as [Hc [Hy Hpe]]. rewrite Hpe in *. apply chain_app. split.
    + eapply chain_frame; [..|exact Hc]; intros x Hx; [apply Hn|apply Hp]; [set_solver| |set_solver].
      intros ->. apply NoDup_cons in Hnd as [Ha Hnd]. apply NoDup_app in Hnd as (_ & Hnd & _).
      apply elem_of_cons in Hx as [->|Hx]; [set_solver|]. apply (Hnd y Hx). set_solver.
    + simpl. done.
Qed.

Lemma insert_ring e h l xs :
  ring l h xs -> e ∉ h :: xs ->
  ring (CIRCQ_INSERT e h l) h (xs ++ [e]) /\ untouched l (CIRCQ_INSERT e h l) (e :: h :: xs).
Proof.
  intros Hr He. pose proof (ring_last _ _ _ Hr) as Hl. destruct Hr as [Hc Hnd].
  assert (e <> h) as Heh by set_solver.
  assert (prev l h ∈ h :: xs) as Hin.
  { rewrite Hl. destruct (last xs) as [z|] eqn:E; simpl; [|set_solver]. apply last_Some_elem_of in E. set_solver. }
  assert (e <> prev l h) as Hep by (intros ->; done).
  unfold CIRCQ_INSERT. split.
  - split.
    + apply chain_app. split.
      * eapply chain_retarget; [done|exact Hc|..]; autorewrite with links.
        -- intros x Hx Hne. assert (x <> e) by set_solver. links.
        -- links.
        -- intros x Hx. assert (x <> e) by set_solver. assert (x <> h) by (apply NoDup_cons in Hnd as [? _]; set_solver).
           links.
        -- links.
      * simpl. split; links.
    + rewrite app_comm_cons. apply NoDup_app. conj; [done| |apply NoDup_singleton]. set_solver.
  - intros y Hy. assert (y <> e /\ y <> h /\ y <> prev l h) as (? & ? & ?) by set_solver. split; links.
Qed.

Lemma remove_ring e h l xs ys :
  ring l h (xs ++ e :: ys) ->
  ring (CIRCQ_REMOVE e l) h (xs ++ ys) /\ untouched l (CIRCQ_REMOVE e l) (h :: xs ++ e :: ys).
Proof.
  intros Hr. assert (next l e = default h (head ys)) as Hn.
  { destruct Hr as [Hc _]. apply chain_app in Hc as [_ Hc]. destruct ys; simpl in *; tauto. }
  assert (prev l e ∈ h :: xs) as Hp.
  { destruct Hr as [Hc _]. apply chain_app in Hc as [Hc _].
    destruct xs as [|z xs _] using rev_ind; [simpl in Hc; set_solver|].
    apply chain_app in Hc as [_ [_ ->]]. set_solver. }
  destruct Hr as [Hc Hnd]. rewrite app_comm_cons in Hnd. apply NoDup_app in Hnd as (Hnd1 & Hdis & Hnd2).
  apply NoDup_cons in Hnd2 as [He Hnd2]. assert (e ∉ h :: xs) as He' by (intros Hx; apply (Hdis e Hx); set_solver).
  apply chain_app in Hc as [Hc1 Hc2]. unfold CIRCQ_REMOVE. autorewrite with links.
  assert (e <> next l e) as Hen.
  { rewrite Hn. destruct ys; simpl; set_solver. }
  rewrite decide_False by done. split; [split|].
  - destruct ys as [|y ys]; simpl in Hn.
    + rewrite app_nil_r. eapply chain_retarget; [done|exact Hc1|..]; rewrite Hn.
      * intros x Hx Hne. links.
      * links.
      * intros x Hx. assert (x <> h) by (apply NoDup_cons in Hnd1 as [? _]; set_solver). links.
      * links.
    + apply chain_app. rewrite Hn. simpl in Hc2. destruct Hc2 as (_ & _ & Hc2).
      assert (y ∉ h :: xs) as Hy by (intros Hx; apply (Hdis y Hx); set_solver). split.
      * eapply chain_retarget; [done|exact Hc1|..].
        -- intros x Hx Hne. links.
        -- links.
        -- intros x Hx. assert (x <> y) by set_solver. links.
        -- links.
      * eapply chain_frame; [..|exact Hc2]; intros x Hx.
        -- assert (x <> prev l e) by (intros ->; apply (Hdis (prev l e) Hp); set_solver). links.
        -- assert (x <> y) by (apply NoDup_cons in Hnd2 as [? _]; set_solver). links.
  - rewrite app_comm_cons. apply NoDup_app. conj; [done| |done]. intros x Hx Hy. apply (Hdis x Hx). set_solver.
  - intros x Hx. assert (next l e ∈ h :: xs ++ e :: ys) as Hin by (rewrite Hn; destruct ys; simpl; set_solver).
    assert (x <> prev l e) by set_solver. assert (x <> next l e) by set_solver. split; links.
Qed.

Lemma append_ring f s l xs ys :
  ring l f xs -> ring l s ys -> (forall x, x ∈ f :: xs -> x ∉ s :: ys) ->
  ring (CIRCQ_APPEND f s l) f (xs ++ ys) /\ ring (CIRCQ_APPEND f s l) s [] /\
  untouched l (CIRCQ_APPEND f s l) (f :: s :: xs ++ ys).
Proof.
  intros Hf Hs Hdis. unfold CIRCQ_APPEND. destruct (CIRCQ_EMPTY s l) eqn:E.
  { apply (ring_empty _ _ _ Hs) in E as ->. rewrite app_nil_r. conj; done. }
  destruct ys as [|y ys]; [by rewrite (proj2 (ring_empty _ _ _ Hs)) in E|].
  pose proof (ring_first _ _ _ Hs) as Hy. simpl in Hy.
  pose proof (ring_last _ _ _ Hf) as Hlf. pose proof (ring_last _ _ _ Hs) as Hls.
  assert (prev l f ∈ f :: xs) as Ha.
  { rewrite Hlf. destruct (last xs) as [z|] eqn:El; simpl; [|set_solver]. apply last_Some_elem_of in El. set_solver. }
  assert (prev l s ∈ y :: ys) as Hz.
  { rewrite Hls. destruct (last (y :: ys)) as [z|] eqn:El; simpl.
    - by apply last_Some_elem_of in El.
    - apply last_None in El. done. }
  destruct Hf as [Hcf Hnf], Hs as [Hcs Hns]. simpl in Hcs. destruct Hcs as (_ & _ & Hcs).
  apply NoDup_cons in Hns as [Hsn Hns]. apply NoDup_cons in Hnf as Hfn. destruct Hfn as [Hfn _].
  assert (forall x z, x ∈ f :: xs -> z ∈ s :: y :: ys -> x <> z) as Hne by (intros x z Hx Hz' ->; by apply (Hdis z Hx)).
  assert (s ∈ s :: y :: ys /\ y ∈ s :: y :: ys /\ prev l s ∈ s :: y :: ys) as (Is & Iy & Iz).
  { conj; [left|right; left|by right]. }
  assert (forall x, x ∈ y :: ys -> x <> s) as Hns' by (intros x Hx ->; done).
  assert (f ∈ f :: xs) as If by left.
  pose proof (Hne _ _ Ha Is). pose proof (Hne _ _ Ha Iy). pose proof (Hne _ _ Ha Iz). pose proof (Hne _ _ If Is).
  pose proof (Hne _ _ If Iy). pose proof (Hne _ _ If Iz). pose proof (Hns' _ Hz). pose proof (Hns' y ltac:(left)).
  rewrite Hy. autorewrite with links. rewrite (decide_False (P := s = prev l f)), Hy, (decide_False (P := s = y)) by congruence.
  unfold CIRCQ_INIT. conj; [split|split|].
  - apply chain_app. split.
    + eapply chain_retarget; [done|exact Hcf|..].
      * intros x Hx Hx'. pose proof (Hne _ _ Hx Is). pose proof (Hne _ _ Hx Iz). links.
      * links.
      * intros x Hx. assert (x ∈ f :: xs) as Hx' by (by right). pose proof (Hne _ _ Hx' Is). pose proof (Hne _ _ Hx' Iy).
        assert (x <> f) by congruence. links.
      * links.
    + eapply chain_retarget; [exact Hns|exact Hcs|..].
      * intros x Hx Hx'. pose proof (Hns' _ Hx). pose proof (Hne _ x Ha ltac:(by right)). links.
      * links.
      * intros x Hx. assert (x ∈ y :: ys) as Hx' by (by right). pose proof (Hns' _ Hx').
        assert (x <> y) by (apply NoDup_cons in Hns as [? _]; congruence). pose proof (Hne _ x If ltac:(by right)). links.
      * links.
  - rewrite app_comm_cons. apply NoDup_app. conj; [done| |done]. intros x Hx Hx'. apply (Hdis x Hx). by right.
  - simpl. split; links.
  - apply NoDup_singleton.
  - intros x Hx. assert (forall z, z ∈ f :: xs \/ z ∈ s :: y :: ys -> x <> z) as Hout.
    { intros z Hz' ->. apply Hx. clear - Hz'. set_solver. }
    pose proof (Hout _ (or_introl Ha)). pose proof (Hout _ (or_introl If)). pose proof (Hout _ (or_intror Is)).
    pose proof (Hout _ (or_intror Iy)). pose proof (Hout _ (or_intror Iz)). split; links.
Qed.

(** * The timeout wheel: the invariant

    Every pending timeout is on exactly one queue; a timeout in a bucket is not
    due, and a tick that empties the bucket comes no later than its time. *)

(** * Queues and their contents *)

Definition is_head (h : node) : Prop := h = Todo \/ exists b, h = Bucket b /\ 0 <= b < BUCKETS.

(** [Q] gives the timeouts of each queue in order. *)
Record queues (s : wheel) (Q : node -> list Z) : Prop := {
  q_ring h : is_head h -> ring (circ s) h (To <$> Q h);
  q_none h : ~ is_head h -> Q h = [];
  q_once t h h' : t ∈ Q h -> t ∈ Q h' -> h = h';
}.

Definition qset (h : node) (l : list Z) (Q : node -> list Z) : node -> list Z :=
  fun x => if decide (x = h) then l else Q x.

Lemma qset_eq h l Q : qset h l Q h = l.
Proof. unfold qset. by rewrite decide_True. Qed.

Lemma qset_ne h l Q x : x <> h -> qset h l Q x = Q x.
Proof. intros. unfold qset. by rewrite decide_False. Qed.

Lemma head_not_to h t : is_head h -> h <> To t.
Proof. intros [->|(b & -> & _)]; done. Qed.

Lemma ring_nodes h x (l : list Z) : x ∈ h :: (To <$> l) <-> x = h \/ exists t, x = To t /\ t ∈ l.
Proof. rewrite elem_of_cons, list_elem_of_fmap. done. Qed.

Lemma q_nodup s Q h : queues s Q -> is_head h -> NoDup (Q h).
Proof.
  intros Hq Hh. destruct (q_ring _ _ Hq h Hh) as [_ Hn]. apply NoDup_cons in Hn as [_ Hn].
  by apply NoDup_fmap_1 in Hn.
Qed.

Lemma q_head s Q h t : queues s Q -> t ∈ Q h -> is_head h.
Proof.
  intros Hq Ht. destruct (decide (h = Todo)) as [->|Hn]; [by left|].
  assert (~ ~ is_head h) as Hnn by (intros Hx; rewrite (q_none _ _ Hq h Hx) in Ht; set_solver).
  destruct h as [|b|t']; [done| |].
  - right. exists b. split; [done|]. unfold BUCKETS. destruct (decide (0 <= b < 1024)) as [|Hb]; [done|].
    exfalso. apply Hnn. intros [|(b' & [= ->] & Hb')]; done.
  - exfalso. apply Hnn. intros [|(b' & ? & _)]; done.
Qed.

(** The nodes of two queues are disjoint. *)
Lemma rings_disjoint s Q h h' : queues s Q -> is_head h -> is_head h' -> h <> h' ->
  forall x, x ∈ h :: (To <$> Q h) -> x ∉ h' :: (To <$> Q h').
Proof.
  intros Hq Hh Hh' Hne x Hx Hx'. apply ring_nodes in Hx as [->|(t & -> & Ht)], Hx' as [E|(t' & E & Ht')].
  - done.
  - by apply (head_not_to h t') in Hh.
  - by apply (head_not_to h' t) in Hh'.
  - injection E as ->. apply Hne. by apply (q_once _ _ Hq t').
Qed.

(** Change one queue: the other rings are not touched. *)
Lemma queues_update s Q l h xs ns :
  queues s Q -> is_head h -> ring l h (To <$> xs) -> untouched (circ s) l ns ->
  (forall x, x ∈ ns -> x = h \/ exists t, x = To t /\ forall h', h' <> h -> t ∉ Q h') ->
  (forall t h', t ∈ xs -> h' <> h -> t ∉ Q h') ->
  queues (Wheel l (tos s) (ticks s) (calls s)) (qset h xs Q).
Proof.
  intros Hq Hh Hr Hu Hns Hxs. split; simpl.
  - intros h' Hh'. destruct (decide (h' = h)) as [->|Hne]; [by rewrite qset_eq|]. rewrite qset_ne by done.
    eapply ring_untouched; [exact Hu| |by apply Hq]. intros x Hx Hin. destruct (Hns x Hin) as [->|(t & -> & Ht)].
    + apply ring_nodes in Hx as [->|(t & -> & _)]; [done|]. by apply (head_not_to (To t) t) in Hh.
    + apply ring_nodes in Hx as [<-|(t' & [= <-] & Ht')]; [by apply (head_not_to (To t) t) in Hh'|].
      by apply (Ht h').
  - intros h' Hh'. rewrite qset_ne by (intros ->; done). by apply Hq.
  - intros t h1 h2 H1 H2. destruct (decide (h1 = h)) as [->|N1], (decide (h2 = h)) as [->|N2]; [done|..].
    + rewrite qset_eq in H1. rewrite qset_ne in H2 by done. by destruct (Hxs t h2).
    + rewrite qset_eq in H2. rewrite qset_ne in H1 by done. by destruct (Hxs t h1).
    + rewrite qset_ne in H1, H2 by done. by apply (q_once _ _ Hq t).
Qed.

Lemma insert_queues s Q t h :
  queues s Q -> is_head h -> (forall h', t ∉ Q h') ->
  queues (with_circ (CIRCQ_INSERT (To t) h) s) (qset h (Q h ++ [t]) Q).
Proof.
  intros Hq Hh Ht. destruct (insert_ring (To t) h (circ s) (To <$> Q h)) as [Hr Hu]; [by apply Hq| |].
  { intros Hx. apply ring_nodes in Hx as [<-|(t' & [= <-] & Hx)]; [by apply (head_not_to (To t) t) in Hh|by apply (Ht h)]. }
  eapply queues_update; [done|done|by rewrite fmap_app|exact Hu|..].
  - intros x Hx. apply elem_of_cons in Hx as [->|Hx]; [right; exists t; auto|].
    apply ring_nodes in Hx as [->|(t' & -> & Hx)]; [by left|]. right. exists t'. split; [done|].
    intros h' Hne Hin. apply Hne. by apply (q_once _ _ Hq t').
  - intros t' h' Hx Hne. apply elem_of_app in Hx as [Hx|Hx].
    + intros Hin. apply Hne. by apply (q_once _ _ Hq t').
    + apply list_elem_of_singleton in Hx as ->. apply Ht.
Qed.

Lemma remove_queues s Q t h xs ys :
  queues s Q -> Q h = xs ++ t :: ys ->
  queues (with_circ (CIRCQ_REMOVE (To t)) s) (qset h (xs ++ ys) Q).
Proof.
  intros Hq E. assert (is_head h) as Hh by (apply (q_head s Q h t); [done|]; rewrite E; set_solver).
  pose proof (q_ring _ _ Hq h Hh) as Hr. rewrite E, fmap_app, fmap_cons in Hr.
  destruct (remove_ring _ _ _ _ _ Hr) as [Hr' Hu]. rewrite <- fmap_app in Hr'.
  eapply queues_update; [done|done|exact Hr'|exact Hu|..].
  - intros x Hx. rewrite <- fmap_cons, <- fmap_app, <- E in Hx.
    apply ring_nodes in Hx as [->|(t' & -> & Hx)]; [by left|]. right. exists t'. split; [done|].
    intros h' Hne Hin. apply Hne. by apply (q_once _ _ Hq t').
  - intros t' h' Hx Hne Hin. apply Hne. apply (q_once _ _ Hq t'); [done|]. rewrite E. set_solver.
Qed.

Lemma append_queues s Q b :
  queues s Q -> is_head b -> b <> Todo ->
  queues (with_circ (CIRCQ_APPEND Todo b) s) (qset b [] (qset Todo (Q Todo ++ Q b) Q)).
Proof.
  intros Hq Hb Hne. assert (is_head Todo) as Ht by (by left).
  destruct (append_ring Todo b (circ s) (To <$> Q Todo) (To <$> Q b)) as (Hr & He & Hu);
    [by apply Hq..|by apply (rings_disjoint s)|]. rewrite <- fmap_app in Hr.
  split; simpl.
  - intros h Hh. destruct (decide (h = b)) as [->|N1]; [by rewrite qset_eq|]. rewrite qset_ne by done.
    destruct (decide (h = Todo)) as [->|N2]; [by rewrite qset_eq|]. rewrite qset_ne by done.
    eapply ring_untouched; [exact Hu| |by apply Hq]. intros x Hx Hin.
    assert (x ∈ Todo :: (To <$> Q Todo) \/ x ∈ b :: (To <$> Q b)) as [Hi|Hi].
    { clear - Hin. set_solver. }
    + by apply (rings_disjoint s Q h Todo Hq Hh Ht N2 x Hx).
    + by apply (rings_disjoint s Q h b Hq Hh Hb N1 x Hx).
  - intros h Hh. rewrite !qset_ne by (intros ->; done). by apply Hq.
  - assert (forall t h, t ∈ qset b [] (qset Todo (Q Todo ++ Q b) Q) h ->
      h <> b /\ ((h = Todo /\ (t ∈ Q Todo \/ t ∈ Q b)) \/ (h <> Todo /\ t ∈ Q h))) as Hin.
    { intros t h Hx. destruct (decide (h = b)) as [->|N1]; [rewrite qset_eq in Hx; set_solver|]. rewrite qset_ne in Hx by done.
      split; [done|]. destruct (decide (h = Todo)) as [->|N2]; [rewrite qset_eq in Hx; left; set_solver|].
      rewrite qset_ne in Hx by done. by right. }
    pose proof (q_once _ _ Hq) as Ho. intros t h1 h2 H1 H2. apply Hin in H1 as [N1 C1], H2 as [N2 C2].
    destruct C1 as [[-> [C1|C1]]|[M1 C1]], C2 as [[-> [C2|C2]]|[M2 C2]]; try done;
      match goal with |- ?x = ?y => destruct (decide (x = y)) as [|Hxy]; [done|exfalso] end; naive_solver.
Qed.

(** * When a bucket is emptied *)

(** The tick at time [T] moves bucket [b] to the worklist. *)
Definition moved (b T : Z) : Prop :=
  b = T `mod` 256 \/
  (T `mod` 256 = 0 /\ b = 256 + T `div` 256 `mod` 256) \/
  (T `mod` 65536 = 0 /\ b = 512 + T `div` 65536 `mod` 256) \/
  (T `mod` 16777216 = 0 /\ b = 768 + T `div` 16777216 `mod` 256).

#[export] Instance moved_dec b T : Decision (moved b T).
Proof. unfold moved. apply _. Defined.

Lemma MASKWHEEL_div w T : 0 <= w -> MASKWHEEL w T = T `div` 2 ^ (8 * w) `mod` 256.
Proof.
  intros Hw. unfold MASKWHEEL, WHEELMASK, WHEELBITS. change 255 with (Z.ones 8).
  rewrite Z.land_ones, Z.shiftr_div_pow2 by lia. replace (w * 8) with (8 * w) by lia. done.
Qed.

(** The four levels. *)
Lemma MASKWHEEL_levels T :
  MASKWHEEL 0 T = T `mod` 256 /\ MASKWHEEL 1 T = T `div` 256 `mod` 256 /\
  MASKWHEEL 2 T = T `div` 65536 `mod` 256 /\ MASKWHEEL 3 T = T `div` 16777216 `mod` 256.
Proof.
  rewrite !MASKWHEEL_div by lia. change (2 ^ (8 * 1)) with 256. change (2 ^ (8 * 2)) with 65536.
  change (2 ^ (8 * 3)) with 16777216. change (2 ^ (8 * 0)) with 1. rewrite Z.div_1_r. done.
Qed.

Lemma moved_s32 b T : moved b (s32 T) <-> moved b T.
Proof. unfold moved, s32, swrap, wrap. split; intros H; dlia. Qed.

Lemma s32_eqm T : exists k, s32 T = T + k * 4294967296.
Proof. exists (- ((T + 2147483648) `div` 4294967296)). unfold s32, swrap, wrap. dlia. Qed.

(** The bucket chosen for a timeout that is not due is emptied in time. *)
Lemma BUCKET_ok now abs r :
  r = s32 (abs - now) -> 0 < r -> exists b d, BUCKET r abs = Ret (Bucket b) /\ 0 <= b < BUCKETS /\ 1 <= d <= r /\ moved b (now + d).
Proof.
  intros Er Hr. destruct (s32_eqm (abs - now)) as [k Ek]. rewrite <- Er in Ek.
  destruct (MASKWHEEL_levels abs) as (E0 & E1 & E2 & E3).
  assert (forall b, 0 <= b < 1024 -> timeout_wheel b = Ret (Bucket b)) as Hw.
  { intros b Hb. unfold timeout_wheel, BUCKETS. destruct (Z.leb_spec 0 b), (Z.ltb_spec b 1024); simpl; (lia || done). }
  unfold BUCKET, WHEELSIZE, WHEELBITS, moved, BUCKETS. change (Z.shiftl 1 (2 * 8)) with 65536. change (Z.shiftl 1 8) with 256.
  change (Z.shiftl 1 (3 * 8)) with 16777216. rewrite E0, E1, E2, E3. clear E0 E1 E2 E3 Er.
  destruct (Z.leb_spec r 65536); [destruct (Z.leb_spec r 256)|destruct (Z.leb_spec r 16777216)].
  - exists (abs `mod` 256), r. rewrite Hw by dlia. conj; [done|dlia..].
  - exists (256 + abs `div` 256 `mod` 256), (r - abs `mod` 256). rewrite Hw by dlia. conj; [f_equal; f_equal; lia|dlia..].
  - exists (512 + abs `div` 65536 `mod` 256), (r - abs `mod` 65536). rewrite Hw by dlia. conj; [f_equal; f_equal; lia|dlia..].
  - exists (768 + abs `div` 16777216 `mod` 256), (r - abs `mod` 16777216). rewrite Hw by dlia. conj; [f_equal; f_equal; lia|dlia..].
Qed.

(** * A tick *)

Definition move (Q : node -> list Z) (b : Z) : node -> list Z :=
  qset (Bucket b) [] (qset Todo (Q Todo ++ Q (Bucket b)) Q).

(** The buckets the tick at [T] moves, in order. *)
Definition buckets_at (T : Z) : list Z :=
  T `mod` 256 ::
  (if decide (T `mod` 256 = 0) then
     (256 + T `div` 256 `mod` 256) ::
     (if decide (T `div` 256 `mod` 256 = 0) then
        (512 + T `div` 65536 `mod` 256) ::
        (if decide (T `div` 65536 `mod` 256 = 0) then [768 + T `div` 16777216 `mod` 256] else [])
      else [])
   else []).

Lemma buckets_at_moved T b : b ∈ buckets_at T <-> moved b T.
Proof.
  unfold buckets_at, moved. repeat case_decide; rewrite ?elem_of_cons, ?elem_of_nil; split; intros Hx; dlia.
Qed.

Lemma move_mem Q b t : (exists h, t ∈ move Q b h) <-> exists h, t ∈ Q h.
Proof.
  unfold move. split.
  - intros [h Ht]. destruct (decide (h = Bucket b)) as [->|N1]; [rewrite qset_eq in Ht; set_solver|].
    rewrite qset_ne in Ht by done. destruct (decide (h = Todo)) as [->|N2]; [rewrite qset_eq in Ht; set_solver|].
    rewrite qset_ne in Ht by done. eauto.
  - intros [h Ht]. destruct (decide (h = Todo \/ h = Bucket b)) as [Hc|Hc].
    + exists Todo. rewrite qset_ne, qset_eq by done. set_solver.
    + exists h. by rewrite !qset_ne by naive_solver.
Qed.

Lemma moves_mem bs : forall Q t, (exists h, t ∈ fold_left move bs Q h) <-> exists h, t ∈ Q h.
Proof. induction bs as [|b bs IH]; intros Q t; simpl; [done|]. by rewrite IH, move_mem. Qed.

(** What is left in a bucket was there before and the bucket was not moved. *)
Lemma moves_bucket bs : forall Q t b, t ∈ fold_left move bs Q (Bucket b) -> t ∈ Q (Bucket b) /\ b ∉ bs.
Proof.
  induction bs as [|c bs IH]; intros Q t b; simpl; [set_solver|]. intros Ht. apply IH in Ht as [Ht Hn]. unfold move in Ht.
  destruct (decide (b = c)) as [->|]; [rewrite qset_eq in Ht; set_solver|].
  rewrite !qset_ne in Ht by congruence. set_solver.
Qed.

(** During a tick: the queues so far, all else but the time as before. *)
Definition ticking (s0 : wheel) (T : Z) (s : wheel) (Q : node -> list Z) : Prop :=
  queues s Q /\ tos s = tos s0 /\ ticks s = T /\ calls s = calls s0.

Lemma MOVEBUCKET_ok s0 T s Q w : ticking s0 T s Q -> 0 <= w < 4 ->
  exists s', MOVEBUCKET w T s = Ret s' /\ ticking s0 T s' (move Q (w * 256 + MASKWHEEL w T)) /\ ticks s' = T.
Proof.
  intros (Hq & Ht & HT & Hc) Hw. unfold MOVEBUCKET, timeout_wheel, WHEELSIZE. rewrite (Z.add_comm (MASKWHEEL _ _)).
  set (b := w * 256 + MASKWHEEL w T). assert (0 <= b < 1024) as Hb.
  { unfold b. rewrite MASKWHEEL_div by lia. pose proof (Z.mod_pos_bound (T `div` 2 ^ (8 * w)) 256 ltac:(lia)). lia. }
  unfold BUCKETS. destruct (Z.leb_spec 0 b), (Z.ltb_spec b 1024); try lia. simpl.
  eexists. conj; [done| |done]. split; [|done]. apply append_queues; [done| |done]. right. exists b. done.
Qed.

(** The nested moves of a tick. *)
Lemma cascade_ok s0 T s Q : ticking s0 T s Q -> ticks s = T ->
  exists s', (let! s := MOVEBUCKET 0 (ticks s) s in
    if MASKWHEEL 0 (ticks s) =? 0 then
      let! s := MOVEBUCKET 1 (ticks s) s in
      if MASKWHEEL 1 (ticks s) =? 0 then
        let! s := MOVEBUCKET 2 (ticks s) s in
        if MASKWHEEL 2 (ticks s) =? 0 then MOVEBUCKET 3 (ticks s) s else Ret s
      else Ret s
    else Ret s) = Ret s' /\ ticking s0 T s' (fold_left move (buckets_at T) Q).
Proof.
  intros H0 Ht. rewrite Ht. destruct (MASKWHEEL_levels T) as (E0 & E1 & E2 & E3). unfold buckets_at.
  destruct (MOVEBUCKET_ok _ _ _ _ 0 H0) as (s1 & -> & H1 & T1); [lia|]. cbn [bind]. rewrite T1, E0. rewrite E0 in H1.
  destruct (Z.eqb_spec (T `mod` 256) 0) as [D1|D1]; [rewrite (decide_True _ _ D1)|rewrite (decide_False _ _ D1); by exists s1].
  destruct (MOVEBUCKET_ok _ _ _ _ 1 H1) as (s2 & -> & H2 & T2); [lia|]. cbn [bind]. rewrite T2, E1.
  rewrite E1 in H2.
  destruct (Z.eqb_spec (T `div` 256 `mod` 256) 0) as [D2|D2]; [rewrite (decide_True _ _ D2)|rewrite (decide_False _ _ D2); by exists s2].
  destruct (MOVEBUCKET_ok _ _ _ _ 2 H2) as (s3 & -> & H3 & T3); [lia|]. cbn [bind]. rewrite T3, E2.
  rewrite E2 in H3.
  destruct (Z.eqb_spec (T `div` 65536 `mod` 256) 0) as [D3|D3]; [rewrite (decide_True _ _ D3)|rewrite (decide_False _ _ D3); by exists s3].
  destruct (MOVEBUCKET_ok _ _ _ _ 3 H3) as (s4 & -> & H4 & T4); [lia|].
  rewrite E3 in H4. by exists s4.
Qed.

Lemma hardclock_moves s Q : queues s Q ->
  let T := s32 (ticks s + 1) in
  exists ret s', timeout_hardclock_update s = Ret (ret, s') /\ ticking s T s' (fold_left move (buckets_at T) Q) /\
    (ret = false <-> fold_left move (buckets_at T) Q Todo = []).
Proof.
  intros Hq T. assert (ticking s T (with_ticks T s) Q) as H0 by (split; [destruct Hq; by split|done]).
  destruct (cascade_ok s T _ Q H0 eq_refl) as (s' & E & H).
  unfold timeout_hardclock_update. fold T. rewrite bind_assoc, E. cbn [bind]. eexists _, s'. split; [done|]. split; [done|].
  rewrite negb_false_iff, (ring_empty _ _ (To <$> fold_left move (buckets_at T) Q Todo)).
  - split; [apply fmap_nil_inv|by intros ->].
  - apply H. by left.
Qed.
