(* ===== verification/TimeoutOps.v ===== *)
(** * The timeout wheel: operations keep the invariant *)

From stdpp Require Import sets.
From S2P Require Import Prelude Timeout TimeoutInv.

Record inv (s : wheel) (Q : node -> list Z) : Prop := {
  i_queues : queues s Q;
  i_pending t : timeout_pending s t = true <-> exists h, t ∈ Q h;
  i_time t : timeout_pending s t = true -> is_s 32 (to_time (tos s t));
  i_ticks : is_s 32 (ticks s);
  i_wheel t b : t ∈ Q (Bucket b) -> exists d, 1 <= d <= remaining s t /\ moved b (ticks s + d);
}.

(** * Flags *)

Lemma tos_modify t f s x : tos (modify t f s) x = if x =? t then f (tos s x) else tos s x.
Proof. done. Qed.

Lemma tos_modify_eq t f s : tos (modify t f s) t = f (tos s t).
Proof. rewrite tos_modify. by rewrite Z.eqb_refl. Qed.

Lemma tos_modify_ne t f s x : x <> t -> tos (modify t f s) x = tos s x.
Proof. intros H. rewrite tos_modify. by destruct (Z.eqb_spec x t). Qed.

Lemma queues_modify t f s Q : queues (modify t f s) Q <-> queues s Q.
Proof. split; intros [H1 H2 H3]; by split. Qed.

(** * The time left *)

Lemma remaining_range s t : is_s 32 (remaining s t).
Proof. unfold remaining, s32, swrap, wrap, is_s. dlia. Qed.

(** Adding [n] ticks leaves [n] ticks. *)
Lemma s32_there_and_back n T : 0 <= n <= INT_MAX -> s32 (s32 (n + T) - T) = n.
Proof. unfold INT_MAX, s32, swrap, wrap. intros Hn. dlia. Qed.

Lemma remaining_tick x T r : r = s32 (x - T) -> - 2147483648 < r -> s32 (x - s32 (T + 1)) = r - 1.
Proof. unfold s32, swrap, wrap. intros Hr Hp. dlia. Qed.

(** The time left is zero exactly at the time of the timeout. *)
Lemma remaining_zero x T : is_s 32 x -> is_s 32 T -> s32 (x - T) = 0 <-> x = T.
Proof. unfold is_s, s32, swrap, wrap. intros Hx HT. split; intros H; dlia. Qed.

Lemma moved_tick b T d : moved b (T + d) -> moved b (s32 (T + 1) + (d - 1)).
Proof. destruct (s32_eqm (T + 1)) as [k ->]. unfold moved. intros H. dlia. Qed.

(** * Operations *)

Lemma timeout_set_inv t fn arg s Q : inv s Q -> timeout_pending s t = false -> inv (timeout_set t fn arg s) Q.
Proof.
  intros [Hq Hp Ht Hk Hw] Hn. unfold timeout_set.
  assert (forall x, timeout_pending (modify t (fun u => Timeout fn arg (to_time u) TIMEOUT_INITIALIZED) s) x = timeout_pending s x) as Ep.
  { intros x. unfold timeout_pending in *. rewrite tos_modify. destruct (Z.eqb_spec x t) as [->|]; [|done]. by rewrite Hn. }
  assert (forall x, to_time (tos (modify t (fun u => Timeout fn arg (to_time u) TIMEOUT_INITIALIZED) s) x) = to_time (tos s x)) as Et.
  { intros x. rewrite tos_modify. by destruct (Z.eqb_spec x t). }
  split.
  - by apply queues_modify.
  - intros x. by rewrite Ep.
  - intros x. rewrite Ep, Et. apply Ht.
  - done.
  - intros x b Hx. unfold remaining. rewrite Et. by apply Hw.
Qed.

Lemma tick_inv s Q : inv s Q ->
  exists ret s' Q', timeout_hardclock_update s = Ret (ret, s') /\ inv s' Q' /\ ticks s' = s32 (ticks s + 1) /\
    tos s' = tos s /\ calls s' = calls s /\ (ret = false <-> Q' Todo = []).
Proof.
  intros [Hq Hp Ht Hk Hw]. destruct (hardclock_moves s Q Hq) as (ret & s' & E & (Hq' & H1 & H2 & H3) & Hret).
  exists ret, s', (fold_left move (buckets_at (s32 (ticks s + 1))) Q). conj; try done; try apply Hret. split.
  - done.
  - intros t. unfold timeout_pending. rewrite H1, moves_mem. apply Hp.
  - intros t. unfold timeout_pending. rewrite H1. apply Ht.
  - rewrite H2. unfold is_s, s32, swrap, wrap. dlia.
  - intros t b Hb. apply moves_bucket in Hb as [Hb Hn]. destruct (Hw t b Hb) as (d & Hd & Hm).
    unfold remaining in *. rewrite H1, H2. rewrite buckets_at_moved, moved_s32 in Hn.
    assert (d <> 1) by (intros ->; done). exists (d - 1). rewrite (remaining_tick _ _ (s32 (to_time (tos s t) - ticks s))) by lia.
    split; [lia|]. by apply moved_tick.
Qed.

(** Only timeout [t] changes, with its place in the queues. *)
Lemma inv_change s Q s' Q' t :
  inv s Q -> queues s' Q' -> ticks s' = ticks s ->
  (forall x, x <> t -> tos s' x = tos s x) -> (forall x h, x <> t -> x ∈ Q' h <-> x ∈ Q h) ->
  (timeout_pending s' t = true <-> exists h, t ∈ Q' h) ->
  (timeout_pending s' t = true -> is_s 32 (to_time (tos s' t))) ->
  (forall b, t ∈ Q' (Bucket b) -> exists d, 1 <= d <= remaining s' t /\ moved b (ticks s + d)) ->
  inv s' Q'.
Proof.
  intros [Hq Hp Ht Hk Hw] Hq' Ek Es Em Hp' Ht' Hw'. split; [done|..|by rewrite Ek|].
  - intros x. destruct (decide (x = t)) as [->|Hx]; [done|]. unfold timeout_pending. rewrite Es by done.
    rewrite (Hp x). split; intros [h Hh]; exists h; by apply Em.
  - intros x. destruct (decide (x = t)) as [->|Hx]; [done|]. unfold timeout_pending. rewrite Es by done. apply Ht.
  - intros x b Hb. rewrite Ek. destruct (decide (x = t)) as [->|Hx]; [by apply Hw'|].
    apply Em in Hb; [|done]. unfold remaining. rewrite Es, Ek by done. by apply Hw.
Qed.

(** Contents after a removal and after an insertion. *)
Lemma removed_mem s Q h t xs ys x h' : queues s Q -> Q h = xs ++ t :: ys ->
  x ∈ qset h (xs ++ ys) Q h' <-> x ∈ Q h' /\ x <> t.
Proof.
  intros Hq E. assert (t ∈ Q h) as Ht by (rewrite E; set_solver).
  pose proof (q_nodup _ _ _ Hq (q_head _ _ _ _ Hq Ht)) as Hn. rewrite E in Hn. apply NoDup_app in Hn as (_ & Hd & Hn).
  apply NoDup_cons in Hn as [Hn _]. destruct (decide (h' = h)) as [->|Hne].
  - rewrite qset_eq, E. split.
    + intros Hx. split; [set_solver|]. intros ->. apply elem_of_app in Hx as [Hx|Hx]; [|done]. apply (Hd t Hx). set_solver.
    + intros [Hx Hxt]. clear Hd Hn. set_solver.
  - rewrite qset_ne by done. split; [|tauto]. intros Hx. split; [done|]. intros ->. apply Hne. by apply (q_once _ _ Hq t).
Qed.

Lemma inserted_mem Q h t x h' : x ∈ qset h (Q h ++ [t]) Q h' <-> x ∈ Q h' \/ (x = t /\ h' = h).
Proof.
  destruct (decide (h' = h)) as [->|Hne]; [rewrite qset_eq|rewrite qset_ne by done].
  - rewrite elem_of_app, list_elem_of_singleton. naive_solver.
  - naive_solver.
Qed.

(** The place of a pending timeout. *)
Lemma pending_split s Q t : inv s Q -> timeout_pending s t = true -> exists h xs ys, Q h = xs ++ t :: ys.
Proof.
  intros Hi Hp. apply (i_pending _ _ Hi) in Hp as [h Hh]. apply list_elem_of_split in Hh as (xs & ys & E). eauto.
Qed.

Lemma not_pending s Q t : inv s Q -> timeout_pending s t = false -> forall h, t ∉ Q h.
Proof.
  intros Hi Hp h Hh. assert (timeout_pending s t = true) as E by (apply (i_pending _ _ Hi); eauto). congruence.
Qed.

(** What an operation on [t] leaves alone. *)
Definition only (t : Z) (s s' : wheel) : Prop :=
  ticks s' = ticks s /\ calls s' = calls s /\ forall x, x <> t -> tos s' x = tos s x.

Lemma timeout_del_inv t s Q : inv s Q ->
  exists Q', inv (timeout_del t s) Q' /\ only t s (timeout_del t s) /\ timeout_pending (timeout_del t s) t = false.
Proof.
  intros Hi. unfold timeout_del. fold (timeout_pending s t). destruct (timeout_pending s t) eqn:Hp.
  - destruct (pending_split _ _ _ Hi Hp) as (h & xs & ys & E). pose proof (i_queues _ _ Hi) as Hq.
    assert (timeout_pending (modify t (fun u => with_flags (Z.land (to_flags u) (Z.lnot TIMEOUT_TRIGGERED)) u)
      (modify t (fun u => with_flags (Z.land (to_flags u) (Z.lnot TIMEOUT_ONQUEUE)) u) (with_circ (CIRCQ_REMOVE (To t)) s))) t = false) as Hf.
    { unfold timeout_pending. rewrite !tos_modify_eq. simpl. rewrite flag_clear by done. apply flag_cleared. }
    exists (qset h (xs ++ ys) Q). conj; [|split; [done|split; [done|]]|done].
    + eapply (inv_change _ _ _ _ t Hi); rewrite ?Hf; try done.
      * apply queues_modify, queues_modify. by eapply remove_queues.
      * intros x Hx. by rewrite !tos_modify_ne.
      * intros x h' Hx. rewrite (removed_mem _ _ _ _ _ _ _ _ Hq E). tauto.
      * split; [done|]. intros [h' Hh']. apply (removed_mem _ _ _ _ _ _ _ _ Hq E) in Hh' as [_ ?]. done.
      * intros b Hb. apply (removed_mem _ _ _ _ _ _ _ _ Hq E) in Hb as [_ ?]. done.
    + intros x Hx. by rewrite !tos_modify_ne.
  - assert (timeout_pending (modify t (fun u => with_flags (Z.land (to_flags u) (Z.lnot TIMEOUT_TRIGGERED)) u) s) t = false) as Hf.
    { unfold timeout_pending in *. rewrite tos_modify_eq. simpl. by rewrite flag_clear. }
    pose proof (not_pending _ _ _ Hi Hp) as Hn.
    exists Q. conj; [|split; [done|split; [done|]]|done].
    + eapply (inv_change _ _ _ _ t Hi); rewrite ?Hf; try done.
      * apply queues_modify. apply Hi.
      * intros x Hx. by rewrite tos_modify_ne.
      * split; [done|]. intros [h Hh]. by destruct (Hn h).
      * intros b Hb. by destruct (Hn (Bucket b)).
    + intros x Hx. by rewrite tos_modify_ne.
Qed.

(** [t] is pending with [n] ticks left. *)
Record added (t n : Z) (s s' : wheel) (Q' : node -> list Z) : Prop := {
  a_inv : inv s' Q';
  a_only : only t s s';
  a_pending : timeout_pending s' t = true;
  a_remaining : remaining s' t = n;
  a_func : to_func (tos s' t) = to_func (tos s t);
  a_arg : to_arg (tos s' t) = to_arg (tos s t);
}.

Lemma added_intro t n fl s Q s' Q' :
  inv s Q -> 0 <= n <= INT_MAX -> only t s s' ->
  tos s' t = Timeout (to_func (tos s t)) (to_arg (tos s t)) (s32 (n + ticks s)) fl -> flag fl TIMEOUT_ONQUEUE = true ->
  queues s' Q' -> (forall x h, x <> t -> x ∈ Q' h <-> x ∈ Q h) -> (exists h, t ∈ Q' h) ->
  (forall b, t ∈ Q' (Bucket b) -> exists d, 1 <= d <= n /\ moved b (ticks s + d)) ->
  added t n s s' Q'.
Proof.
  intros Hi Hn Ho E Hf Hq Hm Hex Hw. pose proof Ho as (Hk & Hc & Hx).
  assert (timeout_pending s' t = true) as Hp by (unfold timeout_pending; by rewrite E).
  assert (remaining s' t = n) as Hr by (unfold remaining; rewrite E, Hk; by apply s32_there_and_back).
  split; try done; [|by rewrite E..]. eapply (inv_change _ _ _ _ t Hi Hq); try done; rewrite ?Hp, ?Hr; try done.
  intros _. rewrite E. simpl. unfold is_s, s32, swrap, wrap. dlia.
Qed.

Lemma timeout_add_inv t n s Q : inv s Q -> timeout_initialized s t = true -> 0 <= n <= INT_MAX ->
  exists s' Q', timeout_add t n s = Ret s' /\ added t n s s' Q'.
Proof.
  intros Hi Hini Hn. unfold timeout_add. fold (timeout_initialized s t). rewrite Hini. cbn [negb].
  destruct (Z.ltb_spec n 0); [lia|]. cbv zeta.
  set (s1 := modify t (fun u => with_flags (Z.land (to_flags u) (Z.lnot TIMEOUT_TRIGGERED)) u)
    (modify t (with_time (s32 (n + ticks s))) s)). set (fl := Z.land (to_flags (tos s t)) (Z.lnot TIMEOUT_TRIGGERED)).
  pose proof (i_queues _ _ Hi) as Hq. assert (queues s1 Q) as Hq1 by (by apply queues_modify, queues_modify).
  assert (tos s1 t = Timeout (to_func (tos s t)) (to_arg (tos s t)) (s32 (n + ticks s)) fl) as E1
    by (unfold s1; by rewrite !tos_modify_eq).
  assert (only t s s1) as O1 by (split; [done|split; [done|]]; intros x Hx; unfold s1; by rewrite !tos_modify_ne).
  assert (flag fl TIMEOUT_ONQUEUE = timeout_pending s t) as Hfl by (unfold fl; by rewrite flag_clear).
  rewrite E1. simpl to_flags. rewrite Hfl.
  assert (remaining s1 t = n) as -> by (unfold remaining; rewrite E1; by apply s32_there_and_back).
  change (ticks s1) with (ticks s). fold (remaining s t).
  destruct (timeout_pending s t) eqn:Hp; [destruct (Z.ltb_spec n (remaining s t)) as [Hlt|Hge]|].
  - destruct (pending_split _ _ _ Hi Hp) as (h & xs & ys & E). pose proof (remove_queues _ _ _ _ _ _ Hq1 E) as Hq2.
    assert (forall h', t ∉ qset h (xs ++ ys) Q h') as Hno by (intros h' Hh'; by apply (removed_mem _ _ _ _ _ _ _ _ Hq E) in Hh' as [_ ?]).
    eexists _, (qset Todo (qset h (xs ++ ys) Q Todo ++ [t]) (qset h (xs ++ ys) Q)). split; [done|].
    apply (added_intro _ _ fl s Q); try done.
    + exact (insert_queues _ _ t Todo Hq2 ltac:(by left) Hno).
    + intros x h' Hx. rewrite inserted_mem, (removed_mem _ _ _ _ _ _ _ _ Hq E). naive_solver.
    + exists Todo. apply inserted_mem. by right.
    + intros b Hb. apply inserted_mem in Hb as [Hb|[_ ?]]; [by destruct (Hno (Bucket b))|done].
  - eexists _, Q. split; [done|]. apply (added_intro _ _ fl s Q); try done.
    + by apply (i_pending _ _ Hi).
    + intros b Hb. destruct (i_wheel _ _ Hi t b Hb) as (d & Hd & Hm). exists d. split; [lia|done].
  - pose proof (not_pending _ _ _ Hi Hp) as Hno.
    set (s2 := modify t (fun u => with_flags (Z.lor (to_flags u) TIMEOUT_ONQUEUE) u) s1).
    assert (queues s2 Q) as Hq2 by (by apply queues_modify).
    eexists _, (qset Todo (Q Todo ++ [t]) Q). split; [done|].
    apply (added_intro _ _ (Z.lor fl TIMEOUT_ONQUEUE) s Q); try done.
    + destruct O1 as (? & ? & O1). split; [done|split; [done|]]. intros x Hx.
      change (tos s2 x = tos s x). unfold s2. rewrite tos_modify_ne by done. by apply O1.
    + change (tos s2 t = Timeout (to_func (tos s t)) (to_arg (tos s t)) (s32 (n + ticks s)) (Z.lor fl TIMEOUT_ONQUEUE)).
      unfold s2. by rewrite tos_modify_eq, E1.
    + by apply flag_set.
    + exact (insert_queues _ _ t Todo Hq2 ltac:(by left) Hno).
    + intros x h' Hx. rewrite inserted_mem. naive_solver.
    + exists Todo. apply inserted_mem. by right.
    + intros b Hb. apply inserted_mem in Hb as [Hb|[_ ?]]; [by destruct (Hno (Bucket b))|done].
Qed.

(** * [softclock] *)

(** A round of the loop: the worklist is empty; or its first timeout is not due
    and goes to a bucket; or it is due, and its handler is called. *)
Lemma softclock_body_inv s Q : inv s Q ->
  (Q Todo = [] /\ softclock_body s = Ret (Out, s)) \/
  (exists t rest s' Q', Q Todo = t :: rest /\ 0 < remaining s t /\ softclock_body s = Ret (Loop, s') /\ inv s' Q' /\
     Q' Todo = rest /\ tos s' = tos s /\ ticks s' = ticks s /\ calls s' = calls s) \/
  (exists t rest s' Q', Q Todo = t :: rest /\ remaining s t <= 0 /\ softclock_body s = Ret (Handler, s') /\ inv s' Q' /\
     Q' Todo = rest /\ ticks s' = ticks s /\ (forall x, x <> t -> tos s' x = tos s x) /\ timeout_pending s' t = false /\
     timeout_triggered s' t = true /\ calls s' = Fired t (to_func (tos s t)) (to_arg (tos s t)) (ticks s) :: calls s).
Proof.
  intros Hi. pose proof (i_queues _ _ Hi) as Hq. assert (is_head Todo) as Hh by (by left).
  pose proof (q_ring _ _ Hq Todo Hh) as Hr. unfold softclock_body. destruct (Q Todo) as [|t rest] eqn:E.
  { left. split; [done|]. by rewrite (proj2 (ring_empty _ _ _ Hr)). }
  right. destruct (CIRCQ_EMPTY Todo (circ s)) eqn:Ee; [by apply (ring_empty _ _ _ Hr) in Ee|].
  unfold CIRCQ_FIRST. rewrite (ring_first _ _ _ Hr). change (default Todo (head (To <$> t :: rest))) with (To t). cbv beta iota zeta.
  assert (Q Todo = [] ++ t :: rest) as E' by done. pose proof (remove_queues _ _ _ _ _ _ Hq E') as Hq1. simpl app in Hq1.
  assert (forall h', t ∉ qset Todo rest Q h') as Hno by (intros h' Hh'; by apply (removed_mem _ _ _ _ _ _ _ _ Hq E') in Hh' as [_ ?]).
  assert (timeout_pending s t = true) as Hp by (apply (i_pending _ _ Hi); exists Todo; rewrite E; set_solver).
  change (remaining (with_circ (CIRCQ_REMOVE (To t)) s) t) with (remaining s t).
  destruct (Z.ltb_spec 0 (remaining s t)) as [Hpos|Hdue].
  - left. destruct (BUCKET_ok (ticks s) (to_time (tos s t)) (remaining s t) eq_refl Hpos) as (b & d & Eb & Hb & Hd & Hm).
    change (tos (with_circ (CIRCQ_REMOVE (To t)) s)) with (tos s). rewrite Eb. cbn [bind]. assert (is_head (Bucket b)) as Hhb by (right; eauto).
    eexists t, rest, _, (qset (Bucket b) (qset Todo rest Q (Bucket b) ++ [t]) (qset Todo rest Q)).
    conj; [done|done|done| |rewrite qset_ne by done; apply qset_eq|done..].
    eapply (inv_change _ _ _ _ t Hi (insert_queues _ _ t (Bucket b) Hq1 Hhb Hno)); try done.
    + intros x h' Hx. rewrite inserted_mem, (removed_mem _ _ _ _ _ _ _ _ Hq E'). naive_solver.
    + unfold timeout_pending in *. simpl. rewrite Hp. split; [|done]. intros _. exists (Bucket b). apply inserted_mem. by right.
    + intros _. simpl. by apply (i_time _ _ Hi).
    + intros b' Hb'. apply inserted_mem in Hb' as [Hx|[_ [= ->]]]; [by destruct (Hno (Bucket b'))|]. by exists d.
  - right. eexists t, rest, _, (qset Todo rest Q).
    assert (timeout_pending (fire t (with_circ (CIRCQ_REMOVE (To t)) s)) t = false) as Hf.
    { unfold timeout_pending. simpl. rewrite Z.eqb_refl. simpl. rewrite flag_set_other by done. apply flag_cleared. }
    assert (forall x, x <> t -> tos (fire t (with_circ (CIRCQ_REMOVE (To t)) s)) x = tos s x) as Hx.
    { intros x Hx. simpl. by destruct (Z.eqb_spec x t). }
    conj; [done|done|done| |apply qset_eq|done|done|done| |simpl; by rewrite Z.eqb_refl].
    + eapply (inv_change _ _ _ _ t Hi); rewrite ?Hf; try done.
      * apply (queues_modify t (fun x => x)) in Hq1. destruct Hq1. by split.
      * intros x h' Hxt. rewrite (removed_mem _ _ _ _ _ _ _ _ Hq E'). tauto.
      * split; [done|]. intros [h' Hh']. by destruct (Hno h').
      * intros b Hb. by destruct (Hno (Bucket b)).
    + unfold timeout_triggered. simpl. rewrite Z.eqb_refl. by apply flag_set.
Qed.
