(* ===== verification/TimeoutSpec.v ===== *)
(** * The timeout wheel: theorems *)

From stdpp Require Import sets.
From S2P Require Import Prelude Timeout TimeoutInv TimeoutOps.

(** * Start *)

Lemma init_buckets_rings k : forall b l,
  (forall b', b <= b' < b + Z.of_nat k -> ring (init_buckets b k l) (Bucket b') []) /\
  (forall y, (forall b', b <= b' < b + Z.of_nat k -> y <> Bucket b') ->
     next (init_buckets b k l) y = next l y /\ prev (init_buckets b k l) y = prev l y).
Proof.
  induction k as [|k IH]; intros b l; cbn [init_buckets].
  { split; [intros; lia|done]. }
  destruct (IH (b + 1) (CIRCQ_INIT (Bucket b) l)) as [H1 H2]. destruct (init_ring (Bucket b) l) as [[Hc _] Hu]. split.
  - intros b' Hb. destruct (decide (b' = b)) as [->|]; [|apply H1; lia]. split; [|apply NoDup_singleton].
    simpl in *. destruct (H2 (Bucket b)) as [-> ->]; [|done]. intros b' Hb' [= ->]. lia.
  - intros y Hy. destruct (H2 y) as [-> ->]; [intros; apply Hy; lia|]. apply Hu.
    rewrite list_elem_of_singleton. apply Hy. lia.
Qed.

Lemma startup_rings s h : is_head h -> ring (circ (timeout_startup s)) h [].
Proof.
  intros Hh. unfold timeout_startup, with_circ. cbn [circ].
  assert (Z.of_nat (Z.to_nat BUCKETS) = BUCKETS) as E by (apply Z2Nat.id; done).
  destruct (init_buckets_rings (Z.to_nat BUCKETS) 0 (CIRCQ_INIT Todo (circ s))) as [H1 H2]. rewrite E in H1.
  destruct Hh as [->|(b & -> & Hb)]; [|by apply H1].
  destruct (init_ring Todo (circ s)) as [[Hc _] _]. split; [|apply NoDup_singleton].
  destruct (H2 Todo) as [E1 E2]; [done|]. split; [rewrite E1|rewrite E2]; apply Hc.
Qed.

Lemma startup_inv s : is_s 32 (ticks s) -> (forall t, timeout_pending s t = false) -> inv (timeout_startup s) (fun _ => []).
Proof.
  intros Hk Hp. split; [|..|done|].
  - split; [by apply startup_rings|done|]. intros t h h' Ht. by apply elem_of_nil in Ht.
  - intros t. change (timeout_pending (timeout_startup s) t) with (timeout_pending s t). rewrite Hp.
    split; [done|]. intros [h Hh]. by apply elem_of_nil in Hh.
  - intros t. change (timeout_pending (timeout_startup s) t) with (timeout_pending s t). by rewrite Hp.
  - intros t b Hb. by apply elem_of_nil in Hb.
Qed.

(** * Steps *)

Definition touches (t : Z) (l : label) : Prop :=
  match l with LSet x _ _ | LAdd x _ | LDel x => x = t | _ => False end.

#[export] Instance touches_dec t l : Decision (touches t l).
Proof. destruct l; simpl; apply _. Defined.

Definition is_tick (l : label) : Z := match l with LTick => 1 | _ => 0 end.

(** The calls of the handler of [t]. *)
Definition calls_of (t : Z) (s : wheel) : list fired := filter (fun f => f_to f = t) (calls s).

#[export] Instance label_eq_dec : EqDecision label.
Proof. solve_decision. Defined.

(** What a step means for a timeout it does not name: nothing but a tick of the
    clock, or its handler is called. *)
Definition bystander (t : Z) (l : label) (c c' : config) : Prop :=
  ticks (wh c') = (if decide (l = LTick) then s32 (ticks (wh c) + 1) else ticks (wh c)) /\
  ((tos (wh c') t = tos (wh c) t /\ calls_of t (wh c') = calls_of t (wh c)) \/
   (timeout_pending (wh c) t = true /\ remaining (wh c) t <= 0 /\ timeout_pending (wh c') t = false /\
    l <> LTick /\
    calls_of t (wh c') = Fired t (to_func (tos (wh c) t)) (to_arg (tos (wh c) t)) (ticks (wh c)) :: calls_of t (wh c))).

Lemma only_bystander t x s s' : only x s s' -> x <> t -> tos s' t = tos s t /\ calls_of t s' = calls_of t s.
Proof. intros (_ & Hc & Ht) Hne. split; [apply Ht; congruence|]. unfold calls_of. by rewrite Hc. Qed.

Lemma exec_inv l c Q : inv (wh c) Q -> allowed l c ->
  exists c' Q', exec l c = Ret c' /\ inv (wh c') Q' /\ (forall t, ~ touches t l -> bystander t l c c') /\
    (l = LRound -> cmode c' = Out -> Q' Todo = []).
Proof.
  intros Hi Ha. destruct l as [t fn arg|t n|t| | | |]; simpl in Ha |- *.
  - eexists _, Q. split; [done|]. conj; [apply timeout_set_inv; tauto|..|done].
    intros x Hx. split; [done|]. left. split; [|done]. unfold timeout_set. simpl. destruct (Z.eqb_spec x t) as [->|]; [by destruct Hx|done].
  - destruct Ha as (_ & Hini & Hn). destruct (timeout_add_inv t n (wh c) Q Hi Hini Hn) as (s' & Q' & -> & A).
    eexists _, Q'. split; [done|]. conj; [by apply A|..|done].
    intros x Hx. split; [apply A|]. left. by apply (only_bystander x t); [apply A|].
  - destruct (timeout_del_inv t (wh c) Q Hi) as (Q' & Hi' & Ho & _). eexists _, Q'. split; [done|]. conj; [done|..|done].
    intros x Hx. split; [apply Ho|]. left. by apply (only_bystander x t).
  - destruct (tick_inv _ _ Hi) as (ret & s' & Q' & -> & Hi' & Hk & Ht & Hc & _). eexists _, Q'. split; [done|].
    conj; [done|..|done]. intros x _. split; [done|]. left. simpl. unfold calls_of. by rewrite Ht, Hc.
  - eexists _, Q. split; [done|]. conj; [done|..|done]. intros x _. split; [done|]. by left.
  - destruct (softclock_body_inv _ _ Hi) as [[E ->]|[(t & rest & s' & Q' & E & Hr & -> & Hi' & E' & Ht & Hk & Hc)
      |(t & rest & s' & Q' & E & Hr & -> & Hi' & E' & Hk & Ht & Hp & Htr & Hc)]]; cbn [bind].
    + eexists _, Q. split; [done|]. conj; [done|..|done]. intros x _. split; [done|]. by left.
    + eexists _, Q'. split; [done|]. conj; [done|..|done]. intros x _. split; [done|]. left. simpl. unfold calls_of. by rewrite Ht, Hc.
    + eexists _, Q'. split; [done|]. conj; [done|..|done]. intros x _. split; [done|]. simpl. unfold calls_of. rewrite Hc.
      destruct (decide (x = t)) as [->|Hx].
      * right. conj; try done; [|by rewrite filter_cons_True].
        apply (i_pending _ _ Hi). exists Todo. rewrite E. set_solver.
      * left. split; [by apply Ht|]. rewrite filter_cons_False by (simpl; congruence). done.
  - eexists _, Q. split; [done|]. conj; [done|..|done]. intros x _. split; [done|]. by left.
Qed.

Lemma reachable_inv c : reachable c -> exists Q, inv (wh c) Q.
Proof.
  induction 1 as [s Hk Hp|l c c' _ [Q Hi] Ha E].
  - exists (fun _ => []). by apply startup_inv.
  - destruct (exec_inv l c Q Hi Ha) as (c2 & Q' & E2 & Hi' & _). rewrite E in E2. injection E2 as <-. by exists Q'.
Qed.

(** * Runs *)

Inductive steps : config -> list label -> config -> Prop :=
| s_nil c : steps c [] c
| s_cons l ls c c1 c2 : allowed l c -> exec l c = Ret c1 -> steps c1 ls c2 -> steps c (l :: ls) c2.

Fixpoint nticks (ls : list label) : Z := match ls with [] => 0 | l :: ls => is_tick l + nticks ls end.

Lemma nticks_nonneg ls : 0 <= nticks ls.
Proof. induction ls as [|l ls IH]; simpl; [lia|]. destruct l; simpl; lia. Qed.

Lemma steps_step c l c' Q : inv (wh c) Q -> allowed l c -> exec l c = Ret c' ->
  exists Q', inv (wh c') Q' /\ (forall t, ~ touches t l -> bystander t l c c') /\ (l = LRound -> cmode c' = Out -> Q' Todo = []).
Proof. intros Hi Ha E. destruct (exec_inv l c Q Hi Ha) as (c2 & Q' & E2 & H). rewrite E in E2. injection E2 as <-. eauto. Qed.

(** A timeout that is not pending stays so while nobody names it. *)
Lemma steps_idle c ls c' t Q : steps c ls c' -> inv (wh c) Q -> Forall (fun l => ~ touches t l) ls ->
  timeout_pending (wh c) t = false ->
  timeout_pending (wh c') t = false /\ calls_of t (wh c') = calls_of t (wh c).
Proof.
  intros Hs. revert Q. induction Hs as [|l ls c c1 c2 Ha E Hs IH]; intros Q Hi Hn Hp; [done|].
  apply Forall_cons in Hn as [Hl Hn]. destruct (steps_step _ _ _ _ Hi Ha E) as (Q' & Hi' & Hb & _).
  destruct (Hb t Hl) as [_ [[Et Ec]|(Hp' & _)]]; [|congruence].
  destruct (IH Q' Hi' Hn) as [H1 H2]; [unfold timeout_pending in *; by rewrite Et|]. split; [done|]. congruence.
Qed.

(** A pending timeout nobody names: its time runs down, or its handler has been
    called once, not before the time was over. *)
Lemma steps_pending c ls c' t Q : steps c ls c' -> inv (wh c) Q -> Forall (fun l => ~ touches t l) ls ->
  timeout_pending (wh c) t = true -> nticks ls <= remaining (wh c) t + 2147483648 ->
  (timeout_pending (wh c') t = true /\ remaining (wh c') t = remaining (wh c) t - nticks ls /\
   calls_of t (wh c') = calls_of t (wh c)) \/
  (timeout_pending (wh c') t = false /\ exists j, remaining (wh c) t <= j <= nticks ls /\ 0 <= j /\
   calls_of t (wh c') = Fired t (to_func (tos (wh c) t)) (to_arg (tos (wh c) t)) (s32 (ticks (wh c) + j)) :: calls_of t (wh c)).
Proof.
  intros Hs. revert Q. induction Hs as [c|l ls c c1 c2 Ha E Hs IH]; intros Q Hi Hn Hp Hk.
  { left. simpl. conj; try done. lia. }
  apply Forall_cons in Hn as [Hl Hn]. destruct (steps_step _ _ _ _ Hi Ha E) as (Q' & Hi' & Hb & _). simpl in Hk |- *.
  pose proof (nticks_nonneg ls) as Hnn. pose proof (i_ticks _ _ Hi) as HT.
  destruct (Hb t Hl) as [Htk [[Et Ec]|(_ & Hr & Hp1 & Hnt & Ec)]].
  - assert (remaining (wh c1) t = remaining (wh c) t - is_tick l) as Hr1.
    { unfold remaining. rewrite Et, Htk. destruct (decide (l = LTick)) as [->|Hne].
      - apply remaining_tick; [done|]. unfold remaining in Hk. simpl in *. lia.
      - destruct l; simpl; [lia..|done|lia|lia|lia]. }
    destruct (IH Q' Hi' Hn) as [(P1 & P2 & P3)|(P1 & j & Hj & Hj0 & P3)]; [unfold timeout_pending in *; by rewrite Et|lia|..].
    + left. conj; [done|lia|congruence].
    + right. split; [done|]. exists (is_tick l + j). rewrite P3, Ec, Et, Htk.
      assert (0 <= is_tick l) by (destruct l; simpl; lia). conj; [lia|lia|lia|].
      f_equal. f_equal. destruct (decide (l = LTick)) as [->|Hne]; simpl.
      * unfold s32, swrap, wrap. dlia.
      * f_equal. destruct l; simpl; (lia || done).
  - right. destruct (steps_idle _ _ _ t Q' Hs Hi' Hn Hp1) as [P1 P2]. split; [done|]. exists 0.
    assert (0 <= is_tick l) by (destruct l; simpl; lia). conj; [lia|lia|lia|].
    rewrite P2, Ec. f_equal. f_equal. unfold is_s, s32, swrap, wrap in *. dlia.
Qed.

(** When [softclock] ends, nothing that is pending is due. *)
Lemma round_out c c' Q : inv (wh c) Q -> allowed LRound c -> exec LRound c = Ret c' -> cmode c' = Out ->
  forall t, timeout_pending (wh c') t = true -> 0 < remaining (wh c') t.
Proof.
  intros Hi Ha E Hm t Hp. destruct (steps_step _ _ _ _ Hi Ha E) as (Q' & Hi' & _ & Hq). specialize (Hq eq_refl Hm).
  destruct (proj1 (i_pending _ _ Hi' t) Hp) as [h Hh]. destruct (q_head _ _ _ _ (i_queues _ _ Hi') Hh) as [->|(b & -> & _)].
  - rewrite Hq in Hh. by apply elem_of_nil in Hh.
  - destruct (i_wheel _ _ Hi' t b Hh) as (d & Hd & _). lia.
Qed.

Lemma steps_snoc c ls l c' : steps c (ls ++ [l]) c' -> exists c1, steps c ls c1 /\ allowed l c1 /\ exec l c1 = Ret c'.
Proof.
  revert c. induction ls as [|l' ls IH]; intros c Hs; inversion Hs as [|? ? ? c1 ? Ha E Hs' A B C]; subst.
  - inversion Hs'; subst. exists c. split; [constructor|done].
  - destruct (IH _ Hs') as (c2 & Hs2 & H). exists c2. split; [|done]. by eapply s_cons.
Qed.

Lemma steps_inv c ls c' Q : steps c ls c' -> inv (wh c) Q -> exists Q', inv (wh c') Q'.
Proof.
  intros Hs. revert Q. induction Hs as [|l ls c c1 c2 Ha E Hs IH]; intros Q Hi; [by exists Q|].
  destruct (steps_step _ _ _ _ Hi Ha E) as (Q' & Hi' & _). by apply (IH Q').
Qed.

Lemma softclock_returns k : forall s Q, inv s Q -> (length (Q Todo) <= k)%nat ->
  exists m s' Q', softclock (S k) s = Ret (m, s') /\ m <> Loop /\ inv s' Q' /\ ticks s' = ticks s /\
    (m = Out -> Q' Todo = [] /\ tos s' = tos s /\ calls s' = calls s).
Proof.
  induction k as [|k IH]; intros s Q Hi Hl; cbn [softclock];
    (destruct (softclock_body_inv _ _ Hi) as [[E ->]|[(t & rest & s' & Q' & E & Hr & Eb & Hi' & E' & Ht & Hk & Hc)
      |(t & rest & s' & Q' & E & Hr & -> & Hi' & E' & Hk & Ht & Hp & Htr & Hc)]]; cbn [bind]).
  - by exists Out, s, Q.
  - rewrite E in Hl. simpl in Hl. lia.
  - by exists Handler, s', Q'.
  - by exists Out, s, Q.
  - rewrite Eb. cbn [bind]. rewrite E in Hl. simpl in Hl.
    destruct (IH s' Q' Hi') as (m & s2 & Q2 & E2 & Hm & Hi2 & Hk2 & Ho); [rewrite E'; lia|].
    exists m, s2, Q2. conj; [done|done|done|congruence|]. intros Hout. destruct (Ho Hout) as (? & ? & ?). conj; congruence.
  - by exists Handler, s', Q'.
Qed.

(** * Theorems *)

(** C21. The wheel is sound in every reachable state, under any interleaving of
    callers, ticks and [softclock]: every step that can happen returns (no link
    is followed astray, no bucket is outside the wheel, nothing panics), each
    pending timeout is on exactly one queue, and one that is due is on the
    worklist, where [softclock] finds it. *)
Theorem timeout_wheel_safe c : reachable c ->
  (forall l, allowed l c -> exists c', exec l c = Ret c') /\
  exists Q, queues (wh c) Q /\ (forall t, timeout_pending (wh c) t = true <-> exists h, t ∈ Q h) /\
    forall t, timeout_pending (wh c) t = true -> remaining (wh c) t <= 0 -> t ∈ Q Todo.
Proof.
  intros Hr. destruct (reachable_inv c Hr) as [Q Hi]. split.
  { intros l Ha. destruct (exec_inv l c Q Hi Ha) as (c' & _ & E & _). eauto. }
  exists Q. conj; [apply Hi..|]. intros t Hp Hd. destruct (proj1 (i_pending _ _ Hi t) Hp) as [h Hh].
  destruct (q_head _ _ _ _ (i_queues _ _ Hi) Hh) as [->|(b & -> & _)]; [done|].
  destruct (i_wheel _ _ Hi t b Hh) as (d & ? & _). lia.
Qed.

(** C9. A timeout is called once and on time.  From a reachable state with [t]
    pending, in any run of steps that do not name [t]: while fewer ticks have
    passed than it had left it is still pending and its handler has not been
    called; once they have passed and [softclock] comes to its end, it is not
    pending any more and its handler has been called exactly once, with its
    argument, and not before its time. *)
Theorem timeout_fires c ls c' t :
  reachable c -> timeout_pending (wh c) t = true -> steps c ls c' -> Forall (fun l => ~ touches t l) ls ->
  nticks ls <= remaining (wh c) t + 2147483648 ->
  (nticks ls < remaining (wh c) t ->
     timeout_pending (wh c') t = true /\ remaining (wh c') t = remaining (wh c) t - nticks ls /\
     calls_of t (wh c') = calls_of t (wh c)) /\
  (remaining (wh c) t <= nticks ls -> last ls = Some LRound -> cmode c' = Out ->
     timeout_pending (wh c') t = false /\
     exists j, remaining (wh c) t <= j <= nticks ls /\
       calls_of t (wh c') = Fired t (to_func (tos (wh c) t)) (to_arg (tos (wh c) t)) (s32 (ticks (wh c) + j)) :: calls_of t (wh c)).
Proof.
  intros Hr Hp Hs Hn Hk. destruct (reachable_inv c Hr) as [Q Hi].
  destruct (steps_pending _ _ _ _ _ Hs Hi Hn Hp Hk) as [(P1 & P2 & P3)|(P1 & j & Hj & _ & P2)]; split; try done.
  - intros Hle Hl Hm. exfalso. apply last_Some in Hl as [ls' ->].
    destruct (steps_snoc _ _ _ _ Hs) as (c1 & Hs1 & Ha & E). destruct (steps_inv _ _ _ _ Hs1 Hi) as [Q1 Hi1].
    pose proof (round_out _ _ _ Hi1 Ha E Hm t P1). lia.
  - lia.
  - intros _ _ _. split; [done|]. exists j. done.
Qed.

(** The loop of [softclock] ends: one round more than there are timeouts on
    the worklist brings it to the call of a handler or to its end, and at its
    end nothing that is pending is due. *)
Theorem softclock_terminates c : reachable c ->
  exists Q m s', queues (wh c) Q /\ softclock (S (length (Q Todo))) (wh c) = Ret (m, s') /\ m <> Loop /\
    (m = Out -> forall t, timeout_pending s' t = true -> 0 < remaining s' t).
Proof.
  intros Hr. destruct (reachable_inv c Hr) as [Q Hi].
  destruct (softclock_returns _ _ _ Hi (le_n _)) as (m & s' & Q' & E & Hm & Hi' & _ & Ho).
  exists Q, m, s'. conj; [apply Hi|done|done|]. intros Hout t Hp. destruct (Ho Hout) as [Hq _].
  destruct (proj1 (i_pending _ _ Hi' t) Hp) as [h Hh]. destruct (q_head _ _ _ _ (i_queues _ _ Hi') Hh) as [->|(b & -> & _)].
  - rewrite Hq in Hh. by apply elem_of_nil in Hh.
  - destruct (i_wheel _ _ Hi' t b Hh) as (d & ? & _). lia.
Qed.

(** The interface in a reachable state: [timeout_add] makes the timeout
    pending with the given number of ticks left, [timeout_del] makes it not
    pending, both without a change to any other timeout; a tick takes one tick
    from the time left of each pending timeout and reports [false] only if
    none is due. *)
Theorem timeout_interface c t n : reachable c ->
  (timeout_initialized (wh c) t = true -> 0 <= n <= INT_MAX ->
   exists s', timeout_add t n (wh c) = Ret s' /\ only t (wh c) s' /\ timeout_pending s' t = true /\ remaining s' t = n) /\
  (only t (wh c) (timeout_del t (wh c)) /\ timeout_pending (timeout_del t (wh c)) t = false) /\
  exists ret s', timeout_hardclock_update (wh c) = Ret (ret, s') /\ tos s' = tos (wh c) /\
    (forall x, - 2147483648 < remaining (wh c) x -> remaining s' x = remaining (wh c) x - 1) /\
    (ret = false -> forall x, timeout_pending s' x = true -> 0 < remaining s' x).
Proof.
  intros Hr. destruct (reachable_inv c Hr) as [Q Hi]. conj.
  - intros Hini Hn. destruct (timeout_add_inv t n (wh c) Q Hi Hini Hn) as (s' & Q' & E & []). eauto.
  - destruct (timeout_del_inv t (wh c) Q Hi) as (Q' & _ & H & _). done.
  - destruct (timeout_del_inv t (wh c) Q Hi) as (Q' & _ & _ & H). done.
  - destruct (tick_inv _ _ Hi) as (ret & s' & Q' & E & Hi' & Hk & Ht & _ & Hret). exists ret, s'. conj; [done|done|..].
    + intros x Hx. unfold remaining. rewrite Ht, Hk. by apply remaining_tick.
    + intros Hf x Hp. apply Hret in Hf. destruct (proj1 (i_pending _ _ Hi' x) Hp) as [h Hh].
      destruct (q_head _ _ _ _ (i_queues _ _ Hi') Hh) as [->|(b & -> & _)].
      * rewrite Hf in Hh. by apply elem_of_nil in Hh.
      * destruct (i_wheel _ _ Hi' x b Hh) as (d & ? & _). lia.
Qed.

Lemma clamp_min x : 0 <= x -> clamp (s64 x) = Z.min x INT_MAX \/ 2 ^ 63 <= x.
Proof.
  intros Hx. destruct (Z.ltb_spec x (2 ^ 63)); [left|by right]. unfold clamp, INT_MAX, s64, s32, swrap, wrap.
  case_if; boolify; dlia.
Qed.

Lemma quot_div x y : 0 <= x -> 0 < y -> quot x y = Ret (x `div` y).
Proof.
  intros Hx Hy. unfold quot. destruct (Z.eqb_spec y 0); [lia|]. by rewrite Z.quot_div_nonneg by lia.
Qed.

Lemma clamp_ticks hz sec sub : 0 < hz <= INT_MAX -> 0 <= sec <= INT_MAX -> 0 <= sub <= INT_MAX ->
  clamp (s64 (hz * sec + sub)) = Z.min (hz * sec + sub) INT_MAX.
Proof.
  unfold INT_MAX. intros Hh Hs Hu. destruct (clamp_min (hz * sec + sub)) as [|Hx]; [nia|done|]. nia.
Qed.

(** The conversions to ticks: seconds, microseconds, nanoseconds and the
    three structures give the number of whole ticks, limited to the largest
    [int], so that the time handed to [timeout_add] never overflows. *)
Theorem timeout_conversions hz tick t s :
  0 < hz <= INT_MAX -> 0 < tick -> tick * 1000 <= INT_MAX ->
  (forall sec, 0 <= sec <= INT_MAX -> timeout_add_sec hz t sec s = timeout_add t (Z.min (hz * sec) INT_MAX) s) /\
  (forall sec usec, 0 <= sec <= INT_MAX -> 0 <= usec < 1000000 ->
     timeout_add_tv hz tick t sec usec s = timeout_add t (Z.min (hz * sec + usec `div` tick) INT_MAX) s) /\
  (forall sec nsec, 0 <= sec <= INT_MAX -> 0 <= nsec < 1000000000 ->
     timeout_add_ts hz tick t sec nsec s = timeout_add t (Z.min (hz * sec + nsec `div` (tick * 1000)) INT_MAX) s) /\
  (forall sec frac, 0 <= sec <= INT_MAX -> is_u 64 frac ->
     timeout_add_bt hz tick t sec frac s =
       timeout_add t (Z.min (hz * sec + (1000000 * (frac `div` 2 ^ 32)) `div` 2 ^ 32 `div` tick) INT_MAX) s) /\
  (forall usecs, 0 <= usecs <= INT_MAX -> timeout_add_usec tick t usecs s = timeout_add t (usecs `div` tick) s) /\
  (forall nsecs, 0 <= nsecs <= INT_MAX -> timeout_add_nsec tick t nsecs s = timeout_add t (nsecs `div` (tick * 1000)) s).
Proof.
  intros Hh Ht Hm. assert (s32 (tick * 1000) = tick * 1000) as E by (unfold INT_MAX, s32, swrap, wrap in *; dlia).
  assert (forall x y, 0 <= x <= INT_MAX -> 0 < y -> 0 <= x `div` y <= INT_MAX) as Hd.
  { intros x y Hx Hy. split; [apply Z.div_pos; lia|]. transitivity x; [|lia]. apply Z.div_le_upper_bound; nia. }
  unfold INT_MAX in Hd. conj.
  - intros sec Hs. unfold timeout_add_sec. replace (hz * sec) with (hz * sec + 0) by lia. rewrite clamp_ticks; [done|done|done|]. unfold INT_MAX. lia.
  - intros sec usec Hs Hu. unfold timeout_add_tv. rewrite quot_div by lia. cbn [bind]. rewrite clamp_ticks; [done..|]. apply Hd; lia.
  - intros sec nsec Hs Hu. unfold timeout_add_ts. rewrite E, quot_div by lia. cbn [bind]. rewrite clamp_ticks; [done..|]. apply Hd; lia.
  - intros sec frac Hs Hf. unfold timeout_add_bt. rewrite !Z.shiftr_div_pow2 by lia. unfold is_u in Hf.
    replace (u32 (frac `div` 2 ^ 32)) with (frac `div` 2 ^ 32) by (unfold u32, wrap; dlia).
    replace (u64 (1000000 * (frac `div` 2 ^ 32))) with (1000000 * (frac `div` 2 ^ 32)) by (unfold u64, wrap; dlia).
    assert (0 <= (1000000 * (frac `div` 2 ^ 32)) `div` 2 ^ 32 <= 2147483647) by dlia.
    rewrite quot_div by lia. cbn [bind]. rewrite clamp_ticks; [done..|]. apply Hd; lia.
  - intros us Hu. unfold timeout_add_usec. rewrite quot_div by lia. done.
  - intros ns Hu. unfold timeout_add_nsec. rewrite E, quot_div by lia. done.
Qed.

(** * Witnesses *)

(** A boot with a counter that is about to wrap, and one timeout set for two
    ticks. *)
Definition boot : wheel := Wheel (Links (fun x => x) (fun x => x)) (fun _ => Timeout 0 0 0 0) 2147483646 [].
Definition booted : config := Config Out (timeout_startup boot).

Lemma booted_reachable : reachable booted.
Proof. apply r_start; [compute_decide|done]. Qed.

(** Run a list of steps, checking that each is allowed. *)
Fixpoint checked (ls : list label) (c : config) : option config :=
  match ls with
  | [] => Some c
  | l :: ls => if decide (allowed l c) then match exec l c with Ret c' => checked ls c' | _ => None end else None
  end.

Lemma checked_steps ls : forall c c', checked ls c = Some c' -> steps c ls c'.
Proof.
  induction ls as [|l ls IH]; intros c c'; simpl.
  - intros [= ->]. constructor.
  - destruct (decide (allowed l c)) as [Ha|]; [|done]. destruct (exec l c) as [c1| | |] eqn:E; [|done..].
    intros H. eapply s_cons; eauto.
Qed.

Lemma steps_reachable c ls c' : steps c ls c' -> reachable c -> reachable c'.
Proof. induction 1 as [|l ls c c1 c2 Ha E _ IH]; intros Hr; [done|]. apply IH. by apply (r_step l c). Qed.

Lemma checked_app ls ls' c c' : checked ls c = Some c' -> checked (ls ++ ls') c = checked ls' c'.
Proof.
  revert c. induction ls as [|l ls IH]; intros c; simpl; [by intros [= ->]|]. case_decide; [|done]. destruct (exec l c); [apply IH|done..].
Qed.

Definition after (ls : list label) : config := default booted (checked ls booted).

Lemma after_checked ls : bool_decide (is_Some (checked ls booted)) = true -> checked ls booted = Some (after ls).
Proof. intros H. apply bool_decide_eq_true in H as [c E]. unfold after. by rewrite E. Qed.

Lemma after_reachable ls : bool_decide (is_Some (checked ls booted)) = true -> reachable (after ls).
Proof. intros H. eapply steps_reachable; [by apply checked_steps, after_checked|]. apply booted_reachable. Qed.

Lemma after_steps ls ls' : bool_decide (is_Some (checked ls booted)) = true ->
  bool_decide (is_Some (checked (ls ++ ls') booted)) = true -> steps (after ls) ls' (after (ls ++ ls')).
Proof.
  intros H H'. apply checked_steps. rewrite <- (checked_app ls ls' booted) by (by apply after_checked). by apply after_checked.
Qed.

Definition set_up : config := after [LSet 5 7 9; LAdd 5 2].

Lemma set_up_reachable : reachable set_up.
Proof. apply after_reachable. by vm_compute. Qed.

Lemma timeout_wheel_safe_witness :
  (forall l, allowed l set_up -> exists c', exec l set_up = Ret c') /\
  exists Q, queues (wh set_up) Q /\ (forall t, timeout_pending (wh set_up) t = true <-> exists h, t ∈ Q h) /\
    forall t, timeout_pending (wh set_up) t = true -> remaining (wh set_up) t <= 0 -> t ∈ Q Todo.
Proof. apply (timeout_wheel_safe set_up), set_up_reachable. Defined.

Definition two_ticks : list label := [LTick; LSoft; LRound; LRound; LTick; LSoft; LRound; LReturn; LRound].

Lemma timeout_fires_witness :
  exists c', steps set_up two_ticks c' /\ timeout_pending (wh c') 5 = false /\
    exists j, remaining (wh set_up) 5 <= j <= nticks two_ticks /\
      calls_of 5 (wh c') = Fired 5 (to_func (tos (wh set_up) 5)) (to_arg (tos (wh set_up) 5)) (s32 (ticks (wh set_up) + j)) :: calls_of 5 (wh set_up).
Proof.
  exists (after ([LSet 5 7 9; LAdd 5 2] ++ two_ticks)).
  assert (steps set_up two_ticks (after ([LSet 5 7 9; LAdd 5 2] ++ two_ticks))) as Hs
    by (apply after_steps; by vm_compute).
  split; [exact Hs|]. apply (timeout_fires set_up two_ticks _ 5 set_up_reachable); [by vm_compute|exact Hs|..|by vm_compute].
  - repeat constructor; intros [].
  - by vm_compute.
  - by vm_compute.
  - by vm_compute.
Defined.

Lemma softclock_terminates_witness :
  exists Q m s', queues (wh set_up) Q /\ softclock (S (length (Q Todo))) (wh set_up) = Ret (m, s') /\ m <> Loop /\
    (m = Out -> forall t, timeout_pending s' t = true -> 0 < remaining s' t).
Proof. apply (softclock_terminates set_up), set_up_reachable. Defined.

Lemma timeout_interface_witness :
  exists s', timeout_add 5 1000 (wh set_up) = Ret s' /\ only 5 (wh set_up) s' /\ timeout_pending s' 5 = true /\ remaining s' 5 = 1000.
Proof. apply (timeout_interface set_up 5 1000 set_up_reachable); [by vm_compute|compute_decide]. Defined.

Lemma timeout_conversions_witness :
  timeout_add_sec 100 5 86400 boot = timeout_add 5 (Z.min (100 * 86400) INT_MAX) boot.
Proof.
  destruct (timeout_conversions 100 10000 5 boot) as [H _]; [compute_decide|compute_decide|compute_decide|].
  apply H. compute_decide.
Defined.
