(* ===== verification/Filedesc.v ===== *)
(** * Descriptor tables

    [struct filedesc] of [sys/filedesc.h] and the operations of
    [kern/kern_descrip.c] on one table: the two-level bitmap of the descriptors
    in use, the choice of a descriptor, and the growth and the copy of a table.
    Arrays are lists with checked accesses; a file is named by a number. *)

From S2P Require Import Prelude Libkern.

Definition NDFILE : Z := 20.
Definition NDEXTENT : Z := 50.
Definition NDENTRIES : Z := 32.
Definition NDENTRYMASK : Z := NDENTRIES - 1.
Definition NDENTRYSHIFT : Z := 5.
Definition NDREDUCE (x : Z) : Z := Z.shiftr (x + NDENTRIES - 1) NDENTRYSHIFT.
Definition NDHISLOTS (x : Z) : Z := NDREDUCE (NDREDUCE x).
Definition NDLOSLOTS (x : Z) : Z := Z.shiftl (NDHISLOTS x) NDENTRYSHIFT.

Definition UF_EXCLOSE : Z := 1.


(** [fd_ofiles[fd]] is [None] for [NULL]. *)
Record filedesc := Filedesc {
  fd_ofiles : list (option Z);
  fd_ofileflags : list Z;
  fd_himap : list Z;
  fd_lomap : list Z;
  fd_nfiles : Z;
  fd_lastfile : Z;
  fd_freefile : Z;
  fd_refcnt : Z;
  fd_knlistsize : Z;
}.

Definition set_ofiles (x : list (option Z)) (f : filedesc) : filedesc :=
  Filedesc x (fd_ofileflags f) (fd_himap f) (fd_lomap f) (fd_nfiles f) (fd_lastfile f) (fd_freefile f) (fd_refcnt f) (fd_knlistsize f).
Definition set_ofileflags (x : list Z) (f : filedesc) : filedesc :=
  Filedesc (fd_ofiles f) x (fd_himap f) (fd_lomap f) (fd_nfiles f) (fd_lastfile f) (fd_freefile f) (fd_refcnt f) (fd_knlistsize f).
Definition set_himap (x : list Z) (f : filedesc) : filedesc :=
  Filedesc (fd_ofiles f) (fd_ofileflags f) x (fd_lomap f) (fd_nfiles f) (fd_lastfile f) (fd_freefile f) (fd_refcnt f) (fd_knlistsize f).
Definition set_lomap (x : list Z) (f : filedesc) : filedesc :=
  Filedesc (fd_ofiles f) (fd_ofileflags f) (fd_himap f) x (fd_nfiles f) (fd_lastfile f) (fd_freefile f) (fd_refcnt f) (fd_knlistsize f).
Definition set_nfiles (x : Z) (f : filedesc) : filedesc :=
  Filedesc (fd_ofiles f) (fd_ofileflags f) (fd_himap f) (fd_lomap f) x (fd_lastfile f) (fd_freefile f) (fd_refcnt f) (fd_knlistsize f).
Definition set_lastfile (x : Z) (f : filedesc) : filedesc :=
  Filedesc (fd_ofiles f) (fd_ofileflags f) (fd_himap f) (fd_lomap f) (fd_nfiles f) x (fd_freefile f) (fd_refcnt f) (fd_knlistsize f).
Definition set_freefile (x : Z) (f : filedesc) : filedesc :=
  Filedesc (fd_ofiles f) (fd_ofileflags f) (fd_himap f) (fd_lomap f) (fd_nfiles f) (fd_lastfile f) x (fd_refcnt f) (fd_knlistsize f).
Definition set_refcnt (x : Z) (f : filedesc) : filedesc :=
  Filedesc (fd_ofiles f) (fd_ofileflags f) (fd_himap f) (fd_lomap f) (fd_nfiles f) (fd_lastfile f) (fd_freefile f) x (fd_knlistsize f).
Definition set_knlistsize (x : Z) (f : filedesc) : filedesc :=
  Filedesc (fd_ofiles f) (fd_ofileflags f) (fd_himap f) (fd_lomap f) (fd_nfiles f) (fd_lastfile f) (fd_freefile f) (fd_refcnt f) x.

(** [~0] as a [u_int]. *)
Definition ALLONES : Z := 4294967295.

(** * Bitmaps *)

Definition found (off sub : Z) : Z := Z.shiftl off NDENTRYSHIFT + ffs (u32 (Z.lnot sub)) - 1.

(** [while (off < maxoff) ...], with [k] words left. *)
Fixpoint scan_words (bitmap : list Z) (p off : Z) (k : nat) : outcome Z :=
  match k with
  | O => Ret (-1)
  | S k =>
      let! sub := aget bitmap (p + off) in
      if negb (sub =? ALLONES) then Ret (found off sub) else scan_words bitmap p (off + 1) k
  end.

(** [bitmap] points at [a[p]]. *)
Definition find_next_zero (a : list Z) (p want bits : Z) : outcome Z :=
  if bits <? want then Ret (-1)
  else
    let off := Z.shiftr want NDENTRYSHIFT in
    let i := Z.land want NDENTRYMASK in
    let maxoff := NDLOSLOTS bits in
    if negb (i =? 0) then
      let! x := aget a (p + off) in
      let sub := Z.lor x (Z.shiftr ALLONES (NDENTRIES - i)) in
      if negb (sub =? ALLONES) then Ret (found off sub)
      else scan_words a p (off + 1) (Z.to_nat (maxoff - (off + 1)))
    else scan_words a p off (Z.to_nat (maxoff - off)).

(** [while (off >= 0 && !bitmap[off]) off--]; [k] is [off + 1]. *)
Fixpoint last_word (bitmap : list Z) (k : nat) : outcome Z :=
  match k with
  | O => Ret (-1)
  | S k' => let! x := aget bitmap (Z.of_nat k') in if x =? 0 then last_word bitmap k' else Ret (Z.of_nat k')
  end.

(** [while (i > 0 && ofiles[i] == NULL) i--]. *)
Fixpoint last_file (ofiles : list (option Z)) (i : nat) : outcome Z :=
  match i with
  | O => Ret 0
  | S i' => let! x := aget ofiles (Z.of_nat i) in match x with None => last_file ofiles i' | Some _ => Ret (Z.of_nat i) end
  end.

Definition find_last_set (fd : filedesc) (last : Z) : outcome Z :=
  let off := Z.shiftr (last - 1) NDENTRYSHIFT in
  let! off := last_word (fd_lomap fd) (Z.to_nat (off + 1)) in
  if off <? 0 then Ret 0
  else
    let i := Z.shiftl (off + 1) NDENTRYSHIFT - 1 in
    let i := if last <=? i then last - 1 else i in
    last_file (fd_ofiles fd) (Z.to_nat i).

Definition bit (i : Z) : Z := u32 (Z.shiftl 1 (Z.land i NDENTRYMASK)).

Definition fd_used (fdp : filedesc) (fd : Z) : outcome filedesc :=
  let off := Z.shiftr fd NDENTRYSHIFT in
  let! x := aget (fd_lomap fdp) off in
  let x := Z.lor x (bit fd) in
  let! lo := aset (fd_lomap fdp) off x in
  let fdp := set_lomap lo fdp in
  let! fdp := (if x =? ALLONES then
      let! y := aget (fd_himap fdp) (Z.shiftr off NDENTRYSHIFT) in
      let! hi := aset (fd_himap fdp) (Z.shiftr off NDENTRYSHIFT) (Z.lor y (bit off)) in
      Ret (set_himap hi fdp)
    else Ret fdp) in
  Ret (if fd_lastfile fdp <? fd then set_lastfile fd fdp else fdp).

Definition fd_unused (fdp : filedesc) (fd : Z) : outcome filedesc :=
  let off := Z.shiftr fd NDENTRYSHIFT in
  let fdp := if fd <? fd_freefile fdp then set_freefile fd fdp else fdp in
  let! x := aget (fd_lomap fdp) off in
  let! fdp := (if x =? ALLONES then
      let! y := aget (fd_himap fdp) (Z.shiftr off NDENTRYSHIFT) in
      let! hi := aset (fd_himap fdp) (Z.shiftr off NDENTRYSHIFT) (Z.land y (Z.lnot (bit off))) in
      Ret (set_himap hi fdp)
    else Ret fdp) in
  let! lo := aset (fd_lomap fdp) off (Z.land x (Z.lnot (bit fd))) in
  let fdp := set_lomap lo fdp in
  if fd_lastfile fdp <? fd then Panic "fd_unused: fd_lastfile inconsistent"
  else if fd =? fd_lastfile fdp then
    let! l := find_last_set fdp fd in
    Ret (set_lastfile l fdp)
  else Ret fdp.

(** * Allocation *)

(** An error number, or the descriptor. *)
Inductive result := Err (e : Z) | Fd (i : Z).

Section Limits.
(** The limit of the process and that of the system. *)
Context (rlim_cur maxfiles : Z).

Definition fd_limit : Z := s32 (min (s32 rlim_cur) maxfiles).

(** The rounds of [fdalloc] after [restart]. *)
Fixpoint fdalloc_loop (fdp : filedesc) (want : Z) (fuel : nat) : outcome (result * filedesc) :=
  match fuel with
  | O => Spin
  | S fuel =>
      let lim := fd_limit in
      let last := s32 (min (fd_nfiles fdp) lim) in
      let i := if want <? fd_freefile fdp then fd_freefile fdp else want in
      let off := Z.shiftr i NDENTRYSHIFT in
      let fail := Ret (if lim <=? fd_nfiles fdp then Err EMFILE else Err ENOSPC, fdp) in
      let! new := find_next_zero (fd_himap fdp) 0 off (Z.shiftr (last + NDENTRIES - 1) NDENTRYSHIFT) in
      if negb (new =? -1) then
        let! i := find_next_zero (fd_lomap fdp) new (if off <? new then 0 else Z.land i NDENTRYMASK) NDENTRIES in
        if i =? -1 then fdalloc_loop fdp (Z.shiftl (new + 1) NDENTRYSHIFT) fuel
        else
          let i := i + Z.shiftl new NDENTRYSHIFT in
          if i <? last then
            let! fdp := fd_used fdp i in
            let fdp := if want <=? fd_freefile fdp then set_freefile i fdp else fdp in
            Ret (Fd i, fdp)
          else fail
      else fail
  end.

(** [want] grows past a block with each round, so a round per block is enough. *)
Definition fdalloc (fdp : filedesc) (want : Z) : outcome (result * filedesc) :=
  fdalloc_loop fdp want (S (Z.to_nat (NDLOSLOTS (fd_nfiles fdp)))).
End Limits.

(** * Growth *)

(** [bcopy] of [n] elements into a larger array whose rest is zeroed. *)
Definition grown {A} (l : list A) (n n' : Z) (zero : A) : outcome (list A) :=
  let! old := aslice l 0 n in
  if n' <? n then Fault OutOfBounds else Ret (old ++ replicate (Z.to_nat (n' - n)) zero).

Definition fdexpand (fdp : filedesc) : outcome filedesc :=
  let nfiles := if fd_nfiles fdp <? NDEXTENT then NDEXTENT else 2 * fd_nfiles fdp in
  let! newofile := grown (fd_ofiles fdp) (fd_nfiles fdp) nfiles None in
  let! newofileflags := grown (fd_ofileflags fdp) (fd_nfiles fdp) nfiles 0 in
  let! fdp := (if NDHISLOTS (fd_nfiles fdp) <? NDHISLOTS nfiles then
      let! newhimap := grown (fd_himap fdp) (NDHISLOTS (fd_nfiles fdp)) (NDHISLOTS nfiles) 0 in
      let! newlomap := grown (fd_lomap fdp) (NDLOSLOTS (fd_nfiles fdp)) (NDLOSLOTS nfiles) 0 in
      Ret (set_lomap newlomap (set_himap newhimap fdp))
    else Ret fdp) in
  Ret (set_nfiles nfiles (set_ofileflags newofileflags (set_ofiles newofile fdp))).

(** A table as [fdinit] makes it: [struct filedesc0], zeroed. *)
Definition fdinit : filedesc :=
  Filedesc (replicate (Z.to_nat NDFILE) None) (replicate (Z.to_nat NDFILE) 0)
    (replicate (Z.to_nat (Z.shiftr NDENTRIES NDENTRYSHIFT)) 0) (replicate (Z.to_nat NDENTRIES) 0) NDFILE 0 0 1 (-1).

Definition fdremove (fdp : filedesc) (fd : Z) : outcome filedesc :=
  let! l := aset (fd_ofiles fdp) fd None in
  fd_unused (set_ofiles l fdp) fd.

(** * Copy *)

(** [while (i >= 2 * NDEXTENT && i > newfdp->fd_lastfile * 2) i /= 2]. *)
Fixpoint shrink (lastfile i : Z) (fuel : nat) : outcome Z :=
  match fuel with
  | O => Spin
  | S fuel => if (2 * NDEXTENT <=? i) && (lastfile * 2 <? i) then shrink lastfile (Z.quot i 2) fuel else Ret i
  end.

(** The size of the copy of a table. *)
Definition fdcopy_size (fdp : filedesc) : outcome Z :=
  if fd_lastfile fdp <? NDFILE then Ret NDFILE else shrink (fd_lastfile fdp) (fd_nfiles fdp) (S (Z.to_nat (fd_nfiles fdp))).

(** The arrays of the copy, up to the descriptors that it cannot have. *)
Definition fdcopy_table (fdp : filedesc) : outcome filedesc :=
  let! i := fdcopy_size fdp in
  let! ofiles := aslice (fd_ofiles fdp) 0 i in
  let! ofileflags := aslice (fd_ofileflags fdp) 0 i in
  let! himap := aslice (fd_himap fdp) 0 (NDHISLOTS i) in
  let! lomap := aslice (fd_lomap fdp) 0 (NDLOSLOTS i) in
  Ret (Filedesc ofiles ofileflags himap lomap i (fd_lastfile fdp) (fd_freefile fdp) 1 (fd_knlistsize fdp)).
