(* ===== verification/FdMap.v ===== *)
(** * The descriptor bitmaps

    The bits of an array of words, and what the two searches of
    [kern/kern_descrip.c] find in it. *)

From S2P Require Import Prelude Libkern Filedesc.

Definition bitw (l : list Z) (i : Z) : bool := Z.testbit (nth (Z.to_nat (i `div` 32)) l 0) (i `mod` 32).

Definition words (l : list Z) : Prop := Forall (is_u 32) l.

Lemma words_nth l n : words l -> is_u 32 (nth n l 0).
Proof.
  intros H. destruct (decide (n < length l)%nat).
  - by apply Forall_nth.
  - rewrite nth_overflow by lia. done.
Qed.

Lemma aget_nth l i : 0 <= i < Z.of_nat (length l) -> aget l i = Ret (nth (Z.to_nat i) l 0).
Proof. intros Hi. destruct (aget_bounds l i Hi) as (x & -> & Hx). by rewrite (nth_lookup_Some l _ 0 x Hx). Qed.

Lemma ALLONES_bit j : 0 <= j < 32 -> Z.testbit ALLONES j = true.
Proof. intros Hj. change ALLONES with (Z.ones 32). apply Z.ones_spec_low. lia. Qed.

Lemma full_bits w : is_u 32 w -> w = ALLONES <-> forall j, 0 <= j < 32 -> Z.testbit w j = true.
Proof.
  intros Hw. split; [intros -> j Hj; by apply ALLONES_bit|]. intros H. apply Z.bits_inj'. intros j Hj.
  destruct (decide (j < 32)).
  - rewrite H, ALLONES_bit by lia. done.
  - rewrite !(is_u_high 32) by (done || lia). done.
Qed.

Lemma found_spec off sub : is_u 32 sub -> sub <> ALLONES ->
  exists z, found off sub = 32 * off + z /\ 0 <= z < 32 /\ Z.testbit sub z = false /\
  forall j, 0 <= j < z -> Z.testbit sub j = true.
Proof.
  intros Hs Hn. set (n := u32 (Z.lnot sub)).
  assert (forall j, 0 <= j < 32 -> Z.testbit n j = negb (Z.testbit sub j)) as Hb.
  { intros j Hj. unfold n. by rewrite u32_testbit, Z.lnot_spec by lia. }
  assert (n <> 0) as H0.
  { intros E. apply Hn, full_bits; [done|]. intros j Hj. specialize (Hb j Hj).
    rewrite E, Z.bits_0 in Hb. by destruct (Z.testbit sub j). }
  destruct (ffs_low n (u32_range _) H0) as (Hz & Ht & Hl).
  assert (ffs n - 1 < 32).
  { destruct (decide (ffs n - 1 < 32)); [done|]. rewrite (is_u_high 32) in Ht; [done|lia|apply u32_range|lia]. }
  exists (ffs n - 1). conj; [|lia|lia|..].
  - unfold found, NDENTRYSHIFT. fold n. rewrite Z.shiftl_mul_pow2 by lia. lia.
  - rewrite Hb in Ht by lia. by destruct (Z.testbit sub _).
  - intros j Hj. specialize (Hl j Hj). rewrite Hb in Hl by lia. by destruct (Z.testbit sub j).
Qed.

Lemma bitw_word l i j : 0 <= i -> 0 <= j < 32 -> bitw l (32 * i + j) = Z.testbit (nth (Z.to_nat i) l 0) j.
Proof.
  intros Hi Hj. unfold bitw. replace ((32 * i + j) `div` 32) with i by dlia.
  by replace ((32 * i + j) `mod` 32) with j by dlia.
Qed.

Lemma full_word l i : words l -> 0 <= i ->
  nth (Z.to_nat i) l 0 = ALLONES <-> forall j, 32 * i <= j < 32 * i + 32 -> bitw l j = true.
Proof.
  intros Hw Hi. rewrite full_bits by (by apply words_nth). split; intros H j Hj.
  - replace j with (32 * i + (j - 32 * i)) by lia. rewrite bitw_word by lia. apply H. lia.
  - rewrite <- bitw_word by lia. apply H. lia.
Qed.

Lemma bitw_outside l i : 32 * Z.of_nat (length l) <= i -> bitw l i = false.
Proof. intros Hi. unfold bitw. rewrite nth_overflow by dlia. apply Z.bits_0. Qed.

(** The first zero bit of a word, among those of an array. *)
Lemma found_bit l p off z :
  words l -> 0 <= p -> 0 <= off -> nth (Z.to_nat (p + off)) l 0 <> ALLONES ->
  32 * off <= z -> bitw l (32 * p + z) = false -> (forall j, 32 * off <= j < z -> bitw l (32 * p + j) = true) ->
  found off (nth (Z.to_nat (p + off)) l 0) = z.
Proof.
  intros Hw Hp Ho Hn Hz Hb Ha. destruct (found_spec off _ (words_nth l _ Hw) Hn) as (y & -> & Hy & Hf & Ht).
  destruct (Z.lt_trichotomy (32 * off + y) z) as [H|[H|H]]; [|done|]; exfalso.
  - specialize (Ha (32 * off + y) ltac:(lia)).
    replace (32 * p + (32 * off + y)) with (32 * (p + off) + y) in Ha by lia.
    rewrite bitw_word in Ha by lia. congruence.
  - specialize (Ht (z - 32 * off) ltac:(lia)). rewrite <- bitw_word in Ht by lia.
    replace (32 * (p + off) + (z - 32 * off)) with (32 * p + z) in Ht by lia. congruence.
Qed.

Lemma scan_words_found l p k off z :
  words l -> 0 <= p -> 0 <= off -> 32 * off <= z < 32 * (off + Z.of_nat k) -> p + z `div` 32 < Z.of_nat (length l) ->
  bitw l (32 * p + z) = false -> (forall j, 32 * off <= j < z -> bitw l (32 * p + j) = true) ->
  scan_words l p off k = Ret z.
Proof.
  intros Hw Hp Ho Hz Hl Hb Ha. revert off Ho Hz Ha. induction k as [|k IH]; intros off Ho Hz Ha; [lia|].
  cbn [scan_words]. rewrite aget_nth by dlia. cbn [bind]. case_if; boolify.
  - f_equal. by apply found_bit; [..|lia| |].
  - assert (32 * (off + 1) <= z).
    { destruct (decide (32 * (off + 1) <= z)); [done|].
      pose proof (proj1 (full_word l (p + off) Hw ltac:(lia)) ltac:(done) (32 * p + z) ltac:(lia)). congruence. }
    apply IH; [lia..|]. intros j Hj. apply Ha. lia.
Qed.

Lemma scan_words_none l p k off :
  words l -> 0 <= p -> 0 <= off -> p + off + Z.of_nat k <= Z.of_nat (length l) ->
  (forall j, 32 * off <= j < 32 * (off + Z.of_nat k) -> bitw l (32 * p + j) = true) ->
  scan_words l p off k = Ret (-1).
Proof.
  intros Hw Hp. revert off. induction k as [|k IH]; intros off Ho Hl Ha; [done|].
  cbn [scan_words]. rewrite aget_nth by lia. cbn [bind].
  assert (nth (Z.to_nat (p + off)) l 0 = ALLONES) as ->.
  { apply full_word; [done|lia|]. intros j Hj. replace j with (32 * p + (j - 32 * p)) by lia. apply Ha. lia. }
  rewrite Z.eqb_refl. cbn [negb]. apply IH; [lia..|]. intros j Hj. apply Ha. lia.
Qed.

(** * [find_next_zero] *)

Lemma entry_off want : Z.shiftr want NDENTRYSHIFT = want `div` 32.
Proof. unfold NDENTRYSHIFT. by rewrite Z.shiftr_div_pow2 by lia. Qed.

Lemma entry_index want : Z.land want NDENTRYMASK = want `mod` 32.
Proof. change NDENTRYMASK with (2 ^ 5 - 1). by rewrite land_ones_eq by lia. Qed.

(** The bits below [i] of the first word are taken for ones. *)
Lemma masked_bit x i j : 0 <= i < 32 -> 0 <= j < 32 ->
  Z.testbit (Z.lor x (Z.shiftr ALLONES (NDENTRIES - i))) j = (j <? i) || Z.testbit x j.
Proof.
  intros Hi Hj. rewrite Z.lor_spec, Z.shiftr_spec by lia. unfold NDENTRIES. rewrite orb_comm. f_equal.
  destruct (Z.ltb_spec j i).
  - apply ALLONES_bit. lia.
  - apply (is_u_high 32); [lia|done|lia].
Qed.

Lemma masked_range x i : is_u 32 x -> 0 <= i < 32 -> is_u 32 (Z.lor x (Z.shiftr ALLONES (NDENTRIES - i))).
Proof. intros Hx Hi. apply is_u_lor; [lia|done|]. apply is_u_shiftr; [unfold NDENTRIES; lia|done]. Qed.

Lemma find_next_zero_found l p want bits z :
  words l -> 0 <= p -> 0 <= want <= bits -> want <= z < 32 * NDLOSLOTS bits -> p + z `div` 32 < Z.of_nat (length l) ->
  bitw l (32 * p + z) = false -> (forall j, want <= j < z -> bitw l (32 * p + j) = true) ->
  find_next_zero l p want bits = Ret z.
Proof.
  intros Hw Hp Hwant Hz Hl Hb Ha. unfold find_next_zero. rewrite entry_off, entry_index.
  destruct (Z.ltb_spec bits want); [lia|]. set (off := want `div` 32). set (i := want `mod` 32).
  assert (want = 32 * off + i /\ 0 <= i < 32 /\ 0 <= off) as (Ewant & Hi & Ho) by (subst off i; dlia).
  clearbody off i. subst want. assert (off <= z `div` 32) by dlia. case_if; boolify.
  2: { apply scan_words_found; try done; [dlia|]. intros j Hj. apply Ha. lia. }
  rewrite aget_nth by lia. cbn [bind]. set (x := nth (Z.to_nat (p + off)) l 0).
  pose proof (words_nth l (Z.to_nat (p + off)) Hw) as Hx. fold x in Hx.
  assert (forall j, 0 <= j < 32 -> Z.testbit x j = bitw l (32 * p + (32 * off + j))) as Hxb.
  { intros j Hj. replace (32 * p + (32 * off + j)) with (32 * (p + off) + j) by lia. by rewrite bitw_word by lia. }
  case_if; boolify.
  - f_equal. destruct (found_spec off _ (masked_range x i Hx Hi)) as (y & -> & Hy & Hf & Ht); [done|].
    rewrite masked_bit, Hxb in Hf by lia. apply orb_false_iff in Hf as [Hf1 Hf2]. boolify.
    destruct (Z.lt_trichotomy (32 * off + y) z) as [H'|[H'|H']]; [|done|]; exfalso.
    + rewrite Ha in Hf2 by lia. done.
    + specialize (Ht (z - 32 * off) ltac:(lia)). rewrite masked_bit, Hxb in Ht by lia.
      replace (32 * off + (z - 32 * off)) with z in Ht by lia. rewrite Hb, orb_false_r in Ht. boolify. lia.
  - assert (32 * (off + 1) <= z).
    { destruct (decide (32 * (off + 1) <= z)); [done|exfalso].
      pose proof (proj1 (full_bits _ (masked_range x i Hx Hi)) ltac:(done) (z - 32 * off) ltac:(lia)) as Ht.
      rewrite masked_bit, Hxb in Ht by lia. replace (32 * off + (z - 32 * off)) with z in Ht by lia.
      rewrite Hb, orb_false_r in Ht. boolify. lia. }
    apply scan_words_found; try done; [lia|dlia|]. intros j Hj. apply Ha. lia.
Qed.

Lemma find_next_zero_none l p want bits :
  words l -> 0 <= p -> 0 <= want -> want `div` 32 < NDLOSLOTS bits -> p + NDLOSLOTS bits <= Z.of_nat (length l) ->
  (forall j, want <= j < 32 * NDLOSLOTS bits -> bitw l (32 * p + j) = true) ->
  find_next_zero l p want bits = Ret (-1).
Proof.
  intros Hw Hp Hwant Hm Hl Ha. unfold find_next_zero. rewrite entry_off, entry_index. case_if; [done|].
  set (off := want `div` 32) in *. set (i := want `mod` 32).
  assert (want = 32 * off + i /\ 0 <= i < 32 /\ 0 <= off) as (Ewant & Hi & Ho) by (subst off i; dlia).
  clearbody off i. subst want. case_if; boolify.
  2: { apply scan_words_none; try done; [lia|]. intros j Hj. apply Ha. lia. }
  rewrite aget_nth by lia. cbn [bind]. set (x := nth (Z.to_nat (p + off)) l 0).
  pose proof (words_nth l (Z.to_nat (p + off)) Hw) as Hx. fold x in Hx.
  assert (Z.lor x (Z.shiftr ALLONES (NDENTRIES - i)) = ALLONES) as ->.
  { apply full_bits; [by apply masked_range|]. intros j Hj. rewrite masked_bit by lia. apply orb_true_iff.
    destruct (Z.ltb_spec j i); [by left|right]. unfold x. rewrite <- bitw_word by lia.
    replace (32 * (p + off) + j) with (32 * p + (32 * off + j)) by lia. apply Ha. lia. }
  rewrite Z.eqb_refl. cbn [negb]. apply scan_words_none; try done; [lia..|]. intros j Hj. apply Ha. lia.
Qed.

(** * Setting and clearing a bit *)

Lemma bit_pow i : bit i = 2 ^ (i `mod` 32).
Proof.
  unfold bit. rewrite entry_index, Z.shiftl_1_l. apply wrap_small. unfold is_u.
  assert (0 <= i `mod` 32 <= 31) by dlia. split; [apply Z.pow_nonneg; lia|]. apply Z.pow_lt_mono_r; lia.
Qed.

Lemma bit_range i : is_u 32 (bit i).
Proof. apply u32_range. Qed.

Lemma bit_testbit i j : 0 <= j -> Z.testbit (bit i) j = (i `mod` 32 =? j).
Proof. intros Hj. rewrite bit_pow. assert (0 <= i `mod` 32) by dlia. by rewrite Z.pow2_bits_eqb by lia. Qed.

Lemma nth_insert {A} (l : list A) (i j : nat) x d :
  (i < length l)%nat -> nth j (<[i := x]> l) d = if decide (j = i) then x else nth j l d.
Proof.
  intros Hi. rewrite !nth_lookup. case_decide.
  - subst. by rewrite list_lookup_insert_eq.
  - by rewrite list_lookup_insert_ne by done.
Qed.

(** [l[i / 32] = y], where [y] differs from the word in the bit of [i] only. *)
Lemma bitw_update l i y b :
  0 <= i < 32 * Z.of_nat (length l) ->
  (forall j, 0 <= j < 32 -> Z.testbit y j = if j =? i `mod` 32 then b else Z.testbit (nth (Z.to_nat (i `div` 32)) l 0) j) ->
  forall j, 0 <= j -> bitw (<[Z.to_nat (i `div` 32) := y]> l) j = if j =? i then b else bitw l j.
Proof.
  intros Hi Hy j Hj. unfold bitw. rewrite nth_insert by dlia. case_decide as E.
  - rewrite Hy, E by dlia. assert (j `div` 32 = i `div` 32) as E' by dlia.
    destruct (Z.eqb_spec (j `mod` 32) (i `mod` 32)), (Z.eqb_spec j i); try done; dlia.
  - destruct (Z.eqb_spec j i); [|done]. subst. done.
Qed.

Lemma bitw_set l i : 0 <= i < 32 * Z.of_nat (length l) ->
  forall j, 0 <= j ->
  bitw (<[Z.to_nat (i `div` 32) := Z.lor (nth (Z.to_nat (i `div` 32)) l 0) (bit i)]> l) j = if j =? i then true else bitw l j.
Proof.
  intros Hi. apply bitw_update; [done|]. intros j Hj. rewrite Z.lor_spec, bit_testbit by lia. rewrite (Z.eqb_sym (i `mod` 32)).
  destruct (j =? _); [apply orb_true_r|apply orb_false_r].
Qed.

Lemma bitw_clear l i : 0 <= i < 32 * Z.of_nat (length l) ->
  forall j, 0 <= j ->
  bitw (<[Z.to_nat (i `div` 32) := Z.land (nth (Z.to_nat (i `div` 32)) l 0) (Z.lnot (bit i))]> l) j =
  if j =? i then false else bitw l j.
Proof.
  intros Hi. apply bitw_update; [done|]. intros j Hj. rewrite Z.land_spec, Z.lnot_spec, bit_testbit by lia.
  rewrite (Z.eqb_sym (i `mod` 32)). destruct (j =? _); [apply andb_false_r|apply andb_true_r].
Qed.

Lemma words_set l i n : words l -> words (<[n := Z.lor (nth n l 0) (bit i)]> l).
Proof. intros H. apply Forall_insert; [done|]. apply is_u_lor; [lia|by apply words_nth|apply bit_range]. Qed.

Lemma words_clear l i n : words l -> words (<[n := Z.land (nth n l 0) (Z.lnot (bit i))]> l).
Proof.
  intros H. apply Forall_insert; [done|]. pose proof (words_nth l n H) as Hx. apply is_u_bits; [lia|].
  split; [apply Z.land_nonneg; left; apply Hx|]. intros j Hj. by rewrite Z.land_spec, (is_u_high 32) by (done || lia).
Qed.
