(* ===== verification/FdTable.v ===== *)
(** * The invariant of a descriptor table

    The two bitmaps, the hints [fd_freefile] and [fd_lastfile] and the lengths
    of the arrays; [fd_used], [fd_unused] and [find_last_set] keep them. *)

From S2P Require Import Prelude Libkern Filedesc FdMap.

(** Descriptor [fd] is marked, and the file it holds. *)
Definition used (f : filedesc) (fd : Z) : bool := bitw (fd_lomap f) fd.
Definition slot (f : filedesc) (fd : Z) : option Z := nth (Z.to_nat fd) (fd_ofiles f) None.

(** The sizes [fdinit] and [fdexpand] give to a table, up to the last one for
    which the upper bitmap has a bit to spare. *)
Definition fd_sizes : list Z := [20; 50; 100; 200; 400; 800; 1600; 3200; 6400; 12800].

Record bitmaps (f : filedesc) : Prop := {
  bm_size : In (fd_nfiles f) fd_sizes;
  bm_ofiles : Z.of_nat (length (fd_ofiles f)) = fd_nfiles f;
  bm_flags : Z.of_nat (length (fd_ofileflags f)) = fd_nfiles f;
  bm_lolen : Z.of_nat (length (fd_lomap f)) = NDLOSLOTS (fd_nfiles f);
  bm_hilen : Z.of_nat (length (fd_himap f)) = NDHISLOTS (fd_nfiles f);
  bm_lo : words (fd_lomap f);
  bm_hi : words (fd_himap f);
  bm_used : forall fd, 0 <= fd -> used f fd = true -> fd < fd_nfiles f;
  bm_full : forall b, 0 <= b < NDLOSLOTS (fd_nfiles f) ->
    bitw (fd_himap f) b = (nth (Z.to_nat b) (fd_lomap f) 0 =? ALLONES);
  bm_free0 : 0 <= fd_freefile f;
  bm_free : forall fd, 0 <= fd < fd_freefile f -> used f fd = true;
  bm_last0 : 0 <= fd_lastfile f < fd_nfiles f;
  bm_last : forall fd, 0 <= fd -> used f fd = true -> fd <= fd_lastfile f;
  bm_lastused : fd_lastfile f = 0 \/ used f (fd_lastfile f) = true;
}.

(** The marks are those of the open descriptors, except at [i]. *)
Definition agrees_but (i : Z) (f : filedesc) : Prop :=
  forall fd, 0 <= fd -> fd <> i -> used f fd = bool_decide (is_Some (slot f fd)).
Definition agrees (f : filedesc) : Prop :=
  forall fd, 0 <= fd -> used f fd = bool_decide (is_Some (slot f fd)).

Definition table_ok (f : filedesc) : Prop := bitmaps f /\ agrees f.

Lemma size_facts n : In n fd_sizes ->
  20 <= n <= 12800 /\ NDLOSLOTS n = 32 * NDHISLOTS n /\ NDREDUCE n = (n + 31) `div` 32 /\
  NDREDUCE n < NDLOSLOTS n /\ 1 <= NDHISLOTS n <= 13.
Proof. cbn [In fd_sizes]. intros H. repeat destruct H as [<- | H]; try done; vm_compute; repeat split; congruence. Qed.

(** The size of the lower bitmap in bits, and the marks it can hold. *)
Lemma size_bits f : bitmaps f -> fd_nfiles f < 32 * Z.of_nat (length (fd_lomap f)).
Proof. intros H. rewrite (bm_lolen f H). destruct (size_facts _ (bm_size f H)) as (? & ? & ? & ? & ?). dlia. Qed.

Lemma used_outside f fd : bitmaps f -> fd_nfiles f <= fd -> used f fd = false.
Proof.
  intros H Hfd. destruct (used f fd) eqn:E; [|done]. pose proof (size_facts _ (bm_size f H)).
  apply (bm_used f H) in E; lia.
Qed.

Lemma slot_outside f fd : bitmaps f -> fd_nfiles f <= fd -> slot f fd = None.
Proof. intros H Hfd. unfold slot. apply nth_overflow. pose proof (bm_ofiles f H). lia. Qed.

Lemma agrees_agrees_but f i : agrees f -> agrees_but i f.
Proof. intros H fd H0 _. by apply H. Qed.

Lemma free_le_size f : bitmaps f -> fd_freefile f <= fd_nfiles f.
Proof.
  intros H. pose proof (size_facts _ (bm_size f H)). destruct (decide (fd_freefile f <= fd_nfiles f)); [done|].
  pose proof (bm_free f H (fd_nfiles f) ltac:(lia)) as E. apply (bm_used f H) in E; lia.
Qed.

(** * Marking a descriptor *)

Definition mark (f : filedesc) (fd : Z) (b : bool) (f' : filedesc) : Prop :=
  forall j, 0 <= j -> used f' j = if j =? fd then b else used f j.

(** Everything but the bitmaps and the hints. *)
Definition same_files (f f' : filedesc) : Prop :=
  fd_ofiles f' = fd_ofiles f /\ fd_ofileflags f' = fd_ofileflags f /\ fd_nfiles f' = fd_nfiles f /\
  fd_refcnt f' = fd_refcnt f /\ fd_knlistsize f' = fd_knlistsize f.

(** The upper bitmap follows the lower when the word of [fd] changes to [x]. *)
Lemma full_after lo hi off x b :
  0 <= off < Z.of_nat (length lo) -> Z.of_nat (length lo) = 32 * Z.of_nat (length hi) ->
  (forall i, 0 <= i < Z.of_nat (length lo) -> bitw hi i = (nth (Z.to_nat i) lo 0 =? ALLONES)) ->
  forall hi', (forall j, 0 <= j -> bitw hi' j = if j =? off then b else bitw hi j) -> b = (x =? ALLONES) ->
  forall i, 0 <= i < Z.of_nat (length lo) -> bitw hi' i = (nth (Z.to_nat i) (<[Z.to_nat off := x]> lo) 0 =? ALLONES).
Proof.
  intros Ho Hl Hf hi' Hh -> i Hi. rewrite Hh, nth_insert by lia.
  destruct (Z.eqb_spec i off) as [->|]; [by rewrite decide_True|]. rewrite decide_False by lia. by apply Hf.
Qed.

Lemma lor_full_iff x i : is_u 32 x -> (x =? ALLONES) = true -> (Z.lor x (bit i) =? ALLONES) = true.
Proof.
  intros Hx E. boolify. subst x. apply Z.eqb_eq. apply full_bits; [apply is_u_lor; [lia|done|apply bit_range]|].
  intros j Hj. by rewrite Z.lor_spec, ALLONES_bit by lia.
Qed.

Lemma cleared_not_full x i : (Z.land x (Z.lnot (bit i)) =? ALLONES) = false.
Proof.
  apply Z.eqb_neq. intros E. assert (0 <= i `mod` 32 < 32) by dlia.
  apply (f_equal (fun z => Z.testbit z (i `mod` 32))) in E. rewrite ALLONES_bit in E by lia.
  rewrite Z.land_spec, Z.lnot_spec, bit_testbit, Z.eqb_refl, andb_false_r in E by lia. done.
Qed.

Lemma fd_used_spec f fd :
  bitmaps f -> 0 <= fd < fd_nfiles f ->
  exists f', fd_used f fd = Ret f' /\ bitmaps f' /\ mark f fd true f' /\ same_files f f' /\
  fd_freefile f' = fd_freefile f /\ fd_lastfile f' = Z.max (fd_lastfile f) fd.
Proof.
  intros H Hfd. pose proof (size_bits f H) as Hb. pose proof (bm_lolen f H) as Hlo. pose proof (bm_hilen f H) as Hhi.
  destruct (size_facts _ (bm_size f H)) as (Hn & Hsl & Hr & Hslack & Hh).
  unfold fd_used. rewrite entry_off. set (off := fd `div` 32). assert (0 <= off < Z.of_nat (length (fd_lomap f))) by (subst off; dlia).
  rewrite aget_nth by done. cbn [bind]. rewrite aset_bounds by done. cbn [bind].
  set (x := nth (Z.to_nat off) (fd_lomap f) 0). set (lo := <[Z.to_nat off := _]> (fd_lomap f)).
  assert (forall j, 0 <= j -> bitw lo j = if j =? fd then true else bitw (fd_lomap f) j) as Hm.
  { intros j Hj. apply bitw_set; lia. }
  assert (is_u 32 x) as Hx by (apply words_nth, H).
  set (g := if Z.lor x (bit fd) =? ALLONES then _ else _).
  assert (exists hi, g = Ret (set_himap hi (set_lomap lo f)) /\ length hi = length (fd_himap f) /\ words hi /\
    forall i, 0 <= i < Z.of_nat (length (fd_lomap f)) -> bitw hi i = (nth (Z.to_nat i) lo 0 =? ALLONES)) as (hi & -> & Elen & Whi & Hfull).
  { unfold g. rewrite entry_off. simpl fd_himap. assert (0 <= off `div` 32 < Z.of_nat (length (fd_himap f))) by dlia. case_if.
    - rewrite aget_nth by done. cbn [bind]. rewrite aset_bounds by done. cbn [bind]. eexists. split; [done|]. rewrite length_insert. split; [done|].
      split; [apply words_set, H|]. apply (full_after _ (fd_himap f) off _ true); try done; [lia| |].
      + intros i Hi. apply H. lia.
      + intros j Hj. apply bitw_set; [lia|done].
    - exists (fd_himap f). split; [by destruct f|]. split; [done|]. split; [apply H|].
      apply (full_after _ (fd_himap f) off _ false); try done; [lia| |].
      + intros i Hi. apply H. lia.
      + intros j Hj. destruct (Z.eqb_spec j off); [|done]. subst j. rewrite (bm_full f H) by lia. fold x.
        destruct (x =? ALLONES) eqn:E; [|done]. apply (lor_full_iff _ fd Hx) in E. congruence. }
  cbn [bind]. exists (set_lastfile (Z.max (fd_lastfile f) fd) (set_himap hi (set_lomap lo f))).
  split; [f_equal; case_if; boolify; simpl in *; unfold set_lastfile, set_himap, set_lomap; simpl; f_equal; lia|].
  split; [|unfold mark, same_files, used; simpl; conj; done].
  assert (length lo = length (fd_lomap f)) as Ell by apply length_insert.
  assert (forall j, 0 <= j -> bitw (fd_lomap f) j = true -> bitw lo j = true) as Hmono.
  { intros j Hj E. rewrite Hm by done. by case_if. }
  assert (forall j, 0 <= j -> bitw lo j = true -> j = fd \/ bitw (fd_lomap f) j = true) as Hinv.
  { intros j Hj. rewrite Hm by done. destruct (Z.eqb_spec j fd); auto. }
  constructor; unfold used; simpl; try apply H; try congruence; try lia.
  - by apply words_set, H.
  - intros j Hj E. destruct (Hinv j Hj E) as [->|E']; [lia|]. by apply (bm_used f H).
  - intros b Hb'. apply Hfull. lia.
  - intros j Hj. apply Hmono; [lia|]. by apply (bm_free f H).
  - pose proof (bm_last0 f H). lia.
  - intros j Hj E. destruct (Hinv j Hj E) as [->|E']; [lia|]. apply (bm_last f H) in E'; lia.
  - destruct (Z.max_spec (fd_lastfile f) fd) as [[Hle ->]|[Hle ->]].
    + right. by rewrite Hm, Z.eqb_refl by lia.
    + destruct (bm_lastused f H); [by left|right]. by apply Hmono; [apply H|].
Qed.

(** * The last descriptor *)

Lemma last_word_spec l k : (k <= length l)%nat ->
  exists off, last_word l k = Ret off /\ -1 <= off < Z.of_nat k /\
  forall n, off < n < Z.of_nat k -> nth (Z.to_nat n) l 0 = 0.
Proof.
  induction k as [|k IH]; intros Hk; [exists (-1); conj; [done|lia|lia|intros n Hn; lia]|]. cbn [last_word].
  rewrite aget_nth by lia. cbn [bind]. case_if; boolify.
  - destruct IH as (off & -> & Ho & Hz); [lia|]. exists off. conj; [done|lia..|]. intros n Hn.
    destruct (decide (n = Z.of_nat k)) as [->|]; [done|]. apply Hz. lia.
  - exists (Z.of_nat k). conj; [done|lia|lia|intros n Hn; lia].
Qed.

Lemma last_file_spec (l : list (option Z)) i : (i < length l)%nat ->
  exists r, last_file l i = Ret r /\ 0 <= r <= Z.of_nat i /\
  (r = 0 \/ is_Some (nth (Z.to_nat r) l None)) /\ forall n, r < n <= Z.of_nat i -> nth (Z.to_nat n) l None = None.
Proof.
  induction i as [|i IH]; intros Hi; [exists 0; conj; [done|lia|lia|by left|intros n Hn; lia]|].
  cbn [last_file]. destruct (aget_bounds l (Z.of_nat (S i))) as (x & -> & Hx); [lia|]. cbn [bind].
  apply (nth_lookup_Some l _ None) in Hx. destruct x as [x|].
  - exists (Z.of_nat (S i)). conj; [done|lia|lia| |intros n Hn; lia]. right. rewrite Hx. by eexists.
  - destruct IH as (r & -> & Hr & Hd & Hz); [lia|]. exists r. conj; [done|lia|lia|done|]. intros n Hn.
    destruct (decide (n = Z.of_nat (S i))) as [->|]; [done|]. apply Hz. lia.
Qed.

Lemma zero_word l n j : 0 <= j -> nth (Z.to_nat n) l 0 = 0 -> n = j `div` 32 -> bitw l j = false.
Proof. intros Hj E ->. unfold bitw. by rewrite E, Z.bits_0. Qed.

Lemma find_last_set_spec f last :
  fd_nfiles f < 32 * Z.of_nat (length (fd_lomap f)) -> Z.of_nat (length (fd_ofiles f)) = fd_nfiles f ->
  agrees_but last f -> 0 <= last < fd_nfiles f ->
  exists l, find_last_set f last = Ret l /\ 0 <= l < fd_nfiles f /\ (l = 0 \/ used f l = true) /\ l <= last /\
  forall j, l < j < last -> used f j = false.
Proof.
  intros Hb Hof Ha Hl. unfold find_last_set. rewrite entry_off.
  destruct (last_word_spec (fd_lomap f) (Z.to_nat ((last - 1) `div` 32 + 1))) as (off & -> & Ho & Hz); [dlia|].
  cbn [bind]. assert (forall j, 0 <= j < last -> off < j `div` 32 -> used f j = false) as Hunused.
  { intros j Hj Hoff. eapply zero_word; [lia| |done]. apply Hz. dlia. }
  case_if; boolify.
  - exists 0. conj; try done; [lia|by left|lia|]. intros j Hj. apply Hunused; [lia|]. dlia.
  - unfold NDENTRYSHIFT. rewrite Z.shiftl_mul_pow2 by lia. set (i := if _ <=? _ then _ else _).
    assert (i < last /\ 0 <= i /\ forall j, 0 <= j < last -> i < j -> off < j `div` 32) as (Hi & Hi0 & Hj).
    { unfold i. case_if; boolify; conj; try dlia; intros; dlia. }
    clearbody i. destruct (last_file_spec (fd_ofiles f) (Z.to_nat i)) as (r & -> & Hr & Hd & Hn); [lia|].
    exists r. conj; try lia; [done| |].
    + destruct Hd as [->|Hd]; [by left|right]. rewrite Ha by lia. by apply bool_decide_eq_true_2.
    + intros j Hj'. destruct (decide (i < j)); [apply Hunused; [lia|]; apply Hj; lia|].
      rewrite Ha by lia. apply bool_decide_eq_false_2. unfold slot. rewrite Hn by lia. by intros [? ?].
Qed.

(** [fd_unused]: the upper bitmap. *)
Lemma unused_himap f g off y :
  bitmaps f -> 0 <= off < Z.of_nat (length (fd_lomap f)) -> fd_himap g = fd_himap f ->
  let x := nth (Z.to_nat off) (fd_lomap f) 0 in
  exists hi,
    (if x =? ALLONES then
      let! y := aget (fd_himap g) (off `div` 32) in
      let! hi := aset (fd_himap g) (off `div` 32) (Z.land y (Z.lnot (bit off))) in Ret (set_himap hi g)
    else Ret g) = Ret (set_himap hi g) /\
    length hi = length (fd_himap f) /\ words hi /\
    forall i, 0 <= i < Z.of_nat (length (fd_lomap f)) ->
      bitw hi i = (nth (Z.to_nat i) (<[Z.to_nat off := Z.land x (Z.lnot (bit y))]> (fd_lomap f)) 0 =? ALLONES).
Proof.
  intros H Ho Eg x. pose proof (bm_lolen f H) as Hlo. pose proof (bm_hilen f H) as Hhi.
  destruct (size_facts _ (bm_size f H)) as (_ & Hsl & _). rewrite Eg. assert (0 <= off `div` 32 < Z.of_nat (length (fd_himap f))) by dlia.
  assert (forall hi, (forall j, 0 <= j -> bitw hi j = if j =? off then false else bitw (fd_himap f) j) ->
    forall i, 0 <= i < Z.of_nat (length (fd_lomap f)) ->
      bitw hi i = (nth (Z.to_nat i) (<[Z.to_nat off := Z.land x (Z.lnot (bit y))]> (fd_lomap f)) 0 =? ALLONES)) as Hfull.
  { intros hi Hb. apply (full_after _ (fd_himap f) off _ false); try done; [lia| |by rewrite cleared_not_full]. intros i Hi. apply H. lia. }
  case_if.
  - rewrite aget_nth by done. cbn [bind]. rewrite aset_bounds by done. cbn [bind]. eexists. split; [done|].
    rewrite length_insert. split; [done|]. split; [apply words_clear, H|]. apply Hfull. intros j Hj. apply bitw_clear; [lia|done].
  - exists (fd_himap f). split; [rewrite <- Eg; by destruct g|]. split; [done|]. split; [apply H|]. apply Hfull.
    intros j Hj. destruct (Z.eqb_spec j off); [|done]. subst j. by rewrite (bm_full f H) by lia.
Qed.

(** [fd_unused]: the last descriptor, once the mark of [fd] is gone. *)
Lemma unused_lastfile f g fd :
  bitmaps f -> agrees_but fd f -> 0 <= fd -> used f fd = true -> mark f fd false g -> same_files f g ->
  fd_lastfile g = fd_lastfile f -> length (fd_lomap g) = length (fd_lomap f) ->
  exists l, (if fd_lastfile g <? fd then Panic "fd_unused: fd_lastfile inconsistent"
    else if fd =? fd_lastfile g then let! l := find_last_set g fd in Ret (set_lastfile l g) else Ret g) = Ret (set_lastfile l g) /\
    0 <= l < fd_nfiles f /\ (l = 0 \/ used g l = true) /\ forall j, 0 <= j -> used g j = true -> j <= l.
Proof.
  intros H Ha Hfd Hu Hm (Eof & _ & En & _) El Ell. pose proof (size_bits f H) as Hb. pose proof (bm_used f H fd Hfd Hu) as Hfd'.
  assert (forall j, 0 <= j -> used g j = true -> j <> fd /\ used f j = true) as Hinv.
  { intros j Hj. rewrite Hm by done. by destruct (Z.eqb_spec j fd). }
  rewrite El. pose proof (bm_last f H fd Hfd Hu). destruct (Z.ltb_spec (fd_lastfile f) fd); [lia|].
  destruct (Z.eqb_spec fd (fd_lastfile f)) as [E|E].
  - destruct (find_last_set_spec g fd) as (l & -> & Hl0 & Hlu & Hle & Hl); try done; [rewrite Ell, En; lia|by rewrite Eof, En, (bm_ofiles f H)| |by rewrite En|].
    { intros j Hj Hne. rewrite Hm by done. destruct (Z.eqb_spec j fd); [done|]. unfold slot. rewrite Eof. by apply Ha. }
    exists l. conj; try done; [lia|lia|]. intros j Hj Hbj. destruct (Hinv j Hj Hbj) as [Hne Hbj'].
    pose proof (bm_last f H j Hj Hbj'). destruct (decide (j <= l)); [done|]. rewrite Hl in Hbj by lia. done.
  - exists (fd_lastfile f). split; [rewrite <- El; by destruct g|]. split; [apply H|]. split.
    + destruct (bm_lastused f H) as [?|E']; [by left|right]. rewrite Hm by (apply H). by destruct (Z.eqb_spec (fd_lastfile f) fd).
    + intros j Hj Hbj. apply (bm_last f H j Hj). by apply Hinv.
Qed.

Lemma fd_unused_spec f fd :
  bitmaps f -> agrees_but fd f -> 0 <= fd -> used f fd = true ->
  exists f', fd_unused f fd = Ret f' /\ bitmaps f' /\ mark f fd false f' /\ same_files f f' /\
  fd_freefile f' = Z.min (fd_freefile f) fd.
Proof.
  intros H Ha Hfd Hu. pose proof (size_bits f H) as Hb. pose proof (bm_used f H fd Hfd Hu) as Hfd'.
  pose proof (bm_lolen f H) as Hlo. pose proof (bm_hilen f H) as Hhi.
  destruct (size_facts _ (bm_size f H)) as (Hn & Hsl & Hr & Hslack & Hh).
  unfold fd_unused. rewrite entry_off. set (off := fd `div` 32).
  assert (0 <= off < Z.of_nat (length (fd_lomap f))) by (subst off; dlia).
  set (ff := Z.min (fd_freefile f) fd).
  replace (if fd <? fd_freefile f then set_freefile fd f else f) with (set_freefile ff f)
    by (case_if; boolify; destruct f; unfold set_freefile, ff; simpl in *; f_equal; lia).
  simpl fd_lomap. rewrite aget_nth by done. cbn [bind]. rewrite entry_off.
  destruct (unused_himap f (set_freefile ff f) off fd H) as (hi & -> & Elen & Whi & Hfull); [done|done|].
  cbn [bind]. simpl fd_lomap. rewrite aset_bounds by done. cbn [bind].
  set (x := nth (Z.to_nat off) (fd_lomap f) 0) in *. set (lo := <[Z.to_nat off := Z.land x (Z.lnot (bit fd))]> (fd_lomap f)) in *.
  assert (length lo = length (fd_lomap f)) as Ell by apply length_insert.
  set (f1 := set_lomap lo (set_himap hi (set_freefile ff f))).
  assert (forall j, 0 <= j -> bitw lo j = if j =? fd then false else bitw (fd_lomap f) j) as Hm.
  { intros j Hj. apply bitw_clear; lia. }
  destruct (unused_lastfile f f1 fd) as (l & -> & Hl0 & Hlu & Hl); try done.
  exists (set_lastfile l f1). split; [done|]. split; [|unfold mark, same_files, used; simpl; conj; done].
  constructor; unfold used in *; simpl in *; try apply H; try congruence; try done.
  - by apply words_clear, H.
  - intros j Hj. rewrite Hm by done. destruct (Z.eqb_spec j fd); [done|]. by apply (bm_used f H).
  - intros b Hb'. apply Hfull. lia.
  - pose proof (bm_free0 f H). unfold ff. lia.
  - intros j Hj. unfold ff in Hj. rewrite Hm by lia. destruct (Z.eqb_spec j fd); [lia|]. apply (bm_free f H). lia.
Qed.
