(* ===== verification/FdAlloc.v ===== *)
(** * The choice of a descriptor

    [fdalloc] finds the least free descriptor that is at least [want], or
    reports that there is none below the limit or below the size of the table;
    [fdexpand], [fdinit] and the copy of a table keep the invariant. *)

From S2P Require Import Prelude Libkern Filedesc FdMap FdTable.

(** The first of [n] values from [lo] that satisfies [P]. *)
Lemma least_in (P : Z -> bool) lo n :
  (exists z, lo <= z < lo + Z.of_nat n /\ P z = true /\ forall j, lo <= j < z -> P j = false) \/
  (forall j, lo <= j < lo + Z.of_nat n -> P j = false).
Proof.
  induction n as [|n [(z & Hz & HP & Hlt)|IH]]; [right; lia|left; exists z; conj; try done; lia|].
  destruct (P (lo + Z.of_nat n)) eqn:E.
  - left. exists (lo + Z.of_nat n). conj; [lia..|done|]. intros j Hj. apply IH. lia.
  - right. intros j Hj. destruct (decide (j = lo + Z.of_nat n)) as [->|]; [done|]. apply IH. lia.
Qed.

Lemma NDREDUCE_eq x : NDREDUCE x = (x + 31) `div` 32.
Proof. unfold NDREDUCE. rewrite entry_off. f_equal. unfold NDENTRIES. lia. Qed.

Lemma NDLOSLOTS_eq x : NDLOSLOTS x = 32 * (((x + 31) `div` 32 + 31) `div` 32).
Proof. unfold NDLOSLOTS, NDHISLOTS, NDENTRYSHIFT. rewrite !NDREDUCE_eq, Z.shiftl_mul_pow2 by lia. lia. Qed.

(** The block after the last descriptor is not full. *)
Lemma spare_block f : bitmaps f -> bitw (fd_himap f) (NDREDUCE (fd_nfiles f)) = false.
Proof.
  intros H. destruct (size_facts _ (bm_size f H)) as (Hn & Hsl & Hr & Hslack & Hh).
  assert (0 <= NDREDUCE (fd_nfiles f)) by dlia. rewrite (bm_full f H) by lia. apply Z.eqb_neq. intros E.
  pose proof (proj1 (full_word (fd_lomap f) (NDREDUCE (fd_nfiles f)) (bm_lo f H) ltac:(lia)) E (32 * NDREDUCE (fd_nfiles f)) ltac:(lia)) as Hu.
  change (bitw (fd_lomap f)) with (used f) in Hu. rewrite used_outside in Hu; [done|done|dlia].
Qed.

(** The first search: the first block from [off] on that is not full. *)
Lemma himap_search f off last :
  bitmaps f -> 0 <= off -> 0 <= last <= fd_nfiles f ->
  let m := find_next_zero (fd_himap f) 0 off (Z.shiftr (last + NDENTRIES - 1) NDENTRYSHIFT) in
  (m = Ret (-1) /\ last <= 32 * off) \/
  (exists new, m = Ret new /\ off <= new < NDLOSLOTS (fd_nfiles f) /\
    nth (Z.to_nat new) (fd_lomap f) 0 <> ALLONES /\ forall j, 32 * off <= j < 32 * new -> used f j = true).
Proof.
  intros H Ho Hl m. destruct (size_facts _ (bm_size f H)) as (Hn & Hsl & Hr & Hslack & Hh).
  pose proof (bm_hilen f H) as Hhi. set (bits := (last + 31) `div` 32).
  assert (m = find_next_zero (fd_himap f) 0 off bits) as ->.
  { unfold m. rewrite entry_off. f_equal. unfold bits, NDENTRIES. f_equal. lia. }
  destruct (decide (bits < off)).
  { left. split; [|subst bits; dlia]. unfold find_next_zero. by destruct (Z.ltb_spec bits off); [|lia]. }
  destruct (decide (last = 0)) as [E0|].
  { left. subst last. change bits with 0 in *. assert (off = 0) as -> by lia. split; [done|lia]. }
  right. destruct (least_in (fun b => negb (bitw (fd_himap f) b)) off (Z.to_nat (NDREDUCE (fd_nfiles f) - off + 1)))
    as [(z & Hz & HP & Hlt)|Hall]; [|exfalso].
  2: { specialize (Hall (NDREDUCE (fd_nfiles f)) ltac:(subst bits; dlia)). by rewrite (spare_block f H) in Hall. }
  assert (z <= NDREDUCE (fd_nfiles f)) by (subst bits; dlia).
  exists z. conj; [|lia|lia|..].
  - apply find_next_zero_found; try done; [apply H|lia| |dlia| |].
    + rewrite NDLOSLOTS_eq. split; [lia|]. subst bits. dlia.
    + by apply negb_true_iff.
    + intros j Hj. by apply negb_false_iff, Hlt.
  - intros E. apply negb_true_iff in HP. rewrite (bm_full f H), E in HP by lia. done.
  - intros j Hj. assert (bitw (fd_himap f) (j `div` 32) = true) as Hb.
    { apply negb_false_iff, Hlt. dlia. }
    rewrite (bm_full f H) in Hb by dlia. boolify. eapply full_word in Hb; [exact Hb|apply H|dlia|dlia].
Qed.

(** The second search: the first free descriptor in the 32 blocks from [new]. *)
Lemma lomap_search f new s :
  bitmaps f -> 0 <= new < NDLOSLOTS (fd_nfiles f) -> 32 * new <= s < 32 * new + 32 ->
  let m := find_next_zero (fd_lomap f) new (s - 32 * new) NDENTRIES in
  (m = Ret (-1) /\ forall j, s <= j < 32 * (new + 1) -> used f j = true) \/
  (exists z, m = Ret (z - 32 * new) /\ s <= z /\ used f z = false /\ forall j, s <= j < z -> used f j = true).
Proof.
  intros H Hnew Hs m. destruct (size_facts _ (bm_size f H)) as (Hn & Hsl & Hr & Hslack & Hh).
  pose proof (bm_lolen f H) as Hlo. assert (NDLOSLOTS NDENTRIES = 32) as E32 by done.
  destruct (least_in (fun j => negb (used f j)) s (Z.to_nat (32 * (new + 32) - s))) as [(z & Hz & HP & Hlt)|Hall].
  - right. exists z. assert (z <= Z.max s (32 * NDREDUCE (fd_nfiles f))) as Hzm.
    { destruct (decide (z <= Z.max s (32 * NDREDUCE (fd_nfiles f)))); [done|].
      specialize (Hlt (Z.max s (32 * NDREDUCE (fd_nfiles f))) ltac:(lia)).
      rewrite used_outside in Hlt; [done|done|]. dlia. }
    assert (used f z = false) as Hu by (by apply negb_true_iff). conj; try lia; [|done|].
    + apply find_next_zero_found; try lia; [apply H|change NDENTRIES with 32; lia|dlia| |].
      * by replace (32 * new + (z - 32 * new)) with z by lia.
      * intros j Hj. apply negb_false_iff, (Hlt (32 * new + j)). lia.
    + intros j Hj. by apply negb_false_iff, Hlt.
  - left. assert (forall j, s <= j < 32 * (new + 32) -> used f j = true) as Hall'.
    { intros j Hj. apply negb_false_iff, Hall. lia. }
    split; [|intros j Hj; apply Hall'; lia].
    pose proof (bm_used f H (32 * new + 1023) ltac:(lia) (Hall' (32 * new + 1023) ltac:(lia))).
    apply find_next_zero_none; try lia; [apply H|rewrite E32; dlia|rewrite E32; dlia|].
    intros j Hj. apply Hall'. rewrite E32 in Hj. lia.
Qed.

(** * [fdalloc] *)

(** What a call returns: the least free descriptor, marked, or the reason why
    there is none. *)
Definition free_from (f : filedesc) (want z : Z) : Prop :=
  used f z = false /\ forall j, want <= j < z -> used f j = true.

Inductive allocates (f : filedesc) (want lim : Z) : outcome (result * filedesc) -> Prop :=
| AllocFd z f1 f' :
    want <= z < Z.min (fd_nfiles f) lim -> free_from f want z -> fd_used f z = Ret f1 ->
    f' = (if want <=? fd_freefile f then set_freefile z f1 else f1) ->
    allocates f want lim (Ret (Fd z, f'))
| AllocNone e :
    (forall j, want <= j < Z.min (fd_nfiles f) lim -> used f j = true) ->
    e = (if lim <=? fd_nfiles f then EMFILE else ENOSPC) ->
    allocates f want lim (Ret (Err e, f)).

Lemma min_small a b : 0 <= a < 2 ^ 31 -> 0 <= b < 2 ^ 31 -> s32 (min a b) = Z.min a b.
Proof.
  intros Ha Hb. unfold min. rewrite !u32_small by (unfold is_u; lia).
  rewrite <- (swrap_small 32 (Z.min a b)) at 1 by (unfold is_s; lia). unfold s32. f_equal. case_if; boolify; lia.
Qed.

Lemma used_freefile f z f1 : fd_used f z = Ret f1 -> fd_freefile f1 = fd_freefile f.
Proof.
  unfold fd_used. intros (x & Hx & (lo & Hlo & H)%bind_Ret_inv)%bind_Ret_inv.
  apply bind_Ret_inv in H as (g & Hg & [= <-]). assert (fd_freefile g = fd_freefile f) as <-; [|by case_if].
  case_if_in Hg; [|by injection Hg as <-]. apply bind_Ret_inv in Hg as (y & Hy & Hg).
  by apply bind_Ret_inv in Hg as (hi & Hhi & [= <-]).
Qed.

Section Fdalloc.
Context (rlim_cur maxfiles : Z).
Hypothesis rlim_range : 0 <= rlim_cur < 2 ^ 31.
Hypothesis maxfiles_range : 0 <= maxfiles < 2 ^ 31.
Let lim := Z.min rlim_cur maxfiles.

Lemma fd_limit_min : fd_limit rlim_cur maxfiles = lim.
Proof.
  unfold fd_limit. replace (s32 rlim_cur) with rlim_cur; [by apply min_small|].
  symmetry. apply swrap_small; [lia|unfold is_s; lia].
Qed.

(** A search that starts after the descriptors known to be in use. *)
Lemma allocates_from f want want' m :
  want <= want' -> (forall j, want <= j < want' -> used f j = true) ->
  (want <=? fd_freefile f) = (want' <=? fd_freefile f) ->
  allocates f want' lim m -> allocates f want lim m.
Proof.
  intros Hle Hu Hf Ha. destruct Ha as [z f1 f' Hz [Hz1 Hz2] E1 ->|e Hall ->].
  - eapply AllocFd; [lia| |done|by rewrite Hf]. split; [done|]. intros j Hj.
    destruct (decide (j < want')); [apply Hu|apply Hz2]; lia.
  - apply AllocNone; [|done]. intros j Hj. destruct (decide (j < want')); [apply Hu|apply Hall]; lia.
Qed.

Lemma fdalloc_loop_spec f fuel want :
  bitmaps f -> 0 <= want -> (Z.to_nat (NDLOSLOTS (fd_nfiles f) - want `div` 32) < fuel)%nat ->
  allocates f want lim (fdalloc_loop rlim_cur maxfiles f want fuel).
Proof.
  intros H. destruct (size_facts _ (bm_size f H)) as (Hn & Hsl & Hr & Hslack & Hh).
  revert want. induction fuel as [|fuel IH]; intros want Hwant Hfuel; [lia|].
  cbn [fdalloc_loop]. rewrite fd_limit_min, min_small by lia. set (last := Z.min (fd_nfiles f) lim).
  set (i := if want <? fd_freefile f then _ else _). pose proof (bm_free0 f H) as Hf0.
  assert (want <= i /\ fd_freefile f <= i /\ forall j, want <= j < i -> used f j = true) as (Hi & Hfi & Hui).
  { unfold i. case_if; boolify; conj; try lia. intros j Hj. apply (bm_free f H). lia. }
  clearbody i. rewrite !entry_off, !entry_index.
  assert (Hfail : (forall j, want <= j < last -> used f j = true) ->
    allocates f want lim (Ret (if lim <=? fd_nfiles f then Err EMFILE else Err ENOSPC, f))).
  { intros Hall. replace (if lim <=? fd_nfiles f then Err EMFILE else Err ENOSPC)
      with (Err (if lim <=? fd_nfiles f then EMFILE else ENOSPC)) by (by case_if). by apply AllocNone. }
  destruct (himap_search f (i `div` 32) last H) as [[E Hlast]|(new & E & Hnew & Hnf & Hfull)]; [dlia|lia|..];
    rewrite entry_off in E; rewrite E; cbn [bind].
  { apply Hfail. intros j Hj. apply Hui. dlia. }
  assert (0 <= new) as Hnew0 by dlia. destruct (Z.eqb_spec new (-1)); [lia|]. cbn [negb].
  set (s := Z.max (32 * new) i). assert (i <= s) as His by (unfold s; lia).
  assert (32 * new <= s < 32 * new + 32 /\ (if i `div` 32 <? new then 0 else i `mod` 32) = s - 32 * new) as [Hs ->].
  { unfold s. case_if; boolify; dlia. }
  assert (forall j, want <= j < s -> used f j = true) as Hus.
  { intros j Hj. destruct (decide (j < i)); [apply Hui; lia|]. apply Hfull. unfold s in Hj. dlia. }
  destruct (lomap_search f new s H) as [[-> Hblock]|(z & -> & Hz & Hzu & Hzl)]; [dlia|done|..]; cbn [bind].
  - rewrite Z.eqb_refl. unfold NDENTRYSHIFT. rewrite Z.shiftl_mul_pow2 by lia. change (2 ^ 5) with 32.
    rewrite Z.mul_comm. apply (allocates_from f want (32 * (new + 1))); [lia| | |].
    + intros j Hj. destruct (decide (j < s)); [apply Hus|apply Hblock]; lia.
    + assert (fd_freefile f < 32 * (new + 1)) as Hlt.
      { destruct (decide (fd_freefile f < 32 * (new + 1))); [done|]. exfalso. apply Hnf, full_word; [apply H|dlia|].
        intros j Hj. apply (bm_free f H). dlia. }
      assert (fd_freefile f < want) as Hlt'.
      { destruct (decide (fd_freefile f < want)); [done|]. exfalso. apply Hnf, full_word; [apply H|dlia|].
        intros j Hj. fold (used f j). destruct (decide (j < fd_freefile f)); [apply (bm_free f H); dlia|].
        destruct (decide (j < s)); [apply Hus; lia|apply Hblock; lia]. }
      destruct (Z.leb_spec want (fd_freefile f)), (Z.leb_spec (32 * (new + 1)) (fd_freefile f)); (done || lia).
    + apply IH; [lia|]. dlia.
  - destruct (Z.eqb_spec (z - 32 * new) (-1)); [lia|]. unfold NDENTRYSHIFT.
    rewrite Z.shiftl_mul_pow2 by lia. replace (z - 32 * new + new * 2 ^ 5) with z by lia.
    assert (free_from f want z) as Hff.
    { split; [done|]. intros j Hj. destruct (decide (j < s)); [apply Hus|apply Hzl]; lia. }
    destruct (Z.ltb_spec z last) as [Hzl'|Hzl'].
    + destruct (fd_used_spec f z H) as (f1 & E1 & _); [lia|]. rewrite E1. cbn [bind].
      rewrite (used_freefile f z f1 E1). eapply AllocFd; [lia|done|done|done].
    + apply Hfail. intros j Hj. apply Hff. lia.
Qed.

(** Every call returns, with the least free descriptor or the reason. *)
Lemma fdalloc_spec f want :
  bitmaps f -> 0 <= want -> allocates f want lim (fdalloc rlim_cur maxfiles f want).
Proof. intros H Hw. apply fdalloc_loop_spec; [done|done|]. dlia. Qed.
End Fdalloc.

(** * The table after an allocation *)

Lemma same_slot f f' j : same_files f f' -> slot f' j = slot f j.
Proof. unfold slot. by intros (-> & _). Qed.

Lemma mark_agrees f fd b f' : agrees_but fd f -> mark f fd b f' -> same_files f f' -> agrees_but fd f'.
Proof.
  intros Ha Hm Hs j Hj Hne. rewrite (same_slot f f') by done. rewrite Hm by done.
  destruct (Z.eqb_spec j fd); [done|]. by apply Ha.
Qed.

Lemma agrees_at f fd : agrees_but fd f -> used f fd = bool_decide (is_Some (slot f fd)) -> agrees f.
Proof. intros Ha Hfd j Hj. destruct (decide (j = fd)) as [->|]; [done|]. by apply Ha. Qed.

Lemma bitmaps_freefile f z : bitmaps f -> 0 <= z -> (forall j, 0 <= j < z -> used f j = true) -> bitmaps (set_freefile z f).
Proof. intros H Hz Hu. constructor; simpl; try apply H; done. Qed.

(** A descriptor chosen by [fdalloc] is marked and holds no file yet. *)
Lemma allocates_ok f want lim r f' :
  table_ok f -> 0 <= want -> allocates f want lim (Ret (r, f')) ->
  match r with
  | Fd z => want <= z < Z.min (fd_nfiles f) lim /\ free_from f want z /\ bitmaps f' /\ mark f z true f' /\ same_files f f'
  | Err e => f' = f
  end.
Proof.
  intros [H Ha] Hw E. inversion E as [z f1 f'' Hz Hff E1 Ef|e Hall Ee]; subst; [|done].
  destruct (fd_used_spec f z H) as (f2 & E2 & Hb & Hm & Hs & Hfree & Hl); [lia|]. assert (f2 = f1) as -> by congruence.
  case_if; boolify; [|done]. split; [done|]. split; [done|]. split; [|done]. apply bitmaps_freefile; [done|lia|].
  intros j Hj. rewrite Hm by lia. case_if; [done|].
  destruct (decide (j < fd_freefile f)); [apply (bm_free f H); lia|]. apply Hff. lia.
Qed.

(** The three results of [fdalloc]. *)
Lemma fdalloc_cases f rlim maxfiles want :
  table_ok f -> 0 <= rlim <= maxfiles -> maxfiles <= 12800 -> 0 <= want ->
  (exists z f1, fdalloc rlim maxfiles f want = Ret (Fd z, f1) /\ want <= z < Z.min (fd_nfiles f) rlim /\ free_from f want z /\
    bitmaps f1 /\ mark f z true f1 /\ same_files f f1) \/
  ((forall j, want <= j < Z.min (fd_nfiles f) rlim -> used f j = true) /\
    ((fdalloc rlim maxfiles f want = Ret (Err EMFILE, f) /\ rlim <= fd_nfiles f) \/
     (fdalloc rlim maxfiles f want = Ret (Err ENOSPC, f) /\ fd_nfiles f < rlim))).
Proof.
  intros Hok Hr Hm Hw. pose proof (fdalloc_spec rlim maxfiles ltac:(lia) ltac:(lia) f want (proj1 Hok) Hw) as Ha.
  replace (Z.min rlim maxfiles) with rlim in Ha by lia. destruct (fdalloc rlim maxfiles f want) as [[r f']| | |]; [|inversion Ha..].
  pose proof (allocates_ok f want rlim r f' Hok Hw Ha) as Hres. inversion Ha as [z f1 f'' Hz Hff E1 Ef|e Hall Ee]; subst.
  - left. destruct Hres as (? & ? & ? & ? & ?). by eexists _, _.
  - right. split; [done|]. destruct (Z.leb_spec rlim (fd_nfiles f')); [left|right]; by split.
Qed.

(** A table that is smaller than the limit can still grow. *)
Lemma room_to_grow n lim : In n fd_sizes -> n < lim -> lim <= 12800 -> n <= 6400.
Proof. cbn [In fd_sizes]. intros H. repeat destruct H as [<- | H]; try done; lia. Qed.

(** * Growth *)

Lemma grown_ok {A} (l : list A) n n' d :
  Z.of_nat (length l) = n -> n <= n' -> grown l n n' d = Ret (l ++ replicate (Z.to_nat (n' - n)) d).
Proof.
  intros El Hn. unfold grown. rewrite aslice_bounds by lia. cbn [bind]. destruct (Z.ltb_spec n' n); [lia|].
  rewrite drop_0, firstn_all2 by lia. done.
Qed.

Lemma nth_zeroes {A} k j (d : A) : nth j (replicate k d) d = d.
Proof. revert j. induction k; intros [|j]; simpl; auto. Qed.

Lemma nth_grown {A} (l : list A) k j (d : A) : nth j (l ++ replicate k d) d = nth j l d.
Proof.
  destruct (decide (j < length l)%nat).
  - by rewrite app_nth1.
  - rewrite app_nth2, (nth_overflow l) by lia. apply nth_zeroes.
Qed.

Lemma bitw_grown l k j : bitw (l ++ replicate k 0) j = bitw l j.
Proof. unfold bitw. by rewrite nth_grown. Qed.

Lemma words_grown l k : words l -> words (l ++ replicate k 0).
Proof. intros H. apply Forall_app. split; [done|]. by apply Forall_replicate. Qed.

(** [fdexpand] keeps every descriptor and adds empty ones. *)
Definition grown_size (n : Z) : Z := if n <? NDEXTENT then NDEXTENT else 2 * n.

Lemma grown_size_in n : In n fd_sizes -> n <= 6400 ->
  In (grown_size n) fd_sizes /\ n < grown_size n /\ NDHISLOTS n <= NDHISLOTS (grown_size n).
Proof.
  cbn [In fd_sizes]. intros H Hn. repeat destruct H as [<- | H]; try done; try lia;
    (split; [vm_compute; tauto|split; vm_compute; congruence]).
Qed.

Definition extends (f f' : filedesc) : Prop :=
  (forall j, 0 <= j -> used f' j = used f j) /\ (forall j, 0 <= j -> slot f' j = slot f j) /\
  (forall j, nth j (fd_ofileflags f') 0 = nth j (fd_ofileflags f) 0) /\
  fd_refcnt f' = fd_refcnt f /\ fd_knlistsize f' = fd_knlistsize f /\
  exists k, fd_ofiles f' = fd_ofiles f ++ replicate k None.

Lemma fdexpand_spec f :
  bitmaps f -> fd_nfiles f <= 6400 ->
  exists f', fdexpand f = Ret f' /\ bitmaps f' /\ extends f f' /\ fd_nfiles f' = grown_size (fd_nfiles f).
Proof.
  intros H Hn. destruct (grown_size_in _ (bm_size f H) Hn) as (Hin & Hlt & Hhs).
  destruct (size_facts _ (bm_size f H)) as (_ & Hsl & _). destruct (size_facts _ Hin) as (_ & Hsl' & _).
  unfold fdexpand. fold (grown_size (fd_nfiles f)). set (n := grown_size (fd_nfiles f)) in *.
  rewrite !grown_ok by (try apply H; lia). cbn [bind].
  set (g := if _ <? _ then _ else _).
  assert (exists k k', g = Ret (set_lomap (fd_lomap f ++ replicate k 0) (set_himap (fd_himap f ++ replicate k' 0) f)) /\
    Z.of_nat (length (fd_lomap f) + k) = NDLOSLOTS n /\ Z.of_nat (length (fd_himap f) + k') = NDHISLOTS n) as (k & k' & -> & Hk & Hk').
  { pose proof (bm_lolen f H). pose proof (bm_hilen f H). unfold g. case_if; boolify.
    - eexists _, _. split; [done|]. lia.
    - exists 0%nat, 0%nat. split; [by rewrite !app_nil_r; destruct f|]. lia. }
  cbn [bind]. eexists. split; [done|]. split; [|unfold extends, used, slot; simpl; conj; try done; try (intros; by rewrite ?bitw_grown, ?nth_grown); by eexists].
  constructor; unfold used; simpl; try done; try apply H; rewrite ?length_app, ?length_replicate; try lia.
  - pose proof (bm_ofiles f H). lia.
  - pose proof (bm_flags f H). lia.
  - by apply words_grown, H.
  - by apply words_grown, H.
  - intros j Hj. rewrite bitw_grown. intros E%(bm_used f H); lia.
  - intros b Hb. rewrite bitw_grown, nth_grown. destruct (decide (b < NDLOSLOTS (fd_nfiles f))); [apply H; lia|].
    pose proof (bm_lolen f H). pose proof (bm_hilen f H). rewrite bitw_outside, nth_overflow by lia. done.
  - intros j Hj. rewrite bitw_grown. by apply (bm_free f H).
  - pose proof (bm_last0 f H). lia.
  - intros j Hj. rewrite bitw_grown. by apply (bm_last f H).
  - rewrite bitw_grown. apply H.
Qed.

Lemma extends_agrees f f' : extends f f' -> agrees f -> agrees f'.
Proof. intros (Hu & Hs & _) Ha j Hj. rewrite Hu, Hs by done. by apply Ha. Qed.

(** * New tables *)

Lemma bitw_zeroes k j : bitw (replicate k 0) j = false.
Proof. unfold bitw. rewrite nth_zeroes. apply Z.bits_0. Qed.

Lemma fdinit_ok : table_ok fdinit.
Proof.
  assert (forall j, used fdinit j = false) as Hu by (intros j; apply bitw_zeroes).
  split; [constructor; try reflexivity; try (simpl; lia)|].
  - vm_compute. tauto.
  - by apply Forall_replicate.
  - by apply Forall_replicate.
  - intros j Hj. by rewrite Hu.
  - intros b Hb. unfold fdinit. cbn [fd_himap fd_lomap].
    by rewrite bitw_zeroes, nth_zeroes.
  - by split.
  - intros j Hj. by rewrite Hu.
  - intros j Hj. rewrite Hu. unfold slot, fdinit. cbn [fd_ofiles].
    rewrite nth_zeroes. symmetry. apply bool_decide_eq_false_2. by intros [? ?].
Qed.

(** * Copies *)

Lemma halved n : In n fd_sizes -> 100 <= n -> In (Z.quot n 2) fd_sizes /\ n = 2 * Z.quot n 2.
Proof. cbn [In fd_sizes]. intros H Hn. repeat destruct H as [<- | H]; try done; try lia; vm_compute; tauto. Qed.

Lemma shrink_spec lastfile n fuel :
  In n fd_sizes -> 0 <= lastfile < n -> (Z.to_nat n < fuel)%nat ->
  exists i, shrink lastfile n fuel = Ret i /\ In i fd_sizes /\ lastfile < i <= n.
Proof.
  revert n. induction fuel as [|fuel IH]; intros n Hin Hl Hf; [lia|]. cbn [shrink]. change (2 * NDEXTENT) with 100.
  case_if; boolify; [|exists n; conj; try done; lia]. destruct (halved n Hin) as [Hin' E]; [lia|].
  destruct (IH (Z.quot n 2)) as (i & -> & Hi & Hle); [done|lia|lia|]. exists i. conj; try done; lia.
Qed.

Lemma fdcopy_size_spec f : bitmaps f ->
  exists i, fdcopy_size f = Ret i /\ In i fd_sizes /\ fd_lastfile f < i <= fd_nfiles f.
Proof.
  intros H. destruct (size_facts _ (bm_size f H)) as (Hn & _). pose proof (bm_last0 f H) as Hl. unfold fdcopy_size.
  case_if; boolify.
  - change NDFILE with 20 in *. exists 20. split; [done|]. split; [vm_compute; tauto|]. lia.
  - apply shrink_spec; [apply H|done|lia].
Qed.

Lemma nth_take {A} (l : list A) k j (d : A) : nth j (take k l) d = if decide (j < k)%nat then nth j l d else d.
Proof.
  rewrite !nth_lookup. case_decide.
  - by rewrite lookup_take_lt.
  - by rewrite lookup_take_ge by lia.
Qed.

Lemma bitw_take l k j : bitw (take k l) j = (Z.to_nat (j `div` 32) <? k)%nat && bitw l j.
Proof.
  unfold bitw. rewrite nth_take. destruct (Nat.ltb_spec (Z.to_nat (j `div` 32)) k).
  - by rewrite decide_True.
  - rewrite decide_False by lia. apply Z.bits_0.
Qed.

(** The copy of a table has its descriptors, in arrays that may be shorter. *)
Lemma fdcopy_table_spec f : bitmaps f -> (forall j, fd_lastfile f < j -> slot f j = None) ->
  exists f', fdcopy_table f = Ret f' /\ bitmaps f' /\ (forall j, 0 <= j -> used f' j = used f j) /\
  (forall j, 0 <= j -> slot f' j = slot f j) /\
  (forall j, (Z.of_nat j <= fd_lastfile f) -> nth j (fd_ofileflags f') 0 = nth j (fd_ofileflags f) 0) /\
  fd_refcnt f' = 1 /\ fd_knlistsize f' = fd_knlistsize f.
Proof.
  intros H Hslot. destruct (fdcopy_size_spec f H) as (i & E & Hin & Hi). unfold fdcopy_table. rewrite E. cbn [bind].
  destruct (size_facts _ Hin) as (Hn & Hsl & Hr & Hslack & Hh).
  destruct (size_facts _ (bm_size f H)) as (Hn' & Hsl' & Hr' & Hslack' & Hh').
  assert (NDHISLOTS i <= NDHISLOTS (fd_nfiles f)).
  { unfold NDHISLOTS. rewrite !NDREDUCE_eq. dlia. }
  rewrite !aslice_bounds by (rewrite ?(bm_ofiles f H), ?(bm_flags f H), ?(bm_lolen f H), ?(bm_hilen f H); lia).
  cbn [bind]. rewrite !drop_0. eexists. split; [done|].
  assert (forall j, 0 <= j -> bitw (take (Z.to_nat (NDLOSLOTS i)) (fd_lomap f)) j = used f j) as Hu.
  { intros j Hj. rewrite bitw_take. fold (used f j). destruct (used f j) eqn:Eu; [|apply andb_false_r].
    apply (bm_last f H) in Eu; [|done]. rewrite andb_true_r. apply Nat.ltb_lt. dlia. }
  split; [|unfold used, slot; simpl; conj; try done].
  - constructor; unfold used; simpl; rewrite ?length_take; try done; try (apply Forall_take, H).
    all: pose proof (bm_ofiles f H); pose proof (bm_flags f H); pose proof (bm_lolen f H); pose proof (bm_hilen f H); pose proof (bm_last0 f H); try lia.
    + intros j Hj. rewrite Hu by done. intros Eu. apply (bm_last f H) in Eu; [lia|done].
    + intros b Hb. rewrite bitw_take, nth_take, decide_True by lia.
      rewrite (proj2 (Nat.ltb_lt _ _)) by dlia. simpl. apply H. lia.
    + apply H.
    + intros j Hj. rewrite Hu by lia. by apply (bm_free f H).
    + intros j Hj. rewrite Hu by done. by apply (bm_last f H).
    + destruct (bm_lastused f H); [by left|right]. by rewrite Hu by lia.
  - intros j Hj. rewrite nth_take. case_decide; [done|]. symmetry. apply Hslot. lia.
  - intros j Hj. rewrite nth_take, decide_True by lia. done.
Qed.
