(* ===== verification/MapSum.v ===== *)
(** * Sums over finite maps

    [msum g m] adds [g v] over the values of [m]; the counts that the kernel
    keeps are compared with such sums. *)

From stdpp Require Import gmap fin_map_dom.
From S2P Require Import Prelude.

Definition msum {A} (g : A -> Z) (m : gmap Z A) : Z := map_fold (fun _ v acc => g v + acc) 0 m.

Section Msum.
Context {A : Type} (g : A -> Z).

Lemma msum_empty : msum g ∅ = 0.
Proof. apply map_fold_empty. Qed.

Lemma msum_fresh m k v : m !! k = None -> msum g (<[k := v]> m) = g v + msum g m.
Proof. intros H. unfold msum. rewrite map_fold_insert_L; [done| |done]. intros. lia. Qed.

Lemma msum_delete m k v : m !! k = Some v -> msum g (delete k m) = msum g m - g v.
Proof.
  intros H. rewrite <- (insert_delete_id m k v H) at 2. rewrite msum_fresh by apply lookup_delete_eq. lia.
Qed.

Lemma msum_update m k v w : m !! k = Some v -> msum g (<[k := w]> m) = msum g m - g v + g w.
Proof.
  intros H. rewrite <- insert_delete_eq, msum_fresh by apply lookup_delete_eq. rewrite (msum_delete m k v H). lia.
Qed.

Lemma msum_nonneg m : (forall v, 0 <= g v) -> 0 <= msum g m.
Proof.
  intros Hg. induction m as [|k v m Hk IH] using map_ind; [by rewrite msum_empty|].
  rewrite msum_fresh by done. specialize (Hg v). lia.
Qed.

(** A term is at most the sum, and two terms together are. *)
Lemma msum_elem m k v : (forall v, 0 <= g v) -> m !! k = Some v -> g v <= msum g m.
Proof. intros Hg H. pose proof (msum_nonneg (delete k m) Hg). rewrite (msum_delete m k v H) in *. lia. Qed.

Lemma msum_two m k k' v v' :
  (forall v, 0 <= g v) -> k <> k' -> m !! k = Some v -> m !! k' = Some v' -> g v + g v' <= msum g m.
Proof.
  intros Hg Hne H H'. pose proof (msum_elem (delete k m) k' v' Hg) as E. rewrite lookup_delete_ne in E by done.
  specialize (E H'). rewrite (msum_delete m k v H) in E. lia.
Qed.

Lemma msum_positive m : 0 < msum g m -> exists k v, m !! k = Some v /\ 0 < g v.
Proof.
  induction m as [|k v m Hk IH] using map_ind; [rewrite msum_empty; lia|]. rewrite msum_fresh by done. intros H.
  destruct (decide (0 < g v)); [exists k, v; by rewrite lookup_insert_eq|].
  destruct IH as (k' & v' & E & Hv); [lia|]. exists k', v'. rewrite lookup_insert_ne by congruence. done.
Qed.

Lemma msum_zero m : (forall k v, m !! k = Some v -> g v = 0) -> msum g m = 0.
Proof.
  induction m as [|k v m Hk IH] using map_ind; [by rewrite msum_empty|]. intros H. rewrite msum_fresh by done.
  rewrite (H k v) by apply lookup_insert_eq. rewrite IH; [done|]. intros k' v' E. apply (H k').
  rewrite lookup_insert_ne by congruence. done.
Qed.

Lemma msum_bound m b :
  0 <= b -> (forall k v, m !! k = Some v -> g v <= b) -> msum g m <= b * Z.of_nat (size m).
Proof.
  intros Hb. induction m as [|k v m Hk IH] using map_ind; [rewrite msum_empty; lia|]. intros H.
  rewrite msum_fresh, map_size_insert_None by done. pose proof (H k v ltac:(apply lookup_insert_eq)).
  assert (msum g m <= b * Z.of_nat (size m)); [|lia]. apply IH. intros k' v' E. apply (H k').
  rewrite lookup_insert_ne by congruence. done.
Qed.
End Msum.

(** Keys in a range bound the size of a map. *)
Lemma size_range {A} (m : gmap Z A) n :
  0 <= n -> (forall k v, m !! k = Some v -> 0 <= k < n) -> Z.of_nat (size m) <= n.
Proof.
  intros Hn H. assert (dom m ⊆ list_to_set (C := gset Z) (seqZ 0 n)) as Hd.
  { intros k Hk. apply elem_of_dom in Hk as [v Hv]. apply elem_of_list_to_set, elem_of_seqZ. apply H in Hv. lia. }
  apply subseteq_size in Hd. rewrite size_dom in Hd. rewrite size_list_to_set in Hd by apply NoDup_seqZ.
  rewrite length_seqZ in Hd. lia.
Qed.

Lemma size_list (l : list Z) : (size (list_to_set (C := gset Z) l) <= length l)%nat.
Proof.
  induction l as [|x l IH]; [done|]; cbn [list_to_set length].
  pose proof (size_union_alt {[x]} (list_to_set (C := gset Z) l)) as E. rewrite size_singleton in E.
  pose proof (subseteq_size (list_to_set (C := gset Z) l ∖ {[x]}) (list_to_set l) ltac:(set_solver)). lia.
Qed.

(** So does a map whose values cover the keys. *)
Lemma size_cover {A B} (m : gmap Z A) (m' : gmap Z B) (f : B -> Z) :
  (forall k v, m !! k = Some v -> exists k' v', m' !! k' = Some v' /\ f v' = k) -> (size m <= size m')%nat.
Proof.
  intros H. assert (dom m ⊆ list_to_set (C := gset Z) ((fun x => f x.2) <$> map_to_list m')) as Hd.
  { intros k Hk. apply elem_of_dom in Hk as [v Hv]. destruct (H k v Hv) as (k' & v' & E & <-).
    apply elem_of_list_to_set, list_elem_of_fmap. exists (k', v'). split; [done|]. by apply elem_of_map_to_list. }
  apply subseteq_size in Hd. rewrite size_dom in Hd. etransitivity; [exact Hd|].
  etransitivity; [apply size_list|]. by rewrite length_fmap, length_map_to_list.
Qed.
