(* ===== verification/Files.v ===== *)
(** * Open files and the descriptor system calls

    [struct file] with its two counts, the processes and their descriptor
    tables, and the system calls of [kern/kern_descrip.c] (with [sys_open],
    [sys_socket] and [sys_kqueue], which create files).  A call runs up to a
    point where it can sleep (the lock of the table, the advisory unlock, the
    wait for the users of a file and the close routine inside [closef],
    [vn_open]) and leaves there what remains of it; other processes run in
    between. *)

From stdpp Require Import gmap.
From S2P Require Import Prelude Libkern Filedesc.


Notation FREAD := 0x0001 (only parsing).
Notation FWRITE := 0x0002 (only parsing).
Notation O_SHLOCK := 0x0010 (only parsing).
Notation O_EXLOCK := 0x0020 (only parsing).
Notation O_TRUNC := 0x0400 (only parsing).
Notation FHASLOCK := 0x4000 (only parsing).
Notation FMASK := 0x00cf (only parsing).
Definition FFLAGS (oflags : Z) : Z := Z.lor (Z.land oflags (Z.lnot 3)) (Z.land (oflags + 1) 3).

Notation DTYPE_VNODE := 1 (only parsing).
Notation DTYPE_SOCKET := 2 (only parsing).
Notation DTYPE_KQUEUE := 4 (only parsing).

Notation FIF_WANTCLOSE := 1 (only parsing).
Notation FIF_LARVAL := 2 (only parsing).

Definition PID_MAX : Z := 32766.

Record file := File {
  f_flag : Z;
  f_type : Z;
  f_count : Z;
  f_iflags : Z;
  f_usecount : Z;
}.

Definition set_f_flag (x : Z) (f : file) : file := File x (f_type f) (f_count f) (f_iflags f) (f_usecount f).
Definition set_f_type (x : Z) (f : file) : file := File (f_flag f) x (f_count f) (f_iflags f) (f_usecount f).
Definition set_f_count (x : Z) (f : file) : file := File (f_flag f) (f_type f) x (f_iflags f) (f_usecount f).
Definition set_f_iflags (x : Z) (f : file) : file := File (f_flag f) (f_type f) (f_count f) x (f_usecount f).
Definition set_f_usecount (x : Z) (f : file) : file := File (f_flag f) (f_type f) (f_count f) (f_iflags f) x.

Definition FILE_IS_USABLE (f : file) : bool := Z.land (f_iflags f) (Z.lor FIF_WANTCLOSE FIF_LARVAL) =? 0.

(** * Processes *)

(** What a process does after [closef]: leave with [fdpunlock] and the given
    result, leave [sys_close] with the error of [closef], or go on with the
    loops of [sys_closefrom], [fdcloseexec] and [fdfree]. *)
Inductive cont :=
| KOut (r : result)
| KClose
| KFrom (i : Z)
| KExec (fd : Z)
| KFree (fpp i : Z).

(** The sleeps of [closef]: the advisory unlock, the loop that waits for
    [f_usecount] and the close routine of the file. *)
Inductive phase := Unlocking | Draining | Closing.

(** Where a process is: in user mode, waiting for the lock of its table in a
    call, inside [vn_open] and what follows it, inside an operation of a file,
    inside [closef], or about to go on after it. *)
Inductive pc :=
| User
| DupLock (fp old : Z)
| Dup2Lock (fp old new : Z)
| DupfdLock (fp fd newmin : Z)
| CloseLock (fd : Z)
| ClosefromLock (startfd : Z)
| OpenLock (oflags : Z)
| SocketLock
| Opening (fp indx flags : Z) (localtrunc : bool)
| OpenAdvlock (fp indx : Z) (localtrunc : bool)
| OpenTrunc (fp indx : Z)
| Socreate (fp fd : Z)
| Using (fd fp : Z)
| Closef (ph : phase) (fp : Z) (k : cont)
| After (k : cont) (error : Z).

Record fd_proc := Proc {
  p_fd : Z;
  p_rlim_nofile : Z;
  p_advlock : bool;
  p_pc : pc;
  p_ret : result;
}.

Definition set_pc (x : pc) (p : fd_proc) : fd_proc := Proc (p_fd p) (p_rlim_nofile p) (p_advlock p) x (p_ret p).
Definition set_ret (x : result) (p : fd_proc) : fd_proc := Proc (p_fd p) (p_rlim_nofile p) (p_advlock p) (p_pc p) x.
Definition set_advlock (p : fd_proc) : fd_proc := Proc (p_fd p) (p_rlim_nofile p) true (p_pc p) (p_ret p).
Definition set_rlim (x : Z) (p : fd_proc) : fd_proc := Proc (p_fd p) x (p_advlock p) (p_pc p) (p_ret p).

(** Files and tables by address, the owner of each [fd_lock] that is held, and the
    processes that are asleep in [closef], with the file whose [f_usecount] is the
    channel they sleep on. *)
Record state := State {
  files : gmap Z file;
  nfiles : Z;
  tables : gmap Z filedesc;
  locks : gmap Z Z;
  procs : gmap Z fd_proc;
  slpque : gmap Z Z;
}.

Definition set_files (x : gmap Z file) (s : state) : state := State x (nfiles s) (tables s) (locks s) (procs s) (slpque s).
Definition set_nfiles_ (x : Z) (s : state) : state := State (files s) x (tables s) (locks s) (procs s) (slpque s).
Definition set_tables (x : gmap Z filedesc) (s : state) : state := State (files s) (nfiles s) x (locks s) (procs s) (slpque s).
Definition set_locks (x : gmap Z Z) (s : state) : state := State (files s) (nfiles s) (tables s) x (procs s) (slpque s).
Definition set_procs (x : gmap Z fd_proc) (s : state) : state := State (files s) (nfiles s) (tables s) (locks s) x (slpque s).
Definition set_slpque (x : gmap Z Z) (s : state) : state := State (files s) (nfiles s) (tables s) (locks s) (procs s) x.

(** Following a pointer to something that has been freed is a fault. *)
Definition deref {A} (m : gmap Z A) (a : Z) : outcome A :=
  match m !! a with Some x => Ret x | None => Fault UseAfterFree end.

Definition upd_file (a : Z) (g : file -> file) (s : state) : outcome state :=
  let! f := deref (files s) a in Ret (set_files (<[a := g f]> (files s)) s).
Definition put_table (t : Z) (f : filedesc) (s : state) : state := set_tables (<[t := f]> (tables s)) s.

(** Process [p] goes on at [x]. *)
Definition goto (p : Z) (x : pc) (s : state) : outcome state :=
  let! pr := deref (procs s) p in Ret (set_procs (<[p := set_pc x pr]> (procs s)) s).
(** Process [p] returns to user mode. *)
Definition leave (p : Z) (r : result) (s : state) : outcome state :=
  let! pr := deref (procs s) p in Ret (set_procs (<[p := set_ret r (set_pc User pr)]> (procs s)) s).

Definition FREF (a : Z) : state -> outcome state := upd_file a (fun f => set_f_usecount (s32 (f_usecount f + 1)) f).

(** [wakeup(&fp->f_usecount)]. *)
Definition usecount_wakeup (a : Z) (q : gmap Z Z) : gmap Z Z := filter (fun x => x.2 <> a) q.

Definition FRELE (a : Z) (s : state) : outcome state :=
  let! f := deref (files s) a in
  let s := set_files (<[a := set_f_usecount (s32 (f_usecount f - 1)) f]> (files s)) s in
  Ret (set_slpque (if flag (f_iflags f) FIF_WANTCLOSE then usecount_wakeup a (slpque s) else slpque s) s).

Definition FILE_SET_MATURE (a : Z) (s : state) : outcome state :=
  let! s := upd_file a (fun f => set_f_iflags (Z.land (f_iflags f) (Z.lnot FIF_LARVAL)) f) s in FRELE a s.

(** The lock of the table of [p]. *)
Definition fdplock (p t : Z) (s : state) : state := set_locks (<[t := p]> (locks s)) s.
Definition fdpunlock (t : Z) (s : state) : state := set_locks (delete t (locks s)) s.

(** [fdpunlock(fdp); return (r)]. *)
Definition out (p t : Z) (r : result) (s : state) : outcome state := leave p r (fdpunlock t s).

(** * Files *)

Definition fd_getfile (fdp : filedesc) (fd : Z) (s : state) : outcome (option Z) :=
  if fd_nfiles fdp <=? u32 fd then Ret None
  else
    let! x := aget (fd_ofiles fdp) fd in
    match x with
    | None => Ret None
    | Some fp => let! f := deref (files s) fp in Ret (if FILE_IS_USABLE f then Some fp else None)
    end.

(** A round of the wait for [f_usecount]: [tsleep] until somebody calls [wakeup],
    or on to the close routine. *)
Definition closef_drain (p fp : Z) (k : cont) (s : state) : outcome state :=
  let! f := deref (files s) fp in
  if 1 <? f_usecount f then goto p (Closef Draining fp k) (set_slpque (<[p := fp]> (slpque s)) s)
  else goto p (Closef Closing fp k) s.

(** [closef] after the advisory unlock. *)
Definition closef_drop (p fp : Z) (k : cont) (s : state) : outcome state :=
  let! f := deref (files s) fp in
  if flag (f_iflags f) FIF_WANTCLOSE then let! s := FRELE fp s in goto p (After k 0) s
  else
    let! s := upd_file fp (set_f_count (f_count f - 1)) s in
    if 0 <? f_count f - 1 then let! s := FRELE fp s in goto p (After k 0) s
    else if f_count f - 1 <? 0 then Panic "closef: count < 0"
    else
      let! s := upd_file fp (set_f_iflags (Z.lor (f_iflags f) FIF_WANTCLOSE)) s in
      closef_drain p fp k s.

Definition closef (p fp : Z) (k : cont) (s : state) : outcome state :=
  let! pr := deref (procs s) p in
  let! f := deref (files s) fp in
  if p_advlock pr && (f_type f =? DTYPE_VNODE) then goto p (Closef Unlocking fp k) s
  else closef_drop p fp k s.

(** The end of [closef], after [fo_close] returned [error]. *)
Definition closef_free (p fp : Z) (k : cont) (error : Z) (s : state) : outcome state :=
  let! f := deref (files s) fp in
  if negb (f_count f =? 0) || negb (f_usecount f =? 1) then Panic "closef: count: %d/%d"
  else goto p (After k error) (set_nfiles_ (nfiles s - 1) (set_files (delete fp (files s)) s)).

Definition fdrelease (p t fd : Z) (k : cont) (s : state) : outcome state :=
  let! fdp := deref (tables s) t in
  let! x := aget (fd_ofiles fdp) fd in
  match x with
  | None => goto p (After k EBADF) s
  | Some fp =>
      let! s := FREF fp s in
      let! l := aset (fd_ofiles fdp) fd None in
      let! fl := aset (fd_ofileflags fdp) fd 0 in
      let! fdp := fd_unused (set_ofileflags fl (set_ofiles l fdp)) fd in
      closef p fp k (put_table t fdp s)
  end.

Section Kernel.
(** The system's limit on open files, and the range of [long]. *)
Context (maxfiles LONG_MAX : Z).

Definition finishdup (p t fp old new : Z) (s : state) : outcome state :=
  let! f := deref (files s) fp in
  if f_count f =? LONG_MAX - 2 then let! s := FRELE fp s in out p t (Err EDEADLK) s
  else
    let! fdp := deref (tables s) t in
    let! oldfp := aget (fd_ofiles fdp) new in
    let! s := (match oldfp with Some o => FREF o s | None => Ret s end) in
    let! l := aset (fd_ofiles fdp) new (Some fp) in
    let! fl := aget (fd_ofileflags fdp) old in
    let! fls := aset (fd_ofileflags fdp) new (Z.land fl (Z.lnot UF_EXCLOSE)) in
    let fdp := set_ofileflags fls (set_ofiles l fdp) in
    let! s := upd_file fp (fun f => set_f_count (f_count f + 1) f) s in
    let! s := FRELE fp s in
    match oldfp with
    | None => let! fdp := fd_used fdp new in out p t (Fd new) (put_table t fdp s)
    | Some o => closef p o (KOut (Fd new)) (put_table t fdp s)
    end.

(** * Duplicating a descriptor *)

(** [sys_dup], from [restart] to the lock. *)
Definition dup_enter (p t old : Z) (s : state) : outcome state :=
  let! fdp := deref (tables s) t in
  let! r := fd_getfile fdp old s in
  match r with
  | None => leave p (Err EBADF) s
  | Some fp => let! s := FREF fp s in goto p (DupLock fp old) s
  end.

(** The rest of [sys_dup]; [fdexpand] unlocks and starts again. *)
Definition dup_locked (p t rlim fp old : Z) (s : state) : outcome state :=
  let! fdp := deref (tables s) t in
  let! (r, fdp) := fdalloc rlim maxfiles fdp 0 in
  match r with
  | Err e =>
      let! s := FRELE fp s in
      if e =? ENOSPC then
        let! fdp := fdexpand fdp in
        dup_enter p t old (fdpunlock t (put_table t fdp s))
      else out p t (Err e) s
  | Fd new => finishdup p t fp old new (put_table t fdp s)
  end.

Definition dup2_enter (p t rlim old new : Z) (s : state) : outcome state :=
  let! fdp := deref (tables s) t in
  let! r := fd_getfile fdp old s in
  match r with
  | None => leave p (Err EBADF) s
  | Some fp =>
      if (rlim <=? u32 new) || (maxfiles <=? u32 new) then leave p (Err EBADF) s
      else if old =? new then leave p (Fd new) s
      else let! s := FREF fp s in goto p (Dup2Lock fp old new) s
  end.

Definition dup2_locked (p t rlim fp old new : Z) (s : state) : outcome state :=
  let! fdp := deref (tables s) t in
  if fd_nfiles fdp <=? new then
    let! (r, fdp) := fdalloc rlim maxfiles fdp new in
    match r with
    | Err e =>
        let! s := FRELE fp s in
        if e =? ENOSPC then
          let! fdp := fdexpand fdp in
          dup2_enter p t rlim old new (fdpunlock t (put_table t fdp s))
        else out p t (Err e) s
    | Fd i =>
        if negb (new =? i) then Panic "dup2: fdalloc" else finishdup p t fp old new (put_table t fdp s)
    end
  else finishdup p t fp old new s.

(** [fcntl(fd, F_DUPFD, newmin)]. *)
Definition dupfd_enter (p t rlim fd newmin : Z) (s : state) : outcome state :=
  let! fdp := deref (tables s) t in
  let! r := fd_getfile fdp fd s in
  match r with
  | None => leave p (Err EBADF) s
  | Some fp =>
      if (rlim <=? u32 newmin) || (maxfiles <=? u32 newmin) then leave p (Err EINVAL) s
      else let! s := FREF fp s in goto p (DupfdLock fp fd newmin) s
  end.

Definition dupfd_locked (p t rlim fp fd newmin : Z) (s : state) : outcome state :=
  let! fdp := deref (tables s) t in
  let! (r, fdp) := fdalloc rlim maxfiles fdp newmin in
  match r with
  | Err e =>
      if e =? ENOSPC then
        let! fdp := fdexpand fdp in
        let! s := FRELE fp s in
        dupfd_enter p t rlim fd newmin (fdpunlock t (put_table t fdp s))
      else let! s := FRELE fp s in out p t (Err e) s
  | Fd i => finishdup p t fp fd i (put_table t fdp s)
  end.

(** * Creating files *)

(** The [restart] loop of [falloc].  A table grows by doubling, so thirty-two
    rounds exhaust [int]. *)
Fixpoint falloc_fd (rlim : Z) (fdp : filedesc) (fuel : nat) : outcome (result * filedesc) :=
  match fuel with
  | O => Spin
  | S fuel =>
      let! (r, fdp) := fdalloc rlim maxfiles fdp 0 in
      match r with
      | Err e => if e =? ENOSPC then let! fdp := fdexpand fdp in falloc_fd rlim fdp fuel else Ret (Err e, fdp)
      | Fd i => Ret (Fd i, fdp)
      end
  end.

(** [pool_get] returns the address [a]. *)
Definition falloc (t rlim a : Z) (s : state) : outcome (result * state) :=
  let! fdp := deref (tables s) t in
  let! (r, fdp) := falloc_fd rlim fdp 32 in
  match r with
  | Err e => Ret (Err e, put_table t fdp s)
  | Fd i =>
      if maxfiles <=? nfiles s then
        let! fdp := fd_unused fdp i in Ret (Err ENFILE, put_table t fdp s)
      else
        let s := set_nfiles_ (nfiles s + 1) s in
        let s := set_files (<[a := File 0 0 1 FIF_LARVAL 0]> (files s)) s in
        let! l := aset (fd_ofiles fdp) i (Some a) in
        let! s := FREF a (put_table t (set_ofiles l fdp) s) in
        Ret (Fd i, s)
  end.

(** [dupfdopen]: the error it returns.  [descfd] is [p_descfd] when the process
    has set-id privileges. *)
Definition dupfdopen (t indx dfd mode error : Z) (descfd : option Z) (s : state) : outcome (Z * state) :=
  if match descfd with Some d => (d =? 255) || negb (d =? dfd) | None => false end then Ret (EPERM, s)
  else
    let! fdp := deref (tables s) t in
    let! r := fd_getfile fdp dfd s in
    match r with
    | None => Ret (EBADF, s)
    | Some wfp =>
        let! w := deref (files s) wfp in
        let! flags := aget (fd_ofileflags fdp) dfd in
        if error =? ENODEV then
          if negb (Z.lor (Z.land mode (Z.lor FREAD FWRITE)) (f_flag w) =? f_flag w) then Ret (EACCES, s)
          else if f_count w =? LONG_MAX - 2 then Ret (EDEADLK, s)
          else
            let! l := aset (fd_ofiles fdp) indx (Some wfp) in
            let! fl := aset (fd_ofileflags fdp) indx flags in
            let! s := upd_file wfp (fun f => set_f_count (f_count f + 1) f) s in
            let! fdp := fd_used (set_ofileflags fl (set_ofiles l fdp)) indx in
            Ret (0, put_table t fdp s)
        else if error =? ENXIO then
          let! l := aset (fd_ofiles fdp) indx (Some wfp) in
          let! fl := aset (fd_ofileflags fdp) indx flags in
          let! l := aset l dfd None in
          let! fl := aset fl dfd 0 in
          let! fdp := fd_used (set_ofileflags fl (set_ofiles l fdp)) indx in
          let! fdp := fd_unused fdp dfd in
          Ret (0, put_table t fdp s)
        else Ret (error, s)
    end.

(** [fdremove(fdp, indx); closef(fp, p); goto out]. *)
Definition open_fail (p t fp indx error : Z) (s : state) : outcome state :=
  let! fdp := deref (tables s) t in
  let! fdp := fdremove fdp indx in
  closef p fp (KOut (Err error)) (put_table t fdp s).

(** [*retval = indx; FILE_SET_MATURE(fp); out: fdpunlock(fdp)]. *)
Definition open_done (p t fp indx : Z) (s : state) : outcome state :=
  let! s := FILE_SET_MATURE fp s in out p t (Fd indx) s.

(** [sys_open] with the lock, up to [vn_open]. *)
Definition open_locked (p t rlim oflags a : Z) (s : state) : outcome state :=
  let! (r, s) := falloc t rlim a s in
  match r with
  | Err e => out p t (Err e) s
  | Fd indx =>
      let flags := FFLAGS oflags in
      let localtrunc := flag flags O_TRUNC && flag flags (Z.lor O_EXLOCK O_SHLOCK) in
      let flags := if localtrunc then Z.land flags (Z.lnot O_TRUNC) else flags in
      goto p (Opening a indx flags localtrunc) s
  end.

(** What [vn_open] came to: the vnode is open, or an error, with [p_dupfd] and
    the privileges of the process. *)
Inductive vn_result := VnOpen | VnError (error dupfd : Z) (descfd : option Z).

Definition vn_ok (r : vn_result) : bool :=
  match r with VnOpen => true | VnError error dupfd _ => negb (error =? 0) && bool_decide (is_s 32 dupfd) end.

(** [sys_open] after [vn_open], up to the advisory lock. *)
Definition vn_opened (p t fp indx flags : Z) (localtrunc : bool) (r : vn_result) (s : state) : outcome state :=
  match r with
  | VnError error dupfd descfd =>
      let fail error := open_fail p t fp indx (if error =? ERESTART then EINTR else error) in
      if ((error =? ENODEV) || (error =? ENXIO)) && (0 <=? dupfd) then
        let! (error, s) := dupfdopen t indx dupfd flags error descfd s in
        if error =? 0 then closef p fp (KOut (Fd indx)) s else fail error s
      else fail error s
  | VnOpen =>
      let! s := upd_file fp (fun f => set_f_type DTYPE_VNODE (set_f_flag (Z.land flags FMASK) f)) s in
      if flag flags (Z.lor O_EXLOCK O_SHLOCK) then goto p (OpenAdvlock fp indx localtrunc) s
      else if localtrunc then goto p (OpenTrunc fp indx) s
      else open_done p t fp indx s
  end.

(** After [VOP_ADVLOCK], and after the truncation and its checks. *)
Definition open_advlocked (p t fp indx : Z) (localtrunc : bool) (error : Z) (s : state) : outcome state :=
  if negb (error =? 0) then open_fail p t fp indx error s
  else
    let! s := upd_file fp (fun f => set_f_flag (Z.lor (f_flag f) FHASLOCK) f) s in
    if localtrunc then goto p (OpenTrunc fp indx) s else open_done p t fp indx s.

Definition open_truncated (p t fp indx error : Z) (s : state) : outcome state :=
  if negb (error =? 0) then open_fail p t fp indx error s else open_done p t fp indx s.

Definition socket_locked (p t rlim a : Z) (s : state) : outcome state :=
  let! (r, s) := falloc t rlim a s in
  match r with
  | Err e => out p t (Err e) s
  | Fd fd =>
      let! s := upd_file a (fun f => set_f_type DTYPE_SOCKET (set_f_flag (Z.lor FREAD FWRITE) f)) s in
      goto p (Socreate a fd) s
  end.

(** [sys_socket] after [socreate]. *)
Definition socreated (p t fp fd error : Z) (s : state) : outcome state :=
  if negb (error =? 0) then open_fail p t fp fd error s else open_done p t fp fd s.

Definition sys_kqueue (p t rlim a : Z) (s : state) : outcome state :=
  let! (r, s) := falloc t rlim a s in
  match r with
  | Err e => leave p (Err e) s
  | Fd fd =>
      let! s := upd_file a (fun f => set_f_type DTYPE_KQUEUE (set_f_flag (Z.lor FREAD FWRITE) f)) s in
      let! fdp := deref (tables s) t in
      let fdp := if fd_knlistsize fdp <? 0 then set_knlistsize 0 fdp else fdp in
      let! s := FILE_SET_MATURE a (put_table t fdp s) in
      leave p (Fd fd) s
  end.

(** * Processes and their tables *)

(** [fdcopy]: kqueue descriptors are not copied.  [i] runs up to [fd_lastfile],
    which [fdremove] may lower; [fuel] is the number of rounds left. *)
Fixpoint drop_kqueues (fs : gmap Z file) (fdp : filedesc) (i : Z) (fuel : nat) : outcome filedesc :=
  match fuel with
  | O => Spin
  | S fuel =>
      if fd_lastfile fdp <? i then Ret fdp
      else
        let! x := aget (fd_ofiles fdp) i in
        match x with
        | None => drop_kqueues fs fdp (i + 1) fuel
        | Some fp =>
            let! f := deref fs fp in
            let! fdp := (if f_type f =? DTYPE_KQUEUE then fdremove fdp i else Ret fdp) in
            drop_kqueues fs fdp (i + 1) fuel
        end
  end.

(** [fdcopy]: the copy holds a reference to each file. *)
Fixpoint count_copies (fs : gmap Z file) (fdp : filedesc) (i : Z) (fuel : nat) : outcome (gmap Z file * filedesc) :=
  match fuel with
  | O => Spin
  | S fuel =>
      if fd_lastfile fdp <? i then Ret (fs, fdp)
      else
        let! x := aget (fd_ofiles fdp) i in
        match x with
        | None => count_copies fs fdp (i + 1) fuel
        | Some fp =>
            let! f := deref fs fp in
            if f_count f =? LONG_MAX - 2 then
              let! fdp := fdremove fdp i in count_copies fs fdp (i + 1) fuel
            else count_copies (<[fp := set_f_count (f_count f + 1) f]> fs) fdp (i + 1) fuel
        end
  end.

Definition fdcopy (fs : gmap Z file) (fdp : filedesc) : outcome (gmap Z file * filedesc) :=
  let! new := fdcopy_table fdp in
  let fuel := S (Z.to_nat (fd_nfiles new)) in
  let! new := (if negb (fd_knlistsize new =? -1) then
      let! new := drop_kqueues fs new 0 fuel in Ret (set_knlistsize (-1) new)
    else Ret new) in
  count_copies fs new 0 fuel.

Definition fdshare (t : Z) (s : state) : outcome state :=
  let! fdp := deref (tables s) t in Ret (put_table t (set_refcnt (u16 (fd_refcnt fdp + 1)) fdp) s).

(** The descriptors of a new process: a fresh table, a shared one or a copy. *)
Inductive fork_files := CleanFiles (t : Z) | ShareFiles | CopyFiles (t : Z).

Definition fork_table (t : Z) (how : fork_files) (s : state) : outcome (Z * state) :=
  match how with
  | CleanFiles t' => Ret (t', put_table t' fdinit s)
  | ShareFiles => let! s := fdshare t s in Ret (t, s)
  | CopyFiles t' =>
      let! fdp := deref (tables s) t in
      let! (fs, new) := fdcopy (files s) fdp in
      Ret (t', put_table t' new (set_files fs s))
  end.

Definition fork1 (p q : Z) (pr : fd_proc) (how : fork_files) (s : state) : outcome state :=
  let! (t, s) := fork_table (p_fd pr) how s in
  leave p (Fd q) (set_procs (<[q := Proc t (p_rlim_nofile pr) false User (Fd 0)]> (procs s)) s).

(** [fdfree], up to the loop over the files. *)
Definition fdfree (p t : Z) (s : state) : outcome state :=
  let! fdp := deref (tables s) t in
  let fdp := set_refcnt (u16 (fd_refcnt fdp - 1)) fdp in
  let s := put_table t fdp s in
  if 0 <? fd_refcnt fdp then Ret (set_procs (delete p (procs s)) s)
  else goto p (After (KFree 0 (fd_lastfile fdp)) 0) s.

(** A round of the loop of [fdfree]; at its end the table is freed. *)
Definition fdfree_loop (p t fpp i : Z) (s : state) : outcome state :=
  if i <? 0 then Ret (set_procs (delete p (procs s)) (set_tables (delete t (tables s)) s))
  else
    let! fdp := deref (tables s) t in
    let! x := aget (fd_ofiles fdp) fpp in
    match x with
    | None => goto p (After (KFree (fpp + 1) (i - 1)) 0) s
    | Some fp =>
        let! s := FREF fp s in
        let! l := aset (fd_ofiles fdp) fpp None in
        closef p fp (KFree (fpp + 1) (i - 1)) (put_table t (set_ofiles l fdp) s)
    end.

(** A round of the loop of [fdcloseexec]. *)
Definition fdcloseexec_loop (p t fd : Z) (s : state) : outcome state :=
  let! fdp := deref (tables s) t in
  if fd_lastfile fdp <? fd then leave p (Fd 0) s
  else
    let! fl := aget (fd_ofileflags fdp) fd in
    if flag fl UF_EXCLOSE then fdrelease p t fd (KExec (fd + 1)) s else goto p (After (KExec (fd + 1)) 0) s.

(** A round of the loop of [sys_closefrom]. *)
Definition closefrom_loop (p t i : Z) (s : state) : outcome state :=
  let! fdp := deref (tables s) t in
  if u32 (fd_lastfile fdp) <? i then out p t (Fd 0) s else fdrelease p t i (KFrom (u32 (i + 1))) s.

Definition closefrom_locked (p t startfd : Z) (s : state) : outcome state :=
  let! fdp := deref (tables s) t in
  if u32 (fd_lastfile fdp) <? startfd then out p t (Err EBADF) s else goto p (After (KFrom startfd) 0) s.

(** What follows [closef], with the error it returned. *)
Definition resume (p t : Z) (k : cont) (error : Z) (s : state) : outcome state :=
  match k with
  | KOut r => out p t r s
  | KClose => out p t (if error =? 0 then Fd 0 else Err error) s
  | KFrom i => closefrom_loop p t i s
  | KExec fd => fdcloseexec_loop p t fd s
  | KFree fpp i => fdfree_loop p t fpp i s
  end.

(** * System calls *)

Inductive fcntl_lock := F_RDLCK | F_WRLCK | F_UNLCK.

Inductive call :=
| SDup (fd : Z)
| SDup2 (from to : Z)
| SDupfd (fd newmin : Z)
| SGetfd (fd : Z)
| SSetfd (fd arg : Z)
| SSetlk (fd : Z) (l_type : fcntl_lock)
| SClose (fd : Z)
| SClosefrom (fd : Z)
| SOpen (oflags : Z)
| SSocket
| SKqueue (a : Z)
| SFstat (fd : Z)
| SFork (q : Z) (how : fork_files)
| SExec
| SExit
| SSetrlimit (lim : Z).

(** A call that takes the file of a descriptor. *)
Definition with_file (p t fd : Z) (s : state) (body : filedesc -> Z -> outcome state) : outcome state :=
  let! fdp := deref (tables s) t in
  let! r := fd_getfile fdp fd s in
  match r with None => leave p (Err EBADF) s | Some fp => body fdp fp end.

Definition sys_close_enter (p t fd : Z) (s : state) : outcome state :=
  with_file p t fd s (fun _ _ => goto p (CloseLock fd) s).

(** [sys_fstat], up to the operation of the file. *)
Definition sys_fstat_enter (p t fd : Z) (s : state) : outcome state :=
  with_file p t fd s (fun _ fp => let! s := FREF fp s in goto p (Using fd fp) s).

Definition fcntl_getfd (p t fd : Z) (s : state) : outcome state :=
  with_file p t fd s (fun fdp _ =>
    let! fl := aget (fd_ofileflags fdp) fd in leave p (Fd (if flag fl UF_EXCLOSE then 1 else 0)) s).

Definition fcntl_setfd (p t fd arg : Z) (s : state) : outcome state :=
  with_file p t fd s (fun fdp _ =>
    let! fl := aget (fd_ofileflags fdp) fd in
    let! fls := aset (fd_ofileflags fdp) fd
      (if flag arg 1 then Z.lor fl UF_EXCLOSE else Z.land fl (Z.lnot UF_EXCLOSE)) in
    leave p (Fd 0) (put_table t (set_ofileflags fls fdp) s)).

(** [F_SETLK], up to [VOP_ADVLOCK]. *)
Definition fcntl_setlk (p t fd : Z) (l_type : fcntl_lock) (s : state) : outcome state :=
  with_file p t fd s (fun _ fp =>
    let! f := deref (files s) fp in
    if negb (f_type f =? DTYPE_VNODE) then leave p (Err EBADF) s
    else if match l_type with F_RDLCK => negb (flag (f_flag f) FREAD) | F_WRLCK => negb (flag (f_flag f) FWRITE) | F_UNLCK => false end
    then leave p (Err EBADF) s
    else
      let! pr := deref (procs s) p in
      let s := match l_type with F_UNLCK => s | _ => set_procs (<[p := set_advlock pr]> (procs s)) s end in
      let! s := FREF fp s in
      goto p (Using fd fp) s).

(** Descriptors are [int]s; the identifiers of new objects are not in use. *)
Definition call_ok (c : call) (s : state) : bool :=
  match c with
  | SDup fd | SGetfd fd | SSetfd fd _ | SSetlk fd _ | SClose fd | SFstat fd => bool_decide (is_s 32 fd)
  | SDup2 a b | SDupfd a b => bool_decide (is_s 32 a) && bool_decide (is_s 32 b)
  | SKqueue a => bool_decide (files s !! a = None)
  | SFork q how =>
      bool_decide (0 <= q <= PID_MAX) && bool_decide (procs s !! q = None) &&
      match how with CleanFiles t | CopyFiles t => bool_decide (tables s !! t = None) | ShareFiles => true end
  | SSetrlimit lim => 0 <=? lim
  | _ => true
  end.

(** [dosetrlimit] for [RLIMIT_NOFILE]. *)
Definition nofile_limit (lim : Z) : Z := if maxfiles <? lim then maxfiles else lim.

(** A call of process [p], which is [pr], up to its first sleep. *)
Definition enter (p : Z) (pr : fd_proc) (c : call) (s : state) : outcome state :=
  let t := p_fd pr in
  let rlim := p_rlim_nofile pr in
  match c with
  | SDup fd => dup_enter p t fd s
  | SDup2 old new => dup2_enter p t rlim old new s
  | SDupfd fd newmin => dupfd_enter p t rlim fd newmin s
  | SGetfd fd => fcntl_getfd p t fd s
  | SSetfd fd arg => fcntl_setfd p t fd arg s
  | SSetlk fd l_type => fcntl_setlk p t fd l_type s
  | SClose fd => sys_close_enter p t fd s
  | SClosefrom fd => goto p (ClosefromLock (u32 fd)) s
  | SOpen oflags => goto p (OpenLock oflags) s
  | SSocket => goto p SocketLock s
  | SKqueue a => sys_kqueue p t rlim a s
  | SFstat fd => sys_fstat_enter p t fd s
  | SFork q how => fork1 p q pr how s
  | SExec => goto p (After (KExec 0) 0) s
  | SExit => fdfree p t s
  | SSetrlimit lim =>
      leave p (Fd 0) (set_procs (<[p := set_rlim (nofile_limit lim) pr]> (procs s)) s)
  end.

(** A process that waits for the lock of its table. *)
Definition locked (p : Z) (pr : fd_proc) (a : Z) (s : state) : option (outcome state) :=
  let t := p_fd pr in
  let rlim := p_rlim_nofile pr in
  match p_pc pr with
  | DupLock fp old => Some (dup_locked p t rlim fp old s)
  | Dup2Lock fp old new => Some (dup2_locked p t rlim fp old new s)
  | DupfdLock fp fd newmin => Some (dupfd_locked p t rlim fp fd newmin s)
  | CloseLock fd => Some (fdrelease p t fd KClose s)
  | ClosefromLock startfd => Some (closefrom_locked p t startfd s)
  | OpenLock oflags => Some (open_locked p t rlim oflags a s)
  | SocketLock => Some (socket_locked p t rlim a s)
  | _ => None
  end.

(** What happens next: a call, a step of a process in the kernel (with the
    address that [pool_get] would return), or the answer of the code outside. *)
Inductive label :=
| Enter (p : Z) (c : call)
| Go (p a : Z)
| VnAnswer (p : Z) (r : vn_result)
| Answer (p error : Z)
| Used (p : Z) (r : result).

(** [None] when the label does not fit the state: the process is elsewhere, or
    has to sleep. *)
Definition step (l : label) (s : state) : option (outcome state) :=
  match l with
  | Enter p c =>
      match procs s !! p with
      | Some pr => match p_pc pr with User => if call_ok c s then Some (enter p pr c s) else None | _ => None end
      | None => None
      end
  | Go p a =>
      match procs s !! p with
      | None => None
      | Some pr =>
          match p_pc pr with
          | Closef Unlocking fp k => Some (closef_drop p fp k s)
          | Closef Draining fp k =>
              if bool_decide (slpque s !! p = None) then Some (closef_drain p fp k s) else None
          | After k e => Some (resume p (p_fd pr) k e s)
          | _ =>
              if bool_decide (locks s !! p_fd pr = None) && bool_decide (files s !! a = None)
              then locked p pr a (fdplock p (p_fd pr) s) else None
          end
      end
  | VnAnswer p r =>
      match procs s !! p with
      | Some pr =>
          match p_pc pr with
          | Opening fp indx flags lt => if vn_ok r then Some (vn_opened p (p_fd pr) fp indx flags lt r s) else None
          | _ => None
          end
      | None => None
      end
  | Answer p e =>
      match procs s !! p with
      | None => None
      | Some pr =>
          match p_pc pr with
          | OpenAdvlock fp indx lt => Some (open_advlocked p (p_fd pr) fp indx lt e s)
          | OpenTrunc fp indx => Some (open_truncated p (p_fd pr) fp indx e s)
          | Socreate fp fd => Some (socreated p (p_fd pr) fp fd e s)
          | Closef Closing fp k => Some (closef_free p fp k e s)
          | _ => None
          end
      end
  | Used p r =>
      match procs s !! p with
      | Some pr => match p_pc pr with Using _ fp => Some (let! s := FRELE fp s in leave p r s) | _ => None end
      | None => None
      end
  end.
End Kernel.
