(* ===== verification/FdInv.v ===== *)
(** * The books of the open files

    What the counts of a file stand for: [f_count] is the number of descriptors
    that hold it, and of calls that are about to drop one, [f_usecount] the
    number of calls that are using it.  Each process claims its share; the
    claims follow from the point where its call sleeps. *)

From stdpp Require Import gmap.
From S2P Require Import Prelude Libkern Filedesc FdMap FdTable FdAlloc MapSum Files.

(** * Occurrences in a list *)

Fixpoint occ {A} `{EqDecision A} (x : A) (l : list A) : Z :=
  match l with [] => 0 | y :: l => (if decide (y = x) then 1 else 0) + occ x l end.

Section Occ.
Context {A : Type} `{EqDecision A}.
Implicit Types (x y : A) (l : list A).

Lemma occ_nonneg x l : 0 <= occ x l.
Proof. induction l; simpl; [lia|case_decide; lia]. Qed.

Lemma occ_length x l : occ x l <= Z.of_nat (length l).
Proof. induction l; simpl; [lia|case_decide; lia]. Qed.

Lemma occ_app x l l' : occ x (l ++ l') = occ x l + occ x l'.
Proof. induction l as [|y l IH]; simpl; [done|rewrite IH; lia]. Qed.

Lemma occ_insert x l i y z :
  l !! i = Some z -> occ x (<[i := y]> l) = occ x l - (if decide (z = x) then 1 else 0) + (if decide (y = x) then 1 else 0).
Proof.
  revert i. induction l as [|w l IH]; intros [|i] E; simpl in *; try done.
  - injection E as ->. lia.
  - rewrite (IH i E). lia.
Qed.

Lemma occ_elem x l : 0 < occ x l <-> x ∈ l.
Proof.
  pose proof (occ_nonneg x l). induction l as [|y l IH]; simpl; [split; [lia|by intros ?%not_elem_of_nil]|].
  pose proof (occ_nonneg x l). rewrite elem_of_cons, <- IH by done. case_decide; subst.
  - split; [by left|lia].
  - split; [right; lia|intros [->|]; [done|lia]].
Qed.

Lemma occ_none x l : x ∉ l -> occ x l = 0.
Proof. rewrite <- occ_elem. pose proof (occ_nonneg x l). lia. Qed.

Lemma occ_zeroes x y k : x <> y -> occ x (replicate k y) = 0.
Proof. intros. apply occ_none. by intros [-> _]%elem_of_replicate. Qed.
End Occ.

(** * Claims *)

(** What a process has a share in: the uses of files it holds, the references
    it is about to drop, the files it is closing and those that it is closing
    alone, the files that are not complete yet; whether it holds the lock of
    its table, what it knows of the table, a descriptor that is marked and
    still empty, and the progress of [fdfree]. *)
Record claim := Claim {
  c_refs : list Z;
  c_drops : list Z;
  c_wants : list Z;
  c_onlys : list Z;
  c_larvals : list Z;
  c_lock : bool;
  c_slots : list (Z * Z);
  c_index : list Z;
  c_hole : option Z;
  c_dying : option (Z * Z);
}.

Definition idle : claim := Claim [] [] [] [] [] false [] [] None None.
Definition kept (b : bool) : claim := Claim [] [] [] [] [] b [] [] None None.
Definition dying (fpp i : Z) : claim := Claim [] [] [] [] [] false [] [] None (Some (fpp, i)).

(** Before or after [closef], by what follows it. *)
Definition claim_cont (k : cont) : claim :=
  match k with
  | KOut _ | KClose | KFrom _ => kept true
  | KExec _ => idle
  | KFree fpp i => dying fpp i
  end.

Definition holding (fp : Z) (c : claim) : claim :=
  Claim (fp :: c_refs c) (c_drops c) (c_wants c) (c_onlys c) (c_larvals c) (c_lock c) (c_slots c) (c_index c) (c_hole c) (c_dying c).
Definition dropping (fp : Z) (c : claim) : claim :=
  Claim (c_refs c) (fp :: c_drops c) (c_wants c) (c_onlys c) (c_larvals c) (c_lock c) (c_slots c) (c_index c) (c_hole c) (c_dying c).
Definition closing (fp : Z) (c : claim) : claim :=
  Claim (c_refs c) (c_drops c) (fp :: c_wants c) (c_onlys c) (c_larvals c) (c_lock c) (c_slots c) (c_index c) (c_hole c) (c_dying c).
Definition alone (fp : Z) (c : claim) : claim :=
  Claim (c_refs c) (c_drops c) (c_wants c) (fp :: c_onlys c) (c_larvals c) (c_lock c) (c_slots c) (c_index c) (c_hole c) (c_dying c).
Definition making (fp : Z) (c : claim) : claim :=
  Claim (c_refs c) (c_drops c) (c_wants c) (c_onlys c) (fp :: c_larvals c) (c_lock c) (c_slots c) (c_index c) (c_hole c) (c_dying c).
Definition knowing (fd fp : Z) (c : claim) : claim :=
  Claim (c_refs c) (c_drops c) (c_wants c) (c_onlys c) (c_larvals c) (c_lock c) ((fd, fp) :: c_slots c) (c_index c) (c_hole c) (c_dying c).
Definition indexing (fd : Z) (c : claim) : claim :=
  Claim (c_refs c) (c_drops c) (c_wants c) (c_onlys c) (c_larvals c) (c_lock c) (c_slots c) (fd :: c_index c) (c_hole c) (c_dying c).
Definition locking (b : bool) (c : claim) : claim :=
  Claim (c_refs c) (c_drops c) (c_wants c) (c_onlys c) (c_larvals c) b (c_slots c) (c_index c) (c_hole c) (c_dying c).

Definition claim_of (x : pc) : claim :=
  match x with
  | User | ClosefromLock _ | OpenLock _ | SocketLock => idle
  | DupLock fp old | Dup2Lock fp old _ | DupfdLock fp old _ | Using old fp => holding fp (knowing old fp idle)
  | CloseLock fd => indexing fd idle
  | Opening fp indx _ _ | OpenAdvlock fp indx _ | OpenTrunc fp indx | Socreate fp indx =>
      holding fp (making fp (knowing indx fp (kept true)))
  | Closef Unlocking fp k => holding fp (dropping fp (claim_cont k))
  | Closef Draining fp k => holding fp (closing fp (claim_cont k))
  | Closef Closing fp k => holding fp (alone fp (closing fp (claim_cont k)))
  | After k _ => claim_cont k
  end.

Definition claims (P : gmap Z fd_proc) : gmap Z claim := (fun pr => claim_of (p_pc pr)) <$> P.

(** The arguments that a call carries across a sleep. *)
Definition pc_args (x : pc) : Prop :=
  match x with
  | Dup2Lock _ old new => is_s 32 new /\ 0 <= new /\ old <> new
  | DupfdLock _ _ newmin => is_s 32 newmin /\ 0 <= newmin
  | ClosefromLock n | Closef _ _ (KFrom n) | After (KFrom n) _ => is_u 32 n
  | Closef _ _ (KExec n) | After (KExec n) _ => 0 <= n
  | _ => True
  end.

(** * The counts of a file *)

Definition slots (T : gmap Z filedesc) (a : Z) : Z := msum (fun f => occ (Some a) (fd_ofiles f)) T.
Definition tally (g : claim -> list Z) (C : gmap Z claim) (a : Z) : Z := msum (fun c => occ a (g c)) C.

Definition file_ok (o : option file) (nslots ndrops nrefs nwants nonlys nlarvals : Z) : Prop :=
  match o with
  | Some f =>
      f_count f = nslots + ndrops /\ f_usecount f = nrefs /\ 0 <= f_iflags f < 4 /\
      flag (f_iflags f) FIF_WANTCLOSE = (0 <? nwants) /\ nwants <= 1 /\ (0 < nwants <-> f_count f = 0) /\
      nonlys <= nwants /\ (0 < nonlys -> nrefs = 1) /\
      nlarvals <= 1 /\ (0 < nlarvals -> flag (f_iflags f) FIF_LARVAL = true /\ nslots = 1 /\ ndrops = 0) /\
      (flag (f_iflags f) FIF_LARVAL = true -> 0 < nlarvals \/ nslots = 0)
  | None => nslots = 0 /\ ndrops = 0 /\ nrefs = 0 /\ nwants = 0 /\ nonlys = 0 /\ nlarvals = 0
  end.

Definition books (F : gmap Z file) (T : gmap Z filedesc) (C : gmap Z claim) : Prop :=
  forall a, file_ok (F !! a) (slots T a) (tally c_drops C a) (tally c_refs C a) (tally c_wants C a)
              (tally c_onlys C a) (tally c_larvals C a).

(** * The table of a process *)

Definition table_as (c : claim) (f : filedesc) : Prop :=
  match c_dying c with
  | None =>
      fd_refcnt f = 1 /\ bitmaps f /\
      (forall fd, 0 <= fd -> c_hole c <> Some fd -> used f fd = bool_decide (is_Some (slot f fd))) /\
      (forall i, c_hole c = Some i -> 0 <= i /\ used f i = true /\ slot f i = None) /\
      (forall fd a, (fd, a) ∈ c_slots c -> 0 <= fd /\ slot f fd = Some a) /\
      (forall fd, fd ∈ c_index c -> 0 <= fd < fd_nfiles f)
  | Some (fpp, i) =>
      fd_refcnt f = 0 /\ In (fd_nfiles f) fd_sizes /\ Z.of_nat (length (fd_ofiles f)) = fd_nfiles f /\
      0 <= fpp /\ fpp + i < fd_nfiles f /\ forall j, 0 <= j < fd_nfiles f -> j < fpp \/ fpp + i < j -> slot f j = None
  end.

(** A file that a process closes alone is one it uses, and a file that it makes
    is in its table. *)
Definition claim_ok (c : claim) : Prop :=
  (length (c_refs c) <= 2)%nat /\ (length (c_drops c) <= 2)%nat /\ (forall a, a ∈ c_onlys c -> a ∈ c_refs c) /\
  (forall a, a ∈ c_larvals c -> c_dying c = None /\ exists fd, (fd, a) ∈ c_slots c).

Section Inv.
Context (maxfiles : Z).

(** Each process has a table of its own, and holds its lock when it says so. *)
Record owners (T : gmap Z filedesc) (L : gmap Z Z) (P : gmap Z fd_proc) (C : gmap Z claim) : Prop := {
  ow_dom : forall p, is_Some (C !! p) <-> is_Some (P !! p);
  ow_proc : forall p pr, P !! p = Some pr -> 0 <= p <= PID_MAX /\ 0 <= p_rlim_nofile pr <= maxfiles;
  ow_table : forall p pr c, P !! p = Some pr -> C !! p = Some c ->
    claim_ok c /\ exists f, T !! p_fd pr = Some f /\ table_as c f;
  ow_unshared : forall p q pr qr, P !! p = Some pr -> P !! q = Some qr -> p_fd pr = p_fd qr -> p = q;
  ow_owner : forall t f, T !! t = Some f -> exists p pr, P !! p = Some pr /\ p_fd pr = t;
  ow_locked : forall t p, L !! t = Some p -> exists pr c, P !! p = Some pr /\ p_fd pr = t /\ C !! p = Some c /\ c_lock c = true;
  ow_holds : forall p pr c, P !! p = Some pr -> C !! p = Some c -> c_lock c = true -> L !! p_fd pr = Some p;
}.

(** The invariant, with the claims of the processes given apart, so that it can
    also describe the middle of a call.  Nobody sleeps in [closef]: when the
    last reference goes nobody else can be using the file, since who uses it
    has it in his table. *)
Definition inv (s : state) (C : gmap Z claim) : Prop :=
  books (files s) (tables s) C /\ owners (tables s) (locks s) (procs s) C /\
  nfiles s = Z.of_nat (size (files s)) /\ nfiles s <= maxfiles /\ slpque s = ∅.

Definition ok (s : state) : Prop :=
  inv s (claims (procs s)) /\ forall p pr, procs s !! p = Some pr -> pc_args (p_pc pr).
End Inv.
