(* ===== verification/FdBooks.v ===== *)
(** * Keeping the books

    How the counts change with the claims: taking and giving back a use,
    dropping a reference, freeing a file, writing descriptors, creating a
    file. *)

From stdpp Require Import gmap.
From S2P Require Import Prelude Libkern Filedesc FdMap FdTable FdAlloc MapSum Files FdInv.

Section Tally.
Implicit Types (C : gmap Z claim) (T : gmap Z filedesc) (F : gmap Z file).

Lemma tally_update g C p c c' a : C !! p = Some c -> tally g (<[p := c']> C) a = tally g C a - occ a (g c) + occ a (g c').
Proof. intros H. unfold tally. by rewrite (msum_update _ C p c c' H). Qed.

Lemma tally_nonneg g C a : 0 <= tally g C a.
Proof. apply msum_nonneg. intros c. apply occ_nonneg. Qed.

Lemma tally_elem g C p c a : C !! p = Some c -> occ a (g c) <= tally g C a.
Proof. apply (msum_elem (fun c => occ a (g c))). intros v. apply occ_nonneg. Qed.

Lemma tally_two g C p q c c' a : p <> q -> C !! p = Some c -> C !! q = Some c' -> occ a (g c) + occ a (g c') <= tally g C a.
Proof. apply (msum_two (fun c => occ a (g c))). intros v. apply occ_nonneg. Qed.

Lemma slots_update T t f f' a : T !! t = Some f ->
  slots (<[t := f']> T) a = slots T a - occ (Some a) (fd_ofiles f) + occ (Some a) (fd_ofiles f').
Proof. intros H. unfold slots. by rewrite (msum_update _ T t f f' H). Qed.

Lemma slots_nonneg T a : 0 <= slots T a.
Proof. apply msum_nonneg. intros c. apply occ_nonneg. Qed.

Lemma slots_elem T t f a : T !! t = Some f -> occ (Some a) (fd_ofiles f) <= slots T a.
Proof. apply (msum_elem (fun f => occ (Some a) (fd_ofiles f))). intros v. apply occ_nonneg. Qed.

Lemma slots_two T t t' f f' a : t <> t' -> T !! t = Some f -> T !! t' = Some f' ->
  occ (Some a) (fd_ofiles f) + occ (Some a) (fd_ofiles f') <= slots T a.
Proof. apply (msum_two (fun f => occ (Some a) (fd_ofiles f))). intros v. apply occ_nonneg. Qed.

(** The claims of [p] change from [c] to [c']: what is left to show of a file. *)
Lemma books_at F T C F' T' p c c' :
  books F T C -> C !! p = Some c ->
  (forall b s d r w o l s' d' r' w' o' l',
    file_ok (F !! b) s d r w o l -> s = slots T b -> s' = slots T' b -> l = tally c_larvals C b -> o = tally c_onlys C b -> w = tally c_wants C b -> r = tally c_refs C b ->
    d' = d - occ b (c_drops c) + occ b (c_drops c') -> r' = r - occ b (c_refs c) + occ b (c_refs c') ->
    w' = w - occ b (c_wants c) + occ b (c_wants c') -> o' = o - occ b (c_onlys c) + occ b (c_onlys c') ->
    l' = l - occ b (c_larvals c) + occ b (c_larvals c') ->
    0 <= s /\ 0 <= d /\ 0 <= r /\ 0 <= w /\ 0 <= o /\ 0 <= l ->
    0 <= s' /\ 0 <= d' /\ 0 <= r' /\ 0 <= w' /\ 0 <= o' /\ 0 <= l' ->
    file_ok (F' !! b) s' d' r' w' o' l') ->
  books F' T' (<[p := c']> C).
Proof.
  intros Hb Hc H b. eapply H; [exact (Hb b)|done|done|done|done|done|done|by apply tally_update..| |]; conj; apply tally_nonneg || apply slots_nonneg.
Qed.
End Tally.

Ltac split_file :=
  unfold file_ok in *;
  cbn [f_count f_usecount f_iflags f_flag f_type set_f_count set_f_usecount set_f_iflags set_f_flag set_f_type] in *;
  repeat match goal with H : _ /\ _ |- _ => destruct H end.

(** Reduce a change of the books to the file [a]: every other file keeps its
    entries. *)
Ltac books_change a :=
  eapply books_at; [eassumption|eassumption|];
  intros b s d r w o l s' d' r' w' o' l' Hfile Hs Hs' Hl Hon' Hwt Hrt Hd Hr Hw Ho Hlv Hold Hnew; simpl in *;
  destruct (decide (a = b)) as [<-|Hne];
  [rewrite ?decide_True in * by done | rewrite ?lookup_insert_ne, ?lookup_delete_ne by done; rewrite ?decide_False in * by congruence;
   try (replace s' with s by lia; replace d' with d by lia; replace r' with r by lia; replace w' with w by lia;
        replace o' with o by lia; replace l' with l by lia; exact Hfile)].

Lemma books_ref F T C p c a f :
  books F T C -> C !! p = Some c -> F !! a = Some f -> 0 < f_count f ->
  books (<[a := set_f_usecount (f_usecount f + 1) f]> F) T (<[p := holding a c]> C).
Proof.
  intros Hb Hc Hf Hpos. books_change a. rewrite Hf in Hfile. rewrite lookup_insert_eq.
  split_file. replace s' with s by lia. replace d' with d by lia. replace w' with w by lia.
  replace o' with o by lia. replace l' with l by lia. conj; try done; lia.
Qed.

Lemma books_unref F T C p c a f :
  books F T C -> C !! p = Some (holding a c) -> F !! a = Some f -> tally c_onlys C a = 0 ->
  books (<[a := set_f_usecount (f_usecount f - 1) f]> F) T (<[p := c]> C).
Proof.
  intros Hb Hc Hf Hon.  books_change a. rewrite Hf in Hfile. rewrite lookup_insert_eq.
  split_file. replace s' with s by lia. replace d' with d by lia. replace w' with w by lia.
  replace o' with o by lia. replace l' with l by lia. conj; try done; try lia.
Qed.

(** One reference fewer, when others are left. *)
Lemma books_drop F T C p c a f :
  books F T C -> C !! p = Some (dropping a c) -> F !! a = Some f -> 0 < f_count f - 1 ->
  books (<[a := set_f_count (f_count f - 1) f]> F) T (<[p := c]> C).
Proof.
  intros Hb Hc Hf Hpos. books_change a. rewrite Hf in Hfile. rewrite lookup_insert_eq.
  split_file. replace s' with s by lia. replace r' with r by lia. replace w' with w by lia.
  replace o' with o by lia. replace l' with l by lia. conj; try done; lia.
Qed.

Lemma flag_small x : 0 <= x < 4 ->
  0 <= Z.lor x FIF_WANTCLOSE < 4 /\ 0 <= Z.land x (Z.lnot FIF_LARVAL) < 4 /\
  flag (Z.lor x FIF_WANTCLOSE) FIF_WANTCLOSE = true /\ flag (Z.lor x FIF_WANTCLOSE) FIF_LARVAL = flag x FIF_LARVAL /\
  flag (Z.land x (Z.lnot FIF_LARVAL)) FIF_WANTCLOSE = flag x FIF_WANTCLOSE /\ flag (Z.land x (Z.lnot FIF_LARVAL)) FIF_LARVAL = false.
Proof. intros Hx. assert (x = 0 \/ x = 1 \/ x = 2 \/ x = 3) as [->|[->|[->| ->]]] by lia; done. Qed.

(** The last reference: the file is to be closed. *)
Lemma books_last F T C p c a f :
  books F T C -> C !! p = Some (dropping a c) -> F !! a = Some f -> f_count f - 1 = 0 ->
  books (<[a := set_f_iflags (Z.lor (f_iflags f) FIF_WANTCLOSE) (set_f_count (f_count f - 1) f)]> F) T (<[p := closing a c]> C).
Proof.
  intros Hb Hc Hf Hpos. books_change a. rewrite Hf in Hfile. rewrite lookup_insert_eq.
  split_file. destruct (flag_small (f_iflags f)) as (G1 & G2 & G3 & G4 & G5 & G6); [lia|].
  rewrite G3, G4. replace s' with s by lia. replace r' with r by lia. replace w' with 1 by lia.
  replace o' with o by lia. replace l' with l by lia. conj; try done; try lia.
Qed.

(** Nobody else uses a file that is being closed. *)
Lemma books_alone F T C p c a f :
  books F T C -> C !! p = Some (holding a (closing a c)) -> F !! a = Some f -> f_usecount f <= 1 -> tally c_onlys C a = 0 ->
  books F T (<[p := holding a (alone a (closing a c))]> C).
Proof.
  intros Hb Hc Hf Hu Ho'. pose proof (tally_elem c_wants C p _ a Hc) as H1. pose proof (tally_elem c_refs C p _ a Hc) as H2.
  pose proof (occ_nonneg a (c_refs c)). pose proof (occ_nonneg a (c_wants c)). books_change a. rewrite Hf in *.
  split_file. replace s' with s by lia. replace d' with d by lia. replace r' with r by lia. replace w' with w by lia.
  replace l' with l by lia. conj; try done; try lia.
Qed.

Lemma books_free F T C p c a f :
  books F T C -> C !! p = Some (holding a (alone a (closing a c))) -> F !! a = Some f ->
  f_count f = 0 /\ f_usecount f = 1 /\ books (delete a F) T (<[p := c]> C).
Proof.
  intros Hb Hc Hf. pose proof (Hb a) as Ha. rewrite Hf in Ha.
  pose proof (tally_elem c_onlys C p _ a Hc) as Ho. pose proof (tally_elem c_wants C p _ a Hc) as Hw. simpl in Ho, Hw.
  rewrite !decide_True in Ho, Hw by done. pose proof (occ_nonneg a (c_onlys c)). pose proof (occ_nonneg a (c_wants c)).
  assert (f_count f = 0 /\ f_usecount f = 1) as [Hcnt Hu]. { clear -Ha Ho Hw H H0. split_file. split; [tauto || lia|lia]. }
  split; [done|]. split; [done|]. clear Ho Hw. books_change a. rewrite Hf in Hfile. rewrite lookup_delete_eq. split_file. lia.
Qed.

(** * Descriptors *)

(** A table and the references about to be dropped change together.  Each file
    keeps its entries, or leaves a descriptor (and with it is no longer being
    made), or moves into one. *)
Lemma books_slots F T C p c c' t f f' :
  books F T C -> C !! p = Some c -> T !! t = Some f ->
  c_refs c' = c_refs c -> c_wants c' = c_wants c -> c_onlys c' = c_onlys c ->
  (forall a, occ (Some a) (fd_ofiles f') + occ a (c_drops c') = occ (Some a) (fd_ofiles f) + occ a (c_drops c)) ->
  (forall a,
    (occ (Some a) (fd_ofiles f') = occ (Some a) (fd_ofiles f) /\ occ a (c_larvals c') = occ a (c_larvals c)) \/
    (tally c_larvals C a = occ a (c_larvals c) /\ occ a (c_larvals c') = 0 /\
      (occ (Some a) (fd_ofiles f') < occ (Some a) (fd_ofiles f) \/ (occ a (c_larvals c) = 0 /\ 0 < slots T a)))) ->
  books F (<[t := f']> T) (<[p := c']> C).
Proof.
  intros Hb Hc Ht Er Ew Eo Hsum Hlar. eapply books_at; [eassumption|eassumption|].
  intros b s d r w o l s' d' r' w' o' l' Hfile Hs Hs' Hl _ _ _ Hd Hr Hw Ho Hlv Hold Hnew.
  rewrite (slots_update T t f f' b Ht) in Hs'. specialize (Hsum b). specialize (Hlar b).
  rewrite Er in Hr. rewrite Ew in Hw. rewrite Eo in Ho.
  replace r' with r by lia. replace w' with w by lia. replace o' with o by lia.
  unfold file_ok in *. destruct (F !! b) as [g|]; [|lia]. clear Er Ew Eo Hb Hc Ht. split_file.
  conj; try done; try lia.
  - intros Hl'. assert (0 < l) as Hl0 by lia. match goal with H : 0 < l -> _ |- _ => destruct (H Hl0) as (Hf & Hs1 & Hd0) end.
    split; [done|]. lia.
  - intros Hf. match goal with H : flag _ FIF_LARVAL = true -> _ |- _ => destruct (H Hf) as [Hl0|Hs0] end; [|lia].
    match goal with H : 0 < l -> _ |- _ => destruct (H Hl0) as (_ & Hs1 & Hd0) end. lia.
Qed.

(** A further reference to a file in a table, before it has a descriptor. *)
Lemma books_more F T C p c a f :
  books F T C -> C !! p = Some c -> F !! a = Some f -> 0 < f_count f -> tally c_larvals C a = 0 ->
  books (<[a := set_f_count (f_count f + 1) f]> F) T (<[p := dropping a c]> C).
Proof.
  intros Hb Hc Hf Hpos Hlar. books_change a. rewrite Hf in Hfile. rewrite lookup_insert_eq.
  split_file. replace s' with s by lia. replace r' with r by lia. replace w' with w by lia.
  replace o' with o by lia. replace l' with l by lia. conj; try done; lia.
Qed.

(** A new file, in a descriptor that was empty. *)
Lemma books_new F T C p c a t f i :
  books F T C -> C !! p = Some c -> F !! a = None -> T !! t = Some f -> fd_ofiles f !! i = Some None ->
  books (<[a := File 0 0 1 FIF_LARVAL 1]> F) (<[t := set_ofiles (<[i := Some a]> (fd_ofiles f)) f]> T)
    (<[p := holding a (making a c)]> C).
Proof.
  intros Hb Hc Hf Ht Hi. eapply books_at; [eassumption|eassumption|].
  intros b s d r w o l s' d' r' w' o' l' Hfile Hs Hs' Hl _ _ _ Hd Hr Hw Ho Hlv Hold Hnew; simpl in *.
  rewrite (slots_update T t f _ b Ht) in Hs'. simpl in Hs'. rewrite (occ_insert _ _ _ _ _ Hi) in Hs'.
  rewrite decide_False in Hs' by done. destruct (decide (a = b)) as [<-|Hne].
  - rewrite Hf in Hfile. rewrite lookup_insert_eq. rewrite decide_True in Hs' by done. split_file.
    replace s' with 1 by lia. replace d' with 0 by lia. replace r' with 1 by lia. replace w' with 0 by lia.
    replace o' with 0 by lia. replace l' with 1 by lia. conj; try done; try lia.
  - rewrite lookup_insert_ne by done. rewrite decide_False in Hs' by congruence.
    replace s' with s by lia; replace d' with d by lia; replace r' with r by lia; replace w' with w by lia;
    replace o' with o by lia; replace l' with l by lia. exact Hfile.
Qed.

Lemma books_mature F T C p c a f :
  books F T C -> C !! p = Some (making a c) -> F !! a = Some f ->
  books (<[a := set_f_iflags (Z.land (f_iflags f) (Z.lnot FIF_LARVAL)) f]> F) T (<[p := c]> C).
Proof.
  intros Hb Hc Hf. books_change a. rewrite Hf in Hfile. rewrite lookup_insert_eq.
  split_file. destruct (flag_small (f_iflags f)) as (G1 & G2 & G3 & G4 & G5 & G6); [lia|].
  rewrite G5, G6. replace s' with s by lia. replace d' with d by lia. replace r' with r by lia. replace w' with w by lia.
  replace o' with o by lia. replace l' with 0 by lia. conj; try done; lia.
Qed.

(** Fields the books do not depend on. *)
Lemma books_attr F T C a f f' :
  books F T C -> F !! a = Some f -> f_count f' = f_count f -> f_usecount f' = f_usecount f -> f_iflags f' = f_iflags f ->
  books (<[a := f']> F) T C.
Proof.
  intros Hb Hf E1 E2 E3 b. specialize (Hb b). destruct (decide (a = b)) as [<-|]; [|by rewrite lookup_insert_ne].
  rewrite lookup_insert_eq. rewrite Hf in Hb. unfold file_ok in *. by rewrite E1, E2, E3.
Qed.

(** Claims that concern the table only. *)
Lemma books_claim F T C p c c' :
  books F T C -> C !! p = Some c ->
  c_refs c' = c_refs c -> c_drops c' = c_drops c -> c_wants c' = c_wants c -> c_onlys c' = c_onlys c -> c_larvals c' = c_larvals c ->
  books F T (<[p := c']> C).
Proof.
  intros Hb Hc E1 E2 E3 E4 E5 b. rewrite !(tally_update _ C p c c' b Hc), E1, E2, E3, E4, E5, !Z.sub_add. apply Hb.
Qed.

(** * Processes that come and go *)

Lemma tally_fresh g C q c a : C !! q = None -> tally g (<[q := c]> C) a = occ a (g c) + tally g C a.
Proof. intros H. unfold tally. by rewrite (msum_fresh _ C q c H). Qed.

Lemma slots_fresh T t f a : T !! t = None -> slots (<[t := f]> T) a = occ (Some a) (fd_ofiles f) + slots T a.
Proof. intros H. unfold slots. by rewrite (msum_fresh _ T t f H). Qed.

Lemma books_exit F T C p c t f :
  books F T C -> C !! p = Some c -> T !! t = Some f -> (forall a, occ (Some a) (fd_ofiles f) = 0) ->
  c_refs c = [] -> c_drops c = [] -> c_wants c = [] -> c_onlys c = [] -> c_larvals c = [] ->
  books F (delete t T) (delete p C).
Proof.
  intros Hb Hc Ht Ho E1 E2 E3 E4 E5 b. specialize (Hb b). unfold tally, slots in *.
  rewrite !(msum_delete _ C p c Hc), (msum_delete _ T t f Ht), E1, E2, E3, E4, E5, Ho. simpl. by rewrite !Z.sub_0_r.
Qed.

(** A copy of a table: each file gets the references that the copy holds. *)
Definition counted (f : filedesc) (F F' : gmap Z file) : Prop :=
  forall a, F' !! a = (fun g => set_f_count (f_count g + occ (Some a) (fd_ofiles f)) g) <$> F !! a.

Lemma books_fork F T C F' q t f :
  books F T C -> C !! q = None -> T !! t = None -> counted f F F' ->
  (forall a, 0 < occ (Some a) (fd_ofiles f) -> exists g, F !! a = Some g /\ 0 < f_count g /\ tally c_larvals C a = 0 /\ 0 < slots T a) ->
  books F' (<[t := f]> T) (<[q := idle]> C).
Proof.
  intros Hb Hq Ht HF Hin b. specialize (Hb b). rewrite !(tally_fresh _ C q idle b Hq), slots_fresh, HF by done. simpl.
  pose proof (occ_nonneg (Some b) (fd_ofiles f)) as Hn. specialize (Hin b). destruct (F !! b) as [g|] eqn:E; simpl in *.
  - rewrite !Z.add_0_l. destruct (decide (0 < occ (Some b) (fd_ofiles f))) as [Hlt|].
    + destruct (Hin Hlt) as (g' & [= <-] & Hpos & Hl & Hs). split_file. conj; try done; try lia.
      intros Hf. match goal with H : flag _ FIF_LARVAL = true -> _ |- _ => destruct (H Hf) end; lia.
    + replace (occ (Some b) (fd_ofiles f)) with 0 in * by lia. rewrite Z.add_0_l, Z.add_0_r. by destruct g.
  - destruct (decide (0 < occ (Some b) (fd_ofiles f))) as [Hlt|]; [|lia]. by destruct (Hin Hlt) as (g' & ? & _).
Qed.
