(* ===== verification/FdOwn.v ===== *)
(** * Tables, locks and their owners

    How [owners] is kept when a process changes its table, takes or gives up
    its lock, or goes on; and what follows from the tables not being shared. *)

From stdpp Require Import gmap.
From S2P Require Import Prelude Libkern Filedesc FdMap FdTable FdAlloc MapSum Files FdInv FdBooks.

Section Owners.
Context (maxfiles : Z).
Implicit Types (T : gmap Z filedesc) (L : gmap Z Z) (P : gmap Z fd_proc) (C : gmap Z claim) (F : gmap Z file).

Notation owners := (owners maxfiles).

Lemma owners_get T L P C p pr : owners T L P C -> P !! p = Some pr ->
  exists c f, C !! p = Some c /\ T !! p_fd pr = Some f /\ table_as c f /\ claim_ok c.
Proof.
  intros H Hp. destruct (proj2 (ow_dom _ _ _ _ _ H p)) as [c Hc]; [by eexists|].
  destruct (ow_table _ _ _ _ _ H p pr c Hp Hc) as (Hok & f & Hf & Ht). eauto 10.
Qed.

(** [p] changes its table and its claims. *)
Lemma owners_table T L P C p pr c f c' f' :
  owners T L P C -> P !! p = Some pr -> C !! p = Some c -> T !! p_fd pr = Some f ->
  table_as c' f' -> claim_ok c' -> c_lock c' = c_lock c ->
  owners (<[p_fd pr := f']> T) L P (<[p := c']> C).
Proof.
  intros H Hp Hc Hf Ht Hok El. destruct H as [Hdom Hproc Htab Hun Hown Hlk Hhold]. split.
  - intros q. destruct (decide (p = q)) as [<-|]; [rewrite lookup_insert_eq|by rewrite lookup_insert_ne].
    split; intros _; by eexists.
  - done.
  - intros q qr cq Hq. destruct (decide (p = q)) as [<-|Hne].
    + rewrite lookup_insert_eq. intros [= <-]. assert (qr = pr) as -> by congruence. split; [done|].
      exists f'. by rewrite lookup_insert_eq.
    + rewrite lookup_insert_ne by done. intros Hcq. destruct (Htab q qr cq Hq Hcq) as (Hok' & g & Hg & Hgt).
      split; [done|]. exists g. rewrite lookup_insert_ne; [done|]. intros E. by eapply Hne, Hun.
  - done.
  - intros t g. destruct (decide (p_fd pr = t)) as [<-|]; [by eauto|]. rewrite lookup_insert_ne by done. apply Hown.
  - intros t q E. destruct (Hlk t q E) as (qr & cq & Hq & Et & Hcq & Hl). exists qr.
    destruct (decide (p = q)) as [<-|].
    + exists c'. rewrite lookup_insert_eq. rewrite El. assert (cq = c) as -> by congruence. done.
    + exists cq. by rewrite lookup_insert_ne.
  - intros q qr cq Hq. destruct (decide (p = q)) as [<-|].
    + rewrite lookup_insert_eq. intros [= <-]. rewrite El. by apply (Hhold p qr c).
    + rewrite lookup_insert_ne by done. by apply Hhold.
Qed.

Lemma owners_claim T L P C p pr c f c' :
  owners T L P C -> P !! p = Some pr -> C !! p = Some c -> T !! p_fd pr = Some f ->
  table_as c' f -> claim_ok c' -> c_lock c' = c_lock c -> owners T L P (<[p := c']> C).
Proof. intros H Hp Hc Hf Ht Hok El. rewrite <- (insert_id T (p_fd pr) f Hf). by eapply owners_table. Qed.

Lemma table_locking b c f : table_as (locking b c) f <-> table_as c f.
Proof. done. Qed.

Lemma owners_lock T L P C p pr c :
  owners T L P C -> P !! p = Some pr -> C !! p = Some c -> L !! p_fd pr = None ->
  owners T (<[p_fd pr := p]> L) P (<[p := locking true c]> C).
Proof.
  intros H Hp Hc HL. destruct (owners_get _ _ _ _ _ _ H Hp) as (c0 & f & Hc0 & Hf & Ht & Hok).
  assert (c0 = c) as -> by congruence. destruct H as [Hdom Hproc Htab Hun Hown Hlk Hhold]. split; try done.
  - intros q. destruct (decide (p = q)) as [<-|]; [rewrite lookup_insert_eq|by rewrite lookup_insert_ne].
    split; intros _; by eexists.
  - intros q qr cq Hq. destruct (decide (p = q)) as [<-|]; [|rewrite lookup_insert_ne by done; by apply Htab].
    rewrite lookup_insert_eq. intros [= <-]. assert (qr = pr) as -> by congruence. eauto.
  - intros t q. destruct (decide (p_fd pr = t)) as [<-|Hne].
    + rewrite lookup_insert_eq. intros [= <-]. exists pr, (locking true c). by rewrite lookup_insert_eq.
    + rewrite lookup_insert_ne by done. intros E. destruct (Hlk t q E) as (qr & cq & Hq & Et & Hcq & Hl).
      exists qr, cq. rewrite lookup_insert_ne by congruence. done.
  - intros q qr cq Hq. destruct (decide (p = q)) as [<-|Hne].
    + rewrite lookup_insert_eq. intros [= <-] _. assert (qr = pr) as -> by congruence. by rewrite lookup_insert_eq.
    + rewrite lookup_insert_ne by done. intros Hcq Hl. pose proof (Hhold q qr cq Hq Hcq Hl).
      rewrite lookup_insert_ne; [done|congruence].
Qed.

Lemma owners_unlock T L P C p pr c :
  owners T L P C -> P !! p = Some pr -> C !! p = Some c ->
  owners T (delete (p_fd pr) L) P (<[p := locking false c]> C).
Proof.
  intros H Hp Hc. destruct (owners_get _ _ _ _ _ _ H Hp) as (c0 & f & Hc0 & Hf & Ht & Hok).
  assert (c0 = c) as -> by congruence. destruct H as [Hdom Hproc Htab Hun Hown Hlk Hhold]. split; try done.
  - intros q. destruct (decide (p = q)) as [<-|]; [rewrite lookup_insert_eq|by rewrite lookup_insert_ne].
    split; intros _; by eexists.
  - intros q qr cq Hq. destruct (decide (p = q)) as [<-|]; [|rewrite lookup_insert_ne by done; by apply Htab].
    rewrite lookup_insert_eq. intros [= <-]. assert (qr = pr) as -> by congruence. eauto.
  - intros t q E. apply lookup_delete_Some in E as [Hne E]. destruct (Hlk t q E) as (qr & cq & Hq & Et & Hcq & Hl).
    exists qr, cq. rewrite lookup_insert_ne by congruence. done.
  - intros q qr cq Hq. destruct (decide (p = q)) as [<-|Hne].
    + rewrite lookup_insert_eq. by intros [= <-].
    + rewrite lookup_insert_ne by done. intros Hcq Hl. rewrite lookup_delete_ne; [by eapply Hhold|].
      intros E. by eapply Hne, Hun.
Qed.

(** [p] goes on, with the same table. *)
Lemma owners_proc T L P C p pr pr' :
  owners T L P C -> P !! p = Some pr -> p_fd pr' = p_fd pr -> 0 <= p_rlim_nofile pr' <= maxfiles ->
  owners T L (<[p := pr']> P) C.
Proof.
  intros H Hp Et Hr. destruct H as [Hdom Hproc Htab Hun Hown Hlk Hhold].
  assert (forall q qr, <[p := pr']> P !! q = Some qr -> exists qr0, P !! q = Some qr0 /\ p_fd qr = p_fd qr0 /\
    (p_rlim_nofile qr = p_rlim_nofile qr0 \/ 0 <= p_rlim_nofile qr <= maxfiles)) as Hback.
  { intros q qr. destruct (decide (p = q)) as [<-|].
    - rewrite lookup_insert_eq. intros [= <-]. eauto.
    - rewrite lookup_insert_ne by done. eauto. }
  assert (forall q qr0, P !! q = Some qr0 -> exists qr, <[p := pr']> P !! q = Some qr /\ p_fd qr = p_fd qr0) as Hfwd.
  { intros q qr0 Hq. destruct (decide (p = q)) as [<-|].
    - exists pr'. rewrite lookup_insert_eq. split; [done|]. congruence.
    - exists qr0. by rewrite lookup_insert_ne. }
  split.
  - intros q. rewrite Hdom. split; intros [qr Hq].
    + destruct (Hfwd q qr Hq) as (? & ? & _). by eexists.
    + destruct (Hback q qr Hq) as (? & ? & _). by eexists.
  - intros q qr Hq. destruct (Hback q qr Hq) as (q0 & Hq0 & _ & Hor). pose proof (Hproc q q0 Hq0). destruct Hor; [lia|tauto].
  - intros q qr cq Hq. destruct (Hback q qr Hq) as (q0 & Hq0 & -> & _). by apply Htab.
  - intros q q' qr qr' Hq Hq' E. destruct (Hback q qr Hq) as (q0 & Hq0 & E0 & _).
    destruct (Hback q' qr' Hq') as (q1 & Hq1 & E1 & _). apply (Hun q q' q0 q1); congruence.
  - intros t f Hf. destruct (Hown t f Hf) as (q & qr & Hq & <-). destruct (Hfwd q qr Hq) as (qr' & ? & ?). eauto.
  - intros t q E. destruct (Hlk t q E) as (qr & cq & Hq & <- & Hcq & Hl). destruct (Hfwd q qr Hq) as (qr' & ? & ?). eauto 10.
  - intros q qr cq Hq. destruct (Hback q qr Hq) as (q0 & Hq0 & -> & _). by apply Hhold.
Qed.

(** [p] is gone, and its table with it. *)
Lemma owners_exit T L P C p pr c :
  owners T L P C -> P !! p = Some pr -> C !! p = Some c -> c_lock c = false ->
  owners (delete (p_fd pr) T) L (delete p P) (delete p C).
Proof.
  intros [Hdom Hproc Htab Hun Hown Hlk Hhold] Hp Hc Hl. split.
  - intros q. destruct (decide (p = q)) as [<-|]; [rewrite !lookup_delete_eq; split; by intros [? ?]|]. by rewrite !lookup_delete_ne.
  - intros q qr [_ Hq]%lookup_delete_Some. by apply Hproc.
  - intros q qr cq [Hne Hq]%lookup_delete_Some [_ Hcq]%lookup_delete_Some. destruct (Htab q qr cq Hq Hcq) as (Hok & g & Hg & Hgt).
    split; [done|]. exists g. rewrite lookup_delete_ne; [done|]. intros E. by eapply Hne, Hun.
  - intros q q' qr qr' [_ Hq]%lookup_delete_Some [_ Hq']%lookup_delete_Some. by apply Hun.
  - intros t g [Hne Hg]%lookup_delete_Some. destruct (Hown t g Hg) as (q & qr & Hq & <-). exists q, qr.
    rewrite lookup_delete_ne by congruence. done.
  - intros t q E. destruct (Hlk t q E) as (qr & cq & Hq & Et & Hcq & Hl'). exists qr, cq.
    assert (p <> q) by congruence. by rewrite !lookup_delete_ne.
  - intros q qr cq [_ Hq]%lookup_delete_Some [_ Hcq]%lookup_delete_Some. by apply Hhold.
Qed.

(** A new process [q], with a table of its own. *)
Lemma owners_fork T L P C q qr f :
  owners T L P C -> P !! q = None -> T !! p_fd qr = None -> 0 <= q <= PID_MAX -> 0 <= p_rlim_nofile qr <= maxfiles ->
  table_as idle f -> owners (<[p_fd qr := f]> T) L (<[q := qr]> P) (<[q := idle]> C).
Proof.
  intros [Hdom Hproc Htab Hun Hown Hlk Hhold] Hq Ht Hpid Hr Has.
  assert (forall x xr, P !! x = Some xr -> p_fd xr <> p_fd qr) as Hfresh.
  { intros x xr Hx E. destruct (proj2 (Hdom x)) as [cx Hcx]; [by eexists|]. destruct (Htab x xr cx Hx Hcx) as (_ & g & Hg & _). congruence. }
  split.
  - intros x. destruct (decide (q = x)) as [<-|]; [rewrite !lookup_insert_eq; split; by eexists|]. by rewrite !lookup_insert_ne.
  - intros x xr. destruct (decide (q = x)) as [<-|]; [rewrite lookup_insert_eq; by intros [= <-]|rewrite lookup_insert_ne by done; apply Hproc].
  - intros x xr cx. destruct (decide (q = x)) as [<-|].
    + rewrite !lookup_insert_eq. intros [= <-] [= <-]. split; [|exists f; by rewrite lookup_insert_eq].
      unfold claim_ok. simpl. conj; try lia; by intros ? ?%elem_of_nil.
    + rewrite !lookup_insert_ne by done. intros Hx Hcx. destruct (Htab x xr cx Hx Hcx) as (Hok & g & Hg & Hgt).
      split; [done|]. exists g. rewrite lookup_insert_ne; [done|]. apply not_eq_sym. by eapply Hfresh.
  - intros x y xr yr. destruct (decide (q = x)) as [<-|], (decide (q = y)) as [<-|]; rewrite ?lookup_insert_eq, ?lookup_insert_ne by done; try done.
    + intros [= <-] Hy E. by destruct (Hfresh y yr Hy).
    + intros Hx [= <-] E. by destruct (Hfresh x xr Hx).
    + apply Hun.
  - intros t g. destruct (decide (p_fd qr = t)) as [<-|].
    + intros _. exists q, qr. by rewrite lookup_insert_eq.
    + rewrite lookup_insert_ne by done. intros Hg. destruct (Hown t g Hg) as (x & xr & Hx & <-). exists x, xr.
      rewrite lookup_insert_ne by congruence. done.
  - intros t x E. destruct (Hlk t x E) as (xr & cx & Hx & Et & Hcx & Hl). exists xr, cx. by rewrite !lookup_insert_ne by congruence.
  - intros x xr cx. destruct (decide (q = x)) as [<-|].
    + rewrite !lookup_insert_eq. intros [= <-] [= <-]. done.
    + rewrite !lookup_insert_ne by done. apply Hhold.
Qed.
End Owners.
