(* ===== verification/FdOps.v ===== *)
(** * Steps of the calls

    The operations on the state, one by one, under the invariant. *)

From stdpp Require Import gmap.
From S2P Require Import Prelude Libkern Filedesc FdMap FdTable FdAlloc MapSum Files FdInv FdBooks FdOwn.

Lemma occ_slot f fd a : 0 <= fd -> slot f fd = Some a -> 0 < occ (Some a) (fd_ofiles f).
Proof.
  unfold slot. intros Hfd E. apply occ_elem. rewrite <- E.
  destruct (decide (Z.to_nat fd < length (fd_ofiles f))%nat); [by apply list_elem_of_In, nth_In|].
  rewrite nth_overflow in E by lia. done.
Qed.

Lemma tally_other g C p c a : C !! p = Some c -> occ a (g c) < tally g C a ->
  exists q c', q <> p /\ C !! q = Some c' /\ a ∈ g c'.
Proof.
  intros Hc Hlt. destruct (msum_positive (fun c => occ a (g c)) (delete p C)) as (q & c' & E & Hpos).
  { rewrite (msum_delete _ C p c Hc). unfold tally in Hlt. lia. }
  apply lookup_delete_Some in E as [Hne E]. exists q, c'. split; [done|]. split; [done|]. by apply occ_elem.
Qed.

Section Ops.
Context (maxfiles LONG_MAX : Z).
Hypothesis maxfiles_range : 0 <= maxfiles <= 12800.
Hypothesis LONG_MAX_range : 2 ^ 31 - 1 <= LONG_MAX.
Implicit Types (s : state) (C : gmap Z claim).

Notation inv := (inv maxfiles).
Notation owners := (owners maxfiles).

(** * Bounds *)

Lemma size_claims T L P C : owners T L P C -> Z.of_nat (size C) <= 32767.
Proof.
  intros H. apply size_range; [lia|]. intros p c Hc. destruct (proj1 (ow_dom _ _ _ _ _ H p)) as [pr Hp]; [by eexists|].
  pose proof (ow_proc _ _ _ _ _ H p pr Hp). unfold PID_MAX in *. lia.
Qed.

Lemma refs_bound T L P C a : owners T L P C -> tally c_refs C a <= 65534.
Proof.
  intros H. pose proof (size_claims _ _ _ _ H). unfold tally.
  pose proof (msum_bound (fun c => occ a (c_refs c)) C 2 ltac:(lia)) as Hb. cbv beta in Hb.
  etransitivity; [apply Hb|lia]. intros p c Hc.
  destruct (proj1 (ow_dom _ _ _ _ _ H p)) as [pr Hp]; [by eexists|].
  destruct (ow_table _ _ _ _ _ H p pr c Hp Hc) as ((Hl & _) & _). pose proof (occ_length a (c_refs c)). lia.
Qed.

Lemma table_as_length c f : table_as c f -> Z.of_nat (length (fd_ofiles f)) <= 12800.
Proof.
  unfold table_as. destruct (c_dying c) as [[fpp i]|].
  - intros (_ & Hs & -> & _). by apply size_facts.
  - intros (_ & H & _). rewrite (bm_ofiles f H). by apply size_facts, bm_size.
Qed.

Lemma slots_bound T L P C a : owners T L P C -> slots T a <= 12800 * 32767.
Proof.
  intros H. assert (Z.of_nat (size T) <= 32767) as Hs.
  { assert (Z.of_nat (size P) <= 32767) as HP.
    { apply size_range; [lia|]. intros p pr Hp. pose proof (ow_proc _ _ _ _ _ H p pr Hp). unfold PID_MAX in *. lia. }
    pose proof (size_cover T P p_fd (ow_owner _ _ _ _ _ H)). lia. }
  pose proof (msum_bound (fun f => occ (Some a) (fd_ofiles f)) T 12800 ltac:(lia)) as Hb. cbv beta in Hb.
  etransitivity; [apply Hb|lia]. intros t f Hf. destruct (ow_owner _ _ _ _ _ H t f Hf) as (p & pr & Hp & <-).
  destruct (owners_get _ _ _ _ _ _ _ H Hp) as (c & f' & _ & Hf' & Ht & _). assert (f' = f) as -> by congruence.
  pose proof (table_as_length c f Ht). pose proof (occ_length (Some a) (fd_ofiles f)). lia.
Qed.

Lemma drops_bound T L P C a : owners T L P C -> tally c_drops C a <= 65534.
Proof.
  intros H. pose proof (size_claims _ _ _ _ H). unfold tally.
  pose proof (msum_bound (fun c => occ a (c_drops c)) C 2 ltac:(lia)) as Hb. cbv beta in Hb.
  etransitivity; [apply Hb|lia]. intros p c Hc.
  destruct (proj1 (ow_dom _ _ _ _ _ H p)) as [pr Hp]; [by eexists|].
  destruct (ow_table _ _ _ _ _ H p pr c Hp Hc) as ((_ & Hl & _) & _). pose proof (occ_length a (c_drops c)). lia.
Qed.

Lemma usecount_bound s C a g : inv s C -> files s !! a = Some g -> 0 <= f_usecount g <= 65534.
Proof.
  intros (Hb & Ho & _) Hg. specialize (Hb a). rewrite Hg in Hb. destruct Hb as (_ & E2 & _).
  pose proof (refs_bound _ _ _ _ a Ho). pose proof (tally_nonneg c_refs C a). lia.
Qed.

(** The counts of a file stay far from the limits of their types. *)
Lemma count_bound s C a g : inv s C -> files s !! a = Some g ->
  0 <= f_count g /\ f_count g + 12800 < LONG_MAX - 2.
Proof.
  intros (Hb & Ho & _) Hg. specialize (Hb a). rewrite Hg in Hb. destruct Hb as (E1 & _).
  pose proof (slots_bound _ _ _ _ a Ho). pose proof (drops_bound _ _ _ _ a Ho).
  pose proof (slots_nonneg (tables s) a). pose proof (tally_nonneg c_drops C a). lia.
Qed.

(** * Where a process is in the middle of a call *)

Record here s (p : Z) (pr : fd_proc) (c : claim) (f : filedesc) : Prop := {
  h_inv : inv s (<[p := c]> (claims (procs s)));
  h_proc : procs s !! p = Some pr;
  h_table : tables s !! p_fd pr = Some f;
  h_as : table_as c f;
  h_ok : claim_ok c;
  h_args : forall q qr, procs s !! q = Some qr -> pc_args (p_pc qr);
}.

Lemma here_of_ok s p pr : ok maxfiles s -> procs s !! p = Some pr -> exists f, here s p pr (claim_of (p_pc pr)) f.
Proof.
  intros [Hi Ha] Hp. assert (claims (procs s) !! p = Some (claim_of (p_pc pr))) as Hc.
  { unfold claims. by rewrite lookup_fmap, Hp. }
  destruct (owners_get _ _ _ _ _ _ _ (proj1 (proj2 Hi)) Hp) as (c & f & Hc' & Hf & Ht & Hok).
  assert (c = claim_of (p_pc pr)) as -> by congruence. exists f. split; try done. by rewrite insert_id.
Qed.

Lemma claims_insert P p pr : claims (<[p := pr]> P) = <[p := claim_of (p_pc pr)]> (claims P).
Proof. unfold claims. by rewrite fmap_insert. Qed.

Lemma h_claim s p pr c f : here s p pr c f -> <[p := c]> (claims (procs s)) !! p = Some c.
Proof. intros _. apply lookup_insert_eq. Qed.

(** The books with other claims for [p]. *)
Lemma here_books s p pr c f c' F T :
  here s p pr c f -> books F T (<[p := c']> (<[p := c]> (claims (procs s)))) -> books F T (<[p := c']> (claims (procs s))).
Proof. by rewrite insert_insert_eq. Qed.

Lemma here_owners s p pr c f c' f' :
  here s p pr c f -> table_as c' f' -> claim_ok c' -> c_lock c' = c_lock c ->
  owners (<[p_fd pr := f']> (tables s)) (locks s) (procs s) (<[p := c']> (claims (procs s))).
Proof.
  intros H Ht Hok El. pose proof (owners_table maxfiles _ _ _ _ p pr c f c' f' (proj1 (proj2 (h_inv _ _ _ _ _ H))) (h_proc _ _ _ _ _ H)
    (h_claim _ _ _ _ _ H) (h_table _ _ _ _ _ H) Ht Hok El) as Ho. by rewrite insert_insert_eq in Ho.
Qed.

(** [p] changes the files and its table. *)
Lemma here_change s p pr c f c' f' F :
  here s p pr c f -> table_as c' f' -> claim_ok c' -> c_lock c' = c_lock c ->
  books F (<[p_fd pr := f']> (tables s)) (<[p := c']> (claims (procs s))) -> size F = size (files s) ->
  here (put_table (p_fd pr) f' (set_files F s)) p pr c' f'.
Proof.
  intros H Ht Hok El Hb Es. pose proof (here_owners _ _ _ _ _ c' f' H Ht Hok El) as Ho.
  destruct H as [(Hb0 & Ho0 & Hn & Hm) Hp Hf Has Hok0 Ha]. split; simpl; try done.
  - split; [done|]. split; [done|]. simpl. by rewrite Es.
  - apply lookup_insert_eq.
Qed.

Lemma here_files s p pr c f c' F :
  here s p pr c f -> table_as c' f -> claim_ok c' -> c_lock c' = c_lock c ->
  books F (tables s) (<[p := c']> (claims (procs s))) -> size F = size (files s) ->
  here (set_files F s) p pr c' f.
Proof.
  intros H Ht Hok El Hb Es. pose proof (here_change s p pr c f c' f F H Ht Hok El) as G.
  unfold put_table, set_files, set_tables in G |- *. simpl in G. rewrite (insert_id (tables s)) in G by apply H. by apply G.
Qed.

Lemma here_table s p pr c f c' f' :
  here s p pr c f -> table_as c' f' -> claim_ok c' -> c_lock c' = c_lock c ->
  books (files s) (<[p_fd pr := f']> (tables s)) (<[p := c']> (claims (procs s))) ->
  here (put_table (p_fd pr) f' s) p pr c' f'.
Proof. intros H Ht Hok El Hb. pose proof (here_change s p pr c f c' f' (files s) H Ht Hok El Hb eq_refl). by destruct s. Qed.

(** * What the invariant says of a file *)

Lemma ref_live s p pr c f a : here s p pr c f -> a ∈ c_refs c -> exists g, files s !! a = Some g.
Proof.
  intros H Ha. pose proof (proj1 (h_inv _ _ _ _ _ H) a) as Hb. destruct (files s !! a); [by eexists|].
  destruct Hb as (_ & _ & Hr & _). pose proof (tally_elem c_refs _ p c a (h_claim _ _ _ _ _ H)).
  apply occ_elem in Ha. lia.
Qed.

Lemma drop_live s p pr c f a : here s p pr c f -> a ∈ c_drops c -> exists g, files s !! a = Some g /\ 0 < f_count g.
Proof.
  intros H Ha. pose proof (proj1 (h_inv _ _ _ _ _ H) a) as Hb. pose proof (slots_nonneg (tables s) a).
  pose proof (tally_elem c_drops _ p c a (h_claim _ _ _ _ _ H)). apply occ_elem in Ha.
  destruct (files s !! a) as [g|]; [|destruct Hb; lia]. exists g. split; [done|]. destruct Hb as (-> & _). lia.
Qed.

Lemma slot_live s p pr c f fd a : here s p pr c f -> 0 <= fd -> slot f fd = Some a ->
  exists g, files s !! a = Some g /\ 0 < f_count g /\ 0 < slots (tables s) a.
Proof.
  intros H Hfd E. pose proof (proj1 (h_inv _ _ _ _ _ H) a) as Hb. pose proof (occ_slot f fd a Hfd E).
  pose proof (slots_elem _ _ f a (h_table _ _ _ _ _ H)). pose proof (tally_nonneg c_drops (<[p := c]> (claims (procs s))) a).
  destruct (files s !! a) as [g|]; [|destruct Hb; lia]. exists g. split; [done|]. destruct Hb as (-> & _). lia.
Qed.

(** A file in the table of [p] is being made by no other process. *)
Lemma slot_larvals s p pr c f fd a : here s p pr c f -> 0 <= fd -> slot f fd = Some a ->
  tally c_larvals (<[p := c]> (claims (procs s))) a = occ a (c_larvals c).
Proof.
  intros H Hfd E. pose proof (tally_elem c_larvals _ p c a (h_claim _ _ _ _ _ H)).
  destruct (decide (occ a (c_larvals c) < tally c_larvals (<[p := c]> (claims (procs s))) a)) as [Hlt|]; [exfalso|lia].
  destruct (tally_other _ _ _ _ _ (h_claim _ _ _ _ _ H) Hlt) as (q & cq & Hne & Hcq & Ha).
  destruct (h_inv _ _ _ _ _ H) as (Hb & Ho & _). destruct (proj1 (ow_dom _ _ _ _ _ Ho q)) as [qr Hq]; [by eexists|].
  destruct (ow_table _ _ _ _ _ Ho q qr cq Hq Hcq) as ((_ & _ & _ & Hlar) & fq & Hfq & Hasq).
  destruct (Hlar a Ha) as (Hd & fd' & Hin). unfold table_as in Hasq. rewrite Hd in Hasq.
  destruct Hasq as (_ & _ & _ & _ & Hk & _). destruct (Hk fd' a Hin) as [Hfd' E'].
  pose proof (slots_two (tables s) (p_fd pr) (p_fd qr) f fq a) as H2. pose proof (occ_slot f fd a Hfd E). pose proof (occ_slot fq fd' a Hfd' E').
  destruct (slot_live _ _ _ _ _ _ _ H Hfd E) as (g & Hg & _). specialize (Hb a). rewrite Hg in Hb.
  destruct Hb as (_ & _ & _ & _ & _ & _ & _ & _ & _ & Hl & _). pose proof (occ_nonneg a (c_larvals c)). destruct Hl as (_ & Hs & _); [lia|].
  assert (p_fd pr <> p_fd qr) as Hnt. { intros Et. apply Hne. symmetry. eapply (ow_unshared _ _ _ _ _ Ho); [apply H|done|done]. }
  specialize (H2 Hnt (h_table _ _ _ _ _ H) Hfq). lia.
Qed.

(** Nobody closes a file alone while [p] uses it. *)
Lemma ref_onlys s p pr c f a : here s p pr c f -> a ∈ c_refs c -> occ a (c_onlys c) = 0 ->
  tally c_onlys (<[p := c]> (claims (procs s))) a = 0.
Proof.
  intros H Ha Hon. pose proof (tally_elem c_onlys _ p c a (h_claim _ _ _ _ _ H)).
  destruct (decide (occ a (c_onlys c) < tally c_onlys (<[p := c]> (claims (procs s))) a)) as [Hlt|]; [exfalso|lia].
  destruct (tally_other _ _ _ _ _ (h_claim _ _ _ _ _ H) Hlt) as (q & cq & Hne & Hcq & Hq).
  destruct (h_inv _ _ _ _ _ H) as (Hb & Ho & _). destruct (proj1 (ow_dom _ _ _ _ _ Ho q)) as [qr Hqr]; [by eexists|].
  destruct (ow_table _ _ _ _ _ Ho q qr cq Hqr Hcq) as ((_ & _ & Hr & _) & _). apply Hr in Hq. apply occ_elem in Hq, Ha.
  pose proof (tally_two c_refs _ p q c cq a ltac:(done) (h_claim _ _ _ _ _ H) Hcq).
  destruct (ref_live _ _ _ _ _ a H) as [g Hg]; [by apply occ_elem|]. specialize (Hb a). rewrite Hg in Hb.
  destruct Hb as (_ & _ & _ & _ & _ & _ & _ & Hr1 & _). lia.
Qed.

(** What a use of a file is for. *)
Lemma refs_why x a : a ∈ c_refs (claim_of x) ->
  (exists fd, (fd, a) ∈ c_slots (claim_of x) /\ c_dying (claim_of x) = None) \/ a ∈ c_drops (claim_of x) \/ a ∈ c_wants (claim_of x).
Proof using.
  destruct x as [| | | | | | | | | | | | |[| |] fp k|k e]; simpl; intros Ha; try (by apply elem_of_nil in Ha).
  all: try (by destruct k; apply elem_of_nil in Ha).
  all: apply elem_of_cons in Ha as [->|Ha]; [|try destruct k; by apply elem_of_nil in Ha]; auto using list_elem_of_here.
  all: left; eexists; split; [apply list_elem_of_here|done].
Qed.

(** Nobody else uses a file whose last reference is gone. *)
Lemma only_use s p pr c f a g : here s p pr c f -> a ∈ c_wants c -> files s !! a = Some g -> f_usecount g = occ a (c_refs c).
Proof.
  intros H Hw Hg. destruct (h_inv _ _ _ _ _ H) as (Hb & Ho & _). pose proof (h_claim _ _ _ _ _ H) as Hc.
  pose proof (Hb a) as Ha. rewrite Hg in Ha. destruct Ha as (Hcnt & -> & _ & _ & Hw1 & Hw0 & _).
  pose proof (tally_elem c_refs _ p c a Hc). pose proof (tally_elem c_wants _ p c a Hc). apply occ_elem in Hw.
  destruct (decide (occ a (c_refs c) < tally c_refs (<[p := c]> (claims (procs s))) a)) as [Hlt|]; [exfalso|lia].
  destruct (tally_other _ _ _ _ _ Hc Hlt) as (q & cq & Hne & Hcq & Hr). pose proof Hcq as Ecq. rewrite lookup_insert_ne in Ecq by done.
  unfold claims in Ecq. rewrite lookup_fmap in Ecq. destruct (procs s !! q) as [qr|] eqn:Hq; [|done]. injection Ecq as <-.
  pose proof (slots_nonneg (tables s) a). pose proof (tally_elem c_drops _ q _ a Hcq). destruct (refs_why _ _ Hr) as [(fd & Hs & Hd)|[Hs|Hs] ].
  - destruct (ow_table _ _ _ _ _ Ho q qr _ Hq Hcq) as (_ & fq & Hfq & Hasq). unfold table_as in Hasq. rewrite Hd in Hasq.
    destruct Hasq as (_ & _ & _ & _ & Hk & _). destruct (Hk fd a Hs) as [Hfd E]. pose proof (occ_slot fq fd a Hfd E).
    pose proof (slots_elem _ _ fq a Hfq). pose proof (occ_nonneg a (c_drops (claim_of (p_pc qr)))). lia.
  - apply occ_elem in Hs. lia.
  - pose proof (tally_two c_wants _ p q _ _ a ltac:(done) Hc Hcq). apply occ_elem in Hs. lia.
Qed.

(** Claims that come to the same. *)
Lemma here_claim s p pr c f c' :
  here s p pr c f -> table_as c' f -> claim_ok c' -> c_lock c' = c_lock c ->
  (forall a, occ a (c_refs c') = occ a (c_refs c) /\ occ a (c_drops c') = occ a (c_drops c) /\ occ a (c_wants c') = occ a (c_wants c) /\
    occ a (c_onlys c') = occ a (c_onlys c) /\ occ a (c_larvals c') = occ a (c_larvals c)) ->
  here s p pr c' f.
Proof.
  intros H Ht Hok El Hocc. assert (set_files (files s) s = s) as <- by (by destruct s).
  eapply here_files; [exact H|done|done|done| |done]. simpl.
  rewrite <- (insert_insert_eq (claims (procs s)) p _ c). pose proof (lookup_insert_eq (claims (procs s)) p c) as Hc.
  intros b. rewrite !(tally_update _ _ p c c' b Hc). destruct (Hocc b) as (-> & -> & -> & -> & ->). rewrite !Z.sub_add.
  apply (h_inv _ _ _ _ _ H).
Qed.

(** * Uses *)

Lemma usecount_wrap s C a g k : inv s C -> files s !! a = Some g -> -1 <= k <= 1 -> s32 (f_usecount g + k) = f_usecount g + k.
Proof.
  intros Hi Hg Hk. pose proof (usecount_bound _ _ _ _ Hi Hg) as Hu. apply swrap_small; [lia|]. unfold is_s. lia.
Qed.

Lemma FREF_ok s p pr c f a g :
  here s p pr c f -> files s !! a = Some g -> 0 < f_count g -> claim_ok (holding a c) ->
  let s' := set_files (<[a := set_f_usecount (f_usecount g + 1) g]> (files s)) s in
  FREF a s = Ret s' /\ here s' p pr (holding a c) f.
Proof.
  intros H Hg Hpos Hok s'. pose proof (h_inv _ _ _ _ _ H) as Hi. split.
  - unfold FREF, upd_file, deref. rewrite Hg. cbn [bind]. by rewrite (usecount_wrap _ _ a g 1 Hi Hg) by lia.
  - eapply here_files; [exact H|apply H|done|done| |].
    + rewrite <- (insert_insert_eq (claims (procs s)) p (holding a c) c). eapply books_ref; try done; [apply Hi|apply lookup_insert_eq].
    + by apply map_size_insert_Some.
Qed.

Lemma FRELE_ok s p pr c f a g :
  here s p pr (holding a c) f -> files s !! a = Some g -> occ a (c_onlys c) = 0 -> claim_ok c -> table_as c f ->
  let s' := set_files (<[a := set_f_usecount (f_usecount g - 1) g]> (files s)) s in
  FRELE a s = Ret s' /\ here s' p pr c f.
Proof.
  intros H Hg Hon Hok Has s'. pose proof (h_inv _ _ _ _ _ H) as Hi. split.
  - unfold FRELE, deref. rewrite Hg. cbn [bind]. pose proof (usecount_wrap _ _ a g (-1) Hi Hg ltac:(lia)) as E.
    change (f_usecount g + -1) with (f_usecount g - 1) in E. rewrite E. simpl. destruct Hi as (_ & _ & _ & _ & Hq). rewrite Hq.
    unfold usecount_wakeup. rewrite map_filter_empty. unfold s'. destruct s. simpl in *. subst. by case_if.
  - eapply here_files; [exact H|done|done|done| |].
    + rewrite <- (insert_insert_eq (claims (procs s)) p c (holding a c)). eapply books_unref; try done; [apply Hi|apply lookup_insert_eq|].
      eapply ref_onlys; [exact H|by left|done].
    + by apply map_size_insert_Some.
Qed.

(** * The lock *)

Lemma lock_ok s p pr c f :
  here s p pr c f -> locks s !! p_fd pr = None -> here (fdplock p (p_fd pr) s) p pr (locking true c) f.
Proof.
  intros H HL. destruct H as [(Hb & Ho & Hn & Hm) Hp Hf Has Hok Ha]. split; try done.
  split; [|split; [|done]]; simpl.
  - rewrite <- (insert_insert_eq (claims (procs s)) p _ c). by eapply books_claim; [|apply lookup_insert_eq|..].
  - rewrite <- (insert_insert_eq (claims (procs s)) p _ c). by eapply owners_lock; [|..|apply lookup_insert_eq|].
Qed.

Lemma unlock_ok s p pr c f : here s p pr c f -> here (fdpunlock (p_fd pr) s) p pr (locking false c) f.
Proof.
  intros H. destruct H as [(Hb & Ho & Hn & Hm) Hp Hf Has Hok Ha]. split; try done.
  split; [|split; [|done]]; simpl.
  - rewrite <- (insert_insert_eq (claims (procs s)) p _ c). by eapply books_claim; [|apply lookup_insert_eq|..].
  - rewrite <- (insert_insert_eq (claims (procs s)) p _ c). by eapply owners_unlock; [|..|apply lookup_insert_eq].
Qed.

(** * The end of a step *)

(** The state after a step of [p] that leaves it at [pr']. *)
Lemma settle s p pr c f pr' :
  here s p pr c f -> p_fd pr' = p_fd pr -> 0 <= p_rlim_nofile pr' <= maxfiles -> claim_of (p_pc pr') = c -> pc_args (p_pc pr') ->
  ok maxfiles (set_procs (<[p := pr']> (procs s)) s).
Proof.
  intros [(Hb & Ho & Hn & Hm) Hp Hf Has Hok Ha] Et Hr Ec Hargs. split.
  - simpl. rewrite claims_insert, Ec. split; [done|]. split; [|done]. simpl. by eapply owners_proc.
  - simpl. intros q qr. destruct (decide (p = q)) as [<-|]; [rewrite lookup_insert_eq; by intros [= <-]|].
    rewrite lookup_insert_ne by done. apply Ha.
Qed.

Lemma here_rlim s p pr c f : here s p pr c f -> 0 <= p_rlim_nofile pr <= maxfiles.
Proof. intros H. by apply (ow_proc _ _ _ _ _ (proj1 (proj2 (h_inv _ _ _ _ _ H))) p pr), H. Qed.

Lemma goto_ok s p pr c f x :
  here s p pr c f -> claim_of x = c -> pc_args x ->
  let s' := set_procs (<[p := set_pc x pr]> (procs s)) s in goto p x s = Ret s' /\ ok maxfiles s'.
Proof.
  intros H Ec Hargs s'. split.
  - unfold goto, deref. by rewrite (h_proc _ _ _ _ _ H).
  - eapply settle; [exact H|done|exact (here_rlim _ _ _ _ _ H)|done|done].
Qed.

Lemma leave_ok s p pr f r :
  here s p pr idle f ->
  let s' := set_procs (<[p := set_ret r (set_pc User pr)]> (procs s)) s in leave p r s = Ret s' /\ ok maxfiles s'.
Proof.
  intros H s'. split.
  - unfold leave, deref. by rewrite (h_proc _ _ _ _ _ H).
  - eapply settle; [exact H|done|exact (here_rlim _ _ _ _ _ H)|done|done].
Qed.

Lemma out_ok s p pr f r :
  here s p pr (kept true) f ->
  let s' := set_procs (<[p := set_ret r (set_pc User pr)]> (procs s)) (fdpunlock (p_fd pr) s) in
  out p (p_fd pr) r s = Ret s' /\ ok maxfiles s'.
Proof. intros H. apply (leave_ok (fdpunlock (p_fd pr) s)) with (f := f). by apply unlock_ok in H. Qed.
End Ops.

Arguments h_inv {maxfiles s p pr c f}.
Arguments h_proc {maxfiles s p pr c f}.
Arguments h_table {maxfiles s p pr c f}.
Arguments h_as {maxfiles s p pr c f}.
Arguments h_args {maxfiles s p pr c f}.
Arguments here_rlim {maxfiles s p pr c f}.
Arguments here_of_ok {maxfiles s p pr}.
Arguments here_files {maxfiles s p pr c f}.
Arguments here_table {maxfiles s p pr c f}.
Arguments here_claim {maxfiles s p pr c f}.
Arguments here_change {maxfiles s p pr c f}.
Arguments ref_live {maxfiles s p pr c f}.
Arguments drop_live {maxfiles s p pr c f}.
Arguments slot_live {maxfiles s p pr c f}.
Arguments slot_larvals {maxfiles s p pr c f}.
Arguments ref_onlys {maxfiles s p pr c f}.
Arguments FREF_ok {maxfiles s p pr c f}.
Arguments FRELE_ok {maxfiles s p pr c f}.
Arguments lock_ok {maxfiles s p pr c f}.
Arguments unlock_ok {maxfiles s p pr c f}.
Arguments settle {maxfiles s p pr c f}.
Arguments goto_ok {maxfiles s p pr c f}.
Arguments leave_ok {maxfiles s p pr f}.
Arguments out_ok {maxfiles s p pr f}.
