(* ===== verification/FdCalls.v ===== *)
(** * Calls that close and duplicate descriptors

    Each step keeps the invariant; what it does to the table of the process is
    part of the statement. *)

From stdpp Require Import gmap sets.
From S2P Require Import Prelude Libkern Filedesc FdMap FdTable FdAlloc MapSum Files FdInv FdBooks FdOwn FdOps.

(** Close [claim_ok] of a given claim. *)
Ltac claim_ok_tac := unfold claim_ok; simpl; conj; try lia; try (intros ? ?%elem_of_nil; done); set_solver.

Lemma claim_ok_cont k : claim_ok (claim_cont k).
Proof. destruct k; claim_ok_tac. Qed.

Lemma claim_ok_hold k a : claim_ok (holding a (claim_cont k)).
Proof. destruct k; claim_ok_tac. Qed.

Lemma claim_ok_drop k a : claim_ok (holding a (dropping a (claim_cont k))).
Proof. destruct k; claim_ok_tac. Qed.

Lemma cont_onlys k a : occ a (c_onlys (claim_cont k)) = 0.
Proof. by destruct k. Qed.

#[export] Hint Resolve claim_ok_cont claim_ok_hold claim_ok_drop cont_onlys : kernel.

Section Calls.
Context (maxfiles LONG_MAX : Z).
Hypothesis maxfiles_range : 0 <= maxfiles <= 12800.
Hypothesis LONG_MAX_range : 2 ^ 31 - 1 <= LONG_MAX.
Implicit Types (s : state).

Notation here := (here maxfiles).
Notation ok := (ok maxfiles).

(** After a step of [p]: the invariant holds again, no table but that of [p]
    has changed, and [R] relates the table and the process. *)
Definition moves s (p : Z) (pr : fd_proc) (m : outcome state) (R : filedesc -> fd_proc -> Prop) : Prop :=
  exists s' f' pr', m = Ret s' /\ ok s' /\ tables s' = <[p_fd pr := f']> (tables s) /\ procs s' = <[p := pr']> (procs s) /\
  p_fd pr' = p_fd pr /\ R f' pr'.

Lemma moves_mono s p pr m (R R' : filedesc -> fd_proc -> Prop) :
  moves s p pr m R -> (forall f' pr', R f' pr' -> R' f' pr') -> moves s p pr m R'.
Proof. intros (s' & f' & pr' & H) HR. exists s', f', pr'. destruct H as (? & ? & ? & ? & ? & ?). eauto 10. Qed.

(** A step that starts with changes to the files, and to the table of [p]. *)
Lemma moves_files s s1 p pr m R :
  moves s1 p pr m R -> tables s1 = tables s -> procs s1 = procs s -> moves s p pr m R.
Proof.
  intros (s' & f' & pr' & E1 & E2 & E3 & E4 & E5 & E6) Ht Hp. exists s', f', pr'. rewrite Hp in E4. rewrite Ht in E3. by conj.
Qed.

Lemma moves_table s s1 f1 p pr m R :
  moves s1 p pr m R -> tables s1 = <[p_fd pr := f1]> (tables s) -> procs s1 = procs s -> moves s p pr m R.
Proof.
  intros (s' & f' & pr' & E1 & E2 & E3 & E4 & E5 & E6) Ht Hp. exists s', f', pr'. rewrite Hp in E4. rewrite Ht in E3.
  rewrite insert_insert_eq in E3. by conj.
Qed.

Lemma goto_moves s p pr c f x (R : filedesc -> fd_proc -> Prop) :
  here s p pr c f -> claim_of x = c -> pc_args x -> R f (set_pc x pr) -> moves s p pr (goto p x s) R.
Proof.
  intros H Hc Ha HR. destruct (goto_ok _ H Hc Ha) as [-> Hok]. eexists _, f, _. split; [done|]. split; [done|].
  simpl. rewrite insert_id by apply H. done.
Qed.

Lemma leave_moves s p pr f r (R : filedesc -> fd_proc -> Prop) :
  here s p pr idle f -> R f (set_ret r (set_pc User pr)) -> moves s p pr (leave p r s) R.
Proof.
  intros H HR. destruct (leave_ok r H) as [-> Hok]. eexists _, f, _. split; [done|]. split; [done|].
  simpl. rewrite insert_id by apply H. done.
Qed.

Lemma out_moves s p pr f r (R : filedesc -> fd_proc -> Prop) :
  here s p pr (kept true) f -> R f (set_ret r (set_pc User pr)) -> moves s p pr (out p (p_fd pr) r s) R.
Proof.
  intros H HR. destruct (out_ok r H) as [-> Hok]. eexists _, f, _. split; [done|]. split; [done|].
  simpl. rewrite insert_id by apply H. done.
Qed.

(** * [closef] *)

Lemma count_positive {s p pr c f a g} : here s p pr c f -> files s !! a = Some g -> 0 < f_count g ->
  flag (f_iflags g) FIF_WANTCLOSE = false.
Proof.
  intros H Hg Hpos. pose proof (proj1 (h_inv H) a) as Hb. rewrite Hg in Hb.
  destruct Hb as (_ & _ & _ & -> & _ & Hw & _). apply Z.ltb_ge. lia.
Qed.

Definition closef_at (a : Z) (k : cont) (f f' : filedesc) (pr : fd_proc) : Prop :=
  f' = f /\ (p_pc pr = After k 0 \/ p_pc pr = Closef Unlocking a k \/ p_pc pr = Closef Closing a k).

Definition closef_dropped (a : Z) (k : cont) (f f' : filedesc) (pr : fd_proc) : Prop :=
  f' = f /\ (p_pc pr = After k 0 \/ p_pc pr = Closef Closing a k).

(** The loop of [closef] ends at once: nobody else uses the file. *)
Lemma closef_drain_moves s p pr f a k :
  here s p pr (holding a (closing a (claim_cont k))) f -> pc_args (After k 0) ->
  moves s p pr (closef_drain p a k s) (fun f' pr' => f' = f /\ p_pc pr' = Closef Closing a k).
Proof using.
  clear maxfiles_range LONG_MAX_range. intros H Hk. destruct (ref_live a H) as [g Hg]; [by left|]. unfold closef_drain, deref. rewrite Hg. cbn [bind].
  pose proof (only_use _ _ _ _ _ _ _ _ H ltac:(by left) Hg) as Hu. simpl in Hu.
  rewrite decide_True, (occ_none a) in Hu by (done || destruct k; by intros ?%elem_of_nil). case_if; boolify; [lia|].
  eapply goto_moves; [|done|by destruct k|done].
  assert (set_files (files s) s = s) as <- by (by destruct s).
  eapply here_files; [exact H|by destruct k; apply (h_as H)|destruct k; claim_ok_tac|done| |done].
  rewrite <- (insert_insert_eq (claims (procs s)) p _ (holding a (closing a (claim_cont k)))).
  eapply books_alone; [apply (h_inv H)|apply lookup_insert_eq|done|lia|].
  eapply ref_onlys; [exact H|by left|]. by destruct k.
Qed.

Lemma closef_drop_moves s p pr a k f :
  here s p pr (holding a (dropping a (claim_cont k))) f -> table_as (claim_cont k) f -> pc_args (After k 0) ->
  moves s p pr (closef_drop p a k s) (closef_dropped a k f).
Proof.
  intros H Has Hk. destruct (drop_live a H) as (g & Hg & Hpos); [by left|].
  unfold closef_drop, deref. rewrite Hg. cbn [bind]. rewrite (count_positive H Hg Hpos).
  unfold upd_file at 1, deref. rewrite Hg. cbn [bind]. pose proof (proj1 (h_inv H)) as Hb.
  set (s1 := set_files (<[a := set_f_count (f_count g - 1) g]> (files s)) s). destruct (Z.ltb_spec 0 (f_count g - 1)).
  - assert (here s1 p pr (holding a (claim_cont k)) f) as H1.
    { eapply here_files; [exact H|done|auto with kernel|done| |by apply map_size_insert_Some].
      rewrite <- (insert_insert_eq (claims (procs s)) p _ (holding a (dropping a (claim_cont k)))).
      apply (books_drop _ _ _ _ (holding a (claim_cont k))); try done. apply lookup_insert_eq. }
    destruct (FRELE_ok a (set_f_count (f_count g - 1) g) H1) as [-> H2]; [apply lookup_insert_eq|auto with kernel..|done|].
    cbn [bind]. eapply moves_files; [eapply goto_moves; [exact H2|done|done|split; [done|by left] ]|done|done].
  - destruct (Z.ltb_spec (f_count g - 1) 0); [lia|]. unfold upd_file, deref. simpl files. rewrite lookup_insert_eq. cbn [bind].
    set (s2 := set_files _ s1). assert (here s2 p pr (holding a (closing a (claim_cont k))) f) as H2.
    { replace s2 with (set_files (<[a := set_f_iflags (Z.lor (f_iflags g) FIF_WANTCLOSE) (set_f_count (f_count g - 1) g)]> (files s)) s)
        by (unfold s2, s1, set_files; simpl; by rewrite insert_insert_eq).
      eapply here_files; [exact H|by destruct k|destruct k; claim_ok_tac|done| |by apply map_size_insert_Some].
      rewrite <- (insert_insert_eq (claims (procs s)) p _ (holding a (dropping a (claim_cont k)))).
      apply (books_last _ _ _ _ (holding a (claim_cont k))); try done; [apply lookup_insert_eq|lia]. }
    eapply moves_files; [eapply moves_mono; [by eapply closef_drain_moves|]|done|done]. intros f' pr' [-> Hd]. split; [done|by right].
Qed.

Lemma closef_moves s p pr a k f :
  here s p pr (holding a (dropping a (claim_cont k))) f -> table_as (claim_cont k) f -> pc_args (After k 0) ->
  moves s p pr (closef p a k s) (closef_at a k f).
Proof.
  intros H Has Hk. destruct (drop_live a H) as (g & Hg & Hpos); [by left|].
  unfold closef, deref. rewrite Hg, (h_proc H). cbn [bind]. case_if.
  2: { eapply moves_mono; [by eapply closef_drop_moves|]. intros f' pr' [-> Hd]. split; [done|]. destruct Hd; auto. }
  eapply goto_moves; [exact H|done|by destruct k|]. split; [done|]. by right; left.
Qed.

(** * Looking up a descriptor *)

Lemma usable_small x : 0 <= x < 4 ->
  (Z.land x (Z.lor FIF_WANTCLOSE FIF_LARVAL) =? 0) = negb (flag x FIF_WANTCLOSE) && negb (flag x FIF_LARVAL).
Proof. intros Hx. assert (x = 0 \/ x = 1 \/ x = 2 \/ x = 3) as [->|[->|[->| ->]]] by lia; done. Qed.

Lemma getfile_ok s p pr c f fd :
  here s p pr c f -> c_dying c = None -> is_s 32 fd ->
  exists r, fd_getfile f fd s = Ret r /\
  match r with
  | Some a => 0 <= fd < fd_nfiles f /\ slot f fd = Some a /\ occ a (c_larvals c) = 0
  | None => forall a, 0 <= fd -> slot f fd = Some a -> 0 < occ a (c_larvals c)
  end.
Proof.
  intros H Hd Hfd. pose proof (h_as H) as Has. unfold table_as in Has. rewrite Hd in Has. destruct Has as (_ & Hbm & _).
  destruct (size_facts _ (bm_size f Hbm)) as (Hn & _). pose proof (bm_ofiles f Hbm) as Hl.
  unfold fd_getfile, is_s in *. case_if; boolify.
  { exists None. split; [done|]. intros a H0 E. rewrite (u32_small fd) in * by (unfold is_u; lia).
    rewrite slot_outside in E by done. done. }
  assert (0 <= fd) as H0. { destruct (decide (0 <= fd)); [done|]. unfold u32, wrap in *. rewrite (Z.mod_eq fd) in *; dlia. }
  rewrite (u32_small fd) in * by (unfold is_u; lia). destruct (aget_bounds (fd_ofiles f) fd) as (x & -> & Hx); [lia|]. cbn [bind].
  apply (nth_lookup_Some _ _ None) in Hx. fold (slot f fd) in Hx. destruct x as [a|]; [|exists None; split; [done|]; congruence].
  destruct (slot_live fd a H H0 Hx) as (g & Hg & Hpos & Hs). unfold deref. rewrite Hg. cbn [bind]. eexists. split; [done|].
  pose proof (proj1 (h_inv H) a) as Hb. rewrite Hg, (slot_larvals fd a H H0 Hx) in Hb.
  destruct Hb as (_ & _ & Hif & _ & _ & _ & _ & _ & _ & Hl1 & Hl2).
  unfold FILE_IS_USABLE. rewrite usable_small, (count_positive H Hg Hpos) by done. simpl.
  pose proof (occ_nonneg a (c_larvals c)). destruct (flag (f_iflags g) FIF_LARVAL) eqn:EL; simpl.
  - intros a' _ E. assert (a' = a) as -> by congruence. destruct Hl2; [done|done|lia].
  - conj; try done. destruct (decide (0 < occ a (c_larvals c))) as [Hlt|]; [|lia]. destruct (Hl1 Hlt). done.
Qed.

(** * Writing a descriptor *)

Lemma slot_insert f n x fd : 0 <= fd -> (n < length (fd_ofiles f))%nat ->
  slot (set_ofiles (<[n := x]> (fd_ofiles f)) f) fd = if fd =? Z.of_nat n then x else slot f fd.
Proof.
  intros Hfd Hn. unfold slot. simpl. rewrite nth_insert by done. destruct (Z.eqb_spec fd (Z.of_nat n)).
  - rewrite decide_True by lia. done.
  - rewrite decide_False by lia. done.
Qed.

Lemma bitmaps_files f l fl : bitmaps f -> length l = length (fd_ofiles f) -> length fl = length (fd_ofileflags f) ->
  bitmaps (set_ofileflags fl (set_ofiles l f)).
Proof. intros H El Ef. destruct H. split; simpl in *; try done; congruence. Qed.

(** The table with descriptor [fd] closed. *)
Definition cleared (f : filedesc) (fd : Z) (f' : filedesc) : Prop :=
  (forall j, 0 <= j -> slot f' j = if j =? fd then None else slot f j) /\ fd_nfiles f' = fd_nfiles f /\
  (forall j, j <> Z.to_nat fd -> nth j (fd_ofileflags f') 0 = nth j (fd_ofileflags f) 0) /\
  fd_knlistsize f' = fd_knlistsize f /\ occ (slot f fd) (fd_ofiles f') = occ (slot f fd) (fd_ofiles f) - 1 /\
  forall x, x <> slot f fd -> x <> None -> occ x (fd_ofiles f') = occ x (fd_ofiles f).

Lemma clear_ok f fd fl a :
  bitmaps f -> agrees f -> fd_refcnt f = 1 -> 0 <= fd -> slot f fd = Some a ->
  length fl = length (fd_ofileflags f) -> (forall j, j <> Z.to_nat fd -> nth j fl 0 = nth j (fd_ofileflags f) 0) ->
  exists f', fd_unused (set_ofileflags fl (set_ofiles (<[Z.to_nat fd := None]> (fd_ofiles f)) f)) fd = Ret f' /\
  bitmaps f' /\ agrees f' /\ fd_refcnt f' = 1 /\ cleared f fd f'.
Proof.
  intros Hb Ha Hr Hfd E Hfl Hflv. assert (used f fd = true) as Hu by (rewrite Ha by done; by apply bool_decide_eq_true_2; rewrite E).
  pose proof (bm_used f Hb fd Hfd Hu) as Hlt. pose proof (bm_ofiles f Hb) as Hlen.
  set (f1 := set_ofileflags fl (set_ofiles (<[Z.to_nat fd := None]> (fd_ofiles f)) f)).
  assert (bitmaps f1) as Hb1 by (apply bitmaps_files; [done|apply length_insert|done]).
  assert (forall j, 0 <= j -> slot f1 j = if j =? fd then None else slot f j) as Hs1.
  { intros j Hj. change (slot f1 j) with (slot (set_ofiles (<[Z.to_nat fd := None]> (fd_ofiles f)) f) j).
    rewrite slot_insert by lia. by rewrite Z2Nat.id by lia. }
  destruct (fd_unused_spec f1 fd) as (f' & E' & Hb' & Hm & Hsame & _); try done.
  { intros j Hj Hne. rewrite Hs1 by done. destruct (Z.eqb_spec j fd); [done|]. by apply Ha. }
  exists f'. split; [done|]. split; [done|]. pose proof Hsame as (Eof & Efl & En & Erc & Ekn).
  assert (forall j, 0 <= j -> slot f' j = if j =? fd then None else slot f j) as Hs'.
  { intros j Hj. rewrite (same_slot f1 f') by done. by apply Hs1. }
  split; [|split; [by rewrite Erc|]].
  - intros j Hj. rewrite Hm, Hs' by done. destruct (Z.eqb_spec j fd); [|by apply Ha].
    symmetry. apply bool_decide_eq_false_2. by intros [? ?].
  - assert (fd_ofiles f !! Z.to_nat fd = Some (Some a)) as Hx.
    { destruct (lookup_lt_is_Some_2 (fd_ofiles f) (Z.to_nat fd)) as [x Hx]; [lia|]. rewrite Hx. f_equal.
      apply (nth_lookup_Some _ _ None) in Hx. unfold slot in E. congruence. }
    unfold cleared. rewrite En, Ekn, Efl, Eof, E. simpl. conj; try done.
    + rewrite (occ_insert _ _ _ _ _ Hx), decide_True, decide_False by done. lia.
    + intros x Hne Hn. rewrite (occ_insert _ _ _ _ _ Hx), !decide_False by congruence. lia.
Qed.

(** * [fdrelease] *)

Lemma cont_table k f : c_dying (claim_cont k) = None ->
  table_as (claim_cont k) f <-> fd_refcnt f = 1 /\ table_ok f.
Proof.
  intros Hd. unfold table_as. rewrite Hd. assert (c_hole (claim_cont k) = None) as -> by (by destruct k).
  assert (c_slots (claim_cont k) = []) as -> by (by destruct k). assert (c_index (claim_cont k) = []) as -> by (by destruct k).
  unfold table_ok, agrees. split.
  - intros (Hr & Hb & Ha & _). conj; try done. intros fd Hfd. by apply Ha.
  - intros (Hr & Hb & Ha). conj; try done; try (intros; by apply Ha); intros ? ? ?%elem_of_nil || intros ? ?%elem_of_nil; done.
Qed.

Lemma cont_table_drop k a f : table_as (holding a (dropping a (claim_cont k))) f <-> table_as (claim_cont k) f.
Proof. by destruct k. Qed.

(** Where [fdrelease] leaves [p], and its table. *)
Definition releases (k : cont) (fd : Z) (f f' : filedesc) (pr : fd_proc) : Prop :=
  (slot f fd = None /\ f' = f /\ p_pc pr = After k EBADF) \/
  (exists a, slot f fd = Some a /\ cleared f fd f' /\ closef_at a k f' f' pr).

Lemma slot_aget f fd : bitmaps f -> 0 <= fd < fd_nfiles f -> aget (fd_ofiles f) fd = Ret (slot f fd).
Proof.
  intros Hb Hfd. pose proof (bm_ofiles f Hb). destruct (aget_bounds (fd_ofiles f) fd) as (x & -> & Hx); [lia|].
  apply (nth_lookup_Some _ _ None) in Hx. unfold slot. by rewrite Hx.
Qed.

Lemma fdrelease_moves s p pr k f fd :
  here s p pr (claim_cont k) f -> c_dying (claim_cont k) = None -> 0 <= fd < fd_nfiles f -> pc_args (After k 0) ->
  moves s p pr (fdrelease p (p_fd pr) fd k s) (releases k fd f).
Proof.
  intros H Hd Hfd Hk. destruct (proj1 (cont_table k f Hd) (h_as H)) as (Hr & Hb & Ha).
  unfold fdrelease, deref. rewrite (h_table H). cbn [bind]. rewrite slot_aget by done. cbn [bind].
  destruct (slot f fd) as [a|] eqn:E.
  2: { eapply goto_moves; [exact H|done|by destruct k|]. by left. }
  destruct (slot_live fd a H ltac:(lia) E) as (g & Hg & Hpos & Hs).
  destruct (FREF_ok a g H Hg Hpos) as [-> H1]; [auto with kernel|]. cbn [bind].
  rewrite !aset_bounds by (rewrite ?(bm_ofiles f Hb), ?(bm_flags f Hb); lia). cbn [bind].
  destruct (clear_ok f fd (<[Z.to_nat fd := 0]> (fd_ofileflags f)) a) as (f' & -> & Hb' & Ha' & Hr' & Hc); try done; [lia|apply length_insert| |].
  { intros j Hj. rewrite !nth_lookup. by rewrite list_lookup_insert_ne by done. }
  cbn [bind]. set (s1 := set_files _ s) in *.
  assert (table_as (claim_cont k) f') as Has' by (by apply cont_table).
  assert (here (put_table (p_fd pr) f' s1) p pr (holding a (dropping a (claim_cont k))) f') as H2.
  { eapply here_table; [exact H1|by apply cont_table_drop|auto with kernel|done|].
    rewrite <- (insert_insert_eq (claims (procs s1)) p _ (holding a (claim_cont k))).
    destruct Hc as (_ & _ & _ & _ & Hoc & Hoc'). rewrite E in Hoc, Hoc'.
    assert (c_larvals (claim_cont k) = [] /\ c_drops (claim_cont k) = []) as [El Ed] by (by destruct k).
    eapply books_slots; [apply (h_inv H1)|apply lookup_insert_eq|apply (h_table H1)|done|done|done|..]; simpl; rewrite ?El, ?Ed; simpl.
    - intros b. destruct (decide (a = b)) as [<-|]; [|rewrite (Hoc' (Some b)) by congruence]; lia.
    - intros b. destruct (decide (a = b)) as [<-|]; [right|left; by rewrite (Hoc' (Some b)) by congruence].
      pose proof (slot_larvals fd a H1 ltac:(lia) E) as Hl. simpl in Hl. rewrite El in Hl. conj; [exact Hl|done|left; lia]. }
  eapply moves_table; [eapply moves_mono; [by eapply closef_moves|]|done|done].
  intros f2 pr2 [-> Hat]. right. by exists a.
Qed.
End Calls.
