(* ===== verification/FdDup.v ===== *)
(** * [dup], [dup2] and [F_DUPFD] *)

From stdpp Require Import gmap sets.
From S2P Require Import Prelude Libkern Filedesc FdMap FdTable FdAlloc MapSum Files FdInv FdBooks FdOwn FdOps FdCalls.

(** The claims of a call that holds the lock, a file, and perhaps a descriptor
    that is marked and still empty. *)
Definition duping (fp : Z) (hole : option Z) : claim := Claim [fp] [] [] [] [] true [] [] hole None.

(** The table after descriptor [old] has been duplicated as [new]. *)
Definition duplicated (fp old new : Z) (f f' : filedesc) : Prop :=
  (forall j, 0 <= j -> slot f' j = if j =? new then Some fp else slot f j) /\ fd_nfiles f' = fd_nfiles f /\
  (forall j, nth j (fd_ofileflags f') 0 =
    if decide (j = Z.to_nat new) then Z.land (nth (Z.to_nat old) (fd_ofileflags f) 0) (Z.lnot UF_EXCLOSE) else nth j (fd_ofileflags f) 0).

Section Dup.
Context (maxfiles LONG_MAX : Z).
Hypothesis maxfiles_range : 0 <= maxfiles <= 12800.
Hypothesis LONG_MAX_range : 2 ^ 31 - 1 <= LONG_MAX.
Implicit Types (s : state).

Notation here := (here maxfiles).
Notation ok := (ok maxfiles).
Notation moves := (moves maxfiles).

(** Where [finishdup] leaves [p]. *)
Definition finishes (fp old new : Z) (f f' : filedesc) (pr : fd_proc) : Prop :=
  duplicated fp old new f f' /\
  match slot f new with
  | None => p_pc pr = User /\ p_ret pr = Fd new
  | Some o => closef_at o (KOut (Fd new)) f' f' pr
  end.

Lemma occ_write f new x b : bitmaps f -> 0 <= new < fd_nfiles f ->
  occ (Some b) (<[Z.to_nat new := x]> (fd_ofiles f)) =
  occ (Some b) (fd_ofiles f) - (if decide (slot f new = Some b) then 1 else 0) + (if decide (x = Some b) then 1 else 0).
Proof.
  intros Hb Hn. pose proof (bm_ofiles f Hb). destruct (lookup_lt_is_Some_2 (fd_ofiles f) (Z.to_nat new)) as [y Hy]; [lia|].
  rewrite (occ_insert _ _ _ _ _ Hy). unfold slot. by rewrite (nth_lookup_Some _ _ None y Hy).
Qed.

(** The table with [fp] written into [new]. *)
Definition written (fp old new : Z) (f : filedesc) : filedesc :=
  set_ofileflags (<[Z.to_nat new := Z.land (nth (Z.to_nat old) (fd_ofileflags f) 0) (Z.lnot UF_EXCLOSE)]> (fd_ofileflags f))
    (set_ofiles (<[Z.to_nat new := Some fp]> (fd_ofiles f)) f).

Lemma written_duplicated fp old new f : bitmaps f -> 0 <= new < fd_nfiles f ->
  bitmaps (written fp old new f) /\ duplicated fp old new f (written fp old new f).
Proof.
  intros Hb Hn. pose proof (bm_ofiles f Hb). pose proof (bm_flags f Hb). unfold written. split; [|split; [|split; [done|]]].
  - apply bitmaps_files; [done|apply length_insert..].
  - intros j Hj. etransitivity; [apply (slot_insert f (Z.to_nat new) (Some fp) j); lia|]. by rewrite Z2Nat.id by lia.
  - intros j. simpl. apply nth_insert. lia.
Qed.

(** The counts after the write, with the table [f'] that results. *)
Lemma books_write s p pr fp new f f' c :
  here s p pr (dropping fp c) f -> bitmaps f -> 0 <= new < fd_nfiles f -> c_drops c = [] -> c_larvals c = [] ->
  fd_ofiles f' = <[Z.to_nat new := Some fp]> (fd_ofiles f) -> 0 < slots (tables s) fp ->
  forall c', c_refs c' = c_refs c -> c_wants c' = c_wants c -> c_onlys c' = c_onlys c -> c_larvals c' = [] ->
  c_drops c' = match slot f new with Some o => [o] | None => [] end ->
  tally c_larvals (<[p := dropping fp c]> (claims (procs s))) fp = 0 ->
  books (files s) (<[p_fd pr := f']> (tables s)) (<[p := c']> (claims (procs s))).
Proof.
  intros H Hb Hn Hd Hl Hof Hpos c' Er Ew Eo El Ed Hlar.
  rewrite <- (insert_insert_eq (claims (procs s)) p _ (dropping fp c)).
  eapply books_slots; [apply (h_inv H)|apply lookup_insert_eq|apply (h_table H)|done|done|done|..]; simpl; rewrite ?Hof, ?Hd, ?Hl, ?El; simpl.
  - intros b. rewrite occ_write, Ed by done. destruct (slot f new) as [o|]; simpl; repeat case_decide; simplify_eq; lia.
  - intros b. rewrite occ_write by done. destruct (decide (fp = b)) as [<-|Hne].
    + destruct (decide (slot f new = Some fp)) as [E|E]; rewrite decide_True by done; [left; lia|].
      right. conj; [exact Hlar|done|]. right. lia.
    + rewrite (decide_False (P := Some fp = Some b)) by congruence. case_decide as E; [|left; lia].
      pose proof (slot_larvals new b H ltac:(lia) E) as Hlb. simpl in Hlb. rewrite Hl in Hlb. right. conj; [exact Hlb|done|left; lia].
Qed.

Definition base (hole : option Z) : claim := Claim [] [] [] [] [] true [] [] hole None.
Definition with_old (o : option Z) (c : claim) : claim := match o with Some a => holding a c | None => c end.

(** The use of the file that is replaced. *)
Lemma fref_old s p pr f fp hole new :
  here s p pr (duping fp hole) f -> 0 <= new ->
  exists s1, match slot f new with Some o => FREF o s | None => Ret s end = Ret s1 /\
  here s1 p pr (holding fp (with_old (slot f new) (base hole))) f /\ tables s1 = tables s /\ procs s1 = procs s.
Proof.
  intros H Hn. destruct (slot f new) as [o|] eqn:E; [|eauto].
  destruct (slot_live new o H Hn E) as (g & Hg & Hpos & _).
  destruct (FREF_ok o g H Hg Hpos) as [-> H1]; [claim_ok_tac|]. eexists. split; [done|]. split; [|done].
  eapply here_claim; [exact H1|apply (h_as H)|claim_ok_tac|done|]. intros a. simpl. lia.
Qed.

Lemma duplicated_same fp old new f g f' : duplicated fp old new f g -> same_files g f' -> duplicated fp old new f f'.
Proof. intros (Hs & Hn & Hf) Hsame. destruct Hsame as (E1 & E2 & E3 & _). unfold duplicated, slot in *. by rewrite E1, E2, E3. Qed.

(** The end of [finishdup]: the table is written. *)
Lemma finishdup_end s p pr f fp old new hole :
  here s p pr (dropping fp (with_old (slot f new) (base hole))) f -> 0 <= old -> slot f old = Some fp -> 0 <= new < fd_nfiles f ->
  hole = None \/ hole = Some new ->
  moves s p pr (match slot f new with
    | None => let! fdp := fd_used (written fp old new f) new in out p (p_fd pr) (Fd new) (put_table (p_fd pr) fdp s)
    | Some o => closef p o (KOut (Fd new)) (put_table (p_fd pr) (written fp old new f) s)
    end) (finishes fp old new f).
Proof.
  intros H Ho Hold Hn Hhole. assert (table_as (base hole) f) as (Hrc & Hb & Hag & Hho & _ & _) by (by destruct (slot f new); apply (h_as H)).
  simpl in Hag, Hho. destruct (written_duplicated fp old new f Hb Hn) as [Hbw Hdw].
  destruct (slot_live old fp H Ho Hold) as (_ & _ & _ & Hsl). pose proof (slot_larvals old fp H Ho Hold) as Hlar.
  unfold finishes. destruct (slot f new) as [o|] eqn:E; simpl in Hlar.
  - destruct Hhole as [-> | ->]; [|destruct (Hho new); [done|naive_solver] ].
    assert (table_as (kept true) (written fp old new f)) as Htw.
    { apply (cont_table (KOut (Fd new))); [done|]. split; [done|]. split; [done|]. intros j Hj. rewrite (proj1 Hdw) by done.
      change (used (written fp old new f) j) with (used f j). rewrite Hag by done. destruct (Z.eqb_spec j new) as [->|]; [|done]. by rewrite E. }
    assert (here (put_table (p_fd pr) (written fp old new f) s) p pr (holding o (dropping o (kept true))) (written fp old new f)) as H2.
    { eapply here_table; [exact H|done|claim_ok_tac|done|]. by eapply books_write; [exact H|..]; rewrite ?E. }
    eapply moves_table; [eapply moves_mono; [by eapply (closef_moves maxfiles _ p pr o (KOut (Fd new))); [exact H2|..]|]|done|done].
    intros f2 pr2 [-> Hat]. by split.
  - destruct (fd_used_spec (written fp old new f) new Hbw Hn) as (f' & -> & Hb' & Hm & Hsame & _). cbn [bind].
    pose proof (duplicated_same _ _ _ _ _ _ Hdw Hsame) as Hd'.
    assert (table_as (kept true) f') as Htw.
    { apply (cont_table (KOut (Fd new))); [done|]. split; [by destruct Hsame as (_ & _ & _ & -> & _)|]. split; [done|].
      intros j Hj. rewrite Hm, (proj1 Hd') by done. destruct (Z.eqb_spec j new); [by rewrite bool_decide_eq_true_2|].
      change (used (written fp old new f) j) with (used f j). apply Hag; [done|]. destruct Hhole as [-> | ->]; congruence. }
    assert (here (put_table (p_fd pr) f' s) p pr (kept true) f') as H2.
    { eapply here_table; [exact H|done|claim_ok_tac|done|]. eapply books_write; [exact H|..]; rewrite ?E; try done. by destruct Hsame as (-> & _). }
    eapply moves_table; [eapply out_moves; [exact H2|]|done|done]. done.
Qed.

Lemma finishdup_moves s p pr f fp old new hole :
  here s p pr (duping fp hole) f -> 0 <= old -> slot f old = Some fp -> 0 <= new < fd_nfiles f -> hole = None \/ hole = Some new ->
  moves s p pr (finishdup LONG_MAX p (p_fd pr) fp old new s) (finishes fp old new f).
Proof.
  intros H Ho Hold Hn Hhole. pose proof (h_as H) as Has. destruct Has as (Hrc & Hb & Hag & Hho & _ & _). simpl in Hag, Hho.
  destruct (slot_live old fp H Ho Hold) as (g & Hg & Hpos & Hsl).
  unfold finishdup, deref at 1. rewrite Hg. cbn [bind]. pose proof (count_bound _ _ LONG_MAX_range _ _ _ _ (h_inv H) Hg).
  destruct (Z.eqb_spec (f_count g) (LONG_MAX - 2)); [lia|]. unfold deref. rewrite (h_table H). cbn [bind].
  rewrite slot_aget by done. cbn [bind]. destruct (fref_old s p pr f fp hole new H) as (s1 & -> & H1 & Et1 & Ep1); [lia|]. cbn [bind].
  pose proof (bm_ofiles f Hb) as Hlen. pose proof (bm_flags f Hb) as Hflen.
  assert (old < fd_nfiles f) as Holt. { destruct (decide (old < fd_nfiles f)); [done|]. rewrite slot_outside in Hold by (done || lia). done. }
  rewrite aset_bounds by lia. cbn [bind]. rewrite aget_nth by lia. cbn [bind]. rewrite aset_bounds by lia. cbn [bind].
  fold (written fp old new f). destruct (written_duplicated fp old new f Hb Hn) as [Hbw Hdw].
  (* the reference *)
  destruct (slot_live old fp H1 Ho Hold) as (g1 & Hg1 & Hpos1 & _). unfold upd_file, deref. rewrite Hg1. cbn [bind].
  set (s2 := set_files (<[fp := set_f_count (f_count g1 + 1) g1]> (files s1)) s1).
  assert (here s2 p pr (holding fp (dropping fp (with_old (slot f new) (base hole)))) f) as H2.
  { eapply here_files; [exact H1|by destruct (slot f new); apply (h_as H)|destruct (slot f new); claim_ok_tac|done| |by apply map_size_insert_Some].
    rewrite <- (insert_insert_eq (claims (procs s1)) p _ (holding fp (with_old (slot f new) (base hole)))).
    apply (books_more _ _ _ _ (holding fp (with_old (slot f new) (base hole)))); try done; [apply (h_inv H1)|apply lookup_insert_eq|].
    rewrite (slot_larvals old fp H1 Ho Hold). by destruct (slot f new). }
  destruct (FRELE_ok fp (set_f_count (f_count g1 + 1) g1) H2) as [-> H3];
    [apply lookup_insert_eq|by destruct (slot f new)|destruct (slot f new); claim_ok_tac|by destruct (slot f new); apply (h_as H)|].
  cbn [bind]. set (s3 := set_files _ s2) in *.
  eapply moves_files; [by eapply finishdup_end|..]; simpl; congruence.
Qed.

(** * Steps shared by the calls *)

(** A table with the same files in it. *)
Lemma here_retable s p pr c f c' f' :
  here s p pr c f -> (forall a, occ (Some a) (fd_ofiles f') = occ (Some a) (fd_ofiles f)) ->
  table_as c' f' -> claim_ok c' -> c_lock c' = c_lock c -> c_refs c' = c_refs c -> c_drops c' = c_drops c ->
  c_wants c' = c_wants c -> c_onlys c' = c_onlys c -> c_larvals c' = c_larvals c ->
  here (put_table (p_fd pr) f' s) p pr c' f'.
Proof.
  intros H Ho Ht Hok El E1 E2 E3 E4 E5. eapply here_table; [exact H|done|done|done|].
  rewrite <- (insert_insert_eq (claims (procs s)) p _ c).
  eapply books_slots; [apply (h_inv H)|apply lookup_insert_eq|apply (h_table H)|done|done|done|..].
  - intros a. by rewrite Ho, E2.
  - intros a. left. by rewrite Ho, E5.
Qed.

Definition knows (a fd : Z) : claim := holding a (knowing fd a idle).

(** A file of the table is taken into use before the lock. *)
Lemma hold_moves s p pr f a fd x (R : filedesc -> fd_proc -> Prop) :
  here s p pr idle f -> 0 <= fd -> slot f fd = Some a -> claim_of x = knows a fd -> pc_args x -> R f (set_pc x pr) ->
  moves s p pr (let! s := FREF a s in goto p x s) R.
Proof.
  intros H Hfd E Hx Ha HR. destruct (slot_live fd a H Hfd E) as (g & Hg & Hpos & _).
  destruct (FREF_ok a g H Hg Hpos) as [-> H1]; [claim_ok_tac|]. cbn [bind].
  eapply moves_files; [eapply goto_moves; [|exact Hx|done|exact HR]|done|done].
  pose proof (h_as H) as (H2 & H3 & H4 & H5 & H6 & H7).
  eapply here_claim; [exact H1| |claim_ok_tac|done|by intros b].
  split; [exact H2|]. split; [exact H3|]. split; [exact H4|]. split; [exact H5|]. split; [|exact H7].
  intros fd' a' Hin. apply list_elem_of_singleton in Hin. by injection Hin as -> ->.
Qed.

(** The locked part of a call that has [a] of descriptor [fd] in use. *)
Lemma knows_table a fd f : table_as (locking true (knows a fd)) f ->
  fd_refcnt f = 1 /\ table_ok f /\ 0 <= fd /\ slot f fd = Some a.
Proof.
  intros (H2 & H3 & H4 & H5 & H6 & H7). simpl in *. destruct (H6 fd a) as [? ?]; [by left|]. conj; try done.
  split; [done|]. intros j Hj. by apply H4.
Qed.

Lemma table_as_none c f : c_dying c = None -> c_hole c = None -> c_slots c = [] -> c_index c = [] ->
  fd_refcnt f = 1 -> table_ok f -> table_as c f.
Proof.
  intros E1 E2 E3 E4 Hr [Hb Ha]. unfold table_as. rewrite E1, E2, E3, E4. conj; try done.
  - intros j Hj _. by apply Ha.
  - intros ? ? ?%elem_of_nil. done.
  - intros ? ?%elem_of_nil. done.
Qed.

(** The use is given back. *)
Lemma release_use s p pr f a fd : here s p pr (locking true (knows a fd)) f ->
  exists s', FRELE a s = Ret s' /\ here s' p pr (kept true) f /\ tables s' = tables s /\ procs s' = procs s.
Proof.
  intros H. destruct (knows_table a fd f (h_as H)) as (Hr & Hok & _). destruct (ref_live a H) as [g Hg]; [by left|].
  assert (table_as (kept true) f) as Hk by (by apply table_as_none).
  assert (here s p pr (holding a (kept true)) f) as H1 by (eapply here_claim; [exact H|done|claim_ok_tac|done|done]).
  destruct (FRELE_ok a g H1 Hg) as [-> H2]; [done|claim_ok_tac|done|]. eauto.
Qed.

Lemma mark_slot f z f1 fd : mark f z true f1 -> same_files f f1 -> slot f1 fd = slot f fd.
Proof. intros _ Hs. by apply same_slot. Qed.

(** A descriptor has been found: it is marked, and the file is written there. *)
Lemma found_moves s p pr f a fd z f1 :
  here s p pr (locking true (knows a fd)) f -> bitmaps f1 -> mark f z true f1 -> same_files f f1 -> 0 <= z < fd_nfiles f ->
  used f z = false ->
  moves s p pr (finishdup LONG_MAX p (p_fd pr) a fd z (put_table (p_fd pr) f1 s))
    (fun f' pr' => duplicated a fd z f f' /\ slot f z = None /\ p_pc pr' = User /\ p_ret pr' = Fd z).
Proof.
  intros H Hb1 Hm Hs Hz Hu. destruct (knows_table a fd f (h_as H)) as (Hr & [Hb Hag] & Hfd & E).
  assert (slot f z = None) as Ez. { rewrite Hag in Hu by lia. apply bool_decide_eq_false in Hu. destruct (slot f z); [|done]. by destruct Hu. }
  pose proof Hs as (Eof & Efl & En & Erc & Ekn).
  assert (here (put_table (p_fd pr) f1 s) p pr (duping a (Some z)) f1) as H1.
  { eapply here_retable; [exact H|by intros b; rewrite Eof| |claim_ok_tac|done|done|done|done|done|done].
    unfold table_as. simpl. conj; try (intros ? ? ?%elem_of_nil || intros ? ?%elem_of_nil; done); try done; [congruence|..].
    - intros j Hj Hne. rewrite Hm, (same_slot f f1) by done. destruct (Z.eqb_spec j z); [congruence|]. by apply Hag.
    - intros i [= <-]. rewrite Hm, (same_slot f f1), Z.eqb_refl by (done || lia). by split; [lia|]. }
  eapply moves_table; [eapply moves_mono; [eapply finishdup_moves; [exact H1|done|by rewrite (same_slot f f1)|lia|by right]|]|done|done].
  intros f' pr' [Hd Hpc]. rewrite (same_slot f f1), Ez in Hpc by done. conj; try tauto.
  unfold duplicated in *. unfold slot in Hd |- *. by rewrite Eof, Efl, En in Hd.
Qed.

(** The table has grown; the call starts again. *)
Lemma grow_here s p pr f : here s p pr (kept true) f -> fd_nfiles f <= 6400 ->
  exists f', fdexpand f = Ret f' /\ here (fdpunlock (p_fd pr) (put_table (p_fd pr) f' s)) p pr idle f' /\
  extends f f' /\ fd_nfiles f' = grown_size (fd_nfiles f).
Proof.
  intros H Hn. destruct (proj1 (cont_table KClose f eq_refl) (h_as H)) as (Hr & Hok).
  destruct (fdexpand_spec f (proj1 Hok) Hn) as (f' & E & Hb' & Hext & Hsz). exists f'. split; [done|]. split; [|done].
  pose proof (extends_agrees f f' Hext (proj2 Hok)) as Hag'. destruct Hext as (Hu & Hs & Hf & Erc & Ekn & k & Eof).
  apply (unlock_ok (c := kept true)). eapply here_retable; [exact H| |apply table_as_none; try done; congruence|claim_ok_tac|done..].
  intros a. rewrite Eof, occ_app, occ_zeroes by done. lia.
Qed.

(** * The calls *)

Definition returned (r : result) (pr : fd_proc) : Prop := p_pc pr = User /\ p_ret pr = r.
Definition closed_fd (f : filedesc) (fd : Z) : Prop := 0 <= fd -> slot f fd = None.

(** Up to the lock: the descriptor is not open, or its file is in use. *)
Definition enters (f : filedesc) (fd : Z) (x : Z -> pc) (f' : filedesc) (pr : fd_proc) : Prop :=
  f' = f /\ ((closed_fd f fd /\ returned (Err EBADF) pr) \/ (exists a, 0 <= fd /\ slot f fd = Some a /\ p_pc pr = x a)).

Lemma getfile_idle s p pr f fd : here s p pr idle f -> is_s 32 fd ->
  (fd_getfile f fd s = Ret None /\ closed_fd f fd) \/
  (exists a, fd_getfile f fd s = Ret (Some a) /\ 0 <= fd < fd_nfiles f /\ slot f fd = Some a).
Proof.
  intros H Hfd. destruct (getfile_ok _ _ _ _ _ _ _ H eq_refl Hfd) as ([a|] & -> & Hr); [right; exists a; tauto|left].
  split; [done|]. intros H0. destruct (slot f fd) as [a|] eqn:E; [|done]. specialize (Hr a H0 eq_refl). simpl in Hr. lia.
Qed.

Lemma dup_enter_moves s p pr f old : here s p pr idle f -> is_s 32 old ->
  moves s p pr (dup_enter p (p_fd pr) old s) (enters f old (fun a => DupLock a old)).
Proof.
  intros H Hold. unfold dup_enter, deref. rewrite (h_table H). cbn [bind].
  destruct (getfile_idle _ _ _ _ _ H Hold) as [[-> Hn]|(a & -> & Hr & E)]; cbn [bind].
  - eapply leave_moves; [exact H|]. split; [done|]. by left.
  - eapply (hold_moves _ _ _ _ a old); [exact H|lia|exact E|done|done|]. split; [done|]. right. exists a. conj; try done; lia.
Qed.

(** With the lock: a descriptor is found, there is none below the limit, or
    the table grows and the call starts again. *)
Definition dup_result (want lim a fd : Z) (x : pc) (f f' : filedesc) (pr : fd_proc) : Prop :=
  (exists z, want <= z < Z.min (fd_nfiles f) lim /\ slot f z = None /\ (forall j, want <= j < z -> is_Some (slot f j)) /\
    duplicated a fd z f f' /\ returned (Fd z) pr) \/
  ((forall j, want <= j < lim -> is_Some (slot f j)) /\ f' = f /\ returned (Err EMFILE) pr) \/
  ((forall j, want <= j < fd_nfiles f -> is_Some (slot f j)) /\ fd_nfiles f < lim /\ extends f f' /\
    fd_nfiles f' = grown_size (fd_nfiles f) /\ p_pc pr = x).

Lemma agrees_some f j : agrees f -> 0 <= j -> used f j = true -> is_Some (slot f j).
Proof. intros Ha Hj Hu. rewrite Ha in Hu by done. by apply bool_decide_eq_true in Hu. Qed.

Lemma extends_slot f f' j a : extends f f' -> 0 <= j -> slot f j = Some a -> slot f' j = Some a.
Proof. intros (_ & Hs & _) Hj E. by rewrite Hs. Qed.

Lemma dup_locked_moves s p pr f fp old :
  here s p pr (locking true (knows fp old)) f -> is_s 32 old ->
  moves s p pr (dup_locked maxfiles LONG_MAX p (p_fd pr) (p_rlim_nofile pr) fp old s)
    (dup_result 0 (p_rlim_nofile pr) fp old (DupLock fp old) f).
Proof.
  intros H Hold. destruct (knows_table fp old f (h_as H)) as (Hr & Hok & Hfd & E). pose proof (here_rlim H) as Hlim.
  unfold dup_locked, deref. rewrite (h_table H). cbn [bind].
  destruct (fdalloc_cases f (p_rlim_nofile pr) maxfiles 0 Hok Hlim ltac:(lia) ltac:(lia))
    as [(z & f1 & -> & Hz & [Hzu Hzl] & Hb1 & Hm & Hs)|[Hfull [[-> Hge]|[-> Hlt] ] ] ]; cbn [bind].
  - eapply moves_mono; [eapply found_moves; [exact H|done|done|done|lia|done]|]. intros f' pr' (Hd & Ez & Hret). left.
    exists z. conj; try done; try lia. intros j Hj. eapply agrees_some; [apply Hok|lia|by apply Hzl].
  - destruct (release_use _ _ _ _ _ _ H) as (s1 & -> & H1 & Et & Ep). cbn [bind]. simpl.
    eapply moves_files; [eapply out_moves; [exact H1|]|done|done]. right. left. conj; try done.
    intros j Hj. eapply agrees_some; [apply Hok|lia|]. apply Hfull. lia.
  - destruct (release_use _ _ _ _ _ _ H) as (s1 & -> & H1 & Et & Ep). cbn [bind]. simpl.
    pose proof (room_to_grow _ _ (bm_size f (proj1 Hok)) Hlt ltac:(lia)) as Hgrow.
    destruct (grow_here _ _ _ _ H1 Hgrow) as (f' & -> & H2 & Hext & Hsz). cbn [bind].
    eapply moves_table; [eapply moves_mono; [eapply dup_enter_moves; [exact H2|done]|]|simpl; by rewrite Et|done].
    pose proof (extends_slot f f' old fp Hext Hfd E) as E'. intros f2 pr2 [-> [[Hc _]|(a & _ & E2 & Hpc)] ]; [rewrite Hc in E' by done; done|].
    assert (a = fp) as -> by congruence. right. right. conj; try done.
    intros j Hj. eapply agrees_some; [apply Hok|lia|]. apply Hfull. lia.
Qed.

(** A valid new descriptor: not negative, below the limits. *)
Lemma limit_cases lim new : is_s 32 new -> 0 <= lim <= maxfiles ->
  (lim <=? u32 new) || (maxfiles <=? u32 new) = negb (bool_decide (0 <= new < lim)).
Proof.
  unfold is_s. intros Hn Hl. destruct (decide (0 <= new)).
  - rewrite u32_small by (unfold is_u; lia). case_bool_decide; simpl; [apply orb_false_iff|apply orb_true_iff];
      rewrite ?Z.leb_gt, ?Z.leb_le; lia.
  - rewrite bool_decide_eq_false_2 by lia. simpl. apply orb_true_iff. left. apply Z.leb_le.
    assert (u32 new = new + 2 ^ 32); [|lia]. unfold u32, wrap.
    rewrite <- (Z.mod_add new 1) by lia. rewrite Z.mod_small; lia.
Qed.

Definition dupfd_enters (lim fd newmin : Z) (f f' : filedesc) (pr : fd_proc) : Prop :=
  (enters f fd (fun a => DupfdLock a fd newmin) f' pr /\ (p_pc pr <> User -> 0 <= newmin < lim)) \/
  (f' = f /\ ~ (0 <= newmin < lim) /\ returned (Err EINVAL) pr).

Lemma dupfd_enter_moves s p pr f fd newmin : here s p pr idle f -> is_s 32 fd -> is_s 32 newmin ->
  moves s p pr (dupfd_enter maxfiles p (p_fd pr) (p_rlim_nofile pr) fd newmin s) (dupfd_enters (p_rlim_nofile pr) fd newmin f).
Proof.
  intros H Hfd Hmin. unfold dupfd_enter, deref. rewrite (h_table H). cbn [bind].
  destruct (getfile_idle _ _ _ _ _ H Hfd) as [[-> Hn]|(a & -> & Hr & E)]; cbn [bind].
  - eapply leave_moves; [exact H|]. left. split; [split; [done|by left]|done].
  - rewrite limit_cases by (done || apply (here_rlim H)). case_bool_decide; simpl.
    + eapply (hold_moves _ _ _ _ a fd); [exact H|lia|exact E|done|by split; [|lia]|]. left. split; [|done].
      split; [done|]. right. exists a. conj; try done; lia.
    + eapply leave_moves; [exact H|]. by right.
Qed.

Definition dupfd_result (lim fp fd newmin : Z) (f f' : filedesc) (pr : fd_proc) : Prop :=
  dup_result newmin lim fp fd (DupfdLock fp fd newmin) f f' pr \/
  (lim <= newmin /\ extends f f' /\ returned (Err EINVAL) pr).

Lemma dupfd_locked_moves s p pr f fp fd newmin :
  here s p pr (locking true (knows fp fd)) f -> is_s 32 fd -> is_s 32 newmin -> 0 <= newmin ->
  moves s p pr (dupfd_locked maxfiles LONG_MAX p (p_fd pr) (p_rlim_nofile pr) fp fd newmin s)
    (dupfd_result (p_rlim_nofile pr) fp fd newmin f).
Proof.
  intros H Hsfd Hsmin Hmin. destruct (knows_table fp fd f (h_as H)) as (Hr & Hok & Hfd & E). pose proof (here_rlim H) as Hlim.
  unfold dupfd_locked, deref. rewrite (h_table H). cbn [bind].
  destruct (fdalloc_cases f (p_rlim_nofile pr) maxfiles newmin Hok Hlim ltac:(lia) ltac:(lia))
    as [(z & f1 & -> & Hz & [Hzu Hzl] & Hb1 & Hm & Hs)|[Hfull [[-> Hge]|[-> Hlt] ] ] ]; cbn [bind].
  - eapply moves_mono; [eapply found_moves; [exact H|done|done|done|lia|done]|]. intros f' pr' (Hd & Ez & Hret). left. left.
    exists z. conj; try done; try lia. intros j Hj. eapply agrees_some; [apply Hok|lia|by apply Hzl].
  - destruct (release_use _ _ _ _ _ _ H) as (s1 & -> & H1 & Et & Ep). cbn [bind]. simpl.
    eapply moves_files; [eapply out_moves; [exact H1|]|done|done]. left. right. left. conj; try done.
    intros j Hj. eapply agrees_some; [apply Hok|lia|]. apply Hfull. lia.
  - destruct (release_use _ _ _ _ _ _ H) as (s1 & Erel & H1 & Et & Ep). simpl.
    pose proof (room_to_grow _ _ (bm_size f (proj1 Hok)) Hlt ltac:(lia)) as Hgrow.
    destruct (grow_here _ _ _ _ H1 Hgrow) as (f' & -> & H2 & Hext & Hsz). cbn [bind]. rewrite Erel. cbn [bind].
    eapply moves_table; [eapply moves_mono; [eapply dupfd_enter_moves; [exact H2|done|done]|]|simpl; by rewrite Et|done].
    pose proof (extends_slot f f' fd fp Hext Hfd E) as E'. intros f2 pr2 [[[-> [[Hc _]|(a & _ & E2 & Hpc)] ] Hl]|(-> & Hl & Hret)].
    + rewrite Hc in E' by done. done.
    + assert (a = fp) as -> by congruence. left. right. right. conj; try done.
      intros j Hj. eapply agrees_some; [apply Hok|lia|]. apply Hfull. lia.
    + right. conj; try done. lia.
Qed.

Definition dup2_enters (lim old new : Z) (f f' : filedesc) (pr : fd_proc) : Prop :=
  f' = f /\
  ((closed_fd f old /\ returned (Err EBADF) pr) \/ (~ (0 <= new < lim) /\ returned (Err EBADF) pr) \/
   (0 <= new < lim /\ exists a, 0 <= old /\ slot f old = Some a /\
     if old =? new then returned (Fd new) pr else p_pc pr = Dup2Lock a old new)).

Lemma dup2_enter_moves s p pr f old new : here s p pr idle f -> is_s 32 old -> is_s 32 new ->
  moves s p pr (dup2_enter maxfiles p (p_fd pr) (p_rlim_nofile pr) old new s) (dup2_enters (p_rlim_nofile pr) old new f).
Proof.
  intros H Hold Hnew. unfold dup2_enter, dup2_enters, deref. rewrite (h_table H). cbn [bind].
  destruct (getfile_idle _ _ _ _ _ H Hold) as [[-> Hn]|(a & -> & Hr & E)]; cbn [bind].
  - eapply leave_moves; [exact H|]. split; [done|]. by left.
  - rewrite limit_cases by (done || apply (here_rlim H)). case_bool_decide; simpl.
    + destruct (Z.eqb_spec old new).
      * eapply leave_moves; [exact H|]. split; [done|]. right. right. split; [done|]. exists a. conj; try done; lia.
      * eapply (hold_moves _ _ _ _ a old); [exact H|lia|exact E|done|by split; [|split; [lia|] ]|]. split; [done|]. right. right.
        split; [done|]. exists a. conj; try done; lia.
    + eapply leave_moves; [exact H|]. split; [done|]. right. by left.
Qed.

Definition dup2_result (lim fp old new : Z) (f f' : filedesc) (pr : fd_proc) : Prop :=
  (new < fd_nfiles f /\ finishes fp old new f f' pr) \/
  (fd_nfiles f <= new /\ extends f f' /\ fd_nfiles f' = grown_size (fd_nfiles f) /\ fd_nfiles f < lim /\ p_pc pr = Dup2Lock fp old new) \/
  (lim <= new /\ extends f f' /\ exists e, returned (Err e) pr).

Lemma dup2_locked_moves s p pr f fp old new :
  here s p pr (locking true (knows fp old)) f -> is_s 32 old -> is_s 32 new -> 0 <= new -> old <> new ->
  moves s p pr (dup2_locked maxfiles LONG_MAX p (p_fd pr) (p_rlim_nofile pr) fp old new s)
    (dup2_result (p_rlim_nofile pr) fp old new f).
Proof.
  intros H Hsold Hsnew Hnew Hne. destruct (knows_table fp old f (h_as H)) as (Hr & Hok & Hfd & E). pose proof (here_rlim H) as Hlim.
  unfold dup2_locked, deref. rewrite (h_table H). cbn [bind]. destruct (Z.leb_spec (fd_nfiles f) new) as [Hge|Hlt].
  2: { eapply moves_mono; [eapply (finishdup_moves _ _ _ f fp old new None); [|done|done|lia|by left]|by left].
       eapply here_claim; [exact H|by apply table_as_none|claim_ok_tac|done|done]. }
  destruct (fdalloc_cases f (p_rlim_nofile pr) maxfiles new Hok Hlim ltac:(lia) ltac:(lia))
    as [(z & f1 & -> & Hz & _)|[Hfull [[-> Hge']|[-> Hlt] ] ] ]; cbn [bind]; [lia|..].
  - destruct (release_use _ _ _ _ _ _ H) as (s1 & -> & H1 & Et & Ep). cbn [bind]. simpl.
    eapply moves_files; [eapply out_moves; [exact H1|]|done|done]. right. right. conj; [lia| |by eexists].
    unfold extends. conj; try done. exists 0%nat. by rewrite app_nil_r.
  - destruct (release_use _ _ _ _ _ _ H) as (s1 & -> & H1 & Et & Ep). cbn [bind]. simpl.
    pose proof (room_to_grow _ _ (bm_size f (proj1 Hok)) Hlt ltac:(lia)) as Hgrow.
    destruct (grow_here _ _ _ _ H1 Hgrow) as (f' & -> & H2 & Hext & Hsz). cbn [bind].
    eapply moves_table; [eapply moves_mono; [eapply dup2_enter_moves; [exact H2|done|done]|]|simpl; by rewrite Et|done].
    pose proof (extends_slot f f' old fp Hext Hfd E) as E'. intros f2 pr2 [-> [[Hc _]|[(Hl & Hret)|(Hl & a & _ & E2 & Hpc)] ] ].
    + rewrite Hc in E' by done. done.
    + right. right. conj; [lia|done|by eexists].
    + assert (a = fp) as -> by congruence. destruct (Z.eqb_spec old new); [done|]. right. left. by conj.
Qed.
End Dup.
