(* ===== verification/FdOpen.v ===== *)
(** * Calls that create files: [sys_open], [sys_socket], [sys_kqueue] *)

From stdpp Require Import gmap sets.
From S2P Require Import Prelude Libkern Filedesc FdMap FdTable FdAlloc MapSum Files FdInv FdBooks FdOwn FdOps FdCalls FdDup.

Lemma extends_refl f : extends f f.
Proof. unfold extends. conj; try done. exists 0%nat. by rewrite app_nil_r. Qed.

Lemma extends_trans f g h : extends f g -> extends g h -> extends f h.
Proof.
  intros (A1 & A2 & A3 & A4 & A5 & k & A6) (B1 & B2 & B3 & B4 & B5 & l & B6). unfold extends.
  split; [|split; [|split; [|split; [congruence|split; [congruence|] ] ] ] ].
  - intros j Hj. by rewrite B1, A1.
  - intros j Hj. by rewrite B2, A2.
  - intros j. by rewrite B3, A3.
  - exists (k + l)%nat. by rewrite B6, A6, <- app_assoc, replicate_add.
Qed.

Lemma extends_occ f f' a : extends f f' -> occ (Some a) (fd_ofiles f') = occ (Some a) (fd_ofiles f).
Proof. intros (_ & _ & _ & _ & _ & k & ->). rewrite occ_app, occ_zeroes by done. lia. Qed.

Lemma grown_double n : In n fd_sizes -> 2 * n <= grown_size n.
Proof. cbn [In fd_sizes]. intros H. repeat destruct H as [<- | H]; try done; vm_compute; congruence. Qed.

(** The claims of a call that is making file [a] in descriptor [i]. *)
Definition made (a i : Z) (c : claim) : claim := holding a (making a (knowing i a c)).

Lemma claim_ok_made a z b : claim_ok (made a z (kept b)).
Proof. unfold claim_ok. simpl. conj; try lia; [set_solver|]. intros x ->%list_elem_of_singleton. split; [done|]. exists z. by left. Qed.

Section Open.
Context (maxfiles LONG_MAX : Z).
Hypothesis maxfiles_range : 0 <= maxfiles <= 12800.
Hypothesis LONG_MAX_range : 2 ^ 31 - 1 <= LONG_MAX.
Implicit Types (s : state).

Notation here := (here maxfiles).
Notation ok := (ok maxfiles).
Notation moves := (moves maxfiles).

(** * [falloc] *)

(** The loop that finds a descriptor ends, with the table grown as needed. *)
Lemma falloc_fd_spec rlim f k :
  table_ok f -> 0 <= rlim <= maxfiles -> 12800 < fd_nfiles f * 2 ^ Z.of_nat k ->
  exists r f' f1, falloc_fd maxfiles rlim f (S k) = Ret (r, f') /\ extends f f1 /\ table_ok f1 /\
  ((r = Err EMFILE /\ f' = f1 /\ forall j, 0 <= j < rlim -> is_Some (slot f j)) \/
   (exists z, r = Fd z /\ 0 <= z < Z.min (fd_nfiles f1) rlim /\ free_from f1 0 z /\ bitmaps f' /\ mark f1 z true f' /\ same_files f1 f')).
Proof.
  intros Hok Hr. revert f Hok. induction k as [|k IH]; intros f Hok Hk.
  { destruct (size_facts _ (bm_size f (proj1 Hok))). lia. }
  set (fuel := S k) in *. cbn [falloc_fd]. pose proof (size_facts _ (bm_size f (proj1 Hok))) as Hsz.
  destruct (fdalloc_cases f rlim maxfiles 0 Hok Hr ltac:(lia) ltac:(lia))
    as [(z & f1 & -> & Hz & Hff & Hb1 & Hm & Hs)|[Hfull [[-> Hge]|[-> Hlt] ] ] ]; cbn [bind].
  - eexists _, _, f. split; [done|]. split; [apply extends_refl|]. split; [done|]. right. by exists z.
  - eexists _, _, f. split; [done|]. split; [apply extends_refl|]. split; [done|]. left. conj; try done.
    intros j Hj. eapply agrees_some; [apply Hok|lia|]. apply Hfull. lia.
  - simpl. pose proof (room_to_grow _ _ (bm_size f (proj1 Hok)) Hlt ltac:(lia)) as Hgrow.
    destruct (fdexpand_spec f (proj1 Hok) Hgrow) as (g & -> & Hbg & Hext & Hng). cbn [bind].
    assert (2 * fd_nfiles f <= fd_nfiles g) as H2 by (rewrite Hng; apply grown_double, Hok).
    destruct (IH g) as (r & f' & f1 & E & Hext1 & Hok1 & Hres).
    { split; [done|]. by eapply extends_agrees; [|apply Hok]. }
    { unfold fuel in Hk. rewrite Nat2Z.inj_succ, Z.pow_succ_r in Hk by lia. pose proof (pow2_pos (Z.of_nat k) ltac:(lia)).
      pose proof (Z.mul_le_mono_nonneg_r _ _ (2 ^ Z.of_nat k) ltac:(lia) H2). lia. }
    exists r, f', f1. split; [exact E|]. split; [by eapply extends_trans|]. split; [done|].
    destruct Hres as [(-> & -> & Hall)|Hz]; [left|by right]. conj; try done. intros j Hj. specialize (Hall j Hj).
    by rewrite (proj1 (proj2 Hext)) in Hall by lia.
Qed.

Lemma table_as_kept b f : table_as (kept b) f <-> fd_refcnt f = 1 /\ table_ok f.
Proof.
  split; [|intros [? ?]; by apply table_as_none]. intros (H1 & H2 & H3 & _). conj; try done. split; [done|].
  intros j Hj. by apply H3.
Qed.

Definition opened (a z : Z) (f f' : filedesc) : Prop :=
  0 <= z /\ slot f z = None /\ (forall j, 0 <= j < z -> is_Some (slot f j)) /\
  (forall j, 0 <= j -> slot f' j = if j =? z then Some a else slot f j) /\
  forall j, nth j (fd_ofileflags f') 0 = nth j (fd_ofileflags f) 0.

(** A new file appears in the table of [p]. *)
Definition marked (b : bool) (z : Z) : claim := Claim [] [] [] [] [] b [] [] (Some z) None.

Lemma here_new s p pr b f a z f' :
  here s p pr (marked b z) f -> files s !! a = None -> nfiles s < maxfiles -> 0 <= z ->
  fd_ofiles f !! Z.to_nat z = Some None -> f' = set_ofiles (<[Z.to_nat z := Some a]> (fd_ofiles f)) f ->
  table_as (made a z (kept b)) f' ->
  here (State (<[a := File 0 0 1 FIF_LARVAL 1]> (files s)) (nfiles s + 1) (<[p_fd pr := f']> (tables s)) (locks s) (procs s) (slpque s))
    p pr (made a z (kept b)) f'.
Proof.
  intros H Ha Hn Hz Hslot Ef Has. pose proof (claim_ok_made a z b) as Hok.
  pose proof (here_owners _ _ _ _ _ _ _ _ H Has Hok eq_refl) as Ho.
  destruct H as [(Hb & _ & Hnf & Hm & Hsl) Hp Hf _ _ Hargs]. split; simpl; try done.
  - split; [|split; [done|simpl; rewrite map_size_insert_None by done; conj; try done; lia] ].
    rewrite <- (insert_insert_eq (claims (procs s)) p _ (holding a (making a (marked b z)))).
    eapply books_claim; [|apply lookup_insert_eq|done..]. simpl.
    rewrite <- (insert_insert_eq (claims (procs s)) p _ (marked b z)). rewrite Ef. by eapply books_new; [|apply lookup_insert_eq|..].
  - apply lookup_insert_eq.
Qed.

(** The table that [falloc] gives up again. *)
Lemma unmark_ok f1 f' z : table_ok f1 -> free_from f1 0 z -> 0 <= z -> bitmaps f' -> mark f1 z true f' -> same_files f1 f' ->
  exists f2, fd_unused f' z = Ret f2 /\ table_ok f2 /\ (forall j, 0 <= j -> used f2 j = used f1 j) /\ same_files f1 f2.
Proof.
  intros [Hb Ha] [Hu _] Hz Hb' Hm Hs. destruct (fd_unused_spec f' z Hb') as (f2 & -> & Hb2 & Hm2 & Hs2 & _); [|done|by rewrite Hm, Z.eqb_refl|].
  { eapply mark_agrees; [by apply agrees_agrees_but|done|done]. }
  assert (same_files f1 f2) as Hs12. { destruct Hs as (E1 & E2 & E3 & E4 & E5), Hs2 as (G1 & G2 & G3 & G4 & G5). unfold same_files. by rewrite G1, G2, G3, G4, G5. }
  assert (forall j, 0 <= j -> used f2 j = used f1 j) as Hu2.
  { intros j Hj. rewrite Hm2, Hm by done. destruct (Z.eqb_spec j z) as [->|]; [by rewrite Hu|done]. }
  exists f2. conj; try done. split; [done|]. intros j Hj. rewrite Hu2, (same_slot f1 f2) by done. by apply Ha.
Qed.

(** The new file, in the descriptor that [falloc_fd] found. *)
Lemma falloc_new s p pr b f f1 f' a z :
  here s p pr (kept b) f -> files s !! a = None -> nfiles s < maxfiles -> extends f f1 -> table_ok f1 -> fd_refcnt f1 = 1 ->
  0 <= z < fd_nfiles f1 -> (forall j, 0 <= j < z -> used f1 j = true) -> slot f1 z = None ->
  bitmaps f' -> mark f1 z true f' -> same_files f1 f' ->
  let f2 := set_ofiles (<[Z.to_nat z := Some a]> (fd_ofiles f')) f' in
  here (State (<[a := File 0 0 1 FIF_LARVAL 1]> (files s)) (nfiles s + 1) (<[p_fd pr := f2]> (tables s)) (locks s) (procs s) (slpque s))
    p pr (made a z (kept b)) f2 /\ opened a z f f2.
Proof.
  intros H Ha Hn Hext Hok1 Hr1 Hz Hzl Ez1 Hb' Hm Hs f2. pose proof Hs as (Eof & Efl & En & Erc & _).
  pose proof (bm_ofiles f1 (proj1 Hok1)) as Hlen.
  assert (forall j, 0 <= j -> slot f2 j = if j =? z then Some a else slot f j) as Hs2.
  { intros j Hj. unfold f2. rewrite slot_insert by (rewrite ?Eof; lia).
    rewrite Z2Nat.id, (same_slot f1 f'), (proj1 (proj2 Hext)) by (done || lia). done. }
  assert (here (put_table (p_fd pr) f' s) p pr (marked b z) f') as H1.
  { eapply here_retable; [exact H|intros x; rewrite Eof; by apply extends_occ| |claim_ok_tac|done..].
    unfold table_as. simpl. conj; try (intros ? ? ?%elem_of_nil || intros ? ?%elem_of_nil; done); try done; [congruence|..].
    - intros j Hj Hne. rewrite Hm, (same_slot f1 f') by done. destruct (Z.eqb_spec j z); [congruence|]. by apply Hok1.
    - intros i [= <-]. rewrite Hm, (same_slot f1 f'), Z.eqb_refl by (done || lia). by split; [lia|]. }
  split.
  - assert (fd_ofiles f' !! Z.to_nat z = Some None) as Hz'.
    { rewrite Eof. destruct (lookup_lt_is_Some_2 (fd_ofiles f1) (Z.to_nat z)) as [y Hy]; [lia|].
      rewrite Hy. unfold slot in Ez1. by rewrite (nth_lookup_Some _ _ None y Hy) in Ez1; subst. }
    pose proof (here_new _ p pr b f' a z f2 H1 Ha ltac:(simpl; lia) ltac:(lia) Hz' eq_refl) as Hnew. simpl in Hnew.
    rewrite insert_insert_eq in Hnew. apply Hnew. clear Hnew.
    unfold table_as. simpl. conj; try done; [by rewrite Erc| | | |].
    + apply (bitmaps_files f' _ (fd_ofileflags f')); [done|apply length_insert|done].
    + intros j Hj _. change (used f2 j) with (used f' j). rewrite Hm, Hs2 by done. destruct (Z.eqb_spec j z); [by rewrite bool_decide_eq_true_2|].
      rewrite <- (proj1 (proj2 Hext)) by done. by apply Hok1.
    + intros j x Hin. apply list_elem_of_singleton in Hin. injection Hin as -> ->. split; [lia|]. by rewrite Hs2, Z.eqb_refl by lia.
    + by intros ? ?%elem_of_nil.
  - unfold opened. conj; try done; [lia|by rewrite <- (proj1 (proj2 Hext)) by lia| |].
    + intros j Hj. rewrite <- (proj1 (proj2 Hext)) by lia. eapply agrees_some; [apply Hok1|lia|by apply Hzl].
    + intros j. simpl. rewrite Efl. apply Hext.
Qed.

Lemma falloc_ok s p pr b f a :
  here s p pr (kept b) f -> files s !! a = None ->
  exists r s' f', falloc maxfiles (p_fd pr) (p_rlim_nofile pr) a s = Ret (r, s') /\
  tables s' = <[p_fd pr := f']> (tables s) /\ procs s' = procs s /\
  match r with
  | Err e => here s' p pr (kept b) f' /\ extends f f' /\
      ((e = EMFILE /\ forall j, 0 <= j < p_rlim_nofile pr -> is_Some (slot f j)) \/ (e = ENFILE /\ nfiles s = maxfiles))
  | Fd z => here s' p pr (made a z (kept b)) f' /\ opened a z f f' /\ z < p_rlim_nofile pr
  end.
Proof.
  intros H Ha. destruct (proj1 (table_as_kept b f) (h_as H)) as (Hr & Hok). pose proof (here_rlim H) as Hlim.
  unfold falloc, deref. rewrite (h_table H). cbn [bind]. pose proof (size_facts _ (bm_size f (proj1 Hok))) as Hsz.
  destruct (falloc_fd_spec (p_rlim_nofile pr) f 31 Hok Hlim) as (r & f' & f1 & -> & Hext & Hok1 & Hres).
  { change (2 ^ Z.of_nat 31) with 2147483648. lia. }
  cbn [bind]. assert (fd_refcnt f1 = 1) as Hr1 by (destruct Hext as (_ & _ & _ & -> & _); done).
  destruct Hres as [(-> & -> & Hall)|(z & -> & Hz & Hff & Hb' & Hm & Hs)].
  - exists (Err EMFILE), (put_table (p_fd pr) f1 s), f1. conj; try done; [|by left].
    eapply here_retable; [exact H|intros x; by apply extends_occ|by apply table_as_kept|claim_ok_tac|done..].
  - pose proof (nth_lookup_Some (fd_ofiles f') (Z.to_nat z) None) as Hnth. destruct Hff as [Hzu Hzl].
    pose proof Hs as (Eof & Efl & En & Erc & _).
    assert (slot f1 z = None) as Ez1.
    { rewrite (proj2 Hok1) in Hzu by lia. apply bool_decide_eq_false in Hzu. destruct (slot f1 z); [|done]. by destruct Hzu. }
    destruct (Z.leb_spec maxfiles (nfiles s)).
    + destruct (unmark_ok f1 f' z) as (f2 & -> & Hok2 & Hu2 & Hs2); try done; [lia|]. cbn [bind].
      assert (extends f f2) as Hext2.
      { eapply extends_trans; [exact Hext|]. destruct Hs2 as (G1 & G2 & G3 & G4 & G5). unfold extends, slot. rewrite G1, G2, G4, G5.
        conj; try done. exists 0%nat. by rewrite app_nil_r. }
      exists (Err ENFILE), (put_table (p_fd pr) f2 s), f2. conj; try done.
      * eapply here_retable; [exact H|intros x; by apply extends_occ| |claim_ok_tac|done..].
        apply table_as_kept. split; [|done]. destruct Hext2 as (_ & _ & _ & -> & _). done.
      * right. split; [done|]. pose proof (proj2 (proj2 (proj2 (h_inv H)))). lia.
    + rewrite aset_bounds by (rewrite Eof, (bm_ofiles f1 (proj1 Hok1)); lia). cbn [bind].
      unfold FREF, upd_file, deref. simpl files. rewrite lookup_insert_eq. cbn [bind].
      destruct (falloc_new s p pr b f f1 f' a z) as [Hnew Hop]; try done; try lia.
      eexists (Fd z), _, _. split; [done|]. simpl. rewrite !insert_insert_eq. split; [done|]. split; [done|].
      split; [exact Hnew|]. split; [done|lia].
Qed.

(** * The end of a creation *)

Lemma made_table a z b f : table_as (made a z (kept b)) f ->
  fd_refcnt f = 1 /\ table_ok f /\ 0 <= z /\ slot f z = Some a.
Proof.
  intros (H2 & H3 & H4 & H5 & H6 & H7). simpl in *. destruct (H6 z a) as [? ?]; [by left|].
  split; [done|]. split; [|done]. split; [done|]. intros j Hj. by apply H4.
Qed.

(** [FILE_SET_MATURE]. *)
Lemma mature_ok s p pr a z b f :
  here s p pr (made a z (kept b)) f ->
  exists s', FILE_SET_MATURE a s = Ret s' /\ here s' p pr (kept b) f /\ tables s' = tables s /\ procs s' = procs s.
Proof.
  intros H. destruct (made_table a z b f (h_as H)) as (Hr & Hok & Hz & E). destruct (ref_live a H) as [g Hg]; [by left|].
  unfold FILE_SET_MATURE, upd_file, deref. rewrite Hg. cbn [bind]. set (s1 := set_files _ s).
  assert (table_as (kept b) f) as Hk by (by apply table_as_kept).
  assert (here s1 p pr (holding a (kept b)) f) as H1.
  { eapply here_files; [exact H|done|claim_ok_tac|done| |by apply map_size_insert_Some].
    rewrite <- (insert_insert_eq (claims (procs s)) p _ (holding a (knowing z a (kept b)))).
    eapply books_claim; [|apply lookup_insert_eq|done..].
    rewrite <- (insert_insert_eq (claims (procs s)) p _ (made a z (kept b))).
    apply (books_mature _ _ _ _ (holding a (knowing z a (kept b)))); [apply (h_inv H)|apply lookup_insert_eq|done]. }
  destruct (FRELE_ok a _ H1 (lookup_insert_eq _ _ _)) as [-> H2]; [done|claim_ok_tac|done|]. eexists. split; [done|]. done.
Qed.

Lemma open_done_moves s p pr a z f : here s p pr (made a z (kept true)) f ->
  moves s p pr (open_done p (p_fd pr) a z s) (fun f' pr' => f' = f /\ returned (Fd z) pr').
Proof.
  intros H. destruct (mature_ok _ _ _ _ _ _ _ H) as (s1 & E & H1 & Et & Ep). unfold open_done. rewrite E. cbn [bind].
  eapply moves_files; [by eapply out_moves; [exact H1|]|done|done].
Qed.

(** The file leaves the table again and is closed. *)
Lemma open_fail_moves s p pr a z f e : here s p pr (made a z (kept true)) f ->
  moves s p pr (open_fail p (p_fd pr) a z e s) (fun f' pr' => cleared f z f' /\ closef_at a (KOut (Err e)) f' f' pr').
Proof.
  intros H. destruct (made_table a z true f (h_as H)) as (Hr & [Hb Ha] & Hz & E).
  unfold open_fail, deref, fdremove. rewrite (h_table H). cbn [bind].
  assert (z < fd_nfiles f) as Hlt. { destruct (decide (z < fd_nfiles f)); [done|]. rewrite slot_outside in E by (done || lia). done. }
  rewrite aset_bounds by (rewrite (bm_ofiles f Hb); lia). cbn [bind].
  destruct (clear_ok f z (fd_ofileflags f) a) as (f' & E' & Hb' & Ha' & Hr' & Hc); try done.
  replace (set_ofileflags (fd_ofileflags f) (set_ofiles (<[Z.to_nat z := None]> (fd_ofiles f)) f))
    with (set_ofiles (<[Z.to_nat z := None]> (fd_ofiles f)) f) in E' by (by destruct f). rewrite E'. cbn [bind].
  assert (here (put_table (p_fd pr) f' s) p pr (holding a (dropping a (kept true))) f') as H2.
  { eapply here_table; [exact H|by apply table_as_none|claim_ok_tac|done|].
    rewrite <- (insert_insert_eq (claims (procs s)) p _ (made a z (kept true))).
    destruct Hc as (_ & _ & _ & _ & Hoc & Hoc'). rewrite E in Hoc, Hoc'.
    eapply books_slots; [apply (h_inv H)|apply lookup_insert_eq|apply (h_table H)|done|done|done|..]; simpl.
    - intros b. destruct (decide (a = b)) as [<-|]; [|rewrite (Hoc' (Some b)) by congruence]; lia.
    - intros b. destruct (decide (a = b)) as [<-|]; [right|left; by rewrite (Hoc' (Some b)) by congruence].
      pose proof (slot_larvals z a H Hz E) as Hl. simpl in Hl. rewrite decide_True in Hl by done. conj; [exact Hl|done|left; lia]. }
  eapply moves_table; [eapply moves_mono; [by eapply (closef_moves maxfiles _ p pr a (KOut (Err e))); [exact H2|by apply table_as_kept|]|]|done|done].
  intros f2 pr2 [-> Hat]. by split.
Qed.

(** Attributes of the new file. *)
Lemma attr_ok s p pr c f a (h : file -> file) :
  here s p pr c f -> a ∈ c_refs c -> (forall g, f_count (h g) = f_count g /\ f_usecount (h g) = f_usecount g /\ f_iflags (h g) = f_iflags g) ->
  exists s', upd_file a h s = Ret s' /\ here s' p pr c f /\ tables s' = tables s /\ procs s' = procs s.
Proof.
  intros H Ha Hh. destruct (ref_live a H Ha) as [g Hg]. unfold upd_file, deref. rewrite Hg. cbn [bind]. eexists. split; [done|].
  split; [|done]. destruct (Hh g) as (E1 & E2 & E3).
  eapply here_files; [exact H|apply (h_as H)|apply H|done| |by apply map_size_insert_Some]. eapply books_attr; [apply (h_inv H)|done..].
Qed.

(** * [dupfdopen] *)

(** What the new descriptor holds: a copy of [dfd], or the file of [dfd],
    which is then closed. *)
Definition dupopened (error z dfd w : Z) (f f' : filedesc) : Prop :=
  forall j, 0 <= j ->
  slot f' j = if j =? z then Some w else if (error =? ENXIO) && (j =? dfd) then None else slot f j.

(** The descriptor [z] of the new file [a] takes [w] instead. *)
Lemma books_dupopen s p pr a z dfd w f f' :
  here s p pr (dropping w (made a z (kept true))) f -> bitmaps f -> 0 <= z -> slot f z = Some a ->
  0 <= dfd -> slot f dfd = Some w -> w <> a -> fd_ofiles f' = <[Z.to_nat z := Some w]> (fd_ofiles f) ->
  books (files s) (<[p_fd pr := f']> (tables s)) (<[p := holding a (dropping a (kept true))]> (claims (procs s))).
Proof.
  intros H Hb Hz E Hd Ed Hne Hof.
  assert (z < fd_nfiles f) as Hlt. { destruct (decide (z < fd_nfiles f)); [done|]. rewrite slot_outside in E by (done || lia). done. }
  rewrite <- (insert_insert_eq (claims (procs s)) p _ (dropping w (made a z (kept true)))).
  destruct (slot_live dfd w H Hd Ed) as (_ & _ & _ & Hpos).
  pose proof (slot_larvals z a H Hz E) as Hla. pose proof (slot_larvals dfd w H Hd Ed) as Hlw. simpl in Hla, Hlw.
  rewrite decide_True in Hla by done. rewrite decide_False in Hlw by congruence.
  eapply books_slots; [apply (h_inv H)|apply lookup_insert_eq|apply (h_table H)|done|done|done|..]; simpl; rewrite Hof; intros b;
    rewrite occ_write, E by (done || lia); destruct (decide (a = b)) as [<-|Hab].
  - rewrite (decide_False (P := w = a)), (decide_False (P := Some w = Some a)), !decide_True by congruence. lia.
  - rewrite (decide_False (P := Some a = Some b)) by congruence. repeat case_decide; simplify_eq; lia.
  - right. rewrite (decide_False (P := Some w = Some a)), !decide_True by congruence. conj; [exact Hla|done|left; lia].
  - rewrite (decide_False (P := Some a = Some b)) by congruence. destruct (decide (w = b)) as [<-|].
    + right. conj; [exact Hlw|done|]. right. split; [done|lia].
    + left. rewrite decide_False by congruence. lia.
Qed.

(** A table whose descriptor [z] has been rewritten and marked again. *)
Lemma rewrite_ok f z w fl : table_ok f -> 0 <= z < fd_nfiles f -> used f z = true -> length fl = length (fd_ofileflags f) ->
  exists f', fd_used (set_ofileflags fl (set_ofiles (<[Z.to_nat z := Some w]> (fd_ofiles f)) f)) z = Ret f' /\
  bitmaps f' /\ (forall j, 0 <= j -> used f' j = used f j) /\ fd_refcnt f' = fd_refcnt f /\
  fd_ofiles f' = <[Z.to_nat z := Some w]> (fd_ofiles f) /\ fd_nfiles f' = fd_nfiles f /\
  (forall j, 0 <= j -> slot f' j = if j =? z then Some w else slot f j).
Proof.
  intros [Hb Ha] Hz Hu Hfl. pose proof (bm_ofiles f Hb). set (f1 := set_ofileflags fl _).
  destruct (fd_used_spec f1 z) as (f' & -> & Hb' & Hm & Hs & _); [by apply bitmaps_files; [|apply length_insert|]|done|].
  exists f'. pose proof Hs as (Eof & Efl & En & Erc & Ekn). conj; try done.
  - intros j Hj. rewrite Hm by done. destruct (Z.eqb_spec j z) as [->|]; [by rewrite Hu|done].
  - intros j Hj. rewrite (same_slot f1 f') by done. etransitivity; [apply (slot_insert f (Z.to_nat z) (Some w) j); lia|].
    by rewrite Z2Nat.id by lia.
Qed.

Lemma in_table f fd a : bitmaps f -> slot f fd = Some a -> fd < fd_nfiles f.
Proof. intros Hb E. destruct (decide (fd < fd_nfiles f)); [done|]. rewrite slot_outside in E by (done || lia). done. Qed.

(** [ENODEV]: the file of [dfd] gets one more reference. *)
Lemma dupopen_share s p pr a z f dfd w fl : here s p pr (made a z (kept true)) f -> 0 <= dfd -> slot f dfd = Some w -> w <> a ->
  length fl = length (fd_ofileflags f) ->
  exists s1 f', upd_file w (fun f => set_f_count (f_count f + 1) f) s = Ret s1 /\
  fd_used (set_ofileflags fl (set_ofiles (<[Z.to_nat z := Some w]> (fd_ofiles f)) f)) z = Ret f' /\
  here (put_table (p_fd pr) f' s1) p pr (holding a (dropping a (kept true))) f' /\ tables s1 = tables s /\ procs s1 = procs s /\
  dupopened ENODEV z dfd w f f'.
Proof.
  intros H Hd Ed Hne Hfl. destruct (made_table a z true f (h_as H)) as (Hr & Hok & Hz & E). pose proof (in_table f z a (proj1 Hok) E).
  destruct (slot_live dfd w H Hd Ed) as (g & Hg & Hpos & Hsl). unfold upd_file, deref. rewrite Hg. cbn [bind].
  set (s1 := set_files _ s).
  assert (here s1 p pr (dropping w (made a z (kept true))) f) as H1.
  { eapply here_files; [exact H|apply (h_as H)| |done| |by apply map_size_insert_Some].
    { unfold claim_ok. simpl. conj; try lia; [set_solver|]. intros x ->%list_elem_of_singleton. split; [done|]. exists z. by left. }
    rewrite <- (insert_insert_eq (claims (procs s)) p _ (made a z (kept true))).
    eapply books_more; try done; [apply (h_inv H)|apply lookup_insert_eq|].
    rewrite (slot_larvals dfd w H Hd Ed). simpl. by rewrite decide_False by congruence. }
  destruct (rewrite_ok f z w fl Hok) as (f' & E' & Hb' & Hu' & Hr' & Hof & Hn & Hs'); [lia| |done|].
  { rewrite (proj2 Hok) by done. by rewrite E, bool_decide_eq_true_2. }
  exists s1, f'. conj; try done.
  eapply here_table; [exact H1| |claim_ok_tac|done|by eapply (books_dupopen s1 p pr a z dfd w); [exact H1|apply Hok|..]].
  apply table_as_none; try done; [congruence|]. split; [done|]. intros j Hj. rewrite Hu', Hs', (proj2 Hok) by done.
  destruct (Z.eqb_spec j z) as [->|]; [by rewrite E|done].
Qed.

(** [ENXIO]: the file moves from [dfd] to [z]. *)
Lemma dupopen_steal s p pr a z f dfd w fl : here s p pr (made a z (kept true)) f -> 0 <= dfd -> slot f dfd = Some w -> w <> a ->
  length fl = length (fd_ofileflags f) ->
  exists f1 f', fd_used (set_ofileflags fl (set_ofiles (<[Z.to_nat dfd := None]> (<[Z.to_nat z := Some w]> (fd_ofiles f))) f)) z = Ret f1 /\
  fd_unused f1 dfd = Ret f' /\
  here (put_table (p_fd pr) f' s) p pr (holding a (dropping a (kept true))) f' /\ dupopened ENXIO z dfd w f f'.
Proof.
  intros H Hd Ed Hne Hfl. destruct (made_table a z true f (h_as H)) as (Hr & Hok & Hz & E). pose proof (in_table f z a (proj1 Hok) E).
  pose proof (in_table f dfd w (proj1 Hok) Ed). pose proof (bm_ofiles f (proj1 Hok)) as Hlen.
  assert (dfd <> z) as Hdz by congruence.
  set (g := set_ofileflags fl (set_ofiles (<[Z.to_nat dfd := None]> (<[Z.to_nat z := Some w]> (fd_ofiles f))) f)).
  assert (forall j, 0 <= j -> slot g j = if j =? dfd then None else if j =? z then Some w else slot f j) as Hsg.
  { intros j Hj. unfold slot, g. simpl. rewrite !nth_insert by (rewrite ?length_insert; lia).
    destruct (Z.eqb_spec j dfd); [by rewrite decide_True by lia|]. rewrite decide_False by lia.
    destruct (Z.eqb_spec j z); [by rewrite decide_True by lia|]. by rewrite decide_False by lia. }
  assert (bitmaps g) as Hbg by (apply bitmaps_files; [apply Hok|by rewrite !length_insert|done]).
  destruct (fd_used_spec g z Hbg) as (f1 & E1 & Hb1 & Hm1 & Hs1 & _); [done|].
  assert (forall j, 0 <= j -> used f1 j = used f j) as Hu1.
  { intros j Hj. rewrite Hm1 by done. destruct (Z.eqb_spec j z) as [->|]; [|done]. rewrite (proj2 Hok) by done. by rewrite E, bool_decide_eq_true_2. }
  destruct (fd_unused_spec f1 dfd Hb1) as (f' & E2 & Hb' & Hm' & Hs' & _); [|done| |].
  { intros j Hj Hjd. rewrite Hu1, (same_slot g f1), Hsg, (proj2 Hok) by done. destruct (Z.eqb_spec j dfd); [done|].
    destruct (Z.eqb_spec j z) as [->|]; [by rewrite E|done]. }
  { rewrite Hu1, (proj2 Hok) by done. by rewrite Ed, bool_decide_eq_true_2. }
  assert (forall j, 0 <= j -> slot f' j = if j =? dfd then None else if j =? z then Some w else slot f j) as Hs2.
  { intros j Hj. rewrite (same_slot f1 f'), (same_slot g f1) by done. by apply Hsg. }
  exists f1, f'. split; [exact E1|]. split; [exact E2|]. split.
  2: { intros j Hj. rewrite Hs2 by done. simpl. destruct (Z.eqb_spec j dfd), (Z.eqb_spec j z); congruence. }
  assert (fd_ofiles f' = <[Z.to_nat dfd := None]> (<[Z.to_nat z := Some w]> (fd_ofiles f))) as Hof.
  { destruct Hs' as (-> & _). by destruct Hs1 as (-> & _). }
  eapply here_table; [exact H| |claim_ok_tac|done|].
  - apply table_as_none; try done.
    + destruct Hs' as (_ & _ & _ & -> & _). destruct Hs1 as (_ & _ & _ & -> & _). done.
    + split; [done|]. intros j Hj. rewrite Hm', Hu1, Hs2, (proj2 Hok) by done. destruct (Z.eqb_spec j dfd).
      * symmetry. apply bool_decide_eq_false_2. by intros [? ?].
      * destruct (Z.eqb_spec j z) as [->|]; [by rewrite E|done].
  - rewrite <- (insert_insert_eq (claims (procs s)) p _ (made a z (kept true))).
    pose proof (slot_larvals z a H Hz E) as Hla. simpl in Hla. rewrite decide_True in Hla by done.
    assert (forall b, occ (Some b) (fd_ofiles f') = occ (Some b) (fd_ofiles f) - if decide (a = b) then 1 else 0) as Hocc.
    { intros b. rewrite Hof. assert (<[Z.to_nat z := Some w]> (fd_ofiles f) !! Z.to_nat dfd = Some (Some w)) as Hw.
      { rewrite list_lookup_insert_ne by lia. destruct (lookup_lt_is_Some_2 (fd_ofiles f) (Z.to_nat dfd)) as [y Hy]; [lia|].
        rewrite Hy. unfold slot in Ed. by rewrite (nth_lookup_Some _ _ None y Hy) in Ed; subst. }
      rewrite (occ_insert _ _ _ _ _ Hw), occ_write, E by (apply Hok || lia). repeat case_decide; simplify_eq; lia. }
    eapply books_slots; [apply (h_inv H)|apply lookup_insert_eq|apply (h_table H)|done|done|done|..]; simpl; intros b; rewrite Hocc;
      destruct (decide (a = b)) as [<-|]; try lia.
Qed.

Lemma dupfdopen_ok s p pr a z f dfd mode error descfd :
  here s p pr (made a z (kept true)) f -> is_s 32 dfd -> error <> 0 ->
  exists e s', dupfdopen LONG_MAX (p_fd pr) z dfd mode error descfd s = Ret (e, s') /\
  ((e <> 0 /\ s' = s) \/
   (e = 0 /\ exists f' w, 0 <= dfd /\ slot f dfd = Some w /\ w <> a /\ here s' p pr (holding a (dropping a (kept true))) f' /\
     tables s' = <[p_fd pr := f']> (tables s) /\ procs s' = procs s /\ dupopened error z dfd w f f')).
Proof.
  intros H Hs He. destruct (made_table a z true f (h_as H)) as (Hr & [Hb Ha] & Hz & E).
  unfold dupfdopen. case_if; [eexists _, s; split; [done|]; by left|]. unfold deref at 1. rewrite (h_table H). cbn [bind].
  destruct (getfile_ok _ _ _ _ _ _ _ H eq_refl Hs) as ([w|] & -> & Hw); cbn [bind]; [|eexists _, s; split; [done|]; by left].
  destruct Hw as (Hd & Ed & Hl). simpl in Hl. assert (w <> a) as Hne by (intros ->; by rewrite decide_True in Hl).
  destruct (slot_live dfd w H ltac:(lia) Ed) as (g & Hg & Hpos & _). unfold deref. rewrite Hg. cbn [bind].
  pose proof (bm_ofiles f Hb) as Hlo. pose proof (bm_flags f Hb) as Hlf. pose proof (in_table f z a Hb E) as Hz'.
  rewrite aget_nth by lia. cbn [bind]. pose proof (count_bound _ _ LONG_MAX_range _ _ _ _ (h_inv H) Hg).
  destruct (Z.eqb_spec error ENODEV) as [->|].
  - case_if; [eexists _, s; split; [done|]; by left|]. destruct (Z.eqb_spec (f_count g) (LONG_MAX - 2)); [lia|].
    rewrite !aset_bounds by lia. cbn [bind].
    destruct (dupopen_share s p pr a z f dfd w (<[Z.to_nat z := nth (Z.to_nat dfd) (fd_ofileflags f) 0]> (fd_ofileflags f)))
      as (s1 & f' & E1 & E2 & H2 & Et & Ep & Hdo); try done; [lia|apply length_insert|].
    rewrite E1. cbn [bind]. rewrite E2. cbn [bind]. eexists 0, _. split; [done|]. right. split; [done|]. exists f', w.
    conj; try done; [lia|simpl; by rewrite Et].
  - destruct (Z.eqb_spec error ENXIO) as [->|]; [|eexists _, s; split; [done|]; by left].
    rewrite !aset_bounds by lia. cbn [bind]. rewrite !aset_bounds by (rewrite length_insert; lia). cbn [bind].
    destruct (dupopen_steal s p pr a z f dfd w (<[Z.to_nat dfd := 0]> (<[Z.to_nat z := nth (Z.to_nat dfd) (fd_ofileflags f) 0]> (fd_ofileflags f))))
      as (f1 & f' & E1 & E2 & H2 & Hdo); try done; [lia|by rewrite !length_insert|].
    rewrite E1. cbn [bind]. rewrite E2. cbn [bind]. eexists 0, _. split; [done|]. right. split; [done|]. exists f', w.
    conj; try done; lia.
Qed.
End Open.
