(* ===== verification/FdFork.v ===== *)
(** * The tables of new and of leaving processes

    [fdcopy] at a [fork], and [fdfree] at an exit. *)

From stdpp Require Import gmap sets.
From S2P Require Import Prelude Libkern Filedesc FdMap FdTable FdAlloc MapSum Files FdInv FdBooks FdOwn FdOps FdCalls FdDup FdOpen.

(** * The loops of [fdcopy] *)

Definition is_kqueue (F : gmap Z file) (a : Z) : bool :=
  match F !! a with Some g => f_type g =? DTYPE_KQUEUE | None => false end.

(** Every file of the table exists. *)
Definition live (F : gmap Z file) (f : filedesc) : Prop :=
  forall j a, 0 <= j -> slot f j = Some a -> is_Some (F !! a).

Lemma slot_above f j : table_ok f -> fd_lastfile f < j -> slot f j = None.
Proof.
  intros [Hb Ha] Hj. pose proof (bm_last0 f Hb). destruct (slot f j) eqn:E; [|done].
  assert (used f j = true) as Hu by (rewrite Ha by lia; by rewrite E, bool_decide_eq_true_2).
  apply (bm_last f Hb) in Hu; lia.
Qed.

Lemma fdremove_ok f fd a : table_ok f -> fd_refcnt f = 1 -> 0 <= fd -> slot f fd = Some a ->
  exists f', fdremove f fd = Ret f' /\ table_ok f' /\ fd_refcnt f' = 1 /\ cleared f fd f'.
Proof.
  intros [Hb Ha] Hr Hfd E. pose proof (in_table f fd a Hb E). unfold fdremove.
  rewrite aset_bounds by (rewrite (bm_ofiles f Hb); lia). cbn [bind].
  destruct (clear_ok f fd (fd_ofileflags f) a) as (f' & E' & Hb' & Ha' & Hr' & Hc); try done.
  replace (set_ofileflags (fd_ofileflags f) (set_ofiles (<[Z.to_nat fd := None]> (fd_ofiles f)) f))
    with (set_ofiles (<[Z.to_nat fd := None]> (fd_ofiles f)) f) in E' by (by destruct f). exists f'. by conj.
Qed.

(** The table without its kqueues, from descriptor [i] on. *)
Definition without_kqueues (F : gmap Z file) (i : Z) (f f' : filedesc) : Prop :=
  forall j, 0 <= j -> slot f' j = match slot f j with Some a => if (i <=? j) && is_kqueue F a then None else Some a | None => None end.

Lemma drop_kqueues_spec F f i fuel :
  table_ok f -> fd_refcnt f = 1 -> live F f -> 0 <= i -> (Z.to_nat (fd_nfiles f - i) < fuel)%nat ->
  exists f', drop_kqueues F f i fuel = Ret f' /\ table_ok f' /\ fd_refcnt f' = 1 /\ fd_nfiles f' = fd_nfiles f /\
  fd_knlistsize f' = fd_knlistsize f /\ without_kqueues F i f f'.
Proof.
  revert f i. induction fuel as [|fuel IH]; intros f i Hok Hr Hlive Hi Hfuel; [lia|]. cbn [drop_kqueues].
  pose proof (bm_last0 f (proj1 Hok)) as Hl. destruct (Z.ltb_spec (fd_lastfile f) i).
  { exists f. conj; try done. intros j Hj. destruct (slot f j) eqn:E; [|done]. destruct (Z.leb_spec i j); [|done].
    rewrite slot_above in E by (done || lia). done. }
  rewrite slot_aget by (apply Hok || lia). cbn [bind]. destruct (slot f i) as [a|] eqn:E.
  2: { destruct (IH f (i + 1)) as (f' & -> & H1 & H2 & H3 & H4 & Hw); try done; [lia|lia|]. exists f'. conj; try done.
       intros j Hj. rewrite Hw by done. destruct (decide (j = i)) as [->|]; [by rewrite E|].
       replace (i + 1 <=? j) with (i <=? j) by (destruct (Z.leb_spec i j), (Z.leb_spec (i + 1) j); lia). done. }
  destruct (Hlive i a Hi E) as [g Hg]. unfold deref. rewrite Hg. cbn [bind].
  assert (exists f1, (if f_type g =? DTYPE_KQUEUE then fdremove f i else Ret f) = Ret f1 /\ table_ok f1 /\ fd_refcnt f1 = 1 /\
    fd_nfiles f1 = fd_nfiles f /\ fd_knlistsize f1 = fd_knlistsize f /\
    forall j, 0 <= j -> slot f1 j = if (j =? i) && is_kqueue F a then None else slot f j) as (f1 & -> & Hok1 & Hr1 & Hn1 & Hk1 & Hs1).
  { unfold is_kqueue. rewrite Hg. case_if.
    - destruct (fdremove_ok f i a Hok Hr Hi E) as (f1 & -> & Hok1 & Hr1 & (Hs1 & Hn1 & _ & Hk1 & _)). exists f1. conj; try done.
      intros j Hj. rewrite Hs1 by done. by rewrite andb_true_r.
    - exists f. conj; try done. intros j Hj. by rewrite andb_false_r. }
  cbn [bind]. destruct (IH f1 (i + 1)) as (f' & -> & H1 & H2 & H3 & H4 & Hw); try done; [|lia|lia|].
  { intros j b Hj. rewrite Hs1 by done. case_if; [done|]. by apply Hlive. }
  exists f'. conj; try done; try congruence. intros j Hj. rewrite Hw, Hs1 by done.
  destruct (Z.eqb_spec j i) as [->|]; simpl.
  - rewrite E, Z.leb_refl. simpl. destruct (is_kqueue F a); [done|]. rewrite (proj2 (Z.leb_gt (i + 1) i)) by lia. done.
  - replace (i + 1 <=? j) with (i <=? j) by (destruct (Z.leb_spec i j), (Z.leb_spec (i + 1) j); lia). done.
Qed.

(** The references of the descriptors from [i] on. *)
Definition counted_from (i : Z) (f : filedesc) (F F' : gmap Z file) : Prop :=
  forall a, F' !! a = (fun g => set_f_count (f_count g + occ (Some a) (drop (Z.to_nat i) (fd_ofiles f))) g) <$> F !! a.

Lemma drop_slot f i : table_ok f -> 0 <= i < fd_nfiles f ->
  drop (Z.to_nat i) (fd_ofiles f) = slot f i :: drop (Z.to_nat (i + 1)) (fd_ofiles f).
Proof.
  intros [Hb _] Hi. pose proof (bm_ofiles f Hb). destruct (lookup_lt_is_Some_2 (fd_ofiles f) (Z.to_nat i)) as [x Hx]; [lia|].
  rewrite (drop_S _ x _ Hx). unfold slot. rewrite (nth_lookup_Some _ _ None x Hx). do 2 f_equal. lia.
Qed.

Lemma drop_above f i a : table_ok f -> fd_lastfile f < i -> occ (Some a) (drop (Z.to_nat i) (fd_ofiles f)) = 0.
Proof.
  intros Hok Hi. apply occ_none. intros (k & E)%list_elem_of_lookup. rewrite lookup_drop in E.
  pose proof (bm_last0 f (proj1 Hok)). pose proof (slot_above f (Z.of_nat (Z.to_nat i + k)) Hok ltac:(lia)) as Hn.
  unfold slot in Hn. rewrite Nat2Z.id in Hn. by rewrite (nth_lookup_Some _ _ None _ E) in Hn.
Qed.

Lemma set_f_count_id g : set_f_count (f_count g) g = g.
Proof. by destruct g. Qed.

Lemma count_copies_spec LONG_MAX F f i fuel :
  table_ok f -> live F f -> 0 <= i -> (Z.to_nat (fd_nfiles f - i) < fuel)%nat ->
  (forall a g, F !! a = Some g -> f_count g + occ (Some a) (drop (Z.to_nat i) (fd_ofiles f)) < LONG_MAX - 2) ->
  exists F', count_copies LONG_MAX F f i fuel = Ret (F', f) /\ counted_from i f F F'.
Proof.
  revert F i. induction fuel as [|fuel IH]; intros F i Hok Hlive Hi Hfuel Hbound; [lia|]. cbn [count_copies].
  pose proof (bm_last0 f (proj1 Hok)) as Hl. destruct (Z.ltb_spec (fd_lastfile f) i).
  { exists F. split; [done|]. intros a. rewrite drop_above by done. destruct (F !! a) as [g|]; [|done]. simpl.
    by rewrite Z.add_0_r, set_f_count_id. }
  pose proof (drop_slot f i Hok ltac:(lia)) as Ed. rewrite slot_aget by (apply Hok || lia). cbn [bind].
  assert (forall b, occ (Some b) (drop (Z.to_nat i) (fd_ofiles f)) =
    (if decide (slot f i = Some b) then 1 else 0) + occ (Some b) (drop (Z.to_nat (i + 1)) (fd_ofiles f))) as Hocc.
  { intros b. by rewrite Ed. }
  destruct (slot f i) as [a|] eqn:E.
  2: { destruct (IH F (i + 1)) as (F' & -> & HF); try done; [lia|lia| |].
       { intros b g Hg. specialize (Hbound b g Hg). rewrite Hocc, decide_False in Hbound by done. lia. }
       exists F'. split; [done|]. intros b. rewrite HF, Hocc, decide_False by done. done. }
  destruct (Hlive i a Hi E) as [g Hg]. unfold deref. rewrite Hg. cbn [bind]. pose proof (Hbound a g Hg) as Hb.
  rewrite Hocc, decide_True in Hb by done. pose proof (occ_nonneg (Some a) (drop (Z.to_nat (i + 1)) (fd_ofiles f))).
  destruct (Z.eqb_spec (f_count g) (LONG_MAX - 2)); [lia|].
  destruct (IH (<[a := set_f_count (f_count g + 1) g]> F) (i + 1)) as (F' & -> & HF); try done; [|lia|lia| |].
  { intros j b Hj Eb. destruct (decide (a = b)) as [<-|]; [by rewrite lookup_insert_eq; eexists|]. rewrite lookup_insert_ne by done. by eapply Hlive. }
  { intros b h. destruct (decide (a = b)) as [<-|].
    - rewrite lookup_insert_eq. intros [= <-]. simpl. lia.
    - rewrite lookup_insert_ne by done. intros Hh. specialize (Hbound b h Hh). rewrite Hocc, decide_False in Hbound by congruence. lia. }
  exists F'. split; [done|]. intros b. rewrite HF, Hocc. destruct (decide (a = b)) as [<-|].
  - rewrite lookup_insert_eq, Hg, decide_True by done. simpl. f_equal. unfold set_f_count. simpl. f_equal. lia.
  - rewrite lookup_insert_ne, decide_False by congruence. done.
Qed.

(** * [fdcopy] *)

Lemma fdcopy_spec LONG_MAX F f :
  table_ok f -> live F f -> (forall a g, F !! a = Some g -> f_count g + 12800 < LONG_MAX - 2) ->
  exists F' new, fdcopy LONG_MAX F f = Ret (F', new) /\ table_ok new /\ fd_refcnt new = 1 /\ counted new F F' /\
  forall j, 0 <= j -> slot new j =
    match slot f j with Some a => if negb (fd_knlistsize f =? -1) && is_kqueue F a then None else Some a | None => None end.
Proof.
  intros Hok Hlive Hbound.
  destruct (fdcopy_table_spec f (proj1 Hok)) as (n & E & Hbn & Hun & Hsn & _ & Hrn & Hkn); [intros j Hj; by apply slot_above|].
  unfold fdcopy. rewrite E. cbn [bind]. assert (table_ok n) as Hokn.
  { split; [done|]. intros j Hj. rewrite Hun, Hsn by done. by apply Hok. }
  assert (live F n) as Hliven by (intros j a Hj; rewrite Hsn by done; by apply Hlive).
  assert (exists n', (if negb (fd_knlistsize n =? -1) then let! new := drop_kqueues F n 0 (S (Z.to_nat (fd_nfiles n))) in Ret (set_knlistsize (-1) new)
      else Ret n) = Ret n' /\ table_ok n' /\ fd_refcnt n' = 1 /\ fd_nfiles n' = fd_nfiles n /\
      forall j, 0 <= j -> slot n' j = match slot f j with Some a => if negb (fd_knlistsize f =? -1) && is_kqueue F a then None else Some a | None => None end)
    as (n' & -> & Hokn' & Hrn' & Hnn' & Hsn').
  { rewrite Hkn. case_if.
    - destruct (drop_kqueues_spec F n 0 (S (Z.to_nat (fd_nfiles n)))) as (n' & -> & H1 & H2 & H3 & H4 & Hw); try done; [lia|]. cbn [bind].
      eexists. split; [done|]. split; [|split; [done|split; [done|] ] ].
      + destruct H1 as [Hb Ha]. split; [|exact Ha]. destruct Hb. by split.
      + intros j Hj. change (slot (set_knlistsize (-1) n') j) with (slot n' j). rewrite Hw, Hsn by done. simpl.
        destruct (slot f j); [|done]. by rewrite (proj2 (Z.leb_le 0 j)).
    - exists n. conj; try done. intros j Hj. rewrite Hsn by done. by destruct (slot f j). }
  cbn [bind]. destruct (count_copies_spec LONG_MAX F n' 0 (S (Z.to_nat (fd_nfiles n)))) as (F' & EF & HF); try done; [|lia| |].
  { intros j a Hj. rewrite Hsn' by done. destruct (slot f j) as [b|] eqn:Eb; [|done]. case_if; [done|]. intros [= <-]. by eapply Hlive. }
  { intros a g Hg. specialize (Hbound a g Hg). rewrite drop_0. pose proof (occ_length (Some a) (fd_ofiles n')).
    pose proof (bm_ofiles n' (proj1 Hokn')). pose proof (size_facts _ (bm_size n' (proj1 Hokn'))). lia. }
  exists F', n'. by conj.
Qed.

Lemma counted_size f F F' : counted f F F' -> size F' = size F.
Proof.
  intros H. rewrite <- !size_dom. f_equal. apply set_eq. intros a. rewrite !elem_of_dom, H. destruct (F !! a); simpl; split; intros [? ?]; by try eexists.
Qed.

Lemma fdinit_occ a : occ (Some a) (fd_ofiles fdinit) = 0.
Proof. apply occ_zeroes. done. Qed.

Section Fork.
Context (maxfiles LONG_MAX : Z).
Hypothesis maxfiles_range : 0 <= maxfiles <= 12800.
Hypothesis LONG_MAX_range : 2 ^ 31 - 1 <= LONG_MAX.
Implicit Types (s : state).

Notation here := (here maxfiles).
Notation ok := (ok maxfiles).
Notation moves := (moves maxfiles).

Lemma here_idle f s p pr : here s p pr idle f -> fd_refcnt f = 1 /\ table_ok f.
Proof. intros H. apply (table_as_kept false), (h_as H). Qed.

(** A process [q] with the table [new]. *)
Lemma fork_ok s p pr q t new F :
  ok s -> procs s !! p = Some pr -> p_pc pr = User -> 0 <= q <= PID_MAX -> procs s !! q = None -> tables s !! t = None ->
  table_ok new -> fd_refcnt new = 1 -> counted new (files s) F ->
  (forall a, 0 < occ (Some a) (fd_ofiles new) -> exists f fd, tables s !! p_fd pr = Some f /\ 0 <= fd /\ slot f fd = Some a) ->
  let qr := Proc t (p_rlim_nofile pr) false User (Fd 0) in
  let s' := set_procs (<[p := set_ret (Fd q) (set_pc User pr)]> (<[q := qr]> (procs s))) (put_table t new (set_files F s)) in
  leave p (Fd q) (set_procs (<[q := qr]> (procs s)) (put_table t new (set_files F s))) = Ret s' /\ ok s'.
Proof.
  intros Hok Hp Hpc Hq Hqn Htn Hnew Hr HF Hin qr s'. destruct (here_of_ok Hok Hp) as [f H]. rewrite Hpc in H. simpl in H.
  destruct Hok as [(Hb & Ho & Hnf & Hm) Hargs]. set (s1 := set_procs (<[q := qr]> (procs s)) (put_table t new (set_files F s))).
  assert (ok s1) as Hok1.
  { split.
    - unfold s1. simpl. rewrite claims_insert. simpl. split; [|split; [|simpl; by rewrite (counted_size _ _ _ HF)] ]; simpl.
      + eapply books_fork; try done.
        * unfold claims. by rewrite lookup_fmap, Hqn.
        * intros a Ha. destruct (Hin a Ha) as (f' & fd & Hf' & Hfd & E). assert (f' = f) as -> by (pose proof (h_table H); congruence).
          destruct (slot_live fd a H Hfd E) as (g & Hg & Hpos & Hs). exists g. conj; try done.
          pose proof (slot_larvals fd a H Hfd E) as Hl. rewrite insert_id in Hl; [exact Hl|]. unfold claims. by rewrite lookup_fmap, Hp; simpl; rewrite Hpc.
      + apply (owners_fork _ _ _ _ _ q qr new); try done; [exact (here_rlim H)|by apply (table_as_kept false)].
    - unfold s1. simpl. intros x xr. destruct (decide (q = x)) as [<-|]; [rewrite lookup_insert_eq; by intros [= <-]|].
      rewrite lookup_insert_ne by done. apply Hargs. }
  assert (procs s1 !! p = Some pr) as Hp1 by (unfold s1; simpl; rewrite lookup_insert_ne by congruence; done).
  destruct (here_of_ok Hok1 Hp1) as [f1 H1]. rewrite Hpc in H1. apply (leave_ok (Fd q) H1).
Qed.

(** The descriptors of the new process. *)
Definition forked (F : gmap Z file) (f : filedesc) (how : fork_files) (new : filedesc) : Prop :=
  forall j, 0 <= j -> slot new j =
  match how, slot f j with
  | CopyFiles _, Some a => if negb (fd_knlistsize f =? -1) && is_kqueue F a then None else Some a
  | _, _ => None
  end.

Lemma fork1_ok s p pr q how :
  ok s -> procs s !! p = Some pr -> p_pc pr = User -> call_ok (SFork q how) s = true -> how <> ShareFiles ->
  exists s' f new t, fork1 LONG_MAX p q pr how s = Ret s' /\ ok s' /\ tables s !! p_fd pr = Some f /\
  tables s !! t = None /\ tables s' = <[t := new]> (tables s) /\
  procs s' = <[p := set_ret (Fd q) (set_pc User pr)]> (<[q := Proc t (p_rlim_nofile pr) false User (Fd 0)]> (procs s)) /\
  forked (files s) f how new.
Proof.
  intros Hok Hp Hpc Hcall Hns. destruct (here_of_ok Hok Hp) as [f H]. rewrite Hpc in H. simpl in H.
  destruct (here_idle _ _ _ _ H) as [Hr Htok]. simpl in Hcall. boolify.
  repeat match goal with H : bool_decide _ = true |- _ => apply bool_decide_eq_true in H end.
  destruct how as [t| |t]; [|done|]; match goal with H : bool_decide _ = true |- _ => apply bool_decide_eq_true in H end; unfold fork1, fork_table.
  - cbn [bind]. destruct (fork_ok s p pr q t fdinit (files s)) as [E Hok']; try done.
    { apply fdinit_ok. }
    { intros a. rewrite fdinit_occ. destruct (files s !! a) as [g|]; [|done]. simpl. by rewrite Z.add_0_r, set_f_count_id. }
    replace (set_files (files s) s) with s in * by (by destruct s). simpl in E. simpl procs. rewrite E. eexists _, f, fdinit, t. split; [done|].
    split; [done|]. split; [apply (h_table H)|]. split; [done|]. split; [done|]. split; [done|]. intros j Hj. unfold slot, fdinit. cbn [fd_ofiles].
    rewrite nth_zeroes. by destruct (nth (Z.to_nat j) (fd_ofiles f) None).
  - unfold deref. rewrite (h_table H). cbn [bind].
    destruct (fdcopy_spec LONG_MAX (files s) f Htok) as (F & new & -> & Hnew & Hrn & HF & Hs).
    { intros j a Hj E. destruct (slot_live j a H Hj E) as (g & Hg & _). by eexists. }
    { intros a g Hg. by apply (count_bound _ _ LONG_MAX_range _ _ _ _ (h_inv H) Hg). }
    cbn [bind]. destruct (fork_ok s p pr q t new F) as [E Hok']; try done.
    { intros a (k & Ek)%occ_elem%list_elem_of_lookup. exists f, (Z.of_nat k). split; [apply (h_table H)|]. split; [lia|].
      specialize (Hs (Z.of_nat k) ltac:(lia)). unfold slot at 1 in Hs. rewrite Nat2Z.id, (nth_lookup_Some _ _ None _ Ek) in Hs.
      destruct (slot f (Z.of_nat k)); [|done]. by case_if_in Hs. }
    simpl in E. simpl procs. rewrite E. eexists _, f, new, t. by split.
Qed.

(** * Exit *)

Lemma fdfree_moves s p pr f : here s p pr idle f ->
  moves s p pr (fdfree p (p_fd pr) s) (fun f' pr' =>
    p_pc pr' = After (KFree 0 (fd_lastfile f)) 0 /\ forall j, 0 <= j -> slot f' j = slot f j).
Proof.
  intros H. destruct (here_idle _ _ _ _ H) as [Hr Hok]. unfold fdfree, deref. rewrite (h_table H). cbn [bind]. rewrite Hr. simpl.
  pose proof (bm_last0 f (proj1 Hok)).
  eapply moves_table; [eapply (goto_moves _ _ _ _ (dying 0 (fd_lastfile f)) (set_refcnt 0 f)); [|done|done|done]|done|done].
  eapply here_retable; [exact H|done| |claim_ok_tac|done..]. unfold table_as. simpl. destruct Hok as [Hb Ha]. conj; try done; try lia.
  - apply Hb.
  - apply Hb.
  - intros j Hj Hor. change (slot (set_refcnt 0 f) j) with (slot f j). apply slot_above; [done|lia].
Qed.

Lemma fdfree_end_ok s p pr f fpp i : here s p pr (dying fpp i) f -> i < 0 ->
  let s' := set_procs (delete p (procs s)) (set_tables (delete (p_fd pr) (tables s)) s) in
  fdfree_loop p (p_fd pr) fpp i s = Ret s' /\ ok s'.
Proof.
  intros H Hi s'. unfold fdfree_loop. rewrite (proj2 (Z.ltb_lt i 0)) by done. split; [done|].
  pose proof (h_as H) as Has. unfold table_as in Has. simpl in Has. destruct Has as (Hr & Hin & Hlen & Hf0 & Hfi & Hnone).
  destruct (h_inv H) as (Hb & Ho & Hnf & Hm). split.
  - unfold s'. simpl. assert (claims (delete p (procs s)) = delete p (<[p := dying fpp i]> (claims (procs s)))) as ->.
    { unfold claims. rewrite fmap_delete. apply map_eq. intros q. destruct (decide (p = q)) as [<-|]; [by rewrite !lookup_delete_eq|].
      by rewrite !lookup_delete_ne, lookup_insert_ne. }
    split; [|split; [|done] ]; simpl.
    + eapply books_exit; [exact Hb|apply lookup_insert_eq|apply (h_table H)| |done..].
      intros a. apply occ_none. intros (k & E)%list_elem_of_lookup. apply lookup_lt_Some in E as Hk.
      specialize (Hnone (Z.of_nat k) ltac:(lia) ltac:(lia)). unfold slot in Hnone. rewrite Nat2Z.id, (nth_lookup_Some _ _ None _ E) in Hnone. done.
    + eapply owners_exit; [exact Ho|apply (h_proc H)|apply lookup_insert_eq|done].
  - unfold s'. simpl. intros q qr [_ Hq]%lookup_delete_Some. by apply (h_args H) in Hq.
Qed.
End Fork.
