(* ===== verification/FdSteps.v ===== *)
(** * Every step keeps the books

    The steps of the calls, put together: from a state in which the books are
    right, each step leads to such a state, and neither panics nor follows a
    pointer to something freed. *)

From stdpp Require Import gmap sets.
From S2P Require Import Prelude Libkern Filedesc FdMap FdTable FdAlloc MapSum Files FdInv FdBooks FdOwn FdOps FdCalls FdDup FdOpen FdFork.

Section Steps.
Context (maxfiles LONG_MAX : Z).
Hypothesis maxfiles_range : 0 <= maxfiles <= 12800.
Hypothesis LONG_MAX_range : 2 ^ 31 - 1 <= LONG_MAX.
Implicit Types (s : state).

Notation here := (here maxfiles).
Notation ok := (ok maxfiles).
Notation moves := (moves maxfiles).

(** * Opening *)

(** After [falloc], with the lock. *)
Definition creates (a : Z) (f f' : filedesc) (pr : fd_proc) : Prop :=
  (exists z, opened a z f f' /\ (p_pc pr = Socreate a z \/ exists flags lt, p_pc pr = Opening a z flags lt)) \/
  (extends f f' /\ (returned (Err EMFILE) pr \/ returned (Err ENFILE) pr)).

Lemma open_locked_moves s p pr f oflags a : here s p pr (kept true) f -> files s !! a = None ->
  moves s p pr (open_locked maxfiles p (p_fd pr) (p_rlim_nofile pr) oflags a s) (creates a f).
Proof.
  intros H Ha. destruct (falloc_ok _ maxfiles_range _ _ _ _ _ _ H Ha) as (r & s' & f' & E & Et & Ep & Hr).
  unfold open_locked. rewrite E. cbn [bind]. destruct r as [e|z].
  - destruct Hr as (H1 & Hext & He). eapply moves_table; [eapply out_moves; [exact H1|]|exact Et|exact Ep]. right. split; [done|].
    destruct He as [[-> _]|[-> _] ]; [left|right]; done.
  - destruct Hr as (H1 & Hop & _). eapply moves_table; [eapply goto_moves; [exact H1|done|done|]|exact Et|exact Ep]. left. exists z. split; [done|]. right. by eexists _, _.
Qed.

Lemma socket_locked_moves s p pr f a : here s p pr (kept true) f -> files s !! a = None ->
  moves s p pr (socket_locked maxfiles p (p_fd pr) (p_rlim_nofile pr) a s) (creates a f).
Proof.
  intros H Ha. destruct (falloc_ok _ maxfiles_range _ _ _ _ _ _ H Ha) as (r & s' & f' & E & Et & Ep & Hr).
  unfold socket_locked. rewrite E. cbn [bind]. destruct r as [e|z].
  - destruct Hr as (H1 & Hext & He). eapply moves_table; [eapply out_moves; [exact H1|]|exact Et|exact Ep]. right. split; [done|].
    destruct He as [[-> _]|[-> _] ]; [left|right]; done.
  - destruct Hr as (H1 & Hop & _).
    destruct (attr_ok _ _ _ _ _ _ a (fun f => set_f_type DTYPE_SOCKET (set_f_flag (Z.lor FREAD FWRITE) f)) H1) as (s2 & -> & H2 & Et2 & Ep2);
      [by left|done|]. cbn [bind].
    eapply moves_table; [eapply goto_moves; [exact H2|done|done|]|by rewrite Et2|by rewrite Ep2]. left. exists z. split; [done|]. by left.
Qed.

Definition kqueues (a : Z) (f f' : filedesc) (pr : fd_proc) : Prop :=
  (exists z, opened a z f f' /\ returned (Fd z) pr) \/ (extends f f' /\ (returned (Err EMFILE) pr \/ returned (Err ENFILE) pr)).

Lemma sys_kqueue_moves s p pr f a : here s p pr idle f -> files s !! a = None ->
  moves s p pr (sys_kqueue maxfiles p (p_fd pr) (p_rlim_nofile pr) a s) (kqueues a f).
Proof.
  intros H Ha. destruct (falloc_ok _ maxfiles_range _ _ _ _ _ _ H Ha) as (r & s' & f' & E & Et & Ep & Hr).
  unfold sys_kqueue. rewrite E. cbn [bind]. destruct r as [e|z].
  - destruct Hr as (H1 & Hext & He). eapply moves_table; [eapply leave_moves; [exact H1|]|exact Et|exact Ep]. right. split; [done|].
    destruct He as [[-> _]|[-> _] ]; [left|right]; done.
  - destruct Hr as (H1 & Hop & _).
    destruct (attr_ok _ _ _ _ _ _ a (fun f => set_f_type DTYPE_KQUEUE (set_f_flag (Z.lor FREAD FWRITE) f)) H1) as (s2 & -> & H2 & Et2 & Ep2);
      [by left|done|]. cbn [bind]. unfold deref. rewrite (h_table H2). cbn [bind].
    set (f2 := if fd_knlistsize f' <? 0 then _ else _).
    destruct (made_table a z false f' (h_as H2)) as (Hr & [Hb Hag] & Hz & Ez).
    assert (table_as (made a z (kept false)) f2 /\ fd_ofiles f2 = fd_ofiles f' /\ fd_ofileflags f2 = fd_ofileflags f') as (Has & Eof & Efl).
    { unfold f2. case_if; [|split; [apply (h_as H2)|done] ]. split; [|done]. destruct (h_as H2) as (A1 & A2 & A3 & A4 & A5 & A6).
      split; [done|]. split; [|done]. destruct A2. split; done. }
    assert (here (put_table (p_fd pr) f2 s2) p pr (made a z (kept false)) f2) as H3.
    { eapply here_retable; [exact H2|by intros b; rewrite Eof|done|apply claim_ok_made|done..]. }
    destruct (mature_ok _ _ _ _ _ _ _ _ H3) as (s3 & -> & H4 & Et4 & Ep4). cbn [bind].
    eapply moves_table; [eapply leave_moves; [exact H4|]|rewrite Et4; simpl; rewrite Et2, Et; apply insert_insert_eq|rewrite Ep4; simpl; by rewrite Ep2].
    left. exists z. split; [|done]. unfold opened, slot in *. by rewrite Eof, Efl.
Qed.

(** After [vn_open]. *)
Definition vn_opens (a z : Z) (f f' : filedesc) (pr : fd_proc) : Prop :=
  (f' = f /\ (returned (Fd z) pr \/ p_pc pr = OpenTrunc a z \/ exists lt, p_pc pr = OpenAdvlock a z lt)) \/
  (exists e, cleared f z f' /\ closef_at a (KOut (Err e)) f' f' pr) \/
  (exists error dfd w, 0 <= dfd /\ slot f dfd = Some w /\ dupopened error z dfd w f f' /\ closef_at a (KOut (Fd z)) f' f' pr).

Lemma vn_opened_moves s p pr f a z flags lt r :
  here s p pr (made a z (kept true)) f -> vn_ok r = true ->
  moves s p pr (vn_opened LONG_MAX p (p_fd pr) a z flags lt r s) (vn_opens a z f).
Proof.
  intros H Hvn. unfold vn_opened. destruct r as [|error dupfd descfd].
  - destruct (attr_ok _ _ _ _ _ _ a (fun f => set_f_type DTYPE_VNODE (set_f_flag (Z.land flags FMASK) f)) H) as (s2 & -> & H2 & Et2 & Ep2);
      [by left|done|]. cbn [bind]. eapply moves_files; [|exact Et2|exact Ep2].
    case_if; [|case_if].
    + eapply goto_moves; [exact H2|done|done|]. left. split; [done|]. right. right. by exists lt.
    + eapply goto_moves; [exact H2|done|done|]. left. split; [done|]. right. by left.
    + eapply moves_mono; [by eapply open_done_moves|]. intros f' pr' [-> Hret]. left. split; [done|by left].
  - simpl in Hvn. boolify. match goal with H : bool_decide _ = true |- _ => apply bool_decide_eq_true in H as Hs end.
    assert (forall e, moves s p pr (open_fail p (p_fd pr) a z e s) (fun f' pr' => exists e, cleared f z f' /\ closef_at a (KOut (Err e)) f' f' pr')) as Hfail.
    { intros e. eapply moves_mono; [by eapply open_fail_moves|]. intros f' pr' Hx. by exists e. }
    case_if; [|eapply moves_mono; [apply Hfail|]; intros f' pr' Hx; right; by left].
    destruct (dupfdopen_ok _ _ maxfiles_range LONG_MAX_range s p pr a z f dupfd flags error descfd H Hs ltac:(done)) as (e & s' & -> & Hres). cbn [bind].
    destruct Hres as [[He ->]|(-> & f' & w & Hd & Ew & Hne & H2 & Et & Ep & Hdo)].
    + destruct (Z.eqb_spec e 0); [done|]. eapply moves_mono; [apply Hfail|]. intros f' pr' Hx. right. by left.
    + simpl. eapply moves_table; [eapply moves_mono; [eapply (closef_moves _ _ p pr a (KOut (Fd z))); [exact H2|apply (h_as H2)|done]|]|exact Et|exact Ep].
      intros f2 pr2 [-> Hat]. right. right. exists error, dupfd, w. by conj.
Qed.

(** After the advisory lock, the truncation and [socreate]. *)
Definition open_ends (a z : Z) (f f' : filedesc) (pr' : fd_proc) : Prop :=
  (f' = f /\ returned (Fd z) pr') \/ (exists e, cleared f z f' /\ closef_at a (KOut (Err e)) f' f' pr').

Lemma open_ends_moves s p pr f a z e : here s p pr (made a z (kept true)) f ->
  moves s p pr (if negb (e =? 0) then open_fail p (p_fd pr) a z e s else open_done p (p_fd pr) a z s) (open_ends a z f).
Proof.
  intros H. case_if.
  - eapply moves_mono; [by eapply open_fail_moves|]. intros f' pr' Hx. right. by exists e.
  - eapply moves_mono; [by eapply open_done_moves|]. intros f' pr' Hx. by left.
Qed.

Definition advlocks (a z : Z) (f f' : filedesc) (pr : fd_proc) : Prop :=
  open_ends a z f f' pr \/ (f' = f /\ p_pc pr = OpenTrunc a z).

Lemma open_advlocked_moves s p pr f a z lt e : here s p pr (made a z (kept true)) f ->
  moves s p pr (open_advlocked p (p_fd pr) a z lt e s) (advlocks a z f).
Proof.
  intros H. unfold open_advlocked. destruct (Z.eqb_spec e 0); simpl.
  2: { eapply moves_mono; [by eapply open_fail_moves|]. intros f' pr' Hx. left. right. by exists e. }
  destruct (attr_ok _ _ _ _ _ _ a (fun f => set_f_flag (Z.lor (f_flag f) FHASLOCK) f) H) as (s2 & -> & H2 & Et2 & Ep2); [by left|done|].
  cbn [bind]. eapply moves_files; [|exact Et2|exact Ep2]. destruct lt.
  - eapply goto_moves; [exact H2|done|done|]. by right.
  - eapply moves_mono; [by eapply open_done_moves|]. intros f' pr' Hx. left. by left.
Qed.

(** * Closing *)

Lemma closef_free_moves s p pr f a k e :
  here s p pr (holding a (alone a (closing a (claim_cont k)))) f -> pc_args (After k 0) ->
  moves s p pr (closef_free p a k e s) (fun f' pr' => f' = f /\ p_pc pr' = After k e).
Proof.
  intros H Hk. destruct (ref_live a H) as [g Hg]; [by left|]. unfold closef_free, deref. rewrite Hg. cbn [bind].
  destruct (books_free _ _ _ p (claim_cont k) a g (proj1 (h_inv H)) (lookup_insert_eq _ _ _) Hg) as (Hc & Hu & Hb).
  rewrite Hc, Hu. simpl. set (s1 := set_nfiles_ _ _).
  assert (here s1 p pr (claim_cont k) f) as H1.
  { assert (table_as (claim_cont k) f) as Has by (by destruct k; apply (h_as H)).
    pose proof (here_owners _ _ _ _ _ _ (claim_cont k) f H Has ltac:(auto with kernel) eq_refl) as Ho. rewrite (insert_id (tables s)) in Ho by apply H.
    destruct H as [(_ & _ & Hnf & Hm & Hsl) Hp Hf _ _ Hargs]. split; try done; [|auto with kernel].
    rewrite insert_insert_eq in Hb. split; [done|]. split; [done|]. simpl. rewrite map_size_delete_Some by done.
    assert (size (files s) <> 0%nat). { intros E. apply map_size_empty_inv in E. rewrite E in Hg. done. }
    conj; try done; lia. }
  eapply moves_files; [eapply goto_moves; [exact H1|done|by destruct k|done]|done|done].
Qed.

(** * The loops *)

Lemma last_range f : table_ok f -> 0 <= fd_lastfile f < fd_nfiles f /\ u32 (fd_lastfile f) = fd_lastfile f.
Proof.
  intros [Hb _]. pose proof (size_facts _ (bm_size f Hb)). pose proof (bm_last0 f Hb). split; [done|].
  apply u32_small. unfold is_u. lia.
Qed.

Definition closefrom_round (i : Z) (f f' : filedesc) (pr : fd_proc) : Prop :=
  (fd_lastfile f < i /\ f' = f /\ returned (Fd 0) pr) \/ (i <= fd_lastfile f /\ releases (KFrom (i + 1)) i f f' pr).

Lemma closefrom_loop_moves s p pr f i : here s p pr (kept true) f -> is_u 32 i ->
  moves s p pr (closefrom_loop p (p_fd pr) i s) (closefrom_round i f).
Proof.
  intros H Hi. destruct (proj1 (table_as_kept true f) (h_as H)) as [Hr Hok]. destruct (last_range f Hok) as [Hl Eu].
  unfold closefrom_loop, deref. rewrite (h_table H). cbn [bind]. rewrite Eu. unfold is_u in Hi. case_if; boolify.
  - eapply out_moves; [exact H|]. by left.
  - pose proof (size_facts _ (bm_size f (proj1 Hok))). rewrite u32_small by (unfold is_u; lia).
    eapply moves_mono; [eapply fdrelease_moves; [exact H|done|lia|simpl; unfold is_u; lia]|]. intros f' pr' Hx. by right.
Qed.

Definition closeexec_round (fd : Z) (f f' : filedesc) (pr : fd_proc) : Prop :=
  (fd_lastfile f < fd /\ f' = f /\ returned (Fd 0) pr) \/
  (fd <= fd_lastfile f /\ if flag (nth (Z.to_nat fd) (fd_ofileflags f) 0) UF_EXCLOSE then releases (KExec (fd + 1)) fd f f' pr
    else f' = f /\ p_pc pr = After (KExec (fd + 1)) 0).

Lemma fdcloseexec_loop_moves s p pr f fd : here s p pr idle f -> 0 <= fd ->
  moves s p pr (fdcloseexec_loop p (p_fd pr) fd s) (closeexec_round fd f).
Proof.
  intros H Hfd. destruct (proj1 (table_as_kept false f) (h_as H)) as [Hr Hok]. destruct (last_range f Hok) as [Hl Eu].
  unfold fdcloseexec_loop, closeexec_round, deref. rewrite (h_table H). cbn [bind]. destruct (Z.ltb_spec (fd_lastfile f) fd).
  - eapply leave_moves; [exact H|]. by left.
  - pose proof (bm_flags f (proj1 Hok)). rewrite aget_nth by lia. cbn [bind]. case_if.
    + eapply moves_mono; [eapply (fdrelease_moves _ _ _ _ (KExec (fd + 1))); [exact H|done|lia|simpl; lia]|]. intros f' pr' Hx. by right.
    + eapply goto_moves; [exact H|done|simpl; lia|]. by right.
Qed.

(** [fdfree]: the rounds, and the end. *)
Definition freed_below (fpp : Z) (f f' : filedesc) : Prop :=
  (forall j, 0 <= j -> slot f' j = if j =? fpp then None else slot f j) /\ fd_nfiles f' = fd_nfiles f.

Definition fdfree_round (fpp i : Z) (f f' : filedesc) (pr : fd_proc) : Prop :=
  freed_below fpp f f' /\ (p_pc pr = After (KFree (fpp + 1) (i - 1)) 0 \/ exists a, closef_at a (KFree (fpp + 1) (i - 1)) f' f' pr).

Lemma fdfree_round_moves s p pr f fpp i : here s p pr (dying fpp i) f -> 0 <= i ->
  moves s p pr (fdfree_loop p (p_fd pr) fpp i s) (fdfree_round fpp i f).
Proof.
  intros H Hi. pose proof (h_as H) as Has. unfold table_as in Has. simpl in Has. destruct Has as (Hr & Hin & Hlen & Hf0 & Hfi & Hnone).
  unfold fdfree_loop, deref. rewrite (proj2 (Z.ltb_ge i 0)), (h_table H) by done. cbn [bind].
  destruct (aget_bounds (fd_ofiles f) fpp) as (x & -> & Hx); [lia|]. cbn [bind]. pose proof Hx as Hx'.
  apply (nth_lookup_Some _ _ None) in Hx'. fold (slot f fpp) in Hx'. destruct x as [a|].
  2: { eapply goto_moves; [|done|done|].
       - eapply here_claim; [exact H| |claim_ok_tac|done|done]. unfold table_as. simpl. conj; try done; try lia.
         intros j Hj Hor. destruct (decide (j = fpp)) as [->|]; [done|]. apply Hnone; lia.
       - split; [|by left]. split; [|done]. intros j Hj. destruct (Z.eqb_spec j fpp); congruence. }
  destruct (slot_live fpp a H Hf0 Hx') as (g & Hg & Hpos & _).
  destruct (FREF_ok a g H Hg Hpos) as [-> H1]; [claim_ok_tac|]. cbn [bind]. rewrite aset_bounds by lia. cbn [bind].
  set (f' := set_ofiles (<[Z.to_nat fpp := None]> (fd_ofiles f)) f).
  assert (freed_below fpp f f') as Hfr.
  { split; [|done]. intros j Hj. unfold f'. rewrite slot_insert by lia. by rewrite Z2Nat.id by lia. }
  set (k := KFree (fpp + 1) (i - 1)). set (s1 := set_files _ s) in *.
  assert (table_as (claim_cont k) f') as Has'.
  { unfold table_as. simpl. rewrite length_insert. conj; try done; try lia.
    intros j Hj Hor. rewrite (proj1 Hfr) by lia. destruct (Z.eqb_spec j fpp); [done|]. apply Hnone; lia. }
  assert (here (put_table (p_fd pr) f' s1) p pr (holding a (dropping a (claim_cont k))) f') as H2.
  { eapply here_table; [exact H1|exact Has'|claim_ok_tac|done|].
    rewrite <- (insert_insert_eq (claims (procs s1)) p _ (holding a (dying fpp i))).
    pose proof (slot_larvals fpp a H1 Hf0 Hx') as Hl. simpl in Hl.
    eapply books_slots; [apply (h_inv H1)|apply lookup_insert_eq|apply (h_table H1)|done|done|done|..]; simpl; intros b;
      rewrite (occ_insert _ _ _ _ _ Hx), (decide_False (P := None = Some b)) by done; destruct (decide (a = b)) as [<-|];
      rewrite ?decide_True, ?decide_False by congruence; try lia. }
  eapply moves_table; [eapply moves_mono; [by eapply (closef_moves _ _ p pr a k); [exact H2|..]|]|done|done].
  intros f2 pr2 [-> Hat]. split; [done|]. right. by exists a.
Qed.

(** * Entering a call *)

Lemma with_file_moves s p pr f fd body R : here s p pr idle f -> is_s 32 fd ->
  (forall a, 0 <= fd < fd_nfiles f -> slot f fd = Some a -> moves s p pr (body f a) R) ->
  (closed_fd f fd -> R f (set_ret (Err EBADF) (set_pc User pr))) ->
  moves s p pr (with_file p (p_fd pr) fd s body) R.
Proof.
  intros H Hfd Hbody HR. unfold with_file, deref. rewrite (h_table H). cbn [bind].
  destruct (getfile_idle _ maxfiles_range _ _ _ _ _ H Hfd) as [[-> Hn]|(a & -> & Hr & E)]; cbn [bind]; [|by apply Hbody].
  eapply leave_moves; [exact H|auto].
Qed.

Definition close_enters (fd : Z) (f f' : filedesc) (pr : fd_proc) : Prop :=
  f' = f /\ ((closed_fd f fd /\ returned (Err EBADF) pr) \/ (0 <= fd /\ is_Some (slot f fd) /\ p_pc pr = CloseLock fd)).

Lemma close_enter_moves s p pr f fd : here s p pr idle f -> is_s 32 fd ->
  moves s p pr (sys_close_enter p (p_fd pr) fd s) (close_enters fd f).
Proof.
  intros H Hfd. destruct (here_idle _ _ _ _ _ H) as [Hr Hok]. apply with_file_moves with (f := f); try done.
  - intros a Hn E. eapply (goto_moves _ _ _ _ (indexing fd idle)); [|done|done|split; [done|right; rewrite E; split; [lia|by split] ] ].
    destruct (h_as H) as (A1 & A2 & A3 & A4 & A5 & A6). eapply here_claim; [exact H| |claim_ok_tac|done|done].
    split; [done|]. split; [done|]. split; [done|]. split; [done|]. split; [done|]. intros x ->%list_elem_of_singleton. done.
  - intros Hc. split; [done|]. by left.
Qed.

Lemma fstat_enter_moves s p pr f fd : here s p pr idle f -> is_s 32 fd ->
  moves s p pr (sys_fstat_enter p (p_fd pr) fd s) (enters f fd (Using fd)).
Proof.
  intros H Hfd. apply with_file_moves with (f := f); try done.
  - intros a Hn E. eapply (hold_moves _ _ _ _ _ _ fd (Using fd a)); [exact H| |exact E|done|done|]; [lia|]. split; [done|]. right. exists a. split; [lia|done].
  - intros Hc. split; [done|]. by left.
Qed.

Definition getfd_result (fd : Z) (f f' : filedesc) (pr : fd_proc) : Prop :=
  f' = f /\
  ((closed_fd f fd /\ returned (Err EBADF) pr) \/
   (is_Some (slot f fd) /\ returned (Fd (if flag (nth (Z.to_nat fd) (fd_ofileflags f) 0) UF_EXCLOSE then 1 else 0)) pr)).

Lemma getfd_moves s p pr f fd : here s p pr idle f -> is_s 32 fd ->
  moves s p pr (fcntl_getfd p (p_fd pr) fd s) (getfd_result fd f).
Proof.
  intros H Hfd. destruct (here_idle _ _ _ _ _ H) as [Hr Hok]. apply with_file_moves with (f := f); try done.
  - intros a Hn E. rewrite aget_nth by (rewrite (bm_flags f (proj1 Hok)); lia). cbn [bind]. eapply leave_moves; [exact H|].
    split; [done|]. right. rewrite E. split; [by eexists|done].
  - intros Hc. split; [done|]. by left.
Qed.

Definition setfd_value (arg fl : Z) : Z := if flag arg 1 then Z.lor fl UF_EXCLOSE else Z.land fl (Z.lnot UF_EXCLOSE).

Definition setfd_result (fd arg : Z) (f f' : filedesc) (pr : fd_proc) : Prop :=
  (closed_fd f fd /\ f' = f /\ returned (Err EBADF) pr) \/
  (is_Some (slot f fd) /\ returned (Fd 0) pr /\ fd_ofiles f' = fd_ofiles f /\
    forall j, nth j (fd_ofileflags f') 0 = if decide (j = Z.to_nat fd) then setfd_value arg (nth j (fd_ofileflags f) 0) else nth j (fd_ofileflags f) 0).

Lemma setfd_moves s p pr f fd arg : here s p pr idle f -> is_s 32 fd ->
  moves s p pr (fcntl_setfd p (p_fd pr) fd arg s) (setfd_result fd arg f).
Proof.
  intros H Hfd. destruct (here_idle _ _ _ _ _ H) as [Hr Hok]. pose proof (bm_flags f (proj1 Hok)) as Hfl.
  apply with_file_moves with (f := f); try done; [|intros Hc; by left].
  intros a Hn E. rewrite aget_nth by lia. cbn [bind]. rewrite aset_bounds by lia. cbn [bind]. fold (setfd_value arg (nth (Z.to_nat fd) (fd_ofileflags f) 0)).
  set (f' := set_ofileflags _ f). assert (here (put_table (p_fd pr) f' s) p pr idle f') as H1.
  { eapply here_retable; [exact H|done| |claim_ok_tac|done..]. apply (table_as_kept false). split; [done|]. destruct Hok as [Hb Ha].
    split; [|done]. pose proof (bitmaps_files f (fd_ofiles f) (<[Z.to_nat fd := setfd_value arg (nth (Z.to_nat fd) (fd_ofileflags f) 0)]> (fd_ofileflags f))
      Hb eq_refl ltac:(apply length_insert)) as Hb'. by destruct f. }
  eapply moves_table; [eapply leave_moves; [exact H1|]|done|done]. right. rewrite E. conj; try done.
  intros j. simpl. rewrite nth_insert by lia. case_decide; [by subst|done].
Qed.

Definition setlk_result (fd : Z) (f f' : filedesc) (pr : fd_proc) : Prop :=
  f' = f /\ (returned (Err EBADF) pr \/ exists a, 0 <= fd /\ slot f fd = Some a /\ p_pc pr = Using fd a).

Lemma setlk_moves s p pr f fd l : here s p pr idle f -> is_s 32 fd -> p_pc pr = User ->
  moves s p pr (fcntl_setlk p (p_fd pr) fd l s) (setlk_result fd f).
Proof.
  intros H Hfd Hpc. apply with_file_moves with (f := f); try done; [|intros Hc; split; [done|by left] ].
  intros a Hn E. destruct (slot_live fd a H ltac:(lia) E) as (g & Hg & Hpos & _). unfold deref at 1. rewrite Hg. cbn [bind].
  case_if; [eapply leave_moves; [exact H|]; split; [done|by left]|].
  case_if; [eapply leave_moves; [exact H|]; split; [done|by left]|]. unfold deref. rewrite (h_proc H). cbn [bind].
  assert (forall pr1, p_fd pr1 = p_fd pr -> p_rlim_nofile pr1 = p_rlim_nofile pr -> p_pc pr1 = User ->
    moves s p pr (let! s0 := FREF a (set_procs (<[p := pr1]> (procs s)) s) in goto p (Using fd a) s0)
      (setlk_result fd f)) as Hgo.
  { intros pr1 Et El Ec. assert (ok (set_procs (<[p := pr1]> (procs s)) s)) as Hok.
    { eapply settle; [exact H|done|rewrite El; exact (here_rlim H)|by rewrite Ec|by rewrite Ec]. }
    destruct (here_of_ok Hok (lookup_insert_eq _ _ _)) as [f1 H1]. rewrite Ec in H1. simpl in H1.
    assert (f1 = f) as ->. { pose proof (h_table H1) as E1. pose proof (h_table H) as E2. simpl in E1. rewrite Et in E1. congruence. }
    destruct (hold_moves _ _ p pr1 f a fd (Using fd a) (setlk_result fd f) H1)
      as (s' & f' & pr' & A1 & A2 & A3 & A4 & A5 & A6); [lia|done|done|done|split; [done|right; exists a; by split; [lia|] ]|].
    exists s', f', pr'. simpl in A3, A4. rewrite Et in A3, A5. rewrite insert_insert_eq in A4. destruct A6. by conj. }
  destruct l; [by apply Hgo|by apply Hgo|].
  replace s with (set_procs (<[p := pr]> (procs s)) s) at 2; [by apply Hgo|]. rewrite insert_id by apply H. by destruct s.
Qed.
End Steps.
