(* ===== verification/FdEffect.v ===== *)
(** * What every step does

    The steps of the calls put together: what each of them does to the table
    and to the process that takes it. *)

From stdpp Require Import gmap sets.
From S2P Require Import Prelude Libkern Filedesc FdMap FdTable FdAlloc MapSum Files FdInv FdBooks FdOwn FdOps FdCalls FdDup FdOpen FdFork FdSteps.

(** A label under which no table becomes shared. *)
Definition unshared (l : label) : bool := match l with Enter _ (SFork _ ShareFiles) => false | _ => true end.

(** The process that takes the step. *)
Definition actor (l : label) : Z :=
  match l with Enter p _ | Go p _ | VnAnswer p _ | Answer p _ | Used p _ => p end.

(** A call up to its first sleep, but [fork]. *)
Definition call_effect (lim : Z) (c : call) (f f' : filedesc) (pr : fd_proc) : Prop :=
  match c with
  | SDup fd => enters f fd (fun a => DupLock a fd) f' pr
  | SDup2 old new => dup2_enters lim old new f f' pr
  | SDupfd fd newmin => dupfd_enters lim fd newmin f f' pr
  | SGetfd fd => getfd_result fd f f' pr
  | SSetfd fd arg => setfd_result fd arg f f' pr
  | SSetlk fd _ => setlk_result fd f f' pr
  | SClose fd => close_enters fd f f' pr
  | SClosefrom fd => f' = f /\ p_pc pr = ClosefromLock (u32 fd)
  | SOpen oflags => f' = f /\ p_pc pr = OpenLock oflags
  | SSocket => f' = f /\ p_pc pr = SocketLock
  | SKqueue a => kqueues a f f' pr
  | SFstat fd => enters f fd (Using fd) f' pr
  | SFork _ _ => False
  | SExec => f' = f /\ p_pc pr = After (KExec 0) 0
  | SExit => p_pc pr = After (KFree 0 (fd_lastfile f)) 0 /\ forall j, 0 <= j -> slot f' j = slot f j
  | SSetrlimit _ => f' = f /\ returned (Fd 0) pr
  end.

Definition closefrom_starts (n : Z) (f f' : filedesc) (pr : fd_proc) : Prop :=
  f' = f /\ if fd_lastfile f <? n then returned (Err EBADF) pr else p_pc pr = After (KFrom n) 0.

(** A call that goes on, from where it slept. *)
Definition go_effect (lim a : Z) (x : pc) (f f' : filedesc) (pr : fd_proc) : Prop :=
  match x with
  | DupLock fp old => dup_result 0 lim fp old (DupLock fp old) f f' pr
  | Dup2Lock fp old new => dup2_result lim fp old new f f' pr
  | DupfdLock fp fd newmin => dupfd_result lim fp fd newmin f f' pr
  | CloseLock fd => releases KClose fd f f' pr
  | ClosefromLock n => closefrom_starts n f f' pr
  | OpenLock _ | SocketLock => creates a f f' pr
  | Closef Unlocking fp k => closef_dropped fp k f f' pr
  | Closef Draining fp k => f' = f /\ p_pc pr = Closef Closing fp k
  | After (KOut r) _ => f' = f /\ returned r pr
  | After KClose e => f' = f /\ returned (if e =? 0 then Fd 0 else Err e) pr
  | After (KFrom i) _ => closefrom_round i f f' pr
  | After (KExec fd) _ => closeexec_round fd f f' pr
  | After (KFree fpp i) _ => 0 <= i /\ fdfree_round fpp i f f' pr
  | _ => False
  end.

(** The answer of the code outside. *)
Definition answer_effect (e : Z) (x : pc) (f f' : filedesc) (pr : fd_proc) : Prop :=
  match x with
  | OpenAdvlock a z _ => advlocks a z f f' pr
  | OpenTrunc a z | Socreate a z => open_ends a z f f' pr
  | Closef Closing fp k => f' = f /\ p_pc pr = After k e
  | _ => False
  end.

Definition effect (l : label) (pr : fd_proc) (f f' : filedesc) (pr' : fd_proc) : Prop :=
  match l with
  | Enter _ c => call_effect (p_rlim_nofile pr) c f f' pr'
  | Go _ a => go_effect (p_rlim_nofile pr) a (p_pc pr) f f' pr'
  | VnAnswer _ _ => match p_pc pr with Opening a z _ _ => vn_opens a z f f' pr' | _ => False end
  | Answer _ e => answer_effect e (p_pc pr) f f' pr'
  | Used _ r => (exists fd fp, p_pc pr = Using fd fp) /\ f' = f /\ returned r pr'
  end.

Section Effect.
Context (maxfiles LONG_MAX : Z).
Hypothesis maxfiles_range : 0 <= maxfiles <= 12800.
Hypothesis LONG_MAX_range : 2 ^ 31 - 1 <= LONG_MAX.
Implicit Types (s : state).

Notation here := (here maxfiles).
Notation ok := (ok maxfiles).
Notation moves := (moves maxfiles).
Notation step := (step maxfiles LONG_MAX).

Lemma slot_int s p pr c f fd a : here s p pr c f -> c_dying c = None -> 0 <= fd -> slot f fd = Some a -> is_s 32 fd.
Proof.
  intros H Hd Hfd E. pose proof (h_as H) as Has. unfold table_as in Has. rewrite Hd in Has. destruct Has as (_ & Hb & _).
  pose proof (in_table f fd a Hb E). pose proof (size_facts _ (bm_size f Hb)). unfold is_s. lia.
Qed.

Lemma known_int s p pr f a fd : here s p pr (locking true (knows a fd)) f -> is_s 32 fd.
Proof. intros H. destruct (knows_table _ _ _ (h_as H)) as (_ & _ & Hfd & E). by eapply slot_int; [exact H|..]. Qed.

(** With the lock. *)
Lemma locked_moves s p pr f a m :
  here s p pr (claim_of (p_pc pr)) f -> locks s !! p_fd pr = None -> files s !! a = None ->
  locked maxfiles LONG_MAX p pr a (fdplock p (p_fd pr) s) = Some m ->
  moves s p pr m (go_effect (p_rlim_nofile pr) a (p_pc pr) f).
Proof.
  intros H Hl Ha Hm. pose proof (h_args H p pr (h_proc H)) as Hargs. pose proof (lock_ok H Hl) as H1.
  eapply (moves_files _ _ (fdplock p (p_fd pr) s)); [|done|done].
  destruct (p_pc pr) eqn:Epc; cbn [claim_of] in *; unfold locked in Hm; rewrite Epc in Hm; try done; injection Hm as <-; cbn [go_effect].
  - eapply dup_locked_moves; [done..|by eapply known_int].
  - destruct Hargs as (Hs & Hn & Hne). eapply dup2_locked_moves; try done. by eapply known_int.
  - destruct Hargs as (Hs & Hn). eapply dupfd_locked_moves; try done. by eapply known_int.
  - destruct (h_as H1) as (A1 & A2 & A3 & A4 & A5 & A6). eapply (fdrelease_moves _ _ p pr KClose f); [|done| |done].
    + eapply here_claim; [exact H1| |claim_ok_tac|done|done]. apply table_as_none; try done. split; [done|]. intros j Hj. by apply A3.
    + apply A6. by left.
  - destruct (proj1 (table_as_kept true f) (h_as H1)) as [Hr Hok1]. destruct (last_range f Hok1) as [Hlr Eu].
    unfold closefrom_locked, closefrom_starts, deref. rewrite (h_table H1). cbn [bind]. rewrite Eu. destruct (fd_lastfile f <? startfd) eqn:El.
    + eapply out_moves; [exact H1|]. split; [done|by rewrite El].
    + eapply goto_moves; [exact H1|done|done|]. split; [done|by rewrite El].
  - by eapply open_locked_moves.
  - by eapply socket_locked_moves.
Qed.

(** The end of [exit]. *)
Definition exits (s : state) (p : Z) (pr : fd_proc) (m : outcome state) : Prop :=
  (exists fpp i e, p_pc pr = After (KFree fpp i) e /\ i < 0) /\
  exists s', m = Ret s' /\ ok s' /\ tables s' = delete (p_fd pr) (tables s) /\ procs s' = delete p (procs s).

Lemma resume_moves s p pr f k e a : here s p pr (claim_of (p_pc pr)) f -> p_pc pr = After k e ->
  exits s p pr (resume p (p_fd pr) k e s) \/
  moves s p pr (resume p (p_fd pr) k e s) (go_effect (p_rlim_nofile pr) a (After k e) f).
Proof.
  intros H Epc. pose proof (h_args H p pr (h_proc H)) as Hargs. rewrite Epc in H, Hargs.
  destruct k as [r| |i|fd|fpp i]; cbn [resume claim_of claim_cont go_effect] in *.
  - right. by eapply out_moves; [exact H|].
  - right. by eapply out_moves; [exact H|].
  - right. by eapply closefrom_loop_moves.
  - right. by eapply fdcloseexec_loop_moves.
  - destruct (decide (0 <= i)).
    + right. eapply moves_mono; [by eapply fdfree_round_moves|done].
    + left. destruct (fdfree_end_ok _ _ _ _ _ _ _ H ltac:(lia)) as [-> Hok']. split; [|by eexists].
      exists fpp, i, e. split; [done|lia].
Qed.

Lemma enter_moves s p pr f c : here s p pr (claim_of (p_pc pr)) f -> p_pc pr = User -> call_ok c s = true ->
  (forall q how, c <> SFork q how) ->
  moves s p pr (enter maxfiles LONG_MAX p pr c s) (call_effect (p_rlim_nofile pr) c f).
Proof.
  intros H Epc Hc Hf. rewrite Epc in H. simpl in H.
  destruct c; simpl in Hc; unfold enter; boolify; repeat match goal with H : bool_decide _ = true |- _ => apply bool_decide_eq_true in H end;
    cbn [call_effect].
  - by eapply dup_enter_moves.
  - by eapply dup2_enter_moves.
  - by eapply dupfd_enter_moves.
  - by eapply getfd_moves.
  - by eapply setfd_moves.
  - by eapply setlk_moves.
  - by eapply close_enter_moves.
  - eapply goto_moves; [exact H|done|apply u32_range|done].
  - by eapply goto_moves; [exact H|..].
  - by eapply goto_moves; [exact H|..].
  - by eapply sys_kqueue_moves.
  - by eapply fstat_enter_moves.
  - by edestruct Hf.
  - by eapply goto_moves; [exact H|..].
  - by eapply fdfree_moves.
  - set (pr1 := set_rlim _ pr). set (s1 := set_procs (<[p := pr1]> (procs s)) s).
    assert (ok s1) as Hok1.
    { eapply settle; [exact H|done| |simpl; by rewrite Epc|simpl; by rewrite Epc]. simpl. unfold nofile_limit. case_if; boolify; lia. }
    destruct (here_of_ok Hok1 (lookup_insert_eq _ _ _)) as [f1 H1]. replace (p_pc pr1) with User in H1 by (symmetry; exact Epc).
    destruct (leave_ok (Fd 0) H1) as [-> Hok']. eexists _, f, _. split; [done|]. split; [done|].
    simpl. by rewrite insert_id, insert_insert_eq by apply H.
Qed.

Definition forks (s : state) (p : Z) (pr : fd_proc) (q : Z) (how : fork_files) (m : outcome state) : Prop :=
  exists s' f new t, m = Ret s' /\ ok s' /\ tables s !! p_fd pr = Some f /\ tables s !! t = None /\ procs s !! q = None /\
  tables s' = <[t := new]> (tables s) /\
  procs s' = <[p := set_ret (Fd q) (set_pc User pr)]> (<[q := Proc t (p_rlim_nofile pr) false User (Fd 0)]> (procs s)) /\
  forked (files s) f how new.

(** The three kinds of step. *)
Definition acts (s : state) (l : label) (pr : fd_proc) (m : outcome state) : Prop :=
  (exists q how, l = Enter (actor l) (SFork q how) /\ p_pc pr = User /\ forks s (actor l) pr q how m) \/
  (exists a, l = Go (actor l) a) /\ exits s (actor l) pr m \/
  (exists f, tables s !! p_fd pr = Some f /\ moves s (actor l) pr m (effect l pr f)).

Lemma step_acts s l pr m : ok s -> unshared l = true -> procs s !! actor l = Some pr -> step l s = Some m -> acts s l pr m.
Proof.
  intros Hok Hun Hp Hm. destruct (here_of_ok Hok Hp) as [f H]. pose proof (h_args H _ pr Hp) as Hargs. pose proof (h_table H) as Et.
  assert (forall R, moves s (actor l) pr m R -> (forall f' pr', R f' pr' -> effect l pr f f' pr') -> acts s l pr m) as Hdo.
  { intros R Hmv HR. right. right. exists f. split; [done|]. by eapply moves_mono. }
  destruct l as [p c|p a|p r|p e|p r]; cbn [Files.step actor] in *; rewrite Hp in Hm; cbn [effect] in Hdo.
  - destruct (p_pc pr) eqn:Epc; try done. destruct (call_ok c s) eqn:Ec; [|done]. injection Hm as <-.
    assert ((exists q how, c = SFork q how) \/ forall q how, c <> SFork q how) as [(q & how & ->)|Hn] by (destruct c; eauto; by right).
    + left. exists q, how. split; [done|]. split; [done|].
      destruct (fork1_ok _ _ LONG_MAX_range s p pr q how Hok Hp Epc Ec) as (s' & f' & new & t & E & Hok' & E1 & Etn & E3 & E4 & E5); [by intros ->|].
      exists s', f', new, t. simpl in Ec. boolify. repeat match goal with H : bool_decide _ = true |- _ => apply bool_decide_eq_true in H end. by conj.
    + eapply Hdo; [eapply enter_moves; [rewrite Epc; exact H|done|done|done]|done].
  - assert ((if bool_decide (locks s !! p_fd pr = None) && bool_decide (files s !! a = None)
      then locked maxfiles LONG_MAX p pr a (fdplock p (p_fd pr) s) else None) = Some m -> acts s (Go p a) pr m) as Hlk.
    { intros Hm'. case_if_in Hm'; [|done]. boolify. repeat match goal with H : bool_decide _ = true |- _ => apply bool_decide_eq_true in H end.
      eapply Hdo; [by eapply locked_moves|done]. }
    destruct (p_pc pr) as [| | | | | | | | | | | | |[| |] fp k|k e] eqn:Epc; try (by apply Hlk); try done; cbn [go_effect claim_of] in *.
    + injection Hm as <-. eapply Hdo; [eapply closef_drop_moves; [exact H|by destruct k; apply (h_as H)|by destruct k]|done].
    + case_if_in Hm; [|done]. injection Hm as <-. by eapply Hdo; [eapply closef_drain_moves; [..|exact H|by destruct k]|].
    + injection Hm as <-. destruct (resume_moves s p pr f k e a) as [Hx|Hx]; [by rewrite Epc|done| |].
      * right. left. split; [by exists a|done].
      * by eapply Hdo; [exact Hx|].
  - destruct (p_pc pr) eqn:Epc; try done. destruct (vn_ok r) eqn:Er; [|done]. injection Hm as <-. by eapply Hdo; [eapply vn_opened_moves|].
  - destruct (p_pc pr) as [| | | | | | | | | | | | |[| |] fp k|k e'] eqn:Epc; try done; injection Hm as <-.
    + by eapply Hdo; [eapply open_advlocked_moves|].
    + by eapply Hdo; [eapply open_ends_moves|].
    + by eapply Hdo; [eapply open_ends_moves|].
    + by eapply Hdo; [eapply closef_free_moves; [exact H|by destruct k]|].
  - destruct (p_pc pr) eqn:Epc; try done. injection Hm as <-. simpl in H. destruct (ref_live fp H) as [g Hg]; [by left|].
    assert (here s p pr (holding fp idle) f) as H0.
    { destruct (h_as H) as (A1 & A2 & A3 & A4 & A5 & A6). eapply here_claim; [exact H| |claim_ok_tac|done|done].
      apply table_as_none; try done. split; [done|]. intros j Hj. by apply A3. }
    destruct (FRELE_ok fp g H0 Hg) as [E H1]; [done|claim_ok_tac|apply (h_as H0)|].
    apply (Hdo (fun f' pr' => f' = f /\ returned r pr')); [rewrite E; cbn [bind]|by eauto]. eapply moves_files; [eapply (leave_moves _ _ _ _ _ _ (fun f' pr' => f' = f /\ returned r pr')); [exact H1|done]|done|done].
Qed.

Lemma acts_ok s l pr m : acts s l pr m -> exists s', m = Ret s' /\ ok s'.
Proof.
  intros [(q & how & _ & _ & s' & f & new & t & E & Hok & _)|[[_ [_ (s' & E & Hok & _)] ]|(f & _ & s' & f' & pr' & E & Hok & _)] ]; by exists s'.
Qed.

Lemma step_actor s l m : step l s = Some m -> exists pr, procs s !! actor l = Some pr.
Proof. intros Hm. destruct l; cbn [Files.step actor] in *; (destruct (procs s !! p) as [pr|]; [by exists pr|done]). Qed.
End Effect.
