(* ===== verification/FdLive.v ===== *)
(** * Runs of the descriptor calls

    The states that can be reached and the invariant of all of them; and that the
    calls make progress. *)

From stdpp Require Import gmap sets.
From S2P Require Import Prelude Libkern Filedesc FdMap FdTable FdAlloc MapSum Files FdInv FdBooks FdOwn FdOps FdCalls FdDup FdOpen FdFork FdSteps FdEffect.

Section Safe.
Context (maxfiles LONG_MAX : Z).
Hypothesis maxfiles_range : 0 <= maxfiles <= 12800.
Hypothesis LONG_MAX_range : 2 ^ 31 - 1 <= LONG_MAX.
Implicit Types (s : state).

Notation here := (here maxfiles).
Notation ok := (ok maxfiles).
Notation moves := (moves maxfiles).
Notation step := (step maxfiles LONG_MAX).

Lemma step_ok s l m : ok s -> unshared l = true -> step l s = Some m -> exists s', m = Ret s' /\ ok s'.
Proof.
  intros Hok Hun Hm. destruct (step_actor _ _ _ _ _ Hm) as [pr Hp]. by eapply acts_ok, step_acts.
Qed.

(** * Reachable states *)

(** The first process, with an empty table. *)
Definition boot (p t rlim : Z) : state :=
  State ∅ 0 {[t := fdinit]} ∅ {[p := Proc t rlim false User (Fd 0)]} ∅.

Inductive reachable : state -> Prop :=
| reach_boot p t rlim : 0 <= p <= PID_MAX -> 0 <= rlim <= maxfiles -> reachable (boot p t rlim)
| reach_step s l s' : reachable s -> unshared l = true -> step l s = Some (Ret s') -> reachable s'.

Lemma boot_ok p t rlim : 0 <= p <= PID_MAX -> 0 <= rlim <= maxfiles -> ok (boot p t rlim).
Proof.
  intros Hp Hr. assert (claims (procs (boot p t rlim)) = {[p := idle]}) as Ec by (unfold claims; simpl; by rewrite map_fmap_singleton).
  split; [|simpl; intros q qr [<- <-]%lookup_singleton_Some; done]. rewrite Ec. split; [|split; [|simpl; split; [done|split; [lia|done] ] ] ].
  - intros a. cbn [tables files boot]. rewrite lookup_empty. unfold slots, tally.
    rewrite <- !insert_empty, !(msum_fresh _ ∅), !msum_empty by apply lookup_empty. by rewrite fdinit_occ.
  - simpl. split.
    + intros q. destruct (decide (p = q)) as [<-|]; [rewrite !lookup_singleton_eq|rewrite !lookup_singleton_ne by done]; done.
    + by intros q qr [<- <-]%lookup_singleton_Some.
    + intros q qr c [<- <-]%lookup_singleton_Some [_ <-]%lookup_singleton_Some. split; [claim_ok_tac|]. exists fdinit.
      simpl. rewrite lookup_singleton_eq. split; [done|]. apply (table_as_kept false). split; [done|apply fdinit_ok].
    + by intros q q' qr qr' [<- <-]%lookup_singleton_Some [<- <-]%lookup_singleton_Some.
    + intros t' f [<- <-]%lookup_singleton_Some. exists p. eexists. by rewrite lookup_singleton_eq.
    + by intros t' q.
    + by intros q qr c [<- <-]%lookup_singleton_Some [_ <-]%lookup_singleton_Some.
Qed.

Lemma fd_reachable_ok s : reachable s -> ok s.
Proof.
  intros Hr. induction Hr as [p t rlim Hp Hr|s l s' _ IH Hun E]; [by apply boot_ok|].
  destruct (step_ok s l _ IH Hun E) as (s2 & [= <-] & Hok). done.
Qed.
End Safe.

(** * Progress of the descriptor calls

    Each call is done after a bounded number of its own steps, and never waits
    for another process. *)

(** * The steps that are left *)

(** [n] is the size of the table: the loops visit each descriptor once, and
    [dup] starts again only with a larger table. *)
Definition cont_work (k : cont) (n : Z) : Z :=
  match k with
  | KOut _ | KClose => 1
  | KFrom i | KExec i => 1 + 4 * Z.max 0 (n - i)
  | KFree _ i => 1 + 4 * Z.max 0 (i + 1)
  end.

Definition work (x : pc) (n : Z) : Z :=
  match x with
  | User => 0
  | DupLock _ _ | Dup2Lock _ _ _ | DupfdLock _ _ _ => 5 + (12800 - n)
  | CloseLock _ | OpenTrunc _ _ | Socreate _ _ => 5
  | ClosefromLock i => 2 + 4 * Z.max 0 (n - i)
  | OpenLock _ | SocketLock => 8
  | Opening _ _ _ _ => 7
  | OpenAdvlock _ _ _ => 6
  | Using _ _ => 1
  | Closef Unlocking _ k => 3 + cont_work k n
  | Closef Draining _ k => 2 + cont_work k n
  | Closef Closing _ k => 1 + cont_work k n
  | After k _ => cont_work k n
  end.

Lemma cont_work_pos k n : 1 <= cont_work k n.
Proof. destruct k; simpl; lia. Qed.

Lemma work_pos x n : n <= 12800 -> x <> User -> 1 <= work x n.
Proof. intros Hn Hx. destruct x as [| | | | | | | | | | | | |[| |] a k|k e]; simpl; try done; try lia; pose proof (cont_work_pos k n); lia. Qed.

Definition is_enter (l : label) : bool := match l with Enter _ _ => true | _ => false end.

(** Where [closef] leaves the process. *)
Lemma closef_at_work a k f f' pr b : closef_at a k f f' pr -> fd_nfiles f = b -> work (p_pc pr) (fd_nfiles f') <= 3 + cont_work k b.
Proof. intros [-> [-> |[-> | ->]]] <-; simpl; lia. Qed.

Lemma releases_work k fd f f' pr : releases k fd f f' pr -> work (p_pc pr) (fd_nfiles f') <= 3 + cont_work k (fd_nfiles f).
Proof.
  intros [(_ & -> & ->)|(a & _ & (_ & En & _) & Hat)]; [simpl; lia|]. by eapply closef_at_work.
Qed.

Lemma returned_work r pr n : returned r pr -> work (p_pc pr) n = 0.
Proof. by intros [-> _]. Qed.

Lemma finishes_work fp old new f f' pr : finishes fp old new f f' pr -> work (p_pc pr) (fd_nfiles f') <= 4.
Proof.
  intros [_ Hs]. destruct (slot f new) as [a|]; [|destruct Hs as [-> _]; simpl; lia].
  by eapply (closef_at_work a (KOut (Fd new))).
Qed.

Lemma grown_more n : 0 < n -> n < grown_size n.
Proof. intros H. unfold grown_size. case_if; boolify; lia. Qed.

Lemma dup_work want lim a fd x f f' pr n : dup_result want lim a fd x f f' pr -> 0 < fd_nfiles f <= 12800 ->
  (forall n, work x n = 5 + (12800 - n)) -> n = 5 + (12800 - fd_nfiles f) -> work (p_pc pr) (fd_nfiles f') < n.
Proof.
  intros [(z & _ & _ & _ & _ & Hr)|[(_ & _ & Hr)|(_ & _ & _ & En & Hx)]] Hn Hw ->; [rewrite (returned_work _ _ _ Hr); lia..|].
  rewrite Hx, Hw, En. pose proof (grown_more (fd_nfiles f)). lia.
Qed.

(** The effects that end an [open]. *)
Lemma ends_work a z f f' pr : open_ends a z f f' pr -> work (p_pc pr) (fd_nfiles f') <= 4.
Proof.
  intros [[_ Hr]|(e & _ & Hat)]; [rewrite (returned_work _ _ _ Hr); lia|]. by eapply (closef_at_work a (KOut (Err e))).
Qed.

Lemma vn_work a z f f' pr : vn_opens a z f f' pr -> work (p_pc pr) (fd_nfiles f') <= 6.
Proof.
  intros [[_ [Hr|[-> |[lt ->]]]]|[(e & _ & Hat)|(er & d & w & _ & _ & _ & Hat)]];
    [rewrite (returned_work _ _ _ Hr); lia|simpl; lia..| |].
  - pose proof (closef_at_work _ _ _ _ _ _ Hat eq_refl). simpl in *. lia.
  - pose proof (closef_at_work _ _ _ _ _ _ Hat eq_refl). simpl in *. lia.
Qed.

Lemma creates_work a f f' pr : creates a f f' pr -> work (p_pc pr) (fd_nfiles f') <= 7.
Proof.
  intros [(z & _ & [-> |(fl & lt & ->)])|(_ & [Hr|Hr])]; try (rewrite (returned_work _ _ _ Hr); lia); simpl; lia.
Qed.

Lemma after_work lim a k e f f' pr : go_effect lim a (After k e) f f' pr ->
  (c_dying (claim_cont k) = None -> fd_lastfile f < fd_nfiles f) ->
  work (p_pc pr) (fd_nfiles f') < cont_work k (fd_nfiles f).
Proof.
  destruct k as [r| |i|fd|fpp i]; cbn [go_effect cont_work claim_cont c_dying].
  - intros [-> Hr] _. rewrite (returned_work _ _ _ Hr). lia.
  - intros [-> Hr] _. rewrite (returned_work _ _ _ Hr). lia.
  - intros [(_ & -> & Hr)|[Hi H]] Hl; [rewrite (returned_work _ _ _ Hr); lia|]. specialize (Hl eq_refl). apply releases_work in H. simpl in H. lia.
  - intros [(_ & -> & Hr)|[Hi H]] Hl; [rewrite (returned_work _ _ _ Hr); lia|]. specialize (Hl eq_refl). case_if_in H.
    + apply releases_work in H. simpl in H. lia.
    + destruct H as [-> ->]. simpl. lia.
  - intros [Hi [[_ En] [-> |[b Hat]]]] _; [simpl; lia|]. pose proof (closef_at_work _ _ _ _ _ _ Hat eq_refl) as Hw. simpl in Hw. lia.
Qed.

(** Each step of a call, but its first, leaves less to do. *)
Lemma go_work lim a x f f' pr : go_effect lim a x f f' pr -> 0 < fd_nfiles f <= 12800 ->
  (c_dying (claim_of x) = None -> fd_lastfile f < fd_nfiles f) ->
  work (p_pc pr) (fd_nfiles f') < work x (fd_nfiles f).
Proof.
  intros H Hn Hl. destruct x as [|fp old|fp old new|fp fd newmin|fd|n|o| | | | | | |[| |] fp k|k e]; cbn [go_effect] in H; try done; cbn [work].
  - by eapply dup_work.
  - destruct H as [[_ H]|[(_ & _ & En & _ & ->)|(_ & _ & e & Hr)]].
    + apply finishes_work in H. lia.
    + rewrite En. simpl. pose proof (grown_more (fd_nfiles f)). lia.
    + rewrite (returned_work _ _ _ Hr). lia.
  - destruct H as [H|(_ & _ & Hr)]; [by eapply dup_work|rewrite (returned_work _ _ _ Hr); lia].
  - apply releases_work in H. simpl in H. lia.
  - destruct H as [-> H]. case_if_in H; [rewrite (returned_work _ _ _ H); lia|]. rewrite H. simpl. lia.
  - apply creates_work in H. lia.
  - apply creates_work in H. lia.
  - destruct H as [-> [-> | ->]]; simpl; lia.
  - destruct H as [-> ->]. simpl. lia.
  - pose proof (after_work lim a k e f f' pr H Hl). lia.
Qed.

Lemma effect_work l pr f f' pr' : effect l pr f f' pr' -> is_enter l = false -> 0 < fd_nfiles f <= 12800 ->
  (c_dying (claim_of (p_pc pr)) = None -> fd_lastfile f < fd_nfiles f) ->
  work (p_pc pr') (fd_nfiles f') < work (p_pc pr) (fd_nfiles f).
Proof.
  intros H He Hn Hl. destruct l as [p c|p a|p r|p e|p r]; cbn [effect] in H; [done|by eapply go_work|..].
  - destruct (p_pc pr); try done. apply vn_work in H. simpl. lia.
  - destruct (p_pc pr) as [| | | | | | | | | | | | |[| |] fp k|k e'] eqn:E; try done; cbn [answer_effect] in H.
    + destruct H as [H|[-> ->]]; [apply ends_work in H|]; simpl; lia.
    + apply ends_work in H. simpl. lia.
    + apply ends_work in H. simpl. lia.
    + destruct H as [-> ->]. simpl. lia.
  - destruct H as ((fd & fp & ->) & -> & Hr). rewrite (returned_work _ _ _ Hr). simpl. lia.
Qed.

(** What process [p] has left to do; nothing when it runs in user mode. *)
Definition work_at (s : state) (p : Z) : Z :=
  match procs s !! p with
  | Some pr => match tables s !! p_fd pr with Some f => work (p_pc pr) (fd_nfiles f) | None => 0 end
  | None => 0
  end.

Definition in_kernel (s : state) (p : Z) : Prop := exists pr, procs s !! p = Some pr /\ p_pc pr <> User.

(** What the processes [ps] have left to do. *)
Fixpoint total (s : state) (ps : list Z) : Z := match ps with [] => 0 | p :: ps => work_at s p + total s ps end.

Lemma total_le s s' ps : (forall q, work_at s' q <= work_at s q) -> total s' ps <= total s ps.
Proof. intros H. induction ps as [|p ps IH]; simpl; [lia|]. specialize (H p). lia. Qed.

Lemma total_lt s s' ps p : (forall q, work_at s' q <= work_at s q) -> p ∈ ps -> work_at s' p < work_at s p -> total s' ps < total s ps.
Proof.
  intros H Hp Hlt. induction Hp as [p ps|p q ps Hp IH]; simpl.
  - pose proof (total_le s s' ps H). lia.
  - specialize (IH Hlt). specialize (H q). lia.
Qed.

Section Live.
Context (maxfiles LONG_MAX : Z).
Hypothesis maxfiles_range : 0 <= maxfiles <= 12800.
Hypothesis LONG_MAX_range : 2 ^ 31 - 1 <= LONG_MAX.
Implicit Types (s : state).

Notation here := (here maxfiles).
Notation ok := (ok maxfiles).
Notation moves := (moves maxfiles).
Notation step := (step maxfiles LONG_MAX).

Lemma here_size s p pr c f : here s p pr c f ->
  0 < fd_nfiles f <= 12800 /\ (c_dying c = None -> fd_lastfile f < fd_nfiles f).
Proof.
  intros H. pose proof (h_as H) as Has. unfold table_as in Has. destruct (c_dying c) as [[fpp i]|].
  - destruct Has as (_ & Hs & _). pose proof (size_facts _ Hs). by split; [lia|].
  - destruct Has as (_ & Hb & _). pose proof (size_facts _ (bm_size f Hb)). pose proof (bm_last0 f Hb). split; [lia|]. intros _. lia.
Qed.

Lemma work_at_here s p pr c f : here s p pr c f -> work_at s p = work (p_pc pr) (fd_nfiles f).
Proof. intros H. unfold work_at. by rewrite (h_proc H), (h_table H). Qed.

Lemma work_in_kernel s p : ok s -> 0 <= work_at s p /\ (0 < work_at s p <-> in_kernel s p).
Proof.
  intros Hok. destruct (procs s !! p) as [pr|] eqn:Hp.
  2: { unfold work_at, in_kernel. rewrite Hp. split; [lia|]. split; [lia|]. by intros (pr & ? & _). }
  destruct (here_of_ok Hok Hp) as [f H]. destruct (here_size _ _ _ _ _ H) as [Hn _]. rewrite (work_at_here _ _ _ _ _ H).
  assert (p_pc pr = User \/ p_pc pr <> User) as [E|E] by (destruct (p_pc pr); auto).
  - rewrite E. simpl. split; [lia|]. split; [lia|]. intros (pr' & Hp' & Hne). assert (pr' = pr) as -> by congruence. done.
  - pose proof (work_pos (p_pc pr) (fd_nfiles f) ltac:(lia) E). split; [lia|]. split; [intros _; by exists pr|lia].
Qed.

Lemma cont_bound k f : table_as (claim_cont k) f -> pc_args (After k 0) -> fd_nfiles f <= 12800 -> cont_work k (fd_nfiles f) <= 51201.
Proof.
  intros Has Hk Hn. destruct k as [r| |i|fd|fpp i]; simpl in *; unfold is_u in *; try lia.
  unfold table_as in Has. simpl in Has. destruct Has as (_ & _ & _ & Hf & Hfi & _). lia.
Qed.

Lemma work_bound s p : ok s -> work_at s p <= 51204.
Proof.
  intros Hok. destruct (procs s !! p) as [pr|] eqn:Hp; [|unfold work_at; rewrite Hp; lia].
  destruct (here_of_ok Hok Hp) as [f H]. destruct (here_size _ _ _ _ _ H) as [Hn _]. rewrite (work_at_here _ _ _ _ _ H).
  pose proof (h_args H p pr Hp) as Ha. pose proof (h_as H) as Has.
  assert (forall k, table_as (claim_cont k) f -> pc_args (After k 0) -> cont_work k (fd_nfiles f) <= 51201) as Hc.
  { intros k Hk Hka. apply cont_bound; [done|done|lia]. }
  destruct (p_pc pr) as [| | | | | | | | | | | | |[| |] fp k|k e]; simpl in *; unfold is_u in *; try lia;
    specialize (Hc k ltac:(by destruct k) ltac:(by destruct k)); lia.
Qed.

(** * A step *)

Lemma others_work s s' p pr f' : ok s -> procs s !! p = Some pr -> tables s' = <[p_fd pr := f']> (tables s) ->
  (exists pr', procs s' = <[p := pr']> (procs s)) -> forall q, q <> p -> work_at s' q = work_at s q.
Proof.
  intros [Hi _] Hp Et [pr' Ep] q Hq. unfold work_at. rewrite Ep, Et, lookup_insert_ne by done.
  destruct (procs s !! q) as [qr|] eqn:Eq; [|done]. rewrite lookup_insert_ne; [done|]. intros E. apply Hq. symmetry.
  by apply (ow_unshared _ _ _ _ _ (proj1 (proj2 Hi)) p q pr qr).
Qed.

Lemma step_work s l s' : ok s -> unshared l = true -> step l s = Some (Ret s') ->
  (forall q, q <> actor l -> work_at s' q = work_at s q) /\ (is_enter l = false -> work_at s' (actor l) < work_at s (actor l)).
Proof.
  intros Hok Hun Hm. destruct (step_actor _ _ _ _ _ Hm) as [pr Hp].
  destruct (step_acts _ _ maxfiles_range LONG_MAX_range _ _ _ _ Hok Hun Hp Hm) as [(q & how & El & Epc & Hf)|[[_ Hx]|(f & Hf & Hmv)] ].
  - rewrite El. split; [|done]. simpl. destruct Hf as (s2 & f & new & t & [= <-] & _ & _ & Et & Eq & Et' & Ep & _).
    intros q' Hq'. unfold work_at. rewrite Ep, Et', lookup_insert_ne by done. destruct (decide (q' = q)) as [->|Hne].
    + rewrite lookup_insert_eq, Eq. simpl. by rewrite lookup_insert_eq.
    + rewrite lookup_insert_ne by done. destruct (procs s !! q') as [qr|] eqn:E; [|done].
      destruct (here_of_ok Hok E) as [g Hg]. pose proof (h_table Hg). rewrite lookup_insert_ne; congruence.
  - destruct Hx as [(fpp & i & e & Epc & Hi) (s2 & [= <-] & _ & Et & Ep)]. split.
    + intros q Hq. unfold work_at. rewrite Ep, Et, lookup_delete_ne by done. destruct (procs s !! q) as [qr|] eqn:E; [|done].
      rewrite lookup_delete_ne; [done|]. intros E2. apply Hq. symmetry.
      by apply (ow_unshared _ _ _ _ _ (proj1 (proj2 (proj1 Hok))) _ q pr qr).
    + intros _. unfold work_at at 1. rewrite Ep, lookup_delete_eq. apply (work_in_kernel s (actor l) Hok).
      exists pr. by rewrite Epc.
  - destruct Hmv as (s2 & f' & pr' & [= <-] & _ & Et & Ep & Ef & He). split; [by eapply others_work; [..|exists pr'] |].
    intros Hen. destruct (here_of_ok Hok Hp) as [f0 H]. assert (f0 = f) as -> by (pose proof (h_table H); congruence).
    destruct (here_size _ _ _ _ _ H) as [Hn Hl]. rewrite (work_at_here _ _ _ _ _ H). unfold work_at.
    rewrite Ep, lookup_insert_eq, Et, Ef, lookup_insert_eq. by eapply effect_work.
Qed.

(** * Runs *)

(** The steps of [ls], one after another. *)
Fixpoint steps (ls : list label) s : option state :=
  match ls with
  | [] => Some s
  | l :: ls =>
      if unshared l then match step l s with Some (Ret s') => steps ls s' | _ => None end else None
  end.

(** The steps of [ls] that [p] takes. *)
Fixpoint taken (p : Z) (ls : list label) : Z :=
  match ls with [] => 0 | l :: ls => (if actor l =? p then 1 else 0) + taken p ls end.

Lemma steps_ok ls : forall s s', ok s -> steps ls s = Some s' -> ok s'.
Proof.
  induction ls as [|l ls IH]; intros s s' Hok E; simpl in E; [congruence|]. destruct (unshared l) eqn:Hun; [|done].
  destruct (step l s) as [[s1| | |]|] eqn:Es; try done. destruct (step_ok _ _ maxfiles_range LONG_MAX_range _ _ _ Hok Hun Es) as (s2 & [= <-] & Hok'). eauto.
Qed.

Lemma steps_work ls : forall s s' p, ok s -> steps ls s = Some s' -> (forall c, Enter p c ∉ ls) ->
  taken p ls + work_at s' p <= work_at s p.
Proof.
  induction ls as [|l ls IH]; intros s s' p Hok E Hen; simpl in E; [injection E as <-; simpl; lia|].
  destruct (unshared l) eqn:Hun; [|done]. destruct (step l s) as [[s1| | |]|] eqn:Es; try done.
  destruct (step_ok _ _ maxfiles_range LONG_MAX_range _ _ _ Hok Hun Es) as (s2 & [= <-] & Hok').
  specialize (IH s1 s' p Hok' E ltac:(intros c Hc; by apply (Hen c), elem_of_cons; right)).
  destruct (step_work s l s1 Hok Hun Es) as [Hoth Hown]. simpl. destruct (Z.eqb_spec (actor l) p) as [Hp|Hp].
  - assert (is_enter l = false) as Hl. { destruct l as [q c| | | |]; try done. simpl in Hp. subst. exfalso. apply (Hen c). by left. }
    specialize (Hown Hl). subst. simpl. lia.
  - rewrite <- (Hoth p) by done. lia.
Qed.

(** * Waiting *)

(** A label under which a process goes on. *)
Definition goes (s : state) (p : Z) : Prop :=
  exists l m, actor l = p /\ is_enter l = false /\ unshared l = true /\ step l s = Some m.

(** The lock of a table that is not shared is free, unless its process has it. *)
Lemma lock_free s p pr : ok s -> procs s !! p = Some pr -> c_lock (claim_of (p_pc pr)) = false -> locks s !! p_fd pr = None.
Proof.
  intros [(_ & Ho & _) _] Hp Hc. destruct (locks s !! p_fd pr) as [q|] eqn:E; [|done].
  destruct (ow_locked _ _ _ _ _ Ho _ _ E) as (qr & c & Hq & Et & Hcq & Hl).
  assert (p = q) as <- by (by apply (ow_unshared _ _ _ _ _ Ho p q pr qr)). unfold claims in Hcq. rewrite lookup_fmap, Hp in Hcq.
  simpl in Hcq. congruence.
Qed.

Lemma can_go s p pr : ok s -> procs s !! p = Some pr -> p_pc pr <> User -> goes s p.
Proof.
  intros Hok Hp Hne. pose proof (lock_free s p pr Hok Hp) as Hlk. destruct (proj1 Hok) as (_ & _ & _ & _ & Hq). set (a := fresh (dom (files s))).
  assert (files s !! a = None) as Ha by (apply not_elem_of_dom, is_fresh).
  assert (forall l m, actor l = p -> is_enter l = false -> unshared l = true -> step l s = Some m -> goes s p) as Hgo by (intros l m; by exists l, m).
  assert (forall m, c_lock (claim_of (p_pc pr)) = false -> locked maxfiles LONG_MAX p pr a (fdplock p (p_fd pr) s) = Some m ->
    (if bool_decide (locks s !! p_fd pr = None) && bool_decide (files s !! a = None)
      then locked maxfiles LONG_MAX p pr a (fdplock p (p_fd pr) s) else None) = Some m) as Hl.
  { intros m Hc Hm. by rewrite !bool_decide_eq_true_2 by auto. }
  destruct (p_pc pr) as [| | | | | | | | | | | | |[| |] fp k|k e] eqn:Epc; try done.
  all: first [eapply (Hgo (Go p a)); [done..|cbn [Files.step]; rewrite Hp, Epc; apply Hl; [done|unfold locked; by rewrite Epc] ]
    | eapply (Hgo (Go p a)); [done..|cbn [Files.step]; rewrite Hp, Epc; done]
    | eapply (Hgo (Go p a)); [done..|cbn [Files.step]; rewrite Hp, Epc, Hq; done]
    | eapply (Hgo (VnAnswer p VnOpen)); [done..|cbn [Files.step]; rewrite Hp, Epc; done]
    | eapply (Hgo (Answer p 0)); [done..|cbn [Files.step]; rewrite Hp, Epc; done]
    | eapply (Hgo (Used p (Fd 0))); [done..|cbn [Files.step]; rewrite Hp, Epc; done] ].
Qed.

Lemma no_deadlock s p : ok s -> in_kernel s p -> goes s p.
Proof. intros Hok (pr & Hp & Hne). by eapply can_go. Qed.

(** * All calls come to their end *)

Lemma calls_total_nonneg s ps : ok s -> 0 <= total s ps.
Proof. intros Hok. induction ps as [|p ps IH]; simpl; [lia|]. pose proof (work_in_kernel s p Hok). lia. Qed.

Lemma in_kernel_dec s ps : Forall (fun p => ~ in_kernel s p) ps \/ exists p, p ∈ ps /\ in_kernel s p.
Proof.
  induction ps as [|p ps [IH|(q & Hq & Hk)] ]; [by left| |right; exists q; split; [by right|done] ].
  destruct (procs s !! p) as [pr|] eqn:E; [|left; constructor; [by intros (pr & ? & _); congruence|done] ].
  assert (p_pc pr = User \/ p_pc pr <> User) as [Hu|Hu] by (destruct (p_pc pr); auto).
  - left. constructor; [|done]. intros (pr' & E' & Hn). congruence.
  - right. exists p. split; [by left|by exists pr].
Qed.

Lemma finish_all ps n : forall s, ok s -> (forall p, in_kernel s p -> p ∈ ps) -> total s ps <= Z.of_nat n ->
  exists ls s', steps ls s = Some s' /\ (forall p c, Enter p c ∉ ls) /\ forall p, ~ in_kernel s' p.
Proof.
  induction n as [|n IH]; intros s Hok Hps Hn; (destruct (in_kernel_dec s ps) as [Hno|(p & Hp & Hk)];
    [exists [], s; conj; [done|intros ? ? ?%elem_of_nil; done|]; intros p Hk; by eapply Forall_forall in Hno; [|by apply Hps] |]).
  all: destruct (no_deadlock s p Hok Hk) as (l & m & Hl & He & Hun & Hm).
  all: destruct (step_ok _ _ maxfiles_range LONG_MAX_range _ _ _ Hok Hun Hm) as (s1 & -> & Hok1).
  all: destruct (step_work s l s1 Hok Hun Hm) as [Hoth Hown]; specialize (Hown He); rewrite Hl in *.
  all: assert (forall q, work_at s1 q <= work_at s q) as Hle by
    (intros q'; destruct (decide (q' = p)) as [->|]; [lia|rewrite Hoth by done; lia]).
  all: pose proof (total_lt s s1 ps p Hle (Hps p Hk) Hown); pose proof (calls_total_nonneg s1 ps Hok1).
  { lia. }
  destruct (IH s1 Hok1) as (ls & s2 & Hs & Hen & Hend); [|lia|].
  - intros r Hr. apply (work_in_kernel s1 r Hok1) in Hr. apply Hps. apply (work_in_kernel s r Hok). specialize (Hle r). lia.
  - exists (l :: ls), s2. simpl. rewrite Hun, Hm. split; [done|]. split; [|done].
    intros r c [<-|Hr]%elem_of_cons; [done|by apply (Hen r c)].
Qed.

(** Nor does it take the steps of others. *)
Lemma finish_alone n : forall s p, ok s -> work_at s p <= Z.of_nat n ->
  exists ls s', steps ls s = Some s' /\ Forall (fun l => actor l = p /\ is_enter l = false) ls /\ ~ in_kernel s' p.
Proof.
  induction n as [|n IH]; intros s p Hok Hn; pose proof (work_in_kernel s p Hok) as [Hw0 Hw].
  { exists [], s. conj; try done. rewrite <- Hw. lia. }
  destruct (decide (0 < work_at s p)) as [Hk|Hk]; [|exists [], s; conj; try done; by rewrite <- Hw].
  destruct (no_deadlock s p Hok (proj1 Hw Hk)) as (l & m & Hl & He & Hun & Hm).
  destruct (step_ok _ _ maxfiles_range LONG_MAX_range _ _ _ Hok Hun Hm) as (s1 & -> & Hok1).
  destruct (step_work s l s1 Hok Hun Hm) as [_ Hown]. specialize (Hown He). rewrite Hl in Hown.
  destruct (IH s1 p Hok1 ltac:(lia)) as (ls & s2 & Hs & Hall & Hend). exists (l :: ls), s2. simpl. rewrite Hun, Hm. conj; try done. by constructor.
Qed.

Lemma calls_complete s : ok s ->
  exists ls s', steps ls s = Some s' /\ (forall p c, Enter p c ∉ ls) /\ forall p, ~ in_kernel s' p.
Proof.
  intros Hok. eapply (finish_all (elements (dom (procs s))) (Z.to_nat (total s (elements (dom (procs s)))))); [done| |lia].
  intros p (pr & E & _). apply elem_of_elements, elem_of_dom. by eexists.
Qed.
End Live.
