(* ===== verification/FdSpec.v ===== *)
(** * The theorems on file descriptors *)

From stdpp Require Import gmap sets.
From S2P Require Import Prelude Libkern Filedesc FdMap FdTable FdAlloc MapSum Files FdInv FdBooks FdOwn FdOps FdCalls FdDup FdOpen FdFork FdSteps FdEffect FdLive.

(** The descriptors of a process that has gone on to the end of [exit]. *)
Lemma exit_empty c f fpp i j : c = dying fpp i -> i < 0 -> table_as c f -> 0 <= j -> slot f j = None.
Proof.
  intros -> Hi Has Hj. unfold table_as in Has. simpl in Has. destruct Has as (_ & _ & Hlen & _ & _ & Hnone).
  destruct (decide (j < fd_nfiles f)); [apply Hnone; lia|]. unfold slot. apply nth_overflow. lia.
Qed.

Section Spec.
Context (maxfiles LONG_MAX : Z).
Implicit Types (s : state).

(** The system's limit is one that tables can grow to, and [long] has 32 bits
    at least. *)
Definition limits : Prop := 0 <= maxfiles <= 12800 /\ 2 ^ 31 - 1 <= LONG_MAX.

(** C2. As long as no table is shared, whatever the processes call and in
    whatever order their calls go on, no step panics, follows a pointer to
    something freed or runs past the end of an array.  [f_count] is the number of
    descriptors that hold the file and of calls about to drop one,
    [f_usecount] the number of calls that use it, every descriptor holds a
    file that exists, [nfiles] is the number of files, and the table of a
    process in user mode is right: bitmaps, hints and files agree. *)
Theorem fd_safe s : limits -> reachable maxfiles LONG_MAX s ->
  (forall l m, unshared l = true -> step maxfiles LONG_MAX l s = Some m -> exists s', m = Ret s') /\
  nfiles s = Z.of_nat (size (files s)) /\ nfiles s <= maxfiles /\
  (forall a g, files s !! a = Some g ->
    f_count g = slots (tables s) a + tally c_drops (claims (procs s)) a /\
    f_usecount g = tally c_refs (claims (procs s)) a) /\
  (forall p pr, procs s !! p = Some pr -> exists f, tables s !! p_fd pr = Some f /\
    (forall fd a, 0 <= fd -> slot f fd = Some a -> is_Some (files s !! a)) /\
    (p_pc pr = User -> table_ok f)).
Proof.
  intros [Hm HL] Hr. pose proof (fd_reachable_ok _ _ Hm HL s Hr) as Hok. pose proof Hok as [(Hb & Ho & Hn & Hle & _) Ha].
  conj; try done.
  - intros l m Hun E. destruct (step_ok _ _ Hm HL s l m Hok Hun E) as (s' & -> & _). by exists s'.
  - intros a g Hg. specialize (Hb a). rewrite Hg in Hb. destruct Hb as (? & ? & _). done.
  - intros p pr Hp. destruct (here_of_ok Hok Hp) as [f H]. exists f. split; [apply (h_table H)|]. split.
    + intros fd a Hfd E. destruct (slot_live fd a H Hfd E) as (g & -> & _). by eexists.
    + intros E. rewrite E in H. by eapply here_idle.
Qed.

(** C38. As long as no table is shared and the system allows no more than 12800
    files, the counts stay in their types: [f_count] never comes near
    [LONG_MAX - 2], so that no call ever fails with [EDEADLK] for it, and
    [f_usecount] fits an [int] with room to spare.  A table has one of the
    ten sizes 20, 50, 100, 200, ..., 12800, and its arrays have that size. *)
Theorem fd_bounds s : limits -> reachable maxfiles LONG_MAX s ->
  (forall a g, files s !! a = Some g -> 0 <= f_count g < LONG_MAX - 2 - 12800 /\ 0 <= f_usecount g <= 65534) /\
  (forall t f, tables s !! t = Some f -> In (fd_nfiles f) fd_sizes /\ Z.of_nat (length (fd_ofiles f)) = fd_nfiles f).
Proof.
  intros [Hm HL] Hr. pose proof (fd_reachable_ok _ _ Hm HL s Hr) as Hok. split.
  - intros a g Hg. pose proof (count_bound _ _ HL s _ a g (proj1 Hok) Hg). pose proof (usecount_bound _ s _ a g (proj1 Hok) Hg). lia.
  - intros t f Ht. destruct (ow_owner _ _ _ _ _ (proj1 (proj2 (proj1 Hok))) t f Ht) as (p & pr & Hp & <-).
    destruct (here_of_ok Hok Hp) as [g H]. assert (g = f) as -> by (pose proof (h_table H); congruence).
    pose proof (h_as H) as Has. unfold table_as in Has. destruct (c_dying _) as [[fpp i]|].
    + by destruct Has as (_ & ? & ? & _).
    + destruct Has as (_ & Hb & _). split; apply Hb.
Qed.

(** C5. What the calls do, as long as no table is shared and the system allows
    no more than 12800 files.  A step changes the process that takes it and its
    table, and nothing of any other process.  What it does to them is given by
    [effect], call by call: [dup] and [F_DUPFD] take the least free descriptor
    from the one asked for, or fail when all below the limit are taken; [dup2]
    and [close] change one descriptor; [open], [socket] and [kqueue] take the
    least free one; [closefrom] and [exec] close the descriptors in turn.  A
    new process has a copy of the descriptors, without the kqueues when the
    table has had a kqueue ([fd_knlistsize] is not -1), or it has none.  When a
    process is gone all its descriptors have been closed. *)
Theorem fd_calls_refine s l s' : limits -> reachable maxfiles LONG_MAX s -> unshared l = true ->
  step maxfiles LONG_MAX l s = Some (Ret s') ->
  (forall q qr, q <> actor l -> procs s !! q = Some qr ->
    procs s' !! q = Some qr /\ tables s' !! p_fd qr = tables s !! p_fd qr) /\
  exists pr f, procs s !! actor l = Some pr /\ tables s !! p_fd pr = Some f /\
  ((exists f' pr', procs s' !! actor l = Some pr' /\ tables s' !! p_fd pr' = Some f' /\ effect l pr f f' pr') \/
   (exists q how pr' qr new, l = Enter (actor l) (SFork q how) /\ procs s' !! actor l = Some pr' /\ p_pc pr' = User /\
     tables s' !! p_fd pr' = Some f /\ procs s' !! q = Some qr /\ p_pc qr = User /\ tables s' !! p_fd qr = Some new /\
     forked (files s) f how new) \/
   (procs s' !! actor l = None /\ tables s' !! p_fd pr = None /\ forall j, 0 <= j -> slot f j = None)).
Proof.
  intros [Hm HL] Hr Hun E. pose proof (fd_reachable_ok _ _ Hm HL s Hr) as Hok. destruct (step_actor _ _ _ _ _ E) as [pr Hp].
  destruct (here_of_ok Hok Hp) as [f H]. pose proof (h_table H) as Hf. pose proof (ow_unshared _ _ _ _ _ (proj1 (proj2 (proj1 Hok)))) as Hsh.
  destruct (step_acts _ _ Hm HL s l pr _ Hok Hun Hp E) as [(q & how & El & Epc & Hfk)|[[_ Hx]|(f0 & Hf0 & Hmv)] ].
  - destruct Hfk as (s2 & f1 & new & t & [= <-] & _ & Ef1 & Et & Eq & Et' & Ep & Hfo). assert (f1 = f) as -> by congruence.
    assert (q <> actor l) as Hne by congruence. split.
    + intros q' qr Hq Eq'. assert (q' <> q) by congruence. destruct (here_of_ok Hok Eq') as [g Hg]. pose proof (h_table Hg).
      rewrite Ep, !lookup_insert_ne, Et', lookup_insert_ne by congruence. done.
    + exists pr, f. split; [done|]. split; [done|]. right. left.
      exists q, how, (set_ret (Fd q) (set_pc User pr)), (Proc t (p_rlim_nofile pr) false User (Fd 0)), new.
      rewrite Ep, Et'. conj; try done; [apply lookup_insert_eq|simpl; by rewrite lookup_insert_ne by congruence| |apply lookup_insert_eq].
      by rewrite lookup_insert_ne, lookup_insert_eq.
  - destruct Hx as [(fpp & i & e & Epc & Hi) (s2 & [= <-] & _ & Et & Ep)]. rewrite Ep, Et. split.
    + intros q qr Hq Eq. rewrite !lookup_delete_ne by naive_solver. done.
    + exists pr, f. split; [done|]. split; [done|]. right. right. rewrite !lookup_delete_eq. split; [done|]. split; [done|].
      intros j Hj. eapply exit_empty; [|exact Hi|apply (h_as H)|done]. by rewrite Epc.
  - destruct Hmv as (s2 & f' & pr' & [= <-] & _ & Et & Ep & Ef & He). assert (f0 = f) as -> by congruence. rewrite Ep, Et. split.
    + intros q qr Hq Eq. rewrite !lookup_insert_ne by naive_solver. done.
    + exists pr, f. split; [done|]. split; [done|]. left. exists f', pr'. by rewrite Ef, !lookup_insert_eq.
Qed.

(** C20. As long as no table is shared, a call comes to its end after a bounded
    number of its own steps, however the others interleave: in any run in which
    no table becomes shared and [p] makes no new call,
    the steps that [p] takes and those it has left are at most those it had
    left, which are at most 51204; and it has none left exactly when it runs in
    user mode or is gone. *)
Theorem fd_calls_terminate s ls s' p : limits -> reachable maxfiles LONG_MAX s ->
  steps maxfiles LONG_MAX ls s = Some s' -> (forall c, Enter p c ∉ ls) ->
  taken p ls + work_at s' p <= work_at s p /\ work_at s p <= 51204 /\ 0 <= work_at s' p /\ (0 < work_at s' p <-> in_kernel s' p).
Proof.
  intros [Hm HL] Hr Hs Hen. pose proof (fd_reachable_ok _ _ Hm HL s Hr) as Hok. pose proof (steps_ok _ _ Hm HL ls s s' Hok Hs) as Hok'.
  split; [by eapply steps_work|]. split; [by eapply work_bound|]. by eapply work_in_kernel.
Qed.

(** C19. As long as no table is shared, no call waits for another process:
    nobody is ever asleep in [closef], since nobody else can be using a file
    whose last reference goes, and a process in the kernel can always take a
    step.  Its call can be brought to its end by its own steps alone, whatever
    the others are doing; and all calls can be brought to their end. *)
Theorem fd_no_deadlock s : limits -> reachable maxfiles LONG_MAX s ->
  (forall p, slpque s !! p = None) /\
  (forall p, in_kernel s p -> goes maxfiles LONG_MAX s p) /\
  (forall p, exists ls s', steps maxfiles LONG_MAX ls s = Some s' /\
    Forall (fun l => actor l = p /\ is_enter l = false) ls /\ ~ in_kernel s' p) /\
  exists ls s', steps maxfiles LONG_MAX ls s = Some s' /\ (forall p c, Enter p c ∉ ls) /\ forall p, ~ in_kernel s' p.
Proof.
  intros [Hm HL] Hr. pose proof (fd_reachable_ok _ _ Hm HL s Hr) as Hok. conj.
  - intros p. destruct (proj1 Hok) as (_ & _ & _ & _ & ->). apply lookup_empty.
  - intros p Hk. by eapply no_deadlock.
  - intros p. by eapply (finish_alone _ _ Hm HL (Z.to_nat (work_at s p))); [|lia].
  - by eapply calls_complete.
Qed.
End Spec.

(** C28. [fdalloc] takes the least free descriptor that is not below [want],
    and marks it; when there is none in the table below the limit it says
    whether the table may grow, and leaves the table as it is. *)
Theorem fdalloc_lowest f rlim maxfiles want :
  table_ok f -> 0 <= rlim <= maxfiles -> maxfiles <= 12800 -> 0 <= want ->
  exists r f', fdalloc rlim maxfiles f want = Ret (r, f') /\
  match r with
  | Fd z =>
      want <= z < Z.min (fd_nfiles f) rlim /\ slot f z = None /\ (forall j, want <= j < z -> is_Some (slot f j)) /\
      bitmaps f' /\ mark f z true f' /\ same_files f f'
  | Err e =>
      f' = f /\ (forall j, want <= j < Z.min (fd_nfiles f) rlim -> is_Some (slot f j)) /\
      e = if rlim <=? fd_nfiles f then EMFILE else ENOSPC
  end.
Proof.
  intros Hok Hr Hm Hw. pose proof (proj2 Hok) as Ha.
  destruct (fdalloc_cases f rlim maxfiles want Hok Hr Hm Hw) as [(z & f1 & E & Hz & [Hzu Hzl] & Hb & Hmk & Hs)|[Hall Hc]].
  - exists (Fd z), f1. conj; try done; try lia.
    + rewrite Ha in Hzu by lia. destruct (slot f z); [|done]. by rewrite bool_decide_eq_true_2 in Hzu.
    + intros j Hj. eapply agrees_some; [done|lia|by apply Hzl].
  - assert (forall j, want <= j < Z.min (fd_nfiles f) rlim -> is_Some (slot f j)) as Hsl.
    { intros j Hj. eapply agrees_some; [done|lia|by apply Hall]. }
    destruct Hc as [[E Hle]|[E Hlt]]; eexists _, f; (split; [exact E|]); conj; try done.
    + by rewrite (proj2 (Z.leb_le rlim (fd_nfiles f))).
    + by rewrite (proj2 (Z.leb_gt rlim (fd_nfiles f))).
Qed.

(** * What goes wrong *)

(** Runs that may share tables. *)
Fixpoint any_steps (ls : list label) (s : state) : option (outcome state) :=
  match ls with
  | [] => Some (Ret s)
  | l :: ls =>
      match step 1000 2147483647 l s with
      | Some (Ret s') => any_steps ls s'
      | x => x
      end
  end.

Definition blocked (s : state) (p : Z) : bool :=
  match procs s !! p with
  | Some pr =>
      match p_pc pr with
      | DupLock _ _ => bool_decide (is_Some (locks s !! p_fd pr))
      | Closef Draining _ _ => bool_decide (is_Some (slpque s !! p))
      | _ => false
      end
  | None => false
  end.

Lemma blocked_waits s p l : blocked s p = true -> actor l = p -> step 1000 2147483647 l s = None.
Proof.
  unfold blocked. intros Hb Hl. destruct l as [q c|q a|q r|q e|q r]; simpl in Hl; subst q; cbn [step];
    destruct (procs s !! p) as [pr|]; try done; destruct (p_pc pr) as [| | | | | | | | | | | | |[| |] fp k|k e'] eqn:E; try done.
  - apply bool_decide_eq_true in Hb as [q Eq]. by rewrite Eq.
  - apply bool_decide_eq_true in Hb as [b Eb]. by rewrite Eb.
Qed.

(** Process 1 opens a file and forks a child with a copy of its table, then two
    that share it. *)
Definition shared_table : list label :=
  [Enter 1 (SOpen 0); Go 1 100; VnAnswer 1 VnOpen; Enter 1 (SFork 4 (CopyFiles 7));
   Enter 1 (SFork 2 ShareFiles); Enter 1 (SFork 3 ShareFiles)].

(** While 3 holds the lock, 1 calls [dup] and 2 [close] of the only descriptor. *)
Definition dup_close : list label :=
  shared_table ++
  [Enter 4 (SClose 0); Go 4 0; Go 4 0; Enter 3 (SOpen 0); Go 3 101; Enter 1 (SDup 0); Enter 2 (SClose 0);
   VnAnswer 3 VnOpen; Go 2 0].

(** The child with the copy closes its descriptor while 1 is in [dup]. *)
Definition close_dup : list label :=
  shared_table ++
  [Enter 3 (SOpen 0); Go 3 101; Enter 1 (SDup 0); Enter 2 (SClose 0); VnAnswer 3 VnOpen; Go 2 0; Go 2 0;
   Enter 4 (SClose 0); Go 4 0; Go 1 0; Go 4 0; Answer 4 0].

Definition final (ls : list label) : state := match any_steps ls (boot 1 0 128) with Some (Ret s) => s | _ => boot 1 0 128 end.

(** C39. Two runs with a shared table.  At the end of the first, [dup] and
    [close] wait for each other and neither process can take a step:
    [sys_dup] uses the file before it asks for the lock, and [sys_close] sleeps
    until the uses end, with the lock held.  The wakeup could only come from the
    call that waits for the lock.  In the second the same overlap lets [dup]
    revive a file that another process is closing, and the kernel panics. *)
Theorem fd_shared_races :
  (any_steps dup_close (boot 1 0 128) = Some (Ret (final dup_close)) /\
   p_pc <$> procs (final dup_close) !! 1 = Some (DupLock 100 0) /\ locks (final dup_close) !! 0 = Some 2 /\
   p_pc <$> procs (final dup_close) !! 2 = Some (Closef Draining 100 KClose) /\ slpque (final dup_close) !! 2 = Some 100 /\
   f_usecount <$> files (final dup_close) !! 100 = Some 2 /\
   forall l, actor l = 1 \/ actor l = 2 -> step 1000 2147483647 l (final dup_close) = None) /\
  any_steps close_dup (boot 1 0 128) = Some (Panic "closef: count: %d/%d").
Proof.
  split; [|by vm_compute]. do 6 (split; [by vm_compute|]).
  intros l [Hl|Hl]; (eapply blocked_waits; [|exact Hl]); by vm_compute.
Qed.

(** [fdcopy] drops the kqueues with [fdremove], which leaves their flags:
    the next file that the child opens there is marked close-on-exec. *)
Theorem fdcopy_leaks_exclose :
  p_ret <$> procs (final [Enter 1 (SKqueue 50); Enter 1 (SSetfd 0 1); Enter 1 (SFork 2 (CopyFiles 9));
    Enter 2 (SOpen 0); Go 2 60; VnAnswer 2 VnOpen; Enter 2 (SGetfd 0)]) !! 2 = Some (Fd 1).
Proof. by vm_compute. Qed.

(** [find_next_zero] takes the size of the bitmap for [NDLOSLOTS] words:
    in a full table of 25600 descriptors it reads past the end of the map. *)
Theorem find_next_zero_overruns :
  NDHISLOTS 25600 = 25 /\ find_next_zero (replicate 25 ALLONES) 0 0 (NDREDUCE 25600) = Fault OutOfBounds.
Proof. by vm_compute. Qed.

(** * Witnesses *)

Lemma fd_steps_reachable maxfiles LONG_MAX ls : forall s s', reachable maxfiles LONG_MAX s ->
  steps maxfiles LONG_MAX ls s = Some s' -> reachable maxfiles LONG_MAX s'.
Proof.
  induction ls as [|l ls IH]; intros s s' Hr E; simpl in E; [congruence|]. destruct (unshared l) eqn:Hun; [|done].
  destruct (step _ _ l s) as [[s1| | |]|] eqn:Es; try done. eapply IH; [|exact E]. by eapply reach_step.
Qed.

(** A process with a file, its child, and a [dup] under way. *)
Definition busy : list label :=
  [Enter 1 (SOpen 0); Go 1 100; VnAnswer 1 VnOpen; Enter 1 (SFork 2 (CopyFiles 7)); Enter 2 (SDup 0)].

Definition busy_state : state := default (boot 1 0 128) (steps 1000 2147483647 busy (boot 1 0 128)).

Lemma busy_reachable : reachable 1000 2147483647 busy_state.
Proof.
  apply (fd_steps_reachable 1000 2147483647 busy (boot 1 0 128)); [by apply reach_boot; vm_compute|]. by vm_compute.
Qed.

Lemma small_limits : limits 1000 2147483647.
Proof. by vm_compute. Qed.

Lemma fd_safe_witness :
  (forall l m, unshared l = true -> step 1000 2147483647 l busy_state = Some m -> exists s', m = Ret s') /\
  nfiles busy_state = Z.of_nat (size (files busy_state)) /\ nfiles busy_state <= 1000 /\
  (forall a g, files busy_state !! a = Some g ->
    f_count g = slots (tables busy_state) a + tally c_drops (claims (procs busy_state)) a /\
    f_usecount g = tally c_refs (claims (procs busy_state)) a) /\
  (forall p pr, procs busy_state !! p = Some pr -> exists f, tables busy_state !! p_fd pr = Some f /\
    (forall fd a, 0 <= fd -> slot f fd = Some a -> is_Some (files busy_state !! a)) /\
    (p_pc pr = User -> table_ok f)).
Proof. apply (fd_safe 1000 2147483647 busy_state small_limits busy_reachable). Defined.

Lemma fd_bounds_witness :
  (forall a g, files busy_state !! a = Some g -> 0 <= f_count g < 2147483647 - 2 - 12800 /\ 0 <= f_usecount g <= 65534) /\
  (forall t f, tables busy_state !! t = Some f -> In (fd_nfiles f) fd_sizes /\ Z.of_nat (length (fd_ofiles f)) = fd_nfiles f).
Proof. apply (fd_bounds 1000 2147483647 busy_state small_limits busy_reachable). Defined.

Definition dup_done : state := default (boot 1 0 128) (steps 1000 2147483647 [Go 2 200] busy_state).

Lemma fd_calls_refine_witness :
  (forall q qr, q <> 2 -> procs busy_state !! q = Some qr ->
    procs dup_done !! q = Some qr /\ tables dup_done !! p_fd qr = tables busy_state !! p_fd qr) /\
  exists pr f, procs busy_state !! 2 = Some pr /\ tables busy_state !! p_fd pr = Some f /\
  ((exists f' pr', procs dup_done !! 2 = Some pr' /\ tables dup_done !! p_fd pr' = Some f' /\ effect (Go 2 200) pr f f' pr') \/
   (exists q how pr' qr new, Go 2 200 = Enter 2 (SFork q how) /\ procs dup_done !! 2 = Some pr' /\ p_pc pr' = User /\
     tables dup_done !! p_fd pr' = Some f /\ procs dup_done !! q = Some qr /\ p_pc qr = User /\ tables dup_done !! p_fd qr = Some new /\
     forked (files busy_state) f how new) \/
   (procs dup_done !! 2 = None /\ tables dup_done !! p_fd pr = None /\ forall j, 0 <= j -> slot f j = None)).
Proof. apply (fd_calls_refine 1000 2147483647 busy_state (Go 2 200) dup_done small_limits busy_reachable); by vm_compute. Defined.

Lemma fd_calls_terminate_witness :
  taken 2 [Go 2 200] + work_at dup_done 2 <= work_at busy_state 2 /\ work_at busy_state 2 <= 51204 /\ 0 <= work_at dup_done 2 /\
  (0 < work_at dup_done 2 <-> in_kernel dup_done 2).
Proof.
  apply (fd_calls_terminate 1000 2147483647 busy_state [Go 2 200] dup_done 2 small_limits busy_reachable); [by vm_compute|].
  intros c [Hc|Hc%elem_of_nil]%elem_of_cons; done.
Defined.

Lemma fd_no_deadlock_witness :
  (forall p, slpque busy_state !! p = None) /\
  (forall p, in_kernel busy_state p -> goes 1000 2147483647 busy_state p) /\
  (forall p, exists ls s', steps 1000 2147483647 ls busy_state = Some s' /\
    Forall (fun l => actor l = p /\ is_enter l = false) ls /\ ~ in_kernel s' p) /\
  exists ls s', steps 1000 2147483647 ls busy_state = Some s' /\ (forall p c, Enter p c ∉ ls) /\ forall p, ~ in_kernel s' p.
Proof. apply (fd_no_deadlock 1000 2147483647 busy_state small_limits busy_reachable). Defined.

Lemma fdalloc_lowest_witness : exists r f', fdalloc 128 1000 fdinit 5 = Ret (r, f') /\
  match r with
  | Fd z =>
      5 <= z < Z.min (fd_nfiles fdinit) 128 /\ slot fdinit z = None /\ (forall j, 5 <= j < z -> is_Some (slot fdinit j)) /\
      bitmaps f' /\ mark fdinit z true f' /\ same_files fdinit f'
  | Err e =>
      f' = fdinit /\ (forall j, 5 <= j < Z.min (fd_nfiles fdinit) 128 -> is_Some (slot fdinit j)) /\
      e = if 128 <=? fd_nfiles fdinit then EMFILE else ENOSPC
  end.
Proof. apply (fdalloc_lowest fdinit 128 1000 5 fdinit_ok); lia. Defined.
