(* ===== verification/Sem.v ===== *)
(** * System V semaphores

    [kern/sysv_sem.c] with the structures of [sys/sem.h] and [sys/ipc.h], and
    the permission checks of [kern/sysv_ipc.c] and [kern/vfs_subr.c].  Sets and
    undo structures live in heaps by address, so that a pointer can outlive what
    it points to.  A call runs up to a point where it sleeps: the allocation in
    [semget], the copy of the operations and the wait for a semaphore in
    [semop].  Other processes run in between. *)

From stdpp Require Import gmap.
From S2P Require Import Prelude.

(** * Constants *)

Notation IPC_R := 256 (only parsing).
Notation IPC_W := 128 (only parsing).
Notation IPC_M := 4096 (only parsing).
Notation IPC_CREAT := 512 (only parsing).
Notation IPC_EXCL := 1024 (only parsing).
Notation IPC_NOWAIT := 2048 (only parsing).
Notation IPC_PRIVATE := 0 (only parsing).
Notation SEM_UNDO := 4096 (only parsing).
Notation SEMUME := 10 (only parsing).

Definition IPCID_TO_IX (id : Z) : Z := Z.land id 0xffff.
Definition IPCID_TO_SEQ (id : Z) : Z := Z.land (Z.shiftr id 16) 0xffff.
Definition IXSEQ_TO_IPCID (ix seq : Z) : Z := Z.lor (Z.shiftl seq 16) (Z.land ix 0xffff).

(** * Data *)

Record ipc_perm := Perm { cuid : Z; cgid : Z; uid : Z; gid : Z; mode : Z; seq : Z; key : Z }.

Record sem := Sem { semval : Z; sempid : Z; semncnt : Z; semzcnt : Z }.

Definition set_semval (x : Z) (s : sem) : sem := Sem x (sempid s) (semncnt s) (semzcnt s).
Definition set_sempid (x : Z) (s : sem) : sem := Sem (semval s) x (semncnt s) (semzcnt s).
Definition set_semncnt (x : Z) (s : sem) : sem := Sem (semval s) (sempid s) x (semzcnt s).
Definition set_semzcnt (x : Z) (s : sem) : sem := Sem (semval s) (sempid s) (semncnt s) x.

(** [sem_base] points to an array that is allocated and freed with the set. *)
Record semid_ds := Semid_ds {
  sem_perm : ipc_perm;
  sem_base : list sem;
  sem_nsems : Z;
  sem_otime : Z;
  sem_ctime : Z;
}.

Definition set_perm (x : ipc_perm) (d : semid_ds) : semid_ds := Semid_ds x (sem_base d) (sem_nsems d) (sem_otime d) (sem_ctime d).
Definition set_base (x : list sem) (d : semid_ds) : semid_ds := Semid_ds (sem_perm d) x (sem_nsems d) (sem_otime d) (sem_ctime d).
Definition set_otime (x : Z) (d : semid_ds) : semid_ds := Semid_ds (sem_perm d) (sem_base d) (sem_nsems d) x (sem_ctime d).
Definition set_ctime (x : Z) (d : semid_ds) : semid_ds := Semid_ds (sem_perm d) (sem_base d) (sem_nsems d) (sem_otime d) x.

Record sembuf := Sembuf { sem_num : Z; sem_op : Z; sem_flg : Z }.

Record undo := Undo { un_adjval : Z; un_num : Z; un_id : Z }.

(** [un_ent] has the active entries, so that [un_cnt] is its length. *)
Record sem_undo := Sem_undo { un_proc : Z; un_ent : list undo }.

Definition un_cnt (u : sem_undo) : Z := Z.of_nat (length (un_ent u)).

Record seminfo := Seminfo { semmni : Z; semmns : Z; semmnu : Z; semmsl : Z; semopm : Z }.

Record ucred := Ucred { cr_uid : Z; cr_gid : Z; cr_groups : list Z }.

(** * The state *)

Inductive result := Err (e : Z) | Val (v : Z).

(** Where a process is: in user mode, or asleep in [semget] for memory, in
    [semop] for its operations or for a semaphore.  The channel of the last is
    the address of an element of [sema]: the array and the index. *)
Inductive pc :=
| User
| GetAlloc (key nsems semflg : Z)
| Copyin (semid semaptr nsops : Z)
| Semwait (semid semaptr : Z) (sops : list sembuf) (i : Z) (do_undos : bool) (chan : Z * Z) (woken : bool).

Record sem_proc := Proc { p_ucred : ucred; p_pc : pc; p_ret : result }.

Record sem_state := State {
  info : seminfo;
  sema : list (option Z);
  sema_at : Z;
  semseqs : list Z;
  sets : gmap Z semid_ds;
  semtot : Z;
  semu_list : list Z;
  undos : gmap Z sem_undo;
  semutot : Z;
  procs : gmap Z sem_proc;
  time_second : Z;
}.

Definition set_info (x : seminfo) (s : sem_state) : sem_state :=
  State x (sema s) (sema_at s) (semseqs s) (sets s) (semtot s) (semu_list s) (undos s) (semutot s) (procs s) (time_second s).
Definition set_sema (x : list (option Z)) (s : sem_state) : sem_state :=
  State (info s) x (sema_at s) (semseqs s) (sets s) (semtot s) (semu_list s) (undos s) (semutot s) (procs s) (time_second s).
Definition set_sema_at (x : Z) (s : sem_state) : sem_state :=
  State (info s) (sema s) x (semseqs s) (sets s) (semtot s) (semu_list s) (undos s) (semutot s) (procs s) (time_second s).
Definition set_semseqs (x : list Z) (s : sem_state) : sem_state :=
  State (info s) (sema s) (sema_at s) x (sets s) (semtot s) (semu_list s) (undos s) (semutot s) (procs s) (time_second s).
Definition set_sets (x : gmap Z semid_ds) (s : sem_state) : sem_state :=
  State (info s) (sema s) (sema_at s) (semseqs s) x (semtot s) (semu_list s) (undos s) (semutot s) (procs s) (time_second s).
Definition set_semtot (x : Z) (s : sem_state) : sem_state :=
  State (info s) (sema s) (sema_at s) (semseqs s) (sets s) x (semu_list s) (undos s) (semutot s) (procs s) (time_second s).
Definition set_undos (l : list Z) (x : gmap Z sem_undo) (n : Z) (s : sem_state) : sem_state :=
  State (info s) (sema s) (sema_at s) (semseqs s) (sets s) (semtot s) l x n (procs s) (time_second s).
Definition set_procs (x : gmap Z sem_proc) (s : sem_state) : sem_state :=
  State (info s) (sema s) (sema_at s) (semseqs s) (sets s) (semtot s) (semu_list s) (undos s) (semutot s) x (time_second s).
Definition set_time (x : Z) (s : sem_state) : sem_state :=
  State (info s) (sema s) (sema_at s) (semseqs s) (sets s) (semtot s) (semu_list s) (undos s) (semutot s) (procs s) x.

(** Following a pointer to something that has been freed is a fault. *)
Definition deref {A} (m : gmap Z A) (a : Z) : outcome A :=
  match m !! a with Some x => Ret x | None => Fault UseAfterFree end.

Definition put_set (a : Z) (d : semid_ds) (s : sem_state) : sem_state := set_sets (<[a := d]> (sets s)) s.

(** Process [p] sleeps at [x], or returns to user mode with [r]. *)
Definition goto (p : Z) (x : pc) (s : sem_state) : outcome sem_state :=
  let! pr := deref (procs s) p in Ret (set_procs (<[p := Proc (p_ucred pr) x (p_ret pr)]> (procs s)) s).
Definition leave (p : Z) (r : result) (s : sem_state) : outcome sem_state :=
  let! pr := deref (procs s) p in Ret (set_procs (<[p := Proc (p_ucred pr) User r]> (procs s)) s).

(** [wakeup(&sema[ix])]. *)
Definition roused (chan : Z * Z) (pr : sem_proc) : sem_proc :=
  match p_pc pr with
  | Semwait semid a sops i d c w => Proc (p_ucred pr) (Semwait semid a sops i d c (w || bool_decide (c = chan))) (p_ret pr)
  | _ => pr
  end.
Definition sem_wakeup (ix : Z) (s : sem_state) : sem_state := set_procs (roused (sema_at s, ix) <$> procs s) s.

(** * Permissions *)

Notation VREAD := 256 (only parsing).
Notation VWRITE := 128 (only parsing).
Notation VEXEC := 64 (only parsing).

Definition groupmember (gid : Z) (cred : ucred) : bool := bool_decide (gid ∈ cr_groups cred).

(** The bits of one class of users: [x], [r] and [w] are its permissions. *)
Definition access_mask (acc_mode x r w : Z) : Z :=
  let mask := if flag acc_mode VEXEC then x else 0 in
  let mask := if flag acc_mode VREAD then Z.lor mask r else mask in
  if flag acc_mode VWRITE then Z.lor mask w else mask.

Definition vaccess (dir : bool) (file_mode uid gid acc_mode : Z) (cred : ucred) : Z :=
  let check mask := if Z.land file_mode mask =? mask then 0 else EACCES in
  if cr_uid cred =? 0 then
    if flag acc_mode VEXEC && negb dir && negb (flag file_mode 73) then EACCES else 0
  else if cr_uid cred =? uid then check (access_mask acc_mode 64 256 128)
  else if (cr_gid cred =? gid) || groupmember gid cred then check (access_mask acc_mode 8 32 16)
  else check (access_mask acc_mode 1 4 2).

Definition ipcperm (cred : ucred) (perm : ipc_perm) (m : Z) : Z :=
  if m =? IPC_M then
    if (cr_uid cred =? 0) || (cr_uid cred =? uid perm) || (cr_uid cred =? cuid perm) then 0 else EPERM
  else if (vaccess false (mode perm) (uid perm) (gid perm) m cred =? 0) || (vaccess false (mode perm) (cuid perm) (cgid perm) m cred =? 0)
  then 0 else EACCES.

(** * Undo structures *)

(** [SLIST_FOREACH(suptr, &semu_list, un_next) if (suptr->un_proc == p) break]. *)
Fixpoint find_undo (us : gmap Z sem_undo) (p : Z) (l : list Z) : outcome (option Z) :=
  match l with
  | [] => Ret None
  | u :: l => let! x := deref us u in if un_proc x =? p then Ret (Some u) else find_undo us p l
  end.

(** [SLIST_REMOVE]: it follows the links until it finds the element. *)
Fixpoint slist_remove (u : Z) (l : list Z) : outcome (list Z) :=
  match l with
  | [] => Fault NullDeref
  | v :: l => if v =? u then Ret l else let! l := slist_remove u l in Ret (v :: l)
  end.

(** [pool_get] finds memory without waiting, at the address [u]. *)
Definition semu_alloc (p u : Z) (s : sem_state) : option sem_state :=
  if semutot s =? semmnu (info s) then None
  else Some (set_undos (u :: semu_list s) (<[u := Sem_undo p []]> (undos s)) (semutot s + 1) s).

(** The entry for a semaphore, if there is one. *)
Fixpoint find_entry (semid semnum : Z) (l : list undo) (i : nat) : option (nat * undo) :=
  match l with
  | [] => None
  | e :: l => if negb (un_id e =? semid) || negb (un_num e =? semnum) then find_entry semid semnum l (S i) else Some (i, e)
  end.

(** Entry [i] is dropped: the last one takes its place. *)
Definition drop_entry (i : nat) (l : list undo) : list undo :=
  match last l with
  | Some e => let l := take (length l - 1) l in if decide (i < length l)%nat then <[i := e]> l else l
  | None => l
  end.

Definition semundo_entry (suptr semid semnum adjval : Z) (s : sem_state) : outcome (Z * sem_state) :=
  let! x := deref (undos s) suptr in
  let put ent := set_undos (semu_list s) (<[suptr := Sem_undo (un_proc x) ent]> (undos s)) (semutot s) s in
  match find_entry semid semnum (un_ent x) 0 with
  | Some (i, e) =>
      let adj := if adjval =? 0 then 0 else s16 (un_adjval e + adjval) in
      if negb (adj =? 0) then Ret (0, put (<[i := Undo adj (un_num e) (un_id e)]> (un_ent x)))
      else if un_cnt x - 1 =? 0 then
        let! l := slist_remove suptr (semu_list s) in
        Ret (0, set_undos l (delete suptr (undos s)) (semutot s - 1) s)
      else Ret (0, put (drop_entry i (un_ent x)))
  | None =>
      if adjval =? 0 then Ret (0, s)
      else if un_cnt x =? SEMUME then Ret (EINVAL, s)
      else Ret (0, put (un_ent x ++ [Undo (s16 adjval) (s16 semnum) semid]))
  end.

(** The error, and the caller's pointer, which stays when what it points to is
    freed.  [u] is the address of a new structure. *)
Definition semundo_adjust (p : Z) (supptr : option Z) (semid semnum adjval u : Z) (s : sem_state) : outcome (Z * option Z * sem_state) :=
  let found suptr s := let! (e, s) := semundo_entry suptr semid semnum adjval s in Ret (e, Some suptr, s) in
  match supptr with
  | Some suptr => found suptr s
  | None =>
      let! r := find_undo (undos s) p (semu_list s) in
      match r with
      | Some suptr => found suptr s
      | None =>
          if adjval =? 0 then Ret (0, None, s)
          else match semu_alloc p u s with
               | None => Ret (ENOSPC, None, s)
               | Some s => found u s
               end
      end
  end.

(** The loop of [semundo_clear] over the entries of a structure. *)
Fixpoint clear_entries (semid semnum : Z) (l : list undo) (i fuel : nat) : list undo :=
  match fuel with
  | O => l
  | S fuel =>
      match l !! i with
      | None => l
      | Some e =>
          if un_id e =? semid then
            let hit := (semnum =? -1) || (un_num e =? semnum) in
            let l := if hit then drop_entry i l else l in
            if negb (semnum =? -1) then l
            else clear_entries semid semnum l (if hit then i else S i) fuel
          else clear_entries semid semnum l (S i) fuel
      end
  end.

Fixpoint clear_list (semid semnum : Z) (l : list Z) (us : gmap Z sem_undo) : outcome (list Z * gmap Z sem_undo) :=
  match l with
  | [] => Ret ([], us)
  | u :: l =>
      let! x := deref us u in
      match clear_entries semid semnum (un_ent x) 0 (length (un_ent x)) with
      | [] => clear_list semid semnum l (delete u us)
      | ent => let! (l, us) := clear_list semid semnum l (<[u := Sem_undo (un_proc x) ent]> us) in Ret (u :: l, us)
      end
  end.

Definition semundo_clear (semid semnum : Z) (s : sem_state) : outcome sem_state :=
  let! (l, us) := clear_list semid semnum (semu_list s) (undos s) in
  Ret (set_undos l us (semutot s - Z.of_nat (length (semu_list s) - length l)) s).

(** * [semctl] *)

(** The commands, with what [copyin] brings: for [SETALL] the values that it
    can read and the error that it answers for the next. *)
Inductive semctl_cmd :=
| IPC_RMID
| IPC_SET (error : Z) (perm : ipc_perm)
| IPC_STAT (error : Z)
| GETNCNT
| GETPID
| GETVAL
| GETALL (error : Z)
| GETZCNT
| SETVAL (val : Z)
| SETALL (vals : list Z) (error : Z)
| OtherCmd.

(** The set of [semid], as [semctl] and [semop] look it up. *)
Definition find_set (semid : Z) (s : sem_state) : outcome (option (Z * semid_ds)) :=
  let ix := IPCID_TO_IX semid in
  if (ix <? 0) || (semmni (info s) <=? ix) then Ret None
  else
    let! r := aget (sema s) ix in
    match r with
    | None => Ret None
    | Some a => let! d := deref (sets s) a in Ret (if seq (sem_perm d) =? IPCID_TO_SEQ semid then Some (a, d) else None)
    end.

(** [SETALL] stores the values one by one. *)
Fixpoint store_all (vals : list Z) (base : list sem) : list sem * bool :=
  match base, vals with
  | [], _ => ([], true)
  | x :: base, v :: vals => let '(base, all) := store_all vals base in (set_semval v x :: base, all)
  | _, [] => (base, false)
  end.

Definition answer (p : Z) (error : Z) (s : sem_state) : outcome sem_state := leave p (if error =? 0 then Val 0 else Err error) s.

Definition get_field (p semnum : Z) (d : semid_ds) (field : sem -> Z) (s : sem_state) : outcome sem_state :=
  if (semnum <? 0) || (sem_nsems d <=? semnum) then leave p (Err EINVAL) s
  else let! x := aget (sem_base d) semnum in leave p (Val (field x)) s.

Definition semctl1 (p semid semnum : Z) (cmd : semctl_cmd) (s : sem_state) : outcome sem_state :=
  let! pr := deref (procs s) p in
  let ix := IPCID_TO_IX semid in
  let! r := find_set semid s in
  match r with
  | None => leave p (Err EINVAL) s
  | Some (a, d) =>
      let allowed m k := let e := ipcperm (p_ucred pr) (sem_perm d) m in if negb (e =? 0) then leave p (Err e) s else k in
      match cmd with
      | IPC_RMID =>
          allowed IPC_M
            (let s := set_semtot (semtot s - sem_nsems d) s in
             let! l := aset (sema s) ix None in
             let s := set_sema l (set_sets (delete a (sets s)) s) in
             let! s := semundo_clear ix (-1) s in
             leave p (Val 0) (sem_wakeup ix s))
      | IPC_SET error perm =>
          allowed IPC_M
            (if negb (error =? 0) then leave p (Err error) s
             else
               let q := sem_perm d in
               let q := Perm (cuid q) (cgid q) (uid perm) (gid perm)
                          (Z.lor (Z.land (mode q) (Z.lnot 511)) (Z.land (mode perm) 511)) (seq q) (key q) in
               leave p (Val 0) (put_set a (set_ctime (time_second s) (set_perm q d)) s))
      | IPC_STAT error => allowed IPC_R (answer p error s)
      | GETNCNT => allowed IPC_R (get_field p semnum d semncnt s)
      | GETPID => allowed IPC_R (get_field p semnum d sempid s)
      | GETVAL => allowed IPC_R (get_field p semnum d semval s)
      | GETALL error => allowed IPC_R (answer p error s)
      | GETZCNT => allowed IPC_R (get_field p semnum d semzcnt s)
      | SETVAL val =>
          allowed IPC_W
            (if (semnum <? 0) || (sem_nsems d <=? semnum) then leave p (Err EINVAL) s
             else
               let! x := aget (sem_base d) semnum in
               let! base := aset (sem_base d) semnum (set_semval (u16 val) x) in
               let! s := semundo_clear ix semnum (put_set a (set_base base d) s) in
               leave p (Val 0) (sem_wakeup ix s))
      | SETALL vals error =>
          allowed IPC_W
            (let '(base, all) := store_all vals (sem_base d) in
             let! s := semundo_clear ix (-1) (put_set a (set_base base d) s) in
             answer p (if all then 0 else error) (sem_wakeup ix s))
      | OtherCmd => leave p (Err EINVAL) s
      end
  end.

Definition sys___semctl (p semid semnum : Z) (cmd : semctl_cmd) (copied : Z) (s : sem_state) : outcome sem_state :=
  let error := match cmd with IPC_SET _ _ | IPC_STAT _ | GETALL _ | SETVAL _ | SETALL _ _ => copied | _ => 0 end in
  if error =? 0 then semctl1 p semid semnum cmd s else leave p (Err error) s.

(** * [semget] *)

(** The first set with the key, and the first free index. *)
Fixpoint find_key (ss : gmap Z semid_ds) (k : Z) (l : list (option Z)) (ix : Z) : outcome (option (Z * semid_ds)) :=
  match l with
  | [] => Ret None
  | None :: l => find_key ss k l (ix + 1)
  | Some a :: l => let! d := deref ss a in if key (sem_perm d) =? k then Ret (Some (ix, d)) else find_key ss k l (ix + 1)
  end.

Fixpoint find_free (l : list (option Z)) (ix : Z) : option Z :=
  match l with
  | [] => None
  | None :: l => Some ix
  | Some _ :: l => find_free l (ix + 1)
  end.

(** [error:] frees the set that was allocated in advance. *)
Definition semget_error (p error : Z) (new : option Z) (s : sem_state) : outcome sem_state :=
  leave p (Err error) (match new with Some a => set_sets (delete a (sets s)) s | None => s end).

(** A new set at index [ix]. *)
Definition semget_create (p k nsems semflg a : Z) (s : sem_state) : outcome sem_state :=
  let! pr := deref (procs s) p in
  match find_free (sema s) 0 with
  | None => semget_error p ENOSPC (Some a) s
  | Some ix =>
      let cred := p_ucred pr in
      let! d := deref (sets s) a in
      let! n := aget (semseqs s) ix in
      let n := Z.land (n + 1) 0x7fff in
      let! seqs := aset (semseqs s) ix n in
      let perm := Perm (cr_uid cred) (cr_gid cred) (cr_uid cred) (cr_gid cred) (Z.land semflg 511) n k in
      let! l := aset (sema s) ix (Some a) in
      leave p (Val (IXSEQ_TO_IPCID ix n))
        (set_semtot (semtot s + nsems) (set_sema l (set_semseqs seqs
          (put_set a (Semid_ds perm (sem_base d) (u16 nsems) 0 (time_second s)) s))))
  end.

(** After the allocation in advance; [new] is the set, if there is one. *)
Definition semget_find (p k nsems semflg : Z) (new : option Z) (s : sem_state) : outcome sem_state :=
  let! pr := deref (procs s) p in
  let create := match new with Some a => semget_create p k nsems semflg a s | None => leave p (Err ENOENT) s end in
  if k =? IPC_PRIVATE then create
  else
    let! r := find_key (sets s) k (sema s) 0 in
    match r with
    | Some (ix, d) =>
        let error := ipcperm (p_ucred pr) (sem_perm d) (Z.land semflg 448) in
        if negb (error =? 0) then semget_error p error new s
        else if (0 <? nsems) && (sem_nsems d <? nsems) then semget_error p EINVAL new s
        else if flag semflg IPC_CREAT && flag semflg IPC_EXCL then semget_error p EEXIST new s
        else leave p (Val (IXSEQ_TO_IPCID ix (seq (sem_perm d)))) s
    | None => create
    end.

Definition sys_semget (p k nsems semflg : Z) (s : sem_state) : outcome sem_state :=
  if (k =? IPC_PRIVATE) || flag semflg IPC_CREAT then
    if (nsems <=? 0) || (semmsl (info s) <? nsems) then leave p (Err EINVAL) s
    else if semmns (info s) - semtot s <? nsems then leave p (Err ENOSPC) s
    else goto p (GetAlloc k nsems semflg) s
  else semget_find p k nsems semflg None s.

(** [pool_get] returned [a], and [malloc] an array of zeroes.  The other fields
    are written before they are read. *)
Definition semget_alloc (p k nsems semflg a : Z) (s : sem_state) : outcome sem_state :=
  let base := replicate (Z.to_nat nsems) (Sem 0 0 0 0) in
  semget_find p k nsems semflg (Some a) (put_set a (Semid_ds (Perm 0 0 0 0 0 0 0) base 0 0 0) s).

(** * [semop] *)

Section Semop.
Context {A : arch}.

Definition sys_semop (p semid nsops : Z) (s : sem_state) : outcome sem_state :=
  let! pr := deref (procs s) p in
  let! r := find_set semid s in
  match r with
  | None => leave p (Err EINVAL) s
  | Some (a, d) =>
      let error := ipcperm (p_ucred pr) (sem_perm d) IPC_W in
      if negb (error =? 0) then leave p (Err error) s
      else if nsops =? 0 then leave p (Val 0) s
      else if ulong (semopm (info s)) <? nsops then leave p (Err E2BIG) s
      else goto p (Copyin semid a nsops) s
  end.

(** How far the vector of requests came: all of it, up to a number that is too
    big, or up to request [i], which has to wait. *)
Inductive progress := Through | TooBig | Stuck (i : Z).

Fixpoint perform (nsems : Z) (sops : list sembuf) (i : Z) (base : list sem) (do_wakeup do_undos : bool)
    : outcome (progress * list sem * bool * bool) :=
  match sops with
  | [] => Ret (Through, base, do_wakeup, do_undos)
  | o :: sops =>
      if nsems <=? sem_num o then Ret (TooBig, base, do_wakeup, do_undos)
      else
        let! x := aget base (sem_num o) in
        let undo := do_undos || flag (sem_flg o) SEM_UNDO in
        if sem_op o <? 0 then
          if s32 (semval x + sem_op o) <? 0 then Ret (Stuck i, base, do_wakeup, do_undos)
          else
            let v := u16 (semval x + sem_op o) in
            let! base := aset base (sem_num o) (set_semval v x) in
            perform nsems sops (i + 1) base (do_wakeup || ((v =? 0) && (0 <? semzcnt x))) undo
        else if sem_op o =? 0 then
          if 0 <? semval x then Ret (Stuck i, base, do_wakeup, do_undos)
          else perform nsems sops (i + 1) base do_wakeup do_undos
        else
          let! base := aset base (sem_num o) (set_semval (u16 (semval x + sem_op o)) x) in
          perform nsems sops (i + 1) base (do_wakeup || (0 <? semncnt x)) undo
  end.

(** [semval -= sem_op] for each of the requests. *)
Fixpoint rollback (sops : list sembuf) (base : list sem) : outcome (list sem) :=
  match sops with
  | [] => Ret base
  | o :: sops =>
      let! x := aget base (sem_num o) in
      let! base := aset base (sem_num o) (set_semval (u16 (semval x - sem_op o)) x) in
      rollback sops base
  end.

(** The requests that ask for an adjustment at exit. *)
Definition undone (o : sembuf) : bool := flag (sem_flg o) SEM_UNDO && negb (sem_op o =? 0).

(** [for (j = i - 1; j >= 0; j--)] with a [size_t]: from 0 it goes on with the
    largest one. *)
Fixpoint undo_undos (p ix : Z) (sops : list sembuf) (suptr : option Z) (u : Z) (j : nat) (s : sem_state) : outcome sem_state :=
  let! o := aget sops (Z.of_nat j) in
  let! (suptr, s) := (if undone o then
      let! (e, suptr, s) := semundo_adjust p suptr ix (sem_num o) (sem_op o) u s in
      if negb (e =? 0) then Panic "semop - can't undo undos" else Ret (suptr, s)
    else Ret (suptr, s)) in
  match j with
  | O => if Z.of_nat (length sops) <=? ulong (-1) then Fault OutOfBounds else Spin
  | S j => undo_undos p ix sops suptr u j s
  end.

(** The loop over the [SEM_UNDO] requests from [i] on: an error, and where. *)
Fixpoint record_undos (p ix : Z) (sops : list sembuf) (suptr : option Z) (u i : Z) (s : sem_state)
    : outcome (option (Z * Z * option Z) * sem_state) :=
  match sops with
  | [] => Ret (None, s)
  | o :: sops =>
      if undone o then
        let! (e, suptr, s) := semundo_adjust p suptr ix (sem_num o) (- sem_op o) u s in
        if e =? 0 then record_undos p ix sops suptr u (i + 1) s else Ret (Some (e, i, suptr), s)
      else record_undos p ix sops suptr u (i + 1) s
  end.

Fixpoint set_pids (p : Z) (sops : list sembuf) (base : list sem) : outcome (list sem) :=
  match sops with
  | [] => Ret base
  | o :: sops =>
      let! x := aget base (sem_num o) in
      let! base := aset base (sem_num o) (set_sempid p x) in
      set_pids p sops base
  end.

(** From [done:] on. *)
Definition semop_done (p ix a : Z) (sops : list sembuf) (do_wakeup do_undos : bool) (u : Z) (s : sem_state) : outcome sem_state :=
  let! (r, s) := (if do_undos then record_undos p ix sops None u 0 s else Ret (None, s)) in
  match r with
  | Some (error, i, suptr) =>
      let! s := (if negb (i =? 0) then undo_undos p ix sops suptr u (Z.to_nat (i - 1)) s else Ret s) in
      let! d := deref (sets s) a in
      let! base := rollback sops (sem_base d) in
      leave p (Err error) (put_set a (set_base base d) s)
  | None =>
      let! d := deref (sets s) a in
      let! base := set_pids p sops (sem_base d) in
      let s := put_set a (set_otime (time_second s) (set_base base d)) s in
      leave p (Val 0) (if do_wakeup then sem_wakeup ix s else s)
  end.

(** One turn of the loop: the requests are granted, refused, or have to wait. *)
Definition semop_try (p semid a : Z) (sops : list sembuf) (do_undos : bool) (u : Z) (s : sem_state) : outcome sem_state :=
  let ix := IPCID_TO_IX semid in
  let! d := deref (sets s) a in
  let! (r, base, do_wakeup, do_undos) := perform (sem_nsems d) sops 0 (sem_base d) false do_undos in
  match r with
  | Through => semop_done p ix a sops do_wakeup do_undos u (put_set a (set_base base d) s)
  | TooBig => leave p (Err EFBIG) (put_set a (set_base base d) s)
  | Stuck i =>
      let! base := rollback (take (Z.to_nat i) sops) base in
      let! o := aget sops i in
      if flag (sem_flg o) IPC_NOWAIT then leave p (Err EAGAIN) (put_set a (set_base base d) s)
      else
        let! x := aget base (sem_num o) in
        let x := if sem_op o =? 0 then set_semzcnt (u16 (semzcnt x + 1)) x else set_semncnt (u16 (semncnt x + 1)) x in
        let! base := aset base (sem_num o) x in
        goto p (Semwait semid a sops i do_undos (sema_at s, ix) false) (put_set a (set_base base d) s)
  end.

(** After [copyin]. *)
Definition semop_copied (p semid a : Z) (r : list sembuf + Z) (u : Z) (s : sem_state) : outcome sem_state :=
  match r with
  | inr error => leave p (Err error) s
  | inl sops => semop_try p semid a sops false u s
  end.

(** After [tsleep] has returned [error]. *)
Definition semop_awake (p semid a : Z) (sops : list sembuf) (i : Z) (do_undos : bool) (error u : Z) (s : sem_state) : outcome sem_state :=
  let! r := aget (sema s) (IPCID_TO_IX semid) in
  match r with
  | None => leave p (Err EIDRM) s
  | Some _ =>
      let! d := deref (sets s) a in
      if negb (seq (sem_perm d) =? IPCID_TO_SEQ semid) then leave p (Err EIDRM) s
      else
        let! o := aget sops i in
        let! x := aget (sem_base d) (sem_num o) in
        let x := if sem_op o =? 0 then set_semzcnt (u16 (semzcnt x - 1)) x else set_semncnt (u16 (semncnt x - 1)) x in
        let! base := aset (sem_base d) (sem_num o) x in
        let s := put_set a (set_base base d) s in
        if negb (error =? 0) then leave p (Err EINTR) s
        else semop_try p semid a sops do_undos u s
  end.
End Semop.

(** * Exit *)

(** The adjustments of a process, one by one. *)
Fixpoint apply_undos (l : list undo) (s : sem_state) : outcome sem_state :=
  match l with
  | [] => Ret s
  | e :: l =>
      let! r := aget (sema s) (un_id e) in
      match r with
      | None => Panic "semexit - semid not allocated"
      | Some a =>
          let! d := deref (sets s) a in
          if sem_nsems d <=? un_num e then Panic "semexit - semnum out of range"
          else
            let! x := aget (sem_base d) (un_num e) in
            let v := if (un_adjval e <? 0) && (semval x <? - un_adjval e) then 0 else u16 (semval x + un_adjval e) in
            let! base := aset (sem_base d) (un_num e) (set_semval v x) in
            apply_undos l (sem_wakeup (un_id e) (put_set a (set_base base d) s))
      end
  end.

Definition semexit (p : Z) (s : sem_state) : outcome sem_state :=
  let! r := find_undo (undos s) p (semu_list s) in
  match r with
  | None => Ret s
  | Some u =>
      let! x := deref (undos s) u in
      let! s := apply_undos (un_ent x) s in
      let! l := slist_remove u (semu_list s) in
      Ret (set_undos l (delete u (undos s)) (semutot s - 1) s)
  end.

(** * [sysctl] *)

Inductive sem_knob := SEMMNI | SEMMNS | SEMMNU | SEMMSL | SEMOPM.

(** The arrays for [val] sets, at a new address. *)
Definition grow_sets (val at_ : Z) (s : sem_state) : sem_state :=
  let k := Z.to_nat (val - semmni (info s)) in
  let i := info s in
  set_info (Seminfo val (semmns i) (semmnu i) (semmsl i) (semopm i))
    (set_sema_at at_ (set_sema (sema s ++ replicate k None) (set_semseqs (semseqs s ++ replicate k 0) s))).

(** A new value for one of the limits. *)
Definition sysctl_sysvsem (knob : sem_knob) (val at_ : Z) (s : sem_state) : Z * sem_state :=
  let i := info s in
  match knob with
  | SEMMNI =>
      if val =? semmni i then (0, s) else if (val <? semmni i) || (0xffff <? val) then (EINVAL, s) else (0, grow_sets val at_ s)
  | SEMMNS =>
      if val =? semmns i then (0, s) else if (val <? semmns i) || (0xffff <? val) then (EINVAL, s)
      else (0, set_info (Seminfo (semmni i) val (semmnu i) (semmsl i) (semopm i)) s)
  | SEMMNU =>
      if val =? semmnu i then (0, s) else if val <? semmnu i then (EINVAL, s)
      else (0, set_info (Seminfo (semmni i) (semmns i) val (semmsl i) (semopm i)) s)
  | SEMMSL =>
      if val =? semmsl i then (0, s) else if (val <? semmsl i) || (0xffff <? val) then (EINVAL, s)
      else (0, set_info (Seminfo (semmni i) (semmns i) (semmnu i) val (semopm i)) s)
  | SEMOPM =>
      if val =? semopm i then (0, s) else if val <=? 0 then (EINVAL, s)
      else (0, set_info (Seminfo (semmni i) (semmns i) (semmnu i) (semmsl i) val) s)
  end.

(** * Steps *)

Inductive call :=
| Semget (key nsems semflg : Z)
| Semctl (semid semnum : Z) (cmd : semctl_cmd) (copied : Z)
| Semop (semid nsops : Z)
| Sysctl (knob : sem_knob) (val at_ : Z)
| Fork (q : Z)
| Exit.

(** A call, what ends the sleep of a process, or the clock.  [a] and [u] are
    addresses of new objects. *)
Inductive label :=
| Enter (p : Z) (c : call)
| Allocated (p a : Z)
| Copied (p : Z) (r : list sembuf + Z) (u : Z)
| Awake (p error u : Z)
| Clock (t : Z).

Definition sembuf_ok (o : sembuf) : bool :=
  bool_decide (is_u 16 (sem_num o)) && bool_decide (is_s 16 (sem_op o)) && bool_decide (is_s 16 (sem_flg o)).

(** The arguments are values of their types. *)
Definition call_ok (c : call) (s : sem_state) : bool :=
  match c with
  | Semget k n f => bool_decide (is_s 32 k) && bool_decide (is_s 32 n) && bool_decide (is_s 32 f)
  | Semctl semid semnum cmd copied =>
      bool_decide (is_s 32 semid) && bool_decide (is_s 32 semnum) &&
      match cmd with
      | SETALL vals error => bool_decide (Forall (is_u 16) vals) && negb (error =? 0)
      | _ => true
      end
  | Semop semid nsops => bool_decide (is_s 32 semid) && (0 <=? nsops)
  | Sysctl _ val at_ => bool_decide (is_s 32 val) && negb (at_ =? sema_at s)
  | Fork q => bool_decide (procs s !! q = None) && bool_decide (0 <= q <= 32766)
  | Exit => true
  end.

Section Steps.
Context {A : arch}.

Definition enter (p : Z) (pr : sem_proc) (c : call) (s : sem_state) : outcome sem_state :=
  match c with
  | Semget k n f => sys_semget p k n f s
  | Semctl semid semnum cmd copied => sys___semctl p semid semnum cmd copied s
  | Semop semid nsops => sys_semop p semid nsops s
  | Sysctl knob val at_ => let '(e, s) := sysctl_sysvsem knob val at_ s in answer p e s
  | Fork q => leave p (Val q) (set_procs (<[q := Proc (p_ucred pr) User (Val 0)]> (procs s)) s)
  | Exit => let! s := semexit p s in Ret (set_procs (delete p (procs s)) s)
  end.

(** [None] when the label does not fit the state: the process is elsewhere or
    sleeps on. *)
Definition step (l : label) (s : sem_state) : option (outcome sem_state) :=
  match l with
  | Enter p c =>
      match procs s !! p with
      | Some pr => match p_pc pr with User => if call_ok c s then Some (enter p pr c s) else None | _ => None end
      | None => None
      end
  | Allocated p a =>
      match p_pc <$> procs s !! p with
      | Some (GetAlloc k n f) => if bool_decide (sets s !! a = None) then Some (semget_alloc p k n f a s) else None
      | _ => None
      end
  | Copied p r u =>
      match p_pc <$> procs s !! p with
      | Some (Copyin semid a nsops) =>
          let fits := match r with
                      | inl sops => bool_decide (Z.of_nat (length sops) = nsops) && forallb sembuf_ok sops
                      | inr error => negb (error =? 0)
                      end in
          if fits && bool_decide (undos s !! u = None) then Some (semop_copied p semid a r u s) else None
      | _ => None
      end
  | Awake p error u =>
      match p_pc <$> procs s !! p with
      | Some (Semwait semid a sops i d chan woken) =>
          if (woken || negb (error =? 0)) && bool_decide (undos s !! u = None)
          then Some (semop_awake p semid a sops i d error u s) else None
      | _ => None
      end
  | Clock t => Some (Ret (set_time t s))
  end.
End Steps.

(** [seminit]: no sets, and one process. *)
Definition sem_booted (i : seminfo) (p : Z) (cred : ucred) : sem_state :=
  State i (replicate (Z.to_nat (semmni i)) None) 0 (replicate (Z.to_nat (semmni i)) 0) ∅ 0 [] ∅ 0 {[p := Proc cred User (Val 0)]} 0.
