(* ===== verification/SemUndo.v ===== *)
(** * Undo structures of the semaphores

    The undo structure of a process is a finite map from semaphores to
    adjustments; what the loops over its entries do to that map. *)

From stdpp Require Import gmap sets.
From S2P Require Import Prelude Sem.

(** * The entries of a structure *)

Definition ukey (e : undo) : Z * Z := (un_id e, un_num e).
Definition ukv (e : undo) : (Z * Z) * Z := (ukey e, un_adjval e).
Definition umap (l : list undo) : gmap (Z * Z) Z := list_to_map (ukv <$> l).

Lemma ukv_keys l : (ukv <$> l).*1 = ukey <$> l.
Proof. rewrite <- list_fmap_compose. done. Qed.

Lemma umap_perm l l' : NoDup (ukey <$> l) -> l ≡ₚ l' -> umap l = umap l'.
Proof. intros H Hp. apply list_to_map_proper; [by rewrite ukv_keys|]. by rewrite Hp. Qed.

Lemma umap_lookup l e : NoDup (ukey <$> l) -> e ∈ l -> umap l !! ukey e = Some (un_adjval e).
Proof.
  intros H He. apply elem_of_list_to_map; [by rewrite ukv_keys|]. change (ukey e, un_adjval e) with (ukv e). by apply list_elem_of_fmap_2.
Qed.

Lemma umap_inv l k v : umap l !! k = Some v -> exists e, e ∈ l /\ ukey e = k /\ un_adjval e = v.
Proof.
  intros H. apply elem_of_list_to_map_2 in H. apply list_elem_of_fmap in H as (e & [= -> ->] & He). by exists e.
Qed.

Lemma umap_none l k : k ∉ ukey <$> l -> umap l !! k = None.
Proof. intros H. apply not_elem_of_list_to_map_1. by rewrite ukv_keys. Qed.

Lemma umap_cons e l : umap (e :: l) = <[ukey e := un_adjval e]> (umap l).
Proof. done. Qed.

Lemma umap_size l : NoDup (ukey <$> l) -> size (umap l) = length l.
Proof.
  intros H. induction l as [|e l IH]; [done|]. rewrite fmap_cons in H. apply NoDup_cons in H as [Hn H].
  rewrite umap_cons, map_size_insert_None by (by apply umap_none). simpl. by rewrite IH.
Qed.

Lemma umap_empty l : NoDup (ukey <$> l) -> umap l = ∅ <-> l = [].
Proof.
  intros H. split; [|by intros ->]. intros E. pose proof (umap_size l H) as Hs. rewrite E, map_size_empty in Hs. by destruct l.
Qed.

(** Searching, and dropping an entry. *)
Lemma find_entry_spec id n l i :
  match find_entry id n l i with
  | Some (j, e) => (i <= j)%nat /\ l !! (j - i)%nat = Some e /\ ukey e = (id, n)
  | None => (id, n) ∉ ukey <$> l
  end.
Proof.
  revert i. induction l as [|e l IH]; intros i; simpl; [by intros ?%elem_of_nil|].
  destruct (Z.eqb_spec (un_id e) id) as [E1|E1], (Z.eqb_spec (un_num e) n) as [E2|E2]; simpl.
  1: { rewrite Nat.sub_diag. unfold ukey. by subst. }
  all: specialize (IH (S i)); destruct (find_entry id n l (S i)) as [[j e']|].
  all: try (destruct IH as (Hj & E & Hk); split; [lia|split; [|done] ]; replace (j - i)%nat with (S (j - S i)) by lia; done).
  all: intros [E|E]%elem_of_cons; [unfold ukey in E; congruence|done].
Qed.

Lemma drop_entry_perm i l e : l !! i = Some e -> l ≡ₚ e :: drop_entry i l.
Proof.
  intros E. destruct l as [|y l _] using rev_ind; [done|]. unfold drop_entry. rewrite last_snoc, length_app. simpl.
  replace (length l + 1 - 1)%nat with (length l) by lia. rewrite take_app_length. case_decide as Hi.
  - rewrite lookup_app_l in E by done. rewrite <- (take_drop_middle l i e E) at 1. rewrite insert_take_drop by done.
    solve_Permutation.
  - apply lookup_lt_Some in E as Hl. rewrite length_app in Hl. simpl in Hl. assert (i = length l) as -> by lia.
    rewrite lookup_app_r, Nat.sub_diag in E by lia. injection E as ->. solve_Permutation.
Qed.

Lemma drop_entry_take i l : (i < length l)%nat -> take i (drop_entry i l) = take i l.
Proof.
  intros Hi. destruct l as [|y l _] using rev_ind; [done|]. unfold drop_entry. rewrite last_snoc, length_app in *. simpl in *.
  replace (length l + 1 - 1)%nat with (length l) by lia. rewrite take_app_length, (take_app_le l) by lia.
  case_decide; [by rewrite take_insert_ge by lia|done].
Qed.

(** What [semundo_clear] takes from the entries: those of the set for [-1],
    some or none otherwise. *)
Lemma clear_all id l i fuel : (length l <= i + fuel)%nat ->
  Forall (fun e => un_id e <> id) (take i l) ->
  exists dropped, l ≡ₚ dropped ++ clear_entries id (-1) l i fuel /\ Forall (fun e => un_id e = id) dropped /\
    Forall (fun e => un_id e <> id) (clear_entries id (-1) l i fuel).
Proof.
  revert l i. induction fuel as [|fuel IH]; intros l i Hf Ht; cbn [clear_entries].
  - exists []. rewrite take_ge in Ht by lia. done.
  - destruct (l !! i) as [e|] eqn:E.
    2: { apply lookup_ge_None in E. exists []. rewrite take_ge in Ht by lia. done. }
    apply lookup_lt_Some in E as Hi. destruct (Z.eqb_spec (un_id e) id) as [He|He]; cbn [Z.eqb orb negb].
    + pose proof (drop_entry_perm i l e E) as Hp. apply Permutation_length in Hp as Hlen. simpl in Hlen.
      destruct (IH (drop_entry i l) i) as (dr & Hd & Hdr & Hr); [lia| |].
      * by rewrite drop_entry_take.
      * exists (e :: dr). split; [etrans; [exact Hp|]; by apply perm_skip|]. split; [by constructor|done].
    + apply IH; [lia|]. rewrite (take_S_r _ _ _ E). apply Forall_app. by repeat constructor.
Qed.

Lemma clear_some id n l i fuel :
  exists dropped, l ≡ₚ dropped ++ clear_entries id n l i fuel /\ Forall (fun e => un_id e = id) dropped.
Proof.
  revert l i. induction fuel as [|fuel IH]; intros l i; cbn [clear_entries]; [by exists []|].
  destruct (l !! i) as [e|] eqn:E; [|by exists []]. destruct (Z.eqb_spec (un_id e) id) as [He|He]; [|apply IH].
  pose proof (drop_entry_perm i l e E) as Hp. destruct ((n =? -1) || (un_num e =? n)).
  - destruct (negb (n =? -1)); [exists [e]; by repeat constructor|].
    destruct (IH (drop_entry i l) i) as (dr & Hd & Hdr). exists (e :: dr). split; [etrans; [exact Hp|]; by apply perm_skip|by constructor].
  - destruct (negb (n =? -1)); [by exists []|apply IH].
Qed.

(** * The lists *)

Lemma find_undo_spec us p l : (forall u, u ∈ l -> is_Some (us !! u)) ->
  (find_undo us p l = Ret None /\ forall u x, u ∈ l -> us !! u = Some x -> un_proc x <> p) \/
  (exists u x, find_undo us p l = Ret (Some u) /\ u ∈ l /\ us !! u = Some x /\ un_proc x = p).
Proof.
  intros Hl. induction l as [|u l IH]; simpl; [left; split; [done|]; by intros ? ? ?%elem_of_nil|].
  destruct (Hl u) as [x Hx]; [by left|]. unfold deref. rewrite Hx. cbn [bind]. destruct (Z.eqb_spec (un_proc x) p).
  - right. exists u, x. split; [done|]. split; [by left|done].
  - destruct IH as [[E Hn]|(v & y & E & Hv & Hy)]; [intros v Hv; apply Hl; by right| |].
    + left. split; [done|]. intros v y [->|Hv]%elem_of_cons Hy; [congruence|by eapply Hn].
    + right. exists v, y. split; [done|]. split; [by right|done].
Qed.

Lemma slist_remove_spec u l : u ∈ l -> NoDup l -> exists l', slist_remove u l = Ret l' /\ l ≡ₚ u :: l' /\ NoDup l'.
Proof.
  induction l as [|v l IH]; [by intros ?%elem_of_nil|]. intros Hu Hn. apply NoDup_cons in Hn as [Hv Hn]. simpl.
  destruct (Z.eqb_spec v u) as [->|Hne]; [by exists l|]. apply elem_of_cons in Hu as [->|Hu]; [done|].
  destruct (IH Hu Hn) as (l' & -> & Hp & Hn'). cbn [bind]. exists (v :: l'). split; [done|]. split; [rewrite Hp; solve_Permutation|].
  apply NoDup_cons. split; [|done]. intros Hv'. apply Hv. rewrite Hp. by right.
Qed.

(** * All structures *)

(** [valid id n] says that there is such a semaphore. *)
Definition entry_ok (valid : Z -> Z -> Prop) (e : undo) : Prop :=
  un_adjval e <> 0 /\ is_s 16 (un_adjval e) /\ valid (un_id e) (un_num e).

Definition entries_wf (valid : Z -> Z -> Prop) (l : list undo) : Prop :=
  NoDup (ukey <$> l) /\ Z.of_nat (length l) <= SEMUME /\ Forall (entry_ok valid) l.

Record undos_wf (valid : Z -> Z -> Prop) (alive : Z -> Prop) (l : list Z) (us : gmap Z sem_undo) (n : Z) : Prop := {
  un_nodup : NoDup l;
  un_dom : forall u, u ∈ l <-> is_Some (us !! u);
  un_tot : n = Z.of_nat (length l);
  un_ok : forall u x, us !! u = Some x -> alive (un_proc x) /\ entries_wf valid (un_ent x);
  un_inj : forall u v x y, us !! u = Some x -> us !! v = Some y -> un_proc x = un_proc y -> u = v;
}.

(** A structure has entries, or it would have been freed. *)
Definition undos_ok (valid : Z -> Z -> Prop) (alive : Z -> Prop) (l : list Z) (us : gmap Z sem_undo) (n : Z) : Prop :=
  undos_wf valid alive l us n /\ forall u x, us !! u = Some x -> un_ent x <> [].

Definition undos_st (ok : list Z -> gmap Z sem_undo -> Z -> Prop) (s : sem_state) : Prop := ok (semu_list s) (undos s) (semutot s).

Lemma undos_mono (valid valid' : Z -> Z -> Prop) (alive alive' : Z -> Prop) l us n :
  (forall u x e, us !! u = Some x -> e ∈ un_ent x -> valid (un_id e) (un_num e) -> valid' (un_id e) (un_num e)) ->
  (forall u x, us !! u = Some x -> alive (un_proc x) -> alive' (un_proc x)) ->
  undos_ok valid alive l us n -> undos_ok valid' alive' l us n.
Proof.
  intros Hv Ha [[H1 H2 H3 H4 H5] H6]. split; [|done]. split; try done. intros u x Hx. destruct (H4 u x Hx) as [Hp (Hn & Hl & Hf)].
  split; [by eapply Ha|]. split; [done|]. split; [done|]. rewrite Forall_forall in *. intros e He.
  destruct (Hf e He) as (E1 & E2 & E3). split; [done|]. split; [done|]. by eapply Hv.
Qed.

(** The map of a process. *)
Definition entries_at (p : Z) (us : gmap Z sem_undo) (u : Z) : list undo :=
  match us !! u with Some x => if un_proc x =? p then un_ent x else [] | None => [] end.

Definition undo_entries (p : Z) (l : list Z) (us : gmap Z sem_undo) : list undo := concat (entries_at p us <$> l).

Definition undo_map (p : Z) (s : sem_state) : gmap (Z * Z) Z := umap (undo_entries p (semu_list s) (undos s)).

Lemma undo_entries_none p l us : (forall u x, u ∈ l -> us !! u = Some x -> un_proc x <> p) -> undo_entries p l us = [].
Proof.
  unfold undo_entries. induction l as [|u l IH]; [done|]. intros H. rewrite fmap_cons. cbn [concat].
  rewrite IH; [|intros v y Hv; apply H; by right]. unfold entries_at. destruct (us !! u) as [x|] eqn:E; [|done].
  destruct (Z.eqb_spec (un_proc x) p); [|done]. edestruct H; [by left|done|done].
Qed.

Lemma undo_entries_some valid alive p u x l us n : undos_wf valid alive l us n ->
  us !! u = Some x -> un_proc x = p -> undo_entries p l us = un_ent x.
Proof.
  intros [Hn Hd _ _ Hi] Hx Hp. assert (u ∈ l) as Hu by (apply Hd; by eexists).
  clear Hd. induction l as [|v l IH]; [by apply elem_of_nil in Hu|]. unfold undo_entries in *. rewrite fmap_cons. cbn [concat].
  apply NoDup_cons in Hn as [Hv Hn]. unfold entries_at at 1. apply elem_of_cons in Hu as [<-|Hu].
  - rewrite Hx, (proj2 (Z.eqb_eq _ _) Hp). fold (undo_entries p l us). rewrite undo_entries_none; [apply app_nil_r|].
    intros w y Hw Hy E. apply Hv. by rewrite (Hi u w x y Hx Hy) by congruence.
  - rewrite (IH Hn Hu). destruct (us !! v) as [y|] eqn:E; [|done]. destruct (Z.eqb_spec (un_proc y) p) as [Ep|]; [|done].
    exfalso. apply Hv. by rewrite (Hi v u y x E Hx) by congruence.
Qed.

(** * [semundo_adjust] *)

Definition adjust (m : gmap (Z * Z) Z) (k : Z * Z) (v : Z) : gmap (Z * Z) Z :=
  let x := s16 (default 0 (m !! k) + v) in if x =? 0 then delete k m else <[k := x]> m.

Lemma s16_range x : is_s 16 (s16 x).
Proof. unfold s16, swrap, is_s. pose proof (wrap_range 16 (x + 2 ^ (16 - 1)) ltac:(lia)) as H. unfold is_u in H. lia. Qed.

Lemma s16_small x : is_s 16 x -> s16 x = x.
Proof. by apply swrap_small. Qed.

Lemma s16_nonzero v : - 32768 <= v <= 32768 -> v <> 0 -> s16 v <> 0.
Proof. intros H Hv. unfold s16, swrap, wrap. dlia. Qed.

Lemma umap_insert l i e x : NoDup (ukey <$> l) -> l !! i = Some e -> ukey x = ukey e ->
  NoDup (ukey <$> <[i := x]> l) /\ umap (<[i := x]> l) = <[ukey e := un_adjval x]> (umap l).
Proof.
  intros Hn E Hk. assert (ukey <$> <[i := x]> l = ukey <$> l) as Hkeys.
  { rewrite list_fmap_insert, Hk. apply list_insert_id. rewrite list_lookup_fmap, E. done. }
  assert (NoDup (ukey <$> <[i := x]> l)) as Hn' by by rewrite Hkeys. split; [done|].
  apply lookup_lt_Some in E as Hi. pose proof (take_drop_middle l i e E) as Hl.
  rewrite (umap_perm l (e :: take i l ++ drop (S i) l)) by (try done; rewrite <- Hl at 1; solve_Permutation).
  rewrite (umap_perm _ (x :: take i l ++ drop (S i) l)) by (try done; rewrite insert_take_drop by done; solve_Permutation).
  rewrite !umap_cons, insert_insert_eq, Hk. done.
Qed.

Lemma umap_drop l i e : NoDup (ukey <$> l) -> l !! i = Some e ->
  NoDup (ukey <$> drop_entry i l) /\ umap (drop_entry i l) = delete (ukey e) (umap l).
Proof.
  intros Hn E. pose proof (drop_entry_perm i l e E) as Hp. rewrite (umap_perm l _ Hn Hp), umap_cons.
  rewrite Hp, fmap_cons in Hn. apply NoDup_cons in Hn as [Hk Hn]. split; [done|].
  rewrite delete_insert_eq, delete_id; [done|by apply umap_none].
Qed.

Lemma umap_snoc l e : NoDup (ukey <$> l) -> ukey e ∉ ukey <$> l ->
  NoDup (ukey <$> l ++ [e]) /\ umap (l ++ [e]) = <[ukey e := un_adjval e]> (umap l).
Proof.
  intros Hn He. assert (NoDup (ukey <$> e :: l)) as Hn' by (rewrite fmap_cons; by apply NoDup_cons).
  assert (e :: l ≡ₚ l ++ [e]) as Hp by solve_Permutation. split; [by rewrite <- Hp|]. by rewrite <- (umap_perm _ _ Hn' Hp).
Qed.

(** What is left of the structure [u] of [p]; it is freed when there are no entries. *)
Definition stored (u p : Z) (ent : list undo) (s s' : sem_state) : Prop :=
  match ent with
  | [] => semu_list s ≡ₚ u :: semu_list s' /\ s' = set_undos (semu_list s') (delete u (undos s)) (semutot s - 1) s
  | _ => s' = set_undos (semu_list s) (<[u := Sem_undo p ent]> (undos s)) (semutot s) s
  end.

(** There is no room for another entry. *)
Definition full (m : gmap (Z * Z) Z) (k : Z * Z) : bool := bool_decide (m !! k = None) && (Z.of_nat (size m) =? SEMUME).

Lemma semundo_entry_found valid u x id n v i e s :
  undos s !! u = Some x -> u ∈ semu_list s -> NoDup (semu_list s) -> entries_wf valid (un_ent x) -> v <> 0 ->
  find_entry id n (un_ent x) 0 = Some (i, e) ->
  exists ent s', semundo_entry u id n v s = Ret (0, s') /\ umap ent = adjust (umap (un_ent x)) (id, n) v /\
    entries_wf valid ent /\ stored u (un_proc x) ent s s'.
Proof.
  intros Hx Hu Hl (Hn & Hlen & Hf) Hv Ef. unfold semundo_entry, deref. rewrite Hx. cbn [bind]. rewrite Ef.
  pose proof (find_entry_spec id n (un_ent x) 0) as He. rewrite Ef, Nat.sub_0_r in He. destruct He as (_ & E & Hk).
  rewrite (proj2 (Z.eqb_neq _ _) Hv). unfold adjust. rewrite <- Hk, (umap_lookup _ e Hn) by (by eapply list_elem_of_lookup_2).
  cbn [default]. set (adj := s16 _). assert (entry_ok valid e) as Hoe by (by eapply Forall_lookup_1).
  destruct (Z.eqb_spec adj 0) as [Ha|Ha]; cbn [negb].
  - destruct (umap_drop _ _ _ Hn E) as [Hn' Hm]. pose proof (drop_entry_perm _ _ _ E) as Hp.
    assert (entries_wf valid (drop_entry i (un_ent x))) as Hwf.
    { split; [done|]. rewrite Hp in Hlen, Hf. apply Forall_cons in Hf as [_ Hf]. simpl in Hlen. split; [lia|done]. }
    apply Permutation_length in Hp. unfold un_cnt. destruct (drop_entry i (un_ent x)) as [|y ent] eqn:Ed; simpl in Hp.
    + rewrite Hp. change (Z.of_nat 1 - 1 =? 0) with true. destruct (slist_remove_spec u _ Hu Hl) as (l' & -> & Hp' & _).
      cbn [bind]. eexists [], _. conj; try done.
    + rewrite (proj2 (Z.eqb_neq _ _)) by lia. eexists _, _. by conj.
  - destruct (umap_insert _ i e (Undo adj (un_num e) (un_id e)) Hn E) as [Hn' Hm]; [done|].
    eexists _, _. conj; [done|exact Hm| |].
    + split; [done|]. rewrite length_insert. split; [done|]. apply Forall_insert; [done|]. destruct Hoe as (_ & _ & Hoe).
      split; [done|]. split; [apply s16_range|done].
    + apply lookup_lt_Some in E. unfold stored. destruct (<[i := _]> _) eqn:Ei; [|done].
      apply (f_equal length) in Ei. rewrite length_insert in Ei. simpl in Ei. lia.
Qed.

Lemma semundo_entry_spec valid u x id n v s :
  undos s !! u = Some x -> u ∈ semu_list s -> NoDup (semu_list s) -> entries_wf valid (un_ent x) ->
  is_s 16 n -> valid id n -> - 32768 <= v <= 32768 -> v <> 0 ->
  if full (umap (un_ent x)) (id, n) then semundo_entry u id n v s = Ret (EINVAL, s)
  else exists ent s', semundo_entry u id n v s = Ret (0, s') /\ umap ent = adjust (umap (un_ent x)) (id, n) v /\
    entries_wf valid ent /\ stored u (un_proc x) ent s s'.
Proof.
  intros Hx Hu Hl Hwf Hn Hv Hr Hv0. pose proof (find_entry_spec id n (un_ent x) 0) as He.
  destruct (find_entry id n (un_ent x) 0) as [[i e]|] eqn:Ef.
  - destruct He as (_ & E & Hk). unfold full. rewrite bool_decide_eq_false_2; [by eapply semundo_entry_found|].
    rewrite <- Hk, (umap_lookup _ e) by (try apply Hwf; by eapply list_elem_of_lookup_2). done.
  - destruct Hwf as (Hnd & Hlen & Hf). unfold full, semundo_entry, deref. rewrite (umap_none _ _ He), umap_size by done.
    rewrite bool_decide_eq_true_2, Hx by done. cbn [bind andb]. rewrite Ef, (proj2 (Z.eqb_neq _ _) Hv0). unfold un_cnt.
    destruct (Z.eqb_spec (Z.of_nat (length (un_ent x))) SEMUME); [done|].
    assert (s16 n = n) as Esn by by apply s16_small. rewrite Esn.
    destruct (umap_snoc (un_ent x) (Undo (s16 v) n id) Hnd He) as [Hn' Hm]. eexists _, _. conj; [done| | |].
    + rewrite Hm. unfold adjust. rewrite (umap_none _ _ He). cbn [default]. change (0 + v) with v.
      rewrite (proj2 (Z.eqb_neq _ _)) by (by apply s16_nonzero). done.
    + split; [done|]. rewrite length_app. split; [simpl; lia|]. apply Forall_app. split; [done|]. apply Forall_singleton.
      split; [by apply s16_nonzero|]. split; [apply s16_range|done].
    + unfold stored. by destruct (un_ent x).
Qed.

(** The structure of a process, if it has one. *)
Lemma undo_map_cases valid alive q s : undos_st (undos_wf valid alive) s ->
  (exists v y, undos s !! v = Some y /\ un_proc y = q /\ undo_map q s = umap (un_ent y)) \/
  (forall v y, undos s !! v = Some y -> un_proc y <> q) /\ undo_map q s = ∅.
Proof.
  intros H. destruct (find_undo_spec (undos s) q (semu_list s)) as [[_ Hn]|(u & x & _ & _ & Hx & Hp)]; [intros u; apply H| |].
  - right. assert (forall v y, undos s !! v = Some y -> un_proc y <> q) as Hn'.
    { intros v y Hy. eapply Hn; [|done]. apply H. by eexists. }
    split; [done|]. unfold undo_map. rewrite undo_entries_none; [done|]. intros v y _. apply Hn'.
  - left. exists u, x. conj; try done. unfold undo_map. by rewrite (undo_entries_some _ _ _ _ _ _ _ _ H Hx Hp).
Qed.

Lemma undo_map_some valid alive u x s : undos_st (undos_wf valid alive) s -> undos s !! u = Some x ->
  undo_map (un_proc x) s = umap (un_ent x).
Proof. intros H Hx. unfold undo_map. by rewrite (undo_entries_some _ _ _ _ _ _ _ _ H Hx eq_refl). Qed.

Lemma undo_map_eq valid alive valid' alive' q s s' : undos_st (undos_wf valid alive) s -> undos_st (undos_wf valid' alive') s' ->
  (forall v y, un_proc y = q -> undos s !! v = Some y <-> undos s' !! v = Some y) -> undo_map q s = undo_map q s'.
Proof.
  intros H H' Hq. destruct (undo_map_cases _ _ q s H) as [(v & y & Hy & <- & ->)|[Hn ->] ].
  - by rewrite (undo_map_some _ _ v y s' H') by (by apply Hq).
  - destruct (undo_map_cases _ _ q s' H') as [(v & y & Hy & <- & _)|[_ ->] ]; [|done]. edestruct Hn; [by apply Hq|done].
Qed.

Lemma wf_delete valid alive l us n u l' : undos_wf valid alive l us n -> l ≡ₚ u :: l' -> undos_wf valid alive l' (delete u us) (n - 1).
Proof.
  intros [H1 H2 -> H4 H5] Hp. pose proof H1 as Hnd. rewrite Hp in Hnd. apply NoDup_cons in Hnd as [Hu Hn]. split; [done| | | |].
  - intros v. specialize (H2 v). rewrite Hp, elem_of_cons in H2. destruct (decide (v = u)) as [->|Hv].
    + rewrite lookup_delete_eq. split; [done|by intros []].
    + rewrite lookup_delete_ne by done. rewrite <- H2. naive_solver.
  - rewrite Hp. simpl. lia.
  - intros v y Hy. apply lookup_delete_Some in Hy as [_ Hy]. by eapply H4.
  - intros v w y z Hy Hz. apply lookup_delete_Some in Hy as [_ Hy], Hz as [_ Hz]. by eapply H5.
Qed.

Lemma wf_update valid alive l us n u x ent : undos_wf valid alive l us n -> us !! u = Some x -> entries_wf valid ent ->
  undos_wf valid alive l (<[u := Sem_undo (un_proc x) ent]> us) n.
Proof.
  intros [H1 H2 H3 H4 H5] Hx Hwf. assert (forall v y, <[u := Sem_undo (un_proc x) ent]> us !! v = Some y ->
    exists z, us !! v = Some z /\ un_proc y = un_proc z /\ (entries_wf valid (un_ent z) -> entries_wf valid (un_ent y))) as Hi.
  { intros v y Hy. apply lookup_insert_Some in Hy as [[<- <-]|[_ Hy] ]; [by exists x|by exists y]. }
  split; [done| |done| |].
  - intros v. rewrite H2, lookup_insert_is_Some. destruct (decide (u = v)) as [->|]; [rewrite Hx|]; naive_solver.
  - intros v y (z & Hz & -> & He)%Hi. destruct (H4 v z Hz). split; [done|by apply He].
  - intros v w y z (y' & Hy & -> & _)%Hi (z' & Hz & -> & _)%Hi. by apply H5.
Qed.

Lemma wf_alloc valid alive l us n p u : undos_wf valid alive l us n -> us !! u = None -> alive p ->
  (forall v y, us !! v = Some y -> un_proc y <> p) -> undos_wf valid alive (u :: l) (<[u := Sem_undo p []]> us) (n + 1).
Proof.
  intros [H1 H2 H3 H4 H5] Hu Hp Hn. split.
  - apply NoDup_cons. split; [|done]. rewrite H2, Hu. by intros [].
  - intros v. rewrite elem_of_cons, H2, lookup_insert_is_Some. destruct (decide (u = v)) as [->|]; [rewrite Hu|]; naive_solver.
  - simpl. lia.
  - intros v y Hy. apply lookup_insert_Some in Hy as [[_ <-]|[_ Hy] ]; [|by eapply H4]. split; [done|]. split; [constructor|].
    split; [done|constructor].
  - intros v w y z Hy Hz. apply lookup_insert_Some in Hy as [[<- <-]|[Hv Hy] ], Hz as [[<- <-]|[Hw Hz] ]; simpl; try done.
    + intros E. by edestruct Hn.
    + intros E. by edestruct Hn.
    + by apply H5.
Qed.

Lemma stored_ok valid alive u x ent s s' : undos_st (undos_wf valid alive) s -> undos s !! u = Some x ->
  (forall v y, v <> u -> undos s !! v = Some y -> un_ent y <> []) -> entries_wf valid ent -> stored u (un_proc x) ent s s' ->
  undos_st (undos_ok valid alive) s' /\ undo_map (un_proc x) s' = umap ent /\
  (forall q, q <> un_proc x -> undo_map q s' = undo_map q s) /\
  s' = set_undos (semu_list s') (undos s') (semutot s') s /\
  undos s' !! u = (if bool_decide (umap ent = ∅) then None else Some (Sem_undo (un_proc x) ent)).
Proof.
  intros H Hx Hne Hwf Hst. assert (undos_st (undos_ok valid alive) s' /\ undo_map (un_proc x) s' = umap ent /\
    (forall q v y, q <> un_proc x -> un_proc y = q -> undos s' !! v = Some y <-> undos s !! v = Some y) /\
    s' = set_undos (semu_list s') (undos s') (semutot s') s /\
    undos s' !! u = (if bool_decide (ent = []) then None else Some (Sem_undo (un_proc x) ent))) as (H1 & H2 & H3 & H4 & H5).
  { destruct ent as [|e ent]; simpl in Hst.
    - destruct Hst as [Hp ->]. pose proof (wf_delete _ _ _ _ _ u _ H Hp) as Hd. conj; try done.
      + split; [exact Hd|]. intros v y Hy. simpl in Hy. apply lookup_delete_Some in Hy as [Hv Hy]. by eapply Hne.
      + unfold undo_map. simpl. rewrite undo_entries_none; [done|]. intros v y _ Hy E.
        apply lookup_delete_Some in Hy as [Hv Hy]. apply Hv. by rewrite (un_inj _ _ _ _ _ H u v x y Hx Hy) by done.
      + intros q v y Hq Ey. simpl. rewrite lookup_delete_Some. split; [tauto|]. intros Hy. split; [|done].
        intros ->. rewrite Hx in Hy. congruence.
      + apply lookup_delete_eq.
    - subst s'. pose proof (wf_update _ _ _ _ _ u x (e :: ent) H Hx Hwf) as Hd. conj; try done.
      + split; [exact Hd|]. intros v y Hy. simpl in Hy. apply lookup_insert_Some in Hy as [[_ <-]|[Hv Hy] ]; [done|]. by eapply Hne.
      + change (un_proc x) with (un_proc (Sem_undo (un_proc x) (e :: ent))).
        erewrite (undo_map_some _ _ u); [done|exact Hd|apply lookup_insert_eq].
      + intros q v y Hq Ey. simpl. destruct (decide (v = u)) as [->|Hv]; [|by rewrite lookup_insert_ne by done].
        rewrite lookup_insert_eq, Hx. split; intros [= <-]; done.
      + apply lookup_insert_eq. }
  conj; try done.
  - intros q Hq. eapply undo_map_eq; [apply H1|exact H|]. intros v y Ey. by eapply H3.
  - rewrite H5. rewrite (bool_decide_ext (ent = []) (umap ent = ∅)); [done|]. by rewrite umap_empty by apply Hwf.
Qed.

(** What an adjustment of the map [m] of [p] at [k] by [v] does. *)
Definition adjusted (valid : Z -> Z -> Prop) (alive : Z -> Prop) (p w : Z) (m : gmap (Z * Z) Z) (s s' : sem_state) : Prop :=
  s' = set_undos (semu_list s') (undos s') (semutot s') s /\ undos_st (undos_ok valid alive) s' /\
  undo_map p s' = m /\ (forall q, q <> p -> undo_map q s' = undo_map q s) /\
  if bool_decide (m = ∅) then undos s' !! w = None else exists x, undos s' !! w = Some x /\ un_proc x = p.

Lemma entry_adjusts valid alive w x id n v s :
  undos_st (undos_wf valid alive) s -> undos s !! w = Some x ->
  (forall z y, z <> w -> undos s !! z = Some y -> un_ent y <> []) ->
  is_s 16 n -> valid id n -> - 32768 <= v <= 32768 -> v <> 0 ->
  let m := umap (un_ent x) in
  if full m (id, n) then semundo_entry w id n v s = Ret (EINVAL, s)
  else exists s', semundo_entry w id n v s = Ret (0, s') /\ adjusted valid alive (un_proc x) w (adjust m (id, n) v) s s'.
Proof.
  intros H Hx Hne Hn Hv Hr Hv0 m. assert (w ∈ semu_list s) as Hw by (apply H; by eexists).
  destruct (un_ok _ _ _ _ _ H w x Hx) as [_ Hwf].
  pose proof (semundo_entry_spec valid w x id n v s Hx Hw (un_nodup _ _ _ _ _ H) Hwf Hn Hv Hr Hv0) as He. fold m in He.
  destruct (full m (id, n)); [done|]. destruct He as (ent & s' & E & Hm & Hwf' & Hst). exists s'. split; [done|].
  destruct (stored_ok _ _ _ _ _ _ _ H Hx Hne Hwf' Hst) as (H1 & H2 & H3 & H4 & H5). rewrite Hm in H2, H5.
  unfold adjusted. conj; try done. rewrite H5. case_bool_decide; [done|]. by eexists.
Qed.

(** One adjustment: it is refused when there is no structure or no entry left,
    and the pointer to the structure dangles when the last entry goes. *)
Definition adjust_result (valid : Z -> Z -> Prop) (alive : Z -> Prop) (p : Z) (k : Z * Z) (v : Z) (s : sem_state)
    (o : outcome (Z * option Z * sem_state)) : Prop :=
  let m := undo_map p s in
  if bool_decide (m = ∅) && (semutot s =? semmnu (info s)) then o = Ret (ENOSPC, None, s)
  else if full m k then exists w, o = Ret (EINVAL, w, s)
  else exists w s', o = Ret (0, Some w, s') /\ adjusted valid alive p w (adjust m k v) s s'.

Section Adjust.
Context (valid : Z -> Z -> Prop) (alive : Z -> Prop) (p id n v : Z).
Context (Hp : alive p) (Hn : is_s 16 n) (Hv : valid id n) (Hr : - 32768 <= v <= 32768) (Hv0 : v <> 0).

Lemma adjust_old w x s : undos_st (undos_ok valid alive) s -> undos s !! w = Some x -> un_proc x = p ->
  adjust_result valid alive p (id, n) v s (let! (e, s) := semundo_entry w id n v s in Ret (e, Some w, s)).
Proof.
  intros [H Hne] Hx <-. pose proof (undo_map_some _ _ w x s H Hx) as Em. unfold adjust_result. rewrite Em.
  rewrite bool_decide_eq_false_2 by (rewrite umap_empty by (by eapply un_ok); by eapply Hne).
  pose proof (entry_adjusts valid alive w x id n v s H Hx ltac:(eauto) Hn Hv Hr Hv0) as He. cbv zeta in He.
  cbn [andb]. destruct (full (umap (un_ent x)) (id, n)); [rewrite He; by exists (Some w)|].
  destruct He as (s' & -> & Ha). by exists w, s'.
Qed.

Lemma adjust_new u s : undos_st (undos_ok valid alive) s -> undos s !! u = None ->
  (forall z y, undos s !! z = Some y -> un_proc y <> p) ->
  adjust_result valid alive p (id, n) v s
    (match semu_alloc p u s with
     | None => Ret (ENOSPC, None, s)
     | Some s => let! (e, s) := semundo_entry u id n v s in Ret (e, Some u, s)
     end).
Proof.
  intros [H Hne] Hu Hnone. assert (undo_map p s = ∅) as Em.
  { destruct (undo_map_cases _ _ p s H) as [(z & y & Hy & Ey & _)|[_ Em] ]; [by edestruct Hnone|done]. }
  unfold adjust_result, semu_alloc. rewrite Em, bool_decide_eq_true_2 by done. cbn [andb].
  destruct (semutot s =? semmnu (info s)); [done|]. pose proof (wf_alloc _ _ _ _ _ p u H Hu Hp Hnone) as Hwf.
  set (s1 := set_undos _ _ _ s). pose proof (entry_adjusts valid alive u (Sem_undo p []) id n v s1 Hwf) as He. simpl in He.
  change (full ∅ (id, n)) with false. change (full (umap []) (id, n)) with false in He. cbv iota in He |- *.
  destruct He as (s' & -> & H1 & H2 & H3 & H4 & H5); try done; [apply lookup_insert_eq| |].
  { intros z y Hz. rewrite lookup_insert_ne by done. apply Hne. }
  exists u, s'. split; [done|]. unfold adjusted. conj; try done. intros q Hq. rewrite (H4 q Hq). symmetry.
  eapply undo_map_eq; [exact H|exact Hwf|]. intros z y Ey. simpl. destruct (decide (z = u)) as [->|]; [|by rewrite lookup_insert_ne by done].
  rewrite lookup_insert_eq, Hu. split; [done|]. intros [= <-]. done.
Qed.

Lemma semundo_adjust_spec suptr u s : undos_st (undos_ok valid alive) s ->
  match suptr with Some w => exists x, undos s !! w = Some x /\ un_proc x = p | None => undos s !! u = None end ->
  adjust_result valid alive p (id, n) v s (semundo_adjust p suptr id n v u s).
Proof.
  intros H Hsp. destruct suptr as [w|]; [destruct Hsp as (x & Hx & Ex); by apply (adjust_old w x)|]. unfold semundo_adjust.
  assert (forall w, w ∈ semu_list s <-> is_Some (undos s !! w)) as Hd by apply H.
  destruct (find_undo_spec (undos s) p (semu_list s)) as [[-> Hnone]|(w & x & -> & Hw & Hx & Ex)]; [intros w; apply Hd| |];
    cbn [bind]; [|by apply (adjust_old w x)].
  rewrite (proj2 (Z.eqb_neq _ _) Hv0). apply adjust_new; try done. intros z y Hy. eapply Hnone; [|done]. apply Hd. by eexists.
Qed.
End Adjust.

(** * [semundo_clear] *)

Definition cleared (id n : Z) (x : sem_undo) : option sem_undo :=
  match clear_entries id n (un_ent x) 0 (length (un_ent x)) with [] => None | ent => Some (Sem_undo (un_proc x) ent) end.

Lemma clear_list_spec id n l us : NoDup l -> (forall u, u ∈ l -> is_Some (us !! u)) ->
  exists l' us', clear_list id n l us = Ret (l', us') /\
    (forall u, us' !! u = if decide (u ∈ l) then us !! u ≫= cleared id n else us !! u) /\
    l' = filter (fun u => is_Some (us' !! u)) l.
Proof.
  revert us. induction l as [|u l IH]; intros us Hn Hd; cbn [clear_list]; [by exists [], us|].
  apply NoDup_cons in Hn as [Hu Hn]. destruct (Hd u) as [x Hx]; [by left|]. unfold deref. rewrite Hx. cbn [bind].
  assert (forall o, exists l' us', clear_list id n l (partial_alter (fun _ => o) u us) = Ret (l', us') /\
    (forall v, v <> u -> us' !! v = if decide (v ∈ u :: l) then us !! v ≫= cleared id n else us !! v) /\
    us' !! u = o /\ l' = filter (fun u => is_Some (us' !! u)) l) as Hgo.
  { intros o. destruct (IH (partial_alter (fun _ => o) u us) Hn) as (l' & us' & E & H1 & H2).
    { intros v Hv. rewrite lookup_partial_alter_ne by congruence. apply Hd. by right. }
    exists l', us'. conj; try done.
    - intros v Hv. rewrite H1, lookup_partial_alter_ne by done. repeat case_decide; set_solver.
    - rewrite H1, lookup_partial_alter_eq. by case_decide. }
  assert (us !! u ≫= cleared id n = match clear_entries id n (un_ent x) 0 (length (un_ent x)) with [] => None | ent => Some (Sem_undo (un_proc x) ent) end) as Ec by by rewrite Hx.
  destruct (clear_entries id n (un_ent x) 0 (length (un_ent x))) as [|e ent].
  - destruct (Hgo None) as (l' & us' & E & H1 & H2 & H3). exists l', us'. conj; [exact E| |].
    + intros v. destruct (decide (v = u)) as [->|Hv]; [|by apply H1]. rewrite decide_True by by left. congruence.
    + rewrite filter_cons, decide_False; [done|]. rewrite H2. by intros [].
  - destruct (Hgo (Some (Sem_undo (un_proc x) (e :: ent)))) as (l' & us' & E & H1 & H2 & H3). exists (u :: l'), us'. conj.
    + change (partial_alter _ u us) with (<[u := Sem_undo (un_proc x) (e :: ent)]> us) in E. rewrite E. done.
    + intros v. destruct (decide (v = u)) as [->|Hv]; [|by apply H1]. rewrite decide_True by by left. congruence.
    + rewrite filter_cons, decide_True; [by rewrite H3|]. rewrite H2. done.
Qed.

Lemma semundo_clear_spec valid alive id n s : undos_st (undos_ok valid alive) s ->
  exists s', semundo_clear id n s = Ret s' /\ s' = set_undos (semu_list s') (undos s') (semutot s') s /\
    undos_st (undos_ok (fun i k => valid i k /\ (n = -1 -> i <> id)) alive) s' /\
    forall u, undos s' !! u = undos s !! u ≫= cleared id n.
Proof.
  intros [ [H1 H2 H3 H4 H5] H6]. unfold semundo_clear.
  destruct (clear_list_spec id n (semu_list s) (undos s) H1) as (l' & us' & -> & Hus & Hl); [intros u; by apply H2|]. cbn [bind].
  assert (forall u, us' !! u = undos s !! u ≫= cleared id n) as Hus'.
  { intros u. rewrite Hus. case_decide as Hu; [done|]. destruct (undos s !! u) as [x|] eqn:E; [|done]. edestruct Hu. apply H2. by eexists. }
  eexists. conj; [done|done| |done].
  assert (forall u y, us' !! u = Some y -> exists x dropped, undos s !! u = Some x /\ un_proc y = un_proc x /\ un_ent y <> [] /\
    un_ent x ≡ₚ dropped ++ un_ent y /\ (n = -1 -> Forall (fun e => un_id e <> id) (un_ent y))) as Hy.
  { intros u y Ey. rewrite Hus' in Ey. destruct (undos s !! u) as [x|] eqn:E; [|done]. simpl in Ey. unfold cleared in Ey.
    destruct (clear_some id n (un_ent x) 0 (length (un_ent x))) as (dr & Hp & _).
    assert (n = -1 -> Forall (fun e => un_id e <> id) (clear_entries id n (un_ent x) 0 (length (un_ent x)))) as Hall.
    { intros ->. edestruct (clear_all id (un_ent x) 0) as (? & _ & _ & Hr); [|constructor|exact Hr]. lia. }
    destruct (clear_entries id n (un_ent x) 0 (length (un_ent x))) as [|e ent]; [done|]. injection Ey as <-. exists x, dr. done. }
  split; [split|]; simpl.
  - rewrite Hl. by apply NoDup_filter.
  - intros u. rewrite Hl, list_elem_of_filter, H2. split; [tauto|]. intros Hu. split; [done|]. destruct Hu as [y Hu].
    apply Hy in Hu as (x & _ & Hx & _). by eexists.
  - pose proof (length_filter (fun u => is_Some (us' !! u)) (semu_list s)). rewrite Hl, H3. lia.
  - intros u y (x & dr & Hx & -> & _ & Hp & Hall)%Hy. destruct (H4 u x Hx) as [Ha (Hn & Hlen & Hf)]. split; [done|].
    rewrite Hp in Hn, Hlen, Hf. rewrite fmap_app in Hn. rewrite length_app in Hlen. apply Forall_app in Hf as [_ Hf].
    split; [by eapply NoDup_app|]. split; [lia|]. rewrite Forall_forall in Hf |- *. intros e He. destruct (Hf e He) as (E1 & E2 & E3).
    split; [done|]. split; [done|]. split; [done|]. intros E. specialize (Hall E). rewrite Forall_forall in Hall. by apply Hall.
  - intros u v y z (x & _ & Hx & -> & _)%Hy (x' & _ & Hx' & -> & _)%Hy. by apply H5.
  - intros u y (x & dr & _ & _ & Hne & _)%Hy. done.
Qed.
