(* ===== verification/SemOp.v ===== *)
(** * The loops of [semop]

    The requests of a vector add up per semaphore, so that what [perform] did is
    what [rollback] takes back; and what recording the adjustments for exit does
    to the map of the process, with the vectors for which it goes wrong. *)

From stdpp Require Import gmap.
From S2P Require Import Prelude Sem SemUndo.

(** * Values *)

(** What the requests add to semaphore [n]. *)
Fixpoint total (sops : list sembuf) (n : nat) : Z :=
  match sops with
  | [] => 0
  | o :: sops => (if decide (Z.to_nat (sem_num o) = n) then sem_op o else 0) + total sops n
  end.

Definition shift (f : nat -> Z) (base : list sem) : list sem := imap (fun n x => set_semval (u16 (semval x + f n)) x) base.

Definition vals_ok (base : list sem) : Prop := Forall (fun x => is_u 16 (semval x)) base.

Lemma u16_add x y : u16 (u16 x + y) = u16 (x + y).
Proof. unfold u16, wrap. by rewrite Zplus_mod_idemp_l. Qed.

Lemma u16_range x : is_u 16 (u16 x).
Proof. by apply wrap_range. Qed.

Lemma shift_length f base : length (shift f base) = length base.
Proof. apply length_imap. Qed.

Lemma shift_lookup f base n : shift f base !! n = (fun x => set_semval (u16 (semval x + f n)) x) <$> base !! n.
Proof. apply list_lookup_imap. Qed.

Lemma shift_vals f base : vals_ok (shift f base).
Proof.
  apply Forall_lookup. intros n x Hx. rewrite shift_lookup in Hx. apply fmap_Some in Hx as (y & _ & ->). apply u16_range.
Qed.

Lemma shift_shift f g base : shift g (shift f base) = shift (fun n => f n + g n) base.
Proof.
  apply list_eq. intros n. rewrite !shift_lookup. destruct (base !! n) as [x|]; [|done]. cbn. unfold set_semval. cbn.
  by rewrite u16_add, Z.add_assoc.
Qed.

Lemma shift_zero f base : vals_ok base -> (forall n, f n = 0) -> shift f base = base.
Proof.
  intros Hv Hf. apply list_eq. intros n. rewrite shift_lookup. destruct (base !! n) as [x|] eqn:E; [|done]. cbn.
  apply (Forall_lookup_1 _ _ _ _ Hv) in E. rewrite Hf, Z.add_0_r, u16_small by done. by destruct x.
Qed.

Lemma shift_ext f g base : (forall n, f n = g n) -> shift f base = shift g base.
Proof. intros H. apply imap_ext. intros n x _. by rewrite H. Qed.

Lemma request_total_app l l' n : total (l ++ l') n = total l n + total l' n.
Proof. induction l as [|o l IH]; simpl; [done|]. rewrite IH. lia. Qed.

Lemma total_snoc l o n : total (l ++ [o]) n = total l n + (if decide (Z.to_nat (sem_num o) = n) then sem_op o else 0).
Proof. rewrite request_total_app. simpl. lia. Qed.

(** One semaphore. *)
Lemma shift_one f base n v x : vals_ok base -> base !! n = Some x -> (forall k, f k = if decide (n = k) then v else 0) ->
  <[n := set_semval (u16 (semval x + v)) x]> base = shift f base.
Proof.
  intros Hv Hx Hf. apply list_eq. intros k. rewrite shift_lookup, Hf. destruct (decide (n = k)) as [<-|Hn].
  - rewrite list_lookup_insert_eq by (by eapply lookup_lt_Some). by rewrite Hx.
  - rewrite list_lookup_insert_ne by done. destruct (base !! k) as [y|] eqn:Ey; [|done]. cbn.
    apply (Forall_lookup_1 _ _ _ _ Hv) in Ey. rewrite Z.add_0_r, u16_small by done. by destruct y.
Qed.

Lemma total_one o k : total [o] k = if decide (Z.to_nat (sem_num o) = k) then sem_op o else 0.
Proof. simpl. lia. Qed.

(** The requests name semaphores of the array. *)
Definition in_range (n : nat) (o : sembuf) : Prop := 0 <= sem_num o < Z.of_nat n.

#[export] Instance in_range_dec n o : Decision (in_range n o).
Proof. unfold in_range. apply _. Defined.

Lemma rollback_spec sops base : vals_ok base -> Forall (in_range (length base)) sops ->
  rollback sops base = Ret (shift (fun n => - total sops n) base).
Proof.
  revert base. induction sops as [|o sops IH]; intros base Hv Hr; cbn [rollback].
  - by rewrite shift_zero.
  - apply Forall_cons in Hr as [Ho Hr]. destruct (aget_bounds base _ Ho) as (x & -> & Hx). cbn [bind].
    rewrite aset_bounds by done. cbn [bind]. replace (semval x - sem_op o) with (semval x + - sem_op o) by lia.
    rewrite (shift_one (fun n => - total [o] n) base _ _ x Hv Hx) by (intros n; rewrite total_one; case_decide; lia).
    rewrite IH; [|apply shift_vals|by rewrite shift_length]. rewrite shift_shift. f_equal. apply shift_ext. intros n.
    simpl. lia.
Qed.

(** Request [o] cannot be granted at the value [v]. *)
Definition must_wait (v : Z) (o : sembuf) : bool := (sem_op o <? 0) && (v + sem_op o <? 0) || (sem_op o =? 0) && (0 <? v).

Definition blocked (base : list sem) (o : sembuf) : Prop :=
  exists x, base !! Z.to_nat (sem_num o) = Some x /\ must_wait (semval x) o = true.

(** The values after the requests, one after another, if all can be granted. *)
Fixpoint grant (vals : list Z) (sops : list sembuf) : option (list Z) :=
  match sops with
  | [] => Some vals
  | o :: sops =>
      match vals !! Z.to_nat (sem_num o) with
      | None => None
      | Some v =>
          if must_wait v o then None
          else grant (<[Z.to_nat (sem_num o) := u16 (v + sem_op o)]> vals) sops
      end
  end.

Lemma shift_one_vals o base x : vals_ok base -> base !! Z.to_nat (sem_num o) = Some x ->
  semval <$> shift (total [o]) base = <[Z.to_nat (sem_num o) := u16 (semval x + sem_op o)]> (semval <$> base).
Proof. intros Hv Hx. rewrite <- (shift_one _ _ _ _ x Hv Hx (total_one o)), list_fmap_insert. done. Qed.

(** Where the loop stopped: before the requests [rest]. *)
Definition stopped (nsems i : Z) (base : list sem) (took rest : list sembuf) (r : progress) : Prop :=
  match r, rest with
  | Through, [] => True
  | TooBig, o :: _ => nsems <= sem_num o
  | Stuck j, o :: _ => j = i + Z.of_nat (length took) /\ in_range (length base) o /\ blocked (shift (total took) base) o
  | _, _ => False
  end.

(** Granting [o] wakes up the waiters of the set. *)
Definition wakes (x : sem) (o : sembuf) : bool :=
  if sem_op o <? 0 then (u16 (semval x + sem_op o) =? 0) && (0 <? semzcnt x) else if sem_op o =? 0 then false else 0 <? semncnt x.

Fixpoint quiet (base : list sem) (took : list sembuf) : Prop :=
  match took with
  | [] => True
  | o :: took => (forall x, base !! Z.to_nat (sem_num o) = Some x -> wakes x o = false) /\ quiet (shift (total [o]) base) took
  end.

Definition performed (nsems i : Z) (base : list sem) (w d : bool) (sops : list sembuf) (r : progress) (base' : list sem) (w' d' : bool) : Prop :=
  exists took rest, sops = took ++ rest /\ base' = shift (total took) base /\ Forall (in_range (length base)) took /\
    grant (semval <$> base) took = Some (semval <$> base') /\
    stopped nsems i base took rest r /\ d' = d || existsb undone took /\ (w' = false -> w = false /\ quiet base took).

Definition typed_op (o : sembuf) : Prop := 0 <= sem_num o /\ is_s 16 (sem_op o).

Lemma shift_total_cons o took base : shift (total took) (shift (total [o]) base) = shift (total (o :: took)) base.
Proof. rewrite shift_shift. apply shift_ext. intros n. change (o :: took) with ([o] ++ took). by rewrite request_total_app. Qed.

(** One request. *)
Lemma perform_cons nsems o sops i base w d x : vals_ok base -> in_range (length base) o -> sem_num o < nsems -> is_s 16 (sem_op o) ->
  base !! Z.to_nat (sem_num o) = Some x ->
  perform nsems (o :: sops) i base w d =
    if must_wait (semval x) o then Ret (Stuck i, base, w, d)
    else perform nsems sops (i + 1) (shift (total [o]) base) (w || wakes x o) (d || undone o).
Proof.
  intros Hv Ho Hn Hop Hx. cbn [perform]. rewrite (proj2 (Z.leb_gt _ _)) by done.
  rewrite (aget_Some _ _ x) by (try done; apply Ho). cbn [bind].
  apply (Forall_lookup_1 _ _ _ _ Hv) in Hx as Hxv. unfold is_u, is_s in Hxv, Hop.
  assert (s32 (semval x + sem_op o) = semval x + sem_op o) as -> by (apply swrap_small; unfold is_s; lia).
  rewrite !aset_bounds by done. cbn [bind]. rewrite (shift_one (total [o]) base _ _ x Hv Hx) by apply total_one.
  unfold wakes, undone, must_wait.
  destruct (Z.ltb_spec (sem_op o) 0), (Z.eqb_spec (sem_op o) 0); try lia; cbn [andb orb negb].
  - rewrite orb_false_r, andb_true_r. done.
  - destruct (Z.ltb_spec 0 (semval x)); [done|]. rewrite andb_false_r, !orb_false_r.
    rewrite shift_zero; [done|done|]. intros k. rewrite total_one. by case_decide.
  - by rewrite andb_true_r.
Qed.

Lemma perform_spec nsems sops i base w d : Z.of_nat (length base) = nsems -> vals_ok base -> Forall typed_op sops ->
  exists r base' w' d', perform nsems sops i base w d = Ret (r, base', w', d') /\ performed nsems i base w d sops r base' w' d'.
Proof.
  revert i base w d. induction sops as [|o sops IH]; intros i base w d Hl Hv Ht.
  { eexists _, _, _, _. split; [done|]. exists [], []. conj; try done; [by rewrite shift_zero|by rewrite orb_false_r]. }
  apply Forall_cons in Ht as [ [Hn Hop] Ht]. destruct (Z.leb_spec nsems (sem_num o)) as [Hbig|Hlt].
  { eexists _, _, _, _. split; [cbn [perform]; by rewrite (proj2 (Z.leb_le _ _)) by done|].
    exists [], (o :: sops). conj; try done; [by rewrite shift_zero|by rewrite orb_false_r]. }
  assert (in_range (length base) o) as Ho by (split; lia). destruct (aget_bounds base _ Ho) as (x & _ & Hx).
  rewrite (perform_cons nsems o sops i base w d x Hv Ho Hlt Hop Hx). destruct (must_wait (semval x) o) eqn:Hb.
  - eexists _, _, _, _. split; [done|]. exists [], (o :: sops). conj; try done; [by rewrite shift_zero| |by rewrite orb_false_r].
    simpl. rewrite shift_zero by done. conj; [lia|done|by exists x].
  - destruct (IH (i + 1) (shift (total [o]) base) (w || wakes x o) (d || undone o)) as (r & b' & w' & d' & -> & took & rest & E & -> & Hf & Hg & Hst & -> & Hq);
      [by rewrite shift_length|apply shift_vals|done|].
    eexists _, _, _, _. split; [done|]. exists (o :: took), rest. rewrite shift_length in Hf. conj.
    + by rewrite E.
    + apply shift_total_cons.
    + by constructor.
    + cbn [grant]. rewrite list_lookup_fmap, Hx. cbn. rewrite Hb, <- shift_one_vals by done. exact Hg.
    + unfold stopped in *. destruct r, rest; try done. destruct Hst as (-> & Hr & Hb'). rewrite shift_length in Hr.
      conj; [cbn [length]; lia|done|]. by rewrite shift_total_cons in Hb'.
    + simpl. by rewrite orb_assoc.
    + intros Ew. destruct (Hq Ew) as [Ew0 Hq']. apply orb_false_iff in Ew0 as [-> Ew0]. split; [done|]. simpl.
      split; [|done]. intros y Hy. congruence.
Qed.

(** * Adjustments *)

(** What recording the adjustments of a vector comes to: the new map, an error
    for the first request, or a use of the structure after it was freed, or an
    error for a later request, after which the loop that takes back the others
    does not end.  [cached]: the structure was looked up. *)
Inductive plan := Recorded (m : gmap (Z * Z) Z) | Refused (e : Z) | Hazard.

Fixpoint undo_plan (room : bool) (ix : Z) (m : gmap (Z * Z) Z) (cached first : bool) (sops : list sembuf) : plan :=
  match sops with
  | [] => Recorded m
  | o :: sops =>
      let k := (ix, sem_num o) in
      let refuse e := if first then Refused e else Hazard in
      if undone o then
        if bool_decide (m = ∅) && cached then Hazard
        else if bool_decide (m = ∅) && negb room then refuse ENOSPC
        else if full m k then refuse EINVAL
        else undo_plan room ix (adjust m k (- sem_op o)) true false sops
      else undo_plan room ix m cached false sops
  end.

(** [suptr] of [semop]. *)
Definition pointer (p u : Z) (cached : bool) (suptr : option Z) (s : sem_state) : Prop :=
  match suptr with
  | None => cached = false /\ undos s !! u = None
  | Some w => cached = true /\ if bool_decide (undo_map p s = ∅) then undos s !! w = None else exists x, undos s !! w = Some x /\ un_proc x = p
  end.

Definition recorded (valid : Z -> Z -> Prop) (alive : Z -> Prop) (p : Z) (m : gmap (Z * Z) Z) (s s' : sem_state) : Prop :=
  s' = set_undos (semu_list s') (undos s') (semutot s') s /\ undos_st (undos_ok valid alive) s' /\
  undo_map p s' = m /\ (forall q, q <> p -> undo_map q s' = undo_map q s).

Lemma recorded_trans valid alive p m m' s s' s'' : recorded valid alive p m s s' -> recorded valid alive p m' s' s'' -> recorded valid alive p m' s s''.
Proof.
  intros (E1 & _ & _ & H1) (E2 & H2 & Hm & H3). unfold recorded. conj; try done; [rewrite E2, E1; done|].
  intros q Hq. by rewrite H3, H1.
Qed.

Lemma record_undos_spec {A : arch} valid alive p ix sops suptr u i s room cached :
  undos_st (undos_ok valid alive) s -> alive p -> 0 <= i -> pointer p u cached suptr s ->
  (cached = false -> room = negb (semutot s =? semmnu (info s))) ->
  Forall (fun o => is_s 16 (sem_num o) /\ is_s 16 (sem_op o) /\ valid ix (sem_num o)) sops ->
  match undo_plan room ix (undo_map p s) cached (i =? 0) sops with
  | Recorded m => exists s', record_undos p ix sops suptr u i s = Ret (None, s') /\ recorded valid alive p m s s'
  | Refused e => i = 0 /\ exists w, record_undos p ix sops suptr u i s = Ret (Some (e, 0, w), s)
  | Hazard => (forall x, record_undos p ix sops suptr u i s <> Ret x) \/
              exists e j w s', record_undos p ix sops suptr u i s = Ret (Some (e, j, w), s') /\ 0 < j
  end.
Proof.
  revert suptr i s cached. induction sops as [|o sops IH]; intros suptr i s cached H Hp Hi Hptr Hroom Hs; cbn [undo_plan record_undos].
  { exists s. split; [done|]. unfold recorded. by destruct s. }
  apply Forall_cons in Hs as [(Hn & Hop & Hv) Hs]. destruct (undone o) eqn:Eu.
  2: { specialize (IH suptr (i + 1) s cached H Hp ltac:(lia) Hptr Hroom Hs). rewrite (proj2 (Z.eqb_neq (i + 1) 0)) in IH by lia.
    destruct (undo_plan _ _ _ _ _ _); [done| |done]. lia. }
  destruct (bool_decide (undo_map p s = ∅) && cached) eqn:Ec.
  { apply andb_true_iff in Ec as [Em ->]. left. destruct suptr as [w|]; [|by destruct Hptr]. destruct Hptr as [_ Hw].
    rewrite Em in Hw. unfold semundo_adjust, semundo_entry, deref. by rewrite Hw. }
  assert (bool_decide (undo_map p s = ∅) && negb room = bool_decide (undo_map p s = ∅) && (semutot s =? semmnu (info s))) as ->.
  { destruct (bool_decide _); [|done]. simpl in *. rewrite Hroom, negb_involutive; done. }
  assert (- 32768 <= - sem_op o <= 32768 /\ - sem_op o <> 0) as [Hr H0].
  { unfold undone in Eu. boolify. unfold is_s in Hop. lia. }
  pose proof (semundo_adjust_spec valid alive p ix (sem_num o) (- sem_op o) Hp Hn Hv Hr H0 suptr u s H) as Ha.
  assert (match suptr with Some w => exists x, undos s !! w = Some x /\ un_proc x = p | None => undos s !! u = None end) as Hsp.
  { destruct suptr as [w|]; [|apply Hptr]. destruct Hptr as [-> Hw]. rewrite andb_true_r in Ec. by rewrite Ec in Hw. }
  specialize (Ha Hsp). unfold adjust_result in Ha. cbv zeta in Ha.
  destruct (bool_decide (undo_map p s = ∅) && (semutot s =? semmnu (info s))).
  { rewrite Ha. cbn [bind]. change (ENOSPC =? 0) with false. destruct (Z.eqb_spec i 0) as [->|]; [split; [done|by eexists]|].
    right. eexists _, _, _, _. split; [done|lia]. }
  destruct (full (undo_map p s) (ix, sem_num o)).
  { destruct Ha as [w ->]. cbn [bind]. change (EINVAL =? 0) with false. destruct (Z.eqb_spec i 0) as [->|]; [split; [done|by eexists]|].
    right. eexists _, _, _, _. split; [done|lia]. }
  destruct Ha as (w & s' & -> & E' & Hok & Hm & Hq & Hw). cbn [bind]. change (0 =? 0) with true. cbv iota. rewrite <- Hm in Hw |- *.
  specialize (IH (Some w) (i + 1) s' true Hok Hp ltac:(lia) (conj eq_refl Hw) ltac:(done) Hs).
  rewrite (proj2 (Z.eqb_neq (i + 1) 0)) in IH by lia. destruct (undo_plan _ _ _ _ _ _); [|lia|done].
  destruct IH as (s'' & -> & Hrec). exists s''. split; [done|]. eapply recorded_trans; [|done]. by split.
Qed.

Lemma undo_undos_stuck {A : arch} p ix sops suptr u j s s' : undo_undos p ix sops suptr u j s <> Ret s'.
Proof.
  revert suptr s. induction j as [|j IH]; intros suptr s; cbn [undo_undos]; destruct (aget sops _) as [o| | |]; try done; cbn [bind].
  all: destruct (if undone o then _ else _) as [ [suptr' s1]| | |]; try done; cbn [bind].
  - by destruct (_ <=? _).
  - apply IH.
Qed.

(** * The processes that did it last *)

Definition touched (sops : list sembuf) (n : nat) : bool := existsb (fun o => bool_decide (Z.to_nat (sem_num o) = n)) sops.

Definition stamp (p : Z) (sops : list sembuf) (base : list sem) : list sem :=
  imap (fun n x => if touched sops n then set_sempid p x else x) base.

Lemma set_pids_spec p sops base : Forall (in_range (length base)) sops -> set_pids p sops base = Ret (stamp p sops base).
Proof.
  revert base. induction sops as [|o sops IH]; intros base Hr; cbn [set_pids].
  - f_equal. apply list_eq. intros n. unfold stamp. rewrite list_lookup_imap. by destruct (base !! n).
  - apply Forall_cons in Hr as [Ho Hr]. destruct (aget_bounds base _ Ho) as (x & -> & Hx). cbn [bind]. rewrite aset_bounds by done.
    cbn [bind]. rewrite IH by by rewrite length_insert. f_equal. apply list_eq. intros n. unfold stamp. rewrite !list_lookup_imap.
    unfold touched. cbn [existsb]. destruct (decide (Z.to_nat (sem_num o) = n)) as [<-|Hn].
    + rewrite list_lookup_insert_eq by (by eapply lookup_lt_Some). rewrite Hx, bool_decide_eq_true_2 by done. cbn. f_equal.
      by destruct (existsb _ _).
    + rewrite list_lookup_insert_ne by done. by rewrite bool_decide_eq_false_2 by done.
Qed.

Lemma perform_grant nsems sops i base w d : Z.of_nat (length base) = nsems -> vals_ok base -> Forall typed_op sops ->
  match grant (semval <$> base) sops with
  | Some vals => exists base' w' d', perform nsems sops i base w d = Ret (Through, base', w', d') /\ semval <$> base' = vals
  | None => forall base' w' d', perform nsems sops i base w d <> Ret (Through, base', w', d')
  end.
Proof.
  revert i base w d. induction sops as [|o sops IH]; intros i base w d Hl Hv Ht; cbn [grant]; [by eexists _, _, _|].
  apply Forall_cons in Ht as [ [Hn Hop] Ht]. rewrite list_lookup_fmap. destruct (base !! Z.to_nat (sem_num o)) as [x|] eqn:Hx; cbn [fmap option_fmap option_map].
  2: { apply lookup_ge_None in Hx. cbn [perform]. rewrite (proj2 (Z.leb_le _ _)) by lia. done. }
  apply lookup_lt_Some in Hx as Hlt. assert (in_range (length base) o) as Ho by (split; lia).
  rewrite (perform_cons nsems o sops i base w d x Hv Ho ltac:(lia) Hop Hx). destruct (must_wait (semval x) o); [done|].
  rewrite <- (shift_one_vals o base x Hv Hx). apply IH; [by rewrite shift_length|apply shift_vals|done].
Qed.
