(* ===== verification/SemInv.v ===== *)
(** * The invariant of the semaphores

    The tables agree with each other and with what the processes are doing: a
    set in the array exists, the counts of waiters are those of the processes
    that wait, an adjustment for exit is for a semaphore that there is. *)

From stdpp Require Import gmap sets.
From S2P Require Import Prelude MapSum Sem SemUndo SemOp.

(** * Sums over lists *)

Definition lsum {A} (f : A -> Z) (l : list A) : Z := foldr (fun x acc => f x + acc) 0 l.

Lemma lsum_app {A} (f : A -> Z) l l' : lsum f (l ++ l') = lsum f l + lsum f l'.
Proof. induction l as [|x l IH]; simpl; [done|]. rewrite IH. lia. Qed.

Lemma lsum_insert {A} (f : A -> Z) l i x y : l !! i = Some x -> lsum f (<[i := y]> l) = lsum f l - f x + f y.
Proof.
  intros H. rewrite insert_take_drop by (by eapply lookup_lt_Some). rewrite <- (take_drop_middle l i x H) at 3.
  rewrite !lsum_app. simpl. lia.
Qed.

Lemma lsum_ext {A} (f g : A -> Z) l : (forall x, x ∈ l -> f x = g x) -> lsum f l = lsum g l.
Proof.
  induction l as [|x l IH]; intros H; simpl; [done|]. rewrite (H x) by by left. rewrite IH; [done|]. intros y Hy. apply H. by right.
Qed.

Lemma lsum_zero {A} (f : A -> Z) l : (forall x, x ∈ l -> f x = 0) -> lsum f l = 0.
Proof. intros H. rewrite (lsum_ext f (fun _ => 0)) by done. clear H. induction l; simpl; lia. Qed.

(** * Tables *)

(** The set at index [ix]. *)
Definition live (s : sem_state) (ix a : Z) (d : semid_ds) : Prop :=
  0 <= ix /\ sema s !! Z.to_nat ix = Some (Some a) /\ sets s !! a = Some d.

Definition set_ok (d : semid_ds) : Prop :=
  Z.of_nat (length (sem_base d)) = sem_nsems d /\ 0 < sem_nsems d <= 32767 /\ vals_ok (sem_base d).

Definition size_at (ss : gmap Z semid_ds) (o : option Z) : Z :=
  match o with Some a => match ss !! a with Some d => sem_nsems d | None => 0 end | None => 0 end.

Record tables (s : sem_state) : Prop := {
  tb_len : Z.of_nat (length (sema s)) = semmni (info s);
  tb_mni : semmni (info s) <= 65535;
  tb_msl : semmsl (info s) <= 32767;
  tb_seqlen : length (semseqs s) = length (sema s);
  tb_seqs : Forall (is_u 15) (semseqs s);
  tb_sets : forall i a, sema s !! i = Some (Some a) ->
    exists d, sets s !! a = Some d /\ set_ok d /\ semseqs s !! i = Some (seq (sem_perm d));
  tb_inj : forall i j a, sema s !! i = Some (Some a) -> sema s !! j = Some (Some a) -> i = j;
  tb_tot : semtot s = lsum (size_at (sets s)) (sema s);
}.

(** * Processes *)

Definition alive (s : sem_state) (p : Z) : Prop := is_Some (procs s !! p).

Definition valid (s : sem_state) (ix n : Z) : Prop := 0 <= n /\ exists a d, live s ix a d /\ n < sem_nsems d.

Definition pc_ok (s : sem_state) (x : pc) : Prop :=
  match x with
  | User => True
  | GetAlloc _ n _ => 0 < n <= semmsl (info s)
  | Copyin semid a _ => exists d, live s (IPCID_TO_IX semid) a d /\ seq (sem_perm d) = IPCID_TO_SEQ semid
  | Semwait semid a sops i _ _ _ =>
      Forall typed_op sops /\ 0 <= i /\ exists o, sops !! Z.to_nat i = Some o /\
      (sema s !! Z.to_nat (IPCID_TO_IX semid) = Some None \/
       exists d, live s (IPCID_TO_IX semid) a d /\ seq (sem_perm d) = IPCID_TO_SEQ semid /\ sem_num o < sem_nsems d)
  end.

(** 1 when the process waits for semaphore [n] of the set at [ix], to be zero
    or to grow. *)
Definition waits (ix n : nat) (zero : bool) (pr : sem_proc) : Z :=
  match p_pc pr with
  | Semwait semid _ sops i _ _ _ =>
      match sops !! Z.to_nat i with
      | Some o => if bool_decide (Z.to_nat (IPCID_TO_IX semid) = ix /\ Z.to_nat (sem_num o) = n /\ (sem_op o =? 0) = zero) then 1 else 0
      | None => 0
      end
  | _ => 0
  end.

Definition counted (P : gmap Z sem_proc) (ix n : nat) (x : sem) : Prop :=
  semncnt x = msum (waits ix n false) P /\ semzcnt x = msum (waits ix n true) P.

Definition counts (P : gmap Z sem_proc) (s : sem_state) : Prop :=
  forall ix a d n x, sema s !! ix = Some (Some a) -> sets s !! a = Some d -> sem_base d !! n = Some x -> counted P ix n x.

(** [P] are the processes that are between two steps. *)
Record inv (P : gmap Z sem_proc) (s : sem_state) : Prop := {
  in_tables : tables s;
  in_undos : undos_st (undos_ok (valid s) (alive s)) s;
  in_pcs : forall q pr, P !! q = Some pr -> pc_ok s (p_pc pr);
  in_counts : counts P s;
  in_pids : forall q, alive s q -> 0 <= q <= 32766;
  in_procs : forall q, is_Some (P !! q) -> alive s q;
}.

Definition ok (s : sem_state) : Prop := inv (procs s) s.

(** While a step of [p] runs. *)
Definition sem_inside (p : Z) (s : sem_state) : Prop := inv (delete p (procs s)) s /\ is_Some (procs s !! p).

(** ** Waiters *)

Lemma waits_range ix n z pr : 0 <= waits ix n z pr <= 1.
Proof. unfold waits. destruct (p_pc pr); try lia. destruct (sops !! _); [|lia]. case_bool_decide; lia. Qed.

Definition resting (x : pc) : bool := match x with Semwait _ _ _ _ _ _ _ => false | _ => true end.

Lemma waits_resting ix n z pr : resting (p_pc pr) = true -> waits ix n z pr = 0.
Proof. unfold waits. by destruct (p_pc pr). Qed.

Lemma waits_bound P s ix n z : inv P s -> 0 <= msum (waits ix n z) P <= 32767.
Proof.
  intros H. split; [apply msum_nonneg; intros; apply waits_range|].
  assert (Z.of_nat (size P) <= 32767).
  { apply size_range; [lia|]. intros q pr Hq. pose proof (in_pids _ _ H q (in_procs _ _ H q ltac:(by eexists))). lia. }
  pose proof (msum_bound (waits ix n z) P 1 ltac:(lia) ltac:(intros; apply waits_range)). lia.
Qed.

Lemma inside_rest p pr s : ok s -> procs s !! p = Some pr -> resting (p_pc pr) = true -> sem_inside p s.
Proof.
  intros [H1 H2 H3 H4 H5 H6] Hp Hr. split; [|by eexists]. split; try done.
  - intros q qr Hq. apply lookup_delete_Some in Hq as [_ Hq]. by eapply H3.
  - intros ix a d n x Ha Hd Hx. destruct (H4 ix a d n x Ha Hd Hx) as [E1 E2]. unfold counted.
    rewrite !(msum_delete _ _ p pr Hp), !waits_resting by done. lia.
  - intros q [qr Hq]. apply lookup_delete_Some in Hq as [_ Hq]. apply H6. by eexists.
Qed.

(** A process that sleeps elsewhere, or returns. *)
Definition place (p : Z) (pr : sem_proc) (s : sem_state) : sem_state := set_procs (<[p := pr]> (procs s)) s.

Lemma place_ok p pr s : sem_inside p s -> pc_ok s (p_pc pr) -> resting (p_pc pr) = true -> ok (place p pr s).
Proof.
  intros [ [H1 H2 H3 H4 H5 H6] Hp] Hpc Hr. split.
  - by destruct H1.
  - eapply undos_mono; [| |exact H2]; [done|]. intros u x _ Ha. unfold alive in *. simpl. apply lookup_insert_is_Some'. by right.
  - intros q qr Hq. simpl in Hq. apply lookup_insert_Some in Hq as [[_ <-]|[Hne Hq] ]; [done|].
    apply (H3 q). by rewrite lookup_delete_ne.
  - intros ix a d n x Ha Hd Hx. destruct (H4 ix a d n x Ha Hd Hx) as [E1 E2]. unfold counted. simpl.
    rewrite <- insert_delete_eq, !msum_fresh, !waits_resting by (done || apply lookup_delete_eq). lia.
  - intros q Hq. unfold alive in *. simpl in Hq. apply lookup_insert_is_Some' in Hq as [<-|Hq]; by apply H5.
  - done.
Qed.

Lemma leave_place p r s pr : procs s !! p = Some pr -> leave p r s = Ret (place p (Proc (p_ucred pr) User r) s).
Proof. intros Hp. unfold leave, deref. by rewrite Hp. Qed.

Lemma goto_place p x s pr : procs s !! p = Some pr -> goto p x s = Ret (place p (Proc (p_ucred pr) x (p_ret pr)) s).
Proof. intros Hp. unfold goto, deref. by rewrite Hp. Qed.

Lemma sem_leave_ok p r s : sem_inside p s -> returns (leave p r s) ok.
Proof. intros H. pose proof H as [_ [pr Hp] ]. rewrite (leave_place _ _ _ _ Hp). by apply place_ok. Qed.

Lemma sem_goto_ok p x s : sem_inside p s -> pc_ok s x -> resting x = true -> returns (goto p x s) ok.
Proof. intros H Hpc Hr. pose proof H as [_ [pr Hp] ]. rewrite (goto_place _ _ _ _ Hp). by apply place_ok. Qed.

(** ** Changes of a set *)

(** The same set with other values. *)
Definition like (d d' : semid_ds) : Prop :=
  sem_nsems d' = sem_nsems d /\ seq (sem_perm d') = seq (sem_perm d) /\ length (sem_base d') = length (sem_base d) /\
  vals_ok (sem_base d') /\
  forall n x', sem_base d' !! n = Some x' -> exists x, sem_base d !! n = Some x /\ semncnt x' = semncnt x /\ semzcnt x' = semzcnt x.

Lemma sem_like_ok d d' : like d d' -> set_ok d -> set_ok d'.
Proof. intros (E1 & _ & E3 & Hv & _) (H1 & H2 & _). unfold set_ok. rewrite E1, E3. done. Qed.

Section Put.
Context (s : sem_state) (a : Z) (d d' : semid_ds).
Context (Hd : sets s !! a = Some d) (Hn : sem_nsems d' = sem_nsems d) (Hs : seq (sem_perm d') = seq (sem_perm d)).

Lemma live_put ix b e : live (put_set a d' s) ix b e -> exists e', live s ix b e' /\ sem_nsems e = sem_nsems e' /\ seq (sem_perm e) = seq (sem_perm e').
Proof.
  intros (H1 & H2 & H3). simpl in *. apply lookup_insert_Some in H3 as [[<- <-]|[_ H3] ]; [by exists d|by exists e].
Qed.

Lemma put_live ix b e : live s ix b e -> exists e', live (put_set a d' s) ix b e' /\ sem_nsems e' = sem_nsems e /\ seq (sem_perm e') = seq (sem_perm e).
Proof.
  intros (H1 & H2 & H3). destruct (decide (a = b)) as [<-|Hne].
  - exists d'. assert (e = d) as -> by congruence. unfold live. simpl. by rewrite lookup_insert_eq.
  - exists e. unfold live. simpl. by rewrite lookup_insert_ne.
Qed.

Lemma pc_ok_put x : pc_ok s x -> pc_ok (put_set a d' s) x.
Proof.
  destruct x as [ | | | ]; simpl; try done.
  - intros (e & (e' & H & _ & E)%put_live & He). exists e'. split; [done|congruence].
  - intros (Ht & Hi & o & Ho & [Hx|(e & (e' & H & E1 & E2)%put_live & He & Hr)]); split; [done| |done|];
      (split; [done|]); exists o; (split; [done|]); [by left|]. right. exists e'. conj; [done|congruence|lia].
Qed.

Lemma valid_put ix n : valid s ix n -> valid (put_set a d' s) ix n.
Proof. intros [H (b & e & (e' & He & E & _)%put_live & Hlt)]. split; [done|]. exists b, e'. split; [done|lia]. Qed.

Lemma size_put o : size_at (<[a := d']> (sets s)) o = size_at (sets s) o.
Proof.
  destruct o as [b|]; [|done]. simpl. destruct (decide (a = b)) as [<-|Hne]; [by rewrite lookup_insert_eq, Hd, Hn|by rewrite lookup_insert_ne].
Qed.

Lemma inv_put P P' : inv P s -> (set_ok d -> set_ok d') ->
  (forall q pr, P' !! q = Some pr -> pc_ok s (p_pc pr)) -> (forall q, is_Some (P' !! q) -> alive s q) ->
  (forall ix b e n x, sema s !! ix = Some (Some b) -> <[a := d']> (sets s) !! b = Some e -> sem_base e !! n = Some x -> counted P' ix n x) ->
  inv P' (put_set a d' s).
Proof.
  intros [ [T1 T2 T3 T4 T5 T6 T7 T8] H2 H3 H4 H5 H6] Hok Hpc Hal Hc. split; try done.
  - split; try done.
    + intros i b Hi. destruct (T6 i b Hi) as (e & He & Hoe & Hsq). simpl. destruct (decide (a = b)) as [<-|Hne].
      * assert (e = d) as -> by congruence. exists d'. rewrite lookup_insert_eq, Hs. by auto.
      * exists e. by rewrite lookup_insert_ne.
    + simpl. rewrite T8. apply lsum_ext. intros o _. by rewrite size_put.
  - eapply undos_mono; [| |exact H2]; [|done]. intros u x e _ _. apply valid_put.
  - intros q pr Hq. by eapply pc_ok_put, Hpc.
Qed.
End Put.

Lemma inv_like P s a d d' : inv P s -> sets s !! a = Some d -> like d d' -> inv P (put_set a d' s).
Proof.
  intros H Hd Hl. pose proof Hl as (E1 & E2 & E3 & E4 & E5). apply (inv_put s a d d' Hd E1 E2 P); try done.
  - by apply sem_like_ok.
  - apply H.
  - apply H.
  - intros ix b e n x Hb He Hx. apply lookup_insert_Some in He as [[<- <-]|[_ He] ]; [|by eapply (in_counts _ _ H)].
    destruct (E5 n x Hx) as (y & Hy & F1 & F2). unfold counted. rewrite F1, F2. by eapply (in_counts _ _ H).
Qed.

Lemma inside_like p s a d d' : sem_inside p s -> sets s !! a = Some d -> like d d' -> sem_inside p (put_set a d' s).
Proof. intros [H Hp] Hd Hl. split; [by eapply inv_like|done]. Qed.

(** A set that is not in the array comes or goes. *)
Lemma inside_loose p s a ss : sem_inside p s -> (forall i, sema s !! i <> Some (Some a)) ->
  (forall b, b <> a -> ss !! b = sets s !! b) -> sem_inside p (set_sets ss s).
Proof.
  intros [ [ [T1 T2 T3 T4 T5 T6 T7 T8] H2 H3 H4 H5 H6] Hp] Ha Hss.
  assert (forall i b, sema s !! i = Some (Some b) -> ss !! b = sets s !! b) as Hb.
  { intros i b Hi. apply Hss. intros ->. by edestruct Ha. }
  assert (forall ix b e, live s ix b e -> live (set_sets ss s) ix b e) as Hl.
  { intros ix b e (L1 & L2 & L3). unfold live. simpl. by rewrite (Hb _ _ L2). }
  split; [|done]. split; try done.
  - split; try done; simpl.
    + intros i b Hi. rewrite (Hb _ _ Hi). by apply T6.
    + rewrite T8. apply lsum_ext. intros [b|] Hbl; [|done]. apply list_elem_of_lookup in Hbl as [i Hi]. simpl. by rewrite (Hb _ _ Hi).
  - eapply undos_mono; [| |exact H2]; [|done]. intros u x e _ _ [Hn (b & f & Hb' & Hlt)]. split; [done|]. exists b, f. by auto.
  - intros q pr Hq. specialize (H3 q pr Hq). destruct (p_pc pr); simpl in *; try done.
    + destruct H3 as (e & He & E). exists e. by auto.
    + destruct H3 as (K1 & K2 & o & Ho & [K|(e & He & K)]); conj; try done; exists o; (split; [done|]); [by left|]. right. exists e. by auto.
  - intros ix b e n x Hi He Hx. simpl in *. rewrite (Hb _ _ Hi) in He. by eapply H4.
Qed.

(** ** Wakeups and adjustments *)

Lemma waits_roused c ix n z pr : waits ix n z (roused c pr) = waits ix n z pr.
Proof. unfold waits, roused. by destruct (p_pc pr) eqn:E; simpl; rewrite ?E. Qed.

Lemma msum_fmap {A B} (g : B -> Z) (h : A -> Z) (f : A -> B) (m : gmap Z A) : (forall x, g (f x) = h x) -> msum g (f <$> m) = msum h m.
Proof.
  intros H. induction m as [|k v m Hk IH] using map_ind; [by rewrite fmap_empty|]. rewrite fmap_insert, !msum_fresh; [by rewrite IH, H|done|].
  by rewrite lookup_fmap, Hk.
Qed.

Lemma pc_ok_roused s c pr : pc_ok s (p_pc pr) -> pc_ok s (p_pc (roused c pr)).
Proof. unfold roused. destruct (p_pc pr) eqn:E; simpl; rewrite ?E; done. Qed.

Lemma inside_wakeup p ix s : sem_inside p s -> sem_inside p (sem_wakeup ix s).
Proof.
  intros [ [H1 H2 H3 H4 H5 H6] [pr Hp] ]. unfold sem_inside. unfold sem_wakeup. cbn [procs set_procs]. rewrite <- fmap_delete.
  assert (forall q, alive (sem_wakeup ix s) q <-> alive s q) as Ha.
  { intros q. unfold alive. simpl. by rewrite lookup_fmap, fmap_is_Some. }
  split; [|by rewrite lookup_fmap, Hp]. split.
  - by destruct H1.
  - eapply undos_mono; [| |exact H2]; [done|]. intros u x _ Hx. by apply Ha.
  - intros q qr Hq. rewrite lookup_fmap in Hq. apply fmap_Some in Hq as (r & Hr & ->). apply pc_ok_roused. by eapply H3.
  - intros i a d n x Hi Hd Hx. destruct (H4 i a d n x Hi Hd Hx) as [E1 E2]. unfold counted.
    by rewrite !(msum_fmap _ _ _ _ (waits_roused _ _ _ _)).
  - intros q Hq. by apply H5, Ha.
  - intros q Hq. rewrite lookup_fmap, fmap_is_Some in Hq. by apply Ha, H6.
Qed.

Lemma inside_undos p s s' : sem_inside p s -> s' = set_undos (semu_list s') (undos s') (semutot s') s ->
  undos_st (undos_ok (valid s) (alive s)) s' -> sem_inside p s'.
Proof.
  intros [ [H1 H2 H3 H4 H5 H6] Hp] E Hu. rewrite E in Hu |- *. split; [|done]. split; try done. by destruct H1.
Qed.

(** ** The set of an identifier *)

Lemma ix_range semid : 0 <= IPCID_TO_IX semid < 65536.
Proof. unfold IPCID_TO_IX. change 65535 with (Z.ones 16). rewrite Z.land_ones by lia. apply Z.mod_pos_bound. lia. Qed.

Lemma find_set_spec P s semid : inv P s ->
  find_set semid s = Ret None \/
  exists a d, find_set semid s = Ret (Some (a, d)) /\ live s (IPCID_TO_IX semid) a d /\ set_ok d /\ seq (sem_perm d) = IPCID_TO_SEQ semid.
Proof.
  intros H. pose proof (in_tables _ _ H) as T. unfold find_set. pose proof (ix_range semid).
  destruct (Z.ltb_spec (IPCID_TO_IX semid) 0); [lia|]. destruct (Z.leb_spec (semmni (info s)) (IPCID_TO_IX semid)); [by left|].
  cbn [orb]. destruct (aget_bounds (sema s) (IPCID_TO_IX semid)) as (r & -> & Hr); [rewrite (tb_len _ T); lia|]. cbn [bind].
  destruct r as [a|]; [|by left]. destruct (tb_sets _ T _ _ Hr) as (d & Hd & Hok & _). unfold deref. rewrite Hd. cbn [bind].
  destruct (Z.eqb_spec (seq (sem_perm d)) (IPCID_TO_SEQ semid)) as [E|]; [|by left]. right. exists a, d. conj; try done.
Qed.
