(* ===== verification/SemSteps.v ===== *)
(** * The calls keep the invariant *)

From stdpp Require Import gmap sets.
From S2P Require Import Prelude MapSum Sem SemUndo SemOp SemInv.

(** * [semctl] *)

(** A process in [semop] that copies its requests, or waits, for the set at [ix]. *)
Definition copying (ix : Z) (x : pc) : bool := match x with Copyin semid _ _ => IPCID_TO_IX semid =? ix | _ => false end.
Definition waiting (ix : Z) (x : pc) : bool := match x with Semwait semid _ _ _ _ _ _ => IPCID_TO_IX semid =? ix | _ => false end.

Definition nobody (f : pc -> bool) (P : gmap Z sem_proc) : Prop := map_Forall (fun _ pr => f (p_pc pr) = false) P.

#[export] Instance nobody_dec f P : Decision (nobody f P).
Proof. unfold nobody. apply _. Defined.

Definition removed (ix a : Z) (d : semid_ds) (s : sem_state) : sem_state :=
  set_sema (<[Z.to_nat ix := None]> (sema s)) (set_sets (delete a (sets s)) (set_semtot (semtot s - sem_nsems d) s)).

Lemma live_removed ix a d s jx b e : tables s -> live s ix a d -> live s jx b e -> jx <> ix -> live (removed ix a d s) jx b e.
Proof.
  intros T (H1 & H2 & H3) (K1 & K2 & K3) Hne. unfold live. simpl. rewrite list_lookup_insert_ne by lia. conj; try done.
  rewrite lookup_delete_ne; [done|]. intros ->. pose proof (tb_inj _ T _ _ _ H2 K2). lia.
Qed.

Lemma tables_removed ix a d s : tables s -> live s ix a d -> tables (removed ix a d s).
Proof.
  intros T (H1 & H2 & H3). pose proof T as [T1 T2 T3 T4 T5 T6 T7 T8].
  assert (forall i b, <[Z.to_nat ix := None]> (sema s) !! i = Some (Some b) -> sema s !! i = Some (Some b) /\ b <> a) as Hi.
  { intros i b Hi. destruct (decide (Z.to_nat ix = i)) as [<-|Hne]; [rewrite list_lookup_insert_eq in Hi by (by eapply lookup_lt_Some); done|].
    rewrite list_lookup_insert_ne in Hi by done. split; [done|]. intros ->. apply Hne. by eapply T7. }
  split; simpl; try done.
  - by rewrite length_insert.
  - by rewrite length_insert.
  - intros i b [Hb Hne]%Hi. rewrite lookup_delete_ne by done. by apply T6.
  - intros i j b [Hb _]%Hi [Hb' _]%Hi. by eapply T7.
  - rewrite T8. rewrite (lsum_ext (size_at (delete a (sets s))) (size_at (sets s))).
    + rewrite (lsum_insert _ _ _ _ _ H2). simpl. rewrite H3. lia.
    + intros [b|] Hb; [|done]. apply list_elem_of_lookup in Hb as [i [_ Hne]%Hi]. simpl. by rewrite lookup_delete_ne.
Qed.

Lemma pc_ok_removed ix a d s x : tables s -> live s ix a d -> copying ix x = false -> pc_ok s x -> pc_ok (removed ix a d s) x.
Proof.
  intros T Hl Hc. destruct x as [ | |semid b n|semid b sops i u c w]; simpl in *; try done.
  - intros (e & He & E). exists e. split; [|done]. apply live_removed; try done. by apply Z.eqb_neq in Hc.
  - intros (K1 & K2 & o & Ho & K). conj; try done. exists o. split; [done|]. destruct (decide (IPCID_TO_IX semid = ix)) as [->|Hne].
    + left. destruct Hl as (_ & Hl & _). by rewrite list_lookup_insert_eq by (by eapply lookup_lt_Some).
    + destruct K as [K|(e & He & K)].
      * left. pose proof (ix_range semid). destruct Hl as (? & _). by rewrite list_lookup_insert_ne by lia.
      * right. exists e. split; [|done]. by apply live_removed.
Qed.

Lemma remove_ok p ix a d s : sem_inside p s -> live s ix a d -> nobody (copying ix) (delete p (procs s)) ->
  exists s', semundo_clear ix (-1) (removed ix a d s) = Ret s' /\ sem_inside p s'.
Proof.
  intros [H Hp] Hl Hnb. pose proof H as [T H2 H3 H4 H5 H6].
  destruct (semundo_clear_spec (valid s) (alive s) ix (-1) (removed ix a d s) H2) as (s' & E & Hs' & Hu & _).
  exists s'. split; [done|]. rewrite Hs' in Hu |- *. split; [|done]. split; try done.
  - destruct (tables_removed ix a d s T Hl). by split.
  - eapply undos_mono; [| |exact Hu]; [|done]. intros u x e _ _ [[Hn (b & f & Hb & Hlt)] Hid]. split; [done|].
    exists b, f. split; [|done]. apply live_removed; auto.
  - intros q pr Hq. apply (pc_ok_removed ix a d s); [done|done| |by eapply H3]. by apply (Hnb q).
  - intros i b e n x Hi He Hx. simpl in Hi, He. destruct (decide (Z.to_nat ix = i)) as [<-|Hne].
    + destruct Hl as (_ & Hl & _). rewrite list_lookup_insert_eq in Hi by (by eapply lookup_lt_Some). done.
    + rewrite list_lookup_insert_ne in Hi by done. apply lookup_delete_Some in He as [_ He]. by eapply H4.
Qed.

Lemma like_values d base : Forall2 (fun x y => semncnt y = semncnt x /\ semzcnt y = semzcnt x) (sem_base d) base -> vals_ok base -> like d (set_base base d).
Proof.
  intros Hf Hv. unfold like. conj; try done; simpl; [symmetry; by eapply Forall2_length|].
  intros n x' Hx. destruct (Forall2_lookup_r _ _ _ _ _ Hf Hx) as (x & Hx' & E). by exists x.
Qed.

Lemma store_all_spec vals base : Forall (is_u 16) vals -> vals_ok base ->
  Forall2 (fun x y => semncnt y = semncnt x /\ semzcnt y = semzcnt x) base (store_all vals base).1 /\ vals_ok (store_all vals base).1.
Proof.
  intros Hv. revert vals Hv. induction base as [|x base IH]; intros vals Hv Hb; [by destruct vals|].
  apply Forall_cons in Hb as [Hx Hb]. destruct vals as [|v vals]; simpl.
  - split; [|by constructor]. constructor; [done|]. apply Forall2_same_length_lookup_2; [done|]. intros i y z Hy Hz. simplify_eq. done.
  - apply Forall_cons in Hv as [Hv1 Hv]. specialize (IH vals Hv Hb). destruct (store_all vals base) as [base' all]. simpl in *.
    destruct IH. by split; constructor.
Qed.

(** The arguments of a command. *)
Definition cmd_ok (cmd : semctl_cmd) : Prop := match cmd with SETALL vals error => Forall (is_u 16) vals | _ => True end.

Lemma get_field_ok p semnum d f s : sem_inside p s -> set_ok d -> returns (get_field p semnum d f s) ok.
Proof.
  intros H (Hl & _). unfold get_field. case_if; [by apply sem_leave_ok|]. boolify.
  destruct (aget_bounds (sem_base d) semnum) as (x & -> & _); [lia|]. by apply sem_leave_ok.
Qed.

Lemma clear_inside p ix n s : sem_inside p s -> exists s', semundo_clear ix n s = Ret s' /\ sem_inside p s'.
Proof.
  intros H. destruct (semundo_clear_spec (valid s) (alive s) ix n s (in_undos _ _ (proj1 H))) as (s' & E & Hs' & Hu & _).
  exists s'. split; [done|]. eapply inside_undos; [done|done|]. eapply undos_mono; [| |exact Hu]; [|done]. by intros u x e _ _ [Hv _].
Qed.

Lemma insert_like d n x y : set_ok d -> sem_base d !! n = Some x -> semncnt y = semncnt x -> semzcnt y = semzcnt x -> is_u 16 (semval y) ->
  like d (set_base (<[n := y]> (sem_base d)) d).
Proof.
  intros (_ & _ & Hv) Hx E1 E2 Hy. apply like_values; [|by apply Forall_insert].
  apply Forall2_same_length_lookup_2; [by rewrite length_insert|]. intros i x1 y1 H1 H2.
  destruct (decide (n = i)) as [<-|Hne]; [rewrite list_lookup_insert_eq in H2 by (by eapply lookup_lt_Some)|rewrite list_lookup_insert_ne in H2 by done]; by simplify_eq.
Qed.

Lemma semctl1_ok p pr semid semnum cmd s : ok s -> procs s !! p = Some pr -> p_pc pr = User -> cmd_ok cmd ->
  (cmd = IPC_RMID -> nobody (copying (IPCID_TO_IX semid)) (procs s)) -> returns (semctl1 p semid semnum cmd s) ok.
Proof.
  intros Hok Hp Hpc Hcmd Hcalm. assert (sem_inside p s) as H by (eapply inside_rest; [done|done|by rewrite Hpc]).
  unfold semctl1, deref. rewrite Hp. cbn [bind]. destruct (find_set_spec _ _ semid Hok) as [->|(a & d & -> & Hl & Hd & Hs)]; cbn [bind].
  { by apply sem_leave_ok. }
  pose proof Hl as (L1 & L2 & L3). destruct cmd as [|error perm|error| | | |error| |val|vals error|];
    try (destruct (ipcperm (p_ucred pr) (sem_perm d) _ =? 0); cbn [negb]; [|by apply sem_leave_ok]); try by apply sem_leave_ok.
  - cbn [sema set_semtot]. rewrite aset_bounds by (apply lookup_lt_Some in L2; lia). cbn [bind].
    destruct (remove_ok p (IPCID_TO_IX semid) a d s H Hl) as (s' & E & H').
    { intros q qr Hq. apply lookup_delete_Some in Hq as [_ Hq]. by apply (Hcalm eq_refl q). }
    change (returns (let! s := semundo_clear (IPCID_TO_IX semid) (-1) (removed (IPCID_TO_IX semid) a d s) in leave p (Val 0) (sem_wakeup (IPCID_TO_IX semid) s)) ok).
    rewrite E. by apply sem_leave_ok, inside_wakeup.
  - destruct (Z.eqb_spec error 0); [|by apply sem_leave_ok]. apply sem_leave_ok. eapply inside_like; [done|done|].
    split; [done|]. split; [done|]. split; [done|]. split; [apply Hd|]. by eauto.
  - by apply get_field_ok.
  - by apply get_field_ok.
  - by apply get_field_ok.
  - by apply get_field_ok.
  - case_if; [by apply sem_leave_ok|]. boolify. pose proof Hd as (Hlen & _).
    destruct (aget_bounds (sem_base d) semnum) as (x & -> & Hx); [lia|]. cbn [bind]. rewrite aset_bounds by lia. cbn [bind].
    destruct (clear_inside p (IPCID_TO_IX semid) semnum (put_set a (set_base (<[Z.to_nat semnum := set_semval (u16 val) x]> (sem_base d)) d) s))
      as (s' & -> & H').
    { eapply inside_like; [done|done|]. apply (insert_like _ _ x); [done|done|done|done|apply u16_range]. }
    by apply sem_leave_ok, inside_wakeup.
  - destruct (store_all_spec vals (sem_base d) Hcmd ltac:(apply Hd)) as [Hf Hv]. destruct (store_all vals (sem_base d)) as [base all].
    destruct (clear_inside p (IPCID_TO_IX semid) (-1) (put_set a (set_base base d) s)) as (s' & -> & H').
    { eapply inside_like; [done|done|]. by apply like_values. }
    unfold answer. by apply sem_leave_ok, inside_wakeup.
Qed.

Lemma semctl_ok p pr semid semnum cmd copied s : ok s -> procs s !! p = Some pr -> p_pc pr = User -> cmd_ok cmd ->
  (cmd = IPC_RMID -> nobody (copying (IPCID_TO_IX semid)) (procs s)) -> returns (sys___semctl p semid semnum cmd copied s) ok.
Proof.
  intros Hok Hp Hpc Hcmd Hcalm. unfold sys___semctl. case_if; [by eapply semctl1_ok|]. apply sem_leave_ok.
  eapply inside_rest; [done|done|by rewrite Hpc].
Qed.

(** * [semget] *)

Lemma find_key_spec ss k l i : (forall a, Some a ∈ l -> is_Some (ss !! a)) -> 
  find_key ss k l i = Ret None /\ (forall a d, Some a ∈ l -> ss !! a = Some d -> key (sem_perm d) <> k) \/
  exists j a d, find_key ss k l i = Ret (Some (i + Z.of_nat j, d)) /\ l !! j = Some (Some a) /\ ss !! a = Some d /\ key (sem_perm d) = k.
Proof.
  revert i. induction l as [|[b|] l IH]; intros i Hl; cbn [find_key]; [left; split; [done|]; by intros a d ?%elem_of_nil| |].
  - destruct (Hl b) as [e He]; [by left|]. unfold deref. rewrite He. cbn [bind]. destruct (Z.eqb_spec (key (sem_perm e)) k).
    { right. exists 0%nat, b, e. rewrite Z.add_0_r. done. }
    destruct (IH (i + 1)) as [[E Hn]|(j & a & d & E & Hj & Hd & Hk)]; [intros a Ha; apply Hl; by right| |].
    + left. split; [done|]. intros a d [ [= ->]|Ha]%elem_of_cons Hd; [congruence|by eapply Hn].
    + right. exists (S j), a, d. conj; try done. rewrite E. do 3 f_equal. lia.
  - destruct (IH (i + 1)) as [[E Hn]|(j & a & d & E & Hj & Hd & Hk)]; [intros a Ha; apply Hl; by right| |].
    + left. split; [done|]. intros a d [?|Ha]%elem_of_cons Hd; [done|by eapply Hn].
    + right. exists (S j), a, d. conj; try done. rewrite E. do 3 f_equal. lia.
Qed.

Lemma find_free_spec l i :
  match find_free l i with
  | Some ix => i <= ix /\ l !! Z.to_nat (ix - i) = Some None /\ forall j, i <= j < ix -> exists a, l !! Z.to_nat (j - i) = Some (Some a)
  | None => forall j, (j < length l)%nat -> exists a, l !! j = Some (Some a)
  end.
Proof.
  revert i. induction l as [|[b|] l IH]; intros i; cbn [find_free]; [simpl; lia| |].
  - specialize (IH (i + 1)). destruct (find_free l (i + 1)) as [ix|].
    + destruct IH as (H1 & H2 & H3). split; [lia|]. split.
      * replace (Z.to_nat (ix - i)) with (S (Z.to_nat (ix - (i + 1)))) by lia. done.
      * intros j Hj. destruct (decide (j = i)) as [->|]; [rewrite Z.sub_diag; by exists b|].
        replace (Z.to_nat (j - i)) with (S (Z.to_nat (j - (i + 1)))) by lia. apply H3. lia.
    + intros [|j] Hj; [by exists b|]. apply IH. simpl in Hj. lia.
  - rewrite Z.sub_diag. split; [lia|]. split; [done|]. lia.
Qed.

(** A new set at index [ix]. *)
Definition created (ix a n : Z) (d : semid_ds) (s : sem_state) : sem_state :=
  set_semtot (semtot s + sem_nsems d) (set_sema (<[Z.to_nat ix := Some a]> (sema s)) (set_semseqs (<[Z.to_nat ix := n]> (semseqs s)) (put_set a d s))).

Section Create.
Context (s : sem_state) (ix a n : Z) (d : semid_ds).
Context (Hix : 0 <= ix) (Hnone : sema s !! Z.to_nat ix = Some None) (Ha : forall i, sema s !! i <> Some (Some a)).

Lemma live_created jx b e : live s jx b e -> live (created ix a n d s) jx b e.
Proof.
  intros (K1 & K2 & K3). unfold live. simpl. assert (Z.to_nat ix <> Z.to_nat jx) by congruence.
  rewrite list_lookup_insert_ne by done. conj; try done. rewrite lookup_insert_ne; [done|]. intros ->. by edestruct Ha.
Qed.

Lemma pc_ok_created x : waiting ix x = false -> pc_ok s x -> pc_ok (created ix a n d s) x.
Proof.
  intros Hw. destruct x as [ | |semid b m|semid b sops i u c w]; simpl in *; try done.
  - intros (e & He & E). exists e. split; [by apply live_created|done].
  - intros (K1 & K2 & o & Ho & K). conj; try done. exists o. split; [done|]. apply Z.eqb_neq in Hw. destruct K as [K|(e & He & K)].
    + left. rewrite list_lookup_insert_ne; [done|]. pose proof (ix_range semid). lia.
    + right. exists e. split; [by apply live_created|done].
Qed.

Lemma tables_created : tables s -> set_ok d -> seq (sem_perm d) = n -> is_u 15 n -> tables (created ix a n d s).
Proof.
  intros [T1 T2 T3 T4 T5 T6 T7 T8] Hd Hs Hn. apply lookup_lt_Some in Hnone as Hlt.
  assert (forall i b, <[Z.to_nat ix := Some a]> (sema s) !! i = Some (Some b) -> i = Z.to_nat ix /\ b = a \/ i <> Z.to_nat ix /\ sema s !! i = Some (Some b) /\ a <> b) as Hi.
  { intros i b Hi. destruct (decide (Z.to_nat ix = i)) as [<-|Hne]; [rewrite list_lookup_insert_eq in Hi by done; left; by simplify_eq|].
    rewrite list_lookup_insert_ne in Hi by done. right. conj; try done. intros ->. by edestruct Ha. }
  split; simpl; rewrite ?length_insert; try done.
  - by apply Forall_insert.
  - intros i b [[-> ->]|(Hne & Hb & Hab)]%Hi; [exists d; rewrite lookup_insert_eq, list_lookup_insert_eq by lia; by rewrite Hs|].
    destruct (T6 i b Hb) as (e & He & Hoe & Hse). exists e. rewrite lookup_insert_ne, list_lookup_insert_ne by done. done.
  - intros i j b Hb Hb'. apply Hi in Hb as [[-> ->]|(Hne & Hb & Hab)], Hb' as [[-> ?]|(? & Hb' & ?)]; try done. by eapply T7.
  - rewrite (lsum_insert _ _ _ _ _ Hnone). simpl. rewrite lookup_insert_eq, T8.
    rewrite (lsum_ext (size_at (<[a := d]> (sets s))) (size_at (sets s))); [lia|].
    intros [b|] Hb; [|done]. apply list_elem_of_lookup in Hb as [i Hb]. simpl. rewrite lookup_insert_ne; [done|]. intros ->. by edestruct Ha.
Qed.

Lemma create_ok p : sem_inside p s -> set_ok d -> seq (sem_perm d) = n -> is_u 15 n ->
  (forall x, x ∈ sem_base d -> semncnt x = 0 /\ semzcnt x = 0) -> nobody (waiting ix) (delete p (procs s)) ->
  sem_inside p (created ix a n d s).
Proof.
  intros [ [T H2 H3 H4 H5 H6] Hp] Hd Hs Hn Hz Hw. split; [|done]. split; try done.
  - by apply tables_created.
  - eapply undos_mono; [| |exact H2]; [|done]. intros u x e _ _ [Hk (b & f & Hb & Hlt)]. split; [done|].
    exists b, f. split; [by apply live_created|done].
  - intros q pr Hq. apply pc_ok_created; [by apply (Hw q)|by eapply H3].
  - intros i b e k x Hi He Hx. simpl in Hi, He. destruct (decide (Z.to_nat ix = i)) as [<-|Hne].
    + rewrite list_lookup_insert_eq in Hi by (by eapply lookup_lt_Some). injection Hi as <-. rewrite lookup_insert_eq in He. injection He as <-.
      destruct (Hz x) as [E1 E2]; [by eapply list_elem_of_lookup_2|].
      assert (forall z, msum (waits (Z.to_nat ix) k z) (delete p (procs s)) = 0) as Hzero.
      { intros z. apply msum_zero. intros q pr Hq. specialize (Hw q pr Hq). cbv beta in Hw. unfold waits. destruct (p_pc pr); try done. simpl in Hw.
        apply Z.eqb_neq in Hw. destruct (sops !! _); [|done]. rewrite bool_decide_eq_false_2; [done|]. intros [E _].
        pose proof (ix_range semid). lia. }
      unfold counted. rewrite !Hzero. done.
    + rewrite list_lookup_insert_ne in Hi by done. rewrite lookup_insert_ne in He by (intros ->; by edestruct Ha). by eapply H4.
Qed.
End Create.

Definition loose (a : Z) (s : sem_state) : Prop := forall i, sema s !! i <> Some (Some a).

Lemma semget_error_ok p e new s : sem_inside p s -> (forall a, new = Some a -> loose a s) -> returns (semget_error p e new s) ok.
Proof.
  intros H Hl. apply sem_leave_ok. destruct new as [a|]; [|done]. eapply (inside_loose p s a); [done|by apply Hl|].
  intros b Hb. by rewrite lookup_delete_ne.
Qed.

Lemma semget_create_ok p k nsems semflg a d s : sem_inside p s -> loose a s -> sets s !! a = Some d ->
  sem_base d = replicate (Z.to_nat nsems) (Sem 0 0 0 0) -> 0 < nsems <= 32767 ->
  (forall ix, find_free (sema s) 0 = Some ix -> nobody (waiting ix) (procs s)) ->
  returns (semget_create p k nsems semflg a s) ok.
Proof.
  intros H Hl Hd Hb Hn Hw. pose proof H as [Hin [pr Hp] ]. pose proof (in_tables _ _ Hin) as T. unfold semget_create, deref.
  rewrite Hp. cbn [bind]. pose proof (find_free_spec (sema s) 0) as Hf. destruct (find_free (sema s) 0) as [ix|].
  2: { apply semget_error_ok; [done|]. by intros ? [= <-]. }
  destruct Hf as (Hix & Hnone & _). rewrite Z.sub_0_r in Hnone. rewrite Hd. cbn [bind]. apply lookup_lt_Some in Hnone as Hlt.
  pose proof (tb_seqlen _ T) as Hsl. destruct (aget_bounds (semseqs s) ix) as (n & -> & Hsn); [lia|]. cbn [bind].
  set (n' := Z.land (n + 1) 32767). rewrite !aset_bounds by lia. cbn [bind].
  assert (u16 nsems = nsems) as -> by (apply u16_small; unfold is_u; lia).
  set (d' := Semid_ds _ (sem_base d) nsems 0 (time_second s)).
  change (returns (leave p (Val (IXSEQ_TO_IPCID ix n')) (created ix a n' d' s)) ok).
  apply sem_leave_ok, create_ok; try done.
  - unfold d', set_ok. simpl. rewrite Hb, length_replicate. conj; try lia. apply Forall_replicate. simpl. unfold is_u. lia.
  - unfold n'. change 32767 with (Z.ones 15). rewrite Z.land_ones by lia. apply wrap_range. lia.
  - unfold d'. simpl. rewrite Hb. intros x Hx. apply elem_of_replicate in Hx as [-> _]. done.
  - intros q qr Hq. apply lookup_delete_Some in Hq as [_ Hq]. by apply (Hw ix eq_refl q).
Qed.

Lemma semget_find_ok p k nsems semflg new s : sem_inside p s ->
  (forall a, new = Some a -> loose a s /\ exists d, sets s !! a = Some d /\ sem_base d = replicate (Z.to_nat nsems) (Sem 0 0 0 0)) ->
  (new <> None -> 0 < nsems <= 32767 /\ forall ix, find_free (sema s) 0 = Some ix -> nobody (waiting ix) (procs s)) ->
  returns (semget_find p k nsems semflg new s) ok.
Proof.
  intros H Hnew Hn. pose proof H as [Hin [pr Hp] ]. pose proof (in_tables _ _ Hin) as T. unfold semget_find, deref. rewrite Hp. cbn [bind].
  assert (returns (match new with Some a => semget_create p k nsems semflg a s | None => leave p (Err ENOENT) s end) ok) as Hc.
  { destruct new as [a|]; [|by apply sem_leave_ok]. destruct (Hnew a eq_refl) as (Hl & d & Hd & Hb). destruct Hn; [done|]. by eapply semget_create_ok. }
  case_if; [done|]. destruct (find_key_spec (sets s) k (sema s) 0) as [[-> _]|(j & a & d & -> & Hj & Hd & Hk)]; cbn [bind].
  - intros a Ha. apply list_elem_of_lookup in Ha as [i Hi]. destruct (tb_sets _ T i a Hi) as (d & Hd & _). by eexists.
  - done.
  - assert (forall e, returns (semget_error p e new s) ok) as He.
    { intros e. apply semget_error_ok; [done|]. intros b Hb. by apply Hnew. }
    repeat case_if; auto. by apply sem_leave_ok.
Qed.

Lemma semget_ok p pr k nsems semflg s : ok s -> procs s !! p = Some pr -> p_pc pr = User -> returns (sys_semget p k nsems semflg s) ok.
Proof.
  intros Hok Hp Hpc. assert (sem_inside p s) as H by (eapply inside_rest; [done|done|by rewrite Hpc]). unfold sys_semget.
  case_if; [|by apply semget_find_ok]. case_if; [by apply sem_leave_ok|]. case_if; [by apply sem_leave_ok|]. boolify.
  apply sem_goto_ok; [done| |done]. simpl. lia.
Qed.

Lemma semget_alloc_ok p pr k nsems semflg a s : ok s -> procs s !! p = Some pr -> p_pc pr = GetAlloc k nsems semflg -> sets s !! a = None ->
  (forall ix, find_free (sema s) 0 = Some ix -> nobody (waiting ix) (procs s)) -> returns (semget_alloc p k nsems semflg a s) ok.
Proof.
  intros Hok Hp Hpc Ha Hw. assert (sem_inside p s) as H by (eapply inside_rest; [done|done|by rewrite Hpc]).
  assert (loose a s) as Hl. { intros i Hi. destruct (tb_sets _ (in_tables _ _ Hok) i a Hi) as (d & Hd & _). congruence. }
  pose proof (in_pcs _ _ Hok p pr Hp) as Hn. rewrite Hpc in Hn. simpl in Hn. pose proof (tb_msl _ (in_tables _ _ Hok)).
  apply semget_find_ok.
  - eapply (inside_loose p s a); [done|done|]. intros b Hb. by rewrite lookup_insert_ne.
  - intros b [= <-]. split; [done|]. eexists. split; [apply lookup_insert_eq|done].
  - intros _. split; [lia|done].
Qed.
