(* ===== verification/SemTry.v ===== *)
(** * One attempt of [semop]

    What a turn of the loop in [semop] does, for the vectors that are granted,
    refused or have to wait, and that it keeps the invariant. *)

From stdpp Require Import gmap sets.
From S2P Require Import Prelude MapSum Sem SemUndo SemOp SemInv.

Definition the_plan (p ix : Z) (sops : list sembuf) (s : sem_state) : plan :=
  undo_plan (negb (semutot s =? semmnu (info s))) ix (undo_map p s) false true sops.

Lemma put_same a d s : sets s !! a = Some d -> put_set a d s = s.
Proof. intros H. unfold put_set. rewrite insert_id by done. by destruct s. Qed.

Lemma put_put a d d' s : put_set a d' (put_set a d s) = put_set a d' s.
Proof. unfold put_set. simpl. by rewrite insert_insert_eq. Qed.

Lemma set_base_same d : set_base (sem_base d) d = d.
Proof. by destruct d. Qed.

(** Nothing to record. *)
Lemma undo_plan_none room ix m cached first sops : existsb undone sops = false -> undo_plan room ix m cached first sops = Recorded m.
Proof.
  revert first. induction sops as [|o sops IH]; intros first H; cbn [undo_plan]; [done|]. simpl in H. apply orb_false_iff in H as [-> H].
  by apply IH.
Qed.

(** The counts of a semaphore after a change by one for request [o]. *)
Definition recount (o : sembuf) (k : Z) (x : sem) : sem :=
  if sem_op o =? 0 then set_semzcnt (u16 (semzcnt x + k)) x else set_semncnt (u16 (semncnt x + k)) x.

Section Try.
Context {A : arch}.
Context (p semid a : Z) (d : semid_ds) (sops : list sembuf) (u : Z) (s : sem_state).

Local Notation ix := (IPCID_TO_IX semid).
Local Notation base := (sem_base d).

(** The set after the requests. *)
Definition granted_set : semid_ds := set_otime (time_second s) (set_base (stamp p sops (shift (total sops) base)) d).

Context (Hin : sem_inside p s) (Hl : live s ix a d) (Hd : set_ok d) (Ht : Forall typed_op sops) (Hu : undos s !! u = None).

Lemma done_spec w du : Forall (in_range (length base)) sops -> (du = false -> existsb undone sops = false) ->
  let s1 := put_set a (set_base (shift (total sops) base) d) s in
  match the_plan p ix sops s with
  | Recorded m => exists s2, recorded (valid s) (alive s) p m s1 s2 /\
      semop_done p ix a sops w du u s1 = leave p (Val 0) (if w then sem_wakeup ix (put_set a granted_set s2) else put_set a granted_set s2)
  | Refused e => semop_done p ix a sops w du u s1 = leave p (Err e) s
  | Hazard => forall s', semop_done p ix a sops w du u s1 <> Ret s'
  end.
Proof.
  intros Hr Hdu s1. pose proof Hd as (Hlen & Hn & Hv). destruct Hl as (L1 & L2 & L3).
  assert (forall s2, s2 = set_undos (semu_list s2) (undos s2) (semutot s2) s1 ->
    (let! d0 := deref (sets s2) a in let! b := set_pids p sops (sem_base d0) in
     leave p (Val 0) (if w then sem_wakeup ix (put_set a (set_otime (time_second s2) (set_base b d0)) s2) else put_set a (set_otime (time_second s2) (set_base b d0)) s2)) =
    leave p (Val 0) (if w then sem_wakeup ix (put_set a granted_set s2) else put_set a granted_set s2)) as Hfin.
  { intros s2 E. unfold deref. replace (sets s2) with (sets s1) by by rewrite E. simpl. rewrite lookup_insert_eq. cbn [bind].
    rewrite set_pids_spec by (simpl; by rewrite shift_length). cbn [bind]. replace (time_second s2) with (time_second s) by by rewrite E.
    done. }
  assert (undos_st (undos_ok (valid s) (alive s)) s1) as Hus by exact (in_undos _ _ (proj1 Hin)).
  unfold semop_done. destruct du.
  2: { unfold the_plan. rewrite undo_plan_none by auto. exists s1. split; [by unfold recorded; destruct s|]. cbn [bind]. by apply (Hfin s1). }
  pose proof (record_undos_spec (valid s) (alive s) p ix sops None u 0 s1 (negb (semutot s =? semmnu (info s))) false Hus) as Hrec.
  change (undo_map p s1) with (undo_map p s) in Hrec. change (0 =? 0) with true in Hrec. fold (the_plan p ix sops s) in Hrec.
  assert (Forall (fun o => is_s 16 (sem_num o) /\ is_s 16 (sem_op o) /\ valid s ix (sem_num o)) sops) as Hf.
  { rewrite Forall_forall in Hr, Ht |- *. intros o Ho. destruct (Hr o Ho) as [R1 R2], (Ht o Ho) as [T1 T2].
    conj; [unfold is_s; lia|done|]. split; [done|]. exists a, d. split; [done|lia]. }
  specialize (Hrec ltac:(apply Hin) ltac:(lia) ltac:(done) ltac:(done) Hf). destruct (the_plan p ix sops s) as [m|e|].
  - destruct Hrec as (s2 & -> & Hrec). exists s2. split; [done|]. cbn [bind]. apply Hfin, Hrec.
  - destruct Hrec as (_ & w' & ->). cbn [bind]. change (negb (0 =? 0)) with false. cbn [bind]. unfold deref. simpl.
    rewrite lookup_insert_eq. cbn [bind]. rewrite rollback_spec; [|apply shift_vals|simpl; by rewrite shift_length]. cbn [bind].
    cbn [sem_base set_base]. rewrite shift_shift, shift_zero by (try done; intros; lia). unfold s1. rewrite put_put.
    change (put_set a _ s) with (put_set a (set_base (sem_base d) d) s). by rewrite set_base_same, put_same.
  - intros s'. destruct Hrec as [Hbad|(e & j & w' & s2 & -> & Hj)].
    + destruct (record_undos _ _ _ _ _ _ _) as [x| | |]; try done. by edestruct Hbad.
    + cbn [bind]. rewrite (proj2 (Z.eqb_neq j 0)) by lia. cbn [negb].
      destruct (undo_undos _ _ _ _ _ _ _) eqn:E; try done. by apply undo_undos_stuck in E.
Qed.

(** The whole attempt. *)
Definition attempt (du : bool) (o : outcome sem_state) : Prop :=
  match grant (semval <$> base) sops with
  | Some vals =>
      Forall (in_range (length base)) sops /\ semval <$> shift (total sops) base = vals /\
      match the_plan p ix sops s with
      | Recorded m => exists (w : bool) s2, (w = false -> quiet base sops) /\
          recorded (valid s) (alive s) p m (put_set a (set_base (shift (total sops) base) d) s) s2 /\
          o = leave p (Val 0) (if w then sem_wakeup ix (put_set a granted_set s2) else put_set a granted_set s2)
      | Refused e => o = leave p (Err e) s
      | Hazard => forall s', o <> Ret s'
      end
  | None =>
      exists took r rest, sops = took ++ r :: rest /\ Forall (in_range (length base)) took /\ grant (semval <$> base) took <> None /\
      (sem_nsems d <= sem_num r /\ o = leave p (Err EFBIG) (put_set a (set_base (shift (total took) base) d) s) \/
       exists x, base !! Z.to_nat (sem_num r) = Some x /\ in_range (length base) r /\ must_wait (u16 (semval x + total took (Z.to_nat (sem_num r)))) r = true /\
         o = if flag (sem_flg r) IPC_NOWAIT then leave p (Err EAGAIN) s
             else goto p (Semwait semid a sops (Z.of_nat (length took)) (du || existsb undone took) (sema_at s, ix) false)
                    (put_set a (set_base (<[Z.to_nat (sem_num r) := recount r 1 x]> base) d) s))
  end.

Lemma semop_try_spec du : attempt du (semop_try p semid a sops du u s).
Proof.
  pose proof Hd as (Hlen & Hn & Hv). pose proof Hl as (L1 & L2 & L3). unfold semop_try, deref. rewrite L3. cbn [bind].
  destruct (perform_spec (sem_nsems d) sops 0 base false du Hlen Hv Ht) as (r & b' & w & du' & E & took & rest & Es & -> & Hr & Htook & Hst & -> & Hw).
  pose proof (perform_grant (sem_nsems d) sops 0 base false du Hlen Hv Ht) as Hg. rewrite E in Hg |- *. cbn [bind]. unfold attempt.
  destruct r as [| |j], rest as [|o rest]; try done; simpl in Hst.
  - rewrite app_nil_r in Es. subst took. destruct (grant (semval <$> base) sops) as [vals|]; [|by edestruct Hg].
    destruct Hg as (b1 & w1 & d1 & [= <- <- <-] & Hvals). split; [done|]. split; [done|].
    pose proof (done_spec w (du || existsb undone sops) Hr ltac:(by intros [_ ?]%orb_false_iff)) as Hdone. cbv zeta in Hdone.
    destruct (the_plan p ix sops s); [|done|done]. destruct Hdone as (s2 & Hrec & Hdone). exists w, s2. conj; try done. by intros [_ ?]%Hw.
  - destruct (grant (semval <$> base) sops); [by destruct Hg as (? & ? & ? & [=] & _)|]. exists took, o, rest. conj; try done; [congruence|by left].
  - destruct (grant (semval <$> base) sops); [by destruct Hg as (? & ? & ? & [=] & _)|]. exists took, o, rest. conj; try done; [congruence|]. right.
    destruct Hst as (-> & Ho & y & Hy & Hb). rewrite shift_lookup in Hy. apply fmap_Some in Hy as (x & Hx & ->). exists x.
    conj; try done. rewrite Z.add_0_l, Nat2Z.id, Es, take_app_length.
    rewrite rollback_spec by (try apply shift_vals; by rewrite shift_length). cbn [bind].
    rewrite shift_shift, shift_zero by (try done; intros; lia). rewrite set_base_same, put_same by done.
    rewrite (aget_Some _ _ o) by (try lia; rewrite Nat2Z.id, lookup_app_r, Nat.sub_diag by lia; done). cbn [bind].
    destruct (flag (sem_flg o) IPC_NOWAIT); [done|]. rewrite (aget_Some _ _ x) by (try done; apply Ho). cbn [bind].
    rewrite aset_bounds by done. done.
Qed.
End Try.

(** * Waiters come and go *)

Lemma inv_procs P P' s : inv P s -> (forall q, alive s q <-> is_Some (P' !! q)) -> inv P (set_procs P' s).
Proof.
  intros [H1 H2 H3 H4 H5 H6] Ha. split; try done.
  - by destruct H1.
  - eapply undos_mono; [| |exact H2]; [done|]. intros u x _ Hx. by apply Ha.
  - intros q Hq. by apply H5, Ha.
  - intros q Hq. by apply Ha, H6.
Qed.

Lemma waits_at ix n z semid a sops i du c w pr o : p_pc pr = Semwait semid a sops i du c w -> sops !! Z.to_nat i = Some o ->
  waits ix n z pr = if bool_decide (Z.to_nat (IPCID_TO_IX semid) = ix /\ Z.to_nat (sem_num o) = n /\ (sem_op o =? 0) = z) then 1 else 0.
Proof. intros Hpc Ho. unfold waits. by rewrite Hpc, Ho. Qed.

Lemma recount_counted P P' ix n o k x : counted P ix n x -> 
  (forall z, 0 <= msum (waits ix n z) P' <= 32768) ->
  (forall z, msum (waits ix n z) P' = msum (waits ix n z) P + if bool_decide ((sem_op o =? 0) = z) then k else 0) ->
  counted P' ix n (recount o k x).
Proof.
  intros [E1 E2] Hr H. pose proof (H true) as Ht. pose proof (H false) as Hf. pose proof (Hr true). pose proof (Hr false).
  unfold recount, counted. destruct (sem_op o =? 0); simpl in *; rewrite ?E1, ?E2.
  - rewrite <- Ht, Hf. rewrite u16_small by (unfold is_u; lia). lia.
  - rewrite <- Hf, Ht. rewrite u16_small by (unfold is_u; lia). lia.
Qed.

Section Waiter.
Context (s : sem_state) (P P' : gmap Z sem_proc) (semid a : Z) (d : semid_ds) (o : sembuf) (x : sem) (k : Z).

Local Notation ix := (IPCID_TO_IX semid).
Local Notation n := (Z.to_nat (sem_num o)).

Context (H : inv P s) (Hl : live s ix a d) (Hd : set_ok d) (Hx : sem_base d !! n = Some x).
Context (Hpc : forall q pr, P' !! q = Some pr -> pc_ok s (p_pc pr)) (Hal : forall q, is_Some (P' !! q) -> alive s q).
Context (Hr : forall j m z, 0 <= msum (waits j m z) P' <= 32768).
Context (Hk : forall j m z, msum (waits j m z) P' = msum (waits j m z) P + if bool_decide (Z.to_nat ix = j /\ n = m /\ (sem_op o =? 0) = z) then k else 0).

Lemma recount_inv : inv P' (put_set a (set_base (<[n := recount o k x]> (sem_base d)) d) s).
Proof.
  destruct Hl as (L1 & L2 & L3). eapply (inv_put s a d); try done.
  - intros (K1 & K2 & K3). split; [simpl; by rewrite length_insert|]. split; [done|]. apply Forall_insert; [done|].
    apply (Forall_lookup_1 _ _ _ _ K3) in Hx. unfold recount. by destruct (sem_op o =? 0).
  - intros j b e m y Hj He Hy. apply lookup_insert_Some in He as [[<- <-]|[Hab He] ].
    + assert (j = Z.to_nat ix) as -> by by eapply (tb_inj _ (in_tables _ _ H)). simpl in Hy.
      destruct (decide (n = m)) as [<-|Hne].
      * rewrite list_lookup_insert_eq in Hy by (by eapply lookup_lt_Some). injection Hy as <-.
        eapply recount_counted; [by eapply (in_counts _ _ H)|done|]. intros z. rewrite Hk. f_equal. by rewrite (bool_decide_ext _ ((sem_op o =? 0) = z)) by tauto.
      * rewrite list_lookup_insert_ne in Hy by done. destruct (in_counts _ _ H _ _ _ _ _ L2 L3 Hy) as [E1 E2].
        unfold counted. rewrite !Hk, !bool_decide_eq_false_2 by tauto. lia.
    + destruct (in_counts _ _ H _ _ _ _ _ Hj He Hy) as [E1 E2]. assert (Z.to_nat ix <> j) by congruence.
      unfold counted. rewrite !Hk, !bool_decide_eq_false_2 by tauto. lia.
Qed.
End Waiter.

(** A process begins to wait. *)
Lemma sleep_ok p pr semid a d sops i du c w o x s : sem_inside p s -> live s (IPCID_TO_IX semid) a d -> set_ok d ->
  seq (sem_perm d) = IPCID_TO_SEQ semid -> p_pc pr = Semwait semid a sops i du c w -> Forall typed_op sops -> 0 <= i ->
  sops !! Z.to_nat i = Some o -> in_range (length (sem_base d)) o -> sem_base d !! Z.to_nat (sem_num o) = Some x ->
  ok (place p pr (put_set a (set_base (<[Z.to_nat (sem_num o) := recount o 1 x]> (sem_base d)) d) s)).
Proof.
  intros [H Hp] Hl Hd Hs Hpc Ht Hi Ho Hr Hx. unfold ok, place. cbn [procs set_procs put_set set_sets].
  apply inv_procs.
  2: { intros q. unfold alive. simpl. rewrite lookup_insert_is_Some'. split; [tauto|]. by intros [<-|]. }
  assert (forall j m z, msum (waits j m z) (<[p := pr]> (procs s)) = msum (waits j m z) (delete p (procs s)) +
    if bool_decide (Z.to_nat (IPCID_TO_IX semid) = j /\ Z.to_nat (sem_num o) = m /\ (sem_op o =? 0) = z) then 1 else 0) as Hk.
  { intros j m z. rewrite <- insert_delete_eq, msum_fresh by apply lookup_delete_eq. rewrite (waits_at _ _ _ _ _ _ _ _ _ _ _ _ Hpc Ho). lia. }
  eapply (recount_inv s (delete p (procs s))); try done.
  - intros q qr Hq. apply lookup_insert_Some in Hq as [[_ <-]|[Hne Hq] ]; [|by eapply (in_pcs _ _ H); rewrite lookup_delete_ne].
    rewrite Hpc. simpl. conj; try done. exists o. split; [done|]. right. exists d. destruct Hd, Hr. conj; try done. lia.
  - intros q Hq. apply lookup_insert_is_Some' in Hq as [<-|Hq]; done.
  - intros j m z. rewrite Hk. pose proof (waits_bound _ _ j m z H). case_bool_decide; lia.
Qed.

(** A process stops waiting. *)
Lemma sem_unsleep_ok p pr semid a d sops i du c w o x s : ok s -> procs s !! p = Some pr -> p_pc pr = Semwait semid a sops i du c w ->
  live s (IPCID_TO_IX semid) a d -> set_ok d -> sops !! Z.to_nat i = Some o -> sem_base d !! Z.to_nat (sem_num o) = Some x ->
  sem_inside p (put_set a (set_base (<[Z.to_nat (sem_num o) := recount o (-1) x]> (sem_base d)) d) s).
Proof.
  intros H Hp Hpc Hl Hd Ho Hx. split; [|by eexists].
  assert (forall j m z, msum (waits j m z) (delete p (procs s)) = msum (waits j m z) (procs s) +
    if bool_decide (Z.to_nat (IPCID_TO_IX semid) = j /\ Z.to_nat (sem_num o) = m /\ (sem_op o =? 0) = z) then -1 else 0) as Hk.
  { intros j m z. rewrite (msum_delete _ _ _ _ Hp), (waits_at _ _ _ _ _ _ _ _ _ _ _ _ Hpc Ho). case_bool_decide; lia. }
  eapply (recount_inv s (procs s)); try done.
  - intros q qr Hq. apply lookup_delete_Some in Hq as [_ Hq]. by eapply (in_pcs _ _ H).
  - intros q [qr Hq]. apply lookup_delete_Some in Hq as [_ Hq]. by eexists.
  - intros j m z. split; [apply msum_nonneg; intros; apply waits_range|]. rewrite Hk. pose proof (waits_bound _ _ j m z H). case_bool_decide; lia.
Qed.

(** The set is gone. *)
Lemma forget_ok p pr semid a sops i du c w o s : ok s -> procs s !! p = Some pr -> p_pc pr = Semwait semid a sops i du c w ->
  sops !! Z.to_nat i = Some o -> sema s !! Z.to_nat (IPCID_TO_IX semid) = Some None -> sem_inside p s.
Proof.
  intros [H1 H2 H3 H4 H5 H6] Hp Hpc Ho Hnone. split; [|by eexists]. split; try done.
  - intros q qr Hq. apply lookup_delete_Some in Hq as [_ Hq]. by eapply H3.
  - intros ix b e n x Hb He Hx. destruct (H4 ix b e n x Hb He Hx) as [E1 E2]. unfold counted.
    rewrite !(msum_delete _ _ _ _ Hp), !(waits_at _ _ _ _ _ _ _ _ _ _ _ _ Hpc Ho).
    assert (Z.to_nat (IPCID_TO_IX semid) <> ix) by congruence. rewrite !bool_decide_eq_false_2 by tauto. lia.
  - intros q [qr Hq]. apply lookup_delete_Some in Hq as [_ Hq]. apply H6. by eexists.
Qed.

(** * The attempt *)

Lemma like_shift d f : like d (set_base (shift f (sem_base d)) d).
Proof.
  split; [done|]. split; [done|]. split; [apply shift_length|]. split; [apply shift_vals|]. intros n y Hy. simpl in Hy.
  rewrite shift_lookup in Hy. apply fmap_Some in Hy as (x & Hx & ->). by exists x.
Qed.

Lemma like_stamp d p sops t : vals_ok (sem_base d) -> like d (set_otime t (set_base (stamp p sops (sem_base d)) d)).
Proof.
  intros Hv. assert (forall n y, stamp p sops (sem_base d) !! n = Some y -> exists x, sem_base d !! n = Some x /\ semncnt y = semncnt x /\ semzcnt y = semzcnt x /\ semval y = semval x) as Hs.
  { intros n y Hy. unfold stamp in Hy. rewrite list_lookup_imap in Hy. apply fmap_Some in Hy as (x & Hx & ->). exists x. split; [done|]. by destruct (touched sops n). }
  split; [done|]. split; [done|]. split; [apply length_imap|]. split.
  - apply Forall_lookup. intros n y (x & Hx & _ & _ & ->)%Hs. by apply (Forall_lookup_1 _ _ _ _ Hv Hx).
  - intros n y (x & Hx & E1 & E2 & _)%Hs. by exists x.
Qed.

(** The state in which the vector is granted. *)
Lemma granted_inside p ix a d sops m s s2 : sem_inside p s -> live s ix a d -> set_ok d ->
  recorded (valid s) (alive s) p m (put_set a (set_base (shift (total sops) (sem_base d)) d) s) s2 ->
  sem_inside p (put_set a (granted_set p d sops s) s2).
Proof.
  intros H (L1 & L2 & L3) Hd (E & Hu & _). eapply inside_like.
  - eapply inside_undos; [eapply (inside_like p s a); [done|done|apply like_shift]|done|].
    eapply undos_mono; [| |exact Hu]; [|done]. intros u x e _ _. by eapply valid_put.
  - rewrite E. apply lookup_insert_eq.
  - apply (like_stamp (set_base (shift (total sops) (sem_base d)) d)). apply shift_vals.
Qed.

Lemma semop_try_ok {A : arch} p semid a d sops u du s : sem_inside p s -> live s (IPCID_TO_IX semid) a d -> set_ok d ->
  seq (sem_perm d) = IPCID_TO_SEQ semid -> Forall typed_op sops -> undos s !! u = None ->
  (grant (semval <$> sem_base d) sops <> None -> the_plan p (IPCID_TO_IX semid) sops s <> Hazard) ->
  returns (semop_try p semid a sops du u s) ok.
Proof.
  intros H Hl Hd Hs Ht Hu Hplan. pose proof (semop_try_spec p semid a d sops u s H Hl Hd Ht Hu du) as Ha. unfold attempt in Ha.
  pose proof Hl as (_ & _ & L3). destruct (grant (semval <$> sem_base d) sops) as [vals|].
  - destruct Ha as (Hr & _ & Ha). specialize (Hplan ltac:(done)). destruct (the_plan p (IPCID_TO_IX semid) sops s) as [m|e|]; [| |done].
    + destruct Ha as (w & s2 & _ & Hrec & ->). apply sem_leave_ok. pose proof (granted_inside _ _ _ _ _ _ _ _ H Hl Hd Hrec).
      destruct w; [by apply inside_wakeup|done].
    + rewrite Ha. by apply sem_leave_ok.
  - destruct Ha as (took & r & rest & Es & Hr & _ & [[_ ->]|(x & Hx & Hrr & _ & ->)]).
    + apply sem_leave_ok. eapply inside_like; [done|done|apply like_shift].
    + destruct (flag (sem_flg r) IPC_NOWAIT); [by apply sem_leave_ok|]. pose proof H as [_ [pr Hp] ].
      rewrite (goto_place _ _ _ pr) by done. eapply sleep_ok; try done; [lia|]. by rewrite Nat2Z.id, Es, lookup_app_r, Nat.sub_diag by lia.
Qed.

Lemma recount_val o k x : semval (recount o k x) = semval x.
Proof. unfold recount. by destruct (sem_op o =? 0). Qed.

Lemma recount_vals o k x (base : list sem) : base !! Z.to_nat (sem_num o) = Some x ->
  semval <$> <[Z.to_nat (sem_num o) := recount o k x]> base = semval <$> base.
Proof. intros Hx. rewrite list_fmap_insert, recount_val. apply list_insert_id. by rewrite list_lookup_fmap, Hx. Qed.

(** A waiter runs again: its set is gone, or it stops being counted and tries
    again unless it was interrupted. *)
Lemma semop_awake_cases {A : arch} p pr semid a sops i du c w error u s : ok s -> procs s !! p = Some pr ->
  p_pc pr = Semwait semid a sops i du c w -> Forall typed_op sops /\
  (sema s !! Z.to_nat (IPCID_TO_IX semid) = Some None /\ semop_awake p semid a sops i du error u s = leave p (Err EIDRM) s /\ sem_inside p s \/
   exists d d', live s (IPCID_TO_IX semid) a d /\ set_ok d' /\ seq (sem_perm d') = IPCID_TO_SEQ semid /\
     semval <$> sem_base d' = semval <$> sem_base d /\ sem_inside p (put_set a d' s) /\
     semop_awake p semid a sops i du error u s =
       if error =? 0 then semop_try p semid a sops du u (put_set a d' s) else leave p (Err EINTR) (put_set a d' s)).
Proof.
  intros H Hp Hpc. pose proof (in_pcs _ _ H p pr Hp) as Hok. rewrite Hpc in Hok. destruct Hok as (Ht & Hi & o & Ho & Hlive).
  split; [done|]. pose proof (ix_range semid) as Hix. unfold semop_awake. destruct Hlive as [Hnone|(d & Hl & Hs & Hr)].
  { left. rewrite (aget_Some _ _ None) by (done || lia). conj; try done. by eapply forget_ok. }
  right. pose proof Hl as (L1 & L2 & L3). destruct (tb_sets _ (in_tables _ _ H) _ _ L2) as (d0 & Hd0 & Hd & _).
  assert (d0 = d) as -> by congruence. pose proof Hd as (Hlen & Hn & Hv).
  assert (in_range (length (sem_base d)) o) as Hro.
  { split; [|lia]. rewrite Forall_forall in Ht. apply (Ht o). by eapply list_elem_of_lookup_2. }
  destruct (aget_bounds (sem_base d) _ Hro) as (x & Ex & Hx).
  exists d, (set_base (<[Z.to_nat (sem_num o) := recount o (-1) x]> (sem_base d)) d). conj; try done.
  - split; [simpl; by rewrite length_insert|]. split; [done|]. apply Forall_insert; [done|]. rewrite recount_val.
    by apply (Forall_lookup_1 _ _ _ _ Hv) in Hx.
  - by apply recount_vals.
  - by eapply sem_unsleep_ok.
  - rewrite (aget_Some _ _ (Some a)) by done. cbn [bind]. unfold deref. rewrite L3. cbn [bind].
    rewrite (proj2 (Z.eqb_eq _ _) Hs), (aget_Some _ _ o) by done. cbn [bind negb]. rewrite Ex. cbn [bind]. rewrite aset_bounds by done.
    cbn [bind]. by destruct (error =? 0).
Qed.

Lemma semop_awake_ok {A : arch} p pr semid a sops i du c w error u s : ok s -> procs s !! p = Some pr ->
  p_pc pr = Semwait semid a sops i du c w -> undos s !! u = None ->
  (forall d, error = 0 -> sets s !! a = Some d -> grant (semval <$> sem_base d) sops <> None -> the_plan p (IPCID_TO_IX semid) sops s <> Hazard) ->
  returns (semop_awake p semid a sops i du error u s) ok.
Proof.
  intros H Hp Hpc Hu Hplan. destruct (semop_awake_cases p pr semid a sops i du c w error u s H Hp Hpc)
    as (Ht & [(_ & -> & Hin)|(d & d' & (L1 & L2 & L3) & Hd' & Hs & Hv & Hin & ->)]); [by apply sem_leave_ok|].
  destruct (Z.eqb_spec error 0); [|by apply sem_leave_ok]. eapply (semop_try_ok _ _ _ d'); try done.
  - split; [done|]. split; [done|]. apply lookup_insert_eq.
  - rewrite Hv. by apply (Hplan d).
Qed.
