(* ===== verification/SemSafe.v ===== *)
(** * Exit, the limits, and all steps *)

From stdpp Require Import gmap sets.
From S2P Require Import Prelude MapSum Sem SemUndo SemOp SemInv SemSteps SemTry.

(** * Values *)

(** The values of the set at index [ix], and of one semaphore. *)
Definition values (s : sem_state) (ix : Z) : option (list Z) :=
  match sema s !! Z.to_nat ix with
  | Some (Some a) => (fun d => semval <$> sem_base d) <$> sets s !! a
  | _ => None
  end.

Definition value (s : sem_state) (ix n : Z) : option Z := values s ix ≫= fun l => l !! Z.to_nat n.

Lemma values_live s ix a d : live s ix a d -> values s ix = Some (semval <$> sem_base d).
Proof. intros (_ & H1 & H2). unfold values. by rewrite H1, H2. Qed.

Lemma value_put P s ix a d m y jx n : inv P s -> live s ix a d -> (Z.to_nat m < length (sem_base d))%nat -> 0 <= m -> 0 <= jx -> 0 <= n ->
  value (put_set a (set_base (<[Z.to_nat m := y]> (sem_base d)) d) s) jx n = if decide ((jx, n) = (ix, m)) then Some (semval y) else value s jx n.
Proof.
  intros H (L1 & L2 & L3) Hm Hm0 Hjx Hn0. unfold value, values. simpl. destruct (decide (jx = ix)) as [->|Hne].
  - rewrite L2, lookup_insert_eq, L3. simpl. rewrite list_fmap_insert. destruct (decide (n = m)) as [->|Hnm].
    + rewrite decide_True by done. rewrite list_lookup_insert_eq by by rewrite length_fmap. done.
    + rewrite decide_False by congruence. rewrite list_lookup_insert_ne by lia. done.
  - rewrite decide_False by congruence. destruct (sema s !! Z.to_nat jx) as [[b|]|] eqn:Eb; try done.
    rewrite lookup_insert_ne; [done|]. intros <-. pose proof (tb_inj _ (in_tables _ _ H) _ _ _ L2 Eb). lia.
Qed.

(** * Exit *)

(** The value of a semaphore after the adjustment of a process that exits. *)
Definition exit_value (adj v : Z) : Z := if (adj <? 0) && (v <? - adj) then 0 else u16 (v + adj).

Definition adjusted_by (m : gmap (Z * Z) Z) (ix n : Z) (v : option Z) : option Z :=
  match m !! (ix, n) with Some adj => exit_value adj <$> v | None => v end.

(** What [semexit] leaves alone. *)
Definition same_tables (s s' : sem_state) : Prop :=
  info s' = info s /\ sema s' = sema s /\ semu_list s' = semu_list s /\ undos s' = undos s /\ semutot s' = semutot s /\
  (forall q, alive s' q <-> alive s q).

Lemma apply_undos_spec p l s : sem_inside p s -> Forall (entry_ok (valid s)) l -> NoDup (ukey <$> l) ->
  exists s', apply_undos l s = Ret s' /\ sem_inside p s' /\ same_tables s s' /\
    forall ix n, 0 <= ix -> 0 <= n -> value s' ix n = adjusted_by (umap l) ix n (value s ix n).
Proof.
  revert s. induction l as [|e l IH]; intros s H Hf Hn; cbn [apply_undos]; [exists s; by conj|].
  apply Forall_cons in Hf as [(E1 & E2 & E3) Hf]. rewrite fmap_cons in Hn. apply NoDup_cons in Hn as [He Hn].
  destruct E3 as (E3 & a & d & Hl & Hlt). pose proof Hl as (L1 & L2 & L3). rewrite (aget_Some _ _ (Some a)) by done. cbn [bind].
  unfold deref. rewrite L3. cbn [bind]. rewrite (proj2 (Z.leb_gt _ _)) by done.
  destruct (tb_sets _ (in_tables _ _ (proj1 H)) _ _ L2) as (d0 & Hd0 & Hd & _). assert (d0 = d) as -> by congruence.
  pose proof Hd as (Hlen & Hns & Hv). destruct (aget_bounds (sem_base d) (un_num e)) as (x & -> & Hx); [lia|]. cbn [bind].
  rewrite aset_bounds by lia. cbn [bind]. fold (exit_value (un_adjval e) (semval x)).
  set (y := set_semval (exit_value (un_adjval e) (semval x)) x). set (s1 := put_set a _ s).
  assert (sem_inside p (sem_wakeup (un_id e) s1)) as H1.
  { apply inside_wakeup. eapply inside_like; [done|done|]. eapply insert_like; try done. unfold y, exit_value. simpl.
    destruct (_ && _); [unfold is_u; lia|apply u16_range]. }
  destruct (IH (sem_wakeup (un_id e) s1) H1) as (s' & -> & H' & Hsame & Hval); [|done|].
  { eapply Forall_impl; [exact Hf|]. intros e' (F1 & F2 & F3). split; [done|]. split; [done|].
    change (valid s1 (un_id e') (un_num e')). by eapply valid_put. }
  exists s'. conj; try done.
  - destruct Hsame as (? & ? & ? & ? & ? & Ha). unfold same_tables. conj; try done. intros q. rewrite Ha. unfold alive. simpl. by rewrite lookup_fmap, fmap_is_Some.
  - intros ix n Hix Hn0. rewrite Hval by done. change (value (sem_wakeup (un_id e) s1) ix n) with (value s1 ix n).
    unfold s1. rewrite (value_put _ _ _ _ _ (un_num e) y ix n (proj1 H) Hl) by (done || lia). unfold adjusted_by. rewrite umap_cons.
    destruct (decide ((ix, n) = (un_id e, un_num e))) as [[= -> ->]|Hne].
    + change (un_id e, un_num e) with (ukey e). rewrite lookup_insert_eq, umap_none by done. unfold value.
      rewrite (values_live _ _ _ _ Hl). simpl. rewrite list_lookup_fmap, Hx. done.
    + rewrite lookup_insert_ne by (unfold ukey; congruence). done.
Qed.

Lemma gone_ok p s : sem_inside p s -> (forall u x, undos s !! u = Some x -> un_proc x <> p) -> ok (set_procs (delete p (procs s)) s).
Proof.
  intros [ [H1 H2 H3 H4 H5 H6] Hp] Hu. split; try done.
  - by destruct H1.
  - eapply undos_mono; [| |exact H2]; [done|]. intros u x Hx Ha. unfold alive in *. simpl. rewrite lookup_delete_ne; [done|].
    intros E. by apply (Hu u x Hx).
  - intros q Hq. apply H5. unfold alive in *. simpl in Hq. apply lookup_delete_is_Some in Hq as [_ Hq]. done.
Qed.

(** The structure [u] of [p] is freed. *)
Lemma free_undo valid alive p u x l' s : undos_st (undos_ok valid alive) s -> undos s !! u = Some x -> un_proc x = p -> semu_list s ≡ₚ u :: l' ->
  let s' := set_undos l' (delete u (undos s)) (semutot s - 1) s in
  undos_st (undos_ok valid alive) s' /\ (forall v y, undos s' !! v = Some y -> un_proc y <> p) /\ undo_map p s' = ∅ /\
  forall q, q <> p -> undo_map q s' = undo_map q s.
Proof.
  intros [H Hne] Hx Hp Hl s'. assert (undos_st (undos_wf valid alive) s') as H' by (by eapply wf_delete).
  assert (forall v y, undos s' !! v = Some y -> un_proc y <> p) as Hno.
  { intros v y Hy E. simpl in Hy. apply lookup_delete_Some in Hy as [Hv Hy]. apply Hv. eapply (un_inj _ _ _ _ _ H); [done|done|congruence]. }
  conj; try done.
  - split; [done|]. intros v y Hy. simpl in Hy. apply lookup_delete_Some in Hy as [_ Hy]. by eapply Hne.
  - destruct (undo_map_cases _ _ p s' H') as [(v & y & Hy & E & _)|[_ E] ]; [by edestruct Hno|done].
  - intros q Hq. eapply undo_map_eq; [done|done|]. intros v y Hy. simpl. rewrite lookup_delete_Some. split; [tauto|].
    intros Hv. split; [|done]. intros ->. congruence.
Qed.

Lemma semexit_spec p pr s : ok s -> procs s !! p = Some pr -> resting (p_pc pr) = true ->
  exists s', semexit p s = Ret s' /\ ok (set_procs (delete p (procs s')) s') /\ undo_map p s' = ∅ /\
    (forall q, q <> p -> undo_map q s' = undo_map q s) /\
    forall ix n, 0 <= ix -> 0 <= n -> value s' ix n = adjusted_by (undo_map p s) ix n (value s ix n).
Proof.
  intros H Hp Hr. assert (sem_inside p s) as Hin by (by eapply inside_rest). pose proof (in_undos _ _ H) as Hu. pose proof Hu as [Hw _].
  unfold semexit. destruct (find_undo_spec (undos s) p (semu_list s)) as [[-> Hno]|(u & x & -> & Hul & Hx & Hpx)]; [intros u; apply Hw| |]; cbn [bind].
  - assert (forall u x, undos s !! u = Some x -> un_proc x <> p) as Hno'.
    { intros u x Hx. eapply Hno; [|done]. apply Hw. by eexists. }
    assert (undo_map p s = ∅) as Em by (destruct (undo_map_cases _ _ p s Hw) as [(v & y & Hy & E & _)|[_ E] ]; [by edestruct Hno'|done]).
    exists s. conj; try done; [by apply gone_ok|]. intros ix n _ _. unfold adjusted_by. by rewrite Em.
  - unfold deref. rewrite Hx. cbn [bind]. destruct (un_ok _ _ _ _ _ Hw u x Hx) as [_ (Hn & _ & Hf)].
    destruct (apply_undos_spec p (un_ent x) s Hin Hf Hn) as (s1 & -> & Hin1 & (S1 & S2 & S3 & S4 & S5 & S6) & Hval). cbn [bind].
    rewrite S3. destruct (slist_remove_spec u (semu_list s) Hul (un_nodup _ _ _ _ _ Hw)) as (l' & -> & Hl & _). cbn [bind].
    pose proof (in_undos _ _ (proj1 Hin1)) as Hu1. rewrite <- S3 in Hl. rewrite <- S4 in Hx.
    destruct (free_undo _ _ p u x l' s1 Hu1 Hx Hpx Hl) as (F1 & F2 & F3 & F4). eexists. split; [done|]. conj.
    + apply gone_ok; [|done]. by eapply inside_undos.
    + done.
    + intros q Hq. rewrite F4 by done. unfold undo_map. by rewrite S3, S4.
    + intros ix n Hix Hn0. rewrite <- Hpx, (undo_map_some _ _ u x s Hw) by congruence. by apply Hval.
Qed.

(** * The limits *)

(** The arrays get longer and the limits change. *)
Definition resized (i : seminfo) (at_ : Z) (k : nat) (s : sem_state) : sem_state :=
  set_info i (set_sema_at at_ (set_sema (sema s ++ replicate k None) (set_semseqs (semseqs s ++ replicate k 0) s))).

Lemma resized_live i at_ k s ix a d : live s ix a d -> live (resized i at_ k s) ix a d.
Proof. intros (H1 & H2 & H3). unfold live. simpl. by rewrite lookup_app_l by (by eapply lookup_lt_Some). Qed.

Lemma resized_slot i at_ k s j a : sema (resized i at_ k s) !! j = Some (Some a) -> sema s !! j = Some (Some a).
Proof.
  simpl. intros Hj. destruct (decide (j < length (sema s))%nat); [by rewrite lookup_app_l in Hj by done|].
  rewrite lookup_app_r in Hj by lia. by apply lookup_replicate in Hj as [? _].
Qed.

Lemma resized_inside p i at_ k s : sem_inside p s -> semmni i = semmni (info s) + Z.of_nat k -> semmni i <= 65535 ->
  semmsl (info s) <= semmsl i <= 32767 -> sem_inside p (resized i at_ k s).
Proof.
  intros [ [ [T1 T2 T3 T4 T5 T6 T7 T8] H2 H3 H4 H5 H6] Hp] Hk Hm Hs. split; [|done]. split; try done.
  - split; try done.
    + simpl. rewrite length_app, length_replicate. lia.
    + simpl. lia.
    + simpl. rewrite !length_app, !length_replicate. lia.
    + simpl. apply Forall_app. split; [done|]. apply Forall_replicate. unfold is_u. lia.
    + intros j a Hj%resized_slot. destruct (T6 j a Hj) as (d & Hd & Hok & Hsq). exists d. conj; try done. simpl.
      by rewrite lookup_app_l by (by eapply lookup_lt_Some).
    + intros j j' a Hj%resized_slot Hj'%resized_slot. by eapply T7.
    + simpl. rewrite lsum_app, T8, (lsum_zero _ (replicate k None)); [lia|]. by intros x [-> _]%elem_of_replicate.
  - eapply undos_mono; [| |exact H2]; [|done]. intros u x e _ _ [Hn (a & d & Hl & Hlt)]. split; [done|]. exists a, d. split; [by apply resized_live|done].
  - intros q pr Hq. specialize (H3 q pr Hq). destruct (p_pc pr); simpl in *; try done; [lia| |].
    + destruct H3 as (d & Hl & E). exists d. split; [by apply resized_live|done].
    + destruct H3 as (K1 & K2 & o & Ho & [K|(d & Hl & K)]); conj; try done; exists o; (split; [done|]);
        [left; by rewrite lookup_app_l by (by eapply lookup_lt_Some)|right]. exists d. split; [by apply resized_live|done].
  - intros ix a d n x Hi. apply resized_slot in Hi. by apply H4.
Qed.

Lemma resized_none i s : resized i (sema_at s) 0 s = set_info i s.
Proof. unfold resized. simpl. rewrite !app_nil_r. by destruct s. Qed.

Lemma sysctl_ok p knob val at_ s : sem_inside p s -> (knob = SEMMSL -> val <= 32767) -> sem_inside p (sysctl_sysvsem knob val at_ s).2.
Proof.
  intros H Hk. pose proof (in_tables _ _ (proj1 H)) as T. pose proof (tb_mni _ T). pose proof (tb_msl _ T). unfold sysctl_sysvsem.
  destruct knob; (case_if; [done|]); (case_if; [done|]); boolify; simpl.
  1: { unfold grow_sets. apply resized_inside; simpl; try done; lia. }
  all: rewrite <- resized_none; apply resized_inside; simpl; try done; try lia.
  specialize (Hk eq_refl). lia.
Qed.

(** * The start of [semop] *)

Lemma sys_semop_ok {A : arch} p pr semid nsops s : ok s -> procs s !! p = Some pr -> p_pc pr = User -> returns (sys_semop p semid nsops s) ok.
Proof.
  intros Hok Hp Hpc. assert (sem_inside p s) as H by (eapply inside_rest; [done|done|by rewrite Hpc]).
  unfold sys_semop, deref. rewrite Hp. cbn [bind]. destruct (find_set_spec _ _ semid Hok) as [->|(a & d & -> & Hl & Hd & Hs)]; cbn [bind].
  { by apply sem_leave_ok. }
  repeat (case_if; [by apply sem_leave_ok|]). apply sem_goto_ok; [done| |done]. by exists d.
Qed.

(** * Steps *)

(** The attempt of [p] does not go wrong with its adjustments. *)
Definition no_hazard (p semid a : Z) (sops : list sembuf) (s : sem_state) : bool :=
  match sets s !! a with
  | Some d =>
      match grant (semval <$> sem_base d) sops, the_plan p (IPCID_TO_IX semid) sops s with
      | Some _, Hazard => false
      | _, _ => true
      end
  | None => true
  end.

(** What the code does not guard against does not happen: a set is removed
    while a process copies in its operations for it, an index is used again
    while a process sleeps that waited there, a set has more semaphores than
    the numbers in an undo structure can tell, adjustments go wrong. *)
Definition calm (l : label) (s : sem_state) : bool :=
  match l with
  | Enter p (Semctl semid _ IPC_RMID _) => bool_decide (nobody (copying (IPCID_TO_IX semid)) (procs s))
  | Enter p (Sysctl SEMMSL val _) => val <=? 32767
  | Allocated p a =>
      match find_free (sema s) 0 with Some ix => bool_decide (nobody (waiting ix) (procs s)) | None => true end
  | Copied p (inl sops) u =>
      match p_pc <$> procs s !! p with Some (Copyin semid a _) => no_hazard p semid a sops s | _ => true end
  | Awake p error u =>
      match p_pc <$> procs s !! p with Some (Semwait semid a sops _ _ _ _) => negb (error =? 0) || no_hazard p semid a sops s | _ => true end
  | _ => true
  end.

Lemma sem_fork_ok p pr q s : ok s -> procs s !! p = Some pr -> p_pc pr = User -> procs s !! q = None -> 0 <= q <= 32766 ->
  returns (leave p (Val q) (set_procs (<[q := Proc (p_ucred pr) User (Val 0)]> (procs s)) s)) ok.
Proof.
  intros Hok Hp Hpc Hq Hr. assert (sem_inside p s) as [ [H1 H2 H3 H4 H5 H6] _] by (eapply inside_rest; [done|done|by rewrite Hpc]).
  assert (q <> p) as Hne by congruence. apply sem_leave_ok. unfold sem_inside. cbn [procs set_procs]. rewrite delete_insert_ne by done.
  rewrite lookup_insert_ne by done. split; [|by eexists]. split; try done.
  - by destruct H1.
  - eapply undos_mono; [| |exact H2]; [done|]. intros u x _ Ha. unfold alive in *. simpl. apply lookup_insert_is_Some'. by right.
  - intros r rr Hrr. apply lookup_insert_Some in Hrr as [[_ <-]|[_ Hrr] ]; [done|]. by apply (H3 r).
  - intros ix a d n x Hi Hd Hx. destruct (H4 ix a d n x Hi Hd Hx) as [E1 E2]. unfold counted.
    rewrite !msum_fresh by (by rewrite lookup_delete_ne). rewrite !waits_resting by done. lia.
  - intros r Ha. unfold alive in *. simpl in Ha. apply lookup_insert_is_Some' in Ha as [<-|Ha]; [done|by apply H5].
  - intros r Ha. apply lookup_insert_is_Some' in Ha as [<-|Ha]; unfold alive; simpl; apply lookup_insert_is_Some'; [by left|right; by apply H6].
Qed.

Lemma sembufs_typed sops : forallb sembuf_ok sops = true -> Forall typed_op sops.
Proof.
  intros H. apply Forall_forall. intros o Ho. rewrite forallb_forall in H. specialize (H o (proj1 (list_elem_of_In _ _) Ho)).
  unfold sembuf_ok in H. boolify. repeat match goal with E : bool_decide _ = true |- _ => apply bool_decide_eq_true in E end.
  unfold typed_op, is_u in *. split; [lia|done].
Qed.

Lemma no_hazard_plan p semid a sops s d : no_hazard p semid a sops s = true -> sets s !! a = Some d ->
  grant (semval <$> sem_base d) sops <> None -> the_plan p (IPCID_TO_IX semid) sops s <> Hazard.
Proof. unfold no_hazard. intros H Hd Hg. rewrite Hd in H. destruct (grant _ _); [|done]. by destruct (the_plan _ _ _ _). Qed.

Section Steps.
Context {A : arch}.

Lemma enter_ok p pr c s : ok s -> procs s !! p = Some pr -> p_pc pr = User -> call_ok c s = true -> calm (Enter p c) s = true ->
  returns (enter p pr c s) ok.
Proof.
  intros H Hp Hpc Hc Hcalm. assert (sem_inside p s) as Hin by (eapply inside_rest; [done|done|by rewrite Hpc]). destruct c; cbn [enter].
  - by eapply semget_ok.
  - eapply semctl_ok; try done.
    + destruct cmd; try done. simpl in Hc. boolify. by apply bool_decide_eq_true in H1.
    + intros ->. by apply bool_decide_eq_true in Hcalm.
  - by eapply sys_semop_ok.
  - pose proof (sysctl_ok p knob val at_ s Hin) as Hs. destruct (sysctl_sysvsem knob val at_ s) as [e s']. unfold answer. apply sem_leave_ok, Hs.
    intros ->. simpl in Hcalm. boolify. lia.
  - simpl in Hc. boolify. apply bool_decide_eq_true in H0, H1. by eapply sem_fork_ok.
  - destruct (semexit_spec p pr s H Hp) as (s' & -> & Hok & _); [by rewrite Hpc|]. done.
Qed.

Lemma sem_step_ok l s o : ok s -> calm l s = true -> step l s = Some o -> returns o ok.
Proof.
  intros H Hcalm. destruct l as [p c|p a|p r u|p error u|t]; cbn [step].
  - destruct (procs s !! p) as [pr|] eqn:Hp; [|done]. destruct (p_pc pr) eqn:Hpc; try done. destruct (call_ok c s) eqn:Hc; [|done].
    intros [= <-]. by eapply enter_ok.
  - destruct (procs s !! p) as [pr|] eqn:Hp; [|done]. simpl. destruct (p_pc pr) eqn:Hpc; try done. case_bool_decide; [|done]. intros [= <-].
    eapply semget_alloc_ok; try done. intros ix Hix. simpl in Hcalm. rewrite Hix in Hcalm. by apply bool_decide_eq_true in Hcalm.
  - destruct (procs s !! p) as [pr|] eqn:Hp; [|done]. simpl. destruct (p_pc pr) eqn:Hpc; try done.
    case_if; [|done]. intros [= <-]. boolify. apply bool_decide_eq_true in H1.
    assert (sem_inside p s) as Hin by (eapply inside_rest; [done|done|by rewrite Hpc]). destruct r as [sops|e]; simpl; [|by apply sem_leave_ok]. boolify.
    pose proof (in_pcs _ _ H p pr Hp) as Hok. rewrite Hpc in Hok. destruct Hok as (d & Hl & Hs). pose proof Hl as (L1 & L2 & L3).
    destruct (tb_sets _ (in_tables _ _ H) _ _ L2) as (d0 & Hd0 & Hd & _). assert (d0 = d) as -> by congruence.
    eapply semop_try_ok; try done; [by apply sembufs_typed|]. simpl in Hcalm. rewrite Hp in Hcalm. simpl in Hcalm. rewrite Hpc in Hcalm.
    by eapply no_hazard_plan.
  - destruct (procs s !! p) as [pr|] eqn:Hp; [|done]. simpl. destruct (p_pc pr) eqn:Hpc; try done.
    case_if; [|done]. intros [= <-]. boolify. apply bool_decide_eq_true in H1. eapply semop_awake_ok; try done.
    intros d -> Hd. simpl in Hcalm. rewrite Hp in Hcalm. simpl in Hcalm. rewrite Hpc in Hcalm. by eapply no_hazard_plan.
  - intros [= <-]. simpl. destruct H as [H1 H2 H3 H4 H5 H6]. split; try done. by destruct H1.
Qed.

(** The limits that the system boots with. *)
Definition info_ok (i : seminfo) : Prop := 0 <= semmni i <= 65535 /\ semmsl i <= 32767.

Inductive reachable : sem_state -> Prop :=
| reach_boot i p cred : info_ok i -> 0 <= p <= 32766 -> reachable (sem_booted i p cred)
| reach_step s l s' : reachable s -> calm l s = true -> step l s = Some (Ret s') -> reachable s'.

Lemma booted_ok i p cred : info_ok i -> 0 <= p <= 32766 -> ok (sem_booted i p cred).
Proof.
  intros [Hi Hm] Hp. unfold sem_booted. split; simpl.
  - split; simpl; rewrite ?length_replicate; try done; try lia.
    + apply Forall_replicate. unfold is_u. lia.
    + intros j a Hj. by apply lookup_replicate in Hj as [? _].
    + intros j k a Hj. by apply lookup_replicate in Hj as [? _].
    + rewrite lsum_zero; [done|]. by intros x [-> _]%elem_of_replicate.
  - split; [|done]. split; simpl; try done; [constructor|]. intros u. split; [by intros ?%elem_of_nil|by intros [? ?]].
  - intros q pr Hq. by apply lookup_singleton_Some in Hq as [_ <-].
  - intros ix a d n x Hi'. by apply lookup_replicate in Hi' as [? _].
  - intros q [pr Hq]. simpl in Hq. by apply lookup_singleton_Some in Hq as [<- _].
  - done.
Qed.

Lemma sem_reachable_ok s : reachable s -> ok s.
Proof.
  induction 1 as [i p cred Hi Hp|s l s' _ IH Hc Hs]; [by apply booted_ok|]. exact (sem_step_ok l s _ IH Hc Hs).
Qed.
End Steps.
