(* ===== verification/SemWake.v ===== *)
(** * Nobody sleeps who could go on

    What a waiter waits for stays so until it is woken up: the requests that
    are granted meanwhile, the calls that set values and the processes that exit
    either leave it blocked or wake it up.  That needs vectors that the code
    is right for. *)

From stdpp Require Import gmap sets.
From S2P Require Import Prelude MapSum Sem SemUndo SemOp SemInv SemSteps SemTry SemSafe.

(** * Vectors *)

(** What the requests add to semaphore [n] at most. *)
Fixpoint most (sops : list sembuf) (n : nat) : Z :=
  match sops with
  | [] => 0
  | o :: sops => (if decide (Z.to_nat (sem_num o) = n) then Z.max 0 (sem_op o) else 0) + most sops n
  end.

Lemma most_nonneg sops n : 0 <= most sops n.
Proof. induction sops as [|o sops IH]; simpl; [lia|]. case_decide; lia. Qed.

(** No value goes over the largest one. *)
Definition fits (base : list sem) (sops : list sembuf) : Prop :=
  forall n x, base !! n = Some x -> semval x + most sops n <= 65535.

(** The requests before one for zero leave its semaphore as it is. *)
Definition zero_plain (sops : list sembuf) : Prop :=
  forall i o, sops !! i = Some o -> sem_op o = 0 -> total (take i sops) (Z.to_nat (sem_num o)) = 0.

(** One request that is granted. *)
Lemma grant_cons base o sops x : vals_ok base -> base !! Z.to_nat (sem_num o) = Some x -> grant (semval <$> base) (o :: sops) <> None ->
  must_wait (semval x) o = false /\ grant (semval <$> shift (total [o]) base) sops <> None.
Proof.
  intros Hv Hx. cbn [grant]. rewrite list_lookup_fmap, Hx. cbn. destruct (must_wait (semval x) o); [done|].
  by rewrite <- shift_one_vals by done.
Qed.

Lemma grant_named base o sops : grant (semval <$> base) (o :: sops) <> None -> exists x, base !! Z.to_nat (sem_num o) = Some x.
Proof. cbn [grant]. rewrite list_lookup_fmap. destruct (base !! Z.to_nat (sem_num o)) as [x|]; [by exists x|done]. Qed.

Lemma shift_total_at o base n x : base !! n = Some x -> shift (total [o]) base !! n = Some (set_semval (u16 (semval x + total [o] n)) x).
Proof. intros H. by rewrite shift_lookup, H. Qed.

(** One step, for the value of [n]. *)
Lemma grant_step base o sops n x : vals_ok base -> base !! n = Some x -> grant (semval <$> base) (o :: sops) <> None ->
  semval x + most (o :: sops) n <= 65535 ->
  u16 (semval x + total [o] n) = semval x + total [o] n /\ 0 <= semval x + total [o] n /\
  semval x + total [o] n + most sops n <= 65535 /\ grant (semval <$> shift (total [o]) base) sops <> None.
Proof.
  intros Hv Hx Hg Hm. destruct (grant_named _ _ _ Hg) as [y Hy]. destruct (grant_cons _ _ _ _ Hv Hy Hg) as [Hw Hg'].
  apply (Forall_lookup_1 _ _ _ _ Hv) in Hx as Hxv. rewrite total_one. cbn [most] in Hm. pose proof (most_nonneg sops n). unfold is_u in Hxv.
  assert (0 <= semval x + (if decide (Z.to_nat (sem_num o) = n) then sem_op o else 0) <= 65535 - most sops n).
  { case_decide as Hn; [|lia]. subst n. assert (y = x) as -> by congruence. unfold must_wait in Hw.
    destruct (Z.ltb_spec (sem_op o) 0), (Z.ltb_spec (semval x + sem_op o) 0); simpl in *; try done; lia. }
  conj; try done; try lia. apply u16_small. unfold is_u. lia.
Qed.

(** The values do not wrap around. *)
Lemma grant_exact sops base n x : vals_ok base -> base !! n = Some x -> grant (semval <$> base) sops <> None ->
  semval x + most sops n <= 65535 -> 0 <= semval x + total sops n <= 65535.
Proof.
  revert base x. induction sops as [|o sops IH]; intros base x Hv Hx Hg Hm.
  { apply (Forall_lookup_1 _ _ _ _ Hv) in Hx. unfold is_u in Hx. simpl. lia. }
  destruct (grant_step _ _ _ _ _ Hv Hx Hg Hm) as (E & H1 & H2 & H3).
  specialize (IH _ _ (shift_vals _ _) (shift_total_at o base n x Hx) H3). cbn [semval set_semval] in IH. rewrite E in IH.
  specialize (IH H2). change (o :: sops) with ([o] ++ sops). rewrite request_total_app. lia.
Qed.

(** Requests that wake up nobody leave the waiters for [n] blocked. *)
Lemma quiet_value sops base n x : vals_ok base -> base !! n = Some x -> grant (semval <$> base) sops <> None ->
  semval x + most sops n <= 65535 -> quiet base sops ->
  (0 < semncnt x -> total sops n <= 0) /\ (0 < semzcnt x -> 0 < semval x -> 0 < semval x + total sops n).
Proof.
  revert base x. induction sops as [|o sops IH]; intros base x Hv Hx Hg Hm Hq; [simpl; split; lia|].
  destruct (grant_step _ _ _ _ _ Hv Hx Hg Hm) as (E & H1 & H2 & H3). destruct Hq as [Hw Hq].
  specialize (IH _ _ (shift_vals _ _) (shift_total_at o base n x Hx) H3). cbn [semval semncnt semzcnt set_semval] in IH. rewrite E in IH.
  specialize (IH H2 Hq). destruct IH as [I1 I2]. change (o :: sops) with ([o] ++ sops). rewrite request_total_app, total_one in *.
  destruct (decide (Z.to_nat (sem_num o) = n)) as [<-|]; [|split; [lia|]; intros; rewrite Z.add_0_r in I2; rewrite Z.add_0_l; by apply I2].
  specialize (Hw x Hx). unfold wakes in Hw. rewrite Z.add_assoc.
  destruct (Z.ltb_spec (sem_op o) 0).
  - split; [lia|]. intros Hz Hp. apply I2; [done|]. rewrite E in Hw. destruct (Z.eqb_spec (semval x + sem_op o) 0); [|lia].
    destruct (Z.ltb_spec 0 (semzcnt x)); [done|lia].
  - destruct (Z.eqb_spec (sem_op o) 0); [split; [lia|]; intros; apply I2; [done|lia]|].
    split; [|intros; apply I2; [done|lia]]. intros. destruct (Z.ltb_spec 0 (semncnt x)); [done|lia].
Qed.

(** * Waiters *)

(** Request [i] is blocked, whatever happens to the requests before it. *)
Definition held (vals : list Z) (sops : list sembuf) (i : nat) : Prop :=
  exists o v, sops !! i = Some o /\ vals !! Z.to_nat (sem_num o) = Some v /\
  (sem_op o < 0 /\ v + most (take i sops) (Z.to_nat (sem_num o)) <= 65535 /\ v + total (take i sops) (Z.to_nat (sem_num o)) + sem_op o < 0 \/
   sem_op o = 0 /\ 0 < v /\ total (take i sops) (Z.to_nat (sem_num o)) = 0).

Lemma grant_shift sops base : vals_ok base -> grant (semval <$> base) sops <> None -> grant (semval <$> base) sops = Some (semval <$> shift (total sops) base).
Proof.
  revert base. induction sops as [|o sops IH]; intros base Hv Hg; [by rewrite shift_zero|].
  destruct (grant_named _ _ _ Hg) as [x Hx]. destruct (grant_cons _ _ _ _ Hv Hx Hg) as [Hw Hg'].
  cbn [grant]. rewrite list_lookup_fmap, Hx. cbn. rewrite Hw, <- shift_one_vals by done.
  rewrite IH; [|apply shift_vals|done]. by rewrite shift_total_cons.
Qed.

Lemma grant_app vals l l' : grant vals (l ++ l') = grant vals l ≫= fun vals => grant vals l'.
Proof.
  revert vals. induction l as [|o l IH]; intros vals; [done|]. cbn [grant app]. destruct (vals !! _) as [v|]; [|done].
  destruct (must_wait v o); [done|]. apply IH.
Qed.

Lemma held_blocked base sops i : vals_ok base -> held (semval <$> base) sops i -> grant (semval <$> base) sops = None.
Proof.
  intros Hv (o & v & Ho & Hx & Hb). rewrite list_lookup_fmap in Hx. apply fmap_Some in Hx as (x & Hx & ->).
  destruct (grant (semval <$> base) sops) eqn:Hg; [|done]. exfalso. rewrite <- (take_drop_middle sops i o Ho), grant_app in Hg.
  destruct (grant (semval <$> base) (take i sops)) as [vals|] eqn:Ht; [|done]. simpl in Hg.
  assert (grant (semval <$> base) (take i sops) <> None) as Ht' by congruence. rewrite (grant_shift _ _ Hv Ht') in Ht. injection Ht as <-.
  assert (shift (total (take i sops)) base !! Z.to_nat (sem_num o) = Some (set_semval (u16 (semval x + total (take i sops) (Z.to_nat (sem_num o)))) x)) as Hy by by rewrite shift_lookup, Hx.
  cbn [grant] in Hg. rewrite list_lookup_fmap, Hy in Hg. cbn in Hg. unfold must_wait in Hg.
  destruct Hb as [(H1 & H2 & H3)|(H1 & H2 & H3)].
  - pose proof (grant_exact _ _ _ _ Hv Hx Ht' H2). rewrite u16_small in Hg by (unfold is_u; lia).
    rewrite (proj2 (Z.ltb_lt _ _) H1), (proj2 (Z.ltb_lt _ _) H3) in Hg. done.
  - rewrite H3, Z.add_0_r in Hg.
    apply (Forall_lookup_1 _ _ _ _ Hv) in Hx. rewrite u16_small, H1, (proj2 (Z.ltb_lt _ _) H2) in Hg by done. done.
Qed.

(** A process that has not been woken up waits for a set that there is, on the
    channel of that set, and is blocked. *)
Definition awaits (s : sem_state) (x : pc) : Prop :=
  match x with
  | Semwait semid a sops i _ c false =>
      c = (sema_at s, IPCID_TO_IX semid) /\ exists d, live s (IPCID_TO_IX semid) a d /\ held (semval <$> sem_base d) sops (Z.to_nat i)
  | _ => True
  end.

Definition attended (s : sem_state) : Prop := forall q pr, procs s !! q = Some pr -> awaits s (p_pc pr).
Definition watched (p : Z) (s : sem_state) : Prop := forall q pr, q <> p -> procs s !! q = Some pr -> awaits s (p_pc pr).

Lemma attended_watched p s : attended s -> watched p s.
Proof. intros H q pr _. apply H. Qed.

Lemma place_watch p pr s : watched p s -> awaits s (p_pc pr) -> attended (place p pr s).
Proof.
  intros H Hpr q qr Hq. simpl in Hq. apply lookup_insert_Some in Hq as [[<- <-]|[Hne Hq] ]; [done|]. apply (H q); congruence.
Qed.

Lemma leave_watch p r s : is_Some (procs s !! p) -> watched p s -> returns (leave p r s) attended.
Proof. intros [pr Hp] H. rewrite (leave_place _ _ _ _ Hp). by apply place_watch. Qed.

Lemma goto_watch p x s : is_Some (procs s !! p) -> watched p s -> awaits s x -> returns (goto p x s) attended.
Proof. intros [pr Hp] H Hx. rewrite (goto_place _ _ _ _ Hp). by apply place_watch. Qed.

(** The processes are where they were, and the values of the sets but [ix] too. *)
Definition keeps (ix : option Z) (s s' : sem_state) : Prop :=
  procs s' = procs s /\ sema_at s' = sema_at s /\
  forall jx b e, ix <> Some jx -> live s jx b e -> exists e', live s' jx b e' /\ semval <$> sem_base e' = semval <$> sem_base e.

Lemma keeps_watch p s s' : keeps None s s' -> watched p s -> watched p s'.
Proof.
  intros (E1 & E2 & Hl) H q pr Hq Hp. rewrite E1 in Hp. specialize (H q pr Hq Hp). destruct (p_pc pr); try done. destruct woken; [done|].
  simpl in *. rewrite E2. destruct H as (Hc & d & Hd & Hh). split; [done|]. destruct (Hl _ _ _ ltac:(done) Hd) as (e & He & Ee). exists e. by rewrite Ee.
Qed.

Lemma wake_watch p ix s s' : keeps (Some ix) s s' -> watched p s -> watched p (sem_wakeup ix s').
Proof.
  intros (E1 & E2 & Hl) H q pr Hq Hp. simpl in Hp. rewrite E1, lookup_fmap in Hp. apply fmap_Some in Hp as (qr & Hqr & ->).
  specialize (H q qr Hq Hqr). unfold roused. destruct (p_pc qr) eqn:Epc; rewrite ?Epc; try done. simpl. destruct woken; [done|]. simpl.
  case_bool_decide as Hc; [done|]. simpl in H. rewrite E2 in *. destruct H as (-> & d & Hd & Hh). split; [done|].
  destruct (Hl (IPCID_TO_IX semid) semaptr d) as (e & He & Ee); [congruence|done|]. exists e. split; [exact He|]. by rewrite Ee.
Qed.

Lemma keeps_refl s : keeps None s s.
Proof. split; [done|]. split; [done|]. intros jx b e _ H. by exists e. Qed.

Lemma keeps_trans ix s s' s'' : keeps ix s s' -> keeps ix s' s'' -> keeps ix s s''.
Proof.
  intros (E1 & E2 & H1) (F1 & F2 & H2). split; [congruence|]. split; [congruence|]. intros jx b e Hj He.
  destruct (H1 jx b e Hj He) as (e' & He' & Ee'). destruct (H2 jx b e' Hj He') as (e'' & He'' & Ee''). exists e''. split; [done|congruence].
Qed.

Lemma keeps_some ix s s' : keeps None s s' -> keeps (Some ix) s s'.
Proof. intros (E1 & E2 & H). split; [done|]. split; [done|]. intros jx b e _. by apply H. Qed.

Lemma keeps_put a d d' s : sets s !! a = Some d -> semval <$> sem_base d' = semval <$> sem_base d -> keeps None s (put_set a d' s).
Proof.
  intros Hd Hv. split; [done|]. split; [done|]. intros jx b e _ (L1 & L2 & L3). destruct (decide (a = b)) as [<-|Hne].
  - exists d'. assert (e = d) as -> by congruence. split; [|done]. split; [done|]. split; [done|]. apply lookup_insert_eq.
  - exists e. split; [|done]. split; [done|]. split; [done|]. simpl. by rewrite lookup_insert_ne.
Qed.

Lemma keeps_put_at ix a d d' s : tables s -> live s ix a d -> keeps (Some ix) s (put_set a d' s).
Proof.
  intros T (K1 & K2 & K3). split; [done|]. split; [done|]. intros jx b e Hj (L1 & L2 & L3). exists e. split; [|done].
  split; [done|]. split; [done|]. simpl. rewrite lookup_insert_ne; [done|]. intros <-. pose proof (tb_inj _ T _ _ _ K2 L2). apply Hj. f_equal. lia.
Qed.

Lemma keeps_undos ix s s' : s' = set_undos (semu_list s') (undos s') (semutot s') s -> keeps ix s s'.
Proof. intros ->. split; [done|]. split; [done|]. intros jx b e _ H. by exists e. Qed.

Lemma keeps_removed ix a d s : tables s -> live s ix a d -> keeps (Some ix) s (removed ix a d s).
Proof.
  intros T Hl. split; [done|]. split; [done|]. intros jx b e Hj He. exists e. split; [|done]. apply live_removed; congruence.
Qed.

Lemma keeps_loose a ss s : loose a s -> (forall b, b <> a -> ss !! b = sets s !! b) -> keeps None s (set_sets ss s).
Proof.
  intros Ha Hss. split; [done|]. split; [done|]. intros jx b e _ (L1 & L2 & L3). exists e. split; [|done]. split; [done|]. split; [done|].
  simpl. rewrite Hss; [done|]. intros ->. by edestruct Ha.
Qed.

Lemma keeps_created ix a n d s : 0 <= ix -> sema s !! Z.to_nat ix = Some None -> loose a s -> keeps None s (created ix a n d s).
Proof. intros Hix Hn Ha. split; [done|]. split; [done|]. intros jx b e _ He. exists e. split; [|done]. by apply live_created. Qed.

(** * The calls *)

Lemma clear_watch V Al p ix n r s s1 : keeps (Some ix) s s1 -> watched p s -> is_Some (procs s !! p) -> undos_st (undos_ok V Al) s1 ->
  returns (let! s := semundo_clear ix n s1 in leave p r (sem_wakeup ix s)) attended.
Proof.
  intros Hk Hw Hp H. destruct (semundo_clear_spec _ _ ix n s1 H) as (s2 & -> & Hs & _). cbn [bind].
  pose proof (keeps_trans _ _ _ _ Hk (keeps_undos (Some ix) _ _ Hs)) as Hk2. apply leave_watch; [|by eapply wake_watch].
  simpl. destruct Hk2 as (-> & _). rewrite lookup_fmap. by apply fmap_is_Some.
Qed.

Lemma semctl1_watch p pr semid semnum cmd s : ok s -> attended s -> procs s !! p = Some pr -> returns (semctl1 p semid semnum cmd s) attended.
Proof.
  intros Hok Hw Hp. apply (attended_watched p) in Hw. assert (is_Some (procs s !! p)) as Hsp by by eexists. pose proof (in_tables _ _ Hok) as T.
  assert (forall r, returns (leave p r s) attended) as Hleave by (intros r; by apply leave_watch).
  unfold semctl1, deref. rewrite Hp. cbn [bind]. destruct (find_set_spec _ _ semid Hok) as [->|(a & d & -> & Hl & Hd & Hs)]; cbn [bind]; [done|].
  pose proof Hl as (L1 & L2 & L3). pose proof Hd as (Hlen & _). pose proof (in_undos _ _ Hok) as Hu.
  assert (forall f, returns (get_field p semnum d f s) attended) as Hget.
  { intros f. unfold get_field. case_if; [done|]. boolify. destruct (aget_bounds (sem_base d) semnum) as (x & -> & _); [lia|]. apply Hleave. }
  destruct cmd as [|error perm|error| | | |error| |val|vals error|];
    try (destruct (ipcperm (p_ucred pr) (sem_perm d) _ =? 0); cbn [negb]; [|by apply Hleave]); try apply Hleave; try apply Hget.
  - cbn [sema set_semtot]. rewrite aset_bounds by (apply lookup_lt_Some in L2; lia). cbn [bind].
    apply (clear_watch (valid s) (alive s) _ _ _ _ s (removed (IPCID_TO_IX semid) a d s)); try done. by apply keeps_removed.
  - destruct (negb (error =? 0)); [done|]. apply leave_watch; [done|]. eapply keeps_watch; [|done]. by eapply keeps_put.
  - case_if; [done|]. boolify. destruct (aget_bounds (sem_base d) semnum) as (x & -> & Hx); [lia|]. cbn [bind].
    rewrite aset_bounds by lia. cbn [bind]. eapply clear_watch; [by eapply keeps_put_at|done|done|exact Hu].
  - destruct (store_all vals (sem_base d)) as [base all]. unfold answer. eapply clear_watch; [by eapply keeps_put_at|done|done|exact Hu].
Qed.

Lemma semget_error_watch p e new s : is_Some (procs s !! p) -> watched p s -> (forall a, new = Some a -> loose a s) ->
  returns (semget_error p e new s) attended.
Proof.
  intros Hp Hw Hl. destruct new as [a|]; apply leave_watch; try done. eapply keeps_watch; [|done]. eapply keeps_loose; [by apply Hl|].
  intros b Hb. by rewrite lookup_delete_ne.
Qed.

Lemma semget_find_watch p k nsems semflg new s : tables s -> is_Some (procs s !! p) -> watched p s ->
  (forall a, new = Some a -> loose a s /\ is_Some (sets s !! a) /\ 0 < nsems <= 32767) -> returns (semget_find p k nsems semflg new s) attended.
Proof.
  intros T [pr Hp] Hw Hnew. assert (is_Some (procs s !! p)) as Hsp by by eexists. unfold semget_find, deref. rewrite Hp. cbn [bind].
  assert (forall r, returns (leave p r s) attended) as Hleave by (intros r; by apply leave_watch).
  assert (forall e, returns (semget_error p e new s) attended) as He.
  { intros e. apply semget_error_watch; try done. intros a Ha. by apply Hnew. }
  assert (returns (match new with Some a => semget_create p k nsems semflg a s | None => leave p (Err ENOENT) s end) attended) as Hc.
  { destruct new as [a|]; [|done]. destruct (Hnew a eq_refl) as (Hl & [d Hd] & Hn). unfold semget_create, deref. rewrite Hp. cbn [bind].
    pose proof (find_free_spec (sema s) 0) as Hf. destruct (find_free (sema s) 0) as [ix|]; [|done].
    destruct Hf as (Hix & Hnone & _). rewrite Z.sub_0_r in Hnone. rewrite Hd. cbn [bind]. apply lookup_lt_Some in Hnone as Hlt.
    pose proof (tb_seqlen _ T) as Hsl. destruct (aget_bounds (semseqs s) ix) as (n & -> & Hsn); [lia|]. cbn [bind].
    rewrite !aset_bounds by lia. cbn [bind]. apply leave_watch; [done|]. eapply keeps_watch; [|done].
    assert (u16 nsems = nsems) as -> by (apply u16_small; unfold is_u; lia).
    by apply (keeps_created ix a (Z.land (n + 1) 32767) (Semid_ds _ (sem_base d) nsems 0 (time_second s)) s). }
  case_if; [done|]. destruct (find_key_spec (sets s) k (sema s) 0) as [[-> _]|(j & a & d & -> & Hj & Hd & Hk)]; cbn [bind]; [|done|].
  - intros a Ha. apply list_elem_of_lookup in Ha as [i Hi]. destruct (tb_sets _ T i a Hi) as (d & Hd & _). by eexists.
  - repeat case_if; auto.
Qed.

(** * Attempts *)

(** The vectors for which wakeups are right. *)
Definition tidy_ops (base : list sem) (sops : list sembuf) : Prop :=
  Forall (in_range (length base)) sops /\ fits base sops /\ zero_plain sops.

Lemma most_app l l' n : most (l ++ l') n = most l n + most l' n.
Proof. induction l as [|o l IH]; simpl; [done|]. rewrite IH. lia. Qed.

(** A vector that has to wait is held. *)
Lemma stuck_held base took r rest x : vals_ok base -> base !! Z.to_nat (sem_num r) = Some x -> grant (semval <$> base) took <> None ->
  tidy_ops base (took ++ r :: rest) -> must_wait (u16 (semval x + total took (Z.to_nat (sem_num r)))) r = true ->
  held (semval <$> base) (took ++ r :: rest) (length took).
Proof.
  intros Hv Hx Hg (_ & Hf & Hz) Hm. assert ((took ++ r :: rest) !! length took = Some r) as Hr by by rewrite lookup_app_r, Nat.sub_diag by lia.
  specialize (Hf _ _ Hx). rewrite most_app in Hf. pose proof (most_nonneg (r :: rest) (Z.to_nat (sem_num r))).
  pose proof (grant_exact took base _ _ Hv Hx Hg ltac:(lia)). rewrite u16_small in Hm by (unfold is_u; lia).
  specialize (Hz _ _ Hr). exists r, (semval x). rewrite list_lookup_fmap, Hx, take_app_length in *. conj; try done. unfold must_wait in Hm.
  destruct (Z.ltb_spec (sem_op r) 0), (Z.eqb_spec (sem_op r) 0); lia.
Qed.

(** A waiter is held after requests that wake up nobody. *)
Lemma quiet_held P s ix a d q qr semid b sops' i du c w sops : inv P s -> live s ix a d -> set_ok d ->
  P !! q = Some qr -> p_pc qr = Semwait semid b sops' i du c w -> IPCID_TO_IX semid = ix ->
  grant (semval <$> sem_base d) sops <> None -> fits (sem_base d) sops -> quiet (sem_base d) sops ->
  held (semval <$> sem_base d) sops' (Z.to_nat i) -> held (semval <$> shift (total sops) (sem_base d)) sops' (Z.to_nat i).
Proof.
  intros H (L1 & L2 & L3) (_ & _ & Hv) Hq Hpc <- Hg Hf Hqt (o & v & Ho & Hx & Hb).
  rewrite list_lookup_fmap in Hx. apply fmap_Some in Hx as (x & Hx & ->). specialize (Hf _ _ Hx).
  pose proof (grant_exact _ _ _ _ Hv Hx Hg Hf) as He. destruct (quiet_value _ _ _ _ Hv Hx Hg Hf Hqt) as [H1 H2].
  destruct (in_counts _ _ H _ _ _ _ _ L2 L3 Hx) as [E1 E2].
  assert (forall z, (sem_op o =? 0) = z -> 0 < msum (waits (Z.to_nat (IPCID_TO_IX semid)) (Z.to_nat (sem_num o)) z) P) as Hc.
  { intros z Hz. pose proof (msum_elem (waits (Z.to_nat (IPCID_TO_IX semid)) (Z.to_nat (sem_num o)) z) P q qr ltac:(intros; apply waits_range) Hq) as Hm.
    rewrite (waits_at _ _ _ _ _ _ _ _ _ _ _ _ Hpc Ho), bool_decide_eq_true_2 in Hm by done. lia. }
  exists o, (semval x + total sops (Z.to_nat (sem_num o))). split; [done|]. split.
  { rewrite list_lookup_fmap, shift_lookup, Hx. cbn. f_equal. apply u16_small. unfold is_u. lia. }
  destruct Hb as [(B1 & B2 & B3)|(B1 & B2 & B3)].
  - left. specialize (Hc false). rewrite (proj2 (Z.eqb_neq (sem_op o) 0)) in Hc by lia. specialize (Hc eq_refl). conj; lia.
  - right. specialize (Hc true). rewrite B1 in Hc. specialize (Hc eq_refl). conj; try done. apply H2; [lia|done].
Qed.

Lemma stamp_vals p sops base : semval <$> stamp p sops base = semval <$> base.
Proof.
  apply list_eq. intros n. rewrite !list_lookup_fmap. unfold stamp. rewrite list_lookup_imap. destruct (base !! n); [|done]. cbn.
  by destruct (touched sops n).
Qed.

Lemma quiet_watch p ix a d sops m s s2 : sem_inside p s -> live s ix a d -> set_ok d -> watched p s ->
  grant (semval <$> sem_base d) sops <> None -> fits (sem_base d) sops -> quiet (sem_base d) sops ->
  recorded (valid s) (alive s) p m (put_set a (set_base (shift (total sops) (sem_base d)) d) s) s2 ->
  watched p (put_set a (granted_set p d sops s) s2).
Proof.
  intros [Hin Hsp] Hl Hd Hw Hg Hf Hqt (E & _) q qr Hq Hqr. rewrite E in Hqr. simpl in Hqr. specialize (Hw q qr Hq Hqr).
  destruct (p_pc qr) eqn:Hpc; try done. destruct woken; [done|]. destruct Hw as (Hc & e & He & Hh). rewrite E. simpl. split; [done|].
  destruct (decide (IPCID_TO_IX semid = ix)) as [Eix|Hne].
  - pose proof Hl as (L1 & L2 & L3). pose proof He as (K1 & K2 & K3). rewrite Eix in K2. assert (semaptr = a) as -> by congruence.
    assert (e = d) as -> by congruence. exists (granted_set p d sops s). split.
    + split; [done|]. split; [simpl; by rewrite Eix|]. apply lookup_insert_eq.
    + simpl. rewrite stamp_vals. eapply (quiet_held (delete p (procs s)) s ix a d q qr); try done. by rewrite lookup_delete_ne.
  - destruct (keeps_put_at ix a d (granted_set p d sops s) s (in_tables _ _ Hin) Hl) as (_ & _ & Hk).
    destruct (Hk (IPCID_TO_IX semid) semaptr e) as (e' & (K1 & K2 & K3) & Ee); [congruence|done|]. exists e'. rewrite Ee. split; [|done].
    split; [done|]. split; [done|]. simpl in *. rewrite insert_insert_eq. done.
Qed.
