(* ===== verification/SemLive.v ===== *)
(** * No step forgets a waiter *)

From stdpp Require Import gmap sets.
From S2P Require Import Prelude MapSum Sem SemUndo SemOp SemInv SemSteps SemTry SemSafe SemWake.

(** * [semop] *)

Lemma semop_try_watch {A : arch} p semid a d sops u du s : sem_inside p s -> watched p s -> live s (IPCID_TO_IX semid) a d -> set_ok d ->
  Forall typed_op sops -> undos s !! u = None -> tidy_ops (sem_base d) sops ->
  (grant (semval <$> sem_base d) sops <> None -> the_plan p (IPCID_TO_IX semid) sops s <> Hazard) ->
  returns (semop_try p semid a sops du u s) attended.
Proof.
  intros H Hw Hl Hd Ht Hu Htidy Hplan. pose proof (semop_try_spec p semid a d sops u s H Hl Hd Ht Hu du) as Ha. unfold attempt in Ha.
  pose proof Hl as (L1 & L2 & L3). pose proof H as [Hin Hsp]. destruct (grant (semval <$> sem_base d) sops) as [vals|] eqn:Hg.
  - destruct Ha as (Hr & _ & Ha). specialize (Hplan ltac:(done)). destruct (the_plan p (IPCID_TO_IX semid) sops s) as [m|e|]; [| |done].
    2: { rewrite Ha. by apply leave_watch. }
    destruct Ha as (w & s2 & Hq & Hrec & ->). pose proof (granted_inside _ _ _ _ _ _ _ _ H Hl Hd Hrec) as Hgr. apply leave_watch.
    { destruct w; [by apply inside_wakeup|apply Hgr]. }
    destruct w; [|eapply quiet_watch; try done; [by rewrite Hg|apply Htidy|by apply Hq] ]. eapply wake_watch; [|exact Hw].
    destruct Hrec as (E & _). eapply keeps_trans; [by eapply keeps_put_at, Hl; apply Hin|]. eapply keeps_trans; [by apply keeps_undos|].
    eapply keeps_some, keeps_put; [rewrite E; apply lookup_insert_eq|]. simpl. apply stamp_vals.
  - destruct Ha as (took & r & rest & Es & Hr & Htook & [[Hbig _]|(x & Hx & Hrr & Hm & ->)]).
    + destruct Htidy as (Hf & _). rewrite Es in Hf. apply Forall_app in Hf as [_ Hf]. apply Forall_cons in Hf as [ [_ Hf] _].
      destruct Hd as (Hlen & _). lia.
    + destruct (flag (sem_flg r) IPC_NOWAIT); [by apply leave_watch|].
      assert (keeps None s (put_set a (set_base (<[Z.to_nat (sem_num r) := recount r 1 x]> (sem_base d)) d) s)) as Hk.
      { eapply keeps_put; [done|]. by apply recount_vals. }
      apply goto_watch; [done|by eapply keeps_watch|]. simpl. split; [done|]. destruct Hk as (_ & _ & Hk).
      destruct (Hk _ _ _ ltac:(done) Hl) as (e & He & Ee). exists e. split; [done|]. rewrite Ee, Nat2Z.id, Es in *.
      apply (stuck_held _ _ _ _ x); try done. apply Hd.
Qed.

Lemma semop_awake_watch {A : arch} p pr semid a sops i du c w error u s : ok s -> attended s -> procs s !! p = Some pr ->
  p_pc pr = Semwait semid a sops i du c w -> undos s !! u = None ->
  (forall d, error = 0 -> sets s !! a = Some d -> tidy_ops (sem_base d) sops /\
    (grant (semval <$> sem_base d) sops <> None -> the_plan p (IPCID_TO_IX semid) sops s <> Hazard)) ->
  returns (semop_awake p semid a sops i du error u s) attended.
Proof.
  intros H Hatt Hp Hpc Hu Hplan. apply (attended_watched p) in Hatt. destruct (semop_awake_cases p pr semid a sops i du c w error u s H Hp Hpc)
    as (Ht & [(_ & -> & Hin)|(d & d' & (L1 & L2 & L3) & Hd' & Hs & Hv & Hin & ->)]); [by apply leave_watch; [eexists|]|].
  assert (watched p (put_set a d' s)) as Hw by (eapply keeps_watch; [by eapply keeps_put|done]).
  destruct (Z.eqb_spec error 0) as [E|]; [|apply leave_watch; [by eexists|done] ]. destruct (Hplan d E L3) as [(T1 & T2 & T3) Hpl].
  eapply (semop_try_watch _ _ _ d'); try done.
  - split; [done|]. split; [done|]. apply lookup_insert_eq.
  - assert (length (sem_base d') = length (sem_base d)) as El by (rewrite <- !(length_fmap semval); congruence). split; [by rewrite El|].
    split; [|done]. intros n x Hx. apply (f_equal (.!! n)) in Hv. rewrite !list_lookup_fmap, Hx in Hv. simpl in Hv.
    destruct (sem_base d !! n) as [y|] eqn:Ey; [|done]. injection Hv as ->. by apply T2.
  - by rewrite Hv.
Qed.

(** * Exit *)

Lemma apply_undos_watch p l s : sem_inside p s -> watched p s -> Forall (entry_ok (valid s)) l -> returns (apply_undos l s) (watched p).
Proof.
  revert s. induction l as [|e l IH]; intros s H Hw Hf; cbn [apply_undos]; [done|].
  apply Forall_cons in Hf as [(E1 & E2 & E3 & a & d & Hl & Hlt) Hf]. pose proof Hl as (L1 & L2 & L3).
  rewrite (aget_Some _ _ (Some a)) by done. cbn [bind]. unfold deref. rewrite L3. cbn [bind]. rewrite (proj2 (Z.leb_gt _ _)) by done.
  destruct (tb_sets _ (in_tables _ _ (proj1 H)) _ _ L2) as (d0 & Hd0 & Hd & _). assert (d0 = d) as -> by congruence.
  pose proof Hd as (Hlen & Hns & Hv). destruct (aget_bounds (sem_base d) (un_num e)) as (x & -> & Hx); [lia|]. cbn [bind].
  rewrite aset_bounds by lia. cbn [bind]. fold (exit_value (un_adjval e) (semval x)). apply IH.
  - apply inside_wakeup. eapply inside_like; [done|done|]. eapply insert_like; try done. unfold exit_value. simpl.
    destruct (_ && _); [unfold is_u; lia|apply u16_range].
  - eapply wake_watch; [|exact Hw]. eapply keeps_put_at; [apply H|done].
  - eapply Forall_impl; [exact Hf|]. intros e' (F1 & F2 & F3). split; [done|]. split; [done|].
    match goal with |- valid (sem_wakeup _ ?s1) _ _ => change (valid s1 (un_id e') (un_num e')) end. by eapply valid_put.
Qed.

Lemma gone_watch p s : watched p s -> attended (set_procs (delete p (procs s)) s).
Proof. intros H q qr Hq. simpl in Hq. apply lookup_delete_Some in Hq as [Hne Hq]. by apply (H q). Qed.

Lemma semexit_watch p pr s : ok s -> attended s -> procs s !! p = Some pr -> resting (p_pc pr) = true ->
  returns (let! s := semexit p s in Ret (set_procs (delete p (procs s)) s)) attended.
Proof.
  intros H Hw Hp Hr. apply (attended_watched p) in Hw. assert (sem_inside p s) as Hin by (by eapply inside_rest).
  pose proof (in_undos _ _ H) as [Hu _]. unfold semexit.
  destruct (find_undo_spec (undos s) p (semu_list s)) as [[-> Hno]|(u & x & -> & Hul & Hx & Hpx)]; [intros u; apply Hu| |]; cbn [bind].
  { by apply gone_watch. }
  unfold deref. rewrite Hx. cbn [bind]. destruct (un_ok _ _ _ _ _ Hu u x Hx) as [_ (Hn & _ & Hf)].
  pose proof (apply_undos_watch p (un_ent x) s Hin Hw Hf) as Hw1.
  destruct (apply_undos_spec p (un_ent x) s Hin Hf Hn) as (s1 & E & Hin1 & (S1 & S2 & S3 & S4 & S5 & S6) & _). rewrite E in Hw1 |- *.
  cbn [bind]. rewrite S3. destruct (slist_remove_spec u (semu_list s) Hul (un_nodup _ _ _ _ _ Hu)) as (l' & -> & _). cbn [bind returns].
  apply gone_watch. eapply keeps_watch; [|exact Hw1]. by apply keeps_undos.
Qed.

(** * The rest *)

(** A waiter that nobody has woken up yet. *)
Definition asleep (x : pc) : bool := match x with Semwait _ _ _ _ _ _ false => true | _ => false end.

Lemma nobody_watch p s : nobody asleep (procs s) -> forall s', procs s' = procs s -> watched p s'.
Proof.
  intros H s' E q qr _ Hq. rewrite E in Hq. specialize (H q qr Hq). cbv beta in H. destruct (p_pc qr); try done. by destruct woken.
Qed.

Lemma sysctl_watch p knob val at_ s : watched p s -> (knob = SEMMNI -> nobody asleep (procs s)) -> watched p (sysctl_sysvsem knob val at_ s).2.
Proof.
  intros H Hk. unfold sysctl_sysvsem. destruct knob; (case_if; [done|]); (case_if; [done|]); simpl.
  1: { eapply nobody_watch; [by apply Hk|done]. }
  all: eapply keeps_watch; [|exact H]; (split; [done|]); (split; [done|]); intros jx b e _ Hl; by exists e.
Qed.

Lemma fork_watch p q pr s : watched p s -> procs s !! q = None -> is_Some (procs s !! p) ->
  returns (leave p (Val q) (set_procs (<[q := Proc (p_ucred pr) User (Val 0)]> (procs s)) s)) attended.
Proof.
  intros H Hq [pr' Hp]. apply leave_watch.
  - simpl. rewrite lookup_insert_ne by congruence. by eexists.
  - intros r rr Hr Hrr. simpl in Hrr. apply lookup_insert_Some in Hrr as [[_ <-]|[_ Hrr] ]; [done|]. by apply (H r).
Qed.

(** * Steps *)

Definition fitsb (base : list sem) (sops : list sembuf) : bool := forallb id (imap (fun n x => semval x + most sops n <=? 65535) base).
Definition zero_plainb (sops : list sembuf) : bool :=
  forallb id (imap (fun i o => negb (sem_op o =? 0) || (total (take i sops) (Z.to_nat (sem_num o)) =? 0)) sops).

Definition tidy_opsb (base : list sem) (sops : list sembuf) : bool :=
  bool_decide (Forall (in_range (length base)) sops) && fitsb base sops && zero_plainb sops.

Lemma forallb_imap {B} (f : nat -> B -> bool) l : forallb id (imap f l) = true -> forall n x, l !! n = Some x -> f n x = true.
Proof.
  intros H n x Hx. rewrite forallb_forall in H. apply (H (f n x)), list_elem_of_In, list_elem_of_lookup. exists n.
  by rewrite list_lookup_imap, Hx.
Qed.

Lemma tidy_opsb_true base sops : tidy_opsb base sops = true -> tidy_ops base sops.
Proof.
  unfold tidy_opsb. intros H. boolify. apply bool_decide_eq_true in H. split; [done|]. split.
  - intros n x Hx. apply (forallb_imap _ _ H1) in Hx. by apply Z.leb_le in Hx.
  - intros i o Ho Hz. apply (forallb_imap _ _ H0) in Ho. rewrite Hz in Ho. simpl in Ho. by apply Z.eqb_eq in Ho.
Qed.

Definition tidy_at (a : Z) (sops : list sembuf) (s : sem_state) : bool :=
  match sets s !! a with Some d => tidy_opsb (sem_base d) sops | None => true end.

(** The steps for which wakeups are right: the table is not moved under a
    sleeping process, and the vectors name semaphores that there are, overflow
    none and ask for zero only before they change the value. *)
Definition tidy (l : label) (s : sem_state) : bool :=
  match l with
  | Enter p (Sysctl SEMMNI _ _) => bool_decide (nobody asleep (procs s))
  | Copied p (inl sops) u => match p_pc <$> procs s !! p with Some (Copyin semid a _) => tidy_at a sops s | _ => true end
  | Awake p error u =>
      match p_pc <$> procs s !! p with Some (Semwait semid a sops _ _ _ _) => negb (error =? 0) || tidy_at a sops s | _ => true end
  | _ => true
  end.

Lemma semget_watch p pr k nsems semflg s : ok s -> watched p s -> procs s !! p = Some pr -> returns (sys_semget p k nsems semflg s) attended.
Proof.
  intros H Hw Hp. assert (is_Some (procs s !! p)) as Hsp by by eexists. unfold sys_semget.
  case_if; [|apply semget_find_watch; [apply H|done|done|done] ]. repeat (case_if; [by apply leave_watch|]). by apply goto_watch.
Qed.

Lemma semget_alloc_watch p pr k nsems semflg a s : ok s -> watched p s -> procs s !! p = Some pr -> p_pc pr = GetAlloc k nsems semflg ->
  sets s !! a = None -> returns (semget_alloc p k nsems semflg a s) attended.
Proof.
  intros H Hw Hp Hpc Ha. assert (loose a s) as Hl. { intros i Hi. destruct (tb_sets _ (in_tables _ _ H) i a Hi) as (d & Hd & _). congruence. }
  pose proof (in_pcs _ _ H p pr Hp) as Hn. rewrite Hpc in Hn. simpl in Hn. pose proof (tb_msl _ (in_tables _ _ H)).
  assert (forall b d, b <> a -> <[a := d]> (sets s) !! b = sets s !! b) as Hne by (intros b d Hb; by rewrite lookup_insert_ne).
  assert (sem_inside p s) as Hin by (eapply inside_rest; [done|done|by rewrite Hpc]).
  unfold semget_alloc. apply semget_find_watch.
  - eapply in_tables, (inside_loose p s a); [done|done|]. intros b Hb. by apply Hne.
  - by eexists.
  - eapply keeps_watch; [|done]. eapply keeps_loose; [done|]. intros b Hb. by apply Hne.
  - intros b [= <-]. conj; [done|simpl; rewrite lookup_insert_eq; by eexists|lia|lia].
Qed.

Lemma sys_semop_watch {A : arch} p pr semid nsops s : ok s -> watched p s -> procs s !! p = Some pr -> returns (sys_semop p semid nsops s) attended.
Proof.
  intros H Hw Hp. assert (is_Some (procs s !! p)) as Hsp by by eexists. unfold sys_semop, deref. rewrite Hp. cbn [bind].
  destruct (find_set_spec _ _ semid H) as [->|(a & d & -> & Hl & Hd & Hs)]; cbn [bind]; [by apply leave_watch|].
  repeat (case_if; [by apply leave_watch|]). by apply goto_watch.
Qed.

Section Steps.
Context {A : arch}.

Lemma enter_watch p pr c s : ok s -> attended s -> procs s !! p = Some pr -> p_pc pr = User -> call_ok c s = true ->
  tidy (Enter p c) s = true -> returns (enter p pr c s) attended.
Proof.
  intros H Ha Hp Hpc Hc Ht. pose proof (attended_watched p s Ha) as Hw. assert (is_Some (procs s !! p)) as Hsp by by eexists.
  destruct c; cbn [enter].
  - by eapply semget_watch.
  - unfold sys___semctl. case_if; [by eapply semctl1_watch|by apply leave_watch].
  - by eapply sys_semop_watch.
  - pose proof (sysctl_watch p knob val at_ s Hw) as Hs. assert (procs (sysctl_sysvsem knob val at_ s).2 = procs s) as E.
    { unfold sysctl_sysvsem. by destruct knob; repeat case_if. }
    destruct (sysctl_sysvsem knob val at_ s) as [e s']. unfold answer. simpl in E. apply leave_watch; [by rewrite E|]. apply Hs.
    intros ->. by apply bool_decide_eq_true in Ht.
  - simpl in Hc. boolify. apply bool_decide_eq_true in H0. by apply fork_watch.
  - eapply semexit_watch; try done. by rewrite Hpc.
Qed.

Lemma step_watch l s o : ok s -> attended s -> calm l s = true -> tidy l s = true -> step l s = Some o -> returns o attended.
Proof.
  intros H Ha Hcalm Ht. destruct l as [p c|p a|p r u|p error u|t]; cbn [step].
  - destruct (procs s !! p) as [pr|] eqn:Hp; [|done]. destruct (p_pc pr) eqn:Hpc; try done. destruct (call_ok c s) eqn:Hc; [|done].
    intros [= <-]. by eapply enter_watch.
  - destruct (procs s !! p) as [pr|] eqn:Hp; [|done]. simpl. destruct (p_pc pr) eqn:Hpc; try done. case_bool_decide; [|done]. intros [= <-].
    eapply semget_alloc_watch; try done. by apply attended_watched.
  - destruct (procs s !! p) as [pr|] eqn:Hp; [|done]. simpl. destruct (p_pc pr) eqn:Hpc; try done.
    case_if; [|done]. intros [= <-]. boolify. apply bool_decide_eq_true in H1. pose proof (attended_watched p s Ha) as Hw.
    assert (sem_inside p s) as Hin by (eapply inside_rest; [done|done|by rewrite Hpc]).
    destruct r as [sops|e]; simpl; [|apply leave_watch; [by eexists|done] ]. boolify.
    pose proof (in_pcs _ _ H p pr Hp) as Hok. rewrite Hpc in Hok. destruct Hok as (d & Hl & Hs). pose proof Hl as (L1 & L2 & L3).
    destruct (tb_sets _ (in_tables _ _ H) _ _ L2) as (d0 & Hd0 & Hd & _). assert (d0 = d) as -> by congruence.
    simpl in Hcalm, Ht. rewrite Hp in Hcalm, Ht. simpl in Hcalm, Ht. rewrite Hpc in Hcalm, Ht. unfold tidy_at in Ht. rewrite L3 in Ht.
    eapply semop_try_watch; try done; [by apply sembufs_typed|by apply tidy_opsb_true|]. by eapply no_hazard_plan.
  - destruct (procs s !! p) as [pr|] eqn:Hp; [|done]. simpl. destruct (p_pc pr) eqn:Hpc; try done.
    case_if; [|done]. intros [= <-]. boolify. apply bool_decide_eq_true in H1. eapply semop_awake_watch; try done.
    intros d -> Hd. simpl in Hcalm, Ht. rewrite Hp in Hcalm, Ht. simpl in Hcalm, Ht. rewrite Hpc in Hcalm, Ht. unfold tidy_at in Ht.
    rewrite Hd in Ht. split; [by apply tidy_opsb_true|by eapply no_hazard_plan].
  - intros [= <-]. simpl. intros q pr Hq. specialize (Ha q pr Hq). by destruct (p_pc pr).
Qed.

Inductive reachable_tidy : sem_state -> Prop :=
| tidy_boot i p cred : info_ok i -> 0 <= p <= 32766 -> reachable_tidy (sem_booted i p cred)
| tidy_step s l s' : reachable_tidy s -> calm l s = true -> tidy l s = true -> step l s = Some (Ret s') -> reachable_tidy s'.

Lemma tidy_attended s : reachable_tidy s -> ok s /\ attended s.
Proof.
  induction 1 as [i p cred Hi Hp|s l s' _ [IH1 IH2] Hc Ht Hs].
  - split; [by apply booted_ok|]. intros q pr Hq. simpl in Hq. by apply lookup_singleton_Some in Hq as [_ <-].
  - split; [exact (sem_step_ok l s _ IH1 Hc Hs)|exact (step_watch l s _ IH1 IH2 Hc Ht Hs)].
Qed.
End Steps.
