(* ===== verification/SemSpec.v ===== *)
(** * The theorems on semaphores *)

From stdpp Require Import gmap sets.
From S2P Require Import Prelude MapSum Sem SemUndo SemOp SemInv SemSteps SemTry SemSafe SemWake SemLive.

(** * Attempts *)

(** The steps in which a process tries its requests: after it has copied them,
    and when it wakes up and its set is still there. *)
Definition attempt_of (l : label) (s : sem_state) : option (Z * Z * list sembuf) :=
  match l with
  | Copied p (inl sops) _ => match p_pc <$> procs s !! p with Some (Copyin semid _ _) => Some (p, semid, sops) | _ => None end
  | Awake p error _ =>
      match p_pc <$> procs s !! p with
      | Some (Semwait semid _ sops _ _ _ _) =>
          if (error =? 0) && bool_decide (values s (IPCID_TO_IX semid) <> None) then Some (p, semid, sops) else None
      | _ => None
      end
  | _ => None
  end.

Lemma values_put P s ix a d d' jx : inv P s -> live s ix a d -> 0 <= jx ->
  values (put_set a d' s) jx = if decide (jx = ix) then Some (semval <$> sem_base d') else values s jx.
Proof.
  intros H (L1 & L2 & L3) Hj. unfold values. simpl. destruct (decide (jx = ix)) as [->|Hne]; [by rewrite L2, lookup_insert_eq|].
  destruct (sema s !! Z.to_nat jx) as [[b|]|] eqn:Eb; try done. rewrite lookup_insert_ne; [done|]. intros <-.
  pose proof (tb_inj _ (in_tables _ _ H) _ _ _ L2 Eb). lia.
Qed.

Section Spec.
Context {A : arch}.

Lemma attempt_run l s o p semid sops : ok s -> attempt_of l s = Some (p, semid, sops) -> step l s = Some o ->
  exists a d d' u du, live s (IPCID_TO_IX semid) a d /\ set_ok d' /\ semval <$> sem_base d' = semval <$> sem_base d /\
    sem_inside p (put_set a d' s) /\ Forall typed_op sops /\ undos s !! u = None /\ o = semop_try p semid a sops du u (put_set a d' s).
Proof.
  intros H. destruct l as [ | |q r u|q error u| ]; try done; cbn [attempt_of step].
  - destruct r as [l|]; [|done]. destruct (procs s !! q) as [pr|] eqn:Hp; [|done]. simpl. destruct (p_pc pr) eqn:Hpc; try done. intros [= -> -> ->].
    case_if; [|done]. intros [= <-]. boolify. apply bool_decide_eq_true in H1. pose proof (in_pcs _ _ H p pr Hp) as Hok. rewrite Hpc in Hok.
    destruct Hok as (d & Hl & Hs). pose proof Hl as (L1 & L2 & L3). destruct (tb_sets _ (in_tables _ _ H) _ _ L2) as (d0 & Hd0 & Hd & _).
    assert (d0 = d) as -> by congruence. exists semaptr, d, d, u, false. rewrite put_same by done. conj; try done.
    + eapply inside_rest; [done|done|by rewrite Hpc].
    + by apply sembufs_typed.
  - destruct (procs s !! q) as [pr|] eqn:Hp; [|done]. simpl. destruct (p_pc pr) eqn:Hpc; try done.
    destruct ((error =? 0) && _) eqn:Ee; [|done]. intros [= -> -> ->]. boolify. apply bool_decide_eq_true in H1.
    case_if; [|done]. intros [= <-]. boolify. apply bool_decide_eq_true in H3. subst error.
    destruct (semop_awake_cases p pr semid semaptr sops i do_undos chan woken 0 u s H Hp Hpc)
      as (Ht & [(Hn & _)|(d & d' & Hl & Hd' & Hs & Hv & Hin & ->)]); [unfold values in H1; by rewrite Hn in H1|].
    by exists semaptr, d, d', u, do_undos.
Qed.

(** What a step leaves of the values, the adjustments and the process. *)
Definition outcome_of (p : Z) (s : sem_state) : option (pc * result) := (fun pr => (p_pc pr, p_ret pr)) <$> procs s !! p.

Lemma leave_outcome p r s s' : leave p r s = Ret s' -> outcome_of p s' = Some (User, r) /\ values s' = values s /\ forall q, undo_map q s' = undo_map q s.
Proof.
  unfold leave, deref. destruct (procs s !! p) as [pr|]; [|done]. intros [= <-]. unfold outcome_of. simpl. by rewrite lookup_insert_eq.
Qed.

(** The result of an attempt. *)
Definition attempted (p ix : Z) (sops : list sembuf) (s s' : sem_state) : Prop :=
  exists vals, values s ix = Some vals /\
  match grant vals sops, the_plan p ix sops s with
  | Some vals', Recorded m => values s' ix = Some vals' /\ undo_map p s' = m /\ outcome_of p s' = Some (User, Val 0)
  | Some _, Refused e => values s' ix = Some vals /\ undo_map p s' = undo_map p s /\ outcome_of p s' = Some (User, Err e)
  | Some _, Hazard => False
  | None, _ =>
      values s' ix = Some vals /\ undo_map p s' = undo_map p s /\
      exists x r, outcome_of p s' = Some (x, r) /\ (x = User /\ r = Err EAGAIN \/ exists semid a i du c, x = Semwait semid a sops i du c false)
  end /\
  (forall jx, 0 <= jx -> jx <> ix -> values s' jx = values s jx) /\ (forall q, q <> p -> undo_map q s' = undo_map q s).

Lemma values_ext s s' jx : sema s' = sema s -> sets s' = sets s -> values s' jx = values s jx.
Proof. intros E1 E2. unfold values. by rewrite E1, E2. Qed.

(** The values when the set of the attempt changes to [e]. *)
Lemma attempt_values s s' ix a d e : ok s -> live s ix a d -> sema s' = sema s -> sets s' = <[a := e]> (sets s) ->
  values s' ix = Some (semval <$> sem_base e) /\ forall jx, 0 <= jx -> jx <> ix -> values s' jx = values s jx.
Proof.
  intros H Hl E1 E2. assert (forall jx, values s' jx = values (put_set a e s) jx) as E by (intros; by apply values_ext).
  split; [|intros jx Hj Hne]; rewrite E, (values_put _ _ _ _ _ _ _ H Hl) by (done || apply Hl); [by rewrite decide_True|by rewrite decide_False].
Qed.

(** The three ways in which an attempt ends. *)
Section Ends.
Context (s s' : sem_state) (p ix a : Z) (d d' : semid_ds) (sops : list sembuf).
Context (H : ok s) (Hl : live s ix a d) (Hv : semval <$> sem_base d' = semval <$> sem_base d).

Definition unchanged : Prop :=
  values s' ix = Some (semval <$> sem_base d) /\ (forall jx, 0 <= jx -> jx <> ix -> values s' jx = values s jx) /\ forall q, undo_map q s' = undo_map q s.

Lemma end_leave r : leave p r (put_set a d' s) = Ret s' -> outcome_of p s' = Some (User, r) /\ unchanged.
Proof.
  intros (E1 & E2 & E3)%leave_outcome. destruct (attempt_values s (put_set a d' s) _ a d d' H Hl eq_refl eq_refl) as [F1 F2].
  split; [done|]. unfold unchanged. rewrite E2. conj; try done. by rewrite F1, Hv.
Qed.

Lemma end_goto x e : semval <$> sem_base e = semval <$> sem_base d -> goto p x (put_set a e (put_set a d' s)) = Ret s' ->
  (exists r, outcome_of p s' = Some (x, r)) /\ unchanged.
Proof.
  intros He. unfold goto, deref. destruct (procs _ !! p) as [pr|]; [|done]. intros [= E]. unfold unchanged. rewrite <- E.
  destruct (attempt_values s (put_set a e (put_set a d' s)) _ a d e H Hl eq_refl) as [F1 F2]; [simpl; by rewrite insert_insert_eq|].
  split; [unfold outcome_of; simpl; rewrite lookup_insert_eq; by eexists|].
  split; [rewrite <- He; exact F1|]. split; [exact F2|done].
Qed.

Lemma end_granted (w : bool) s2 m : recorded (valid (put_set a d' s)) (alive s) p m (put_set a (set_base (shift (total sops) (sem_base d')) d') (put_set a d' s)) s2 ->
  leave p (Val 0) (if w then sem_wakeup ix (put_set a (granted_set p d' sops (put_set a d' s)) s2) else put_set a (granted_set p d' sops (put_set a d' s)) s2) = Ret s' ->
  outcome_of p s' = Some (User, Val 0) /\ values s' ix = Some (semval <$> shift (total sops) (sem_base d')) /\ undo_map p s' = m /\
  (forall jx, 0 <= jx -> jx <> ix -> values s' jx = values s jx) /\ forall q, q <> p -> undo_map q s' = undo_map q s.
Proof.
  intros (E2 & _ & Em & Eq) (O1 & O2 & O3)%leave_outcome. set (s3 := put_set a _ s2) in *.
  assert (values (if w then sem_wakeup ix s3 else s3) = values s3) as Ew by by destruct w.
  assert (forall q, undo_map q (if w then sem_wakeup ix s3 else s3) = undo_map q s2) as Eu by (intros q; by destruct w).
  destruct (attempt_values s s3 _ a d (granted_set p d' sops (put_set a d' s)) H Hl) as [F1 F2].
  { unfold s3. rewrite E2. done. }
  { unfold s3. rewrite E2. simpl. by rewrite !insert_insert_eq. }
  rewrite O2, Ew. conj; try done.
  - rewrite F1. simpl. by rewrite stamp_vals.
  - by rewrite O3, Eu.
  - intros q Hq. by rewrite O3, Eu, Eq.
Qed.
End Ends.

Lemma attempted_spec l s s' p semid sops : ok s -> attempt_of l s = Some (p, semid, sops) -> step l s = Some (Ret s') ->
  (forall vals, values s (IPCID_TO_IX semid) = Some vals -> Forall (in_range (length vals)) sops) ->
  attempted p (IPCID_TO_IX semid) sops s s'.
Proof.
  intros H Hatt Hstep Hr. destruct (attempt_run l s _ p semid sops H Hatt Hstep) as (a & d & d' & u & du & Hl & Hd' & Hv & Hin & Ht & Hu & E).
  pose proof (values_live _ _ _ _ Hl) as Hvals. pose proof Hl as (L1 & L2 & L3). exists (semval <$> sem_base d). split; [done|].
  specialize (Hr _ Hvals). rewrite length_fmap in Hr.
  assert (live (put_set a d' s) (IPCID_TO_IX semid) a d') as Hl' by (split; [done|]; split; [done|]; apply lookup_insert_eq).
  pose proof (semop_try_spec p semid a d' sops u _ Hin Hl' Hd' Ht Hu du) as Ha. rewrite <- E in Ha. unfold attempt in Ha. rewrite Hv in Ha.
  change (the_plan p (IPCID_TO_IX semid) sops (put_set a d' s)) with (the_plan p (IPCID_TO_IX semid) sops s) in Ha.
  destruct (grant (semval <$> sem_base d) sops) as [vals'|].
  - destruct Ha as (_ & Ev & Ha). destruct (the_plan p (IPCID_TO_IX semid) sops s) as [m|e|]; [| |by edestruct Ha].
    + destruct Ha as (w & s2 & _ & Hrec & El). symmetry in El. rewrite <- Ev.
      destruct (end_granted s s' p _ a d d' sops H Hl w s2 m Hrec El) as (O1 & O2 & O3 & O4 & O5). by conj.
    + symmetry in Ha. destruct (end_leave s s' p _ a d d' H Hl Hv _ Ha) as (O1 & O2 & O3 & O4). by conj.
  - destruct Ha as (took & r & rest & Es & _ & _ & [[Hbig _]|(x & Hx & Hrr & _ & Ho)]).
    { exfalso. rewrite Es in Hr. apply Forall_app in Hr as [_ Hr]. apply Forall_cons in Hr as [ [_ Hr] _]. destruct Hd' as (Hlen & _).
      apply (f_equal length) in Hv. rewrite !length_fmap in Hv. lia. }
    symmetry in Ho. destruct (flag (sem_flg r) IPC_NOWAIT).
    + destruct (end_leave s s' p _ a d d' H Hl Hv _ Ho) as (O1 & O2 & O3 & O4). conj; try done. eexists _, _. split; [done|]. by left.
    + destruct (end_goto s s' p _ a d d' H Hl _ (set_base (<[Z.to_nat (sem_num r) := recount r 1 x]> (sem_base d')) d')
        ltac:(simpl; by rewrite recount_vals) Ho) as ((rr & O1) & O2 & O3 & O4).
      conj; try done. eexists _, rr. split; [done|]. right. by eexists _, _, _, _, _.
Qed.

(** * Adjustments at exit *)

Lemma s16_add x y : s16 (s16 x + y) = s16 (x + y).
Proof.
  unfold s16 at 1 3. apply swrap_mod; [lia|]. unfold s16, swrap, wrap. rewrite <- (Zplus_mod_idemp_l (_ - _)), Zminus_mod_idemp_l.
  replace (x + 2 ^ (16 - 1) - 2 ^ (16 - 1)) with x by lia. by rewrite Zplus_mod_idemp_l.
Qed.

Lemma adjust_default m k v k' : is_s 16 (default 0 (m !! k')) ->
  default 0 (adjust m k v !! k') = s16 (default 0 (m !! k') + if decide (k = k') then v else 0).
Proof.
  intros Hs. unfold adjust. destruct (decide (k = k')) as [<-|Hne].
  - destruct (Z.eqb_spec (s16 (default 0 (m !! k) + v)) 0) as [->|]; [by rewrite lookup_delete_eq|by rewrite lookup_insert_eq].
  - rewrite Z.add_0_r, (s16_small (default 0 (m !! k'))) by done. destruct (_ =? 0); [by rewrite lookup_delete_ne|by rewrite lookup_insert_ne].
Qed.

Lemma undo_plan_map room ix m c f sops m' : undo_plan room ix m c f sops = Recorded m' ->
  Forall (fun o => 0 <= sem_num o /\ flag (sem_flg o) SEM_UNDO = true) sops -> (forall k, is_s 16 (default 0 (m !! k))) ->
  forall jx n, 0 <= n -> default 0 (m' !! (jx, n)) = s16 (default 0 (m !! (jx, n)) - if decide (jx = ix) then total sops (Z.to_nat n) else 0).
Proof.
  revert m c f. induction sops as [|o sops IH]; intros m c f; cbn [undo_plan].
  { intros [= <-] _ Hs jx n _. simpl. destruct (decide (jx = ix)); by rewrite Z.sub_0_r, s16_small. }
  intros E Hf Hs jx n Hn. apply Forall_cons in Hf as [ [Hno Hfl] Hf]. cbn [total]. unfold undone in E. rewrite Hfl in E. cbn [andb] in E.
  destruct (Z.eqb_spec (sem_op o) 0) as [Hz|Hnz]; cbn [negb] in E.
  { rewrite (IH _ _ _ E Hf Hs jx n Hn), Hz. f_equal. destruct (decide (jx = ix)); [|done]. case_decide; lia. }
  destruct (bool_decide (m = ∅) && c); [done|]. destruct (bool_decide (m = ∅) && negb room); [by destruct f|].
  destruct (full m (ix, sem_num o)); [by destruct f|]. rewrite (IH _ _ _ E Hf); [|intros k; rewrite adjust_default by done; apply s16_range|done].
  rewrite adjust_default by done. unfold Z.sub at 1. rewrite s16_add. f_equal.
  destruct (decide (jx = ix)) as [->|Hne]; [|rewrite decide_False by congruence; lia].
  destruct (decide (sem_num o = n)) as [->|Hne].
  - rewrite !decide_True by done. lia.
  - rewrite (decide_False (P := (ix, sem_num o) = (ix, n))), (decide_False (P := Z.to_nat (sem_num o) = Z.to_nat n)) by (lia || congruence). lia.
Qed.

Lemma exit_back v t : 0 <= v -> 0 <= v + t <= 65535 -> v <= 65535 -> exit_value (- t) (v + t) = v.
Proof.
  intros H1 H2 H3. unfold exit_value. destruct (Z.ltb_spec (- t) 0), (Z.ltb_spec (v + t) (- - t)); simpl; try lia;
    rewrite u16_small by (unfold is_u; lia); lia.
Qed.

Lemma adjusted_by_default m ix n v : (forall x, v = Some x -> is_u 16 x) -> adjusted_by m ix n v = exit_value (default 0 (m !! (ix, n))) <$> v.
Proof.
  intros Hv. unfold adjusted_by. destruct (m !! (ix, n)); [done|]. destruct v as [x|]; [|done]. simpl. unfold exit_value. simpl.
  rewrite Z.add_0_r, u16_small; [done|]. by apply Hv.
Qed.

(** * Identifiers *)

Lemma ipcid_parts ix n : 0 <= ix < 65536 -> is_u 15 n -> IPCID_TO_IX (IXSEQ_TO_IPCID ix n) = ix /\ IPCID_TO_SEQ (IXSEQ_TO_IPCID ix n) = n.
Proof.
  intros Hix Hn. unfold IPCID_TO_IX, IPCID_TO_SEQ, IXSEQ_TO_IPCID, is_u in *. change 65535 with (Z.ones 16).
  rewrite !Z.land_ones, (Z.mod_small ix) by lia.
  assert (Z.lor (Z.shiftl n 16) ix = n * 65536 + ix) as ->.
  { rewrite Z.shiftl_mul_pow2 by lia. pose proof (Z.add_lor_land (n * 2 ^ 16) ix) as E. replace (Z.land _ _) with 0 in E; [lia|].
    symmetry. apply Z.bits_inj'. intros i Hi. rewrite Z.land_spec, Z.bits_0.
    destruct (Z.lt_ge_cases i 16); [by rewrite Z.mul_pow2_bits_low by lia|].
    rewrite (is_u_high 16 ix i), andb_false_r by (unfold is_u; lia). done. }
  rewrite Z.shiftr_div_pow2 by lia. change (2 ^ 16) with 65536. rewrite Z.div_add_l, (Z.div_small ix) by lia.
  split; [rewrite Z.add_comm, Z.mod_add by lia; apply Z.mod_small; lia|]. rewrite Z.add_0_r. apply Z.mod_small. lia.
Qed.

Lemma next_seq n : is_u 15 n -> is_u 15 (Z.land (n + 1) 32767) /\ Z.land (n + 1) 32767 <> n.
Proof.
  intros Hn. unfold is_u in *. change 32767 with (Z.ones 15). rewrite Z.land_ones by lia. split; [apply Z.mod_pos_bound; lia|].
  intros E. destruct (decide (n = 32767)) as [->|]; [done|]. rewrite Z.mod_small in E; lia.
Qed.

(** * Theorems *)

(** The vector could be granted, but recording its adjustments goes wrong. *)
Definition hazardous (p ix : Z) (sops : list sembuf) (s : sem_state) : bool :=
  match values s ix with
  | Some vals => match grant vals sops, the_plan p ix sops s with Some _, Hazard => true | _, _ => false end
  | None => false
  end.

Lemma no_hazard_live p semid a d sops s : live s (IPCID_TO_IX semid) a d -> hazardous p (IPCID_TO_IX semid) sops s = false ->
  no_hazard p semid a sops s = true.
Proof.
  intros Hl. unfold hazardous, no_hazard. rewrite (values_live _ _ _ _ Hl). destruct Hl as (_ & _ & ->).
  destruct (grant _ _); [|done]. by destruct (the_plan _ _ _ _).
Qed.

Lemma calm_attempt l s p semid sops : ok s -> attempt_of l s = Some (p, semid, sops) ->
  hazardous p (IPCID_TO_IX semid) sops s = false -> calm l s = true.
Proof.
  intros H Ha Hh. destruct l as [ | |q [l|]u|q error u| ]; try done; simpl in *.
  - destruct (procs s !! q) as [pr|] eqn:Hp; [|done]. simpl in *. destruct (p_pc pr) eqn:Hpc; try done. injection Ha as -> -> ->.
    pose proof (in_pcs _ _ H p pr Hp) as Hok. rewrite Hpc in Hok. destruct Hok as (d & Hl & _). by eapply no_hazard_live.
  - destruct (procs s !! q) as [pr|] eqn:Hp; [|done]. simpl in *. destruct (p_pc pr) eqn:Hpc; try done.
    destruct (error =? 0) eqn:Ee; [|done]. simpl in *. case_bool_decide as Hv; [|done]. injection Ha as -> -> ->.
    pose proof (in_pcs _ _ H p pr Hp) as Hok. rewrite Hpc in Hok. destruct Hok as (_ & _ & o & _ & [Hn|(d & Hl & _)]); [|by eapply no_hazard_live].
    unfold values in Hv. by rewrite Hn in Hv.
Qed.

(** C3. Whatever the processes call, and in whatever order their calls go on, no
    step on semaphores panics, follows a pointer to a set or an undo structure
    that was freed, or runs past the end of an array, as long as the run is
    [calm].  [semtot] is the number of semaphores of the sets in the table; the
    values stay in their type; [semncnt] and [semzcnt] are exactly the
    numbers of processes that wait for the semaphore; an adjustment for exit
    is for a semaphore that there is, and belongs to a process that is alive. *)
Theorem sem_safe s : reachable s ->
  (forall l m, calm l s = true -> step l s = Some m -> exists s', m = Ret s') /\
  semtot s = lsum (size_at (sets s)) (sema s) /\ semutot s = Z.of_nat (size (undos s)) /\
  (forall ix a d n x, live s ix a d -> sem_base d !! n = Some x ->
    is_u 16 (semval x) /\ semncnt x = msum (waits (Z.to_nat ix) n false) (procs s) /\ semzcnt x = msum (waits (Z.to_nat ix) n true) (procs s)) /\
  (forall u x e, undos s !! u = Some x -> e ∈ un_ent x -> alive s (un_proc x) /\ un_adjval e <> 0 /\ valid s (un_id e) (un_num e)).
Proof.
  intros Hr. pose proof (sem_reachable_ok s Hr) as H. pose proof (in_undos _ _ H) as [Hu _]. conj.
  - intros l m Hc Hs. pose proof (sem_step_ok l s m H Hc Hs) as Hm. destruct m; try done. by eexists.
  - apply H.
  - rewrite (un_tot _ _ _ _ _ Hu). f_equal. rewrite <- size_dom, <- (size_list_to_set (C := gset Z)) by apply Hu. f_equal.
    apply set_eq. intros u. rewrite elem_of_list_to_set, elem_of_dom. apply Hu.
  - intros ix a d n x (L1 & L2 & L3) Hx. destruct (tb_sets _ (in_tables _ _ H) _ _ L2) as (d0 & Hd0 & (_ & _ & Hv) & _).
    assert (d0 = d) as -> by congruence. split; [by apply (Forall_lookup_1 _ _ _ _ Hv Hx)|]. by eapply (in_counts _ _ H).
  - intros u x e Hx He. destruct (un_ok _ _ _ _ _ Hu u x Hx) as [Ha (_ & _ & Hf)]. rewrite Forall_forall in Hf.
    destruct (Hf e He) as (E1 & _ & E3). done.
Qed.

(** C7. In a state that a calm run leads to, a vector of requests that all name
    semaphores of the set is granted as a whole or not at all.  When every request can be granted, one after
    another, the values are those after all of them and the adjustments for
    exit are recorded; when the adjustments find no room, or a request has to
    wait, neither the values nor the adjustments change: the call fails, or the
    process sleeps.  No other set and no adjustment of another process changes.
    The attempt does not return exactly when the vector could be granted and
    recording its adjustments goes wrong, as [undo_plan] tells. *)
Theorem semop_atomic s l m p semid sops : reachable s -> attempt_of l s = Some (p, semid, sops) -> step l s = Some m ->
  (forall vals, values s (IPCID_TO_IX semid) = Some vals -> Forall (in_range (length vals)) sops) ->
  if hazardous p (IPCID_TO_IX semid) sops s then forall s', m <> Ret s'
  else exists s', m = Ret s' /\ attempted p (IPCID_TO_IX semid) sops s s'.
Proof.
  intros Hr Ha Hs Hin. pose proof (sem_reachable_ok s Hr) as H. destruct (hazardous p (IPCID_TO_IX semid) sops s) eqn:Hh.
  - intros s' ->. destruct (attempted_spec l s s' p semid sops H Ha Hs Hin) as (vals & Hv & Hatt & _). unfold hazardous in Hh. rewrite Hv in Hh.
    destruct (grant vals sops); [|done]. by destruct (the_plan p (IPCID_TO_IX semid) sops s).
  - pose proof (sem_step_ok l s m H (calm_attempt l s p semid sops H Ha Hh) Hs) as Hm. destruct m as [s'| | |]; try done.
    exists s'. split; [done|]. by apply (attempted_spec l).
Qed.

(** ** Exit after a vector *)

Lemma values_inv P s ix vals : inv P s -> 0 <= ix -> values s ix = Some vals ->
  exists a d, live s ix a d /\ vals_ok (sem_base d) /\ vals = semval <$> sem_base d.
Proof.
  intros H Hix. unfold values. destruct (sema s !! Z.to_nat ix) as [[a|]|] eqn:E; try done.
  destruct (tb_sets _ (in_tables _ _ H) _ _ E) as (d & Hd & (_ & _ & Hv) & _). rewrite Hd. intros [= <-]. by exists a, d.
Qed.

Lemma value_u16 P s ix n v : inv P s -> 0 <= ix -> value s ix n = Some v -> is_u 16 v.
Proof.
  intros H Hix. unfold value. destruct (values s ix) as [vals|] eqn:E; [|done]. simpl.
  destruct (values_inv _ _ _ _ H Hix E) as (a & d & _ & Hv & ->). rewrite list_lookup_fmap. intros Hx.
  apply fmap_Some in Hx as (x & Hx & ->). by apply (Forall_lookup_1 _ _ _ _ Hv Hx).
Qed.

(** The adjustments that a vector recorded take it back. *)
Lemma recorded_back P s ix sops vals vals' m jx n room v' : inv P s -> 0 <= ix -> values s ix = Some vals -> grant vals sops = Some vals' ->
  undo_plan room ix ∅ false true sops = Recorded m -> Forall (fun o => 0 <= sem_num o /\ flag (sem_flg o) SEM_UNDO = true) sops ->
  (forall n v, vals !! n = Some v -> v + most sops n <= 65535) -> (forall n, - 32767 <= total sops n <= 32768) -> 0 <= jx -> 0 <= n ->
  v' = (if decide (jx = ix) then vals' !! Z.to_nat n else value s jx n) ->
  adjusted_by m jx n v' = value s jx n.
Proof.
  intros H Hix Hv Hg Hpl Hfl Hf Ht Hjx Hn ->. destruct (values_inv _ _ _ _ H Hix Hv) as (a & d & Hl & Hvo & ->).
  pose proof (undo_plan_map _ _ _ _ _ _ _ Hpl Hfl ltac:(intros k; rewrite lookup_empty; simpl; unfold is_s; lia) jx n Hn) as Hm.
  rewrite lookup_empty in Hm. cbn [default] in Hm. rewrite Z.sub_0_l in Hm. destruct (decide (jx = ix)) as [->|Hne].
  - rewrite s16_small in Hm by (specialize (Ht (Z.to_nat n)); unfold is_s; lia). unfold value. rewrite Hv. cbn [mbind option_bind].
    assert (grant (semval <$> sem_base d) sops <> None) as Hg' by congruence. rewrite (grant_shift _ _ Hvo Hg') in Hg. injection Hg as <-.
    rewrite !list_lookup_fmap, shift_lookup. destruct (sem_base d !! Z.to_nat n) as [x|] eqn:Hx; [|unfold adjusted_by; by destruct (m !! _)].
    specialize (Hf (Z.to_nat n) (semval x)). rewrite list_lookup_fmap, Hx in Hf. specialize (Hf eq_refl).
    pose proof (grant_exact _ _ _ _ Hvo Hx Hg' Hf) as He. cbn. rewrite u16_small by (unfold is_u; lia).
    rewrite adjusted_by_default by (intros ? [= <-]; unfold is_u; lia). rewrite Hm. cbn. f_equal.
    apply (Forall_lookup_1 _ _ _ _ Hvo) in Hx. unfold is_u in Hx. apply exit_back; lia.
  - rewrite adjusted_by_default by (intros v Hx; exact (value_u16 _ _ _ _ _ H Hjx Hx)). rewrite Hm. change (s16 (- 0)) with 0.
    destruct (value s jx n) as [v|] eqn:E; [|done]. cbn. unfold exit_value. simpl. rewrite Z.add_0_r, u16_small; [done|]. exact (value_u16 _ _ _ _ _ H Hjx E).
Qed.

(** C31. A process that exits undoes its requests: when all requests of a
    granted vector name semaphores of the set and have [SEM_UNDO], the process
    had no adjustments before, no value overflowed and the totals fit an
    adjustment, every semaphore of the system has the value from before the
    call again after the exit. *)
Theorem semexit_restores s l s1 p semid sops : reachable s -> calm l s = true -> attempt_of l s = Some (p, semid, sops) ->
  step l s = Some (Ret s1) -> outcome_of p s1 = Some (User, Val 0) -> undo_map p s = ∅ ->
  Forall (fun o => flag (sem_flg o) SEM_UNDO = true) sops ->
  (forall vals, values s (IPCID_TO_IX semid) = Some vals -> Forall (in_range (length vals)) sops /\
    forall n v, vals !! n = Some v -> v + most sops n <= 65535) ->
  (forall n, - 32767 <= total sops n <= 32768) ->
  exists s2, step (Enter p Exit) s1 = Some (Ret s2) /\ forall jx n, 0 <= jx -> 0 <= n -> value s2 jx n = value s jx n.
Proof.
  intros Hr Hc Ha Hs Hout Hm Hfl Hin Ht. pose proof (sem_reachable_ok s Hr) as H. pose proof (sem_step_ok l s _ H Hc Hs) as H1. simpl in H1.
  destruct (attempted_spec l s s1 p semid sops H Ha Hs ltac:(intros; by apply Hin)) as (vals & Hv & Hatt & Hother & _).
  destruct (Hin vals Hv) as [Hr1 Hf]. unfold outcome_of in Hout. destruct (procs s1 !! p) as [pr|] eqn:Hp; [|done].
  injection Hout as Hpc Hret. pose proof (ix_range semid) as Hix. destruct (grant vals sops) as [vals'|] eqn:Hg.
  2: { destruct Hatt as (_ & _ & x & r & E & [[-> ->]|(?&?&?&?&?& ->)]); unfold outcome_of in E; rewrite Hp in E; simpl in E; congruence. }
  destruct (the_plan p (IPCID_TO_IX semid) sops s) as [m|e|] eqn:Hpl; [| |done].
  2: { destruct Hatt as (_ & _ & E). unfold outcome_of in E. rewrite Hp in E. simpl in E. congruence. }
  destruct Hatt as (Hv1 & Hm1 & _). unfold the_plan in Hpl. rewrite Hm in Hpl.
  destruct (semexit_spec p pr s1 H1 Hp) as (s' & E & _ & _ & _ & Hval); [by rewrite Hpc|].
  eexists. split; [unfold step; rewrite Hp, Hpc; simpl; by rewrite E|]. intros jx n Hjx Hn.
  change (value s' jx n = value s jx n). rewrite (Hval jx n Hjx Hn), Hm1.
  eapply (recorded_back _ s _ _ _ _ _ _ _ _ _ H (proj1 Hix) Hv Hg Hpl); try done.
  - rewrite Forall_forall in Hr1, Hfl |- *. intros o Ho. split; [by apply (Hr1 o)|by apply Hfl].
  - unfold value. destruct (decide (jx = IPCID_TO_IX semid)) as [->|Hne]; [by rewrite Hv1|by rewrite Hother].
Qed.

(** C18. No wakeup is lost in a run that is calm and tidy: the vectors name
    semaphores of the set, overflow no value and ask for zero only where they
    have not changed the value before, and the table is not moved while a
    process sleeps.  In such a run a process that sleeps for a semaphore and has
    not been woken up waits for a set that there is, and its requests cannot be
    granted now. *)
Theorem sem_no_lost_wakeup s p pr semid a sops i du c : reachable_tidy s -> procs s !! p = Some pr ->
  p_pc pr = Semwait semid a sops i du c false -> exists vals, values s (IPCID_TO_IX semid) = Some vals /\ grant vals sops = None.
Proof.
  intros Hr Hp Hpc. destruct (tidy_attended s Hr) as [H Ha]. specialize (Ha p pr Hp). rewrite Hpc in Ha. destruct Ha as (_ & d & Hl & Hh).
  exists (semval <$> sem_base d). split; [by apply values_live in Hl|]. eapply held_blocked; [|done]. destruct Hl as (_ & L2 & L3).
  destruct (tb_sets _ (in_tables _ _ H) _ _ L2) as (d0 & Hd0 & (_ & _ & Hv) & _). congruence.
Qed.

(** ** A new set *)

Definition new_set (cred : ucred) (k nsems semflg n t : Z) : semid_ds :=
  Semid_ds (Perm (cr_uid cred) (cr_gid cred) (cr_uid cred) (cr_gid cred) (Z.land semflg 511) n k) (replicate (Z.to_nat nsems) (Sem 0 0 0 0)) nsems 0 t.

Lemma semget_alloc_new p pr k nsems semflg a ix s : ok s -> procs s !! p = Some pr -> sets s !! a = None -> 0 < nsems <= 32767 ->
  (k <> IPC_PRIVATE -> forall jx b d, live s jx b d -> key (sem_perm d) <> k) -> find_free (sema s) 0 = Some ix ->
  exists old, semseqs s !! Z.to_nat ix = Some old /\ let n := Z.land (old + 1) 32767 in
    semget_alloc p k nsems semflg a s = Ret (place p (Proc (p_ucred pr) User (Val (IXSEQ_TO_IPCID ix n)))
      (created ix a n (new_set (p_ucred pr) k nsems semflg n (time_second s)) s)).
Proof.
  intros H Hp Ha Hn Hk Hf. pose proof (in_tables _ _ H) as T. unfold semget_alloc, semget_find, deref.
  set (s0 := put_set a _ s). change (procs s0) with (procs s). rewrite Hp. cbn [bind]. pose proof (find_free_spec (sema s) 0) as Hff. rewrite Hf in Hff. destruct Hff as (Hix & Hnone & _).
  rewrite Z.sub_0_r in Hnone. apply lookup_lt_Some in Hnone as Hlt. pose proof (tb_seqlen _ T) as Hsl.
  destruct (aget_bounds (semseqs s) ix) as (old & Hold & Hso); [lia|]. exists old. split; [done|]. cbv zeta.
  assert (semget_create p k nsems semflg a s0 = Ret (place p (Proc (p_ucred pr) User (Val (IXSEQ_TO_IPCID ix (Z.land (old + 1) 32767))))
    (created ix a (Z.land (old + 1) 32767) (new_set (p_ucred pr) k nsems semflg (Z.land (old + 1) 32767) (time_second s)) s))) as Hc.
  { unfold semget_create, deref. change (procs s0) with (procs s). change (sema s0) with (sema s). change (semseqs s0) with (semseqs s).
    rewrite Hp, Hf. cbn [bind]. unfold s0 at 1. cbn [sets put_set set_sets]. rewrite lookup_insert_eq. cbn [bind]. rewrite Hold. cbn [bind].
    rewrite !aset_bounds by lia. cbn [bind]. assert (u16 nsems = nsems) as -> by (apply u16_small; unfold is_u; lia).
    rewrite (leave_place _ _ _ pr) by done. unfold s0, created, place, put_set. simpl. by rewrite insert_insert_eq. }
  destruct (Z.eqb_spec k IPC_PRIVATE) as [|Hne]; [done|].
  assert (forall i b, sema s !! i = Some (Some b) -> sets s0 !! b = sets s !! b /\ is_Some (sets s !! b)) as Hb.
  { intros i b Hi. destruct (tb_sets _ T i b Hi) as (d & Hd & _). split; [|by eexists]. unfold s0. simpl. rewrite lookup_insert_ne; [done|]. congruence. }
  destruct (find_key_spec (sets s0) k (sema s0) 0) as [[-> _]|(j & b & d & _ & Hj & Hd & Hkey)]; cbn [bind]; [|done|].
  - intros b Hbl. apply list_elem_of_lookup in Hbl as [i Hi]. destruct (Hb i b Hi) as [-> ?]. done.
  - exfalso. destruct (Hb j b Hj) as [E _]. apply (Hk Hne (Z.of_nat j) b d); [|done]. split; [lia|]. rewrite Nat2Z.id. split; [done|congruence].
Qed.

(** A new set.  When no set has the key and an index is free, [semget]
    makes a set of zeroes there, and the identifier that it returns finds that
    set, with the owner and the permissions asked for.  An identifier of the
    set that was there before finds nothing. *)
Theorem semget_creates s p a k nsems semflg pr ix m : reachable s -> calm (Allocated p a) s = true ->
  procs s !! p = Some pr -> p_pc pr = GetAlloc k nsems semflg -> step (Allocated p a) s = Some m ->
  (k <> IPC_PRIVATE -> forall jx b d, live s jx b d -> key (sem_perm d) <> k) -> find_free (sema s) 0 = Some ix ->
  exists s' semid d, m = Ret s' /\ outcome_of p s' = Some (User, Val semid) /\ find_set semid s' = Ret (Some (a, d)) /\
    IPCID_TO_IX semid = ix /\ values s' ix = Some (replicate (Z.to_nat nsems) 0) /\
    key (sem_perm d) = k /\ uid (sem_perm d) = cr_uid (p_ucred pr) /\ mode (sem_perm d) = Z.land semflg 511 /\
    forall old, IPCID_TO_IX old = ix -> semseqs s !! Z.to_nat ix = Some (IPCID_TO_SEQ old) -> find_set old s' = Ret None.
Proof.
  intros Hr Hc Hp Hpc Hs Hk Hf. pose proof (sem_reachable_ok s Hr) as H. pose proof (in_tables _ _ H) as T. cbn [step] in Hs.
  rewrite Hp in Hs. simpl in Hs. rewrite Hpc in Hs. case_bool_decide as Ha; [|done]. injection Hs as <-.
  pose proof (in_pcs _ _ H p pr Hp) as Hn. rewrite Hpc in Hn. simpl in Hn. pose proof (tb_msl _ T).
  destruct (semget_alloc_new p pr k nsems semflg a ix s H Hp Ha ltac:(lia) Hk Hf) as (old & Hold & ->).
  set (n := Z.land (old + 1) 32767). set (d := new_set _ _ _ _ _ _). pose proof (find_free_spec (sema s) 0) as Hff. rewrite Hf in Hff.
  destruct Hff as (Hix & Hnone & _). rewrite Z.sub_0_r in Hnone. apply lookup_lt_Some in Hnone as Hlt. pose proof (tb_len _ T). pose proof (tb_mni _ T).
  destruct (next_seq old) as [Hu Hne]; [by apply (Forall_lookup_1 _ _ _ _ (tb_seqs _ T) Hold)|]. fold n in Hu, Hne.
  destruct (ipcid_parts ix n ltac:(lia) Hu) as [Eix Eseq]. set (s' := place _ _ _).
  assert (forall id, IPCID_TO_IX id = ix -> find_set id s' = Ret (if n =? IPCID_TO_SEQ id then Some (a, d) else None)) as Hfind.
  { intros id E. unfold find_set. rewrite E, (proj2 (Z.ltb_ge _ _)), (proj2 (Z.leb_gt _ _)) by (simpl; lia). cbn [orb]. unfold s'. simpl.
    rewrite (aget_Some _ _ (Some a)) by (try lia; by apply list_lookup_insert_eq). cbn [bind]. unfold deref. rewrite lookup_insert_eq. done. }
  exists s', (IXSEQ_TO_IPCID ix n), d. conj; try done.
  - unfold outcome_of, s'. simpl. by rewrite lookup_insert_eq.
  - rewrite Hfind, Eseq, Z.eqb_refl by done. done.
  - unfold values, s'. simpl. rewrite list_lookup_insert_eq, lookup_insert_eq by done. simpl. by rewrite fmap_replicate.
  - intros id Eid Hsq. rewrite Hfind by done. assert (IPCID_TO_SEQ id = old) as -> by congruence. by rewrite (proj2 (Z.eqb_neq _ _)).
Qed.
End Spec.

(** * Runs *)

Section Runs.
Context {A : arch}.

(** The labels one after another, up to the first step that does not return;
    [calm] and [tidy] steps only. *)
Fixpoint play (ls : list label) (s : sem_state) : option (outcome sem_state) :=
  match ls with
  | [] => Some (Ret s)
  | l :: ls => match step l s with Some (Ret s) => play ls s | m => m end
  end.

Fixpoint play_tidy (ls : list label) (s : sem_state) : option sem_state :=
  match ls with
  | [] => Some s
  | l :: ls => if calm l s && tidy l s then match step l s with Some (Ret s) => play_tidy ls s | _ => None end else None
  end.

Lemma play_reachable ls s s' : reachable_tidy s -> reachable s -> play_tidy ls s = Some s' -> reachable_tidy s' /\ reachable s'.
Proof.
  revert s. induction ls as [|l ls IH]; intros s Ht Hr; cbn [play_tidy]; [by intros [= <-]|].
  destruct (calm l s && tidy l s) eqn:Hc; [|done]. boolify. destruct (step l s) as [[s1| | |]|] eqn:Hs; try done.
  apply IH; [by eapply tidy_step|by eapply reach_step].
Qed.
End Runs.

(** The default limits; process 1 of the superuser. *)
Definition start : sem_state := sem_booted (Seminfo 10 60 30 60 100) 1 (Ucred 0 0 []).

#[local] Instance start_arch : arch := LP64.

Lemma start_reachable : reachable_tidy start /\ reachable start.
Proof. split; constructor; try lia; unfold info_ok; simpl; lia. Qed.

(** A set of [n] semaphores, whose identifier is 65536; a call of [semop]. *)
Definition make (n : Z) : list label := [Enter 1 (Semget 0 n 384); Allocated 1 100].
Definition asks (p : Z) (sops : list sembuf) (u : Z) : list label := [Enter p (Semop 65536 (Z.of_nat (length sops))); Copied p (inl sops) u].

(** Process 2 waits for semaphore 1, and process 1 is about to raise 0. *)
Definition before : sem_state :=
  default start (play_tidy (make 2 ++ [Enter 1 (Fork 2)] ++ asks 2 [Sembuf 1 (-1) 0] 7 ++ [Enter 1 (Semop 65536 1)]) start).
Definition raise : label := Copied 1 (inl [Sembuf 0 1 4096]) 8.
Definition after : sem_state := default start (play_tidy [raise] before).

Lemma before_reachable : reachable_tidy before /\ reachable before.
Proof.
  apply (play_reachable (make 2 ++ [Enter 1 (Fork 2)] ++ asks 2 [Sembuf 1 (-1) 0] 7 ++ [Enter 1 (Semop 65536 1)]) start);
    [apply start_reachable|apply start_reachable|by vm_compute].
Qed.

Lemma sem_safe_witness :
  (forall l m, calm l before = true -> step l before = Some m -> exists s', m = Ret s') /\
  semtot before = lsum (size_at (sets before)) (sema before) /\ semutot before = Z.of_nat (size (undos before)) /\
  (forall ix a d n x, live before ix a d -> sem_base d !! n = Some x ->
    is_u 16 (semval x) /\ semncnt x = msum (waits (Z.to_nat ix) n false) (procs before) /\ semzcnt x = msum (waits (Z.to_nat ix) n true) (procs before)) /\
  (forall u x e, undos before !! u = Some x -> e ∈ un_ent x -> alive before (un_proc x) /\ un_adjval e <> 0 /\ valid before (un_id e) (un_num e)).
Proof. apply (sem_safe before (proj2 before_reachable)). Defined.

Lemma before_ranges vals : values before (IPCID_TO_IX 65536) = Some vals -> Forall (in_range (length vals)) [Sembuf 0 1 4096] /\
  forall n v, vals !! n = Some v -> v + most [Sembuf 0 1 4096] n <= 65535.
Proof.
  assert (values before (IPCID_TO_IX 65536) = Some [0; 0]) as -> by by vm_compute. intros [= <-]. split; [repeat constructor; simpl; lia|].
  intros n v Hv. assert (v = 0) as -> by (apply list_elem_of_lookup_2 in Hv; set_solver). simpl. case_decide; lia.
Qed.

Lemma semop_atomic_witness : exists s', Ret after = Ret s' /\ attempted 1 (IPCID_TO_IX 65536) [Sembuf 0 1 4096] before s'.
Proof.
  pose proof (semop_atomic before raise (Ret after) 1 65536 [Sembuf 0 1 4096] (proj2 before_reachable) ltac:(by vm_compute) ltac:(by vm_compute)
    (fun vals Hv => proj1 (before_ranges vals Hv))) as H.
  assert (hazardous 1 (IPCID_TO_IX 65536) [Sembuf 0 1 4096] before = false) as E by by vm_compute. rewrite E in H. exact H.
Defined.

Lemma semexit_restores_witness : exists s2, step (Enter 1 Exit) after = Some (Ret s2) /\ forall jx n, 0 <= jx -> 0 <= n -> value s2 jx n = value before jx n.
Proof.
  apply (semexit_restores before raise after 1 65536 [Sembuf 0 1 4096] (proj2 before_reachable)); try by vm_compute.
  - by repeat constructor.
  - apply before_ranges.
  - intros n. simpl. case_decide; lia.
Defined.

Lemma sem_no_lost_wakeup_witness : exists vals, values before (IPCID_TO_IX 65536) = Some vals /\ grant vals [Sembuf 1 (-1) 0] = None.
Proof.
  apply (sem_no_lost_wakeup before 2 (Proc (Ucred 0 0 []) (Semwait 65536 100 [Sembuf 1 (-1) 0] 0 false (0, 0) false) (Val 0))
    65536 100 [Sembuf 1 (-1) 0] 0 false (0, 0) (proj1 before_reachable)); by vm_compute.
Defined.

Definition asked : sem_state := default start (play_tidy [Enter 1 (Semget 0 2 384)] start).

Lemma asked_reachable : reachable asked.
Proof. apply (play_reachable [Enter 1 (Semget 0 2 384)] start); [apply start_reachable|apply start_reachable|by vm_compute]. Qed.

Lemma semget_creates_witness : exists s' semid d, step (Allocated 1 100) asked = Some (Ret s') /\
  outcome_of 1 s' = Some (User, Val semid) /\ find_set semid s' = Ret (Some (100, d)) /\ values s' 0 = Some [0; 0].
Proof.
  destruct (step (Allocated 1 100) asked) as [m|] eqn:E; [|by vm_compute in E].
  destruct (semget_creates asked 1 100 0 2 384 (Proc (Ucred 0 0 []) (GetAlloc 0 2 384) (Val 0)) 0 m asked_reachable)
    as (s' & semid & d & -> & H1 & H2 & _ & H3 & _); [by vm_compute|by vm_compute|done|exact E|by intros []|by vm_compute|].
  exists s', semid, d. done.
Defined.

(** C40. Where the code goes wrong.  A request for a semaphore beyond the end
    leaves those before it done.  When there is no entry left for the
    adjustments of a later request, the loop that takes the others back does not
    stop at the first; when an adjustment comes to nothing, its structure is used
    after it was freed.  [SETVAL] leaves an adjustment for the semaphore that
    is not the first of the set in its structure, and the exit of the process
    changes the value that was set.  A process that first takes and then waits
    for zero sleeps on when both could be granted.  A set that was allocated in
    vain is never freed.  When the table has been enlarged, processes that
    slept before are not woken up.  When a set is removed and its index is
    used again, the process that waited reads the set that was freed.  Two
    processes make more semaphores than there may be, and a value wraps around. *)
Theorem sem_flaws :
  (exists s, play (make 2 ++ asks 1 [Sembuf 0 1 0; Sembuf 5 1 0] 7) start = Some (Ret s) /\
     outcome_of 1 s = Some (User, Err EFBIG) /\ values s 0 = Some [1; 0]) /\
  play (make 11 ++ asks 1 ((fun n => Sembuf n 1 4096) <$> seqZ 0 11) 7) start = Some (Fault OutOfBounds) /\
  play (make 2 ++ asks 1 [Sembuf 0 1 4096] 7 ++ asks 1 [Sembuf 0 (-1) 4096; Sembuf 1 1 4096] 8) start = Some (Fault UseAfterFree) /\
  (exists s, play (make 2 ++ [Enter 1 (Fork 2)] ++ asks 2 [Sembuf 0 1 4096; Sembuf 1 1 4096] 7 ++
       [Enter 1 (Semctl 65536 1 (SETVAL 5) 0); Enter 2 Exit]) start = Some (Ret s) /\ values s 0 = Some [0; 4]) /\
  (exists s, play (make 1 ++ [Enter 1 (Fork 2)] ++ asks 1 [Sembuf 0 3 0] 7 ++ asks 2 [Sembuf 0 (-1) 0; Sembuf 0 0 0] 7 ++
       asks 1 [Sembuf 0 (-2) 0] 7) start = Some (Ret s) /\
     (asleep <$> (fst <$> outcome_of 2 s)) = Some true /\ (values s 0 ≫= fun vals => grant vals [Sembuf 0 (-1) 0; Sembuf 0 0 0]) = Some [0]) /\
  (exists s, play (make 1 ++ [Enter 1 (Semget 5 1 896); Allocated 1 101; Enter 1 (Semget 5 1 896); Allocated 1 102]) start = Some (Ret s) /\
     outcome_of 1 s = Some (User, Val 65537) /\ is_Some (sets s !! 102) /\ Some 102 ∉ sema s) /\
  (exists s, play (make 1 ++ [Enter 1 (Fork 2)] ++ asks 2 [Sembuf 0 (-1) 0] 7 ++ [Enter 1 (Sysctl SEMMNI 20 1)] ++
       asks 1 [Sembuf 0 1 0] 7) start = Some (Ret s) /\
     (asleep <$> (fst <$> outcome_of 2 s)) = Some true /\ (values s 0 ≫= fun vals => grant vals [Sembuf 0 (-1) 0]) = Some [0]) /\
  play (make 1 ++ [Enter 1 (Fork 2)] ++ asks 2 [Sembuf 0 (-1) 0] 7 ++
    [Enter 1 (Semctl 65536 0 IPC_RMID 0); Enter 1 (Semget 0 1 384); Allocated 1 101; Awake 2 0 8]) start = Some (Fault UseAfterFree) /\
  (exists s, play [Enter 1 (Fork 2); Enter 1 (Semget 0 40 384); Enter 2 (Semget 0 40 384); Allocated 1 100; Allocated 2 101] start = Some (Ret s) /\
     semmns (info s) < semtot s) /\
  (exists s, play (make 1 ++ [Enter 1 (Semctl 65536 0 (SETVAL 65535) 0)] ++ asks 1 [Sembuf 0 1 0] 7) start = Some (Ret s) /\
     outcome_of 1 s = Some (User, Val 0) /\ values s 0 = Some [0]).
Proof.
  split; [eexists; split; [vm_compute; reflexivity|by vm_compute]|]. split; [by vm_compute|]. split; [by vm_compute|].
  do 2 (split; [eexists; split; [vm_compute; reflexivity|by vm_compute]|]).
  split; [eexists; split; [vm_compute; reflexivity|]|].
  { split; [by vm_compute|]. split; [vm_compute; by eexists|]. apply (bool_decide_unpack _). by vm_compute. }
  split; [eexists; split; [vm_compute; reflexivity|by vm_compute]|]. split; [by vm_compute|].
  split; [eexists; split; [vm_compute; reflexivity|by vm_compute]|]. eexists; split; [vm_compute; reflexivity|by vm_compute].
Qed.
