(* ===== verification/InCksum.v ===== *)
(** * The Internet checksum

    The portable [in_cksum] of [netinet/in_cksum.c]: the sum of the 16-bit words
    of an mbuf chain, in the byte order of the machine, with words that straddle
    mbufs, data at odd addresses and the unrolled loops; and [in4_cksum] of
    [netinet/in4_cksum.c], which skips headers and adds the pseudo header. *)

From S2P Require Import Prelude.

Inductive endian := Little | Big.

(** An mbuf: the address of its data ([m_data]), and the data; [m_len] is their
    number. *)
Record m_data := M_data { m_addr : Z; m_bytes : list Z }.

Definition m_len (m : m_data) : Z := Z.of_nat (length (m_bytes m)).

Section Cksum.
Context (e : endian).

(** [s_util]: two bytes as a word. *)
Definition s_util (c0 c1 : Z) : Z := match e with Little => c0 + 256 * c1 | Big => 256 * c0 + c1 end.

(** The two halves of [sum], with [ADDCARRY].  [sum] is an [int]; the code relies
    on its wrapping around. *)
Definition REDUCE (sum : Z) : Z :=
  let sum := u32 sum mod 65536 + u32 sum / 65536 in
  if 65535 <? sum then sum - 65535 else sum.

(** [sum += w[0]; ... sum += w[k - 1]], with [w] at offset [off] of an mbuf.
    Words can only be read at even addresses. *)
Fixpoint add_words (m : m_data) (off : Z) (k : nat) (sum : Z) : outcome Z :=
  match k with
  | O => Ret sum
  | S k =>
      if Z.odd (m_addr m + off) then Fault BadCast
      else
        let! c0 := aget (m_bytes m) off in
        let! c1 := aget (m_bytes m) (off + 1) in
        add_words m (off + 2) k (s32 (sum + s_util c0 c1))
  end.

(** [while ((mlen -= 2 * k) >= 0)] with [k] words each time. *)
Fixpoint add_blocks (m : m_data) (k : nat) (fuel : nat) (off mlen sum : Z) : outcome (Z * Z * Z) :=
  let mlen := mlen - 2 * Z.of_nat k in
  if 0 <=? mlen then
    match fuel with
    | O => Spin
    | S fuel => let! sum := add_words m off k sum in add_blocks m k fuel (off + 2 * Z.of_nat k) mlen sum
    end
  else Ret (off, mlen, sum).

(** What the loop over the mbufs keeps: [mlen] is -1 when [c0] is the first byte
    of a word. *)
Record cksum := Cksum { c_sum : Z; c_len : Z; c_mlen : Z; c_byte : Z }.

(** After the even boundary: the loops over 16, 4 and single words.  A turn takes
    at least two bytes, so that [mlen] turns are enough. *)
Definition cksum_words (m : m_data) (off len mlen sum c0 : Z) (byte_swapped : bool) : outcome cksum :=
  let fuel := Z.to_nat mlen in
  let! (off, mlen, sum) := add_blocks m 16 fuel off mlen sum in
  let mlen := mlen + 32 in
  let! (off, mlen, sum) := add_blocks m 4 fuel off mlen sum in
  let mlen := mlen + 8 in
  if (mlen =? 0) && negb byte_swapped then Ret (Cksum sum len mlen c0)
  else
    let! (off, mlen, sum) := add_blocks m 1 fuel off mlen (REDUCE sum) in
    if byte_swapped then
      let sum := s32 (REDUCE sum * 256) in
      if mlen =? -1 then let! c1 := aget (m_bytes m) off in Ret (Cksum (s32 (sum + s_util c0 c1)) len 0 c0)
      else Ret (Cksum sum len (-1) c0)
    else if mlen =? -1 then let! c0 := aget (m_bytes m) off in Ret (Cksum sum len mlen c0)
    else Ret (Cksum sum len mlen c0).

(** One mbuf that is not empty, from its byte [start] on. *)
Definition cksum_mbuf (m : m_data) (start : Z) (c : cksum) : outcome cksum :=
  let! (off, len, mlen, sum) :=
    (if c_mlen c =? -1 then
       let! c1 := aget (m_bytes m) start in
       Ret (start + 1, c_len c - 1, m_len m - start - 1, s32 (c_sum c + s_util (c_byte c) c1))
     else Ret (start, c_len c, m_len m - start, c_sum c)) in
  let mlen := if len <? mlen then len else mlen in
  let len := len - mlen in
  if Z.odd (m_addr m + off) && (0 <? mlen) then
    let sum := s32 (REDUCE sum * 256) in
    let! c0 := aget (m_bytes m) off in
    cksum_words m (off + 1) len (mlen - 1) sum c0 true
  else cksum_words m off len mlen sum (c_byte c) false.

Fixpoint cksum_chain (ms : list m_data) (start : Z) (c : cksum) : outcome cksum :=
  match ms with
  | [] => Ret c
  | m :: ms =>
      if c_len c =? 0 then Ret c
      else if m_len m =? 0 then cksum_chain ms start c
      else let! c := cksum_mbuf m start c in cksum_chain ms 0 c
  end.

(** The last byte, if there is one left, and the result. *)
Definition cksum_end (c : cksum) : Z :=
  let sum := if c_mlen c =? -1 then s32 (c_sum c + s_util (c_byte c) 0) else c_sum c in
  Z.land (Z.lnot (REDUCE sum)) 65535.

Definition in_cksum (ms : list m_data) (len : Z) : outcome Z :=
  let! c := cksum_chain ms 0 (Cksum 0 len 0 0) in Ret (cksum_end c).

(** ** [in4_cksum] *)

(** [struct ipovly] for a header of 20 bytes: zeroes, the protocol, the length
    and the two addresses. *)
Definition ipovly (nxt len : Z) (ip : list Z) : list Z :=
  replicate 9 0 ++ [u8 nxt; u16 len / 256; u16 len mod 256] ++ take 8 (drop 12 ip).

(** [while (m && off > 0)]. *)
Fixpoint cksum_skip (ms : list m_data) (off : Z) : list m_data * Z :=
  match ms with
  | [] => ([], off)
  | m :: ms' => if (off <=? 0) || (off <? m_len m) then (ms, off) else cksum_skip ms' (off - m_len m)
  end.

(** [sizeof] is unsigned: a negative offset is not too short. *)
Definition in4_cksum (ms : list m_data) (nxt off len : Z) : outcome Z :=
  let! sum :=
    (if negb (nxt =? 0) then
       if (0 <=? off) && (off <? 20) then Panic "in4_cksum: offset too short"
       else match ms with
            | [] => Fault NullDeref
            | m :: _ =>
                if m_len m <? 20 then Panic "in4_cksum: bad mbuf chain"
                else add_words (M_data 0 (ipovly nxt len (m_bytes m))) 0 10 0
            end
     else Ret 0) in
  let '(ms, off) := cksum_skip ms off in
  let! c := cksum_chain ms off (Cksum sum len 0 0) in Ret (cksum_end c).
End Cksum.
