(* ===== verification/InCksumSpec.v ===== *)
(** * The sums and loops of the checksum

    Sums of bytes with the weights of their places, modulo 65535, and how the
    loops of [in_cksum] compute them. *)

From S2P Require Import Prelude InCksum.

Section Sums.
Context (e : endian).

(** ** Weights *)

(** The weight of a byte at an even or odd place. *)
Definition weight (odd : bool) : Z := match e, odd with Little, false | Big, true => 1 | _, _ => 256 end.

Fixpoint ones (odd : bool) (l : list Z) : Z :=
  match l with [] => 0 | b :: l => weight odd * b + ones (negb odd) l end.

Lemma weight_cases o : weight o = 1 /\ weight (negb o) = 256 \/ weight o = 256 /\ weight (negb o) = 1.
Proof. unfold weight. destruct e, o; auto. Qed.

Lemma s_util_weight c0 c1 : s_util e c0 c1 = weight false * c0 + weight true * c1.
Proof. unfold s_util, weight. destruct e; lia. Qed.

Lemma ones_app o l l' : ones o (l ++ l') = ones o l + ones (xorb o (Nat.odd (length l))) l'.
Proof.
  revert o. induction l as [|b l IH]; intros o; cbn [ones app length]; [by rewrite xorb_false_r|].
  rewrite IH, Nat.odd_succ, <- Nat.negb_odd. replace (xorb o (negb (Nat.odd (length l)))) with (xorb (negb o) (Nat.odd (length l))); [lia|].
  by destruct o, (Nat.odd (length l)).
Qed.

Lemma ones_even o l l' : Nat.Even (length l) -> ones o (l ++ l') = ones o l + ones o l'.
Proof. intros H. rewrite ones_app. apply Nat.even_spec in H. rewrite <- Nat.negb_even, H. by rewrite xorb_false_r. Qed.

Lemma ones_nonneg o l : bytes_ok l -> 0 <= ones o l.
Proof.
  intros H. revert o. induction H as [|b l Hb _ IH]; intros o; cbn [ones]; [lia|]. unfold is_u in Hb. specialize (IH (negb o)).
  destruct (weight_cases o) as [[-> _]|[-> _] ]; lia.
Qed.

Lemma ones_bound o l : bytes_ok l -> 2 * ones o l <= 65535 * Z.of_nat (length l) + 255 * (weight o - 1).
Proof.
  intros H. revert o. induction H as [|b l Hb _ IH]; intros o; cbn [ones length]; unfold is_u in *.
  - destruct (weight_cases o) as [[-> _]|[-> _] ]; lia.
  - specialize (IH (negb o)). destruct (weight_cases o) as [[-> E]|[-> E] ]; rewrite E in IH; lia.
Qed.

(** Places moved by one: the sum is multiplied by 256. *)
Lemma ones_swap o l : bytes_ok l -> ones (negb o) l mod 65535 = (256 * ones o l) mod 65535 /\ (ones (negb o) l = 0 <-> ones o l = 0).
Proof.
  intros H. revert o. induction H as [|b l Hb Hl IH]; intros o; cbn [ones]; [done|]. destruct (IH (negb o)) as [E Hz].
  unfold is_u in Hb. pose proof (ones_nonneg o l Hl). pose proof (ones_nonneg (negb o) l Hl). rewrite negb_involutive in *.
  destruct (weight_cases o) as [[-> ->]|[-> ->] ].
  - split; [|lia]. rewrite Z.mul_add_distr_l, <- (Zplus_mod_idemp_r (256 * ones (negb o) l)), <- E, Zplus_mod_idemp_r. f_equal. lia.
  - split; [|lia]. rewrite Z.mul_add_distr_l, <- (Zplus_mod_idemp_r (256 * ones (negb o) l)), <- E, Zplus_mod_idemp_r.
    replace (256 * (256 * b) + ones o l) with (1 * b + ones o l + b * 65535) by lia. by rewrite Z.mod_add.
Qed.

(** ** What a sum stands for *)

Definition stands (s v : Z) : Prop := 0 <= s /\ 0 <= v /\ s mod 65535 = v mod 65535 /\ (s = 0 <-> v = 0).

Lemma stands_add s v x : stands s v -> 0 <= x -> stands (s + x) (v + x).
Proof. intros (H1 & H2 & E & Hz) Hx. unfold stands. conj; try lia. by rewrite <- Zplus_mod_idemp_l, E, Zplus_mod_idemp_l. Qed.

Lemma stands_trans s v w : stands s v -> v mod 65535 = w mod 65535 -> (v = 0 <-> w = 0) -> 0 <= w -> stands s w.
Proof. intros (H1 & H2 & E & Hz) Ew Hw H. unfold stands. conj; try done; [congruence|tauto..]. Qed.

(** ** Words of the machine *)

Lemma u32_s32 x : u32 (s32 x) = u32 x.
Proof. unfold u32, s32, swrap, wrap. rewrite Zminus_mod_idemp_l. f_equal. lia. Qed.

Lemma REDUCE_spec s v : stands s v -> s < 2 ^ 32 -> stands (REDUCE (s32 s)) v /\ REDUCE (s32 s) <= 65535.
Proof.
  intros (H1 & H2 & E & Hz) Hb. unfold REDUCE. rewrite u32_s32, u32_small by (unfold is_u; lia).
  pose proof (Z.div_mod s 65536 ltac:(lia)) as Hd. pose proof (Z.mod_pos_bound s 65536 ltac:(lia)) as Hm.
  assert (0 <= s / 65536 < 65536) as Hq by (split; [apply Z.div_pos; lia|apply Z.div_lt_upper_bound; lia]).
  generalize dependent (s / 65536). generalize dependent (s mod 65536). intros r Hr q Hs Hq.
  assert ((r + q) mod 65535 = v mod 65535) as Em.
  { rewrite <- E, Hs. replace (65536 * q + r) with (r + q + q * 65535) by lia. by rewrite Z.mod_add. }
  cbv zeta. destruct (Z.ltb_spec 65535 (r + q)); unfold stands; conj; try lia.
  rewrite <- Em, <- (Z.mod_add (r + q - 65535) 1) by lia. f_equal. lia.
Qed.

Lemma shift_spec s v : stands s v -> s <= 65535 -> s32 (s * 256) = s32 (256 * s) /\ stands (256 * s) (256 * v) /\ 256 * s <= 65535 * 256.
Proof.
  intros (H1 & H2 & E & Hz) Hb. split; [f_equal; lia|]. split; [|lia]. unfold stands. conj; try lia.
  by rewrite <- Zmult_mod_idemp_r, E, Zmult_mod_idemp_r.
Qed.
End Sums.

(** * The loops of the Internet checksum

    What the loops over words, over one mbuf and over a chain have added up, for
    every alignment of the data. *)

(** ** The loops *)

Section Loops.
Context (e : endian) (m : m_data).

Local Notation bytes := (m_bytes m).

(** [n] bytes from [off] on. *)
Definition slice (off n : Z) : list Z := take (Z.to_nat n) (drop (Z.to_nat off) bytes).

Lemma slice_app off n n' : 0 <= off -> 0 <= n -> 0 <= n' -> slice off (n + n') = slice off n ++ slice (off + n) n'.
Proof.
  intros. unfold slice. rewrite !Z2Nat.inj_add by lia. by rewrite <- (drop_drop bytes), take_take_drop.
Qed.

Lemma slice_length off n : 0 <= off -> 0 <= n -> off + n <= m_len m -> Z.of_nat (length (slice off n)) = n.
Proof. intros. unfold slice, m_len in *. rewrite length_take, length_drop. lia. Qed.

Lemma slice_cons off n : 0 <= off -> 0 <= n -> off < m_len m -> exists b, aget bytes off = Ret b /\ slice off (n + 1) = b :: slice (off + 1) n.
Proof.
  intros. unfold m_len in *. destruct (aget_bounds bytes off) as (b & -> & Hb); [lia|]. exists b. split; [done|]. unfold slice.
  rewrite (drop_S _ _ _ Hb). replace (Z.to_nat (n + 1)) with (S (Z.to_nat n)) by lia. replace (Z.to_nat (off + 1)) with (S (Z.to_nat off)) by lia. done.
Qed.

Lemma slice_ok off n : bytes_ok bytes -> bytes_ok (slice off n).
Proof. intros H. unfold slice. auto with kernel. Qed.

Lemma slice_even off n : 0 <= off -> 0 <= n -> off + n <= m_len m -> Z.Even n -> Nat.Even (length (slice off n)).
Proof.
  intros H1 H2 H3 [k Hk]. pose proof (slice_length off n H1 H2 H3). exists (Z.to_nat k). lia.
Qed.

Lemma add_words_spec k off s : Z.odd (m_addr m + off) = false -> 0 <= off -> off + 2 * Z.of_nat k <= m_len m ->
  add_words e m off k (s32 s) = Ret (s32 (s + ones e false (slice off (2 * Z.of_nat k)))).
Proof.
  revert off s. induction k as [|k IH]; intros off s Ho H0 Hl; cbn [add_words].
  { unfold slice. simpl. by rewrite Z.add_0_r. }
  destruct (slice_cons off (2 * Z.of_nat k + 1)) as (b0 & E0 & S0); [lia..|].
  destruct (slice_cons (off + 1) (2 * Z.of_nat k)) as (b1 & E1 & S1); [lia..|].
  rewrite Ho, E0. cbn [bind]. rewrite E1. cbn [bind]. rewrite s32_add, IH; [|by rewrite Z.add_assoc, Z.odd_add, Ho|lia..].
  replace (2 * Z.of_nat (S k)) with (2 * Z.of_nat k + 1 + 1) by lia. rewrite S0, S1. cbn [ones negb].
  rewrite s_util_weight. replace (off + 1 + 1) with (off + 2) by lia. f_equal. f_equal. lia.
Qed.

Lemma add_blocks_spec k fuel off mlen s : Z.odd (m_addr m + off) = false -> 0 <= off -> 0 <= mlen -> off + mlen <= m_len m -> (0 < k)%nat ->
  mlen <= Z.of_nat fuel -> exists n r, 0 <= n /\ Z.Even n /\ mlen = n + r /\ 0 <= r < 2 * Z.of_nat k /\
  add_blocks e m k fuel off mlen (s32 s) = Ret (off + n, r - 2 * Z.of_nat k, s32 (s + ones e false (slice off n))).
Proof.
  revert off mlen s. induction fuel as [|fuel IH]; intros off mlen s Ho H0 Hm Hl Hk Hf; cbn [add_blocks];
    (destruct (Z.leb_spec 0 (mlen - 2 * Z.of_nat k)) as [Hge|Hlt];
     [|exists 0, mlen; conj; try lia; [by exists 0|]; unfold slice; simpl; by rewrite !Z.add_0_r]); [lia|].
  rewrite add_words_spec by (done || lia). cbn [bind].
  destruct (IH (off + 2 * Z.of_nat k) (mlen - 2 * Z.of_nat k) (s + ones e false (slice off (2 * Z.of_nat k)))) as (n & r & Hn & He & Hr & Hr2 & ->).
  - by rewrite Z.add_assoc, Z.odd_add_mul_2.
  - lia.
  - lia.
  - lia.
  - done.
  - lia.
  - exists (2 * Z.of_nat k + n), r. conj; try lia.
    + destruct He as [j ->]. exists (Z.of_nat k + j). lia.
    + rewrite slice_app by lia. rewrite ones_even; [do 2 f_equal; [f_equal; lia|f_equal; lia]|].
      apply slice_even; try lia. by exists (Z.of_nat k).
Qed.
End Loops.

(** ** One mbuf *)

Section Mbuf.
Context (e : endian).

(** The bytes [B] have been added, but for the one that [c_byte] keeps. *)
Definition added (B : list Z) (len : Z) (c : cksum) : Prop :=
  c_len c = len /\ bytes_ok B /\ exists s v, c_sum c = s32 s /\ stands s v /\ s <= 65535 * 257 + v /\
  if c_mlen c =? -1 then Nat.Odd (length B) /\ is_u 8 (c_byte c) /\ ones e false B = v + weight e false * c_byte c
  else Nat.Even (length B) /\ ones e false B = v.

(** So many bytes that the sum stays in 32 bits. *)
Definition few (B : list Z) : Prop := Z.of_nat (length B) <= 130000.

Lemma few_sum s B : bytes_ok B -> few B -> s <= 65535 * 257 + ones e false B -> s < 2 ^ 32.
Proof.
  intros Hb Hf Hs. pose proof (ones_bound e false B Hb) as Ho. unfold few in Hf. destruct (weight_cases e false) as [[E _]|[E _] ]; rewrite E in Ho; lia.
Qed.

Lemma few_app B l : few (B ++ l) -> few B.
Proof. unfold few. rewrite length_app. lia. Qed.

Lemma even_odd_Z n : 0 <= n -> (Z.Even n <-> Nat.Even (Z.to_nat n)).
Proof. intros H. split; intros [k Hk]; [exists (Z.to_nat k)|exists (Z.of_nat k)]; lia. Qed.

(** The first two loops. *)
Lemma words_spec m off len mlen s c0 (swapped : bool) : Z.odd (m_addr m + off) = false -> 0 <= off -> 0 <= mlen -> off + mlen <= m_len m ->
  exists n r, 0 <= n /\ Z.Even n /\ mlen = n + r /\ 0 <= r < 8 /\
  cksum_words e m off len mlen (s32 s) c0 swapped =
    let sum := s32 (s + ones e false (slice m off n)) in
    if (r =? 0) && negb swapped then Ret (Cksum sum len 0 c0)
    else
      let! (off, mlen, sum) := add_blocks e m 1 (Z.to_nat mlen) (off + n) r (REDUCE sum) in
      if swapped then
        let sum := s32 (REDUCE sum * 256) in
        if mlen =? -1 then let! c1 := aget (m_bytes m) off in Ret (Cksum (s32 (sum + s_util e c0 c1)) len 0 c0)
        else Ret (Cksum sum len (-1) c0)
      else if mlen =? -1 then let! c0 := aget (m_bytes m) off in Ret (Cksum sum len mlen c0)
      else Ret (Cksum sum len mlen c0).
Proof.
  intros Ho H0 Hm Hl. unfold cksum_words.
  destruct (add_blocks_spec e m 16 (Z.to_nat mlen) off mlen s Ho H0 Hm Hl ltac:(lia) ltac:(lia)) as (n1 & r1 & Hn1 & He1 & Hr1 & Hr1' & ->).
  cbn [bind]. replace (r1 - 2 * Z.of_nat 16 + 32) with r1 by lia.
  destruct (add_blocks_spec e m 4 (Z.to_nat mlen) (off + n1) r1 (s + ones e false (slice m off n1))) as (n2 & r2 & Hn2 & He2 & Hr2 & Hr2' & ->);
    [by rewrite Z.add_assoc, Z.odd_add_even|lia..|]. cbn [bind]. replace (r2 - 2 * Z.of_nat 4 + 8) with r2 by lia.
  exists (n1 + n2), r2. conj; try lia; [destruct He1 as [a ->], He2 as [b ->]; exists (a + b); lia|].
  rewrite slice_app by lia. rewrite (ones_even e false (slice m off n1)) by (apply slice_even; (done || lia)).
  rewrite Z.add_assoc, Z.add_assoc. destruct (Z.eqb_spec r2 0) as [->|]; done.
Qed.

Lemma s32_REDUCE s : REDUCE s = s32 (REDUCE s).
Proof.
  symmetry. apply swrap_small; [lia|]. unfold REDUCE, is_s. pose proof (u32_range s) as [H1 H2].
  pose proof (Z.mod_pos_bound (u32 s) 65536 ltac:(lia)). assert (0 <= u32 s / 65536 < 65536) by (split; [apply Z.div_pos; lia|apply Z.div_lt_upper_bound; lia]).
  case_if; lia.
Qed.

Lemma slice_last m off n : 0 <= off -> 0 <= n -> off + n < m_len m -> exists b, aget (m_bytes m) (off + n) = Ret b /\ slice m off (n + 1) = slice m off n ++ [b].
Proof.
  intros H1 H2 H3. destruct (slice_cons m (off + n) 0) as (b & Hb & Hs); [lia..|]. exists b. split; [done|]. rewrite slice_app by lia.
  change (0 + 1) with 1 in Hs. by rewrite Hs.
Qed.

(** The third loop, which leaves at most one byte. *)
Lemma last_spec m off mlen s fuel : Z.odd (m_addr m + off) = false -> 0 <= off -> 0 <= mlen -> off + mlen <= m_len m -> mlen <= Z.of_nat fuel ->
  exists n, 0 <= n /\ Z.Even n /\
  (mlen = n /\ add_blocks e m 1 fuel off mlen (s32 s) = Ret (off + n, -2, s32 (s + ones e false (slice m off n))) \/
   exists b, mlen = n + 1 /\ aget (m_bytes m) (off + n) = Ret b /\ slice m off mlen = slice m off n ++ [b] /\
     add_blocks e m 1 fuel off mlen (s32 s) = Ret (off + n, -1, s32 (s + ones e false (slice m off n)))).
Proof.
  intros Ho H0 Hm Hl Hf. destruct (add_blocks_spec e m 1 fuel off mlen s Ho H0 Hm Hl ltac:(lia) Hf) as (n & r & Hn & He & Hr & Hr' & ->).
  exists n. split; [done|]. split; [done|]. destruct (decide (r = 0)) as [->|].
  - left. split; [lia|]. done.
  - right. assert (r = 1) as -> by lia. destruct (slice_last m off n) as (b & Hb & Hs); [lia..|]. exists b. rewrite Hr. done.
Qed.

Lemma even_add (l l' : list Z) : Nat.Even (length l) -> Nat.Even (length l') -> Nat.Even (length (l ++ l')).
Proof. intros [a Ha] [b Hb]. exists (a + b)%nat. rewrite length_app. lia. Qed.

Lemma odd_snoc (l : list Z) (b : Z) : Nat.Even (length l) -> Nat.Odd (length (l ++ [b])).
Proof. intros [a Ha]. exists a. rewrite length_app. simpl. lia. Qed.

Section Words.
Context (m : m_data) (B : list Z) (off len mlen s : Z).
Context (Hm : bytes_ok (m_bytes m)) (HB : bytes_ok B) (Heven : Nat.Even (length B)).
Context (Ho : Z.odd (m_addr m + off) = false) (H0 : 0 <= off) (Hml : 0 <= mlen) (Hl : off + mlen <= m_len m).

Lemma words_plain c0 : stands s (ones e false B) -> s <= 65535 * 257 + ones e false B -> few (B ++ slice m off mlen) ->
  returns (cksum_words e m off len mlen (s32 s) c0 false) (added (B ++ slice m off mlen) len).
Proof.
  intros Hs Hb Hf. destruct (words_spec m off len mlen s c0 false Ho H0 Hml Hl) as (n & r & Hn & He & Hr & Hr' & ->). cbv zeta. cbn [negb].
  rewrite andb_true_r. pose proof (slice_ok m off n Hm) as Hok. pose proof (ones_nonneg e false _ Hok) as Hnn.
  pose proof (slice_even m off n H0 Hn ltac:(lia) He) as Hse. pose proof (stands_add _ _ _ Hs Hnn) as Hs1.
  assert (bytes_ok (B ++ slice m off mlen)) as Hall by (apply bytes_ok_app; [done|by apply slice_ok]).
  assert (slice m off mlen = slice m off n ++ slice m (off + n) r) as Hsl by (rewrite Hr; by apply slice_app; lia).
  destruct (Z.eqb_spec r 0) as [->|Hr0].
  { simpl. assert (mlen = n) as -> by lia. split; [done|]. split; [done|]. eexists _, _. split; [done|]. split; [exact Hs1|].
    rewrite ones_even by done. split; [lia|]. simpl. split; [by apply even_add|done]. }
  assert (s + ones e false (slice m off n) < 2 ^ 32) as Hlt.
  { apply (few_sum _ (B ++ slice m off n)); [by apply bytes_ok_app| |rewrite ones_even by done; lia].
    rewrite Hsl, app_assoc in Hf. by apply few_app in Hf. }
  destruct (REDUCE_spec _ _ Hs1 Hlt) as [Hs2 Hle]. rewrite s32_REDUCE.
  set (R := REDUCE (s32 (s + ones e false (slice m off n)))) in *.
  destruct (last_spec m (off + n) r R (Z.to_nat mlen)) as (n3 & Hn3 & He3 & Hcase); [by rewrite Z.add_assoc, Z.odd_add_even|lia..|].
  pose proof (slice_ok m (off + n) n3 Hm) as Hok3. pose proof (stands_add _ _ _ Hs2 (ones_nonneg e false _ Hok3)) as Hs3.
  pose proof (slice_even m (off + n) n3 ltac:(lia) Hn3) as Hse3. pose proof (ones_nonneg e false _ HB).
  destruct Hcase as [[-> ->]|(b & Hr1 & Hb1 & Hsb & ->)]; cbn [bind].
  - simpl. split; [done|]. split; [done|]. eexists _, _. split; [done|]. split; [exact Hs3|].
    rewrite Hsl, !ones_even by (done || apply even_add; (done || apply Hse3; (done || lia))). split; [lia|]. simpl.
    split; [|lia]. repeat apply even_add; try done. apply Hse3; [lia|done].
  - simpl. rewrite Hb1. cbn [bind returns]. split; [done|]. split; [done|]. eexists _, _. split; [done|]. split; [exact Hs3|].
    assert (Nat.Even (length (slice m (off + n) n3))) as Hev by (apply Hse3; [lia|done]).
    rewrite Hsl, Hsb, !app_assoc. simpl. rewrite (ones_even e false ((B ++ slice m off n) ++ slice m (off + n) n3)) by by repeat apply even_add.
    rewrite (ones_even e false (B ++ slice m off n)), (ones_even e false B) by (done || by apply even_add).
    assert (is_u 8 b) as Hbb. { rewrite Hsl, Hsb in Hall. by apply Forall_app in Hall as [_ [_ [_ ?%Forall_inv]%Forall_app]%Forall_app]. }
    cbn [ones]. unfold is_u in Hbb. destruct (weight_cases e false) as [[-> _]|[-> _] ]; (split; [lia|]);
      (split; [apply odd_snoc; by repeat apply even_add|]); (split; [done|lia]).
Qed.

(** Turning the bytes round twice. *)
Lemma swap_back v x l : 0 <= v -> bytes_ok l -> stands x (256 * v + ones e false l) -> x <= 65535 ->
  stands (256 * x) (v + ones e true l) /\ 256 * x <= 65535 * 256.
Proof.
  intros Hv Hlk Hx Hle. destruct (shift_spec x _ Hx Hle) as (_ & Hs & Hb). split; [|done].
  destruct (ones_swap e false l Hlk) as [E Hz]. cbn [negb] in E, Hz. pose proof (ones_nonneg e false l Hlk). pose proof (ones_nonneg e true l Hlk).
  eapply stands_trans; [exact Hs| |lia|lia]. rewrite <- (Zplus_mod_idemp_r (ones e true l)), E, Zplus_mod_idemp_r.
  replace (256 * (256 * v + ones e false l)) with (v + 256 * ones e false l + v * 65535) by lia. by rewrite Z.mod_add.
Qed.

Lemma ones_behind c0 l : ones e false (B ++ c0 :: l) = ones e false B + weight e false * c0 + ones e true l.
Proof. rewrite ones_even by done. cbn [ones negb]. lia. Qed.

(** The byte that is left is the first one. *)
Lemma swapped_pending l x c0 : bytes_ok l -> Nat.Even (length l) -> is_u 8 c0 -> bytes_ok (B ++ c0 :: l) ->
  stands (256 * x) (ones e false B + ones e true l) -> 256 * x <= 65535 * 256 -> added (B ++ c0 :: l) len (Cksum (s32 (256 * x)) len (-1) c0).
Proof.
  intros Hlok Hle Hc Hall Hs Hb. split; [done|]. split; [done|]. exists (256 * x), (ones e false B + ones e true l). split; [done|]. split; [done|].
  rewrite ones_behind. pose proof (ones_nonneg e true l Hlok). pose proof (ones_nonneg e false B HB). unfold is_u in Hc.
  assert (Nat.Odd (length (B ++ c0 :: l))) as Hodd.
  { destruct Heven as [a Ha], Hle as [k Hk]. exists (a + k)%nat. rewrite length_app. simpl. lia. }
  change (c_mlen (Cksum (s32 (256 * x)) len (-1) c0) =? -1) with true. cbv iota. cbn [c_byte].
  destruct (weight_cases e false) as [[-> _]|[-> _] ]; (split; [lia|]); (split; [done|]); (split; [done|lia]).
Qed.

Lemma swapped_word l x c0 b : bytes_ok l -> Nat.Even (length l) -> is_u 8 c0 -> bytes_ok (B ++ c0 :: l ++ [b]) ->
  stands (256 * x) (ones e false B + ones e true l) -> 256 * x <= 65535 * 256 ->
  added (B ++ c0 :: l ++ [b]) len (Cksum (s32 (s32 (256 * x) + s_util e c0 b)) len 0 c0).
Proof.
  intros Hlok Hle Hc Hall Hs Hb. split; [done|]. split; [done|].
  assert (is_u 8 b) as Hbb by (apply Forall_app in Hall as [_ [_ [_ ?%Forall_inv]%Forall_app]%Forall_cons]; done).
  exists (256 * x + s_util e c0 b), (ones e false B + ones e true l + s_util e c0 b). cbn [c_sum]. split; [by rewrite s32_add|].
  rewrite s_util_weight. unfold is_u in *. pose proof (ones_nonneg e true l Hlok). pose proof (ones_nonneg e false B HB).
  assert (0 <= weight e false * c0 + weight e true * b <= 65535) as Hw by (destruct (weight_cases e false) as [[-> E]|[-> E] ]; cbn [negb] in E; rewrite E; lia).
  split; [apply stands_add; [exact Hs|lia]|]. rewrite app_comm_cons, app_assoc, ones_app, ones_behind.
  assert (Nat.odd (length (B ++ c0 :: l)) = true) as ->.
  { apply Nat.odd_spec. destruct Heven as [a Ha], Hle as [k Hk]. exists (a + k)%nat. rewrite length_app. simpl. lia. }
  cbn [ones xorb negb c_mlen]. split; [lia|]. change (0 =? -1) with false. cbv iota. split; [|lia].
  destruct Heven as [a Ha], Hle as [k Hk]. exists (S (a + k)). rewrite !length_app. simpl. lia.
Qed.

Lemma words_swapped c0 : is_u 8 c0 -> stands s (256 * ones e false B) -> s <= 65535 * 256 -> few (B ++ c0 :: slice m off mlen) ->
  returns (cksum_words e m off len mlen (s32 s) c0 true) (added (B ++ c0 :: slice m off mlen) len).
Proof.
  intros Hc Hs Hb Hf. destruct (words_spec m off len mlen s c0 true Ho H0 Hml Hl) as (n & r & Hn & He & Hr & Hr' & ->). cbv zeta.
  rewrite andb_false_r. pose proof (slice_ok m off n Hm) as Hok. pose proof (ones_nonneg e false _ Hok) as Hnn.
  pose proof (slice_even m off n H0 Hn ltac:(lia) He) as Hse. pose proof (stands_add _ _ _ Hs Hnn) as Hs1.
  assert (bytes_ok (B ++ c0 :: slice m off mlen)) as Hall by (apply bytes_ok_app; [done|constructor; [done|by apply slice_ok] ]).
  assert (slice m off mlen = slice m off n ++ slice m (off + n) r) as Hsl by (rewrite Hr; by apply slice_app; lia).
  assert (s + ones e false (slice m off n) < 2 ^ 32) as Hlt.
  { apply (few_sum _ (slice m off n)); [done| |lia]. unfold few in *. rewrite length_app in Hf. cbn [length] in Hf.
    pose proof (slice_length m off n H0 Hn ltac:(lia)). pose proof (slice_length m off mlen H0 Hml Hl). lia. }
  destruct (REDUCE_spec _ _ Hs1 Hlt) as [Hs2 Hle]. rewrite s32_REDUCE. set (R := REDUCE (s32 (s + ones e false (slice m off n)))) in *.
  destruct (last_spec m (off + n) r R (Z.to_nat mlen)) as (n3 & Hn3 & He3 & Hcase); [by rewrite Z.add_assoc, Z.odd_add_even|lia..|].
  assert (n3 <= r) as Hn3r by (destruct Hcase as [[-> _]|(b & -> & _)]; lia).
  pose proof (slice_ok m (off + n) n3 Hm) as Hok3. pose proof (stands_add _ _ _ Hs2 (ones_nonneg e false _ Hok3)) as Hs3.
  pose proof (slice_even m (off + n) n3 ltac:(lia) Hn3 ltac:(lia) He3) as Hse3. pose proof (ones_nonneg e false _ HB) as HBn.
  assert (R + ones e false (slice m (off + n) n3) < 2 ^ 32) as Hlt3.
  { apply (few_sum _ (slice m (off + n) n3)); [done| |lia]. unfold few. pose proof (slice_length m (off + n) n3 ltac:(lia) Hn3 ltac:(lia)). lia. }
  destruct (REDUCE_spec _ _ Hs3 Hlt3) as [Hs4 Hle4]. set (l := slice m off n ++ slice m (off + n) n3).
  assert (bytes_ok l) as Hlok by by apply bytes_ok_app. assert (Nat.Even (length l)) as Hle' by by apply even_add.
  rewrite <- Z.add_assoc, <- ones_even in Hs4 by done. fold l in Hs4. destruct (swap_back _ _ _ HBn Hlok Hs4 Hle4) as [Hs5 Hle5].
  assert (forall x, s32 (x * 256) = s32 (256 * x)) as Hcomm by (intros x; f_equal; lia).
  destruct Hcase as [[-> ->]|(b & Hr1 & Hb1 & Hsb & ->)]; cbn [bind]; rewrite Hcomm; set (x := REDUCE _) in *.
  - assert (slice m off mlen = l) as El by (by rewrite Hsl). rewrite El in *.
    change (-2 =? -1) with false. cbv iota. cbn [returns]. by apply swapped_pending.
  - assert (slice m off mlen = l ++ [b]) as El by (by rewrite Hsl, Hsb, app_assoc). rewrite El in *.
    change (-1 =? -1) with true. cbv iota. rewrite Hb1. cbn [bind returns]. by apply swapped_word.
Qed.
End Words.

(** From a place between two words on. *)
Lemma aligned_spec m B off len mlen s c0 : bytes_ok (m_bytes m) -> bytes_ok B -> Nat.Even (length B) -> 0 <= off -> 0 <= mlen -> off + mlen <= m_len m ->
  stands s (ones e false B) -> s <= 65535 * 257 + ones e false B -> few (B ++ slice m off mlen) ->
  returns (if Z.odd (m_addr m + off) && (0 <? mlen) then
             let sum := s32 (REDUCE (s32 s) * 256) in
             let! c0 := aget (m_bytes m) off in cksum_words e m (off + 1) len (mlen - 1) sum c0 true
           else cksum_words e m off len mlen (s32 s) c0 false) (added (B ++ slice m off mlen) len).
Proof.
  intros Hm HB He H0 Hml Hl Hs Hb Hf. destruct (Z.odd (m_addr m + off)) eqn:Ho; cbn [andb]; [|by apply words_plain].
  destruct (Z.ltb_spec 0 mlen) as [Hpos|Hz].
  - destruct (slice_cons m off (mlen - 1)) as (b & Hb1 & Hsb); [lia..|]. replace (mlen - 1 + 1) with mlen in Hsb by lia.
    cbv zeta. rewrite Hb1. cbn [bind]. rewrite Hsb in *. destruct (REDUCE_spec s _ Hs) as [Hs1 Hle].
    { eapply few_sum; [exact HB| |exact Hb]. by apply few_app in Hf. }
    destruct (shift_spec _ _ Hs1 Hle) as (-> & Hs2 & Hle2).
    assert (is_u 8 b) as Hbb by (pose proof (slice_ok m off mlen Hm) as Hsl; rewrite Hsb in Hsl; by apply Forall_inv in Hsl).
    apply words_swapped; try done; try lia. rewrite Z.add_assoc, Z.odd_add, Ho. done.
  - assert (mlen = 0) as -> by lia. simpl. change (slice m off 0) with (@nil Z) in *. rewrite app_nil_r in *.
    split; [done|]. split; [done|]. exists s, (ones e false B). split; [done|]. split; [done|]. split; [done|]. simpl. done.
Qed.

Lemma cksum_mbuf_spec m start B len c : bytes_ok (m_bytes m) -> added B len c -> 0 < len -> 0 <= start < m_len m ->
  let n := Z.min len (m_len m - start) in few (B ++ slice m start n) ->
  returns (cksum_mbuf e m start c) (added (B ++ slice m start n) (len - n)).
Proof.
  intros Hm (Elen & HB & s & v & Es & Hs & Hb & Hc) Hlen Hst n Hf. unfold cksum_mbuf. rewrite Elen, Es. destruct (c_mlen c =? -1).
  - destruct Hc as (Hodd & Hcb & Hv). destruct (slice_cons m start (n - 1)) as (b & Hb1 & Hsb); [lia..|]. replace (n - 1 + 1) with n in Hsb by lia.
    rewrite Hb1. cbn [bind]. assert (is_u 8 b) as Hbb by (pose proof (slice_ok m start n Hm) as Hsl; rewrite Hsb in Hsl; by apply Forall_inv in Hsl).
    replace (if len - 1 <? m_len m - start - 1 then len - 1 else m_len m - start - 1) with (n - 1) by (destruct (Z.ltb_spec (len - 1) (m_len m - start - 1)); lia).
    rewrite s32_add. replace (len - 1 - (n - 1)) with (len - n) by lia. rewrite Hsb in *. rewrite cons_middle, app_assoc in *.
    assert (ones e false (B ++ [b]) = v + s_util e (c_byte c) b) as Ho.
    { rewrite ones_app, Hv, s_util_weight. apply Nat.odd_spec in Hodd. rewrite Hodd. simpl. lia. }
    assert (0 <= s_util e (c_byte c) b) as Hnn by (rewrite s_util_weight; unfold is_u in *; destruct (weight_cases e false) as [[-> E]|[-> E] ]; cbn [negb] in E; rewrite E; lia).
    apply aligned_spec; try done; try lia.
    + apply bytes_ok_app; [done|by constructor].
    + destruct Hodd as [k Hk]. exists (S k). rewrite length_app. simpl. lia.
    + rewrite Ho. by apply stands_add.
  - destruct Hc as [Heven Hv]. cbn [bind]. subst v.
    replace (if len <? m_len m - start then len else m_len m - start) with n by (destruct (Z.ltb_spec len (m_len m - start)); lia).
    apply aligned_spec; try done; lia.
Qed.

(** ** The chain *)

Definition flat (ms : list m_data) : list Z := concat (m_bytes <$> ms).

Lemma cksum_chain_spec ms start B len c : Forall (fun m => bytes_ok (m_bytes m)) ms -> added B len c -> 0 <= len -> 0 <= start ->
  match ms with m :: _ => start < m_len m | [] => True end \/ start = 0 ->
  let l := take (Z.to_nat len) (drop (Z.to_nat start) (flat ms)) in few (B ++ l) ->
  returns (cksum_chain e ms start c) (fun c => exists len, added (B ++ l) len c).
Proof.
  revert start B len c. induction ms as [|m ms IH]; intros start B len c Hok Hc Hlen Hst Hcase l Hf; cbn [cksum_chain].
  { unfold l, flat. rewrite fmap_nil. cbn [concat]. rewrite drop_nil, take_nil, app_nil_r. simpl. by exists len. }
  apply Forall_cons in Hok as [Hm Hok]. pose proof Hc as (El & _). rewrite El. destruct (Z.eqb_spec len 0) as [->|Hl0].
  { unfold l. simpl. rewrite app_nil_r. by exists 0. }
  destruct (Z.eqb_spec (m_len m) 0) as [Hm0|Hm0].
  { assert (start = 0) as -> by (destruct Hcase; lia). assert (flat (m :: ms) = flat ms) as Efl.
    { unfold flat, m_len in *. rewrite fmap_cons. cbn [concat]. by destruct (m_bytes m). }
    unfold l in *. rewrite Efl in *. apply (IH 0 B len c); try done. by right. }
  assert (0 <= start < m_len m) as Hst' by (unfold m_len in *; destruct Hcase; lia).
  set (n := Z.min len (m_len m - start)). assert (l = slice m start n ++ take (Z.to_nat (len - n)) (flat ms)) as El'.
  { unfold l, slice, flat. rewrite fmap_cons. cbn [concat]. unfold m_len in *. rewrite drop_app_le, take_app by lia. rewrite length_drop. f_equal.
    - destruct (Z.min_spec len (Z.of_nat (length (m_bytes m)) - start)) as [[H1 E]|[H1 E] ]; unfold n; rewrite E; [done|].
      rewrite !take_ge; [done|rewrite length_drop; lia..].
    - f_equal. lia. }
  rewrite El', app_assoc in Hf |- *. pose proof (cksum_mbuf_spec m start B len c Hm Hc ltac:(lia) Hst' (few_app _ _ Hf)) as Hmb. fold n in Hmb.
  destruct (cksum_mbuf e m start c) as [c'| | |]; try done. cbn [bind]. apply (IH 0 (B ++ slice m start n) (len - n) c'); try done; [lia|by right].
Qed.

(** The 16-bit value that stands for a sum. *)
Definition fold16 (v : Z) : Z := if v =? 0 then 0 else (v - 1) mod 65535 + 1.

Lemma fold16_stands r v : stands r v -> r <= 65535 -> r = fold16 v.
Proof.
  intros (H1 & H2 & E & Hz) Hr. unfold fold16. destruct (Z.eqb_spec v 0) as [->|Hv]; [tauto|].
  assert (r mod 65535 = v mod 65535) as E' by done. assert ((v - 1) mod 65535 = (r - 1) mod 65535) as ->.
  { by rewrite <- (Zminus_mod_idemp_l v), <- E, Zminus_mod_idemp_l. }
  rewrite Z.mod_small; lia.
Qed.

Lemma cksum_end_spec B len c : added B len c -> few B -> cksum_end e c = 65535 - fold16 (ones e false B).
Proof.
  intros (_ & HB & s & v & Es & Hs & Hb & Hc) Hf. unfold cksum_end. rewrite Es.
  assert (exists t, (if c_mlen c =? -1 then s32 (s32 s + s_util e (c_byte c) 0) else s32 s) = s32 t /\ stands t (ones e false B) /\ t <= 65535 * 257 + ones e false B)
    as (t & -> & Ht & Hbt).
  { destruct (c_mlen c =? -1).
    - destruct Hc as (_ & Hcb & Hv). exists (s + s_util e (c_byte c) 0). rewrite s32_add. split; [done|]. rewrite Hv, s_util_weight, Z.mul_0_r, Z.add_0_r.
      unfold is_u in Hcb. destruct (weight_cases e false) as [[-> _]|[-> _] ]; (split; [apply stands_add; [done|lia]|lia]).
    - destruct Hc as [_ ->]. by exists s. }
  destruct (REDUCE_spec t _ Ht (few_sum t B HB Hf Hbt)) as [Hr Hle]. rewrite <- (fold16_stands _ _ Hr Hle).
  change 65535 with (Z.ones 16) at 1. rewrite Z.land_ones by lia. destruct Hr as (H0 & _). unfold Z.lnot.
  rewrite <- (Z.mod_add _ 1), Z.mod_small by lia. lia.
Qed.
End Mbuf.
