(* ===== verification/CksumSpec.v ===== *)
(** * What the Internet checksum promises

    The checksum of RFC 1071 as a reference definition, on the bytes of a packet
    in network order; [in_cksum] and [in4_cksum] compute it for every split of
    the packet into mbufs, every alignment and both byte orders. *)

From S2P Require Import Prelude InCksum InCksumSpec.

(** ** The reference *)

(** The 16-bit words of a packet in network order, the last one padded. *)
Fixpoint net_words (l : list Z) : list Z :=
  match l with
  | c0 :: c1 :: l => 256 * c0 + c1 :: net_words l
  | [c0] => [256 * c0]
  | [] => []
  end.

(** One's complement addition: the carry goes around. *)
Definition oadd (x y : Z) : Z := let s := x + y in if s <? 65536 then s else s mod 65536 + 1.

(** The complement of the one's complement sum. *)
Definition checksum (l : list Z) : Z := 65535 - foldr oadd 0 (net_words l).

(** The number that a machine reads where the network has [x]. *)
Definition host (e : endian) (x : Z) : Z := s_util e (x / 256) (x mod 256).

(** The pseudo header of the transport protocols: addresses, protocol, length. *)
Definition pseudo_header (ip : list Z) (nxt len : Z) : list Z := take 8 (drop 12 ip) ++ [0; nxt; len / 256; len mod 256].

(** ** One's complement sums *)

Lemma fold16_spec v : 0 <= v -> stands (fold16 v) v /\ fold16 v <= 65535.
Proof.
  intros Hv. unfold fold16. destruct (Z.eqb_spec v 0) as [->|Hn]; [unfold stands; lia|]. pose proof (Z.mod_pos_bound (v - 1) 65535 ltac:(lia)).
  unfold stands. conj; try lia. rewrite Zplus_mod_idemp_l. f_equal. lia.
Qed.

Lemma fold16_cong v w : 0 <= v -> 0 <= w -> v mod 65535 = w mod 65535 -> (v = 0 <-> w = 0) -> fold16 v = fold16 w.
Proof. intros Hv Hw E Hz. destruct (fold16_spec v Hv) as [Hs Hb]. apply fold16_stands; [|done]. by apply (stands_trans _ v). Qed.

Lemma oadd_carry x y : 0 <= x <= 65535 -> 0 <= y <= 65535 -> oadd x y = if x + y <? 65536 then x + y else x + y - 65535.
Proof.
  intros Hx Hy. unfold oadd. destruct (Z.ltb_spec (x + y) 65536); [done|].
  replace (x + y) with (x + y - 65536 + 1 * 65536) at 1 by lia. rewrite Z.mod_add, Z.mod_small; lia.
Qed.

Lemma oadd_fold16 x v : is_u 16 x -> 0 <= v -> oadd x (fold16 v) = fold16 (x + v).
Proof.
  intros Hx Hv. destruct (fold16_spec v Hv) as [Hs Hb]. unfold is_u in Hx. pose proof (stands_add _ _ x Hs ltac:(lia)) as (H1 & H2 & E & Hz).
  destruct Hs as (H0 & _). rewrite oadd_carry by lia. rewrite (Z.add_comm x v), (Z.add_comm x).
  apply fold16_stands; unfold stands; destruct (Z.ltb_spec (fold16 v + x) 65536); try lia. conj; try lia.
  rewrite <- E, <- (Z.mod_add (_ - 65535) 1) by lia. f_equal. lia.
Qed.

Lemma net_sum l : bytes_ok l -> foldr oadd 0 (net_words l) = fold16 (ones Big false l).
Proof.
  induction l as [l IH] using (induction_ltof1 _ length). unfold ltof in IH. destruct l as [|c0 [|c1 l] ]; intros Hl; [done|..].
  - apply Forall_cons in Hl as [H0 _]. cbn -[oadd fold16 Z.mul Z.add]. change 0 with (fold16 0) at 1. rewrite oadd_fold16; unfold is_u in *; lia.
  - apply Forall_cons in Hl as [H0 Hl]. apply Forall_cons in Hl as [H1 Hl]. cbn [net_words foldr ones negb]. rewrite IH by (simpl; done || lia).
    rewrite oadd_fold16; [|unfold is_u in *; lia|by apply ones_nonneg]. f_equal. unfold weight. lia.
Qed.

(** ** Byte orders *)

Lemma little_big o l : ones Little o l = ones Big (negb o) l.
Proof. revert o. induction l as [|b l IH]; intros o; cbn [ones]; [done|]. rewrite IH. by destruct o. Qed.

Lemma fold16_swap v : 0 <= v -> fold16 (256 * v) = 256 * (fold16 v mod 256) + fold16 v / 256.
Proof.
  intros Hv. destruct (fold16_spec v Hv) as [(H1 & _ & E & Hz) Hb]. generalize dependent (fold16 v). intros r H1 E Hz Hb.
  pose proof (Z.div_mod r 256 ltac:(lia)) as Hd. pose proof (Z.mod_pos_bound r 256 ltac:(lia)). pose proof (Z.div_pos r 256 H1 ltac:(lia)).
  symmetry. apply fold16_stands; [|lia]. unfold stands. conj; try lia.
  rewrite <- Zmult_mod_idemp_r, <- E, Zmult_mod_idemp_r, <- (Z.mod_add _ (r / 256) 65535) by lia. f_equal. lia.
Qed.

Lemma host_checksum e l : bytes_ok l -> 65535 - fold16 (ones e false l) = host e (checksum l).
Proof.
  intros Hl. unfold host, checksum. rewrite net_sum by done. pose proof (ones_nonneg Big false l Hl) as Hn. destruct (fold16_spec _ Hn) as [(H1 & _) Hb].
  destruct e; unfold s_util.
  - rewrite little_big. destruct (ones_swap Big false l Hl) as [E Hz]. rewrite (fold16_cong _ (256 * ones Big false l)); [|by apply ones_nonneg|lia|done|lia].
    rewrite fold16_swap by done. generalize dependent (fold16 (ones Big false l)). intros r H1 Hb.
    Z.to_euclidean_division_equations. lia.
  - pose proof (Z.div_mod (65535 - fold16 (ones Big false l)) 256 ltac:(lia)). lia.
Qed.

(** ** The routines *)

Definition chain_ok (ms : list m_data) : Prop := Forall (fun m => bytes_ok (m_bytes m)) ms.

Lemma flat_ok ms : chain_ok ms -> bytes_ok (flat ms).
Proof. intros H. unfold bytes_ok, flat. rewrite Forall_concat. by apply Forall_fmap. Qed.

Lemma take_few len (l : list Z) : 0 <= len <= 65535 -> Z.of_nat (length (take (Z.to_nat len) l)) <= 65535.
Proof. rewrite length_take. lia. Qed.

Lemma added_nothing e len : added e [] len (Cksum 0 len 0 0).
Proof. split; [done|]. split; [constructor|]. exists 0, 0. unfold stands. conj; try done. simpl. split; [by exists 0%nat|done]. Qed.

Lemma chain_result e ms start B len c : chain_ok ms -> added e B len c -> 0 <= len <= 65535 -> 0 <= start -> Z.of_nat (length B) <= 60000 ->
  match ms with m :: _ => start < m_len m | [] => True end \/ start = 0 ->
  (let! c := cksum_chain e ms start c in Ret (cksum_end e c)) = Ret (host e (checksum (B ++ take (Z.to_nat len) (drop (Z.to_nat start) (flat ms))))).
Proof.
  intros Hok Hc Hlen Hst HB Hcase. set (l := take _ _). assert (few (B ++ l)) as Hf.
  { unfold few. rewrite length_app. pose proof (take_few len (drop (Z.to_nat start) (flat ms)) Hlen). unfold l. lia. }
  pose proof (cksum_chain_spec e ms start B len c Hok Hc ltac:(lia) Hst Hcase Hf) as Hr. apply returns_Ret in Hr as (c' & -> & len' & Hc'). cbn [bind].
  rewrite (cksum_end_spec e _ _ _ Hc' Hf). f_equal. apply host_checksum. by destruct Hc' as (_ & ? & _).
Qed.

Lemma in_cksum_result e ms len : chain_ok ms -> 0 <= len <= 65535 -> in_cksum e ms len = Ret (host e (checksum (take (Z.to_nat len) (flat ms)))).
Proof. intros Hok Hlen. apply (chain_result e ms 0 []); try done; [apply added_nothing|by right]. Qed.

(** ** The pseudo header *)

Lemma cksum_skip_spec ms off : 0 <= off -> exists ms' off', cksum_skip ms off = (ms', off') /\ 0 <= off' /\ drop (Z.to_nat off) (flat ms) = drop (Z.to_nat off') (flat ms') /\
  (match ms' with m :: _ => off' < m_len m | [] => True end \/ off' = 0) /\ (chain_ok ms -> chain_ok ms').
Proof.
  revert off. induction ms as [|m ms IH]; intros off Hoff; cbn [cksum_skip]; [exists [], off; conj; try done; by left|].
  destruct (Z.leb_spec off 0) as [H0|H0]; cbn [orb]; [exists (m :: ms), off; conj; try done; right; lia|].
  destruct (Z.ltb_spec off (m_len m)) as [Hm|Hm]; [exists (m :: ms), off; conj; try done; by left|].
  unfold m_len in *. destruct (IH (off - Z.of_nat (length (m_bytes m))) ltac:(lia)) as (ms' & off' & E & H1 & Ed & Hc & Hok). exists ms', off'. conj; try done.
  - rewrite <- Ed. unfold flat. rewrite fmap_cons. cbn [concat]. rewrite drop_app_ge by lia. f_equal. lia.
  - intros H. apply Hok. by apply Forall_cons in H as [_ H].
Qed.

Section Pseudo.
Context (e : endian) (nxt len : Z) (ip : list Z) (Hnxt : is_u 8 nxt) (Hlen : 0 <= len <= 65535) (Hip : bytes_ok ip) (Hl : (20 <= length ip)%nat).

Lemma ipovly_eq : ipovly nxt len ip = replicate 9 0 ++ [nxt; len / 256; len mod 256] ++ take 8 (drop 12 ip).
Proof. unfold ipovly. unfold u8. rewrite wrap_small by done. rewrite u16_small by (unfold is_u; lia). done. Qed.

Lemma ipovly_length : length (ipovly nxt len ip) = 20%nat.
Proof. rewrite ipovly_eq. rewrite !length_app, length_take, length_drop. simpl length. lia. Qed.

Lemma pseudo_ok : bytes_ok (ipovly nxt len ip) /\ bytes_ok (pseudo_header ip nxt len).
Proof.
  rewrite ipovly_eq. unfold pseudo_header. assert (bytes_ok (take 8 (drop 12 ip))) as Ha by by apply Forall_take, Forall_drop.
  assert (is_u 8 (len / 256) /\ is_u 8 (len mod 256)) as [H1 H2] by (unfold is_u; Z.to_euclidean_division_equations; lia).
  split; unfold bytes_ok in *; repeat (apply Forall_app; split); try done; repeat (apply Forall_cons; split); done.
Qed.

Lemma ipovly_added len' : exists s, add_words e (M_data 0 (ipovly nxt len ip)) 0 10 0 = Ret s /\ added e (ipovly nxt len ip) len' (Cksum s len' 0 0).
Proof.
  pose proof pseudo_ok as [Hb _]. exists (s32 (0 + ones e false (ipovly nxt len ip))). split.
  - change 0 with (s32 0) at 3. rewrite add_words_spec; [|done|done|unfold m_len; cbn [m_bytes]; rewrite ipovly_length; done].
    do 3 f_equal. unfold slice. cbn [m_bytes]. by rewrite drop_0, take_ge by (rewrite ipovly_length; lia).
  - split; [done|]. split; [done|]. exists (ones e false (ipovly nxt len ip)), (ones e false (ipovly nxt len ip)).
    pose proof (ones_nonneg e false _ Hb). unfold stands. conj; try done; try lia. change (c_mlen (Cksum (s32 (0 + ones e false (ipovly nxt len ip))) len' 0 0) =? -1) with false. cbv iota. split; [|done]. exists 10%nat. by rewrite ipovly_length.
Qed.

Lemma checksum_pseudo l : bytes_ok l -> checksum (ipovly nxt len ip ++ l) = checksum (pseudo_header ip nxt len ++ l).
Proof.
  intros Hb. destruct pseudo_ok as [H1 H2]. unfold checksum. rewrite !net_sum by by apply Forall_app. f_equal. f_equal.
  assert (length (take 8 (drop 12 ip)) = 8%nat) as H8 by (rewrite length_take, length_drop; lia).
  rewrite ipovly_eq. unfold pseudo_header. rewrite <- !app_assoc.
  rewrite !app_assoc, (ones_even _ _ _ l), (ones_even _ _ _ l); [|exists 6%nat; rewrite length_app, H8; done|exists 10%nat; rewrite !length_app, H8; done].
  f_equal. rewrite (ones_even _ _ (take 8 _)) by (rewrite H8; by exists 4%nat). rewrite (ones_even _ _ (_ ++ _)) by by exists 6%nat. simpl. lia.
Qed.
End Pseudo.

(** ** A packet with its checksum *)

(** The two bytes of memory where the machine stores a word. *)
Definition field (e : endian) (x : Z) : list Z := match e with Little => [x mod 256; x / 256] | Big => [x / 256; x mod 256] end.

Lemma checksum_u16 l : bytes_ok l -> is_u 16 (checksum l).
Proof.
  intros Hl. unfold checksum. rewrite net_sum by done. destruct (fold16_spec _ (ones_nonneg Big false l Hl)) as [(H & _) Hb]. unfold is_u. lia.
Qed.

Lemma field_host e y : is_u 16 y -> field e (host e y) = [y / 256; y mod 256] /\ is_u 8 (y / 256) /\ is_u 8 (y mod 256).
Proof.
  intros Hy. unfold is_u in *. assert (0 <= y / 256 < 2 ^ 8 /\ 0 <= y mod 256 < 2 ^ 8) as [H1 H2] by (Z.to_euclidean_division_equations; lia).
  split; [|done]. unfold field, host, s_util. destruct e; repeat f_equal; Z.to_euclidean_division_equations; lia.
Qed.

Lemma filled_ok a x y b : bytes_ok a -> is_u 8 x -> is_u 8 y -> bytes_ok b -> bytes_ok (a ++ x :: y :: b).
Proof. intros Ha Hx Hy Hb. apply Forall_app. auto. Qed.

Lemma checksum_filled a b : bytes_ok a -> bytes_ok b -> Nat.Even (length a) -> let y := checksum (a ++ 0 :: 0 :: b) in
  checksum (a ++ y / 256 :: y mod 256 :: b) = 0.
Proof.
  intros Ha Hb He y. assert (bytes_ok (a ++ 0 :: 0 :: b)) as Hl by by apply filled_ok.
  pose proof (checksum_u16 _ Hl) as Hy. fold y in Hy. destruct (field_host Big y Hy) as (_ & H1 & H2).
  unfold checksum. rewrite net_sum by by apply filled_ok. rewrite ones_even by done. cbn [ones negb].
  unfold y, checksum in *. rewrite net_sum in * by done. rewrite ones_even in * by done. cbn [ones negb] in *. clear y.
  pose proof (ones_nonneg Big false a Ha). pose proof (ones_nonneg Big false b Hb). unfold weight in *. rewrite !Z.mul_0_r, !Z.add_0_l in *.
  set (v := ones Big false a + ones Big false b) in *. destruct (fold16_spec v ltac:(lia)) as [(Hr & _ & E & Hz) Hb'].
  set (y := 65535 - fold16 v) in *. pose proof (Z.div_mod y 256 ltac:(lia)).
  replace (_ + _) with (v + y) by lia. rewrite <- (fold16_stands 65535 (v + y)); [lia| |lia]. unfold stands. conj; try lia.
  rewrite <- Zplus_mod_idemp_l, <- E, Zplus_mod_idemp_l. f_equal. lia.
Qed.

(** ** Claims *)

(** C11. Whatever the split into mbufs, the alignment of their data and the byte order
    of the machine, [in_cksum] faults nowhere and returns the checksum of RFC
    1071 of the first [len] bytes of the chain (all of them, if there are fewer),
    as the number that stores as the checksum in network order. *)
Theorem in_cksum_correct e ms len : chain_ok ms -> 0 <= len <= 65535 ->
  in_cksum e ms len = Ret (host e (checksum (take (Z.to_nat len) (flat ms)))).
Proof. apply in_cksum_result. Qed.

(** Three mbufs, two of them at odd addresses, and words that straddle them. *)
Definition odd_chain : list m_data :=
  [M_data 1 [1; 2; 3; 4; 5]; M_data 0 []; M_data 8 (replicate 40 255 ++ [7]); M_data 3 [9; 200; 3]].

Lemma in_cksum_correct_witness : chain_ok odd_chain /\ in_cksum Little odd_chain 48 = Ret (host Little (checksum (take 48 (flat odd_chain)))).
Proof.
  assert (chain_ok odd_chain) as H by (unfold chain_ok; compute_decide). split; [done|]. by apply (in_cksum_correct Little odd_chain 48); [|lia].
Defined.

(** [in4_cksum] for a chain with at least one mbuf: it panics exactly when an
    offset or a first mbuf is too short for the headers of a transport protocol,
    and otherwise returns the checksum of the pseudo header and the [len] bytes
    behind [off]; without a protocol, of those bytes alone. *)
Theorem in4_cksum_correct e m ms nxt off len : chain_ok (m :: ms) -> is_u 8 nxt -> 0 <= off -> 0 <= len <= 65535 ->
  let data := take (Z.to_nat len) (drop (Z.to_nat off) (flat (m :: ms))) in
  in4_cksum e (m :: ms) nxt off len =
    if nxt =? 0 then Ret (host e (checksum data))
    else if off <? 20 then Panic "in4_cksum: offset too short"
    else if m_len m <? 20 then Panic "in4_cksum: bad mbuf chain"
    else Ret (host e (checksum (pseudo_header (m_bytes m) nxt len ++ data))).
Proof.
  intros Hok Hn Hoff Hlen data. unfold in4_cksum. rewrite (proj2 (Z.leb_le 0 off) Hoff). cbn [andb].
  destruct (cksum_skip_spec (m :: ms) off Hoff) as (ms' & off' & -> & H0 & Ed & Hcase & Hok'). specialize (Hok' Hok).
  destruct (nxt =? 0); cbn [negb].
  - cbn [bind]. rewrite (chain_result e ms' off' [] len); try done; [by unfold data; rewrite Ed|apply added_nothing].
  - destruct (off <? 20); [done|]. destruct (Z.ltb_spec (m_len m) 20) as [|Hm]; [done|]. unfold m_len in Hm.
    assert (bytes_ok (m_bytes m)) as Hip by by apply Forall_cons in Hok as [? _].
    destruct (ipovly_added e nxt len (m_bytes m) Hn Hlen Hip ltac:(lia) len) as (s & -> & Ha). cbn [bind].
    rewrite (chain_result e ms' off' _ len _ Hok' Ha Hlen H0); [|rewrite ipovly_length by (done || lia); lia|done].
    rewrite <- Ed, checksum_pseudo; try done; [lia|]. by apply Forall_take, Forall_drop, flat_ok.
Qed.

(** A datagram of eight bytes behind a header of 20, in two mbufs. *)
Definition datagram : list m_data :=
  [M_data 0 ([69; 0; 0; 28; 0; 0; 0; 0; 64; 17; 0; 0] ++ [10; 0; 0; 1; 10; 0; 0; 2] ++ [0; 53; 0]); M_data 5 [53; 0; 8; 0; 0] ].

Lemma in4_cksum_correct_witness : chain_ok datagram /\
  in4_cksum Big datagram 17 20 8 = Ret (checksum ([10; 0; 0; 1; 10; 0; 0; 2] ++ [0; 17; 0; 8] ++ [0; 53; 0; 53; 0; 8; 0; 0])).
Proof.
  assert (chain_ok datagram) as H by (unfold chain_ok; compute_decide). split; [done|].
  by apply (in4_cksum_correct Big (hd (M_data 0 []) datagram) (tl datagram) 17 20 8); [|unfold is_u; lia..].
Defined.

(** C30. A packet whose checksum field held zero, and in which the result of [in_cksum]
    is then stored at its even place, passes the check of the receiver: the
    checksum of the whole is zero, also on a machine of the other byte order and
    however the packet is then split into mbufs. *)
Theorem in_cksum_verifies e e' ms ms' len a b x : chain_ok ms -> chain_ok ms' -> 0 <= len <= 65535 -> Nat.Even (length a) ->
  Z.of_nat (length a) + 2 <= len -> flat ms = a ++ [0; 0] ++ b -> in_cksum e ms len = Ret x -> flat ms' = a ++ field e x ++ b ->
  in_cksum e' ms' len = Ret 0.
Proof.
  intros Hok Hok' Hlen He Hin Ef Ex Ef'. rewrite in_cksum_result in Ex by done. injection Ex as <-. rewrite in_cksum_result by done.
  pose proof (flat_ok _ Hok) as Hfl. rewrite Ef in *. apply Forall_app in Hfl as [Ha Hb]. apply Forall_app in Hb as [_ Hb].
  set (k := (Z.to_nat len - length a - 2)%nat).
  assert (forall c0 c1 : Z, take (Z.to_nat len) (a ++ [c0; c1] ++ b) = a ++ c0 :: c1 :: take k b) as Et.
  { intros c0 c1. rewrite take_app_ge by lia. f_equal. replace (Z.to_nat len - length a)%nat with (S (S k)) by lia. done. }
  rewrite Et in Ef'. assert (bytes_ok (take k b)) as Hb' by by apply Forall_take.
  assert (bytes_ok (a ++ 0 :: 0 :: take k b)) as Hl by by apply filled_ok.
  destruct (field_host e _ (checksum_u16 _ Hl)) as (E & _). rewrite E in Ef'. rewrite Ef', Et, checksum_filled by done.
  by destruct e'.
Qed.

(** The header of a datagram, stored by a little machine and checked by a big one. *)
Definition header_before : list Z := [69; 0; 0; 28; 0; 0; 0; 0; 64; 17].
Definition header_after : list Z := [10; 0; 0; 1; 10; 0; 0; 2].

Lemma in_cksum_verifies_witness : in_cksum Big [M_data 3 (header_before ++ [102; 207]); M_data 0 header_after] 20 = Ret 0.
Proof.
  apply (in_cksum_verifies Little Big [M_data 0 (header_before ++ [0; 0] ++ header_after)] _ 20 header_before header_after 53094); try done;
    try (unfold chain_ok; compute_decide); try (simpl; lia); try (by exists 5%nat); by vm_compute.
Defined.
