(* ===== verification/Ffs.v ===== *)
(** * Cylinder groups of the fast file system

    The maps of a cylinder group and their summaries: the block operations and
    [ffs_fragacct] of [ufs/ffs/ffs_subr.c] with the tables of
    [ufs/ffs/ffs_tables.c], and the functions of [ufs/ffs/ffs_alloc.c] that
    search and change a group.  A group is the contents of its buffer: the maps
    and the arrays of counts are lists with checked accesses.  Whether a buffer
    can be read is up to the disk. *)

From S2P Require Import Prelude Bitmap.

(** ** The superblock *)

(** What does not change while the file system is mounted. *)
Record fs := Fs {
  fs_ncg : Z;                 (* # of cylinder groups *)
  fs_bsize : Z;               (* size of basic blocks / bytes *)
  fs_fsize : Z;               (* size of frag blocks / bytes *)
  fs_frag : Z;                (* # of frags in a block in fs *)
  fs_fshift : Z;              (* numfrags calc # of frags *)
  fs_fragshift : Z;           (* block to frag shift *)
  fs_fsbtodb : Z;             (* fsbtodb and dbtofsb shift constant *)
  fs_qfmask : Z;              (* ~fs_fmask *)
  fs_fpg : Z;                 (* blocks per group * fs_frag *)
  fs_ipg : Z;                 (* inodes per group *)
  fs_inopb : Z;               (* inodes per file system block *)
  fs_size : Z;                (* number of blocks in fs *)
  fs_contigsumsize : Z;       (* size of cluster summary array *)
  fs_magic : Z;
  fs_spc : Z;                 (* sectors per cylinder *)
  fs_nsect : Z;               (* sectors per track *)
  fs_npsect : Z;              (* # sectors/track including spares *)
  fs_interleave : Z;          (* hardware sector interleave *)
  fs_trackskew : Z;           (* sector 0 skew, per track *)
  fs_nrpos : Z                (* number of rotational positions *)
}.

Notation FS_UFS2_MAGIC := 0x19540119 (only parsing).
Notation MAXFRAG := 8 (only parsing).
Notation IFMT := 0xf000 (only parsing).
Notation IFDIR := 0x4000 (only parsing).

(** [struct csum]; also [struct csum_total], whose numbers have 64 bits. *)
Record csum := Csum {
  cs_ndir : Z;                (* number of directories *)
  cs_nbfree : Z;              (* number of free blocks *)
  cs_nifree : Z;              (* number of free inodes *)
  cs_nffree : Z               (* number of free frags *)
}.

(** The rest of the superblock: totals, the summary and the largest cluster of
    each group, and whether it has to be written. *)
Record incore := Incore { fs_cstotal : csum; fs_csp : list csum; fs_maxcluster : list Z; fs_fmod : bool }.

(** The part of [struct cg] that is about inodes. *)
Record inodes := Inodes {
  cg_irotor : Z;              (* position of last used inode *)
  cg_inosused : list Z;       (* used inode map *)
  cg_ffs2_niblk : Z;          (* number of inode blocks this cg *)
  cg_initediblk : Z           (* last initialized inode *)
}.

(** [struct cg] and the arrays behind it. *)
Record cg := Cg {
  cg_cgx : Z;                 (* we are the cgx'th cylinder group *)
  cg_cs : csum;               (* cylinder summary information *)
  cg_rotor : Z;               (* position of last used block *)
  cg_frotor : Z;              (* position of last used frag *)
  cg_frsum : list Z;          (* counts of available frags *)
  cg_blktot : list Z;         (* block totals per cylinder *)
  cg_blks : list Z;           (* free block positions *)
  cg_blksfree : list Z;       (* free block map *)
  cg_clustersum : list Z;     (* counts of avail clusters *)
  cg_clustersfree : list Z;   (* free cluster map *)
  cg_nclusterblks : Z;        (* number of clusters this cg *)
  cg_ino : inodes
}.

Record disk := Disk { d_fs : incore; d_cgs : list cg }.

Definition set_cs v c := Cg (cg_cgx c) v (cg_rotor c) (cg_frotor c) (cg_frsum c) (cg_blktot c) (cg_blks c) (cg_blksfree c) (cg_clustersum c) (cg_clustersfree c) (cg_nclusterblks c) (cg_ino c).
Definition set_rotor v c := Cg (cg_cgx c) (cg_cs c) v (cg_frotor c) (cg_frsum c) (cg_blktot c) (cg_blks c) (cg_blksfree c) (cg_clustersum c) (cg_clustersfree c) (cg_nclusterblks c) (cg_ino c).
Definition set_frotor v c := Cg (cg_cgx c) (cg_cs c) (cg_rotor c) v (cg_frsum c) (cg_blktot c) (cg_blks c) (cg_blksfree c) (cg_clustersum c) (cg_clustersfree c) (cg_nclusterblks c) (cg_ino c).
Definition set_frsum v c := Cg (cg_cgx c) (cg_cs c) (cg_rotor c) (cg_frotor c) v (cg_blktot c) (cg_blks c) (cg_blksfree c) (cg_clustersum c) (cg_clustersfree c) (cg_nclusterblks c) (cg_ino c).
Definition set_blkpos v w c := Cg (cg_cgx c) (cg_cs c) (cg_rotor c) (cg_frotor c) (cg_frsum c) v w (cg_blksfree c) (cg_clustersum c) (cg_clustersfree c) (cg_nclusterblks c) (cg_ino c).
Definition set_blksfree v c := Cg (cg_cgx c) (cg_cs c) (cg_rotor c) (cg_frotor c) (cg_frsum c) (cg_blktot c) (cg_blks c) v (cg_clustersum c) (cg_clustersfree c) (cg_nclusterblks c) (cg_ino c).
Definition set_clusters v w c := Cg (cg_cgx c) (cg_cs c) (cg_rotor c) (cg_frotor c) (cg_frsum c) (cg_blktot c) (cg_blks c) (cg_blksfree c) v w (cg_nclusterblks c) (cg_ino c).

Definition set_ino v c := Cg (cg_cgx c) (cg_cs c) (cg_rotor c) (cg_frotor c) (cg_frsum c) (cg_blktot c) (cg_blks c) (cg_blksfree c) (cg_clustersum c) (cg_clustersfree c) (cg_nclusterblks c) v.

Definition set_maxcluster v s := Incore (fs_cstotal s) (fs_csp s) v (fs_fmod s).
Definition modified s := Incore (fs_cstotal s) (fs_csp s) (fs_maxcluster s) true.

(** ** The tables *)

Definition around : list Z := [0x3; 0x7; 0xf; 0x1f; 0x3f; 0x7f; 0xff; 0x1ff; 0x3ff].
Definition inside : list Z := [0x0; 0x2; 0x6; 0xe; 0x1e; 0x3e; 0x7e; 0xfe; 0x1fe].

Definition fragtbl124 : list Z := [
  0x00; 0x16; 0x16; 0x2a; 0x16; 0x16; 0x26; 0x4e;
  0x16; 0x16; 0x16; 0x3e; 0x2a; 0x3e; 0x4e; 0x8a;
  0x16; 0x16; 0x16; 0x3e; 0x16; 0x16; 0x36; 0x5e;
  0x16; 0x16; 0x16; 0x3e; 0x3e; 0x3e; 0x5e; 0x9e;
  0x16; 0x16; 0x16; 0x3e; 0x16; 0x16; 0x36; 0x5e;
  0x16; 0x16; 0x16; 0x3e; 0x3e; 0x3e; 0x5e; 0x9e;
  0x2a; 0x3e; 0x3e; 0x2a; 0x3e; 0x3e; 0x2e; 0x6e;
  0x3e; 0x3e; 0x3e; 0x3e; 0x2a; 0x3e; 0x6e; 0xaa;
  0x16; 0x16; 0x16; 0x3e; 0x16; 0x16; 0x36; 0x5e;
  0x16; 0x16; 0x16; 0x3e; 0x3e; 0x3e; 0x5e; 0x9e;
  0x16; 0x16; 0x16; 0x3e; 0x16; 0x16; 0x36; 0x5e;
  0x16; 0x16; 0x16; 0x3e; 0x3e; 0x3e; 0x5e; 0x9e;
  0x26; 0x36; 0x36; 0x2e; 0x36; 0x36; 0x26; 0x6e;
  0x36; 0x36; 0x36; 0x3e; 0x2e; 0x3e; 0x6e; 0xae;
  0x4e; 0x5e; 0x5e; 0x6e; 0x5e; 0x5e; 0x6e; 0x4e;
  0x5e; 0x5e; 0x5e; 0x7e; 0x6e; 0x7e; 0x4e; 0xce;
  0x16; 0x16; 0x16; 0x3e; 0x16; 0x16; 0x36; 0x5e;
  0x16; 0x16; 0x16; 0x3e; 0x3e; 0x3e; 0x5e; 0x9e;
  0x16; 0x16; 0x16; 0x3e; 0x16; 0x16; 0x36; 0x5e;
  0x16; 0x16; 0x16; 0x3e; 0x3e; 0x3e; 0x5e; 0x9e;
  0x16; 0x16; 0x16; 0x3e; 0x16; 0x16; 0x36; 0x5e;
  0x16; 0x16; 0x16; 0x3e; 0x3e; 0x3e; 0x5e; 0x9e;
  0x3e; 0x3e; 0x3e; 0x3e; 0x3e; 0x3e; 0x3e; 0x7e;
  0x3e; 0x3e; 0x3e; 0x3e; 0x3e; 0x3e; 0x7e; 0xbe;
  0x2a; 0x3e; 0x3e; 0x2a; 0x3e; 0x3e; 0x2e; 0x6e;
  0x3e; 0x3e; 0x3e; 0x3e; 0x2a; 0x3e; 0x6e; 0xaa;
  0x3e; 0x3e; 0x3e; 0x3e; 0x3e; 0x3e; 0x3e; 0x7e;
  0x3e; 0x3e; 0x3e; 0x3e; 0x3e; 0x3e; 0x7e; 0xbe;
  0x4e; 0x5e; 0x5e; 0x6e; 0x5e; 0x5e; 0x6e; 0x4e;
  0x5e; 0x5e; 0x5e; 0x7e; 0x6e; 0x7e; 0x4e; 0xce;
  0x8a; 0x9e; 0x9e; 0xaa; 0x9e; 0x9e; 0xae; 0xce;
  0x9e; 0x9e; 0x9e; 0xbe; 0xaa; 0xbe; 0xce; 0x8a].

Definition fragtbl8 : list Z := [
  0x00; 0x01; 0x01; 0x02; 0x01; 0x01; 0x02; 0x04;
  0x01; 0x01; 0x01; 0x03; 0x02; 0x03; 0x04; 0x08;
  0x01; 0x01; 0x01; 0x03; 0x01; 0x01; 0x03; 0x05;
  0x02; 0x03; 0x03; 0x02; 0x04; 0x05; 0x08; 0x10;
  0x01; 0x01; 0x01; 0x03; 0x01; 0x01; 0x03; 0x05;
  0x01; 0x01; 0x01; 0x03; 0x03; 0x03; 0x05; 0x09;
  0x02; 0x03; 0x03; 0x02; 0x03; 0x03; 0x02; 0x06;
  0x04; 0x05; 0x05; 0x06; 0x08; 0x09; 0x10; 0x20;
  0x01; 0x01; 0x01; 0x03; 0x01; 0x01; 0x03; 0x05;
  0x01; 0x01; 0x01; 0x03; 0x03; 0x03; 0x05; 0x09;
  0x01; 0x01; 0x01; 0x03; 0x01; 0x01; 0x03; 0x05;
  0x03; 0x03; 0x03; 0x03; 0x05; 0x05; 0x09; 0x11;
  0x02; 0x03; 0x03; 0x02; 0x03; 0x03; 0x02; 0x06;
  0x03; 0x03; 0x03; 0x03; 0x02; 0x03; 0x06; 0x0a;
  0x04; 0x05; 0x05; 0x06; 0x05; 0x05; 0x06; 0x04;
  0x08; 0x09; 0x09; 0x0a; 0x10; 0x11; 0x20; 0x40;
  0x01; 0x01; 0x01; 0x03; 0x01; 0x01; 0x03; 0x05;
  0x01; 0x01; 0x01; 0x03; 0x03; 0x03; 0x05; 0x09;
  0x01; 0x01; 0x01; 0x03; 0x01; 0x01; 0x03; 0x05;
  0x03; 0x03; 0x03; 0x03; 0x05; 0x05; 0x09; 0x11;
  0x01; 0x01; 0x01; 0x03; 0x01; 0x01; 0x03; 0x05;
  0x01; 0x01; 0x01; 0x03; 0x03; 0x03; 0x05; 0x09;
  0x03; 0x03; 0x03; 0x03; 0x03; 0x03; 0x03; 0x07;
  0x05; 0x05; 0x05; 0x07; 0x09; 0x09; 0x11; 0x21;
  0x02; 0x03; 0x03; 0x02; 0x03; 0x03; 0x02; 0x06;
  0x03; 0x03; 0x03; 0x03; 0x02; 0x03; 0x06; 0x0a;
  0x03; 0x03; 0x03; 0x03; 0x03; 0x03; 0x03; 0x07;
  0x02; 0x03; 0x03; 0x02; 0x06; 0x07; 0x0a; 0x12;
  0x04; 0x05; 0x05; 0x06; 0x05; 0x05; 0x06; 0x04;
  0x05; 0x05; 0x05; 0x07; 0x06; 0x07; 0x04; 0x0c;
  0x08; 0x09; 0x09; 0x0a; 0x09; 0x09; 0x0a; 0x0c;
  0x10; 0x11; 0x11; 0x12; 0x20; 0x21; 0x40; 0x80].

(** [fragtbl[i]], which is null for numbers of fragments that a block cannot have. *)
Definition fragtbl (i : Z) : outcome (list Z) :=
  let! t := aget [None; Some fragtbl124; Some fragtbl124; None; Some fragtbl124; None; None; None; Some fragtbl8] i in
  match t with Some t => Ret t | None => Fault NullDeref end.

(** [scanc] of [lib/libkern/scanc.c] from [off] on: how many bytes are left at the
    first one whose entry in the table has a bit of the mask. *)
Fixpoint scanc (size : nat) (cp : list Z) (off : Z) (table : list Z) (mask : Z) : outcome Z :=
  match size with
  | O => Ret 0
  | S n =>
      let! x := aget cp off in
      let! t := aget table x in
      if Z.land t (u8 mask) =? 0 then scanc n cp (off + 1) table mask else Ret (Z.of_nat size)
  end.

(** [skpc] of [lib/libkern/skpc.c]: how many bytes are left at the first one that
    is not [mask]. *)
Fixpoint skpc (mask : Z) (size : nat) (cp : list Z) (off : Z) : outcome Z :=
  match size with
  | O => Ret 0
  | S n => let! x := aget cp off in if x =? u8 mask then skpc mask n cp (off + 1) else Ret (Z.of_nat size)
  end.

Definition howmany (x y : Z) : Z := (x + (y - 1)) `quot` y.

(** [stray] is what the group block holds around the map of the clusters, [wild]
    what [1 << -1] is on the machine, [diag] whether the kernel has option
    DIAGNOSTIC. *)
Section Ffs.
Context (f : fs) (stray : Z -> Z) (wild : Z) (diag : bool).

Local Notation frag := (fs_frag f).

(** ** Addresses *)

Definition dtog (d : Z) : Z := d `quot` fs_fpg f.
Definition dtogd (d : Z) : Z := d `rem` fs_fpg f.
Definition fsbtodb (b : Z) : Z := Z.shiftl b (fs_fsbtodb f).
Definition fragoff (loc : Z) : Z := Z.land loc (fs_qfmask f).
Definition numfrags (loc : Z) : Z := Z.shiftr loc (fs_fshift f).
Definition fragstoblks (frags : Z) : Z := Z.shiftr frags (fs_fragshift f).
Definition blkstofrags (blks : Z) : Z := Z.shiftl blks (fs_fragshift f).
Definition fragnum (fsb : Z) : Z := Z.land fsb (frag - 1).
Definition blknum (fsb : Z) : Z := Z.land fsb (Z.lnot (frag - 1)).

Definition blkmap (map : list Z) (loc : Z) : outcome Z :=
  let! x := aget map (loc `quot` NBBY) in
  Ret (Z.land (Z.shiftr x (loc `rem` NBBY)) (Z.shiftr 0xff (NBBY - frag))).

Definition cbtocylno (bno : Z) : Z := fsbtodb bno `quot` fs_spc f.
Definition cbtorpos (bno : Z) : Z :=
  if fs_nrpos f <=? 1 then 0
  else ((fsbtodb bno `rem` fs_spc f) `quot` fs_nsect f * fs_trackskew f
        + (fsbtodb bno `rem` fs_spc f) `rem` fs_nsect f * fs_interleave f)
       `rem` fs_nsect f * fs_nrpos f `quot` fs_npsect f.

(** ** Blocks of a map *)

Definition ffs_isblock (cp : list Z) (h : Z) : outcome bool :=
  if frag =? 4 then
    let mask := u8 (Z.shiftl 0x0f (Z.shiftl (Z.land h 0x1) 2)) in
    let! x := aget cp (Z.shiftr h 1) in Ret (Z.land x mask =? mask)
  else if frag =? 2 then
    let mask := u8 (Z.shiftl 0x03 (Z.shiftl (Z.land h 0x3) 1)) in
    let! x := aget cp (Z.shiftr h 2) in Ret (Z.land x mask =? mask)
  else if frag =? 1 then
    let mask := u8 (Z.shiftl 0x01 (Z.land h 0x7)) in
    let! x := aget cp (Z.shiftr h 3) in Ret (Z.land x mask =? mask)
  else let! x := aget cp h in Ret (x =? 0xff).

Definition ffs_clrblock (cp : list Z) (h : Z) : outcome (list Z) :=
  if frag =? 4 then
    let! x := aget cp (Z.shiftr h 1) in aset cp (Z.shiftr h 1) (u8 (Z.land x (Z.lnot (Z.shiftl 0x0f (Z.shiftl (Z.land h 0x1) 2)))))
  else if frag =? 2 then
    let! x := aget cp (Z.shiftr h 2) in aset cp (Z.shiftr h 2) (u8 (Z.land x (Z.lnot (Z.shiftl 0x03 (Z.shiftl (Z.land h 0x3) 1)))))
  else if frag =? 1 then
    let! x := aget cp (Z.shiftr h 3) in aset cp (Z.shiftr h 3) (u8 (Z.land x (Z.lnot (Z.shiftl 0x01 (Z.land h 0x7)))))
  else aset cp h 0.

Definition ffs_setblock (cp : list Z) (h : Z) : outcome (list Z) :=
  if frag =? 4 then
    let! x := aget cp (Z.shiftr h 1) in aset cp (Z.shiftr h 1) (u8 (Z.lor x (Z.shiftl 0x0f (Z.shiftl (Z.land h 0x1) 2))))
  else if frag =? 2 then
    let! x := aget cp (Z.shiftr h 2) in aset cp (Z.shiftr h 2) (u8 (Z.lor x (Z.shiftl 0x03 (Z.shiftl (Z.land h 0x3) 1))))
  else if frag =? 1 then
    let! x := aget cp (Z.shiftr h 3) in aset cp (Z.shiftr h 3) (u8 (Z.lor x (Z.shiftl 0x01 (Z.land h 0x7))))
  else aset cp h 0xff.

Definition ffs_isfreeblock (cp : list Z) (h : Z) : outcome bool :=
  if frag =? 4 then let! x := aget cp (Z.shiftr h 1) in Ret (Z.land x (Z.shiftl 0x0f (Z.shiftl (Z.land h 0x1) 2)) =? 0)
  else if frag =? 2 then let! x := aget cp (Z.shiftr h 2) in Ret (Z.land x (Z.shiftl 0x03 (Z.shiftl (Z.land h 0x3) 1)) =? 0)
  else if frag =? 1 then let! x := aget cp (Z.shiftr h 3) in Ret (Z.land x (Z.shiftl 0x01 (Z.land h 0x7)) =? 0)
  else let! x := aget cp h in Ret (x =? 0).

(** ** Free fragments by size *)

(** [for (pos = siz; pos <= fs->fs_frag; pos++)]. *)
Fixpoint fragacct_pos (fuel : nat) (fragmap siz pos field subfield cnt : Z) (fraglist : list Z) : outcome (list Z) :=
  if pos <=? frag then
    match fuel with
    | O => Spin
    | S fuel =>
        if Z.land fragmap field =? subfield then
          let! n := aget fraglist siz in
          let! fraglist := aset fraglist siz (s32 (n + cnt)) in
          fragacct_pos fuel fragmap siz (pos + siz + 1) (Z.shiftl (Z.shiftl field siz) 1) (Z.shiftl (Z.shiftl subfield siz) 1) cnt fraglist
        else fragacct_pos fuel fragmap siz (pos + 1) (Z.shiftl field 1) (Z.shiftl subfield 1) cnt fraglist
    end
  else Ret fraglist.

(** [for (siz = 1; siz < fs->fs_frag; siz++)]. *)
Fixpoint fragacct_siz (fuel : nat) (inblk fragmap siz cnt : Z) (fraglist : list Z) : outcome (list Z) :=
  if siz <? frag then
    match fuel with
    | O => Spin
    | S fuel =>
        if Z.land inblk (Z.shiftl 1 (siz + frag `rem` NBBY)) =? 0 then fragacct_siz fuel inblk fragmap (siz + 1) cnt fraglist
        else
          let! field := aget around siz in
          let! subfield := aget inside siz in
          let! fraglist := fragacct_pos (Z.to_nat frag) fragmap siz siz field subfield cnt fraglist in
          fragacct_siz fuel inblk fragmap (siz + 1) cnt fraglist
    end
  else Ret fraglist.

Definition ffs_fragacct (fragmap : Z) (fraglist : list Z) (cnt : Z) : outcome (list Z) :=
  let! table := fragtbl frag in
  let! x := aget table fragmap in
  fragacct_siz (Z.to_nat frag) (Z.shiftl x 1) (Z.shiftl fragmap 1) 1 cnt fraglist.

(** ** Searching a map *)

(** [for (pos = 0; pos <= fs->fs_frag - allocsiz; pos++)]. *)
Fixpoint mapsearch_pos (fuel : nat) (blk allocsiz pos field subfield : Z) : outcome (option Z) :=
  if pos <=? frag - allocsiz then
    match fuel with
    | O => Spin
    | S fuel =>
        if Z.land blk field =? subfield then Ret (Some pos)
        else mapsearch_pos fuel blk allocsiz (pos + 1) (Z.shiftl field 1) (Z.shiftl subfield 1)
    end
  else Ret None.

(** [for (i = bno + NBBY; bno < i; bno += fs->fs_frag)]. *)
Fixpoint mapsearch_blk (fuel : nat) (blksfree : list Z) (allocsiz i bno : Z) : outcome Z :=
  if bno <? i then
    match fuel with
    | O => Spin
    | S fuel =>
        let! blk := blkmap blksfree bno in
        let! field := aget around allocsiz in
        let! subfield := aget inside allocsiz in
        let! r := mapsearch_pos (Z.to_nat (frag + 1)) (Z.shiftl blk 1) allocsiz 0 field subfield in
        match r with
        | Some pos => Ret (bno + pos)
        | None => mapsearch_blk fuel blksfree allocsiz i (bno + frag)
        end
    end
  else Panic "ffs_alloccg: block not in map".

Definition ffs_mapsearch (c : cg) (bpref allocsiz : Z) : outcome (Z * cg) :=
  let start := if negb (bpref =? 0) then s32 (dtogd bpref `quot` NBBY) else cg_frotor c `quot` NBBY in
  let len := howmany (fs_fpg f) NBBY - start in
  let mask := u8 (Z.shiftl 1 (allocsiz - 1 + frag `rem` NBBY)) in
  let! table := fragtbl frag in
  let! loc := scanc (Z.to_nat (u32 len)) (cg_blksfree c) start table mask in
  let! (start, len, loc) :=
    (if loc =? 0 then
       let len := start + 1 in
       let! loc := scanc (Z.to_nat (u32 len)) (cg_blksfree c) 0 table mask in
       if loc =? 0 then Panic "ffs_alloccg: map corrupted" else Ret (0, len, loc)
     else Ret (start, len, loc)) in
  let bno := (start + len - loc) * NBBY in
  let c := set_frotor bno c in
  let! r := mapsearch_blk 8 (cg_blksfree c) allocsiz (bno + NBBY) bno in
  Ret (r, c).

(** ** Clusters *)

(** [*mapp]: the loops over the map of the clusters fetch a byte ahead. *)
Definition peek (map : list Z) (i : Z) : Z :=
  if (0 <=? i) && (i <? Z.of_nat (length map)) then default 0 (map !! Z.to_nat i) else stray i.

Definition bit_of (n : Z) : Z := if n <? 0 then wild else Z.shiftl 1 n.

(** Forward: [for (i = start; i < end; i++)]. *)
Fixpoint cluster_forw (fuel : nat) (freemap : list Z) (mapp map bit i stop : Z) : outcome Z :=
  if i <? stop then
    match fuel with
    | O => Spin
    | S fuel =>
        if Z.land map bit =? 0 then Ret i
        else if negb (Z.land i (NBBY - 1) =? NBBY - 1) then cluster_forw fuel freemap mapp map (Z.shiftl bit 1) (i + 1) stop
        else cluster_forw fuel freemap (mapp + 1) (peek freemap mapp) 1 (i + 1) stop
    end
  else Ret i.

(** Backward: [for (i = start; i > end; i--)]. *)
Fixpoint cluster_back (fuel : nat) (freemap : list Z) (mapp map bit i stop : Z) : outcome Z :=
  if stop <? i then
    match fuel with
    | O => Spin
    | S fuel =>
        if Z.land map bit =? 0 then Ret i
        else if negb (Z.land i (NBBY - 1) =? 0) then cluster_back fuel freemap mapp map (Z.shiftr bit 1) (i - 1) stop
        else cluster_back fuel freemap (mapp - 1) (peek freemap mapp) (Z.shiftl 1 (NBBY - 1)) (i - 1) stop
    end
  else Ret i.

(** The largest [i] not above [n] for which there are clusters, or 0. *)
Fixpoint cluster_max (sump : list Z) (n : nat) : outcome Z :=
  match n with
  | O => Ret 0
  | S m => let! x := aget sump (Z.of_nat n) in if 0 <? x then Ret (Z.of_nat n) else cluster_max sump m
  end.

Definition aadd (w : Z) (l : list Z) (i k : Z) : outcome (list Z) := let! x := aget l i in aset l i (swrap w (x + k)).

Definition ffs_clusteracct (s : incore) (c : cg) (blkno cnt : Z) : outcome (incore * cg) :=
  let size := fs_contigsumsize f in
  if size <=? 0 then Ret (s, c)
  else
    let! freemap := (if 0 <? cnt then setbit (cg_clustersfree c) blkno else clrbit (cg_clustersfree c) blkno) in
    (* forward *)
    let start := s32 (blkno + 1) in
    let stop := if cg_nclusterblks c <=? start + size then cg_nclusterblks c else start + size in
    let mapp := start `quot` NBBY in
    let! i := cluster_forw (Z.to_nat size) freemap (mapp + 1) (peek freemap mapp) (bit_of (start `rem` NBBY)) start stop in
    let forw := i - start in
    (* backward *)
    let start := s32 (blkno - 1) in
    let stop := if start - size <? 0 then -1 else start - size in
    let mapp := start `quot` NBBY in
    let! i := cluster_back (Z.to_nat size) freemap (mapp - 1) (peek freemap mapp) (bit_of (start `rem` NBBY)) start stop in
    let back := start - i in
    let i := if size <? back + forw + 1 then size else back + forw + 1 in
    let! sump := aadd 32 (cg_clustersum c) i cnt in
    let! sump := (if 0 <? back then aadd 32 sump back (- cnt) else Ret sump) in
    let! sump := (if 0 <? forw then aadd 32 sump forw (- cnt) else Ret sump) in
    let! i := cluster_max sump (Z.to_nat size) in
    let! maxcluster := aset (fs_maxcluster s) (cg_cgx c) i in
    Ret (set_maxcluster maxcluster s, set_clusters sump freemap c).

(** ** Counting *)

Definition add_ndir (w k : Z) (n : csum) : csum := Csum (swrap w (cs_ndir n + k)) (cs_nbfree n) (cs_nifree n) (cs_nffree n).
Definition add_nbfree (w k : Z) (n : csum) : csum := Csum (cs_ndir n) (swrap w (cs_nbfree n + k)) (cs_nifree n) (cs_nffree n).
Definition add_nifree (w k : Z) (n : csum) : csum := Csum (cs_ndir n) (cs_nbfree n) (swrap w (cs_nifree n + k)) (cs_nffree n).
Definition add_nffree (w k : Z) (n : csum) : csum := Csum (cs_ndir n) (cs_nbfree n) (cs_nifree n) (swrap w (cs_nffree n + k)).

(** A number changes in the group, in the total and in the summary of group [i]. *)
Definition tally_csum (add : Z -> Z -> csum -> csum) (i k : Z) (s : incore) (c : cg) : outcome (incore * cg) :=
  let! n := aget (fs_csp s) i in
  let! csp := aset (fs_csp s) i (add 32 k n) in
  Ret (Incore (add 64 k (fs_cstotal s)) csp (fs_maxcluster s) (fs_fmod s), set_cs (add 32 k (cg_cs c)) c).

(** The free blocks by cylinder and rotational position, in the old format. *)
Definition tally_pos (c : cg) (bno k : Z) : outcome cg :=
  if fs_magic f =? FS_UFS2_MAGIC then Ret c
  else
    let cylno := s32 (cbtocylno bno) in
    let! blks := aadd 16 (cg_blks c) (cylno * fs_nrpos f + cbtorpos bno) k in
    let! blktot := aadd 32 (cg_blktot c) cylno k in
    Ret (set_blkpos blktot blks c).

(** ** Allocation *)

(** [for (i = 0; i < n; i++) setbit(map, bno + i)] and the like. *)
Fixpoint set_frags (map : list Z) (bno : Z) (n : nat) : outcome (list Z) :=
  match n with O => Ret map | S n => let! map := setbit map bno in set_frags map (bno + 1) n end.
Fixpoint clr_frags (map : list Z) (bno : Z) (n : nat) : outcome (list Z) :=
  match n with O => Ret map | S n => let! map := clrbit map bno in clr_frags map (bno + 1) n end.

Definition ffs_alloccgblk (s : incore) (c : cg) (bpref : Z) : outcome (Z * incore * cg) :=
  let! (bno, c) :=
    (if (bpref =? 0) || negb (dtog bpref =? cg_cgx c) then
       let! (bno, c) := ffs_mapsearch c (cg_rotor c) frag in Ret (bno, set_rotor bno c)
     else
       let bpref := blknum bpref in
       let bno := dtogd bpref in
       let! free := ffs_isblock (cg_blksfree c) (fragstoblks bno) in
       if free then Ret (bno, c)
       else let! (bno, c) := ffs_mapsearch c bpref frag in Ret (bno, set_rotor bno c)) in
  let blkno := fragstoblks bno in
  let! map := ffs_clrblock (cg_blksfree c) blkno in
  let! (s, c) := ffs_clusteracct s (set_blksfree map c) blkno (-1) in
  let! (s, c) := tally_csum add_nbfree (cg_cgx c) (-1) s c in
  let! c := tally_pos c bno (-1) in
  Ret (cg_cgx c * fs_fpg f + bno, modified s, c).

(** [for (allocsiz = frags; allocsiz < fs->fs_frag; allocsiz++)]. *)
Fixpoint frsum_from (fuel : nat) (frsum : list Z) (allocsiz : Z) : outcome Z :=
  if allocsiz <? frag then
    match fuel with
    | O => Spin
    | S fuel => let! n := aget frsum allocsiz in if negb (n =? 0) then Ret allocsiz else frsum_from fuel frsum (allocsiz + 1)
    end
  else Ret allocsiz.

(** [read] says which groups can be read from the disk. *)
Definition ffs_cgread (read : Z -> bool) (d : disk) (i : Z) : outcome (option cg) :=
  if read i then let! c := aget (d_cgs d) i in Ret (Some c) else Ret None.

(** [bdwrite]. *)
Definition put (d : disk) (i : Z) (s : incore) (c : cg) : outcome disk :=
  let! cgs := aset (d_cgs d) i c in Ret (Disk s cgs).

Definition ffs_alloccg (read : Z -> bool) (d : disk) (i bpref size : Z) : outcome (Z * disk) :=
  let! n := aget (fs_csp (d_fs d)) i in
  if (cs_nbfree n =? 0) && (size =? fs_bsize f) then Ret (0, d)
  else
    let! r := ffs_cgread read d i in
    match r with
    | None => Ret (0, d)
    | Some c =>
        if (cs_nbfree (cg_cs c) =? 0) && (size =? fs_bsize f) then Ret (0, d)
        else if size =? fs_bsize f then
          let! (bno, s, c) := ffs_alloccgblk (d_fs d) c bpref in
          let! d := put d i s c in Ret (bno, d)
        else
          let frags := numfrags size in
          let! allocsiz := frsum_from (Z.to_nat frag) (cg_frsum c) frags in
          if allocsiz =? frag then
            if cs_nbfree (cg_cs c) =? 0 then Ret (0, d)
            else
              let! (bno, s, c) := ffs_alloccgblk (d_fs d) c bpref in
              let bpref := dtogd bno in
              let! map := set_frags (cg_blksfree c) (bpref + frags) (Z.to_nat (frag - frags)) in
              let n := frag - frags in
              let! (s, c) := tally_csum add_nffree i n s (set_blksfree map c) in
              let! frsum := aadd 32 (cg_frsum c) n 1 in
              let! d := put d i (modified s) (set_frsum frsum c) in Ret (bno, d)
          else
            let! (bno, c) := ffs_mapsearch c bpref allocsiz in
            let! map := clr_frags (cg_blksfree c) bno (Z.to_nat frags) in
            let! (s, c) := tally_csum add_nffree i (- frags) (d_fs d) (set_blksfree map c) in
            let! frsum := aadd 32 (cg_frsum c) allocsiz (-1) in
            let! frsum := (if negb (frags =? allocsiz) then aadd 32 frsum (allocsiz - frags) 1 else Ret frsum) in
            let! d := put d i (modified s) (set_frsum frsum c) in
            Ret (i * fs_fpg f + bno, d)
    end.

(** [for (i = n; i < m; i++) if (isclr(cg_blksfree(cgp), bno + i)) break;]. *)
Fixpoint free_until (fuel : nat) (map : list Z) (bno i stop : Z) : outcome Z :=
  if i <? stop then
    match fuel with
    | O => Spin
    | S fuel => let! b := isset map (bno + i) in if b then free_until fuel map bno (i + 1) stop else Ret i
    end
  else Ret i.

(** [for (i = numfrags(fs, osize); i < frags; i++)] with the counts. *)
Fixpoint extend (n : nat) (i bno : Z) (s : incore) (c : cg) : outcome (incore * cg) :=
  match n with
  | O => Ret (s, c)
  | S n =>
      let! map := clrbit (cg_blksfree c) bno in
      let! (s, c) := tally_csum add_nffree i (-1) s (set_blksfree map c) in
      extend n i (bno + 1) s c
  end.

Definition ffs_fragextend (read : Z -> bool) (d : disk) (i bprev osize nsize : Z) : outcome (Z * disk) :=
  let! n := aget (fs_csp (d_fs d)) i in
  if cs_nffree n <? numfrags (nsize - osize) then Ret (0, d)
  else
    let frags := numfrags nsize in
    let bbase := fragnum bprev in
    if fragnum (bprev + frags - 1) <? bbase then Ret (0, d)
    else
      let! r := ffs_cgread read d i in
      match r with
      | None => Ret (0, d)
      | Some c =>
          let bno := dtogd bprev in
          let old := numfrags osize in
          let! j := free_until (Z.to_nat (frags - old)) (cg_blksfree c) bno old frags in
          if j <? frags then Ret (0, d)
          else
            let! j := free_until (Z.to_nat (frag - bbase - frags)) (cg_blksfree c) bno frags (frag - bbase) in
            let! frsum := aadd 32 (cg_frsum c) (j - old) (-1) in
            let! frsum := (if negb (j =? frags) then aadd 32 frsum (j - frags) 1 else Ret frsum) in
            let! (s, c) := extend (Z.to_nat (frags - old)) i (bno + old) (d_fs d) (set_frsum frsum c) in
            let! d := put d i (modified s) c in Ret (bprev, d)
      end.

(** [for (i = len; i <= fs->fs_contigsumsize; i++)]: the first size with clusters. *)
Fixpoint cluster_from (fuel : nat) (sump : list Z) (i : Z) : outcome Z :=
  if i <=? fs_contigsumsize f then
    match fuel with
    | O => Spin
    | S fuel => let! n := aget sump i in if 0 <? n then Ret i else cluster_from fuel sump (i + 1)
    end
  else Ret i.

(** [for (run = 0, got = bpref; got < cgp->cg_nclusterblks; got++)]: the block that
    completes a run of [len], or the end. *)
Fixpoint cluster_run (fuel : nat) (freemap : list Z) (mapp map bit run got stop len : Z) : outcome (Z * Z) :=
  if got <? stop then
    match fuel with
    | O => Spin
    | S fuel =>
        let run := if Z.land map bit =? 0 then 0 else run + 1 in
        if negb (Z.land map bit =? 0) && (run =? len) then Ret (run, got)
        else if negb (Z.land got (NBBY - 1) =? NBBY - 1) then cluster_run fuel freemap mapp map (Z.shiftl bit 1) run (got + 1) stop len
        else cluster_run fuel freemap (mapp + 1) (peek freemap mapp) 1 run (got + 1) stop len
    end
  else Ret (run, got).

(** The check of the map, in a kernel with DIAGNOSTIC. *)
Fixpoint cluster_check (map : list Z) (b : Z) (n : nat) : outcome unit :=
  match n with
  | O => Ret tt
  | S n => let! free := ffs_isblock map b in if free then cluster_check map (b + 1) n else Panic "ffs_clusteralloc: map mismatch"
  end.

(** [for (i = 0; i < len; i += fs->fs_frag)]. *)
Fixpoint cluster_take (n : nat) (s : incore) (c : cg) (bno : Z) : outcome (incore * cg) :=
  match n with
  | O => Ret (s, c)
  | S n =>
      let! (r, s, c) := ffs_alloccgblk s c bno in
      if r =? bno then cluster_take n s c (bno + frag) else Panic "ffs_clusteralloc: lost block"
  end.

Definition ffs_clusteralloc (read : Z -> bool) (d : disk) (i bpref len : Z) : outcome (Z * disk) :=
  let! m := aget (fs_maxcluster (d_fs d)) i in
  if m <? len then Ret (0, d)
  else
    let! r := ffs_cgread read d i in
    match r with
    | None => Ret (0, d)
    | Some c =>
        let! j := cluster_from (Z.to_nat (fs_contigsumsize f + 1 - len)) (cg_clustersum c) len in
        if fs_contigsumsize f <? j then
          let! j := cluster_max (cg_clustersum c) (Z.to_nat (len - 1)) in
          let! maxcluster := aset (fs_maxcluster (d_fs d)) i j in
          Ret (0, Disk (set_maxcluster maxcluster (d_fs d)) (d_cgs d))
        else
          let bpref := if negb (dtog bpref =? i) then 0 else fragstoblks (dtogd (blknum bpref)) in
          let mapp := bpref `quot` NBBY in
          let map := cg_clustersfree c in
          let n := cg_nclusterblks c in
          let! (run, got) := cluster_run (Z.to_nat (n - bpref)) map (mapp + 1) (peek map mapp) (bit_of (bpref `rem` NBBY)) 0 (s32 bpref) n len in
          if n <=? got then Ret (0, d)
          else
            let! _ := (if diag then cluster_check (cg_blksfree c) (got - run + 1) (Z.to_nat len) else Ret tt) in
            let bno := s32 (i * fs_fpg f + blkstofrags (got - run + 1)) in
            if diag && negb (dtog bno =? i) then Panic "ffs_clusteralloc: allocated out of group"
            else
              let! (s, c) := cluster_take (Z.to_nat len) (d_fs d) c bno in
              let! d := put d i s c in Ret (bno, d)
    end.

(** ** Freeing *)

(** [for (i = 0; i < frags; i++)]. *)
Fixpoint free_frags (n : nat) (map : list Z) (bno : Z) : outcome (list Z) :=
  match n with
  | O => Ret map
  | S n =>
      let! b := isset map bno in
      if b then Panic "ffs_blkfree: freeing free frag"
      else let! map := setbit map bno in free_frags n map (bno + 1)
  end.

Definition ffs_blkfree (read : Z -> bool) (d : disk) (bno size : Z) : outcome disk :=
  if (u32 (fs_bsize f) <? u32 size) || negb (fragoff size =? 0) || (frag <? fragnum bno + numfrags size) then Panic "ffs_blkfree: bad size"
  else
    let i := s32 (dtog bno) in
    if fs_size f <=? u32 bno then Ret d
    else
      let! r := ffs_cgread read d i in
      match r with
      | None => Ret d
      | Some c =>
          let bno := dtogd bno in
          let! (s, c) :=
            (if size =? fs_bsize f then
               let blkno := fragstoblks bno in
               let! used := ffs_isfreeblock (cg_blksfree c) blkno in
               if negb used then Panic "ffs_blkfree: freeing free block"
               else
                 let! map := ffs_setblock (cg_blksfree c) blkno in
                 let! (s, c) := ffs_clusteracct (d_fs d) (set_blksfree map c) blkno 1 in
                 let! (s, c) := tally_csum add_nbfree i 1 s c in
                 let! c := tally_pos c bno 1 in
                 Ret (s, c)
             else
               let bbase := bno - fragnum bno in
               let! blk := blkmap (cg_blksfree c) bbase in
               let! frsum := ffs_fragacct blk (cg_frsum c) (-1) in
               let frags := numfrags size in
               let! map := free_frags (Z.to_nat frags) (cg_blksfree c) bno in
               let! (s, c) := tally_csum add_nffree i frags (d_fs d) (set_blksfree map (set_frsum frsum c)) in
               let! blk := blkmap (cg_blksfree c) bbase in
               let! frsum := ffs_fragacct blk (cg_frsum c) 1 in
               let c := set_frsum frsum c in
               let blkno := fragstoblks bbase in
               let! whole := ffs_isblock (cg_blksfree c) blkno in
               if whole then
                 let! (s, c) := tally_csum add_nffree i (- frag) s c in
                 let! (s, c) := ffs_clusteracct s c blkno 1 in
                 let! (s, c) := tally_csum add_nbfree i 1 s c in
                 let! c := tally_pos c bbase 1 in
                 Ret (s, c)
               else Ret (s, c)) in
          put d i (modified s) c
      end.

(** The fragments of [n] that are free, for [ffs_checkblk]. *)
Fixpoint count_free (n : nat) (map : list Z) (bno free : Z) : outcome Z :=
  match n with
  | O => Ret free
  | S n => let! b := isset map bno in count_free n map (bno + 1) (if b then free + 1 else free)
  end.

Definition ffs_checkblk (read : Z -> bool) (d : disk) (bno size : Z) : outcome bool :=
  if (u32 (fs_bsize f) <? u32 size) || negb (fragoff size =? 0) then Panic "ffs_checkblk: bad size"
  else if fs_size f <=? u32 bno then Panic "ffs_checkblk: bad block"
  else
    let! r := ffs_cgread read d (s32 (dtog bno)) in
    match r with
    | None => Ret false
    | Some c =>
        let bno := dtogd bno in
        if size =? fs_bsize f then let! free := ffs_isblock (cg_blksfree c) (fragstoblks bno) in Ret (negb free)
        else
          let frags := numfrags size in
          let! free := count_free (Z.to_nat frags) (cg_blksfree c) bno 0 in
          if negb (free =? 0) && negb (free =? frags) then Panic "ffs_checkblk: partially free fragment"
          else Ret (free =? 0)
    end.

(** ** Inodes *)

(** [for (i = 1; i < (1 << NBBY); i <<= 1, ipref++)]. *)
Fixpoint inode_bit (n : nat) (map i ipref : Z) : outcome Z :=
  match n with
  | O => Panic "ffs_nodealloccg: block not in map"
  | S n => if Z.land map i =? 0 then Ret ipref else inode_bit n map (Z.shiftl i 1) (ipref + 1)
  end.

(** The search from the rotor on. *)
Definition inode_search (ino : inodes) : outcome Z :=
  let start := cg_irotor ino `quot` NBBY in
  let len := howmany (fs_ipg f - cg_irotor ino) NBBY in
  let! loc := skpc 0xff (Z.to_nat len) (cg_inosused ino) start in
  let! (start, len, loc) :=
    (if loc =? 0 then
       let len := start + 1 in
       let! loc := skpc 0xff (Z.to_nat len) (cg_inosused ino) 0 in
       if loc =? 0 then Panic "ffs_nodealloccg: map corrupted" else Ret (0, len, loc)
     else Ret (start, len, loc)) in
  let i := start + len - loc in
  let! map := aget (cg_inosused ino) i in
  inode_bit 8 map 1 (i * NBBY).

Definition ffs_nodealloccg (read : Z -> bool) (d : disk) (i ipref mode : Z) : outcome (Z * disk) :=
  let! n := aget (fs_csp (d_fs d)) i in
  if cs_nifree n =? 0 then Ret (0, d)
  else
    let! r := ffs_cgread read d i in
    match r with
    | None => Ret (0, d)
    | Some c =>
        if cs_nifree (cg_cs c) =? 0 then Ret (0, d)
        else
          let ino := cg_ino c in
          let pref := ipref `rem` fs_ipg f in
          let! used := (if negb (ipref =? 0) then isset (cg_inosused ino) pref else Ret true) in
          let! (ipref, irotor) := (if used then let! p := inode_search ino in Ret (p, p) else Ret (pref, cg_irotor ino)) in
          let inited :=
            if (fs_magic f =? FS_UFS2_MAGIC) && (cg_initediblk ino <? ipref + fs_inopb f) && (cg_initediblk ino <? cg_ffs2_niblk ino)
            then s32 (cg_initediblk ino + fs_inopb f) else cg_initediblk ino in
          let! map := setbit (cg_inosused ino) ipref in
          let! (s, c) := tally_csum add_nifree i (-1) (d_fs d) (set_ino (Inodes irotor map (cg_ffs2_niblk ino) inited) c) in
          let! (s, c) := (if Z.land mode IFMT =? IFDIR then tally_csum add_ndir i 1 s c else Ret (s, c)) in
          let! d := put d i (modified s) c in
          Ret (i * fs_ipg f + ipref, d)
    end.

Definition ffs_freefile (read : Z -> bool) (ronly : bool) (d : disk) (ino mode : Z) : outcome disk :=
  if u32 (fs_ipg f * fs_ncg f) <=? u32 ino then Panic "ffs_freefile: range"
  else
    let i := ino `quot` fs_ipg f in
    let! r := ffs_cgread read d i in
    match r with
    | None => Ret d
    | Some c =>
        let n := ino `rem` fs_ipg f in
        let map := cg_inosused (cg_ino c) in
        let! used := isset map n in
        if negb used && negb ronly then Panic "ffs_freefile: freeing free inode"
        else
          let! map := clrbit map n in
          let irotor := if n <? cg_irotor (cg_ino c) then n else cg_irotor (cg_ino c) in
          let! (s, c) := tally_csum add_nifree i 1 (d_fs d) (set_ino (Inodes irotor map (cg_ffs2_niblk (cg_ino c)) (cg_initediblk (cg_ino c))) c) in
          let! (s, c) := (if Z.land mode IFMT =? IFDIR then tally_csum add_ndir i (-1) s c else Ret (s, c)) in
          put d i (modified s) c
    end.
End Ffs.

(** ** Other groups *)

(** [ffs_hashalloc]: the group asked for, a quadratic rehash, and all others. *)
Section Hashalloc.
Context {D : Type} (ncg : Z) (allocator : D -> Z -> Z -> Z -> outcome (Z * D)).

(** [for (i = 1; i < fs->fs_ncg; i *= 2)]. *)
Fixpoint rehash (fuel : nat) (d : D) (cg i size : Z) : outcome (Z * D) :=
  if i <? ncg then
    match fuel with
    | O => Spin
    | S fuel =>
        let cg := if ncg <=? cg + i then cg + i - ncg else cg + i in
        let! (result, d) := allocator d cg 0 size in
        if negb (result =? 0) then Ret (result, d) else rehash fuel d cg (s32 (i * 2)) size
    end
  else Ret (0, d).

(** [for (i = 2; i < fs->fs_ncg; i++)]. *)
Fixpoint brute_force (n : nat) (d : D) (cg size : Z) : outcome (Z * D) :=
  match n with
  | O => Ret (0, d)
  | S n =>
      let! (result, d) := allocator d cg 0 size in
      if negb (result =? 0) then Ret (result, d)
      else brute_force n d (if cg + 1 =? ncg then 0 else cg + 1) size
  end.

Definition ffs_hashalloc (d : D) (cg pref size : Z) : outcome (Z * D) :=
  let! (result, d) := allocator d cg pref size in
  if negb (result =? 0) then Ret (result, d)
  else
    let! (result, d) := rehash 31 d cg 1 size in
    if negb (result =? 0) then Ret (result, d)
    else brute_force (Z.to_nat (ncg - 2)) d ((cg + 2) `rem` ncg) size.
End Hashalloc.
