(* ===== verification/FfsFile.v ===== *)
(** * Space and inodes for a file

    The callers of the allocators in [ufs/ffs/ffs_alloc.c]: [ffs_alloc] and
    [ffs_realloccg], which find room for a file that grows, [ffs_inode_alloc], and
    the functions that say where to look, [ffs_dirpref], [ffs1_blkpref] and
    [ffs2_blkpref].  Quotas, the buffer of a fragment and the inode that
    [VFS_VGET] returns are arguments. *)

From S2P Require Import Prelude Libkern Bitmap Ffs.

(** ** The rest of the superblock *)

Record tuning := Tuning {
  fs_minfree : Z;             (* minimum percentage of free blocks *)
  fs_dsize : Z;               (* number of data blocks in fs *)
  fs_avgfilesize : Z;         (* expected average file size *)
  fs_avgfpdir : Z;            (* expected # of files per directory *)
  fs_maxbpg : Z;              (* max # of blks per cyl group *)
  fs_nindir : Z               (* value of NINDIR *)
}.

(** A mounted file system: its disk, the optimization preference, the number of
    directories made one after the other in each group, the group found last by
    [ffs1_blkpref], and what the quota code keeps. *)
Record mounted (Q : Type) := Mounted { m_disk : disk; fs_optim : Z; fs_contigdirs : list Z; fs_cgrotor : Z; m_quota : Q }.
Arguments Mounted {Q}.
Arguments m_disk {Q}.
Arguments fs_optim {Q}.
Arguments fs_contigdirs {Q}.
Arguments fs_cgrotor {Q}.
Arguments m_quota {Q}.

Definition set_disk {Q} (d : disk) (m : mounted Q) : mounted Q := Mounted d (fs_optim m) (fs_contigdirs m) (fs_cgrotor m) (m_quota m).
Definition set_optim {Q} (o : Z) (m : mounted Q) : mounted Q := Mounted (m_disk m) o (fs_contigdirs m) (fs_cgrotor m) (m_quota m).
Definition set_contigdirs {Q} (l : list Z) (m : mounted Q) : mounted Q := Mounted (m_disk m) (fs_optim m) l (fs_cgrotor m) (m_quota m).
Definition set_cgrotor {Q} (c : Z) (m : mounted Q) : mounted Q := Mounted (m_disk m) (fs_optim m) (fs_contigdirs m) c (m_quota m).
Definition set_quota {Q} (q : Q) (m : mounted Q) : mounted Q := Mounted (m_disk m) (fs_optim m) (fs_contigdirs m) (fs_cgrotor m) q.

Notation FS_OPTTIME := 0 (only parsing).
Notation FS_OPTSPACE := 1 (only parsing).

(** [struct inode] and what is used of the inode on disk. *)
Record inode := Inode { i_number : Z; i_flag : Z; di_mode : Z; di_flags : Z; di_blocks : Z; di_gen : Z; di_db : list Z }.

Notation IN_CHANGE := 0x0002 (only parsing).
Notation IN_UPDATE := 0x0004 (only parsing).

(** The buffer of the old fragment. *)
Record buf := Buf { b_blkno : Z; b_bcount : Z; b_bufsize : Z; b_done : bool; b_data : list Z }.

(** [bzero(bp->b_data + off, n)]. *)
Fixpoint bzero (n : nat) (off : Z) (data : list Z) : outcome (list Z) :=
  match n with O => Ret data | S n => let! data := aset data off 0 in bzero n (off + 1) data end.

Definition btodb (x : Z) : Z := Z.shiftr x 9.

(** [um_fstype] is UM_UFS1 or UM_UFS2. *)
Definition charge_blocks (ufs1 : bool) (n : Z) (ip : inode) : inode :=
  Inode (i_number ip) (Z.lor (i_flag ip) (Z.lor IN_CHANGE IN_UPDATE)) (di_mode ip) (di_flags ip)
    ((if ufs1 then s32 else u64) (di_blocks ip + n)) (di_gen ip) (di_db ip).

Section File.
Context (f : fs) (t : tuning) (ufs1 diag softdep : bool) (stray : Z -> Z) (wild : Z) (read : Z -> bool).
Context {Q : Type} (quota_alloc : Q -> Z -> Z * Q) (quota_free : Q -> Z -> Q).

Definition ino_to_cg (x : Z) : Z := x `quot` fs_ipg f.
Definition cgbase (c : Z) : Z := fs_fpg f * c.

Definition freespace (s : incore) (percentreserved : Z) : Z :=
  s64 (blkstofrags f (cs_nbfree (fs_cstotal s)) + cs_nffree (fs_cstotal s) - s64 (fs_dsize t * percentreserved) `quot` 100).

Definition bad_size (size : Z) : bool := (u32 (fs_bsize f) <? u32 size) || negb (fragoff f size =? 0).

(** [ffs_alloc]: the error, and the block when there is none. *)
Definition ffs_alloc (m : mounted Q) (ip : inode) (bpref size uid : Z) : outcome (Z * Z * mounted Q * inode) :=
  let s := d_fs (m_disk m) in
  if diag && bad_size size then Panic "ffs_alloc: bad size"
  else if (size =? fs_bsize f) && (cs_nbfree (fs_cstotal s) =? 0) then Ret (ENOSPC, 0, m, ip)
  else if negb (uid =? 0) && (freespace s (fs_minfree t) <=? 0) then Ret (ENOSPC, 0, m, ip)
  else
    let (error, q) := quota_alloc (m_quota m) (btodb size) in
    let m := set_quota q m in
    if negb (error =? 0) then Ret (error, 0, m, ip)
    else
      let bpref := if fs_size f <=? bpref then 0 else bpref in
      let cg := if bpref =? 0 then ino_to_cg (i_number ip) else s32 (dtog f bpref) in
      let! (bno, d) := ffs_hashalloc (fs_ncg f) (ffs_alloccg f stray wild read) (m_disk m) cg bpref size in
      let m := set_disk d m in
      if 0 <? bno then Ret (0, bno, m, charge_blocks ufs1 (btodb size) ip)
      else Ret (ENOSPC, 0, set_quota (quota_free (m_quota m) (btodb size)) m, ip).

(** What [ffs_realloccg] asks for, and the preference from now on. *)
Definition realloc_request (m : mounted Q) (nsize : Z) : outcome (Z * mounted Q) :=
  let nffree := cs_nffree (fs_cstotal (d_fs (m_disk m))) in
  if fs_optim m =? FS_OPTSPACE then
    if (fs_minfree t <? 5) || (s64 (fs_dsize t * fs_minfree t) `quot` (2 * 100) <? nffree) then Ret (nsize, m)
    else Ret (nsize, set_optim FS_OPTTIME m)
  else if fs_optim m =? FS_OPTTIME then
    if nffree <? s64 (fs_dsize t * (fs_minfree t - 2)) `quot` 100 then Ret (fs_bsize f, m)
    else Ret (fs_bsize f, set_optim FS_OPTSPACE m)
  else Panic "ffs_realloccg: bad optim".

(** The buffer gets the new size; [blkno] is where it is to be written, [msg] the
    panic of a kernel with DIAGNOSTIC when it is too small. *)
Definition grow_buf (msg : string) (bp : buf) (blkno osize nsize : Z) : outcome buf :=
  if diag && (b_bufsize bp <? nsize) then Panic msg
  else let! data := bzero (Z.to_nat (nsize - osize)) osize (b_data bp) in Ret (Buf blkno nsize (b_bufsize bp) true data).

Definition grow_bpp (msg : string) (bpp : option buf) (blkno osize nsize : Z) : outcome (option buf) :=
  match bpp with None => Ret None | Some bp => let! bp := grow_buf msg bp blkno osize nsize in Ret (Some bp) end.

(** [ffs_realloccg].  [bpp] is [None] for a null pointer, and otherwise what
    [bread] gives: an error or the buffer. *)
Definition ffs_realloccg (m : mounted Q) (ip : inode) (lbprev bpref osize nsize uid : Z) (bpp : option (Z + buf)) :
    outcome (Z * Z * option buf * mounted Q * inode) :=
  if diag && (bad_size osize || bad_size nsize) then Panic "ffs_realloccg: bad size"
  else if negb (uid =? 0) && (freespace (d_fs (m_disk m)) (fs_minfree t) <=? 0) then Ret (ENOSPC, 0, None, m, ip)
  else
    let! bprev := aget (di_db ip) lbprev in
    if bprev =? 0 then Panic "ffs_realloccg: bad bprev"
    else
      match bpp with
      | Some (inl error) => Ret (error, 0, None, m, ip)
      | _ =>
          let bp := match bpp with Some (inr bp) => Some (Buf (b_blkno bp) osize (b_bufsize bp) (b_done bp) (b_data bp)) | _ => None end in
          let (error, q) := quota_alloc (m_quota m) (btodb (nsize - osize)) in
          let m := set_quota q m in
          if negb (error =? 0) then Ret (error, 0, None, m, ip)
          else
            let cg := s32 (dtog f bprev) in
            let! (bno, d) := ffs_fragextend f read (m_disk m) cg bprev osize nsize in
            let m := set_disk d m in
            if negb (bno =? 0) then
              if match bp with Some b => negb (b_blkno b =? fsbtodb f bno) | None => false end then Panic "ffs_realloccg: bad blockno"
              else
                let! bp := grow_bpp "ffs_realloccg: small buf" bp (fsbtodb f bno) osize nsize in
                Ret (0, bno, bp, m, charge_blocks ufs1 (btodb (nsize - osize)) ip)
            else
              let bpref := if fs_size f <=? bpref then 0 else bpref in
              let! (request, m) := realloc_request m nsize in
              let! (bno, d) := ffs_hashalloc (fs_ncg f) (ffs_alloccg f stray wild read) (m_disk m) cg bpref request in
              let m := set_disk d m in
              if bno <=? 0 then
                let m := if negb (btodb (nsize - osize) =? 0) then set_quota (quota_free (m_quota m) (btodb (nsize - osize))) m else m in
                Ret (ENOSPC, 0, None, m, ip)
              else
                let! d := (if softdep then Ret d else ffs_blkfree f stray wild read d bprev osize) in
                let! d := (if nsize <? request then ffs_blkfree f stray wild read d (bno + numfrags f nsize) (request - nsize) else Ret d) in
                let! bp := grow_bpp "ffs_realloccg: small buf 2" bp (fsbtodb f bno) osize nsize in
                Ret (0, bno, bp, set_disk d m, charge_blocks ufs1 (btodb (nsize - osize)) ip)
      end.

(** ** Where to look *)

(** The first of the [n] groups from [cg] on with [ok], or the one behind them. *)
Fixpoint first_cg (ok : Z -> outcome bool) (n : nat) (cg : Z) : outcome (bool * Z) :=
  match n with
  | O => Ret (false, cg)
  | S n => let! b := ok cg in if b then Ret (true, cg) else first_cg ok n (cg + 1)
  end.

(** [for (cg = a; cg < n; cg++)] and [for (cg = 0; cg < b; cg++)]. *)
Definition two_loops (ok : Z -> outcome bool) (a b : Z) : outcome (bool * Z) :=
  let! (found, cg) := first_cg ok (Z.to_nat (fs_ncg f - a)) a in
  if found then Ret (true, cg) else first_cg ok (Z.to_nat b) 0.

Definition csum_of (s : incore) (cg : Z) : outcome csum := aget (fs_csp s) cg.

(** The loops over the groups for a directory of the first level: the fewest
    directories among the groups that are not worse than the average. *)
Fixpoint fewest (s : incore) (avgifree avgbfree : Z) (n : nat) (cg mincg minndir : Z) : outcome (Z * Z) :=
  match n with
  | O => Ret (mincg, minndir)
  | S n =>
      let! c := csum_of s cg in
      if (cs_ndir c <? minndir) && (avgifree <=? cs_nifree c) && (avgbfree <=? cs_nbfree c)
      then fewest s avgifree avgbfree n (cg + 1) cg (cs_ndir c)
      else fewest s avgifree avgbfree n (cg + 1) mincg minndir
  end.

(** [a / b] for [int], as the sources have it. *)
Definition divide (a b : Z) : outcome Z := if b =? 0 then Fault DivByZero else Ret (s32 (a `quot` b)).

(** [ffs_dirpref]; [vroot] is whether the parent is the root, [rnd] what
    [arc4random] returns. *)
Definition ffs_dirpref (m : mounted Q) (pip : inode) (vroot : bool) (rnd : Z) : outcome Z :=
  let s := d_fs (m_disk m) in
  let avgifree := s32 (cs_nifree (fs_cstotal s) `quot` fs_ncg f) in
  let avgbfree := s32 (cs_nbfree (fs_cstotal s) `quot` fs_ncg f) in
  let avgndir := s32 (cs_ndir (fs_cstotal s) `quot` fs_ncg f) in
  if vroot then
    let prefcg := Z.land rnd (2 ^ 31 - 1) `rem` fs_ncg f in
    let! (mincg, minndir) := fewest s avgifree avgbfree (Z.to_nat (fs_ncg f - prefcg)) prefcg prefcg (fs_ipg f) in
    let! (mincg, _) := fewest s avgifree avgbfree (Z.to_nat prefcg) 0 mincg minndir in
    Ret (u32 (fs_ipg f * mincg))
  else
    let prefcg := ino_to_cg (i_number pip) in
    let maxndir := s32 (min (s32 (avgndir + fs_ipg f `quot` 16)) (fs_ipg f)) in
    let minifree := let x := avgifree - avgifree `quot` 4 in if x <? 1 then 1 else x in
    let minbfree := let x := avgbfree - avgbfree `quot` 4 in if x <? 1 then 1 else x in
    let cgsize := s32 (fs_fsize f * fs_fpg f) in
    let dirsize := s32 (fs_avgfilesize t * fs_avgfpdir t) in
    let! curdirsize := (if negb (avgndir =? 0) then divide (s32 (cgsize - s32 (avgbfree * fs_bsize f))) avgndir else Ret 0) in
    let dirsize := if dirsize <? curdirsize then curdirsize else dirsize in
    let! n := divide (s32 (avgbfree * fs_bsize f)) dirsize in
    let maxcontigdirs := s32 (min n 255) in
    let maxcontigdirs := if 0 <? fs_avgfpdir t then s32 (min maxcontigdirs (fs_ipg f `quot` fs_avgfpdir t)) else maxcontigdirs in
    let maxcontigdirs := if maxcontigdirs =? 0 then 1 else maxcontigdirs in
    let! (found, cg) := two_loops (fun cg =>
        let! c := csum_of s cg in
        if (cs_ndir c <? maxndir) && (minifree <=? cs_nifree c) && (minbfree <=? cs_nbfree c)
        then let! n := aget (fs_contigdirs m) cg in Ret (n <? maxcontigdirs)
        else Ret false) prefcg prefcg in
    let! (found, cg) :=
      (if found then Ret (true, cg)
       else two_loops (fun cg => let! c := csum_of s cg in Ret (avgifree <=? cs_nifree c)) prefcg prefcg) in
    Ret (u32 (fs_ipg f * cg)).

(** [ffs1_blkpref]: the preference, and the new rotor. *)
Definition ffs1_blkpref (m : mounted Q) (ip : inode) (lbn indx : Z) (bap : list Z) : outcome (Z * mounted Q) :=
  let s := d_fs (m_disk m) in
  let! prev := (if indx `rem` fs_maxbpg t =? 0 then Ret 0 else aget bap (indx - 1)) in
  if (indx `rem` fs_maxbpg t =? 0) || (prev =? 0) then
    if lbn <? 12 + fs_nindir t then Ret (s32 (cgbase (ino_to_cg (i_number ip)) + fs_frag f), m)
    else
      let! prev := (if indx =? 0 then Ret 0 else aget bap (indx - 1)) in
      let startcg := s32 (if (indx =? 0) || (prev =? 0) then ino_to_cg (i_number ip) + lbn `quot` fs_maxbpg t else dtog f prev + 1) `rem` fs_ncg f in
      let avgbfree := s32 (cs_nbfree (fs_cstotal s) `quot` fs_ncg f) in
      let! (found, cg) := two_loops (fun cg => let! c := csum_of s cg in Ret (avgbfree <=? cs_nbfree c)) startcg (startcg + 1) in
      if found then Ret (s32 (cgbase cg + fs_frag f), set_cgrotor cg m) else Ret (0, m)
  else Ret (s32 (prev + fs_frag f), m).

Definition ffs2_blkpref (m : mounted Q) (ip : inode) (lbn indx : Z) (bap : list Z) : outcome Z :=
  let s := d_fs (m_disk m) in
  let! prev := (if indx `rem` fs_maxbpg t =? 0 then Ret 0 else aget bap (indx - 1)) in
  if (indx `rem` fs_maxbpg t =? 0) || (prev =? 0) then
    if lbn <? 12 + fs_nindir t then Ret (cgbase (ino_to_cg (i_number ip)) + fs_frag f)
    else
      let! prev := (if indx =? 0 then Ret 0 else aget bap (indx - 1)) in
      let startcg := s32 (if (indx =? 0) || (prev =? 0) then ino_to_cg (i_number ip) + lbn `quot` fs_maxbpg t else dtog f (prev + 1)) `rem` fs_ncg f in
      let avgbfree := s32 (cs_nbfree (fs_cstotal s) `quot` fs_ncg f) in
      let! (found, cg) := two_loops (fun cg => let! c := csum_of s cg in Ret (avgbfree <=? cs_nbfree c)) startcg startcg in
      if found then Ret (cgbase cg + fs_frag f) else Ret 0
  else Ret (prev + fs_frag f).

(** ** [ffs_inode_alloc] *)

(** The generation number of an inode that is used again. *)
Definition new_gen (gen rnd : Z) : Z :=
  let gen := if negb (gen =? 0) then s32 (gen + 1) else gen in
  let gen := if gen =? 0 then Z.land rnd (2 ^ 31 - 1) else gen in
  if (gen =? 0) || (gen =? -1) then 1 else gen.

(** [vget] is what [VFS_VGET] gives for an inode number: an error or the inode. *)
Definition ffs_inode_alloc (m : mounted Q) (pip : inode) (vroot : bool) (mode rnd rnd2 : Z) (vget : Z -> Z + inode) : outcome (Z * option inode * mounted Q) :=
  if cs_nifree (fs_cstotal (d_fs (m_disk m))) =? 0 then Ret (ENOSPC, None, m)
  else
    let dir := Z.land mode IFMT =? IFDIR in
    let! ipref := (if dir then ffs_dirpref m pip vroot rnd else Ret (i_number pip)) in
    let ipref := if u32 (fs_ncg f * fs_ipg f) <=? ipref then 0 else ipref in
    let cg := ino_to_cg ipref in
    let! n := aget (fs_contigdirs m) cg in
    let n := if dir then (if n <? 255 then n + 1 else n) else (if 0 <? n then n - 1 else n) in
    let! l := aset (fs_contigdirs m) cg n in
    let m := set_contigdirs l m in
    let! (ino, d) := ffs_hashalloc (fs_ncg f) (ffs_nodealloccg f read) (m_disk m) cg ipref mode in
    let m := set_disk d m in
    if u32 ino =? 0 then Ret (ENOSPC, None, m)
    else
      match vget (u32 ino) with
      | inl error =>
          let! d := (if softdep then Ret d else ffs_freefile f read false d (u32 ino) mode) in
          Ret (error, None, set_disk d m)
      | inr ip =>
          if negb (di_mode ip =? 0) then Panic "ffs_valloc: dup alloc"
          else Ret (0, Some (Inode (i_number ip) (i_flag ip) (di_mode ip) 0 0 (new_gen (di_gen ip) rnd2) (di_db ip)), m)
      end.
End File.
