(* ===== verification/FfsMap.v ===== *)
(** * Maps and their summaries

    Block maps as numbers and sets, runs of free fragments with the tables that
    count them, [ffs_mapsearch], and the summary of the clusters. *)

From S2P Require Import Prelude Bitmap Ffs.

(** * Block maps

    The blocks of a bitmap as numbers, what the block operations of
    [ffs_subr.c] do to them, and what the tables of [ffs_tables.c] say about
    the runs of free fragments in a block. *)

(** ** Runs *)

(** The lengths of the maximal runs of [true]. *)
Fixpoint runs_from (cur : nat) (l : list bool) : list nat :=
  match l with
  | [] => match cur with O => [] | _ => [cur] end
  | true :: l => runs_from (S cur) l
  | false :: l => match cur with O => [] | _ => [cur] end ++ runs_from 0 l
  end.

Definition runs (l : list bool) : list nat := runs_from 0 l.

Definition occurrences (k : nat) (l : list nat) : Z := Z.of_nat (length (filter (eq k) l)).

(** ** Blocks *)

Definition frag_ok (F : Z) : Prop := F = 1 \/ F = 2 \/ F = 4 \/ F = 8.

Definition bits (F m : Z) : list bool := Z.testbit m <$> seqZ 0 F.

(** The runs of [k] free fragments in a block with the map [m]. *)
Definition nruns (F m k : Z) : Z := occurrences (Z.to_nat k) (runs (bits F m)).

Definition whole (F : Z) : Z := 2 ^ F - 1.

Definition byte (q : list Z) (i : Z) : Z := default 0 (q !! Z.to_nat i).

(** The map of block [b]. *)
Definition blk (F : Z) (q : list Z) (b : Z) : Z := Z.land (Z.shiftr (byte q (b * F / 8)) (b * F mod 8)) (whole F).

Lemma frag_pos F : frag_ok F -> 1 <= F <= 8.
Proof. intros [->|[->|[->| ->] ] ]; lia. Qed.

(** A block lies in one byte. *)
Lemma in_byte F b i : frag_ok F -> 0 <= i < F -> (b * F + i) / 8 = b * F / 8 /\ (b * F + i) mod 8 = b * F mod 8 + i.
Proof. intros [->|[->|[->| ->] ] ] Hi; dlia. Qed.

Lemma whole_bit F i : 0 <= F -> 0 <= i -> Z.testbit (whole F) i = (i <? F).
Proof.
  intros HF Hi. unfold whole. replace (2 ^ F - 1) with (Z.ones F) by (rewrite Z.ones_equiv; lia).
  by rewrite Z.testbit_ones_nonneg.
Qed.

Lemma blk_bit F q b i : frag_ok F -> 0 <= b -> 0 <= i < F -> Z.testbit (blk F q b) i = qbit q (b * F + i).
Proof.
  intros HF Hb Hi. pose proof (frag_pos F HF). unfold blk, qbit, byte. destruct (in_byte F b i HF Hi) as [-> ->].
  pose proof (Z.mod_pos_bound (b * F) 8 ltac:(lia)). rewrite Z.land_spec, Z.shiftr_spec, whole_bit by lia.
  rewrite (proj2 (Z.ltb_lt i F)) by lia. rewrite andb_true_r. f_equal. lia.
Qed.

Lemma blk_range F q b : frag_ok F -> 0 <= blk F q b <= whole F.
Proof.
  intros HF. pose proof (frag_pos F HF). unfold blk, whole. replace (2 ^ F - 1) with (Z.ones F) by (rewrite Z.ones_equiv; lia).
  rewrite Z.land_ones by lia. pose proof (Z.mod_pos_bound (Z.shiftr (byte q (b * F / 8)) (b * F mod 8)) (2 ^ F) ltac:(apply Z.pow_pos_nonneg; lia)).
  rewrite Z.ones_equiv. lia.
Qed.

Lemma whole_bound F : frag_ok F -> 1 <= whole F <= 255.
Proof. intros [->|[->|[->| ->] ] ]; unfold whole; lia. Qed.

(** Two maps of a block are the same when their bits are. *)
Lemma map_eq F m m' : frag_ok F -> 0 <= m <= whole F -> 0 <= m' <= whole F -> (forall i, 0 <= i < F -> Z.testbit m i = Z.testbit m' i) -> m = m'.
Proof.
  intros HF Hm Hm' H. pose proof (frag_pos F HF). apply Z.bits_inj'. intros i Hi. destruct (decide (i < F)); [apply H; lia|].
  unfold whole in *. rewrite !(is_u_high F) by (unfold is_u; lia). done.
Qed.

(** ** What is in a byte *)

Lemma byte_ok q i : bytes_ok q -> is_u 8 (byte q i).
Proof.
  intros H. unfold byte. destruct (q !! Z.to_nat i) eqn:E; simpl; [|unfold is_u; lia]. by eapply Forall_lookup_1 in E.
Qed.

Lemma byte_cases x (P : Z -> bool) : forallb P (seqZ 0 256) = true -> is_u 8 x -> P x = true.
Proof. intros H Hx. rewrite forallb_forall in H. apply H, list_elem_of_In, elem_of_seqZ. unfold is_u in Hx. lia. Qed.

Lemma lor_255 x : is_u 8 x -> Z.lor x 255 = 255.
Proof. intros H. by apply Z.eqb_eq, (byte_cases x (fun x => Z.lor x 255 =? 255)). Qed.

Lemma land_lnot_255 x : is_u 8 x -> Z.land x (Z.lnot 255) = 0.
Proof. intros H. by apply Z.eqb_eq, (byte_cases x (fun x => Z.land x (Z.lnot 255) =? 0)). Qed.

Lemma land_lnot_u8 x m : is_u 8 x -> is_u 8 (Z.land x (Z.lnot m)).
Proof.
  intros H. pose proof (is_u_high 8 x) as Hh. unfold is_u in H. apply is_u_bits; [lia|]. split; [apply Z.land_nonneg; lia|].
  intros k Hk. rewrite Z.land_spec, Hh by (unfold is_u; lia). done.
Qed.

(** ** The block operations *)

(** Decide the tests of [fs_frag]. *)
Ltac frag_test f :=
  repeat match goal with
  | |- context [fs_frag f =? ?n] => first [rewrite (proj2 (Z.eqb_eq (fs_frag f) n)) by lia | rewrite (proj2 (Z.eqb_neq (fs_frag f) n)) by lia]
  end.

Section Blocks.
Context (f : fs).

Local Notation F := (fs_frag f).

Hypothesis HF : frag_ok F.

(** The bits of block [h] in its byte. *)
Definition bmask (h : Z) : Z := Z.shiftl (Z.shiftl 1 F - 1) (h * F mod 8).

Lemma land1 h : Z.land h 1 = h mod 2.
Proof. change 1 with (Z.ones 1). by rewrite Z.land_ones. Qed.
Lemma land3 h : Z.land h 3 = h mod 4.
Proof. change 3 with (Z.ones 2). by rewrite Z.land_ones. Qed.
Lemma land7 h : Z.land h 7 = h mod 8.
Proof. change 7 with (Z.ones 3). by rewrite Z.land_ones. Qed.

Lemma mask4 h : F = 4 -> Z.shiftl 0x0f (Z.shiftl (Z.land h 0x1) 2) = bmask h /\ Z.shiftr h 1 = h * F / 8.
Proof.
  intros E. unfold bmask. rewrite E, land1, (Z.shiftl_mul_pow2 _ 2), Z.shiftr_div_pow2 by lia. change (2 ^ 1) with 2. change (2 ^ 2) with 4.
  split; [|dlia].
  replace (h mod 2 * 4) with (h * 4 mod 8) by dlia. done.
Qed.

Lemma mask2 h : F = 2 -> Z.shiftl 0x03 (Z.shiftl (Z.land h 0x3) 1) = bmask h /\ Z.shiftr h 2 = h * F / 8.
Proof.
  intros E. unfold bmask. rewrite E, land3, (Z.shiftl_mul_pow2 _ 1), Z.shiftr_div_pow2 by lia. change (2 ^ 1) with 2. change (2 ^ 2) with 4.
  split; [|dlia].
  replace (h mod 4 * 2) with (h * 2 mod 8) by dlia. done.
Qed.

Lemma mask1 h : F = 1 -> Z.shiftl 0x01 (Z.land h 0x7) = bmask h /\ Z.shiftr h 3 = h * F / 8.
Proof. intros E. unfold bmask. rewrite E, land7, Z.shiftr_div_pow2 by lia. change (2 ^ 3) with 8. rewrite Z.mul_1_r. split; [done|dlia]. Qed.

Lemma mask8 h : F = 8 -> 0xff = bmask h /\ h = h * F / 8.
Proof. intros E. unfold bmask. rewrite E. split; [|dlia]. replace (h * 8 mod 8) with 0 by dlia. done. Qed.

Lemma bmask_bit h k : 0 <= k -> Z.testbit (bmask h) k = (h * F mod 8 <=? k) && (k <? h * F mod 8 + F).
Proof. intros Hk. pose proof (frag_pos F HF). apply testbit_mask; [lia|]. apply Z.mod_pos_bound. lia. Qed.

Lemma bmask_fits h : h * F mod 8 + F <= 8.
Proof. destruct HF as [E|[E|[E|E] ] ]; rewrite E; dlia. Qed.

Lemma bmask_u8 h : is_u 8 (bmask h).
Proof.
  apply is_u_bits; [lia|]. pose proof (frag_pos F HF). split.
  - unfold bmask. apply Z.shiftl_nonneg. rewrite Z.shiftl_1_l. pose proof (pow2_pos F ltac:(lia)). lia.
  - intros k Hk. rewrite bmask_bit by lia. pose proof (bmask_fits h). lia.
Qed.

(** A bit of the byte of block [h] is in the mask when it is in the block. *)
Lemma in_block h j : 0 <= j -> j / 8 = h * F / 8 -> Z.testbit (bmask h) (j mod 8) = (j / F =? h).
Proof.
  intros Hj E. rewrite bmask_bit by (apply Z.mod_pos_bound; lia). destruct HF as [E'|[E'|[E'|E'] ] ]; rewrite E' in *; dlia.
Qed.

Lemma out_of_block h j : 0 <= j -> j / 8 <> h * F / 8 -> j / F <> h.
Proof. intros Hj E. destruct HF as [E'|[E'|[E'|E'] ] ]; rewrite E' in *; dlia. Qed.

Context (q : list Z).
Hypothesis Hq : bytes_ok q.

Lemma block_index h : 0 <= h -> h * F < 8 * Z.of_nat (length q) -> 0 <= h * F / 8 < Z.of_nat (length q).
Proof. intros Hh Hb. pose proof (frag_pos F HF). split; [apply Z.div_pos; nia|apply Z.div_lt_upper_bound; lia]. Qed.

Lemma isblock_mask h : 0 <= h -> h * F < 8 * Z.of_nat (length q) ->
  ffs_isblock f q h = Ret (Z.land (byte q (h * F / 8)) (bmask h) =? bmask h) /\
  ffs_isfreeblock f q h = Ret (Z.land (byte q (h * F / 8)) (bmask h) =? 0).
Proof.
  intros Hh Hb. pose proof (block_index h Hh Hb) as Hi. pose proof (bmask_u8 h) as Hu. pose proof (byte_ok q (h * F / 8) Hq) as Hx.
  unfold ffs_isblock, ffs_isfreeblock. destruct HF as [E|[E|[E|E] ] ]; frag_test f; cbv zeta.
  - destruct (mask1 h E) as [-> ->]. rewrite lookup_byte by done. cbn [bind]. unfold u8. by rewrite wrap_small.
  - destruct (mask2 h E) as [-> ->]. rewrite lookup_byte by done. cbn [bind]. unfold u8. by rewrite wrap_small.
  - destruct (mask4 h E) as [-> ->]. rewrite lookup_byte by done. cbn [bind]. unfold u8. by rewrite wrap_small.
  - destruct (mask8 h E) as [<- Eh]. rewrite <- Eh in *. rewrite lookup_byte by done. cbn [bind].
    change 255 with (Z.ones 8) at 2 4. rewrite Z.land_ones, Z.mod_small by done. done.
Qed.

(** What a block is in the map: whole when all its fragments are free. *)
Lemma blk_shift h : Z.land (byte q (h * F / 8)) (bmask h) = Z.shiftl (blk F q h) (h * F mod 8).
Proof.
  pose proof (frag_pos F HF). pose proof (Z.mod_pos_bound (h * F) 8 ltac:(lia)). apply Z.bits_inj'. intros k Hk.
  rewrite Z.land_spec, bmask_bit by done. destruct (decide (k < h * F mod 8)).
  { rewrite Z.shiftl_spec_low by done. lia. }
  rewrite Z.shiftl_spec by lia. unfold blk. rewrite Z.land_spec, Z.shiftr_spec, whole_bit by lia.
  replace (k - h * F mod 8 + h * F mod 8) with k by lia. f_equal. lia.
Qed.

Lemma isblock_spec h : 0 <= h -> h * F < 8 * Z.of_nat (length q) ->
  ffs_isblock f q h = Ret (blk F q h =? whole F) /\ ffs_isfreeblock f q h = Ret (blk F q h =? 0).
Proof.
  intros Hh Hb. destruct (isblock_mask h Hh Hb) as [-> ->]. rewrite blk_shift. pose proof (Z.mod_pos_bound (h * F) 8 ltac:(lia)) as Hs.
  assert (0 < 2 ^ (h * F mod 8)) by (apply Z.pow_pos_nonneg; lia). unfold bmask.
  rewrite !Z.shiftl_mul_pow2, Z.mul_1_l by (pose proof (frag_pos F HF); lia).
  unfold whole. split; f_equal; apply eq_true_iff_eq; rewrite !Z.eqb_eq; nia.
Qed.

Lemma aset_byte n v : 0 <= n < Z.of_nat (length q) -> is_u 8 v ->
  exists q', aset q n v = Ret q' /\ length q' = length q /\ bytes_ok q' /\ forall j, 0 <= j -> qbit q' j = if j / 8 =? n then Z.testbit v (j mod 8) else qbit q j.
Proof.
  intros Hn Hv. rewrite aset_bounds by done. eexists. split; [done|]. rewrite length_insert. conj; [done|by apply bytes_ok_insert|].
  intros j Hj. by rewrite qbit_insert.
Qed.

Lemma setblock_spec h : 0 <= h -> h * F < 8 * Z.of_nat (length q) ->
  exists q', ffs_setblock f q h = Ret q' /\ bit_update q q' (fun j => j / F = h) true.
Proof.
  intros Hh Hb. pose proof (block_index h Hh Hb) as Hi. pose proof (byte_ok q (h * F / 8) Hq) as Hx. pose proof (bmask_u8 h) as Hu.
  assert (ffs_setblock f q h = aset q (h * F / 8) (Z.lor (byte q (h * F / 8)) (bmask h))) as ->.
  { unfold ffs_setblock. pose proof (is_u_lor 8 _ _ ltac:(lia) Hx Hu). destruct HF as [E|[E|[E|E] ] ]; frag_test f.
    - destruct (mask1 h E) as [-> ->]. rewrite lookup_byte by done. cbn [bind]. unfold u8. by rewrite wrap_small.
    - destruct (mask2 h E) as [-> ->]. rewrite lookup_byte by done. cbn [bind]. unfold u8. by rewrite wrap_small.
    - destruct (mask4 h E) as [-> ->]. rewrite lookup_byte by done. cbn [bind]. unfold u8. by rewrite wrap_small.
    - destruct (mask8 h E) as [<- Eh]. rewrite <- Eh in *. by rewrite lor_255. }
  destruct (aset_byte (h * F / 8) (Z.lor (byte q (h * F / 8)) (bmask h)) Hi) as (q' & -> & Hl & Hok & Hbit); [by apply is_u_lor|].
  exists q'. split; [done|]. unfold bit_update. conj; try done.
  - intros j Hj Hin. rewrite Hbit by done.
    assert (j / 8 = h * F / 8) as E by (destruct (decide (j / 8 = h * F / 8)); [done|by apply out_of_block in Hin]).
    rewrite E, Z.eqb_refl, Z.lor_spec, in_block by done. rewrite (proj2 (Z.eqb_eq _ _) Hin). apply orb_true_r.
  - intros j Hj Hout. rewrite Hbit by done. destruct (Z.eqb_spec (j / 8) (h * F / 8)) as [E|]; [|done].
    rewrite Z.lor_spec, in_block by done. rewrite (proj2 (Z.eqb_neq _ _) Hout), orb_false_r. unfold qbit, byte. by rewrite E.
Qed.

Lemma clrblock_spec h : 0 <= h -> h * F < 8 * Z.of_nat (length q) ->
  exists q', ffs_clrblock f q h = Ret q' /\ bit_update q q' (fun j => j / F = h) false.
Proof.
  intros Hh Hb. pose proof (block_index h Hh Hb) as Hi. pose proof (byte_ok q (h * F / 8) Hq) as Hx. pose proof (land_lnot_u8 _ (bmask h) Hx) as Hu.
  assert (ffs_clrblock f q h = aset q (h * F / 8) (Z.land (byte q (h * F / 8)) (Z.lnot (bmask h)))) as ->.
  { unfold ffs_clrblock. destruct HF as [E|[E|[E|E] ] ]; frag_test f.
    - destruct (mask1 h E) as [-> ->]. rewrite lookup_byte by done. cbn [bind]. unfold u8. by rewrite wrap_small.
    - destruct (mask2 h E) as [-> ->]. rewrite lookup_byte by done. cbn [bind]. unfold u8. by rewrite wrap_small.
    - destruct (mask4 h E) as [-> ->]. rewrite lookup_byte by done. cbn [bind]. unfold u8. by rewrite wrap_small.
    - destruct (mask8 h E) as [<- Eh]. rewrite <- Eh in *. by rewrite land_lnot_255. }
  destruct (aset_byte (h * F / 8) _ Hi Hu) as (q' & -> & Hl & Hok & Hbit).
  exists q'. split; [done|]. unfold bit_update. conj; try done.
  - intros j Hj Hin. rewrite Hbit by done.
    assert (j / 8 = h * F / 8) as E by (destruct (decide (j / 8 = h * F / 8)); [done|by apply out_of_block in Hin]).
    rewrite E, Z.eqb_refl, Z.land_spec, Z.lnot_spec, in_block by (done || apply Z.mod_pos_bound; lia).
    rewrite (proj2 (Z.eqb_eq _ _) Hin). apply andb_false_r.
  - intros j Hj Hout. rewrite Hbit by done. destruct (Z.eqb_spec (j / 8) (h * F / 8)) as [E|]; [|done].
    rewrite Z.land_spec, Z.lnot_spec, in_block by (done || apply Z.mod_pos_bound; lia).
    rewrite (proj2 (Z.eqb_neq _ _) Hout), andb_true_r. unfold qbit, byte. by rewrite E.
Qed.
End Blocks.

(** ** Changes of bits as changes of blocks *)

Lemma bit_update_trans q1 q2 q3 P Q R v : bit_update q1 q2 P v -> bit_update q2 q3 Q v -> (forall j, 0 <= j -> R j <-> P j \/ Q j) -> (forall j, Decision (Q j)) ->
  bit_update q1 q3 R v.
Proof.
  intros (Hl & Ho & Hi & Hn) (Hl' & Ho' & Hi' & Hn') HR Hdec. unfold bit_update. conj; [congruence|done|..]; intros j Hj HRj.
  - destruct (Hdec j); [by apply Hi'|]. rewrite Hn' by done. apply Hi; [done|]. apply HR in HRj; [|done]. tauto.
  - rewrite Hn', Hn; [done|done| |done|]; intros H; apply HRj, HR; tauto.
Qed.

Lemma bit_update_none q P v : bytes_ok q -> (forall j, 0 <= j -> ~ P j) -> bit_update q q P v.
Proof. intros Hq HP. unfold bit_update. conj; auto. intros j Hj H. by apply HP in H. Qed.

Definition between (x n j : Z) : Prop := x <= j < x + n.

#[export] Instance between_dec x n j : Decision (between x n j).
Proof. unfold between. apply _. Defined.

Lemma set_frags_spec n q x : bytes_ok q -> 0 <= x -> x + Z.of_nat n <= 8 * Z.of_nat (length q) ->
  exists q', set_frags q x n = Ret q' /\ bit_update q q' (between x (Z.of_nat n)) true.
Proof.
  revert q x. induction n as [|n IH]; intros q x Hq Hx Hn; cbn [set_frags].
  { exists q. split; [done|]. apply bit_update_none; [done|]. unfold between. lia. }
  destruct (setbit_qbit q x Hq ltac:(lia)) as (q1 & -> & U1). cbn [bind]. pose proof U1 as (Hl & Hq1 & _).
  destruct (IH q1 (x + 1) Hq1 ltac:(lia) ltac:(rewrite Hl; lia)) as (q' & -> & U2). exists q'. split; [done|].
  eapply bit_update_trans; [exact U1|exact U2| |apply _]. unfold between. intros j Hj. lia.
Qed.

Lemma clr_frags_spec n q x : bytes_ok q -> 0 <= x -> x + Z.of_nat n <= 8 * Z.of_nat (length q) ->
  exists q', clr_frags q x n = Ret q' /\ bit_update q q' (between x (Z.of_nat n)) false.
Proof.
  revert q x. induction n as [|n IH]; intros q x Hq Hx Hn; cbn [clr_frags].
  { exists q. split; [done|]. apply bit_update_none; [done|]. unfold between. lia. }
  destruct (clrbit_qbit q x Hq ltac:(lia)) as (q1 & -> & U1). cbn [bind]. pose proof U1 as (Hl & Hq1 & _).
  destruct (IH q1 (x + 1) Hq1 ltac:(lia) ltac:(rewrite Hl; lia)) as (q' & -> & U2). exists q'. split; [done|].
  eapply bit_update_trans; [exact U1|exact U2| |apply _]. unfold between. intros j Hj. lia.
Qed.

(** [n] bits from [pos] on. *)
Definition rmask (pos n : Z) : Z := Z.shiftl (Z.shiftl 1 n - 1) pos.

Section Updates.
Context (F : Z) (HF : frag_ok F) (q q' : list Z) (P : Z -> Prop) (v : bool) (U : bit_update q q' P v).

Lemma blk_same b : 0 <= b -> (forall i, 0 <= i < F -> ~ P (b * F + i)) -> blk F q' b = blk F q b.
Proof.
  intros Hb HP. destruct U as (_ & _ & _ & Hn). pose proof (frag_pos F HF). apply (map_eq F); try by apply blk_range. done.
  intros i Hi. rewrite !blk_bit by done. apply Hn; [nia|]. by apply HP.
Qed.

Lemma blk_all b : 0 <= b -> (forall i, 0 <= i < F -> P (b * F + i)) -> blk F q' b = if v then whole F else 0.
Proof.
  intros Hb HP. destruct U as (_ & _ & Hy & _). pose proof (frag_pos F HF). pose proof (whole_bound F HF).
  apply (map_eq F); [done|by apply blk_range|destruct v; lia|]. intros i Hi. rewrite blk_bit, Hy by (done || nia || by apply HP).
  destruct v; [rewrite whole_bit by lia; lia|by rewrite Z.bits_0].
Qed.

Lemma blk_some b pos n : 0 <= b -> 0 <= pos -> 0 <= n -> pos + n <= F -> (forall i, 0 <= i < F -> P (b * F + i) <-> pos <= i < pos + n) ->
  blk F q' b = if v then Z.lor (blk F q b) (rmask pos n) else Z.land (blk F q b) (Z.lnot (rmask pos n)).
Proof.
  intros Hb Hp Hn Hl HP. destruct U as (_ & _ & Hy & Hno). pose proof (frag_pos F HF). pose proof (blk_range F q b HF) as Hr.
  pose proof (whole_bound F HF).
  apply Z.bits_inj'. intros i Hi. assert (Z.testbit (rmask pos n) i = bool_decide (pos <= i < pos + n)) as Hm.
  { unfold rmask. rewrite testbit_mask by done. case_bool_decide; lia. }
  destruct (decide (i < F)) as [HiF|HiF].
  - rewrite blk_bit by (done || lia). assert (qbit q' (b * F + i) = if bool_decide (pos <= i < pos + n) then v else Z.testbit (blk F q b) i) as ->.
    { case_bool_decide as HPi; [apply Hy; [nia|by apply HP; [lia|]]|]. rewrite Hno, blk_bit by (done || nia || lia || (rewrite HP; lia)). done. }
    destruct v; [rewrite Z.lor_spec|rewrite Z.land_spec, Z.lnot_spec by done]; rewrite Hm; case_bool_decide; simpl; by rewrite ?orb_true_r, ?orb_false_r, ?andb_false_r, ?andb_true_r.
  - pose proof (blk_range F q' b HF) as Hr'. unfold whole in *. rewrite (is_u_high F) by (unfold is_u; lia).
    destruct v; [rewrite Z.lor_spec|rewrite Z.land_spec, Z.lnot_spec by done]; rewrite Hm, (is_u_high F) by (unfold is_u; lia); case_bool_decide; (done || lia).
Qed.
End Updates.

(** * Fragments of a block

    The tables of [ffs_tables.c] and the pattern searches with [around] and
    [inside] find the runs of free fragments in a block: [ffs_fragacct] counts
    them, [ffs_mapsearch] finds one.  A block has at most eight fragments, so
    that the tables are compared with the runs by evaluation. *)

(** ** Evaluation *)

(** A statement on the maps of blocks holds if it evaluates to true for all. *)
Definition for_maps (P : Z -> Z -> bool) : bool := forallb (fun F => forallb (P F) (seqZ 0 (2 ^ F))) [1; 2; 4; 8].

Lemma for_maps_true P F m : for_maps P = true -> frag_ok F -> 0 <= m <= whole F -> P F m = true.
Proof.
  intros H HF Hm. unfold for_maps in H. rewrite forallb_forall in H.
  assert (In F [1; 2; 4; 8]) as Hin by (destruct HF as [->|[->|[->| ->] ] ]; simpl; tauto).
  specialize (H F Hin). rewrite forallb_forall in H. apply H, list_elem_of_In, elem_of_seqZ. unfold whole in Hm. lia.
Qed.

Lemma forallb_seqZ P a n x : forallb P (seqZ a n) = true -> a <= x < a + n -> P x = true.
Proof. intros H Hx. rewrite forallb_forall in H. apply H, list_elem_of_In, elem_of_seqZ. lia. Qed.

(** ** [ffs_fragacct] *)

(** How often the inner loop finds the pattern. *)
Fixpoint pos_count (fuel : nat) (F fragmap siz pos field subfield : Z) : option Z :=
  if pos <=? F then
    match fuel with
    | O => None
    | S fuel =>
        if Z.land fragmap field =? subfield then
          Z.succ <$> pos_count fuel F fragmap siz (pos + siz + 1) (Z.shiftl (Z.shiftl field siz) 1) (Z.shiftl (Z.shiftl subfield siz) 1)
        else pos_count fuel F fragmap siz (pos + 1) (Z.shiftl field 1) (Z.shiftl subfield 1)
    end
  else Some 0.

Lemma fragacct_pos_count f fuel fragmap siz pos field subfield cnt l x : 0 <= siz -> l !! Z.to_nat siz = Some x -> is_s 32 x ->
  fragacct_pos f fuel fragmap siz pos field subfield cnt l =
    match pos_count fuel (fs_frag f) fragmap siz pos field subfield with Some n => Ret (<[Z.to_nat siz := s32 (x + n * cnt)]> l) | None => Spin end.
Proof.
  revert pos field subfield l x. induction fuel as [|fuel IH]; intros pos field subfield l x H0 Hx Hs; cbn [fragacct_pos pos_count].
  all: destruct (pos <=? fs_frag f); [|rewrite Z.mul_0_l, Z.add_0_r; unfold s32; rewrite swrap_small by (done || lia); by rewrite list_insert_id].
  - done.
  - destruct (Z.land fragmap field =? subfield).
    + rewrite (aget_Some l siz x) by done. cbn [bind]. rewrite aset_bounds by (apply lookup_lt_Some in Hx; lia). cbn [bind].
      rewrite (IH _ _ _ _ (s32 (x + cnt))) by (done || (by rewrite list_lookup_insert_eq by (by eapply lookup_lt_Some)) || by apply s32_range).
      destruct (pos_count _ _ _ _ _ _ _) as [n|]; [|done]. simpl. rewrite list_insert_insert_eq, s32_add. do 3 f_equal. lia.
    + by apply IH.
Qed.

Definition table_of (F : Z) : list Z := if F =? 8 then fragtbl8 else fragtbl124.

Lemma fragtbl_ok F : frag_ok F -> fragtbl F = Ret (table_of F).
Proof. intros [->|[->|[->| ->] ] ]; done. Qed.

Lemma table_get F m : frag_ok F -> is_u 8 m -> aget (table_of F) m = Ret (byte (table_of F) m).
Proof. intros HF Hm. apply lookup_byte. unfold is_u in Hm. destruct HF as [->|[->|[->| ->] ] ]; done. Qed.

Definition in_table (F m siz : Z) : bool := negb (Z.land (Z.shiftl (byte (table_of F) m) 1) (Z.shiftl 1 (siz + F `rem` NBBY)) =? 0).

(** The table names the sizes that there are, and the loop counts them. *)
Lemma table_counts F m siz : frag_ok F -> 0 <= m <= whole F -> 1 <= siz < F ->
  if in_table F m siz then pos_count (Z.to_nat F) F (Z.shiftl m 1) siz siz (byte around siz) (byte inside siz) = Some (nruns F m siz) else nruns F m siz = 0.
Proof.
  intros HF Hm Hs. set (P := fun F m siz => if in_table F m siz then
    bool_decide (pos_count (Z.to_nat F) F (Z.shiftl m 1) siz siz (byte around siz) (byte inside siz) = Some (nruns F m siz)) else nruns F m siz =? 0).
  enough (P F m siz = true) as H by (unfold P in H; destruct (in_table F m siz); [by apply bool_decide_eq_true in H|by apply Z.eqb_eq]).
  apply (forallb_seqZ (P F m) 1 (F - 1)); [|lia].
  apply (for_maps_true (fun F m => forallb (P F m) (seqZ 1 (F - 1)))); [by vm_compute|done..].
Qed.

(** The counts of runs of at least [lo] fragments have changed by [cnt] for each run. *)
Definition counted (F m cnt lo : Z) (l l' : list Z) : Prop :=
  length l' = length l /\ forall k x, l !! k = Some x -> l' !! k = Some (if bool_decide (lo <= Z.of_nat k < F) then s32 (x + cnt * nruns F m (Z.of_nat k)) else x).

Lemma fragacct_siz_spec f m cnt fuel siz l : frag_ok (fs_frag f) -> 0 <= m <= whole (fs_frag f) -> 1 <= siz -> fs_frag f - siz <= Z.of_nat fuel ->
  length l = 8%nat -> Forall (is_s 32) l ->
  returns (fragacct_siz f fuel (Z.shiftl (byte (table_of (fs_frag f)) m) 1) (Z.shiftl m 1) siz cnt l) (counted (fs_frag f) m cnt siz l).
Proof.
  intros HF Hm. pose proof (frag_pos _ HF). revert siz l. induction fuel as [|fuel IH]; intros siz l Hs Hf Hl Hok; cbn [fragacct_siz].
  all: destruct (Z.ltb_spec siz (fs_frag f)) as [Hlt|Hge]; [|split; [done|]; intros k x Hx; rewrite Hx; case_bool_decide; (done || lia)].
  - lia.
  - pose proof (table_counts _ m siz HF Hm ltac:(lia)) as Ht. unfold in_table in Ht.
    assert (exists x, l !! Z.to_nat siz = Some x) as [x Hx] by (apply lookup_lt_is_Some; lia).
    pose proof (Forall_lookup_1 _ _ _ _ Hok Hx) as Hxs. destruct (Z.land _ _ =? 0) eqn:E; cbn [negb] in Ht.
    + eapply returns_mono; [|apply IH; (done || lia)]. intros l' [Hl' Hc]. split; [done|]. intros k y Hy. rewrite (Hc k y Hy).
      repeat case_bool_decide; try done; try lia.
      assert (Z.of_nat k = siz) as -> by lia. rewrite Ht, Z.mul_0_r, Z.add_0_r. unfold s32.
      by rewrite swrap_small by (by apply (Forall_lookup_1 _ _ _ _ Hok Hy) || lia).
    + rewrite !lookup_byte by (simpl; lia). cbn [bind]. rewrite (fragacct_pos_count _ _ _ _ _ _ _ _ _ x) by (done || lia). unfold byte in Ht.
      rewrite Ht. cbn [bind].
      eapply returns_mono; [|apply IH; try lia; [by rewrite length_insert|by apply Forall_insert; [|apply s32_range]]]. intros l' [Hl' Hc].
      rewrite length_insert in Hl'. split; [done|]. intros k y Hy. destruct (decide (k = Z.to_nat siz)) as [->|Hne].
      * rewrite (Hc _ (s32 (x + nruns (fs_frag f) m siz * cnt))) by (apply list_lookup_insert_eq; lia). assert (y = x) as -> by congruence.
        repeat case_bool_decide; try lia. do 3 f_equal. rewrite Z2Nat.id by lia. lia.
      * rewrite (Hc k y) by (by rewrite list_lookup_insert_ne by done). repeat case_bool_decide; (done || lia).
Qed.

Lemma fragacct_spec f m cnt l : frag_ok (fs_frag f) -> 0 <= m <= whole (fs_frag f) -> length l = 8%nat -> Forall (is_s 32) l ->
  returns (ffs_fragacct f m l cnt) (counted (fs_frag f) m cnt 1 l).
Proof.
  intros HF Hm Hl Hok. pose proof (whole_bound _ HF). pose proof (frag_pos _ HF). unfold ffs_fragacct. rewrite fragtbl_ok by done. cbn [bind].
  rewrite table_get by (done || unfold is_u; lia). cbn [bind]. apply fragacct_siz_spec; (done || lia).
Qed.

(** ** Runs at a place *)

(** The fragments from [pos] on are a maximal run of [siz]. *)
Definition run_at (m pos siz : Z) : bool := forallb (Z.testbit m) (seqZ pos siz) && negb (Z.testbit m (pos - 1)) && negb (Z.testbit m (pos + siz)).

(** Free fragments, and those that are not in a whole block. *)
Definition pop (F m : Z) : Z := Z.of_nat (length (filter (fun b : bool => b = true) (bits F m))).
Definition part (F m : Z) : Z := if m =? whole F then 0 else pop F m.

Lemma mapsearch_pos_frag f g fuel b siz pos field subfield : fs_frag f = fs_frag g ->
  mapsearch_pos f fuel b siz pos field subfield = mapsearch_pos g fuel b siz pos field subfield.
Proof. intros E. revert pos field subfield. induction fuel as [|fuel IH]; intros; cbn [mapsearch_pos]; rewrite E; [done|]. by rewrite IH. Qed.

(** Some file system with blocks of [F] fragments. *)
Definition some_fs (F : Z) : fs := Fs 0 0 0 F 0 0 0 0 0 0 0 0 0 0 0 0 0 0 0 0.

Definition found (F m siz : Z) (r : outcome (option Z)) : bool :=
  match r with
  | Ret (Some pos) => (0 <=? pos) && (pos + siz <=? F) && run_at m pos siz
  | Ret None => nruns F m siz =? 0
  | _ => false
  end.

Lemma mapsearch_pos_spec f m siz : frag_ok (fs_frag f) -> 0 <= m <= whole (fs_frag f) -> 1 <= siz <= fs_frag f ->
  found (fs_frag f) m siz (mapsearch_pos f (Z.to_nat (fs_frag f + 1)) (Z.shiftl m 1) siz 0 (byte around siz) (byte inside siz)) = true.
Proof.
  intros HF Hm Hs. rewrite (mapsearch_pos_frag f (some_fs (fs_frag f))) by done. generalize dependent (fs_frag f). intros F HF Hm Hs.
  set (P := fun F m siz => found F m siz (mapsearch_pos (some_fs F) (Z.to_nat (F + 1)) (Z.shiftl m 1) siz 0 (byte around siz) (byte inside siz))).
  change (P F m siz = true). apply (forallb_seqZ (P F m) 1 F); [|lia].
  apply (for_maps_true (fun F m => forallb (P F m) (seqZ 1 F))); [by vm_compute|done..].
Qed.

(** Taking the first [n] fragments of a run. *)
Definition cuts (F m pos siz n : Z) : bool :=
  let m' := Z.land m (Z.lnot (rmask pos n)) in
  forallb (fun k => nruns F m' k =? nruns F m k - (if k =? siz then 1 else 0) + (if k =? siz - n then 1 else 0)) (seqZ 1 (F - 1)) &&
  (pop F m' =? pop F m - n) && negb (m' =? whole F).

Lemma take_run F m pos siz n : frag_ok F -> 0 <= m <= whole F -> 0 <= pos -> pos + siz <= F -> 1 <= n <= siz -> siz < F -> run_at m pos siz = true ->
  let m' := Z.land m (Z.lnot (rmask pos n)) in
  (forall k, 1 <= k < F -> nruns F m' k = nruns F m k - (if k =? siz then 1 else 0) + (if k =? siz - n then 1 else 0)) /\
  part F m' = part F m - n /\ m <> whole F /\ m' <> whole F.
Proof.
  intros HF Hm Hp Hs Hn Hlt Hr m'.
  set (P := fun F m pos siz n => if (siz <? F) && (pos + siz <=? F) && (n <=? siz) then if run_at m pos siz then cuts F m pos siz n && negb (m =? whole F) else true else true).
  assert (P F m pos siz n = true) as H.
  { apply (forallb_seqZ (P F m pos siz) 1 F); [|lia]. apply (forallb_seqZ (fun siz => forallb (P F m pos siz) (seqZ 1 F)) 1 F); [|lia].
    apply (forallb_seqZ (fun pos => forallb (fun siz => forallb (P F m pos siz) (seqZ 1 F)) (seqZ 1 F)) 0 F); [|lia].
    apply (for_maps_true (fun F m => forallb (fun pos => forallb (fun siz => forallb (P F m pos siz) (seqZ 1 F)) (seqZ 1 F)) (seqZ 0 F))); [by vm_compute|done..]. }
  unfold P in H. rewrite Hr, (proj2 (Z.leb_le n siz)), (proj2 (Z.leb_le (pos + siz) F)), (proj2 (Z.ltb_lt siz F)) in H by lia. simpl in H.
  apply andb_true_iff in H as [H Hw]. unfold cuts in H. fold m' in H. apply andb_true_iff in H as [H Hw']. apply andb_true_iff in H as [Hk Hpop].
  split; [intros k Hk1; by apply Z.eqb_eq, (forallb_seqZ _ _ _ _ Hk); lia|]. unfold part.
  apply negb_true_iff in Hw, Hw'. rewrite Hw, Hw'. conj; [by apply Z.eqb_eq|by apply Z.eqb_neq..].
Qed.

Lemma run_at_intro m pos siz : (forall i, pos <= i < pos + siz -> Z.testbit m i = true) -> Z.testbit m (pos - 1) = false -> Z.testbit m (pos + siz) = false -> run_at m pos siz = true.
Proof.
  intros H H1 H2. unfold run_at. rewrite H1, H2. rewrite !andb_true_r. apply forallb_forall. intros i Hi. apply list_elem_of_In, elem_of_seqZ in Hi.
  by apply H.
Qed.

Lemma run_at_bit m pos siz i : run_at m pos siz = true -> pos <= i < pos + siz -> Z.testbit m i = true.
Proof. unfold run_at. intros H Hi. apply andb_true_iff in H as [H _]. apply andb_true_iff in H as [H _]. by eapply forallb_seqZ in H. Qed.

(** Only a whole block has a run of all its fragments, and it has no other. *)
Lemma whole_run F m k : frag_ok F -> 0 <= m <= whole F -> 1 <= k <= F -> nruns F m k <> 0 -> (k = F <-> m = whole F).
Proof.
  intros HF Hm Hk. set (P := fun F m k => if nruns F m k =? 0 then true else Bool.eqb (k =? F) (m =? whole F)).
  assert (P F m k = true) as H.
  { apply (forallb_seqZ (P F m) 1 F); [|lia]. apply (for_maps_true (fun F m => forallb (P F m) (seqZ 1 F))); [by vm_compute|done..]. }
  unfold P in H. intros Hn. rewrite (proj2 (Z.eqb_neq _ _) Hn) in H. apply eqb_prop in H. lia.
Qed.

Lemma whole_has_run F : frag_ok F -> nruns F (whole F) F = 1.
Proof. intros [->|[->|[->| ->] ] ]; done. Qed.

Lemma nruns_bounds F m k : frag_ok F -> 0 <= m <= whole F -> 0 <= nruns F m k <= F.
Proof.
  intros HF Hm. unfold nruns, occurrences. split; [lia|]. pose proof (length_filter (eq (Z.to_nat k)) (runs (bits F m))) as Hl.
  enough (Z.of_nat (length (runs (bits F m))) <=? F = true) by lia.
  apply (for_maps_true (fun F m => Z.of_nat (length (runs (bits F m))) <=? F)); [by vm_compute|done..].
Qed.

Lemma pop_bounds F m : frag_ok F -> 0 <= m <= whole F -> 0 <= pop F m <= F /\ 0 <= part F m <= F.
Proof.
  intros HF Hm. set (P := fun F m => (0 <=? pop F m) && (pop F m <=? F)).
  assert (P F m = true) as H by (apply (for_maps_true P); [by vm_compute|done..]).
  unfold P, part in *. pose proof (frag_pos F HF). destruct (m =? whole F); lia.
Qed.

Lemma empty_map F k : frag_ok F -> nruns F 0 k = 0 /\ part F 0 = 0.
Proof. intros [->|[->|[->| ->] ] ]; unfold nruns, occurrences; done. Qed.

(** The rest of a block of which [n] fragments are taken. *)
Lemma rest_run F n k : frag_ok F -> 1 <= n < F -> 1 <= k < F ->
  let m := Z.lor 0 (rmask n (F - n)) in nruns F m k = (if k =? F - n then 1 else 0) /\ part F m = F - n.
Proof.
  intros HF Hn Hk.
  set (P := fun F n k => if (n <? F) && (k <? F) then let m := Z.lor 0 (rmask n (F - n)) in (nruns F m k =? (if k =? F - n then 1 else 0)) && (part F m =? F - n) else true).
  assert (P F n k = true) as H.
  { apply (forallb_seqZ (P F n) 1 F); [|lia]. apply (forallb_seqZ (fun n => forallb (P F n) (seqZ 1 F)) 1 F); [|lia].
    by destruct HF as [->|[->|[->| ->] ] ]; vm_compute. }
  unfold P in H. rewrite (proj2 (Z.ltb_lt n F)), (proj2 (Z.ltb_lt k F)) in H by lia. cbn [andb] in H. cbv zeta in *. apply andb_true_iff in H.
  rewrite !Z.eqb_eq in H. done.
Qed.

(** Giving back [n] fragments that were not free. *)
Lemma give_pop F m pos n : frag_ok F -> 0 <= m <= whole F -> 0 <= pos -> 1 <= n -> pos + n <= F -> Z.land m (rmask pos n) = 0 ->
  pop F (Z.lor m (rmask pos n)) = pop F m + n /\ m <> whole F.
Proof.
  intros HF Hm Hp Hn Hl H0.
  set (P := fun F m pos n => if pos + n <=? F then if Z.land m (rmask pos n) =? 0 then (pop F (Z.lor m (rmask pos n)) =? pop F m + n) && negb (m =? whole F) else true else true).
  assert (P F m pos n = true) as H.
  { apply (forallb_seqZ (P F m pos) 1 F); [|lia]. apply (forallb_seqZ (fun pos => forallb (P F m pos) (seqZ 1 F)) 0 F); [|lia].
    apply (for_maps_true (fun F m => forallb (fun pos => forallb (P F m pos) (seqZ 1 F)) (seqZ 0 F))); [by vm_compute|done..]. }
  unfold P in H. rewrite (proj2 (Z.leb_le (pos + n) F)), (proj2 (Z.eqb_eq _ _) H0) in H by lia. apply andb_true_iff in H as [H Hw].
  apply negb_true_iff in Hw. split; [by apply Z.eqb_eq|by apply Z.eqb_neq].
Qed.

Lemma pop_whole F : frag_ok F -> pop F (whole F) = F.
Proof. intros [->|[->|[->| ->] ] ]; done. Qed.

(** Free fragments next to each other are part of a run. *)
Lemma in_some_run F m pos n : frag_ok F -> 0 <= m <= whole F -> 0 <= pos -> 1 <= n -> pos + n <= F -> (forall i, pos <= i < pos + n -> Z.testbit m i = true) ->
  exists k, n <= k <= F /\ nruns F m k <> 0.
Proof.
  intros HF Hm Hp Hn Hl Hb.
  set (P := fun F m pos n => if pos + n <=? F then if forallb (Z.testbit m) (seqZ pos n) then existsb (fun k => negb (nruns F m k =? 0)) (seqZ n (F + 1 - n)) else true else true).
  assert (P F m pos n = true) as H.
  { apply (forallb_seqZ (P F m pos) 1 F); [|lia]. apply (forallb_seqZ (fun pos => forallb (P F m pos) (seqZ 1 F)) 0 F); [|lia].
    apply (for_maps_true (fun F m => forallb (fun pos => forallb (P F m pos) (seqZ 1 F)) (seqZ 0 F))); [by vm_compute|done..]. }
  unfold P in H. rewrite (proj2 (Z.leb_le (pos + n) F)) in H by lia.
  assert (forallb (Z.testbit m) (seqZ pos n) = true) as E by (apply forallb_forall; intros i Hi; apply list_elem_of_In, elem_of_seqZ in Hi; by apply Hb).
  rewrite E in H. apply existsb_exists in H as (k & Hk & Hk0). apply list_elem_of_In, elem_of_seqZ in Hk. exists k. split; [lia|].
  apply negb_true_iff in Hk0. by apply Z.eqb_neq.
Qed.

(** A run has as many fragments as it says. *)
Lemma run_room F m k : frag_ok F -> 0 <= m <= whole F -> 1 <= k <= F -> nruns F m k <> 0 -> exists pos, 0 <= pos /\ pos + k <= F /\ run_at m pos k = true.
Proof.
  intros HF Hm Hk Hn. pose proof (mapsearch_pos_spec (some_fs F) m k HF Hm Hk) as H. cbn [fs_frag some_fs] in H.
  destruct (mapsearch_pos _ _ _ _ _ _ _) as [ [pos|]| | |]; try done; unfold found in H; [|lia]. apply andb_true_iff in H as [H Hr]. exists pos.
  conj; (done || lia).
Qed.

(** Free fragments of a block that is not whole are counted. *)
Lemma part_room F m pos n : frag_ok F -> 0 <= m <= whole F -> 0 <= pos -> 1 <= n -> pos + n <= F -> m <> whole F -> (forall i, pos <= i < pos + n -> Z.testbit m i = true) -> n <= part F m.
Proof.
  intros HF Hm Hp Hn Hl Hw Hb.
  set (P := fun F m pos n => if pos + n <=? F then if forallb (Z.testbit m) (seqZ pos n) then if m =? whole F then true else n <=? part F m else true else true).
  assert (P F m pos n = true) as H.
  { apply (forallb_seqZ (P F m pos) 1 F); [|lia]. apply (forallb_seqZ (fun pos => forallb (P F m pos) (seqZ 1 F)) 0 F); [|lia].
    apply (for_maps_true (fun F m => forallb (fun pos => forallb (P F m pos) (seqZ 1 F)) (seqZ 0 F))); [by vm_compute|done..]. }
  unfold P in H. rewrite (proj2 (Z.leb_le (pos + n) F)) in H by lia.
  assert (forallb (Z.testbit m) (seqZ pos n) = true) as E by (apply forallb_forall; intros i Hi; apply list_elem_of_In, elem_of_seqZ in Hi; by apply Hb).
  rewrite E, (proj2 (Z.eqb_neq _ _) Hw) in H. lia.
Qed.

(** * Searching the map of a group

    [scanc] with the table finds a byte that has a run of the size asked for, and
    the loops of [ffs_mapsearch] find the run in it. *)

(** ** Bytes *)

(** Some block in the byte has a run of [siz] fragments. *)
Definition byte_has (F x siz : Z) : bool := existsb (fun j => negb (nruns F (Z.land (Z.shiftr x (j * F)) (whole F)) siz =? 0)) (seqZ 0 (8 / F)).

Definition scan_mask (F siz : Z) : Z := u8 (Z.shiftl 1 (siz - 1 + F `rem` NBBY)).

Lemma table_bytes F x siz : frag_ok F -> is_u 8 x -> 1 <= siz <= F -> negb (Z.land (byte (table_of F) x) (u8 (scan_mask F siz)) =? 0) = byte_has F x siz.
Proof.
  intros HF Hx Hs. set (P := fun x siz => Bool.eqb (negb (Z.land (byte (table_of F) x) (u8 (scan_mask F siz)) =? 0)) (byte_has F x siz)).
  assert (P x siz = true) as H; [|by apply eqb_prop in H]. apply (forallb_seqZ (P x) 1 F); [|lia].
  apply (byte_cases x (fun x => forallb (P x) (seqZ 1 F))); [|done]. unfold P. clear - HF. by destruct HF as [->|[->|[->| ->] ] ]; vm_compute.
Qed.

(** A block is one of those in its byte. *)
Lemma block_in_byte F b : frag_ok F -> 0 <= b -> exists j, 0 <= j < 8 / F /\ b * F mod 8 = j * F.
Proof.
  intros HF Hb. destruct HF as [->|[->|[->| ->] ] ].
  - exists (b mod 8). change (8 / 1) with 8. dlia.
  - exists (b mod 4). change (8 / 2) with 4. dlia.
  - exists (b mod 2). change (8 / 4) with 2. dlia.
  - exists 0. change (8 / 8) with 1. dlia.
Qed.

Lemma byte_block F n j : frag_ok F -> 0 <= n -> 0 <= j < 8 / F -> exists b, 0 <= b /\ b * F / 8 = n /\ b * F mod 8 = j * F.
Proof.
  intros HF Hn Hj. exists (n * (8 / F) + j). destruct HF as [->|[->|[->| ->] ] ].
  - change (8 / 1) with 8 in *. dlia.
  - change (8 / 2) with 4 in *. dlia.
  - change (8 / 4) with 2 in *. dlia.
  - change (8 / 8) with 1 in *. dlia.
Qed.

Lemma blocks_of_byte F n b : frag_ok F -> b * F / 8 = n <-> n * (8 / F) <= b < n * (8 / F) + 8 / F.
Proof.
  intros [->|[->|[->| ->] ] ]; [change (8 / 1) with 8|change (8 / 2) with 4|change (8 / 4) with 2|change (8 / 8) with 1]; dlia.
Qed.

Lemma byte_has_spec F q n siz : frag_ok F -> 0 <= n -> byte_has F (byte q n) siz = true <-> exists b, 0 <= b /\ b * F / 8 = n /\ nruns F (blk F q b) siz <> 0.
Proof.
  intros HF Hn. unfold byte_has. rewrite existsb_exists. split.
  - intros (j & Hj & Hr). apply list_elem_of_In, elem_of_seqZ in Hj. destruct (byte_block F n j HF Hn ltac:(lia)) as (b & Hb & En & Em).
    exists b. unfold blk. rewrite En, Em. conj; try done. apply negb_true_iff in Hr. by apply Z.eqb_neq.
  - intros (b & Hb & En & Hr). destruct (block_in_byte F b HF Hb) as (j & Hj & Em). exists j. split; [apply list_elem_of_In, elem_of_seqZ; lia|].
    unfold blk in Hr. rewrite En, Em in Hr. apply negb_true_iff. by apply Z.eqb_neq.
Qed.

(** ** The scan *)

Section Scan.
Context (F : Z) (HF : frag_ok F) (q : list Z) (Hq : bytes_ok q) (siz : Z) (Hsiz : 1 <= siz <= F).

Lemma scanc_spec n off : 0 <= off -> off + Z.of_nat n <= Z.of_nat (length q) ->
  exists r, scanc n q off (table_of F) (scan_mask F siz) = Ret r /\ 0 <= r <= Z.of_nat n /\
    (r = 0 -> forall i, off <= i < off + Z.of_nat n -> byte_has F (byte q i) siz = false) /\
    (r <> 0 -> byte_has F (byte q (off + Z.of_nat n - r)) siz = true).
Proof.
  revert off. induction n as [|n IH]; intros off H0 Hn; cbn [scanc].
  { exists 0. conj; try done; lia. }
  rewrite lookup_byte by lia. cbn [bind]. fold (byte q off). pose proof (byte_ok q off Hq) as Hx. rewrite table_get by done. cbn [bind].
  pose proof (table_bytes F (byte q off) siz HF Hx Hsiz) as Ht. destruct (Z.land _ _ =? 0); cbn [negb] in Ht.
  - destruct (IH (off + 1) ltac:(lia) ltac:(lia)) as (r & -> & Hr & Hz & Hnz). exists r. conj; try done; try lia.
    + intros E i Hi. destruct (decide (i = off)) as [->|]; [done|]. apply Hz; [done|lia].
    + intros E. replace (off + Z.of_nat (S n) - r) with (off + 1 + Z.of_nat n - r) by lia. by apply Hnz.
  - exists (Z.of_nat (S n)). conj; try done; try lia. intros _. by replace (off + Z.of_nat (S n) - Z.of_nat (S n)) with off by lia.
Qed.
End Scan.

(** ** [ffs_mapsearch] *)

Section Search.
Context (f : fs) (HF : frag_ok (fs_frag f)) (q : list Z) (Hq : bytes_ok q) (siz : Z) (Hsiz : 1 <= siz <= fs_frag f).

Local Notation F := (fs_frag f).

Lemma blkmap_spec b : 0 <= b -> b * F < 8 * Z.of_nat (length q) -> blkmap f q (b * F) = Ret (blk F q b).
Proof using HF.
  intros Hb Hl. unfold blkmap, NBBY. pose proof (frag_pos F HF). rewrite Z.quot_div_nonneg, Z.rem_mod_nonneg by nia.
  rewrite lookup_byte by (by apply block_index). cbn [bind]. unfold blk, byte. do 2 f_equal. unfold whole.
  destruct HF as [E|[E|[E|E] ] ]; by rewrite E.
Qed.

Lemma mapsearch_blk_spec fuel k b0 : 0 <= b0 -> (b0 + Z.of_nat k) * F <= 8 * Z.of_nat (length q) -> (k <= fuel)%nat ->
  (exists b, b0 <= b < b0 + Z.of_nat k /\ nruns F (blk F q b) siz <> 0) ->
  exists b pos, mapsearch_blk f fuel q siz ((b0 + Z.of_nat k) * F) (b0 * F) = Ret (b * F + pos) /\
    b0 <= b < b0 + Z.of_nat k /\ 0 <= pos /\ pos + siz <= F /\ run_at (blk F q b) pos siz = true.
Proof using HF Hsiz.
  pose proof (frag_pos F HF). revert k b0. induction fuel as [|fuel IH]; intros k b0 H0 Hl Hk Hex; cbn [mapsearch_blk].
  { destruct Hex as (b & Hb & _). lia. }
  destruct k as [|k]; [destruct Hex as (b & Hb & _); lia|]. rewrite (proj2 (Z.ltb_lt (b0 * F) _)) by nia.
  rewrite blkmap_spec by nia. cbn [bind]. rewrite !lookup_byte by (simpl; lia). cbn [bind].
  pose proof (mapsearch_pos_spec f (blk F q b0) siz HF (blk_range F q b0 HF) Hsiz) as Hp. unfold byte in Hp.
  destruct (mapsearch_pos f _ _ _ _ _ _) as [ [pos|]| | |]; try done; unfold found in Hp; cbn [bind].
  - apply andb_true_iff in Hp as [Hp Hr]. exists b0, pos. conj; (done || lia).
  - replace (b0 * F + F) with ((b0 + 1) * F) by lia. replace ((b0 + Z.of_nat (S k)) * F) with ((b0 + 1 + Z.of_nat k) * F) by lia.
    apply Z.eqb_eq in Hp. destruct (IH k (b0 + 1)) as (b & pos & -> & Hb & Hr); try lia.
    + destruct Hex as (b & Hb & Hn). exists b. split; [|done]. assert (b <> b0) by (intros ->; lia). lia.
    + exists b, pos. conj; (done || lia || tauto).
Qed.

Lemma search_in_byte n : 0 <= n < Z.of_nat (length q) -> byte_has F (byte q n) siz = true ->
  exists b pos, mapsearch_blk f 8 q siz (n * NBBY + NBBY) (n * NBBY) = Ret (b * F + pos) /\
    0 <= b /\ b * F / 8 = n /\ 0 <= pos /\ pos + siz <= F /\ run_at (blk F q b) pos siz = true.
Proof using HF Hsiz.
  intros Hn Hh. apply byte_has_spec in Hh as (b & Hb & En & Hr); [|done|lia]. unfold NBBY.
  assert (8 / F * F = 8 /\ 1 <= 8 / F <= 8) as [E8 H8] by (destruct HF as [->|[->|[->| ->] ] ]; done).
  assert (forall b, 0 <= b -> b * F / 8 = n <-> n * (8 / F) <= b < n * (8 / F) + 8 / F) as Hin.
  { intros b' Hb'. by apply blocks_of_byte. }
  generalize dependent (8 / F). intros p E8 H8 Hin. replace (n * 8) with (n * p * F) by (by rewrite <- Z.mul_assoc, E8).
  replace (n * p * F + 8) with ((n * p + Z.of_nat (Z.to_nat p)) * F) by (by rewrite Z2Nat.id, Z.mul_add_distr_r, E8 by lia).
  destruct (mapsearch_blk_spec 8 (Z.to_nat p) (n * p)) as (b' & pos & -> & Hb' & Hp); [nia| |lia| |].
  - rewrite Z2Nat.id, Z.mul_add_distr_r, <- Z.mul_assoc, E8 by lia. lia.
  - exists b. split; [|done]. rewrite Z2Nat.id by lia. by apply Hin.
  - rewrite Z2Nat.id in Hb' by lia. exists b', pos. assert (0 <= b') by nia. conj; try done; try tauto. by apply Hin.
Qed.
End Search.

(** Blocks behind the map have no free fragments. *)
Lemma blk_outside F q b : frag_ok F -> 0 <= b -> 8 * Z.of_nat (length q) <= b * F -> blk F q b = 0.
Proof.
  intros HF Hb Hl. unfold blk, byte. rewrite lookup_ge_None_2; [simpl; by rewrite Z.shiftr_0_l, Z.land_0_l|].
  assert (Z.of_nat (length q) <= b * F / 8) by (apply Z.div_le_lower_bound; lia). lia.
Qed.

Lemma howmany_range n : 0 <= n -> 0 <= howmany n NBBY /\ n <= 8 * howmany n NBBY < n + 8.
Proof. intros Hn. unfold howmany, NBBY. rewrite Z.quot_div_nonneg by lia. dlia. Qed.

Section Mapsearch.
Context (f : fs) (HF : frag_ok (fs_frag f)) (Hfpg : 0 < fs_fpg f < 2 ^ 30).
Context (c : cg) (Hq : bytes_ok (cg_blksfree c)) (Hlen : Z.of_nat (length (cg_blksfree c)) = howmany (fs_fpg f) NBBY).

Local Notation F := (fs_frag f).
Local Notation q := (cg_blksfree c).

Lemma ffs_mapsearch_spec bpref siz : 1 <= siz <= F -> 0 <= bpref -> 0 <= cg_frotor c < fs_fpg f -> (exists b, 0 <= b /\ nruns F (blk F q b) siz <> 0) ->
  exists b pos, ffs_mapsearch f c bpref siz = Ret (b * F + pos, set_frotor (b * F / 8 * 8) c) /\
    0 <= b /\ b * F < 8 * Z.of_nat (length q) /\ 0 <= pos /\ pos + siz <= F /\ run_at (blk F q b) pos siz = true.
Proof using HF Hfpg Hlen Hq.
  intros Hs Hp Hr (b0 & Hb0 & Hn0). pose proof (howmany_range (fs_fpg f) ltac:(lia)) as [Hh0 Hh].
  assert (b0 * F / 8 < Z.of_nat (length q)) as Hb0l.
  { destruct (decide (b0 * F < 8 * Z.of_nat (length q))); [by apply block_index|]. rewrite blk_outside in Hn0 by (done || lia).
    by destruct (empty_map F siz HF). }
  assert (0 <= b0 * F / 8) as Hb00 by (pose proof (frag_pos F HF); apply Z.div_pos; nia).
  assert (byte_has F (byte q (b0 * F / 8)) siz = true) as Hby by (apply byte_has_spec; eauto).
  unfold ffs_mapsearch. rewrite fragtbl_ok by done. fold (scan_mask F siz). cbv zeta. cbn [bind].
  set (start := if negb (bpref =? 0) then s32 (dtogd f bpref `quot` NBBY) else cg_frotor c `quot` NBBY).
  assert (0 <= start < Z.of_nat (length q)) as Hst.
  { rewrite Hlen. unfold NBBY in *.
    assert (forall x, 0 <= x < fs_fpg f -> 0 <= x `quot` 8 < howmany (fs_fpg f) 8) as Hx by (intros x Hx; rewrite Z.quot_div_nonneg by lia; dlia).
    unfold start, dtogd. destruct (negb _); [|by apply Hx]. rewrite Z.rem_mod_nonneg by lia.
    pose proof (Z.mod_pos_bound bpref (fs_fpg f) ltac:(lia)) as Hm.
    specialize (Hx _ Hm). unfold s32. rewrite swrap_small by (unfold is_s; lia). done. }
  clearbody start. assert (forall n, 0 <= n < Z.of_nat (length q) -> byte_has F (byte q n) siz = true ->
    exists b pos, (let! r := mapsearch_blk f 8 q siz (n * NBBY + NBBY) (n * NBBY) in Ret (r, set_frotor (n * NBBY) c)) = Ret (b * F + pos, set_frotor (b * F / 8 * 8) c) /\
      0 <= b /\ b * F < 8 * Z.of_nat (length q) /\ 0 <= pos /\ pos + siz <= F /\ run_at (blk F q b) pos siz = true) as Hend.
  { intros n Hn Hn1. destruct (search_in_byte f HF q siz Hs n Hn Hn1) as (b & pos & -> & Hb & En & Hpos). cbn [bind]. exists b, pos. unfold NBBY.
    rewrite En.
    assert (b * F < 8 * Z.of_nat (length q)) by dlia. tauto. }
  rewrite u32_small by (unfold is_u; lia).
  destruct (scanc_spec F HF q Hq siz Hs (Z.to_nat (howmany (fs_fpg f) NBBY - start)) start) as (r & -> & Hr1 & Hz & Hnz); [lia..|]. cbn [bind].
  destruct (Z.eqb_spec r 0) as [->|Hr0].
  - rewrite u32_small by (unfold is_u; lia). destruct (scanc_spec F HF q Hq siz Hs (Z.to_nat (start + 1)) 0) as (r & -> & Hr2 & Hz2 & Hnz2); [lia..|].
    cbn [bind].
    destruct (Z.eqb_spec r 0) as [->|Hr0].
    + exfalso. destruct (decide (b0 * F / 8 <= start)); [rewrite Hz2 in Hby|rewrite Hz in Hby]; (done || lia).
    + cbn [bind]. apply (Hend (0 + (start + 1) - r)); [lia|]. specialize (Hnz2 Hr0). by rewrite Z2Nat.id in Hnz2 by lia.
  - cbn [bind]. apply (Hend (start + (howmany (fs_fpg f) NBBY - start) - r)); [lia|]. specialize (Hnz Hr0). by rewrite Z2Nat.id in Hnz by lia.
Qed.
End Mapsearch.

(** * Clusters of free blocks

    [ffs_clusteracct] keeps the number of clusters of each size, with the large
    ones together, when one block is taken or given back. *)

(** ** Sums over runs *)

Definition rsum (g : nat -> Z) (cur : nat) (l : list bool) : Z := foldr Z.add 0 (g <$> runs_from cur l).

Fixpoint lead (l : list bool) : nat := match l with true :: l => S (lead l) | _ => O end.
Fixpoint trail (cur : nat) (l : list bool) : nat :=
  match l with [] => cur | true :: l => trail (S cur) l | false :: l => trail 0 l end.

Section Sums.
Context (g : nat -> Z) (g0 : g O = 0).

Lemma rsum_false cur l : rsum g cur (false :: l) = g cur + rsum g 0 l.
Proof using g0. unfold rsum. destruct cur; simpl; [by rewrite g0|done]. Qed.

Lemma rsum_nil cur : rsum g cur [] = g cur.
Proof using g0. unfold rsum. destruct cur; simpl; [done|lia]. Qed.

Lemma rsum_cur cur l : rsum g cur l = rsum g 0 l - g (lead l) + g (cur + lead l)%nat.
Proof using g0.
  revert cur. induction l as [|b l IH]; intros cur.
  - rewrite !rsum_nil. simpl. rewrite Nat.add_0_r. lia.
  - destruct b; simpl lead.
    + change (rsum g cur (true :: l)) with (rsum g (S cur) l). change (rsum g 0 (true :: l)) with (rsum g 1 l).
      rewrite (IH (S cur)), (IH 1%nat). simpl. rewrite Nat.add_succ_r. lia.
    + rewrite !rsum_false, Nat.add_0_r. lia.
Qed.

Lemma rsum_app cur l l' : rsum g cur (l ++ l') = rsum g cur l - g (trail cur l) + rsum g (trail cur l) l'.
Proof using g0.
  revert cur. induction l as [|b l IH]; intros cur; simpl app.
  - rewrite rsum_nil. simpl. lia.
  - destruct b; simpl trail.
    + change (rsum g cur (true :: l ++ l')) with (rsum g (S cur) (l ++ l')). apply IH.
    + rewrite !rsum_false, IH. lia.
Qed.

(** One block between two clusters. *)
Lemma rsum_split l l' : rsum g 0 (l ++ false :: l') = rsum g 0 l + rsum g 0 l'.
Proof using g0. rewrite rsum_app, rsum_false. lia. Qed.

Lemma rsum_join l l' : rsum g 0 (l ++ true :: l') = rsum g 0 l + rsum g 0 l' - g (trail 0 l) - g (lead l') + g (trail 0 l + 1 + lead l')%nat.
Proof using g0.
  rewrite rsum_app. change (rsum g (trail 0 l) (true :: l')) with (rsum g (S (trail 0 l)) l'). rewrite (rsum_cur (S _)).
  replace (trail 0 l + 1 + lead l')%nat with (S (trail 0 l) + lead l')%nat by lia. lia.
Qed.
End Sums.

Lemma lead_app k l : lead (replicate k true ++ l) = (k + lead l)%nat.
Proof. induction k as [|k IH]; simpl; [done|by rewrite IH]. Qed.

Lemma trail_app cur l l' : trail cur (l ++ l') = trail (trail cur l) l'.
Proof. revert cur. induction l as [|[] l IH]; intros cur; simpl; [done|apply IH..]. Qed.

Lemma trail_replicate cur k : trail cur (replicate k true) = (cur + k)%nat.
Proof. revert cur. induction k as [|k IH]; intros cur; simpl; [lia|]. rewrite IH. lia. Qed.

(** ** Clusters by size *)

(** A cluster of [cap] or more blocks counts as one of [cap]. *)
Definition of_size (cap k : Z) (r : nat) : Z := if (Z.min (Z.of_nat r) cap =? k) && negb (k =? 0) then 1 else 0.

Definition clusters (cap : Z) (l : list bool) (k : Z) : Z := rsum (of_size cap k) 0 l.

Lemma of_size_0 cap k : 0 <= cap -> of_size cap k 0 = 0.
Proof. intros H. unfold of_size. destruct (Z.eqb_spec k 0); [by rewrite andb_false_r|]. rewrite (proj2 (Z.eqb_neq _ _)); [done|lia]. Qed.

Lemma runs_from_sum cur l : Forall (fun r => 0 < r)%nat (runs_from cur l) /\ (sum_list (runs_from cur l) <= cur + length l)%nat.
Proof.
  revert cur. induction l as [|[] l IH]; intros cur; simpl.
  - destruct cur; simpl; (split; [|lia]); [constructor|]. constructor; [lia|constructor].
  - destruct (IH (S cur)) as [H1 H2]. split; [done|lia].
  - destruct (IH O) as [H1 H2]. destruct cur; simpl; (split; [|lia]); [done|]. constructor; [lia|done].
Qed.

Lemma clusters_bounds cap l k : 0 <= clusters cap l k <= Z.of_nat (length l).
Proof.
  unfold clusters, rsum. destruct (runs_from_sum 0 l) as [H1 H2]. revert H1 H2. generalize (runs_from 0 l) as rs. intros rs H1 H2.
  enough (0 <= foldr Z.add 0 (of_size cap k <$> rs) <= Z.of_nat (sum_list rs)) by (simpl in H2; lia). clear H2.
  induction H1 as [|r rs Hr _ IH]; simpl; [lia|]. assert (0 <= of_size cap k r <= 1) by (unfold of_size; case_if; lia).
  change (list_fmap nat Z (of_size cap k) rs) with (of_size cap k <$> rs). lia.
Qed.

(** ** The loops *)

Section Loops.
Context (stray : Z -> Z) (q : list Z).

Lemma peek_inside i : 0 <= i < Z.of_nat (length q) -> peek stray q i = byte q i.
Proof. intros Hi. unfold peek. rewrite (proj2 (Z.leb_le 0 i)), (proj2 (Z.ltb_lt i _)) by lia. done. Qed.

Lemma bit_test i : 0 <= i -> (Z.land (byte q (i / 8)) (2 ^ (i mod 8)) =? 0) = negb (qbit q i).
Proof.
  intros Hi. pose proof (flag_bit (byte q (i / 8)) (i mod 8) ltac:(apply Z.mod_pos_bound; lia)) as H. unfold flag in H. unfold qbit.
  fold (byte q (i / 8)).
  rewrite <- H. by rewrite negb_involutive.
Qed.

(** The loops hold the byte of [i] and the bit of [i] in it. *)
Definition holds (map bit i : Z) : Prop := map = byte q (i / 8) /\ bit = 2 ^ (i mod 8).

Lemma holds_next map bit i : 0 <= i -> Z.land i (NBBY - 1) <> NBBY - 1 -> holds map bit i -> holds map (Z.shiftl bit 1) (i + 1) /\ (i + 1) / 8 = i / 8.
Proof.
  intros Hi Hb [-> ->]. change (NBBY - 1) with (Z.ones 3) in Hb. rewrite Z.land_ones in Hb by lia. change (2 ^ 3) with 8 in Hb.
  change (Z.ones 3) with 7 in Hb.
  assert ((i + 1) / 8 = i / 8 /\ (i + 1) mod 8 = i mod 8 + 1) as [E1 E2] by dlia. unfold holds. rewrite E1, E2.
  rewrite Z.shiftl_mul_pow2, <- Z.pow_add_r by (apply Z.mod_pos_bound || idtac; lia). done.
Qed.

Lemma holds_prev map bit i : 0 <= i -> Z.land i (NBBY - 1) <> 0 -> holds map bit i -> holds map (Z.shiftr bit 1) (i - 1) /\ (i - 1) / 8 = i / 8.
Proof.
  intros Hi Hb [-> ->]. change (NBBY - 1) with (Z.ones 3) in Hb. rewrite Z.land_ones in Hb by lia. change (2 ^ 3) with 8 in Hb.
  assert ((i - 1) / 8 = i / 8 /\ (i - 1) mod 8 = i mod 8 - 1 /\ 1 <= i mod 8) as (E1 & E2 & E3) by dlia. unfold holds. rewrite E1, E2.
  rewrite Z.shiftr_div_pow2, Z.pow_sub_r by lia. done.
Qed.

Lemma cluster_forw_spec fuel map bit i stop : 0 <= i -> (i < stop -> holds map bit i) -> stop <= 8 * Z.of_nat (length q) -> stop - i <= Z.of_nat fuel ->
  exists j, cluster_forw stray fuel q (i / 8 + 1) map bit i stop = Ret j /\ i <= j /\ (i <= stop -> j <= stop) /\
    (forall x, i <= x < j -> qbit q x = true) /\ (j < stop -> qbit q j = false).
Proof.
  revert map bit i. induction fuel as [|fuel IH]; intros map bit i Hi Hh Hs Hf; cbn [cluster_forw].
  all: destruct (Z.ltb_spec i stop) as [Hlt|Hge]; [|exists i; conj; (done || lia)].
  - lia.
  - specialize (Hh Hlt). pose proof Hh as [-> ->]. rewrite bit_test by done. destruct (qbit q i) eqn:E; cbn [negb]; [|exists i; conj; (done || lia)].
    destruct (Z.eqb_spec (Z.land i (NBBY - 1)) (NBBY - 1)) as [Hl|Hl]; cbn [negb].
    + change (NBBY - 1) with (Z.ones 3) in Hl. rewrite Z.land_ones in Hl by lia. change (2 ^ 3) with 8 in Hl. change (Z.ones 3) with 7 in Hl.
      assert (i / 8 + 1 = (i + 1) / 8 /\ (i + 1) mod 8 = 0) as [E1 E2] by dlia. rewrite E1.
      destruct (IH (peek stray q ((i + 1) / 8)) 1 (i + 1)) as (j & -> & H1 & H2 & H3 & H4); try lia.
      * intros Hlt'. split; [|by rewrite E2]. apply peek_inside. dlia.
      * exists j. conj; try done; try lia. intros x Hx. destruct (decide (x = i)) as [->|]; [done|]. apply H3. lia.
    + destruct (holds_next _ _ _ Hi Hl Hh) as [Hn En]. replace (i / 8 + 1) with ((i + 1) / 8 + 1) by lia.
      destruct (IH _ _ (i + 1) ltac:(lia) (fun _ => Hn) Hs ltac:(lia)) as (j & -> & H1 & H2 & H3 & H4).
      exists j. conj; try done; try lia. intros x Hx. destruct (decide (x = i)) as [->|]; [done|]. apply H3. lia.
Qed.

Lemma cluster_back_spec fuel mapp map bit i stop : -1 <= stop -> (stop < i -> holds map bit i) -> (0 <= i -> mapp = i / 8 - 1) ->
  i < 8 * Z.of_nat (length q) -> i - stop <= Z.of_nat fuel ->
  exists j, cluster_back stray fuel q mapp map bit i stop = Ret j /\ j <= i /\ (stop <= i -> stop <= j) /\
    (forall x, j < x <= i -> qbit q x = true) /\ (stop < j -> qbit q j = false).
Proof.
  intros Hst. revert mapp map bit i. induction fuel as [|fuel IH]; intros mapp map bit i Hh Hm Hi Hf; cbn [cluster_back].
  all: destruct (Z.ltb_spec stop i) as [Hlt|Hge]; [|exists i; conj; (done || lia)].
  - lia.
  - specialize (Hh Hlt). pose proof Hh as [-> ->]. rewrite bit_test by lia. destruct (qbit q i) eqn:E; cbn [negb]; [|exists i; conj; (done || lia)].
    rewrite (Hm ltac:(lia)). destruct (Z.eqb_spec (Z.land i (NBBY - 1)) 0) as [Hl|Hl]; cbn [negb].
    + change (NBBY - 1) with (Z.ones 3) in Hl. rewrite Z.land_ones in Hl by lia. change (2 ^ 3) with 8 in Hl.
      destruct (IH (i / 8 - 1 - 1) (peek stray q (i / 8 - 1)) (Z.shiftl 1 (NBBY - 1)) (i - 1)) as (j & -> & H1 & H2 & H3 & H4); try lia.
      * intros Hlt'. assert ((i - 1) / 8 = i / 8 - 1 /\ (i - 1) mod 8 = 7) as [E1 E2] by dlia. split; [|by rewrite E2]. rewrite <- E1.
        apply peek_inside. dlia.
      * intros Hi'. dlia.
      * exists j. conj; try done; try lia. intros x Hx. destruct (decide (x = i)) as [->|]; [done|]. apply H3. lia.
    + destruct (holds_prev _ _ i ltac:(lia) Hl Hh) as [Hn En].
      destruct (IH (i / 8 - 1) _ _ (i - 1) (fun _ => Hn)) as (j & -> & H1 & H2 & H3 & H4); try lia.
      exists j. conj; try done; try lia. intros x Hx. destruct (decide (x = i)) as [->|]; [done|]. apply H3. lia.
Qed.
End Loops.

(** ** The clusters of a map *)

Definition cbits (q : list Z) (n : Z) : list bool := qbit q <$> seqZ 0 n.

Lemma cbits_length q n : 0 <= n -> Z.of_nat (length (cbits q n)) = n.
Proof. intros Hn. unfold cbits. rewrite length_fmap, length_seqZ. lia. Qed.

Lemma cbits_lookup q n i : 0 <= i < n -> cbits q n !! Z.to_nat i = Some (qbit q i).
Proof. intros Hi. unfold cbits. rewrite list_lookup_fmap, lookup_seqZ_lt by lia. simpl. do 2 f_equal. lia. Qed.

Lemma seqZ_split n b : 0 <= b < n -> seqZ 0 n = seqZ 0 b ++ b :: seqZ (b + 1) (n - b - 1).
Proof.
  intros Hb. replace n with (b + (n - b)) at 1 by lia. rewrite seqZ_app by lia. f_equal. rewrite seqZ_cons by lia. rewrite Z.add_0_l.
  do 2 f_equal; lia.
Qed.

Lemma cbits_split q n b : 0 <= b < n -> cbits q n = cbits q b ++ qbit q b :: (qbit q <$> seqZ (b + 1) (n - b - 1)).
Proof. intros Hb. unfold cbits. rewrite (seqZ_split n b) by done. by rewrite fmap_app, fmap_cons. Qed.

Lemma fmap_true q a n : (forall x, a <= x < a + n -> qbit q x = true) -> qbit q <$> seqZ a n = replicate (Z.to_nat n) true.
Proof.
  intros H. apply list_eq_same_length with (Z.to_nat n); [by rewrite length_replicate|by rewrite length_fmap, length_seqZ|].
  intros i x y Hi Hx Hy. rewrite list_lookup_fmap, lookup_seqZ_lt in Hx by lia. simpl in Hx. rewrite H in Hx by lia.
  apply lookup_replicate in Hy as [-> _]. congruence.
Qed.

(** The runs around block [b], as far as the loops follow them. *)
Lemma lead_found q b n cap j : 0 <= b -> b <= n -> 0 <= cap -> let stop := Z.min n (b + cap) in b <= j <= stop ->
  (forall x, b <= x < j -> qbit q x = true) -> (j < stop -> qbit q j = false) ->
  j - b = Z.min (Z.of_nat (lead (qbit q <$> seqZ b (n - b)))) cap.
Proof.
  intros Hb Hn Hc stop Hj Ht Hf. assert (n - b = (j - b) + (n - j)) as E by lia.
  rewrite E, seqZ_app, fmap_app, fmap_true, lead_app by (lia || (intros x Hx; apply Ht; lia)).
  destruct (decide (j < stop)) as [Hlt|Hge].
  - rewrite (seqZ_cons (b + (j - b))) by lia. replace (b + (j - b)) with j by lia. rewrite fmap_cons, Hf by done. simpl lead. lia.
  - destruct (decide (stop = b + cap)); [lia|]. assert (j = n) as -> by lia. replace (n - n) with 0 by lia. simpl lead. lia.
Qed.

Lemma trail_found q b cap j : 0 <= b -> 0 <= cap -> let stop := Z.max (-1) (b - 1 - cap) in stop <= j <= b - 1 ->
  (forall x, j < x <= b - 1 -> qbit q x = true) -> (stop < j -> qbit q j = false) ->
  b - 1 - j = Z.min (Z.of_nat (trail 0 (cbits q b))) cap.
Proof.
  intros Hb Hc stop Hj Ht Hf. unfold cbits. assert (b = (j + 1) + (b - 1 - j)) as E by lia. rewrite E at 2.
  rewrite seqZ_app, fmap_app, trail_app, (fmap_true q (0 + (j + 1))) by (lia || (intros x Hx; apply Ht; lia)). rewrite trail_replicate.
  destruct (decide (stop < j)) as [Hlt|Hge].
  - rewrite seqZ_app by lia. rewrite fmap_app, trail_app. change (seqZ (0 + j) 1) with [0 + j]. rewrite Z.add_0_l. cbn [fmap list_fmap].
    rewrite Hf by done. simpl trail. lia.
  - destruct (decide (stop = b - 1 - cap)); [lia|]. assert (j = -1) as -> by lia. simpl trail. lia.
Qed.

(** ** [ffs_clusteracct] *)

(** The array [l] has the value [v k] at the places [k] from 1 to [n]. *)
Definition vec (n : Z) (v : Z -> Z) (l : list Z) : Prop := Z.of_nat (length l) = n + 1 /\ forall k, 1 <= k <= n -> l !! Z.to_nat k = Some (v k).

Lemma aadd_vec n v l i x : vec n v l -> 1 <= i <= n -> is_s 32 (v i + x) -> exists l', aadd 32 l i x = Ret l' /\ vec n (fun k => v k + if k =? i then x else 0) l'.
Proof.
  intros [Hl Hv] Hi Hs. unfold aadd. rewrite (aget_Some l i (v i)) by (lia || by apply Hv). cbn [bind]. rewrite aset_bounds by lia. eexists.
  split; [done|].
  split; [by rewrite length_insert|]. intros k Hk. rewrite swrap_small by (done || lia). destruct (Z.eqb_spec k i) as [->|Hne].
  - apply list_lookup_insert_eq. lia.
  - rewrite list_lookup_insert_ne by lia. rewrite Hv by done. f_equal. lia.
Qed.

Lemma aadd_vec_if n v l i x : vec n v l -> 0 <= i <= n -> is_s 32 (v i + x) ->
  exists l', (if 0 <? i then aadd 32 l i x else Ret l) = Ret l' /\ vec n (fun k => v k + if k =? i then x else 0) l'.
Proof.
  intros Hv Hi Hs. destruct (Z.ltb_spec 0 i); [apply aadd_vec; (done || lia)|]. exists l. split; [done|]. destruct Hv as [Hl Hv]. split; [done|].
  intros k Hk. rewrite Hv by done. f_equal. case_if; lia.
Qed.

Lemma vec_ext n v v' l : vec n v l -> (forall k, 1 <= k <= n -> v k = v' k) -> vec n v' l.
Proof. intros [Hl Hv] E. split; [done|]. intros k Hk. by rewrite <- E, Hv. Qed.

Definition is_max (v : Z -> Z) (n m : Z) : Prop := 0 <= m <= n /\ (0 < m -> 0 < v m) /\ forall k, m < k <= n -> v k <= 0.

Lemma cluster_max_spec n v l m : vec n v l -> Z.of_nat m <= n -> exists r, cluster_max l m = Ret r /\ is_max v (Z.of_nat m) r.
Proof.
  intros [Hl Hv] Hm. induction m as [|m IH]; cbn [cluster_max].
  { exists 0. split; [done|]. split; [lia|]. split; intros; lia. }
  rewrite (aget_Some l _ (v (Z.of_nat (S m)))) by (lia || (apply Hv; lia)). cbn [bind]. destruct (Z.ltb_spec 0 (v (Z.of_nat (S m)))).
  - exists (Z.of_nat (S m)). split; [done|]. split; [lia|]. split; [done|]. intros; lia.
  - destruct (IH ltac:(lia)) as (r & -> & H1 & H2 & H3). exists r. split; [done|]. split; [lia|]. split; [done|].
    intros k Hk. destruct (decide (k = Z.of_nat (S m))) as [->|]; [done|]. apply H3. lia.
Qed.

(** A block between a cluster of [t] blocks and one of [d]. *)
Lemma clusters_change cap q q' n b k : 0 <= b < n -> 0 < cap -> 1 <= k <= cap -> (forall x, 0 <= x -> x <> b -> qbit q' x = qbit q x) -> qbit q b = false -> qbit q' b = true ->
  let t := Z.min (Z.of_nat (trail 0 (cbits q b))) cap in let d := Z.min (Z.of_nat (lead (qbit q <$> seqZ (b + 1) (n - (b + 1))))) cap in
  clusters cap (cbits q' n) k = clusters cap (cbits q n) k + (if k =? Z.min (t + d + 1) cap then 1 else 0) - (if k =? t then 1 else 0) - (if k =? d then 1 else 0).
Proof.
  intros Hb Hc Hk Hsame Hf Ht t d. unfold clusters. rewrite (cbits_split q n b), (cbits_split q' n b), Hf, Ht by done.
  assert (cbits q' b = cbits q b) as ->.
  { unfold cbits. apply list_fmap_ext. intros i x Hx. apply lookup_seqZ in Hx as [-> Hx]. apply Hsame; lia. }
  assert (qbit q' <$> seqZ (b + 1) (n - b - 1) = qbit q <$> seqZ (b + 1) (n - b - 1)) as ->.
  { apply list_fmap_ext. intros i x Hx. apply lookup_seqZ in Hx as [-> Hx]. apply Hsame; lia. }
  rewrite rsum_split, rsum_join by (apply of_size_0; lia). replace (n - b - 1) with (n - (b + 1)) by lia.
  set (L := lead _) in *. set (T := trail 0 _) in *. unfold of_size. rewrite (proj2 (Z.eqb_neq k 0)) by lia. rewrite !andb_true_r.
  unfold t, d. rewrite !(Z.eqb_sym k).
  replace (Z.min (Z.min (Z.of_nat T) cap + Z.min (Z.of_nat L) cap + 1) cap) with (Z.min (Z.of_nat (T + 1 + L)) cap) by lia. lia.
Qed.

Section Acct.
Context (f : fs) (stray : Z -> Z) (wild : Z) (q : list Z) (n b : Z).
Context (Hcap : 0 < fs_contigsumsize f < 2 ^ 30) (Hb : 0 <= b < n) (Hn : n < 2 ^ 30) (Hl : n <= 8 * Z.of_nat (length q)).

Local Notation cap := (fs_contigsumsize f).

(** The loops find the clusters in front of the block and behind it. *)
Lemma found_forw :
  let start := s32 (b + 1) in let stop := if n <=? start + cap then n else start + cap in
  exists i, cluster_forw stray (Z.to_nat cap) q (start `quot` NBBY + 1) (peek stray q (start `quot` NBBY)) (bit_of wild (start `rem` NBBY)) start stop = Ret i /\
    i - start = Z.min (Z.of_nat (lead (qbit q <$> seqZ (b + 1) (n - (b + 1))))) cap.
Proof using Hb Hcap Hl Hn.
  cbv zeta. unfold s32, NBBY. rewrite swrap_small by (unfold is_s; lia). rewrite Z.quot_div_nonneg, Z.rem_mod_nonneg by lia.
  assert ((if n <=? b + 1 + cap then n else b + 1 + cap) = Z.min n (b + 1 + cap)) as -> by (case_if; lia).
  destruct (cluster_forw_spec stray q (Z.to_nat cap) (peek stray q ((b + 1) / 8)) (bit_of wild ((b + 1) mod 8)) (b + 1) (Z.min n (b + 1 + cap)))
    as (j & -> & H1 & H2 & H3 & H4); try lia.
  - intros Hlt. split; [apply peek_inside; dlia|]. unfold bit_of. pose proof (Z.mod_pos_bound (b + 1) 8 ltac:(lia)).
    rewrite (proj2 (Z.ltb_ge _ 0)), Z.shiftl_1_l by lia. done.
  - exists j. split; [done|]. apply lead_found; (done || lia).
Qed.

Lemma found_back :
  let start := s32 (b - 1) in let stop := if start - cap <? 0 then -1 else start - cap in
  exists i, cluster_back stray (Z.to_nat cap) q (start `quot` NBBY - 1) (peek stray q (start `quot` NBBY)) (bit_of wild (start `rem` NBBY)) start stop = Ret i /\
    start - i = Z.min (Z.of_nat (trail 0 (cbits q b))) cap.
Proof using Hb Hcap Hl Hn.
  cbv zeta. unfold s32, NBBY. rewrite swrap_small by (unfold is_s; lia).
  assert ((if b - 1 - cap <? 0 then -1 else b - 1 - cap) = Z.max (-1) (b - 1 - cap)) as -> by (case_if; lia).
  destruct (cluster_back_spec stray q (Z.to_nat cap) ((b - 1) `quot` 8 - 1) (peek stray q ((b - 1) `quot` 8)) (bit_of wild ((b - 1) `rem` 8)) (b - 1) (Z.max (-1) (b - 1 - cap)))
    as (j & -> & H1 & H2 & H3 & H4); try lia.
  - intros Hlt. rewrite Z.quot_div_nonneg, Z.rem_mod_nonneg by lia. split; [apply peek_inside; dlia|]. unfold bit_of.
    pose proof (Z.mod_pos_bound (b - 1) 8 ltac:(lia)).
    rewrite (proj2 (Z.ltb_ge _ 0)), Z.shiftl_1_l by lia. done.
  - intros H. rewrite Z.quot_div_nonneg by lia. done.
  - exists j. split; [done|]. apply trail_found; (done || lia).
Qed.
End Acct.

Definition clus_ok (f : fs) (c : cg) : Prop :=
  bytes_ok (cg_clustersfree c) /\ 0 <= cg_nclusterblks c < 2 ^ 30 /\ cg_nclusterblks c <= 8 * Z.of_nat (length (cg_clustersfree c)) /\
  vec (fs_contigsumsize f) (clusters (fs_contigsumsize f) (cbits (cg_clustersfree c) (cg_nclusterblks c))) (cg_clustersum c).

Lemma clusteracct_spec f stray wild s c b cnt : 0 < fs_contigsumsize f < 2 ^ 30 -> clus_ok f c -> 0 <= b < cg_nclusterblks c ->
  0 <= cg_cgx c < Z.of_nat (length (fs_maxcluster s)) -> cnt = 1 /\ qbit (cg_clustersfree c) b = false \/ cnt = -1 /\ qbit (cg_clustersfree c) b = true ->
  exists q' sump m, ffs_clusteracct f stray wild s c b cnt = Ret (set_maxcluster (<[Z.to_nat (cg_cgx c) := m]> (fs_maxcluster s)) s, set_clusters sump q' c) /\
    bit_update (cg_clustersfree c) q' (eq b) (0 <? cnt) /\ clus_ok f (set_clusters sump q' c) /\
    is_max (clusters (fs_contigsumsize f) (cbits q' (cg_nclusterblks c))) (fs_contigsumsize f) m.
Proof.
  intros Hcap (Hq & Hn & Hl & Hv) Hb Hx Hcnt. set (cap := fs_contigsumsize f) in *. set (q := cg_clustersfree c) in *.
  set (n := cg_nclusterblks c) in *.
  unfold ffs_clusteracct. fold cap. rewrite (proj2 (Z.leb_gt cap 0)) by lia. fold q n.
  assert (exists q', (if 0 <? cnt then setbit q b else clrbit q b) = Ret q' /\ bit_update q q' (eq b) (0 <? cnt)) as (q' & -> & U).
  { destruct Hcnt as [[-> _]|[-> _] ]; [apply setbit_qbit|apply clrbit_qbit]; (done || lia). }
  pose proof U as (Hl' & Hq' & Hin & Hout). cbn [bind]. assert (n <= 8 * Z.of_nat (length q')) as Hlq' by lia. cbv zeta.
  pose proof (found_forw f stray wild q' n b Hcap Hb ltac:(lia) Hlq') as Hff.
  pose proof (found_back f stray wild q' n b Hcap Hb ltac:(lia) Hlq') as Hfb.
  cbv zeta in Hff, Hfb. fold cap in Hff, Hfb. destruct Hff as (i & -> & Ef). cbn [bind]. destruct Hfb as (j & -> & Eb). cbn [bind]. rewrite Ef, Eb.
  set (t := Z.min (Z.of_nat (trail 0 (cbits q' b))) cap) in *. set (d := Z.min (Z.of_nat (lead _)) cap) in *.
  set (v := clusters cap (cbits q n)) in *. set (v' := clusters cap (cbits q' n)).
  assert (forall k, 0 <= v k <= n) as Hvb by (intros k; pose proof (clusters_bounds cap (cbits q n) k); rewrite cbits_length in * by lia; done).
  assert (0 <= t <= cap /\ 0 <= d <= cap) as [Ht Hd] by (unfold t, d; lia).
  assert (forall k, 1 <= k <= cap -> v' k = v k + (if k =? Z.min (t + d + 1) cap then cnt else 0) + (if k =? t then - cnt else 0) + (if k =? d then - cnt else 0)) as Hv'.
  { assert (cbits q b = cbits q' b) as E1 by (apply list_fmap_ext; intros k x Hxk; apply lookup_seqZ in Hxk as [-> Hxk]; symmetry; apply Hout; lia).
    assert (qbit q <$> seqZ (b + 1) (n - (b + 1)) = qbit q' <$> seqZ (b + 1) (n - (b + 1))) as E2
      by (apply list_fmap_ext; intros k x Hxk; apply lookup_seqZ in Hxk as [-> Hxk]; symmetry; apply Hout; lia).
    intros k Hk. destruct Hcnt as [[-> Hq0]|[-> Hq1] ].
    - pose proof (clusters_change cap q q' n b k Hb ltac:(lia) Hk ltac:(intros; apply Hout; congruence) Hq0 (Hin b ltac:(lia) eq_refl)) as H.
      cbv zeta in H. rewrite E1, E2 in H. fold t d v v' in H. rewrite H. repeat case_if; lia.
    - pose proof (clusters_change cap q' q n b k Hb ltac:(lia) Hk ltac:(intros; symmetry; apply Hout; congruence) (Hin b ltac:(lia) eq_refl) Hq1) as H.
      cbv zeta in H. fold t d v v' in H. rewrite H. repeat case_if; lia. }
  assert ((if cap <? t + d + 1 then cap else t + d + 1) = Z.min (t + d + 1) cap) as -> by (case_if; lia).
  destruct (aadd_vec cap v (cg_clustersum c) (Z.min (t + d + 1) cap) cnt Hv ltac:(lia)) as (l1 & -> & V1); [unfold is_s; specialize (Hvb (Z.min (t + d + 1) cap)); lia|].
  cbn [bind]. assert (forall k, -3 <= (if k =? Z.min (t + d + 1) cap then cnt else 0) <= 3) as H3 by (intros k; case_if; lia).
  destruct (aadd_vec_if cap _ l1 t (- cnt) V1 ltac:(lia)) as (l2 & -> & V2); [unfold is_s; cbv beta; specialize (Hvb t); specialize (H3 t); lia|].
  cbn [bind].
  destruct (aadd_vec_if cap _ l2 d (- cnt) V2 ltac:(lia)) as (l3 & -> & V3); [unfold is_s; cbv beta; specialize (Hvb d); specialize (H3 d); destruct (d =? t); lia|].
  cbn [bind].
  apply (vec_ext _ _ v') in V3; [|intros k Hk; by rewrite Hv'].
  destruct (cluster_max_spec cap v' l3 (Z.to_nat cap) V3 ltac:(lia)) as (m & -> & Hm). cbn [bind]. rewrite aset_bounds by done. cbn [bind].
  exists q', l3, m. conj; try done. rewrite Z2Nat.id in Hm by lia. done.
Qed.
