(* ===== verification/FfsInv.v ===== *)
(** * Consistent groups and disks

    The invariant of a cylinder group, the copies of its counts in the superblock,
    what it takes to keep them when a block stops or starts being free,
    [ffs_alloccgblk], and the invariant of the whole file system. *)

From S2P Require Import Prelude Bitmap Ffs FfsMap.

(** * A consistent cylinder group

    The summaries of a group agree with its map of free fragments.  Every change
    of the map is one of the fragments of one block; what has to be done to the
    summaries then is the same for all operations. *)

(** ** Sums over blocks *)

Fixpoint sumn (h : Z -> Z) (n : nat) : Z := match n with O => 0 | S n => sumn h n + h (Z.of_nat n) end.

Lemma sumn_ext h h' n : (forall b, 0 <= b < Z.of_nat n -> h b = h' b) -> sumn h n = sumn h' n.
Proof. induction n as [|n IH]; intros H; simpl; [done|]. rewrite IH, H by (lia || (intros; apply H; lia)). done. Qed.

Lemma sumn_change h h' n b : 0 <= b < Z.of_nat n -> (forall x, 0 <= x < Z.of_nat n -> x <> b -> h' x = h x) -> sumn h' n = sumn h n - h b + h' b.
Proof.
  intros Hb H. induction n as [|n IH]; simpl; [lia|]. destruct (decide (b = Z.of_nat n)) as [->|Hne].
  - rewrite (sumn_ext h' h); [lia|]. intros x Hx. apply H; lia.
  - rewrite IH by (lia || (intros; apply H; lia)). rewrite (H (Z.of_nat n)) by lia. lia.
Qed.

Lemma sumn_bounds h n k : (forall b, 0 <= b < Z.of_nat n -> 0 <= h b <= k) -> 0 <= sumn h n <= k * Z.of_nat n.
Proof. intros H. induction n as [|n IH]; simpl; [lia|]. specialize (IH ltac:(intros; apply H; lia)). specialize (H (Z.of_nat n) ltac:(lia)). lia. Qed.

Lemma sumn_le h h' n : (forall b, 0 <= b < Z.of_nat n -> h b <= h' b) -> sumn h n <= sumn h' n.
Proof. intros H. induction n as [|n IH]; simpl; [lia|]. specialize (IH ltac:(intros; apply H; lia)). specialize (H (Z.of_nat n) ltac:(lia)). lia. Qed.

Lemma sumn_pos h n : (forall b, 0 <= b < Z.of_nat n -> 0 <= h b) -> sumn h n <> 0 -> exists b, 0 <= b < Z.of_nat n /\ h b <> 0.
Proof.
  intros H Hn. induction n as [|n IH]; simpl in *; [done|].
  destruct (decide (h (Z.of_nat n) = 0)) as [E|E]; [|exists (Z.of_nat n); split; [lia|done] ].
  destruct IH as (b & Hb & Hb0); [intros; apply H; lia|lia|]. exists b. split; [lia|done].
Qed.

Lemma sumn_nonneg h n : (forall b, 0 <= b < Z.of_nat n -> 0 <= h b) -> 0 <= sumn h n.
Proof. intros H. induction n as [|n IH]; simpl; [lia|]. specialize (IH ltac:(intros; apply H; lia)). specialize (H (Z.of_nat n) ltac:(lia)). lia. Qed.

Lemma sumn_zero h n b : (forall b, 0 <= b < Z.of_nat n -> 0 <= h b) -> sumn h n = 0 -> 0 <= b < Z.of_nat n -> h b = 0.
Proof.
  intros H. induction n as [|n IH]; simpl; intros Hn Hb; [lia|]. pose proof (sumn_nonneg h n ltac:(intros; apply H; lia)).
  pose proof (H (Z.of_nat n) ltac:(lia)). destruct (decide (b = Z.of_nat n)) as [->|]; [lia|]. apply IH; [intros; apply H; lia|lia..].
Qed.

(** ** Tables of blocks by place *)

Definition one (p : bool) : Z := if p then 1 else 0.

(** The table [l] has, for each place, the number of blocks there that are marked. *)
Definition tab_ok (w : Z) (n : nat) (idx : Z -> Z) (mark : Z -> bool) (l : list Z) : Prop :=
  (forall b, 0 <= b < Z.of_nat n -> 0 <= idx b < Z.of_nat (length l)) /\
  (forall y, 0 <= y < Z.of_nat (length l) -> l !! Z.to_nat y = Some (sumn (fun b => one (mark b && (idx b =? y))) n)) /\
  (forall y, sumn (fun b => one (idx b =? y)) n < 2 ^ (w - 1)).

Lemma tab_update w n idx mark mark' l b k : 0 < w -> tab_ok w n idx mark l -> 0 <= b < Z.of_nat n -> (forall x, 0 <= x < Z.of_nat n -> x <> b -> mark' x = mark x) ->
  k = one (mark' b) - one (mark b) -> exists l', aadd w l (idx b) k = Ret l' /\ tab_ok w n idx mark' l'.
Proof.
  intros Hw (Hi & Hl & Hs) Hb Hm ->. specialize (Hi b Hb) as Hib. unfold aadd. rewrite (aget_Some l (idx b) _ ltac:(lia) (Hl (idx b) Hib)).
  cbn [bind].
  rewrite aset_bounds by done. eexists. split; [done|].
  assert (forall y, sumn (fun b => one (mark' b && (idx b =? y))) n = sumn (fun b => one (mark b && (idx b =? y))) n - one (mark b && (idx b =? y)) + one (mark' b && (idx b =? y))) as Hc.
  { intros y. apply (sumn_change (fun b => one (mark b && (idx b =? y)))); [done|]. intros x Hx Hne. by rewrite Hm. }
  unfold tab_ok. rewrite length_insert. conj; try done. intros y Hy. rewrite Hc. destruct (decide (y = idx b)) as [->|Hne].
  - rewrite list_lookup_insert_eq, Z.eqb_refl, !andb_true_r by lia. f_equal. rewrite swrap_small; [lia|done|].
    specialize (Hs (idx b)). specialize (Hc (idx b)). rewrite Z.eqb_refl, !andb_true_r in Hc.
    pose proof (sumn_bounds (fun b0 => one (mark' b0 && (idx b0 =? idx b))) n 1 ltac:(intros; unfold one; case_if; lia)) as H1.
    pose proof (sumn_le (fun b0 => one (mark' b0 && (idx b0 =? idx b))) (fun b0 => one (idx b0 =? idx b)) n ltac:(intros b0 _; cbv beta; destruct (mark' b0), (idx b0 =? idx b); cbn; lia)).
    unfold is_s. lia.
  - rewrite list_lookup_insert_ne by lia. rewrite Hl by done. rewrite (proj2 (Z.eqb_neq _ _)), !andb_false_r by done. f_equal. lia.
Qed.

(** ** The invariant *)

(** A superblock as [newfs] makes it, for less than 2^31 fragments. *)
Record fs_ok (f : fs) : Prop := {
  fo_frag : frag_ok (fs_frag f);
  fo_fragshift : 0 <= fs_fragshift f /\ fs_frag f = 2 ^ fs_fragshift f;
  fo_size : 0 <= fs_fshift f /\ fs_fsize f = 2 ^ fs_fshift f /\ fs_bsize f = fs_frag f * fs_fsize f /\ fs_qfmask f = fs_fsize f - 1 /\ fs_bsize f < 2 ^ 31;
  fo_fpg : 0 < fs_fpg f < 2 ^ 30 /\ fs_fpg f mod fs_frag f = 0;
  fo_ncg : 0 < fs_ncg f < 2 ^ 30 /\ fs_ncg f * fs_fpg f < 2 ^ 31;
  fo_fs : 0 < fs_size f <= fs_ncg f * fs_fpg f;
  fo_cap : fs_contigsumsize f < 2 ^ 30;
  fo_ipg : 0 < fs_ipg f /\ fs_ipg f mod 8 = 0 /\ fs_ncg f * fs_ipg f < 2 ^ 31;
  fo_inopb : 0 < fs_inopb f /\ fs_ipg f + fs_inopb f < 2 ^ 31
}.

Section Inv.
Context (f : fs).

Local Notation F := (fs_frag f).

Definition nblk : nat := Z.to_nat (fs_fpg f / F).

(** The place of a block in the tables of the old format. *)
Definition cyl (b : Z) : Z := s32 (cbtocylno f (b * F)).
Definition rpos (b : Z) : Z := cyl b * fs_nrpos f + cbtorpos f (b * F).

Definition free_block (c : cg) (b : Z) : bool := blk F (cg_blksfree c) b =? whole F.

(** [mark] says which blocks the summaries take for free. *)
Definition pos_ok (mark : Z -> bool) (c : cg) : Prop :=
  fs_magic f = FS_UFS2_MAGIC \/ tab_ok 32 nblk cyl mark (cg_blktot c) /\ tab_ok 16 nblk rpos mark (cg_blks c).

(** The cluster map has the blocks of the group that are in the file system. *)
Definition cluster_ok (mark : Z -> bool) (c : cg) : Prop :=
  fs_contigsumsize f <= 0 \/ clus_ok f c /\ cg_nclusterblks c <= Z.of_nat nblk /\
    (forall b, 0 <= b < cg_nclusterblks c -> qbit (cg_clustersfree c) b = mark b) /\
    (forall b, 0 <= b < Z.of_nat nblk -> cg_cgx c * fs_fpg f + (b + 1) * F <= fs_size f -> b < cg_nclusterblks c).

(** In the new format, the inodes from [cg_initediblk] on have never been used:
    their blocks have yet to be cleared. *)
Definition inited (ino : inodes) : Prop :=
  fs_magic f = FS_UFS2_MAGIC -> (forall x, 0 <= x -> qbit (cg_inosused ino) x = true -> x < cg_initediblk ino) /\ 0 <= cg_irotor ino <= cg_initediblk ino /\ cg_ffs2_niblk ino = fs_ipg f.

Definition inode_ok (c : cg) : Prop :=
  bytes_ok (cg_inosused (cg_ino c)) /\ 8 * Z.of_nat (length (cg_inosused (cg_ino c))) = fs_ipg f /\ 0 <= cg_irotor (cg_ino c) < fs_ipg f /\
  cs_nifree (cg_cs c) = sumn (fun n => one (negb (qbit (cg_inosused (cg_ino c)) n))) (Z.to_nat (fs_ipg f)) /\ inited (cg_ino c).

Record marked (mark : Z -> bool) (c : cg) : Prop := {
  co_map : bytes_ok (cg_blksfree c) /\ Z.of_nat (length (cg_blksfree c)) = howmany (fs_fpg f) NBBY;
  co_end : forall x, 0 <= x -> qbit (cg_blksfree c) x = true -> x < fs_fpg f /\ cg_cgx c * fs_fpg f + x < fs_size f;
  co_nbfree : cs_nbfree (cg_cs c) = sumn (fun b => one (mark b)) nblk;
  co_nffree : cs_nffree (cg_cs c) = sumn (fun b => part F (blk F (cg_blksfree c) b)) nblk;
  co_frsum : length (cg_frsum c) = 8%nat /\ Forall (is_s 32) (cg_frsum c) /\
    forall k, 1 <= k < F -> cg_frsum c !! Z.to_nat k = Some (sumn (fun b => nruns F (blk F (cg_blksfree c) b) k) nblk);
  co_rotor : 0 <= cg_rotor c < fs_fpg f /\ 0 <= cg_frotor c < fs_fpg f;
  co_cluster : cluster_ok mark c;
  co_pos : pos_ok mark c;
  co_inode : inode_ok c
}.

(** The group is consistent: the free blocks are those of the map. *)
Definition cg_ok (c : cg) : Prop := marked (free_block c) c.

Context (Hf : fs_ok f).

Lemma HF : frag_ok F.
Proof using Hf. apply Hf. Qed.

Lemma nblk_fpg : Z.of_nat nblk * F = fs_fpg f /\ 0 < Z.of_nat nblk.
Proof using Hf.
  destruct (fo_fpg f Hf) as [H1 H2]. pose proof (frag_pos F HF) as HF. unfold nblk. pose proof (Z.div_mod (fs_fpg f) F ltac:(lia)) as Hd.
  rewrite H2 in Hd.
  rewrite Z2Nat.id by (apply Z.div_pos; lia). split; [lia|]. nia.
Qed.

Lemma in_group mark c x : marked mark c -> 0 <= x < fs_fpg f -> x < 8 * Z.of_nat (length (cg_blksfree c)).
Proof using Hf. intros Hc Hx. destruct (co_map mark c Hc) as [_ ->]. pose proof (howmany_range (fs_fpg f)). destruct (fo_fpg f Hf). lia. Qed.

Lemma block_start b : 0 <= b < Z.of_nat nblk -> 0 <= b * F < fs_fpg f.
Proof using Hf. intros Hb. destruct nblk_fpg as [E _]. pose proof (frag_pos F HF). nia. Qed.

Lemma frag_block x : 0 <= x -> x = x / F * F + x mod F /\ 0 <= x mod F < F /\ 0 <= x / F /\ (x < fs_fpg f -> x / F < Z.of_nat nblk).
Proof using Hf.
  intros Hx. pose proof (frag_pos F HF). destruct nblk_fpg as [E _]. pose proof (Z.div_mod x F ltac:(lia)).
  pose proof (Z.mod_pos_bound x F ltac:(lia)).
  pose proof (Z.div_pos x F Hx ltac:(lia)). conj; try lia. intros Hlt. apply Z.div_lt_upper_bound; lia.
Qed.

(** A free fragment is in a block of the group. *)
Lemma blk_in mark c b : marked mark c -> 0 <= b -> blk F (cg_blksfree c) b <> 0 -> b < Z.of_nat nblk.
Proof using Hf.
  intros Hc Hb Hn. destruct (decide (b < Z.of_nat nblk)) as [|Hge]; [done|]. exfalso. apply Hn. pose proof (frag_pos F HF) as HF1.
  destruct nblk_fpg as [E _].
  apply (map_eq F); [apply HF|apply blk_range, HF|pose proof (whole_bound F HF); lia|]. intros i Hi. rewrite Z.bits_0, blk_bit by (done || apply HF).
  destruct (qbit _ _) eqn:Eq; [|done]. apply (co_end mark c Hc) in Eq; nia.
Qed.

(** ** Changes of one block *)

(** The map [q'] is [q], with [m] for block [b]. *)
Definition changed (q q' : list Z) (b m : Z) : Prop :=
  length q' = length q /\ bytes_ok q' /\ (forall x, 0 <= x -> x <> b -> blk F q' x = blk F q x) /\ blk F q' b = m.

Lemma qbit_blk q x : 0 <= x -> qbit q x = Z.testbit (blk F q (x / F)) (x mod F).
Proof using Hf. intros Hx. destruct (frag_block x Hx) as (E & H1 & H2 & _). rewrite blk_bit by (done || apply HF). by rewrite <- E. Qed.

(** Only the part of the group that describes the map is new. *)
Definition same_rest (c c' : cg) : Prop :=
  cg_cgx c' = cg_cgx c /\ cs_nbfree (cg_cs c') = cs_nbfree (cg_cs c) /\ cs_nifree (cg_cs c') = cs_nifree (cg_cs c) /\
  cg_blktot c' = cg_blktot c /\ cg_blks c' = cg_blks c /\ cg_clustersum c' = cg_clustersum c /\ cg_clustersfree c' = cg_clustersfree c /\
  cg_nclusterblks c' = cg_nclusterblks c /\ cg_ino c' = cg_ino c.

Lemma marked_change mark c c' b m' : marked mark c -> same_rest c c' -> 0 <= b < Z.of_nat nblk -> changed (cg_blksfree c) (cg_blksfree c') b m' ->
  (forall i, 0 <= i < F -> Z.testbit m' i = true -> cg_cgx c * fs_fpg f + b * F + i < fs_size f) ->
  let m := blk F (cg_blksfree c) b in
  cs_nffree (cg_cs c') = cs_nffree (cg_cs c) - part F m + part F m' ->
  length (cg_frsum c') = 8%nat -> Forall (is_s 32) (cg_frsum c') ->
  (forall k x, 1 <= k < F -> cg_frsum c !! Z.to_nat k = Some x -> cg_frsum c' !! Z.to_nat k = Some (x - nruns F m k + nruns F m' k)) ->
  0 <= cg_rotor c' < fs_fpg f -> 0 <= cg_frotor c' < fs_fpg f -> marked mark c'.
Proof using Hf.
  intros [H1 H2 H3 H4 H5 H6 H7 H8 H9] (R1 & R2 & R3 & R4 & R5 & R6 & R7 & R8 & R9) Hb (Cl & Ck & Co & Cb) Hend m Hnf Hl8 Hs32 Hfr Hro Hfo.
  assert (forall g : Z -> Z, sumn (fun x => g (blk F (cg_blksfree c') x)) nblk = sumn (fun x => g (blk F (cg_blksfree c) x)) nblk - g m + g m') as Hsum.
  { intros g. rewrite (sumn_change (fun x => g (blk F (cg_blksfree c) x)) _ _ b Hb); [by rewrite Cb|]. intros x Hx Hne. rewrite Co; (done || lia). }
  split.
  - split; [done|]. rewrite Cl. apply H1.
  - intros x Hx Hq. destruct (frag_block x Hx) as (E & E1 & E2 & _). rewrite R1. destruct (decide (x / F = b)) as [Eb|Hne].
    + rewrite qbit_blk, Eb, Cb in Hq by done. apply Hend in Hq; [|done]. pose proof (block_start b Hb). destruct nblk_fpg. split; nia.
    + apply H2; [done|]. by rewrite qbit_blk, <- Co, <- qbit_blk by done.
  - by rewrite R2, H3.
  - rewrite Hnf, H4. symmetry. apply (Hsum (part F)).
  - conj; try done. intros k Hk. destruct H5 as (_ & _ & H5). rewrite (Hfr k _ Hk (H5 k Hk)). f_equal. symmetry. apply (Hsum (fun m => nruns F m k)).
  - done.
  - unfold cluster_ok, clus_ok in *. by rewrite R1, R6, R7, R8.
  - unfold pos_ok in *. by rewrite R4, R5.
  - unfold inode_ok in *. by rewrite R3, R9.
Qed.
End Inv.

(** * The summaries in the superblock

    The superblock has a copy of the summary of each group and their totals; a
    count changes in all three places at once. *)

Definition total (g : csum -> Z) (cgs : list cg) : Z := foldr Z.add 0 ((fun c => g (cg_cs c)) <$> cgs).

Lemma total_insert g cgs i c c' : cgs !! i = Some c -> total g (<[i := c']> cgs) = total g cgs - g (cg_cs c) + g (cg_cs c').
Proof.
  revert i. induction cgs as [|x cgs IH]; intros [|i] H; try done.
  - injection H as ->. unfold total. simpl. lia.
  - change (total g (x :: <[i := c']> cgs) = total g (x :: cgs) - g (cg_cs c) + g (cg_cs c')). specialize (IH i H). unfold total in *.
    rewrite !fmap_cons. cbn [foldr]. lia.
Qed.

Definition small (n : csum) : Prop := is_s 32 (cs_nbfree n) /\ is_s 32 (cs_nffree n) /\ is_s 32 (cs_nifree n).

Lemma total_small g cgs : Forall (fun c => is_s 32 (g (cg_cs c))) cgs -> - 2 ^ 31 * Z.of_nat (length cgs) <= total g cgs <= 2 ^ 31 * Z.of_nat (length cgs).
Proof. intros H. induction H as [|c cgs Hc _ IH]; [done|]. unfold total in *. rewrite fmap_cons. cbn [foldr length]. unfold is_s in Hc.
simpl Z.sub in Hc. lia. Qed.

Lemma total_ge0 g cgs : Forall (fun c => 0 <= g (cg_cs c)) cgs -> 0 <= total g cgs.
Proof. intros H. induction H as [|c cgs Hc _ IH]; [done|]. unfold total in *. rewrite fmap_cons. cbn [foldr]. lia. Qed.

(** A total of 0 is one of zeroes, and no total is less than an entry for each group. *)
Lemma total_zero g cgs i c : Forall (fun c => 0 <= g (cg_cs c)) cgs -> total g cgs = 0 -> cgs !! i = Some c -> g (cg_cs c) = 0.
Proof.
  intros H. revert i. induction H as [|x cgs Hx H IH]; intros i H0 Hi; [done|]. pose proof (total_ge0 g cgs H). unfold total in *.
  rewrite fmap_cons in H0. cbn [foldr] in H0.
  destruct i as [|i]; [injection Hi as ->; lia|]. apply (IH i); [lia|done].
Qed.

Lemma total_below g cgs k : Forall (fun c => g (cg_cs c) <= k) cgs -> total g cgs <= k * Z.of_nat (length cgs).
Proof. intros H. induction H as [|c cgs Hc _ IH]; [unfold total; simpl; lia|]. unfold total in *. rewrite fmap_cons. cbn [foldr length]. lia. Qed.

(** The superblock [s] agrees with the groups of [d], of which [c] is now number
    [i]; the largest clusters of the other groups are those of [d]. *)
Record books (d : disk) (i : Z) (s : incore) (c : cg) : Prop := {
  bk_i : 0 <= i < Z.of_nat (length (d_cgs d)) /\ Z.of_nat (length (d_cgs d)) < 2 ^ 30;
  bk_csp : fs_csp s = cg_cs <$> <[Z.to_nat i := c]> (d_cgs d);
  bk_small : Forall (fun c => small (cg_cs c)) (<[Z.to_nat i := c]> (d_cgs d));
  bk_nbfree : cs_nbfree (fs_cstotal s) = total cs_nbfree (<[Z.to_nat i := c]> (d_cgs d));
  bk_nffree : cs_nffree (fs_cstotal s) = total cs_nffree (<[Z.to_nat i := c]> (d_cgs d));
  bk_nifree : cs_nifree (fs_cstotal s) = total cs_nifree (<[Z.to_nat i := c]> (d_cgs d));
  bk_max : length (fs_maxcluster s) = length (d_cgs d);
  bk_others : forall j, j <> Z.to_nat i -> fs_maxcluster s !! j = fs_maxcluster (d_fs d) !! j
}.

(** [add] changes the three numbers by [db], [df] and [di]. *)
Definition adds (add : Z -> Z -> csum -> csum) (k db df di : Z) : Prop :=
  forall w n, 0 < w -> is_s w (cs_nbfree n) -> is_s w (cs_nffree n) -> is_s w (cs_nifree n) ->
    cs_nbfree (add w k n) = swrap w (cs_nbfree n + db) /\ cs_nffree (add w k n) = swrap w (cs_nffree n + df) /\ cs_nifree (add w k n) = swrap w (cs_nifree n + di).

Ltac adds_tac := intros w n Hw H1 H2 H3; simpl; rewrite ?Z.add_0_r; conj; try done; symmetry; by apply swrap_small.

Lemma adds_nbfree k : adds add_nbfree k k 0 0.
Proof. adds_tac. Qed.
Lemma adds_nffree k : adds add_nffree k 0 k 0.
Proof. adds_tac. Qed.
Lemma adds_nifree k : adds add_nifree k 0 0 k.
Proof. adds_tac. Qed.
Lemma adds_ndir k : adds add_ndir k 0 0 0.
Proof. adds_tac. Qed.

Lemma tally_spec add k db df di d i s c : adds add k db df di -> books d i s c -> is_s 32 (cs_nbfree (cg_cs c) + db) -> is_s 32 (cs_nffree (cg_cs c) + df) -> is_s 32 (cs_nifree (cg_cs c) + di) ->
  exists s' n, tally_csum add i k s c = Ret (s', set_cs n c) /\ books d i s' (set_cs n c) /\ fs_maxcluster s' = fs_maxcluster s /\
    cs_nbfree n = cs_nbfree (cg_cs c) + db /\ cs_nffree n = cs_nffree (cg_cs c) + df /\ cs_nifree n = cs_nifree (cg_cs c) + di.
Proof.
  intros Ha [Hi Hcsp Hsm Hb Hn Hii Hmx Hot] S1 S2 S3. unfold tally_csum. assert (Z.to_nat i < length (d_cgs d))%nat as Hlt by lia.
  assert (<[Z.to_nat i := c]> (d_cgs d) !! Z.to_nat i = Some c) as Hget by by apply list_lookup_insert_eq.
  pose proof (Forall_lookup_1 _ _ _ _ Hsm Hget) as (T1 & T2 & T3).
  rewrite (aget_Some (fs_csp s) i (cg_cs c)) by (lia || (by rewrite Hcsp, list_lookup_fmap, Hget)). cbn [bind].
  rewrite aset_bounds by (rewrite Hcsp, length_fmap, length_insert; lia). cbn [bind].
  destruct (Ha 32 (cg_cs c) ltac:(lia) T1 T2 T3) as (A1 & A2 & A3). rewrite swrap_small in A1, A2, A3 by (done || lia).
  eexists _, (add 32 k (cg_cs c)). split; [done|]. conj; try done.
  assert (forall g : csum -> Z, Forall (fun c => is_s 32 (g (cg_cs c))) (<[Z.to_nat i := c]> (d_cgs d)) -> is_s 64 (total g (<[Z.to_nat i := c]> (d_cgs d))) /\
    forall k, is_s 32 (g (cg_cs c) + k) -> is_s 64 (total g (<[Z.to_nat i := c]> (d_cgs d)) + k)) as Htot.
  { intros g Hg. apply total_small in Hg as Hts. rewrite length_insert in Hts. pose proof (Forall_lookup_1 _ _ _ _ Hg Hget) as Hgc. cbv beta in Hgc.
    unfold is_s in *. simpl Z.sub in *.
    split; [lia|]. intros j Hj. lia. }
  assert (forall g : csum -> Z, total g (<[Z.to_nat i := set_cs (add 32 k (cg_cs c)) c]> (d_cgs d)) = total g (<[Z.to_nat i := c]> (d_cgs d)) - g (cg_cs c) + g (add 32 k (cg_cs c))) as Hch.
  { intros g. rewrite <- (list_insert_insert_eq (d_cgs d) (Z.to_nat i) (set_cs (add 32 k (cg_cs c)) c) c). by rewrite (total_insert g _ _ c). }
  destruct (Htot cs_nbfree) as [B1 B2]; [eapply Forall_impl; [exact Hsm|]; intros x Hx; apply Hx|].
  destruct (Htot cs_nffree) as [B3 B4]; [eapply Forall_impl; [exact Hsm|]; intros x Hx; apply Hx|].
  destruct (Htot cs_nifree) as [B5 B6]; [eapply Forall_impl; [exact Hsm|]; intros x Hx; apply Hx|].
  destruct (Ha 64 (fs_cstotal s) ltac:(lia)) as (C1 & C2 & C3); [by rewrite ?Hb, ?Hn, ?Hii..|].
  rewrite Hb, Hn, Hii in *. rewrite !swrap_small in C1, C2, C3 by (lia || eauto).
  split; cbn [fs_csp fs_cstotal fs_maxcluster]; try done.
  - rewrite Hcsp, !list_fmap_insert, list_insert_insert_eq. done.
  - rewrite <- (list_insert_insert_eq (d_cgs d) (Z.to_nat i) _ c). apply Forall_insert; [done|]. unfold small. cbn [cg_cs set_cs].
    by rewrite A1, A2, A3.
  - rewrite C1, Hch, A1. lia.
  - rewrite C2, Hch, A2. lia.
  - rewrite C3, Hch, A3. lia.
Qed.

(** What does not concern the books. *)
Lemma books_cs d i s c c' : books d i s c -> cg_cs c' = cg_cs c -> books d i s c'.
Proof.
  intros [Hi Hcsp Hsm Hb Hn Hii Hmx Hot] E.
  assert (<[Z.to_nat i := c]> (d_cgs d) !! Z.to_nat i = Some c) as Hget by (apply list_lookup_insert_eq; lia).
  assert (forall g : csum -> Z, total g (<[Z.to_nat i := c']> (d_cgs d)) = total g (<[Z.to_nat i := c]> (d_cgs d))) as Hch.
  { intros g. rewrite <- (list_insert_insert_eq (d_cgs d) (Z.to_nat i) c' c). rewrite (total_insert g _ _ c _ Hget), E. lia. }
  split; try done; try (by rewrite Hch).
  - rewrite Hcsp, !list_fmap_insert. by rewrite E.
  - rewrite <- (list_insert_insert_eq (d_cgs d) (Z.to_nat i) c' c). apply Forall_insert; [done|]. rewrite E.
    by apply (Forall_lookup_1 _ _ _ _ Hsm Hget).
Qed.

Lemma books_modified d i s c : books d i s c -> books d i (modified s) c.
Proof. intros [H1 H2 H3 H4 H5 H6 H7 H8]. by split. Qed.

Lemma books_maxcluster d i s c m : books d i s c -> books d i (set_maxcluster (<[Z.to_nat i := m]> (fs_maxcluster s)) s) c.
Proof.
  intros [H1 H2 H3 H4 H5 H6 H7 H8]. split; try done; cbn [fs_maxcluster set_maxcluster]; [by rewrite length_insert|].
  intros j Hj. rewrite list_lookup_insert_ne by done. by apply H8.
Qed.

(** * Taking and giving back a block

    What [ffs_alloccgblk] and [ffs_blkfree] do when a block stops or starts being
    free: the map and the counts of the clusters, the numbers of free blocks, and
    the tables by cylinder and rotational position. *)

Section Ops.
Context (f : fs) (stray : Z -> Z) (wild : Z) (Hf : fs_ok f).

Local Notation F := (fs_frag f).
Local Notation cap := (fs_contigsumsize f).

Definition upd (mark : Z -> bool) (b : Z) (v : bool) : Z -> bool := fun x => if x =? b then v else mark x.

(** No cluster is larger than the superblock says. *)
Definition max_ok (s : incore) (c : cg) : Prop :=
  cap <= 0 \/ exists m, fs_maxcluster s !! Z.to_nat (cg_cgx c) = Some m /\ forall k, m < k <= cap -> clusters cap (cbits (cg_clustersfree c) (cg_nclusterblks c)) k = 0.

Lemma marked_ext mark mark' c : marked f mark c -> (forall b, 0 <= b < Z.of_nat (nblk f) -> mark b = mark' b) -> marked f mark' c.
Proof using.
  intros [H1 H2 H3 H4 H5 H6 H7 H8 H9] E. split; try done.
  - rewrite H3. apply sumn_ext. intros b Hb. by rewrite E.
  - destruct H7 as [H7|(H7 & H71 & H72 & H73)]; [by left|right]. conj; try done. intros b Hb. rewrite H72 by done. apply E. lia.
  - destruct H8 as [H8|[(A1 & A2 & A3) (B1 & B2 & B3)] ]; [by left|right].
    unfold tab_ok; conj; try done; intros y Hy; [rewrite A2|rewrite B2]; try done; f_equal; apply sumn_ext; intros b Hb; by rewrite E.
Qed.

(** The fields that a change of the summaries leaves alone. *)
Definition same_map (c c' : cg) : Prop :=
  cg_cgx c' = cg_cgx c /\ cg_blksfree c' = cg_blksfree c /\ cg_frsum c' = cg_frsum c /\ cg_rotor c' = cg_rotor c /\ cg_frotor c' = cg_frotor c /\
  cg_ino c' = cg_ino c /\ cs_nffree (cg_cs c') = cs_nffree (cg_cs c) /\ cs_nifree (cg_cs c') = cs_nifree (cg_cs c).

Lemma acct_step mark d s c b (v : bool) : marked f mark c -> books d (cg_cgx c) s c -> 0 <= b < Z.of_nat (nblk f) -> mark b = negb v ->
  cg_cgx c * fs_fpg f + (b + 1) * F <= fs_size f -> max_ok s c ->
  exists s' c', ffs_clusteracct f stray wild s c b (if v then 1 else -1) = Ret (s', c') /\ cluster_ok f (upd mark b v) c' /\ max_ok s' c' /\ books d (cg_cgx c) s' c' /\
    same_map c c' /\ cg_cs c' = cg_cs c /\ cg_blktot c' = cg_blktot c /\ cg_blks c' = cg_blks c.
Proof using Hf.
  intros Hm Hbk Hb Hv Hend Hmx. destruct (co_cluster _ _ _ Hm) as [Hcap|(Hc & Hn & Hq & Hin)].
  { exists s, c. unfold ffs_clusteracct. rewrite (proj2 (Z.leb_le cap 0)) by done. conj; try done. by left. }
  destruct (Z.leb_spec cap 0) as [Hc0|Hc0].
  { exists s, c. unfold ffs_clusteracct. rewrite (proj2 (Z.leb_le cap 0)) by done. conj; try done. by left. }
  assert (0 <= b < cg_nclusterblks c) as Hbn by (split; [lia|by apply Hin]). pose proof (bk_i _ _ _ _ Hbk) as Hi.
  pose proof (bk_max _ _ _ _ Hbk) as Hml.
  destruct (clusteracct_spec f stray wild s c b (if v then 1 else -1)) as (q' & sump & m & -> & U & Hc' & Hmax).
  - pose proof (fo_cap f Hf). lia.
  - done.
  - done.
  - rewrite Hml. lia.
  - rewrite Hq, Hv by done. destruct v; auto.
  - assert ((0 <? (if v then 1 else -1)) = v) as Ev by by destruct v. rewrite Ev in U. destruct U as (_ & _ & Uin & Uout). eexists _, _.
    split; [done|].
    conj; try done.
    + right. conj; try done. cbn [cg_clustersfree cg_nclusterblks set_clusters]. intros x Hx. unfold upd.
      destruct (Z.eqb_spec x b) as [->|Hne]; [apply Uin; [lia|done]|].
      rewrite Uout by (lia || congruence). by apply Hq.
    + right. exists m. cbn [fs_maxcluster set_maxcluster cg_cgx set_clusters]. split; [apply list_lookup_insert_eq; lia|].
      destruct Hmax as (_ & _ & Hmax). intros k Hk. specialize (Hmax k Hk). cbn [cg_clustersfree cg_nclusterblks set_clusters].
      pose proof (clusters_bounds cap (cbits q' (cg_nclusterblks c)) k). lia.
    + apply books_maxcluster. by eapply books_cs.
Qed.

Lemma pos_step mark c b (v : bool) : pos_ok f mark c -> 0 <= b < Z.of_nat (nblk f) -> mark b = negb v ->
  exists c', tally_pos f c (b * F) (if v then 1 else -1) = Ret c' /\ pos_ok f (upd mark b v) c' /\
    exists t p, c' = set_blkpos t p c.
Proof using Hf.
  intros Hp Hb Hv. unfold tally_pos. destruct (Z.eqb_spec (fs_magic f) FS_UFS2_MAGIC) as [E|E].
  { exists c. split; [done|]. split; [by left|]. exists (cg_blktot c), (cg_blks c). by destruct c. }
  destruct Hp as [Hp|[Ht Hr] ]; [done|]. assert (forall x, 0 <= x < Z.of_nat (nblk f) -> x <> b -> upd mark b v x = mark x) as Hu.
  { intros x _ Hne. unfold upd. by rewrite (proj2 (Z.eqb_neq x b)). }
  assert ((if v then 1 else -1) = one (upd mark b v b) - one (mark b)) as Ek by (unfold upd; rewrite Z.eqb_refl, Hv; by destruct v).
  destruct (tab_update 16 _ _ _ _ _ b _ ltac:(lia) Hr Hb Hu Ek) as (p & Ep & Hp).
  destruct (tab_update 32 _ _ _ _ _ b _ ltac:(lia) Ht Hb Hu Ek) as (t & Et & Ht').
  unfold rpos, cyl in Ep, Et. cbv zeta. rewrite Ep. cbn [bind]. rewrite Et. cbn [bind]. eexists. split; [done|]. split; [by right|]. by eexists _, _.
Qed.

Lemma nblk_small : Z.of_nat (nblk f) < 2 ^ 30.
Proof using Hf. destruct (nblk_fpg f Hf) as [E _]. pose proof (frag_pos F (HF f Hf)). destruct (fo_fpg f Hf) as [H' _]. nia. Qed.

Lemma nbfree_bounds mark c : marked f mark c -> 0 <= cs_nbfree (cg_cs c) <= Z.of_nat (nblk f).
Proof using.
  intros Hm. rewrite (co_nbfree _ _ _ Hm).
  pose proof (sumn_bounds (fun b => one (mark b)) (nblk f) 1 ltac:(intros; cbv beta; unfold one; case_if; lia)). lia.
Qed.

Lemma nffree_bounds mark c : marked f mark c -> 0 <= cs_nffree (cg_cs c) <= fs_fpg f.
Proof using Hf.
  intros Hm. rewrite (co_nffree _ _ _ Hm). destruct (nblk_fpg f Hf) as [E _].
  pose proof (sumn_bounds (fun b => part F (blk F (cg_blksfree c) b)) (nblk f) F ltac:(intros; cbv beta; apply pop_bounds; [apply HF|apply blk_range, HF]; done)).
  lia.
Qed.

Lemma books_small d i s c : books d i s c -> small (cg_cs c).
Proof using.
  intros Hb. pose proof (bk_i _ _ _ _ Hb). apply (Forall_lookup_1 _ _ (Z.to_nat i) c (bk_small _ _ _ _ Hb)). apply list_lookup_insert_eq. lia.
Qed.

Lemma toggle_spec mark d s c b (v : bool) : marked f mark c -> books d (cg_cgx c) s c -> 0 <= b < Z.of_nat (nblk f) -> mark b = negb v ->
  cg_cgx c * fs_fpg f + (b + 1) * F <= fs_size f -> max_ok s c ->
  let k := if v then 1 else -1 in
  exists s1 c1 s2 c2 c3, ffs_clusteracct f stray wild s c b k = Ret (s1, c1) /\ tally_csum add_nbfree (cg_cgx c) k s1 c1 = Ret (s2, c2) /\ tally_pos f c2 (b * F) k = Ret c3 /\
    marked f (upd mark b v) c3 /\ books d (cg_cgx c) s2 c3 /\ max_ok s2 c3 /\ same_map c c3 /\ cg_cgx c1 = cg_cgx c.
Proof using Hf.
  intros Hm Hbk Hb Hv Hend Hmx k.
  destruct (acct_step mark d s c b v Hm Hbk Hb Hv Hend Hmx) as (s1 & c1 & E1 & Hcl & Hmx1 & Hbk1 & Hs1 & Ecs & Et & Ep).
  pose proof (nbfree_bounds mark c Hm) as Hnb. pose proof nblk_small. destruct (books_small _ _ _ _ Hbk1) as (T1 & T2 & T3).
  destruct (tally_spec add_nbfree k k 0 0 d (cg_cgx c) s1 c1 (adds_nbfree k) Hbk1) as (s2 & n & E2 & Hbk2 & Emx & N1 & N2 & N3).
  { rewrite Ecs. unfold is_s, k. destruct v; lia. }
  { by rewrite Z.add_0_r. }
  { by rewrite Z.add_0_r. }
  assert (pos_ok f mark (set_cs n c1)) as Hp1 by (pose proof (co_pos _ _ _ Hm) as Hp; unfold pos_ok in *; cbn [cg_blktot cg_blks set_cs]; by rewrite Et, Ep).
  destruct (pos_step mark (set_cs n c1) b v Hp1 Hb Hv) as (c3 & E3 & Hp3 & t & p & ->).
  destruct Hs1 as (S1 & S2 & S3 & S4 & S5 & S6 & S7 & S8). exists s1, c1, s2, (set_cs n c1). eexists. conj; try done.
  - destruct Hm as [H1 H2 H3 H4 H5 H6 H7 H8 H9]. split.
    + cbn [cg_blksfree set_blkpos set_cs]. by rewrite S2.
    + cbn [cg_blksfree cg_cgx set_blkpos set_cs]. by rewrite S1, S2.
    + cbn [cg_cs set_blkpos set_cs]. rewrite N1, Ecs, H3. symmetry. rewrite (sumn_change (fun b => one (mark b)) _ _ b Hb); cbv beta.
      * unfold upd at 1. rewrite Z.eqb_refl, Hv. unfold k. destruct v; simpl; lia.
      * intros x _ Hne. unfold upd. by rewrite (proj2 (Z.eqb_neq x b)).
    + cbn [cg_cs cg_blksfree set_blkpos set_cs]. rewrite N2, Ecs, S2, H4. lia.
    + cbn [cg_frsum cg_blksfree set_blkpos set_cs]. by rewrite S2, S3.
    + cbn [cg_rotor cg_frotor set_blkpos set_cs]. by rewrite S4, S5.
    + exact Hcl.
    + exact Hp3.
    + unfold inode_ok in *. cbn [cg_ino cg_cs set_blkpos set_cs]. rewrite N3, Ecs, Z.add_0_r. by rewrite S6.
  - by eapply books_cs.
  - unfold max_ok in *. cbn [cg_cgx cg_clustersfree cg_nclusterblks set_blkpos set_cs]. by rewrite Emx.
  - unfold same_map. cbn -[Z.add Z.sub]. rewrite N2, N3, Ecs. conj; try done; lia.
Qed.
End Ops.

(** * Allocation of a block

    [ffs_alloccgblk] finds a free block in a consistent group that has one, takes
    exactly it, and keeps the group consistent. *)

Section Alloc.
Context (f : fs) (stray : Z -> Z) (wild : Z) (Hf : fs_ok f).

Local Notation F := (fs_frag f).

(** ** Addresses *)

Lemma fragstoblks_div x : fragstoblks f x = x / F.
Proof using Hf. unfold fragstoblks. destruct (fo_fragshift f Hf) as [H ->]. by apply Z.shiftr_div_pow2. Qed.

Lemma blkstofrags_mul x : blkstofrags f x = x * F.
Proof using Hf. unfold blkstofrags. destruct (fo_fragshift f Hf) as [H ->]. by apply Z.shiftl_mul_pow2. Qed.

Lemma fragnum_mod x : fragnum f x = x mod F.
Proof using Hf.
  unfold fragnum. destruct (fo_fragshift f Hf) as [H ->].
  replace (2 ^ fs_fragshift f - 1) with (Z.ones (fs_fragshift f)) by (rewrite Z.ones_equiv; lia).
  by apply Z.land_ones.
Qed.

Lemma blknum_down x : blknum f x = x / F * F.
Proof using Hf.
  unfold blknum. destruct (fo_fragshift f Hf) as [H ->].
  replace (2 ^ fs_fragshift f - 1) with (Z.ones (fs_fragshift f)) by (rewrite Z.ones_equiv; lia).
  rewrite <- Z.ldiff_land. rewrite Z.ldiff_ones_r by done. by rewrite Z.shiftl_mul_pow2, Z.shiftr_div_pow2.
Qed.

Lemma numfrags_div x : numfrags f x = x / fs_fsize f.
Proof using Hf. unfold numfrags. destruct (fo_size f Hf) as (H & -> & _). by apply Z.shiftr_div_pow2. Qed.

Lemma dtog_div x : 0 <= x -> dtog f x = x / fs_fpg f.
Proof using Hf. intros Hx. destruct (fo_fpg f Hf). apply Z.quot_div_nonneg; lia. Qed.

Lemma dtogd_mod x : 0 <= x -> dtogd f x = x mod fs_fpg f.
Proof using Hf. intros Hx. destruct (fo_fpg f Hf). apply Z.rem_mod_nonneg; lia. Qed.

(** A block of a group starts at a multiple of the size of a block. *)
Lemma group_block x : 0 <= x -> dtogd f (blknum f x) = dtogd f x / F * F.
Proof using Hf.
  intros Hx. rewrite blknum_down. destruct (frag_block f Hf x Hx) as (E & H1 & H2 & _). pose proof (frag_pos F (HF f Hf)). rewrite !dtogd_mod by nia.
  destruct (fo_fpg f Hf) as [Hp Hm]. destruct (nblk_fpg f Hf) as [En Hn]. rewrite <- En. set (N := Z.of_nat (nblk f)) in *.
  rewrite Z.mul_mod_distr_r by lia. rewrite (Z.mul_comm N F), Z.rem_mul_r by lia. rewrite (Z.mul_comm F ((x / F) mod N)), Z.div_add by lia.
  rewrite (Z.div_small (x mod F)) by lia. lia.
Qed.

(** ** Whole blocks *)

Lemma run_whole m pos : 0 <= m <= whole F -> 0 <= pos -> pos + F <= F -> run_at m pos F = true -> pos = 0 /\ m = whole F.
Proof using Hf.
  intros Hm Hp Hl Hr. assert (pos = 0) as -> by lia. split; [done|]. pose proof (whole_bound F (HF f Hf)).
  apply (map_eq F); [apply HF; done|done|lia|].
  intros i Hi. rewrite (run_at_bit m 0 F i Hr) by lia. pose proof (frag_pos F (HF f Hf)). rewrite whole_bit by lia. lia.
Qed.

(** A block of the map becomes empty or whole. *)
Lemma changed_block q q' b (v : bool) : 0 <= b -> bit_update q q' (fun j => j / F = b) v -> changed f q q' b (if v then whole F else 0).
Proof using Hf.
  intros Hb U. pose proof U as (Hl & Hk & _). pose proof (frag_pos F (HF f Hf)). assert (forall x i, 0 <= i < F -> (x * F + i) / F = x) as Hd.
  { intros x i Hi. rewrite Z.div_add_l, Z.div_small by lia. lia. }
  split; [done|]. split; [done|]. split.
  - intros x Hx Hne. apply (blk_same F (HF f Hf) _ _ _ _ U); [done|]. intros i Hi. by rewrite Hd.
  - apply (blk_all F (HF f Hf) _ _ _ _ U); [done|]. intros i Hi. by rewrite Hd.
Qed.

Lemma whole_in_fs c b : cg_ok f c -> 0 <= b -> free_block f c b = true -> b < Z.of_nat (nblk f) /\ cg_cgx c * fs_fpg f + (b + 1) * F <= fs_size f.
Proof using Hf.
  intros Hc Hb Hw. apply Z.eqb_eq in Hw. pose proof (whole_bound F (HF f Hf)). pose proof (frag_pos F (HF f Hf)).
  split; [apply (blk_in f Hf _ c b Hc Hb); lia|].
  assert (qbit (cg_blksfree c) (b * F + (F - 1)) = true) as Hq.
  { rewrite <- blk_bit by (apply HF; done) || lia. rewrite Hw, whole_bit by lia. lia. }
  apply (co_end _ _ _ Hc) in Hq; [lia|nia].
Qed.

Lemma map_bytes c b : cg_ok f c -> 0 <= b < Z.of_nat (nblk f) -> bytes_ok (cg_blksfree c) /\ b * F < 8 * Z.of_nat (length (cg_blksfree c)).
Proof using Hf. intros Hc Hb. split; [apply (co_map _ _ _ Hc)|]. apply (in_group f Hf _ c _ Hc). by apply block_start. Qed.

(** What is left of a group when a block of it is free no more, or again. *)
Lemma block_step d s c b (v : bool) q : cg_ok f c -> books d (cg_cgx c) s c -> max_ok f s c -> 0 <= b < Z.of_nat (nblk f) ->
  blk F (cg_blksfree c) b = (if v then 0 else whole F) -> cg_cgx c * fs_fpg f + (b + 1) * F <= fs_size f -> bit_update (cg_blksfree c) q (fun j => j / F = b) v ->
  let k := if v then 1 else -1 in
  exists s1 c1 s2 c2 c3, ffs_clusteracct f stray wild s (set_blksfree q c) b k = Ret (s1, c1) /\ tally_csum add_nbfree (cg_cgx c) k s1 c1 = Ret (s2, c2) /\
    tally_pos f c2 (b * F) k = Ret c3 /\ cg_cgx c1 = cg_cgx c /\ cg_cgx c3 = cg_cgx c /\ cg_ino c3 = cg_ino c /\
    cg_ok f c3 /\ books d (cg_cgx c) s2 c3 /\ max_ok f s2 c3 /\ cg_blksfree c3 = q /\ changed f (cg_blksfree c) q b (if v then whole F else 0).
Proof using Hf.
  intros Hc Hbk Hmx Hb Hm Hend U k. pose proof (whole_bound F (HF f Hf)) as Hw. pose proof (changed_block _ _ b v ltac:(lia) U) as Hch.
  assert (forall k, 1 <= k < F -> nruns F (whole F) k = 0) as Hwr.
  { intros j Hj. destruct (decide (nruns F (whole F) j = 0)) as [|Hn]; [done|]. apply (whole_run F (whole F) j (HF f Hf)) in Hn; [|lia..]. lia. }
  assert (part F (whole F) = 0) as Hpw by (unfold part; by rewrite Z.eqb_refl). pose proof (fun k => empty_map F k (HF f Hf)) as H0.
  assert (marked f (free_block f c) (set_blksfree q c)) as Hc1.
  { destruct (co_frsum _ _ _ Hc) as (L8 & S32 & _).
    eapply (marked_change f Hf _ c (set_blksfree q c) b); try done; try (by apply (co_rotor _ _ _ Hc)).
    - intros i Hi _. lia.
    - cbn [cg_cs set_blksfree]. rewrite Hm. destruct v; rewrite ?Hpw, ?(proj2 (H0 0)); lia.
    - intros j x Hj Hx. cbn [cg_frsum set_blksfree]. rewrite Hx, Hm. f_equal. destruct v; rewrite Hwr, (proj1 (H0 j)) by done; lia. }
  assert (free_block f c b = negb v) as Hfb by (unfold free_block; rewrite Hm; destruct v; [apply Z.eqb_neq; lia|by apply Z.eqb_refl]).
  destruct (toggle_spec f stray wild Hf (free_block f c) d s (set_blksfree q c) b v Hc1) as (s1 & c1 & s2 & c2 & c3 & E1 & E2 & E3 & Hc3 & Hb3 & Hx3 & Hs3 & Ex1); try done.
  { by eapply books_cs. }
  destruct Hs3 as (S1 & S2 & _ & _ & _ & S6 & _). exists s1, c1, s2, c2, c3. conj; try done.
  eapply marked_ext; [exact Hc3|]. intros x Hx. unfold upd, free_block. rewrite S2. cbn [cg_blksfree set_blksfree].
  destruct Hch as (_ & _ & Ho & Hbq).
  destruct (Z.eqb_spec x b) as [->|Hne]; [|by rewrite Ho by (lia || done)]. rewrite Hbq. destruct v; [by rewrite Z.eqb_refl|]. symmetry.
  apply Z.eqb_neq. lia.
Qed.

(** ** [ffs_alloccgblk] *)

Lemma some_free_block c : cg_ok f c -> cs_nbfree (cg_cs c) <> 0 -> exists b, 0 <= b /\ nruns F (blk F (cg_blksfree c) b) F <> 0.
Proof using Hf.
  intros Hc Hn. rewrite (co_nbfree _ _ _ Hc) in Hn. apply sumn_pos in Hn as (b & Hb & Hn); [|intros; unfold one; case_if; lia].
  exists b. split; [lia|]. unfold one, free_block in Hn. destruct (Z.eqb_spec (blk F (cg_blksfree c) b) (whole F)) as [->|]; [|done].
  by rewrite whole_has_run by (apply HF; done).
Qed.

(** Only the rotors of the group are new. *)
Definition turned (c c' : cg) : Prop := exists r r', c' = set_rotor r (set_frotor r' c) /\ 0 <= r < fs_fpg f /\ 0 <= r' < fs_fpg f.

Lemma turned_ok c c' : cg_ok f c -> turned c c' -> cg_ok f c'.
Proof using. intros [H1 H2 H3 H4 H5 H6 H7 H8 H9] (r & r' & -> & Hr & Hr'). split; try done. Qed.

Lemma byte_start x : 0 <= x < fs_fpg f -> 0 <= x / 8 * 8 < fs_fpg f.
Proof using. clear. dlia. Qed.

Lemma search_block c bpref : cg_ok f c -> cs_nbfree (cg_cs c) <> 0 -> 0 <= bpref ->
  exists b c', (let! (bno, c) := ffs_mapsearch f c bpref F in Ret (bno, set_rotor bno c)) = Ret (b * F, c') /\ turned c c' /\ 0 <= b < Z.of_nat (nblk f) /\ free_block f c b = true.
Proof using Hf.
  intros Hc Hn Hp. destruct (co_map _ _ _ Hc) as [Hq Hl]. destruct (fo_fpg f Hf) as [Hfpg _]. pose proof (frag_pos F (HF f Hf)) as HF1.
  destruct (ffs_mapsearch_spec f (HF f Hf) Hfpg c Hq Hl bpref F ltac:(lia) Hp (proj2 (co_rotor _ _ _ Hc)) (some_free_block c Hc Hn)) as (b & pos & -> & Hb & Hbl & Hpos & Hend & Hr).
  destruct (run_whole _ pos (blk_range F (cg_blksfree c) b (HF f Hf)) Hpos Hend Hr) as [-> Hw]. rewrite Z.add_0_r. cbn [bind].
  assert (b < Z.of_nat (nblk f)) as Hbn by (apply (blk_in f Hf _ c b Hc Hb); pose proof (whole_bound F (HF f Hf)); lia).
  pose proof (block_start f Hf b (conj Hb Hbn)) as Hst. exists b. eexists. split; [done|]. split; [|split; [done|by apply Z.eqb_eq] ].
  exists (b * F), (b * F / 8 * 8). split; [done|]. split; [done|by apply byte_start].
Qed.

(** The block that is taken: the preferred one, if it is free. *)
Lemma choose_block c bpref : cg_ok f c -> cs_nbfree (cg_cs c) <> 0 -> 0 <= bpref ->
  exists b c', (if (bpref =? 0) || negb (dtog f bpref =? cg_cgx c) then let! (bno, c) := ffs_mapsearch f c (cg_rotor c) F in Ret (bno, set_rotor bno c)
     else let bpref := blknum f bpref in let bno := dtogd f bpref in
       let! free := ffs_isblock f (cg_blksfree c) (fragstoblks f bno) in
       if free then Ret (bno, c) else let! (bno, c) := ffs_mapsearch f c bpref F in Ret (bno, set_rotor bno c)) = Ret (b * F, c') /\
    turned c c' /\ 0 <= b < Z.of_nat (nblk f) /\ free_block f c b = true /\
    (bpref <> 0 -> dtog f bpref = cg_cgx c -> free_block f c (dtogd f bpref / F) = true -> b = dtogd f bpref / F).
Proof using Hf.
  intros Hc Hn Hp. destruct ((bpref =? 0) || negb (dtog f bpref =? cg_cgx c)) eqn:E.
  { destruct (search_block c (cg_rotor c) Hc Hn (proj1 (proj1 (co_rotor _ _ _ Hc)))) as (b & c' & E' & Ht & Hb & Hw). exists b, c'.
    split; [exact E'|]. do 3 (split; [done|]). intros H1 H2. lia. }
  cbv zeta. rewrite group_block, fragstoblks_div by done. pose proof (frag_pos F (HF f Hf)) as HF1. rewrite Z.div_mul by lia.
  destruct (fo_fpg f Hf) as [Hfpg _]. assert (0 <= dtogd f bpref < fs_fpg f) as Hd by (rewrite dtogd_mod by done; apply Z.mod_pos_bound; lia).
  destruct (frag_block f Hf (dtogd f bpref) ltac:(lia)) as (_ & _ & Hd0 & Hdn). specialize (Hdn ltac:(lia)).
  destruct (map_bytes c _ Hc (conj Hd0 Hdn)) as [Hq Hl]. rewrite (proj1 (isblock_spec f (HF f Hf) _ Hq _ Hd0 Hl)). cbn [bind].
  fold (free_block f c (dtogd f bpref / F)).
  destruct (free_block f c (dtogd f bpref / F)) eqn:Efr.
  - exists (dtogd f bpref / F), c. split; [done|]. split; [|done]. exists (cg_rotor c), (cg_frotor c). split; [by destruct c|].
    apply (co_rotor _ _ _ Hc).
  - destruct (search_block c (blknum f bpref) Hc Hn) as (b & c' & E' & Ht & Hb & Hw); [|exists b, c'; do 4 (split; [done|]); done].
    rewrite blknum_down. destruct (frag_block f Hf bpref Hp) as (_ & _ & H0 & _). nia.
Qed.

Lemma alloccgblk_spec d s c bpref : cg_ok f c -> books d (cg_cgx c) s c -> max_ok f s c -> cs_nbfree (cg_cs c) <> 0 -> 0 <= bpref ->
  exists b s' c', ffs_alloccgblk f stray wild s c bpref = Ret (cg_cgx c * fs_fpg f + b * F, s', c') /\ 0 <= b < Z.of_nat (nblk f) /\ free_block f c b = true /\
    cg_ok f c' /\ books d (cg_cgx c) s' c' /\ max_ok f s' c' /\ cg_cgx c' = cg_cgx c /\ cg_ino c' = cg_ino c /\ changed f (cg_blksfree c) (cg_blksfree c') b 0 /\
    (bpref <> 0 -> dtog f bpref = cg_cgx c -> free_block f c (dtogd f bpref / F) = true -> b = dtogd f bpref / F).
Proof using Hf.
  intros Hc Hbk Hmx Hn Hp. unfold ffs_alloccgblk. destruct (choose_block c bpref Hc Hn Hp) as (b & c1 & E0 & Ht & Hb & Hw & Hpref).
  match goal with |- context [bind ?m _] => replace m with (Ret (b * F, c1)) by (symmetry; exact E0) end. cbn [bind].
  pose proof (turned_ok c c1 Hc Ht) as Hc1. pose proof Ht as (r & r' & Ec1 & _).
  assert (books d (cg_cgx c1) s c1) as Hbk1 by (rewrite Ec1; by eapply books_cs).
  assert (max_ok f s c1) as Hmx1 by (by rewrite Ec1). assert (cg_cgx c1 = cg_cgx c /\ cg_blksfree c1 = cg_blksfree c) as [Ex Eq] by (by rewrite Ec1).
  rewrite fragstoblks_div. pose proof (frag_pos F (HF f Hf)). rewrite Z.div_mul by lia. destruct (map_bytes c1 b Hc1 Hb) as [Hq Hl].
  destruct (clrblock_spec f (HF f Hf) _ Hq b ltac:(lia) Hl) as (q & -> & U). cbn [bind].
  assert (free_block f c1 b = true) as Hw1 by (unfold free_block in *; by rewrite Eq).
  destruct (block_step d s c1 b false q Hc1 Hbk1 Hmx1 Hb) as (s1 & c2 & s2 & c3 & c4 & -> & E2 & E3 & X2 & X4 & I4 & Hc4 & Hbk4 & Hmx4 & Eq4 & Hch); try done.
  { by apply Z.eqb_eq. }
  { apply (whole_in_fs c1 b Hc1); [lia|done]. }
  cbn [bind]. rewrite X2, E2. cbn [bind]. rewrite E3. cbn [bind]. exists b, (modified s2), c4. rewrite X4, Ex in *. rewrite <- Eq.
  conj; try done; try lia.
  - by apply books_modified.
  - by rewrite I4, Ec1.
  - by rewrite Eq4.
Qed.
End Alloc.

(** * A consistent file system

    All groups are consistent, and the superblock agrees with them.  What the
    allocator promises is said in terms of the fragments of the file system that
    are free. *)

Section Disk.
Context (f : fs).

Local Notation F := (fs_frag f).

(** Number 0 stands for no fragment and no inode: neither is ever free. *)
Definition zero_used (i : Z) (c : cg) : Prop := i = 0 -> qbit (cg_blksfree c) 0 = false /\ qbit (cg_inosused (cg_ino c)) 0 = true.

Record disk_ok (d : disk) : Prop := {
  dk_len : Z.of_nat (length (d_cgs d)) = fs_ncg f;
  dk_cg : forall i c, d_cgs d !! i = Some c -> cg_ok f c /\ cg_cgx c = Z.of_nat i /\ max_ok f (d_fs d) c /\ zero_used (Z.of_nat i) c;
  dk_csp : fs_csp (d_fs d) = cg_cs <$> d_cgs d;
  dk_nbfree : cs_nbfree (fs_cstotal (d_fs d)) = total cs_nbfree (d_cgs d);
  dk_nffree : cs_nffree (fs_cstotal (d_fs d)) = total cs_nffree (d_cgs d);
  dk_nifree : cs_nifree (fs_cstotal (d_fs d)) = total cs_nifree (d_cgs d);
  dk_max : length (fs_maxcluster (d_fs d)) = length (d_cgs d)
}.

(** ** Free fragments *)

Definition group (d : disk) (i : Z) : option cg := if i <? 0 then None else d_cgs d !! Z.to_nat i.

Definition isfree (d : disk) (x : Z) : bool :=
  match group d (x / fs_fpg f) with Some c => qbit (cg_blksfree c) (x mod fs_fpg f) | None => false end.

Definition isused (d : disk) (n : Z) : bool := match group d (n / fs_ipg f) with Some c => qbit (cg_inosused (cg_ino c)) (n mod fs_ipg f) | None => true end.

Definition same_inodes (d d' : disk) : Prop := forall n, isused d' n = isused d n.

(** The fragments from [x] on that one block can have. *)
Definition extent_of (x n : Z) : Prop := 0 <= x /\ 1 <= n /\ x mod F + n <= F.

Context (Hf : fs_ok f).

Lemma small_ok c : cg_ok f c -> small (cg_cs c).
Proof using Hf.
  intros Hc. pose proof (nbfree_bounds f _ c Hc). pose proof (nffree_bounds f Hf _ c Hc). pose proof (nblk_small f Hf).
  destruct (fo_fpg f Hf) as [Hp _].
  destruct (co_inode _ _ _ Hc) as (_ & _ & _ & En & _). destruct (fo_ipg f Hf) as (Hi & _ & Hi2). destruct (fo_ncg f Hf) as [Hn _].
  pose proof (sumn_bounds (fun n => one (negb (qbit (cg_inosused (cg_ino c)) n))) (Z.to_nat (fs_ipg f)) 1 ltac:(intros; cbv beta; unfold one; case_if; lia)) as Hb.
  unfold small, is_s. rewrite En. conj; try lia. nia.
Qed.

Lemma disk_books d i c : disk_ok d -> group d i = Some c -> books d i (d_fs d) c /\ cg_ok f c /\ cg_cgx c = i /\ max_ok f (d_fs d) c /\ zero_used i c.
Proof using Hf.
  intros [D1 D2 D3 D4 D5 D6 D7] Hg. unfold group in Hg. destruct (Z.ltb_spec i 0); [done|]. pose proof (lookup_lt_Some _ _ _ Hg) as Hlt.
  destruct (D2 _ _ Hg) as (H1 & H2 & H3 & H4). rewrite Z2Nat.id in H2, H4 by lia. conj; try done. destruct (fo_ncg f Hf) as [Hn _].
  split; rewrite ?(list_insert_id _ _ _ Hg); try done; [lia|]. apply Forall_lookup. intros j x Hx. apply small_ok. by apply (D2 _ _ Hx).
Qed.

Lemma group_in d i c : disk_ok d -> group d i = Some c -> 0 <= i < fs_ncg f.
Proof using. intros [D1 _ _ _ _ _ _] Hg. unfold group in Hg. destruct (Z.ltb_spec i 0); [done|]. apply lookup_lt_Some in Hg. lia. Qed.

Lemma group_get d i : disk_ok d -> 0 <= i < fs_ncg f -> exists c, group d i = Some c /\ aget (d_cgs d) i = Ret c /\ aget (fs_csp (d_fs d)) i = Ret (cg_cs c).
Proof using.
  intros [D1 D2 D3 D4 D5 D6 D7] Hi. assert (is_Some (d_cgs d !! Z.to_nat i)) as [c Hc] by (apply lookup_lt_is_Some; lia). exists c. unfold group.
  rewrite (proj2 (Z.ltb_ge i 0)) by lia. conj; [done|apply aget_Some; (done || lia)|]. apply aget_Some; [lia|]. by rewrite D3, list_lookup_fmap, Hc.
Qed.

Lemma put_ok d i s c c' : disk_ok d -> group d i = Some c -> books d i s c' -> cg_ok f c' -> max_ok f s c' -> cg_cgx c' = i -> zero_used i c' ->
  exists d', put d i s c' = Ret d' /\ disk_ok d' /\ d' = Disk s (<[Z.to_nat i := c']> (d_cgs d)).
Proof using Hf.
  intros Hd Hg [B1 B2 B3 B4 B5 B6 B7 B8] Hc' Hm' Hx' Hz'. unfold put. rewrite aset_bounds by lia. cbn [bind]. eexists. split; [done|]. split; [|done].
  destruct Hd as [D1 D2 D3 D4 D5 D6 D7]. split; cbn [d_fs d_cgs]; rewrite ?length_insert; try done. intros j x Hx.
  apply list_lookup_insert_Some in Hx as [(<- & <- & _)|(Hne & Hx)].
  - rewrite Z2Nat.id by lia. done.
  - destruct (D2 _ _ Hx) as (H1 & H2 & H3 & H4). conj; try done. destruct H3 as [H3|(m & H31 & H32)]; [by left|right]. exists m. split; [|done].
    rewrite H2, Nat2Z.id in *. by rewrite B8.
Qed.

(** How a change of one group shows in the file system. *)
Lemma isfree_put d i s c' x : 0 <= i < Z.of_nat (length (d_cgs d)) ->
  isfree (Disk s (<[Z.to_nat i := c']> (d_cgs d))) x = if x / fs_fpg f =? i then qbit (cg_blksfree c') (x mod fs_fpg f) else isfree d x.
Proof using.
  intros Hi. unfold isfree, group. cbn [d_cgs]. destruct (Z.eqb_spec (x / fs_fpg f) i) as [->|Hne].
  - rewrite (proj2 (Z.ltb_ge i 0)) by lia. by rewrite list_lookup_insert_eq by lia.
  - destruct (Z.ltb_spec (x / fs_fpg f) 0); [done|]. by rewrite list_lookup_insert_ne by lia.
Qed.

Lemma isused_put d i s c c' : group d i = Some c -> cg_ino c' = cg_ino c -> same_inodes d (Disk s (<[Z.to_nat i := c']> (d_cgs d))).
Proof using.
  intros Hg E n. unfold isused, group in *. cbn [d_cgs]. destruct (Z.ltb_spec i 0); [done|]. pose proof (lookup_lt_Some _ _ _ Hg).
  destruct (Z.ltb_spec (n / fs_ipg f) 0); [done|]. destruct (decide (n / fs_ipg f = i)) as [->|Hne].
  - by rewrite list_lookup_insert_eq, Hg, E by lia.
  - by rewrite list_lookup_insert_ne by lia.
Qed.
End Disk.
