(* ===== verification/FfsCg.v ===== *)
(** * Fragments of a group

    [ffs_alloccg], [ffs_fragextend], [ffs_blkfree] and [ffs_checkblk] on a
    consistent file system. *)

From S2P Require Import Prelude Bitmap Ffs FfsMap FfsInv.

(** * Taking fragments

    [ffs_alloccg] and [ffs_fragextend] take the first fragments of a run. *)

Section Take.
Context (f : fs) (stray : Z -> Z) (wild : Z) (Hf : fs_ok f).

Local Notation F := (fs_frag f).

(** Bits of one block change. *)
Lemma changed_frags q q' b pos n (v : bool) : 0 <= b -> 0 <= pos -> 0 <= n -> pos + n <= F -> bit_update q q' (between (b * F + pos) n) v ->
  changed f q q' b (if v then Z.lor (blk F q b) (rmask pos n) else Z.land (blk F q b) (Z.lnot (rmask pos n))).
Proof using Hf.
  intros Hb Hp Hn Hl U. pose proof U as (Hlen & Hk & _). pose proof (frag_pos F (HF f Hf)). split; [done|]. split; [done|]. split.
  - intros x Hx Hne. apply (blk_same F (HF f Hf) _ _ _ _ U); [done|]. intros i Hi. unfold between. nia.
  - apply (blk_some F (HF f Hf) _ _ _ _ U); try done. intros i Hi. unfold between. lia.
Qed.

Lemma frsum_small c k x : cg_ok f c -> 1 <= k < F -> cg_frsum c !! Z.to_nat k = Some x -> 0 <= x <= fs_fpg f.
Proof using Hf.
  intros Hc Hk Hx. destruct (co_frsum _ _ _ Hc) as (_ & _ & H). rewrite (H k Hk) in Hx. injection Hx as <-. destruct (nblk_fpg f Hf) as [E _].
  pose proof (sumn_bounds (fun b => nruns F (blk F (cg_blksfree c) b) k) (nblk f) F ltac:(intros; cbv beta; apply nruns_bounds; [apply HF|apply blk_range, HF]; done)).
  lia.
Qed.

Lemma aadd_get l i x k : 0 <= i -> l !! Z.to_nat i = Some x -> is_s 32 (x + k) -> aadd 32 l i k = Ret (<[Z.to_nat i := x + k]> l).
Proof using.
  intros Hi Hx Hs. unfold aadd. rewrite (aget_Some l i x) by done. cbn [bind]. rewrite swrap_small by (done || lia). apply aset_bounds.
  apply lookup_lt_Some in Hx. lia.
Qed.

(** A run of [k] fragments loses [n]. *)
Definition run_shrinks (k n : Z) (l l' : list Z) : Prop :=
  length l' = 8%nat /\ Forall (is_s 32) l' /\
  forall j x, 1 <= j < F -> l !! Z.to_nat j = Some x -> l' !! Z.to_nat j = Some (x - (if j =? k then 1 else 0) + (if j =? k - n then 1 else 0)).

Lemma frsum_take c k n : cg_ok f c -> 1 <= n <= k -> k < F ->
  exists l1 l2, aadd 32 (cg_frsum c) k (-1) = Ret l1 /\ (if negb (n =? k) then aadd 32 l1 (k - n) 1 else Ret l1) = Ret l2 /\ run_shrinks k n (cg_frsum c) l2.
Proof using Hf.
  intros Hc Hn Hk. destruct (co_frsum _ _ _ Hc) as (L8 & S32 & Hv). destruct (fo_fpg f Hf) as [Hfpg _]. pose proof (frag_pos F (HF f Hf)).
  pose proof (frsum_small c k _ Hc ltac:(lia) (Hv k ltac:(lia))) as Hx. set (x := sumn _ _) in Hx.
  rewrite (aadd_get _ k x) by (lia || (apply Hv; lia) || (unfold is_s; lia)). exists (<[Z.to_nat k := x + -1]> (cg_frsum c)).
  destruct (Z.eqb_spec n k) as [->|Hne]; cbn [negb].
  - eexists. split; [done|]. split; [done|]. unfold run_shrinks. rewrite length_insert. conj; [done|by apply Forall_insert; [|unfold is_s; lia]|].
    intros j y Hj Hy. rewrite (proj2 (Z.eqb_neq j (k - k))) by lia. destruct (Z.eqb_spec j k) as [->|Hjk].
    + rewrite list_lookup_insert_eq by lia. rewrite Hv in Hy by lia. injection Hy as <-. cbv iota. f_equal. unfold x. lia.
    + rewrite list_lookup_insert_ne by lia. rewrite Hy. cbv iota. f_equal. lia.
  - pose proof (frsum_small c (k - n) _ Hc ltac:(lia) (Hv (k - n) ltac:(lia))) as Hx'. set (x' := sumn _ _) in Hx'.
    rewrite (aadd_get _ (k - n) x') by (lia || (rewrite list_lookup_insert_ne by lia; apply Hv; lia) || (unfold is_s; lia)). eexists. split; [done|].
    split; [done|].
    unfold run_shrinks. rewrite !length_insert. conj; [done|by apply Forall_insert; [apply Forall_insert; [done|unfold is_s; lia]|unfold is_s; lia]|].
    intros j y Hj Hy. destruct (Z.eqb_spec j (k - n)) as [->|Hjn].
    + rewrite list_lookup_insert_eq by (rewrite length_insert; lia). rewrite Hv in Hy by lia. injection Hy as <-.
      rewrite (proj2 (Z.eqb_neq (k - n) k)) by lia. f_equal. unfold x'. lia.
    + rewrite list_lookup_insert_ne by lia. destruct (Z.eqb_spec j k) as [->|Hjk].
      * rewrite list_lookup_insert_eq by lia. rewrite Hv in Hy by lia. injection Hy as <-. cbv iota. f_equal. unfold x. lia.
      * rewrite list_lookup_insert_ne by lia. rewrite Hy. cbv iota. f_equal. lia.
Qed.

(** The group is consistent again when the first [n] of a run of [k] are taken and counted. *)
Lemma frags_taken c c' b pos k n : cg_ok f c -> same_rest c c' -> 0 <= b -> 0 <= pos -> pos + k <= F -> 1 <= n <= k -> k < F ->
  run_at (blk F (cg_blksfree c) b) pos k = true -> bit_update (cg_blksfree c) (cg_blksfree c') (between (b * F + pos) n) false ->
  cs_nffree (cg_cs c') = cs_nffree (cg_cs c) - n -> run_shrinks k n (cg_frsum c) (cg_frsum c') ->
  0 <= cg_rotor c' < fs_fpg f -> 0 <= cg_frotor c' < fs_fpg f -> cg_ok f c' /\ b < Z.of_nat (nblk f).
Proof using Hf.
  intros Hc Hsame Hb Hp Hl Hn Hk Hr U Hnf (L8 & S32 & Hfr) Hro Hfo. pose proof (blk_range F (cg_blksfree c) b (HF f Hf)) as Hm.
  set (m := blk F (cg_blksfree c) b) in *.
  pose proof (changed_frags _ _ b pos n false Hb Hp ltac:(lia) ltac:(lia) U) as Hch. cbv iota in Hch. fold m in Hch.
  destruct (take_run F m pos k n (HF f Hf) Hm Hp Hl Hn Hk Hr) as (Hruns & Hpart & Hmw & Hmw').
  assert (m <> 0) as Hm0 by (intros E; pose proof (run_at_bit m pos k pos Hr ltac:(lia)) as H; by rewrite E, Z.bits_0 in H).
  pose proof (blk_in f Hf _ c b Hc Hb Hm0) as Hbn. split; [|done].
  set (m' := Z.land m (Z.lnot (rmask pos n))) in *. assert (forall i, Z.testbit m' i = true -> Z.testbit m i = true) as Hsub.
  { intros i. unfold m'. rewrite Z.land_spec. by intros [H _]%andb_true_iff. }
  pose proof (frag_pos F (HF f Hf)) as HF1.
  assert (marked f (free_block f c) c') as Hc'.
  { eapply (marked_change f Hf _ c c' b m' Hc Hsame (conj Hb Hbn) Hch); try done.
    - intros i Hi Ht. apply Hsub in Ht. unfold m in Ht. rewrite blk_bit in Ht by (lia || (apply HF; done)). apply (co_end _ _ _ Hc) in Ht; [lia|nia].
    - fold m. rewrite Hpart. lia.
    - intros j x Hj Hx. rewrite (Hfr j x Hj Hx). fold m. rewrite Hruns by done. f_equal. lia. }
  eapply marked_ext; [exact Hc'|]. intros x Hx. unfold free_block. destruct Hch as (_ & _ & Ho & Hbq). destruct (decide (x = b)) as [->|Hne].
  - rewrite Hbq. fold m. by rewrite !(proj2 (Z.eqb_neq _ _)).
  - by rewrite Ho by (lia || done).
Qed.

(** ** What an allocation does to the file system *)

Definition takes (d d' : disk) (x n : Z) : Prop :=
  extent_of f x n /\ (forall y, between x n y -> isfree f d y = true) /\ (forall y, isfree f d' y = isfree f d y && negb (bool_decide (between x n y))) /\ same_inodes f d d'.

(** There is room for [n] fragments in group [i]. *)
Definition room (d : disk) (i n : Z) : Prop := exists x, x / fs_fpg f = i /\ extent_of f x n /\ forall y, between x n y -> isfree f d y = true.

Lemma split_address i x : 0 <= x < fs_fpg f -> (i * fs_fpg f + x) / fs_fpg f = i /\ (i * fs_fpg f + x) mod fs_fpg f = x.
Proof using Hf. intros Hx. rewrite Z.div_add_l, Z.div_small, (Z.add_comm (i * _)), Z.mod_add, Z.mod_small by lia. lia. Qed.

Lemma address_frag i x : 0 <= i -> 0 <= x -> (i * fs_fpg f + x) mod F = x mod F.
Proof using Hf.
  intros Hi Hx. destruct (nblk_fpg f Hf) as [E _]. pose proof (frag_pos F (HF f Hf)).
  replace (i * fs_fpg f + x) with (x + i * Z.of_nat (nblk f) * F) by nia. rewrite Z.mod_add by lia. done.
Qed.

Lemma isfree_group d i c x : group d i = Some c -> 0 <= x < fs_fpg f -> isfree f d (i * fs_fpg f + x) = qbit (cg_blksfree c) x.
Proof using Hf. intros Hg Hx. unfold isfree. destruct (split_address i x Hx) as [-> ->]. by rewrite Hg. Qed.

(** A group has lost the fragments from [b * F + pos] on. *)
Lemma takes_put d i c s c' b pos n : group d i = Some c -> 0 <= i < Z.of_nat (length (d_cgs d)) -> 0 <= b < Z.of_nat (nblk f) -> 0 <= pos -> 1 <= n -> pos + n <= F ->
  (forall j, between (b * F + pos) n j -> qbit (cg_blksfree c) j = true) ->
  (forall j, 0 <= j -> qbit (cg_blksfree c') j = qbit (cg_blksfree c) j && negb (bool_decide (between (b * F + pos) n j))) ->
  cg_ino c' = cg_ino c -> takes d (Disk s (<[Z.to_nat i := c']> (d_cgs d))) (i * fs_fpg f + (b * F + pos)) n.
Proof using Hf.
  intros Hg Hi Hb Hp Hn Hl Hin Hq Hino. destruct (nblk_fpg f Hf) as [En _]. pose proof (frag_pos F (HF f Hf)) as HF1.
  destruct (fo_fpg f Hf) as [Hfpg _].
  assert (0 <= b * F + pos /\ b * F + pos + n <= fs_fpg f) as [H0 Hend] by nia. split; [|split; [|split; [|by eapply isused_put] ] ].
  - split; [nia|]. split; [done|]. rewrite address_frag by lia. rewrite (Z.add_comm (b * F)), Z.mod_add, Z.mod_small by lia. lia.
  - intros y Hy. unfold between in Hy. replace y with (i * fs_fpg f + (y - i * fs_fpg f)) by lia. rewrite (isfree_group d i c) by (done || lia).
    apply Hin. unfold between. lia.
  - intros y. rewrite isfree_put by done. destruct (Z.eqb_spec (y / fs_fpg f) i) as [E|Hne].
    + pose proof (Z.div_mod y (fs_fpg f) ltac:(lia)) as Hd. pose proof (Z.mod_pos_bound y (fs_fpg f) ltac:(lia)). rewrite E in Hd. rewrite Hq by lia.
      assert (isfree f d y = qbit (cg_blksfree c) (y mod fs_fpg f)) as -> by (unfold isfree; by rewrite E, Hg). do 2 f_equal. apply bool_decide_ext.
      unfold between. lia.
    + rewrite (bool_decide_eq_false_2); [by rewrite andb_true_r|]. unfold between. intros Hy. apply Hne.
      replace y with (i * fs_fpg f + (y - i * fs_fpg f)) by lia. apply split_address. lia.
Qed.

Lemma room_block d i c n : disk_ok f d -> group d i = Some c -> room d i n ->
  exists b pos, 0 <= b < Z.of_nat (nblk f) /\ 0 <= pos /\ 1 <= n /\ pos + n <= F /\ forall k, pos <= k < pos + n -> Z.testbit (blk F (cg_blksfree c) b) k = true.
Proof using Hf.
  intros Hd Hg (x & Ex & (Hx & Hn & Hl) & Hfr). destruct (fo_fpg f Hf) as [Hfpg _]. destruct (group_in f d i c Hd Hg) as [Hi _].
  pose proof (Z.div_mod x (fs_fpg f) ltac:(lia)) as Hdm. pose proof (Z.mod_pos_bound x (fs_fpg f) ltac:(lia)) as Hmp. rewrite Ex in Hdm.
  set (x' := x mod fs_fpg f) in *.
  assert (x = i * fs_fpg f + x') as Ex' by lia. clearbody x'. rewrite Ex' in Hl. rewrite address_frag in Hl by lia.
  destruct (frag_block f Hf x' ltac:(lia)) as (E & H1 & H2 & H3). specialize (H3 ltac:(lia)). exists (x' / F), (x' mod F). conj; try done; try lia.
  intros k Hk. rewrite blk_bit by (lia || (apply HF; done)). destruct (nblk_fpg f Hf) as [En _]. pose proof (frag_pos F (HF f Hf)).
  rewrite <- (isfree_group d i c) by (done || nia). apply Hfr. unfold between. lia.
Qed.
End Take.

(** * [ffs_alloccg]

    An allocation in a group takes room for the fragments asked for if there is
    some, and leaves the file system consistent. *)

Section Cg.
Context (f : fs) (stray : Z -> Z) (wild : Z) (read : Z -> bool) (Hf : fs_ok f).

Local Notation F := (fs_frag f).

Lemma changed_empty q q' b j : 0 <= b -> changed f q q' b 0 -> 0 <= j -> qbit q' j = qbit q j && negb (bool_decide (between (b * F + 0) F j)).
Proof using Hf.
  intros Hb (_ & _ & Ho & Hb0) Hj. destruct (frag_block f Hf j Hj) as (E & H1 & H2 & _). rewrite !(qbit_blk f Hf) by done.
  destruct (decide (j / F = b)) as [Eb|Hne].
  - rewrite Eb, Hb0, Z.bits_0. rewrite bool_decide_eq_true_2; [by rewrite andb_false_r|]. unfold between. nia.
  - rewrite Ho by done. rewrite bool_decide_eq_false_2; [by rewrite andb_true_r|]. unfold between. nia.
Qed.

Lemma free_block_bits c b j : 0 <= b -> free_block f c b = true -> between (b * F + 0) F j -> qbit (cg_blksfree c) j = true.
Proof using Hf.
  intros Hb Hw Hj. apply Z.eqb_eq in Hw. unfold between in Hj. pose proof (frag_pos F (HF f Hf)). replace j with (b * F + (j - b * F)) by lia.
  rewrite <- blk_bit by (lia || (apply HF; done)). rewrite Hw, whole_bit by lia. lia.
Qed.

Lemma zero_kept i c c' : zero_used i c -> cg_ino c' = cg_ino c -> (qbit (cg_blksfree c) 0 = false -> qbit (cg_blksfree c') 0 = false) -> zero_used i c'.
Proof using. intros H E Hq Hi. destruct (H Hi) as [H1 H2]. rewrite E. auto. Qed.

(** What is taken is not fragment 0. *)
Lemma takes_nonzero d d' x n : disk_ok f d -> takes f d d' x n -> x <> 0.
Proof using Hf.
  intros Hd ((_ & Hn & _) & Hfree & _) ->. specialize (Hfree 0 ltac:(unfold between; lia)). unfold isfree in Hfree.
  destruct (fo_fpg f Hf) as [Hfpg _].
  rewrite Z.div_0_l, Z.mod_0_l in Hfree by lia. change (group d 0) with (d_cgs d !! 0%nat) in Hfree.
  destruct (d_cgs d !! 0%nat) as [c|] eqn:E; [|done].
  destruct (dk_cg _ _ Hd _ _ E) as (_ & _ & _ & Hz). destruct (Hz eq_refl). congruence.
Qed.

(** ** A block *)

Lemma alloc_block d i c bpref : disk_ok f d -> group d i = Some c -> cs_nbfree (cg_cs c) <> 0 -> 0 <= bpref ->
  exists b s' c', ffs_alloccgblk f stray wild (d_fs d) c bpref = Ret (i * fs_fpg f + b * F, s', c') /\ 0 <= b < Z.of_nat (nblk f) /\ free_block f c b = true /\
    cg_ok f c' /\ books d i s' c' /\ max_ok f s' c' /\ cg_cgx c' = i /\ cg_ino c' = cg_ino c /\ zero_used i c' /\ changed f (cg_blksfree c) (cg_blksfree c') b 0 /\
    (bpref <> 0 -> dtog f bpref = i -> free_block f c (dtogd f bpref / F) = true -> b = dtogd f bpref / F).
Proof using Hf.
  intros Hd Hg Hn Hp. destruct (disk_books f Hf d i c Hd Hg) as (Hbk & Hc & Hx & Hmx & Hz).
  destruct (alloccgblk_spec f stray wild Hf d (d_fs d) c bpref Hc) as (b & s' & c' & E & Hb & Hw & Hc' & Hbk' & Hmx' & Hx' & Hi' & Hch & Hpref); try done.
  { by rewrite Hx. }
  rewrite Hx in *. exists b, s', c'. do 8 (split; [done|]). split; [|done]. eapply zero_kept; [exact Hz|done|]. intros H0.
  rewrite (changed_empty _ _ b 0 ltac:(lia) Hch) by lia. by rewrite H0.
Qed.

Lemma put_block d i c s' c' b : disk_ok f d -> group d i = Some c -> 0 <= b < Z.of_nat (nblk f) -> free_block f c b = true ->
  cg_ok f c' -> books d i s' c' -> max_ok f s' c' -> cg_cgx c' = i -> zero_used i c' -> changed f (cg_blksfree c) (cg_blksfree c') b 0 -> cg_ino c' = cg_ino c ->
  exists d', put d i s' c' = Ret d' /\ disk_ok f d' /\ takes f d d' (i * fs_fpg f + b * F) F.
Proof using Hf.
  intros Hd Hg Hb Hw Hc' Hbk Hmx Hx Hz Hch Hino. destruct (put_ok f Hf d i s' c c' Hd Hg Hbk Hc' Hmx Hx Hz) as (d' & -> & Hd' & ->). eexists.
  split; [done|]. split; [done|].
  pose proof (frag_pos F (HF f Hf)). pose proof (bk_i _ _ _ _ Hbk). replace (b * F) with (b * F + 0) by lia. eapply takes_put; try done; try lia.
  - intros j Hj. by eapply free_block_bits; [|exact Hw|]; [lia|].
  - intros j Hj. by apply changed_empty; [lia|..].
Qed.

(** ** The sizes of runs *)

Lemma frsum_from_spec fuel l k : length l = 8%nat -> 1 <= k <= F -> F - k <= Z.of_nat fuel ->
  exists r, frsum_from f fuel l k = Ret r /\ k <= r <= F /\ (r < F -> exists x, l !! Z.to_nat r = Some x /\ x <> 0) /\ forall j, k <= j < r -> l !! Z.to_nat j = Some 0.
Proof using Hf.
  pose proof (frag_pos F (HF f Hf)). revert k. induction fuel as [|fuel IH]; intros k Hl Hk Hfu; cbn [frsum_from].
  all: destruct (Z.ltb_spec k F) as [Hlt|Hge]; [|exists k; conj; try done; intros; lia].
  - lia.
  - assert (is_Some (l !! Z.to_nat k)) as [x Hx] by (apply lookup_lt_is_Some; lia). rewrite (aget_Some l k x) by (done || lia). cbn [bind].
    destruct (Z.eqb_spec x 0) as [->|Hx0]; cbn [negb].
    + destruct (IH (k + 1)) as (r & -> & Hr & Hr1 & Hr2); [done|lia..|]. exists r. conj; try done; try lia.
      intros j Hj. destruct (decide (j = k)) as [->|]; [done|]. apply Hr2. lia.
    + exists k. split; [done|]. split; [lia|]. split; [by exists x|]. intros; lia.
Qed.

(** A group has a run of [k] if it counts one. *)
Lemma counted_run c k : cg_ok f c -> 1 <= k < F -> (exists x, cg_frsum c !! Z.to_nat k = Some x /\ x <> 0) -> exists b, 0 <= b /\ nruns F (blk F (cg_blksfree c) b) k <> 0.
Proof using Hf.
  intros Hc Hk (x & Hx & Hx0). destruct (co_frsum _ _ _ Hc) as (_ & _ & Hv). rewrite (Hv k Hk) in Hx. injection Hx as <-.
  apply sumn_pos in Hx0 as (b & Hb & Hn); [|intros; apply nruns_bounds; [apply HF|apply blk_range, HF]; done]. exists b. split; [lia|done].
Qed.

Lemma no_room d i c n : disk_ok f d -> group d i = Some c -> cs_nbfree (cg_cs c) = 0 -> (forall j, n <= j < F -> cg_frsum c !! Z.to_nat j = Some 0) -> ~ room f d i n.
Proof using Hf.
  intros Hd Hg Hn0 Hfr Hr. destruct (room_block f Hf d i c n Hd Hg Hr) as (b & pos & Hb & Hp & Hn & Hl & Hbits).
  destruct (disk_books f Hf d i c Hd Hg) as (_ & Hc & _). pose proof (blk_range F (cg_blksfree c) b (HF f Hf)) as Hm.
  destruct (in_some_run F _ pos n (HF f Hf) Hm Hp Hn Hl Hbits) as (k & Hk & Hk0). destruct (decide (k = F)) as [->|Hne].
  - apply (whole_run F _ F (HF f Hf) Hm ltac:(lia)) in Hk0. rewrite (co_nbfree _ _ _ Hc) in Hn0.
    apply (sumn_zero _ _ b) in Hn0; [|intros; unfold one; case_if; lia|done]. unfold one, free_block in Hn0.
    rewrite (proj2 (Z.eqb_eq _ _)) in Hn0; [done|]. by apply Hk0.
  - destruct (co_frsum _ _ _ Hc) as (_ & _ & Hv). pose proof (Hfr k ltac:(lia)) as H0. rewrite Hv in H0 by lia. injection H0 as H0.
    apply (sumn_zero _ _ b) in H0; [done|intros; apply nruns_bounds; [apply HF|apply blk_range, HF]; done|done].
Qed.

(** ** The rest of a block *)

Lemma hack_block d i s c b n : cg_ok f c -> books d i s c -> max_ok f s c -> cg_cgx c = i -> 0 <= b < Z.of_nat (nblk f) -> blk F (cg_blksfree c) b = 0 ->
  i * fs_fpg f + (b + 1) * F <= fs_size f -> 1 <= n < F ->
  exists q s' c1 l, set_frags (cg_blksfree c) (b * F + n) (Z.to_nat (F - n)) = Ret q /\ tally_csum add_nffree i (F - n) s (set_blksfree q c) = Ret (s', c1) /\
    aadd 32 (cg_frsum c1) (F - n) 1 = Ret l /\ cg_ok f (set_frsum l c1) /\ books d i s' (set_frsum l c1) /\ max_ok f s' (set_frsum l c1) /\
    cg_cgx c1 = i /\ cg_ino c1 = cg_ino c /\ cg_blksfree c1 = q /\ bit_update (cg_blksfree c) q (between (b * F + n) (F - n)) true.
Proof using Hf.
  intros Hc Hbk Hmx Hx Hb Hm Hend Hn. destruct (map_bytes f Hf c b Hc Hb) as [Hq Hl]. pose proof (block_start f Hf b Hb) as Hbs.
  destruct (nblk_fpg f Hf) as [En _].
  pose proof (frag_pos F (HF f Hf)) as HF1. destruct (fo_fpg f Hf) as [Hfpg _].
  assert (b * F + F <= 8 * Z.of_nat (length (cg_blksfree c))) as Hroom by (pose proof (in_group f Hf _ c (b * F + F - 1) Hc ltac:(nia)); lia).
  destruct (set_frags_spec (Z.to_nat (F - n)) (cg_blksfree c) (b * F + n) Hq) as (q & -> & U); [lia..|]. rewrite Z2Nat.id in U by lia. exists q.
  pose proof (nffree_bounds f Hf _ c Hc) as Hnf. destruct (books_small _ _ _ _ Hbk) as (T1 & T2 & T3).
  destruct (tally_spec add_nffree (F - n) 0 (F - n) 0 d i s (set_blksfree q c) (adds_nffree _)) as (s' & ns & -> & Hbk' & Emx & N1 & N2 & N3);
    cbn [cg_cs set_blksfree] in *; rewrite ?Z.add_0_r in *; try done; [by eapply books_cs|unfold is_s; lia|].
  destruct (co_frsum _ _ _ Hc) as (L8 & S32 & Hv). pose proof (frsum_small f Hf c (F - n) _ Hc ltac:(lia) (Hv (F - n) ltac:(lia))) as Hx0.
  set (x := sumn _ _) in Hx0.
  eexists s', _, _. split; [done|]. split; [done|]. cbn [cg_frsum set_cs set_blksfree].
  rewrite (aadd_get _ (F - n) x) by (lia || (apply Hv; lia) || (unfold is_s; lia)).
  split; [done|]. pose proof (changed_frags f Hf _ q b n (F - n) true ltac:(lia) ltac:(lia) ltac:(lia) ltac:(lia) U) as Hch. cbv iota in Hch.
  rewrite Hm in Hch.
  destruct (empty_map F 1 (HF f Hf)) as [_ P0]. pose proof (rest_run F n 1 (HF f Hf) Hn ltac:(lia)) as [_ Pm].
  set (c' := set_frsum _ _). assert (marked f (free_block f c) c') as Hc'.
  { eapply (marked_change f Hf _ c c' b _ Hc); try done; try (by apply (co_rotor _ _ _ Hc)).
    - intros j Hj _. lia.
    - cbn [cg_cs c' set_frsum set_cs]. rewrite N2, Hm, P0, Pm. lia.
    - cbn [cg_frsum c' set_frsum]. by rewrite length_insert.
    - cbn [cg_frsum c' set_frsum]. apply Forall_insert; [done|]. unfold is_s. lia.
    - intros k y Hk Hy. cbn [cg_frsum c' set_frsum]. rewrite Hm, (proj1 (empty_map F k (HF f Hf))), (proj1 (rest_run F n k (HF f Hf) Hn Hk)).
      destruct (Z.eqb_spec k (F - n)) as [->|Hne]; [rewrite list_lookup_insert_eq by lia|rewrite list_lookup_insert_ne by lia; rewrite Hy; f_equal; lia].
      rewrite Hv in Hy by lia. injection Hy as <-. f_equal. unfold x. lia. }
  conj; try done.
  - eapply marked_ext; [exact Hc'|]. intros y Hy. unfold free_block. change (cg_blksfree c') with q. destruct Hch as (_ & _ & Ho & Hbq).
    destruct (decide (y = b)) as [->|Hne]; [|by rewrite Ho by (lia || done)]. rewrite Hm, Hbq.
    rewrite (proj2 (Z.eqb_neq 0 _)) by (pose proof (whole_bound F (HF f Hf)); lia).
    symmetry. apply Z.eqb_neq. intros Hw. rewrite Hw in Pm. unfold part in Pm. rewrite Z.eqb_refl in Pm. lia.
  - by eapply books_cs.
  - unfold max_ok in *. rewrite Emx. done.
Qed.

(** ** Fragments of a run *)

Lemma cleared_bits q q' x n j : bit_update q q' (between x n) false -> 0 <= j -> qbit q' j = qbit q j && negb (bool_decide (between x n j)).
Proof using. intros (_ & _ & Hin & Hout) Hj. case_bool_decide; [by rewrite Hin, andb_false_r|by rewrite Hout, andb_true_r]. Qed.

Lemma run_bits c b pos k j : 0 <= b -> 0 <= pos -> pos + k <= F -> run_at (blk F (cg_blksfree c) b) pos k = true -> between (b * F + pos) k j -> qbit (cg_blksfree c) j = true.
Proof using Hf.
  intros Hb Hp Hl Hr Hj. unfold between in Hj. replace j with (b * F + (j - b * F)) by lia. rewrite <- blk_bit by (lia || (apply HF; done)).
  apply (run_at_bit _ pos k); [done|lia].
Qed.

Lemma alloc_frags d i c bpref n k : disk_ok f d -> group d i = Some c -> 0 <= bpref -> 1 <= n <= k -> k < F -> (exists x, cg_frsum c !! Z.to_nat k = Some x /\ x <> 0) ->
  exists r d', (let! (bno, c) := ffs_mapsearch f c bpref k in
    let! map := clr_frags (cg_blksfree c) bno (Z.to_nat n) in
    let! (s, c) := tally_csum add_nffree i (- n) (d_fs d) (set_blksfree map c) in
    let! frsum := aadd 32 (cg_frsum c) k (-1) in
    let! frsum := (if negb (n =? k) then aadd 32 frsum (k - n) 1 else Ret frsum) in
    let! d := put d i (modified s) (set_frsum frsum c) in
    Ret (i * fs_fpg f + bno, d)) = Ret (r, d') /\ disk_ok f d' /\ r / fs_fpg f = i /\ takes f d d' r n.
Proof using Hf.
  intros Hd Hg Hp Hn Hk Hx. destruct (disk_books f Hf d i c Hd Hg) as (Hbk & Hc & Hcx & Hmx & Hz). destruct (co_map _ _ _ Hc) as [Hq Hl].
  destruct (fo_fpg f Hf) as [Hfpg _].
  pose proof (frag_pos F (HF f Hf)) as HF1.
  destruct (ffs_mapsearch_spec f (HF f Hf) Hfpg c Hq Hl bpref k ltac:(lia) Hp (proj2 (co_rotor _ _ _ Hc)) (counted_run c k Hc ltac:(lia) Hx)) as (b & pos & -> & Hb & Hbl & Hpos & Hend & Hr).
  cbn [bind]. assert (b < Z.of_nat (nblk f)) as Hbn.
  { apply (blk_in f Hf _ c b Hc Hb). intros E. pose proof (run_at_bit _ pos k pos Hr ltac:(lia)) as H. by rewrite E, Z.bits_0 in H. }
  pose proof (block_start f Hf b (conj Hb Hbn)) as Hbs. destruct (nblk_fpg f Hf) as [En _].
  assert (b * F + pos + n <= fs_fpg f) as Hend1 by nia. pose proof (in_group f Hf _ c (b * F + pos + n - 1) Hc ltac:(lia)) as Hend2.
  destruct (clr_frags_spec (Z.to_nat n) (cg_blksfree c) (b * F + pos) Hq) as (q & Eq & U); [lia..|]. rewrite Z2Nat.id in U by lia.
  change (cg_blksfree (set_frotor (b * F / 8 * 8) c)) with (cg_blksfree c). rewrite Eq. cbn [bind]. set (c1 := set_blksfree q _).
  pose proof (nffree_bounds f Hf _ c Hc) as Hnf. destruct (books_small _ _ _ _ Hbk) as (T1 & T2 & T3).
  assert (books d i (d_fs d) c1) as Hbk1 by by eapply books_cs.
  destruct (tally_spec add_nffree (- n) 0 (- n) 0 d i (d_fs d) c1 (adds_nffree _) Hbk1) as (s' & ns & -> & Hbk' & Emx & N1 & N2 & N3);
    cbn [c1 cg_cs set_blksfree set_frotor] in *; rewrite ?Z.add_0_r in *; try done; [unfold is_s; lia|]. cbn [bind].
  change (cg_frsum (set_cs ns c1)) with (cg_frsum c). destruct (frsum_take f Hf c k n Hc Hn Hk) as (l1 & l2 & -> & E2 & Hsh). cbn [bind]. rewrite E2.
  cbn [bind].
  set (c' := set_frsum l2 _). destruct (frags_taken f Hf c c' b pos k n Hc) as [Hc' _]; try done; try (by apply (co_rotor _ _ _ Hc)).
  { unfold c'. cbn [cg_frotor set_frsum set_cs c1 set_blksfree set_frotor]. apply byte_start; lia. }
  destruct (put_ok f Hf d i (modified s') c c' Hd Hg) as (d' & -> & Hd' & ->); try done.
  { apply books_modified. by eapply books_cs. }
  { unfold max_ok in *. cbn [fs_maxcluster modified]. rewrite Emx. done. }
  { eapply zero_kept; [exact Hz|done|]. intros H0. change (cg_blksfree c') with q. by rewrite (cleared_bits _ _ _ _ 0 U), H0 by lia. }
  cbn [bind]. eexists _, _. split; [done|]. split; [done|]. split; [apply (split_address f Hf); lia|].
  eapply takes_put; try done; try lia.
  - apply (bk_i _ _ _ _ Hbk).
  - intros j Hj. apply (run_bits c b pos k); try done; try lia. unfold between in *. lia.
  - intros j Hj. by apply cleared_bits.
Qed.

(** ** The call *)

(** The outcome of an allocation of [n] fragments in group [i]. *)
Definition alloc_result (d : disk) (i n r : Z) (d' : disk) : Prop :=
  disk_ok f d' /\ (r = 0 /\ d' = d /\ (read i = true -> ~ room f d i n) \/ r <> 0 /\ r / fs_fpg f = i /\ takes f d d' r n).

Lemma numfrags_mul n : numfrags f (n * fs_fsize f) = n.
Proof using Hf.
  rewrite numfrags_div by done. destruct (fo_size f Hf) as (Hs & E & _). apply Z.div_mul. rewrite E. pose proof (Z.pow_pos_nonneg 2 (fs_fshift f)).
  lia.
Qed.

Lemma size_eqb n : (n * fs_fsize f =? fs_bsize f) = (n =? F).
Proof using Hf.
  destruct (fo_size f Hf) as (Hs & E & -> & _). pose proof (Z.pow_pos_nonneg 2 (fs_fshift f) ltac:(lia) Hs). rewrite <- E in *.
  apply eq_true_iff_eq. rewrite !Z.eqb_eq. nia.
Qed.

(** A whole block is hacked up: [n] fragments are taken, the rest is free. *)
Lemma alloc_hack d i c bpref n : disk_ok f d -> group d i = Some c -> cs_nbfree (cg_cs c) <> 0 -> 0 <= bpref -> 1 <= n < F ->
  exists r d', (let! (bno, s, c) := ffs_alloccgblk f stray wild (d_fs d) c bpref in
      let bpref := dtogd f bno in
      let! map := set_frags (cg_blksfree c) (bpref + n) (Z.to_nat (F - n)) in
      let! (s, c) := tally_csum add_nffree i (F - n) s (set_blksfree map c) in
      let! frsum := aadd 32 (cg_frsum c) (F - n) 1 in
      let! d := put d i (modified s) (set_frsum frsum c) in Ret (bno, d)) = Ret (r, d') /\ disk_ok f d' /\ r / fs_fpg f = i /\ takes f d d' r n.
Proof using Hf.
  intros Hd Hg Hnb Hp Hn.
  destruct (alloc_block d i c bpref Hd Hg Hnb Hp) as (b & s1 & c1 & -> & Hb & Hw & Hc1 & Hbk1 & Hmx1 & Hx1 & Hi1 & Hz1 & Hch & _).
  cbn [bind]. cbv zeta. pose proof (block_start f Hf b Hb) as Hbs. pose proof (group_in f d i c Hd Hg) as Hi.
  pose proof (frag_pos F (HF f Hf)) as HF1.
  destruct (fo_fpg f Hf) as [Hfpg _]. rewrite dtogd_mod by (done || nia). rewrite (proj2 (split_address f Hf i (b * F) Hbs)).
  destruct (disk_books f Hf d i c Hd Hg) as (_ & Hc & Hcx & _ & Hz). pose proof (whole_in_fs f Hf c b Hc ltac:(lia) Hw) as [_ Hend].
  rewrite Hcx in Hend.
  destruct (hack_block d i s1 c1 b n Hc1 Hbk1 Hmx1 Hx1 Hb) as (q & s2 & c2 & l & -> & E2 & E3 & Hc2 & Hbk2 & Hmx2 & Hx2 & Hi2 & Eq2 & U); try done.
  { apply Hch. }
  cbn [bind]. rewrite E2. cbn [bind]. rewrite E3. cbn [bind].
  assert (forall j, 0 <= j -> qbit q j = qbit (cg_blksfree c) j && negb (bool_decide (between (b * F + 0) n j))) as Hq.
  { intros j Hj. destruct U as (_ & _ & Uin & Uout). destruct (decide (between (b * F + n) (F - n) j)) as [Hin|Hout].
    - rewrite Uin by done. rewrite (free_block_bits c b j ltac:(lia) Hw) by (unfold between in *; lia). rewrite bool_decide_eq_false_2; [done|].
      unfold between in *. lia.
    - rewrite Uout by done. rewrite (changed_empty _ _ b j ltac:(lia) Hch Hj). do 2 f_equal. apply bool_decide_ext. unfold between in *. lia. }
  destruct (put_ok f Hf d i (modified s2) c (set_frsum l c2) Hd Hg) as (d' & -> & Hd' & ->); try done.
  { by apply books_modified. }
  { eapply zero_kept; [exact Hz|by rewrite <- Hi1|]. intros H0. cbn [cg_blksfree set_frsum]. by rewrite Eq2, Hq, H0. }
  cbn [bind]. eexists _, _. split; [done|]. split; [done|]. split; [by apply (split_address f Hf)|].
  replace (b * F) with (b * F + 0) by lia. eapply takes_put; try done; try lia.
  - apply (bk_i _ _ _ _ Hbk1).
  - intros j Hj. apply (free_block_bits c b j); [lia|done|]. unfold between in *. lia.
  - intros j Hj. cbn [cg_blksfree set_frsum]. rewrite Eq2. by apply Hq.
  - cbn [cg_ino set_frsum]. congruence.
Qed.

Lemma alloccg_spec d i bpref n : disk_ok f d -> 0 <= i < fs_ncg f -> 0 <= bpref -> 1 <= n <= F ->
  exists r d', ffs_alloccg f stray wild read d i bpref (n * fs_fsize f) = Ret (r, d') /\ alloc_result d i n r d'.
Proof using Hf.
  intros Hd Hi Hp Hn. destruct (group_get f d i Hd Hi) as (c & Hg & Ec & En). destruct (disk_books f Hf d i c Hd Hg) as (_ & Hc & Hcx & _).
  unfold ffs_alloccg. rewrite En. cbn [bind]. rewrite size_eqb, numfrags_mul.
  assert (forall r d', disk_ok f d' -> r / fs_fpg f = i -> takes f d d' r n -> alloc_result d i n r d') as Hyes.
  { intros r d' Hd' Hr Ht. split; [done|]. right. conj; try done; try apply Ht. by apply (takes_nonzero d d' r n). }
  destruct (Z.eqb_spec (cs_nbfree (cg_cs c)) 0) as [Hb0|Hb0]; cbn [andb]; destruct (Z.eqb_spec n F) as [EF|HnF]; unfold ffs_cgread.
  - exists 0, d. split; [done|]. split; [done|]. left. conj; try done. intros _. apply (no_room d i c n Hd Hg Hb0). intros j Hj. lia.
  - destruct (read i) eqn:Er; [|exists 0, d; split; [done|]; split; [done|]; left; conj; try done; congruence]. rewrite Ec. cbn [bind].
    rewrite Hb0, Z.eqb_refl. cbn [andb].
    destruct (co_frsum _ _ _ Hc) as (L8 & _). destruct (frsum_from_spec (Z.to_nat F) (cg_frsum c) n L8 Hn ltac:(lia)) as (k & -> & Hk & Hk1 & Hk2).
    cbn [bind].
    destruct (Z.eqb_spec k F) as [->|HkF].
    + exists 0, d. split; [done|]. split; [done|]. left. conj; try done. intros _. by apply (no_room d i c n Hd Hg Hb0).
    + destruct (alloc_frags d i c bpref n k Hd Hg Hp ltac:(lia) ltac:(lia) (Hk1 ltac:(lia))) as (r & d' & E & Hd' & Hr & Ht). exists r, d'.
      split; [exact E|]. by apply Hyes.
  - destruct (read i) eqn:Er; [|exists 0, d; split; [done|]; split; [done|]; left; conj; try done; congruence]. rewrite Ec. cbn [bind].
    rewrite (proj2 (Z.eqb_neq _ _) Hb0). cbn [andb].
    destruct (alloc_block d i c bpref Hd Hg Hb0 Hp) as (b & s1 & c1 & -> & Hb & Hw & Hc1 & Hbk1 & Hmx1 & Hx1 & Hi1 & Hz1 & Hch & _). cbn [bind].
    destruct (put_block d i c s1 c1 b) as (d' & -> & Hd' & Ht); try done. cbn [bind]. eexists _, _. split; [done|].
    apply Hyes; [done| |by rewrite EF].
    apply (split_address f Hf). by apply block_start.
  - destruct (read i) eqn:Er; [|exists 0, d; split; [done|]; split; [done|]; left; conj; try done; congruence]. rewrite Ec. cbn [bind].
    rewrite (proj2 (Z.eqb_neq _ _) Hb0). cbn [andb].
    destruct (co_frsum _ _ _ Hc) as (L8 & _). destruct (frsum_from_spec (Z.to_nat F) (cg_frsum c) n L8 Hn ltac:(lia)) as (k & -> & Hk & Hk1 & Hk2).
    cbn [bind].
    destruct (Z.eqb_spec k F) as [->|HkF].
    + destruct (alloc_hack d i c bpref n Hd Hg Hb0 Hp ltac:(lia)) as (r & d' & E & Hd' & Hr & Ht). exists r, d'. split; [exact E|]. by apply Hyes.
    + destruct (alloc_frags d i c bpref n k Hd Hg Hp ltac:(lia) ltac:(lia) (Hk1 ltac:(lia))) as (r & d' & E & Hd' & Hr & Ht). exists r, d'.
      split; [exact E|]. by apply Hyes.
Qed.
End Cg.

(** * [ffs_fragextend]

    A fragment grows in its place when the fragments behind it are free. *)

Section Extend.
Context (f : fs) (read : Z -> bool) (Hf : fs_ok f).

Local Notation F := (fs_frag f).

Lemma free_until_spec fuel q bno i stop : 0 <= bno + i -> bno + stop <= 8 * Z.of_nat (length q) -> stop - i <= Z.of_nat fuel ->
  exists j, free_until fuel q bno i stop = Ret j /\ i <= j /\ (i <= stop -> j <= stop) /\ (forall x, i <= x < j -> qbit q (bno + x) = true) /\ (j < stop -> qbit q (bno + j) = false).
Proof using.
  revert i. induction fuel as [|fuel IH]; intros i H0 Hs Hfu; cbn [free_until].
  all: destruct (Z.ltb_spec i stop) as [Hlt|Hge]; [|exists i; conj; try done; try lia; intros; lia].
  - lia.
  - rewrite isset_qbit by lia. cbn [bind]. destruct (qbit q (bno + i)) eqn:E; [|exists i; conj; try done; try lia; intros; lia].
    destruct (IH (i + 1)) as (j & -> & H1 & H2 & H3 & H4); [lia..|]. exists j. conj; try done; try lia.
    intros x Hx. destruct (decide (x = i)) as [->|]; [done|]. apply H3. lia.
Qed.

Lemma extend_spec n d i s c x : books d i s c -> bytes_ok (cg_blksfree c) -> 0 <= x -> x + Z.of_nat n <= 8 * Z.of_nat (length (cg_blksfree c)) ->
  - 2 ^ 30 <= cs_nffree (cg_cs c) - Z.of_nat n -> cs_nffree (cg_cs c) < 2 ^ 31 ->
  exists s' q ns, extend n i x s c = Ret (s', set_cs ns (set_blksfree q c)) /\ books d i s' (set_cs ns (set_blksfree q c)) /\ fs_maxcluster s' = fs_maxcluster s /\
    bit_update (cg_blksfree c) q (between x (Z.of_nat n)) false /\
    cs_nbfree ns = cs_nbfree (cg_cs c) /\ cs_nffree ns = cs_nffree (cg_cs c) - Z.of_nat n /\ cs_nifree ns = cs_nifree (cg_cs c).
Proof using.
  revert s c x. induction n as [|n IH]; intros s c x Hbk Hq Hx Hl Hlo Hhi; cbn [extend].
  { exists s, (cg_blksfree c), (cg_cs c). conj; try done; try lia; [by destruct c|by eapply books_cs|]. apply bit_update_none; [done|].
    unfold between. lia. }
  destruct (clrbit_qbit (cg_blksfree c) x Hq ltac:(lia)) as (q1 & -> & U1). cbn [bind]. destruct (books_small _ _ _ _ Hbk) as (T1 & T2 & T3).
  destruct (tally_spec add_nffree (-1) 0 (-1) 0 d i s (set_blksfree q1 c) (adds_nffree _)) as (s1 & n1 & -> & Hbk1 & Emx & N1 & N2 & N3);
    cbn [cg_cs set_blksfree] in *; rewrite ?Z.add_0_r in *; try done; [by eapply books_cs|unfold is_s; lia|]. cbn [bind].
    pose proof U1 as (L1 & Q1 & _).
  destruct (IH s1 (set_cs n1 (set_blksfree q1 c)) (x + 1) Hbk1) as (s' & q & ns & -> & Hbk' & Emx' & U & M1 & M2 & M3); cbn [cg_cs cg_blksfree set_cs set_blksfree] in *;
    [done|lia|rewrite L1; lia|lia|lia|].
  exists s', q, ns. conj; try done; try congruence; try lia.
  eapply bit_update_trans; [exact U1|exact U| |apply _]. unfold between. intros j Hj. lia.
Qed.

(** The fragments behind a fragment of [o], up to [n], are free and in its block. *)
Definition can_extend (d : disk) (x o n : Z) : Prop := x mod F + n <= F /\ forall y, between (x + o) (n - o) y -> isfree f d y = true.

Lemma enough_free d i c b pos k : disk_ok f d -> group d i = Some c -> 0 <= b < Z.of_nat (nblk f) -> 0 <= pos -> 1 <= k -> pos + k <= F ->
  blk F (cg_blksfree c) b <> whole F -> (forall j, pos <= j < pos + k -> Z.testbit (blk F (cg_blksfree c) b) j = true) -> k <= cs_nffree (cg_cs c).
Proof using Hf.
  intros Hd Hg Hb Hp Hk Hl Hw Hbits. destruct (disk_books f Hf d i c Hd Hg) as (_ & Hc & _). rewrite (co_nffree _ _ _ Hc).
  pose proof (part_room F _ pos k (HF f Hf) (blk_range F _ b (HF f Hf)) Hp Hk Hl Hw Hbits) as H.
  set (h := fun b => part F (blk F (cg_blksfree c) b)) in *. change (part F (blk F (cg_blksfree c) b)) with (h b) in H.
  pose proof (sumn_change (fun x => if x =? b then 0 else h x) h (nblk f) b Hb) as E. cbv beta in E. rewrite Z.eqb_refl in E.
  rewrite E by (intros x _ Hx; by rewrite (proj2 (Z.eqb_neq x b))).
  assert (0 <= sumn (fun x => if x =? b then 0 else h x) (nblk f)); [|lia]. apply sumn_nonneg. intros x _. cbv beta. case_if; [lia|].
  unfold h. apply pop_bounds; [apply HF|apply blk_range, HF]; done.
Qed.

(** Where the run behind the fragment ends. *)
Lemma run_behind c b pos o n j : 0 <= b -> 0 <= pos -> 1 <= o -> o < n -> n <= j <= F - pos -> (forall x, o <= x < j -> qbit (cg_blksfree c) (b * F + pos + x) = true) ->
  qbit (cg_blksfree c) (b * F + pos + (o - 1)) = false -> (j < F - pos -> qbit (cg_blksfree c) (b * F + pos + j) = false) ->
  run_at (blk F (cg_blksfree c) b) (pos + o) (j - o) = true.
Proof using Hf.
  intros Hb Hp Ho Hn Hj Hin Hbef Haft. pose proof (blk_range F (cg_blksfree c) b (HF f Hf)) as Hr. unfold whole in Hr.
  pose proof (frag_pos F (HF f Hf)).
  assert (forall x, 0 <= x < F -> Z.testbit (blk F (cg_blksfree c) b) x = qbit (cg_blksfree c) (b * F + x)) as Hbit by (intros x Hx; apply blk_bit; [apply HF; done|done|done]).
  apply run_at_intro.
  - intros x Hx. rewrite Hbit by lia. replace (b * F + x) with (b * F + pos + (x - pos)) by lia. apply Hin. lia.
  - rewrite Hbit by lia. replace (b * F + (pos + o - 1)) with (b * F + pos + (o - 1)) by lia. done.
  - replace (pos + o + (j - o)) with (pos + j) by lia. destruct (decide (j < F - pos)) as [Hlt|Hge].
    + rewrite Hbit by lia. rewrite Z.add_assoc. by apply Haft.
    + apply (is_u_high F); [lia|unfold is_u; lia|lia].
Qed.

Definition extend_result (d : disk) (x o n r : Z) (d' : disk) : Prop :=
  disk_ok f d' /\ (r = 0 /\ d' = d /\ (read (x / fs_fpg f) = true -> ~ can_extend d x o n) \/ r = x /\ x mod F + n <= F /\ takes f d d' (x + o) (n - o)).

Section Call.
Context (d : disk) (i x o n : Z) (c : cg).
Context (Hd : disk_ok f d) (Hg : group d i = Some c) (Hx : 0 <= x) (Hxi : x / fs_fpg f = i) (Hon : 1 <= o < n) (HnF : n <= F) (Hin : x mod F + o <= F).
Context (Hused : forall y, between x o y -> isfree f d y = false).

(** The block of the fragment, and its place there. *)
Local Notation x' := (x mod fs_fpg f).

Lemma place : x = i * fs_fpg f + x' /\ 0 <= x' < fs_fpg f /\ x' = x' / F * F + x' mod F /\ x' mod F = x mod F /\ 0 <= x' mod F < F /\ 0 <= x' / F < Z.of_nat (nblk f).
Proof using Hf Hx Hxi Hd Hg.
  destruct (fo_fpg f Hf) as [Hfpg _]. pose proof (Z.div_mod x (fs_fpg f) ltac:(lia)) as E. pose proof (Z.mod_pos_bound x (fs_fpg f) ltac:(lia)) as Hm.
  rewrite Hxi in E.
  destruct (group_in f d i c Hd Hg) as [Hi _]. destruct (frag_block f Hf x' ltac:(lia)) as (E1 & E2 & E3 & E4). specialize (E4 ltac:(lia)).
  conj; try lia. rewrite E at 2. rewrite (Z.mul_comm (fs_fpg f)). symmetry. apply address_frag; (done || lia).
Qed.

Lemma bits_of j : 0 <= x' mod F + j < F -> isfree f d (x + j) = qbit (cg_blksfree c) (x' / F * F + x' mod F + j).
Proof using Hf Hx Hxi Hd Hg.
  intros Hj. destruct place as (E & H1 & E2 & E3 & H4 & H5). pose proof (block_start f Hf _ H5). destruct (nblk_fpg f Hf) as [En _].
  rewrite E at 1. rewrite <- Z.add_assoc, (isfree_group f Hf d i c) by (done || nia). by rewrite <- E2.
Qed.

(** The fragments are taken off the run behind. *)
Lemma extend_taken b pos j : x' = b * F + pos -> pos = x mod F -> 0 <= b < Z.of_nat (nblk f) -> 0 <= pos -> n <= j -> j <= F - pos -> run_at (blk F (cg_blksfree c) b) (pos + o) (j - o) = true ->
  exists r d', (let! frsum := aadd 32 (cg_frsum c) (j - o) (-1) in
    let! frsum := (if negb (j =? n) then aadd 32 frsum (j - n) 1 else Ret frsum) in
    let! (s, c) := extend (Z.to_nat (n - o)) i (b * F + pos + o) (d_fs d) (set_frsum frsum c) in
    let! d := put d i (modified s) c in Ret (x, d)) = Ret (r, d') /\ extend_result d x o n r d'.
Proof using Hf Hx Hxi Hd Hg Hon HnF.
  clear Hin. intros E2 Epos H5 Hp0 K1 K2 Hrun. destruct place as (Ex & H1 & _). destruct (disk_books f Hf d i c Hd Hg) as (Hbk & Hc & Hcx & Hmx & Hz).
  pose proof (group_in f d i c Hd Hg) as Hi.
  set (q := cg_blksfree c) in *. assert (b * F + F <= 8 * Z.of_nat (length q)) as Hlen.
  { pose proof (block_start f Hf b H5). destruct (nblk_fpg f Hf) as [En _]. pose proof (frag_pos F (HF f Hf)).
    pose proof (in_group f Hf _ c (b * F + F - 1) Hc ltac:(nia)). unfold q. lia. }
  destruct (frsum_take f Hf c (j - o) (n - o) Hc ltac:(lia) ltac:(lia)) as (l1 & l2 & -> & El2 & Hsh). cbn [bind].
  replace (negb (j =? n)) with (negb (n - o =? j - o)) by (f_equal; lia). replace (j - n) with (j - o - (n - o)) by lia. rewrite El2. cbn [bind].
  pose proof (nffree_bounds f Hf _ c Hc) as Hnf. destruct (fo_fpg f Hf) as [Hfpg _]. pose proof (frag_pos F (HF f Hf)) as HF1.
  destruct (extend_spec (Z.to_nat (n - o)) d i (d_fs d) (set_frsum l2 c) (b * F + pos + o)) as (s' & q' & ns & -> & Hbk' & Emx & U & N1 & N2 & N3);
    cbn [cg_blksfree cg_cs set_frsum] in *; fold q; try lia; [by eapply books_cs|apply (co_map _ _ _ Hc)|]. cbn [bind].
    rewrite Z2Nat.id in U, N2 by lia. fold q in U.
  set (c' := set_cs ns _) in *. replace (b * F + pos + o) with (b * F + (pos + o)) in U by lia.
  destruct (frags_taken f Hf c c' b (pos + o) (j - o) (n - o) Hc) as [Hc' _]; try done; try lia; try (by apply (co_rotor _ _ _ Hc)).
  destruct (put_ok f Hf d i (modified s') c c' Hd Hg) as (d' & -> & Hd' & ->); try done.
  { by apply books_modified. }
  { unfold max_ok in *. cbn [fs_maxcluster modified]. rewrite Emx. done. }
  { eapply zero_kept; [exact Hz|done|]. intros H0. change (cg_blksfree c') with q'. fold q in H0. by rewrite (cleared_bits _ _ _ _ 0 U), H0 by lia. }
  cbn [bind]. eexists _, _. split; [done|]. split; [done|]. right. split; [done|]. split; [lia|].
  replace (x + o) with (i * fs_fpg f + (b * F + (pos + o))) by lia.
  eapply takes_put; try done; try lia.
  - apply (bk_i _ _ _ _ Hbk).
  - intros y Hy. apply (run_bits f Hf c b (pos + o) (j - o)); try done; try lia. unfold between in *. lia.
  - intros y Hy. by apply cleared_bits.
Qed.

Lemma extend_call : exists r d', ffs_fragextend f read d i x (o * fs_fsize f) (n * fs_fsize f) = Ret (r, d') /\ extend_result d x o n r d'.
Proof using Hf Hx Hxi Hd Hg Hon HnF Hin Hused.
  destruct place as (Ex & H1 & E2 & E3 & H4 & H5). destruct (disk_books f Hf d i c Hd Hg) as (Hbk & Hc & Hcx & Hmx & Hz).
  pose proof (group_in f d i c Hd Hg) as Hi.
  destruct (group_get f d i Hd Hi) as (c0 & Hg0 & Ec & Ens). assert (c0 = c) as -> by congruence. pose proof (frag_pos F (HF f Hf)) as HF1.
  set (b := x' / F) in *. set (pos := x' mod F) in *. set (q := cg_blksfree c) in *.
  assert (forall y, can_extend d x o n -> o <= y < n -> qbit q (b * F + pos + y) = true) as Hcan.
  { intros y [Hc1 Hc2] Hy. rewrite <- bits_of by lia. apply Hc2. unfold between. lia. }
  assert (qbit q (b * F + pos + (o - 1)) = false) as Hbef by (rewrite <- bits_of by lia; apply Hused; unfold between; lia).
  assert (blk F q b <> whole F) as Hnw.
  { intros Hw. replace (b * F + pos + (o - 1)) with (b * F + (pos + (o - 1))) in Hbef by lia.
    rewrite <- blk_bit, Hw, whole_bit in Hbef by (lia || (apply HF; done)). lia. }
  assert (forall r, r = 0 -> (read i = true -> ~ can_extend d x o n) -> extend_result d x o n r d) as Hno by (intros r -> Hr; split; [done|]; left; rewrite Hxi; done).
  unfold ffs_fragextend. rewrite Ens. cbn [bind]. rewrite <- Z.mul_sub_distr_r, !numfrags_mul by done. rewrite !fragnum_mod, <- E3 by done. cbv zeta.
  destruct (Z.ltb_spec (cs_nffree (cg_cs c)) (n - o)) as [Hlt|Hge].
  { exists 0, d. split; [done|]. apply Hno; [done|]. intros _ Hce. pose proof Hce as [Hc1 _].
    pose proof (enough_free d i c b (pos + o) (n - o) Hd Hg H5 ltac:(lia) ltac:(lia) ltac:(lia) Hnw) as H.
    specialize (H ltac:(intros j Hj; rewrite blk_bit by (lia || (apply HF; done)); replace (b * F + j) with (b * F + pos + (j - pos)) by lia; apply Hcan; [done|lia])).
    lia. }
  destruct (Z.ltb_spec ((x + n - 1) mod F) pos) as [Hcross|Hcross].
  { exists 0, d. split; [done|]. apply Hno; [done|]. intros _ [Hc1 _]. pose proof (Z.div_mod x F ltac:(lia)) as Hdm. rewrite <- E3 in Hdm, Hc1.
    replace (x + n - 1) with (pos + n - 1 + x / F * F) in Hcross by lia. rewrite Z.mod_add, Z.mod_small in Hcross by lia. lia. }
  assert (pos + n <= F) as HpF.
  { destruct (decide (pos + n <= F)) as [|Hgt]; [done|]. exfalso. pose proof (Z.div_mod x F ltac:(lia)) as Hdm. rewrite <- E3 in Hdm.
    replace (x + n - 1) with (pos + n - 1 - F + (x / F + 1) * F) in Hcross by lia. rewrite Z.mod_add, Z.mod_small in Hcross by lia. lia. }
  unfold ffs_cgread. destruct (read i) eqn:Er; [|exists 0, d; split; [done|]; apply Hno; [done|congruence] ]. rewrite Ec. cbn [bind].
  rewrite dtogd_mod by done.
  assert (b * F + F <= 8 * Z.of_nat (length q)) as Hlen.
  { pose proof (block_start f Hf b H5). destruct (nblk_fpg f Hf) as [En _]. pose proof (in_group f Hf _ c (b * F + F - 1) Hc ltac:(nia)). unfold q.
    lia. }
  rewrite E2. fold b pos. fold q.
  destruct (free_until_spec (Z.to_nat (n - o)) q (b * F + pos) o n) as (j1 & -> & J1 & J2 & J3 & J4); [lia..|]. cbn [bind].
  specialize (J2 ltac:(lia)).
  destruct (Z.ltb_spec j1 n) as [Hj|Hj].
  { exists 0, d. split; [done|]. apply Hno; [done|]. intros _ Hce. rewrite (Hcan j1 Hce) in J4 by lia. by discriminate J4. }
  assert (j1 = n) as -> by lia.
  destruct (free_until_spec (Z.to_nat (F - pos - n)) q (b * F + pos) n (F - pos)) as (j & -> & K1 & K2 & K3 & K4); [lia..|]. cbn [bind].
  specialize (K2 ltac:(lia)).
  assert (run_at (blk F q b) (pos + o) (j - o) = true) as Hrun.
  { apply (run_behind c b pos o n j); try done; try lia. intros y Hy. destruct (decide (y < n)); [apply J3; lia|apply K3; lia]. }
  apply (extend_taken b pos j); (done || lia).
Qed.
End Call.
End Extend.

(** * Giving fragments back

    [ffs_blkfree] gives back what it is asked to, and stops the system when one of
    the fragments is free already. *)

Section Free.
Context (f : fs) (stray : Z -> Z) (wild : Z) (read : Z -> bool) (Hf : fs_ok f).

Local Notation F := (fs_frag f).

Lemma free_frags_spec n q x : bytes_ok q -> 0 <= x -> x + Z.of_nat n <= 8 * Z.of_nat (length q) -> (forall j, between x (Z.of_nat n) j -> qbit q j = false) ->
  exists q', free_frags n q x = Ret q' /\ bit_update q q' (between x (Z.of_nat n)) true.
Proof using.
  revert q x. induction n as [|n IH]; intros q x Hq Hx Hn Hu; cbn [free_frags].
  { exists q. split; [done|]. apply bit_update_none; [done|]. unfold between. lia. }
  unfold between in *. rewrite isset_qbit, Hu by lia. cbn [bind].
  destruct (setbit_qbit q x Hq ltac:(lia)) as (q1 & -> & U1). cbn [bind]. pose proof U1 as (Hl & Hq1 & _ & Ho).
  destruct (IH q1 (x + 1) Hq1 ltac:(lia) ltac:(rewrite Hl; lia)) as (q' & -> & U2); [intros j Hj; rewrite Ho by lia; apply Hu; lia|].
  exists q'. split; [done|]. eapply bit_update_trans; [exact U1|exact U2| |apply _]. intros j Hj. lia.
Qed.

Lemma free_frags_panic n q x j : bytes_ok q -> 0 <= x -> x + Z.of_nat n <= 8 * Z.of_nat (length q) -> between x (Z.of_nat n) j -> qbit q j = true ->
  exists m, free_frags n q x = Panic m.
Proof using.
  revert q x. induction n as [|n IH]; intros q x Hq Hx Hn Hj Hs; cbn [free_frags]; unfold between in *; [lia|].
  rewrite isset_qbit by lia. cbn [bind]. destruct (qbit q x) eqn:E; [by eexists|].
  destruct (setbit_qbit q x Hq ltac:(lia)) as (q1 & -> & U1). cbn [bind]. destruct U1 as (Hl & Hq1 & _ & Ho). assert (j <> x) by congruence.
  apply IH; [done|lia|rewrite Hl; lia|lia|]. by rewrite Ho by lia.
Qed.

(** The runs of a block are taken off the counts, and those of its new map added. *)
Lemma recount c m m' : cg_ok f c -> 0 <= m <= whole F -> 0 <= m' <= whole F ->
  exists l1 l2, ffs_fragacct f m (cg_frsum c) (-1) = Ret l1 /\ ffs_fragacct f m' l1 1 = Ret l2 /\ length l2 = 8%nat /\ Forall (is_s 32) l2 /\
    forall k x, 1 <= k < F -> cg_frsum c !! Z.to_nat k = Some x -> l2 !! Z.to_nat k = Some (x - nruns F m k + nruns F m' k).
Proof using Hf.
  intros Hc Hm Hm'. destruct (co_frsum _ _ _ Hc) as (L8 & S32 & Hv).
  assert (forall l l' mm cnt, counted F mm cnt 1 l l' -> Forall (is_s 32) l -> Forall (is_s 32) l') as Hfa.
  { intros l l' mm cnt [Hl Hk] Hs. apply Forall_lookup. intros k x Hx.
    destruct (lookup_lt_is_Some_2 l k) as [y Hy]; [apply lookup_lt_Some in Hx; lia|].
    rewrite (Hk k y Hy) in Hx. injection Hx as <-. case_bool_decide; [apply s32_range|]. by apply (Forall_lookup_1 _ _ _ _ Hs Hy). }
  destruct (proj1 (returns_Ret _ _) (fragacct_spec f m (-1) (cg_frsum c) (HF f Hf) Hm L8 S32)) as (l1 & E1 & C1).
  pose proof (Hfa _ _ _ _ C1 S32) as S1. pose proof C1 as [K1 V1].
  destruct (proj1 (returns_Ret _ _) (fragacct_spec f m' 1 l1 (HF f Hf) Hm' ltac:(lia) S1)) as (l2 & E2 & C2). pose proof (Hfa _ _ _ _ C2 S1) as S2.
  destruct C2 as [K2 V2].
  exists l1, l2. conj; try done; [lia|]. intros k x Hk Hx. pose proof (V2 _ _ (V1 _ _ Hx)) as E. rewrite Z2Nat.id in E by lia.
  rewrite bool_decide_eq_true_2 in E by lia. rewrite E. f_equal.
  pose proof (frsum_small f Hf c k x Hc Hk Hx). pose proof (nruns_bounds F m k (HF f Hf) Hm). pose proof (nruns_bounds F m' k (HF f Hf) Hm').
  destruct (fo_fpg f Hf) as [Hp _]. pose proof (frag_pos F (HF f Hf)).
  unfold s32. rewrite (swrap_small 32 (x + _)) by (lia || (unfold is_s; lia)). rewrite swrap_small by (lia || (unfold is_s; lia)). lia.
Qed.

(** What is used has no bit in the map of its block. *)
Lemma used_mask q b pos n : 0 <= b -> 0 <= pos -> 1 <= n -> pos + n <= F -> (forall j, between (b * F + pos) n j -> qbit q j = false) -> Z.land (blk F q b) (rmask pos n) = 0.
Proof using Hf.
  intros Hb Hp Hn Hl Hu. apply Z.bits_inj'. intros i Hi. rewrite Z.land_spec, Z.bits_0. unfold rmask. rewrite testbit_mask by lia.
  destruct (decide (pos <= i < pos + n)) as [Hin|Hout].
  - rewrite blk_bit by (lia || (apply HF; done)). rewrite Hu; [done|]. unfold between. lia.
  - apply andb_false_iff. right. lia.
Qed.

(** ** A group that gets fragments back *)

Section Group.
Context (d : disk) (i b pos n : Z) (c : cg) (s : incore) (q : list Z).
Context (Hc : cg_ok f c) (Hbk : books d i s c) (Hmx : max_ok f s c) (Hcx : cg_cgx c = i).
Context (Hb : 0 <= b < Z.of_nat (nblk f)) (Hpos : 0 <= pos) (Hn : 1 <= n) (HnF : pos + n <= F) (Hend : i * fs_fpg f + b * F + pos + n <= fs_size f).
Context (Hused : forall j, between (b * F + pos) n j -> qbit (cg_blksfree c) j = false) (U : bit_update (cg_blksfree c) q (between (b * F + pos) n) true).

Local Notation m := (blk F (cg_blksfree c) b).
Local Notation m' := (blk F q b).

Lemma given_map : changed f (cg_blksfree c) q b m' /\ pop F m' = pop F m + n /\ m <> whole F /\ m' = Z.lor m (rmask pos n).
Proof using Hf Hb Hpos Hn HnF Hused U.
  pose proof (changed_frags f Hf _ _ b pos n true ltac:(lia) Hpos ltac:(lia) HnF U) as Hch. cbv iota in Hch. pose proof Hch as (C1 & C2 & C3 & C4).
  destruct (give_pop F m pos n (HF f Hf) (blk_range F _ b (HF f Hf)) Hpos Hn HnF (used_mask _ b pos n ltac:(lia) Hpos Hn HnF Hused)) as [E1 E2].
  rewrite C4. conj; try done.
Qed.

(** A fragment of the new map is in the file system. *)
Lemma given_in k : 0 <= k < F -> Z.testbit m' k = true -> i * fs_fpg f + b * F + k < fs_size f.
Proof using Hf Hc Hcx Hb Hpos Hn HnF Hend Hused U.
  intros Hk Ht. destruct given_map as (_ & _ & _ & E). rewrite E, Z.lor_spec in Ht. unfold rmask in Ht. rewrite testbit_mask in Ht by lia.
  apply orb_true_iff in Ht as [Ht|Ht]; [|lia]. rewrite blk_bit in Ht by (lia || (apply HF; done)). apply (co_end _ _ _ Hc) in Ht; [lia|].
  pose proof (block_start f Hf b Hb). lia.
Qed.

(** The group once the counts of fragments fit the new map. *)
Lemma given_marked c' : same_rest c c' -> cg_blksfree c' = q -> cs_nffree (cg_cs c') = cs_nffree (cg_cs c) - part F m + part F m' ->
  length (cg_frsum c') = 8%nat -> Forall (is_s 32) (cg_frsum c') ->
  (forall k x, 1 <= k < F -> cg_frsum c !! Z.to_nat k = Some x -> cg_frsum c' !! Z.to_nat k = Some (x - nruns F m k + nruns F m' k)) ->
  cg_rotor c' = cg_rotor c -> cg_frotor c' = cg_frotor c -> marked f (free_block f c) c'.
Proof using Hf Hc Hcx Hb Hpos Hn HnF Hend Hused U.
  intros Hs Eq Hnf L8 S32 Hfr Er Efr. destruct given_map as (Hch & _).
  eapply (marked_change f Hf _ c c' b m' Hc Hs Hb); try done; rewrite ?Eq, ?Er, ?Efr; try done; try apply (co_rotor _ _ _ Hc).
  intros k Hk Ht. rewrite Hcx. by apply given_in.
Qed.

(** The free blocks after the change, when the block of the fragments is not or
    is one of them. *)
Lemma given_free x : 0 <= x -> free_block f (set_blksfree q c) x = if x =? b then m' =? whole F else free_block f c x.
Proof using Hf Hb Hpos Hn HnF Hused U.
  intros Hx. destruct given_map as ((_ & _ & Ho & _) & _). unfold free_block. cbn [cg_blksfree set_blksfree].
  destruct (Z.eqb_spec x b) as [->|Hne]; [done|]. by rewrite Ho.
Qed.

Definition given (s' : incore) (c' : cg) : Prop :=
  cg_ok f c' /\ books d i s' c' /\ max_ok f s' c' /\ cg_cgx c' = i /\ cg_ino c' = cg_ino c /\ cg_blksfree c' = q.

(** The fragments are counted, and the block too if it is complete. *)
Lemma give_counts l1 l2 : ffs_fragacct f m (cg_frsum c) (-1) = Ret l1 -> ffs_fragacct f m' l1 1 = Ret l2 -> length l2 = 8%nat -> Forall (is_s 32) l2 ->
  (forall k x, 1 <= k < F -> cg_frsum c !! Z.to_nat k = Some x -> l2 !! Z.to_nat k = Some (x - nruns F m k + nruns F m' k)) ->
  exists s' c', (let! (s, c) := tally_csum add_nffree i n s (set_blksfree q (set_frsum l1 c)) in
     let! blk := blkmap f (cg_blksfree c) (b * F) in
     let! frsum := ffs_fragacct f blk (cg_frsum c) 1 in
     let c := set_frsum frsum c in
     let! whole := ffs_isblock f (cg_blksfree c) b in
     if whole then
       let! (s, c) := tally_csum add_nffree i (- F) s c in
       let! (s, c) := ffs_clusteracct f stray wild s c b 1 in
       let! (s, c) := tally_csum add_nbfree i 1 s c in
       let! c := tally_pos f c (b * F) 1 in
       Ret (s, c)
     else Ret (s, c)) = Ret (s', c') /\ given s' c'.
Proof using Hf Hc Hbk Hmx Hcx Hb Hpos Hn HnF Hend Hused U.
  intros _ E2 L8 S32 Hfr. destruct given_map as (Hch & Hpop & Hmw & _). pose proof Hch as (Hlen & Hby & _).
  destruct (fo_fpg f Hf) as [Hfpg _]. pose proof (nffree_bounds f Hf _ c Hc) as Hnf. pose proof (frag_pos F (HF f Hf)) as HF1.
  destruct (map_bytes f Hf c b Hc Hb) as [_ Hin].
  destruct (books_small _ _ _ _ Hbk) as (T1 & T2 & T3). assert (part F m = pop F m) as Epm by (unfold part; by rewrite (proj2 (Z.eqb_neq _ _) Hmw)).
  destruct (tally_spec add_nffree n 0 n 0 d i s (set_blksfree q (set_frsum l1 c)) (adds_nffree n)) as (s1 & n1 & -> & Hbk1 & Emx1 & N1 & N2 & N3);
    [by eapply books_cs|cbn [cg_cs set_blksfree set_frsum]; rewrite ?Z.add_0_r; unfold is_s in *; (done || lia)..|].
    cbn [cg_cs set_blksfree set_frsum] in N1, N2, N3. cbn [bind].
  set (c2 := set_cs n1 _) in *. change (cg_blksfree c2) with q. rewrite (blkmap_spec f (HF f Hf) q b) by (rewrite ?Hlen; lia). cbn [bind].
  change (cg_frsum c2) with l1. rewrite E2. cbn [bind]. cbv zeta. change (cg_blksfree (set_frsum l2 c2)) with q.
  rewrite (proj1 (isblock_spec f (HF f Hf) q Hby b ltac:(lia) ltac:(rewrite Hlen; lia))). cbn [bind]. destruct (Z.eqb_spec m' (whole F)) as [Ew|Ew].
  - destruct (tally_spec add_nffree (-F) 0 (-F) 0 d i s1 (set_frsum l2 c2) (adds_nffree (-F))) as (s2 & n2 & -> & Hbk2 & Emx2 & M1 & M2 & M3);
      [by eapply books_cs|cbn [c2 cg_cs set_cs set_frsum]; unfold is_s in *; lia..|]. cbn [bind]. cbn [c2 cg_cs set_cs set_frsum] in M1, M2, M3.
      set (c4 := set_cs n2 _) in *.
    assert (marked f (free_block f c) c4) as Hm4.
    { apply given_marked; try done; [unfold same_rest; cbn [c4 c2 cg_cs set_cs]; conj; try done; lia|]. cbn [c4 cg_cs set_cs]. rewrite Ew.
      unfold part at 2. rewrite Z.eqb_refl, Epm. rewrite Ew, pop_whole in Hpop by (apply HF; done). lia. }
    assert (i * fs_fpg f + (b + 1) * F <= fs_size f) as Hin'.
    { pose proof (given_in (F - 1) ltac:(lia)) as H. rewrite Ew, whole_bit in H by lia. specialize (H ltac:(lia)). lia. }
    destruct (toggle_spec f stray wild Hf (free_block f c) d s2 c4 b true Hm4) as (s3 & c5 & s4 & c6 & c7 & -> & E6 & E7 & Hm7 & Hb7 & Hx7 & Hs7 & Ex5);
      change (cg_cgx c4) with (cg_cgx c); rewrite ?Hcx; try done.
    { apply Z.eqb_neq. exact Hmw. }
    { unfold max_ok in *. cbn [c4 c2 cg_cgx cg_clustersfree cg_nclusterblks set_cs set_frsum set_blksfree]. by rewrite Emx2, Emx1. }
    change (cg_cgx c4) with (cg_cgx c) in *. rewrite Hcx in *. cbn [bind]. rewrite E6. cbn [bind]. rewrite E7. cbn [bind].
    destruct Hs7 as (S1 & S2 & _ & _ & _ & S6 & _).
    eexists _, _. split; [done|]. unfold given. conj; try done; [|by rewrite S1]. eapply marked_ext; [exact Hm7|]. intros x Hx.
    change (free_block f c7 x) with (blk F (cg_blksfree c7) x =? whole F). rewrite S2.
    pose proof (given_free x ltac:(lia)) as G. unfold free_block at 1 in G. cbn [cg_blksfree set_blksfree] in G. change (cg_blksfree c4) with q.
    rewrite G, Ew, Z.eqb_refl. done.
  - eexists _, _. split; [done|]. unfold given.
    conj; try done; [|by eapply books_cs|unfold max_ok in *; cbn [c2 cg_cgx cg_clustersfree cg_nclusterblks set_cs set_frsum set_blksfree]; by rewrite Emx1].
    eapply marked_ext; [apply given_marked; try done|].
    + unfold same_rest. cbn [c2 cg_cs set_cs set_frsum]. conj; try done; lia.
    + cbn [c2 cg_cs set_cs set_frsum]. unfold part at 2. rewrite (proj2 (Z.eqb_neq _ _) Ew). lia.
    + intros x Hx. pose proof (given_free x ltac:(lia)) as G. change (free_block f (set_frsum l2 c2) x) with (free_block f (set_blksfree q c) x).
      rewrite G.
      destruct (Z.eqb_spec x b) as [->|]; [|done]. unfold free_block. by rewrite (proj2 (Z.eqb_neq _ _) Ew), (proj2 (Z.eqb_neq _ _) Hmw).
Qed.
End Group.

(** ** [ffs_blkfree] *)

Definition gives (d d' : disk) (x n : Z) : Prop :=
  extent_of f x n /\ (forall y, between x n y -> isfree f d y = false) /\ (forall y, isfree f d' y = isfree f d y || bool_decide (between x n y)) /\ same_inodes f d d'.

Section Call.
Context (d : disk) (i x n : Z) (c : cg).
Context (Hd : disk_ok f d) (Hg : group d i = Some c) (Hx : 0 <= x) (Hxi : x / fs_fpg f = i) (Hext : extent_of f x n) (Hend : x + n <= fs_size f).

Local Notation x' := (x mod fs_fpg f).
Local Notation b := (x' / F).
Local Notation pos := (x' mod F).

Lemma freed_place : x = i * fs_fpg f + (b * F + pos) /\ pos + n <= F /\ 1 <= n /\ 0 <= pos /\ 0 <= b < Z.of_nat (nblk f) /\ x' = b * F + pos.
Proof using Hf Hd Hg Hx Hxi Hext.
  destruct (place f Hf d i x c Hd Hg Hx Hxi) as (E & H1 & E2 & E3 & H4 & H5). destruct Hext as (_ & Hn & Hl). rewrite E3. conj; try done; try lia.
Qed.

Lemma freed_bit y : between x n y -> isfree f d y = qbit (cg_blksfree c) (b * F + pos + (y - x)).
Proof using Hf Hd Hg Hx Hxi Hext.
  intros Hy. unfold between in Hy. destruct freed_place as (_ & Hl & _). replace y with (x + (y - x)) at 1 by lia.
  apply (bits_of f Hf d i x c Hd Hg Hx Hxi). pose proof (Z.mod_pos_bound x' F). pose proof (frag_pos F (HF f Hf)). lia.
Qed.

Lemma gives_put s' c' : (forall y, between x n y -> isfree f d y = false) -> bit_update (cg_blksfree c) (cg_blksfree c') (between (b * F + pos) n) true -> cg_ino c' = cg_ino c ->
  gives d (Disk s' (<[Z.to_nat i := c']> (d_cgs d))) x n.
Proof using Hf Hd Hg Hx Hxi Hext.
  intros Hu (_ & _ & Uin & Uout) Hino. split; [done|]. split; [done|]. split; [|by eapply isused_put]. intros y.
  pose proof (group_in f d i c Hd Hg) as Hi. rewrite isfree_put by (rewrite (dk_len _ _ Hd); lia).
  destruct freed_place as (E & Hl & Hn & Hp & Hb & E2). destruct (fo_fpg f Hf) as [Hfpg _]. destruct (Z.eqb_spec (y / fs_fpg f) i) as [Ey|Hne].
  - pose proof (Z.div_mod y (fs_fpg f) ltac:(lia)) as Hdm. rewrite Ey in Hdm. pose proof (Z.mod_pos_bound y (fs_fpg f) ltac:(lia)).
    assert (isfree f d y = qbit (cg_blksfree c) (y mod fs_fpg f)) as -> by (unfold isfree; by rewrite Ey, Hg).
    case_bool_decide as Hy; unfold between in *.
    + rewrite orb_true_r. apply Uin; lia.
    + rewrite orb_false_r. apply Uout; lia.
  - rewrite bool_decide_eq_false_2; [by rewrite orb_false_r|]. unfold between. intros Hy. apply Hne. destruct (nblk_fpg f Hf) as [En _].
    replace y with (i * fs_fpg f + (y - i * fs_fpg f)) by lia. apply split_address; [done|]. nia.
Qed.

(** The guards of the call pass. *)
Lemma free_guards : (u32 (fs_bsize f) <? u32 (n * fs_fsize f)) = false /\ fragoff f (n * fs_fsize f) = 0 /\ (F <? fragnum f x + n) = false /\
  s32 (dtog f x) = i /\ (fs_size f <=? u32 x) = false.
Proof using Hf Hd Hg Hx Hxi Hext Hend.
  destruct (fo_size f Hf) as (Hs & E & Eb & Eq & Hb31). destruct (fo_ncg f Hf) as [Hncg Hsz]. destruct (fo_fs f Hf) as [_ Hfs].
  pose proof (group_in f d i c Hd Hg) as Hi.
  pose proof (Z.pow_pos_nonneg 2 (fs_fshift f) ltac:(lia) Hs) as Hpow. rewrite <- E in Hpow. destruct Hext as (_ & Hn & Hl).
  pose proof (Z.mod_pos_bound x F ltac:(pose proof (frag_pos F (HF f Hf)); lia)).
  rewrite fragnum_mod, dtog_div, Hxi by done. conj; try lia.
  - unfold u32. rewrite !wrap_small by (unfold is_u; nia). nia.
  - unfold fragoff. rewrite Eq, E. replace (2 ^ fs_fshift f - 1) with (Z.ones (fs_fshift f)) by (rewrite Z.ones_equiv; lia).
    rewrite Z.land_ones by done. apply Z.mod_mul. lia.
  - apply swrap_small; [done|]. unfold is_s. lia.
  - unfold u32. rewrite wrap_small by (unfold is_u; nia). lia.
Qed.

Lemma after_put s' c' : cg_ok f c' -> books d i s' c' -> max_ok f s' c' -> cg_cgx c' = i -> cg_ino c' = cg_ino c -> 0 < x ->
  (forall y, between x n y -> isfree f d y = false) -> bit_update (cg_blksfree c) (cg_blksfree c') (between (b * F + pos) n) true ->
  exists d', put d i (modified s') c' = Ret d' /\ disk_ok f d' /\ gives d d' x n.
Proof using Hf Hd Hg Hx Hxi Hext.
  intros Hc' Hbk' Hmx' Hx' Hino Hx0 Hu U.
  destruct (put_ok f Hf d i (modified s') c c' Hd Hg) as (d' & E & Hd' & ->); try done; [by apply books_modified| |].
  - destruct (disk_books f Hf d i c Hd Hg) as (_ & _ & _ & _ & Hz). intros Hi0. destruct (Hz Hi0) as [H1 H2]. rewrite Hino. split; [|done].
    destruct freed_place as (Ex & _).
    rewrite (proj2 (proj2 (proj2 U))); [done|done|]. unfold between. lia.
  - eexists. split; [exact E|]. split; [done|]. by apply gives_put.
Qed.

Context (Hr : read i = true).

Lemma used_bits : (forall y, between x n y -> isfree f d y = false) -> forall j, between (b * F + pos) n j -> qbit (cg_blksfree c) j = false.
Proof using Hf Hd Hg Hx Hxi Hext.
  intros Hu j Hj. unfold between in *. rewrite <- (Hu (x + (j - (b * F + pos)))) by lia. rewrite freed_bit by (unfold between; lia). f_equal. lia.
Qed.

Lemma map_room : b * F + F <= 8 * Z.of_nat (length (cg_blksfree c)).
Proof using Hf Hd Hg Hx Hxi Hext.
  destruct freed_place as (_ & _ & _ & _ & Hb & _). destruct (disk_books f Hf d i c Hd Hg) as (_ & Hc & _). pose proof (block_start f Hf b Hb).
  destruct (nblk_fpg f Hf) as [En _].
  pose proof (frag_pos F (HF f Hf)). pose proof (in_group f Hf _ c (b * F + F - 1) Hc ltac:(nia)). lia.
Qed.

(** The block of the call, as its words. *)
Lemma free_body : ffs_blkfree f stray wild read d x (n * fs_fsize f) =
  let! (s, c) :=
    (if n =? F then
       if negb (blk F (cg_blksfree c) b =? 0) then Panic "ffs_blkfree: freeing free block"
       else
         let! map := ffs_setblock f (cg_blksfree c) b in
         let! (s, c) := ffs_clusteracct f stray wild (d_fs d) (set_blksfree map c) b 1 in
         let! (s, c) := tally_csum add_nbfree i 1 s c in
         let! c := tally_pos f c x' 1 in
         Ret (s, c)
     else
       let! frsum := ffs_fragacct f (blk F (cg_blksfree c) b) (cg_frsum c) (-1) in
       let! map := free_frags (Z.to_nat n) (cg_blksfree c) x' in
       let! (s, c) := tally_csum add_nffree i n (d_fs d) (set_blksfree map (set_frsum frsum c)) in
       let! blk := blkmap f (cg_blksfree c) (b * F) in
       let! frsum := ffs_fragacct f blk (cg_frsum c) 1 in
       let c := set_frsum frsum c in
       let! whole := ffs_isblock f (cg_blksfree c) b in
       if whole then
         let! (s, c) := tally_csum add_nffree i (- F) s c in
         let! (s, c) := ffs_clusteracct f stray wild s c b 1 in
         let! (s, c) := tally_csum add_nbfree i 1 s c in
         let! c := tally_pos f c (b * F) 1 in
         Ret (s, c)
       else Ret (s, c)) in
  put d i (modified s) c.
Proof using Hf Hd Hg Hx Hxi Hext Hend Hr.
  destruct free_guards as (G1 & G2 & G3 & G4 & G5). destruct freed_place as (_ & _ & _ & Hp & Hb & Ex).
  destruct (disk_books f Hf d i c Hd Hg) as (_ & Hc & _). pose proof (frag_pos F (HF f Hf)).
  destruct (group_get f d i Hd (group_in f d i c Hd Hg)) as (c0 & Hg0 & Ec & _). assert (c0 = c) as -> by congruence. pose proof map_room as Hroom.
  destruct (co_map _ _ _ Hc) as [Hby _].
  unfold ffs_blkfree. rewrite numfrags_mul by done. rewrite G1, G2, G3, G4, G5. cbn [orb negb]. rewrite Z.eqb_refl. cbn [negb]. unfold ffs_cgread.
  rewrite Hr, Ec. cbn [bind].
  rewrite dtogd_mod, size_eqb, fragnum_mod, !fragstoblks_div by done. cbv zeta.
  rewrite (proj2 (isblock_spec f (HF f Hf) _ Hby b ltac:(lia) ltac:(lia))). cbn [bind].
  replace (x' - pos) with (b * F) by lia. rewrite Z.div_mul by lia. rewrite (blkmap_spec f (HF f Hf)) by lia. reflexivity.
Qed.

(** A block. *)
Lemma free_block_call : n = F -> 0 < x -> (forall y, between x n y -> isfree f d y = false) ->
  exists d', ffs_blkfree f stray wild read d x (n * fs_fsize f) = Ret d' /\ disk_ok f d' /\ gives d d' x n.
Proof using Hf Hd Hg Hx Hxi Hext Hend Hr.
  intros EF Hx0 Hu. destruct freed_place as (E & Hl & Hn & Hp & Hb & Ex). assert (pos = 0) as Ep by lia.
  destruct (disk_books f Hf d i c Hd Hg) as (Hbk & Hc & Hcx & Hmx & Hz). pose proof (frag_pos F (HF f Hf)).
  rewrite free_body, (proj2 (Z.eqb_eq n F) EF). assert (blk F (cg_blksfree c) b = 0) as E0.
  { pose proof (whole_bound F (HF f Hf)). apply (map_eq F); [apply HF; done|apply blk_range, HF; done|lia|]. intros k Hk.
    rewrite Z.bits_0, blk_bit by (lia || (apply HF; done)). apply used_bits; [done|]. unfold between. lia. }
  rewrite E0, Z.eqb_refl. cbn [negb]. pose proof map_room.
  destruct (setblock_spec f (HF f Hf) (cg_blksfree c) (proj1 (co_map _ _ _ Hc)) b ltac:(lia) ltac:(lia)) as (q & -> & U). cbn [bind].
  destruct (block_step f stray wild Hf d (d_fs d) c b true q Hc) as (s1 & c1 & s2 & c2 & c3 & -> & E2 & E3 & X1 & X3 & I3 & Hc3 & Hbk3 & Hmx3 & Eq3 & Hch); rewrite ?Hcx; try done; [lia|].
  rewrite Hcx in *. cbn [bind]. rewrite E2. cbn [bind]. replace x' with (b * F) by lia. rewrite E3. cbn [bind]. apply after_put; try done.
  rewrite Eq3.
  destruct U as (U1 & U2 & U3 & U4). split; [done|]. split; [done|]. split; intros j Hj Hb'; [apply U3|apply U4]; try done; unfold between in *.
  - symmetry. apply (Z.div_unique j F b (j - b * F)); lia.
  - intros Ej. pose proof (Z.div_mod j F ltac:(lia)). pose proof (Z.mod_pos_bound j F ltac:(lia)). rewrite Ej in *. lia.
Qed.

(** Part of a block. *)
Lemma free_frags_call : n <> F -> 0 < x -> (forall y, between x n y -> isfree f d y = false) ->
  exists d', ffs_blkfree f stray wild read d x (n * fs_fsize f) = Ret d' /\ disk_ok f d' /\ gives d d' x n.
Proof using Hf Hd Hg Hx Hxi Hext Hend Hr.
  intros EF Hx0 Hu. destruct freed_place as (E & Hl & Hn & Hp & Hb & Ex). destruct (disk_books f Hf d i c Hd Hg) as (Hbk & Hc & Hcx & Hmx & Hz).
  pose proof (frag_pos F (HF f Hf)).
  rewrite free_body, (proj2 (Z.eqb_neq n F) EF). pose proof map_room. pose proof (used_bits Hu) as Hub.
  destruct (free_frags_spec (Z.to_nat n) (cg_blksfree c) (b * F + pos)) as (q & Eq & U); [apply (co_map _ _ _ Hc)|lia|lia|rewrite Z2Nat.id by lia; done|].
  rewrite Z2Nat.id in U by lia.
  destruct (recount c (blk F (cg_blksfree c) b) (blk F q b) Hc) as (l1 & l2 & E1 & E2 & L8 & S32 & Hfr); [apply blk_range, HF; done..|].
  rewrite <- Ex in Eq. rewrite E1. cbn [bind]. rewrite Eq. cbn [bind].
  destruct (give_counts d i b pos n c (d_fs d) q) with (l1 := l1) (l2 := l2) as (s' & c' & Ecall & G1 & G2 & G3 & G4 & G5 & G6); try done; [lia|].
  cbv zeta in Ecall |- *. rewrite Ecall. cbn [bind]. apply after_put; try done. by rewrite G6.
Qed.

(** Something of it is free already. *)
Lemma free_again y : between x n y -> isfree f d y = true -> exists msg, ffs_blkfree f stray wild read d x (n * fs_fsize f) = Panic msg.
Proof using Hf Hd Hg Hx Hxi Hext Hend Hr.
  intros Hy Hfr. destruct freed_place as (E & Hl & Hn & Hp & Hb & Ex). destruct (disk_books f Hf d i c Hd Hg) as (Hbk & Hc & Hcx & Hmx & Hz).
  pose proof (frag_pos F (HF f Hf)). pose proof map_room.
  rewrite freed_bit in Hfr by done. unfold between in Hy. rewrite free_body. destruct (Z.eqb_spec n F) as [EF|EF].
  - destruct (Z.eqb_spec (blk F (cg_blksfree c) b) 0) as [E0|]; [|by eexists]. exfalso. assert (pos = 0) as Ep by lia.
    replace (b * F + pos + (y - x)) with (b * F + (y - x)) in Hfr by lia. rewrite <- blk_bit, E0, Z.bits_0 in Hfr by (lia || (apply HF; done)). done.
  - destruct (recount c (blk F (cg_blksfree c) b) 0 Hc) as (l1 & _ & -> & _); [apply blk_range, HF; done|pose proof (whole_bound F (HF f Hf)); lia|].
    cbn [bind]. rewrite Ex.
    destruct (free_frags_panic (Z.to_nat n) (cg_blksfree c) (b * F + pos) (b * F + pos + (y - x))) as [msg ->]; [apply (co_map _ _ _ Hc)|lia|lia|unfold between; lia|done|].
    by eexists.
Qed.
End Call.

Theorem blkfree_spec d x n : disk_ok f d -> 0 < x -> extent_of f x n -> x + n <= fs_size f -> read (x / fs_fpg f) = true -> (forall y, between x n y -> isfree f d y = false) ->
  exists d', ffs_blkfree f stray wild read d x (n * fs_fsize f) = Ret d' /\ disk_ok f d' /\ gives d d' x n.
Proof using Hf.
  intros Hd Hx Hext Hend Hr Hu. destruct (fo_fpg f Hf) as [Hfpg _]. destruct (fo_fs f Hf) as [_ Hfs].
  destruct (group_get f d (x / fs_fpg f) Hd) as (c & Hg & _).
  { split; [apply Z.div_pos; lia|]. apply Z.div_lt_upper_bound; [lia|]. destruct Hext. lia. }
  destruct (decide (n = F)); [eapply free_block_call|eapply free_frags_call]; (done || lia).
Qed.

Lemma blkfree_panics d x n y : disk_ok f d -> 0 <= x -> extent_of f x n -> x + n <= fs_size f -> read (x / fs_fpg f) = true -> between x n y -> isfree f d y = true ->
  exists msg, ffs_blkfree f stray wild read d x (n * fs_fsize f) = Panic msg.
Proof using Hf.
  intros Hd Hx Hext Hend Hr Hy Hfr. destruct (fo_fpg f Hf) as [Hfpg _]. destruct (fo_fs f Hf) as [_ Hfs].
  destruct (group_get f d (x / fs_fpg f) Hd) as (c & Hg & _).
  { split; [apply Z.div_pos; lia|]. apply Z.div_lt_upper_bound; [lia|]. destruct Hext. lia. }
  by eapply free_again.
Qed.

(** ** [ffs_checkblk] *)

Lemma count_free_spec n q x acc : 0 <= x -> x + Z.of_nat n <= 8 * Z.of_nat (length q) ->
  exists k, count_free n q x acc = Ret (acc + k) /\ 0 <= k <= Z.of_nat n /\ (k = 0 <-> forall j, between x (Z.of_nat n) j -> qbit q j = false) /\ (k = Z.of_nat n <-> forall j, between x (Z.of_nat n) j -> qbit q j = true).
Proof using.
  clear. revert x acc. unfold between. induction n as [|n IH]; intros x acc Hx Hn; cbn [count_free].
  { exists 0. rewrite Z.add_0_r. split; [done|]. split; [lia|]. split; (split; [intros _ j Hj; lia|done]). }
  rewrite isset_qbit by lia. cbn [bind]. destruct (IH (x + 1) (if qbit q x then acc + 1 else acc) ltac:(lia) ltac:(lia)) as (k & -> & Hk & H0 & H1).
  assert (forall v, (forall j, x <= j < x + Z.of_nat (S n) -> qbit q j = v) <-> qbit q x = v /\ forall j, x + 1 <= j < x + 1 + Z.of_nat n -> qbit q j = v) as Hs.
  { intros v. split; [intros H; split; [apply H; lia|intros j Hj; apply H; lia]|]. intros [Hv H] j Hj.
    destruct (decide (j = x)) as [->|]; [done|apply H; lia]. }
  exists (k + if qbit q x then 1 else 0). rewrite !Hs, <- H0, <- H1.
  destruct (qbit q x); (split; [f_equal; lia|]); (split; [lia|]); (split; [|]); split; intros; try (destruct_and?); try done; try lia; try (split; [done|lia]).
Qed.

(** A block is taken for allocated unless all of it is free; a part of a block must
    be used or free as a whole. *)
Lemma checkblk_spec d x n : disk_ok f d -> 0 <= x -> extent_of f x n -> x + n <= fs_size f -> read (x / fs_fpg f) = true ->
  let all v := forall y, between x n y -> isfree f d y = v in let call := ffs_checkblk f read d x (n * fs_fsize f) in
  (n = F -> exists b, call = Ret b /\ (b = false <-> all true)) /\
  (n <> F -> (all false -> call = Ret true) /\ (all true -> call = Ret false) /\ (~ all false -> ~ all true -> exists msg, call = Panic msg)).
Proof using Hf.
  clear stray wild. intros Hd Hx Hext Hend Hr all call. destruct (fo_fpg f Hf) as [Hfpg _]. destruct (fo_fs f Hf) as [_ Hfs].
  pose proof (frag_pos F (HF f Hf)) as HF1. destruct (group_get f d (x / fs_fpg f) Hd) as (c & Hg & Ec & _).
  { split; [apply Z.div_pos; lia|]. apply Z.div_lt_upper_bound; [lia|]. destruct Hext. lia. }
  destruct (free_guards d _ x n c Hd Hg Hx eq_refl Hext Hend) as (G1 & G2 & _ & G4 & G5).
  destruct (freed_place d _ x n c Hd Hg Hx eq_refl Hext) as (E & Hl & Hn & Hp & Hb & Ex).
  pose proof (map_room d _ x n c Hd Hg Hx eq_refl Hext) as Hroom.
  pose proof (freed_bit d _ x n c Hd Hg Hx eq_refl Hext) as Hbit. destruct (disk_books f Hf d _ c Hd Hg) as (_ & Hc & _).
  set (x' := x mod fs_fpg f) in *.
  assert (forall v, all v <-> forall j, between x' n j -> qbit (cg_blksfree c) j = v) as Hall.
  { intros v. unfold all, between in *. split; intros H j Hj.
    - rewrite <- (H (x + (j - x'))) by lia. rewrite Hbit by lia. f_equal. lia.
    - rewrite Hbit by lia. apply H. lia. }
  unfold call, ffs_checkblk. rewrite G1, G2, G4, G5. cbn [orb negb]. rewrite Z.eqb_refl. cbn [negb]. unfold ffs_cgread. rewrite Hr, Ec. cbn [bind].
  rewrite dtogd_mod, size_eqb, fragstoblks_div, numfrags_mul by done. fold x'. cbv zeta. split; intros HnF.
  - rewrite (proj2 (Z.eqb_eq n F) HnF). destruct (co_map _ _ _ Hc) as [Hby _].
    rewrite (proj1 (isblock_spec f (HF f Hf) _ Hby (x' / F) ltac:(lia) ltac:(lia))). cbn [bind]. eexists. split; [done|]. rewrite Hall.
    assert (x' mod F = 0) as E0 by lia. rewrite negb_false_iff, Z.eqb_eq. split.
    + intros Hw j Hj. unfold between in Hj. replace j with (x' / F * F + (j - x')) by lia.
      rewrite <- blk_bit, Hw, whole_bit by (lia || (apply HF; done)). lia.
    + intros H. pose proof (whole_bound F (HF f Hf)). apply (map_eq F); [apply HF; done|apply blk_range, HF; done|lia|]. intros k Hk.
      rewrite blk_bit, whole_bit by (lia || (apply HF; done)). rewrite H by (unfold between; lia). lia.
  - rewrite (proj2 (Z.eqb_neq n F) HnF).
    destruct (count_free_spec (Z.to_nat n) (cg_blksfree c) x' 0 ltac:(lia) ltac:(lia)) as (k & -> & Hk & H0 & H1). cbn [bind].
    rewrite Z2Nat.id in * by lia. rewrite Z.add_0_l. rewrite <- Hall in H0, H1.
    conj; [intros H%H0; subst k; done|intros H%H1; subst k; by rewrite (proj2 (Z.eqb_neq n 0)), Z.eqb_refl by lia|]. intros N0 N1.
    rewrite (proj2 (Z.eqb_neq k 0)), (proj2 (Z.eqb_neq k n)) by tauto. by eexists.
Qed.
End Free.
