(* ===== verification/FfsCluster.v ===== *)
(** * Clusters and inodes of a group

    [ffs_clusteralloc], [ffs_nodealloccg] and [ffs_freefile] on a consistent file
    system. *)

From S2P Require Import Prelude Bitmap Ffs FfsMap FfsInv FfsCg.

(** * Clusters

    [ffs_clusteralloc] takes the first run of free blocks that is long enough,
    from the preferred block on. *)

(** ** Runs and their counts *)

Section Sums.
Context (g : nat -> Z) (g0 : g O = 0) (Hg : forall r, 0 <= g r).

Lemma rsum_trail cur l : g (trail cur l) <= rsum g cur l.
Proof.
  revert cur. induction l as [|b l IH]; intros cur; [by rewrite rsum_nil|]. destruct b; cbn [trail]; [apply IH|]. rewrite rsum_false by done.
  specialize (IH 0%nat). specialize (Hg cur). lia.
Qed.

Lemma rsum_nonneg cur l : 0 <= rsum g cur l.
Proof. pose proof (rsum_trail cur l). pose proof (Hg (trail cur l)). lia. Qed.

Lemma rsum_lead cur l : g (cur + lead l)%nat <= rsum g cur l.
Proof.
  revert cur. induction l as [|b l IH]; intros cur; [rewrite rsum_nil; simpl; by rewrite ?Nat.add_0_r|]. destruct b; cbn [lead].
  - replace (cur + S (lead l))%nat with (S cur + lead l)%nat by lia. apply IH.
  - rewrite rsum_false, Nat.add_0_r by done. pose proof (rsum_nonneg 0 l). lia.
Qed.

(** A run is counted with the size of all of it. *)
Lemma rsum_run l k l' : g (trail 0 l + k + lead l')%nat <= rsum g 0 (l ++ replicate k true ++ l').
Proof using g0 Hg.
  rewrite rsum_app by done. rewrite (rsum_cur g g0 (trail 0 l)). rewrite lead_app, Nat.add_assoc.
  pose proof (rsum_trail 0 l). pose proof (rsum_lead 0 (replicate k true ++ l')) as H1. rewrite lead_app in H1. simpl in H1. lia.
Qed.
End Sums.

Lemma of_size_nonneg cap k r : 0 <= of_size cap k r.
Proof. unfold of_size. case_if; lia. Qed.

(** A run of [len] free blocks shows in the counts. *)
Lemma clusters_room cap q n b len : 1 <= len <= cap -> 0 <= b -> b + len <= n -> (forall x, b <= x < b + len -> qbit q x = true) ->
  exists k, len <= k <= cap /\ 0 < clusters cap (cbits q n) k.
Proof.
  intros Hlen Hb Hn Hq. assert (cbits q n = (qbit q <$> seqZ 0 b) ++ replicate (Z.to_nat len) true ++ (qbit q <$> seqZ (b + len) (n - b - len))) as E.
  { unfold cbits. replace n with (b + (len + (n - b - len))) at 1 by lia. rewrite seqZ_app, fmap_app by lia. f_equal.
    rewrite Z.add_0_l, seqZ_app, fmap_app by lia. f_equal. by apply fmap_true. }
  set (R := (trail 0 (qbit q <$> seqZ 0 b) + Z.to_nat len + lead (qbit q <$> seqZ (b + len) (n - b - len)))%nat). exists (Z.min (Z.of_nat R) cap).
  split; [lia|].
  pose proof (rsum_run (of_size cap (Z.min (Z.of_nat R) cap)) (of_size_0 cap _ ltac:(lia)) (of_size_nonneg cap _) (qbit q <$> seqZ 0 b) (Z.to_nat len) (qbit q <$> seqZ (b + len) (n - b - len))) as H.
  unfold clusters. rewrite E. fold R in H. unfold of_size at 1 in H. rewrite Z.eqb_refl, (proj2 (Z.eqb_neq _ 0)) in H by lia. simpl in H. lia.
Qed.

(** ** The searches *)

Section Cluster.
Context (f : fs) (stray : Z -> Z).

Local Notation F := (fs_frag f).
Local Notation cap := (fs_contigsumsize f).

Lemma cluster_from_spec fuel v l len : vec cap v l -> 1 <= len <= cap + 1 -> cap + 1 - len <= Z.of_nat fuel ->
  exists j, cluster_from f fuel l len = Ret j /\ len <= j <= cap + 1 /\ (j <= cap -> 0 < v j) /\ forall k, len <= k < j -> v k <= 0.
Proof using.
  intros Hv. revert len. induction fuel as [|fuel IH]; intros len Hl Hf'; cbn [cluster_from].
  all: destruct (Z.leb_spec len cap) as [Hle|Hgt]; [|exists len; conj; try done; intros; lia].
  { lia. }
  rewrite (aget_Some l len (v len)) by (lia || (apply Hv; lia)). cbn [bind].
  destruct (Z.ltb_spec 0 (v len)); [exists len; conj; try done; intros; lia|].
  destruct (IH (len + 1) ltac:(lia) ltac:(lia)) as (j & -> & H1 & H2 & H3). exists j. conj; try done; try lia. intros k Hk.
  destruct (decide (k = len)) as [->|]; [done|]. apply H3. lia.
Qed.

(** No run of [len] blocks lies between [a] and [e]. *)
Definition no_run (q : list Z) (a e len : Z) : Prop := forall b, a <= b -> b + len <= e -> exists x, b <= x < b + len /\ qbit q x = false.

Lemma cluster_run_spec q a len stop fuel map bit run got : 0 <= a -> 1 <= len -> stop <= 8 * Z.of_nat (length q) -> stop - got <= Z.of_nat fuel ->
  a <= got - run -> 0 <= run < len -> (got < stop -> holds q map bit got) -> (forall x, got - run <= x < got -> qbit q x = true) ->
  (a < got - run -> qbit q (got - run - 1) = false) -> no_run q a got len ->
  exists run' got', cluster_run stray fuel q (got / 8 + 1) map bit run got stop len = Ret (run', got') /\
    (got' < stop /\ run' = len /\ a <= got' - len + 1 /\ (forall x, got' - len < x <= got' -> qbit q x = true) /\ no_run q a got' len \/ stop <= got' /\ no_run q a stop len).
Proof using.
  intros Ha Hlen Hs. revert map bit run got. induction fuel as [|fuel IH]; intros map bit run got Hfu Hrun Hr Hh Hin Hbef Hno; cbn [cluster_run].
  all: destruct (Z.ltb_spec got stop) as [Hlt|Hge]; [|exists run, got; split; [done|]; right; split; [done|]; intros b Hb Hb'; apply Hno; lia].
  { lia. }
  specialize (Hh Hlt). pose proof Hh as [-> ->]. rewrite bit_test by lia. set (run1 := if negb (qbit q got) then 0 else run + 1).
  destruct (negb (negb (qbit q got)) && (run1 =? len)) eqn:Ed.
  { apply andb_true_iff in Ed as [Eq El]. rewrite negb_involutive in Eq. unfold run1 in *. rewrite Eq in *. cbn [negb] in *. eexists _, _.
    split; [done|]. left. conj; try lia; [|done].
    intros x Hx. destruct (decide (x = got)) as [->|]; [done|]. apply Hin. lia. }
  assert (0 <= run1 < len /\ a <= got + 1 - run1 /\ (forall x, got + 1 - run1 <= x < got + 1 -> qbit q x = true) /\ (a < got + 1 - run1 -> qbit q (got + 1 - run1 - 1) = false)) as (R1 & R2 & R3 & R4).
  { unfold run1 in *. destruct (qbit q got) eqn:Eq; cbn [negb andb] in *.
    - replace (got + 1 - (run + 1)) with (got - run) by lia. conj; try done; try lia. intros x Hx. destruct (decide (x = got)) as [->|]; [done|].
      apply Hin. lia.
    - rewrite !Z.sub_0_r. replace (got + 1 - 1) with got by lia. conj; try done; try lia. }
  assert (no_run q a (got + 1) len) as Hno'.
  { intros b Hb Hb'. destruct (decide (b + len <= got)) as [|]; [by apply Hno|]. exists (got + 1 - run1 - 1). split; [lia|]. apply R4. lia. }
  destruct (Z.eqb_spec (Z.land got (NBBY - 1)) (NBBY - 1)) as [Hl|Hl]; cbn [negb].
  - change (NBBY - 1) with (Z.ones 3) in Hl. rewrite Z.land_ones in Hl by lia. change (2 ^ 3) with 8 in Hl. change (Z.ones 3) with 7 in Hl.
    assert (got / 8 + 1 = (got + 1) / 8 /\ (got + 1) mod 8 = 0) as [E1 E2] by dlia. rewrite E1. apply IH; try done; try lia.
    intros Hlt'. split; [|by rewrite E2]. apply peek_inside. dlia.
  - destruct (holds_next stray q (byte q (got / 8)) (2 ^ (got mod 8)) got ltac:(lia) Hl Hh) as [Hnx En].
    replace (got / 8 + 1) with ((got + 1) / 8 + 1) by lia. apply IH; try done; lia.
Qed.

Context (wild : Z) (diag : bool) (read : Z -> bool) (Hf : fs_ok f).

(** ** Taking the blocks of a cluster *)

Lemma free_counted c b : cg_ok f c -> 0 <= b -> free_block f c b = true -> cs_nbfree (cg_cs c) <> 0.
Proof using Hf.
  intros Hc Hb Hw H0. destruct (whole_in_fs f Hf c b Hc Hb Hw) as [Hbn _]. rewrite (co_nbfree _ _ _ Hc) in H0.
  apply (sumn_zero _ _ b) in H0; [|intros; unfold one; case_if; lia|done].
  cbv beta in H0. rewrite Hw in H0. done.
Qed.

Definition emptied (q q' : list Z) (b n : Z) : Prop := forall x, 0 <= x -> blk F q' x = if bool_decide (between b n x) then 0 else blk F q x.

Lemma cluster_take_spec n d i s c b : cg_ok f c -> books d i s c -> max_ok f s c -> cg_cgx c = i -> 0 <= b -> 0 < i * fs_fpg f + b * F ->
  (forall x, b <= x < b + Z.of_nat n -> free_block f c x = true) ->
  exists s' c', cluster_take f stray wild n s c (i * fs_fpg f + b * F) = Ret (s', c') /\ cg_ok f c' /\ books d i s' c' /\ max_ok f s' c' /\ cg_cgx c' = i /\ cg_ino c' = cg_ino c /\
    emptied (cg_blksfree c) (cg_blksfree c') b (Z.of_nat n).
Proof using Hf.
  revert s c b. induction n as [|n IH]; intros s c b Hc Hbk Hmx Hcx Hb H0 Hfree; cbn [cluster_take].
  { exists s, c. conj; try done. intros x Hx. rewrite bool_decide_eq_false_2; [done|]. unfold between. lia. }
  pose proof (Hfree b ltac:(lia)) as Hfb. destruct (whole_in_fs f Hf c b Hc Hb Hfb) as [Hbn _]. pose proof (block_start f Hf b (conj Hb Hbn)) as Hst.
  pose proof (bk_i _ _ _ _ Hbk) as Hi. pose proof (frag_pos F (HF f Hf)) as HF1.
  destruct (split_address f Hf i (b * F) Hst) as [Ed Em]. rewrite <- Hcx in Hbk.
  destruct (alloccgblk_spec f stray wild Hf d s c (i * fs_fpg f + b * F) Hc Hbk Hmx (free_counted c b Hc Hb Hfb) ltac:(lia)) as (b' & s1 & c1 & E & Hb' & Hw' & Hc1 & Hbk1 & Hmx1 & Hcx1 & Hino1 & (_ & _ & Ho & Hbe) & Hpref).
  rewrite dtog_div, dtogd_mod, Ed, Em, Z.div_mul in Hpref by (done || lia). specialize (Hpref ltac:(lia) (eq_sym Hcx) Hfb). subst b'. rewrite E.
  cbn [bind]. rewrite Hcx in *. rewrite Z.eqb_refl.
  replace (i * fs_fpg f + b * F + F) with (i * fs_fpg f + (b + 1) * F) by lia.
  destruct (IH s1 c1 (b + 1)) as (s' & c' & E' & Hc' & Hbk' & Hmx' & Hcx' & Hino' & Hem); try done; try lia.
  { intros x Hx. unfold free_block. rewrite Ho by lia. apply Hfree. lia. }
  exists s', c'. conj; try done; [congruence|]. intros x Hx. rewrite Hem by done. destruct (decide (x = b)) as [->|Hne].
  - rewrite bool_decide_eq_false_2, bool_decide_eq_true_2 by (unfold between; lia). done.
  - rewrite Ho by done. rewrite (bool_decide_ext (between (b + 1) (Z.of_nat n) x) (between b (Z.of_nat (S n)) x)) by (unfold between; lia). done.
Qed.

Lemma cluster_check_spec n q b : bytes_ok q -> 0 <= b -> (b + Z.of_nat n - 1) * F < 8 * Z.of_nat (length q) -> (forall x, b <= x < b + Z.of_nat n -> blk F q x = whole F) -> cluster_check f q b n = Ret tt.
Proof using Hf.
  pose proof (frag_pos F (HF f Hf)). intros Hq. revert b. induction n as [|n IH]; intros b Hb Hl Hw; cbn [cluster_check]; [done|].
  rewrite (proj1 (isblock_spec f (HF f Hf) q Hq b Hb ltac:(nia))). cbn [bind]. rewrite Hw by lia. rewrite Z.eqb_refl. apply IH; [lia|nia|].
  intros x Hx. apply Hw. lia.
Qed.

(** ** [ffs_clusteralloc] *)

(** Fragments that one block need not have all of. *)
Definition took (d d' : disk) (x n : Z) : Prop :=
  (forall y, between x n y -> isfree f d y = true) /\ (forall y, isfree f d' y = isfree f d y && negb (bool_decide (between x n y))) /\ same_inodes f d d'.

(** The block of group [i] at which the search starts. *)
Definition start (i pref : Z) : Z := if pref / fs_fpg f =? i then pref mod fs_fpg f / F else 0.

(** The [len] blocks of group [i] from block [b] on are free. *)
Definition cluster_at (d : disk) (i b len : Z) : Prop := forall y, between (i * fs_fpg f + b * F) (len * F) y -> isfree f d y = true.

Definition cluster_room (d : disk) (i pref len : Z) : Prop :=
  exists b, start i pref <= b /\ b + len <= Z.of_nat (nblk f) /\ cluster_at d i b len.

(** Address [r] is where the first free blocks begin behind the preferred
    place. *)
Definition first_cluster (d : disk) (i pref len r : Z) : Prop :=
  let b := r mod fs_fpg f / F in start i pref <= b /\ forall b', start i pref <= b' < b -> ~ cluster_at d i b' len.

Lemma start_range i pref : 0 <= pref -> 0 <= start i pref < Z.of_nat (nblk f).
Proof using Hf.
  intros Hp. unfold start. destruct (nblk_fpg f Hf) as [En Hn]. destruct (fo_fpg f Hf) as [Hfpg _].
  pose proof (Z.mod_pos_bound pref (fs_fpg f) ltac:(lia)).
  case_if; [|lia]. destruct (frag_block f Hf (pref mod fs_fpg f) ltac:(lia)) as (_ & _ & H1 & H2). lia.
Qed.

Lemma start_code i pref : 0 <= pref -> (if negb (dtog f pref =? i) then 0 else fragstoblks f (dtogd f (blknum f pref))) = start i pref.
Proof using Hf.
  intros Hp. pose proof (frag_pos F (HF f Hf)). rewrite dtog_div, group_block, fragstoblks_div, dtogd_mod, Z.div_mul by (done || lia). unfold start.
  by destruct (_ =? i).
Qed.

Lemma cluster_block d i b len x : b <= x < b + len -> cluster_at d i b len -> forall y, between (i * fs_fpg f + x * F) F y -> isfree f d y = true.
Proof using Hf. intros Hx Hat y Hy. pose proof (frag_pos F (HF f Hf)). apply Hat. unfold between in *. nia. Qed.

Section Call.
Context (d : disk) (i : Z) (c : cg) (Hd : disk_ok f d) (Hg : group d i = Some c) (Hcap : 0 < cap).

Lemma cluster_map : clus_ok f c /\ cg_nclusterblks c <= Z.of_nat (nblk f) /\ forall b, 0 <= b -> free_block f c b = true <-> b < cg_nclusterblks c /\ qbit (cg_clustersfree c) b = true.
Proof using Hf Hd Hg Hcap.
  destruct (disk_books f Hf d i c Hd Hg) as (_ & Hc & Hcx & _). destruct (co_cluster _ _ _ Hc) as [|(H1 & H2 & H3 & H4)]; [lia|]. split; [done|].
  split; [done|]. intros b Hb. split.
  - intros Hw. destruct (whole_in_fs f Hf c b Hc Hb Hw) as [Hbn Hend]. pose proof (H4 b (conj Hb Hbn) Hend). by rewrite H3.
  - intros [Hlt Hq]. by rewrite <- H3.
Qed.

Lemma free_frags_block b : 0 <= b < Z.of_nat (nblk f) -> (forall y, between (i * fs_fpg f + b * F) F y -> isfree f d y = true) <-> free_block f c b = true.
Proof using Hf Hd Hg.
  intros Hb. pose proof (frag_pos F (HF f Hf)) as HF1. destruct (nblk_fpg f Hf) as [En _]. split.
  - intros Hfr. apply Z.eqb_eq. pose proof (whole_bound F (HF f Hf)). apply (map_eq F); [apply HF; done|apply blk_range, HF; done|lia|]. intros k Hk.
    rewrite blk_bit, whole_bit by (lia || (apply HF; done)).
    rewrite <- (isfree_group f Hf d i c) by (done || nia). rewrite Hfr; [lia|]. unfold between. lia.
  - intros Hw y Hy. unfold between in Hy. replace y with (i * fs_fpg f + (y - i * fs_fpg f)) by lia.
    rewrite (isfree_group f Hf d i c) by (done || nia). apply (free_block_bits f Hf c b); [lia|done|]. unfold between. lia.
Qed.

Lemma room_bits pref len : 0 <= pref -> cluster_room d i pref len -> exists b, start i pref <= b /\ 0 <= b /\ (1 <= len -> b + len <= cg_nclusterblks c) /\ forall x, b <= x < b + len -> qbit (cg_clustersfree c) x = true.
Proof using Hf Hd Hg Hcap.
  intros Hp (b & H1 & H2 & H3). pose proof (start_range i pref Hp) as Hst. pose proof (frag_pos F (HF f Hf)) as HF1.
  destruct cluster_map as (_ & _ & Hmap).
  assert (forall x, b <= x < b + len -> x < cg_nclusterblks c /\ qbit (cg_clustersfree c) x = true) as Hall.
  { intros x Hx. apply Hmap; [lia|]. apply free_frags_block; [lia|]. by eapply cluster_block. }
  exists b. conj; try done; try lia; [|apply Hall]. intros Hl. destruct (Hall (b + len - 1)); lia.
Qed.

(** What the code takes for a reason to fail is one. *)
Lemma no_clusters pref len : 0 <= pref -> 1 <= len <= cap -> (forall k, len <= k <= cap -> clusters cap (cbits (cg_clustersfree c) (cg_nclusterblks c)) k <= 0) -> ~ cluster_room d i pref len.
Proof using Hf Hd Hg Hcap.
  intros Hp Hlen Hno Hr. destruct (room_bits pref len Hp Hr) as (b & _ & Hb & Hend & Hbits).
  destruct (clusters_room cap _ (cg_nclusterblks c) b len Hlen Hb (Hend ltac:(lia)) Hbits) as (k & Hk & Hpos). specialize (Hno k Hk). lia.
Qed.

Lemma no_run_no_room pref len : 0 <= pref -> 1 <= len -> no_run (cg_clustersfree c) (start i pref) (cg_nclusterblks c) len -> ~ cluster_room d i pref len.
Proof using Hf Hd Hg Hcap.
  intros Hp Hlen Hno Hr. destruct (room_bits pref len Hp Hr) as (b & H1 & Hb & Hend & Hbits). destruct (Hno b H1 (Hend Hlen)) as (x & Hx & Hf0).
  rewrite Hbits in Hf0 by done. done.
Qed.

(** A better bound on the clusters of the group. *)
Lemma new_maximum j : (forall k, j < k <= cap -> clusters cap (cbits (cg_clustersfree c) (cg_nclusterblks c)) k <= 0) ->
  exists m, aset (fs_maxcluster (d_fs d)) i j = Ret m /\ disk_ok f (Disk (set_maxcluster m (d_fs d)) (d_cgs d)).
Proof using Hf Hd Hg.
  intros Hj. destruct (disk_books f Hf d i c Hd Hg) as (Hbk & Hc & Hcx & Hmx & Hz). pose proof (group_in f d i c Hd Hg) as Hi.
  pose proof (dk_max _ _ Hd). pose proof (dk_len _ _ Hd).
  eexists. split; [apply aset_bounds; lia|].
  destruct (put_ok f Hf d i (set_maxcluster (<[Z.to_nat i := j]> (fs_maxcluster (d_fs d))) (d_fs d)) c c Hd Hg) as (d' & _ & Hd' & ->); try done.
  - by apply books_maxcluster.
  - right. exists j. cbn [fs_maxcluster set_maxcluster]. rewrite Hcx. split; [apply list_lookup_insert_eq; lia|]. intros k Hk.
    pose proof (clusters_bounds cap (cbits (cg_clustersfree c) (cg_nclusterblks c)) k). specialize (Hj k Hk). lia.
  - rewrite (list_insert_id (d_cgs d) _ c) in Hd'; [done|]. unfold group in Hg. destruct (Z.ltb_spec i 0); [lia|done].
Qed.

(** The cluster that was found is taken. *)
Lemma take_found b len : 0 <= b -> 1 <= len -> b + len <= Z.of_nat (nblk f) -> (forall x, b <= x < b + len -> free_block f c x = true) ->
  let bno := i * fs_fpg f + b * F in
  bno <> 0 /\ exists d', (let! (s, c) := cluster_take f stray wild (Z.to_nat len) (d_fs d) c bno in let! d := put d i s c in Ret (bno, d)) = Ret (bno, d') /\ disk_ok f d' /\ took d d' bno (len * F).
Proof using Hf Hd Hg.
  intros Hb Hlen Hbn Hfree bno. destruct (disk_books f Hf d i c Hd Hg) as (Hbk & Hc & Hcx & Hmx & Hz). pose proof (group_in f d i c Hd Hg) as Hi.
  pose proof (frag_pos F (HF f Hf)) as HF1. destruct (fo_fpg f Hf) as [Hfpg _].
  assert (0 < bno) as H0.
  { destruct (decide (bno = 0)) as [E|]; [|unfold bno in *; nia]. exfalso. assert (i = 0) by (unfold bno in *; nia).
    assert (b = 0) by (unfold bno in *; nia). subst b. destruct (Hz ltac:(done)) as [Hz0 _].
    rewrite (free_block_bits f Hf c 0 0 ltac:(lia) (Hfree 0 ltac:(lia))) in Hz0 by (unfold between; lia). done. }
  split; [lia|].
  destruct (cluster_take_spec (Z.to_nat len) d i (d_fs d) c b) as (s' & c' & Etake & Hc' & Hbk' & Hmx' & Hcx' & Hino & Hem); try done; [intros x Hx; apply Hfree; lia|].
  fold bno in Etake. rewrite Etake. cbn [bind]. rewrite Z2Nat.id in Hem by lia.
  assert (forall x, 0 <= x -> qbit (cg_blksfree c') x = qbit (cg_blksfree c) x && negb (bool_decide (between (b * F) (len * F) x))) as Hq.
  { intros x Hx. rewrite !(qbit_blk f Hf) by done. destruct (frag_block f Hf x Hx) as (E & H1 & H2 & _). rewrite Hem by done.
    rewrite (bool_decide_ext (between (b * F) (len * F) x) (between b len (x / F))) by (unfold between; nia).
    case_bool_decide; [by rewrite Z.bits_0, andb_false_r|by rewrite andb_true_r]. }
  destruct (put_ok f Hf d i s' c c' Hd Hg) as (d' & -> & Hd' & ->); try done.
  { eapply zero_kept; [exact Hz|done|]. intros Hz0. by rewrite Hq, Hz0. }
  cbn [bind]. eexists. split; [done|]. split; [done|]. destruct (nblk_fpg f Hf) as [En _]. split; [|split; [|by eapply isused_put] ].
  - intros y Hy. unfold between, bno in Hy. replace y with (i * fs_fpg f + (y - i * fs_fpg f)) by lia.
    rewrite (isfree_group f Hf d i c) by (done || nia). rewrite (qbit_blk f Hf) by nia.
    destruct (frag_block f Hf (y - i * fs_fpg f) ltac:(nia)) as (E & H1 & H2 & _).
    rewrite (proj1 (Z.eqb_eq _ _) (Hfree ((y - i * fs_fpg f) / F) ltac:(nia))). rewrite whole_bit by lia. lia.
  - intros y. rewrite isfree_put by (rewrite (dk_len _ _ Hd); lia). destruct (Z.eqb_spec (y / fs_fpg f) i) as [Ey|Hne].
    + pose proof (Z.div_mod y (fs_fpg f) ltac:(lia)) as Hdm. rewrite Ey in Hdm. pose proof (Z.mod_pos_bound y (fs_fpg f) ltac:(lia)).
      rewrite Hq by lia.
      assert (isfree f d y = qbit (cg_blksfree c) (y mod fs_fpg f)) as -> by (unfold isfree; by rewrite Ey, Hg). do 2 f_equal. apply bool_decide_ext.
      unfold between, bno. lia.
    + rewrite bool_decide_eq_false_2; [by rewrite andb_true_r|]. unfold between, bno. intros Hy. apply Hne.
      replace y with (i * fs_fpg f + (y - i * fs_fpg f)) by lia. apply split_address; [done|]. nia.
Qed.
End Call.

Definition cluster_result (d : disk) (i pref len r : Z) (d' : disk) : Prop :=
  disk_ok f d' /\ (r = 0 /\ d_cgs d' = d_cgs d /\ (read i = true -> ~ cluster_room d i pref len) \/ r <> 0 /\ r / fs_fpg f = i /\ r mod F = 0 /\ took d d' r (len * F) /\ first_cluster d i pref len r).

Lemma clusteralloc_spec d i pref len : disk_ok f d -> 0 <= i < fs_ncg f -> 0 <= pref -> 1 <= len <= cap ->
  exists r d', ffs_clusteralloc f stray wild diag read d i pref len = Ret (r, d') /\ cluster_result d i pref len r d'.
Proof using Hf.
  intros Hd Hi Hp Hlen. destruct (group_get f d i Hd Hi) as (c & Hg & Ec & _). destruct (disk_books f Hf d i c Hd Hg) as (_ & Hc & Hcx & Hmx & _).
  destruct Hmx as [|(m & Hm & Hmax)]; [lia|]. rewrite Hcx in Hm.
  destruct (cluster_map d i c Hd Hg ltac:(lia)) as ((Hby & Hn30 & Hn8 & Hvec) & Hncb & Hmap).
  unfold ffs_clusteralloc. rewrite (aget_Some _ i m) by (done || lia). cbn [bind]. destruct (Z.ltb_spec m len) as [Hlt|Hge].
  { exists 0, d. split; [done|]. split; [done|]. left. conj; try done. intros _. apply (no_clusters d i c Hd Hg ltac:(lia) pref len Hp Hlen).
    intros k Hk. rewrite Hmax by lia. lia. }
  unfold ffs_cgread. destruct (read i) eqn:Er; [|exists 0, d; split; [done|]; split; [done|]; left; conj; try done; congruence]. rewrite Ec.
  cbn [bind].
  destruct (cluster_from_spec (Z.to_nat (cap + 1 - len)) _ _ len Hvec ltac:(lia) ltac:(lia)) as (j & -> & Hj & Hj1 & Hj2). cbn [bind].
  destruct (Z.ltb_spec cap j) as [Hcj|Hcj].
  { assert (j = cap + 1) as -> by lia. destruct (cluster_max_spec cap _ _ (Z.to_nat (len - 1)) Hvec ltac:(lia)) as (r & -> & Hr & _ & Hr2).
    cbn [bind]. rewrite Z2Nat.id in * by lia.
    destruct (new_maximum d i c Hd Hg r) as (mm & -> & Hd'); [intros k Hk; destruct (decide (k < len)); [apply Hr2; lia|apply Hj2; lia]|]. cbn [bind].
    eexists _, _. split; [done|]. split; [done|]. left. conj; try done.
    intros _. apply (no_clusters d i c Hd Hg ltac:(lia) pref len Hp Hlen). intros k Hk. apply Hj2. lia. }
  rewrite start_code by done. pose proof (start_range i pref Hp) as Hst. set (a := start i pref) in *. pose proof (nblk_small f Hf) as Hsm. cbv zeta.
  unfold s32 at 1. rewrite (swrap_small 32 a) by (done || (unfold is_s; lia)). unfold NBBY. rewrite Z.quot_div_nonneg, Z.rem_mod_nonneg by lia.
  destruct (cluster_run_spec (cg_clustersfree c) a len (cg_nclusterblks c) (Z.to_nat (cg_nclusterblks c - a)) (peek stray (cg_clustersfree c) (a / 8)) (bit_of wild (a mod 8)) 0 a) as (run & got & -> & Hres);
    [lia..| | |lia| |]; try (intros; lia).
  { intros Hlt. split; [apply peek_inside; dlia|]. unfold bit_of. rewrite (proj2 (Z.ltb_ge _ 0)) by (apply Z.mod_pos_bound; lia).
    apply Z.shiftl_1_l. }
  { intros b Hb Hb'. lia. }
  cbn [bind]. destruct Hres as [(Hgot & -> & Hga & Hbits & Hfst)|[Hgot Hno] ].
  2:{ rewrite (proj2 (Z.leb_le _ _) Hgot). exists 0, d. split; [done|]. split; [done|]. left. conj; try done. intros _.
  by apply (no_run_no_room d i c Hd Hg ltac:(lia)); [|lia|]. }
  rewrite (proj2 (Z.leb_gt _ _) Hgot). set (b := got - len + 1) in *.
  assert (forall x, b <= x < b + len -> free_block f c x = true) as Hfree by (intros x Hx; apply Hmap; [lia|]; split; [lia|apply Hbits; lia]).
  assert ((if diag then cluster_check f (cg_blksfree c) b (Z.to_nat len) else Ret tt) = Ret tt) as ->.
  { destruct diag; [|done]. destruct (map_bytes f Hf c got Hc ltac:(lia)) as [Hq Hl8].
    apply cluster_check_spec; [done|lia|replace (b + Z.of_nat (Z.to_nat len) - 1) with got by lia; done|]. intros x Hx. apply Z.eqb_eq. apply Hfree.
    lia. }
  cbn [bind]. rewrite blkstofrags_mul by done. destruct (block_start f Hf b ltac:(lia)) as [Hbs1 Hbs2].
  destruct (split_address f Hf i (b * F) ltac:(lia)) as [Ed Em]. destruct (fo_ncg f Hf) as [Hncg Hsz].
  unfold s32. rewrite swrap_small by (done || (unfold is_s; nia)). rewrite dtog_div, Ed, Z.eqb_refl, andb_false_r by (done || nia).
  destruct (take_found d i c Hd Hg b len ltac:(lia) ltac:(lia) ltac:(lia) Hfree) as (Hne & d' & E & Hd' & Ht). eexists _, _. split; [exact E|].
  split; [done|]. right. pose proof (frag_pos F (HF f Hf)). conj; try done.
  - rewrite address_frag by (done || lia). apply Z.mod_mul. lia.
  - unfold first_cluster. rewrite Em, Z.div_mul by lia. fold a. split; [lia|]. intros b' Hb' Hat.
    destruct (Hfst b' ltac:(lia) ltac:(lia)) as (x & Hx & Hq0). pose proof (cluster_block d i b' len x Hx Hat) as Hfr.
    apply (free_frags_block d i c Hd Hg x ltac:(lia)) in Hfr. apply Hmap in Hfr as [_ Hq1]; [congruence|lia].
Qed.
End Cluster.

(** * Inodes

    [ffs_nodealloccg] finds a free inode when the group counts one, and
    [ffs_freefile] gives it back. *)

(** ** The search of the map *)

Lemma skpc_spec n cp off : 0 <= off -> off + Z.of_nat n <= Z.of_nat (length cp) ->
  exists loc, skpc 0xff n cp off = Ret loc /\ 0 <= loc <= Z.of_nat n /\ (forall x, off <= x < off + Z.of_nat n - loc -> byte cp x = 0xff) /\ (loc <> 0 -> byte cp (off + Z.of_nat n - loc) <> 0xff).
Proof.
  revert off. induction n as [|n IH]; intros off Ho Hn; cbn [skpc]; [exists 0; conj; try done; intros; lia|].
  rewrite lookup_byte by lia. cbn [bind]. change (u8 0xff) with 0xff. fold (byte cp off). destruct (Z.eqb_spec (byte cp off) 0xff) as [E|E].
  - destruct (IH (off + 1) ltac:(lia) ltac:(lia)) as (loc & -> & H1 & H2 & H3). exists loc. conj; try done; try lia.
    + intros x Hx. destruct (decide (x = off)) as [->|]; [done|]. apply H2. lia.
    + intros Hl. replace (off + Z.of_nat (S n) - loc) with (off + 1 + Z.of_nat n - loc) by lia. by apply H3.
  - eexists. split; [done|]. conj; try lia; intros; try lia. by replace (off + Z.of_nat (S n) - Z.of_nat (S n)) with off by lia.
Qed.

Lemma byte_full x : is_u 8 x -> x = 0xff <-> forall k, 0 <= k < 8 -> Z.testbit x k = true.
Proof.
  intros Hx. split.
  - intros -> k Hk. change 0xff with (Z.ones 8). rewrite Z.testbit_ones_nonneg by lia. lia.
  - intros H. apply Z.bits_inj'. intros k Hk. change 0xff with (Z.ones 8). rewrite Z.testbit_ones_nonneg by lia.
    destruct (Z.ltb_spec k 8); [by apply H|]. by apply (is_u_high 8).
Qed.

Lemma inode_bit_spec n map k p : Z.of_nat n + k = 8 -> 0 <= k -> (exists j, k <= j < 8 /\ Z.testbit map j = false) ->
  exists j, inode_bit n map (2 ^ k) (p + k) = Ret (p + j) /\ k <= j < 8 /\ Z.testbit map j = false /\ forall x, k <= x < j -> Z.testbit map x = true.
Proof.
  revert k. induction n as [|n IH]; intros k Hn Hk (j & Hj & Hz); cbn [inode_bit]; [lia|].
  assert ((Z.land map (2 ^ k) =? 0) = negb (Z.testbit map k)) as -> by (rewrite <- (flag_bit map k) by lia; unfold flag; by rewrite negb_involutive).
  destruct (Z.testbit map k) eqn:E; cbn [negb].
  - replace (Z.shiftl (2 ^ k) 1) with (2 ^ (k + 1)) by (rewrite Z.shiftl_mul_pow2, Z.pow_add_r by lia; lia). rewrite <- Z.add_assoc.
    destruct (IH (k + 1)) as (j' & -> & H1 & H2 & H3); [lia|lia|exists j; split; [|done]; destruct (decide (j = k)) as [->|]; [congruence|lia]|].
    exists j'. conj; try done; try lia. intros x Hx. destruct (decide (x = k)) as [->|]; [done|]. apply H3. lia.
  - exists k. conj; try done; try lia.
Qed.

Section Inode.
Context (f : fs).

Lemma byte_qbit q x k : 0 <= x -> 0 <= k < 8 -> Z.testbit (byte q x) k = qbit q (8 * x + k).
Proof using. clear f. intros Hx Hk. unfold qbit, byte. replace ((8 * x + k) / 8) with x by dlia. by replace ((8 * x + k) mod 8) with k by dlia. Qed.

(** A byte that is not full has a free inode, and the first is found. *)
Lemma first_free q i : bytes_ok q -> 0 <= i < Z.of_nat (length q) -> byte q i <> 0xff ->
  exists p, (let! map := aget q i in inode_bit 8 map 1 (i * 8)) = Ret p /\ 8 * i <= p < 8 * i + 8 /\ qbit q p = false /\ forall x, 8 * i <= x < p -> qbit q x = true.
Proof using.
  clear f. intros Hq Hi Hb. pose proof (byte_ok q i Hq) as Hu. rewrite lookup_byte by done. cbn [bind]. fold (byte q i).
  assert (exists j, 0 <= j < 8 /\ Z.testbit (byte q i) j = false) as Hex.
  { destruct (decide (Exists (fun j => Z.testbit (byte q i) j = false) (seqZ 0 8))) as [H|H].
    - apply Exists_exists in H as (j & Hj & Hz). apply elem_of_seqZ in Hj. exists j. split; [lia|done].
    - exfalso. apply Hb, byte_full; [done|]. intros k Hk. apply not_Exists_Forall in H; [|intros; apply _]. rewrite Forall_forall in H.
      specialize (H k). rewrite elem_of_seqZ in H.
      specialize (H ltac:(lia)). destruct (Z.testbit (byte q i) k) eqn:Ek; [done|]. exfalso. by apply H. }
  destruct (inode_bit_spec 8 (byte q i) 0 (i * 8) ltac:(lia) ltac:(lia) Hex) as (j & E & Hj & Hz & Hfull). rewrite Z.add_0_r in E. exists (i * 8 + j).
  conj; try done; try lia.
  - rewrite byte_qbit in Hz by lia. rewrite <- Hz. f_equal. lia.
  - intros x Hx. replace x with (8 * i + (x - 8 * i)) by lia. rewrite <- byte_qbit by lia. apply Hfull. lia.
Qed.

Lemma full_bytes q a e : bytes_ok q -> 0 <= a -> (forall x, a <= x < e -> byte q x = 0xff) -> forall x, 8 * a <= x < 8 * e -> qbit q x = true.
Proof using.
  clear f. intros Hq Ha Hb x Hx. replace x with (8 * (x / 8) + x mod 8) by dlia. pose proof (Z.mod_pos_bound x 8 ltac:(lia)).
  rewrite <- byte_qbit by dlia. apply byte_full; [by apply byte_ok| |lia]. apply Hb. dlia.
Qed.

Lemma inode_search_spec ino : bytes_ok (cg_inosused ino) -> 8 * Z.of_nat (length (cg_inosused ino)) = fs_ipg f -> 0 <= cg_irotor ino < fs_ipg f ->
  (exists x, 0 <= x < fs_ipg f /\ qbit (cg_inosused ino) x = false) ->
  exists p, inode_search f ino = Ret p /\ 0 <= p < fs_ipg f /\ qbit (cg_inosused ino) p = false /\
    exists a, 0 <= a <= cg_irotor ino /\ a <= p /\ forall x, a <= x < p -> qbit (cg_inosused ino) x = true.
Proof using.
  intros Hq Hl Hr (y & Hy & Hyf). unfold inode_search. change NBBY with 8. set (q := cg_inosused ino) in *. set (L := Z.of_nat (length q)) in *.
  rewrite Z.quot_div_nonneg by lia. set (st := cg_irotor ino / 8).
  assert (0 <= st < L /\ 8 * st <= cg_irotor ino) as [Hst Hsr] by (unfold st; dlia).
  assert (howmany (fs_ipg f - cg_irotor ino) 8 = L - st) as -> by (unfold howmany; rewrite Z.quot_div_nonneg by lia; unfold st; dlia).
  destruct (skpc_spec (Z.to_nat (L - st)) q st ltac:(lia) ltac:(unfold L in *; lia)) as (loc & -> & H1 & H2 & H3). cbn [bind].
  rewrite Z2Nat.id in * by lia. destruct (Z.eqb_spec loc 0) as [->|Hloc].
  - destruct (skpc_spec (Z.to_nat (st + 1)) q 0 ltac:(lia) ltac:(unfold L in *; lia)) as (loc & -> & K1 & K2 & K3). cbn [bind].
    rewrite Z2Nat.id in * by lia. destruct (Z.eqb_spec loc 0) as [->|Hloc].
    { exfalso. destruct (decide (y < 8 * (st + 1))).
      - rewrite (full_bytes q 0 (st + 1) Hq ltac:(lia)) in Hyf; [done|intros; apply K2; lia|lia].
      - rewrite (full_bytes q st L Hq ltac:(lia)) in Hyf; [done|intros; apply H2; lia|lia]. }
    cbn [bind]. destruct (first_free q (0 + (st + 1) - loc) Hq ltac:(lia) (K3 Hloc)) as (p & -> & P1 & P2 & P3). exists p. conj; try done; try lia.
    exists 0. conj; try lia. intros x Hx.
    destruct (decide (8 * (0 + (st + 1) - loc) <= x)); [apply P3; lia|].
    apply (full_bytes q 0 (0 + (st + 1) - loc) Hq ltac:(lia)); [intros; apply K2; lia|lia].
  - cbn [bind]. destruct (first_free q (st + (L - st) - loc) Hq ltac:(lia) (H3 Hloc)) as (p & -> & P1 & P2 & P3). exists p. conj; try done; try lia.
    exists (8 * st). conj; try lia. intros x Hx.
    destruct (decide (8 * (st + (L - st) - loc) <= x)); [apply P3; lia|].
    apply (full_bytes q st (st + (L - st) - loc) Hq ltac:(lia)); [intros; apply H2; lia|lia].
Qed.

(** ** The books *)

Context (Hf : fs_ok f) (read : Z -> bool).

(** Only the inodes of the group are new. *)
Lemma ino_ok c n ino : cg_ok f c -> cs_nbfree n = cs_nbfree (cg_cs c) -> cs_nffree n = cs_nffree (cg_cs c) -> inode_ok f (set_cs n (set_ino ino c)) -> cg_ok f (set_cs n (set_ino ino c)).
Proof using. intros [H1 H2 H3 H4 H5 H6 H7 H8 H9] E1 E2 Hi. split; try done; cbn [cg_cs set_cs]; rewrite ?E1, ?E2; done. Qed.

Definition ino_update (c : cg) (p : Z) (v : bool) (ino : inodes) : Prop :=
  bit_update (cg_inosused (cg_ino c)) (cg_inosused ino) (eq p) v /\ 0 <= cg_irotor ino < fs_ipg f /\ inited f ino.

Lemma ino_step d i s c p (v : bool) ino : cg_ok f c -> books d i s c -> 0 <= p < fs_ipg f -> qbit (cg_inosused (cg_ino c)) p = negb v -> ino_update c p v ino ->
  exists s' n, tally_csum add_nifree i (if v then -1 else 1) s (set_ino ino c) = Ret (s', set_cs n (set_ino ino c)) /\ books d i s' (set_cs n (set_ino ino c)) /\
    cg_ok f (set_cs n (set_ino ino c)) /\ fs_maxcluster s' = fs_maxcluster s.
Proof using Hf.
  intros Hc Hbk Hp Hv [(Ul & Uk & Uin & Uout) [Hro Hini] ]. destruct (books_small _ _ _ _ Hbk) as (T1 & T2 & T3).
  destruct (co_inode _ _ _ Hc) as (I1 & I2 & I3 & I4 & I5). destruct (fo_ipg f Hf) as (Hi & _ & Hi2). destruct (fo_ncg f Hf) as [Hn _].
  set (g := fun n => one (negb (qbit (cg_inosused (cg_ino c)) n))) in *.
  pose proof (sumn_bounds g (Z.to_nat (fs_ipg f)) 1 ltac:(intros; unfold g, one; case_if; lia)) as Hb.
  assert (sumn (fun n => one (negb (qbit (cg_inosused ino) n))) (Z.to_nat (fs_ipg f)) = sumn g (Z.to_nat (fs_ipg f)) + (if v then -1 else 1)) as Es.
  { rewrite (sumn_change g _ _ p); [|lia|intros x Hx Hne; unfold g; rewrite Uout by (lia || congruence); done]. unfold g.
    rewrite Hv, (Uin p) by (lia || done). destruct v; simpl; lia. }
  pose proof (sumn_nonneg (fun n => one (negb (qbit (cg_inosused ino) n))) (Z.to_nat (fs_ipg f)) ltac:(intros; unfold one; case_if; lia)) as Hnn.
  destruct (tally_spec add_nifree (if v then -1 else 1) 0 0 (if v then -1 else 1) d i s (set_ino ino c) (adds_nifree _)) as (s' & n & E & Hbk' & Emx & N1 & N2 & N3);
    [by eapply books_cs|cbn [cg_cs set_ino]; by rewrite Z.add_0_r..|cbn [cg_cs set_ino]; unfold is_s; destruct v; nia|].
    cbn [cg_cs set_ino] in N1, N2, N3.
  exists s', n. conj; try done. apply ino_ok; try done; try lia. unfold inode_ok. cbn [cg_ino cg_cs set_cs set_ino]. conj; (done || lia).
Qed.

Lemma dir_step (dir : bool) k d i s c : cg_ok f c -> books d i s c ->
  exists s' n, (if dir then tally_csum add_ndir i k s c else Ret (s, c)) = Ret (s', set_cs n c) /\ books d i s' (set_cs n c) /\ cg_ok f (set_cs n c) /\ fs_maxcluster s' = fs_maxcluster s.
Proof using.
  clear Hf. intros Hc Hbk. destruct dir.
  - destruct (books_small _ _ _ _ Hbk) as (T1 & T2 & T3).
    destruct (tally_spec add_ndir k 0 0 0 d i s c (adds_ndir k) Hbk) as (s' & n & E & Hbk' & Emx & N1 & N2 & N3); [by rewrite Z.add_0_r..|].
    exists s', n. conj; try done. replace c with (set_ino (cg_ino c) c) at 1 by by destruct c. apply ino_ok; [done|lia|lia|].
    destruct (co_inode _ _ _ Hc) as (I1 & I2 & I3 & I4 & I5). unfold inode_ok. cbn [cg_ino cg_cs set_cs set_ino]. conj; (done || lia).
  - exists s, (cg_cs c). replace (set_cs (cg_cs c) c) with c by by destruct c. done.
Qed.

(** ** The inodes of the file system *)

(** One inode is used now, or no longer, and nothing else has changed. *)
Definition ino_set (d d' : disk) (n : Z) (v : bool) : Prop :=
  isused f d n = negb v /\ (forall x, isused f d' x = if x =? n then v else isused f d x) /\ forall x, isfree f d' x = isfree f d x.

Lemma ino_put d i s c p v ino n : disk_ok f d -> group d i = Some c -> 0 <= p < fs_ipg f -> (v = false -> i * fs_ipg f + p <> 0) -> qbit (cg_inosused (cg_ino c)) p = negb v -> ino_update c p v ino ->
  books d i s (set_cs n (set_ino ino c)) -> cg_ok f (set_cs n (set_ino ino c)) -> fs_maxcluster s = fs_maxcluster (d_fs d) ->
  exists d', put d i (modified s) (set_cs n (set_ino ino c)) = Ret d' /\ disk_ok f d' /\ ino_set d d' (i * fs_ipg f + p) v.
Proof using Hf.
  intros Hd Hg Hp Hne Hv [(Ul & Uk & Uin & Uout) [Hro Hini] ] Hbk Hok Emx. destruct (disk_books f Hf d i c Hd Hg) as (_ & Hc & Hcx & Hmx & Hz).
  pose proof (group_in f d i c Hd Hg) as Hi. destruct (fo_ipg f Hf) as (Hipg & _).
  assert ((i * fs_ipg f + p) / fs_ipg f = i /\ (i * fs_ipg f + p) mod fs_ipg f = p) as [Ed Em] by (rewrite Z.div_add_l, Z.div_small, (Z.add_comm (i * _)), Z.mod_add, Z.mod_small by lia; lia).
  destruct (put_ok f Hf d i (modified s) c (set_cs n (set_ino ino c)) Hd Hg) as (d' & -> & Hd' & ->); try done; [by apply books_modified|unfold max_ok in *; cbn [fs_maxcluster modified]; by rewrite Emx| |].
  { intros Hi0. destruct (Hz Hi0) as [Hz1 Hz2]. split; [done|]. cbn [cg_ino set_cs set_ino].
    destruct (decide (p = 0)) as [->|Hp0]; [|by rewrite Uout by lia].
    rewrite Uin by (lia || done). destruct v; [done|]. exfalso. apply Hne; [done|lia]. }
  eexists. split; [done|]. split; [done|]. split; [|split].
  - unfold isused. by rewrite Ed, Em, Hg.
  - intros x. unfold isused, group. cbn [d_cgs]. destruct (Z.ltb_spec (x / fs_ipg f) 0) as [Hx0|Hx0].
    { rewrite (proj2 (Z.eqb_neq x _)); [done|]. intros ->. lia. }
    pose proof (dk_len _ _ Hd). destruct (decide (x / fs_ipg f = i)) as [Ex|Hxi].
    + rewrite Ex, list_lookup_insert_eq by lia. cbn [cg_ino set_cs set_ino]. unfold group in Hg. rewrite (proj2 (Z.ltb_ge i 0)) in Hg by lia.
      rewrite Hg. pose proof (Z.div_mod x (fs_ipg f) ltac:(lia)) as Hdm. rewrite Ex in Hdm.
      pose proof (Z.mod_pos_bound x (fs_ipg f) ltac:(lia)).
      destruct (Z.eqb_spec x (i * fs_ipg f + p)) as [->|Hxn]; [rewrite Em; apply Uin; (done || lia)|]. apply Uout; lia.
    + rewrite list_lookup_insert_ne by lia. rewrite (proj2 (Z.eqb_neq x _)); [done|]. intros ->. done.
  - intros x. pose proof (dk_len _ _ Hd). rewrite isfree_put by lia. destruct (Z.eqb_spec (x / fs_fpg f) i) as [Ex|]; [|done]. unfold isfree.
    by rewrite Ex, Hg.
Qed.

(** ** [ffs_nodealloccg] *)

Definition ino_room (d : disk) (i : Z) : Prop := exists n, n / fs_ipg f = i /\ isused f d n = false.

(** The inode asked for is not behind those that are cleared next. *)
Definition pref_ok (d : disk) (i ipref : Z) : Prop :=
  fs_magic f = FS_UFS2_MAGIC -> ipref = 0 \/ isused f d (i * fs_ipg f + ipref mod fs_ipg f) = true \/ forall c, group d i = Some c -> ipref mod fs_ipg f < cg_initediblk (cg_ino c) + fs_inopb f.

Definition node_result (d : disk) (i ipref r : Z) (d' : disk) : Prop :=
  disk_ok f d' /\ (r = 0 /\ d' = d /\ (read i = true -> ~ ino_room d i) \/
    r <> 0 /\ r / fs_ipg f = i /\ ino_set d d' r true /\ (ipref <> 0 -> isused f d (i * fs_ipg f + ipref mod fs_ipg f) = false -> r = i * fs_ipg f + ipref mod fs_ipg f)).

Section Node.
Context (d : disk) (i ipref : Z) (c : cg) (Hd : disk_ok f d) (Hg : group d i = Some c) (Hp : 0 <= ipref).

Lemma isused_group p : 0 <= p < fs_ipg f -> isused f d (i * fs_ipg f + p) = qbit (cg_inosused (cg_ino c)) p /\ (i * fs_ipg f + p) / fs_ipg f = i.
Proof using Hg. intros Hp'. unfold isused. rewrite Z.div_add_l, Z.div_small, (Z.add_comm (i * _)), Z.mod_add, Z.mod_small, Z.add_0_r by lia.
by rewrite Hg. Qed.

(** The count of free inodes is 0 only when there is none. *)
Lemma ino_counted : cs_nifree (cg_cs c) = 0 <-> ~ ino_room d i.
Proof using Hf Hd Hg.
  destruct (disk_books f Hf d i c Hd Hg) as (_ & Hc & _). destruct (co_inode _ _ _ Hc) as (I1 & I2 & I3 & I4 & _).
  destruct (fo_ipg f Hf) as (Hipg & _). set (g := fun n => one (negb (qbit (cg_inosused (cg_ino c)) n))) in *.
  assert (forall b, 0 <= b < Z.of_nat (Z.to_nat (fs_ipg f)) -> 0 <= g b) as Hg0 by (intros; unfold g, one; case_if; lia). rewrite I4. split.
  - intros H0 (n & Hn & Hu). unfold isused in Hu. rewrite Hn, Hg in Hu. pose proof (Z.mod_pos_bound n (fs_ipg f) ltac:(lia)).
    apply (sumn_zero _ _ (n mod fs_ipg f) Hg0) in H0; [|lia]. unfold g in H0. rewrite Hu in H0. done.
  - intros Hno. destruct (decide (sumn g (Z.to_nat (fs_ipg f)) = 0)) as [|Hne]; [done|]. exfalso. apply Hno.
    apply (sumn_pos _ _ Hg0) in Hne as (p & Hp' & Hgp). exists (i * fs_ipg f + p).
    destruct (isused_group p ltac:(lia)) as [-> ->]. split; [done|]. unfold g in Hgp. by destruct (qbit _ p).
Qed.

Lemma choose_inode : cs_nifree (cg_cs c) <> 0 -> pref_ok d i ipref ->
  exists p ro, (let! used := (if negb (ipref =? 0) then isset (cg_inosused (cg_ino c)) (ipref `rem` fs_ipg f) else Ret true) in
      if used then let! p := inode_search f (cg_ino c) in Ret (p, p) else Ret (ipref `rem` fs_ipg f, cg_irotor (cg_ino c))) = Ret (p, ro) /\
    0 <= p < fs_ipg f /\ 0 <= ro < fs_ipg f /\ qbit (cg_inosused (cg_ino c)) p = false /\ (ipref <> 0 -> isused f d (i * fs_ipg f + ipref mod fs_ipg f) = false -> p = ipref mod fs_ipg f) /\
    (fs_magic f = FS_UFS2_MAGIC -> p < cg_initediblk (cg_ino c) + fs_inopb f /\ (ro = p \/ ro = cg_irotor (cg_ino c))).
Proof using Hf Hd Hg Hp.
  intros Hn Hpok. destruct (disk_books f Hf d i c Hd Hg) as (_ & Hc & _). destruct (co_inode _ _ _ Hc) as (I1 & I2 & I3 & I4 & I5).
  destruct (fo_ipg f Hf) as (Hipg & _). destruct (fo_inopb f Hf) as [Hino _].
  rewrite Z.rem_mod_nonneg by lia. pose proof (Z.mod_pos_bound ipref (fs_ipg f) ltac:(lia)) as Hm.
  destruct (isused_group (ipref mod fs_ipg f) Hm) as [Eu _].
  assert (exists x, 0 <= x < fs_ipg f /\ qbit (cg_inosused (cg_ino c)) x = false) as Hex.
  { rewrite I4 in Hn. apply sumn_pos in Hn as (p & Hp' & Hgp); [|intros; unfold one; case_if; lia]. exists p. split; [lia|]. by destruct (qbit _ p). }
  destruct (inode_search_spec (cg_ino c) I1 I2 I3 Hex) as (p & Es & P1 & P2 & a & A1 & A2 & A3).
  assert (fs_magic f = FS_UFS2_MAGIC -> p < cg_initediblk (cg_ino c) + fs_inopb f) as Hini.
  { intros H2. destruct (I5 H2) as (U1 & U2 & _). destruct (decide (a = p)) as [->|]; [lia|].
    specialize (U1 (p - 1) ltac:(lia) (A3 (p - 1) ltac:(lia))). lia. }
  destruct (Z.eqb_spec ipref 0) as [E0|E0]; cbn [negb].
  { cbn [bind]. rewrite Es. cbn [bind]. exists p, p. conj; try done; try lia; auto. }
  rewrite isset_qbit by lia. cbn [bind]. rewrite <- Eu. destruct (isused f d _) eqn:Eused.
  - rewrite Es. cbn [bind]. exists p, p. conj; try done; try lia; auto.
  - eexists _, _. split; [done|]. conj; try done; try lia. intros H2. split; [|by right].
    destruct (Hpok H2) as [|[|Hlt] ]; [lia|congruence|by apply Hlt].
Qed.
End Node.

Lemma nodealloccg_spec d i ipref mode : disk_ok f d -> 0 <= i < fs_ncg f -> 0 <= ipref -> pref_ok d i ipref ->
  exists r d', ffs_nodealloccg f read d i ipref mode = Ret (r, d') /\ node_result d i ipref r d'.
Proof using Hf.
  intros Hd Hi Hp Hpok. destruct (group_get f d i Hd Hi) as (c & Hg & Ec & En). destruct (disk_books f Hf d i c Hd Hg) as (Hbk & Hc & Hcx & Hmx & Hz).
  destruct (co_inode _ _ _ Hc) as (I1 & I2 & I3 & I4 & I5).
  unfold ffs_nodealloccg. rewrite En. cbn [bind]. destruct (Z.eqb_spec (cs_nifree (cg_cs c)) 0) as [H0|H0].
  { exists 0, d. split; [done|]. split; [done|]. left. conj; try done. intros _. by apply (ino_counted d i c Hd Hg). }
  unfold ffs_cgread. destruct (read i) eqn:Er; [|exists 0, d; split; [done|]; split; [done|]; left; conj; try done; congruence]. rewrite Ec.
  cbn [bind]. rewrite (proj2 (Z.eqb_neq _ _) H0). cbv zeta.
  destruct (choose_inode d i ipref c Hd Hg Hp H0 Hpok) as (p & ro & E & P1 & P2 & P3 & P4 & P5). apply bind_Ret_inv in E as (u & -> & E). cbn [bind].
  rewrite E. cbn [bind].
  destruct (setbit_qbit (cg_inosused (cg_ino c)) p I1 ltac:(lia)) as (q & -> & U). cbn [bind]. set (ini := if _ && _ && _ then _ else _).
  set (ino := Inodes ro q (cg_ffs2_niblk (cg_ino c)) ini).
  assert (ino_update c p true ino) as Hup.
  { split; [done|]. split; [done|]. intros H2. destruct (I5 H2) as (U1 & U2 & U3). destruct (P5 H2) as [Q1 Q2].
    destruct (fo_inopb f Hf) as [Hino Hino2]. destruct U as (_ & _ & Uin & Uout). cbn [cg_inosused cg_irotor cg_initediblk cg_ffs2_niblk ino].
    assert (p < ini /\ cg_initediblk (cg_ino c) <= ini) as [Hpi Hle].
    { subst ini. rewrite H2, Z.eqb_refl, U3. cbn [andb].
      destruct (Z.ltb_spec (cg_initediblk (cg_ino c)) (p + fs_inopb f)), (Z.ltb_spec (cg_initediblk (cg_ino c)) (fs_ipg f)); cbn [andb]; try lia.
      unfold s32. rewrite swrap_small by (done || (unfold is_s; lia)). lia. }
    conj; try done; try lia. intros x Hx Hq. destruct (decide (p = x)) as [->|Hne]; [done|]. rewrite Uout in Hq by done. specialize (U1 x Hx Hq).
    lia. }
  destruct (ino_step d i (d_fs d) c p true ino Hc Hbk P1 P3 Hup) as (s1 & n1 & -> & Hbk1 & Hc1 & Emx1). cbn [bind].
  destruct (dir_step (Z.land mode IFMT =? IFDIR) 1 d i s1 _ Hc1 Hbk1) as (s2 & n2 & -> & Hbk2 & Hc2 & Emx2). cbn [bind].
  destruct (ino_put d i s2 c p true ino n2 Hd Hg P1) as (d' & Eput & Hd' & Hset); try done; [congruence|].
  change (set_cs n2 (set_cs n1 (set_ino ino c))) with (set_cs n2 (set_ino ino c)). rewrite Eput. cbn [bind].
  eexists _, _. split; [done|]. split; [done|]. right. destruct (isused_group d i c Hg p P1) as [Eu Ed].
  conj; try done; [|intros H1 H2; by rewrite (P4 H1 H2)].
  intros E0. assert (i = 0) by nia. assert (p = 0) by lia. subst p. destruct (Hz ltac:(done)) as [_ Hz2]. congruence.
Qed.

(** ** [ffs_freefile] *)

Lemma freefile_spec ronly d n mode : disk_ok f d -> 0 <= n < fs_ncg f * fs_ipg f -> read (n / fs_ipg f) = true ->
  if isused f d n then n <> 0 -> exists d', ffs_freefile f read ronly d n mode = Ret d' /\ disk_ok f d' /\ ino_set d d' n false
  else ronly = false -> exists msg, ffs_freefile f read ronly d n mode = Panic msg.
Proof using Hf.
  intros Hd Hn Hr. destruct (fo_ipg f Hf) as (Hipg & _ & Hi31). destruct (fo_ncg f Hf) as [Hncg _]. set (i := n / fs_ipg f) in *.
  set (p := n mod fs_ipg f).
  pose proof (Z.div_mod n (fs_ipg f) ltac:(lia)) as Hdm. fold i p in Hdm. pose proof (Z.mod_pos_bound n (fs_ipg f) ltac:(lia)) as Hp. fold p in Hp.
  assert (0 <= i < fs_ncg f) as Hi by nia.
  destruct (group_get f d i Hd Hi) as (c & Hg & Ec & _). destruct (disk_books f Hf d i c Hd Hg) as (Hbk & Hc & Hcx & Hmx & Hz).
  destruct (co_inode _ _ _ Hc) as (I1 & I2 & I3 & I4 & I5).
  assert (isused f d n = qbit (cg_inosused (cg_ino c)) p) as Eu by (unfold isused; fold i p; by rewrite Hg). rewrite Eu.
  unfold ffs_freefile. unfold u32. rewrite !wrap_small by (unfold is_u; lia). rewrite (proj2 (Z.leb_gt _ _)) by lia.
  rewrite Z.quot_div_nonneg, Z.rem_mod_nonneg by lia. fold i p. unfold ffs_cgread. rewrite Hr, Ec. cbn [bind]. cbv zeta.
  rewrite isset_qbit by lia. cbn [bind]. destruct (qbit (cg_inosused (cg_ino c)) p) eqn:Eq; cbn [negb andb]; [|intros ->; by eexists]. intros Hn0.
  destruct (clrbit_qbit (cg_inosused (cg_ino c)) p I1 ltac:(lia)) as (q & -> & U). cbn [bind].
  set (ino := Inodes (if p <? cg_irotor (cg_ino c) then p else cg_irotor (cg_ino c)) q _ _).
  assert (ino_update c p false ino) as Hup.
  { split; [done|]. split; [cbn [ino cg_irotor]; case_if; lia|]. intros H2. destruct (I5 H2) as (U1 & U2 & U3). destruct U as (_ & _ & Uin & Uout).
    cbn [cg_inosused cg_irotor cg_initediblk cg_ffs2_niblk ino].
    conj; try done; try (case_if; lia). intros x Hx Hqx. apply U1; [done|]. destruct (decide (p = x)) as [<-|Hne]; [done|]. by rewrite Uout in Hqx. }
  destruct (ino_step d i (d_fs d) c p false ino Hc Hbk Hp Eq Hup) as (s1 & n1 & -> & Hbk1 & Hc1 & Emx1). cbn [bind].
  destruct (dir_step (Z.land mode IFMT =? IFDIR) (-1) d i s1 _ Hc1 Hbk1) as (s2 & n2 & -> & Hbk2 & Hc2 & Emx2). cbn [bind].
  destruct (ino_put d i s2 c p false ino n2 Hd Hg Hp) as (d' & Eput & Hd' & Hset); try done; [lia|congruence|].
  change (set_cs n2 (set_cs n1 (set_ino ino c))) with (set_cs n2 (set_ino ino c)).
  exists d'. split; [exact Eput|]. split; [done|]. by replace n with (i * fs_ipg f + p) by lia.
Qed.
End Inode.
