(* ===== verification/FfsGrow.v ===== *)
(** * Allocation in the file system

    The search over the groups and what it asks of them, and the callers:
    [ffs_alloc], [ffs_realloccg], [ffs_blkpref], [ffs_dirpref] and
    [ffs_inode_alloc]; and the totals of the superblock. *)

From S2P Require Import Prelude Bitmap Ffs FfsFile FfsMap FfsInv FfsCg FfsCluster.

(** * The cylinder overflow

    [ffs_hashalloc] asks one group after the other.  What it needs to know of the
    routine it is given is a class, with an instance for each of the three
    allocators of a group. *)

(** The routine answers for every group of a file system that [inv] describes, for
    the preferences that [may] allows.  When it fails there was no [room] in the
    group, and what it did changes nothing that [same] looks at; otherwise the new
    state has [got] the answer. *)
Class Allocator {D : Type} (ncg size : Z) (allocator : D -> Z -> Z -> Z -> outcome (Z * D)) (inv : D -> Prop) (may : D -> Z -> Z -> Prop)
    (same : D -> D -> Prop) (room : D -> Z -> Z -> Prop) (got : D -> D -> Z -> Prop) : Prop := {
  alloc_answers d i pref : inv d -> 0 <= i < ncg -> 0 <= pref -> may d i pref ->
    exists r d', allocator d i pref size = Ret (r, d') /\ inv d' /\ (r = 0 /\ same d d' /\ ~ room d i pref \/ r <> 0 /\ got d d' r);
  alloc_may d i : inv d -> 0 <= i < ncg -> may d i 0;
  alloc_same : PreOrder same;
  alloc_room d d' i pref : same d d' -> room d i pref -> room d' i pref;
  alloc_got d d' d'' r : same d d' -> got d' d'' r -> got d d'' r
}.

Section Hash.
Context {D : Type} {ncg size : Z} {allocator : D -> Z -> Z -> Z -> outcome (Z * D)} {inv : D -> Prop} {may : D -> Z -> Z -> Prop} {same : D -> D -> Prop} {room : D -> Z -> Z -> Prop} {got : D -> D -> Z -> Prop}.
Context `{!Allocator ncg size allocator inv may same room got} (Hncg : 0 < ncg < 2 ^ 30).

#[local] Existing Instance alloc_same.

(** The groups in [tried] have no room, or something was found. *)
Definition searched (d : D) (tried : Z -> Z -> Prop) (o : outcome (Z * D)) : Prop :=
  exists r d', o = Ret (r, d') /\ inv d' /\ (r = 0 /\ same d d' /\ (forall i pref, tried i pref -> ~ room d i pref) \/ r <> 0 /\ got d d' r).

(** One call, and what is done when it fails. *)
Lemma next_group d i pref tried (k : Z * D -> outcome (Z * D)) : inv d -> 0 <= i < ncg -> 0 <= pref -> may d i pref -> (forall d', inv d' -> searched d' tried (k (0, d'))) ->
  searched d (fun j p => j = i /\ p = pref \/ tried j p) (let! (result, d) := allocator d i pref size in if negb (result =? 0) then Ret (result, d) else k (result, d)).
Proof using Allocator0.
  clear Hncg. intros Hd Hi Hp Hm Hk. destruct (alloc_answers (allocator := allocator) d i pref Hd Hi Hp Hm) as (r & d' & -> & Hd' & Hr). cbn [bind].
  destruct (Z.eqb_spec r 0) as [->|Hr0]; cbn [negb].
  - destruct Hr as [(_ & Hs & Hno)|[ ]]; [|done]. destruct (Hk d' Hd') as (r & d'' & -> & Hi' & [(-> & Hs' & Hn)|[Hr Hgot] ]).
    + exists 0, d''. split; [done|]. split; [done|]. left. split; [done|]. split; [by transitivity d'|]. intros j p [ [-> ->]|Hj] Hroom; [done|].
      apply (Hn j p Hj). by eapply alloc_room.
    + exists r, d''. split; [done|]. split; [done|]. right. split; [done|]. by eapply alloc_got.
  - exists r, d'. split; [done|]. split; [done|]. right. destruct Hr as [(-> & _)|Hr]; [done|tauto].
Qed.

Lemma searched_mono d (P Q : Z -> Z -> Prop) o : (forall i p, Q i p -> P i p) -> searched d P o -> searched d Q o.
Proof using. intros HPQ (r & d' & -> & Hi & [(-> & Hs & Hn)|H]); eexists _, _; (split; [done|]); (split; [done|]); [left|by right]. conj; auto. Qed.

Lemma searched_none d : inv d -> searched d (fun _ _ => False) (Ret (0, d)).
Proof using Allocator0. clear Hncg. intros Hd. exists 0, d. split; [done|]. split; [done|]. left. split; [done|]. split; [by apply alloc_same|done].
Qed.

Lemma rehash_spec fuel d cg i : inv d -> 0 <= cg < ncg -> 1 <= i < 2 ^ 31 -> ncg <= i * 2 ^ Z.of_nat fuel ->
  searched d (fun j p => i < ncg /\ j = (cg + i) mod ncg /\ p = 0) (rehash ncg allocator fuel d cg i size).
Proof using Allocator0 Hncg.
  revert d cg i. induction fuel as [|fuel IH]; intros d cg i Hd Hcg Hi Hf; cbn [rehash].
  all: destruct (Z.ltb_spec i ncg) as [Hlt|Hge]; [|eapply searched_mono; [|by apply searched_none]; cbv beta; lia].
  { lia. }
  set (cg' := if ncg <=? cg + i then _ else _). assert (cg' = (cg + i) mod ncg /\ 0 <= cg' < ncg) as [E Hcg'].
  { subst cg'. destruct (Z.leb_spec ncg (cg + i)).
    - replace (cg + i) with (cg + i - ncg + 1 * ncg) at 2 by lia. rewrite Z.mod_add, Z.mod_small by lia. lia.
    - rewrite Z.mod_small by lia. lia. }
  cbv zeta. rewrite <- E. rewrite Nat2Z.inj_succ, Z.pow_succ_r in Hf by lia.
  replace (s32 (i * 2)) with (i * 2) by (symmetry; apply swrap_small; [done|unfold is_s; lia]).
  eapply searched_mono; [|apply (next_group d cg' 0 _ (fun '(_, d) => rehash ncg allocator fuel d cg' (i * 2) size) Hd Hcg' ltac:(lia) (alloc_may d cg' Hd Hcg') (fun d' Hd' => IH d' cg' (i * 2) Hd' Hcg' ltac:(lia) ltac:(lia)))].
  cbv beta. intros j p (_ & -> & ->). by left.
Qed.

Lemma brute_force_spec n d cg : inv d -> 0 <= cg < ncg -> searched d (fun j p => (exists k, 0 <= k < Z.of_nat n /\ j = (cg + k) mod ncg) /\ p = 0) (brute_force ncg allocator n d cg size).
Proof using Allocator0 Hncg.
  revert d cg. induction n as [|n IH]; intros d cg Hd Hcg; cbn [brute_force].
  { eapply searched_mono; [|by apply searched_none]. cbv beta. intros j p [(k & Hk & _) _]. lia. }
  set (cg' := if cg + 1 =? ncg then 0 else cg + 1). assert (cg' = (cg + 1) mod ncg /\ 0 <= cg' < ncg) as [E Hcg'].
  { subst cg'. destruct (Z.eqb_spec (cg + 1) ncg) as [->|]; [rewrite Z.mod_same by lia; lia|rewrite Z.mod_small by lia; lia]. }
  eapply searched_mono; [|apply (next_group d cg 0 _ (fun '(_, d) => brute_force ncg allocator n d cg' size) Hd Hcg ltac:(lia) (alloc_may d cg Hd Hcg) (fun d' Hd' => IH d' cg' Hd' Hcg'))].
  cbv beta.
  intros j p [(k & Hk & ->) ->]. destruct (decide (k = 0)) as [->|Hk0]; [left; rewrite Z.add_0_r; split; [by apply Z.mod_small|done]|]. right.
  split; [|done]. exists (k - 1). split; [lia|]. rewrite E, Z.add_mod_idemp_l by lia. f_equal. lia.
Qed.

(** Group [cg] is asked with the preference, and then all others without one. *)
Lemma hashalloc_spec d cg pref : inv d -> 0 <= cg < ncg -> 0 <= pref -> may d cg pref ->
  searched d (fun i p => i = cg /\ p = pref \/ 0 <= i < ncg /\ i <> cg /\ p = 0) (ffs_hashalloc ncg allocator d cg pref size).
Proof using Allocator0 Hncg.
  intros Hd Hcg Hp Hm. unfold ffs_hashalloc.
  set (k := fun p : Z * D => let d := snd p in let! (result, d) := rehash ncg allocator 31 d cg 1 size in if negb (result =? 0) then Ret (result, d)
    else brute_force ncg allocator (Z.to_nat (ncg - 2)) d ((cg + 2) `rem` ncg) size).
  assert (0 <= (cg + 2) `rem` ncg < ncg /\ (cg + 2) `rem` ncg = (cg + 2) mod ncg) as [Hc2 E2] by (rewrite Z.rem_mod_nonneg by lia; pose proof (Z.mod_pos_bound (cg + 2) ncg); lia).
  assert (forall d, inv d -> searched d (fun j p => (exists k, 1 <= k < ncg /\ j = (cg + k) mod ncg) /\ p = 0) (k (0, d))) as Hk.
  { clear d Hd Hm. intros d Hd. unfold k. cbn [snd].
    destruct (rehash_spec 31 d cg 1 Hd Hcg ltac:(lia) ltac:(simpl Z.of_nat; lia)) as (r & d' & -> & Hd' & Hr). cbn [bind].
    destruct (Z.eqb_spec r 0) as [->|Hr0]; cbn [negb]; [|exists r, d'; split; [done|]; split; [done|]; right; destruct Hr as [(-> & _)|]; done].
    destruct Hr as [(_ & Hs & H1)|[ ]]; [|done].
    destruct (brute_force_spec (Z.to_nat (ncg - 2)) d' _ Hd' Hc2) as (r & d'' & -> & Hd'' & [(-> & Hs' & H2)|[Hr Hgot] ]); eexists _, _; (split; [done|]); (split; [done|]).
    - left. split; [done|]. split; [by transitivity d'|]. intros i p [(j & Hj & ->) ->].
      destruct (decide (j = 1)) as [->|Hj1]; [apply H1; split; [lia|done]|].
      intros Hroom. eapply H2; [|by eapply alloc_room]. split; [|done]. exists (j - 2). split; [lia|]. rewrite E2, Z.add_mod_idemp_l by lia. f_equal.
      lia.
    - right. split; [done|]. by eapply alloc_got. }
  eapply searched_mono; [|apply (next_group d cg pref _ k Hd Hcg Hp Hm Hk)]. cbv beta. intros i p [ [-> ->]|(Hi & Hne & ->)]; [by left|right].
  split; [|done].
  exists ((i - cg) mod ncg). pose proof (Z.mod_pos_bound (i - cg) ncg ltac:(lia)). split.
  - split; [|lia]. destruct (decide ((i - cg) mod ncg = 0)) as [E0|]; [|lia]. exfalso. apply Z.mod_divide in E0 as [z Hz]; [|lia].
    assert (z < 1) by nia. assert (-1 < z) by nia. assert (z = 0) as -> by lia. lia.
  - rewrite Z.add_mod_idemp_r by lia. replace (cg + (i - cg)) with i by lia. symmetry. by apply Z.mod_small.
Qed.
End Hash.

(** * Allocation in any group

    The three allocators of a group as instances of the class that
    [ffs_hashalloc] needs. *)

Section Any.
Context (f : fs) (stray : Z -> Z) (wild : Z) (diag : bool) (read : Z -> bool) (Hf : fs_ok f).

Local Notation F := (fs_frag f).

Definition blocks_in (n : Z) (d : disk) (i : Z) (_ : Z) : Prop := read i = true /\ room f d i n.
Definition cluster_in (n : Z) (d : disk) (i pref : Z) : Prop := read i = true /\ cluster_room f d i pref n.
Definition inodes_in (d : disk) (i : Z) (_ : Z) : Prop := read i = true /\ ino_room f d i.

#[export] Instance alloccg_allocator n : 1 <= n <= F ->
  Allocator (fs_ncg f) (n * fs_fsize f) (ffs_alloccg f stray wild read) (disk_ok f) (fun _ _ _ => True) eq (blocks_in n) (fun d d' r => takes f d d' r n).
Proof using Hf.
  intros Hn. split; try done.
  - intros d i pref Hd Hi Hp _.
    destruct (alloccg_spec f stray wild read Hf d i pref n Hd Hi Hp Hn) as (r & d' & E & Hd' & [(-> & -> & Hno)|(Hr & _ & Ht)]); eexists _, _; (split; [exact E|]); (split; [done|]); [left|right; done].
    unfold blocks_in. conj; try done. tauto.
  - split; [done|by intros ? ? ? -> ->].
  - by intros d ? i p <-.
  - by intros d ? d'' r <-.
Qed.

#[export] Instance clusteralloc_allocator len : 1 <= len <= fs_contigsumsize f ->
  Allocator (fs_ncg f) len (ffs_clusteralloc f stray wild diag read) (disk_ok f) (fun _ _ _ => True) (fun d d' => d_cgs d = d_cgs d') (cluster_in len) (fun d d' r => r mod F = 0 /\ took f d d' r (len * F)).
Proof using Hf.
  intros Hl.
  assert (forall d d' y, d_cgs d = d_cgs d' -> isfree f d y = isfree f d' y) as Hsame by (intros d d' y E; unfold isfree, group; by rewrite E).
  split; try done.
  - intros d i pref Hd Hi Hp _.
    destruct (clusteralloc_spec f stray wild diag read Hf d i pref len Hd Hi Hp Hl) as (r & d' & E & Hd' & [(-> & Ec & Hno)|(Hr & _ & Ha & Ht & _)]); eexists _, _; (split; [exact E|]); (split; [done|]); [left|right; done].
    unfold cluster_in. conj; try done. tauto.
  - split; [by intros d|by intros d1 d2 d3 -> ->].
  - intros d d' i p E [Hr (b & H1 & H2 & H3)]. split; [done|]. exists b. conj; try done. intros y Hy. rewrite <- (Hsame d d' y E). by apply H3.
  - intros d d' d'' r E [Ha (H1 & H2 & H3)]. split; [done|].
    split; [|split]; intros y; [intros Hy; rewrite (Hsame d d' y E); by apply H1|rewrite (Hsame d d' y E); apply H2|].
    rewrite (H3 y). unfold isused, group. by rewrite E.
Qed.

#[export] Instance nodealloccg_allocator mode :
  Allocator (fs_ncg f) mode (ffs_nodealloccg f read) (disk_ok f) (pref_ok f) eq inodes_in (fun d d' r => ino_set f d d' r true).
Proof using Hf.
  clear stray wild diag. split; try done.
  - intros d i pref Hd Hi Hp Hm.
    destruct (nodealloccg_spec f Hf read d i pref mode Hd Hi Hp Hm) as (r & d' & E & Hd' & [(-> & -> & Hno)|(Hr & _ & Ht & _)]); eexists _, _; (split; [exact E|]); (split; [done|]); [left|right; done].
    unfold inodes_in. conj; try done. tauto.
  - intros d i _ _ _. by left.
  - split; [done|by intros ? ? ? -> ->].
  - by intros d ? i p <-.
  - by intros d ? d'' r <-.
Qed.
End Any.

(** * A file that grows

    [ffs_alloc] and [ffs_realloccg]: what they do to the maps of the file system,
    to the inode, to the buffer and to the quotas, and when they fail. *)

Section Grow.
Context (f : fs) (t : tuning) (ufs1 diag softdep : bool) (stray : Z -> Z) (wild : Z) (read : Z -> bool) (Hf : fs_ok f).
Context {Q : Type} (quota_alloc : Q -> Z -> Z * Q) (quota_free : Q -> Z -> Q).

Local Notation F := (fs_frag f).

(** No group that can be read has room for [n] fragments. *)
Definition full (d : disk) (n : Z) : Prop := forall i, 0 <= i < fs_ncg f -> read i = true -> ~ room f d i n.

Lemma hash_blocks d cg pref n : disk_ok f d -> 0 <= cg < fs_ncg f -> 0 <= pref -> 1 <= n <= F ->
  exists r d', ffs_hashalloc (fs_ncg f) (ffs_alloccg f stray wild read) d cg pref (n * fs_fsize f) = Ret (r, d') /\ disk_ok f d' /\
    (r = 0 /\ d' = d /\ full d n \/ 0 < r /\ takes f d d' r n).
Proof using Hf.
  intros Hd Hcg Hp Hn. destruct (fo_ncg f Hf) as [Hncg _].
  destruct (hashalloc_spec (Allocator0 := alloccg_allocator f stray wild read Hf n Hn) Hncg d cg pref Hd Hcg Hp I) as (r & d' & E & Hd' & Hr).
  exists r, d'. split; [exact E|]. split; [done|].
  destruct Hr as [(-> & <- & Hno)|[Hr Ht] ].
  - left. conj; try done. intros i Hi Hri Hroom.
    destruct (decide (i = cg)) as [->|Hne]; [eapply (Hno cg pref)|eapply (Hno i 0)]; [by left|done|by right|done].
  - right. split; [|done]. destruct Ht as ((H & _) & _). lia.
Qed.

(** A total of 0 is one of zeroes. *)
Lemma no_blocks d : disk_ok f d -> cs_nbfree (fs_cstotal (d_fs d)) = 0 -> full d F.
Proof using Hf.
  intros Hd H0 i Hi _. destruct (group_get f d i Hd Hi) as (c & Hg & _). apply (no_room f Hf d i c F Hd Hg); [|intros j Hj; lia].
  rewrite (dk_nbfree _ _ Hd) in H0. unfold group in Hg. destruct (Z.ltb_spec i 0); [done|].
  assert (Forall (fun c => 0 <= cs_nbfree (cg_cs c)) (d_cgs d)) as Hpos.
  { apply Forall_lookup. intros j x Hx. destruct (dk_cg _ _ Hd _ _ Hx) as [Hc _]. apply (nbfree_bounds f _ x Hc). }
  exact (total_zero cs_nbfree _ _ _ Hpos H0 Hg).
Qed.

Lemma size_fits n : 1 <= n <= F -> bad_size f (n * fs_fsize f) = false.
Proof using Hf.
  intros Hn. unfold bad_size. destruct (fo_size f Hf) as (Hs & E & Eb & Eq & Hb31).
  pose proof (Z.pow_pos_nonneg 2 (fs_fshift f) ltac:(lia) Hs) as Hpow. rewrite <- E in Hpow.
  unfold u32. rewrite !wrap_small by (unfold is_u; nia). rewrite (proj2 (Z.ltb_ge _ _)) by nia. unfold fragoff. rewrite Eq, E.
  replace (2 ^ fs_fshift f - 1) with (Z.ones (fs_fshift f)) by (rewrite Z.ones_equiv; lia).
  rewrite Z.land_ones, Z.mod_mul by lia. done.
Qed.

Lemma in_range bpref : 0 <= bpref < fs_size f -> 0 <= s32 (dtog f bpref) < fs_ncg f /\ s32 (dtog f bpref) = bpref / fs_fpg f.
Proof using Hf.
  intros Hb. destruct (fo_fpg f Hf) as [Hfpg _]. destruct (fo_fs f Hf) as [_ Hfs]. destruct (fo_ncg f Hf) as [Hncg _].
  rewrite dtog_div by (done || lia).
  assert (0 <= bpref / fs_fpg f < fs_ncg f) by (split; [apply Z.div_pos; lia|apply Z.div_lt_upper_bound; lia]). unfold s32.
  rewrite swrap_small by (done || (unfold is_s; lia)). done.
Qed.

(** ** [ffs_alloc] *)

(** The result [(e, bno, m', ip')] of a request of [size] bytes, [n] fragments. *)
Definition alloc_answer (m : mounted Q) (ip : inode) (n size uid e bno : Z) (m' : mounted Q) (ip' : inode) : Prop :=
  disk_ok f (m_disk m') /\
  (e = 0 /\ 0 < bno /\ takes f (m_disk m) (m_disk m') bno n /\ ip' = charge_blocks ufs1 (btodb size) ip /\ quota_alloc (m_quota m) (btodb size) = (0, m_quota m') \/
   e <> 0 /\ bno = 0 /\ m_disk m' = m_disk m /\ ip' = ip /\ (uid = 0 -> fst (quota_alloc (m_quota m) (btodb size)) = 0 -> e = ENOSPC /\ full (m_disk m) n)).

Lemma alloc_spec m ip bpref n uid : disk_ok f (m_disk m) -> 0 <= bpref -> 1 <= n <= F -> 0 <= i_number ip < fs_ncg f * fs_ipg f ->
  exists e bno m' ip', ffs_alloc f t ufs1 diag stray wild read quota_alloc quota_free m ip bpref (n * fs_fsize f) uid = Ret (e, bno, m', ip') /\
    alloc_answer m ip n (n * fs_fsize f) uid e bno m' ip'.
Proof using Hf.
  intros Hd Hbp Hn Hino. unfold ffs_alloc. rewrite size_fits, andb_false_r, size_eqb by done. destruct ((n =? F) && _) eqn:E0.
  { apply andb_true_iff in E0 as [EF E0]. apply Z.eqb_eq in EF, E0. subst n. exists ENOSPC, 0, m, ip. split; [done|]. split; [done|]. right.
    conj; try done. intros _ _. split; [done|by apply no_blocks]. }
  destruct (negb (uid =? 0) && _) eqn:E1.
  { exists ENOSPC, 0, m, ip. split; [done|]. split; [done|]. right. conj; try done; intros ->; done. }
  destruct (quota_alloc (m_quota m) (btodb (n * fs_fsize f))) as [error q] eqn:Eq. destruct (Z.eqb_spec error 0) as [->|He]; cbn [negb].
  2:{ exists error, 0, (set_quota q m), ip. split; [done|]. split; [done|]. right. conj; try done; rewrite Eq; intros _ H; done. }
  set (bp := if fs_size f <=? bpref then 0 else bpref).
  assert (0 <= bp /\ (bp = 0 \/ bp < fs_size f)) as [Hbp0 Hbp1] by (unfold bp; destruct (Z.leb_spec (fs_size f) bpref); lia).
  set (cg := if bp =? 0 then _ else _). assert (0 <= cg < fs_ncg f) as Hcg.
  { unfold cg. destruct (Z.eqb_spec bp 0); [|apply in_range; lia]. unfold ino_to_cg. destruct (fo_ipg f Hf) as (Hipg & _).
    rewrite Z.quot_div_nonneg by lia. split; [apply Z.div_pos; lia|apply Z.div_lt_upper_bound; lia]. }
  cbv zeta. change (m_disk (set_quota q m)) with (m_disk m).
  destruct (hash_blocks (m_disk m) cg bp n Hd Hcg Hbp0 Hn) as (r & d' & -> & Hd' & [(-> & -> & Hfull)|[Hr Ht] ]); cbn [bind].
  - eexists _, _, _, _. split; [done|]. split; [done|]. right. rewrite Eq. conj; try done.
  - rewrite (proj2 (Z.ltb_lt 0 r) Hr). eexists _, _, _, _. split; [done|]. split; [done|]. left. conj; try done.
Qed.

(** ** [ffs_realloccg] *)

Lemma isfree_in d y : disk_ok f d -> isfree f d y = true -> 0 <= y < fs_size f.
Proof using Hf.
  intros Hd. unfold isfree. destruct (group d (y / fs_fpg f)) as [c|] eqn:Hg; [|done]. intros Hq. destruct (fo_fpg f Hf) as [Hfpg _].
  pose proof (Z.div_mod y (fs_fpg f) ltac:(lia)) as Hdm.
  pose proof (Z.mod_pos_bound y (fs_fpg f) ltac:(lia)). destruct (disk_books f Hf d _ c Hd Hg) as (_ & Hc & Hcx & _).
  apply (co_end _ _ _ Hc) in Hq as [_ Hq]; [|lia]. rewrite Hcx in Hq.
  pose proof (group_in f d _ c Hd Hg). nia.
Qed.

Lemma bzero_spec n off data : 0 <= off -> off + Z.of_nat n <= Z.of_nat (length data) ->
  exists data', bzero n off data = Ret data' /\ length data' = length data /\
    forall k, 0 <= k -> data' !! Z.to_nat k = if bool_decide (between off (Z.of_nat n) k) then Some 0 else data !! Z.to_nat k.
Proof using.
  clear Hf. revert off data. induction n as [|n IH]; intros off data Ho Hl; cbn [bzero].
  { exists data. conj; try done. intros k Hk. rewrite bool_decide_eq_false_2; [done|]. unfold between. lia. }
  rewrite aset_bounds by lia. cbn [bind].
  destruct (IH (off + 1) (<[Z.to_nat off := 0]> data)) as (data' & -> & Hl' & Hk'); [lia|rewrite length_insert; lia|]. rewrite length_insert in Hl'.
  exists data'. conj; try done. intros k Hk. rewrite Hk' by done. unfold between. destruct (decide (k = off)) as [->|Hne].
  - rewrite bool_decide_eq_false_2, bool_decide_eq_true_2 by lia. apply list_lookup_insert_eq. lia.
  - rewrite list_lookup_insert_ne by lia. by rewrite (bool_decide_ext (off + 1 <= k < off + 1 + Z.of_nat n) (off <= k < off + Z.of_nat (S n))) by lia.
Qed.

(** A buffer that has the new size; what is new in it is 0. *)
Definition buf_room (bpp : option (Z + buf)) (blkno nsize : Z) : Prop :=
  match bpp with Some (inr bp) => b_blkno bp = blkno /\ nsize <= b_bufsize bp /\ nsize <= Z.of_nat (length (b_data bp)) | Some (inl e) => e <> 0 | None => True end.

Definition buf_grown (bpp : option (Z + buf)) (blkno osize nsize : Z) (bp' : option buf) : Prop :=
  match bpp, bp' with
  | Some (inr bp), Some b => b_blkno b = blkno /\ b_bcount b = nsize /\ length (b_data b) = length (b_data bp) /\
      forall k, 0 <= k -> b_data b !! Z.to_nat k = if bool_decide (between osize (nsize - osize) k) then Some 0 else b_data bp !! Z.to_nat k
  | None, None => True
  | _, _ => False
  end.

Definition old_buf (bpp : option (Z + buf)) (osize : Z) : option buf :=
  match bpp with Some (inr bp) => Some (Buf (b_blkno bp) osize (b_bufsize bp) (b_done bp) (b_data bp)) | _ => None end.

Lemma grow_bpp_spec msg bpp old blkno osize nsize : buf_room bpp old nsize -> (forall e, bpp <> Some (inl e)) -> 0 <= osize <= nsize ->
  exists bp', grow_bpp diag msg (old_buf bpp osize) blkno osize nsize = Ret bp' /\ buf_grown bpp blkno osize nsize bp'.
Proof using.
  clear Hf. intros Hroom Hne Hs. destruct bpp as [ [e|bp]|]; [by destruct (Hne e)| |by exists None]. destruct Hroom as (_ & Hb & Hl).
  cbn [old_buf grow_bpp]. unfold grow_buf. cbn [b_bufsize b_data].
  rewrite (proj2 (Z.ltb_ge _ _) Hb), andb_false_r.
  destruct (bzero_spec (Z.to_nat (nsize - osize)) osize (b_data bp)) as (data & -> & Hl' & Hk); [lia..|]. cbn [bind]. eexists. split; [done|].
  cbn [buf_grown b_blkno b_bcount b_data]. rewrite Z2Nat.id in Hk by lia. conj; try done.
Qed.

Lemma request_spec (m : mounted Q) n : fs_optim m = FS_OPTTIME \/ fs_optim m = FS_OPTSPACE ->
  exists k o, realloc_request f t m (n * fs_fsize f) = Ret (k * fs_fsize f, set_optim o m) /\ (k = n \/ k = F) /\ (fs_optim m = FS_OPTSPACE -> k = n).
Proof using Hf.
  destruct (fo_size f Hf) as (_ & _ & Eb & _). intros Ho. unfold realloc_request. assert (set_optim (fs_optim m) m = m) as Em by by destruct m.
  destruct Ho as [Ho|Ho]; rewrite Ho; cbn [Z.eqb].
  - rewrite Eb. destruct (_ <? _); [exists F, (fs_optim m); rewrite Em|exists F, FS_OPTSPACE]; conj; auto; congruence.
  - destruct (_ || _); [exists n, (fs_optim m); rewrite Em|exists n, FS_OPTTIME]; conj; auto.
Qed.

(** The file system after a file has got [n] fragments at [r] for [o] at [x]; with
    soft updates the old ones are freed later. *)
Definition moved (d d' : disk) (x o r n : Z) : Prop :=
  forall y, isfree f d' y = if bool_decide (between r n y) then false else if bool_decide (between x o y) then negb softdep else isfree f d y.

Section Move.
Context (d : disk) (x o n : Z) (Hd : disk_ok f d) (Hread : forall i, 0 <= i < fs_ncg f -> read i = true).
Context (Hx : 0 < x) (Hext : extent_of f x o) (Hend : x + o <= fs_size f) (Hused : forall y, between x o y -> isfree f d y = false) (Hon : o < n) (HnF : n <= F).

Lemma reads y : 0 <= y < fs_size f -> read (y / fs_fpg f) = true.
Proof using Hf Hread. intros Hy. apply Hread. destruct (in_range y Hy) as [H <-]. done. Qed.

Lemma free_old d1 : disk_ok f d1 -> (forall y, between x o y -> isfree f d1 y = false) ->
  exists d2, (if softdep then Ret d1 else ffs_blkfree f stray wild read d1 x (o * fs_fsize f)) = Ret d2 /\ disk_ok f d2 /\
    forall y, isfree f d2 y = if bool_decide (between x o y) then negb softdep else isfree f d1 y.
Proof using Hf Hread Hx Hext Hend.
  intros Hd1 Hu. pose proof Hext as (_ & Ho & _). destruct softdep.
  - exists d1. conj; try done. intros y. case_bool_decide as Hy; [by apply Hu|done].
  - destruct (blkfree_spec f stray wild read Hf d1 x o Hd1 Hx Hext Hend (reads x ltac:(lia)) Hu) as (d2 & E & Hd2 & _ & _ & Hg & _). exists d2.
    conj; try done. intros y. rewrite Hg. case_bool_decide; [by rewrite orb_true_r|by rewrite orb_false_r].
Qed.

Lemma move_frags d1 r k : disk_ok f d1 -> takes f d d1 r k -> 0 < r -> n <= k -> k <= F ->
  exists d2, (let! d := (if softdep then Ret d1 else ffs_blkfree f stray wild read d1 x (o * fs_fsize f)) in
     if n * fs_fsize f <? k * fs_fsize f then ffs_blkfree f stray wild read d (r + n) (k * fs_fsize f - n * fs_fsize f) else Ret d) = Ret d2 /\ disk_ok f d2 /\ moved d d2 x o r n.
Proof using Hf Hd Hread Hx Hext Hend Hused Hon HnF.
  intros Hd1 ((Hr0 & Hk1 & Hrk) & Hfree & Htk & _) Hr Hnk HkF. pose proof Hext as (_ & Ho & _). pose proof (frag_pos F (HF f Hf)) as HF1.
  assert (forall y, between x o y -> between r k y -> False) as Hdis by (intros y H1 H2; specialize (Hused y H1); specialize (Hfree y H2); congruence).
  destruct (free_old d1 Hd1) as (d2 & -> & Hd2 & Hf2); [intros y Hy; by rewrite Htk, Hused|]. cbn [bind]. destruct (fo_size f Hf) as (Hs & E & _).
  pose proof (Z.pow_pos_nonneg 2 (fs_fshift f) ltac:(lia) Hs) as Hpow. rewrite <- E in Hpow.
  destruct (Z.ltb_spec (n * fs_fsize f) (k * fs_fsize f)) as [Hlt|Hge].
  - rewrite <- Z.mul_sub_distr_r. pose proof (isfree_in d (r + k - 1) Hd (Hfree (r + k - 1) ltac:(unfold between; lia))) as Hin.
    assert (n < k) as Hnk' by nia.
    assert ((r + n) mod F = r mod F + n) as Em by (rewrite <- Z.add_mod_idemp_l by lia; apply Z.mod_small; pose proof (Z.mod_pos_bound r F ltac:(lia)); lia).
    destruct (blkfree_spec f stray wild read Hf d2 (r + n) (k - n) Hd2) as (d3 & -> & Hd3 & _ & _ & Hg & _); [lia|unfold extent_of; lia|lia|apply reads; lia| |].
    { intros y Hy. rewrite Hf2, bool_decide_eq_false_2; [rewrite Htk, bool_decide_eq_true_2; [apply andb_false_r|unfold between in *; lia]|].
      intros Hxo. apply (Hdis y Hxo). unfold between in *. lia. }
    exists d3. conj; try done. intros y. rewrite Hg, Hf2, Htk. specialize (Hdis y). specialize (Hfree y). unfold between in *.
    repeat case_bool_decide; rewrite ?orb_true_r, ?orb_false_r, ?andb_true_r, ?andb_false_r; try done; try lia; try (symmetry; apply Hfree; lia); try (exfalso; tauto).
  - assert (k = n) as -> by nia. exists d2. conj; try done. intros y. rewrite Hf2, Htk. specialize (Hdis y).
    repeat case_bool_decide; rewrite ?andb_true_r, ?andb_false_r; try done; exfalso; tauto.
Qed.

Definition realloc_answer (m : mounted Q) (ip : inode) (bpp : option (Z + buf)) (uid e bno : Z) (bp' : option buf) (m' : mounted Q) (ip' : inode) : Prop :=
  let q := quota_alloc (m_quota m) (btodb (n * fs_fsize f - o * fs_fsize f)) in
  disk_ok f (m_disk m') /\
  (e = 0 /\ 0 < bno /\ extent_of f bno n /\ (forall y, between bno n y -> isfree f d y = true \/ bno = x /\ between x o y) /\ moved d (m_disk m') x o bno n /\
     buf_grown bpp (fsbtodb f bno) (o * fs_fsize f) (n * fs_fsize f) bp' /\ ip' = charge_blocks ufs1 (btodb (n * fs_fsize f - o * fs_fsize f)) ip /\ q = (0, m_quota m') \/
   e <> 0 /\ m_disk m' = d /\ bp' = None /\ ip' = ip /\ (uid = 0 -> fst q = 0 -> (exists e', bpp = Some (inl e')) \/ e = ENOSPC /\ full d F /\ (fs_optim m = FS_OPTSPACE -> full d n))).

(** The fragments behind the old ones are taken. *)
Lemma extended d' : x mod F + n <= F -> takes f d d' (x + o) (n - o) -> extent_of f x n /\ (forall y, between x n y -> isfree f d y = true \/ x = x /\ between x o y) /\ moved d d' x o x n.
Proof using Hx Hext Hused Hon.
  intros HxF (_ & Hfree & Htk & _). pose proof Hext as (_ & Ho & Hl). split; [|split].
  - unfold extent_of. lia.
  - intros y Hy. unfold between in *. destruct (decide (y < x + o)); [right; lia|left; apply Hfree; unfold between; lia].
  - intros y. rewrite Htk. specialize (Hused y). unfold between in *.
    repeat case_bool_decide; rewrite ?andb_true_r, ?andb_false_r; try done; try lia; apply Hused; lia.
Qed.

Lemma full_mono a b : 1 <= a <= b -> full d a -> full d b.
Proof using. clear -f. intros Hab Hfull i Hi Hr (y & E & (H1 & H2 & H3) & Hfr). apply (Hfull i Hi Hr). exists y.
conj; try done; [unfold extent_of; lia|]. intros z Hz. apply Hfr. unfold between in *. lia. Qed.

(** The call once the old buffer has been read. *)
Lemma realloc_rest m ip bpref uid bpp : m_disk m = d -> fs_optim m = FS_OPTTIME \/ fs_optim m = FS_OPTSPACE -> 0 <= bpref -> buf_room bpp (fsbtodb f x) (n * fs_fsize f) -> (forall e, bpp <> Some (inl e)) ->
  let osize := o * fs_fsize f in let nsize := n * fs_fsize f in
  exists e bno bp' m' ip', (let bp := old_buf bpp osize in
    let (error, q) := quota_alloc (m_quota m) (btodb (nsize - osize)) in
    let m := set_quota q m in
    if negb (error =? 0) then Ret (error, 0, None, m, ip)
    else
      let cg := s32 (dtog f x) in
      let! (bno, d) := ffs_fragextend f read (m_disk m) cg x osize nsize in
      let m := set_disk d m in
      if negb (bno =? 0) then
        if match bp with Some b => negb (b_blkno b =? fsbtodb f bno) | None => false end then Panic "ffs_realloccg: bad blockno"
        else
          let! bp := grow_bpp diag "ffs_realloccg: small buf" bp (fsbtodb f bno) osize nsize in
          Ret (0, bno, bp, m, charge_blocks ufs1 (btodb (nsize - osize)) ip)
      else
        let bpref := if fs_size f <=? bpref then 0 else bpref in
        let! (request, m) := realloc_request f t m nsize in
        let! (bno, d) := ffs_hashalloc (fs_ncg f) (ffs_alloccg f stray wild read) (m_disk m) cg bpref request in
        let m := set_disk d m in
        if bno <=? 0 then
          let m := if negb (btodb (nsize - osize) =? 0) then set_quota (quota_free (m_quota m) (btodb (nsize - osize))) m else m in
          Ret (ENOSPC, 0, None, m, ip)
        else
          let! d := (if softdep then Ret d else ffs_blkfree f stray wild read d x osize) in
          let! d := (if nsize <? request then ffs_blkfree f stray wild read d (bno + numfrags f nsize) (request - nsize) else Ret d) in
          let! bp := grow_bpp diag "ffs_realloccg: small buf 2" bp (fsbtodb f bno) osize nsize in
          Ret (0, bno, bp, set_disk d m, charge_blocks ufs1 (btodb (nsize - osize)) ip)) = Ret (e, bno, bp', m', ip') /\
    realloc_answer m ip bpp uid e bno bp' m' ip'.
Proof using Hf Hd Hread Hx Hext Hend Hused Hon HnF.
  intros Em Hopt Hbp Hbuf Hne osize nsize. pose proof Hext as (_ & Ho & Hl). pose proof (frag_pos F (HF f Hf)) as HF1.
  destruct (fo_size f Hf) as (Hs & Es & _). pose proof (Z.pow_pos_nonneg 2 (fs_fshift f) ltac:(lia) Hs) as Hpow. rewrite <- Es in Hpow.
  assert (0 <= osize <= nsize) as Hsz by (unfold osize, nsize; nia). cbv zeta. unfold realloc_answer. fold osize nsize. rewrite ?Em.
  destruct (quota_alloc (m_quota m) (btodb (nsize - osize))) as [error q] eqn:Eq. destruct (Z.eqb_spec error 0) as [->|He]; cbn [negb].
  2:{ eexists _, _, _, _, _. split; [done|]. cbn [m_disk set_quota]. rewrite Em. split; [done|]. right. conj; try done. }
  destruct (in_range x ltac:(lia)) as [Hi Ei]. rewrite Ei in *. destruct (group_get f d _ Hd Hi) as (c & Hg & _). cbn [m_disk set_quota]. rewrite Em.
  destruct (extend_call f read Hf d _ x o n c Hd Hg ltac:(lia) eq_refl ltac:(lia) HnF Hl Hused) as (r & d1 & Ecall & Hd1 & Hres).
  fold osize nsize in Ecall. rewrite Ecall. cbn [bind].
  destruct Hres as [(-> & -> & _)|(-> & HxF & Ht)].
  2:{ rewrite (proj2 (Z.eqb_neq x 0)) by lia. cbn [negb].
  destruct (grow_bpp_spec "ffs_realloccg: small buf" bpp _ (fsbtodb f x) osize nsize Hbuf Hne Hsz) as (bp' & Egrow & Hgrow).
      assert (match old_buf bpp osize with Some b => negb (b_blkno b =? fsbtodb f x) | None => false end = false) as ->.
      { destruct bpp as [ [e|bp]|]; try done. destruct Hbuf as (Hblk & _). cbn [old_buf b_blkno]. by rewrite Hblk, Z.eqb_refl. }
      rewrite Egrow. cbn [bind]. eexists _, _, _, _, _. split; [done|]. split; [done|]. left. destruct (extended d1 HxF Ht) as (H1 & H2 & H3).
      conj; try done. }
  rewrite Z.eqb_refl. cbn [negb]. set (bp := if fs_size f <=? bpref then 0 else bpref).
  assert (0 <= bp) as Hbp0 by (unfold bp; destruct (fs_size f <=? bpref); lia).
  set (m1 := set_disk d (set_quota q m)). destruct (request_spec m1 n) as (k & op & Ereq & Hk & Hspace); [done|]. fold nsize in Ereq. rewrite Ereq.
  cbn [bind]. cbn [m_disk set_optim m1 set_disk].
  destruct (hash_blocks d (x / fs_fpg f) bp k Hd Hi Hbp0 ltac:(lia)) as (r & d1 & -> & Hd2 & [(-> & -> & Hfull)|[Hr Ht] ]); cbn [bind].
  - change (0 <=? 0) with true. cbv iota. eexists _, _, _, _, _. split; [done|].
    assert (m_disk (if negb (btodb (nsize - osize) =? 0) then set_quota (quota_free (m_quota (set_disk d (set_optim op m1))) (btodb (nsize - osize))) (set_disk d (set_optim op m1)) else set_disk d (set_optim op m1)) = d) as -> by by destruct (negb _).
    split; [done|]. right. conj; try done. intros _ _. right. conj; try done; [apply (full_mono k); [lia|done]|]. intros Hsp. rewrite <- (Hspace Hsp).
    done.
  - rewrite (proj2 (Z.leb_gt r 0) Hr). assert (numfrags f nsize = n) as -> by by apply numfrags_mul.
    destruct (move_frags d1 r k Hd2 Ht Hr ltac:(lia) ltac:(lia)) as (d2 & E2 & Hd2' & Hmv). fold osize nsize in E2.
    apply bind_Ret_inv in E2 as (d1' & -> & E2). cbn [bind]. rewrite E2. cbn [bind].
    destruct (grow_bpp_spec "ffs_realloccg: small buf 2" bpp _ (fsbtodb f r) osize nsize Hbuf Hne Hsz) as (bp' & -> & Hgrow). cbn [bind]. eexists _, _, _, _, _. split; [done|].
    split; [done|]. left. destruct Ht as ((H1 & H2 & H3) & Hfree & _).
    conj; try done; [unfold extent_of; lia|]. intros y Hy. left. apply Hfree. unfold between in *. lia.
Qed.

Lemma realloccg_spec m ip lbprev bpref uid bpp : m_disk m = d -> fs_optim m = FS_OPTTIME \/ fs_optim m = FS_OPTSPACE -> 0 <= lbprev -> di_db ip !! Z.to_nat lbprev = Some x -> 0 <= bpref ->
  buf_room bpp (fsbtodb f x) (n * fs_fsize f) ->
  exists e bno bp' m' ip', ffs_realloccg f t ufs1 diag softdep stray wild read quota_alloc quota_free m ip lbprev bpref (o * fs_fsize f) (n * fs_fsize f) uid bpp = Ret (e, bno, bp', m', ip') /\
    realloc_answer m ip bpp uid e bno bp' m' ip'.
Proof using Hf Hd Hread Hx Hext Hend Hused Hon HnF.
  intros Em Hopt Hlb Hdb Hbp Hbuf. pose proof Hext as (_ & Ho & Hl). unfold ffs_realloccg. rewrite !size_fits, andb_false_r by lia.
  destruct (negb (uid =? 0) && _) eqn:E1.
  { exists ENOSPC, 0, None, m, ip. split; [done|]. unfold realloc_answer. rewrite Em. split; [done|]. right. conj; try done; intros ->; done. }
  rewrite (aget_Some _ lbprev x) by done. cbn [bind]. rewrite (proj2 (Z.eqb_neq x 0)) by lia. destruct bpp as [ [e|bp]|].
  - exists e, 0, None, m, ip. split; [done|]. unfold realloc_answer. rewrite Em. split; [done|]. right. conj; try done. intros _ _. left. by exists e.
  - by apply (realloc_rest m ip bpref uid (Some (inr bp))).
  - by apply (realloc_rest m ip bpref uid None).
Qed.
End Move.
End Grow.

(** * Where to look

    [ffs_dirpref] and [ffs_blkpref] name a group of the file system, and the sweep
    for a group that is not below the average always finds one. *)

Section Where.
Context (f : fs) (t : tuning) (Hf : fs_ok f).
Context {Q : Type}.

(** ** The loops *)

Lemma first_cg_spec ok (p : Z -> bool) n cg : (forall c, cg <= c < cg + Z.of_nat n -> ok c = Ret (p c)) ->
  exists b c, first_cg ok n cg = Ret (b, c) /\ (forall x, cg <= x < c -> p x = false) /\ if b then cg <= c < cg + Z.of_nat n /\ p c = true else c = cg + Z.of_nat n.
Proof using.
  clear. revert cg. induction n as [|n IH]; intros cg Hok; cbn [first_cg]; [exists false, cg; conj; try done; intros; lia|].
  rewrite Hok by lia. cbn [bind]. destruct (p cg) eqn:E; [exists true, cg; conj; try done; intros; lia|].
  destruct (IH (cg + 1)) as (b & c & -> & H1 & H2); [intros c Hc; apply Hok; lia|].
  exists b, c. split; [done|]. split; [|destruct b; [split; [lia|apply H2]|lia] ]. intros x Hx. destruct (decide (x = cg)) as [->|]; [done|].
  apply H1. lia.
Qed.

Lemma two_loops_spec ok (p : Z -> bool) a b : 0 <= a <= fs_ncg f -> 0 <= b <= fs_ncg f -> (forall c, 0 <= c < fs_ncg f -> ok c = Ret (p c)) ->
  exists r c, two_loops f ok a b = Ret (r, c) /\ if r : bool then 0 <= c < fs_ncg f /\ p c = true else c = b /\ forall x, a <= x < fs_ncg f \/ 0 <= x < b -> p x = false.
Proof using.
  clear Hf t. intros Ha Hb Hok. unfold two_loops.
  destruct (first_cg_spec ok p (Z.to_nat (fs_ncg f - a)) a) as (r & c & -> & H1 & H2); [intros c Hc; apply Hok; lia|]. cbn [bind]. destruct r.
  { exists true, c. split; [done|]. split; [lia|apply H2]. }
  destruct (first_cg_spec ok p (Z.to_nat b) 0) as (r & c' & -> & K1 & K2); [intros c' Hc; apply Hok; lia|]. exists r, c'. split; [done|].
  destruct r; [split; [lia|apply K2]|]. split; [lia|].
  intros x [Hx|Hx]; [apply H1; lia|apply K1; lia].
Qed.

(** The loops end at a group, whatever they look for. *)
Lemma two_loops_total ok a : 0 <= a < fs_ncg f -> (forall c, 0 <= c < fs_ncg f -> exists b, ok c = Ret b) -> exists r c, two_loops f ok a a = Ret (r, c) /\ 0 <= c < fs_ncg f.
Proof using.
  clear Hf t. intros Ha Hok.
  destruct (two_loops_spec ok (fun c => match ok c with Ret b => b | _ => false end) a a ltac:(lia) ltac:(lia)) as (r & c & -> & Hr).
  { intros c Hc. by destruct (Hok c Hc) as [b ->]. }
  exists r, c. split; [done|]. destruct r; lia.
Qed.

Lemma csum_get d cg : disk_ok f d -> 0 <= cg < fs_ncg f -> exists c, group d cg = Some c /\ csum_of (d_fs d) cg = Ret (cg_cs c).
Proof using. clear Hf t. intros Hd Hcg. destruct (group_get f d cg Hd Hcg) as (c & Hg & _ & E). by exists c. Qed.

(** The summary of a group, as a function. *)
Definition summary (d : disk) (cg : Z) : csum := match group d cg with Some c => cg_cs c | None => Csum 0 0 0 0 end.

Lemma csum_of_summary d cg : disk_ok f d -> 0 <= cg < fs_ncg f -> csum_of (d_fs d) cg = Ret (summary d cg).
Proof using. clear Hf t. intros Hd Hcg. destruct (csum_get d cg Hd Hcg) as (c & Hg & ->). unfold summary. by rewrite Hg. Qed.

(** Some group has the average. *)
Lemma average g d avg : disk_ok f d -> avg = total g (d_cgs d) `quot` fs_ncg f -> 0 <= total g (d_cgs d) -> exists cg, 0 <= cg < fs_ncg f /\ avg <= g (summary d cg).
Proof using Hf.
  intros Hd -> Hpos. destruct (fo_ncg f Hf) as [Hncg _]. rewrite Z.quot_div_nonneg by lia. set (avg := total g (d_cgs d) / fs_ncg f).
  destruct (decide (Exists (fun c => avg <= g (cg_cs c)) (d_cgs d))) as [H|H].
  - apply Exists_exists in H as (c & Hc & Hle). apply list_elem_of_lookup in Hc as [i Hi]. pose proof (lookup_lt_Some _ _ _ Hi).
    pose proof (dk_len _ _ Hd). exists (Z.of_nat i). split; [lia|].
    unfold summary, group. rewrite (proj2 (Z.ltb_ge _ 0)), Nat2Z.id, Hi by lia. done.
  - exfalso. apply not_Exists_Forall in H; [|intros; apply _]. pose proof (total_below g (d_cgs d) (avg - 1)) as Hb. rewrite (dk_len _ _ Hd) in Hb.
    assert (total g (d_cgs d) <= (avg - 1) * fs_ncg f) as Hle by (apply Hb; eapply Forall_impl; [exact H|]; intros c Hc; cbv beta; destruct (decide (g (cg_cs c) <= avg - 1)); [done|]; exfalso; apply Hc; lia).
    pose proof (Z.mul_div_le (total g (d_cgs d)) (fs_ncg f) ltac:(lia)) as Hm. fold avg in Hm. nia.
Qed.

(** ** [ffs_blkpref] *)

Definition nbfree_avg (d : disk) : Z := cs_nbfree (fs_cstotal (d_fs d)) `quot` fs_ncg f.

Lemma totals_small d : disk_ok f d -> 0 <= cs_nbfree (fs_cstotal (d_fs d)) < 2 ^ 31 /\ s32 (nbfree_avg d) = nbfree_avg d /\ exists cg, 0 <= cg < fs_ncg f /\ nbfree_avg d <= cs_nbfree (summary d cg).
Proof using Hf.
  intros Hd. destruct (fo_ncg f Hf) as [Hncg Hsz]. destruct (nblk_fpg f Hf) as [En Hnb]. pose proof (frag_pos (fs_frag f) (HF f Hf)).
  assert (Forall (fun c => 0 <= cs_nbfree (cg_cs c) <= Z.of_nat (nblk f)) (d_cgs d)) as Hall.
  { apply Forall_lookup. intros i c Hc. destruct (dk_cg _ _ Hd _ _ Hc) as [Hok _]. apply (nbfree_bounds f _ c Hok). }
  pose proof (total_ge0 cs_nbfree (d_cgs d) (Forall_impl _ _ _ Hall (fun c H => proj1 H))) as H0.
  pose proof (total_below cs_nbfree (d_cgs d) _ (Forall_impl _ _ _ Hall (fun c H => proj2 H))) as H1.
  rewrite (dk_len _ _ Hd) in H1. unfold nbfree_avg. rewrite (dk_nbfree _ _ Hd). assert (total cs_nbfree (d_cgs d) < 2 ^ 31) by nia. split; [done|].
  split; [|by apply average].
  rewrite Z.quot_div_nonneg by lia. pose proof (Z.div_pos (total cs_nbfree (d_cgs d)) (fs_ncg f) ltac:(lia) ltac:(lia)).
  pose proof (Z.div_le_upper_bound (total cs_nbfree (d_cgs d)) (fs_ncg f) (2 ^ 31 - 1) ltac:(lia) ltac:(nia)).
  apply swrap_small; [done|]. unfold is_s. lia.
Qed.

(** The sweep from group [a] on. *)
Lemma sweep d a b : disk_ok f d -> 0 <= a < fs_ncg f -> a <= b <= fs_ncg f ->
  exists cg, two_loops f (fun cg => let! c := csum_of (d_fs d) cg in Ret (nbfree_avg d <=? cs_nbfree c)) a b = Ret (true, cg) /\ 0 <= cg < fs_ncg f /\ nbfree_avg d <= cs_nbfree (summary d cg).
Proof using Hf.
  intros Hd Ha Hb.
  destruct (two_loops_spec (fun cg => let! c := csum_of (d_fs d) cg in Ret (nbfree_avg d <=? cs_nbfree c)) (fun cg => nbfree_avg d <=? cs_nbfree (summary d cg)) a b ltac:(lia) ltac:(lia)) as (r & cg & -> & Hr).
  { intros c Hc. rewrite csum_of_summary by done. done. }
  destruct r; [exists cg; split; [done|]; split; [lia|]; apply Z.leb_le, Hr|]. exfalso. destruct (totals_small d Hd) as (_ & _ & c & Hc & Hle).
  destruct Hr as [_ Hr]. specialize (Hr c ltac:(lia)). lia.
Qed.

(** Where the next block of a file should be.  [start] is the group at which the
    sweep begins. *)
Definition preferred (d : disk) (ino lbn indx prev p : Z) : Prop :=
  if bool_decide (indx mod fs_maxbpg t <> 0 /\ prev <> 0) then p = prev + fs_frag f
  else if lbn <? 12 + fs_nindir t then p = ino / fs_ipg f * fs_fpg f + fs_frag f
  else exists cg, 0 <= cg < fs_ncg f /\ p = cg * fs_fpg f + fs_frag f /\ nbfree_avg d <= cs_nbfree (summary d cg).

Section Blkpref.
Context (m : mounted Q) (ip : inode) (lbn indx prev : Z) (bap : list Z).
Context (Hd : disk_ok f (m_disk m)) (Hino : 0 <= i_number ip < fs_ncg f * fs_ipg f) (Hmb : 0 < fs_maxbpg t) (Hlbn : 0 <= lbn) (Hsm : lbn / fs_maxbpg t < 2 ^ 30).
Context (Hindx : 0 <= indx) (Hprev : 0 < indx -> bap !! Z.to_nat (indx - 1) = Some prev) (Hp : 0 <= prev < fs_size f).

Lemma ino_group : ino_to_cg f (i_number ip) = i_number ip / fs_ipg f /\ 0 <= i_number ip / fs_ipg f < fs_ncg f.
Proof using Hf Hino.
  destruct (fo_ipg f Hf) as (Hipg & _). unfold ino_to_cg. rewrite Z.quot_div_nonneg by lia. split; [done|].
  split; [apply Z.div_pos; lia|apply Z.div_lt_upper_bound; lia].
Qed.

Lemma small_pref cg : 0 <= cg < fs_ncg f -> s32 (cgbase f cg + fs_frag f) = cg * fs_fpg f + fs_frag f.
Proof using Hf.
  intros Hcg. destruct (fo_ncg f Hf) as [Hncg Hsz]. destruct (nblk_fpg f Hf) as [En Hnb]. pose proof (frag_pos (fs_frag f) (HF f Hf)). unfold cgbase.
  rewrite Z.mul_comm. apply swrap_small; [done|]. unfold is_s. nia.
Qed.

Lemma start_group (c : bool) g : 0 <= g <= fs_ncg f -> 0 <= s32 (if c then ino_to_cg f (i_number ip) + lbn `quot` fs_maxbpg t else g) `rem` fs_ncg f < fs_ncg f.
Proof using Hf Hino Hmb Hlbn Hsm.
  intros Hg. destruct ino_group as [-> Hi]. destruct (fo_ncg f Hf) as [Hncg Hsz]. rewrite Z.quot_div_nonneg by lia.
  pose proof (Z.div_pos lbn (fs_maxbpg t) Hlbn Hmb).
  set (x := if c then _ else g). assert (0 <= x < 2 ^ 31) as Hx by (unfold x; destruct c; lia). unfold s32.
  rewrite swrap_small by (done || (unfold is_s; lia)).
  rewrite Z.rem_mod_nonneg by lia. apply Z.mod_pos_bound. lia.
Qed.

(** What both functions read of the block map. *)
Lemma prev_get (b : bool) : (b = false -> indx <> 0) -> (if b then Ret 0 else aget bap (indx - 1)) = Ret (if b then 0 else prev).
Proof using Hindx Hprev. clear Hf. intros Hb. destruct b; [done|]. specialize (Hb eq_refl). apply aget_Some; [lia|]. apply Hprev. lia. Qed.

Lemma prev_group p : 0 <= p < fs_size f -> 0 <= dtog f p < fs_ncg f /\ 0 <= dtog f (p + 1) <= fs_ncg f.
Proof using Hf.
  intros Hp'.   destruct (fo_fpg f Hf) as [Hfpg _]. destruct (fo_fs f Hf) as [_ Hfs]. rewrite !dtog_div by (done || lia).
  pose proof (Z.div_pos p (fs_fpg f)). pose proof (Z.div_pos (p + 1) (fs_fpg f)).
  pose proof (Z.div_lt_upper_bound p (fs_fpg f) (fs_ncg f)). pose proof (Z.div_le_upper_bound (p + 1) (fs_fpg f) (fs_ncg f)). lia.
Qed.

Lemma section_start : (indx `rem` fs_maxbpg t =? 0) = (indx mod fs_maxbpg t =? 0) /\ (indx = 0 -> indx mod fs_maxbpg t = 0).
Proof using Hmb Hindx. clear -Hmb Hindx. rewrite Z.rem_mod_nonneg by lia. split; [done|]. intros ->. apply Z.mod_0_l. lia. Qed.

Lemma blkpref1_spec : prev + fs_frag f < 2 ^ 31 -> exists p m', ffs1_blkpref f t m ip lbn indx bap = Ret (p, m') /\ preferred (m_disk m) (i_number ip) lbn indx prev p /\ m_disk m' = m_disk m.
Proof using Hf Hd Hino Hmb Hlbn Hsm Hindx Hprev Hp.
  intros Hpf. destruct section_start as [Es E0]. destruct ino_group as [Ei Hi]. pose proof (frag_pos (fs_frag f) (HF f Hf)).
  unfold ffs1_blkpref, preferred. rewrite Es, prev_get by (intros H'; apply Z.eqb_neq in H'; intros H0; by apply H', E0). cbn [bind].
  destruct (Z.eqb_spec (indx mod fs_maxbpg t) 0) as [Em|Em]; cbn [orb].
  2: destruct (Z.eqb_spec prev 0) as [Ep|Ep].
  3:{ rewrite bool_decide_eq_true_2 by done. eexists _, m. split; [done|]. split; [|done]. apply swrap_small; [done|]. unfold is_s. lia. }
  all: rewrite bool_decide_eq_false_2 by tauto; destruct (lbn <? 12 + fs_nindir t); [eexists _, m; split; [done|]; split; [|done]; rewrite Ei; by apply small_pref|].
  all: rewrite prev_get by (intros H'; by apply Z.eqb_neq in H'); cbn [bind].
  all: set (pv := if indx =? 0 then 0 else prev); assert (0 <= pv < fs_size f) as Hpv by (unfold pv; destruct (indx =? 0); destruct (fo_fs f Hf); lia).
  all: destruct (totals_small (m_disk m) Hd) as (_ & Ea & _); unfold nbfree_avg in Ea; rewrite Ea; fold (nbfree_avg (m_disk m)).
  all: pose proof (start_group ((indx =? 0) || (pv =? 0)) (dtog f pv + 1) ltac:(pose proof (prev_group pv Hpv); lia)) as Hst.
  all: destruct (sweep (m_disk m) _ _ Hd Hst (conj (Z.le_succ_diag_r _) (proj2 (Z.le_succ_l _ _) (proj2 Hst)))) as (cg & Esw & Hcg & Hle); rewrite <- Z.add_1_r in Esw; rewrite Esw; cbn [bind].
  all: eexists _, _; split; [done|]; split; [|done]; exists cg; split; [done|]; split; [by apply small_pref|done].
Qed.

Lemma blkpref2_spec : exists p, ffs2_blkpref f t m ip lbn indx bap = Ret p /\ preferred (m_disk m) (i_number ip) lbn indx prev p.
Proof using Hf Hd Hino Hmb Hlbn Hsm Hindx Hprev Hp.
  destruct section_start as [Es E0]. destruct ino_group as [Ei Hi]. unfold ffs2_blkpref, preferred.
  rewrite Es, prev_get by (intros H'; apply Z.eqb_neq in H'; intros H0; by apply H', E0). cbn [bind].
  destruct (Z.eqb_spec (indx mod fs_maxbpg t) 0) as [Em|Em]; cbn [orb].
  2: destruct (Z.eqb_spec prev 0) as [Ep|Ep].
  3:{ rewrite bool_decide_eq_true_2 by done. by eexists. }
  all: rewrite bool_decide_eq_false_2 by tauto; destruct (lbn <? 12 + fs_nindir t); [eexists; split; [done|]; rewrite Ei; unfold cgbase; lia|].
  all: rewrite prev_get by (intros H'; by apply Z.eqb_neq in H'); cbn [bind].
  all: set (pv := if indx =? 0 then 0 else prev); assert (0 <= pv < fs_size f) as Hpv by (unfold pv; destruct (indx =? 0); destruct (fo_fs f Hf); lia).
  all: destruct (totals_small (m_disk m) Hd) as (_ & Ea & _); unfold nbfree_avg in Ea; rewrite Ea; fold (nbfree_avg (m_disk m)).
  all: pose proof (start_group ((indx =? 0) || (pv =? 0)) (dtog f (pv + 1)) ltac:(apply (prev_group pv Hpv))) as Hst.
  all: destruct (sweep (m_disk m) _ _ Hd Hst (conj (Z.le_refl _) (Z.lt_le_incl _ _ (proj2 Hst)))) as (cg & -> & Hcg & Hle); cbn [bind].
  all: eexists; split; [done|]; exists cg; split; [done|]; split; [unfold cgbase; lia|done].
Qed.
End Blkpref.
End Where.

(** * New inodes

    [ffs_dirpref] names the first inode of some group; [ffs_inode_alloc] finds a
    free inode when a group that can be read has one, and leaves no trace of it
    when the inode cannot be had after all. *)

Section New.
Context (f : fs) (t : tuning) (softdep : bool) (read : Z -> bool) (Hf : fs_ok f).
Context {Q : Type} (m : mounted Q) (pip : inode) (vroot : bool) (mode rnd rnd2 : Z).

Local Notation d := (m_disk m).

Context (Hd : disk_ok f d) (Hpip : 0 <= i_number pip < fs_ncg f * fs_ipg f) (Hcd : Z.of_nat (length (fs_contigdirs m)) = fs_ncg f).

(** ** [ffs_dirpref] *)

Lemma fewest_spec ai ab n cg mincg minndir : 0 <= cg -> cg + Z.of_nat n <= fs_ncg f -> 0 <= mincg < fs_ncg f -> exists c k, fewest (d_fs d) ai ab n cg mincg minndir = Ret (c, k) /\ 0 <= c < fs_ncg f.
Proof using Hd.
  clear Hf Hpip Hcd. revert cg mincg minndir. induction n as [|n IH]; intros cg mincg minndir Hcg Hn Hm; cbn [fewest]; [by exists mincg, minndir|].
  rewrite (csum_of_summary f) by (done || lia). cbn [bind]. destruct (_ && _ && _); apply IH; lia.
Qed.

Lemma divide_ok a b : b <> 0 -> exists r, divide a b = Ret r.
Proof using. clear. intros Hb. unfold divide. rewrite (proj2 (Z.eqb_neq b 0) Hb). by eexists. Qed.

Lemma dirpref_spec : 0 < fs_avgfilesize t * fs_avgfpdir t < 2 ^ 31 -> exists cg, 0 <= cg < fs_ncg f /\ ffs_dirpref f t m pip vroot rnd = Ret (fs_ipg f * cg).
Proof using Hf Hd Hpip Hcd.
  intros Ht. destruct (fo_ncg f Hf) as [Hncg _]. destruct (fo_ipg f Hf) as (Hipg & _ & Hi31).
  assert (forall cg, 0 <= cg < fs_ncg f -> u32 (fs_ipg f * cg) = fs_ipg f * cg) as Hu by (intros cg Hcg; apply wrap_small; unfold is_u; nia).
  assert (forall a cg, 0 <= cg < fs_ncg f -> a = Ret (u32 (fs_ipg f * cg)) -> exists cg, 0 <= cg < fs_ncg f /\ a = Ret (fs_ipg f * cg)) as Hret by (intros a cg Hcg ->; exists cg; by rewrite Hu).
  unfold ffs_dirpref. cbv zeta. destruct vroot.
  - assert (0 <= Z.land rnd (2 ^ 31 - 1) `rem` fs_ncg f < fs_ncg f) as Hp.
    { change (2 ^ 31 - 1) with (Z.ones 31). rewrite Z.land_ones by lia. pose proof (Z.mod_pos_bound rnd (2 ^ 31) ltac:(lia)).
      rewrite Z.rem_mod_nonneg by lia. apply Z.mod_pos_bound. lia. }
    set (p := Z.land _ _ `rem` _) in *.
    match goal with |- context [fewest _ ?a ?b (Z.to_nat (_ - p)) p p ?k] => destruct (fewest_spec a b (Z.to_nat (fs_ncg f - p)) p p k) as (c & k' & -> & Hc); [lia..|]; cbn [bind]; destruct (fewest_spec a b (Z.to_nat p) 0 c k') as (c' & k'' & -> & Hc'); [lia..|] end.
    cbn [bind]. by eapply Hret.
  - destruct (ino_group f Hf pip Hpip) as [-> Hp]. set (p := i_number pip / fs_ipg f) in *. set (avgndir := s32 (cs_ndir _ `quot` _)).
    set (avgbfree := s32 (cs_nbfree _ `quot` _)). set (avgifree := s32 (cs_nifree _ `quot` _)).
    assert (exists cur, (if negb (avgndir =? 0) then divide (s32 (s32 (fs_fsize f * fs_fpg f) - s32 (avgbfree * fs_bsize f))) avgndir else Ret 0) = Ret cur) as [cur ->].
    { destruct (Z.eqb_spec avgndir 0); cbn [negb]; [by eexists|by apply divide_ok]. }
    cbn [bind]. unfold s32 at 2 3. rewrite (swrap_small 32 (fs_avgfilesize t * fs_avgfpdir t)) by (done || (unfold is_s; lia)).
    set (dirsize := if _ <? cur then _ else _).
    destruct (divide_ok (s32 (avgbfree * fs_bsize f)) dirsize) as [n ->]; [unfold dirsize; destruct (Z.ltb_spec (fs_avgfilesize t * fs_avgfpdir t) cur); lia|].
    cbn [bind].
    match goal with |- context [two_loops f ?ok p p] => destruct (two_loops_total f ok p Hp) as (r & c & -> & Hc) end.
    { intros c Hc. rewrite (csum_of_summary f) by done. cbn [bind]. destruct (_ && _ && _); [|by eexists].
      destruct (lookup_lt_is_Some_2 (fs_contigdirs m) (Z.to_nat c)) as [x Hx]; [lia|]. rewrite (aget_Some _ c x) by (done || lia). by eexists. }
    cbn [bind]. destruct r; cbn [bind]; [by eapply Hret|].
    destruct (two_loops_total f (fun cg => let! c := csum_of (d_fs d) cg in Ret (avgifree <=? cs_nifree c)) p Hp) as (r & c' & -> & Hc'); [|cbn [bind]; by eapply Hret].
    intros x Hx. rewrite (csum_of_summary f) by done. by eexists.
Qed.

(** ** [ffs_inode_alloc] *)

(** A generation number that is neither 0 nor -1. *)
Lemma new_gen_ok gen r : new_gen gen r <> 0 /\ new_gen gen r <> -1.
Proof using. clear. unfold new_gen. set (g := if negb (gen =? 0) then _ else _). set (h := if g =? 0 then _ else g).
destruct (Z.eqb_spec h 0), (Z.eqb_spec h (-1)); cbn [orb]; lia. Qed.

(** No group that can be read has a free inode. *)
Definition no_inodes : Prop := forall i, 0 <= i < fs_ncg f -> read i = true -> ~ ino_room f d i.

Lemma no_total : cs_nifree (fs_cstotal (d_fs d)) = 0 -> no_inodes.
Proof using Hf Hd.
  clear Hpip Hcd. intros H0 i Hi _. destruct (group_get f d i Hd Hi) as (c & Hg & _). apply (ino_counted f Hf d i c Hd Hg).
  rewrite (dk_nifree _ _ Hd) in H0. unfold group in Hg. destruct (Z.ltb_spec i 0); [done|].
  refine (total_zero cs_nifree _ _ _ _ H0 Hg). apply Forall_lookup. intros j x Hx. destruct (dk_cg _ _ Hd _ _ Hx) as [Hc _].
  destruct (co_inode _ _ _ Hc) as (_ & _ & _ & -> & _). apply sumn_nonneg. intros; unfold one; case_if; lia.
Qed.

Lemma hash_inode cg ipref : 0 <= cg < fs_ncg f -> 0 <= ipref -> pref_ok f d cg ipref ->
  exists r d', ffs_hashalloc (fs_ncg f) (ffs_nodealloccg f read) d cg ipref mode = Ret (r, d') /\ disk_ok f d' /\ (r = 0 /\ d' = d /\ no_inodes \/ 0 < r < fs_ncg f * fs_ipg f /\ ino_set f d d' r true).
Proof using Hf Hd.
  clear Hpip Hcd. intros Hcg Hp Hm. destruct (fo_ncg f Hf) as [Hncg _]. destruct (fo_ipg f Hf) as (Hipg & _).
  destruct (hashalloc_spec (Allocator0 := nodealloccg_allocator f read Hf mode) Hncg d cg ipref Hd Hcg Hp Hm) as (r & d' & E & Hd' & Hr).
  exists r, d'. split; [exact E|]. split; [done|].
  destruct Hr as [(-> & <- & Hno)|[Hr Ht] ].
  - left. conj; try done. intros i Hi Hri Hroom.
    destruct (decide (i = cg)) as [->|Hne]; [eapply (Hno cg ipref)|eapply (Hno i 0)]; [by left|done|by right|done].
  - right. split; [|done]. destruct Ht as (Hu & _). unfold isused in Hu. destruct (group d (r / fs_ipg f)) as [c|] eqn:Hg; [|done].
    pose proof (group_in f d _ c Hd Hg) as Hi.
    pose proof (Z.div_mod r (fs_ipg f) ltac:(lia)). pose proof (Z.mod_pos_bound r (fs_ipg f) ltac:(lia)). nia.
Qed.

(** The result [(e, ip', m')]; [vget] is what [VFS_VGET] does. *)
Definition inode_answer (vget : Z -> Z + inode) (e : Z) (ip' : option inode) (m' : mounted Q) : Prop :=
  disk_ok f (m_disk m') /\
  (e = ENOSPC /\ ip' = None /\ m_disk m' = d /\ no_inodes \/
   exists ino, 0 < ino < fs_ncg f * fs_ipg f /\ isused f d ino = false /\
     match vget ino with
     | inr ip => e = 0 /\ ino_set f d (m_disk m') ino true /\ exists gen, ip' = Some (Inode (i_number ip) (i_flag ip) (di_mode ip) 0 0 gen (di_db ip)) /\ gen <> 0 /\ gen <> -1
     | inl error => e = error /\ ip' = None /\ forall x, isfree f (m_disk m') x = isfree f d x /\ isused f (m_disk m') x = isused f d x || ((x =? ino) && softdep)
     end).

(** The first inode of a group, and the parent, are in the part that is cleared. *)
Lemma pref_first cg : 0 <= cg < fs_ncg f -> pref_ok f d cg (fs_ipg f * cg).
Proof using Hf Hd.
  clear Hpip Hcd. intros Hcg H2. right. right. intros c Hg. destruct (fo_ipg f Hf) as (Hipg & _). rewrite Z.mul_comm, Z.mod_mul by lia.
  destruct (disk_books f Hf d cg c Hd Hg) as (_ & Hc & _).
  destruct (co_inode _ _ _ Hc) as (_ & _ & _ & _ & Hini). destruct (Hini H2) as (_ & Hro & _). destruct (fo_inopb f Hf). lia.
Qed.

Lemma pref_parent : isused f d (i_number pip) = true -> pref_ok f d (i_number pip / fs_ipg f) (i_number pip).
Proof using Hf.
  clear Hd Hpip Hcd. intros Hu _. right. left. destruct (fo_ipg f Hf) as (Hipg & _). pose proof (Z.div_mod (i_number pip) (fs_ipg f) ltac:(lia)) as E.
  by replace (i_number pip / fs_ipg f * fs_ipg f + i_number pip mod fs_ipg f) with (i_number pip) by lia.
Qed.

Lemma ipref_spec (dir : bool) : (if dir then 0 < fs_avgfilesize t * fs_avgfpdir t < 2 ^ 31 else isused f d (i_number pip) = true) ->
  exists p, (if dir then ffs_dirpref f t m pip vroot rnd else Ret (i_number pip)) = Ret p /\ 0 <= p < fs_ncg f * fs_ipg f /\ ino_to_cg f p = p / fs_ipg f /\ 0 <= p / fs_ipg f < fs_ncg f /\ pref_ok f d (p / fs_ipg f) p.
Proof using Hf Hd Hpip Hcd.
  intros H. destruct (fo_ipg f Hf) as (Hipg & _). destruct dir.
  - destruct (dirpref_spec H) as (cg & Hcg & E). exists (fs_ipg f * cg).
    assert (fs_ipg f * cg / fs_ipg f = cg) as Ediv by (rewrite Z.mul_comm; apply Z.div_mul; lia).
    unfold ino_to_cg. rewrite Z.quot_div_nonneg, Ediv by nia. conj; try done; try nia. by apply pref_first.
  - exists (i_number pip). destruct (ino_group f Hf pip Hpip) as [E Hg]. conj; try done; try lia. by apply pref_parent.
Qed.

Lemma inode_alloc_spec vget : (if Z.land mode IFMT =? IFDIR then 0 < fs_avgfilesize t * fs_avgfpdir t < 2 ^ 31 else isused f d (i_number pip) = true) ->
  (forall n ip, vget n = inr ip -> di_mode ip = 0) -> (forall i, 0 <= i < fs_ncg f -> read i = true) ->
  exists e ip' m', ffs_inode_alloc f t softdep read m pip vroot mode rnd rnd2 vget = Ret (e, ip', m') /\ inode_answer vget e ip' m'.
Proof using Hf Hd Hpip Hcd.
  intros Hpre Hmode Hread. destruct (fo_ipg f Hf) as (Hipg & _ & Hi31). destruct (fo_ncg f Hf) as [Hncg _]. unfold ffs_inode_alloc.
  destruct (Z.eqb_spec (cs_nifree (fs_cstotal (d_fs d))) 0) as [H0|H0].
  { exists ENOSPC, None, m. split; [done|]. split; [done|]. left. conj; try done. by apply no_total. }
  cbv zeta. destruct (ipref_spec _ Hpre) as (p & -> & Hp & Ecg & Hcg & Hpok). cbn [bind].
  assert (u32 (fs_ncg f * fs_ipg f) = fs_ncg f * fs_ipg f) as -> by (apply wrap_small; unfold is_u; nia). rewrite (proj2 (Z.leb_gt _ _)), Ecg by lia.
  set (cg := p / fs_ipg f) in *.
  destruct (lookup_lt_is_Some_2 (fs_contigdirs m) (Z.to_nat cg)) as [x Hx]; [lia|]. rewrite (aget_Some _ cg x) by (done || lia). cbn [bind].
  rewrite (aset_bounds (fs_contigdirs m) cg) by lia. cbn [bind].
  cbn [m_disk set_contigdirs]. destruct (hash_inode cg p Hcg ltac:(lia) Hpok) as (r & d' & -> & Hd' & [(-> & -> & Hno)|[Hr Hset] ]); cbn [bind].
  { change (u32 0 =? 0) with true. cbv iota. eexists _, _, _. split; [done|]. split; [done|]. left. conj; try done. }
  unfold u32. rewrite wrap_small by (unfold is_u; lia). rewrite (proj2 (Z.eqb_neq r 0)) by lia. pose proof Hset as (Hu & Hall & Hfr).
  destruct (vget r) as [error|ip] eqn:Ev.
  - assert (exists d2, (if softdep then Ret d' else ffs_freefile f read false d' r mode) = Ret d2 /\ disk_ok f d2 /\ forall x, isfree f d2 x = isfree f d x /\ isused f d2 x = isused f d x || ((x =? r) && softdep)) as (d2 & -> & Hd2 & Hx2).
    { destruct softdep.
      - exists d'. split; [done|]. split; [done|]. intros y. rewrite Hfr, Hall. split; [done|].
        destruct (Z.eqb_spec y r) as [->|]; [by rewrite Hu|by rewrite orb_false_r].
      - assert (read (r / fs_ipg f) = true) as Hr' by (apply Hread; split; [apply Z.div_pos; lia|apply Z.div_lt_upper_bound; lia]).
        pose proof (freefile_spec f Hf read false d' r mode Hd' ltac:(lia) Hr') as Hfree.
        assert (isused f d' r = true) as Hu' by (by rewrite Hall, Z.eqb_refl). rewrite Hu' in Hfree.
        destruct (Hfree ltac:(lia)) as (d2 & E2 & Hd2 & _ & Hall2 & Hfr2). exists d2. split; [done|]. split; [done|]. intros y.
        rewrite Hfr2, Hfr, Hall2, Hall. split; [done|]. rewrite andb_false_r, orb_false_r. destruct (Z.eqb_spec y r) as [->|]; [by rewrite Hu|done]. }
    cbn [bind]. eexists _, _, _. split; [done|]. split; [done|]. right. exists r. split; [done|]. split; [by rewrite Hu|]. rewrite Ev. done.
  - rewrite (Hmode r ip Ev). cbn [Z.eqb negb]. eexists _, _, _. split; [done|]. split; [done|]. right. exists r. split; [done|].
    split; [by rewrite Hu|]. rewrite Ev. split; [done|]. split; [done|]. eexists. split; [by rewrite (Hmode r ip Ev)|]. apply new_gen_ok.
Qed.
End New.

(** * The free space of a file system

    The totals of the superblock are the number of free fragments and inodes. *)

(** ** Sums *)

Lemma sumn_app h a b : sumn h (a + b) = sumn h a + sumn (fun k => h (Z.of_nat a + k)) b.
Proof.
  induction b as [|b IH]; [rewrite Nat.add_0_r; simpl; lia|]. rewrite Nat.add_succ_r. cbn [sumn]. rewrite IH.
  replace (Z.of_nat a + Z.of_nat b) with (Z.of_nat (a + b)) by lia. lia.
Qed.

Lemma sumn_mul h n k : sumn (fun b => sumn (fun j => h (b * Z.of_nat k + j)) k) n = sumn h (n * k).
Proof.
  induction n as [|n IH]; [done|]. cbn [sumn]. rewrite IH. replace (S n * k)%nat with (n * k + k)%nat by lia. rewrite sumn_app. f_equal.
  apply sumn_ext. intros b _. f_equal. lia.
Qed.

Lemma sumn_add g h n : sumn (fun b => g b + h b) n = sumn g n + sumn h n.
Proof. induction n as [|n IH]; [done|]. cbn [sumn]. rewrite IH. lia. Qed.

Lemma sumn_scale k h n : sumn (fun b => k * h b) n = k * sumn h n.
Proof. induction n as [|n IH]; simpl; [lia|]. rewrite IH. lia. Qed.

(** The entries behind the first [a] are 0. *)
Lemma sumn_cut h a b : (a <= b)%nat -> (forall x, Z.of_nat a <= x < Z.of_nat b -> h x = 0) -> sumn h b = sumn h a.
Proof.
  intros Hab H0. assert (exists k, b = a + k)%nat as [k ->] by (exists (b - a)%nat; lia). rewrite sumn_app.
  enough (sumn (fun j => h (Z.of_nat a + j)) k = 0) by lia.
  rewrite (sumn_ext _ (fun _ => 0)); [clear; induction k; simpl; lia|]. intros x Hx. apply H0. lia.
Qed.

Lemma total_sumn g cgs c0 : total g cgs = sumn (fun i => g (cg_cs (default c0 (cgs !! Z.to_nat i)))) (length cgs).
Proof.
  induction cgs as [|c cgs IH]; [done|]. unfold total in *. rewrite fmap_cons. cbn [foldr length]. rewrite IH.
  change (S (length cgs)) with (1 + length cgs)%nat. rewrite sumn_app. cbn [sumn]. rewrite Z.add_0_l. f_equal.
  apply sumn_ext. intros b Hb. rewrite Z2Nat.inj_add, Nat2Z.id by lia. done.
Qed.

Lemma pop_sumn F m : frag_ok F -> 0 <= m <= whole F -> pop F m = sumn (fun k => one (Z.testbit m k)) (Z.to_nat F).
Proof.
  intros HF Hm. apply Z.eqb_eq.
  apply (for_maps_true (fun F m => pop F m =? sumn (fun k => one (Z.testbit m k)) (Z.to_nat F)) F m); [vm_compute; reflexivity|done|done].
Qed.

Section Total.
Context (f : fs) (Hf : fs_ok f).

Local Notation F := (fs_frag f).

Lemma group_free c : cg_ok f c -> F * cs_nbfree (cg_cs c) + cs_nffree (cg_cs c) = sumn (fun x => one (qbit (cg_blksfree c) x)) (Z.to_nat (fs_fpg f)).
Proof using Hf.
  intros Hc. pose proof (frag_pos F (HF f Hf)) as HF1. destruct (nblk_fpg f Hf) as [En _].
  rewrite (co_nbfree _ _ _ Hc), (co_nffree _ _ _ Hc), <- sumn_scale, <- sumn_add.
  replace (Z.to_nat (fs_fpg f)) with (nblk f * Z.to_nat F)%nat by nia. rewrite <- sumn_mul. apply sumn_ext. intros b Hb. rewrite Z2Nat.id by lia.
  assert (F * one (free_block f c b) + part F (blk F (cg_blksfree c) b) = pop F (blk F (cg_blksfree c) b)) as ->.
  { unfold free_block, part.
    destruct (Z.eqb_spec (blk F (cg_blksfree c) b) (whole F)) as [->|]; cbn [one]; [rewrite pop_whole by (apply HF; done); lia|lia]. }
  rewrite pop_sumn by (apply HF || apply blk_range, HF; done). apply sumn_ext. intros k Hk. rewrite blk_bit by (lia || (apply HF; done)). done.
Qed.

Definition nfree (d : disk) : Z := sumn (fun y => one (isfree f d y)) (Z.to_nat (fs_size f)).

Lemma free_total d : disk_ok f d -> F * cs_nbfree (fs_cstotal (d_fs d)) + cs_nffree (fs_cstotal (d_fs d)) = nfree d /\ 0 <= nfree d <= fs_size f.
Proof using Hf.
  intros Hd. destruct (fo_fs f Hf) as [Hs0 Hfs]. destruct (fo_fpg f Hf) as [Hfpg _]. destruct (fo_ncg f Hf) as [Hncg _].
  pose proof (dk_len _ _ Hd) as Hlen. split.
  2:{ pose proof (sumn_bounds (fun y => one (isfree f d y)) (Z.to_nat (fs_size f)) 1 ltac:(intros; cbv beta; unfold one; case_if; lia)) as H.
  unfold nfree. lia. }
  destruct (d_cgs d) as [|c0 cgs'] eqn:Ecg; [simpl in Hlen; lia|]. rewrite <- Ecg in *.
  rewrite (dk_nbfree _ _ Hd), (dk_nffree _ _ Hd), !(total_sumn _ _ c0), <- sumn_scale, <- sumn_add.
  unfold nfree. rewrite <- (sumn_cut _ (Z.to_nat (fs_size f)) (length (d_cgs d) * Z.to_nat (fs_fpg f))).
  - rewrite <- sumn_mul. apply sumn_ext. intros i Hi. destruct (group_get f d i Hd ltac:(lia)) as (c & Hg & _). pose proof Hg as Hg'.
    unfold group in Hg'. rewrite (proj2 (Z.ltb_ge i 0)) in Hg' by lia. rewrite Hg'. cbn [default].
    destruct (disk_books f Hf d i c Hd Hg) as (_ & Hc & _). change (default c0 (Some c)) with c. rewrite group_free by done. apply sumn_ext.
    intros x Hx. rewrite Z2Nat.id by lia. by rewrite (isfree_group f Hf d i c) by (done || lia).
  - nia.
  - intros x Hx. destruct (isfree f d x) eqn:E; [|done]. apply (isfree_in f Hf d x Hd) in E. lia.
Qed.

(** The counts of a group. *)
Lemma group_bounds d i c : disk_ok f d -> group d i = Some c -> 0 <= cs_nbfree (cg_cs c) <= fs_fpg f / F /\ 0 <= cs_nffree (cg_cs c) <= fs_fpg f /\ 0 <= cs_nifree (cg_cs c) <= fs_ipg f.
Proof using Hf.
  intros Hd Hg. destruct (disk_books f Hf d i c Hd Hg) as (_ & Hc & _). pose proof (nbfree_bounds f _ c Hc) as H1.
  pose proof (nffree_bounds f Hf _ c Hc). pose proof (nblk_fpg f Hf) as [En _]. pose proof (frag_pos F (HF f Hf)).
  destruct (fo_ipg f Hf) as (Hipg & _).
  destruct (co_inode _ _ _ Hc) as (_ & _ & _ & -> & _).
  pose proof (sumn_bounds (fun n => one (negb (qbit (cg_inosused (cg_ino c)) n))) (Z.to_nat (fs_ipg f)) 1 ltac:(intros; cbv beta; unfold one; case_if; lia)).
  rewrite <- En, Z.div_mul by lia. lia.
Qed.
End Total.
