(* ===== verification/FfsSpec.v ===== *)
(** * The allocator of the fast file system

    A test of consistency that computes, the abstract calls, and the properties. *)

From S2P Require Import Prelude Bitmap Ffs FfsFile FfsMap FfsInv FfsCg FfsCluster FfsGrow.

(** * A test of consistency

    [checked] is [disk_ok] with all quantifiers bounded, for file systems of the
    new format with cluster maps: it can be computed. *)

Section Check.
Context (f : fs).

Local Notation F := (fs_frag f).
Local Notation cap := (fs_contigsumsize f).

Definition below (n : Z) (P : Z -> bool) : bool := forallb P (seqZ 0 n).

Lemma below_true n P : below n P = true -> forall x, 0 <= x < n -> P x = true.
Proof using. clear. intros H x Hx. apply (forallb_seqZ P 0 n x H). lia. Qed.

Definition bytes_test (q : list Z) : bool := forallb (fun x => (0 <=? x) && (x <? 256)) q.

Lemma bytes_test_ok q : bytes_test q = true -> bytes_ok q.
Proof using. clear. unfold bytes_test, bytes_ok. rewrite forallb_forall, Forall_forall. intros H x Hx. apply list_elem_of_In, H in Hx. unfold is_u.
lia. Qed.

(** No bit is set behind the end of the map. *)
Lemma qbit_inside q x : 0 <= x -> qbit q x = true -> x < 8 * Z.of_nat (length q).
Proof using.
  clear. intros Hx Hq. destruct (decide (x < 8 * Z.of_nat (length q))) as [|Hge]; [done|]. exfalso. unfold qbit in Hq.
  rewrite lookup_ge_None_2 in Hq; [|apply Nat2Z.inj_le; rewrite Z2Nat.id by dlia; dlia].
  cbn [default] in Hq. change (default 0 (@None Z)) with 0 in Hq. by rewrite Z.bits_0 in Hq.
Qed.

Definition at_is (l : list Z) (i v : Z) : bool := match l !! Z.to_nat i with Some x => x =? v | None => false end.

Lemma at_is_true l i v : at_is l i v = true -> l !! Z.to_nat i = Some v.
Proof using. clear. unfold at_is. destruct (l !! Z.to_nat i); [|done]. by intros ->%Z.eqb_eq. Qed.

Definition frag_test (c : cg) : bool :=
  bytes_test (cg_blksfree c) && (Z.of_nat (length (cg_blksfree c)) =? howmany (fs_fpg f) NBBY) &&
  below (8 * Z.of_nat (length (cg_blksfree c))) (fun x => negb (qbit (cg_blksfree c) x) || (x <? fs_fpg f) && (cg_cgx c * fs_fpg f + x <? fs_size f)) &&
  (cs_nbfree (cg_cs c) =? sumn (fun b => one (free_block f c b)) (nblk f)) && (cs_nffree (cg_cs c) =? sumn (fun b => part F (blk F (cg_blksfree c) b)) (nblk f)) &&
  (Nat.eqb (length (cg_frsum c)) 8) && forallb (fun x => (- 2 ^ 31 <=? x) && (x <? 2 ^ 31)) (cg_frsum c) &&
  below F (fun k => (k =? 0) || at_is (cg_frsum c) k (sumn (fun b => nruns F (blk F (cg_blksfree c) b) k) (nblk f))) &&
  (0 <=? cg_rotor c) && (cg_rotor c <? fs_fpg f) && (0 <=? cg_frotor c) && (cg_frotor c <? fs_fpg f).

Definition cluster_test (c : cg) : bool :=
  bytes_test (cg_clustersfree c) && (0 <=? cg_nclusterblks c) && (cg_nclusterblks c <? 2 ^ 30) && (cg_nclusterblks c <=? 8 * Z.of_nat (length (cg_clustersfree c))) &&
  (Z.of_nat (length (cg_clustersum c)) =? cap + 1) &&
  below (cap + 1) (fun k => (k =? 0) || at_is (cg_clustersum c) k (clusters cap (cbits (cg_clustersfree c) (cg_nclusterblks c)) k)) &&
  (cg_nclusterblks c <=? Z.of_nat (nblk f)) && below (cg_nclusterblks c) (fun b => eqb (qbit (cg_clustersfree c) b) (free_block f c b)) &&
  below (Z.of_nat (nblk f)) (fun b => (fs_size f <? cg_cgx c * fs_fpg f + (b + 1) * F) || (b <? cg_nclusterblks c)).

Definition inode_test (c : cg) : bool :=
  let ino := cg_ino c in
  bytes_test (cg_inosused ino) && (8 * Z.of_nat (length (cg_inosused ino)) =? fs_ipg f) && (0 <=? cg_irotor ino) && (cg_irotor ino <? fs_ipg f) &&
  (cs_nifree (cg_cs c) =? sumn (fun n => one (negb (qbit (cg_inosused ino) n))) (Z.to_nat (fs_ipg f))) &&
  below (8 * Z.of_nat (length (cg_inosused ino))) (fun x => negb (qbit (cg_inosused ino) x) || (x <? cg_initediblk ino)) &&
  (cg_irotor ino <=? cg_initediblk ino) && (cg_ffs2_niblk ino =? fs_ipg f).

Ltac split_test H := repeat (apply andb_true_iff in H as [H ?]).

Lemma cg_test_ok c : fs_magic f = FS_UFS2_MAGIC -> frag_test c = true -> cluster_test c = true -> inode_test c = true -> cg_ok f c.
Proof using.
  intros Hm Ha Hb Hc. unfold frag_test in Ha. unfold cluster_test in Hb. unfold inode_test in Hc. cbv zeta in Hc. split_test Ha. split_test Hb.
  split_test Hc.
  split; try lia.
  - split; [by apply bytes_test_ok|lia].
  - intros x Hx Hq. pose proof (qbit_inside _ x Hx Hq) as Hin.
    match goal with H : below _ (fun x => negb (qbit (cg_blksfree c) x) || _) = true |- _ => pose proof (below_true _ _ H x ltac:(lia)) as Ht end.
    cbv beta in Ht. rewrite Hq in Ht. cbn [negb orb] in Ht. lia.
  - split; [by apply Nat.eqb_eq|]. split.
    + apply Forall_forall. intros x Hx.
      match goal with H : forallb _ (cg_frsum c) = true |- _ => rewrite forallb_forall in H; apply list_elem_of_In, H in Hx end. unfold is_s.
      simpl Z.sub. lia.
    + intros k Hk. match goal with H : below F _ = true |- _ => pose proof (below_true _ _ H k ltac:(lia)) as Ht end. cbv beta in Ht.
      rewrite (proj2 (Z.eqb_neq k 0)) in Ht by lia. by apply at_is_true.
  - right. split; [split; [by apply bytes_test_ok|]; split; [lia|]; split; [lia|]; split; [lia|]|].
    + intros k Hk. match goal with H : below (cap + 1) _ = true |- _ => pose proof (below_true _ _ H k ltac:(lia)) as Ht end. cbv beta in Ht.
      rewrite (proj2 (Z.eqb_neq k 0)) in Ht by lia. by apply at_is_true.
    + split; [lia|].
      split; [intros b Hb'; apply eqb_prop; match goal with H : below (cg_nclusterblks c) _ = true |- _ => exact (below_true _ _ H b Hb') end|].
      intros b Hb' Hend. match goal with H : below (Z.of_nat (nblk f)) _ = true |- _ => pose proof (below_true _ _ H b Hb') as Ht end. cbv beta in Ht.
      lia.
  - by left.
  - split; [by apply bytes_test_ok|]. split; [lia|]. split; [lia|]. split; [lia|]. intros _. split; [|lia].
    intros x Hx Hq. pose proof (qbit_inside _ x Hx Hq) as Hin.
    match goal with H : below _ (fun x => negb (qbit (cg_inosused (cg_ino c)) x) || _) = true |- _ => pose proof (below_true _ _ H x ltac:(lia)) as Ht end.
    cbv beta in Ht. rewrite Hq in Ht. cbn [negb orb] in Ht. lia.
Qed.

(** Group [i] of a file system with the superblock [s]. *)
Definition group_test (s : incore) (i : Z) (c : cg) : bool :=
  frag_test c && cluster_test c && inode_test c && (cg_cgx c =? i) &&
  match fs_maxcluster s !! Z.to_nat i with
  | Some m => (0 <=? m) && below (cap + 1) (fun k => (k <=? m) || (clusters cap (cbits (cg_clustersfree c) (cg_nclusterblks c)) k =? 0))
  | None => false
  end && (negb (i =? 0) || negb (qbit (cg_blksfree c) 0) && qbit (cg_inosused (cg_ino c)) 0).

Fixpoint groups_test (s : incore) (i : Z) (l : list cg) : bool :=
  match l with [] => true | c :: l => group_test s i c && groups_test s (i + 1) l end.

Definition csum_eqb (a b : csum) : bool := (cs_ndir a =? cs_ndir b) && (cs_nbfree a =? cs_nbfree b) && (cs_nifree a =? cs_nifree b) && (cs_nffree a =? cs_nffree b).

Fixpoint csums_eqb (a b : list csum) : bool :=
  match a, b with [], [] => true | x :: a, y :: b => csum_eqb x y && csums_eqb a b | _, _ => false end.

Definition disk_test (d : disk) : bool :=
  (fs_magic f =? FS_UFS2_MAGIC) && (Z.of_nat (length (d_cgs d)) =? fs_ncg f) && groups_test (d_fs d) 0 (d_cgs d) && csums_eqb (fs_csp (d_fs d)) (cg_cs <$> d_cgs d) &&
  (cs_nbfree (fs_cstotal (d_fs d)) =? total cs_nbfree (d_cgs d)) && (cs_nffree (fs_cstotal (d_fs d)) =? total cs_nffree (d_cgs d)) &&
  (cs_nifree (fs_cstotal (d_fs d)) =? total cs_nifree (d_cgs d)) && Nat.eqb (length (fs_maxcluster (d_fs d))) (length (d_cgs d)).

Lemma groups_test_at s i l j c : groups_test s i l = true -> l !! j = Some c -> group_test s (i + Z.of_nat j) c = true.
Proof using.
  revert i j. induction l as [|x l IH]; intros i j Ht Hj; [done|]. cbn [groups_test] in Ht. apply andb_true_iff in Ht as [H1 H2].
  destruct j as [|j]; [injection Hj as ->; by rewrite Z.add_0_r|].
  replace (i + Z.of_nat (S j)) with (i + 1 + Z.of_nat j) by lia. by apply IH.
Qed.

Lemma csums_eqb_eq a b : csums_eqb a b = true -> a = b.
Proof using.
  clear. revert b. induction a as [|x a IH]; intros [|y b] H; try done. cbn [csums_eqb] in H. apply andb_true_iff in H as [H1 H2]. rewrite (IH b H2).
  f_equal. unfold csum_eqb in H1. destruct x, y. cbn in H1. f_equal; lia.
Qed.

Theorem disk_test_ok d : disk_test d = true -> disk_ok f d.
Proof using.
  unfold disk_test. intros H. split_test H. split; try lia.
  - intros i c Hc. match goal with H : groups_test _ _ _ = true |- _ => pose proof (groups_test_at _ _ _ _ _ H Hc) as Ht end. rewrite Z.add_0_l in Ht.
    unfold group_test in Ht. apply andb_true_iff in Ht as [Ht Hz]. apply andb_true_iff in Ht as [Ht Hmx]. do 3 apply andb_true_iff in Ht as [Ht ?].
    assert (cg_cgx c = Z.of_nat i) as Ex by lia. split; [by apply cg_test_ok; [lia|..]|]. split; [done|]. split.
    + right. rewrite Ex. destruct (fs_maxcluster (d_fs d) !! Z.to_nat (Z.of_nat i)) as [m|]; [|done]. exists m. split; [done|].
      apply andb_true_iff in Hmx as [Hm0 Hmx].
      intros k Hk. pose proof (below_true _ _ Hmx k ltac:(lia)) as Hb. cbv beta in Hb. lia.
    + intros Hi0. rewrite (proj2 (Z.eqb_eq _ 0) Hi0) in Hz. cbn [negb orb] in Hz. apply andb_true_iff in Hz as [Hz1 Hz2].
      split; [by apply negb_true_iff|done].
  - by apply csums_eqb_eq.
  - by apply Nat.eqb_eq.
Qed.
End Check.

(** * What the allocator promises

    To its callers the file system is two sets, of free fragments and of used
    inodes.  [promised] says what a call may do to them, and [legal] which calls are
    allowed; a program that is legal by these rules runs, and does what they say. *)

Section Calls.
Context (f : fs) (stray : Z -> Z) (wild : Z) (diag : bool) (read : Z -> bool).

Local Notation F := (fs_frag f).

Inductive call :=
| Alloc (cg bpref n : Z)        (* n fragments of one block *)
| Cluster (cg bpref len : Z)    (* len blocks *)
| Extend (bprev o n : Z)        (* n fragments instead of o *)
| Free (bno n : Z)
| NewInode (cg ipref mode : Z)
| FreeInode (ino mode : Z).

Definition exec (c : call) (d : disk) : outcome (Z * disk) :=
  match c with
  | Alloc cg bpref n => ffs_hashalloc (fs_ncg f) (ffs_alloccg f stray wild read) d cg bpref (n * fs_fsize f)
  | Cluster cg bpref len => ffs_hashalloc (fs_ncg f) (ffs_clusteralloc f stray wild diag read) d cg bpref len
  | Extend x o n => ffs_fragextend f read d (s32 (dtog f x)) x (o * fs_fsize f) (n * fs_fsize f)
  | Free x n => let! d := ffs_blkfree f stray wild read d x (n * fs_fsize f) in Ret (0, d)
  | NewInode cg ipref mode => ffs_hashalloc (fs_ncg f) (ffs_nodealloccg f read) d cg ipref mode
  | FreeInode ino mode => let! d := ffs_freefile f read false d ino mode in Ret (0, d)
  end.

(** ** The two sets *)

Record space := Space { sp_free : Z -> bool; sp_used : Z -> bool }.

Definition abs (d : disk) : space := Space (isfree f d) (isused f d).

(** All of [n] fragments at [x] are free. *)
Definition all_free (a : space) (x n : Z) : Prop := forall y, between x n y -> sp_free a y = true.

(** [a'] is [a] but for [n] fragments at [x], which are [v]. *)
Definition frags_set (a a' : space) (x n : Z) (v : bool) : Prop :=
  (forall y, sp_free a' y = if bool_decide (between x n y) then v else sp_free a y) /\ forall i, sp_used a' i = sp_used a i.

Definition inode_set (a a' : space) (ino : Z) (v : bool) : Prop :=
  (forall y, sp_free a' y = sp_free a y) /\ forall i, sp_used a' i = if i =? ino then v else sp_used a i.

Definition unchanged (a a' : space) : Prop := (forall y, sp_free a' y = sp_free a y) /\ forall i, sp_used a' i = sp_used a i.

Definition legal (a : space) (c : call) : Prop :=
  match c with
  | Alloc cg bpref n => 0 <= cg < fs_ncg f /\ 0 <= bpref /\ 1 <= n <= F
  | Cluster cg bpref len => 0 <= cg < fs_ncg f /\ 0 <= bpref /\ 1 <= len <= fs_contigsumsize f
  | Extend x o n => 0 <= x < fs_size f /\ 1 <= o < n /\ n <= F /\ x mod F + o <= F /\ forall y, between x o y -> sp_free a y = false
  | Free x n => 0 < x /\ extent_of f x n /\ x + n <= fs_size f /\ read (x / fs_fpg f) = true /\ forall y, between x n y -> sp_free a y = false
  | NewInode cg ipref mode => 0 <= cg < fs_ncg f /\ 0 <= ipref /\ (ipref = 0 \/ sp_used a (cg * fs_ipg f + ipref mod fs_ipg f) = true)
  | FreeInode ino mode => 0 < ino < fs_ncg f * fs_ipg f /\ read (ino / fs_ipg f) = true /\ sp_used a ino = true
  end.

(** What a call may answer, and do. *)
Definition promised (c : call) (a : space) (r : Z) (a' : space) : Prop :=
  match c with
  | Alloc cg bpref n =>
      r = 0 /\ unchanged a a' /\ (forall x, 0 <= x / fs_fpg f < fs_ncg f -> read (x / fs_fpg f) = true -> extent_of f x n -> ~ all_free a x n) \/
      0 < r /\ extent_of f r n /\ all_free a r n /\ frags_set a a' r n false
  | Cluster cg bpref len =>
      r = 0 /\ unchanged a a' /\ (forall i b, 0 <= i < fs_ncg f -> i <> cg -> read i = true -> 0 <= b -> b + len <= Z.of_nat (nblk f) -> ~ all_free a (i * fs_fpg f + b * F) (len * F)) \/
      r <> 0 /\ r mod F = 0 /\ all_free a r (len * F) /\ frags_set a a' r (len * F) false
  | Extend x o n =>
      r = 0 /\ unchanged a a' /\ (read (x / fs_fpg f) = true -> x mod F + n <= F -> ~ all_free a (x + o) (n - o)) \/
      r = x /\ x mod F + n <= F /\ all_free a (x + o) (n - o) /\ frags_set a a' (x + o) (n - o) false
  | Free x n => r = 0 /\ frags_set a a' x n true
  | NewInode cg ipref mode =>
      r = 0 /\ unchanged a a' /\ (forall i, 0 <= i < fs_ncg f * fs_ipg f -> read (i / fs_ipg f) = true -> sp_used a i = true) \/
      0 < r < fs_ncg f * fs_ipg f /\ sp_used a r = false /\ inode_set a a' r true
  | FreeInode ino mode => r = 0 /\ inode_set a a' ino false
  end.

(** A caller: a tree of calls that goes on with the answers. *)
Inductive prog := Done | Do (c : call) (k : Z -> prog).

Fixpoint run (p : prog) (d : disk) : outcome disk :=
  match p with Done => Ret d | Do c k => let! (r, d) := exec c d in run (k r) d end.

Fixpoint legal_prog (p : prog) (a : space) : Prop :=
  match p with Done => True | Do c k => legal a c /\ forall r a', promised c a r a' -> legal_prog (k r) a' end.

Fixpoint may_reach (p : prog) (a a' : space) : Prop :=
  match p with Done => a' = a | Do c k => exists r a1, promised c a r a1 /\ may_reach (k r) a1 a' end.

(** ** The code keeps the promise *)

Context (Hf : fs_ok f).

Lemma took_set d d' x n : took f d d' x n -> all_free (abs d) x n /\ frags_set (abs d) (abs d') x n false.
Proof using.
  intros (Hfree & Ht & Hu). split; [done|]. split; [|done]. intros y. cbn [abs sp_free]. rewrite Ht.
  case_bool_decide; [by rewrite andb_false_r|by rewrite andb_true_r].
Qed.

Lemma ino_set_set d d' n v : ino_set f d d' n v -> sp_used (abs d) n = negb v /\ inode_set (abs d) (abs d') n v.
Proof using. by intros (Hn & Hu & Hx). Qed.

Lemma unchanged_refl a : unchanged a a.
Proof using. by split. Qed.

Definition keeps (d : disk) (c : call) : Prop := exists r d', exec c d = Ret (r, d') /\ disk_ok f d' /\ promised c (abs d) r (abs d').

Lemma alloc_keeps d cg bpref n : disk_ok f d -> legal (abs d) (Alloc cg bpref n) -> keeps d (Alloc cg bpref n).
Proof using Hf.
  intros Hd (Hcg & Hp & Hn). destruct (hash_blocks f stray wild read Hf d cg bpref n Hd Hcg Hp Hn) as (r & d' & E & Hd' & Hr). exists r, d'.
  split; [exact E|]. split; [done|].
  destruct Hr as [(-> & -> & Hfull)|(Hr & He & Ht)]; [left|right].
  - split; [done|]. split; [apply unchanged_refl|]. intros x Hi Hrd Hx Hall. apply (Hfull _ Hi Hrd). by exists x.
  - destruct (took_set _ _ _ _ Ht). done.
Qed.

Lemma cluster_keeps d cg bpref len : disk_ok f d -> legal (abs d) (Cluster cg bpref len) -> keeps d (Cluster cg bpref len).
Proof using Hf.
  intros Hd (Hcg & Hp & Hn). destruct (fo_ncg f Hf) as [Hncg _].
  destruct (hashalloc_spec (Allocator0 := clusteralloc_allocator f stray wild diag read Hf len Hn) Hncg d cg bpref Hd Hcg Hp I) as (r & d' & E & Hd' & Hr).
  exists r, d'. split; [exact E|]. split; [done|].
  destruct Hr as [(-> & Es & Hno)|(Hr & Ha & Ht)]; [left|right].
  - split; [done|]. split; [split; intros y; cbn [abs sp_free sp_used]; unfold isfree, isused, group; by rewrite Es|].
    intros i b Hi Hne Hrd Hb Hl Hall. apply (Hno i 0); [by right|]. split; [done|]. exists b. split; [|done]. unfold start.
    rewrite Z.div_0_l, Z.mod_0_l, Z.div_0_l by (destruct (fo_fpg f Hf), (frag_pos F (HF f Hf)); lia). by case_if.
  - destruct (took_set _ _ _ _ Ht). done.
Qed.

Lemma extend_keeps d x o n : disk_ok f d -> legal (abs d) (Extend x o n) -> keeps d (Extend x o n).
Proof using Hf.
  intros Hd (Hx & Ho & Hn & Hl & Hu). destruct (in_range f Hf x Hx) as [Hi Ei]. destruct (group_get f d _ Hd Hi) as (c & Hg & _).
  destruct (extend_call f read Hf d _ x o n c Hd Hg) as (r & d' & E & Hd' & Hr); [lia|by rewrite Ei|done..|]. exists r, d'. split; [exact E|].
  split; [done|].
  destruct Hr as [(-> & -> & Hno)|(-> & Hin & _ & Ht)]; [left|right].
  - split; [done|]. split; [apply unchanged_refl|]. intros Hrd H1 H2. by apply (Hno Hrd).
  - destruct (took_set _ _ _ _ Ht). done.
Qed.

Lemma free_keeps d x n : disk_ok f d -> legal (abs d) (Free x n) -> keeps d (Free x n).
Proof using Hf.
  intros Hd (Hx & He & Hl & Hrd & Hu). destruct (blkfree_spec f stray wild read Hf d x n Hd Hx He Hl Hrd Hu) as (d' & E & Hd' & _ & _ & Hg & Hi).
  exists 0, d'. cbn [exec]. rewrite E. split; [done|]. split; [done|]. split; [done|]. split; [|done]. intros y. cbn [abs sp_free]. rewrite Hg.
  case_bool_decide; [apply orb_true_r|apply orb_false_r].
Qed.

Lemma new_inode_keeps d cg ipref mode : disk_ok f d -> legal (abs d) (NewInode cg ipref mode) -> keeps d (NewInode cg ipref mode).
Proof using Hf.
  intros Hd (Hcg & Hp & Hm). assert (pref_ok f d cg ipref) as Hpo by (intros _; tauto).
  destruct (hash_inode f read Hf (Mounted d 0 [] 0 tt) mode Hd cg ipref Hcg Hp Hpo) as (r & d' & E & Hd' & Hr). exists r, d'. split; [exact E|].
  split; [done|].
  destruct Hr as [(-> & -> & Hno)|(Hr & Ht)]; [left|right; by destruct (ino_set_set _ _ _ _ Ht)].
  split; [done|]. split; [apply unchanged_refl|]. intros i Hi Hrd. cbn [abs sp_used]. destruct (isused f d i) eqn:Eu; [done|]. exfalso.
  destruct (fo_ipg f Hf) as (Hipg & _).
  apply (Hno (i / fs_ipg f)); [|done|by exists i]. split; [apply Z.div_pos; lia|apply Z.div_lt_upper_bound; lia].
Qed.

Lemma free_inode_keeps d ino mode : disk_ok f d -> legal (abs d) (FreeInode ino mode) -> keeps d (FreeInode ino mode).
Proof using Hf.
  intros Hd (Hi & Hrd & Hu). pose proof (freefile_spec f Hf read false d ino mode Hd ltac:(lia) Hrd) as H. cbn [abs sp_used] in Hu. rewrite Hu in H.
  destruct (H ltac:(lia)) as (d' & E & Hd' & Hs).
  exists 0, d'. cbn [exec]. rewrite E. split; [done|]. split; [done|]. split; [done|]. by apply ino_set_set.
Qed.

Lemma call_keeps d c : disk_ok f d -> legal (abs d) c -> keeps d c.
Proof using Hf.
  destruct c; auto using alloc_keeps, cluster_keeps, extend_keeps, free_keeps, new_inode_keeps, free_inode_keeps.
Qed.

Lemma run_keeps p d : disk_ok f d -> legal_prog p (abs d) -> exists d', run p d = Ret d' /\ disk_ok f d' /\ may_reach p (abs d) (abs d').
Proof using Hf.
  revert d. induction p as [|c k IH]; intros d Hd Hl; cbn [run may_reach]; [by exists d|]. destruct Hl as [Hc Hk].
  destruct (call_keeps d c Hd Hc) as (r & d1 & -> & Hd1 & Hp). cbn [bind]. destruct (IH r d1 Hd1 (Hk _ _ Hp)) as (d' & E & Hd' & Hm). exists d'.
  split; [done|]. split; [done|]. by exists r, (abs d1).
Qed.
End Calls.

(** * The properties of the FFS allocator *)

(** ** A small file system

    Two groups of four blocks with four fragments; the second one ends in the
    middle of a block. *)

Definition tiny : fs := Fs 2 4096 1024 4 10 2 1 1023 16 8 4 30 2 FS_UFS2_MAGIC 0 0 0 0 0 0.

Definition tiny_cg0 : cg := Cg 0 (Csum 1 2 5 2) 0 0 [0; 0; 1; 0; 0; 0; 0; 0] [] [] [0xc0; 0xff] [0; 0; 1] [12] 4 (Inodes 2 [0x07] 8 4).
Definition tiny_cg1 : cg := Cg 1 (Csum 0 1 8 4) 0 0 [0; 1; 0; 1; 0; 0; 0; 0] [] [] [0xef; 0x20] [0; 1; 0] [1] 3 (Inodes 0 [0] 8 4).

Definition tiny_disk : disk := Disk (Incore (Csum 1 3 13 6) [Csum 1 2 5 2; Csum 0 1 8 4] [2; 1] false) [tiny_cg0; tiny_cg1].

Definition tiny_tuning : tuning := Tuning 5 28 16384 64 8 512.

Definition tiny_mounted : mounted Z := Mounted tiny_disk FS_OPTTIME [0; 0] 0 100.

(** A quota of sectors; the error is [EDQUOT]. *)
Definition tiny_quota (q n : Z) : Z * Z := if n <=? q then (0, q - n) else (69, q).

Definition tiny_inode : inode := Inode 2 0 0 0 0 1 [4; 0].

Lemma tiny_ok : fs_ok tiny.
Proof. split; cbn; (repeat split; try lia; try done). by right; right; left. Qed.

Lemma tiny_disk_ok : disk_ok tiny tiny_disk.
Proof. apply disk_test_ok. vm_compute. reflexivity. Qed.

(** ** All calls together *)

Section Spec.
Context (f : fs) (t : tuning) (ufs1 diag softdep : bool) (stray : Z -> Z) (wild : Z) (read : Z -> bool).
Context {Q : Type} (quota_alloc : Q -> Z -> Z * Q) (quota_free : Q -> Z -> Q).

Local Notation F := (fs_frag f).

(** C6. A caller of the allocator sees two sets, of free fragments and of used
    inodes.  Whatever sequence of allocations of fragments, blocks, clusters and
    inodes, extensions and releases it makes, going on with the answers, as long as
    it frees only what is in use, in groups that can be read, and prefers inode 0
    or one in use: no call panics or leaves its arrays, each one does
    to the sets what [promised] says (an allocation takes free space of the size
    and alignment asked for, and fails only when no readable group has any), and
    the maps, counts, cluster summaries and totals agree with each other at the
    end. *)
Theorem ffs_calls_refine p d : fs_ok f -> disk_ok f d -> legal_prog f read p (abs f d) ->
  exists d', run f stray wild diag read p d = Ret d' /\ disk_ok f d' /\ may_reach f read p (abs f d) (abs f d').
Proof using. intros Hf Hd Hl. by apply run_keeps. Qed.

(** C10. After any legal sequence of calls the totals of the superblock are exact:
    the free blocks times the fragments of a block, and the free fragments of
    broken blocks, are the fragments that are free, at most all of them; and the
    counts of a group are within its size, so that none of the 32 bit counters
    wraps. *)
Theorem ffs_totals_bounded p d : fs_ok f -> disk_ok f d -> legal_prog f read p (abs f d) ->
  exists d', run f stray wild diag read p d = Ret d' /\
    F * cs_nbfree (fs_cstotal (d_fs d')) + cs_nffree (fs_cstotal (d_fs d')) = nfree f d' /\ 0 <= nfree f d' <= fs_size f /\
    forall i c, group d' i = Some c -> 0 <= cs_nbfree (cg_cs c) <= fs_fpg f / F /\ 0 <= cs_nffree (cg_cs c) <= fs_fpg f /\ 0 <= cs_nifree (cg_cs c) <= fs_ipg f.
Proof using.
  intros Hf Hd Hl. destruct (run_keeps f stray wild diag read Hf p d Hd Hl) as (d' & E & Hd' & _). exists d'. split; [done|].
  destruct (free_total f Hf d' Hd') as [H1 H2]. split; [done|]. split; [done|].
  intros i c Hg. by apply (group_bounds f Hf d' i).
Qed.

(** ** Fragments and blocks *)

(** C15. [ffs_alloc] answers a request for [n] fragments with a free run of [n]
    fragments of one block, takes exactly them, and charges the inode and the quota;
    or it answers an error and changes neither the disk nor the inode.  A request
    of the super-user within the quota fails only with [ENOSPC], when no group that
    can be read has such a run. *)
Theorem ffs_alloc_answers m ip bpref n uid : fs_ok f -> disk_ok f (m_disk m) -> 0 <= bpref -> 1 <= n <= F -> 0 <= i_number ip < fs_ncg f * fs_ipg f ->
  exists e bno m' ip', ffs_alloc f t ufs1 diag stray wild read quota_alloc quota_free m ip bpref (n * fs_fsize f) uid = Ret (e, bno, m', ip') /\ disk_ok f (m_disk m') /\
    (e = 0 /\ 0 < bno /\ takes f (m_disk m) (m_disk m') bno n /\ ip' = charge_blocks ufs1 (btodb (n * fs_fsize f)) ip /\ quota_alloc (m_quota m) (btodb (n * fs_fsize f)) = (0, m_quota m') \/
     e <> 0 /\ bno = 0 /\ m_disk m' = m_disk m /\ ip' = ip /\ (uid = 0 -> fst (quota_alloc (m_quota m) (btodb (n * fs_fsize f))) = 0 -> e = ENOSPC /\ full f read (m_disk m) n)).
Proof using. intros Hf Hd Hb Hn Hi. exact (alloc_spec f t ufs1 diag stray wild read Hf quota_alloc quota_free m ip bpref n uid Hd Hb Hn Hi). Qed.

(** C16. When all groups can be read, [ffs_realloccg] gives a file [n] fragments for the [o] at [x], in place or
    elsewhere: the new ones were free or its own, the old ones are freed (later,
    with soft updates) and nothing else changes; the buffer has the new address
    and size, with zeroes behind the old data.  When it fails, disk, inode and
    buffer are as before; a request of the super-user within the quota fails only
    when the buffer cannot be read or no group has a free block. *)
Theorem ffs_realloccg_moves m ip lbprev bpref x o n uid bpp : fs_ok f -> disk_ok f (m_disk m) -> (forall i, 0 <= i < fs_ncg f -> read i = true) ->
  0 < x -> extent_of f x o -> x + o <= fs_size f -> (forall y, between x o y -> isfree f (m_disk m) y = false) -> o < n -> n <= F ->
  fs_optim m = FS_OPTTIME \/ fs_optim m = FS_OPTSPACE -> 0 <= lbprev -> di_db ip !! Z.to_nat lbprev = Some x -> 0 <= bpref -> buf_room bpp (fsbtodb f x) (n * fs_fsize f) ->
  exists e bno bp' m' ip', ffs_realloccg f t ufs1 diag softdep stray wild read quota_alloc quota_free m ip lbprev bpref (o * fs_fsize f) (n * fs_fsize f) uid bpp = Ret (e, bno, bp', m', ip') /\
    realloc_answer f ufs1 softdep read quota_alloc (m_disk m) x o n m ip bpp uid e bno bp' m' ip'.
Proof using. intros Hf Hd Hr Hx He Hend Hu Hon HnF Ho Hl Hdb Hp Hb. by apply realloccg_spec. Qed.

(** C24. [ffs_blkfree] of [n] fragments of one block that are all in use makes
    exactly them free; when one of them is free already it panics. *)
Theorem ffs_blkfree_exact d x n : fs_ok f -> disk_ok f d -> 0 < x -> extent_of f x n -> x + n <= fs_size f -> read (x / fs_fpg f) = true ->
  ((forall y, between x n y -> isfree f d y = false) -> exists d', ffs_blkfree f stray wild read d x (n * fs_fsize f) = Ret d' /\ disk_ok f d' /\ gives f d d' x n) /\
  ((exists y, between x n y /\ isfree f d y = true) -> exists msg, ffs_blkfree f stray wild read d x (n * fs_fsize f) = Panic msg).
Proof using.
  intros Hf Hd Hx He Hend Hr. split; [by apply blkfree_spec|]. intros (y & Hy & Hfr). eapply blkfree_panics; (done || lia).
Qed.

(** C25. [ffs_clusteralloc] finds [len] free blocks in a row in a group that can
    be read exactly when it has them at or behind the preferred place (the block
    of [pref] when that is in the group, the start of the group otherwise).  It
    takes the first such blocks and nothing else; the cluster summary it
    searches by, and corrects on the way, never misses any. *)
Theorem ffs_clusteralloc_finds d i pref len : fs_ok f -> disk_ok f d -> 0 <= i < fs_ncg f -> 0 <= pref -> 1 <= len <= fs_contigsumsize f ->
  exists r d', ffs_clusteralloc f stray wild diag read d i pref len = Ret (r, d') /\ disk_ok f d' /\
    (r = 0 /\ d_cgs d' = d_cgs d /\ (read i = true -> ~ cluster_room f d i pref len) \/
     r <> 0 /\ r / fs_fpg f = i /\ r mod F = 0 /\ took f d d' r (len * F) /\ first_cluster f d i pref len r).
Proof using. intros Hf Hd Hi Hp Hl. exact (clusteralloc_spec f stray wild diag read Hf d i pref len Hd Hi Hp Hl). Qed.

(** C33. [ffs_fragacct] counts by tables; for each block size and each map of a
    block it adds to entry [k] of the summary the number of maximal runs of [k]
    free fragments of the block, and changes no other entry. *)
Theorem ffs_fragacct_counts m cnt l : frag_ok F -> 0 <= m <= whole F -> length l = 8%nat -> Forall (is_s 32) l ->
  exists l', ffs_fragacct f m l cnt = Ret l' /\ length l' = length l /\
    forall k x, l !! k = Some x -> l' !! k = Some (if bool_decide (1 <= Z.of_nat k < F) then s32 (x + cnt * nruns F m (Z.of_nat k)) else x).
Proof using. intros HF Hm Hl Hs. exact (proj1 (returns_Ret _ _) (fragacct_spec f m cnt l HF Hm Hl Hs)). Qed.

(** ** Inodes *)

(** C29. When all groups can be read, a number that is free has an inode of mode
    0, and for a directory the expected size of a directory is positive and fits
    an [int]: [ffs_inode_alloc] takes a free inode, and answers [ENOSPC] only when no
    group has one.  The new inode has no blocks, no flags and a generation that is
    neither 0 nor -1; when it cannot be read its number is given back (later, with
    soft updates) and the error returned. *)
Theorem ffs_inode_alloc_answers (m : mounted Q) pip vroot mode rnd rnd2 vget : fs_ok f -> disk_ok f (m_disk m) -> 0 <= i_number pip < fs_ncg f * fs_ipg f -> Z.of_nat (length (fs_contigdirs m)) = fs_ncg f ->
  (if Z.land mode IFMT =? IFDIR then 0 < fs_avgfilesize t * fs_avgfpdir t < 2 ^ 31 else isused f (m_disk m) (i_number pip) = true) ->
  (forall n ip, vget n = inr ip -> di_mode ip = 0) -> (forall i, 0 <= i < fs_ncg f -> read i = true) ->
  exists e ip' m', ffs_inode_alloc f t softdep read m pip vroot mode rnd rnd2 vget = Ret (e, ip', m') /\ inode_answer f softdep read m vget e ip' m'.
Proof using. intros Hf Hd Hi Hc Ht Hv Hr. by apply inode_alloc_spec. Qed.
End Spec.

(** ** The properties at the small file system *)

Definition tiny_prog : prog :=
  Do (Alloc 1 0 3) (fun r => if r =? 0 then Done else Do (Free r 3) (fun _ => Do (NewInode 1 0 0) (fun ino => if ino =? 0 then Done else Do (FreeInode ino 0) (fun _ => Done)))).

Lemma tiny_legal : legal_prog tiny (fun _ => true) tiny_prog (abs tiny tiny_disk).
Proof.
  cbn [legal_prog tiny_prog]. split; [cbn; lia|]. intros r a [(-> & _)|(Hr & He & Hall & Hset)]; [done|]. rewrite (proj2 (Z.eqb_neq r 0)) by lia.
  cbn [legal_prog]. split.
  - split; [done|]. split; [done|]. split; [|split; [done|]; intros y Hy; rewrite (proj1 Hset y); by rewrite bool_decide_eq_true_2].
    pose proof (isfree_in tiny tiny_ok tiny_disk (r + 2) tiny_disk_ok (Hall (r + 2) ltac:(unfold between; lia))). lia.
  - intros r' a' _. split; [cbn; lia|]. intros ino a'' [(-> & _)|(Hi & Hu & _ & Hn)]; [done|]. rewrite (proj2 (Z.eqb_neq ino 0)) by lia.
    cbn [legal_prog]. split; [|done]. split; [done|]. split; [done|]. by rewrite Hn, Z.eqb_refl.
Qed.

Lemma ffs_calls_refine_witness : exists d', run tiny (fun _ => 0) 0 true (fun _ => true) tiny_prog tiny_disk = Ret d' /\ disk_ok tiny d' /\ may_reach tiny (fun _ => true) tiny_prog (abs tiny tiny_disk) (abs tiny d').
Proof. exact (ffs_calls_refine tiny true (fun _ => 0) 0 (fun _ => true) tiny_prog tiny_disk tiny_ok tiny_disk_ok tiny_legal). Defined.

Lemma ffs_totals_bounded_witness : exists d', run tiny (fun _ => 0) 0 true (fun _ => true) tiny_prog tiny_disk = Ret d' /\ 4 * cs_nbfree (fs_cstotal (d_fs d')) + cs_nffree (fs_cstotal (d_fs d')) = nfree tiny d'.
Proof. destruct (ffs_totals_bounded tiny true (fun _ => 0) 0 (fun _ => true) tiny_prog tiny_disk tiny_ok tiny_disk_ok tiny_legal) as (d' & E & H & _).
exists d'. exact (conj E H). Defined.

Lemma ffs_alloc_answers_witness : exists e bno m' ip',
  ffs_alloc tiny tiny_tuning false true (fun _ => 0) 0 (fun _ => true) tiny_quota (fun q n => q + n) tiny_mounted tiny_inode 6 1024 0 = Ret (e, bno, m', ip') /\ disk_ok tiny (m_disk m').
Proof.
  destruct (ffs_alloc_answers tiny tiny_tuning false true (fun _ => 0) 0 (fun _ => true) tiny_quota (fun q n => q + n) tiny_mounted tiny_inode 6 1 0 tiny_ok tiny_disk_ok) as (e & bno & m' & ip' & E & H & _); [done|cbn; lia|cbn; lia|].
  exists e, bno, m', ip'. exact (conj E H).
Defined.

Lemma tiny_used : forall y, between 4 2 y -> isfree tiny tiny_disk y = false.
Proof. intros y Hy. unfold between in Hy. assert (y = 4 \/ y = 5) as [->| ->] by lia; reflexivity. Qed.

Lemma ffs_realloccg_moves_witness : exists e bno bp' m' ip',
  ffs_realloccg tiny tiny_tuning false true false (fun _ => 0) 0 (fun _ => true) tiny_quota (fun q n => q + n) tiny_mounted tiny_inode 0 8 2048 3072 0 None = Ret (e, bno, bp', m', ip') /\
    realloc_answer tiny false false (fun _ => true) tiny_quota tiny_disk 4 2 3 tiny_mounted tiny_inode None 0 e bno bp' m' ip'.
Proof.
  apply (ffs_realloccg_moves tiny tiny_tuning false true false (fun _ => 0) 0 (fun _ => true) tiny_quota (fun q n => q + n) tiny_mounted tiny_inode 0 8 4 2 3 0 None tiny_ok tiny_disk_ok);
    try exact tiny_used; try done; try lia; try (cbn; lia).
Defined.

Lemma ffs_blkfree_exact_witness : (exists d', ffs_blkfree tiny (fun _ => 0) 0 (fun _ => true) tiny_disk 4 2048 = Ret d' /\ disk_ok tiny d') /\ exists msg, ffs_blkfree tiny (fun _ => 0) 0 (fun _ => true) tiny_disk 4 3072 = Panic msg.
Proof.
  split.
  - destruct (proj1 (ffs_blkfree_exact tiny (fun _ => 0) 0 (fun _ => true) tiny_disk 4 2 tiny_ok tiny_disk_ok ltac:(lia) ltac:(by repeat split) ltac:(cbn; lia) eq_refl) tiny_used) as (d' & E & H & _).
    exists d'. exact (conj E H).
  - refine (proj2 (ffs_blkfree_exact tiny (fun _ => 0) 0 (fun _ => true) tiny_disk 4 3 tiny_ok tiny_disk_ok ltac:(lia) ltac:(by repeat split) ltac:(cbn; lia) eq_refl) _).
    exists 6. split; [unfold between; lia|reflexivity].
Defined.

Lemma ffs_clusteralloc_finds_witness : exists d', ffs_clusteralloc tiny (fun _ => 0) 0 true (fun _ => true) tiny_disk 0 4 2 = Ret (8, d') /\
  disk_ok tiny d' /\ took tiny tiny_disk d' 8 8 /\ first_cluster tiny tiny_disk 0 4 2 8.
Proof.
  destruct (ffs_clusteralloc_finds tiny true (fun _ => 0) 0 (fun _ => true) tiny_disk 0 4 2 tiny_ok tiny_disk_ok ltac:(cbn; lia) ltac:(lia) ltac:(cbn; lia)) as (r & d' & E & H & Hr).
  assert (exists d2, ffs_clusteralloc tiny (fun _ => 0) 0 true (fun _ => true) tiny_disk 0 4 2 = Ret (8, d2)) as [d2 E2] by (eexists; vm_compute; reflexivity).
  rewrite E2 in E. injection E as <- <-. exists d2. split; [exact E2|]. split; [exact H|]. destruct Hr as [[Hr _]|(_ & _ & _ & Ht & Hf)]; [discriminate Hr|]. exact (conj Ht Hf).
Defined.

Lemma ffs_fragacct_counts_witness : exists l', ffs_fragacct tiny 5 [0; 0; 0; 0; 0; 0; 0; 0] 1 = Ret l' /\ l' !! 1%nat = Some 2.
Proof.
  destruct (ffs_fragacct_counts tiny 5 1 [0; 0; 0; 0; 0; 0; 0; 0] (fo_frag _ tiny_ok)) as (l' & E & _ & H); [by cbn|done|repeat constructor; by cbn|].
  exists l'. split; [exact E|]. rewrite (H 1%nat 0 eq_refl). reflexivity.
Defined.

Lemma ffs_inode_alloc_answers_witness : exists e ip' m',
  ffs_inode_alloc tiny tiny_tuning false (fun _ => true) tiny_mounted tiny_inode false 0x81a4 7 9 (fun n => inr (Inode n 0 0 0 0 0 [])) = Ret (e, ip', m') /\ disk_ok tiny (m_disk m').
Proof.
  destruct (ffs_inode_alloc_answers tiny tiny_tuning false (fun _ => true) tiny_mounted tiny_inode false 0x81a4 7 9 (fun n => inr (Inode n 0 0 0 0 0 [])) tiny_ok tiny_disk_ok) as (e & ip' & m' & E & H & _); [cbn; lia|done|reflexivity|by intros n ip [= <-]|done|].
  exists e, ip', m'. exact (conj E H).
Defined.
